(* ===== verification/_CoqProject ===== *)
-Q . S2P
Prelude.v
FieldAccess.v
StreamReader.v
Capped.v
Msg.v
AnomalyTracker.v
InputDg.v
Batch.v
PerTopicBatcher.v
BrokerMsgQueue.v
Metadata.v
Wire.v
ProduceResponse.v
StdMap.v
ResponseProcessor.v
ProduceRequest.v
RequestFactory.v
RequestBytes.v
RequestSize.v
Connector.v
ConnectorInv.v
ConnectorSend.v
ConnectorRecv.v
ConnectorRun.v
RateLimiter.v
Backoff.v
DispatcherApi.v
Router.v
RouterRoute.v
DispatcherContract.v
RouterMsgs.v
KafkaDispatcher.v
ConnectorFrame.v
DispatcherInv.v
DispatcherRun.v
RouterExamples.v
RouterFindings.v
MetadataResponse.v
MetadataReader.v
MetadataFormat.v
MetadataWriter.v
MetadataProto.v
IoUtil.v
MetadataFetcher.v
Threads.v
InputAgents.v
InputSystem.v
