(* ===== verification/Prelude.v ===== *)
(** * Dory: a verification of the Kafka producer daemon

    Dory takes messages from local clients and delivers them to a Kafka cluster.  This
    development models the path of a message through the daemon and proves that the
    code keeps, orders, counts, serializes and hands over messages as it means to.

    ** The program and its model

    A client writes a datagram (dory/client/libdory_client.c, dory/input_dg).  An input
    thread parses it and creates a message, whose body is in blocks of a capped memory
    pool (src/capped), or discards it and tells the anomaly tracker.  The router thread
    (dory/router_thread.cc) checks the message against the cluster's metadata and the
    rate limits, batches it by topic, and gives it to the dispatcher
    (dory/msg_dispatch/kafka_dispatcher.cc) for a broker.  The dispatcher has a
    connector thread (dory/msg_dispatch/connector.cc) per broker, which takes the
    messages from its queue, builds produce requests, sends them, reads the responses
    from the stream and processes the acknowledgements.  On an error a connector hits
    the pause button; the router then joins all connectors, gets new metadata, starts
    the dispatcher anew and reroutes what is left.  The message state tracker counts
    the messages in each state all along.

    Every file's own comment says which sources it models; a definition has the name of
    the method that it translates, with the name of the class in front where two
    classes use the same.

    - Prelude: machine integers, the monad of outcomes, lists, tactics and hints.
    - FieldAccess, Wire, StdMap: big-endian fields (base/field_access.h), buffers of the
      wire formats, [std::map].
    - StreamReader: [TBuf], [TStreamMsgReader] and [TStreamMsgWithSizeReader] (src/base).
    - Capped: [TPool], [TBlob], [TWriter], [TReader] (src/capped).
    - Msg: [TMsg] and [TMsgStateTracker].  AnomalyTracker: [TAnomalyTracker].
    - InputDg: the client library's writers and the server's parser of datagrams.
    - Threads: event semaphores, gates and managed threads (src/base, src/thread).
      InputAgents: the threads of the stream clients and of the UNIX datagram socket.
      InputSystem: what they are to do, and the claims on all of them together.
    - Batch, PerTopicBatcher: [TBatcherCore] and the three batchers (dory/batch).
    - BrokerMsgQueue: [TBrokerMsgQueue].  Metadata: [TMetadata] and its builder.
    - ProduceRequest, ProduceResponse: the version 0 writers and reader of the produce
      protocol (dory/kafka_proto/produce/v0).
    - MetadataResponse, MetadataReader, MetadataFormat, MetadataWriter, MetadataProto: the
      metadata protocol (dory/kafka_proto/metadata/v0): the reader and writer of
      responses, the format, the requests and the uses of a response.
    - IoUtil: transfers of whole buffers with a deadline, times and fatal errors
      (base/io_util.cc, base/time.cc, base/wr).  MetadataFetcher: [TMetadataFetcher],
      [ConnectToHost] and [TCursor], over any network ([SockEnv], [NetEnv]).
    - RequestFactory, RequestBytes, RequestSize: [TProduceRequestFactory], the bytes of
      its requests and their sizes.
    - ResponseProcessor: [TProduceResponseProcessor] and the shared state's discards.
    - Connector: [TConnector].  ConnectorInv, ConnectorSend, ConnectorRecv, ConnectorRun:
      its invariant and claims.  ConnectorFrame: what its thread does not touch.
    - RateLimiter: [TMsgRateLimiter] and its configuration.  Backoff:
      [TRandomExpBackoff], [TBackoffRateLimiter], [TDoryRateLimiter].
    - DispatcherApi: the interface [TKafkaDispatcherApi], as a class.  Router: all of
      [TRouterThread], over any dispatcher and any world ([RouterEnv]: clocks, random
      numbers, file descriptors, the metadata fetcher, the message channel).
      RouterRoute, RouterMsgs: its claims.  DispatcherContract: the laws that a
      dispatcher promises to the router, as a class.
    - KafkaDispatcher: [TKafkaDispatcher] with its threads.  DispatcherInv,
      DispatcherRun: its invariant, that it keeps the contract, and its claims.
    - RouterExamples: witnesses for the router and the dispatcher.  RouterFindings:
      histories in which the code fails its own assertions.

    ** How the code is modelled

    A method is a function in the monad [M E S A]: from a state to an outcome and a
    state.  An outcome is a result ([Ret]), a C++ exception ([Throw], with a type of
    exceptions of the component), or a fault ([Fault]): a failed assertion, an access
    out of bounds, a null pointer, a signed overflow, a division by zero, or [Die].  So
    the theorems that a call returns also say that it does none of these.  Integers are
    in [Z] at the width of the source ([uwrap], [swrap]); indexes and sizes of
    containers are in [nat] where they cannot wrap.  What the language leaves open (the
    order of hash tables, of [std::sort] on equal items, [std::shuffle]) is a parameter,
    and so is the code outside the sources (CRC, compression), the clocks and the
    results of system calls.  A critical section is one step; where a method does more
    outside of its mutex and other threads may run in between (the broker message queue, a
    gate), that is another step.

    The threads of the connectors interleave: a step of a thread is an iteration of its
    main loop, and [dispatcher_life] (DispatcherRun) is the relation of all histories of
    starts, steps in any order and commands of the router.  Likewise [input_step]
    (InputSystem) interleaves the iterations of the input threads, and [gate_step]
    (Threads) and [queue_step] (BrokerMsgQueue) the critical sections and semaphore
    operations of the users of a gate and of a queue.  [pool_step] (Capped) and [tstep]
    (Msg) are the histories of the memory pool and of the tracker.

    ** What the theorems show

    - Formats: the parser accepts exactly the datagrams that the client library writes, and
      creates the message that was written; it terminates with a message or a counted discard (InputDg); the requests and
      responses have the documented bytes and are read back (ProduceRequest,
      ProduceResponse, RequestBytes, MetadataProto); the stream reader delivers exactly the
      frames of the stream, however the bytes arrive, in bounded memory (StreamReader).
    - Input: in every interleaving of the input threads the result is that of processing
      one datagram after the other, those of a client being the frames of its stream; the
      threads are safe whatever clients send, up to the failures that are stated
      (InputSystem).  A gate loses neither items nor wakeups; a managed thread can be
      waited for, joined and started again (Threads).
    - Memory: in every history of a pool its blocks are free or in exactly one blob, and a
      body is refused exactly if its blocks are not there (Capped).
    - Counting: the tracker's counts are those of the messages that exist, and of those
      that were destroyed before they were processed (Msg); the
      reports of anomalies those of the events of their period (AnomalyTracker).
    - Batching and queueing: no message is lost or duplicated, the limits hold, due
      batches come out, and no wakeup of the sender is lost, however the threads
      interleave (Batch, PerTopicBatcher, BrokerMsgQueue).
    - Metadata: the builder refines a declarative reading of the response (Metadata);
      however the system calls split the data, a fetch sends exactly the request and
      reads exactly one response, and either builds the metadata that the response
      describes or reports the failure, or ends the process for an error that the code does
      not tolerate; in any world whose broker can be reached and answers in time it
      succeeds (IoUtil, MetadataFetcher).
    - Connector: in every history of its loop each message is in one place, processed,
      or was dropped by a bad response; the broker gets the requests in order; the
      cleanup hands over the rest; the cases in which the thread ends the process are
      stated (ConnectorRun).
    - Rate limits: the limiter equals a count over the history, also for messages that come
      out of the order of their times (RateLimiter).  Backoff:
      the delays stay within their bounds.
    - Router: with a dispatcher that keeps its contract, every new message is accepted
      by the dispatcher, batched, or discarded for a reason; the choice of partitions is
      the documented one, the turns are fair (RouterRoute, RouterMsgs).
    - Dispatcher: it keeps the contract; an interleaving of its threads ends the process
      only if a counter overflows, a socket fails in a way that the code takes as fatal, or
      a connector that has acknowledged one shutdown command gets another; the event of the last thread comes exactly then; after the join it can
      be started again and every message is handed back (DispatcherInv, DispatcherRun).

    ** Bounds

    Structural recursion is used wherever the code's loop follows a list.  Loops of the
    code that are not bounded by a list take fuel, and running out of it is the fault
    [OutOfFuel], which the theorems exclude: the loop over the responses in the stream
    buffer, and the one over the messages of an input stream, get one unit per byte, of
    which each response or message consumes at least one; the
    search for a partition by key gets the number of partitions; the merge of the
    brokers' lists gets the number of batches; a transfer and the reading of a metadata
    response get one unit per byte, up to the limit of 4 MiB and the size field, of which
    each turn on a blocking socket reads at least one.  The retries of metadata requests and the
    main loop of the router do not terminate on their own; they take fuel as an
    argument, and the theorems hold for every amount.  The counters of [size_t] and
    [int32_t] have hypotheses that they stay in range, or the outcome [Overflow] is
    stated.

    ** Not modelled

    - Logging, the counters of the web interface and the interface itself
      (dory/web_interface.cc, dory/web_request_handler.cc): output of text.
    - The XML configuration files (dory/conf/conf.cc, src/xml): traversal of the trees of
      an external library; the values are records of configuration here.
    - Servers, files and signals (src/server, src/socket except [TCursor] and
      [TNamedUnixSocket]), [connect()] and name resolution: system calls, whose results
      are arguments.
    - Thread creation, the thread pools and the fibers (src/thread, src/fiber), except the
      start, the end and the join of a managed thread and of a connector's thread.
    - The codecs (dory/compress): calls of zlib, LZ4 and Snappy.
    - The start-up of the daemon and the command lines (dory/dory.cc, dory_server.cc),
      the mock Kafka server and the tests.
    - The destructor of the router thread, which only runs when the daemon ends. *)
From Stdlib Require Export ZArith Lia Strings.Byte Sorting.Sorted.
From stdpp Require Export base tactics numbers list gmap strings option sorting.
Export list_basics.list list_relations.list list_monad.list list_misc.list.

Open Scope Z_scope.
Set Default Goal Selector "!".

(** ** Machine integers

    A C++ integer of width [w] is a [Z]; the conversions of the source to an
    unsigned or a signed type of that width are [uwrap] and [swrap]. *)

Definition uwrap (w : Z) (z : Z) : Z := z `mod` 2 ^ w.

Definition swrap (w : Z) (z : Z) : Z :=
  (z + 2 ^ (w - 1)) `mod` 2 ^ w - 2 ^ (w - 1).

Definition in_u (w : Z) (z : Z) : Prop := 0 ≤ z < 2 ^ w.

Definition in_s (w : Z) (z : Z) : Prop := - 2 ^ (w - 1) ≤ z < 2 ^ (w - 1).

Definition INT16_MAX : Z := 32767.
Definition INT32_MAX : Z := 2147483647.
Definition INT64_MAX : Z := 9223372036854775807.

#[global] Instance in_u_dec w z : Decision (in_u w z).
Proof. unfold in_u. apply _. Defined.

#[global] Instance in_s_dec w z : Decision (in_s w z).
Proof. unfold in_s. apply _. Defined.

Lemma uwrap_small w z : in_u w z → uwrap w z = z.
Proof. intros [? ?]. by apply Z.mod_small. Qed.

Lemma uwrap_range w z : 0 ≤ w → in_u w (uwrap w z).
Proof. intros Hw. apply Z.mod_pos_bound. by apply Z.pow_pos_nonneg. Qed.

(** Addition and subtraction of a [size_t]. *)
Definition uadd (a b : Z) : Z := uwrap 64 (a + b).
Definition usub (a b : Z) : Z := uwrap 64 (a - b).

Lemma uadd_small a b : 0 ≤ a + b < 2 ^ 64 → uadd a b = a + b.
Proof. apply uwrap_small. Qed.

Lemma usub_small a b : 0 ≤ a - b < 2 ^ 64 → usub a b = a - b.
Proof. apply uwrap_small. Qed.

Lemma pow2_double w : 0 < w → 2 ^ w = 2 * 2 ^ (w - 1).
Proof. intros Hw. rewrite <- Z.pow_succ_r by lia. f_equal; lia. Qed.

Lemma swrap_small w z : 0 < w → in_s w z → swrap w z = z.
Proof.
  intros Hw [? ?]. unfold swrap. pose proof (pow2_double w Hw).
  rewrite Z.mod_small by lia. lia.
Qed.

Lemma swrap_range w z : 0 < w → in_s w (swrap w z).
Proof.
  intros Hw. unfold swrap, in_s. pose proof (pow2_double w Hw).
  assert (0 < 2 ^ w) by (apply Z.pow_pos_nonneg; lia).
  pose proof (Z.mod_pos_bound (z + 2 ^ (w - 1)) (2 ^ w)). lia.
Qed.

Lemma swrap_uwrap w z : 0 < w → swrap w (uwrap w z) = swrap w z.
Proof.
  intros Hw. unfold swrap, uwrap.
  assert (0 < 2 ^ w) by (apply Z.pow_pos_nonneg; lia).
  by rewrite Zplus_mod_idemp_l.
Qed.

(** Evaluates the powers of two of a width that is a literal. *)
Ltac eval_widths :=
  unfold in_u, in_s, INT16_MAX, INT32_MAX, INT64_MAX in *;
  repeat match goal with
  | |- context [2 ^ ?w] =>
      let v := eval vm_compute in (2 ^ w) in change (2 ^ w) with v
  | H : context [2 ^ ?w] |- _ =>
      let v := eval vm_compute in (2 ^ w) in change (2 ^ w) with v in H
  end.

Ltac width_lia := eval_widths; lia.

(** ** Effects

    The source mutates objects and throws exceptions: a computation takes the
    state and returns an outcome with the state as the code left it, also when
    it throws.  [Fault] is what C++ leaves undefined or stops on: an access
    outside an object, a null dereference, a failed assertion, a signed overflow,
    a division by zero, or a call of [Die] (base/error_util.h), which ends the process. *)

Inductive fault :=
| OutOfBounds
| NullDeref
| AssertFailed
| Died
| Overflow
| OutOfFuel
| DivByZero.

Inductive outcome (E A : Type) :=
| Ret (a : A)
| Throw (e : E)
| Fault (f : fault).
Arguments Ret {E A} a.
Arguments Throw {E A} e.
Arguments Fault {E A} f.

Definition M (E S A : Type) : Type := S → outcome E A * S.

Section monad.
Context {E S : Type}.

#[global] Instance M_ret : MRet (M E S) := λ A a s, (Ret a, s).

#[global] Instance M_bind : MBind (M E S) := λ A B f m s,
  match m s with
  | (Ret a, s') => f a s'
  | (Throw e, s') => (Throw e, s')
  | (Fault x, s') => (Fault x, s')
  end.

Definition get : M E S S := λ s, (Ret s, s).

Definition gets {A} (f : S → A) : M E S A := λ s, (Ret (f s), s).

Definition modify (f : S → S) : M E S () := λ s, (Ret (), f s).

Definition throw {A} (e : E) : M E S A := λ s, (Throw e, s).

Definition crash {A} (x : fault) : M E S A := λ s, (Fault x, s).

(** [assert(b)] of the source, in a build that keeps assertions. *)
Definition massert (b : bool) : M E S () :=
  if b then mret () else crash AssertFailed.

(** [try { m } catch (const E &) { h }]. *)
Definition try_catch {A} (m : M E S A) (h : E → M E S A) : M E S A := λ s,
  match m s with
  | (Throw e, s') => h e s'
  | r => r
  end.

(** A value that the code has to find, or a fault. *)
Definition need {A} (x : fault) (o : option A) : M E S A :=
  match o with Some a => mret a | None => crash x end.

End monad.

(** A computation on a part of the state. *)
Definition zoom {E S T A} (proj : S → T) (upd : T → S → S) (m : M E T A) : M E S A := λ s,
  let '(o, t) := m (proj s) in (o, upd t s).

(** [m] on every element of a list, in order. *)
Fixpoint mmap {E S A B} (f : A → M E S B) (l : list A) : M E S (list B) :=
  match l with
  | [] => mret []
  | a :: l => b ← f a; bs ← mmap f l; mret (b :: bs)
  end.

Arguments M_ret {E S} A a s /.
Arguments get {E S} s /.
Arguments gets {E S A} f s /.
Arguments modify {E S} f s /.
Arguments throw {E S A} e s /.
Arguments crash {E S A} x s /.

Lemma bind_Ret {E S A B} (m : M E S A) (f : A → M E S B) s a s' :
  m s = (Ret a, s') → (m ≫= f) s = f a s'.
Proof. intros H. unfold mbind, M_bind. by rewrite H. Qed.

Lemma bind_assoc_Ret {E S A B C} (m : M E S A) (k : A → M E S B) (f : B → M E S C) s b s' :
  (m ≫= k) s = (Ret b, s') → (m ≫= λ a, k a ≫= f) s = f b s'.
Proof. unfold mbind, M_bind. destruct (m s) as [[a | e | x] s1]; [| done..]. intros Hk. by rewrite Hk. Qed.

Lemma bind_Throw {E S A B} (m : M E S A) (f : A → M E S B) s e s' :
  m s = (Throw e, s') → (m ≫= f) s = (Throw e, s').
Proof. intros H. unfold mbind, M_bind. by rewrite H. Qed.

Lemma bind_Fault {E S A B} (m : M E S A) (f : A → M E S B) s x s' :
  m s = (Fault x, s') → (m ≫= f) s = (Fault x, s').
Proof. intros H. unfold mbind, M_bind. by rewrite H. Qed.

Lemma bind_inv_Ret {E S A B} (m : M E S A) (f : A → M E S B) s b s'' :
  (m ≫= f) s = (Ret b, s'') →
  ∃ a s', m s = (Ret a, s') ∧ f a s' = (Ret b, s'').
Proof.
  unfold mbind, M_bind. intros H.
  destruct (m s) as [[a | e | x] s'] eqn:Hm; naive_solver.
Qed.

(** An assertion that holds has no effect. *)
Lemma massert_bind {E S A} (b : bool) (f : () → M E S A) s :
  b = true → (massert b ≫= f) s = f () s.
Proof. by intros ->. Qed.

(** What a run of [m] from [s] ends with: a result and a state in [Q], an
    exception and a state in [T], or a fault in [F]. *)
Definition wp {E S A} (m : M E S A) (s : S) (Q : A → S → Prop) (T : E → S → Prop) (F : fault → Prop) : Prop :=
  match m s with
  | (Ret a, s') => Q a s'
  | (Throw e, s') => T e s'
  | (Fault x, _) => F x
  end.

Section wp.
Context {E S : Type} (T : E → S → Prop) (F : fault → Prop).

Lemma wp_bind {A B} (m : M E S A) (f : A → M E S B) s Q :
  wp m s (λ a s', wp (f a) s' Q T F) T F → wp (m ≫= f) s Q T F.
Proof. unfold wp, mbind, M_bind. by destruct (m s) as [[] ?]. Qed.

Lemma wp_Ret {A} (m : M E S A) s a s' (Q : A → S → Prop) : m s = (Ret a, s') → Q a s' → wp m s Q T F.
Proof. unfold wp. by intros ->. Qed.

Lemma wp_Throw {A} (m : M E S A) s x s' (Q : A → S → Prop) : m s = (Throw x, s') → T x s' → wp m s Q T F.
Proof. unfold wp. by intros ->. Qed.

Lemma wp_bind_Ret {A B} (m : M E S A) (f : A → M E S B) s a s' Q :
  m s = (Ret a, s') → wp (f a) s' Q T F → wp (m ≫= f) s Q T F.
Proof. intros Hm Hf. apply wp_bind. by eapply wp_Ret. Qed.

Lemma wp_bind_Throw {A B} (m : M E S A) (f : A → M E S B) s x s' Q :
  m s = (Throw x, s') → T x s' → wp (m ≫= f) s Q T F.
Proof. intros Hm Hf. apply wp_bind. by eapply wp_Throw. Qed.

Lemma wp_massert {A} (b : bool) (f : () → M E S A) s Q :
  b = true → wp (f ()) s Q T F → wp (massert b ≫= f) s Q T F.
Proof. intros ->. by apply wp_bind_Ret. Qed.

Lemma wp_mono {A} (m : M E S A) s (Q Q' : A → S → Prop) :
  wp m s Q T F → (∀ a s', Q a s' → Q' a s') → wp m s Q' T F.
Proof. unfold wp. destruct (m s) as [[] ?]; auto. Qed.
End wp.

Lemma wp_weaken {E S A} (m : M E S A) s (Q Q' : A → S → Prop) (T T' : E → S → Prop) (F F' : fault → Prop) :
  wp m s Q T F → (∀ a s', Q a s' → Q' a s') → (∀ x s', T x s' → T' x s') → (∀ x, F x → F' x) → wp m s Q' T' F'.
Proof. unfold wp. destruct (m s) as [[] ?]; auto. Qed.

(** Two specifications of one computation. *)
Lemma wp_conj {E S A} (m : M E S A) s (Q Q' : A → S → Prop) (T T' : E → S → Prop) (F F' : fault → Prop) :
  wp m s Q T F → wp m s Q' T' F' →
  wp m s (λ a s', Q a s' ∧ Q' a s') (λ x s', T x s' ∧ T' x s') (λ x, F x ∧ F' x).
Proof. unfold wp. destruct (m s) as [[] ?]; auto. Qed.

(** A step of a run that computes. *)
Ltac wstep := eapply wp_bind_Ret; [reflexivity | cbv beta].

(** Unfolds one layer of the monad's primitives. *)
Ltac munfold :=
  unfold massert, need, try_catch in *;
  unfold mbind, mret, M_bind, M_ret, get, gets, modify, throw, crash in *.

(** ** Record updates

    [r <| f := x |>] is the record [r] with the field [f] changed, for a record
    type with a [Settable] instance (the identity, written with the constructor
    and the projections). *)

Class Settable (R : Type) := eta_of : R → R.
Class Setter {R T} (proj : R → T) := set_field : (T → T) → R → R.

Ltac find_setter proj :=
  lazymatch type of proj with
  | ?R → _ =>
      let e := eval hnf in (eta_of (R := R)) in
      lazymatch eval pattern proj in e with
      | ?s _ => exact (λ f, s (λ r, f (proj r)))
      end
  end.

#[global] Hint Extern 1 (Setter ?p) => find_setter p : typeclass_instances.

Notation "r '<|' p ':=' x '|>'" := (set_field (proj := p) (λ _, x) r)
  (at level 1, p constr at level 0, left associativity).

(** ** Lists *)

(** [sum_list_with] over [Z]. *)
Definition sumZ (l : list Z) : Z := foldr Z.add 0 l.

Lemma sumZ_app l k : sumZ (l ++ k) = sumZ l + sumZ k.
Proof. unfold sumZ. induction l as [| x l IH]; cbn; lia. Qed.

Lemma sumZ_nonneg l : Forall (λ x, 0 ≤ x) l → 0 ≤ sumZ l.
Proof. unfold sumZ. induction 1; cbn; lia. Qed.

Lemma filter_all {A} (P : A → Prop) `{!∀ x, Decision (P x)} (l : list A) :
  (∀ x, x ∈ l → P x) → filter P l = l.
Proof.
  induction l as [| x l IH]; intros Hl; [done |].
  rewrite filter_cons, decide_True by (apply Hl; left). f_equal. apply IH. intros y Hy. apply Hl. by right.
Qed.

Lemma filter_none {A} (P : A → Prop) `{!∀ x, Decision (P x)} (l : list A) :
  (∀ x, x ∈ l → ¬ P x) → filter P l = [].
Proof.
  induction l as [| x l IH]; intros Hl; [done |].
  rewrite filter_cons, decide_False by (apply Hl; left). apply IH. intros y Hy. apply Hl. by right.
Qed.

Lemma take_drop_app {A} (l k : list A) n :
  n = length l → take n (l ++ k) = l ∧ drop n (l ++ k) = k.
Proof. intros ->. split; [apply take_app_length | apply drop_app_length]. Qed.

(** ** Hash tables *)

(** The order in which a loop visits an [unordered_map]: some order of its
    items. *)
Class HashOrder := {
  hash_order {K} `{Countable K} {A} : gmap K A → list (K * A);
  hash_order_perm {K} `{Countable K} {A} (m : gmap K A) : hash_order m ≡ₚ map_to_list m
}.

(** One possible order. *)
Definition map_order : HashOrder :=
  {| hash_order K _ _ A m := map_to_list m; hash_order_perm K _ _ A m := reflexivity _ |}.

Lemma elem_of_hash_order `{HashOrder} {K} `{Countable K} {A} (m : gmap K A) k a :
  (k, a) ∈ hash_order m ↔ m !! k = Some a.
Proof. by rewrite hash_order_perm, elem_of_map_to_list. Qed.

Lemma hash_order_keys `{HashOrder} {K} `{Countable K} {A} (m : gmap K A) :
  NoDup (hash_order m).*1 ∧ ∀ k, k ∈ (hash_order m).*1 ↔ is_Some (m !! k).
Proof.
  split; [rewrite hash_order_perm; apply NoDup_fst_map_to_list |].
  intros k. rewrite list_elem_of_fmap. split.
  - intros ([k' a] & -> & Hx%elem_of_hash_order). by exists a.
  - intros [a Ha]. exists (k, a). split; [done |]. by apply elem_of_hash_order.
Qed.

(** [insert] of an [unordered_map]: a key that is there keeps its value.  The
    flag is [true] if the item was inserted. *)
Definition map_emplace {K} `{Countable K} {A} (k : K) (a : A) (m : gmap K A) : gmap K A * bool :=
  match m !! k with Some _ => (m, false) | None => (<[k := a]> m, true) end.

(** ** Sorting *)

(** A comparison that [std::sort] accepts. *)
Record strict_weak {A} (lt : A → A → bool) : Prop := {
  sw_asym x y : lt x y = true → lt y x = false;
  sw_trans x y z : lt y x = false → lt z y = false → lt z x = false
}.

Definition not_after {A} (lt : A → A → bool) (x y : A) : Prop := lt y x = false.

#[global] Instance not_after_dec {A} (lt : A → A → bool) : RelDecision (not_after lt).
Proof. intros x y. unfold not_after. apply _. Defined.

(** [std::sort]: the items in some order that no pair violates. *)
Class StdSort := {
  std_sort {A} : (A → A → bool) → list A → list A;
  std_sort_perm {A} (lt : A → A → bool) l : std_sort lt l ≡ₚ l;
  std_sort_sorted {A} (lt : A → A → bool) l :
    strict_weak lt → StronglySorted (not_after lt) (std_sort lt l)
}.

Lemma merge_sort_sorted {A} (lt : A → A → bool) l :
  strict_weak lt → StronglySorted (not_after lt) (merge_sort (not_after lt) l).
Proof.
  intros [Ha Ht]. apply StronglySorted_merge_sort.
  - intros x y z. apply Ht.
  - intros x y. unfold not_after. destruct (lt y x) eqn:E; [right; by apply Ha | by left].
Qed.

Definition merge_order : StdSort := {|
  std_sort A lt l := merge_sort (not_after lt) l;
  std_sort_perm A lt l := merge_sort_Permutation _ l;
  std_sort_sorted A lt l := merge_sort_sorted lt l
|}.

(** ** Automation *)

Create HintDb dory discriminated.
#[export] Hint Resolve uwrap_range swrap_range : dory.
Create Rewrite HintDb len.
#[export] Hint Rewrite @length_app @length_take @length_drop @length_fmap
  @length_replicate @length_insert : len.

(** Length facts reduced to arithmetic. *)
Ltac solve_len := autorewrite with len in *; cbn [length] in *; lia.

(** Boolean tests that arithmetic decides. *)
Ltac boolia :=
  first [ done | lia | apply Nat.leb_le; lia | apply Nat.ltb_lt; lia | apply Nat.eqb_eq; lia ].

(** Splits on the boolean comparisons of a model, leaving their meaning. *)
Ltac case_test :=
  match goal with
  | |- context [if (?x <? ?y)%Z then _ else _] => destruct (Z.ltb_spec x y)
  | |- context [if (?x <=? ?y)%Z then _ else _] => destruct (Z.leb_spec x y)
  | |- context [if (?x =? ?y)%Z then _ else _] => destruct (Z.eqb_spec x y)
  | H : context [if (?x <? ?y)%Z then _ else _] |- _ => destruct (Z.ltb_spec x y)
  | H : context [if (?x <=? ?y)%Z then _ else _] |- _ => destruct (Z.leb_spec x y)
  | H : context [if (?x =? ?y)%Z then _ else _] |- _ => destruct (Z.eqb_spec x y)
  end.

(** ** Permutations by counting *)

Section occ.
Context {A : Type} `{EqDecision A}.

Definition occ (l : list A) (x : A) : Z := Z.of_nat (length (filter (λ y, y = x) l)).

Lemma occ_perm l k : l ≡ₚ k ↔ ∀ x, occ l x = occ k x.
Proof.
  unfold occ. split.
  - intros Hp x. by rewrite Hp.
  - revert k. induction l as [| y l IH]; intros k Hk.
    + destruct k as [| y k]; [done |]. specialize (Hk y).
      rewrite filter_cons, decide_True in Hk by done. done.
    + assert (y ∈ k) as (k1 & k2 & ->)%list_elem_of_split.
      { specialize (Hk y). rewrite filter_cons, decide_True in Hk by done.
        destruct (filter _ k) as [| z k'] eqn:E; [done |].
        assert (z ∈ filter (λ x, x = y) k) as [-> ?]%list_elem_of_filter by (rewrite E; left). done. }
      rewrite <- Permutation_middle. constructor. apply IH. intros x. specialize (Hk x).
      rewrite <- Permutation_middle, !filter_cons in Hk. case_decide; cbn in Hk; lia.
Qed.

Lemma occ_app l k x : occ (l ++ k) x = occ l x + occ k x.
Proof. unfold occ. rewrite filter_app, length_app. lia. Qed.

Lemma occ_cons y l x : occ (y :: l) x = occ [y] x + occ l x.
Proof. exact (occ_app [y] l x). Qed.

Lemma occ_nil x : occ [] x = 0.
Proof. done. Qed.
End occ.

(** Solves a permutation of appended lists from others, by counting. *)
Ltac perm_lia :=
  rewrite ?fmap_app, ?fmap_cons, ?fmap_app, ?occ_perm in *;
  let x := fresh in intros x;
  repeat match goal with H : ∀ _, occ _ _ = occ _ _ |- _ => specialize (H x) end;
  repeat match goal with
  | H : context [occ (_ ++ _) _] |- _ => rewrite occ_app in H
  | |- context [occ (_ ++ _) _] => rewrite occ_app
  | H : context [occ (?y :: ?l) ?x] |- _ =>
     lazymatch l with [] => fail | _ => rewrite (occ_cons y l) in H end
  | |- context [occ (?y :: ?l) ?x] =>
     lazymatch l with [] => fail | _ => rewrite (occ_cons y l) end
  end;
  rewrite ?occ_nil in *; lia.
