(* ===== verification/FieldAccess.v ===== *)
(** * Fixed-width header fields (base/field_access.h, base/endian.h)

    Bytes, their integer values, and the big-endian field accessors used by
    every wire format of the program.  An accessor of the source loads or
    stores a host integer and swaps it with [ntohs], [ntohl] or [be64toh]; the
    model does the same on a little-endian host.  The lemmas show that each
    accessor reads and writes the big-endian value, and that reading what was
    written returns it. *)
From S2P Require Import Prelude.

(** ** Bytes *)

Definition Z_of_byte (b : byte) : Z := Z.of_N (Byte.to_N b).

Definition byte_of_Z (z : Z) : byte :=
  match Byte.of_N (Z.to_N (uwrap 8 z)) with
  | Some b => b
  | None => x00
  end.

Lemma Z_of_byte_range b : in_u 8 (Z_of_byte b).
Proof.
  pose proof (Byte.to_N_bounded b). unfold Z_of_byte. split; [lia |].
  change (2 ^ 8) with 256. lia.
Qed.

Lemma Z_of_byte_of_Z z : Z_of_byte (byte_of_Z z) = uwrap 8 z.
Proof.
  unfold byte_of_Z. pose proof (uwrap_range 8 z ltac:(lia)) as [Hl Hh].
  change (2 ^ 8) with 256 in Hh.
  destruct (Byte.of_N _) as [b |] eqn:Hb.
  - apply Byte.to_of_N in Hb. unfold Z_of_byte. rewrite Hb. lia.
  - apply Byte.of_N_None_iff in Hb. lia.
Qed.

Lemma byte_of_Z_of_byte b : byte_of_Z (Z_of_byte b) = b.
Proof.
  unfold byte_of_Z. rewrite uwrap_small by apply Z_of_byte_range.
  unfold Z_of_byte. by rewrite N2Z.id, Byte.of_to_N.
Qed.

#[global] Instance byte_eq_dec : EqDecision byte := Byte.byte_eq_dec.

#[global] Instance Z_of_byte_inj : Inj (=) (=) Z_of_byte.
Proof.
  intros b c H. by rewrite <- (byte_of_Z_of_byte b), H, byte_of_Z_of_byte.
Qed.

(** ** Little-endian host memory *)

(** The value of an integer object whose bytes are [l], lowest address first. *)
Fixpoint le_value (l : list byte) : Z :=
  match l with
  | [] => 0
  | b :: l => Z_of_byte b + 256 * le_value l
  end.

(** The [n] bytes of an integer object of value [z]. *)
Fixpoint le_bytes (n : nat) (z : Z) : list byte :=
  match n with
  | O => []
  | S n => byte_of_Z z :: le_bytes n (z `div` 256)
  end.

Lemma length_le_bytes n z : length (le_bytes n z) = n.
Proof. revert z. induction n; intros z; cbn; auto. Qed.

Lemma pow256 (n : nat) : 2 ^ (8 * Z.of_nat (S n)) = 256 * 2 ^ (8 * Z.of_nat n).
Proof.
  replace (8 * Z.of_nat (S n)) with (8 + 8 * Z.of_nat n) by lia.
  by rewrite Z.pow_add_r by lia.
Qed.

Lemma le_value_range l : in_u (8 * Z.of_nat (length l)) (le_value l).
Proof.
  induction l as [| b l IH]; [done |]. cbn [le_value length].
  unfold in_u in *. rewrite pow256.
  pose proof (Z_of_byte_range b) as [? ?]. change (2 ^ 8) with 256 in *. lia.
Qed.

Lemma le_value_bytes n z : le_value (le_bytes n z) = uwrap (8 * Z.of_nat n) z.
Proof.
  revert z. induction n as [| n IH]; intros z.
  { cbn. unfold uwrap. by rewrite Z.mod_1_r. }
  cbn [le_bytes le_value]. rewrite IH, Z_of_byte_of_Z. unfold uwrap.
  rewrite pow256. change (2 ^ 8) with 256.
  rewrite Z.rem_mul_r by (try apply Z.pow_nonzero; lia). lia.
Qed.

Lemma le_bytes_value l : le_bytes (length l) (le_value l) = l.
Proof.
  induction l as [| b l IH]; [done |]. cbn [length le_bytes le_value].
  pose proof (Z_of_byte_range b) as Hb. f_equal.
  - rewrite <- (byte_of_Z_of_byte b) at 2. unfold byte_of_Z, uwrap.
    change (2 ^ 8) with 256. by rewrite (Z.mul_comm 256), Z_mod_plus_full.
  - rewrite (Z.mul_comm 256), Z.div_add by lia.
    rewrite Z.div_small by (change (2 ^ 8) with 256 in Hb; destruct Hb; lia).
    done.
Qed.

Lemma le_bytes_uwrap n z : le_bytes n (uwrap (8 * Z.of_nat n) z) = le_bytes n z.
Proof.
  rewrite <- le_value_bytes. rewrite <- (length_le_bytes n z) at 1.
  apply le_bytes_value.
Qed.

(** ** Byte swapping: [SwapEnds] of base/endian.h and the [ntoh]/[hton] family *)

Definition SwapEnds (n : nat) (val : Z) : Z := le_value (rev (le_bytes n val)).

Lemma SwapEnds_range n z : in_u (8 * Z.of_nat n) (SwapEnds n z).
Proof.
  unfold SwapEnds. pose proof (le_value_range (rev (le_bytes n z))) as H.
  by rewrite length_rev, length_le_bytes in H.
Qed.

Lemma SwapEnds_involutive n z :
  SwapEnds n (SwapEnds n z) = uwrap (8 * Z.of_nat n) z.
Proof.
  unfold SwapEnds.
  assert (le_bytes n (le_value (rev (le_bytes n z))) = rev (le_bytes n z)) as ->.
  { rewrite <- (le_bytes_value (rev (le_bytes n z))) at 2.
    by rewrite length_rev, length_le_bytes. }
  by rewrite rev_involutive, le_value_bytes.
Qed.

(** ** Field accessors

    [src] is memory from the address read onwards; a read past its end is no
    value ([None]).  A write returns the bytes stored. *)

Definition load (n : nat) (src : list byte) : option Z :=
  if decide (n ≤ length src)%nat then Some (le_value (take n src)) else None.

Definition ReadUint16FromHeader (src : list byte) : option Z :=
  SwapEnds 2 <$> load 2 src.

Definition ReadInt16FromHeader (src : list byte) : option Z :=
  (λ v, swrap 16 (SwapEnds 2 v)) <$> load 2 src.

Definition ReadUint32FromHeader (src : list byte) : option Z :=
  SwapEnds 4 <$> load 4 src.

Definition ReadInt32FromHeader (src : list byte) : option Z :=
  (λ v, swrap 32 (SwapEnds 4 v)) <$> load 4 src.

Definition ReadUint64FromHeader (src : list byte) : option Z :=
  SwapEnds 8 <$> load 8 src.

Definition ReadInt64FromHeader (src : list byte) : option Z :=
  (λ v, swrap 64 (SwapEnds 8 v)) <$> load 8 src.

Definition WriteUint16ToHeader (value : Z) : list byte :=
  le_bytes 2 (SwapEnds 2 value).

Definition WriteInt16ToHeader (value : Z) : list byte :=
  le_bytes 2 (SwapEnds 2 (uwrap 16 value)).

Definition WriteUint32ToHeader (value : Z) : list byte :=
  le_bytes 4 (SwapEnds 4 value).

Definition WriteInt32ToHeader (value : Z) : list byte :=
  le_bytes 4 (SwapEnds 4 (uwrap 32 value)).

Definition WriteUint64ToHeader (value : Z) : list byte :=
  le_bytes 8 (SwapEnds 8 value).

Definition WriteInt64ToHeader (value : Z) : list byte :=
  le_bytes 8 (SwapEnds 8 (uwrap 64 value)).

(** ** What the accessors do *)

Fixpoint be_value_acc (acc : Z) (l : list byte) : Z :=
  match l with
  | [] => acc
  | b :: l => be_value_acc (256 * acc + Z_of_byte b) l
  end.

(** The value of a field in network byte order. *)
Definition be_value (l : list byte) : Z := be_value_acc 0 l.

Lemma le_value_app l k :
  le_value (l ++ k) = le_value l + 2 ^ (8 * Z.of_nat (length l)) * le_value k.
Proof.
  induction l as [| b l IH]; [cbn; lia |].
  cbn [app le_value length]. rewrite IH, pow256. lia.
Qed.

Lemma be_value_acc_spec l acc :
  be_value_acc acc l = 2 ^ (8 * Z.of_nat (length l)) * acc + le_value (rev l).
Proof.
  revert acc. induction l as [| b l IH]; intros acc; [cbn; lia |].
  cbn [be_value_acc rev length]. rewrite IH, le_value_app, length_rev, pow256.
  cbn [le_value]. lia.
Qed.

Lemma be_value_rev l : be_value l = le_value (rev l).
Proof. unfold be_value. rewrite be_value_acc_spec. lia. Qed.

Lemma SwapEnds_le_value l : SwapEnds (length l) (le_value l) = be_value l.
Proof. unfold SwapEnds. by rewrite le_bytes_value, be_value_rev. Qed.

Lemma load_Some n src v :
  load n src = Some v ↔ (n ≤ length src)%nat ∧ v = le_value (take n src).
Proof.
  unfold load. case_decide; split; [by intros [= <-] | by intros [_ ->] | done |].
  lia.
Qed.

Lemma load_swap n src :
  SwapEnds n <$> load n src =
  if decide (n ≤ length src)%nat then Some (be_value (take n src)) else None.
Proof.
  unfold load. case_decide as Hn; [| done]. cbn. f_equal.
  rewrite <- SwapEnds_le_value. f_equal. rewrite length_take. lia.
Qed.

Lemma load_written n z rest :
  load n (le_bytes n z ++ rest) = Some (uwrap (8 * Z.of_nat n) z).
Proof.
  apply load_Some. rewrite length_app, length_le_bytes. split; [lia |].
  rewrite <- le_value_bytes. f_equal.
  destruct (take_drop_app (le_bytes n z) rest n) as [-> _]; [| done].
  by rewrite length_le_bytes.
Qed.

Lemma swap_written n v :
  SwapEnds n (uwrap (8 * Z.of_nat n) (SwapEnds n v)) = uwrap (8 * Z.of_nat n) v.
Proof. by rewrite uwrap_small, SwapEnds_involutive by apply SwapEnds_range. Qed.

(** Signed fields, generically in the number [n] of bytes. *)
Section signed_field.
Context (n : nat) (Hn : (0 < n)%nat).
Let w : Z := 8 * Z.of_nat n.

Lemma signed_read_written v rest :
  (λ v, swrap w (SwapEnds n v)) <$> load n (le_bytes n (SwapEnds n (uwrap w v)) ++ rest)
  = Some (swrap w v).
Proof.
  rewrite load_written. cbn. f_equal. fold w.
  rewrite swap_written. fold w. rewrite !swrap_uwrap by (unfold w; lia). done.
Qed.

Lemma uwrap_swrap z : uwrap w (swrap w z) = uwrap w z.
Proof.
  unfold uwrap, swrap. rewrite Zminus_mod_idemp_l. f_equal. lia.
Qed.

Lemma signed_written_read src v :
  (λ v, swrap w (SwapEnds n v)) <$> load n src = Some v →
  (n ≤ length src)%nat ∧ in_s w v ∧
  le_bytes n (SwapEnds n (uwrap w v)) = take n src.
Proof.
  intros (z & [Hlen ->]%load_Some & ->)%fmap_Some.
  split; [done |]. split; [apply swrap_range; unfold w; lia |].
  rewrite uwrap_swrap, uwrap_small by apply SwapEnds_range.
  rewrite SwapEnds_involutive, le_bytes_uwrap.
  rewrite <- (le_bytes_value (take n src)) at 2. f_equal.
  rewrite length_take. lia.
Qed.
End signed_field.

Lemma ReadInt16_Write v rest :
  in_s 16 v → ReadInt16FromHeader (WriteInt16ToHeader v ++ rest) = Some v.
Proof.
  intros Hv. etrans; [apply (signed_read_written 2); lia |].
  f_equal. by apply swrap_small.
Qed.

Lemma ReadInt32_Write v rest :
  in_s 32 v → ReadInt32FromHeader (WriteInt32ToHeader v ++ rest) = Some v.
Proof.
  intros Hv. etrans; [apply (signed_read_written 4); lia |].
  f_equal. by apply swrap_small.
Qed.

Lemma ReadInt64_Write v rest :
  in_s 64 v → ReadInt64FromHeader (WriteInt64ToHeader v ++ rest) = Some v.
Proof.
  intros Hv. etrans; [apply (signed_read_written 8); lia |].
  f_equal. by apply swrap_small.
Qed.

Lemma ReadInt16_Some src v :
  ReadInt16FromHeader src = Some v →
  (2 ≤ length src)%nat ∧ in_s 16 v ∧ WriteInt16ToHeader v = take 2 src.
Proof. apply (signed_written_read 2). lia. Qed.

Lemma ReadInt32_Some src v :
  ReadInt32FromHeader src = Some v →
  (4 ≤ length src)%nat ∧ in_s 32 v ∧ WriteInt32ToHeader v = take 4 src.
Proof. apply (signed_written_read 4). lia. Qed.

Lemma ReadInt64_Some src v :
  ReadInt64FromHeader src = Some v →
  (8 ≤ length src)%nat ∧ in_s 64 v ∧ WriteInt64ToHeader v = take 8 src.
Proof. apply (signed_written_read 8). lia. Qed.

Lemma read_is_Some {A} (f : Z → A) n src :
  (n ≤ length src)%nat → is_Some (f <$> load n src).
Proof. intros H. unfold load. rewrite decide_True by done. by eexists. Qed.

Lemma ReadInt16_is_Some src :
  (2 ≤ length src)%nat → is_Some (ReadInt16FromHeader src).
Proof. apply read_is_Some. Qed.

Lemma ReadInt32_is_Some src :
  (4 ≤ length src)%nat → is_Some (ReadInt32FromHeader src).
Proof. apply read_is_Some. Qed.

Lemma ReadInt64_is_Some src :
  (8 ≤ length src)%nat → is_Some (ReadInt64FromHeader src).
Proof. apply read_is_Some. Qed.

Lemma length_WriteInt16 v : length (WriteInt16ToHeader v) = 2%nat.
Proof. apply length_le_bytes. Qed.

Lemma length_WriteInt32 v : length (WriteInt32ToHeader v) = 4%nat.
Proof. apply length_le_bytes. Qed.

Lemma length_WriteInt64 v : length (WriteInt64ToHeader v) = 8%nat.
Proof. apply length_le_bytes. Qed.

#[export] Hint Rewrite length_WriteInt16 length_WriteInt32 length_WriteInt64 : len.
#[export] Hint Resolve ReadInt16_is_Some ReadInt32_is_Some ReadInt64_is_Some : dory.
