(* ===== verification/StreamReader.v ===== *)
(** * Messages from a stream
      (base/buf.h, base/stream_msg_reader.{h,cc},
       base/stream_msg_with_size_reader.{h,cc})

    The read buffer [TBuf], the abstract reader [TStreamMsgReader] as
    operations over an interface of its virtual methods (a class), and the
    subclass for messages that start with a size field as an instance.  The
    results of [read()] are arguments.  The specification is a function that
    splits a byte string into frames; the reader is shown to deliver exactly
    these frames however the bytes arrive. *)
From S2P Require Import Prelude FieldAccess.

(** ** The buffer *)

Record TBuf := mkBuf {
  Storage : list byte;
  ItemOffset : Z;
  ItemCount : Z
}.

Definition BM := M Empty_set TBuf.

Definition TBuf_new : TBuf := mkBuf [] 0 0.

Definition Storage_size (b : TBuf) : Z := Z.of_nat (length (Storage b)).

(** The two assertions most methods start with. *)
Definition check_buf : BM () :=
  b ← get;
  massert (bool_decide (Storage b = []) || (ItemOffset b <? Storage_size b));;
  massert (ItemCount b <=? usub (Storage_size b) (ItemOffset b)).

Definition SpaceSize : BM Z :=
  check_buf;;
  gets (λ b, usub (usub (Storage_size b) (ItemOffset b)) (ItemCount b)).

Definition SpaceIsEmpty : BM bool :=
  check_buf;; n ← SpaceSize; mret (n =? 0).

Definition DataSize : BM Z := check_buf;; gets ItemCount.

Definition DataIsEmpty : BM bool :=
  check_buf;; n ← DataSize; mret (n =? 0).

(** The index in [Storage] of the location returned. *)
Definition Space : BM Z :=
  b ← get;
  massert (ItemOffset b <? Storage_size b);;
  massert (ItemCount b <? usub (Storage_size b) (ItemOffset b));;
  n ← SpaceSize;
  massert (0 <? n);;
  mret (ItemOffset b + ItemCount b).

Definition Data : BM Z :=
  b ← get;
  massert (ItemOffset b <? Storage_size b);;
  massert (ItemCount b <=? usub (Storage_size b) (ItemOffset b));;
  n ← DataSize;
  massert (0 <? n);;
  mret (ItemOffset b).

Definition MarkSpaceConsumed (size : Z) : BM () :=
  check_buf;;
  n ← SpaceSize;
  massert (size <=? n);;
  modify (λ b, mkBuf (Storage b) (ItemOffset b) (uadd (ItemCount b) size)).

Definition MarkDataConsumed (size : Z) : BM () :=
  check_buf;;
  n ← DataSize;
  massert (size <=? n);;
  modify (λ b, mkBuf (Storage b) (uadd (ItemOffset b) size) (usub (ItemCount b) size));;
  modify (λ b, if ItemCount b =? 0 then mkBuf (Storage b) 0 (ItemCount b) else b).

Definition Clear : BM () := n ← gets ItemCount; MarkDataConsumed n.

(** [memmove] of the items to the front. *)
Definition MoveDataToFront : BM () :=
  check_buf;;
  b ← get;
  if ItemOffset b =? 0 then mret () else
  massert (0 <? ItemCount b);;
  let items := take (Z.to_nat (ItemCount b)) (drop (Z.to_nat (ItemOffset b)) (Storage b)) in
  modify (λ b, mkBuf (items ++ drop (length items) (Storage b)) 0 (ItemCount b)).

(** [Storage.resize], value initialising new items. *)
Definition resize (n : Z) (l : list byte) : list byte :=
  take (Z.to_nat n) l ++ replicate (Z.to_nat n - length l) x00.

Definition DoAddSpace (min_to_add : Z) : BM () :=
  massert (0 <? min_to_add);;
  check_buf;;
  added_by_move ← gets ItemOffset;
  MoveDataToFront;;
  if added_by_move <? min_to_add then
    modify (λ b, mkBuf (resize (usub (uadd (Storage_size b) min_to_add) added_by_move) (Storage b))
                   (ItemOffset b) (ItemCount b))
  else mret ().

Definition AddSpace (min_to_add : Z) : BM () :=
  check_buf;;
  if min_to_add =? 0 then mret () else DoAddSpace min_to_add.

Definition EnsureSpace (min_size : Z) : BM () :=
  check_buf;;
  actual ← SpaceSize;
  if actual <? min_size then DoAddSpace (usub min_size actual) else mret ().

Definition EnsureDataPlusSpace (min_size : Z) : BM () :=
  check_buf;;
  actual ← gets (λ b, usub (Storage_size b) (ItemOffset b));
  if actual <? min_size then DoAddSpace (usub min_size actual) else mret ().

Definition TakeStorage : BM (list byte) := λ b, (Ret (Storage b), TBuf_new).

(** Move assignment of a vector. *)
Definition TBuf_assign (items : list byte) : BM () := λ _,
  (Ret (), mkBuf items 0 (Z.of_nat (length items))).

(** ** The reader *)

Inductive TState := ReadNeeded | MsgReady | DataInvalid | AtEnd.

#[global] Instance TState_eq_dec : EqDecision TState.
Proof. solve_decision. Defined.

(** [TGetMsgResult] with its three makers. *)
Inductive TGetMsgResult :=
| ResMsgReady (offset size trailing_data_size : Z)
| ResNoMsgReady
| ResInvalid.

(** The virtual methods of a subclass with state [T].  [GetNextMsg] gets what
    it may ask of the base class: the memory at [GetData()], [GetDataSize()]
    and [AtEndOfInput()]. *)
Class TStreamMsgReaderSub (T : Type) := {
  GetNextReadSize : T → Z;
  GetNextMsg : list byte → Z → bool → M Empty_set T TGetMsgResult;
  HandleReset : T → T;
  BeforeConsumeReadyMsg : T → T
}.

Record TImpl := mkImpl {
  State : TState;
  Fd : Z;
  Buf : TBuf;
  RestrictReadyMsgCalls : bool;
  ReadyMsgOffset : Z;
  ReadyMsgSize : Z;
  TrailingDataSize : Z;
  EndOfInput : bool
}.

Definition TImpl_new (fd : Z) (buf : TBuf) : TImpl :=
  mkImpl (if fd <? 0 then AtEnd else ReadNeeded) (if fd <? 0 then -1 else fd) buf false 0 0 0
    (fd <? 0).

Record TStreamMsgReader (T : Type) := mkReader { Impl : TImpl; Sub : T }.
Arguments mkReader {T} Impl Sub.
Arguments Impl {T} _.
Arguments Sub {T} _.

Definition TStreamMsgReader_new {T} (fd : Z) (sub : T) : TStreamMsgReader T :=
  mkReader (TImpl_new fd TBuf_new) sub.

(** [std::system_error], with the value of [errno]. *)
Inductive system_error := SystemError (errno : Z).

(** What [read()] does: stores bytes, or fails with an [errno]. *)
Inductive read_result := ReadBytes (bytes : list byte) | ReadError (errno : Z).

Definition EINTR : Z := 4.
Definition EAGAIN : Z := 11.
Definition EWOULDBLOCK : Z := 11.

(** The errors of a lost connection: [ECONNRESET], [EPIPE], [EIO], [EHOSTUNREACH],
    [EHOSTDOWN] and [ETIMEDOUT] (base/system_error_codes.{h,cc}). *)
Definition LostTcpConnectionErrorCodes : list Z := [104; 32; 5; 113; 112; 110].

Definition LostTcpConnection (errno_value : Z) : bool := bool_decide (errno_value ∈ LostTcpConnectionErrorCodes).

Section reader.
Context {T : Type} `{!TStreamMsgReaderSub T}.

Definition RM := M system_error (TStreamMsgReader T).

Definition set_impl (f : TImpl → TImpl) : RM () :=
  modify (λ r, mkReader (f (Impl r)) (Sub r)).

Definition with_state (s : TState) (i : TImpl) : TImpl :=
  mkImpl s (Fd i) (Buf i) (RestrictReadyMsgCalls i) (ReadyMsgOffset i) (ReadyMsgSize i)
    (TrailingDataSize i) (EndOfInput i).

Definition with_buf (b : TBuf) (i : TImpl) : TImpl :=
  mkImpl (State i) (Fd i) b (RestrictReadyMsgCalls i) (ReadyMsgOffset i) (ReadyMsgSize i)
    (TrailingDataSize i) (EndOfInput i).

Definition with_restrict (x : bool) (i : TImpl) : TImpl :=
  mkImpl (State i) (Fd i) (Buf i) x (ReadyMsgOffset i) (ReadyMsgSize i)
    (TrailingDataSize i) (EndOfInput i).

Definition with_ready (offset size trailing : Z) (i : TImpl) : TImpl :=
  mkImpl (State i) (Fd i) (Buf i) (RestrictReadyMsgCalls i) offset size trailing (EndOfInput i).

Definition with_end (e : bool) (i : TImpl) : TImpl :=
  mkImpl (State i) (Fd i) (Buf i) (RestrictReadyMsgCalls i) (ReadyMsgOffset i) (ReadyMsgSize i)
    (TrailingDataSize i) e.

(** The buffer's methods throw nothing. *)
Definition on_buf {A} (m : BM A) : RM A := λ r,
  match m (Buf (Impl r)) with
  | (Ret a, b) => (Ret a, mkReader (with_buf b (Impl r)) (Sub r))
  | (Throw e, _) => match e with end
  | (Fault x, b) => (Fault x, mkReader (with_buf b (Impl r)) (Sub r))
  end.

Definition on_sub {A} (m : M Empty_set T A) : RM A := λ r,
  match m (Sub r) with
  | (Ret a, t) => (Ret a, mkReader (Impl r) t)
  | (Throw e, _) => match e with end
  | (Fault x, t) => (Fault x, mkReader (Impl r) t)
  end.

Definition Die {A} : RM A := crash Died.

Definition GetDataSize : RM Z := on_buf DataSize.

(** The memory from the location returned to the end of its object. *)
Definition GetData : RM (list byte) :=
  e ← on_buf DataIsEmpty;
  if (e : bool) then mret [x00] else
  i ← on_buf Data;
  gets (λ r, drop (Z.to_nat i) (Storage (Buf (Impl r)))).

Definition TryAdvanceToNextMsg : RM TState :=
  set_impl (with_restrict true);;
  data_size ← GetDataSize;
  data ← GetData;
  at_end ← gets (λ r, EndOfInput (Impl r));
  result ← on_sub (GetNextMsg data data_size at_end);
  set_impl (with_restrict false);;
  match result with
  | ResMsgReady offset size trailing =>
      data_size ← GetDataSize;
      i ← gets Impl;
      if (data_size <? offset) || (usub data_size offset <? size) ||
         (usub (usub data_size (ReadyMsgOffset i)) (ReadyMsgSize i) <? trailing)
      then Die
      else
        set_impl (λ i, with_state MsgReady (with_ready offset size trailing i))
  | ResNoMsgReady =>
      set_impl (λ i, with_state (if EndOfInput i then AtEnd else ReadNeeded) i)
  | ResInvalid => set_impl (with_state DataInvalid)
  end;;
  gets (λ r, State (Impl r)).

Definition PrepareForRead : RM Z :=
  i ← gets Impl;
  if negb (bool_decide (State i = ReadNeeded)) then Die else
  massert (0 <=? Fd i);;
  massert (ReadyMsgOffset i =? 0);;
  massert (ReadyMsgSize i =? 0);;
  massert (negb (EndOfInput i));;
  read_size ← gets (λ r, GetNextReadSize (Sub r));
  on_buf (EnsureSpace read_size);;
  mret read_size.

(** [read()] stores the bytes at [Buf.Space()]. *)
Definition deposit (bytes : list byte) : BM () :=
  at_ ← Space;
  b ← get;
  if (Z.to_nat at_ + length bytes <=? length (Storage b))%nat then
    modify (λ b, mkBuf (take (Z.to_nat at_) (Storage b) ++ bytes ++
                        drop (Z.to_nat at_ + length bytes) (Storage b))
                   (ItemOffset b) (ItemCount b))
  else crash OutOfBounds.

Definition ProcessReadResult (res : read_result) : RM TState :=
  match res with
  | ReadError errno =>
      if (errno =? EAGAIN) || (errno =? EWOULDBLOCK) || (errno =? EINTR)
      then gets (λ r, State (Impl r))
      else throw (SystemError errno)
  | ReadBytes bytes =>
      (if bool_decide (bytes = []) then set_impl (with_end true) else mret ());;
      on_buf (MarkSpaceConsumed (Z.of_nat (length bytes)));;
      TryAdvanceToNextMsg
  end.

(** [Read], where [res] is the result of the call of [read()].  An error is thrown here;
    that the wrapper of [read()] ends the process for some of them is where the call is
    made ([Connector.v], [MetadataFetcher.v]). *)
Definition Read (res : read_result) : RM TState :=
  read_size ← PrepareForRead;
  if read_size =? 0 then gets (λ r, State (Impl r)) else
  match res with
  | ReadBytes bytes => on_buf (deposit bytes)
  | ReadError _ => _ ← on_buf Space; mret ()
  end;;
  ProcessReadResult res.

Definition ConsumeReadyMsg : RM TState :=
  i ← gets Impl;
  if negb (bool_decide (State i = MsgReady)) then Die else
  massert (0 <=? Fd i);;
  n ← GetDataSize; massert (ReadyMsgOffset i <=? n);;
  n ← GetDataSize; massert (ReadyMsgSize i <=? usub n (ReadyMsgOffset i));;
  modify (λ r, mkReader (Impl r) (BeforeConsumeReadyMsg (Sub r)));;
  n ← GetDataSize;
  massert (TrailingDataSize i <=? usub (usub n (ReadyMsgOffset i)) (ReadyMsgSize i));;
  on_buf (MarkDataConsumed (uadd (uadd (ReadyMsgOffset i) (ReadyMsgSize i)) (TrailingDataSize i)));;
  set_impl (with_ready 0 0 0);;
  TryAdvanceToNextMsg.

(** The assertions of [GetReadyMsgSize] and [GetReadyMsgOffset]. *)
Definition check_ready : RM () :=
  i ← gets Impl;
  massert (bool_decide (State i = MsgReady));;
  massert (negb (RestrictReadyMsgCalls i));;
  massert (0 <=? Fd i);;
  n ← GetDataSize;
  massert (ReadyMsgOffset i <=? n);;
  massert (ReadyMsgSize i <=? usub n (ReadyMsgOffset i));;
  massert (TrailingDataSize i <=? usub (usub n (ReadyMsgOffset i)) (ReadyMsgSize i)).

Definition GetReadyMsgSize : RM Z := check_ready;; gets (λ r, ReadyMsgSize (Impl r)).

Definition GetReadyMsgOffset : RM Z := check_ready;; gets (λ r, ReadyMsgOffset (Impl r)).

(** The memory at the location returned. *)
Definition GetReadyMsg : RM (list byte) :=
  i ← gets Impl;
  if negb (bool_decide (State i = MsgReady)) || RestrictReadyMsgCalls i then Die else
  if Fd i <? 0 then Die else
  data_size ← GetDataSize;
  if data_size <? ReadyMsgOffset i then Die else
  if usub data_size (ReadyMsgOffset i) <? ReadyMsgSize i then Die else
  if usub (usub data_size (ReadyMsgOffset i)) (ReadyMsgSize i) <? TrailingDataSize i then Die else
  n ← GetDataSize;
  if (n =? 0) || (ReadyMsgSize i =? 0) then mret [x00] else
  data ← GetData;
  mret (drop (Z.to_nat (ReadyMsgOffset i)) data).

Definition Reset (fd : Z) : RM () :=
  set_impl (with_restrict true);;
  modify (λ r, mkReader (Impl r) (HandleReset (Sub r)));;
  set_impl (with_restrict false);;
  on_buf Clear;;
  set_impl (λ i, TImpl_new fd (Buf i)).
End reader.
Arguments RM : clear implicits.

(** ** Messages with a size field *)

Inductive TDataInvalidReason := InvalidSizeField | MsgBodyTooLarge.

Record TSizeReader := mkSizeReader {
  SizeFieldSize : Z;
  SizeFieldIsSigned : bool;
  SizeIncludesSizeField : bool;
  IncludeSizeFieldInMsg : bool;
  MaxMsgBodySize : Z;
  PreferredReadSize : Z;
  OptMsgBodySize : option Z;
  OptDataInvalidReason : option TDataInvalidReason
}.

Definition SetMaxMsgBodySize (size : Z) (s : TSizeReader) : TSizeReader :=
  mkSizeReader (SizeFieldSize s) (SizeFieldIsSigned s) (SizeIncludesSizeField s)
    (IncludeSizeFieldInMsg s) size (PreferredReadSize s) (OptMsgBodySize s) (OptDataInvalidReason s).

Definition SetPreferredReadSize (size : Z) (s : TSizeReader) : TSizeReader :=
  mkSizeReader (SizeFieldSize s) (SizeFieldIsSigned s) (SizeIncludesSizeField s)
    (IncludeSizeFieldInMsg s) (MaxMsgBodySize s) size (OptMsgBodySize s) (OptDataInvalidReason s).

Definition with_body_size (o : option Z) (s : TSizeReader) : TSizeReader :=
  mkSizeReader (SizeFieldSize s) (SizeFieldIsSigned s) (SizeIncludesSizeField s)
    (IncludeSizeFieldInMsg s) (MaxMsgBodySize s) (PreferredReadSize s) o (OptDataInvalidReason s).

Definition with_reason (o : option TDataInvalidReason) (s : TSizeReader) : TSizeReader :=
  mkSizeReader (SizeFieldSize s) (SizeFieldIsSigned s) (SizeIncludesSizeField s)
    (IncludeSizeFieldInMsg s) (MaxMsgBodySize s) (PreferredReadSize s) (OptMsgBodySize s) o.

(** A size field reader: [None] is a read outside the memory given, [Some None]
    an absent value. *)
Definition TSizeFieldReadFn := list byte → option (option Z).

Definition unsigned_field (read : list byte → option Z) : TSizeFieldReadFn :=
  λ loc, Some <$> read loc.

Definition signed_field (read : list byte → option Z) : TSizeFieldReadFn :=
  λ loc, (λ size, if size <? 0 then None else Some size) <$> read loc.

Definition ReadUnsigned8BitSizeField := unsigned_field (λ loc, Z_of_byte <$> head loc).
Definition ReadUnsigned16BitSizeField := unsigned_field ReadUint16FromHeader.
Definition ReadUnsigned32BitSizeField := unsigned_field ReadUint32FromHeader.
Definition ReadUnsigned64BitSizeField := unsigned_field ReadUint64FromHeader.
Definition ReadSigned8BitSizeField := signed_field (λ loc, swrap 8 ∘ Z_of_byte <$> head loc).
Definition ReadSigned16BitSizeField := signed_field ReadInt16FromHeader.
Definition ReadSigned32BitSizeField := signed_field ReadInt32FromHeader.
Definition ReadSigned64BitSizeField := signed_field ReadInt64FromHeader.

(** [None] when the source dies. *)
Definition ChooseSizeFieldReadFn (size_field_size : Z) (size_field_is_signed : bool)
    : option TSizeFieldReadFn :=
  let pick a b : option TSizeFieldReadFn := Some (if size_field_is_signed then a else b) in
  match size_field_size with
  | 1 => pick ReadSigned8BitSizeField ReadUnsigned8BitSizeField
  | 2 => pick ReadSigned16BitSizeField ReadUnsigned16BitSizeField
  | 4 => pick ReadSigned32BitSizeField ReadUnsigned32BitSizeField
  | 8 => pick ReadSigned64BitSizeField ReadUnsigned64BitSizeField
  | _ => None
  end.

Definition SIZE_MAX : Z := 18446744073709551615.

(** The constructor: the function pointer it stores is recomputed where it is
    called, which gives the same function. *)
Definition TStreamMsgWithSizeReaderBase_new (fd size_field_size : Z) (size_field_is_signed
    size_includes_size_field include_size_field_in_msg : bool) (max_msg_body_size
    preferred_read_size : Z) : outcome Empty_set (TStreamMsgReader TSizeReader) :=
  match ChooseSizeFieldReadFn size_field_size size_field_is_signed with
  | None => Fault Died
  | Some _ =>
      if (size_field_size <=? usub SIZE_MAX max_msg_body_size) &&
         (max_msg_body_size <=? usub INT32_MAX size_field_size) &&
         negb (preferred_read_size =? 0)
      then Ret (TStreamMsgReader_new fd
        (mkSizeReader size_field_size size_field_is_signed size_includes_size_field
           include_size_field_in_msg max_msg_body_size preferred_read_size None None))
      else Fault AssertFailed
  end.

Definition TSM := M Empty_set TSizeReader.

(** The part of [GetNextMsg] that reads the size field; [false] if invalid. *)
Definition ReadSizeField (data : list byte) : TSM bool :=
  s ← get;
  read ← need Died (ChooseSizeFieldReadFn (SizeFieldSize s) (SizeFieldIsSigned s));
  opt_size ← need OutOfBounds (read data);
  match opt_size with
  | None => modify (with_reason (Some InvalidSizeField));; mret false
  | Some size =>
      if SizeIncludesSizeField s && (size <? SizeFieldSize s) then
        modify (with_reason (Some InvalidSizeField));; mret false
      else if (MaxMsgBodySize s <? size) &&
              (negb (SizeIncludesSizeField s) || (SizeFieldSize s <? usub size (MaxMsgBodySize s)))
      then modify (with_reason (Some MsgBodyTooLarge));; mret false
      else
        modify (with_body_size
          (Some (if SizeIncludesSizeField s then usub size (SizeFieldSize s) else size)));;
        mret true
  end.

Definition SizeReader_GetNextMsg (data : list byte) (data_size : Z) (at_end : bool)
    : TSM TGetMsgResult :=
  s ← get;
  if data_size <? SizeFieldSize s then
    massert (bool_decide (OptMsgBodySize s = None));; mret ResNoMsgReady
  else
  valid ← (if bool_decide (OptMsgBodySize s = None) then ReadSizeField data else mret true);
  if negb valid then mret ResInvalid else
  opt ← gets OptMsgBodySize;
  body_size ← need NullDeref opt;
  if data_size <? uadd (SizeFieldSize s) body_size then mret ResNoMsgReady else
  mret (if IncludeSizeFieldInMsg s
        then ResMsgReady 0 (uadd body_size (SizeFieldSize s)) 0
        else ResMsgReady (SizeFieldSize s) body_size 0).

Definition SizeReader_HandleReset (s : TSizeReader) : TSizeReader :=
  with_reason None (with_body_size None s).

Definition SizeReader_BeforeConsumeReadyMsg (s : TSizeReader) : TSizeReader := with_body_size None s.

#[global] Instance TSizeReader_sub : TStreamMsgReaderSub TSizeReader := {|
  GetNextReadSize := PreferredReadSize;
  GetNextMsg := SizeReader_GetNextMsg;
  HandleReset := SizeReader_HandleReset;
  BeforeConsumeReadyMsg := SizeReader_BeforeConsumeReadyMsg
|}.

(** ** What the reader is for: splitting the stream into frames *)

Section frames.
Variable cfg : TSizeReader.

(** The size field at the front of [data], and what it says of the body. *)
Definition frame_body (data : list byte) : option (TDataInvalidReason + Z) :=
  read ← ChooseSizeFieldReadFn (SizeFieldSize cfg) (SizeFieldIsSigned cfg);
  opt_size ← read data;
  Some match opt_size with
  | None => inl InvalidSizeField
  | Some size =>
      let body := if SizeIncludesSizeField cfg then size - SizeFieldSize cfg else size in
      if body <? 0 then inl InvalidSizeField
      else if MaxMsgBodySize cfg <? body then inl MsgBodyTooLarge
      else inr body
  end.

Inductive frame := FrameMsg (size : nat) | FramePartial | FrameBad (reason : TDataInvalidReason).

Definition next_frame (data : list byte) : frame :=
  match frame_body data with
  | None => FramePartial
  | Some (inl reason) => FrameBad reason
  | Some (inr body) =>
      if Z.of_nat (length data) <? SizeFieldSize cfg + body then FramePartial
      else FrameMsg (Z.to_nat (SizeFieldSize cfg + body))
  end.

(** The message as the client sees it. *)
Definition reported (f : list byte) : list byte :=
  if IncludeSizeFieldInMsg cfg then f else drop (Z.to_nat (SizeFieldSize cfg)) f.

Inductive stream_end := StreamPartial (rest : list byte) | StreamBad (reason : TDataInvalidReason).

(** The messages of a byte string; a frame has at least the bytes of its size
    field, so the length of the string is enough fuel. *)
Fixpoint frames_fuel (fuel : nat) (data : list byte) : list (list byte) * stream_end :=
  match next_frame data, fuel with
  | FrameMsg n, S fuel =>
      let '(msgs, e) := frames_fuel fuel (drop n data) in (reported (take n data) :: msgs, e)
  | FrameBad reason, _ => ([], StreamBad reason)
  | _, _ => ([], StreamPartial data)
  end.

Definition frames (data : list byte) : list (list byte) * stream_end :=
  frames_fuel (length data) data.
End frames.

(** ** The buffer holds a byte string *)

Record buf_rep (b : TBuf) (data : list byte) : Prop := {
  br_storage : ∃ pre post, Storage b = pre ++ data ++ post ∧
    ItemOffset b = Z.of_nat (length pre) ∧ (data = [] → pre = []);
  br_count : ItemCount b = Z.of_nat (length data);
  br_small : Storage_size b < 2 ^ 63
}.

Lemma buf_bounds b data :
  buf_rep b data →
  0 ≤ ItemOffset b ∧ ItemOffset b + Z.of_nat (length data) ≤ Storage_size b < 2 ^ 63 ∧
  (data = [] → ItemOffset b = 0) ∧ (data ≠ [] → ItemOffset b < Storage_size b).
Proof.
  intros [(pre & post & Hs & Ho & Hz) Hc Hl]. unfold Storage_size in *. rewrite Hs in *.
  rewrite !length_app in *. rewrite Ho. split; [lia |]. split; [lia |].
  split; [intros H; by rewrite (Hz H) |]. destruct data; [done |]. cbn [length]. lia.
Qed.

Lemma check_buf_ok b data : buf_rep b data → check_buf b = (Ret (), b).
Proof.
  intros Hb. pose proof (buf_bounds b data Hb) as (H1 & H2 & H3 & H4).
  unfold check_buf, BM. rewrite (bind_Ret _ _ b b b) by done. cbv beta.
  rewrite massert_bind.
  - rewrite usub_small by lia. rewrite (br_count _ _ Hb).
    unfold massert. by destruct (Z.leb_spec (Z.of_nat (length data)) (Storage_size b - ItemOffset b)); [| lia].
  - destruct (Storage b) as [| x l] eqn:E; [by rewrite bool_decide_true |].
    rewrite bool_decide_false by done. cbn [orb]. apply Z.ltb_lt.
    destruct data; [rewrite H3 by done; unfold Storage_size; rewrite E; cbn; lia | by apply H4].
Qed.

Lemma SpaceSize_ok b data :
  buf_rep b data → SpaceSize b = (Ret (Storage_size b - ItemOffset b - ItemCount b), b).
Proof.
  intros Hb. pose proof (buf_bounds b data Hb) as (H1 & H2 & _ & _). pose proof (br_count _ _ Hb).
  unfold SpaceSize, BM. rewrite (bind_Ret _ _ _ _ _ (check_buf_ok _ _ Hb)). unfold gets.
  by rewrite (usub_small (Storage_size b)), usub_small by lia.
Qed.

Lemma DataSize_ok b data : buf_rep b data → DataSize b = (Ret (Z.of_nat (length data)), b).
Proof.
  intros Hb. unfold DataSize, BM. rewrite (bind_Ret _ _ _ _ _ (check_buf_ok _ _ Hb)).
  unfold gets. by rewrite (br_count _ _ Hb).
Qed.

Lemma MoveDataToFront_ok b data :
  buf_rep b data →
  ∃ b', MoveDataToFront b = (Ret (), b') ∧ buf_rep b' data ∧ ItemOffset b' = 0 ∧
    Storage_size b' = Storage_size b.
Proof.
  intros Hb. pose proof (buf_bounds b data Hb) as (H1 & H2 & H3 & H4).
  destruct (Hb) as [(pre & post & Hs & Ho & Hz) Hc Hl].
  unfold MoveDataToFront, BM. rewrite (bind_Ret _ _ _ _ _ (check_buf_ok _ _ Hb)).
  rewrite (bind_Ret _ _ b b b) by done. cbv beta.
  destruct (Z.eqb_spec (ItemOffset b) 0) as [E | E]; [by exists b |].
  assert (data ≠ []) as Hne by (intros E'; by rewrite H3 in E).
  rewrite massert_bind by (rewrite Hc; by destruct data).
  rewrite Hc, Ho, Hs, !Nat2Z.id, drop_app_length, take_app_length.
  eexists. split; [reflexivity |]. unfold Storage_size. rewrite Hs.
  assert (length (data ++ drop (length data) (pre ++ data ++ post)) =
          length (pre ++ data ++ post)) as Hlen by (rewrite !length_app, length_drop, !length_app; lia).
  split; [split; cbn | split; [done |]].
  - exists [], (drop (length data) (pre ++ data ++ post)). done.
  - done.
  - unfold Storage_size. cbn. rewrite Hlen, <- Hs. exact Hl.
  - cbn. by rewrite Hlen.
Qed.

Lemma resize_grow n l :
  Z.of_nat (length l) ≤ n →
  ∃ k, resize n l = l ++ k ∧ Z.of_nat (length (resize n l)) = n.
Proof.
  intros Hn. unfold resize. rewrite take_ge by lia. eexists. split; [reflexivity |].
  rewrite length_app, length_replicate. lia.
Qed.

(** [EnsureSpace] keeps the data, makes the space, and never makes the storage
    larger than it was or than data and space need. *)
Lemma EnsureSpace_ok b data n :
  buf_rep b data → 0 ≤ n → Z.of_nat (length data) + n < 2 ^ 63 →
  ∃ b', EnsureSpace n b = (Ret (), b') ∧ buf_rep b' data ∧
    n ≤ Storage_size b' - ItemOffset b' - ItemCount b' ∧
    Storage_size b' ≤ Storage_size b `max` (Z.of_nat (length data) + n).
Proof.
  intros Hb Hn Hlim. pose proof (buf_bounds b data Hb) as (H1 & H2 & H3 & H4).
  pose proof (br_count _ _ Hb) as Hc.
  unfold EnsureSpace, BM. rewrite (bind_Ret _ _ _ _ _ (check_buf_ok _ _ Hb)).
  rewrite (bind_Ret _ _ _ _ _ (SpaceSize_ok _ _ Hb)). cbv beta.
  destruct (Z.ltb_spec (Storage_size b - ItemOffset b - ItemCount b) n) as [Hlt | Hge];
    [| exists b; split; [done |]; split; [done | lia]].
  rewrite usub_small by lia. unfold DoAddSpace, BM. rewrite massert_bind by lia.
  rewrite (bind_Ret _ _ _ _ _ (check_buf_ok _ _ Hb)), (bind_Ret _ _ b (ItemOffset b) b) by done.
  cbv beta. destruct (MoveDataToFront_ok b data Hb) as (b1 & Hr1 & Hb1 & Ho1 & Hs1).
  rewrite (bind_Ret _ _ _ _ _ Hr1). pose proof (br_count _ _ Hb1) as Hc1.
  destruct (Z.ltb_spec (ItemOffset b) (n - (Storage_size b - ItemOffset b - ItemCount b))).
  - unfold modify. set (sz := usub _ _). assert (sz = Z.of_nat (length data) + n) as Hsz.
    { unfold sz. rewrite uadd_small, usub_small by (rewrite ?uadd_small; lia). lia. }
    destruct (resize_grow sz (Storage b1)) as (k & Hk & Hlen); [fold (Storage_size b1); lia |].
    eexists. split; [reflexivity |]. unfold Storage_size in *. cbn [Storage ItemOffset ItemCount].
    rewrite Hlen. split; [| lia]. destruct Hb1 as [(pre & post & Hst & Ho & Hz) _ _].
    split; [| done | unfold Storage_size; cbn; rewrite Hlen; lia]. cbn [Storage ItemOffset].
    rewrite Hk, Hst. exists pre, (post ++ k). by rewrite <- !app_assoc.
  - exists b1. split; [done |]. split; [done |]. lia.
Qed.

Lemma Space_ok b data :
  buf_rep b data → 0 < Storage_size b - ItemOffset b - ItemCount b →
  Space b = (Ret (ItemOffset b + ItemCount b), b).
Proof.
  intros Hb Hs. pose proof (buf_bounds b data Hb) as (H1 & H2 & _ & _). pose proof (br_count _ _ Hb).
  unfold Space, BM. rewrite (bind_Ret _ _ b b b) by done. cbv beta.
  rewrite usub_small, !massert_bind by lia.
  rewrite (bind_Ret _ _ _ _ _ (SpaceSize_ok _ _ Hb)). by rewrite massert_bind by lia.
Qed.

(** [read()] and [MarkSpaceConsumed] append to the data. *)
Lemma append_ok b data bytes :
  buf_rep b data → Z.of_nat (length bytes) ≤ Storage_size b - ItemOffset b - ItemCount b →
  0 < Storage_size b - ItemOffset b - ItemCount b →
  ∃ b1 b2, deposit bytes b = (Ret (), b1) ∧ ItemOffset b1 = ItemOffset b ∧
    Storage_size b1 = Storage_size b ∧ buf_rep b1 data ∧
    MarkSpaceConsumed (Z.of_nat (length bytes)) b1 = (Ret (), b2) ∧
    buf_rep b2 (data ++ bytes) ∧ Storage_size b2 = Storage_size b.
Proof.
  intros Hb Hfit Hpos. pose proof (buf_bounds b data Hb) as (H1 & H2 & _ & _).
  pose proof (br_count _ _ Hb) as Hc. destruct (br_storage _ _ Hb) as (pre & post & Hs & Ho & Hz).
  unfold deposit, BM. rewrite (bind_Ret _ _ _ _ _ (Space_ok _ _ Hb Hpos)).
  rewrite (bind_Ret _ _ b b b) by done. cbv beta.
  assert (Z.to_nat (ItemOffset b + ItemCount b) = length (pre ++ data)) as Hat
    by (rewrite length_app; lia).
  assert (length bytes ≤ length post)%nat as Hlen.
  { unfold Storage_size in *. rewrite Hs, !length_app in *. lia. }
  rewrite Hat, Hs, (app_assoc pre).
  assert ((length (pre ++ data) + length bytes <=? length ((pre ++ data) ++ post))%nat = true) as ->
    by (apply Nat.leb_le; rewrite !length_app; lia).
  unfold modify at 1. rewrite Hs, (app_assoc pre), take_app_length, drop_app_add.
  set (st := (pre ++ data) ++ bytes ++ drop (length bytes) post).
  assert (length st = length (Storage b)) as Hst.
  { unfold st. rewrite Hs, !length_app, length_drop. lia. }
  eexists _, (mkBuf st (ItemOffset b) (Z.of_nat (length (data ++ bytes)))).
  split; [reflexivity |]. split; [done |]. unfold Storage_size. cbn [Storage].
  split; [lia |].
  assert (buf_rep (mkBuf st (ItemOffset b) (ItemCount b)) data) as Hb1.
  { split; [| done | unfold Storage_size in *; cbn; lia]. cbn.
    exists pre, (bytes ++ drop (length bytes) post). unfold st. by rewrite <- app_assoc. }
  split; [done |]. split; [| split; [split |]].
  - unfold MarkSpaceConsumed, BM. rewrite (bind_Ret _ _ _ _ _ (check_buf_ok _ _ Hb1)).
    rewrite (bind_Ret _ _ _ _ _ (SpaceSize_ok _ _ Hb1)). unfold Storage_size in *. cbn [Storage ItemOffset ItemCount].
    rewrite massert_bind by lia. unfold modify. cbn [Storage ItemOffset ItemCount].
    rewrite uadd_small by lia. by rewrite length_app, Hc, Nat2Z.inj_add.
  - cbn. exists pre, (drop (length bytes) post). split; [by unfold st; rewrite <- !app_assoc |].
    split; [done |]. intros [Hd _]%app_eq_nil. auto.
  - done.
  - unfold Storage_size in *. cbn. lia.
  - by rewrite Hst.
Qed.

Lemma MarkDataConsumed_ok b data n :
  buf_rep b data → (n ≤ length data)%nat →
  ∃ b', MarkDataConsumed (Z.of_nat n) b = (Ret (), b') ∧ buf_rep b' (drop n data) ∧
    Storage_size b' = Storage_size b.
Proof.
  intros Hb Hn. pose proof (buf_bounds b data Hb) as (H1 & H2 & _ & _).
  pose proof (br_count _ _ Hb) as Hc. destruct (br_storage _ _ Hb) as (pre & post & Hs & Ho & Hz).
  unfold MarkDataConsumed, BM. rewrite (bind_Ret _ _ _ _ _ (check_buf_ok _ _ Hb)).
  rewrite (bind_Ret _ _ _ _ _ (DataSize_ok _ _ Hb)), massert_bind by lia.
  erewrite bind_Ret by reflexivity. unfold modify. cbn [ItemCount Storage ItemOffset].
  rewrite uadd_small, usub_small by lia.
  destruct (Z.eqb_spec (ItemCount b - Z.of_nat n) 0) as [E | E];
    (eexists; split; [reflexivity |]); (split; [| done]);
    (split; cbn; [| rewrite length_drop; lia | unfold Storage_size in *; cbn; lia]).
  - rewrite drop_ge by lia. exists [], (pre ++ data ++ post). done.
  - exists (pre ++ take n data), post. rewrite length_app, length_take.
    split; [rewrite <- app_assoc, (app_assoc (take n data)), take_drop; done |].
    split; [lia |]. intros Hd. apply (f_equal length) in Hd. rewrite length_drop in Hd.
    cbn in Hd. lia.
Qed.

(** ** Size fields and frames *)

Record cfg_ok (cfg : TSizeReader) : Prop := {
  ck_size : SizeFieldSize cfg = 1 ∨ SizeFieldSize cfg = 2 ∨ SizeFieldSize cfg = 4 ∨ SizeFieldSize cfg = 8;
  ck_max : 0 ≤ MaxMsgBodySize cfg ≤ INT32_MAX - SizeFieldSize cfg;
  ck_read : 0 < PreferredReadSize cfg < 2 ^ 62
}.

(** A field of [n] bytes is read from the first [n] bytes. *)
Definition field_reader (n : Z) (read : TSizeFieldReadFn) : Prop :=
  (∀ data, Z.of_nat (length data) < n → read data = None) ∧
  (∀ data, n ≤ Z.of_nat (length data) → ∃ v, (∀ x, read (data ++ x) = Some v) ∧
     match v with Some z => 0 ≤ z < 2 ^ 64 | None => True end).

Lemma load_field n (f : Z → option Z) :
  (∀ z, in_u (8 * Z.of_nat n) z → match f z with Some v => 0 ≤ v < 2 ^ 64 | None => True end) →
  field_reader (Z.of_nat n) (λ loc, f <$> load n loc).
Proof.
  intros Hf. split; intros data Hd.
  - unfold load. by rewrite decide_False by lia.
  - exists (f (le_value (take n data))). split.
    + intros x. unfold load. rewrite decide_True by (rewrite length_app; lia).
      by rewrite take_app_le by lia.
    + apply Hf. pose proof (le_value_range (take n data)) as Hr.
      rewrite length_take, Nat.min_l in Hr by lia. done.
Qed.

Lemma field_reader_ext n f g : (∀ l, f l = g l) → field_reader n f → field_reader n g.
Proof.
  intros E [H1 H2]. split; [intros; rewrite <- E; auto |].
  intros data Hd. destruct (H2 data Hd) as (v & Hv & ?). exists v. split; [| done].
  intros x. by rewrite <- E.
Qed.

Lemma load_1 loc : load 1 loc = Z_of_byte <$> head loc.
Proof.
  unfold load. destruct loc as [| b loc]; [done |]. rewrite decide_True by (cbn; lia).
  change (Some (Z_of_byte b + 256 * 0) = Some (Z_of_byte b)). f_equal. lia.
Qed.

Lemma choose_field cfg :
  cfg_ok cfg →
  ∃ read, ChooseSizeFieldReadFn (SizeFieldSize cfg) (SizeFieldIsSigned cfg) = Some read ∧
    field_reader (SizeFieldSize cfg) read.
Proof.
  assert (∀ n, (0 < n ≤ 8)%nat → field_reader (Z.of_nat n)
    (unsigned_field (λ src, SwapEnds n <$> load n src))) as Hu.
  { intros n Hn. apply (field_reader_ext _ (λ loc, (λ z, Some (SwapEnds n z)) <$> load n loc)).
    - intros l. unfold unsigned_field. by destruct (load n l).
    - apply load_field. intros z _. pose proof (SwapEnds_range n z) as [? Hz]. split; [done |].
      eapply Z.lt_le_trans; [exact Hz |]. apply Z.pow_le_mono_r; lia. }
  assert (∀ n, (0 < n ≤ 8)%nat → field_reader (Z.of_nat n)
    (signed_field (λ src, (λ v, swrap (8 * Z.of_nat n) (SwapEnds n v)) <$> load n src))) as Hs.
  { intros n Hn. apply (field_reader_ext _ (λ loc, (λ z, if swrap (8 * Z.of_nat n) (SwapEnds n z) <? 0
      then None else Some (swrap (8 * Z.of_nat n) (SwapEnds n z))) <$> load n loc)).
    - intros l. unfold signed_field. by destruct (load n l).
    - apply load_field. intros z _. case_test; [done |].
      pose proof (swrap_range (8 * Z.of_nat n) (SwapEnds n z)) as [_ Hz]; [lia |]. split; [lia |].
      eapply Z.lt_le_trans; [exact Hz |]. apply Z.pow_le_mono_r; lia. }
  assert (field_reader 1 ReadUnsigned8BitSizeField) as Hu1.
  { apply (field_reader_ext _ (λ loc, (λ z, Some z) <$> load 1 loc)).
    - intros l. rewrite load_1. unfold ReadUnsigned8BitSizeField, unsigned_field.
      by destruct (head l).
    - apply (load_field 1). intros z Hz. width_lia. }
  assert (field_reader 1 ReadSigned8BitSizeField) as Hs1.
  { apply (field_reader_ext _ (λ loc, (λ z, if swrap 8 z <? 0 then None else Some (swrap 8 z)) <$> load 1 loc)).
    - intros l. rewrite load_1. unfold ReadSigned8BitSizeField, signed_field. by destruct (head l).
    - apply (load_field 1). intros z Hz. case_test; [done |].
      pose proof (swrap_range 8 z) as [_ ?]; [lia |]. split; [lia |]. width_lia. }
  intros [Hsz _ _]. destruct Hsz as [-> | [-> | [-> | ->]]];
    destruct (SizeFieldIsSigned cfg); (eexists; split; [reflexivity |]);
    first [exact Hs1 | exact Hu1 | apply (Hs 2%nat); lia | apply (Hu 2%nat); lia
      | apply (Hs 4%nat); lia | apply (Hu 4%nat); lia | apply (Hs 8%nat); lia | apply (Hu 8%nat); lia].
Qed.

Section spec.
Context (cfg : TSizeReader) (Hcfg : cfg_ok cfg).

Lemma frame_body_short data :
  Z.of_nat (length data) < SizeFieldSize cfg → frame_body cfg data = None.
Proof.
  intros Hd. destruct (choose_field cfg Hcfg) as (read & Hr & Hs & _).
  unfold frame_body. rewrite Hr. cbn. by rewrite Hs.
Qed.

Lemma frame_body_long data :
  SizeFieldSize cfg ≤ Z.of_nat (length data) →
  ∃ r, (∀ x, frame_body cfg (data ++ x) = Some r) ∧
    match r with inr body => 0 ≤ body ≤ MaxMsgBodySize cfg | inl _ => True end.
Proof.
  intros Hd. destruct (choose_field cfg Hcfg) as (read & Hr & _ & Hl).
  destruct (Hl data Hd) as (v & Hv & Hz). unfold frame_body. eexists. split.
  - intros x. rewrite Hr. cbn. rewrite Hv. cbn. reflexivity.
  - destruct v as [z |]; [| done]. case_test; [done |]. case_test; [done |]. done.
Qed.

Lemma frame_body_app data x r :
  frame_body cfg data = Some r → frame_body cfg (data ++ x) = Some r.
Proof.
  intros Hr. destruct (decide (SizeFieldSize cfg ≤ Z.of_nat (length data))) as [Hd | Hd].
  - destruct (frame_body_long data Hd) as (r' & Hr' & _). specialize (Hr' []) as E.
    rewrite app_nil_r in E. congruence.
  - rewrite frame_body_short in Hr by lia. done.
Qed.

Lemma frame_body_bounds data body :
  frame_body cfg data = Some (inr body) →
  SizeFieldSize cfg ≤ Z.of_nat (length data) ∧ 0 ≤ body ≤ MaxMsgBodySize cfg.
Proof.
  intros Hr. destruct (decide (SizeFieldSize cfg ≤ Z.of_nat (length data))) as [Hd | Hd].
  - destruct (frame_body_long data Hd) as (r' & Hr' & Hb). specialize (Hr' []) as E.
    rewrite app_nil_r in E. split; [done |]. by simplify_eq.
  - rewrite frame_body_short in Hr by lia. done.
Qed.

Lemma size_pos : 1 ≤ SizeFieldSize cfg ≤ 8.
Proof. destruct (ck_size cfg Hcfg) as [-> | [-> | [-> | ->]]]; lia. Qed.

Lemma next_frame_msg data n :
  next_frame cfg data = FrameMsg n →
  ∃ body, frame_body cfg data = Some (inr body) ∧ 0 ≤ body ≤ MaxMsgBodySize cfg ∧
    Z.of_nat n = SizeFieldSize cfg + body ∧ (0 < n ≤ length data)%nat.
Proof.
  unfold next_frame. destruct (frame_body cfg data) as [[? | body] |] eqn:E; try done.
  apply frame_body_bounds in E as [Hd Hb]. pose proof size_pos.
  case_test; [done |]. intros [= <-]. exists body. split; [done |]. lia.
Qed.

(** What has arrived decides; more bytes change only an incomplete frame. *)
Lemma next_frame_app data x :
  match next_frame cfg data with
  | FramePartial => True
  | f => next_frame cfg (data ++ x) = f
  end.
Proof.
  unfold next_frame. destruct (frame_body cfg data) as [r |] eqn:E; [| done].
  rewrite (frame_body_app _ x _ E). destruct r as [reason | body]; [done |].
  case_test; [done |]. rewrite length_app.
  assert (Z.of_nat (length data + length x) <? SizeFieldSize cfg + body = false) as ->;
    [apply Z.ltb_ge; lia | done].
Qed.

Lemma partial_short data :
  next_frame cfg data = FramePartial →
  Z.of_nat (length data) < SizeFieldSize cfg + MaxMsgBodySize cfg + 1.
Proof.
  unfold next_frame. pose proof (ck_max cfg Hcfg).
  destruct (frame_body cfg data) as [[? | body] |] eqn:E; try done.
  - apply frame_body_bounds in E. case_test; [intros _; lia | done].
  - intros _. destruct (decide (SizeFieldSize cfg ≤ Z.of_nat (length data))) as [Hd | Hd]; [| lia].
    destruct (frame_body_long data Hd) as (r & Hr & _). specialize (Hr []).
    rewrite app_nil_r in Hr. congruence.
Qed.

(** The fuel is enough: [frames] satisfies the equation of the loop. *)
Lemma frames_fuel_enough n m data :
  (length data ≤ n)%nat → (length data ≤ m)%nat → frames_fuel cfg n data = frames_fuel cfg m data.
Proof.
  revert m data. induction n as [| n IH]; intros m data Hn Hm.
  - destruct data as [| x data]; [| cbn in Hn; lia].
    assert (next_frame cfg [] = FramePartial) as E.
    { unfold next_frame. rewrite frame_body_short; [done |]. cbn. pose proof size_pos. lia. }
    destruct m; cbn; by rewrite E.
  - destruct (next_frame cfg data) as [k | | reason] eqn:E; destruct m; cbn; rewrite E; try done;
      apply next_frame_msg in E as (_ & _ & _ & _ & Hk); [lia |].
    rewrite (IH m (drop k data)) by (rewrite length_drop; lia). done.
Qed.

Lemma frames_eq data :
  frames cfg data =
  match next_frame cfg data with
  | FrameMsg n =>
      let '(msgs, e) := frames cfg (drop n data) in (reported cfg (take n data) :: msgs, e)
  | FramePartial => ([], StreamPartial data)
  | FrameBad reason => ([], StreamBad reason)
  end.
Proof.
  unfold frames. destruct (next_frame cfg data) as [n | | reason] eqn:E.
  - apply next_frame_msg in E as E'. destruct E' as (_ & _ & _ & _ & Hk).
    destruct (length data) as [| k] eqn:Hl; [lia |]. cbn [frames_fuel]. rewrite E.
    by rewrite (frames_fuel_enough k (length (drop n data))) by (rewrite length_drop; lia).
  - by destruct (length data); cbn; rewrite E.
  - by destruct (length data); cbn; rewrite E.
Qed.

(** Splitting the stream anywhere gives the same messages. *)
Lemma frames_app data x :
  frames cfg (data ++ x) =
  let '(msgs, e) := frames cfg data in
  match e with
  | StreamPartial rest => let '(msgs', e') := frames cfg (rest ++ x) in (msgs ++ msgs', e')
  | StreamBad reason => (msgs, StreamBad reason)
  end.
Proof.
  remember (length data) as n eqn:Hn. revert data Hn.
  induction (Nat.lt_wf_0 n) as [n _ IH]. intros data ->.
  rewrite (frames_eq data). pose proof (next_frame_app data x) as Ha.
  destruct (next_frame cfg data) as [k | | reason] eqn:E.
  - rewrite frames_eq, Ha. apply next_frame_msg in E as (_ & _ & _ & _ & Hk).
    rewrite drop_app_le, take_app_le by lia.
    rewrite (IH (length (drop k data))) by (rewrite ?length_drop; lia || done).
    destruct (frames cfg (drop k data)) as [msgs [rest | reason]]; [| done].
    by destruct (frames cfg (rest ++ x)).
  - by destruct (frames cfg (data ++ x)).
  - by rewrite frames_eq, Ha.
Qed.

(** ** The reader settles on the first frame of its data *)

Definition sized (o : option Z) (reason : option TDataInvalidReason) : TSizeReader :=
  with_reason reason (with_body_size o cfg).

(** The body size that is remembered is that of the data. *)
Definition cached (o : option Z) (data : list byte) : Prop :=
  match o with Some body => frame_body cfg data = Some (inr body) | None => True end.

(** Where the message of a frame of [n] bytes is in the data. *)
Definition msg_offset : Z := if IncludeSizeFieldInMsg cfg then 0 else SizeFieldSize cfg.

(** The memory at [GetData()]. *)
Definition memory (data post : list byte) : list byte :=
  if bool_decide (data = []) then [x00] else data ++ post.

Lemma ReadSizeField_ok data post :
  SizeFieldSize cfg ≤ Z.of_nat (length data) →
  ReadSizeField (memory data post) (sized None None) =
  match frame_body cfg data with
  | Some (inr body) => (Ret true, sized (Some body) None)
  | Some (inl reason) => (Ret false, sized None (Some reason))
  | None => (Ret true, sized None None)
  end.
Proof.
  intros Hd. pose proof size_pos. pose proof (ck_max cfg Hcfg) as Hmax.
  assert (memory data post = data ++ post) as ->.
  { unfold memory. rewrite bool_decide_false; [done |]. intros ->. cbn in Hd. lia. }
  destruct (choose_field cfg Hcfg) as (read & Hr & _ & Hl).
  destruct (Hl data Hd) as (v & Hv & Hz). pose proof (Hv []) as Hv0. rewrite app_nil_r in Hv0.
  unfold frame_body, ReadSizeField. rewrite Hr. cbn [mbind option_bind]. rewrite Hv0.
  cbn [mbind option_bind]. munfold. cbn [sized SizeFieldSize SizeFieldIsSigned SizeIncludesSizeField
    MaxMsgBodySize with_reason with_body_size]. rewrite Hr, Hv.
  destruct v as [z |]; [| done].
  destruct (SizeIncludesSizeField cfg) eqn:Hi; cbn [andb orb negb].
  - destruct (Z.ltb_spec z (SizeFieldSize cfg)).
    { rewrite (proj2 (Z.ltb_lt _ _)) by lia. done. }
    rewrite (proj2 (Z.ltb_ge (z - _) 0)) by lia. rewrite (usub_small z (SizeFieldSize cfg)) by lia.
    destruct (Z.ltb_spec (MaxMsgBodySize cfg) z); cbn [andb].
    + rewrite usub_small by lia. replace (MaxMsgBodySize cfg <? z - SizeFieldSize cfg) with
        (SizeFieldSize cfg <? z - MaxMsgBodySize cfg) by (apply eq_true_iff_eq; lia).
      by case_test.
    + rewrite (proj2 (Z.ltb_ge (MaxMsgBodySize cfg) _)) by lia. done.
  - rewrite (proj2 (Z.ltb_ge z 0)) by lia. by destruct (Z.ltb_spec (MaxMsgBodySize cfg) z).
Qed.

(** What [GetNextMsg] does, by the first frame. *)
Lemma GetNextMsg_ok data post at_end o :
  cached o data →
  ∃ o' reason res,
    SizeReader_GetNextMsg (memory data post) (Z.of_nat (length data)) at_end (sized o None) =
      (Ret res, sized o' reason) ∧
    match next_frame cfg data with
    | FrameMsg n => reason = None ∧ res = ResMsgReady msg_offset (Z.of_nat n - msg_offset) 0
    | FramePartial => reason = None ∧ res = ResNoMsgReady ∧ cached o' data
    | FrameBad r => reason = Some r ∧ res = ResInvalid
    end.
Proof.
  intros Ho. pose proof size_pos. pose proof (ck_max cfg Hcfg) as Hmax.
  unfold SizeReader_GetNextMsg, TSM. rewrite (bind_Ret _ _ _ (sized o None) (sized o None)) by done.
  cbv beta. change (SizeFieldSize (sized o None)) with (SizeFieldSize cfg).
  change (OptMsgBodySize (sized o None)) with o.
  change (IncludeSizeFieldInMsg (sized o None)) with (IncludeSizeFieldInMsg cfg).
  destruct (Z.ltb_spec (Z.of_nat (length data)) (SizeFieldSize cfg)) as [Hs | Hs].
  { pose proof (frame_body_short data Hs) as Hb.
    destruct o as [body |]; [unfold cached in Ho; congruence |].
    exists None, None, ResNoMsgReady. split; [done |]. unfold next_frame. by rewrite Hb. }
  assert (∀ body, frame_body cfg data = Some (inr body) → ∃ res,
    (opt ← gets OptMsgBodySize;
     body_size ← need NullDeref opt;
     if Z.of_nat (length data) <? uadd (SizeFieldSize cfg) body_size then mret ResNoMsgReady else
     mret (if IncludeSizeFieldInMsg cfg
        then ResMsgReady 0 (uadd body_size (SizeFieldSize cfg)) 0
        else ResMsgReady (SizeFieldSize cfg) body_size 0) : TSM TGetMsgResult) (sized (Some body) None) =
      (Ret res, sized (Some body) None) ∧
    match next_frame cfg data with
    | FrameMsg n => res = ResMsgReady msg_offset (Z.of_nat n - msg_offset) 0
    | FramePartial => res = ResNoMsgReady
    | FrameBad r => False
    end) as Hfin.
  { intros body Hb. apply frame_body_bounds in Hb as Hb'. unfold next_frame. rewrite Hb.
    unfold TSM. rewrite (bind_Ret _ _ _ (Some body) (sized (Some body) None)) by done. cbn [need].
    erewrite bind_Ret by reflexivity. rewrite !uadd_small by width_lia.
    case_test; [by eexists |]. eexists. split; [reflexivity |]. unfold msg_offset.
    destruct (IncludeSizeFieldInMsg cfg); f_equal; lia. }
  destruct o as [body |].
  - rewrite bool_decide_false by done. erewrite bind_Ret by reflexivity. cbn [negb].
    destruct (Hfin body Ho) as (res & Hr & Hm). exists (Some body), None, res. split; [exact Hr |].
    destruct (next_frame cfg data); [done | done | done].
  - rewrite bool_decide_true by done. pose proof (ReadSizeField_ok data post Hs) as Hr.
    destruct (frame_body_long data Hs) as (r & Hb & _). specialize (Hb []). rewrite app_nil_r in Hb.
    rewrite Hb in Hr. destruct r as [reason | body].
    + exists None, (Some reason), ResInvalid. rewrite (bind_Ret _ _ _ _ _ Hr). cbn [negb].
      split; [done |]. unfold next_frame. by rewrite Hb.
    + destruct (Hfin body Hb) as (res & Hr' & Hm). exists (Some body), None, res.
      rewrite (bind_Ret _ _ _ _ _ Hr). split; [exact Hr' |].
      by destruct (next_frame cfg data).
Qed.

Lemma on_buf_ok {T A} (m : BM A) (r : TStreamMsgReader T) a b :
  m (Buf (Impl r)) = (Ret a, b) → on_buf m r = (Ret a, mkReader (with_buf b (Impl r)) (Sub r)).
Proof. intros Hm. unfold on_buf. by rewrite Hm. Qed.

Lemma reader_eta {T} (r : TStreamMsgReader T) : mkReader (with_buf (Buf (Impl r)) (Impl r)) (Sub r) = r.
Proof. by destruct r as [[] ?]. Qed.

Lemma GetDataSize_ok {T} (r : TStreamMsgReader T) data :
  buf_rep (Buf (Impl r)) data → GetDataSize r = (Ret (Z.of_nat (length data)), r).
Proof.
  intros Hb. unfold GetDataSize. rewrite (on_buf_ok _ _ _ _ (DataSize_ok _ _ Hb)). by rewrite reader_eta.
Qed.

Lemma GetData_ok {T} (r : TStreamMsgReader T) data :
  buf_rep (Buf (Impl r)) data → ∃ post, GetData r = (Ret (memory data post), r).
Proof.
  intros Hb. pose proof (buf_bounds _ _ Hb) as (H1 & H2 & H3 & H4).
  destruct (br_storage _ _ Hb) as (pre & post & Hs & Ho & Hz). exists post.
  unfold GetData, RM.
  assert (DataIsEmpty (Buf (Impl r)) = (Ret (bool_decide (data = [])), Buf (Impl r))) as He.
  { unfold DataIsEmpty, BM. rewrite (bind_Ret _ _ _ _ _ (check_buf_ok _ _ Hb)).
    rewrite (bind_Ret _ _ _ _ _ (DataSize_ok _ _ Hb)). by destruct data. }
  rewrite (bind_Ret _ _ _ _ _ (on_buf_ok _ _ _ _ He)), reader_eta. cbv beta. unfold memory.
  destruct (decide (data = [])) as [-> | Hne]; [by rewrite bool_decide_true |].
  rewrite bool_decide_false by done.
  assert (Data (Buf (Impl r)) = (Ret (ItemOffset (Buf (Impl r))), Buf (Impl r))) as Hd.
  { unfold Data, BM. rewrite (bind_Ret _ _ _ (Buf (Impl r)) (Buf (Impl r))) by done. cbv beta.
    pose proof (br_count _ _ Hb). rewrite massert_bind by (apply Z.ltb_lt; auto).
    rewrite usub_small, massert_bind by lia. rewrite (bind_Ret _ _ _ _ _ (DataSize_ok _ _ Hb)).
    rewrite massert_bind; [done |]. by destruct data. }
  rewrite (bind_Ret _ _ _ _ _ (on_buf_ok _ _ _ _ Hd)), reader_eta. unfold gets.
  by rewrite Ho, Nat2Z.id, Hs, drop_app_length.
Qed.

(** The reader has looked at its data: its state, and the message it offers,
    are those of the first frame. *)
Record settled (r : TStreamMsgReader TSizeReader) (data : list byte) (eof : bool) : Prop := {
  st_fd : 0 ≤ Fd (Impl r);
  st_buf : buf_rep (Buf (Impl r)) data;
  st_restrict : RestrictReadyMsgCalls (Impl r) = false;
  st_eof : EndOfInput (Impl r) = eof;
  st_trailing : TrailingDataSize (Impl r) = 0;
  st_case : match next_frame cfg data with
    | FrameMsg n => State (Impl r) = MsgReady ∧ ReadyMsgOffset (Impl r) = msg_offset ∧
        ReadyMsgSize (Impl r) = Z.of_nat n - msg_offset ∧ ∃ o, Sub r = sized o None
    | FramePartial => State (Impl r) = (if eof then AtEnd else ReadNeeded) ∧
        ReadyMsgOffset (Impl r) = 0 ∧ ReadyMsgSize (Impl r) = 0 ∧
        ∃ o, Sub r = sized o None ∧ cached o data
    | FrameBad reason => State (Impl r) = DataInvalid ∧ ∃ o, Sub r = sized o (Some reason)
    end
}.

(** Before it looks. *)
Record unsettled (r : TStreamMsgReader TSizeReader) (data : list byte) (eof : bool) : Prop := {
  un_fd : 0 ≤ Fd (Impl r);
  un_buf : buf_rep (Buf (Impl r)) data;
  un_eof : EndOfInput (Impl r) = eof;
  un_ready : ReadyMsgOffset (Impl r) = 0 ∧ ReadyMsgSize (Impl r) = 0 ∧ TrailingDataSize (Impl r) = 0;
  un_sub : ∃ o, Sub r = sized o None ∧ cached o data
}.

Lemma offset_range data n :
  next_frame cfg data = FrameMsg n → 0 ≤ msg_offset ≤ Z.of_nat n ∧ Z.of_nat n ≤ Z.of_nat (length data).
Proof.
  intros (body & _ & Hb & Hn & Hl)%next_frame_msg. pose proof size_pos. unfold msg_offset.
  destruct (IncludeSizeFieldInMsg cfg); lia.
Qed.

Lemma TryAdvance_ok r data eof :
  unsettled r data eof →
  ∃ r', TryAdvanceToNextMsg r = (Ret (State (Impl r')), r') ∧ settled r' data eof ∧
    Buf (Impl r') = Buf (Impl r).
Proof.
  intros [Hfd Hb He (Hro & Hrs & Htr) (o & Hsub & Hc)].
  pose proof (buf_bounds _ _ Hb) as (Hoff & Hlen & _ & _).
  set (r1 := mkReader (with_restrict true (Impl r)) (Sub r)).
  assert (buf_rep (Buf (Impl r1)) data) as Hb1 by done.
  destruct (GetData_ok r1 data Hb1) as (post & Hgd).
  destruct (GetNextMsg_ok data post eof o Hc) as (o' & reason & res & Hg & Hres).
  set (r2 := mkReader (with_restrict false (Impl r)) (sized o' reason)).
  assert (buf_rep (Buf (Impl r2)) data) as Hb2 by done.
  unfold TryAdvanceToNextMsg, RM. erewrite (bind_Ret _ _ r _ r1) by reflexivity.
  rewrite (bind_Ret _ _ _ _ _ (GetDataSize_ok r1 data Hb1)), (bind_Ret _ _ _ _ _ Hgd).
  rewrite (bind_Ret _ _ r1 eof r1) by (unfold gets; cbn; by rewrite He).
  assert (on_sub (GetNextMsg (memory data post) (Z.of_nat (length data)) eof) r1 =
    (Ret res, mkReader (Impl r1) (sized o' reason))) as Hos.
  { unfold on_sub. cbn [Sub r1]. rewrite Hsub. cbn [GetNextMsg TSizeReader_sub]. by rewrite Hg. }
  rewrite (bind_Ret _ _ _ _ _ Hos). erewrite (bind_Ret _ _ _ _ r2) by reflexivity.
  destruct (next_frame cfg data) as [n | | rs] eqn:Hn.
  - destruct Hres as [-> ->]. pose proof (offset_range data n Hn) as [Ho Hl].
    set (r3 := mkReader (with_state MsgReady (with_ready msg_offset (Z.of_nat n - msg_offset) 0
      (Impl r2))) (Sub r2)).
    exists r3. split; [| split; [| done]].
    + erewrite (bind_Ret _ _ r2 () r3); [done |].
      rewrite (bind_Ret _ _ _ _ _ (GetDataSize_ok r2 data Hb2)).
      rewrite (bind_Ret _ _ r2 (Impl r2) r2) by done. cbv beta. cbn [r2 Impl with_restrict ReadyMsgOffset ReadyMsgSize].
      rewrite Hro, Hrs, (usub_small (Z.of_nat (length data)) 0), (usub_small (_ - 0) 0), (usub_small _ msg_offset) by lia.
      assert (Z.of_nat (length data) <? msg_offset = false) as -> by lia.
      assert (Z.of_nat (length data) - msg_offset <? Z.of_nat n - msg_offset = false) as -> by lia.
      assert (Z.of_nat (length data) - 0 - 0 <? 0 = false) as -> by lia. done.
    + split; try done. rewrite Hn. repeat split; eauto.
  - destruct Hres as (-> & -> & Hc'). eexists. split; [reflexivity |]. split; [| done].
    split; cbn; try done. rewrite Hn, He. repeat split; eauto.
  - destruct Hres as [-> ->]. eexists. split; [reflexivity |]. split; [| done].
    split; cbn; try done. rewrite Hn. eauto.
Qed.

(** The memory the reader may use. *)
Definition storage_bound : Z := SizeFieldSize cfg + MaxMsgBodySize cfg + PreferredReadSize cfg.

(** The buffer gets space for the read. *)
Lemma Prepare_ok r data :
  settled r data false → next_frame cfg data = FramePartial → Storage_size (Buf (Impl r)) ≤ storage_bound →
  ∃ b, PrepareForRead r = (Ret (PreferredReadSize cfg), mkReader (with_buf b (Impl r)) (Sub r)) ∧ buf_rep b data ∧
    0 < PreferredReadSize cfg ≤ Storage_size b - ItemOffset b - ItemCount b ∧ Storage_size b ≤ storage_bound.
Proof.
  intros [Hfd Hb Hre Heof Htr Hcase] Hpart Hbound. rewrite Hpart in Hcase.
  destruct Hcase as (Hst & Hro & Hrs & o & Hsub & Hc).
  pose proof (partial_short data Hpart) as Hshort. pose proof (ck_read cfg Hcfg) as Hpref.
  pose proof (ck_max cfg Hcfg) as Hmax. pose proof size_pos as Hsz.
  destruct (EnsureSpace_ok _ data (PreferredReadSize cfg) Hb) as (b1 & Hr1 & Hb1 & Hsp & Hgrow);
    [lia | width_lia |].
  exists b1. split; [| split; [done |]; split; [lia | unfold storage_bound in *; lia]].
  unfold PrepareForRead, RM. rewrite (bind_Ret _ _ r (Impl r) r) by done. cbv beta.
  rewrite Hst, Hro, Hrs, Heof, bool_decide_true by done. cbn [negb].
  rewrite massert_bind by lia. rewrite !massert_bind by done.
  rewrite (bind_Ret _ _ r (PreferredReadSize cfg) r) by (unfold gets; by rewrite Hsub).
  by rewrite (bind_Ret _ _ _ _ _ (on_buf_ok _ _ _ _ Hr1)).
Qed.

(** A read that fails: one that finds nothing, or is interrupted, is no error. *)
Definition read_again (errno : Z) : bool := (errno =? EAGAIN) || (errno =? EWOULDBLOCK) || (errno =? EINTR).

Lemma Read_error_ok r data errno :
  settled r data false → next_frame cfg data = FramePartial → Storage_size (Buf (Impl r)) ≤ storage_bound →
  ∃ r', Read (ReadError errno) r = (if read_again errno then Ret ReadNeeded else Throw (SystemError errno), r') ∧
    settled r' data false ∧ Storage_size (Buf (Impl r')) ≤ storage_bound.
Proof.
  intros Hs Hpart Hbound. destruct (Prepare_ok r data Hs Hpart Hbound) as (b & Hprep & Hb & Hsp & Hle).
  exists (mkReader (with_buf b (Impl r)) (Sub r)). destruct Hs as [Hfd Hb0 Hre Heof Htr Hcase]. split; [| split; [by split | done]].
  unfold Read, RM. rewrite (bind_Ret _ _ _ _ _ Hprep), (proj2 (Z.eqb_neq _ 0)) by lia.
  erewrite bind_Ret; [| erewrite bind_Ret; [reflexivity | apply on_buf_ok, (Space_ok b data Hb); lia]].
  unfold ProcessReadResult. fold (read_again errno). rewrite Hpart in Hcase. destruct Hcase as [Hst _].
  destruct (read_again errno); [cbn; by rewrite Hst | done].
Qed.

(** A read that stores [bytes], or finds the end of the input. *)
Lemma Read_ok r data bytes :
  settled r data false → next_frame cfg data = FramePartial →
  Z.of_nat (length bytes) ≤ PreferredReadSize cfg → Storage_size (Buf (Impl r)) ≤ storage_bound →
  ∃ r', Read (ReadBytes bytes) r = (Ret (State (Impl r')), r') ∧
    settled r' (data ++ bytes) (bool_decide (bytes = [])) ∧
    Storage_size (Buf (Impl r')) ≤ storage_bound.
Proof.
  intros Hsettled Hpart Hlen Hbound. destruct (Prepare_ok r data Hsettled Hpart Hbound) as (b1 & Hprep & Hb1 & Hsp & Hgrow).
  destruct Hsettled as [Hfd Hb Hre Heof Htr Hcase]. rewrite Hpart in Hcase.
  destruct Hcase as (Hst & Hro & Hrs & o & Hsub & Hc).
  destruct (append_ok b1 data bytes Hb1) as (b2 & b3 & Hr2 & _ & Hs2 & _ & Hr3 & Hb3 & Hs3); [lia | lia |].
  unfold Read, RM. set (r1 := mkReader (with_buf b1 (Impl r)) (Sub r)) in *.
  rewrite (bind_Ret _ _ _ _ _ Hprep). assert (PreferredReadSize cfg =? 0 = false) as -> by lia.
  set (r2 := mkReader (with_buf b2 (Impl r)) (Sub r)).
  assert (on_buf (deposit bytes) r1 = (Ret (), r2)) as Hdep by (unfold on_buf; cbn; by rewrite Hr2).
  rewrite (bind_Ret _ _ _ _ _ Hdep). unfold ProcessReadResult, RM.
  set (eof := bool_decide (bytes = [])).
  set (r3 := mkReader (with_end eof (with_buf b3 (Impl r))) (Sub r)).
  destruct (TryAdvance_ok r3 (data ++ bytes) eof) as (r4 & Hr4 & Hset & Hbuf).
  { split; [done | done | done | done |]. exists o. split; [done |].
    destruct o; [by apply frame_body_app | done]. }
  exists r4. rewrite Hbuf. split; [| split; [done |]; cbn; unfold storage_bound in *; lia].
  assert ((if eof then set_impl (with_end true) else mret () : M system_error _ ()) r2 =
    (Ret (), mkReader (with_end eof (Impl r2)) (Sub r2))) as He.
  { unfold eof. destruct (bool_decide (bytes = [])); [done |].
    unfold mret, M_ret. rewrite <- Heof. cbn. by destruct (Impl r). }
  rewrite (bind_Ret _ _ _ _ _ He).
  rewrite (bind_Ret _ _ _ () r3); [done |]. unfold on_buf. cbn [Impl Buf with_end r2 with_buf].
  by rewrite Hr3.
Qed.

(** The message that is ready. *)
Lemma ready_msg_ok r data eof n :
  settled r data eof → next_frame cfg data = FrameMsg n →
  ∃ mem, GetReadyMsg r = (Ret mem, r) ∧
    GetReadyMsgSize r = (Ret (Z.of_nat (length (reported cfg (take n data)))), r) ∧
    GetReadyMsgOffset r = (Ret msg_offset, r) ∧
    take (length (reported cfg (take n data))) mem = reported cfg (take n data).
Proof.
  intros [Hfd Hb Hre Heof Htr Hcase] Hn. rewrite Hn in Hcase.
  destruct Hcase as (Hst & Hro & Hrs & _). pose proof (offset_range data n Hn) as [Ho Hl].
  pose proof (buf_bounds _ _ Hb) as (Hoff & Hlen & _ & _). pose proof size_pos.
  assert (Z.of_nat (length (reported cfg (take n data))) = Z.of_nat n - msg_offset) as Hsz.
  { unfold reported, msg_offset in *. destruct (IncludeSizeFieldInMsg cfg);
      rewrite ?length_drop, length_take; lia. }
  assert (drop (Z.to_nat msg_offset) (take n data) = reported cfg (take n data)) as Hrep.
  { unfold reported, msg_offset. by destruct (IncludeSizeFieldInMsg cfg). }
  assert (check_ready r = (Ret (), r)) as Hck.
  { unfold check_ready, RM. rewrite (bind_Ret _ _ r (Impl r) r) by done. cbv beta.
    rewrite Hst, Hre, Hro, Hrs, Htr, bool_decide_true by done. rewrite !massert_bind by (done || lia).
    rewrite (bind_Ret _ _ _ _ _ (GetDataSize_ok r data Hb)).
    rewrite (usub_small _ msg_offset), usub_small by lia.
    rewrite !massert_bind by lia. unfold massert.
    by rewrite (proj2 (Z.leb_le 0 _)) by lia. }
  assert (GetReadyMsgSize r = (Ret (Z.of_nat (length (reported cfg (take n data)))), r) ∧
          GetReadyMsgOffset r = (Ret msg_offset, r)) as [Hgs Hgo].
  { unfold GetReadyMsgSize, GetReadyMsgOffset, RM. rewrite !(bind_Ret _ _ _ _ _ Hck). unfold gets.
    by rewrite Hrs, Hro, Hsz. }
  assert (∃ mem, GetReadyMsg r = (Ret mem, r) ∧
    take (length (reported cfg (take n data))) mem = reported cfg (take n data)) as (mem & H1 & H2);
    [| by exists mem].
  unfold GetReadyMsg, RM. rewrite (bind_Ret _ _ r (Impl r) r) by done. cbv beta.
  rewrite Hst, Hre, Hro, Hrs, Htr, bool_decide_true by done. cbn [negb orb].
  rewrite (proj2 (Z.ltb_ge (Fd _) 0)) by lia. rewrite (bind_Ret _ _ _ _ _ (GetDataSize_ok r data Hb)).
  rewrite (usub_small _ msg_offset), usub_small by lia.
  rewrite !(proj2 (Z.ltb_ge _ _)) by lia. rewrite (bind_Ret _ _ _ _ _ (GetDataSize_ok r data Hb)).
  rewrite <- Hsz. destruct (reported cfg (take n data)) as [| x l] eqn:Erep.
  { rewrite orb_true_r. by eexists. }
  rewrite (proj2 (Z.eqb_neq (Z.of_nat (length data)) 0)) by (cbn [length] in Hsz; lia).
  cbn [orb length]. rewrite (proj2 (Z.eqb_neq _ 0)) by lia.
  destruct (GetData_ok r data Hb) as (post & Hgd). rewrite (bind_Ret _ _ _ _ _ Hgd).
  eexists. split; [reflexivity |]. unfold memory.
  rewrite bool_decide_false by (intros ->; cbn in *; lia).
  rewrite <- Hrep. assert (S (length l) = n - Z.to_nat msg_offset)%nat as ->
    by (cbn [length] in Hsz; lia).
  rewrite <- skipn_firstn_comm. f_equal. by rewrite take_app_le by lia.
Qed.

Lemma Consume_ok r data eof n :
  settled r data eof → next_frame cfg data = FrameMsg n →
  ∃ r', ConsumeReadyMsg r = (Ret (State (Impl r')), r') ∧ settled r' (drop n data) eof ∧
    Storage_size (Buf (Impl r')) = Storage_size (Buf (Impl r)).
Proof.
  intros [Hfd Hb Hre Heof Htr Hcase] Hn. rewrite Hn in Hcase.
  destruct Hcase as (Hst & Hro & Hrs & o & Hsub). pose proof (offset_range data n Hn) as [Ho Hl].
  pose proof (buf_bounds _ _ Hb) as (Hoff & Hlen & _ & _).
  set (r1 := mkReader (Impl r) (BeforeConsumeReadyMsg (Sub r))).
  assert (buf_rep (Buf (Impl r1)) data) as Hb1 by done.
  destruct (MarkDataConsumed_ok _ data n Hb) as (b' & Hr' & Hb' & Hs'); [lia |].
  set (r2 := mkReader (with_ready 0 0 0 (with_buf b' (Impl r))) (Sub r1)).
  destruct (TryAdvance_ok r2 (drop n data) eof) as (r3 & Hr3 & Hset & Hbuf).
  { split; try done. exists None. split; [| done]. cbn. by rewrite Hsub. }
  exists r3. rewrite Hbuf. split; [| done].
  unfold ConsumeReadyMsg, RM. rewrite (bind_Ret _ _ r (Impl r) r) by done. cbv beta.
  rewrite Hst, Hro, Hrs, Htr, bool_decide_true by done. cbn [negb].
  rewrite massert_bind by lia.
  rewrite (bind_Ret _ _ _ _ _ (GetDataSize_ok r data Hb)), massert_bind by lia.
  rewrite (bind_Ret _ _ _ _ _ (GetDataSize_ok r data Hb)).
  rewrite (usub_small _ msg_offset), massert_bind by lia.
  rewrite (bind_Ret _ _ r () r1) by done.
  rewrite (bind_Ret _ _ _ _ _ (GetDataSize_ok r1 data Hb1)).
  rewrite (usub_small _ msg_offset), (usub_small _ (Z.of_nat n - _)), massert_bind by lia.
  rewrite (uadd_small msg_offset), (uadd_small _ 0) by lia.
  replace (msg_offset + (Z.of_nat n - msg_offset) + 0) with (Z.of_nat n) by lia.
  rewrite (bind_Ret _ _ _ () (mkReader (with_buf b' (Impl r1)) (Sub r1)));
    [| unfold on_buf; cbn [Impl r1]; by rewrite Hr'].
  by rewrite (bind_Ret _ _ _ () r2) by done.
Qed.

(** The reader for another descriptor, whatever its state. *)
Lemma Reset_eq fd r data o reason :
  buf_rep (Buf (Impl r)) data → Sub r = sized o reason →
  ∃ b, Reset fd r = (Ret (), mkReader (TImpl_new fd b) (sized None None)) ∧ buf_rep b [] ∧ Storage_size b = Storage_size (Buf (Impl r)).
Proof.
  intros Hb Hsub. destruct (MarkDataConsumed_ok (Buf (Impl r)) data (length data) Hb) as (b & Hm & Hb' & Hst); [done |].
  rewrite drop_all in Hb'. exists b. split; [| done]. unfold Reset, RM. do 3 (erewrite bind_Ret by reflexivity). rewrite Hsub.
  rewrite (bind_Ret _ _ _ () (mkReader (with_buf b (with_restrict false (with_restrict true (Impl r)))) (sized None None))); [done |].
  refine (on_buf_ok _ _ _ _ _). unfold Clear, BM. erewrite bind_Ret by reflexivity.
  change (MarkDataConsumed (ItemCount (Buf (Impl r))) (Buf (Impl r)) = (Ret (), b)). by rewrite (br_count _ _ Hb).
Qed.

Lemma fresh_settled fd b : 0 ≤ fd → buf_rep b [] → settled (mkReader (TImpl_new fd b) (sized None None)) [] false.
Proof.
  intros Hfd Hb. assert (next_frame cfg [] = FramePartial) as Hn by (unfold next_frame; rewrite frame_body_short; [done | cbn; pose proof size_pos; lia]).
  unfold TImpl_new. rewrite (proj2 (Z.ltb_ge fd 0)) by lia. split; cbn; try done. rewrite Hn. split_and!; try done. by exists None.
Qed.

Lemma Reset_ok fd r data o reason :
  0 ≤ fd → buf_rep (Buf (Impl r)) data → Sub r = sized o reason → Storage_size (Buf (Impl r)) ≤ storage_bound →
  ∃ r', Reset fd r = (Ret (), r') ∧ settled r' [] false ∧ Storage_size (Buf (Impl r')) ≤ storage_bound.
Proof.
  intros Hfd Hb Hsub Hbound. destruct (Reset_eq fd r data o reason Hb Hsub) as (b & E & Hb' & Hst).
  eexists. split; [exact E |]. split; [by apply fresh_settled |]. cbn. unfold TImpl_new. cbn. lia.
Qed.

(** ** A client of the reader *)

(** Takes every ready message, as the class comment says to. *)
Fixpoint drain (fuel : nat) : RM TSizeReader (list (list byte)) :=
  st ← gets (λ r, State (Impl r));
  if bool_decide (st = MsgReady) then
    match fuel with
    | O => crash OutOfFuel
    | S fuel =>
        mem ← GetReadyMsg;
        size ← GetReadyMsgSize;
        ConsumeReadyMsg;;
        rest ← drain fuel;
        mret (take (Z.to_nat size) mem :: rest)
    end
  else mret [].

(** Reads the chunks that [read()] returns one after the other, as long as the
    reader asks for more. *)
Fixpoint feed (chunks : list (list byte)) : RM TSizeReader (list (list byte)) :=
  match chunks with
  | [] => mret []
  | bytes :: chunks =>
      st ← gets (λ r, State (Impl r));
      if bool_decide (st = ReadNeeded) then
        Read (ReadBytes bytes);;
        fuel ← gets (λ r, length (Storage (Buf (Impl r))));
        msgs ← drain fuel;
        rest ← feed chunks;
        mret (msgs ++ rest)
      else mret []
  end.

(** The reader at the end of a stream. *)
Definition end_ok (r : TStreamMsgReader TSizeReader) (e : stream_end) (eof : bool) : Prop :=
  match e with
  | StreamPartial rest => settled r rest eof ∧ next_frame cfg rest = FramePartial
  | StreamBad reason => State (Impl r) = DataInvalid ∧ OptDataInvalidReason (Sub r) = Some reason
  end.

Lemma drain_ok fuel r data eof :
  settled r data eof → (length data ≤ fuel)%nat →
  ∃ r', drain fuel r = (Ret (frames cfg data).1, r') ∧ end_ok r' (frames cfg data).2 eof ∧
    Storage_size (Buf (Impl r')) = Storage_size (Buf (Impl r)).
Proof.
  revert r data. induction fuel as [| fuel IH]; intros r data Hs Hf;
    rewrite frames_eq; pose proof (st_case _ _ _ Hs) as Hcase;
    cbn [drain]; unfold RM; rewrite (bind_Ret _ _ r (State (Impl r)) r) by done; cbv beta;
    destruct (next_frame cfg data) as [n | | reason] eqn:Hn.
  - apply next_frame_msg in Hn as (_ & _ & _ & _ & Hk). lia.
  - destruct Hcase as (-> & _). exists r. by destruct eof.
  - destruct Hcase as (-> & o & Ho). exists r. cbn. rewrite Ho. split; [done |]. split; [| done].
    split; [| done]. pose proof (st_case _ _ _ Hs) as Hc. rewrite Hn in Hc. by destruct Hc.
  - destruct Hcase as (-> & _). rewrite bool_decide_true by done.
    destruct (ready_msg_ok r data eof n Hs Hn) as (mem & Hg & Hgs & _ & Htake).
    rewrite (bind_Ret _ _ _ _ _ Hg), (bind_Ret _ _ _ _ _ Hgs).
    destruct (Consume_ok r data eof n Hs Hn) as (r1 & Hr1 & Hs1 & Hst1).
    rewrite (bind_Ret _ _ _ _ _ Hr1).
    destruct (IH r1 (drop n data) Hs1) as (r2 & Hr2 & Hend & Hst2).
    { apply next_frame_msg in Hn as (_ & _ & _ & _ & Hk). rewrite length_drop. lia. }
    unfold RM in Hr2. rewrite (bind_Ret _ _ _ _ _ Hr2), Nat2Z.id, Htake.
    destruct (frames cfg (drop n data)) as [msgs e]. exists r2. split; [done |].
    split; [done | congruence].
  - destruct Hcase as (-> & _). exists r. by destruct eof.
  - destruct Hcase as (-> & o & Ho). exists r. cbn. rewrite Ho. split; [done |]. split; [| done].
    split; [| done]. pose proof (st_case _ _ _ Hs) as Hc. rewrite Hn in Hc. by destruct Hc.
Qed.

Definition chunk_ok (bytes : list byte) : Prop :=
  bytes ≠ [] ∧ Z.of_nat (length bytes) ≤ PreferredReadSize cfg.

Lemma feed_ok chunks r data :
  Forall chunk_ok chunks → settled r data false → next_frame cfg data = FramePartial →
  Storage_size (Buf (Impl r)) ≤ storage_bound →
  ∃ r', feed chunks r = (Ret (frames cfg (data ++ concat chunks)).1, r') ∧
    end_ok r' (frames cfg (data ++ concat chunks)).2 false ∧
    Storage_size (Buf (Impl r')) ≤ storage_bound.
Proof.
  intros Hch. revert r data. induction Hch as [| bytes chunks [Hne Hlen] _ IH]; intros r data Hs Hp Hb.
  { exists r. cbn. rewrite app_nil_r, frames_eq, Hp. done. }
  cbn [feed concat]. unfold RM. rewrite (bind_Ret _ _ r (State (Impl r)) r) by done. cbv beta.
  pose proof (st_case _ _ _ Hs) as Hcase. rewrite Hp in Hcase. destruct Hcase as (-> & _).
  rewrite bool_decide_true by done.
  destruct (Read_ok r data bytes Hs Hp Hlen Hb) as (r1 & Hr1 & Hs1 & Hb1).
  rewrite bool_decide_false in Hs1 by done. rewrite (bind_Ret _ _ _ _ _ Hr1).
  rewrite (bind_Ret _ _ r1 (length (Storage (Buf (Impl r1)))) r1) by done. cbv beta.
  destruct (drain_ok (length (Storage (Buf (Impl r1)))) r1 _ _ Hs1) as (r2 & Hr2 & Hend & Hst2).
  { pose proof (buf_bounds _ _ (st_buf _ _ _ Hs1)) as (? & [Hx _] & _). unfold Storage_size in Hx. lia. }
  unfold RM in Hr2. rewrite (bind_Ret _ _ _ _ _ Hr2), app_assoc, (frames_app (data ++ bytes)).
  destruct (frames cfg (data ++ bytes)) as [msgs [rest | reason]]; cbn [fst snd] in *.
  - destruct Hend as [Hs2 Hp2]. destruct (IH r2 rest Hs2 Hp2) as (r3 & Hr3 & Hend3 & Hb3); [lia |].
    unfold RM in Hr3. rewrite (bind_Ret _ _ _ _ _ Hr3). exists r3.
    by destruct (frames cfg (rest ++ concat chunks)).
  - exists r2. cbn [fst snd]. split; [| split; [done | lia]]. destruct Hend as [Hst _].
    assert (feed chunks r2 = (Ret [], r2)) as Hf.
    { destruct chunks as [| c chunks]; [done |]. cbn [feed]. unfold RM.
      rewrite (bind_Ret _ _ r2 (State (Impl r2)) r2) by done. cbv beta. by rewrite Hst. }
    unfold RM in Hf. rewrite (bind_Ret _ _ _ _ _ Hf). by rewrite app_nil_r.
Qed.
End spec.

Lemma new_reader_ok fd sf sg incl inmsg max pref r :
  0 ≤ fd → 0 ≤ max < 2 ^ 64 → 0 ≤ pref < 2 ^ 62 →
  TStreamMsgWithSizeReaderBase_new fd sf sg incl inmsg max pref = Ret r →
  let cfg := mkSizeReader sf sg incl inmsg max pref None None in
  cfg_ok cfg ∧ settled cfg r [] false ∧ next_frame cfg [] = FramePartial ∧
  Storage_size (Buf (Impl r)) ≤ storage_bound cfg.
Proof.
  intros Hfd Hmax Hpref Hnew cfg. unfold TStreamMsgWithSizeReaderBase_new in Hnew.
  destruct (ChooseSizeFieldReadFn sf sg) as [read |] eqn:Hch; [| done].
  assert (sf = 1 ∨ sf = 2 ∨ sf = 4 ∨ sf = 8) as Hsf.
  { unfold ChooseSizeFieldReadFn in Hch. destruct sf as [| p | p]; try done.
    repeat (destruct p as [p | p |]; try done); auto. }
  destruct (_ && _ && _) eqn:Hb; [| done]. injection Hnew as <-.
  apply andb_prop in Hb as [[H1 H2]%andb_prop H3]. unfold SIZE_MAX in H1.
  rewrite (usub_small INT32_MAX) in H2 by width_lia.
  assert (cfg_ok cfg) as Hcfg by (split; cbn; [done | lia | lia]).
  assert (next_frame cfg [] = FramePartial) as Hn.
  { unfold next_frame. rewrite frame_body_short; [done | done |]. cbn. lia. }
  split; [done |]. split; [split | split; [done |]].
  - cbn. unfold TImpl_new. cbn. by rewrite (proj2 (Z.ltb_ge fd 0)) by lia.
  - split; [exists [], []; done | done | done].
  - done.
  - cbn. lia.
  - done.
  - rewrite Hn. cbn. rewrite (proj2 (Z.ltb_ge fd 0)) by lia. do 3 (split; [done |]). by exists None.
  - unfold Storage_size, storage_bound. cbn. lia.
Qed.

(** ** Theorems *)

(** C20: the reader delivers the frames of the stream, however it arrives.  For
    a reader that the constructor accepts and every way [read()] cuts the
    stream into chunks, no assertion fails and no call of [Die] is made, the
    messages the client takes are exactly the frames of the bytes read, in
    order; with an incomplete frame left, the reader asks for more and, when
    the peer closes, ends holding exactly the bytes of that frame; a bad size
    field ends the stream with its reason. *)
Theorem stream_reader_delivers_frames fd sf sg incl inmsg max pref r chunks :
  0 ≤ fd → 0 ≤ max < 2 ^ 64 → 0 ≤ pref < 2 ^ 62 →
  TStreamMsgWithSizeReaderBase_new fd sf sg incl inmsg max pref = Ret r →
  Forall (λ c, c ≠ [] ∧ Z.of_nat (length c) ≤ pref) chunks →
  ∃ r', feed chunks r =
      (Ret (frames (mkSizeReader sf sg incl inmsg max pref None None) (concat chunks)).1, r') ∧
    match (frames (mkSizeReader sf sg incl inmsg max pref None None) (concat chunks)).2 with
    | StreamPartial rest => State (Impl r') = ReadNeeded ∧
        ∃ r'', Read (ReadBytes []) r' = (Ret AtEnd, r'') ∧
          GetDataSize r'' = (Ret (Z.of_nat (length rest)), r'') ∧
          (rest ≠ [] → ∃ post, GetData r'' = (Ret (rest ++ post), r''))
    | StreamBad reason =>
        State (Impl r') = DataInvalid ∧ OptDataInvalidReason (Sub r') = Some reason
    end.
Proof.
  intros Hfd Hmax Hpref Hnew Hch.
  destruct (new_reader_ok _ _ _ _ _ _ _ _ Hfd Hmax Hpref Hnew) as (Hcfg & Hs & Hp & Hb).
  set (cfg := mkSizeReader _ _ _ _ _ _ _ _) in *.
  destruct (feed_ok cfg Hcfg chunks r [] Hch Hs Hp Hb) as (r' & Hr & Hend & Hb').
  exists r'. split; [exact Hr |]. cbn [app] in Hend.
  destruct (frames cfg (concat chunks)) as [msgs [rest | reason]]; cbn [snd] in *; [| exact Hend].
  destruct Hend as [Hs' Hp']. pose proof (st_case _ _ _ _ Hs') as Hc. rewrite Hp' in Hc.
  destruct Hc as [Hst _]. split; [done |].
  destruct (Read_ok cfg Hcfg r' rest [] Hs' Hp') as (r'' & Hr'' & Hs'' & _); [cbn; lia | done |].
  rewrite app_nil_r, bool_decide_true in Hs'' by done. exists r''.
  pose proof (st_case _ _ _ _ Hs'') as Hc. rewrite Hp' in Hc. destruct Hc as [Hst'' _].
  split; [by rewrite Hr'', Hst'' |]. pose proof (st_buf _ _ _ _ Hs'') as Hbuf.
  split; [by apply GetDataSize_ok |]. intros Hne. destruct (GetData_ok r'' rest Hbuf) as (post & Hg).
  exists post. unfold memory in Hg. by rewrite bool_decide_false in Hg.
Qed.

(** C39: the reader's memory is bounded by its configuration.  Whatever a peer
    sends, the buffer never grows beyond the size field, the maximum body and
    one read. *)
Theorem stream_reader_memory_bounded fd sf sg incl inmsg max pref r chunks :
  0 ≤ fd → 0 ≤ max < 2 ^ 64 → 0 ≤ pref < 2 ^ 62 →
  TStreamMsgWithSizeReaderBase_new fd sf sg incl inmsg max pref = Ret r →
  Forall (λ c, c ≠ [] ∧ Z.of_nat (length c) ≤ pref) chunks →
  Z.of_nat (length (Storage (Buf (Impl (feed chunks r).2)))) ≤ sf + max + pref.
Proof.
  intros Hfd Hmax Hpref Hnew Hch.
  destruct (new_reader_ok _ _ _ _ _ _ _ _ Hfd Hmax Hpref Hnew) as (Hcfg & Hs & Hp & Hb).
  destruct (feed_ok _ Hcfg chunks r [] Hch Hs Hp Hb) as (r' & -> & _ & Hb'). exact Hb'.
Qed.

(** The readers of the program: a signed 32 bit size. *)
Definition int32_frame (incl : bool) (body : list byte) : list byte :=
  WriteInt32ToHeader (Z.of_nat (length body) + if incl then 4 else 0) ++ body.

Lemma frame_body_int32 (incl : bool) inmsg max pref data n :
  ReadInt32FromHeader data = Some (n + if incl then 4 else 0) → 0 ≤ n ≤ max →
  frame_body (mkSizeReader 4 true incl inmsg max pref None None) data = Some (inr n).
Proof.
  intros Hr Hn. unfold frame_body, ChooseSizeFieldReadFn, ReadSigned32BitSizeField, signed_field.
  cbn [SizeFieldSize SizeFieldIsSigned mbind option_bind]. rewrite Hr. cbn [fmap option_fmap option_map].
  rewrite (proj2 (Z.ltb_ge _ 0)) by (destruct incl; lia).
  cbn [mbind option_bind SizeIncludesSizeField MaxMsgBodySize].
  assert ((if incl then n + (if incl then 4 else 0) - 4 else n + (if incl then 4 else 0)) = n) as ->
    by (destruct incl; lia).
  rewrite (proj2 (Z.ltb_ge n 0)) by lia. by rewrite (proj2 (Z.ltb_ge max n)) by lia.
Qed.

Lemma frame_body_written incl inmsg max pref body rest :
  Z.of_nat (length body) ≤ max ≤ INT32_MAX - 4 →
  frame_body (mkSizeReader 4 true incl inmsg max pref None None) (int32_frame incl body ++ rest) =
    Some (inr (Z.of_nat (length body))).
Proof.
  intros Hb. apply frame_body_int32; [| lia]. unfold int32_frame. rewrite <- app_assoc.
  apply ReadInt32_Write. destruct incl; width_lia.
Qed.

(** A complete frame at the front of the stream. *)
Lemma frames_cons cfg f body rest :
  cfg_ok cfg → frame_body cfg (f ++ rest) = Some (inr body) →
  Z.of_nat (length f) = SizeFieldSize cfg + body →
  frames cfg (f ++ rest) = (reported cfg f :: (frames cfg rest).1, (frames cfg rest).2).
Proof.
  intros Hcfg Hb Hl. rewrite frames_eq by done. unfold next_frame. rewrite Hb.
  rewrite (proj2 (Z.ltb_ge _ _)) by (rewrite length_app; lia).
  assert (Z.to_nat (SizeFieldSize cfg + body) = length f) as -> by lia.
  rewrite drop_app_length, take_app_length. by destruct (frames cfg rest).
Qed.

Lemma reported_frame incl inmsg max pref body :
  reported (mkSizeReader 4 true incl inmsg max pref None None) (int32_frame incl body) =
  if inmsg then int32_frame incl body else body.
Proof.
  unfold reported. cbn [IncludeSizeFieldInMsg SizeFieldSize]. destruct inmsg; [done |].
  unfold int32_frame. apply (drop_app_length' (WriteInt32ToHeader _) body 4).
  by rewrite length_WriteInt32.
Qed.

Lemma length_int32_frame incl body :
  Z.of_nat (length (int32_frame incl body)) = 4 + Z.of_nat (length body).
Proof. unfold int32_frame. rewrite length_app, length_WriteInt32. lia. Qed.

Lemma frames_written incl inmsg max pref bodies :
  0 ≤ max ≤ INT32_MAX - 4 → 0 < pref < 2 ^ 62 →
  Forall (λ b, Z.of_nat (length b) ≤ max) bodies →
  frames (mkSizeReader 4 true incl inmsg max pref None None) (concat (int32_frame incl <$> bodies)) =
    ((λ b, if inmsg then int32_frame incl b else b) <$> bodies, StreamPartial []).
Proof.
  intros Hmax Hpref Hb. set (cfg := mkSizeReader 4 true incl inmsg max pref None None).
  assert (cfg_ok cfg) as Hcfg by (split; cbn; auto).
  induction Hb as [| body bodies Hb _ IH].
  - rewrite frames_eq by done. unfold next_frame. rewrite frame_body_short; [done | done |]. cbn. lia.
  - rewrite !fmap_cons. cbn [concat].
    rewrite (frames_cons cfg _ (Z.of_nat (length body)) _ Hcfg).
    + rewrite IH. unfold cfg. by rewrite reported_frame.
    + apply frame_body_written. lia.
    + apply length_int32_frame.
Qed.

(** What is framed is read back.  Messages within the maximum size, each
    written after its 32 bit size (which counts itself or not), arrive as the
    same messages in the same order through any sequence of reads, and leave
    nothing behind. *)
Theorem framed_messages_roundtrip fd incl max pref r bodies chunks :
  0 ≤ fd → 0 ≤ max < 2 ^ 64 → 0 ≤ pref < 2 ^ 62 →
  TStreamMsgWithSizeReaderBase_new fd 4 true incl false max pref = Ret r →
  Forall (λ b, Z.of_nat (length b) ≤ max) bodies →
  Forall (λ c, c ≠ [] ∧ Z.of_nat (length c) ≤ pref) chunks →
  concat chunks = concat (int32_frame incl <$> bodies) →
  ∃ r', feed chunks r = (Ret bodies, r') ∧ State (Impl r') = ReadNeeded ∧
    GetDataSize r' = (Ret 0, r').
Proof.
  intros Hfd Hmax Hpref Hnew Hbod Hch Hc.
  destruct (new_reader_ok _ _ _ _ _ _ _ _ Hfd Hmax Hpref Hnew) as (Hcfg & Hs & Hp & Hb).
  destruct (feed_ok _ Hcfg chunks r [] Hch Hs Hp Hb) as (r' & Hr & Hend & _).
  pose proof (ck_max _ Hcfg) as Hm. pose proof (ck_read _ Hcfg) as Hpr. cbn in Hm, Hpr.
  cbn [app] in Hr, Hend. rewrite Hc, frames_written in Hr, Hend by done.
  exists r'. cbn [fst snd] in *. rewrite list_fmap_id in Hr. split; [exact Hr |].
  destruct Hend as [Hs' Hp']. pose proof (st_case _ _ _ _ Hs') as Hcase. rewrite Hp' in Hcase.
  split; [apply Hcase |]. apply (GetDataSize_ok r' []). apply Hs'.
Qed.

(** A subclass whose messages claim a terminator that has not arrived. *)
Definition short_terminator : TStreamMsgReaderSub () := {|
  GetNextReadSize _ := 1;
  GetNextMsg data data_size at_end := mret (if data_size =? 0 then ResNoMsgReady else ResMsgReady 0 1 1);
  HandleReset := id;
  BeforeConsumeReadyMsg := id
|}.

(** The check in [TryAdvanceToNextMsg] that is to protect against a
    subclass that reports more data than there is does not check trailing
    data: it compares the trailing size with what is left after the previous
    message (always everything) instead of after the one reported.  A subclass
    that reports a one byte message and a one byte terminator when one byte
    has arrived is let through. *)
Theorem trailing_data_not_checked :
  ∃ r, @Read () short_terminator (ReadBytes [x61]) (TStreamMsgReader_new 3 ()) = (Ret MsgReady, r) ∧
    GetDataSize r = (Ret 1, r) ∧ ReadyMsgSize (Impl r) + TrailingDataSize (Impl r) = 2 ∧
    (@ConsumeReadyMsg () short_terminator r).1 = Fault AssertFailed.
Proof.
  exists (@Read () short_terminator (ReadBytes [x61]) (TStreamMsgReader_new 3 ())).2.
  split; [| split; [| split]]; vm_compute; reflexivity.
Qed.

(** ** Examples *)

Definition ex_bodies : list (list byte) := [[x61; x62]; []; [x63]].

Definition ex_chunks : list (list byte) :=
  [[x00; x00]; [x00; x02; x61; x62; x00]; [x00; x00; x00]; [x00; x00; x00; x01; x63]].

Definition ex_reader : TStreamMsgReader TSizeReader :=
  TStreamMsgReader_new 5 (mkSizeReader 4 true false false 100 10 None None).

Lemma ex_chunks_ok : Forall (λ c, c ≠ [] ∧ Z.of_nat (length c) ≤ 10) ex_chunks.
Proof. repeat constructor; vm_compute; discriminate. Qed.

Lemma stream_reader_delivers_frames_witness :
  ∃ r', feed ex_chunks ex_reader = (Ret ex_bodies, r') ∧ State (Impl r') = ReadNeeded.
Proof.
  destruct (stream_reader_delivers_frames 5 4 true false false 100 10 ex_reader ex_chunks)
    as (r' & Hr & Hend); [lia | lia | lia | reflexivity | exact ex_chunks_ok |].
  exists r'. split; [exact Hr |]. exact (proj1 Hend).
Defined.

Lemma stream_reader_memory_bounded_witness :
  Z.of_nat (length (Storage (Buf (Impl (feed ex_chunks ex_reader).2)))) ≤ 4 + 100 + 10.
Proof.
  apply (stream_reader_memory_bounded 5 4 true false false 100 10 ex_reader ex_chunks);
    [lia | lia | lia | reflexivity | exact ex_chunks_ok].
Defined.

Lemma framed_messages_roundtrip_witness :
  ∃ r', feed ex_chunks ex_reader = (Ret ex_bodies, r') ∧ State (Impl r') = ReadNeeded ∧
    GetDataSize r' = (Ret 0, r').
Proof.
  apply (framed_messages_roundtrip 5 false 100 10 ex_reader ex_bodies ex_chunks);
    [lia | lia | lia | reflexivity | | exact ex_chunks_ok | vm_compute; reflexivity].
  repeat constructor; vm_compute; discriminate.
Defined.
