(* ===== verification/Capped.v ===== *)
(** * Capped memory: pool, writer, blob and reader (src/capped)

    The pool is a heap of fixed-size blocks threaded through [NextBlock]
    pointers; blobs are chains of such blocks.  Pointers to blocks are indices
    ([None] is null), so freeing, allocating and writing are modelled on the
    shared heap with its aliasing, and the lemmas below recover ownership: a
    free chain and disjoint used chains. *)
From S2P Require Import Prelude FieldAccess.

Inductive exn := TMemoryCapReached.

(** [TPool::TBlock]: the link and the data area of a block. *)
Record TBlock := mkBlock { NextBlock : option nat; Data : list byte }.

(** [TPool].  [Storage] holds the blocks by index, in address order. *)
Record TPool := mkPool {
  BlockSize : Z;
  BlockCount : nat;
  FirstFreeBlock : option nat;
  Storage : gmap nat TBlock
}.

Definition sizeof_TBlock : Z := 16.

Definition GetBlockOverhead : Z := 8.

Definition GetDataSize (p : TPool) : Z := BlockSize p - GetBlockOverhead.

(** Stores a block's [NextBlock] field. *)
Definition set_next (b : nat) (n : option nat) (st : gmap nat TBlock) : gmap nat TBlock :=
  alter (λ blk, mkBlock n (Data blk)) b st.

(** [TBlock::Link(FirstFreeBlock)] and the placement [new TBlock(FirstFreeBlock)]. *)
Definition LinkFree (b : nat) (p : TPool) : TPool :=
  mkPool (BlockSize p) (BlockCount p) (Some b)
    (set_next b (FirstFreeBlock p) (Storage p)).

(** The constructor's walk over the storage: links blocks [i], [i+1], ... *)
Fixpoint init_blocks (n i : nat) (p : TPool) : TPool :=
  match n with
  | O => p
  | S n => init_blocks n (S i) (LinkFree i p)
  end.

(** [TPool::TPool].  [raw] is what the fresh storage happens to contain. *)
Definition TPool_new (raw : nat → nat → byte) (block_size : Z) (block_count : nat) : TPool :=
  let bs := Z.max block_size sizeof_TBlock in
  let data i := raw i <$> seq 0 (Z.to_nat (bs - GetBlockOverhead)) in
  let st := list_to_map ((λ i, (i, mkBlock None (data i))) <$> seq 0 block_count) in
  init_blocks block_count 0 (mkPool bs block_count None st).

(** [TBlock::Unlink(FirstFreeBlock)] of a free list known to be nonempty. *)
Definition UnlinkFree (b : nat) : M exn TPool () :=
  p ← get;
  blk ← need NullDeref (Storage p !! b);
  modify (λ p, mkPool (BlockSize p) (BlockCount p) (NextBlock blk) (Storage p)).

(** [TPool::Alloc]. *)
Definition Alloc : M exn TPool nat :=
  p ← get;
  match FirstFreeBlock p with
  | None => throw TMemoryCapReached
  | Some b => UnlinkFree b;; mret b
  end.

(** [TPool::DoFree], with the assertion that the block lies in the storage. *)
Definition DoFree (b : nat) : M exn TPool () :=
  p ← get;
  massert (bool_decide (b < BlockCount p)%nat);;
  modify (LinkFree b).

(** [TPool::DoFreeList]: the loop unlinks the head of the list and frees it. *)
Fixpoint DoFreeList (fuel : nat) (first_block : nat) : M exn TPool () :=
  match fuel with
  | O => crash OutOfFuel
  | S fuel =>
      p ← get;
      blk ← need NullDeref (Storage p !! first_block);
      DoFree first_block;;
      match NextBlock blk with
      | Some b => DoFreeList fuel b
      | None => mret ()
      end
  end.

(** [TPool::FreeList].  A list has at most [BlockCount] blocks. *)
Definition FreeList (first_block : option nat) : M exn TPool () :=
  p ← get;
  match first_block with
  | None => mret ()
  | Some b => DoFreeList (BlockCount p) b
  end.

(** The allocation loop of [TPool::AllocList], with [n] blocks to go. *)
Fixpoint AllocList_loop (n : nat) (first_block : option nat) : M exn TPool (option nat) :=
  match n with
  | O => mret first_block
  | S n =>
      p ← get;
      match FirstFreeBlock p with
      | None => FreeList first_block;; throw TMemoryCapReached
      | Some b =>
          UnlinkFree b;;
          modify (λ p, mkPool (BlockSize p) (BlockCount p) (FirstFreeBlock p)
                         (set_next b first_block (Storage p)));;
          AllocList_loop n (Some b)
      end
  end.

(** [TPool::AllocList]. *)
Definition AllocList (block_count : nat) : M exn TPool (option nat) :=
  AllocList_loop block_count None.

(** [TPool::Free]. *)
Definition Free (ptr : option nat) : M exn TPool () :=
  match ptr with None => mret () | Some b => DoFree b end.

(** ** Writing *)

(** A [char *] into the data area of a block; [CAt None o] is what the code
    computes from a null block pointer. *)
Inductive cptr :=
| CNull
| CAt (base : option nat) (off : nat).

(** [TWriter]. *)
Record TWriter := mkWriter {
  WFirstBlock : option nat;
  WLastBlock : option nat;
  WCursor : cptr;
  WNumBytes : Z
}.

(** [TWriter::Init]. *)
Definition Init : TWriter := mkWriter None None CNull 0.

(** [std::memcpy] into a block's data area at offset [off]. *)
Definition memcpy_block (b : option nat) (off : nat) (src : list byte) : M exn TPool () :=
  match b, src with
  | _, [] => mret ()
  | None, _ => crash NullDeref
  | Some b, _ =>
      p ← get;
      blk ← need NullDeref (Storage p !! b);
      if decide (off + length src ≤ length (Data blk))%nat then
        modify (λ p, mkPool (BlockSize p) (BlockCount p) (FirstFreeBlock p)
          (<[b := mkBlock (NextBlock blk)
                    (take off (Data blk) ++ src ++ drop (off + length src) (Data blk))]>
             (Storage p)))
      else crash OutOfBounds
  end.

(** The loop that fills whole blocks; returns the block and the data left. *)
Fixpoint Write_blocks (fuel block_size : nat) (block : option nat) (data : list byte)
    : M exn TPool (option nat * list byte) :=
  match fuel with
  | O => crash OutOfFuel
  | S fuel =>
      if decide (block_size < length data)%nat then
        massert (bool_decide (is_Some block));;
        memcpy_block block 0 (take block_size data);;
        b ← need NullDeref block;
        p ← get;
        blk ← need NullDeref (Storage p !! b);
        Write_blocks fuel block_size (NextBlock blk) (drop block_size data)
      else mret (block, data)
  end.

(** [*link = block], where [link] is the last block's [NextBlock] if there is
    one and the writer's [FirstBlock] otherwise. *)
Definition set_link (w : TWriter) (block : option nat) : M exn TPool TWriter :=
  match WLastBlock w with
  | Some lb =>
      modify (λ p, mkPool (BlockSize p) (BlockCount p) (FirstFreeBlock p)
                     (set_next lb block (Storage p)));;
      mret w
  | None => mret (mkWriter block (WLastBlock w) (WCursor w) (WNumBytes w))
  end.

(** The part of [TWriter::Write] after the existing space is used: allocate
    blocks for [data], link them on, copy. *)
Definition Write_more (w : TWriter) (data : list byte) (bytes_to_write : Z)
    : M exn TPool TWriter :=
  p ← get;
  let block_size := Z.to_nat (GetDataSize p) in
  block ← AllocList ((length data + block_size - 1) `div` block_size);
  w ← set_link w block;
  '(block, data) ← Write_blocks (S (length data)) block_size block data;
  memcpy_block block 0 data;;
  mret (mkWriter (WFirstBlock w) block (CAt block (length data))
          (WNumBytes w + bytes_to_write)).

(** [TWriter::Write].  The distance from the cursor to the end of the last
    block is defined only for a cursor in that block.  The writer's fields are assigned only once allocation
    has succeeded, so a throw leaves the writer [w] as it was. *)
Definition Write (w : TWriter) (data : list byte) : M exn TPool TWriter :=
  p ← get;
  let block_size := Z.to_nat (GetDataSize p) in
  match WLastBlock w with
  | Some lb =>
      match WCursor w with
      | CAt (Some b) off =>
          let avail := (block_size - off)%nat in
          if decide (b ≠ lb ∨ block_size < off)%nat then crash OutOfBounds
          else if decide (length data ≤ avail)%nat then
            memcpy_block (Some lb) off data;;
            mret (mkWriter (WFirstBlock w) (WLastBlock w)
                    (CAt (Some lb) (off + length data))
                    (WNumBytes w + Z.of_nat (length data)))
          else
            memcpy_block (Some lb) off (take avail data);;
            Write_more w (drop avail data) (Z.of_nat (length data))
      | _ => crash NullDeref
      end
  | None => Write_more w data (Z.of_nat (length data))
  end.

(** [TWriter::CancelBlob], also run by the destructor. *)
Definition CancelBlob (w : TWriter) : M exn TPool TWriter :=
  FreeList (WFirstBlock w);; mret Init.

(** ** Blobs *)

(** [TBlob]; the pool pointer is null exactly when [FirstBlock] is. *)
Record TBlob := mkBlob {
  FirstBlock : option nat;
  LastBlockSize : nat;
  NumBytes : Z
}.

Definition TBlob_empty : TBlob := mkBlob None 0 0.

(** [TWriter::DraftBlob]: the blob and the writer left behind. *)
Definition DraftBlob (w : TWriter) : M exn TPool (TBlob * TWriter) :=
  match WFirstBlock w with
  | Some _ =>
      match WCursor w with
      | CAt b off =>
          if decide (b ≠ WLastBlock w) then crash OutOfBounds else
          massert (bool_decide (off ≠ 0%nat));;
          mret (mkBlob (WFirstBlock w) off (WNumBytes w), Init)
      | CNull => crash NullDeref
      end
  | None => mret (TBlob_empty, w)
  end.

(** [TBlob::~TBlob]. *)
Definition TBlob_destroy (b : TBlob) : M exn TPool () := FreeList (FirstBlock b).

(** [TBlob::DoGetDataInFirstBlock]: the size and the data it points to. *)
Definition DoGetDataInFirstBlock (b : TBlob) : M exn TPool (nat * list byte) :=
  match FirstBlock b with
  | None => mret (0%nat, [])
  | Some i =>
      p ← get;
      blk ← need NullDeref (Storage p !! i);
      let n := match NextBlock blk with
               | None => LastBlockSize b
               | Some _ => Z.to_nat (GetDataSize p)
               end in
      mret (n, take n (Data blk))
  end.

(** [TBlob::ForEachBlock] with a callback over an accumulator that returns
    whether to go on. *)
Fixpoint ForEachBlock_loop {C} (fuel : nat) (blob : TBlob) (block : option nat)
    (cb : list byte → C → bool * C) (c : C) : M exn TPool (bool * C) :=
  match block with
  | None => mret (true, c)
  | Some i =>
      match fuel with
      | O => crash OutOfFuel
      | S fuel =>
          p ← get;
          blk ← need NullDeref (Storage p !! i);
          let n := match NextBlock blk with
                   | Some _ => Z.to_nat (GetDataSize p)
                   | None => LastBlockSize blob
                   end in
          let '(go, c) := cb (take n (Data blk)) c in
          if go then ForEachBlock_loop fuel blob (NextBlock blk) cb c
          else mret (false, c)
      end
  end.

Definition ForEachBlock {C} (blob : TBlob) (cb : list byte → C → bool * C) (c : C)
    : M exn TPool (bool * C) :=
  p ← get; ForEachBlock_loop (BlockCount p) blob (FirstBlock blob) cb c.

(** ** Reading *)

(** [TReader].  [RCursor] is the offset in the data of [RBlock]; null at the
    end. *)
Record TReader := mkReader {
  RBlob : TBlob;
  RBlock : option nat;
  RCursor : option nat;
  BytesRemaining : Z
}.

(** [TReader::TReader]. *)
Definition TReader_new (blob : TBlob) : TReader :=
  mkReader blob (FirstBlock blob)
    (match FirstBlock blob with Some _ => Some 0%nat | None => None end)
    (NumBytes blob).

(** The loop of [TReader::Advance]; [acc] is what was copied so far. *)
Fixpoint Advance_loop (fuel : nat) (p : TPool) (size : nat) (acc : list byte)
    : M exn TReader (list byte) :=
  match size with
  | O => mret acc
  | _ =>
      match fuel with
      | O => crash OutOfFuel
      | S fuel =>
          r ← get;
          match RCursor r, RBlock r with
          | None, _ => throw TMemoryCapReached
          | Some _, None => crash NullDeref
          | Some cur, Some b =>
              blk ← need NullDeref (Storage p !! b);
              let limit := match NextBlock blk with
                           | Some _ => Z.to_nat (GetDataSize p)
                           | None => LastBlockSize (RBlob r)
                           end in
              if decide (limit < cur)%nat then crash OutOfBounds else
              let avail := (limit - cur)%nat in
              massert (bool_decide (Z.of_nat avail ≤ BytesRemaining r));;
              if decide (size < avail)%nat then
                modify (λ r, mkReader (RBlob r) (RBlock r) (Some (cur + size)%nat)
                               (BytesRemaining r - Z.of_nat size));;
                mret (acc ++ take size (drop cur (Data blk)))
              else
                modify (λ r, mkReader (RBlob r) (NextBlock blk)
                   (match NextBlock blk with Some _ => Some 0%nat | None => None end)
                   (BytesRemaining r - Z.of_nat avail));;
                Advance_loop fuel p (size - avail)
                  (acc ++ take avail (drop cur (Data blk)))
          end
      end
  end.

(** [TReader::Advance], and so [Read] and [Skip].  A reader visits at most
    [BlockCount] blocks, then one more iteration throws. *)
Definition Advance (p : TPool) (size : nat) : M exn TReader (list byte) :=
  r ← get;
  match size with
  | O => mret []
  | _ => if decide (NumBytes (RBlob r) = 0) then throw TMemoryCapReached
         else Advance_loop (S (BlockCount p)) p size []
  end.

Definition Read := Advance.

Definition Skip (p : TPool) (size : nat) : M exn TReader () :=
  Advance p size;; mret ().

(** [MakeKeyAndValue] of dory/msg.cc: both writes, then the blob; the writer's
    destructor cancels what an exception leaves behind. *)
Definition MakeKeyAndValue (key value : list byte) : M exn TPool TBlob :=
  let cancel w : M exn TPool TBlob := CancelBlob w;; throw TMemoryCapReached in
  '(w, r) ← try_catch
    (w ← Write Init key; mret (w, Some ())) (λ _, mret (Init, None));
  match r with
  | None => cancel w
  | Some _ =>
      '(w, r) ← try_catch
        (w ← Write w value; mret (w, Some ())) (λ _, mret (w, None));
      match r with
      | None => cancel w
      | Some _ => '(blob, w) ← DraftBlob w; CancelBlob w;; mret blob
      end
  end.

(** ** Ownership *)

(** The data area of block [b]. *)
Definition blk_data (p : TPool) (b : nat) : list byte :=
  from_option Data [] (Storage p !! b).

(** Following [NextBlock] from [ptr] visits exactly the blocks [bs]. *)
Fixpoint chain (st : gmap nat TBlock) (ptr : option nat) (bs : list nat) : Prop :=
  match bs with
  | [] => ptr = None
  | b :: bs => ptr = Some b ∧ ∃ n, NextBlock <$> st !! b = Some n ∧ chain st n bs
  end.

Definition dsz (p : TPool) : nat := Z.to_nat (GetDataSize p).

(** The pool's invariant: the free list visits [free], every block is either
    free or used, and every block has a full data area. *)
Record pool_inv (p : TPool) (free used : list nat) : Prop := {
  inv_chain : chain (Storage p) (FirstFreeBlock p) free;
  inv_perm : free ++ used ≡ₚ seq 0 (BlockCount p);
  inv_data : ∀ b, (b < BlockCount p)%nat →
    is_Some (Storage p !! b) ∧ length (blk_data p b) = dsz p;
  inv_size : (0 < dsz p)%nat
}.

(** [p'] is [p] except for the free list and the blocks in [X]. *)
Record frame (X : list nat) (p p' : TPool) : Prop := {
  frame_size : BlockSize p' = BlockSize p;
  frame_count : BlockCount p' = BlockCount p;
  frame_same : ∀ b, b ∉ X → Storage p' !! b = Storage p !! b
}.

(** The two kinds of update of a block, as functions on the pool. *)
Definition with_next (b : nat) (n : option nat) (p : TPool) : TPool :=
  mkPool (BlockSize p) (BlockCount p) (FirstFreeBlock p) (set_next b n (Storage p)).

Definition with_data (b : nat) (d : list byte) (p : TPool) : TPool :=
  mkPool (BlockSize p) (BlockCount p) (FirstFreeBlock p)
    (alter (λ blk, mkBlock (NextBlock blk) d) b (Storage p)).

Definition with_free (f : option nat) (p : TPool) : TPool :=
  mkPool (BlockSize p) (BlockCount p) f (Storage p).

Lemma chain_mono st st' ptr bs :
  (∀ b, b ∈ bs → NextBlock <$> st' !! b = NextBlock <$> st !! b) →
  chain st ptr bs → chain st' ptr bs.
Proof.
  revert ptr. induction bs as [| b bs IH]; intros ptr Hag; [done |].
  intros (-> & n & Hn & Hc). split; [done |]. exists n.
  rewrite Hag by left. split; [done |]. apply IH; [| done].
  intros b' Hb'. apply Hag. by right.
Qed.

Lemma chain_app st ptr l k :
  chain st ptr (l ++ k) →
  ∃ n, chain st n k.
Proof.
  revert ptr. induction l as [| b l IH]; intros ptr; [eauto |].
  intros (_ & n & _ & Hc). eauto.
Qed.

Lemma chain_is_Some st ptr bs b : chain st ptr bs → b ∈ bs → is_Some (st !! b).
Proof.
  revert ptr. induction bs as [| c bs IH]; intros ptr; [by intros _ ?%elem_of_nil |].
  intros (_ & n & Hn & Hc) [-> | Hb]%elem_of_cons; [| eauto].
  apply fmap_Some in Hn as (? & ? & _). eauto.
Qed.

Lemma set_next_lookup b n st c :
  set_next b n st !! c =
  if decide (c = b) then (λ blk, mkBlock n (Data blk)) <$> st !! c else st !! c.
Proof.
  unfold set_next. case_decide as H; [subst; apply lookup_alter_eq |].
  by apply lookup_alter_ne.
Qed.

Lemma chain_set_next_notin st ptr bs b n :
  b ∉ bs → chain st ptr bs → chain (set_next b n st) ptr bs.
Proof.
  intros Hb. apply chain_mono. intros c Hc.
  rewrite set_next_lookup, decide_False; [done |]. by intros ->.
Qed.

(** Relinking the last block of a chain to another chain concatenates them. *)
Lemma chain_link st ptr l b n k :
  chain st ptr (l ++ [b]) → chain st n k → NoDup (l ++ [b]) → (∀ x, x ∈ l ++ [b] → x ∉ k) →
  chain (set_next b n st) ptr (l ++ b :: k).
Proof.
  revert ptr. induction l as [| c l IH]; intros ptr Hc Hk Hnd Hdisj.
  - destruct Hc as (-> & m & Hm & _). cbn. split; [done |]. exists n.
    apply fmap_Some in Hm as (blk & Hb & _).
    rewrite set_next_lookup, decide_True, Hb by done. split; [done |].
    apply chain_set_next_notin; [| done]. apply Hdisj. by left.
  - destruct Hc as (-> & m & Hm & Hc). inversion Hnd as [| ? ? Hc' Hnd']; subst.
    cbn. split; [done |]. exists m.
    assert (c ≠ b) by (intros ->; apply Hc'; set_solver).
    rewrite set_next_lookup, decide_False by done. split; [done |].
    apply IH; [done | done | done |]. intros x Hx. apply Hdisj. by right.
Qed.

Lemma blk_data_with_next b n p c : blk_data (with_next b n p) c = blk_data p c.
Proof.
  unfold blk_data, with_next. cbn. rewrite set_next_lookup.
  case_decide; [| done]. by destruct (Storage p !! c).
Qed.

Lemma blk_data_with_data b d p c :
  is_Some (Storage p !! b) →
  blk_data (with_data b d p) c = if decide (c = b) then d else blk_data p c.
Proof.
  intros [blk Hb]. unfold blk_data, with_data. cbn.
  case_decide as Hc; [subst; by rewrite lookup_alter_eq, Hb |].
  by rewrite lookup_alter_ne.
Qed.

Lemma NextBlock_with_data b d p c :
  NextBlock <$> Storage (with_data b d p) !! c = NextBlock <$> Storage p !! c.
Proof.
  cbn. destruct (decide (c = b)) as [-> |]; [| by rewrite lookup_alter_ne].
  rewrite lookup_alter_eq. by destruct (Storage p !! b).
Qed.

Lemma frame_refl X p : frame X p p.
Proof. by split. Qed.

Lemma frame_trans X p p' p'' : frame X p p' → frame X p' p'' → frame X p p''.
Proof.
  intros [H1 H2 H3] [H4 H5 H6]. split; [congruence.. |].
  intros b Hb. by rewrite H6, H3.
Qed.

Lemma frame_weaken X Y p p' : X ⊆ Y → frame X p p' → frame Y p p'.
Proof. intros HXY [H1 H2 H3]. split; [done.. |]. intros b Hb. apply H3. set_solver. Qed.

Lemma frame_with_next b n p : frame [b] p (with_next b n p).
Proof.
  split; [done.. |]. intros c Hc. cbn. rewrite set_next_lookup, decide_False; set_solver.
Qed.

Lemma frame_with_data b d p : frame [b] p (with_data b d p).
Proof. split; [done.. |]. intros c Hc. cbn. rewrite lookup_alter_ne; set_solver. Qed.

Lemma frame_dsz X p p' : frame X p p' → dsz p' = dsz p.
Proof. intros [H _ _]. unfold dsz, GetDataSize. by rewrite H. Qed.

Lemma frame_blk_data X p p' b : frame X p p' → b ∉ X → blk_data p' b = blk_data p b.
Proof. intros [_ _ H] Hb. unfold blk_data. by rewrite H. Qed.

Lemma frame_chain X p p' ptr bs :
  frame X p p' → (∀ b, b ∈ bs → b ∉ X) →
  chain (Storage p) ptr bs → chain (Storage p') ptr bs.
Proof.
  intros [_ _ H] Hd. apply chain_mono. intros b Hb. by rewrite H by auto.
Qed.

#[export] Hint Resolve frame_refl frame_with_next frame_with_data : dory.

Section pool_inv.
Implicit Types (p : TPool) (free used : list nat).

Lemma inv_NoDup p free used : pool_inv p free used → NoDup (free ++ used).
Proof. intros [_ Hp _ _]. rewrite Hp. apply NoDup_seq. Qed.

Lemma inv_lt p free used b :
  pool_inv p free used → b ∈ free ++ used → (b < BlockCount p)%nat.
Proof. intros [_ Hp _ _]. rewrite Hp. intros ?%elem_of_seq. lia. Qed.

Lemma inv_lookup p free used b :
  pool_inv p free used → b ∈ free ++ used → is_Some (Storage p !! b).
Proof. intros Hi Hb. apply Hi. by eapply inv_lt. Qed.

Lemma inv_length p free used b :
  pool_inv p free used → b ∈ free ++ used → length (blk_data p b) = dsz p.
Proof. intros Hi Hb. apply Hi. by eapply inv_lt. Qed.

Lemma inv_perm_used p free used used' :
  used ≡ₚ used' → pool_inv p free used → pool_inv p free used'.
Proof. intros Hu [? Hp ? ?]. split; [done | by rewrite <- Hu | done..]. Qed.

(** The common part of every step that keeps the data areas. *)
Lemma pool_inv_step p p' free used free' used' :
  pool_inv p free used →
  BlockSize p' = BlockSize p → BlockCount p' = BlockCount p →
  (∀ b, is_Some (Storage p !! b) → is_Some (Storage p' !! b)) →
  (∀ b, (b < BlockCount p)%nat → length (blk_data p' b) = length (blk_data p b)) →
  free' ++ used' ≡ₚ free ++ used →
  chain (Storage p') (FirstFreeBlock p') free' →
  pool_inv p' free' used'.
Proof.
  intros [Hc Hp Hd Hs] Hsz Hcnt Hsome Hlen Hperm Hc'.
  assert (dsz p' = dsz p) as Hdsz by (unfold dsz, GetDataSize; by rewrite Hsz).
  split; [done | by rewrite Hperm, Hcnt | | by rewrite Hdsz].
  intros b Hb. rewrite Hcnt in Hb. destruct (Hd b Hb) as [? ?].
  rewrite Hdsz, Hlen by done. auto.
Qed.

Lemma inv_with_next p free used b n :
  pool_inv p free used → b ∉ free → pool_inv (with_next b n p) free used.
Proof.
  intros Hi Hb. eapply pool_inv_step; try done; cbn.
  - intros c Hc. rewrite set_next_lookup. case_decide; [by rewrite fmap_is_Some | done].
  - intros c _. by rewrite blk_data_with_next.
  - apply chain_set_next_notin; [done | apply Hi].
Qed.

Lemma inv_with_data p free used b d :
  pool_inv p free used → b ∈ used → length d = dsz p →
  pool_inv (with_data b d p) free used.
Proof.
  intros Hi Hb Hd.
  assert (is_Some (Storage p !! b)) as Hbs by (eapply inv_lookup; [done | set_solver]).
  eapply pool_inv_step; try done; cbn.
  - intros c Hc. destruct (decide (c = b)) as [-> |].
    + by rewrite lookup_alter_eq, fmap_is_Some.
    + by rewrite lookup_alter_ne.
  - intros c Hc. rewrite blk_data_with_data by done. case_decide; [| done].
    subst c. rewrite Hd. symmetry. by apply Hi.
  - eapply chain_mono; [| apply Hi]. intros c _. apply (NextBlock_with_data b d p).
Qed.

Lemma LinkFree_inv p free used used' b :
  pool_inv p free used → used ≡ₚ b :: used' →
  pool_inv (LinkFree b p) (b :: free) used'.
Proof.
  intros Hi Hu.
  assert (b ∈ free ++ used) as Hb by (rewrite Hu; set_solver).
  pose proof (inv_NoDup _ _ _ Hi) as Hnd. rewrite Hu in Hnd.
  assert (b ∉ free) as Hbf.
  { apply NoDup_app in Hnd as (_ & Hd & _). intros ?. by apply (Hd b); [| left]. }
  eapply pool_inv_step; try done; cbn.
  - intros c Hc. rewrite set_next_lookup. case_decide; [by rewrite fmap_is_Some | done].
  - intros c _. by rewrite <- (blk_data_with_next b (FirstFreeBlock p) p c).
  - rewrite Hu. apply Permutation_middle.
  - split; [done |]. exists (FirstFreeBlock p).
    destruct (inv_lookup _ _ _ _ Hi Hb) as [blk Hblk].
    rewrite set_next_lookup, decide_True, Hblk by done. split; [done |].
    apply chain_set_next_notin; [done | apply Hi].
Qed.

Lemma frame_LinkFree b p : frame [b] p (LinkFree b p).
Proof. split; [done.. |]. apply (frame_with_next b (FirstFreeBlock p) p). Qed.

Lemma blk_data_LinkFree b p c : blk_data (LinkFree b p) c = blk_data p c.
Proof. exact (blk_data_with_next b (FirstFreeBlock p) p c). Qed.

Lemma UnlinkFree_spec p b free used :
  pool_inv p (b :: free) used →
  ∃ n, UnlinkFree b p = (Ret (), with_free n p) ∧
       pool_inv (with_free n p) free (b :: used).
Proof.
  intros Hi. pose proof (inv_chain _ _ _ Hi) as (Hf & n & Hn & Hc).
  apply fmap_Some in Hn as (blk & Hb & ->). exists (NextBlock blk). split.
  - unfold UnlinkFree. munfold. by rewrite Hb.
  - eapply pool_inv_step; try done. cbn. symmetry. apply Permutation_middle.
Qed.

Lemma DoFree_spec p free used b :
  pool_inv p free used → b ∈ used → DoFree b p = (Ret (), LinkFree b p).
Proof.
  intros Hi Hb. unfold DoFree. munfold.
  rewrite bool_decide_true; [done |]. eapply inv_lt; [done | set_solver].
Qed.

(** [DoFreeList] pushes the blocks of the list on the free list one by one. *)
Lemma DoFreeList_spec fuel p free used b bs :
  (length bs < fuel)%nat →
  pool_inv p free (b :: bs ++ used) → chain (Storage p) (Some b) (b :: bs) →
  ∃ p', DoFreeList fuel b p = (Ret (), p') ∧
    pool_inv p' (reverse (b :: bs) ++ free) used ∧ frame (b :: bs) p p' ∧
    ∀ c, blk_data p' c = blk_data p c.
Proof.
  revert p free b bs. induction fuel as [| fuel IH]; intros p free b bs Hf Hi Hc; [lia |].
  destruct Hc as (_ & n & Hn & Hc). apply fmap_Some in Hn as (blk & Hb & ->).
  cbn [DoFreeList]. munfold. rewrite Hb. cbv beta iota.
  rewrite (DoFree_spec p free (b :: bs ++ used)) by (done || left).
  pose proof (LinkFree_inv p free (b :: bs ++ used) _ b Hi (Permutation_refl _)) as Hi'.
  destruct bs as [| b' bs].
  - cbn in Hc. rewrite Hc. exists (LinkFree b p). split; [done |].
    split; [done |]. split; [apply frame_LinkFree | apply blk_data_LinkFree].
  - destruct Hc as (-> & Hc).
    assert (b ∉ b' :: bs) as Hnb.
    { pose proof (inv_NoDup _ _ _ Hi) as Hnd. apply NoDup_app in Hnd as (_ & _ & Hnd).
      apply NoDup_cons in Hnd as [Hnd _]. set_solver. }
    destruct (IH (LinkFree b p) (b :: free) b' bs) as (p' & Hr & Hi'' & Hfr & Hd).
    + cbn in Hf. lia.
    + done.
    + apply chain_set_next_notin; [done |]. by split.
    + exists p'. split; [done |]. rewrite reverse_cons, <- app_assoc. split; [done |].
      split; [| intros c; by rewrite Hd, blk_data_LinkFree].
      eapply frame_trans; [eapply frame_weaken; [| apply frame_LinkFree] |
                           eapply frame_weaken; [| exact Hfr]]; set_solver.
Qed.

(** [FreeList] of an owned list returns all its blocks to the pool. *)
Lemma FreeList_spec p free used ptr bs :
  pool_inv p free (bs ++ used) → chain (Storage p) ptr bs →
  ∃ p', FreeList ptr p = (Ret (), p') ∧
    pool_inv p' (reverse bs ++ free) used ∧ frame bs p p' ∧
    ∀ c, blk_data p' c = blk_data p c.
Proof.
  intros Hi Hc. unfold FreeList. munfold. destruct bs as [| b bs].
  - cbn in Hc. subst ptr. exists p. auto using frame_refl.
  - pose proof Hc as (-> & _). apply DoFreeList_spec; [| done..].
    pose proof (Permutation_length (inv_perm _ _ _ Hi)) as Hl.
    rewrite length_seq, !length_app in Hl. cbn in Hl. lia.
Qed.

(** [AllocList]: with enough free blocks the list is built from the first [n]
    of them (last taken first); otherwise the blocks taken go back. *)
Lemma AllocList_loop_spec n p free used ptr acc :
  pool_inv p free (acc ++ used) → chain (Storage p) ptr acc →
  ∃ p', frame (acc ++ free) p p' ∧ (∀ c, blk_data p' c = blk_data p c) ∧
  if decide (n ≤ length free)%nat then
    ∃ ptr', AllocList_loop n ptr p = (Ret ptr', p') ∧
      pool_inv p' (drop n free) (reverse (take n free) ++ acc ++ used) ∧
      chain (Storage p') ptr' (reverse (take n free) ++ acc) ∧
      frame (take n free) p p'
  else
    AllocList_loop n ptr p = (Throw TMemoryCapReached, p') ∧
    pool_inv p' (reverse acc ++ free) used.
Proof.
  revert p free ptr acc. induction n as [| n IH]; intros p free ptr acc Hi Hc.
  { exists p. split; [apply frame_refl |]. split; [done |].
    rewrite decide_True by lia. exists ptr. rewrite take_0, drop_0. cbn.
    auto using frame_refl. }
  destruct free as [| b free].
  { assert (FirstFreeBlock p = None) as Hff by apply Hi.
    destruct (FreeList_spec p [] used ptr acc Hi Hc) as (p' & Hr & Hi' & Hf & Hd).
    exists p'. rewrite app_nil_r. split; [done |]. split; [done |].
    rewrite decide_False by (cbn; lia). split; [| done].
    cbn [AllocList_loop]. munfold. by rewrite Hff, Hr. }
  destruct (UnlinkFree_spec p b free (acc ++ used) Hi) as (f & Hu & Hi1).
  pose proof (inv_NoDup _ _ _ Hi) as Hnd.
  assert (b ∉ free ∧ b ∉ acc) as [Hbf Hba].
  { cbn in Hnd. apply NoDup_cons in Hnd as [Hnd _].
    rewrite !elem_of_app in Hnd. tauto. }
  set (p2 := with_next b ptr (with_free f p)).
  assert (pool_inv p2 free ((b :: acc) ++ used)) as Hi2 by by apply inv_with_next.
  assert (chain (Storage p2) (Some b) (b :: acc)) as Hc2.
  { split; [done |]. exists ptr.
    destruct (inv_lookup _ _ _ b Hi) as [blk Hb]; [set_solver |].
    cbn. rewrite set_next_lookup, decide_True, Hb by done. split; [done |].
    by apply chain_set_next_notin. }
  assert (frame [b] p p2) as Hfr2.
  { split; [done.. |]. apply (frame_with_next b ptr (with_free f p)). }
  destruct (IH p2 free (Some b) (b :: acc) Hi2 Hc2) as (p' & Hfr & Hd & H).
  exists p'.
  assert (AllocList_loop (S n) ptr p = AllocList_loop n (Some b) p2) as Hstep.
  { cbn [AllocList_loop]. munfold.
    destruct (inv_chain _ _ _ Hi) as [-> _]. by rewrite Hu. }
  split.
  { eapply frame_trans; [eapply frame_weaken; [| exact Hfr2] |
                         eapply frame_weaken; [| exact Hfr]]; set_solver. }
  split.
  { intros c. rewrite Hd. apply (blk_data_with_next b ptr (with_free f p)). }
  rewrite Hstep. cbn [length take drop]. case_decide as Hlen.
  - rewrite decide_True by lia. destruct H as (ptr' & Hr & Hi' & Hc' & Hft).
    exists ptr'. rewrite reverse_cons, <- !app_assoc. split; [done |]. split; [done |].
    split; [done |].
    eapply frame_trans; [eapply frame_weaken; [| exact Hfr2] |
                         eapply frame_weaken; [| exact Hft]]; set_solver.
  - rewrite decide_False by lia. destruct H as [Hr Hi'].
    rewrite reverse_cons, <- app_assoc in Hi'. done.
Qed.

Lemma AllocList_ok n p free used :
  pool_inv p free used → (n ≤ length free)%nat →
  ∃ p' ptr, AllocList n p = (Ret ptr, p') ∧
    pool_inv p' (drop n free) (reverse (take n free) ++ used) ∧
    chain (Storage p') ptr (reverse (take n free)) ∧
    frame (take n free) p p' ∧ ∀ c, blk_data p' c = blk_data p c.
Proof.
  intros Hi Hn. destruct (AllocList_loop_spec n p free used None [] Hi eq_refl)
    as (p' & Hf & Hd & H). rewrite decide_True in H by done.
  destruct H as (ptr & Hr & Hi' & Hc & Hft). rewrite app_nil_r in Hc. eauto 10.
Qed.

Lemma AllocList_fail n p free used :
  pool_inv p free used → (length free < n)%nat →
  ∃ p', AllocList n p = (Throw TMemoryCapReached, p') ∧
    pool_inv p' free used ∧ frame free p p' ∧ ∀ c, blk_data p' c = blk_data p c.
Proof.
  intros Hi Hn. destruct (AllocList_loop_spec n p free used None [] Hi eq_refl)
    as (p' & Hf & Hd & H). rewrite decide_False in H by lia.
  destruct H as (Hr & Hi'). exists p'. cbn in Hi', Hf. auto.
Qed.

End pool_inv.

(** ** What the writer has built *)

(** The bytes in the full blocks [bs]. *)
Definition contents (p : TPool) (bs : list nat) : list byte := concat (blk_data p <$> bs).

(** The writer [w] holds the chain [bs], filled with exactly the bytes [c]. *)
Definition wrep (p : TPool) (w : TWriter) (bs : list nat) (c : list byte) : Prop :=
  chain (Storage p) (WFirstBlock w) bs ∧
  WNumBytes w = Z.of_nat (length c) ∧
  ((bs = [] ∧ c = [] ∧ WLastBlock w = None) ∨
   (∃ bs0 lb off, bs = bs0 ++ [lb] ∧ WLastBlock w = Some lb ∧
      WCursor w = CAt (Some lb) off ∧ (0 < off ≤ dsz p)%nat ∧
      c = contents p bs0 ++ take off (blk_data p lb))).

Lemma contents_app p l k : contents p (l ++ k) = contents p l ++ contents p k.
Proof. unfold contents. by rewrite fmap_app, concat_app. Qed.

Lemma contents_frame X p p' bs :
  frame X p p' → (∀ b, b ∈ bs → b ∉ X) → contents p' bs = contents p bs.
Proof.
  intros Hf Hd. unfold contents. f_equal. apply list_fmap_ext.
  intros i b Hb. eapply frame_blk_data; [done |]. apply Hd.
  by eapply list_elem_of_lookup_2.
Qed.

Lemma length_contents p bs n :
  (∀ b, b ∈ bs → length (blk_data p b) = n) → length (contents p bs) = (length bs * n)%nat.
Proof.
  intros H. unfold contents. induction bs as [| b bs IH]; [done |].
  cbn. rewrite length_app, (H b) by left. rewrite IH; [lia |].
  intros c Hc. apply H. by right.
Qed.

Section writing.
Implicit Types (p : TPool) (free used bs : list nat) (c data : list byte).

Lemma memcpy_block_spec p b off src :
  is_Some (Storage p !! b) → (off + length src ≤ length (blk_data p b))%nat →
  memcpy_block (Some b) off src p =
    (Ret (), with_data b (take off (blk_data p b) ++ src ++
                          drop (off + length src) (blk_data p b)) p).
Proof.
  intros [blk Hb] Hlen. unfold blk_data in *. rewrite Hb in *. cbn [from_option] in *.
  destruct src as [| x src].
  - cbn [memcpy_block length app]. unfold with_data. rewrite Nat.add_0_r, take_drop.
    munfold. f_equal. destruct p as [? ? ? st]; cbn in *. f_equal.
    apply map_eq. intros i. destruct (decide (i = b)) as [-> |].
    + rewrite lookup_alter_eq, Hb. by destruct blk.
    + by rewrite lookup_alter_ne.
  - cbn [memcpy_block]. munfold. rewrite Hb. cbv beta iota.
    rewrite decide_True by done. f_equal. unfold with_data. f_equal.
    apply map_eq. intros i. destruct (decide (i = b)) as [-> |].
    + by rewrite lookup_alter_eq, Hb, lookup_insert_eq.
    + by rewrite lookup_alter_ne, lookup_insert_ne.
Qed.

(** The number of blocks that [n] bytes need: the source's rounding up. *)
Definition nblocks (d n : nat) : nat := ((n + d - 1) / d)%nat.

Lemma nblocks_bounds d n k :
  (0 < d)%nat → (0 < n)%nat → nblocks d n = k ↔ ((k - 1) * d < n ≤ k * d)%nat ∧ (0 < k)%nat.
Proof.
  intros Hd Hn. unfold nblocks.
  pose proof (Nat.div_mod_eq (n + d - 1) d).
  pose proof (Nat.mod_upper_bound (n + d - 1) d).
  split.
  - intros <-. set (q := ((n + d - 1) / d)%nat) in *.
    assert (0 < q)%nat by nia. nia.
  - intros [[? ?] ?]. set (q := ((n + d - 1) / d)%nat) in *. nia.
Qed.

Lemma nblocks_0 d : (0 < d)%nat → nblocks d 0 = 0%nat.
Proof. intros Hd. unfold nblocks. apply Nat.div_small. lia. Qed.

Lemma inv_contents_length p free used bs :
  pool_inv p free used → (∀ b, b ∈ bs → b ∈ used) →
  length (contents p bs) = (length bs * dsz p)%nat.
Proof.
  intros Hi Hb. apply length_contents. intros b ?.
  eapply inv_length; [done |]. set_solver.
Qed.

(** A writer uses exactly the blocks its bytes need. *)
Lemma wrep_nblocks p free used w bs c :
  pool_inv p free (bs ++ used) → wrep p w bs c →
  length bs = nblocks (dsz p) (length c).
Proof.
  intros Hi (_ & _ & [(-> & -> & _) | (bs0 & lb & off & -> & _ & _ & Hoff & ->)]).
  { symmetry. apply nblocks_0. apply Hi. }
  pose proof (inv_size _ _ _ Hi).
  assert (length (contents p bs0) = (length bs0 * dsz p)%nat) as Hc.
  { eapply inv_contents_length; [done |]. set_solver. }
  assert (length (blk_data p lb) = dsz p) as Hl.
  { eapply inv_length; [done |]. set_solver. }
  symmetry. rewrite length_app, length_take, Hc, Hl, length_app. cbn [length].
  apply nblocks_bounds; [lia.. |]. nia.
Qed.

Lemma nblocks_more d n :
  (0 < d)%nat → (d < n)%nat → nblocks d n = S (nblocks d (n - d)).
Proof.
  intros Hd Hn. apply nblocks_bounds; [lia.. |].
  pose proof (proj1 (nblocks_bounds d (n - d) _ Hd ltac:(lia)) eq_refl). nia.
Qed.

Lemma nblocks_one d n : (0 < n)%nat → (n ≤ d)%nat → nblocks d n = 1%nat.
Proof. intros Hn Hd. apply nblocks_bounds; lia. Qed.

(** Filling the allocated chain: all blocks but the last get whole pieces. *)
Lemma Write_blocks_spec fuel p free used ptr nb data :
  pool_inv p free used → chain (Storage p) ptr nb → (∀ b, b ∈ nb → b ∈ used) →
  NoDup nb → (0 < length data)%nat → (length data < fuel)%nat →
  length nb = nblocks (dsz p) (length data) →
  ∃ p' nb0 lb rest,
    Write_blocks fuel (dsz p) ptr data p = (Ret (Some lb, rest), p') ∧
    nb = nb0 ++ [lb] ∧ data = contents p' nb0 ++ rest ∧
    (0 < length rest ≤ dsz p)%nat ∧ frame nb0 p p' ∧
    pool_inv p' free used ∧
    ∀ i : nat, NextBlock <$> Storage p' !! i = NextBlock <$> Storage p !! i.
Proof.
  revert p ptr nb data.
  induction fuel as [| fuel IH]; intros p ptr nb data Hi Hc Hin Hnd Hpos Hfuel Hlen; [lia |].
  pose proof (inv_size _ _ _ Hi) as Hd. cbn [Write_blocks]. case_decide as Hbig.
  - rewrite nblocks_more in Hlen by done. destruct nb as [| b nb]; [done |].
    destruct Hc as (-> & n & Hn & Hc). apply NoDup_cons in Hnd as [Hb Hnd].
    assert (b ∈ used) as Hbu by (apply Hin; left).
    assert (is_Some (Storage p !! b)) as Hbs by (eapply inv_lookup; [done | set_solver]).
    assert (length (blk_data p b) = dsz p) as Hbl by (eapply inv_length; [done | set_solver]).
    set (p1 := with_data b (take (dsz p) data) p).
    assert (memcpy_block (Some b) 0 (take (dsz p) data) p = (Ret (), p1)) as Hcpy.
    { rewrite memcpy_block_spec by (try done; rewrite length_take; lia).
      rewrite drop_ge by (rewrite length_take; lia). cbn. by rewrite app_nil_r. }
    assert (pool_inv p1 free used) as Hi1.
    { apply inv_with_data; [done.. |]. rewrite length_take. lia. }
    assert (∀ i : nat, NextBlock <$> Storage p1 !! i = NextBlock <$> Storage p !! i) as Hnx
      by (intros i; apply NextBlock_with_data).
    destruct (IH p1 n nb (drop (dsz p) data)) as (p' & nb0 & lb & rest & Hr & -> & Hdat
      & Hrest & Hfr & Hi' & Hc').
    + done.
    + by eapply chain_mono; [| exact Hc].
    + intros x Hx. apply Hin. by right.
    + done.
    + rewrite length_drop. lia.
    + rewrite length_drop. lia.
    + rewrite length_drop. change (dsz p1) with (dsz p). cbn in Hlen. lia.
    + exists p', (b :: nb0), lb, rest.
      assert (frame (b :: nb0) p p') as Hfr'.
      { eapply frame_trans; [eapply frame_weaken; [| apply frame_with_data] |
                             eapply frame_weaken; [| exact Hfr]]; set_solver. }
      assert (b ∉ nb0) as Hb0 by set_solver.
      split; [| split; [done |]]; [| split; [| split; [done |]]]; [| | split; [done |]].
      * munfold. rewrite bool_decide_true by by eexists. rewrite Hcpy.
        pose proof (Hnx b) as Hnb. rewrite Hn in Hnb.
        apply fmap_Some in Hnb as (blk & -> & ->). exact Hr.
      * cbn. rewrite (frame_blk_data _ _ _ b Hfr Hb0).
        unfold p1. rewrite blk_data_with_data, decide_True by done.
        rewrite <- app_assoc. unfold contents in Hdat. rewrite <- Hdat.
        by rewrite take_drop.
      * split; [done |]. intros i. by rewrite Hc', Hnx.
  - rewrite nblocks_one in Hlen by lia.
    destruct nb as [| b [|]]; [done | | done]. destruct Hc as (-> & Hc).
    exists p, [], b, data. split; [done |]. split; [done |]. split; [done |].
    split; [lia |]. auto using frame_refl.
Qed.

(** Copying the last piece [rest] into the last block makes [wrep] hold. *)
Lemma Write_last p free used w bs0 lb c rest n :
  pool_inv p free used → lb ∈ used → lb ∉ bs0 →
  chain (Storage p) (WFirstBlock w) (bs0 ++ [lb]) →
  (0 < length rest ≤ dsz p)%nat → c = contents p bs0 ++ rest →
  n = Z.of_nat (length c) →
  ∃ p', memcpy_block (Some lb) 0 rest p = (Ret (), p') ∧ frame [lb] p p' ∧
    pool_inv p' free used ∧
    wrep p' (mkWriter (WFirstBlock w) (Some lb) (CAt (Some lb) (length rest)) n)
      (bs0 ++ [lb]) c.
Proof.
  intros Hi Hlb Hnin Hc Hrest -> ->.
  assert (is_Some (Storage p !! lb)) as Hbs by (eapply inv_lookup; [done | set_solver]).
  assert (length (blk_data p lb) = dsz p) as Hbl by (eapply inv_length; [done | set_solver]).
  eexists. split; [apply memcpy_block_spec; [done | lia] |].
  split; [apply frame_with_data |]. split.
  { apply inv_with_data; [done.. |]. rewrite !length_app, length_take, length_drop. lia. }
  split; [eapply chain_mono; [| exact Hc]; intros; apply NextBlock_with_data |].
  split; [done |]. right. exists bs0, lb, (length rest).
  split; [done |]. split; [done |]. split; [done |]. split; [done |]. f_equal.
  - symmetry. eapply contents_frame; [apply frame_with_data |]. set_solver.
  - rewrite blk_data_with_data, decide_True by done.
    rewrite take_0, app_nil_l. by rewrite take_app_length.
Qed.

Lemma set_link_spec p free used w bs nb ptr :
  pool_inv p free ((bs ++ nb) ++ used) →
  chain (Storage p) (WFirstBlock w) bs → chain (Storage p) ptr nb →
  last bs = WLastBlock w →
  ∃ p' w', set_link w ptr p = (Ret w', p') ∧
    chain (Storage p') (WFirstBlock w') (bs ++ nb) ∧ chain (Storage p') ptr nb ∧
    pool_inv p' free ((bs ++ nb) ++ used) ∧ frame bs p p' ∧
    (∀ i, blk_data p' i = blk_data p i) ∧ WNumBytes w' = WNumBytes w.
Proof.
  intros Hi Hc Hcn Hlast. unfold set_link. rewrite <- Hlast.
  pose proof (inv_NoDup _ _ _ Hi) as (_ & Hfd & (Hnd & _ & _)%NoDup_app)%NoDup_app.
  pose proof Hnd as (Hnd1 & Hdisj & _)%NoDup_app.
  destruct bs as [| lb bs0 _] using rev_ind.
  - exists p. eexists. repeat (split; [done || apply frame_refl |]). done.
  - rewrite last_snoc. exists (with_next lb ptr p), w.
    assert (lb ∉ nb) by (apply Hdisj; set_solver).
    split; [done |]. split; [rewrite <- app_assoc; by apply chain_link |].
    split; [by apply chain_set_next_notin |].
    split; [apply inv_with_next; [done | set_solver] |].
    split; [eapply frame_weaken; [| apply frame_with_next]; set_solver |].
    split; [intros; apply blk_data_with_next | done].
Qed.

Lemma contents_ext p p' bs :
  (∀ i, blk_data p' i = blk_data p i) → contents p' bs = contents p bs.
Proof. intros H. unfold contents. f_equal. apply list_fmap_ext. auto. Qed.

(** [Write_more] from a writer whose last block, if any, is full. *)
Lemma Write_more_ok p free used w bs data n k :
  pool_inv p free (bs ++ used) →
  chain (Storage p) (WFirstBlock w) bs →
  WNumBytes w + n = Z.of_nat (length (contents p bs ++ data)) →
  last bs = WLastBlock w → (0 < length data)%nat →
  k = nblocks (dsz p) (length data) → (k ≤ length free)%nat →
  ∃ p' w' nb, Write_more w data n p = (Ret w', p') ∧ nb = reverse (take k free) ∧
    pool_inv p' (drop k free) ((bs ++ nb) ++ used) ∧
    wrep p' w' (bs ++ nb) (contents p bs ++ data) ∧ frame (bs ++ nb) p p'.
Proof.
  intros Hi Hc Hn Hlast Hpos Hk Hfree.
  destruct (AllocList_ok k p free (bs ++ used) Hi Hfree)
    as (p1 & ptr & Hal & Hi1 & Hc1 & Hf1 & Hd1).
  set (nb := reverse (take k free)) in *.
  assert (take k free ≡ₚ nb) as Hnbp by (unfold nb; by rewrite reverse_Permutation).
  assert (frame nb p p1) as Hf1' by (eapply frame_weaken; [| exact Hf1]; by rewrite Hnbp).
  assert (pool_inv p1 (drop k free) ((bs ++ nb) ++ used)) as Hi1'.
  { eapply inv_perm_used; [| exact Hi1]. by rewrite app_assoc, (Permutation_app_comm nb bs). }
  pose proof (inv_NoDup _ _ _ Hi1') as (_ & _ & (Hnd & _ & _)%NoDup_app)%NoDup_app.
  pose proof Hnd as (Hnd1 & Hdisj & Hnd2)%NoDup_app.
  destruct (set_link_spec p1 (drop k free) used w bs nb ptr Hi1')
    as (p2 & w2 & Hlk & Hc2 & Hcn & Hi2 & Hf2 & Hd2 & Hnb2).
  { eapply frame_chain; [exact Hf1' | auto | exact Hc]. }
  { done. }
  { done. }
  pose proof (frame_dsz _ _ _ Hf1) as Hz1. pose proof (frame_dsz _ _ _ Hf2) as Hz2.
  destruct (Write_blocks_spec (S (length data)) p2 (drop k free) ((bs ++ nb) ++ used)
    ptr nb data) as (p3 & nb0 & lb & rest & Hwb & Hnb & Hdat & Hrest & Hf3 & Hi3 & Hx3);
    [done | done | set_solver | done | done | lia | |].
  { unfold nb. rewrite length_reverse, length_take, Hz2, Hz1. lia. }
  pose proof (frame_dsz _ _ _ Hf3) as Hz3. clearbody nb. subst nb.
  destruct (Write_last p3 (drop k free) ((bs ++ nb0 ++ [lb]) ++ used) w2 (bs ++ nb0) lb
    (contents p bs ++ data) rest (WNumBytes w2 + n))
    as (p4 & Hcpy & Hf4 & Hi4 & Hw4).
  - done.
  - set_solver.
  - apply NoDup_app in Hnd2 as (_ & Hd & _). set_solver.
  - rewrite <- app_assoc. eapply chain_mono; [| exact Hc2]. auto.
  - lia.
  - rewrite contents_app, <- app_assoc. f_equal; [| done].
    rewrite (contents_frame _ _ _ _ Hf3) by set_solver.
    by rewrite (contents_ext _ _ _ Hd2), (contents_ext _ _ _ Hd1).
  - by rewrite Hnb2.
  - rewrite <- app_assoc in Hw4. exists p4. eexists. eexists.
    split; [| split; [done | split; [done | split; [exact Hw4 |]]]].
    + unfold Write_more. munfold. fold (dsz p).
      unfold nblocks in Hk. rewrite <- Hk, Hal, Hlk.
      rewrite <- Hz1, <- Hz2, Hwb, Hcpy. done.
    + eapply frame_trans; [| eapply frame_trans; [| eapply frame_trans]];
        (eapply frame_weaken; [| eassumption]); set_solver.
Qed.

Lemma Write_more_fail p free used w bs data n :
  pool_inv p free (bs ++ used) →
  (length free < nblocks (dsz p) (length data))%nat →
  ∃ p', Write_more w data n p = (Throw TMemoryCapReached, p') ∧
    pool_inv p' free (bs ++ used) ∧ frame free p p' ∧ ∀ i, blk_data p' i = blk_data p i.
Proof.
  intros Hi Hk. destruct (AllocList_fail _ p free _ Hi Hk) as (p' & Hal & Hi' & Hf & Hd).
  exists p'. split; [| done]. unfold Write_more. munfold. fold (dsz p).
  unfold nblocks in Hal. by rewrite Hal.
Qed.

Lemma nblocks_add d m n : (0 < d)%nat → nblocks d (m * d + n) = (m + nblocks d n)%nat.
Proof.
  intros Hd. unfold nblocks.
  replace (m * d + n + d - 1)%nat with (n + d - 1 + m * d)%nat by lia.
  rewrite Nat.div_add by lia. lia.
Qed.

(** Copying into the space left in the last block. *)
Lemma Write_avail p free used w bs0 lb off src :
  pool_inv p free ((bs0 ++ [lb]) ++ used) →
  chain (Storage p) (WFirstBlock w) (bs0 ++ [lb]) →
  (off + length src ≤ dsz p)%nat →
  ∃ p', memcpy_block (Some lb) off src p = (Ret (), p') ∧ frame [lb] p p' ∧
    pool_inv p' free ((bs0 ++ [lb]) ++ used) ∧
    chain (Storage p') (WFirstBlock w) (bs0 ++ [lb]) ∧
    contents p' bs0 = contents p bs0 ∧
    take off (blk_data p' lb) = take off (blk_data p lb) ∧
    take (off + length src) (blk_data p' lb) = take off (blk_data p lb) ++ src.
Proof.
  intros Hi Hc Hlen.
  pose proof (inv_NoDup _ _ _ Hi) as (_ & _ & (Hnd & _ & _)%NoDup_app)%NoDup_app.
  apply NoDup_app in Hnd as (_ & Hlb & _).
  assert (is_Some (Storage p !! lb)) as Hbs by (eapply inv_lookup; [done | set_solver]).
  assert (length (blk_data p lb) = dsz p) as Hbl by (eapply inv_length; [done | set_solver]).
  eexists. split; [apply memcpy_block_spec; [done | lia] |].
  split; [apply frame_with_data |]. split.
  { apply inv_with_data; [done | set_solver |].
    rewrite !length_app, length_take, length_drop. lia. }
  split; [eapply chain_mono; [| exact Hc]; intros; apply NextBlock_with_data |].
  split; [eapply contents_frame; [apply frame_with_data |]; set_solver |].
  rewrite blk_data_with_data, decide_True by done.
  assert (length (take off (blk_data p lb)) = off) as Hto by (rewrite length_take; lia).
  split.
  - rewrite take_app_le by lia. by rewrite take_take, Nat.min_id.
  - rewrite app_assoc. apply take_app_length'. rewrite length_app. lia.
Qed.

(** Writing nothing with no block yet: the writer keeps no block. *)
Lemma Write_nothing p free used w :
  pool_inv p free used → wrep p w [] [] →
  ∃ w', Write w [] p = (Ret w', p) ∧ wrep p w' [] [].
Proof.
  intros Hi (Hc & Hn & [(_ & _ & Hl) | (bs0 & ? & ? & Hbs & _)]); [| by destruct bs0].
  pose proof (inv_size _ _ _ Hi) as Hd. cbn in Hc, Hn.
  eexists. split.
  - unfold Write, Write_more, set_link. munfold. rewrite Hl. fold (dsz p). cbn [length].
    fold (nblocks (dsz p) 0). rewrite nblocks_0 by done. reflexivity.
  - split; [done |]. split; [cbn; lia | by left].
Qed.

Section in_last_block.
Context p free used (w : TWriter) (bs0 : list nat) (lb off : nat) (c : list byte).
Hypothesis Hi : pool_inv p free ((bs0 ++ [lb]) ++ used).
Hypothesis Hc : chain (Storage p) (WFirstBlock w) (bs0 ++ [lb]).
Hypothesis Hl : WLastBlock w = Some lb.
Hypothesis Hcur : WCursor w = CAt (Some lb) off.
Hypothesis Hoff : (0 < off ≤ dsz p)%nat.
Hypothesis Hcon : c = contents p bs0 ++ take off (blk_data p lb).
Hypothesis Hn : WNumBytes w = Z.of_nat (length c).

Lemma in_last_block_length : length c = (length bs0 * dsz p + off)%nat.
Proof.
  rewrite Hcon, length_app, length_take.
  rewrite (inv_contents_length p free ((bs0 ++ [lb]) ++ used)) by (done || set_solver).
  rewrite (inv_length p free ((bs0 ++ [lb]) ++ used)) by (done || set_solver). lia.
Qed.

Lemma Write_fits data :
  (length data ≤ dsz p - off)%nat →
  ∃ p' w', Write w data p = (Ret w', p') ∧
    pool_inv p' free ((bs0 ++ [lb]) ++ used) ∧
    wrep p' w' (bs0 ++ [lb]) (c ++ data) ∧ frame (bs0 ++ [lb]) p p'.
Proof.
  intros Hfit. destruct (Write_avail p free used w bs0 lb off data Hi Hc) as
    (p' & Hcpy & Hf & Hi' & Hc' & Hd0 & Hd1 & Hd2); [lia |].
  exists p'. eexists. split.
  { unfold Write. munfold. rewrite Hl, Hcur. fold (dsz p).
    rewrite decide_False by (intros [? | ?]; [done | lia]).
    rewrite decide_True by done. rewrite Hcpy. done. }
  split; [done |]. split; [| eapply frame_weaken; [| exact Hf]; set_solver].
  split; [done |]. split; [cbn; rewrite Hn, length_app; lia |].
  right. exists bs0, lb, (off + length data)%nat.
  rewrite (frame_dsz _ _ _ Hf), Hd0, Hd2, Hcon, app_assoc.
  split_and!; [done.. | lia | lia | done].
Qed.

(** Filling up the last block leaves a full chain. *)
Lemma Write_fill data :
  (dsz p - off < length data)%nat →
  ∃ p1, Write w data p = Write_more w (drop (dsz p - off) data) (Z.of_nat (length data)) p1 ∧
    frame [lb] p p1 ∧ pool_inv p1 free ((bs0 ++ [lb]) ++ used) ∧
    chain (Storage p1) (WFirstBlock w) (bs0 ++ [lb]) ∧
    contents p1 (bs0 ++ [lb]) = c ++ take (dsz p - off) data ∧
    take off (blk_data p1 lb) = take off (blk_data p lb) ∧
    contents p1 bs0 = contents p bs0.
Proof.
  intros Hbig. set (avail := (dsz p - off)%nat) in *.
  destruct (Write_avail p free used w bs0 lb off (take avail data) Hi Hc) as
    (p1 & Hcpy & Hf & Hi' & Hc' & Hd0 & Hd1 & Hd2); [rewrite length_take; lia |].
  exists p1. split.
  { unfold Write. munfold. rewrite Hl, Hcur. fold (dsz p).
    rewrite decide_False by (intros [? | ?]; [done | lia]).
    fold avail. rewrite decide_False by lia. by rewrite Hcpy. }
  split; [done |]. split; [done |]. split; [done |]. split; [| done].
  rewrite length_take in Hd2.
  replace (off + avail `min` length data)%nat with (dsz p) in Hd2 by lia.
  rewrite take_ge in Hd2.
  - rewrite contents_app, Hd0, Hcon, <- app_assoc, <- Hd2. f_equal.
    unfold contents. cbn. by rewrite app_nil_r.
  - rewrite (inv_length _ _ _ lb Hi'), (frame_dsz _ _ _ Hf) by set_solver. done.
Qed.

End in_last_block.

(** What [Write] does when the pool has the blocks it needs: it appends. *)
Lemma Write_ok p free used w bs c data k :
  pool_inv p free (bs ++ used) → wrep p w bs c →
  nblocks (dsz p) (length (c ++ data)) = (length bs + k)%nat → (k ≤ length free)%nat →
  ∃ p' w' nb, Write w data p = (Ret w', p') ∧ nb = reverse (take k free) ∧
    pool_inv p' (drop k free) ((bs ++ nb) ++ used) ∧
    wrep p' w' (bs ++ nb) (c ++ data) ∧ frame (bs ++ nb) p p'.
Proof.
  intros Hi Hw Hk Hfree. pose proof (inv_size _ _ _ Hi) as Hd. pose proof Hw as Hw0.
  destruct Hw as (Hc & Hn & [(-> & -> & Hl) | (bs0 & lb & off & -> & Hl & Hcur & Hoff & Hcon)]).
  - destruct data as [| x data].
    + cbn in Hk. rewrite nblocks_0 in Hk by done. subst k.
      destruct (Write_nothing p free used w Hi Hw0) as (w' & Hr & Hw').
      exists p, w', []. rewrite take_0, drop_0. auto using frame_refl.
    + destruct (Write_more_ok p free used w [] (x :: data) (Z.of_nat (length (x :: data))) k)
        as (p' & w' & nb & Hr & H); [done | done | | by rewrite Hl | cbn; lia | done | done |].
      { rewrite Hn. cbn. lia. }
      exists p', w', nb. split; [| done]. unfold Write. munfold. by rewrite Hl.
  - assert (length c = (length bs0 * dsz p + off)%nat) as Hlc
      by (eapply in_last_block_length; eassumption).
    rewrite !length_app, Hlc, <- Nat.add_assoc, nblocks_add in Hk by done. cbn [length] in Hk.
    destruct (decide (length data ≤ dsz p - off)%nat) as [Hfit | Hbig].
    + rewrite nblocks_one in Hk by lia. assert (k = 0%nat) as -> by lia.
      edestruct Write_fits as (p' & w' & H); [done.. |].
      exists p', w', []. rewrite take_0, drop_0, app_nil_r. tauto.
    + edestruct (Write_fill p free used w bs0 lb off c) with (data := data)
        as (p1 & Heq & Hf & Hi1 & Hc1 & Hcon1 & _); [done.. | lia |].
      destruct (Write_more_ok p1 free used w (bs0 ++ [lb]) (drop (dsz p - off) data)
        (Z.of_nat (length data)) k) as (p' & w' & nb & Hr & Hnb & Hi2 & Hw2 & Hf2).
      * done.
      * done.
      * rewrite Hcon1, Hn, !length_app, length_take, length_drop. lia.
      * by rewrite last_snoc.
      * rewrite length_drop. lia.
      * rewrite (frame_dsz _ _ _ Hf), length_drop. rewrite nblocks_more in Hk by lia.
        replace (off + length data - dsz p)%nat with (length data - (dsz p - off))%nat
          in Hk by lia. lia.
      * done.
      * exists p', w', nb. rewrite Heq. split; [done |]. split; [done |]. split; [done |].
        split; [by rewrite Hcon1, <- (app_assoc c), take_drop in Hw2 |].
        eapply frame_trans; [eapply frame_weaken; [| exact Hf] | exact Hf2]. set_solver.
Qed.

Lemma wrep_frame X p p' w bs c :
  frame X p p' → (∀ b, b ∈ bs → b ∉ X) → wrep p w bs c → wrep p' w bs c.
Proof.
  intros Hf Hd (Hc & Hn & Hw). split; [by eapply frame_chain |]. split; [done |].
  destruct Hw as [? | (bs0 & lb & off & -> & Hl & Hcur & Hoff & ->)]; [by left |].
  right. exists bs0, lb, off. rewrite (frame_dsz _ _ _ Hf).
  rewrite (contents_frame _ _ _ _ Hf), (frame_blk_data _ _ _ lb Hf) by set_solver. done.
Qed.

(** What [Write] does when it does not: it throws, and the writer, the free
    list and the bytes written before are as they were. *)
Lemma Write_fail p free used w bs c data :
  pool_inv p free (bs ++ used) → wrep p w bs c →
  (length bs + length free < nblocks (dsz p) (length (c ++ data)))%nat →
  ∃ p', Write w data p = (Throw TMemoryCapReached, p') ∧
    pool_inv p' free (bs ++ used) ∧ wrep p' w bs c ∧ frame (bs ++ free) p p'.
Proof.
  intros Hi Hw Hk. pose proof (inv_size _ _ _ Hi) as Hd. pose proof Hw as Hw0.
  pose proof (inv_NoDup _ _ _ Hi) as (_ & Hdisj & _)%NoDup_app.
  destruct Hw as (Hc & Hn & [(-> & -> & Hl) | (bs0 & lb & off & -> & Hl & Hcur & Hoff & Hcon)]).
  - destruct (Write_more_fail p free used w [] data (Z.of_nat (length data)) Hi Hk)
      as (p' & Hr & Hi' & Hf & Hdat).
    exists p'. split; [unfold Write; munfold; by rewrite Hl |]. split; [done |].
    split; [by eapply wrep_frame; [exact Hf | set_solver |] | done].
  - assert (length c = (length bs0 * dsz p + off)%nat) as Hlc
      by (eapply in_last_block_length; eassumption).
    rewrite !length_app, Hlc, <- (Nat.add_assoc (length bs0 * dsz p)), nblocks_add in Hk by done. cbn [length] in Hk.
    assert (dsz p - off < length data)%nat as Hbig.
    { apply Nat.lt_nge. intros ?. destruct (decide (0 < off + length data)%nat); [| lia].
      rewrite nblocks_one in Hk by lia. lia. }
    edestruct (Write_fill p free used w bs0 lb off c) with (data := data)
      as (p1 & Heq & Hf & Hi1 & Hc1 & _ & Hlast & Hbs0); [done.. |].
    rewrite nblocks_more in Hk by lia.
    destruct (Write_more_fail p1 free used w (bs0 ++ [lb]) (drop (dsz p - off) data)
      (Z.of_nat (length data)) Hi1) as (p' & Hr & Hi' & Hf' & Hdat).
    { rewrite (frame_dsz _ _ _ Hf), length_drop.
      replace (off + length data - dsz p)%nat with (length data - (dsz p - off))%nat
        in Hk by lia. lia. }
    exists p'. rewrite Heq. split; [done |]. split; [done |]. split.
    + eapply wrep_frame; [exact Hf' | set_solver |]. split; [done |]. split; [done |].
      right. exists bs0, lb, off. rewrite (frame_dsz _ _ _ Hf), Hlast, Hbs0. done.
    + eapply frame_trans; [eapply frame_weaken; [| exact Hf] |
                           eapply frame_weaken; [| exact Hf']]; set_solver.
Qed.

End writing.

(** ** Blobs and their readers *)

(** The bytes of a chain whose last block holds [lbs] of them. *)
Fixpoint chain_bytes (p : TPool) (lbs : nat) (bs : list nat) : list byte :=
  match bs with
  | [] => []
  | b :: bs' =>
      match bs' with
      | [] => take lbs (blk_data p b)
      | _ => blk_data p b ++ chain_bytes p lbs bs'
      end
  end.

(** [blob] owns the chain [bs] and its bytes are [c]. *)
Record blob_rep (p : TPool) (blob : TBlob) (bs : list nat) (c : list byte) : Prop := {
  blob_chain : chain (Storage p) (FirstBlock blob) bs;
  blob_size : NumBytes blob = Z.of_nat (length c);
  blob_last : bs ≠ [] → (0 < LastBlockSize blob ≤ dsz p)%nat;
  blob_bytes : c = chain_bytes p (LastBlockSize blob) bs
}.

(** How many bytes of a block count, when [bs] are the blocks after it. *)
Definition blk_limit (p : TPool) (blob : TBlob) (bs : list nat) : nat :=
  match bs with [] => LastBlockSize blob | _ => dsz p end.

(** [r] is a reader of [blob] that has the blocks [bs] and the bytes [rest]
    ahead. *)
Record rrep (p : TPool) (r : TReader) (blob : TBlob) (bs : list nat) (rest : list byte) : Prop := {
  r_blob : RBlob r = blob;
  r_chain : chain (Storage p) (RBlock r) bs;
  r_size : BytesRemaining r = Z.of_nat (length rest);
  r_cursor : match bs with
    | [] => RCursor r = None ∧ rest = []
    | b :: bs' => ∃ cur, RCursor r = Some cur ∧ (cur < blk_limit p blob bs')%nat ∧
        rest = drop cur (chain_bytes p (LastBlockSize blob) bs)
    end
}.

Section reading.
Context (p : TPool) (blob : TBlob).
Implicit Types (bs : list nat) (rest acc : list byte).

Hypothesis Hlast : (0 < LastBlockSize blob ≤ dsz p)%nat.
Hypothesis Hdsz : (0 < dsz p)%nat.

Definition full_blocks bs : Prop := ∀ b, b ∈ bs → length (blk_data p b) = dsz p.

(** What one iteration of [Advance] sees: the bytes left in this block, and
    the reader positioned on the next. *)
Lemma rrep_step r b bs rest :
  full_blocks (b :: bs) → rrep p r blob (b :: bs) rest →
  ∃ blk cur rest', Storage p !! b = Some blk ∧ RBlock r = Some b ∧ RCursor r = Some cur ∧
    (cur < blk_limit p blob bs)%nat ∧ (blk_limit p blob bs ≤ length (Data blk))%nat ∧
    NextBlock blk = head bs ∧
    rest = take (blk_limit p blob bs - cur) (drop cur (Data blk)) ++ rest' ∧
    rrep p (mkReader (RBlob r) (NextBlock blk)
             (match NextBlock blk with Some _ => Some 0%nat | None => None end)
             (BytesRemaining r - Z.of_nat (blk_limit p blob bs - cur))) blob bs rest'.
Proof.
  intros Hfull [Hb (Hrb & n & Hn & Hc) Hsz (cur & Hcur & Hlt & Hrest)].
  apply fmap_Some in Hn as (blk & Hblk & ->). exists blk, cur.
  assert (blk_data p b = Data blk) as Hbd by (unfold blk_data; by rewrite Hblk).
  assert (length (Data blk) = dsz p) as Hlen by (rewrite <- Hbd; apply Hfull; left).
  destruct bs as [| b' bs].
  - cbn in Hc. rewrite Hc. cbn in *. rewrite Hbd in *. exists [].
    assert (rest = take (LastBlockSize blob - cur) (drop cur (Data blk))) as Hr
      by (rewrite Hrest; apply skipn_firstn_comm).
    rewrite app_nil_r. split_and!; [done.. | lia | done | done |].
    split; [done | done | | done]. cbn. rewrite Hsz, Hr, length_take, length_drop. lia.
  - pose proof Hc as (Hnx & _). rewrite Hnx. cbn [blk_limit head] in *.
    exists (chain_bytes p (LastBlockSize blob) (b' :: bs)).
    assert (rest = drop cur (Data blk) ++ chain_bytes p (LastBlockSize blob) (b' :: bs)) as Hr.
    { rewrite Hrest, <- Hbd. apply drop_app_le. rewrite Hbd. lia. }
    rewrite (take_ge (drop cur (Data blk))) by (rewrite length_drop; lia).
    split_and!; [done.. | lia | done | done |]. split; [done | by rewrite <- Hnx | |].
    + cbn [BytesRemaining]. rewrite Hsz, Hr, length_app, length_drop. lia.
    + exists 0%nat. split; [done |]. split; [| done]. unfold blk_limit. case_match; lia.
Qed.

(** Moving the cursor inside the block. *)
Lemma rrep_inside r b bs rest cur size :
  rrep p r blob (b :: bs) rest → RCursor r = Some cur →
  (cur + size < blk_limit p blob bs)%nat → (size ≤ length rest)%nat →
  rrep p (mkReader (RBlob r) (RBlock r) (Some (cur + size)%nat)
            (BytesRemaining r - Z.of_nat size)) blob (b :: bs) (drop size rest).
Proof.
  intros [Hb Hc Hsz (cur' & Hcur & Hlt & Hrest)] Hcur' Hlim Hle. split; [done | done | |].
  - cbn. rewrite length_drop, Hsz. lia.
  - exists (cur + size)%nat. split; [done |]. split; [done |].
    rewrite Hcur in Hcur'. injection Hcur' as ->. by rewrite Hrest, drop_drop.
Qed.

Lemma Advance_loop_spec fuel r bs rest size acc :
  full_blocks bs → rrep p r blob bs rest → (length bs < fuel)%nat →
  ∃ r' bs' rest', rrep p r' blob bs' rest' ∧ bs' `suffix_of` bs ∧
  if decide (size ≤ length rest)%nat then
    Advance_loop fuel p size acc r = (Ret (acc ++ take size rest), r') ∧
    rest' = drop size rest
  else
    Advance_loop fuel p size acc r = (Throw TMemoryCapReached, r') ∧ rest' = [].
Proof.
  revert r bs rest size acc.
  induction fuel as [| fuel IH]; intros r bs rest size acc Hfull Hr Hf; [lia |].
  destruct size as [| size].
  { exists r, bs, rest. split; [done |]. split; [done |]. rewrite decide_True by lia.
    rewrite take_0, app_nil_r. done. }
  destruct bs as [| b bs].
  { destruct Hr as [Hb Hc Hsz (Hcur & ->)]. exists r, [], [].
    split; [by split |]. split; [done |]. rewrite decide_False by (cbn; lia).
    split; [| done]. cbn [Advance_loop]. munfold. by rewrite Hcur. }
  destruct (rrep_step r b bs rest Hfull Hr) as (blk & cur & rest1 & Hblk & Hrb & Hcur & Hlim
    & Hlim' & Hnx & Hrest & Hr1).
  cbn [Advance_loop]. munfold. rewrite Hcur, Hrb, Hblk. cbv beta iota.
  rewrite (r_blob _ _ _ _ _ Hr). fold (dsz p).
  replace (match NextBlock blk with Some _ => dsz p | None => LastBlockSize blob end)
    with (blk_limit p blob bs) by (rewrite Hnx; by destruct bs).
  set (limit := blk_limit p blob bs) in *. rewrite decide_False by lia.
  set (here := take (limit - cur) (drop cur (Data blk))) in *.
  assert (length here = (limit - cur)%nat) as Hlen
    by (unfold here; rewrite length_take, length_drop; lia).
  assert (length rest = (limit - cur + length rest1)%nat) as Hrl
    by (rewrite Hrest, length_app, Hlen; done).
  rewrite bool_decide_true by (rewrite (r_size _ _ _ _ _ Hr), Hrl; lia).
  destruct (decide (S size < limit - cur)%nat) as [Hs | Hs].
  - pose proof (rrep_inside r b bs rest cur (S size) Hr Hcur) as Hr'.
    fold limit in Hr'. specialize (Hr' ltac:(lia) ltac:(lia)).
    eexists _, _, _. split; [exact Hr' |]. split; [done |]. rewrite decide_True by lia.
    split; [| done]. cbv beta iota. rewrite Hrest, take_app_le by lia.
    unfold here. rewrite take_take, Nat.min_l by lia. done.
  - destruct (IH _ bs rest1 (S size - (limit - cur))%nat (acc ++ here)
      (λ b' Hb', Hfull b' ltac:(by right)) Hr1) as (r' & bs' & rest' & Hr' & Hsub & H).
    { cbn in Hf. lia. }
    exists r', bs', rest'. split; [done |]. split; [by apply suffix_cons_r |].
    rewrite Hrest, take_app_ge, drop_app_ge, Hlen by lia. fold here.
    rewrite <- (app_assoc acc here) in H. rewrite length_app, Hlen.
    by case_decide; case_decide; try lia.
Qed.

End reading.

(** ** The component's contract *)

Lemma wrep_Init p : wrep p Init [] [].
Proof. split; [done |]. split; [done | by left]. Qed.

Lemma chain_bytes_snoc p lbs bs b :
  chain_bytes p lbs (bs ++ [b]) = contents p bs ++ take lbs (blk_data p b).
Proof.
  induction bs as [| c bs IH]; [done |].
  change ((c :: bs) ++ [b]) with (c :: (bs ++ [b])).
  unfold contents in *. cbn [fmap list_fmap concat]. rewrite <- app_assoc, <- IH.
  by destruct bs.
Qed.

Lemma DraftBlob_spec p w bs c :
  wrep p w bs c →
  ∃ blob w', DraftBlob w p = (Ret (blob, w'), p) ∧ blob_rep p blob bs c ∧ wrep p w' [] [].
Proof.
  intros (Hc & Hn & [(-> & -> & Hl) | (bs0 & lb & off & -> & Hl & Hcur & Hoff & Hcon)]).
  - cbn in Hc. exists TBlob_empty, w. unfold DraftBlob. rewrite Hc.
    split; [done |]. split; [by split |]. split; [done |]. split; [done | by left].
  - exists (mkBlob (WFirstBlock w) off (WNumBytes w)), Init. split.
    + unfold DraftBlob. rewrite Hcur, Hl, decide_False by naive_solver.
      munfold. rewrite bool_decide_true by lia.
      destruct bs0; destruct Hc as (-> & _); done.
    + split; [split; [done | done | by intros _ | by rewrite chain_bytes_snoc] |].
      apply wrep_Init.
Qed.

Lemma CancelBlob_spec p free used w bs c :
  pool_inv p free (bs ++ used) → wrep p w bs c →
  ∃ p', CancelBlob w p = (Ret Init, p') ∧ pool_inv p' (reverse bs ++ free) used ∧
    frame bs p p'.
Proof.
  intros Hi (Hc & _). destruct (FreeList_spec p free used _ bs Hi Hc) as (p' & Hr & ? & ? & _).
  exists p'. split; [| done]. unfold CancelBlob. munfold. by rewrite Hr.
Qed.

(** Both writes of [MakeKeyAndValue], seen as one. *)
Lemma try_Write p w data :
  (try_catch (w' ← Write w data; mret (w', Some ())) (λ _, mret (w, None))
    : M exn TPool (TWriter * option ())) p =
  match Write w data p with
  | (Ret w', p') => (Ret (w', Some ()), p')
  | (Throw _, p') => (Ret (w, None), p')
  | (Fault x, p') => (Fault x, p')
  end.
Proof. munfold. by destruct (Write w data p) as [[] ?]. Qed.

Lemma MakeKeyAndValue_eq key value p :
  MakeKeyAndValue key value p =
  let cancel w p := match CancelBlob w p with
                    | (Ret _, p') => (Throw TMemoryCapReached, p')
                    | (Throw e, p') => (Throw e, p')
                    | (Fault x, p') => (Fault x, p')
                    end in
  match Write Init key p with
  | (Ret w1, p1) =>
      match Write w1 value p1 with
      | (Ret w2, p2) =>
          match DraftBlob w2 p2 with
          | (Ret (blob, w3), p3) =>
              match CancelBlob w3 p3 with
              | (Ret _, p4) => (Ret blob, p4)
              | (Throw e, p4) => (Throw e, p4)
              | (Fault x, p4) => (Fault x, p4)
              end
          | (Throw e, p3) => (Throw e, p3)
          | (Fault x, p3) => (Fault x, p3)
          end
      | (Throw _, p2) => cancel w1 p2
      | (Fault x, p2) => (Fault x, p2)
      end
  | (Throw _, p1) => cancel Init p1
  | (Fault x, p1) => (Fault x, p1)
  end.
Proof.
  unfold MakeKeyAndValue. unfold mbind at 1, M_bind at 1. rewrite try_Write.
  destruct (Write Init key p) as [[w1 | e | x] p1]; [| done | done].
  cbv beta iota. unfold mbind at 1, M_bind at 1. rewrite try_Write.
  destruct (Write w1 value p1) as [[w2 | e | x] p2]; [| done | done].
  cbv beta iota. munfold. by destruct (DraftBlob w2 p2) as [[[blob w3] | |] p3].
Qed.

Lemma MakeKeyAndValue_ok p free used key value :
  pool_inv p free used →
  (nblocks (dsz p) (length (key ++ value)) ≤ length free)%nat →
  ∃ p' blob bs, MakeKeyAndValue key value p = (Ret blob, p') ∧
    pool_inv p' (drop (nblocks (dsz p) (length (key ++ value))) free) (bs ++ used) ∧
    blob_rep p' blob bs (key ++ value) ∧ frame free p p'.
Proof.
  intros Hi Hfree. pose proof (inv_size _ _ _ Hi) as Hd.
  set (k1 := nblocks (dsz p) (length key)). set (n := nblocks (dsz p) (length (key ++ value))) in *.
  assert (k1 ≤ n)%nat as Hk.
  { unfold k1, n, nblocks. apply Nat.Div0.div_le_mono. rewrite length_app. lia. }
  destruct (Write_ok p free used Init [] [] key k1 Hi (wrep_Init p))
    as (p1 & w1 & nb1 & Hr1 & -> & Hi1 & Hw1 & Hf1); [done | lia |].
  cbn [app] in *.
  destruct (Write_ok p1 (drop k1 free) used w1 (reverse (take k1 free)) key value (n - k1)%nat)
    as (p2 & w2 & nb2 & Hr2 & -> & Hi2 & Hw2 & Hf2).
  - done.
  - done.
  - rewrite (frame_dsz _ _ _ Hf1), length_reverse, length_take. fold n. lia.
  - rewrite length_drop. lia.
  - destruct (DraftBlob_spec p2 w2 _ _ Hw2) as (blob & w3 & Hr3 & Hb & Hw3).
    rewrite drop_drop in Hi2. replace (k1 + (n - k1))%nat with n in Hi2 by lia.
    destruct (CancelBlob_spec p2 (drop n free) _ w3 [] [] Hi2 Hw3) as (p4 & Hr4 & _ & _).
    assert (p4 = p2) as ->.
    { destruct Hw3 as (Hc3 & _). cbn in Hc3. unfold CancelBlob, FreeList in Hr4.
      rewrite Hc3 in Hr4. munfold. naive_solver. }
    exists p2, blob. eexists. rewrite MakeKeyAndValue_eq, Hr1, Hr2, Hr3, Hr4.
    split; [done |]. split; [exact Hi2 |]. split; [done |].
    eapply frame_trans; [eapply frame_weaken; [| exact Hf1] | eapply frame_weaken; [| exact Hf2]].
    + intros x. rewrite elem_of_reverse. apply subseteq_take.
    + intros x. rewrite elem_of_app, !elem_of_reverse.
      intros [Hx | Hx%subseteq_take]; [by eapply subseteq_take | by eapply subseteq_drop].
Qed.

Lemma MakeKeyAndValue_fail p free used key value :
  pool_inv p free used →
  (length free < nblocks (dsz p) (length (key ++ value)))%nat →
  ∃ p' free', MakeKeyAndValue key value p = (Throw TMemoryCapReached, p') ∧
    free' ≡ₚ free ∧ pool_inv p' free' used ∧ frame free p p'.
Proof.
  intros Hi Hfree. set (k1 := nblocks (dsz p) (length key)).
  destruct (decide (k1 ≤ length free)%nat) as [Hk | Hk].
  - destruct (Write_ok p free used Init [] [] key k1 Hi (wrep_Init p))
      as (p1 & w1 & nb1 & Hr1 & -> & Hi1 & Hw1 & Hf1); [done | lia |]. cbn [app] in *.
    destruct (Write_fail p1 (drop k1 free) used w1 (reverse (take k1 free)) key value)
      as (p2 & Hr2 & Hi2 & Hw2 & Hf2).
    + done.
    + done.
    + rewrite (frame_dsz _ _ _ Hf1), length_reverse, length_take, length_drop. lia.
    + destruct (CancelBlob_spec _ _ _ _ _ _ Hi2 Hw2) as (p3 & Hr3 & Hi3 & Hf3).
      exists p3. eexists. rewrite MakeKeyAndValue_eq, Hr1, Hr2. cbv zeta beta.
      rewrite Hr3. split; [done |].
      split; [| split; [exact Hi3 |]].
      * by rewrite reverse_involutive, take_drop.
      * assert (∀ x, x ∈ reverse (take k1 free) → x ∈ free) as Hs
          by (intros x; rewrite elem_of_reverse; apply subseteq_take).
        eapply frame_trans; [| eapply frame_trans]; (eapply frame_weaken; [| eassumption]);
          [done | | done].
        intros x [Hx | Hx]%elem_of_app; [auto | by eapply subseteq_drop].
  - destruct (Write_fail p free used Init [] [] key Hi (wrep_Init p))
      as (p1 & Hr1 & Hi1 & _ & Hf1); [cbn; fold k1; lia |].
    exists p1, free. rewrite MakeKeyAndValue_eq, Hr1. cbn. auto.
Qed.

(** The blobs alive in the pool, each with its blocks and its bytes. *)
Record live := mkLive { l_blob : TBlob; l_blocks : list nat; l_bytes : list byte }.

Record heap_rep (p : TPool) (free : list nat) (lv : list live) : Prop := {
  heap_inv : pool_inv p free (concat (l_blocks <$> lv));
  heap_live : Forall (λ l, blob_rep p (l_blob l) (l_blocks l) (l_bytes l)) lv
}.

Lemma chain_bytes_frame X p p' lbs bs :
  frame X p p' → (∀ b, b ∈ bs → b ∉ X) → chain_bytes p' lbs bs = chain_bytes p lbs bs.
Proof.
  intros Hf Hd. induction bs as [| b bs IH]; [done |].
  cbn. rewrite (frame_blk_data _ _ _ b Hf) by (apply Hd; left).
  rewrite IH; [done |]. intros c Hc. apply Hd. by right.
Qed.

Lemma blob_frame X p p' blob bs c :
  frame X p p' → (∀ b, b ∈ bs → b ∉ X) → blob_rep p blob bs c → blob_rep p' blob bs c.
Proof.
  intros Hf Hd [Hc Hn Hl Hb]. split; [by eapply frame_chain | done | |].
  - rewrite (frame_dsz _ _ _ Hf). done.
  - by rewrite (chain_bytes_frame X p p').
Qed.

Lemma heap_frame X p p' lv :
  frame X p p' → (∀ b, b ∈ concat (l_blocks <$> lv) → b ∉ X) →
  Forall (λ l, blob_rep p (l_blob l) (l_blocks l) (l_bytes l)) lv →
  Forall (λ l, blob_rep p' (l_blob l) (l_blocks l) (l_bytes l)) lv.
Proof.
  intros Hf Hd. induction 1 as [| l lv Hl Hlv IH]; constructor.
  - eapply blob_frame; [done | | done]. intros b Hb. apply Hd. cbn. set_solver.
  - apply IH. intros b Hb. apply Hd. cbn. set_solver.
Qed.

Lemma blob_nblocks p free used blob bs c :
  pool_inv p free used → (∀ b, b ∈ bs → b ∈ used) → blob_rep p blob bs c →
  length bs = nblocks (dsz p) (length c).
Proof.
  intros Hi Hsub [_ _ Hl ->]. pose proof (inv_size _ _ _ Hi).
  destruct bs as [| b bs _] using rev_ind; [symmetry; by apply nblocks_0 |].
  rewrite chain_bytes_snoc, !length_app, length_take. cbn [length].
  erewrite inv_contents_length by (done || set_solver).
  erewrite inv_length by (done || set_solver).
  assert (0 < LastBlockSize blob ≤ dsz p)%nat by (apply Hl; by destruct bs).
  rewrite nblocks_add, nblocks_one by lia. done.
Qed.

Lemma init_blocks_inv n i p free :
  pool_inv p free (seq i n) →
  pool_inv (init_blocks n i p) (reverse (seq i n) ++ free) [].
Proof.
  revert i p free. induction n as [| n IH]; intros i p free Hi; [done |].
  cbn [init_blocks seq]. rewrite reverse_cons, <- app_assoc. apply IH.
  by eapply LinkFree_inv; [exact Hi |].
Qed.

Lemma TPool_new_heap raw block_size block_count :
  heap_rep (TPool_new raw block_size block_count) (reverse (seq 0 block_count)) [] ∧
  BlockCount (TPool_new raw block_size block_count) = block_count.
Proof.
  set (bs := Z.max block_size sizeof_TBlock).
  set (data i := raw i <$> seq 0 (Z.to_nat (bs - GetBlockOverhead))).
  set (st := list_to_map ((λ i, (i, mkBlock None (data i))) <$> seq 0 block_count)
    : gmap nat TBlock).
  assert (pool_inv (mkPool bs block_count None st) [] (seq 0 block_count)) as Hi.
  { split; [done | done | |].
    - intros b Hb. unfold blk_data. cbn.
      assert (st !! b = Some (mkBlock None (data b))) as ->.
      { apply elem_of_list_to_map_1'.
        - intros y (i & [= <- ->] & _)%list_elem_of_fmap. done.
        - apply list_elem_of_fmap. exists b. split; [done |]. apply elem_of_seq. cbn in Hb. lia. }
      split; [done |]. cbn. unfold data. by rewrite length_fmap, length_seq.
    - unfold dsz, GetDataSize, GetBlockOverhead. cbn. unfold bs, sizeof_TBlock. lia. }
  apply init_blocks_inv in Hi. rewrite app_nil_r in Hi.
  split; [by split |]. clear Hi. unfold TPool_new. fold bs.
  assert (∀ n i p, BlockCount (init_blocks n i p) = BlockCount p) as Hcnt.
  { induction n as [| n IH]; intros i p; [done |]. cbn. by rewrite IH. }
  by rewrite Hcnt.
Qed.

(** A new pool has exactly its [BlockCount] blocks, all free, each with a
    nonempty data area, and no blob. *)
Theorem TPool_new_all_free raw block_size block_count :
  heap_rep (TPool_new raw block_size block_count) (reverse (seq 0 block_count)) [] ∧
  BlockCount (TPool_new raw block_size block_count) = block_count.
Proof. apply TPool_new_heap. Qed.

(** The pool has the same blocks. *)
Definition same_blocks (p p' : TPool) : Prop := BlockSize p' = BlockSize p ∧ BlockCount p' = BlockCount p.

Lemma frame_blocks X p p' : frame X p p' → same_blocks p p'.
Proof. by intros []. Qed.

Lemma heap_create p free lv key value :
  heap_rep p free lv → (nblocks (dsz p) (length (key ++ value)) ≤ length free)%nat →
  ∃ p' blob bs, MakeKeyAndValue key value p = (Ret blob, p') ∧
    heap_rep p' (drop (nblocks (dsz p) (length (key ++ value))) free) (mkLive blob bs (key ++ value) :: lv) ∧
    same_blocks p p'.
Proof.
  intros [Hi Hlv] Hk.
  destruct (MakeKeyAndValue_ok _ _ _ _ _ Hi Hk) as (p' & blob & bs & Hr & Hi' & Hb & Hf).
  exists p', blob, bs. split; [done |]. split; [| by eapply frame_blocks]. split; [done |]. constructor; [done |].
  eapply heap_frame; [exact Hf | | exact Hlv].
  intros b Hb1 Hb2. apply inv_NoDup, NoDup_app in Hi as (_ & Hd & _). by eapply Hd.
Qed.

Lemma heap_refuse p free lv key value :
  heap_rep p free lv → (length free < nblocks (dsz p) (length (key ++ value)))%nat →
  ∃ p' free', MakeKeyAndValue key value p = (Throw TMemoryCapReached, p') ∧
    free' ≡ₚ free ∧ heap_rep p' free' lv ∧ same_blocks p p'.
Proof.
  intros [Hi Hlv] Hk.
  destruct (MakeKeyAndValue_fail _ _ _ _ _ Hi Hk) as (p' & free' & Hr & Hp & Hi' & Hf).
  exists p', free'. split; [done |]. split; [done |]. split; [| by eapply frame_blocks]. split; [done |].
  eapply heap_frame; [exact Hf | | exact Hlv].
  intros b Hb1 Hb2. apply inv_NoDup, NoDup_app in Hi as (_ & Hd & _). by eapply Hd.
Qed.

Lemma heap_destroy p free lv1 l lv2 :
  heap_rep p free (lv1 ++ l :: lv2) →
  ∃ p', TBlob_destroy (l_blob l) p = (Ret (), p') ∧
    heap_rep p' (reverse (l_blocks l) ++ free) (lv1 ++ lv2) ∧ same_blocks p p'.
Proof.
  intros [Hi (H1 & [Hl H2]%Forall_cons)%Forall_app].
  assert (concat (l_blocks <$> lv1 ++ l :: lv2) ≡ₚ
          l_blocks l ++ concat (l_blocks <$> lv1 ++ lv2)) as Hp.
  { rewrite !fmap_app, !concat_app. cbn. by rewrite Permutation_app_swap_app. }
  eapply inv_perm_used in Hi; [| exact Hp].
  destruct (FreeList_spec _ _ _ _ _ Hi (blob_chain _ _ _ _ Hl)) as (p' & Hr & Hi' & Hf & _).
  exists p'. split; [done |]. split; [| by eapply frame_blocks]. split; [done |].
  pose proof (inv_NoDup _ _ _ Hi) as (_ & _ & (_ & Hd & _)%NoDup_app)%NoDup_app.
  eapply heap_frame; [exact Hf | | by apply Forall_app]. intros b Hb Hb'. by eapply Hd.
Qed.

(** Building a message body succeeds when the pool has the blocks the
    bytes need: the new blob holds the key followed by the value, it takes
    exactly that many blocks, and every other blob keeps its bytes. *)
Theorem MakeKeyAndValue_creates p free lv key value :
  heap_rep p free lv →
  (nblocks (dsz p) (length (key ++ value)) ≤ length free)%nat →
  ∃ p' blob bs, MakeKeyAndValue key value p = (Ret blob, p') ∧
    heap_rep p' (drop (nblocks (dsz p) (length (key ++ value))) free)
      (mkLive blob bs (key ++ value) :: lv).
Proof. intros Hh Hk. destruct (heap_create p free lv key value Hh Hk) as (p' & blob & bs & Hr & Hh' & _). by exists p', blob, bs. Qed.

(** C37: when the pool lacks the blocks, building a message body throws
    [TMemoryCapReached], leaks no block (the free blocks are the same ones),
    and changes no blob. *)
Theorem MakeKeyAndValue_cap_reached p free lv key value :
  heap_rep p free lv →
  (length free < nblocks (dsz p) (length (key ++ value)))%nat →
  ∃ p' free', MakeKeyAndValue key value p = (Throw TMemoryCapReached, p') ∧
    free' ≡ₚ free ∧ heap_rep p' free' lv.
Proof. intros Hh Hk. destruct (heap_refuse p free lv key value Hh Hk) as (p' & free' & Hr & Hf & Hh' & _). by exists p', free'. Qed.

(** Destroying a blob gives its blocks back to the pool and leaves every
    other blob as it was. *)
Theorem TBlob_destroy_frees p free lv1 l lv2 :
  heap_rep p free (lv1 ++ l :: lv2) →
  ∃ p', TBlob_destroy (l_blob l) p = (Ret (), p') ∧
    heap_rep p' (reverse (l_blocks l) ++ free) (lv1 ++ lv2).
Proof. intros Hh. destruct (heap_destroy p free lv1 l lv2 Hh) as (p' & Hr & Hh' & _). by exists p'. Qed.

(** The blocks are those of the free list and those that the bytes of the blobs need. *)
Lemma heap_blocks p free lv :
  heap_rep p free lv →
  (length free + sum_list_with (λ l, nblocks (dsz p) (length (l_bytes l))) lv)%nat =
  BlockCount p.
Proof.
  intros [Hi Hlv].
  assert (∀ l, l ∈ lv → length (l_blocks l) = nblocks (dsz p) (length (l_bytes l))) as Hn.
  { intros l Hl. eapply blob_nblocks; [exact Hi | | by eapply Forall_forall in Hlv].
    intros b Hb. apply list_elem_of_In, in_concat. exists (l_blocks l).
    split; [| by apply list_elem_of_In]. apply list_elem_of_In. by apply list_elem_of_fmap_2. }
  pose proof (Permutation_length (inv_perm _ _ _ Hi)) as Hlen.
  rewrite length_seq, length_app in Hlen. rewrite <- Hlen. f_equal. clear Hi Hlv Hlen.
  induction lv as [| l lv IH]; [done |]. cbn. rewrite length_app, <- IH, Hn by set_solver.
  done.
Qed.

Lemma rrep_new p blob bs c :
  blob_rep p blob bs c → (0 < dsz p)%nat → rrep p (TReader_new blob) blob bs c.
Proof.
  intros [Hc Hn Hl ->] Hd. split; [done | done | done |]. unfold TReader_new.
  destruct bs as [| b bs]; [cbn in Hc; by rewrite Hc |].
  destruct Hc as (-> & _). exists 0%nat. split; [done |]. split; [| done].
  unfold blk_limit. destruct bs; [| done]. by apply Hl.
Qed.

(** One read: it returns the next bytes, or throws when too few are left. *)
Lemma Advance_spec p free used r blob bs0 c bs rest size :
  pool_inv p free used → blob_rep p blob bs0 c → NoDup bs0 → (∀ b, b ∈ bs0 → b ∈ used) →
  rrep p r blob bs rest → bs `suffix_of` bs0 →
  (length rest ≤ length c)%nat →
  ∃ r' bs' rest', rrep p r' blob bs' rest' ∧ bs' `suffix_of` bs0 ∧
  if decide (size ≤ length rest)%nat then
    Advance p size r = (Ret (take size rest), r') ∧ rest' = drop size rest
  else Advance p size r = (Throw TMemoryCapReached, r').
Proof.
  intros Hi Hb Hnd Hsub Hr Hsuf Hle. pose proof (inv_size _ _ _ Hi) as Hd.
  destruct size as [| size].
  { exists r, bs, rest. rewrite decide_True by lia. by rewrite take_0. }
  destruct (decide (bs0 = [])) as [-> | Hne].
  { apply suffix_nil_inv in Hsuf as ->. destruct Hb as [_ Hn _ ->]. cbn in *.
    exists r, [], rest. split; [done |]. split; [apply suffix_nil |].
    rewrite decide_False by lia. unfold Advance. munfold.
    by rewrite (r_blob _ _ _ _ _ Hr), Hn, decide_True. }
  assert (full_blocks p bs) as Hfull.
  { intros b Hbb. eapply inv_length; [done |]. apply elem_of_app. right. apply Hsub.
    destruct Hsuf as [k ->]. set_solver. }
  assert (length bs0 ≤ BlockCount p)%nat as Hcnt.
  { rewrite <- (length_seq (BlockCount p) 0). apply submseteq_length, NoDup_submseteq; [done |].
    intros b Hbb. apply elem_of_seq. assert (b < BlockCount p)%nat; [| lia].
    eapply inv_lt; [done | set_solver]. }
  pose proof (suffix_length _ _ Hsuf) as Hsl.
  edestruct (Advance_loop_spec p blob) with (fuel := S (BlockCount p)) (size := S size)
    (acc := @nil byte) as (r' & bs' & rest' & Hr' & Hs' & H); [by apply Hb | done.. | lia |].
  exists r', bs', rest'. split; [done |]. split; [by etrans |].
  assert (Advance p (S size) r = Advance_loop (S (BlockCount p)) p (S size) [] r) as ->.
  { unfold Advance. munfold. rewrite (r_blob _ _ _ _ _ Hr), decide_False; [done |].
    rewrite (blob_size _ _ _ _ Hb). destruct Hb as [_ _ Hl Hc].
    destruct bs0 as [| b bs0 _] using rev_ind; [done |].
    rewrite chain_bytes_snoc in Hc. rewrite Hc, length_app, length_take.
    specialize (Hl Hne). assert (length (blk_data p b) = dsz p) as ->; [| lia].
    eapply inv_length; [done | set_solver]. }
  case_decide; [done |]. tauto.
Qed.

(** Two reads in a row of a live blob. *)
Lemma Read_twice p free lv1 l lv2 k n :
  heap_rep p free (lv1 ++ l :: lv2) → (k ≤ length (l_bytes l))%nat →
  ∃ r1 r2, Read p k (TReader_new (l_blob l)) = (Ret (take k (l_bytes l)), r1) ∧
    if decide (n ≤ length (l_bytes l) - k)%nat
    then Read p n r1 = (Ret (take n (drop k (l_bytes l))), r2)
    else Read p n r1 = (Throw TMemoryCapReached, r2).
Proof.
  intros [Hi (_ & [Hl _]%Forall_cons)%Forall_app] Hk.
  assert (concat (l_blocks <$> lv1 ++ l :: lv2) ≡ₚ
          l_blocks l ++ concat (l_blocks <$> lv1 ++ lv2)) as Hp.
  { rewrite !fmap_app, !concat_app. cbn. by rewrite Permutation_app_swap_app. }
  eapply inv_perm_used in Hi; [| exact Hp].
  pose proof (inv_NoDup _ _ _ Hi) as (_ & _ & (Hnd & _ & _)%NoDup_app)%NoDup_app.
  pose proof (rrep_new _ _ _ _ Hl (inv_size _ _ _ Hi)) as Hr0.
  edestruct (Advance_spec p) with (size := k) as (r1 & bs1 & rest1 & Hr1 & Hs1 & H1);
    [exact Hi | exact Hl | exact Hnd | set_solver | exact Hr0 | done | done |].
  rewrite decide_True in H1 by done. destruct H1 as [H1 ->].
  edestruct (Advance_spec p) with (size := n) as (r2 & bs2 & rest2 & Hr2 & Hs2 & H2);
    [exact Hi | exact Hl | exact Hnd | set_solver | exact Hr1 | done | rewrite length_drop; lia |].
  exists r1, r2. split; [done |]. rewrite length_drop in H2. by case_decide; [destruct H2 |].
Qed.

(** ** Every history of a pool *)

(** The pool and the bodies of the messages that are alive, each with its bytes. *)
Definition pool_state : Type := TPool * list (TBlob * list byte).

(** A message body is built, or the cap is reached, or a message is destroyed. *)
Inductive pool_step : pool_state → pool_state → Prop :=
| ps_create p p' lv key value blob :
    MakeKeyAndValue key value p = (Ret blob, p') → pool_step (p, lv) (p', (blob, key ++ value) :: lv)
| ps_refuse p p' lv key value :
    MakeKeyAndValue key value p = (Throw TMemoryCapReached, p') → pool_step (p, lv) (p', lv)
| ps_destroy p p' lv1 blob bytes lv2 :
    TBlob_destroy blob p = (Ret (), p') → pool_step (p, lv1 ++ (blob, bytes) :: lv2) (p', lv1 ++ lv2).

Definition blob_of (l : live) : TBlob * list byte := (l_blob l, l_bytes l).

Definition pool_ok (n : nat) (s : pool_state) : Prop :=
  ∃ free lv, heap_rep s.1 free lv ∧ s.2 = blob_of <$> lv ∧ BlockCount s.1 = n.

Lemma pool_step_ok n s s' : pool_step s s' → pool_ok n s → pool_ok n s'.
Proof.
  intros Hs (free & lv & Hh & Hlv & Hn). destruct Hs as [p p' bl key value blob Hr | p p' bl key value Hr | p p' bl1 blob bytes bl2 Hr]; cbn in *.
  - destruct (decide (nblocks (dsz p) (length (key ++ value)) ≤ length free)%nat) as [Hk | Hk].
    + destruct (heap_create p free lv key value Hh Hk) as (p2 & b2 & bs & Hr2 & Hh2 & _ & Hc). rewrite Hr in Hr2. injection Hr2 as -> ->.
      eexists _, _. split; [exact Hh2 |]. split; [cbn; by rewrite Hlv | by etrans].
    + destruct (heap_refuse p free lv key value Hh ltac:(lia)) as (p2 & f2 & Hr2 & _). congruence.
  - destruct (decide (nblocks (dsz p) (length (key ++ value)) ≤ length free)%nat) as [Hk | Hk].
    + destruct (heap_create p free lv key value Hh Hk) as (p2 & b2 & bs & Hr2 & _). congruence.
    + destruct (heap_refuse p free lv key value Hh ltac:(lia)) as (p2 & f2 & Hr2 & _ & Hh2 & _ & Hc). rewrite Hr in Hr2. injection Hr2 as ->.
      eexists _, _. split; [exact Hh2 |]. split; [done | by etrans].
  - symmetry in Hlv. apply fmap_app_inv in Hlv as (lv1 & lvx & -> & Hlv & ->). symmetry in Hlv.
    apply fmap_cons_inv in Hlv as (l & lv2 & [= -> ->] & -> & ->).
    destruct (heap_destroy p free lv1 l lv2 Hh) as (p2 & Hr2 & Hh2 & _ & Hc). rewrite Hr in Hr2. injection Hr2 as ->.
    eexists _, _. split; [exact Hh2 |]. split; [cbn; by rewrite fmap_app | by etrans].
Qed.

(** The blocks that the bodies of the messages need. *)
Definition blocks_of (s : pool_state) : nat := sum_list_with (λ b, nblocks (dsz s.1) (length b.2)) s.2.

Lemma pool_reachable raw block_size n s : rtc pool_step (TPool_new raw block_size n, []) s → pool_ok n s.
Proof.
  intros Hr. assert (pool_ok n (TPool_new raw block_size n, [])) as H0.
  { destruct (TPool_new_heap raw block_size n) as [Hh Hc]. by eexists _, []. }
  revert H0. induction Hr as [| s s1 s2 Hs _ IH]; [done |]. intros H0. by eapply IH, pool_step_ok.
Qed.

Lemma blocks_of_lives p lv : blocks_of (p, blob_of <$> lv) = sum_list_with (λ l, nblocks (dsz p) (length (l_bytes l))) lv.
Proof. unfold blocks_of. induction lv as [| l lv IH]; [done |]. cbn in *. by rewrite IH. Qed.

(** C32: no block of a pool is lost, shared or freed twice, in any history of building
    message bodies, with or without success, and destroying them, from the creation of a
    pool of [n] blocks.  The bodies that are alive never need more than [n] blocks.
    Another body can be built exactly if the blocks that it needs and theirs add up to at
    most [n]; otherwise [MakeKeyAndValue] throws [TMemoryCapReached].  Each body reads back
    as the bytes that it was built from, and it can be destroyed. *)
Theorem pool_accounting raw block_size n p lv :
  rtc pool_step (TPool_new raw block_size n, []) (p, lv) →
  (blocks_of (p, lv) ≤ n)%nat ∧
  (∀ key value, ∃ p', (if decide (nblocks (dsz p) (length (key ++ value)) + blocks_of (p, lv) ≤ n)%nat
     then ∃ blob, MakeKeyAndValue key value p = (Ret blob, p') ∧ pool_step (p, lv) (p', (blob, key ++ value) :: lv)
     else MakeKeyAndValue key value p = (Throw TMemoryCapReached, p') ∧ pool_step (p, lv) (p', lv))) ∧
  (∀ blob bytes, (blob, bytes) ∈ lv →
     (Read p (length bytes) (TReader_new blob)).1 = Ret bytes ∧ (TBlob_destroy blob p).1 = Ret ()).
Proof.
  intros (free & lives & Hh & Hlv & Hn)%pool_reachable. cbn in Hh, Hlv, Hn. subst lv n. rewrite blocks_of_lives.
  pose proof (heap_blocks p free lives Hh) as Hb. split; [lia |]. split.
  - intros key value. case_decide as Hk.
    + destruct (heap_create p free lives key value Hh ltac:(lia)) as (p' & blob & bs & Hr & _). exists p', blob. split; [done | by constructor].
    + destruct (heap_refuse p free lives key value Hh ltac:(lia)) as (p' & f' & Hr & _). exists p'. split; [done | by econstructor].
  - intros blob bytes (l & [= -> ->] & Hl)%list_elem_of_fmap. apply list_elem_of_split in Hl as (lv1 & lv2 & ->).
    destruct (Read_twice p free lv1 l lv2 (length (l_bytes l)) 0 Hh ltac:(done)) as (r1 & r2 & Hr & _). rewrite firstn_all in Hr.
    destruct (heap_destroy p free lv1 l lv2 Hh) as (p' & Hd & _). by rewrite Hr, Hd.
Qed.

(** Reading a message body back returns what was stored: a fresh reader
    of a live blob reads its first [k] bytes, then the rest, and a read past
    the end throws instead of returning bytes. *)
Theorem TReader_reads_back p free lv1 l lv2 k n :
  heap_rep p free (lv1 ++ l :: lv2) → (k ≤ length (l_bytes l))%nat →
  ∃ r1 r2, Read p k (TReader_new (l_blob l)) = (Ret (take k (l_bytes l)), r1) ∧
    if decide (n ≤ length (l_bytes l) - k)%nat
    then Read p n r1 = (Ret (take n (drop k (l_bytes l))), r2)
    else Read p n r1 = (Throw TMemoryCapReached, r2).
Proof. apply Read_twice. Qed.

(** The declaration of the writer's cursor says that it is null iff there is no
    last block.  After writing zero bytes to an empty writer there is no block,
    but the cursor is not null: it is computed from the null block pointer. *)
Theorem TWriter_cursor_after_empty_write p free :
  pool_inv p free [] →
  Write Init [] p = (Ret (mkWriter None None (CAt None 0) 0), p).
Proof.
  intros Hi. pose proof (inv_size _ _ _ Hi) as Hd.
  unfold Write, Write_more, set_link. munfold. cbn [WLastBlock Init length]. fold (dsz p).
  fold (nblocks (dsz p) 0). rewrite nblocks_0 by done. reflexivity.
Qed.

(** ** A pool of three blocks of eight data bytes *)

Definition ex_pool : TPool := TPool_new (λ _ _, x00) 16 3.

Definition ex_key : list byte := [x01; x02; x03].

Definition ex_value : list byte := [x0a; x0b; x0c; x0d; x0e; x0f; x10].

Lemma ex_pool_heap : heap_rep ex_pool [2%nat; 1%nat; 0%nat] [].
Proof. exact (proj1 (TPool_new_heap (λ _ _, x00) 16 3)). Qed.

Definition ex_pool1 : TPool := (MakeKeyAndValue ex_key ex_value ex_pool).2.

Definition ex_live : live :=
  mkLive (mkBlob (Some 2%nat) 2 10) [2%nat; 1%nat] (ex_key ++ ex_value).

Lemma ex_pool1_heap : heap_rep ex_pool1 [0%nat] [ex_live].
Proof.
  split.
  - split.
    + vm_compute. eauto.
    + vm_compute. apply perm_skip, perm_swap.
    + intros b Hb. vm_compute in Hb.
      destruct b as [| [| [|]]]; [vm_compute; eauto.. | lia].
    + vm_compute. lia.
  - constructor; [| constructor]. split.
    + vm_compute. eauto 10.
    + done.
    + intros _. vm_compute. lia.
    + reflexivity.
Qed.

Lemma MakeKeyAndValue_creates_witness :
  ∃ p' blob bs, MakeKeyAndValue ex_key ex_value ex_pool = (Ret blob, p') ∧
    heap_rep p' [0%nat] [mkLive blob bs (ex_key ++ ex_value)].
Proof.
  apply (MakeKeyAndValue_creates ex_pool [2%nat; 1%nat; 0%nat] [] ex_key ex_value).
  - exact ex_pool_heap.
  - vm_compute. lia.
Defined.

Lemma MakeKeyAndValue_cap_reached_witness :
  ∃ p' free', MakeKeyAndValue ex_value ex_key ex_pool1 = (Throw TMemoryCapReached, p') ∧
    free' ≡ₚ [0%nat] ∧ heap_rep p' free' [ex_live].
Proof.
  apply (MakeKeyAndValue_cap_reached ex_pool1 [0%nat] [ex_live] ex_value ex_key).
  - exact ex_pool1_heap.
  - vm_compute. lia.
Defined.

Lemma TBlob_destroy_frees_witness :
  ∃ p', TBlob_destroy (l_blob ex_live) ex_pool1 = (Ret (), p') ∧
    heap_rep p' [1%nat; 2%nat; 0%nat] [].
Proof.
  apply (TBlob_destroy_frees ex_pool1 [0%nat] [] ex_live []). exact ex_pool1_heap.
Defined.

(** Two blocks are taken, so that a body that needs two more cannot be built. *)
Lemma pool_accounting_witness :
  (blocks_of (ex_pool1, [blob_of ex_live]) ≤ 3)%nat ∧
  ∃ p', MakeKeyAndValue ex_value ex_key ex_pool1 = (Throw TMemoryCapReached, p').
Proof.
  assert (rtc pool_step (TPool_new (λ _ _, x00) 16 3, []) (ex_pool1, [blob_of ex_live])) as Hr.
  { apply rtc_once. change (blob_of ex_live) with (mkBlob (Some 2%nat) 2 10, ex_key ++ ex_value). constructor. vm_compute. reflexivity. }
  destruct (pool_accounting (λ _ _, x00) 16 3 ex_pool1 [blob_of ex_live] Hr) as (H1 & H2 & _). split; [exact H1 |].
  destruct (H2 ex_value ex_key) as (p' & Hp). exists p'. rewrite decide_False in Hp by (vm_compute; lia). apply Hp.
Defined.

Lemma TReader_reads_back_witness :
  ∃ r1 r2, Read ex_pool1 3 (TReader_new (l_blob ex_live)) = (Ret ex_key, r1) ∧
    Read ex_pool1 7 r1 = (Ret ex_value, r2).
Proof.
  apply (TReader_reads_back ex_pool1 [0%nat] [] ex_live [] 3 7).
  - exact ex_pool1_heap.
  - vm_compute. lia.
Defined.

Lemma TWriter_cursor_after_empty_write_witness :
  Write Init [] ex_pool = (Ret (mkWriter None None (CAt None 0) 0), ex_pool).
Proof.
  apply (TWriter_cursor_after_empty_write ex_pool [2%nat; 1%nat; 0%nat]).
  apply ex_pool_heap.
Defined.
