(* ===== verification/Msg.v ===== *)
(** * Messages and the message state tracker
      (dory/msg.h, dory/msg.cc, dory/msg_creator.h, dory/msg_state_tracker.cc)

    [TMsg], its life cycle, and the per-topic counters of messages in each
    state.  The source asserts that only some state changes happen; a change
    it asserts against is a fault of the model.  The invariant says that the
    counters are those of the population of messages. *)
From S2P Require Import Prelude FieldAccess Capped.

Inductive TRoutingType := AnyPartition | PartitionKey.

Inductive TState := New | Batching | SendWait | AckWait | Processed.

#[global] Instance TRoutingType_eq_dec : EqDecision TRoutingType.
Proof. solve_decision. Defined.

#[global] Instance TState_eq_dec : EqDecision TState.
Proof. solve_decision. Defined.

Record TMsg := mkMsg {
  RoutingType : TRoutingType;
  MsgPartitionKey : Z;
  Timestamp : Z;
  CreationTimestamp : Z;
  State : TState;
  FailedDeliveryAttemptCount : Z;
  Topic : string;
  Partition : Z;
  KeyAndValue : TBlob;
  KeySize : Z;
  BodyTruncated : bool
}.

#[global] Instance TBlob_eq_dec : EqDecision TBlob.
Proof. solve_decision. Defined.

#[global] Instance TMsg_eq_dec : EqDecision TMsg.
Proof. solve_decision. Defined.

Definition SetState (s : TState) (m : TMsg) : TMsg :=
  mkMsg (RoutingType m) (MsgPartitionKey m) (Timestamp m) (CreationTimestamp m) s
    (FailedDeliveryAttemptCount m) (Topic m) (Partition m) (KeyAndValue m) (KeySize m)
    (BodyTruncated m).

Definition SetPartition (part : Z) (m : TMsg) : TMsg :=
  mkMsg (RoutingType m) (MsgPartitionKey m) (Timestamp m) (CreationTimestamp m) (State m)
    (FailedDeliveryAttemptCount m) (Topic m) part (KeyAndValue m) (KeySize m)
    (BodyTruncated m).

(** [CountFailedDeliveryAttempt]: the new count and the message. *)
Definition CountFailedDeliveryAttempt (m : TMsg) : Z * TMsg :=
  let n := uwrap 64 (FailedDeliveryAttemptCount m + 1) in
  (n, mkMsg (RoutingType m) (MsgPartitionKey m) (Timestamp m) (CreationTimestamp m) (State m)
        n (Topic m) (Partition m) (KeyAndValue m) (KeySize m) (BodyTruncated m)).

Definition GetValueSize (m : TMsg) : Z := NumBytes (KeyAndValue m) - KeySize m.

(** The constructor [TMsg::TMsg].  [now] is [GetMonotonicRawMilliseconds()]. *)
Definition TMsg_new (now : Z) (routing_type : TRoutingType) (partition_key timestamp : Z)
    (topic key value : list byte) (body_truncated : bool) : M exn TPool TMsg :=
  blob ← MakeKeyAndValue key value;
  massert (bool_decide (NumBytes blob = Z.of_nat (length key) + Z.of_nat (length value)));;
  mret (mkMsg routing_type partition_key timestamp now New 0
          (String.string_of_list_byte topic) 0 blob (Z.of_nat (length key)) body_truncated).

Definition TMsg_CreateAnyPartitionMsg (now timestamp : Z) (topic key value : list byte)
    (body_truncated : bool) : M exn TPool TMsg :=
  TMsg_new now AnyPartition 0 timestamp topic key value body_truncated.

Definition TMsg_CreatePartitionKeyMsg (now partition_key timestamp : Z)
    (topic key value : list byte) (body_truncated : bool) : M exn TPool TMsg :=
  TMsg_new now PartitionKey partition_key timestamp topic key value body_truncated.

(** ** The tracker *)

Record TTopicStats := mkStats {
  BatchingCount : Z;
  SendWaitCount : Z;
  AckWaitCount : Z
}.

Record TTopicStatsWrapper := mkWrapper {
  Stats : TTopicStats;
  OkToDelete : bool
}.

Record TMsgStateTracker := mkTracker {
  TopicStats : gmap string TTopicStatsWrapper;
  NewCount : Z
}.

Definition TMsgStateTracker_new : TMsgStateTracker := mkTracker ∅ 0.

Record TDeltaComputer := mkDelta {
  NewDelta : Z;
  BatchingDelta : Z;
  SendWaitDelta : Z;
  AckWaitDelta : Z
}.

Definition TDeltaComputer_new : TDeltaComputer := mkDelta 0 0 0 0.

(** The four counting functions: [None] where the source logs a bug and
    asserts. *)
Definition CountBatchingEntered (prev_state : TState) (c : TDeltaComputer)
    : option TDeltaComputer :=
  let '(mkDelta n b s a) := c in
  match prev_state with
  | New => Some (mkDelta (n - 1) (b + 1) s a)
  | Batching | SendWait | AckWait | Processed => None
  end.

Definition CountSendWaitEntered (prev_state : TState) (c : TDeltaComputer)
    : option TDeltaComputer :=
  let '(mkDelta n b s a) := c in
  match prev_state with
  | New => Some (mkDelta (n - 1) b (s + 1) a)
  | Batching => Some (mkDelta n (b - 1) (s + 1) a)
  | SendWait => Some c
  | AckWait => Some (mkDelta n b (s + 1) (a - 1))
  | Processed => None
  end.

Definition CountAckWaitEntered (prev_state : TState) (c : TDeltaComputer)
    : option TDeltaComputer :=
  let '(mkDelta n b s a) := c in
  match prev_state with
  | SendWait => Some (mkDelta n b (s - 1) (a + 1))
  | New | Batching | AckWait | Processed => None
  end.

Definition CountProcessedEntered (prev_state : TState) (c : TDeltaComputer)
    : option TDeltaComputer :=
  let '(mkDelta n b s a) := c in
  match prev_state with
  | New => Some (mkDelta (n - 1) b s a)
  | SendWait => Some (mkDelta n b (s - 1) a)
  | AckWait => Some (mkDelta n b s (a - 1))
  | Batching | Processed => None
  end.

Definition no_counts (s : TTopicStats) : bool :=
  (BatchingCount s =? 0) && (SendWaitCount s =? 0) && (AckWaitCount s =? 0).

Definition TM := M Empty_set TMsgStateTracker.

(** [TMsgStateTracker::MsgEnterNew]. *)
Definition MsgEnterNew : TM () :=
  modify (λ t, mkTracker (TopicStats t) (NewCount t + 1));;
  n ← gets NewCount;
  massert (0 <? n).

(** [TMsgStateTracker::UpdateStats]. *)
Definition UpdateStats (topic : string) (comp : TDeltaComputer) : TM () :=
  let '(mkDelta new_delta batching_delta send_wait_delta ack_wait_delta) := comp in
  (if negb (batching_delta =? 0) || negb (send_wait_delta =? 0) || negb (ack_wait_delta =? 0)
   then
     t ← get;
     let w := default (mkWrapper (mkStats 0 0 0) false) (TopicStats t !! topic) in
     let s := mkStats (BatchingCount (Stats w) + batching_delta)
                (SendWaitCount (Stats w) + send_wait_delta)
                (AckWaitCount (Stats w) + ack_wait_delta) in
     massert (0 <=? BatchingCount s);;
     massert (0 <=? SendWaitCount s);;
     massert (0 <=? AckWaitCount s);;
     modify (λ t, mkTracker
       (if OkToDelete w && no_counts s then delete topic (TopicStats t)
        else <[topic := mkWrapper s (OkToDelete w)]> (TopicStats t)) (NewCount t))
   else mret ());;
  modify (λ t, mkTracker (TopicStats t) (NewCount t + new_delta)).

(** The three functions on one message, which differ in the counting function
    and the state entered. *)
Definition EnterOne (count : TState → TDeltaComputer → option TDeltaComputer)
    (target : TState) (msg : TMsg) : TM TMsg :=
  comp ← need AssertFailed (count (State msg) TDeltaComputer_new);
  UpdateStats (Topic msg) comp;;
  mret (SetState target msg).

Definition MsgEnterBatching : TMsg → TM TMsg := EnterOne CountBatchingEntered Batching.
Definition MsgEnterSendWait : TMsg → TM TMsg := EnterOne CountSendWaitEntered SendWait.
Definition MsgEnterAckWait : TMsg → TM TMsg := EnterOne CountAckWaitEntered AckWait.
Definition MsgEnterProcessed : TMsg → TM TMsg := EnterOne CountProcessedEntered Processed.

(** The loop over a list of messages that must share the topic. *)
Fixpoint count_list (count : TState → TDeltaComputer → option TDeltaComputer)
    (topic : string) (msgs : list TMsg) (comp : TDeltaComputer) : option TDeltaComputer :=
  match msgs with
  | [] => Some comp
  | m :: msgs =>
      if decide (Topic m = topic) then
        match count (State m) comp with
        | Some comp => count_list count topic msgs comp
        | None => None
        end
      else None
  end.

(** The overloads on a list of messages. *)
Definition EnterList (count : TState → TDeltaComputer → option TDeltaComputer)
    (target : TState) (msgs : list TMsg) : TM (list TMsg) :=
  match msgs with
  | [] => mret []
  | m :: _ =>
      comp ← need AssertFailed (count_list count (Topic m) msgs TDeltaComputer_new);
      UpdateStats (Topic m) comp;;
      mret (SetState target <$> msgs)
  end.

Definition MsgEnterSendWait_list := EnterList CountSendWaitEntered SendWait.
Definition MsgEnterAckWait_list := EnterList CountAckWaitEntered AckWait.
Definition MsgEnterProcessed_list := EnterList CountProcessedEntered Processed.

(** The overloads on a list of lists. *)
Definition MsgEnterSendWait_lists := mmap MsgEnterSendWait_list.
Definition MsgEnterAckWait_lists := mmap MsgEnterAckWait_list.
Definition MsgEnterProcessed_lists := mmap MsgEnterProcessed_list.

(** [TMsgStateTracker::GetStats]. *)
Definition GetStats `{HashOrder} (t : TMsgStateTracker) : list (string * TTopicStats) * Z :=
  (filter (λ i, negb (no_counts i.2))
     ((λ i, (i.1, Stats i.2)) <$> hash_order (TopicStats t)), NewCount t).

(** [TMsgStateTracker::PruneTopics]. *)
Definition PruneTopics (topic_exists_fn : string → bool) (t : TMsgStateTracker)
    : TMsgStateTracker :=
  mkTracker
    (map_imap (λ topic w,
       let w := mkWrapper (Stats w) (negb (topic_exists_fn topic)) in
       if OkToDelete w && no_counts (Stats w) then None else Some w) (TopicStats t))
    (NewCount t).

(** ** Creating messages (dory/msg_creator.h) *)

Record creator_state := mkCreator { cs_pool : TPool; cs_tracker : TMsgStateTracker }.

(** The tracker throws nothing; its faults and results carry over. *)
Definition no_throw {E S A} (m : M Empty_set S A) : M E S A := λ s,
  match m s with
  | (Ret a, s') => (Ret a, s')
  | (Throw e, s') => match e with end
  | (Fault x, s') => (Fault x, s')
  end.

Definition on_pool {A} (m : M exn TPool A) : M exn creator_state A :=
  zoom cs_pool (λ p s, mkCreator p (cs_tracker s)) m.

Definition on_tracker {A} (m : TM A) : M exn creator_state A :=
  zoom cs_tracker (λ t s, mkCreator (cs_pool s) t) (no_throw m).

Definition CreateAnyPartitionMsg (now timestamp : Z) (topic key value : list byte)
    (body_truncated : bool) : M exn creator_state TMsg :=
  msg ← on_pool (TMsg_CreateAnyPartitionMsg now timestamp topic key value body_truncated);
  on_tracker MsgEnterNew;;
  mret msg.

Definition CreatePartitionKeyMsg (now partition_key timestamp : Z)
    (topic key value : list byte) (body_truncated : bool) : M exn creator_state TMsg :=
  msg ← on_pool (TMsg_CreatePartitionKeyMsg now partition_key timestamp topic key value
                   body_truncated);
  on_tracker MsgEnterNew;;
  mret msg.

(** ** The population the tracker counts *)

Definition ind (b : bool) : Z := if b then 1 else 0.

Definition in_state (s : TState) (m : TMsg) : bool :=
  match State m, s with
  | New, New | Batching, Batching | SendWait, SendWait | AckWait, AckWait
  | Processed, Processed => true
  | _, _ => false
  end.

(** Messages of [pop] in state [s] with topic [topic]. *)
Definition cnt (s : TState) (topic : string) (pop : list TMsg) : Z :=
  sumZ ((λ m, ind (in_state s m && bool_decide (Topic m = topic))) <$> pop).

Definition new_cnt (pop : list TMsg) : Z := sumZ ((λ m, ind (in_state New m)) <$> pop).

Definition stats_of (t : TMsgStateTracker) (topic : string) : TTopicStats :=
  from_option Stats (mkStats 0 0 0) (TopicStats t !! topic).

(** The tracker's counters are those of [pop]. *)
Record tracker_ok (t : TMsgStateTracker) (pop : list TMsg) : Prop := {
  ok_new : NewCount t = new_cnt pop;
  ok_stats : ∀ topic, stats_of t topic =
    mkStats (cnt Batching topic pop) (cnt SendWait topic pop) (cnt AckWait topic pop)
}.

(** The state changes that the source does not report as bugs. *)
Definition legal (target prev : TState) : bool :=
  match target, prev with
  | Batching, New => true
  | SendWait, (New | Batching | SendWait | AckWait) => true
  | AckWait, SendWait => true
  | Processed, (New | SendWait | AckWait) => true
  | _, _ => false
  end.

(** The counting function of each target state. *)
Definition count_of (target : TState) : TState → TDeltaComputer → option TDeltaComputer :=
  match target with
  | New => λ _ _, None
  | Batching => CountBatchingEntered
  | SendWait => CountSendWaitEntered
  | AckWait => CountAckWaitEntered
  | Processed => CountProcessedEntered
  end.

Section counting.
Implicit Types (pop msgs : list TMsg) (t : TMsgStateTracker).

#[global] Instance sumZ_perm : Proper ((≡ₚ) ==> (=)) sumZ.
Proof. intros l k H. unfold sumZ. induction H; cbn; lia. Qed.

#[global] Instance cnt_perm s topic : Proper ((≡ₚ) ==> (=)) (cnt s topic).
Proof. intros l k H. unfold cnt. by rewrite H. Qed.

#[global] Instance new_cnt_perm : Proper ((≡ₚ) ==> (=)) new_cnt.
Proof. intros l k H. unfold new_cnt. by rewrite H. Qed.

Lemma tracker_ok_perm t pop pop' : pop ≡ₚ pop' → tracker_ok t pop → tracker_ok t pop'.
Proof.
  intros Hp [Hn Hs]. split; [by rewrite <- Hp |]. intros topic. by rewrite Hs, Hp.
Qed.

Lemma cnt_app s topic l k : cnt s topic (l ++ k) = cnt s topic l + cnt s topic k.
Proof. unfold cnt. by rewrite fmap_app, sumZ_app. Qed.

Lemma new_cnt_app l k : new_cnt (l ++ k) = new_cnt l + new_cnt k.
Proof. unfold new_cnt. by rewrite fmap_app, sumZ_app. Qed.

Lemma ind_nonneg b : 0 ≤ ind b.
Proof. by destruct b. Qed.

Lemma cnt_nonneg s topic pop : 0 ≤ cnt s topic pop.
Proof. apply sumZ_nonneg, Forall_fmap, Forall_forall. intros; apply ind_nonneg. Qed.

Lemma new_cnt_nonneg pop : 0 ≤ new_cnt pop.
Proof. apply sumZ_nonneg, Forall_fmap, Forall_forall. intros; apply ind_nonneg. Qed.

(** [c'] is [c] plus what moving [msgs] to [target] adds to each counter. *)
Definition moves (target : TState) (topic : string) (msgs : list TMsg)
    (c c' : TDeltaComputer) : Prop :=
  let after := SetState target <$> msgs in
  NewDelta c' - NewDelta c = new_cnt after - new_cnt msgs ∧
  BatchingDelta c' - BatchingDelta c = cnt Batching topic after - cnt Batching topic msgs ∧
  SendWaitDelta c' - SendWaitDelta c = cnt SendWait topic after - cnt SendWait topic msgs ∧
  AckWaitDelta c' - AckWaitDelta c = cnt AckWait topic after - cnt AckWait topic msgs.

Lemma count_of_moves target m c :
  match count_of target (State m) c with
  | Some c' => legal target (State m) = true ∧ moves target (Topic m) [m] c c'
  | None => legal target (State m) = false
  end.
Proof.
  destruct c as [n b s a], target, (State m) eqn:Hs; cbn [count_of CountBatchingEntered
    CountSendWaitEntered CountAckWaitEntered CountProcessedEntered]; try done;
    (split; [done |]); unfold moves, cnt, new_cnt, sumZ, in_state; cbn -[Z.sub Z.add];
    rewrite Hs, (bool_decide_true (Topic m = Topic m)) by done; cbn; lia.
Qed.

Lemma cnt_cons s topic m l : cnt s topic (m :: l) = cnt s topic [m] + cnt s topic l.
Proof. apply (cnt_app s topic [m] l). Qed.

Lemma new_cnt_cons m l : new_cnt (m :: l) = new_cnt [m] + new_cnt l.
Proof. apply (new_cnt_app [m] l). Qed.

Lemma count_list_moves target topic msgs c :
  Forall (λ m, Topic m = topic ∧ legal target (State m) = true) msgs →
  ∃ c', count_list (count_of target) topic msgs c = Some c' ∧ moves target topic msgs c c'.
Proof.
  revert c. induction msgs as [| m msgs IH]; intros c H.
  { exists c. split; [done |]. unfold moves. cbn. lia. }
  apply Forall_cons in H as [[Ht Hl] Hm]. cbn [count_list]. rewrite decide_True by done.
  pose proof (count_of_moves target m c) as Hc.
  destruct (count_of target (State m) c) as [c1 |]; [| congruence].
  destruct Hc as [_ Hc]. rewrite Ht in Hc. destruct (IH c1 Hm) as (c2 & -> & Hc2).
  exists c2. split; [done |]. unfold moves in *. cbn [fmap list_fmap] in *.
  rewrite !(new_cnt_cons _ (_ <$> _)), !(cnt_cons _ _ _ (_ <$> _)).
  rewrite (new_cnt_cons m msgs), !(cnt_cons _ _ m msgs). lia.
Qed.

Lemma cnt_other s topic topic' target msgs :
  Forall (λ m, Topic m = topic) msgs → topic' ≠ topic →
  cnt s topic' (SetState target <$> msgs) = cnt s topic' msgs.
Proof.
  intros H Hne. induction H as [| m msgs Hm _ IH]; [done |]. cbn [fmap list_fmap].
  rewrite cnt_cons, (cnt_cons _ _ m msgs), IH. f_equal. unfold cnt, sumZ. cbn.
  rewrite (bool_decide_false (Topic m = topic')) by congruence. by rewrite !andb_false_r.
Qed.
End counting.

Lemma no_counts_true s : no_counts s = true ↔ s = mkStats 0 0 0.
Proof.
  unfold no_counts. rewrite !andb_true_iff, !Z.eqb_eq. destruct s; cbn. naive_solver.
Qed.

(** [UpdateStats] with the right deltas takes the counters from one population
    to the next, and none of its assertions fails. *)
Lemma UpdateStats_ok t pop pop' topic n b s a :
  tracker_ok t pop →
  new_cnt pop' = new_cnt pop + n →
  cnt Batching topic pop' = cnt Batching topic pop + b →
  cnt SendWait topic pop' = cnt SendWait topic pop + s →
  cnt AckWait topic pop' = cnt AckWait topic pop + a →
  (∀ st topic', topic' ≠ topic → cnt st topic' pop' = cnt st topic' pop) →
  ∃ t', UpdateStats topic (mkDelta n b s a) t = (Ret (), t') ∧ tracker_ok t' pop'.
Proof.
  intros [Hn Hs] En Eb Es Ea Eo. unfold UpdateStats. munfold.
  pose proof (Hs topic) as Ht.
  destruct (_ || _) eqn:Hch.
  - set (w := default (mkWrapper (mkStats 0 0 0) false) (TopicStats t !! topic)) in *.
    assert (Stats w = mkStats (cnt Batching topic pop) (cnt SendWait topic pop)
                        (cnt AckWait topic pop)) as Hw.
    { rewrite <- Ht. unfold w, stats_of. by destruct (TopicStats t !! topic). }
    rewrite Hw. cbn [BatchingCount SendWaitCount AckWaitCount].
    rewrite <- Eb, <- Es, <- Ea.
    pose proof (cnt_nonneg Batching topic pop').
    pose proof (cnt_nonneg SendWait topic pop').
    pose proof (cnt_nonneg AckWait topic pop').
    rewrite !(proj2 (Z.leb_le _ _)) by done. eexists. split; [done |].
    split; [cbn; lia |]. intros topic'. unfold stats_of. cbn.
    destruct (decide (topic' = topic)) as [-> | Hne].
    + destruct (_ && _) eqn:Hdel.
      * apply andb_true_iff in Hdel as [_ Hz%no_counts_true].
        by rewrite lookup_delete_eq.
      * by rewrite lookup_insert_eq.
    + rewrite !(Eo _ topic' Hne), <- Hs. unfold stats_of.
      destruct (_ && _); [by rewrite lookup_delete_ne | by rewrite lookup_insert_ne].
  - apply orb_false_iff in Hch as [[Hb%negb_false_iff Hsw%negb_false_iff]%orb_false_iff
      Ha%negb_false_iff]. apply Z.eqb_eq in Hb, Hsw, Ha. subst.
    eexists. split; [done |]. split; [cbn; lia |]. intros topic'.
    unfold stats_of. cbn. fold (stats_of t topic'). rewrite Hs.
    destruct (decide (topic' = topic)) as [-> | Hne]; [by rewrite Eb, Es, Ea, !Z.add_0_r |].
    by rewrite !(Eo _ topic' Hne).
Qed.

(** Moving a list of messages of one topic. *)
Lemma EnterList_ok target t msgs others :
  tracker_ok t (msgs ++ others) →
  (∃ topic, Forall (λ m, Topic m = topic ∧ legal target (State m) = true) msgs) →
  ∃ t', EnterList (count_of target) target msgs t = (Ret (SetState target <$> msgs), t') ∧
    tracker_ok t' ((SetState target <$> msgs) ++ others).
Proof.
  intros Ht [topic Hm]. destruct msgs as [| m msgs]; [by exists t |].
  unfold EnterList. assert (Topic m = topic) as -> by (by inversion Hm; naive_solver).
  destruct (count_list_moves target topic (m :: msgs) TDeltaComputer_new Hm)
    as ([n b s a] & -> & Hmv). unfold moves in Hmv. cbn [NewDelta BatchingDelta SendWaitDelta
    AckWaitDelta TDeltaComputer_new] in Hmv.
  destruct (UpdateStats_ok t (m :: msgs ++ others) ((SetState target <$> m :: msgs) ++ others)
    topic n b s a Ht) as (t' & Hu & Ht').
  1-4: rewrite app_comm_cons, ?new_cnt_app, ?cnt_app; lia.
  - intros st topic' Hne. rewrite app_comm_cons, !cnt_app. f_equal.
    apply (cnt_other _ topic); [| done]. eapply Forall_impl; [exact Hm |]. by intros x [? _].
  - exists t'. split; [| done]. munfold. by rewrite Hu.
Qed.

Lemma EnterOne_EnterList count target m t :
  EnterList count target [m] t =
  match EnterOne count target m t with
  | (Ret m', t') => (Ret [m'], t')
  | (Throw e, t') => (Throw e, t')
  | (Fault x, t') => (Fault x, t')
  end.
Proof.
  unfold EnterList, EnterOne. cbn [count_list]. rewrite decide_True by done. munfold.
  destruct (count (State m) TDeltaComputer_new) as [c |]; [| done]. cbv beta iota.
  by destruct (UpdateStats (Topic m) c t) as [[] ?].
Qed.

(** ** The life of the tracker *)

(** No counter is kept for a deleted topic that has no messages left. *)
Definition tidy (t : TMsgStateTracker) : Prop :=
  ∀ topic w, TopicStats t !! topic = Some w → OkToDelete w = true →
  no_counts (Stats w) = false.

(** The tracker beside the messages it counts: those that exist, and those that were
    destroyed in a state other than [Processed] (which ~TMsg logs as a possible bug). *)
Record tracker_sys := mkTrackerSys { ts_tracker : TMsgStateTracker; ts_alive : list TMsg; ts_lost : list TMsg }.

Definition tracker_init : tracker_sys := mkTrackerSys TMsgStateTracker_new [] [].

(** The calls that move one message, one list or a list of lists. *)
Definition enter_one : list (TMsg → TM TMsg) := [MsgEnterBatching; MsgEnterSendWait; MsgEnterAckWait; MsgEnterProcessed].
Definition enter_list : list (list TMsg → TM (list TMsg)) :=
  [MsgEnterSendWait_list; MsgEnterAckWait_list; MsgEnterProcessed_list].
Definition enter_lists : list (list (list TMsg) → TM (list (list TMsg))) :=
  [MsgEnterSendWait_lists; MsgEnterAckWait_lists; MsgEnterProcessed_lists].

(** What the rest of the program does with the tracker: any of its calls that completes,
    with any of the messages, and the destruction of a message in any state. *)
Inductive tstep : tracker_sys → tracker_sys → Prop :=
| tstep_create t pop lost m t' :
    State m = New → MsgEnterNew t = (Ret (), t') → tstep (mkTrackerSys t pop lost) (mkTrackerSys t' (m :: pop) lost)
| tstep_one f t pop lost m m' others t' :
    f ∈ enter_one → pop ≡ₚ m :: others → f m t = (Ret m', t') →
    tstep (mkTrackerSys t pop lost) (mkTrackerSys t' (m' :: others) lost)
| tstep_list f t pop lost msgs msgs' others t' :
    f ∈ enter_list → pop ≡ₚ msgs ++ others → f msgs t = (Ret msgs', t') →
    tstep (mkTrackerSys t pop lost) (mkTrackerSys t' (msgs' ++ others) lost)
| tstep_lists f t pop lost ls ls' others t' :
    f ∈ enter_lists → pop ≡ₚ concat ls ++ others → f ls t = (Ret ls', t') →
    tstep (mkTrackerSys t pop lost) (mkTrackerSys t' (concat ls' ++ others) lost)
| tstep_destroy t pop lost m others :
    pop ≡ₚ m :: others →
    tstep (mkTrackerSys t pop lost)
      (mkTrackerSys t others (if decide (State m = Processed) then lost else m :: lost))
| tstep_prune t pop lost f : tstep (mkTrackerSys t pop lost) (mkTrackerSys (PruneTopics f t) pop lost).

Definition counted (s : tracker_sys) : list TMsg := ts_alive s ++ ts_lost s.

Lemma stats_of_prune f t topic : stats_of (PruneTopics f t) topic = stats_of t topic.
Proof.
  unfold stats_of, PruneTopics. cbn. rewrite map_lookup_imap.
  destruct (TopicStats t !! topic) as [w |]; [| done]. cbn.
  destruct (negb (f topic) && no_counts (Stats w)) eqn:H; [| done].
  apply andb_true_iff in H as [_ H%no_counts_true]. by rewrite H.
Qed.

Lemma prune_tidy f t : tidy (PruneTopics f t).
Proof.
  intros topic w Hw Hok. unfold PruneTopics in Hw. cbn in Hw.
  rewrite map_lookup_imap in Hw. destruct (TopicStats t !! topic) as [w' |]; [| done].
  cbn in Hw. destruct (negb (f topic) && no_counts (Stats w')) eqn:H; [done |].
  injection Hw as <-. cbn in *. rewrite Hok in H. done.
Qed.

Lemma UpdateStats_tidy topic comp t t' :
  tidy t → UpdateStats topic comp t = (Ret (), t') → tidy t'.
Proof.
  intros Ht. destruct comp as [n b s a]. unfold UpdateStats. munfold.
  destruct (_ || _); [| by intros [= <-]].
  repeat match goal with
  | |- context [0 <=? ?x] => destruct (0 <=? x); cbv beta iota; [| done]
  end. intros [= <-] topic' w' Hw' Hok'.
  cbn in Hw'. match type of Hw' with (if ?c then _ else _) !! _ = _ => destruct c eqn:Hc end.
  - destruct (decide (topic' = topic)) as [-> |];
      [by rewrite lookup_delete_eq in Hw' | rewrite lookup_delete_ne in Hw' by done; eauto].
  - destruct (decide (topic' = topic)) as [-> |]; [| rewrite lookup_insert_ne in Hw' by done; eauto].
    rewrite lookup_insert_eq in Hw'. injection Hw' as <-. cbn in *. by rewrite Hok' in Hc.
Qed.

Lemma count_list_legal target topic msgs c c' :
  count_list (count_of target) topic msgs c = Some c' →
  Forall (λ m, Topic m = topic ∧ legal target (State m) = true) msgs.
Proof.
  revert c. induction msgs as [| m msgs IH]; intros c H; [done |]. cbn in H.
  case_decide as Ht; [| done]. pose proof (count_of_moves target m c) as Hc.
  destruct (count_of target (State m) c) as [c1 |]; [| done].
  constructor; [tauto | eauto].
Qed.

Lemma EnterList_Ret_inv target msgs t msgs' t' :
  EnterList (count_of target) target msgs t = (Ret msgs', t') →
  (∃ topic, Forall (λ m, Topic m = topic ∧ legal target (State m) = true) msgs) ∧
  (tidy t → tidy t').
Proof.
  destruct msgs as [| m msgs].
  { intros [= <- <-]. split; [by exists "" | done]. }
  unfold EnterList. intros H.
  apply bind_inv_Ret in H as (c & t1 & H1 & H).
  apply bind_inv_Ret in H as ([] & t2 & H2 & [= <- <-]).
  destruct (count_list _ _ _ _) as [c' |] eqn:Hc; [| done]. injection H1 as <- <-.
  split; [exists (Topic m); by eapply count_list_legal |].
  intros Ht. by eapply UpdateStats_tidy.
Qed.

Definition tracked (t : TMsgStateTracker) (pop : list TMsg) : Prop := tracker_ok t pop ∧ tidy t.

#[global] Instance tracked_perm t : Proper ((≡ₚ) ==> iff) (tracked t).
Proof. intros l k H. split; intros [? ?]; (split; [by eapply tracker_ok_perm |done]). Qed.

Lemma EnterList_tracked target t msgs others msgs' t' :
  EnterList (count_of target) target msgs t = (Ret msgs', t') → tracked t (msgs ++ others) → tracked t' (msgs' ++ others).
Proof.
  intros He [Ht Htd]. apply EnterList_Ret_inv in He as Hl. destruct Hl as [Hl Htd'].
  destruct (EnterList_ok target t msgs others Ht Hl) as (t1 & He' & Hok). rewrite He' in He. injection He as <- <-. by split; [| apply Htd'].
Qed.

Lemma EnterOne_tracked target t m others m' t' :
  EnterOne (count_of target) target m t = (Ret m', t') → tracked t (m :: others) → tracked t' (m' :: others).
Proof. intros He. apply (EnterList_tracked target t [m] others [m']). by rewrite EnterOne_EnterList, He. Qed.

Lemma EnterLists_tracked target ls : ∀ t others ls' t',
  mmap (EnterList (count_of target) target) ls t = (Ret ls', t') → tracked t (concat ls ++ others) → tracked t' (concat ls' ++ others).
Proof.
  induction ls as [| l ls IH]; intros t others ls' t' He Ht.
  { injection He as <- <-. done. }
  cbn [mmap] in He. apply bind_inv_Ret in He as (l' & t1 & H1 & He). apply bind_inv_Ret in He as (k & t2 & H2 & [= <- <-]).
  cbn [concat] in *. rewrite <- app_assoc in Ht. apply (EnterList_tracked _ _ _ _ _ _ H1) in Ht.
  rewrite <- app_assoc, Permutation_app_swap_app. apply (IH t1 _ _ _ H2). by rewrite Permutation_app_swap_app.
Qed.

Lemma MsgEnterNew_tracked t pop m t' :
  State m = New → MsgEnterNew t = (Ret (), t') → tracked t pop → tracked t' (m :: pop).
Proof.
  intros Hm He [[Hn Hs] Ht]. unfold MsgEnterNew in He. munfold. cbn in He.
  destruct (0 <? _); [| done]. injection He as <-. split; [| done]. split.
  - cbn [NewCount]. rewrite new_cnt_cons, Hn. unfold new_cnt at 2. unfold new_cnt, sumZ, in_state. cbn. rewrite Hm. cbn. lia.
  - intros topic. change (stats_of (mkTracker _ _) topic) with (stats_of t topic).
    rewrite Hs, !(cnt_cons _ _ m pop). unfold cnt, sumZ, in_state. cbn. by rewrite Hm.
Qed.

Lemma destroy_tracked t pop m : State m = Processed → tracked t (m :: pop) → tracked t pop.
Proof.
  intros Hm [[Hn Hs] Ht]. split; [| done]. split.
  - rewrite Hn, new_cnt_cons. unfold new_cnt at 1, sumZ, in_state. cbn. by rewrite Hm.
  - intros topic. rewrite Hs, !(cnt_cons _ _ m pop). unfold cnt, sumZ, in_state. cbn. by rewrite Hm.
Qed.

Ltac each_entry H := repeat first [apply elem_of_cons in H as [-> | H] | by apply elem_of_nil in H].

Lemma tstep_ok s s' : tstep s s' → tracked (ts_tracker s) (counted s) → tracked (ts_tracker s') (counted s').
Proof.
  unfold counted. destruct 1 as [t pop lost m t' Hm He | f t pop lost m m' others t' Hf Hp He | f t pop lost msgs msgs' others t' Hf Hp He |
    f t pop lost ls ls' others t' Hf Hp He | t pop lost m others Hp | t pop lost f]; cbn [ts_tracker ts_alive ts_lost].
  - by apply MsgEnterNew_tracked.
  - rewrite Hp. each_entry Hf;
      [by apply (EnterOne_tracked Batching) | by apply (EnterOne_tracked SendWait) | by apply (EnterOne_tracked AckWait) |
       by apply (EnterOne_tracked Processed)].
  - rewrite Hp, <- !app_assoc. each_entry Hf;
      [by apply (EnterList_tracked SendWait) | by apply (EnterList_tracked AckWait) | by apply (EnterList_tracked Processed)].
  - rewrite Hp, <- !app_assoc. each_entry Hf;
      [by apply (EnterLists_tracked SendWait) | by apply (EnterLists_tracked AckWait) | by apply (EnterLists_tracked Processed)].
  - rewrite Hp. case_decide; [by apply destroy_tracked |]. by rewrite <- Permutation_middle.
  - intros [[Hn Hs] _]. split; [| apply prune_tidy]. split; [done |]. intros topic. by rewrite stats_of_prune.
Qed.

(** C29: whatever calls of the tracker complete, in whatever order (for one message, for a
    list, for a list of lists, and the pruning of topics), its counters are exactly the numbers of
    messages in each state and topic, counting the messages that exist and those
    that were destroyed before they were [Processed]: so the counters are exact as long as only processed
    messages are destroyed, and a message destroyed earlier stays counted.  No counter is kept
    for a topic that left the metadata and has no messages.  A list of messages of one topic that
    are in states from which the target may be entered is moved without a failed assertion. *)
Theorem tracker_reachable_ok s :
  rtc tstep tracker_init s →
  tracker_ok (ts_tracker s) (ts_alive s ++ ts_lost s) ∧ tidy (ts_tracker s) ∧
  ∀ target topic msgs others, ts_alive s ≡ₚ msgs ++ others →
    Forall (λ m, Topic m = topic ∧ legal target (State m) = true) msgs →
    ∃ t', EnterList (count_of target) target msgs (ts_tracker s) = (Ret (SetState target <$> msgs), t').
Proof.
  intros H. assert (tracked (ts_tracker s) (counted s)) as [Hok Ht].
  { assert (tracked (ts_tracker tracker_init) (counted tracker_init)) as Hi by (by split). revert Hi.
    induction H as [x | x y z Hxy _ IH]; [done |]. intros Hx. by apply IH, (tstep_ok x). }
  split; [done |]. split; [done |]. intros target topic msgs others Hp Hm.
  destruct (EnterList_ok target (ts_tracker s) msgs (others ++ ts_lost s)) as (t' & He & _); [| by exists topic | by exists t'].
  eapply tracker_ok_perm; [| exact Hok]. unfold counted. by rewrite Hp, app_assoc.
Qed.

(** A list of messages of one topic, each in a state the target may be
    entered from, moves to the target without any assertion failing, and the
    counters follow. *)
Theorem EnterList_moves target t msgs others topic :
  tracker_ok t (msgs ++ others) →
  Forall (λ m, Topic m = topic ∧ legal target (State m) = true) msgs →
  ∃ t', EnterList (count_of target) target msgs t = (Ret (SetState target <$> msgs), t') ∧
    tracker_ok t' ((SetState target <$> msgs) ++ others).
Proof. intros Ht Hm. apply EnterList_ok; eauto. Qed.

(** The status report lists exactly the topics with a nonzero counter, with
    the true counts, and the true number of new messages. *)
Theorem GetStats_exact `{HashOrder} t pop topic s :
  tracker_ok t pop →
  ((topic, s) ∈ (GetStats t).1 ↔
     s = mkStats (cnt Batching topic pop) (cnt SendWait topic pop) (cnt AckWait topic pop) ∧
     s ≠ mkStats 0 0 0) ∧
  (GetStats t).2 = new_cnt pop.
Proof.
  intros [Hn Hs]. split; [| done]. rewrite <- Hs. unfold GetStats, stats_of. cbn.
  rewrite list_elem_of_filter, list_elem_of_fmap. cbn.
  rewrite <- (no_counts_true s), not_true_iff_false. split.
  - intros [Hc ([k w] & [= <- ->] & Hk%elem_of_hash_order)]. rewrite Hk. cbn.
    split; [done |]. by destruct (no_counts (Stats w)).
  - intros [Hst Hc]. rewrite Hc. split; [done |].
    destruct (TopicStats t !! topic) as [w |] eqn:Hw; cbn in Hst; [| by subst].
    exists (topic, w). rewrite elem_of_hash_order. by subst.
Qed.

(** ** Creation *)

Section creation.
Context (now : Z) (rt : TRoutingType) (pk ts : Z) (topic key value : list byte) (trunc : bool).
Context (s : creator_state) (free : list nat) (lv : list live) (pop : list TMsg).

Let create : M exn creator_state TMsg :=
  msg ← on_pool (TMsg_new now rt pk ts topic key value trunc);
  on_tracker MsgEnterNew;;
  mret msg.

Let needed : nat := nblocks (dsz (cs_pool s)) (length (key ++ value)).

Definition created (blob : TBlob) : TMsg :=
  mkMsg rt pk ts now New 0 (String.string_of_list_byte topic) 0 blob
    (Z.of_nat (length key)) trunc.

Lemma create_ok :
  heap_rep (cs_pool s) free lv → tracker_ok (cs_tracker s) pop →
  (needed ≤ length free)%nat →
  ∃ s' blob bs, create s = (Ret (created blob), s') ∧
    heap_rep (cs_pool s') (drop needed free) (mkLive blob bs (key ++ value) :: lv) ∧
    tracker_ok (cs_tracker s') (created blob :: pop).
Proof.
  intros [Hi Hlv] [Hn Hs] Hk.
  destruct (MakeKeyAndValue_ok _ _ _ _ _ Hi Hk) as (p' & blob & bs & Hr & Hi' & Hb & Hf).
  exists (mkCreator p' (mkTracker (TopicStats (cs_tracker s)) (NewCount (cs_tracker s) + 1))),
    blob, bs.
  pose proof (new_cnt_nonneg pop).
  assert (MsgEnterNew (cs_tracker s) =
    (Ret (), mkTracker (TopicStats (cs_tracker s)) (NewCount (cs_tracker s) + 1))) as He.
  { unfold MsgEnterNew. munfold. cbn. destruct (Z.ltb_spec 0 (NewCount (cs_tracker s) + 1)); [done | lia]. }
  split; [| split].
  - unfold create, TMsg_new, on_pool, on_tracker, no_throw, zoom. munfold. rewrite Hr.
    rewrite bool_decide_true by (rewrite (blob_size _ _ _ _ Hb), length_app; lia).
    cbv beta iota. cbn [cs_tracker]. rewrite He. done.
  - split; [done |]. constructor; [done |]. eapply heap_frame; [exact Hf | | exact Hlv].
    intros b Hb1 Hb2. apply inv_NoDup, NoDup_app in Hi as (_ & Hd & _). by eapply Hd.
  - split.
    + cbn [cs_tracker NewCount]. rewrite new_cnt_cons, Hn. unfold new_cnt at 2, sumZ. cbn. lia.
    + intros t. change (stats_of _ t) with (stats_of (cs_tracker s) t).
      by rewrite Hs, !(cnt_cons _ _ (created blob) pop).
Qed.

Lemma create_no_mem :
  heap_rep (cs_pool s) free lv → (length free < needed)%nat →
  ∃ s' free', create s = (Throw TMemoryCapReached, s') ∧ free' ≡ₚ free ∧
    heap_rep (cs_pool s') free' lv ∧ cs_tracker s' = cs_tracker s.
Proof.
  intros [Hi Hlv] Hk.
  destruct (MakeKeyAndValue_fail _ _ _ _ _ Hi Hk) as (p' & free' & Hr & Hp & Hi' & Hf).
  exists (mkCreator p' (cs_tracker s)), free'. split; [| split; [done | split; [| done]]].
  - unfold create, TMsg_new, on_pool, zoom. munfold. by rewrite Hr.
  - split; [done |]. eapply heap_frame; [exact Hf | | exact Hlv].
    intros b Hb1 Hb2. apply inv_NoDup, NoDup_app in Hi as (_ & Hd & _). by eapply Hd.
Qed.
End creation.

(** ** Examples *)

Definition ex_msg (topic : string) (s : TState) : TMsg :=
  mkMsg AnyPartition 0 100 5 s 0 topic 0 TBlob_empty 0 false.

(** Two messages of one topic being batched, one of another waiting. *)
Definition ex_tracker : TMsgStateTracker :=
  mkTracker (<["a" := mkWrapper (mkStats 2 0 0) false]>
            (<["b" := mkWrapper (mkStats 0 1 0) true]> ∅)) 1.

Definition ex_msgs : list TMsg := [ex_msg "a" Batching; ex_msg "a" Batching].

Definition ex_others : list TMsg := [ex_msg "b" SendWait; ex_msg "c" New].

Lemma ex_tracker_ok : tracker_ok ex_tracker (ex_msgs ++ ex_others).
Proof.
  split; [done |]. intros topic.
  destruct (decide (topic = "a")) as [-> |]; [done |].
  destruct (decide (topic = "b")) as [-> |]; [done |].
  unfold stats_of, ex_tracker. cbn [TopicStats].
  rewrite !lookup_insert_ne, lookup_empty by congruence.
  unfold cnt, ex_msgs, ex_others, in_state. cbn -[bool_decide].
  by rewrite !(bool_decide_false (_ = topic)) by congruence.
Qed.

Lemma EnterList_moves_witness :
  ∃ t', EnterList (count_of SendWait) SendWait ex_msgs ex_tracker =
          (Ret (SetState SendWait <$> ex_msgs), t') ∧
    tracker_ok t' ((SetState SendWait <$> ex_msgs) ++ ex_others).
Proof.
  apply (EnterList_moves SendWait ex_tracker ex_msgs ex_others "a").
  - exact ex_tracker_ok.
  - repeat constructor.
Defined.

Lemma GetStats_exact_witness :
  (("b", mkStats 0 1 0) ∈ (@GetStats map_order ex_tracker).1 ↔
     mkStats 0 1 0 = mkStats (cnt Batching "b" (ex_msgs ++ ex_others))
       (cnt SendWait "b" (ex_msgs ++ ex_others)) (cnt AckWait "b" (ex_msgs ++ ex_others)) ∧
     mkStats 0 1 0 ≠ mkStats 0 0 0) ∧
  (@GetStats map_order ex_tracker).2 = new_cnt (ex_msgs ++ ex_others).
Proof. apply (@GetStats_exact map_order ex_tracker (ex_msgs ++ ex_others)). exact ex_tracker_ok. Defined.

(** A tracker of one new message. *)
Definition ex_run : TMsgStateTracker := (MsgEnterNew TMsgStateTracker_new).2.

(** Two messages come in and one is batched; the other is processed and destroyed, the
    topic leaves the metadata, and the batched message is destroyed too: it stays counted. *)
Definition ex_tracker_calls : list (TM ()) :=
  [MsgEnterNew; MsgEnterNew; MsgEnterBatching (ex_msg "a" New);; mret ();
   MsgEnterProcessed_list [ex_msg "a" New];; mret (); modify (PruneTopics (λ _, false))].

Definition ex_pruned : TMsgStateTracker := (mmap id ex_tracker_calls TMsgStateTracker_new).2.

Lemma tracker_reachable_ok_witness :
  tracker_ok ex_pruned ([] ++ [ex_msg "a" Batching]) ∧ TopicStats ex_pruned = {[ "a" := mkWrapper (mkStats 1 0 0) true ]}.
Proof.
  split; [| by vm_compute].
  apply (tracker_reachable_ok (mkTrackerSys ex_pruned [] [ex_msg "a" Batching])).
  eapply rtc_l; [by apply (tstep_create _ [] [] (ex_msg "a" New)) |].
  eapply rtc_l; [by apply (tstep_create _ _ _ (ex_msg "a" New)) |].
  eapply rtc_l; [apply (tstep_one MsgEnterBatching _ _ _ (ex_msg "a" New) (ex_msg "a" Batching) [ex_msg "a" New]); [by left | done | by vm_compute] |].
  eapply rtc_l; [apply (tstep_list MsgEnterProcessed_list _ _ _ [ex_msg "a" New] [ex_msg "a" Processed] [ex_msg "a" Batching]);
    [by right; right; left | apply Permutation_swap | by vm_compute] |].
  eapply rtc_l; [apply (tstep_destroy _ _ _ (ex_msg "a" Processed) [ex_msg "a" Batching]); done |].
  eapply rtc_l; [apply (tstep_prune _ _ _ (λ _, false)) |].
  eapply rtc_l; [apply (tstep_destroy _ _ _ (ex_msg "a" Batching) []); done |].
  apply rtc_refl.
Defined.
