(* ===== verification/AnomalyTracker.v ===== *)
(** * Discard and duplicate tracking (dory/anomaly_tracker.h, anomaly_tracker.cc)

    Reports of discarded and possibly duplicated messages, one per reporting
    period.  Each tracking function reads the clock ([now], seconds), writes an
    entry to the discard log, rolls the reporting period and updates the report
    being filled.  The discard log file is the sequence of entries it was given
    ([DiscardLog], newest first). *)
From S2P Require Import Prelude FieldAccess Capped Msg.

Inductive TDiscardReason :=
| Bug | FailedDeliveryAttemptLimit | KafkaErrorAck | ServerShutdown
| NoAvailablePartitions | RateLimit | FailedTopicAutocreate.

#[global] Instance TDiscardReason_eq_dec : EqDecision TDiscardReason.
Proof. solve_decision. Defined.

(** Calls made on the discard file logger. *)
Inductive log_entry :=
| LogDiscard (msg : TMsg) (reason : TDiscardReason)
| LogDuplicate (msg : TMsg)
| LogNoMemDiscard (timestamp : Z) (topic key value : list byte)
| LogMalformedMsgDiscard (msg : list byte)
| LogUncleanDisconnectMsgDiscard (is_tcp : bool) (msg : list byte)
| LogUnsupportedApiKeyDiscard (msg : list byte) (api_key : Z)
| LogUnsupportedMsgVersionDiscard (msg : list byte) (version : Z)
| LogBadTopicDiscard (timestamp : Z) (topic key value : list byte)
| LogBadTopicDiscard_msg (msg : TMsg)
| LogLongMsgDiscard (msg : TMsg).

Definition MAX_BAD_TOPICS : nat := 25.
Definition MAX_MALFORMED_MSGS : nat := 25.
Definition MAX_UNCLEAN_DISCONNECT_MSGS : nat := 25.
Definition MAX_LONG_MSGS : nat := 25.

Record TInterval := mkInterval { First : Z; Last : Z }.

Definition TInterval_new (initial : Z) : TInterval := mkInterval initial initial.

Record TTopicInfo := mkTopicInfo { Interval : TInterval; Count : Z }.

Definition TTopicInfo_new (initial : Z) : TTopicInfo := mkTopicInfo (TInterval_new initial) 1.

(** [TInfo]: one report. *)
Record TInfo := mkInfo {
  ReportId : Z;
  StartTime : Z;
  DiscardTopicMap : gmap string TTopicInfo;
  DuplicateTopicMap : gmap string TTopicInfo;
  RateLimitDiscardMap : gmap string Z;
  MalformedMsgs : list (list byte);
  UnixStreamUncleanDisconnectMsgs : list (list byte);
  TcpUncleanDisconnectMsgs : list (list byte);
  UnsupportedVersionMsgs : gmap Z Z;
  LongMsgs : list (list byte);
  BadTopics : list (list byte);
  MalformedMsgCount : Z;
  UnixStreamUncleanDisconnectCount : Z;
  TcpUncleanDisconnectCount : Z;
  UnsupportedApiKeyMsgCount : Z;
  UnsupportedVersionMsgCount : Z;
  BadTopicMsgCount : Z
}.

Definition TInfo_new (report_id start_time : Z) : TInfo :=
  mkInfo report_id start_time ∅ ∅ ∅ [] [] [] ∅ [] [] 0 0 0 0 0 0.

(** [TAnomalyTracker]. *)
Record TAnomalyTracker := mkAnomaly {
  ReportInterval : Z;
  MaxMsgPrefixLen : nat;
  LastGetInfoTime : Z;
  LastFullReport : option TInfo;
  FillingReport : TInfo;
  NoDiscardQuery : Z;
  DiscardLog : list log_entry
}.

Definition TAnomalyTracker_new (report_interval : Z) (max_msg_prefix_len : nat) (now : Z)
    : TAnomalyTracker :=
  mkAnomaly report_interval max_msg_prefix_len now None (TInfo_new 0 now) 0 [].

Definition with_report (f : TInfo → TInfo) (t : TAnomalyTracker) : TAnomalyTracker :=
  mkAnomaly (ReportInterval t) (MaxMsgPrefixLen t) (LastGetInfoTime t) (LastFullReport t)
    (f (FillingReport t)) (NoDiscardQuery t) (DiscardLog t).

Definition with_log (e : log_entry) (t : TAnomalyTracker) : TAnomalyTracker :=
  mkAnomaly (ReportInterval t) (MaxMsgPrefixLen t) (LastGetInfoTime t) (LastFullReport t)
    (FillingReport t) (NoDiscardQuery t) (e :: DiscardLog t).

(** [UpdateLruList]. *)
Definition UpdateLruList (s : list byte) (lru_list : list (list byte)) (max_list_size : nat)
    : list (list byte) :=
  match list_find (s =.) lru_list with
  | None =>
      let lru_list := s :: lru_list in
      if decide (max_list_size < length lru_list)%nat then removelast lru_list else lru_list
  | Some (i, x) => x :: delete i lru_list
  end.

(** [TAnomalyTracker::UpdateTopicMap]. *)
Definition UpdateTopicMap (topic_map : gmap string TTopicInfo) (topic : string) (timestamp : Z)
    : gmap string TTopicInfo :=
  match topic_map !! topic with
  | None => <[topic := TTopicInfo_new timestamp]> topic_map
  | Some info =>
      let i := Interval info in
      let i := if timestamp <? First i then mkInterval timestamp (Last i)
               else if Last i <? timestamp then mkInterval (First i) timestamp
               else i in
      <[topic := mkTopicInfo i (uwrap 64 (Count info + 1))]> topic_map
  end.

(** [TAnomalyTracker::EnforceMaxPrefixLen]. *)
Definition EnforceMaxPrefixLen (t : TAnomalyTracker) (msg : list byte) : list byte :=
  take (length msg `min` MaxMsgPrefixLen t)%nat msg.

(** [TAnomalyTracker::AdvanceReportPeriod]; [uint64_t] and [size_t] arithmetic. *)
Definition AdvanceReportPeriod (now : Z) (t : TAnomalyTracker) : TAnomalyTracker :=
  if decide (ReportInterval t = 0) then t else
  let current_id := ReportId (FillingReport t) in
  let current_start := StartTime (FillingReport t) in
  let now_offset := if current_start <=? now then now - current_start else 0 in
  let period_offset := now_offset `div` ReportInterval t in
  let set last fill :=
    mkAnomaly (ReportInterval t) (MaxMsgPrefixLen t) (LastGetInfoTime t) last fill
      (NoDiscardQuery t) (DiscardLog t) in
  if decide (period_offset = 0) then t
  else if decide (period_offset = 1) then
    set (Some (FillingReport t))
      (TInfo_new (uwrap 64 (current_id + 1)) (uwrap 64 (current_start + ReportInterval t)))
  else
    let prev_period_offset := period_offset - 1 in
    let prev_id := uwrap 64 (current_id + prev_period_offset) in
    let prev_start := uwrap 64 (current_start + prev_period_offset * ReportInterval t) in
    set (Some (TInfo_new prev_id prev_start))
      (TInfo_new (uwrap 64 (prev_id + 1)) (uwrap 64 (prev_start + ReportInterval t))).

(** Updates of the report being filled. *)
Definition upd_discard (topic : string) (ts : Z) (i : TInfo) : TInfo :=
  let '(mkInfo id st dm um rm ml ul tl vm lm bl mc uc tc kc vc bc) := i in
  mkInfo id st (UpdateTopicMap dm topic ts) um rm ml ul tl vm lm bl mc uc tc kc vc bc.

Definition upd_duplicate (topic : string) (ts : Z) (i : TInfo) : TInfo :=
  let '(mkInfo id st dm um rm ml ul tl vm lm bl mc uc tc kc vc bc) := i in
  mkInfo id st dm (UpdateTopicMap um topic ts) rm ml ul tl vm lm bl mc uc tc kc vc bc.

Definition upd_rate_limit (topic : string) (i : TInfo) : TInfo :=
  let '(mkInfo id st dm um rm ml ul tl vm lm bl mc uc tc kc vc bc) := i in
  let rm := match rm !! topic with
            | None => <[topic := 1]> rm
            | Some n => <[topic := uwrap 64 (n + 1)]> rm
            end in
  mkInfo id st dm um rm ml ul tl vm lm bl mc uc tc kc vc bc.

Definition upd_malformed (prefix : list byte) (i : TInfo) : TInfo :=
  let '(mkInfo id st dm um rm ml ul tl vm lm bl mc uc tc kc vc bc) := i in
  mkInfo id st dm um rm (UpdateLruList prefix ml MAX_MALFORMED_MSGS) ul tl vm lm bl
    (uwrap 64 (mc + 1)) uc tc kc vc bc.

Definition upd_unclean (is_tcp : bool) (prefix : list byte) (i : TInfo) : TInfo :=
  let '(mkInfo id st dm um rm ml ul tl vm lm bl mc uc tc kc vc bc) := i in
  if is_tcp then
    mkInfo id st dm um rm ml ul (UpdateLruList prefix tl MAX_UNCLEAN_DISCONNECT_MSGS) vm lm bl
      mc uc (uwrap 64 (tc + 1)) kc vc bc
  else
    mkInfo id st dm um rm ml (UpdateLruList prefix ul MAX_UNCLEAN_DISCONNECT_MSGS) tl vm lm bl
      mc (uwrap 64 (uc + 1)) tc kc vc bc.

Definition upd_api_key (i : TInfo) : TInfo :=
  let '(mkInfo id st dm um rm ml ul tl vm lm bl mc uc tc kc vc bc) := i in
  mkInfo id st dm um rm ml ul tl vm lm bl mc uc tc (uwrap 64 (kc + 1)) vc bc.

Definition upd_version (version : Z) (i : TInfo) : TInfo :=
  let '(mkInfo id st dm um rm ml ul tl vm lm bl mc uc tc kc vc bc) := i in
  let vm := match vm !! version with
            | None => <[version := 1]> vm
            | Some n => <[version := uwrap 64 (n + 1)]> vm
            end in
  mkInfo id st dm um rm ml ul tl vm lm bl mc uc tc kc (uwrap 64 (vc + 1)) bc.

Definition upd_bad_topic (topic : list byte) (i : TInfo) : TInfo :=
  let '(mkInfo id st dm um rm ml ul tl vm lm bl mc uc tc kc vc bc) := i in
  mkInfo id st dm um rm ml ul tl vm lm (UpdateLruList topic bl MAX_BAD_TOPICS)
    mc uc tc kc vc (uwrap 64 (bc + 1)).

Definition upd_long (prefix : list byte) (i : TInfo) : TInfo :=
  let '(mkInfo id st dm um rm ml ul tl vm lm bl mc uc tc kc vc bc) := i in
  mkInfo id st dm um rm ml ul tl vm (UpdateLruList prefix lm MAX_LONG_MSGS) bl
    mc uc tc kc vc bc.

(** ** The tracking functions *)

Definition TrackDiscard (now : Z) (msg : TMsg) (reason : TDiscardReason) (t : TAnomalyTracker)
    : TAnomalyTracker :=
  let t := with_log (LogDiscard msg reason) t in
  let t := AdvanceReportPeriod now t in
  let t := with_report (upd_discard (Topic msg) (Timestamp msg)) t in
  if decide (reason = RateLimit) then with_report (upd_rate_limit (Topic msg)) t else t.

Definition TrackDuplicate (now : Z) (msg : TMsg) (t : TAnomalyTracker) : TAnomalyTracker :=
  let t := with_log (LogDuplicate msg) t in
  with_report (upd_duplicate (Topic msg) (Timestamp msg)) (AdvanceReportPeriod now t).

Definition TrackNoMemDiscard (now timestamp : Z) (topic key value : list byte)
    (t : TAnomalyTracker) : TAnomalyTracker :=
  let t := with_log (LogNoMemDiscard timestamp topic key value) t in
  with_report (upd_discard (String.string_of_list_byte topic) timestamp)
    (AdvanceReportPeriod now t).

Definition TrackMalformedMsgDiscard (now : Z) (msg : list byte) (t : TAnomalyTracker)
    : TAnomalyTracker :=
  let t := with_log (LogMalformedMsgDiscard msg) t in
  with_report (upd_malformed (EnforceMaxPrefixLen t msg)) (AdvanceReportPeriod now t).

Definition TrackStreamClientUncleanDisconnect (now : Z) (is_tcp : bool) (msg : list byte)
    (t : TAnomalyTracker) : TAnomalyTracker :=
  let t := with_log (LogUncleanDisconnectMsgDiscard is_tcp msg) t in
  with_report (upd_unclean is_tcp (EnforceMaxPrefixLen t msg)) (AdvanceReportPeriod now t).

Definition TrackUnsupportedApiKeyDiscard (now : Z) (msg : list byte) (api_key : Z)
    (t : TAnomalyTracker) : TAnomalyTracker :=
  let t := with_log (LogUnsupportedApiKeyDiscard msg api_key) t in
  with_report upd_api_key (AdvanceReportPeriod now t).

Definition TrackUnsupportedMsgVersionDiscard (now : Z) (msg : list byte) (version : Z)
    (t : TAnomalyTracker) : TAnomalyTracker :=
  let t := with_log (LogUnsupportedMsgVersionDiscard msg version) t in
  with_report (upd_version version) (AdvanceReportPeriod now t).

Definition TrackBadTopicDiscard (now timestamp : Z) (topic key value : list byte)
    (t : TAnomalyTracker) : TAnomalyTracker :=
  let t := with_log (LogBadTopicDiscard timestamp topic key value) t in
  with_report (upd_bad_topic topic) (AdvanceReportPeriod now t).

Definition TrackBadTopicDiscard_msg (now : Z) (msg : TMsg) (t : TAnomalyTracker)
    : TAnomalyTracker :=
  let t := with_log (LogBadTopicDiscard_msg msg) t in
  with_report (upd_bad_topic (String.list_byte_of_string (Topic msg)))
    (AdvanceReportPeriod now t).

(** [TrackLongMsgDiscard] from the filled [tmp_buf] on. *)
Definition TrackLongMsgDiscard_buf (now : Z) (msg : TMsg) (tmp_buf : list byte)
    (t : TAnomalyTracker) : TAnomalyTracker :=
  let prefix := EnforceMaxPrefixLen t tmp_buf in
  let t := with_log (LogLongMsgDiscard msg) t in
  let t := AdvanceReportPeriod now t in
  let t := with_report (upd_long prefix) t in
  with_report (upd_discard (Topic msg) (Timestamp msg)) t.

(** [TrackLongMsgDiscard]: the value is read back from the pool. *)
Definition TrackLongMsgDiscard (now : Z) (pool : TPool) (msg : TMsg) : M exn TAnomalyTracker () :=
  λ t,
  let read : M exn TReader (list byte) :=
    Skip pool (Z.to_nat (KeySize msg));; Read pool (Z.to_nat (GetValueSize msg)) in
  match (read (TReader_new (KeyAndValue msg))).1 with
  | Ret value =>
      (Ret (), TrackLongMsgDiscard_buf now msg
                 (String.list_byte_of_string (Topic msg) ++ [x20] ++ value) t)
  | Throw e => (Throw e, t)
  | Fault x => (Fault x, t)
  end.

(** [GetInfo]: the copy of the report being filled, the last full report, and
    the tracker. *)
Definition GetInfo (now : Z) (t : TAnomalyTracker)
    : TInfo * option TInfo * TAnomalyTracker :=
  let t := mkAnomaly (ReportInterval t) (MaxMsgPrefixLen t) now (LastFullReport t)
             (FillingReport t) (NoDiscardQuery t) (DiscardLog t) in
  let t := AdvanceReportPeriod now t in
  (FillingReport t, LastFullReport t, t).

(** [CheckGetInfoRate]. *)
Definition CheckGetInfoRate (now : Z) (t : TAnomalyTracker) : TAnomalyTracker :=
  let delta := if LastGetInfoTime t <=? now then now - LastGetInfoTime t else 0 in
  if ReportInterval t <? delta then
    mkAnomaly (ReportInterval t) (MaxMsgPrefixLen t) (LastGetInfoTime t) (LastFullReport t)
      (FillingReport t) (NoDiscardQuery t + 1) (DiscardLog t)
  else t.

(** ** Histories of anomalies

    What can be reported to the tracker, with the effect on the report being
    filled separated from the passage of time. *)
Inductive anomaly :=
| ADiscard (msg : TMsg) (reason : TDiscardReason)
| ADuplicate (msg : TMsg)
| ANoMem (timestamp : Z) (topic key value : list byte)
| AMalformed (msg : list byte)
| AUnclean (is_tcp : bool) (msg : list byte)
| AApiKey (msg : list byte) (api_key : Z)
| AVersion (msg : list byte) (version : Z)
| ABadTopic (timestamp : Z) (topic key value : list byte)
| ABadTopicMsg (msg : TMsg)
| ALong (msg : TMsg) (tmp_buf : list byte)
| AQuery
| ACheckRate.

Definition track (now : Z) (a : anomaly) : TAnomalyTracker → TAnomalyTracker :=
  match a with
  | ADiscard msg reason => TrackDiscard now msg reason
  | ADuplicate msg => TrackDuplicate now msg
  | ANoMem ts topic key value => TrackNoMemDiscard now ts topic key value
  | AMalformed msg => TrackMalformedMsgDiscard now msg
  | AUnclean is_tcp msg => TrackStreamClientUncleanDisconnect now is_tcp msg
  | AApiKey msg k => TrackUnsupportedApiKeyDiscard now msg k
  | AVersion msg v => TrackUnsupportedMsgVersionDiscard now msg v
  | ABadTopic ts topic key value => TrackBadTopicDiscard now ts topic key value
  | ABadTopicMsg msg => TrackBadTopicDiscard_msg now msg
  | ALong msg buf => TrackLongMsgDiscard_buf now msg buf
  | AQuery => λ t, (GetInfo now t).2
  | ACheckRate => CheckGetInfoRate now
  end.

Definition run (t : TAnomalyTracker) (evs : list (Z * anomaly)) : TAnomalyTracker :=
  foldl (λ t e, track e.1 e.2 t) t evs.

(** What an anomaly contributes to the report of its period. *)
Definition contribute (len : nat) (a : anomaly) (i : TInfo) : TInfo :=
  match a with
  | ADiscard msg reason =>
      let i := upd_discard (Topic msg) (Timestamp msg) i in
      if decide (reason = RateLimit) then upd_rate_limit (Topic msg) i else i
  | ADuplicate msg => upd_duplicate (Topic msg) (Timestamp msg) i
  | ANoMem ts topic _ _ => upd_discard (String.string_of_list_byte topic) ts i
  | AMalformed msg => upd_malformed (take (length msg `min` len) msg) i
  | AUnclean is_tcp msg => upd_unclean is_tcp (take (length msg `min` len) msg) i
  | AApiKey _ _ => upd_api_key i
  | AVersion _ v => upd_version v i
  | ABadTopic _ topic _ _ => upd_bad_topic topic i
  | ABadTopicMsg msg => upd_bad_topic (String.list_byte_of_string (Topic msg)) i
  | ALong msg buf =>
      upd_discard (Topic msg) (Timestamp msg) (upd_long (take (length buf `min` len) buf) i)
  | AQuery | ACheckRate => i
  end.

Definition report (len : nat) (id start : Z) (as_ : list anomaly) : TInfo :=
  foldl (λ i a, contribute len a i) (TInfo_new id start) as_.

(** The timestamps of the discards and duplicates of a topic in a history. *)
Definition discard_of (a : anomaly) : option (string * Z) :=
  match a with
  | ADiscard msg _ | ALong msg _ => Some (Topic msg, Timestamp msg)
  | ANoMem ts topic _ _ => Some (String.string_of_list_byte topic, ts)
  | _ => None
  end.

Definition times (f : anomaly → option (string * Z)) (topic : string) (as_ : list anomaly)
    : list Z :=
  omap (λ a, '(tp, ts) ← f a; if decide (tp = topic) then Some ts else None) as_.

Definition summary (ts : list Z) : option TTopicInfo :=
  match ts with
  | [] => None
  | t :: r => Some (mkTopicInfo (mkInterval (foldl Z.min t r) (foldl Z.max t r))
                      (uwrap 64 (Z.of_nat (length ts))))
  end.

(** Distinct items, the most recent first. *)
Fixpoint recency (newest_first : list (list byte)) : list (list byte) :=
  match newest_first with
  | [] => []
  | s :: r => s :: filter (.≠ s) (recency r)
  end.

(** ** Least recently used lists *)

Lemma removelast_take {A} (l : list A) : removelast l = take (length l - 1) l.
Proof.
  induction l as [| x l IH] using rev_ind; [done |].
  rewrite removelast_last, length_app. cbn.
  rewrite take_app_le by lia. by rewrite take_ge by lia.
Qed.

Lemma NoDup_take {A} (l : list A) n : NoDup l → NoDup (take n l).
Proof. intros Hnd. rewrite <- (take_drop n l) in Hnd. by apply NoDup_app in Hnd as [? _]. Qed.

Lemma filter_ne_notin {A} `{EqDecision A} (s : A) (l : list A) : s ∉ l → filter (.≠ s) l = l.
Proof.
  intros Hs. induction l as [| x l IH]; [done |].
  rewrite filter_cons. set_unfold. rewrite decide_True by naive_solver. f_equal. naive_solver.
Qed.

Lemma filter_ne_delete {A} `{EqDecision A} (s : A) (l : list A) i :
  NoDup l → l !! i = Some s → filter (.≠ s) l = delete i l.
Proof.
  revert i. induction l as [| x l IH]; intros i; [done |].
  intros [Hx Hnd]%NoDup_cons Hi. rewrite filter_cons. destruct i as [| i].
  - injection Hi as ->. rewrite decide_False by naive_solver. by apply filter_ne_notin.
  - cbn in Hi. rewrite decide_True; [cbn; f_equal; by apply IH |].
    intros ->. by apply Hx, (list_elem_of_lookup_2 _ i).
Qed.

(** Moving to the front and dropping the oldest, in one formula. *)
Lemma UpdateLruList_eq s l n :
  NoDup l → (length l ≤ n)%nat → (0 < n)%nat →
  UpdateLruList s l n = take n (s :: filter (.≠ s) l).
Proof.
  intros Hnd Hl Hn. unfold UpdateLruList. destruct (list_find _ l) as [[i x] |] eqn:Hf.
  - apply list_find_Some in Hf as (Hi & <- & _).
    rewrite (filter_ne_delete s l i) by done.
    apply lookup_lt_Some in Hi as Hlt. rewrite take_ge; [done |].
    cbn. rewrite length_delete by done. lia.
  - apply list_find_None in Hf. rewrite filter_ne_notin.
    + destruct (decide _) as [Hd | Hd].
      * rewrite removelast_take. cbn [length] in *. f_equal. lia.
      * rewrite take_ge; [done | lia].
    + intros Hin. rewrite Forall_forall in Hf. by apply (Hf s).
Qed.

Lemma UpdateLruList_NoDup s l n :
  NoDup l → (length l ≤ n)%nat → (0 < n)%nat →
  NoDup (UpdateLruList s l n) ∧ (length (UpdateLruList s l n) ≤ n)%nat.
Proof.
  intros Hnd Hl Hn. rewrite UpdateLruList_eq by done. split.
  - apply NoDup_take, NoDup_cons. split; [by rewrite list_elem_of_filter; naive_solver |].
    by apply NoDup_filter.
  - rewrite length_take. lia.
Qed.

Lemma UpdateLruList_Forall (P : list byte → Prop) s l n :
  NoDup l → (length l ≤ n)%nat → (0 < n)%nat → P s → Forall P l →
  Forall P (UpdateLruList s l n).
Proof.
  intros Hnd Hl Hn Hs HP. rewrite UpdateLruList_eq by done.
  apply Forall_take, Forall_cons. split; [done |]. rewrite Forall_forall in *.
  intros x [_ Hx]%list_elem_of_filter. by apply HP.
Qed.

Lemma recency_NoDup l : NoDup (recency l).
Proof.
  induction l as [| s l IH]; [constructor |]. cbn. apply NoDup_cons.
  split; [rewrite list_elem_of_filter; naive_solver |]. by apply NoDup_filter.
Qed.

Lemma length_filter_ne {A} `{EqDecision A} (s : A) (l : list A) :
  NoDup l → (length l ≤ S (length (filter (.≠ s) l)))%nat.
Proof.
  intros Hnd. destruct (decide (s ∈ l)) as [Hin | Hin].
  - apply list_elem_of_lookup_1 in Hin as [i Hi].
    rewrite (filter_ne_delete s l i) by done. apply lookup_lt_Some in Hi as Hlt.
    rewrite length_delete by done. lia.
  - rewrite filter_ne_notin by done. lia.
Qed.

Lemma take_filter_take {A} `{EqDecision A} (s : A) (l : list A) n :
  NoDup l → take n (filter (.≠ s) (take (S n) l)) = take n (filter (.≠ s) l).
Proof.
  intros Hnd. rewrite <- (take_drop (S n) l) at 2. rewrite filter_app.
  destruct (decide (length l ≤ S n)%nat).
  - rewrite (drop_ge l) by lia. by rewrite app_nil_r.
  - rewrite take_app_le; [done |].
    pose proof (length_filter_ne s (take (S n) l) (NoDup_take _ _ Hnd)) as Hf.
    rewrite length_take in Hf. lia.
Qed.

(** The LRU list after any sequence of items holds the most recent distinct
    ones, newest first. *)
Lemma UpdateLruList_recency n ss :
  (0 < n)%nat →
  foldr (λ s l, UpdateLruList s l n) [] ss = take n (recency ss).
Proof.
  intros Hn. induction ss as [| s ss IH]; [by destruct n |]. cbn [foldr recency]. rewrite IH.
  pose proof (recency_NoDup ss). rewrite UpdateLruList_eq; [| | rewrite length_take; lia | done].
  - destruct n as [| n]; [lia |]. cbn. f_equal. by apply take_filter_take.
  - by apply NoDup_take.
Qed.

(** ** Topic maps *)

Lemma foldl_min_snoc t r x : foldl Z.min t (r ++ [x]) = Z.min (foldl Z.min t r) x.
Proof. by rewrite foldl_app. Qed.

Lemma foldl_max_snoc t r x : foldl Z.max t (r ++ [x]) = Z.max (foldl Z.max t r) x.
Proof. by rewrite foldl_app. Qed.

Lemma foldl_min_max t r : foldl Z.min t r ≤ foldl Z.max t r.
Proof.
  induction r as [| x r IH] using rev_ind; [done |].
  rewrite foldl_min_snoc, foldl_max_snoc. lia.
Qed.

Lemma UpdateTopicMap_summary m topic ts l :
  m !! topic = summary l → UpdateTopicMap m topic ts !! topic = summary (l ++ [ts]).
Proof.
  intros Hm. unfold UpdateTopicMap. rewrite Hm. destruct l as [| t r]; cbn [summary app].
  - by rewrite lookup_insert_eq.
  - rewrite lookup_insert_eq. cbn [Interval Count First Last].
    rewrite foldl_min_snoc, foldl_max_snoc. pose proof (foldl_min_max t r).
    f_equal. f_equal.
    + repeat case_match; f_equal; lia.
    + rewrite !length_cons, length_app. cbn [length]. unfold uwrap.
      rewrite Z.add_mod_idemp_l by lia. f_equal. lia.
Qed.

Lemma UpdateTopicMap_other m topic topic' ts :
  topic ≠ topic' → UpdateTopicMap m topic ts !! topic' = m !! topic'.
Proof. intros. unfold UpdateTopicMap. case_match; by rewrite lookup_insert_ne. Qed.

Lemma times_snoc f topic as_ a :
  times f topic (as_ ++ [a]) = times f topic as_ ++ times f topic [a].
Proof. apply omap_app. Qed.

Lemma report_snoc len id st as_ a :
  report len id st (as_ ++ [a]) = contribute len a (report len id st as_).
Proof. unfold report. by rewrite foldl_app. Qed.

(** The discard map after one more anomaly. *)
Lemma contribute_DiscardTopicMap len a i :
  DiscardTopicMap (contribute len a i) =
    match discard_of a with
    | Some (topic, ts) => UpdateTopicMap (DiscardTopicMap i) topic ts
    | None => DiscardTopicMap i
    end.
Proof. destruct a, i; cbn; repeat case_match; done. Qed.

(** ** The report lists *)

Record lists_ok (len : nat) (i : TInfo) : Prop := {
  lo_malformed : NoDup (MalformedMsgs i) ∧ (length (MalformedMsgs i) ≤ MAX_MALFORMED_MSGS)%nat ∧
    Forall (λ s, (length s ≤ len)%nat) (MalformedMsgs i);
  lo_unix : NoDup (UnixStreamUncleanDisconnectMsgs i) ∧
    (length (UnixStreamUncleanDisconnectMsgs i) ≤ MAX_UNCLEAN_DISCONNECT_MSGS)%nat ∧
    Forall (λ s, (length s ≤ len)%nat) (UnixStreamUncleanDisconnectMsgs i);
  lo_tcp : NoDup (TcpUncleanDisconnectMsgs i) ∧
    (length (TcpUncleanDisconnectMsgs i) ≤ MAX_UNCLEAN_DISCONNECT_MSGS)%nat ∧
    Forall (λ s, (length s ≤ len)%nat) (TcpUncleanDisconnectMsgs i);
  lo_long : NoDup (LongMsgs i) ∧ (length (LongMsgs i) ≤ MAX_LONG_MSGS)%nat ∧
    Forall (λ s, (length s ≤ len)%nat) (LongMsgs i);
  lo_bad : NoDup (BadTopics i) ∧ (length (BadTopics i) ≤ MAX_BAD_TOPICS)%nat
}.

Lemma lists_ok_new len id st : lists_ok len (TInfo_new id st).
Proof. split; cbn; repeat split; try constructor; unfold MAX_MALFORMED_MSGS,
  MAX_UNCLEAN_DISCONNECT_MSGS, MAX_LONG_MSGS, MAX_BAD_TOPICS; lia. Qed.

Lemma lru_prefix_ok len s l n :
  (0 < n)%nat → NoDup l ∧ (length l ≤ n)%nat ∧ Forall (λ s, (length s ≤ len)%nat) l →
  NoDup (UpdateLruList (take (length s `min` len) s) l n) ∧
  (length (UpdateLruList (take (length s `min` len) s) l n) ≤ n)%nat ∧
  Forall (λ s, (length s ≤ len)%nat) (UpdateLruList (take (length s `min` len) s) l n).
Proof.
  intros Hn (Hnd & Hl & HP).
  destruct (UpdateLruList_NoDup (take (length s `min` len) s) l n Hnd Hl Hn) as [Hn' Hl'].
  split; [done |]. split; [done |]. apply UpdateLruList_Forall; [done | done | done | | done].
  rewrite length_take. lia.
Qed.

Lemma lists_ok_contribute len a i : lists_ok len i → lists_ok len (contribute len a i).
Proof.
  intros [H1 H2 H3 H4 H5].
  destruct a, i; cbn in *; repeat case_match; split; cbn; try done;
    try (apply lru_prefix_ok; [by vm_compute; lia | done]);
    apply UpdateLruList_NoDup; try done; try apply H5; vm_compute; lia.
Qed.

(** ** The passage of time *)

Lemma AdvanceReportPeriod_const now t :
  ReportInterval (AdvanceReportPeriod now t) = ReportInterval t ∧
  MaxMsgPrefixLen (AdvanceReportPeriod now t) = MaxMsgPrefixLen t.
Proof. unfold AdvanceReportPeriod. repeat case_decide; done. Qed.

Lemma AdvanceReportPeriod_log now e t :
  AdvanceReportPeriod now (with_log e t) = with_log e (AdvanceReportPeriod now t).
Proof. destruct t. unfold AdvanceReportPeriod, with_log. cbn. repeat case_decide; done. Qed.

(** Every tracking function first rolls the period, then contributes. *)
Lemma track_eq now a t :
  a ≠ ACheckRate →
  FillingReport (track now a t) =
    contribute (MaxMsgPrefixLen t) a (FillingReport (AdvanceReportPeriod now t)) ∧
  LastFullReport (track now a t) = LastFullReport (AdvanceReportPeriod now t) ∧
  ReportInterval (track now a t) = ReportInterval t ∧
  MaxMsgPrefixLen (track now a t) = MaxMsgPrefixLen t.
Proof.
  intros Ha. destruct (AdvanceReportPeriod_const now t) as [HI HL].
  destruct a as [| | | | | | | | | | |]; try done; cbn [track];
    unfold TrackDiscard, TrackDuplicate, TrackNoMemDiscard, TrackMalformedMsgDiscard,
      TrackStreamClientUncleanDisconnect, TrackUnsupportedApiKeyDiscard,
      TrackUnsupportedMsgVersionDiscard, TrackBadTopicDiscard, TrackBadTopicDiscard_msg,
      TrackLongMsgDiscard_buf;
    rewrite ?AdvanceReportPeriod_log; unfold contribute; try done.
  - case_decide; done.
  - destruct t. unfold GetInfo, AdvanceReportPeriod. cbn. repeat case_decide; done.
Qed.

Lemma track_ACheckRate now t :
  FillingReport (track now ACheckRate t) = FillingReport t ∧
  LastFullReport (track now ACheckRate t) = LastFullReport t ∧
  ReportInterval (track now ACheckRate t) = ReportInterval t ∧
  MaxMsgPrefixLen (track now ACheckRate t) = MaxMsgPrefixLen t.
Proof. cbn. unfold CheckGetInfoRate. repeat case_match; done. Qed.

(** The invariant of the source's assertions, with what bounds the reports. *)
Record anomaly_inv (len : nat) (t : TAnomalyTracker) : Prop := {
  ai_len : MaxMsgPrefixLen t = len;
  ai_filling : lists_ok len (FillingReport t);
  ai_last : ∀ r, LastFullReport t = Some r → lists_ok len r ∧
    ReportId (FillingReport t) = uwrap 64 (ReportId r + 1) ∧
    StartTime (FillingReport t) = uwrap 64 (StartTime r + ReportInterval t);
  ai_first : LastFullReport t = None → ReportId (FillingReport t) = 0
}.

Lemma anomaly_inv_new interval len now : anomaly_inv len (TAnomalyTracker_new interval len now).
Proof. split; cbn; [done | apply lists_ok_new | done | done]. Qed.

Lemma anomaly_inv_advance len now t :
  anomaly_inv len t → anomaly_inv len (AdvanceReportPeriod now t).
Proof.
  intros [H1 H2 H3 H4]. unfold AdvanceReportPeriod.
  repeat case_decide; split; cbn; auto using lists_ok_new; try congruence.
  - intros r [= <-]. auto.
  - intros r [= <-]. auto using lists_ok_new.
Qed.

Lemma contribute_ids len a i :
  ReportId (contribute len a i) = ReportId i ∧ StartTime (contribute len a i) = StartTime i.
Proof. destruct a, i; cbn; repeat case_match; done. Qed.

#[global] Instance anomaly_is_check_dec (a : anomaly) : Decision (a = ACheckRate).
Proof. destruct a; try (right; discriminate). by left. Defined.

Lemma anomaly_inv_track len now a t : anomaly_inv len t → anomaly_inv len (track now a t).
Proof.
  intros Ht. destruct (decide (a = ACheckRate)) as [-> | Ha].
  - destruct (track_ACheckRate now t) as (E1 & E2 & E3 & E4). destruct Ht.
    split; rewrite ?E1, ?E2, ?E3, ?E4; done.
  - destruct (track_eq now a t Ha) as (E1 & E2 & E3 & E4).
    pose proof (ai_len _ _ Ht) as HL. rewrite HL in E1, E4.
    apply (anomaly_inv_advance len now) in Ht as [H1 H2 H3 H4].
    destruct (AdvanceReportPeriod_const now t) as [EI _]. rewrite EI in H3.
    destruct (contribute_ids len a (FillingReport (AdvanceReportPeriod now t))) as [Eid Est].
    split; rewrite ?E1, ?E2, ?E3, ?E4, ?Eid, ?Est; auto using lists_ok_contribute.
Qed.

(** ** Exactness of the reports under a monotone clock *)

Fixpoint monotone (from : Z) (evs : list (Z * anomaly)) : Prop :=
  match evs with
  | [] => True
  | (now, _) :: evs => from ≤ now < 2 ^ 64 ∧ monotone now evs
  end.

(** The time after a history. *)
Definition last_time (from : Z) (evs : list (Z * anomaly)) : Z := foldl (λ _ e, e.1) from evs.

Section exactness.
Context (interval t0 : Z) (len : nat).
Hypothesis Hint : 0 < interval.
Hypothesis Hint' : interval < 2 ^ 64.
Hypothesis Ht0 : 0 ≤ t0.

Definition period (now : Z) : Z := (now - t0) `div` interval.

Definition in_period (p : Z) (evs : list (Z * anomaly)) : list anomaly :=
  snd <$> filter (λ e : Z * anomaly, period e.1 = p) evs.

Definition period_report (evs : list (Z * anomaly)) (p : Z) : TInfo :=
  report len p (t0 + p * interval) (in_period p evs).

Record exact (evs : list (Z * anomaly)) (now : Z) (t : TAnomalyTracker) : Prop := {
  ex_interval : ReportInterval t = interval;
  ex_len : MaxMsgPrefixLen t = len;
  ex_now : t0 ≤ now < 2 ^ 64;
  ex_past : Forall (λ e : Z * anomaly, period e.1 ≤ period now) evs;
  ex_filling : FillingReport t = period_report evs (period now);
  ex_last : LastFullReport t =
    if decide (period now = 0) then None else Some (period_report evs (period now - 1))
}.

Lemma period_report_ids evs p :
  ReportId (period_report evs p) = p ∧ StartTime (period_report evs p) = t0 + p * interval.
Proof.
  unfold period_report, report. induction (in_period p evs) as [| a l IH] using rev_ind; [done |].
  rewrite foldl_app. cbn [foldl].
  by destruct (contribute_ids len a (foldl (λ i a, contribute len a i)
    (TInfo_new p (t0 + p * interval)) l)) as [-> ->].
Qed.

Lemma in_period_future evs p q :
  Forall (λ e : Z * anomaly, period e.1 ≤ p) evs → p < q → in_period q evs = [].
Proof.
  intros Hp Hq. unfold in_period. induction Hp as [| e evs He Hp IH]; [done |].
  rewrite filter_cons, decide_False by lia. done.
Qed.

Lemma period_mono a b : a ≤ b → period a ≤ period b.
Proof. intros. unfold period. apply Z.div_le_mono; lia. Qed.

Lemma period_offset now now' :
  t0 ≤ now → now ≤ now' →
  t0 + period now * interval ≤ now' ∧ 0 ≤ period now ∧
  (now' - (t0 + period now * interval)) `div` interval = period now' - period now.
Proof.
  intros H0 Hle. unfold period.
  pose proof (Z.mul_div_le (now - t0) interval Hint).
  split; [lia |]. split; [apply Z.div_pos; lia |].
  replace (now' - _) with ((now' - t0) + (- ((now - t0) `div` interval)) * interval) by lia.
  rewrite Z.div_add by lia. lia.
Qed.

Lemma period_start_le now : t0 ≤ now → t0 + period now * interval ≤ now.
Proof. intros. by apply (period_offset now now). Qed.

Lemma exact_advance evs now now' t :
  exact evs now t → now ≤ now' < 2 ^ 64 → exact evs now' (AdvanceReportPeriod now' t).
Proof.
  intros [HI HL Hnow Hpast Hf Hl] Hn'.
  destruct (period_report_ids evs (period now)) as [Eid Est].
  destruct (period_offset now now') as (Hst & Hp0 & Hoff); [lia | lia |].
  pose proof (period_start_le now' ltac:(lia)) as Hst'.
  assert (Hmono := period_mono now now' ltac:(lia)).
  assert (Hpast' : Forall (λ e : Z * anomaly, period e.1 ≤ period now') evs)
    by (eapply Forall_impl; [done |]; cbn; lia).
  assert (Hle : period now' ≤ period now' * interval) by nia.
  assert (Hadv := AdvanceReportPeriod_const now' t).
  split; [by rewrite <- HI; apply Hadv | by rewrite <- HL; apply Hadv | lia | done | |];
    unfold AdvanceReportPeriod; rewrite HI, Hf, Eid, Est, decide_False by lia;
    replace (t0 + period now * interval <=? now') with true by (symmetry; lia); rewrite Hoff;
    destruct (decide (period now' - period now = 0)) as [E | E];
      try (replace (period now') with (period now) by lia; done);
    destruct (decide (period now' - period now = 1)) as [E' | E']; cbn [FillingReport LastFullReport].
  - unfold period_report. rewrite (in_period_future _ (period now)) by (done || lia).
    cbn. rewrite !uwrap_small by (unfold in_u; nia). f_equal; nia.
  - unfold period_report. rewrite (in_period_future _ (period now)) by (done || lia).
    cbn. rewrite !uwrap_small; unfold in_u; try (rewrite ?uwrap_small; unfold in_u; nia).
    f_equal; nia.
  - rewrite decide_False by lia. do 2 f_equal. lia.
  - rewrite decide_False by lia. unfold period_report.
    rewrite (in_period_future _ (period now)) by (done || lia).
    cbn. rewrite !uwrap_small by (unfold in_u; nia). do 2 f_equal; nia.
Qed.
Lemma exact_track evs now now' a t :
  exact evs now t → now ≤ now' < 2 ^ 64 → a ≠ ACheckRate →
  exact (evs ++ [(now', a)]) now' (track now' a t).
Proof.
  intros Ht Hn' Ha. pose proof (ex_len _ _ _ Ht) as HL. pose proof (ex_interval _ _ _ Ht) as HI.
  apply (exact_advance _ _ now') in Ht; [| done].
  destruct Ht as [_ _ Hnow Hpast Hf Hl].
  destruct (track_eq now' a t Ha) as (E1 & E2 & E3 & E4).
  assert (Hin : ∀ p, in_period p (evs ++ [(now', a)]) =
    in_period p evs ++ if decide (period now' = p) then [a] else []).
  { intros p. unfold in_period. rewrite filter_app, fmap_app. f_equal.
    rewrite filter_cons, filter_nil. cbn [fst]. destruct (decide (period now' = p)); done. }
  split; [congruence | congruence | done | | |].
  - apply Forall_app. split; [done |]. by repeat constructor.
  - rewrite E1, Hf, HL. unfold period_report. rewrite Hin, decide_True by done.
    by rewrite report_snoc.
  - rewrite E2, Hl. destruct (decide (period now' = 0)); [done |]. unfold period_report.
    rewrite Hin, decide_False by lia. by rewrite app_nil_r.
Qed.

Lemma exact_new : t0 < 2 ^ 64 → exact [] t0 (TAnomalyTracker_new interval len t0).
Proof.
  intros. assert (E : period t0 = 0) by (unfold period; by rewrite Z.sub_diag, Z.div_0_l by lia).
  split; cbn; rewrite ?E; try done.
  unfold period_report, report. cbn. by rewrite Z.add_0_r.
Qed.

Lemma exact_run evs past now t :
  exact past now t → monotone now evs → Forall (λ e, e.2 ≠ ACheckRate) evs →
  exact (past ++ evs) (last_time now evs) (run t evs).
Proof.
  revert past now t. induction evs as [| [n a] evs IH]; intros past now t Ht Hm Hc.
  - by rewrite app_nil_r.
  - destruct Hm as [Hn Hm]. apply Forall_cons in Hc as [Ha Hc]. cbn.
    replace (past ++ (n, a) :: evs) with ((past ++ [(n, a)]) ++ evs) by by rewrite <- app_assoc.
    apply IH; [| done | done]. by apply (exact_track _ now).
Qed.
End exactness.

(** C40: a reporting period loses and invents nothing.  With a clock that does
    not go backwards, after any history of anomalies and queries the report
    being filled is the report of exactly the anomalies of the current period,
    under that period's number and start time; the last full report is that of
    the previous period (none in the first period), whether the period was
    rolled by one or by several at once. *)
Theorem anomaly_reports_exact interval t0 len evs :
  0 < interval < 2 ^ 64 → 0 ≤ t0 < 2 ^ 64 → monotone t0 evs →
  Forall (λ e, e.2 ≠ ACheckRate) evs →
  let t := run (TAnomalyTracker_new interval len t0) evs in
  let p := period interval t0 (last_time t0 evs) in
  FillingReport t = period_report interval t0 len evs p ∧
  LastFullReport t =
    if decide (p = 0) then None else Some (period_report interval t0 len evs (p - 1)).
Proof.
  intros Hi Ht0 Hm Hc.
  destruct (exact_run interval t0 len ltac:(lia) ltac:(lia) ltac:(lia) evs [] t0
    (TAnomalyTracker_new interval len t0)); [apply exact_new; lia | done | done | done].
Qed.

(** What a report says of a topic.  The entry of a topic in the discard
    map holds the number of discards of that topic (as a [size_t]) and their
    earliest and latest timestamps; a topic has an entry exactly when it was
    discarded.  The list of malformed messages holds the 25 most recently seen
    distinct prefixes, newest first. *)
Theorem report_contents len id start as_ :
  (∀ topic, DiscardTopicMap (report len id start as_) !! topic =
     summary (times discard_of topic as_)) ∧
  MalformedMsgs (report len id start as_) =
    take MAX_MALFORMED_MSGS (recency (reverse (omap (λ a,
      match a with
      | AMalformed msg => Some (take (length msg `min` len) msg)
      | _ => None
      end) as_))).
Proof.
  split.
  - intros topic. induction as_ as [| a l IH] using rev_ind; [done |].
    rewrite report_snoc, times_snoc, contribute_DiscardTopicMap. unfold times at 2. cbn.
    destruct (discard_of a) as [[tp ts] |]; cbn; [| by rewrite app_nil_r].
    case_decide as E; [subst; by apply UpdateTopicMap_summary |].
    by rewrite UpdateTopicMap_other, app_nil_r.
  - rewrite <- UpdateLruList_recency by (unfold MAX_MALFORMED_MSGS; lia).
    induction as_ as [| a l IH] using rev_ind; [done |].
    rewrite report_snoc, omap_app, reverse_app, foldr_app, <- IH.
    destruct a, (report len id start l); cbn; repeat case_match; done.
Qed.

(** The assertions of the anomaly tracker hold and its lists are bounded,
    whatever the clock does.  At every reachable state the first report is the
    only one without a predecessor (the assertion of [AdvanceReportPeriod]),
    every least-recently-used list is within its maximum size (the assertion
    of [UpdateLruList]) and free of duplicates, stored prefixes respect the
    configured length, and the two reports are consecutive. *)
Theorem anomaly_tracker_invariant interval len t0 evs :
  anomaly_inv len (run (TAnomalyTracker_new interval len t0) evs).
Proof.
  unfold run. induction evs as [| e evs IH] using rev_ind; [apply anomaly_inv_new |].
  rewrite foldl_app. by apply anomaly_inv_track.
Qed.

Definition ex_evs : list (Z * anomaly) :=
  [(1000, AMalformed [x01; x02]); (1005, ANoMem 7 [x61] [] []); (1015, ANoMem 3 [x61] [] []);
   (1019, AMalformed [x03]); (1021, AQuery)].

Lemma anomaly_reports_exact_witness :
  LastFullReport (run (TAnomalyTracker_new 10 2 1000) ex_evs) =
    Some (period_report 10 1000 2 ex_evs 1).
Proof.
  destruct (anomaly_reports_exact 10 1000 2 ex_evs) as [_ ->]; [lia | lia | | | done].
  - cbn. lia.
  - by repeat constructor.
Defined.

(** [TrackLongMsgDiscard] reads exactly the value of a live message. *)
Lemma TrackLongMsgDiscard_ok now p free lv1 l lv2 msg key value t :
  heap_rep p free (lv1 ++ l :: lv2) → KeyAndValue msg = l_blob l → l_bytes l = key ++ value →
  KeySize msg = Z.of_nat (length key) →
  TrackLongMsgDiscard now p msg t =
    (Ret (), TrackLongMsgDiscard_buf now msg
               (String.list_byte_of_string (Topic msg) ++ [x20] ++ value) t).
Proof.
  intros Hh Hb Hlb Hk. unfold TrackLongMsgDiscard.
  destruct (Read_twice p free lv1 l lv2 (length key) (length value) Hh) as (r1 & r2 & H1 & H2).
  { rewrite Hlb, length_app. lia. }
  rewrite decide_True in H2 by (rewrite Hlb, length_app; lia).
  rewrite Hlb, take_app_length in H1. rewrite Hlb, drop_app_length, take_ge in H2 by lia.
  assert (Z.to_nat (GetValueSize msg) = length value) as ->.
  { unfold GetValueSize. rewrite Hb, Hk. destruct Hh as [_ [_ [Hl _]%Forall_cons]%Forall_app].
    rewrite (blob_size _ _ _ _ Hl), Hlb, length_app. lia. }
  rewrite Hk, Nat2Z.id, Hb. unfold Skip. unfold Read in H1. munfold. by rewrite H1, H2.
Qed.
