(* ===== verification/InputDg.v ===== *)
(** * Input datagrams (dory/input_dg, dory/client/libdory_client.c)

    The datagrams clients send: the client library's writers, and the server's
    readers that turn a datagram into a message or a tracked discard.  A
    datagram is its bytes; positions are offsets from its first byte, and a
    read outside it is a fault.  Log output is not modelled; the counters are
    the sequence of their increments, newest first. *)
From S2P Require Import Prelude FieldAccess Capped Msg AnomalyTracker.

(** ** Field sizes (input_dg_constants.h and the v0 constants) *)

Definition INPUT_DG_SZ_FIELD_SIZE : Z := 4.
Definition INPUT_DG_API_KEY_FIELD_SIZE : Z := 2.
Definition INPUT_DG_API_VERSION_FIELD_SIZE : Z := 2.

Definition INPUT_DG_ANY_P_V0_FLAGS_FIELD_SIZE : Z := 2.
Definition INPUT_DG_ANY_P_V0_TOPIC_SZ_FIELD_SIZE : Z := 2.
Definition INPUT_DG_ANY_P_V0_TS_FIELD_SIZE : Z := 8.
Definition INPUT_DG_ANY_P_V0_KEY_SZ_FIELD_SIZE : Z := 4.
Definition INPUT_DG_ANY_P_V0_VALUE_SZ_FIELD_SIZE : Z := 4.

Definition INPUT_DG_P_KEY_V0_FLAGS_FIELD_SIZE : Z := 2.
Definition INPUT_DG_P_KEY_V0_PARTITION_KEY_FIELD_SIZE : Z := 4.
Definition INPUT_DG_P_KEY_V0_TOPIC_SZ_FIELD_SIZE : Z := 2.
Definition INPUT_DG_P_KEY_V0_TS_FIELD_SIZE : Z := 8.
Definition INPUT_DG_P_KEY_V0_KEY_SZ_FIELD_SIZE : Z := 4.
Definition INPUT_DG_P_KEY_V0_VALUE_SZ_FIELD_SIZE : Z := 4.

(** Status codes of the client library (status_codes.h). *)
Definition DORY_OK : Z := 0.
Definition DORY_BUF_TOO_SMALL : Z := -1.
Definition DORY_TOPIC_TOO_LARGE : Z := -2.
Definition DORY_MSG_TOO_LARGE : Z := -3.

(** ** Writers

    Sizes are [size_t]; a writer returns the bytes it stores from [result_buf]
    on, or nothing when it stops on [assert(0)]. *)

Definition any_p_get_msg_overhead : Z :=
  INPUT_DG_SZ_FIELD_SIZE + INPUT_DG_API_KEY_FIELD_SIZE + INPUT_DG_API_VERSION_FIELD_SIZE +
  INPUT_DG_ANY_P_V0_FLAGS_FIELD_SIZE + INPUT_DG_ANY_P_V0_TOPIC_SZ_FIELD_SIZE +
  INPUT_DG_ANY_P_V0_TS_FIELD_SIZE + INPUT_DG_ANY_P_V0_KEY_SZ_FIELD_SIZE +
  INPUT_DG_ANY_P_V0_VALUE_SZ_FIELD_SIZE.

Definition input_dg_any_p_v0_check_msg_size (topic_size key_size value_size : Z) : Z :=
  if INT16_MAX <? topic_size then DORY_TOPIC_TOO_LARGE else
  let key_value_space := uwrap 64 (uwrap 64 (INT32_MAX - any_p_get_msg_overhead) - topic_size) in
  if (key_value_space <? key_size) || (uwrap 64 (key_value_space - key_size) <? value_size)
  then DORY_MSG_TOO_LARGE else DORY_OK.

Definition any_p_do_compute_msg_size (topic_size key_size value_size : Z) : Z :=
  uwrap 64 (any_p_get_msg_overhead + topic_size + key_size + value_size).

(** The status and [*result]. *)
Definition input_dg_any_p_v0_compute_msg_size (topic_size key_size value_size : Z) : Z * Z :=
  let ret := input_dg_any_p_v0_check_msg_size topic_size key_size value_size in
  if decide (ret ≠ DORY_OK) then (ret, 0)
  else (DORY_OK, any_p_do_compute_msg_size topic_size key_size value_size).

Definition input_dg_any_p_v0_write_msg (timestamp : Z) (topic key value : list byte)
    : option (list byte) :=
  let topic_size := Z.of_nat (length topic) in
  let key_size := Z.of_nat (length key) in
  let value_size := Z.of_nat (length value) in
  let '(ret, msg_size) := input_dg_any_p_v0_compute_msg_size topic_size key_size value_size in
  if decide (ret ≠ DORY_OK) then None else
  Some (WriteInt32ToHeader (swrap 32 msg_size) ++
        WriteInt16ToHeader 256 ++
        WriteInt16ToHeader 0 ++
        WriteInt16ToHeader 0 ++
        WriteInt16ToHeader (swrap 16 topic_size) ++
        topic ++
        WriteInt64ToHeader timestamp ++
        WriteInt32ToHeader (swrap 32 key_size) ++
        key ++
        WriteInt32ToHeader (swrap 32 value_size) ++
        value).

Definition p_key_get_msg_overhead : Z :=
  INPUT_DG_SZ_FIELD_SIZE + INPUT_DG_API_KEY_FIELD_SIZE + INPUT_DG_API_VERSION_FIELD_SIZE +
  INPUT_DG_P_KEY_V0_FLAGS_FIELD_SIZE + INPUT_DG_P_KEY_V0_PARTITION_KEY_FIELD_SIZE +
  INPUT_DG_P_KEY_V0_TOPIC_SZ_FIELD_SIZE + INPUT_DG_P_KEY_V0_TS_FIELD_SIZE +
  INPUT_DG_P_KEY_V0_KEY_SZ_FIELD_SIZE + INPUT_DG_P_KEY_V0_VALUE_SZ_FIELD_SIZE.

Definition input_dg_p_key_v0_check_msg_size (topic_size key_size value_size : Z) : Z :=
  if INT16_MAX <? topic_size then DORY_TOPIC_TOO_LARGE else
  let key_value_space := uwrap 64 (uwrap 64 (INT32_MAX - p_key_get_msg_overhead) - topic_size) in
  if (key_value_space <? key_size) || (uwrap 64 (key_value_space - key_size) <? value_size)
  then DORY_MSG_TOO_LARGE else DORY_OK.

Definition p_key_do_compute_msg_size (topic_size key_size value_size : Z) : Z :=
  uwrap 64 (p_key_get_msg_overhead + topic_size + key_size + value_size).

Definition input_dg_p_key_v0_compute_msg_size (topic_size key_size value_size : Z) : Z * Z :=
  let ret := input_dg_p_key_v0_check_msg_size topic_size key_size value_size in
  if decide (ret ≠ DORY_OK) then (ret, 0)
  else (DORY_OK, p_key_do_compute_msg_size topic_size key_size value_size).

Definition input_dg_p_key_v0_write_msg (timestamp partition_key : Z)
    (topic key value : list byte) : option (list byte) :=
  let topic_size := Z.of_nat (length topic) in
  let key_size := Z.of_nat (length key) in
  let value_size := Z.of_nat (length value) in
  let '(ret, msg_size) := input_dg_p_key_v0_compute_msg_size topic_size key_size value_size in
  if decide (ret ≠ DORY_OK) then None else
  Some (WriteInt32ToHeader (swrap 32 msg_size) ++
        WriteInt16ToHeader 257 ++
        WriteInt16ToHeader 0 ++
        WriteInt16ToHeader 0 ++
        WriteInt32ToHeader partition_key ++
        WriteInt16ToHeader (swrap 16 topic_size) ++
        topic ++
        WriteInt64ToHeader timestamp ++
        WriteInt32ToHeader (swrap 32 key_size) ++
        key ++
        WriteInt32ToHeader (swrap 32 value_size) ++
        value).

(** ** The client library

    [topic] is the memory at the C string's address; the caller's buffer is
    [out_buf].  A result is the status and the buffer; faults are reads or
    writes outside what the caller passed, and failed assertions. *)

Definition strlen (s : list byte) : option nat := fst <$> list_find (x00 =.) s.

Definition store (bytes : list byte) : M Empty_set (list byte) () :=
  buf ← get;
  if decide (length bytes ≤ length buf)%nat
  then modify (λ buf, bytes ++ drop (length bytes) buf)
  else crash OutOfBounds.

Definition dory_find_any_partition_msg_size := input_dg_any_p_v0_compute_msg_size.

Definition dory_find_partition_key_msg_size := input_dg_p_key_v0_compute_msg_size.

Definition dory_write_any_partition_msg (topic : list byte) (timestamp : Z)
    (key value : list byte) : M Empty_set (list byte) Z :=
  topic_len ← need OutOfBounds (strlen topic);
  let '(ret, dg_size) := dory_find_any_partition_msg_size (Z.of_nat topic_len)
                           (Z.of_nat (length key)) (Z.of_nat (length value)) in
  if decide (ret ≠ DORY_OK) then mret ret else
  out_buf_size ← gets (λ buf, Z.of_nat (length buf));
  if out_buf_size <? dg_size then mret DORY_BUF_TOO_SMALL else
  bytes ← need AssertFailed
            (input_dg_any_p_v0_write_msg timestamp (take topic_len topic) key value);
  store bytes;;
  mret DORY_OK.

Definition dory_write_partition_key_msg (partition_key : Z) (topic : list byte) (timestamp : Z)
    (key value : list byte) : M Empty_set (list byte) Z :=
  topic_len ← need OutOfBounds (strlen topic);
  let '(ret, dg_size) := dory_find_partition_key_msg_size (Z.of_nat topic_len)
                           (Z.of_nat (length key)) (Z.of_nat (length value)) in
  if decide (ret ≠ DORY_OK) then mret ret else
  out_buf_size ← gets (λ buf, Z.of_nat (length buf));
  if out_buf_size <? dg_size then mret DORY_BUF_TOO_SMALL else
  bytes ← need AssertFailed
            (input_dg_p_key_v0_write_msg timestamp partition_key (take topic_len topic) key value);
  store bytes;;
  mret DORY_OK.

(** ** The server's side *)

(** The counters of the input agents' datagram code. *)
Inductive input_counter :=
| InputAgentDiscardMsgUnsupportedApiKey
| InputAgentDiscardMsgMalformed
| InputAgentDiscardMsgNoMem
| InputAgentDiscardAnyPartitionMsgUnsupportedApiVersion
| InputAgentProcessAnyPartitionMsg
| InputAgentDiscardPartitionKeyMsgUnsupportedApiVersion
| InputAgentProcessPartitionKeyMsg.

(** What the readers share: the pool and message state tracker, the anomaly
    tracker, and the counters. *)
Record TInput := mkInput {
  in_creator : creator_state;
  in_anomaly : TAnomalyTracker;
  in_counters : list input_counter
}.

Definition IM := M exn TInput.

Definition Increment (c : input_counter) : IM () :=
  modify (λ w, mkInput (in_creator w) (in_anomaly w) (c :: in_counters w)).

Definition on_anomaly (f : TAnomalyTracker → TAnomalyTracker) : IM () :=
  modify (λ w, mkInput (in_creator w) (f (in_anomaly w)) (in_counters w)).

Definition on_creator {A} (m : M exn creator_state A) : IM A :=
  zoom in_creator (λ c w, mkInput c (in_anomaly w) (in_counters w)) m.

(** The bytes from offset [pos] on, and [n] bytes at [pos]. *)
Definition at_ (dg : list byte) (pos : Z) : list byte := drop (Z.to_nat pos) dg.

Definition slice (dg : list byte) (pos n : Z) : option (list byte) :=
  if decide (0 ≤ pos ∧ 0 ≤ n ∧ pos + n ≤ Z.of_nat (length dg))
  then Some (take (Z.to_nat n) (at_ dg pos)) else None.

Section server.
(** [now]: the anomaly tracker's clock; [mono]: the monotonic raw clock. *)
Context (now mono : Z).

Definition DiscardMalformedMsg (msg : list byte) : IM () :=
  on_anomaly (TrackMalformedMsgDiscard now msg);;
  Increment InputAgentDiscardMsgMalformed.

Definition DiscardMsgNoMem (timestamp : Z) (topic key value : list byte) : IM () :=
  on_anomaly (TrackNoMemDiscard now timestamp topic key value);;
  Increment InputAgentDiscardMsgNoMem.

Definition TryCreateAnyPartitionMsg (timestamp : Z) (topic key value : list byte)
    : IM (option TMsg) :=
  massert (0 <? Z.of_nat (length topic));;
  msg ← try_catch
          (m ← on_creator (CreateAnyPartitionMsg mono timestamp topic key value false);
           mret (Some m))
          (λ _, mret None);
  match msg with
  | None => DiscardMsgNoMem timestamp topic key value;; mret None
  | Some m => mret (Some m)
  end.

Definition TryCreatePartitionKeyMsg (partition_key timestamp : Z) (topic key value : list byte)
    : IM (option TMsg) :=
  massert (0 <? Z.of_nat (length topic));;
  msg ← try_catch
          (m ← on_creator (CreatePartitionKeyMsg mono partition_key timestamp topic key value false);
           mret (Some m))
          (λ _, mret None);
  match msg with
  | None => DiscardMsgNoMem timestamp topic key value;; mret None
  | Some m => mret (Some m)
  end.

(** Both v0 readers have the same code from the topic size on; [create] is the
    call they end with, [data_end] their [DataEnd]. *)
Definition BuildMsg_tail (dg : list byte) (pos data_end : Z)
    (create : Z → list byte → list byte → list byte → IM (option TMsg)) : IM (option TMsg) :=
  if data_end - pos <? INPUT_DG_ANY_P_V0_TOPIC_SZ_FIELD_SIZE
  then DiscardMalformedMsg dg;; mret None else
  topic_sz ← need OutOfBounds (ReadInt16FromHeader (at_ dg pos));
  if topic_sz <=? 0 then DiscardMalformedMsg dg;; mret None else
  let pos := pos + INPUT_DG_ANY_P_V0_TOPIC_SZ_FIELD_SIZE in
  if data_end - pos <? topic_sz then DiscardMalformedMsg dg;; mret None else
  topic ← need OutOfBounds (slice dg pos topic_sz);
  let pos := pos + topic_sz in
  if data_end - pos <? INPUT_DG_ANY_P_V0_TS_FIELD_SIZE
  then DiscardMalformedMsg dg;; mret None else
  ts ← need OutOfBounds (ReadInt64FromHeader (at_ dg pos));
  let pos := pos + INPUT_DG_ANY_P_V0_TS_FIELD_SIZE in
  if data_end - pos <? INPUT_DG_ANY_P_V0_KEY_SZ_FIELD_SIZE
  then DiscardMalformedMsg dg;; mret None else
  key_sz ← need OutOfBounds (ReadInt32FromHeader (at_ dg pos));
  if key_sz <? 0 then DiscardMalformedMsg dg;; mret None else
  let pos := pos + INPUT_DG_ANY_P_V0_KEY_SZ_FIELD_SIZE in
  if data_end - pos <? key_sz then DiscardMalformedMsg dg;; mret None else
  key ← need OutOfBounds (slice dg pos key_sz);
  let pos := pos + key_sz in
  if data_end - pos <? INPUT_DG_ANY_P_V0_VALUE_SZ_FIELD_SIZE
  then DiscardMalformedMsg dg;; mret None else
  value_sz ← need OutOfBounds (ReadInt32FromHeader (at_ dg pos));
  if value_sz <? 0 then DiscardMalformedMsg dg;; mret None else
  let pos := pos + INPUT_DG_ANY_P_V0_VALUE_SZ_FIELD_SIZE in
  if decide (data_end - pos ≠ value_sz) then DiscardMalformedMsg dg;; mret None else
  value ← need OutOfBounds (slice dg pos value_sz);
  create ts topic key value.

(** [AnyPartition::V0::TV0InputDgReader::BuildMsg], with the assertions of the
    reader's constructor. *)
Definition AnyPartition_BuildMsg (dg : list byte) (data_begin data_end : Z) : IM (option TMsg) :=
  massert ((0 <? data_begin) && (data_begin <=? data_end));;
  let pos := data_begin in
  if data_end - pos <? INPUT_DG_ANY_P_V0_FLAGS_FIELD_SIZE
  then DiscardMalformedMsg dg;; mret None else
  flags ← need OutOfBounds (ReadInt16FromHeader (at_ dg pos));
  if decide (flags ≠ 0) then DiscardMalformedMsg dg;; mret None else
  let pos := pos + INPUT_DG_ANY_P_V0_FLAGS_FIELD_SIZE in
  BuildMsg_tail dg pos data_end TryCreateAnyPartitionMsg.

(** [PartitionKey::V0::TV0InputDgReader::BuildMsg]. *)
Definition PartitionKey_BuildMsg (dg : list byte) (data_begin data_end : Z) : IM (option TMsg) :=
  massert ((0 <? data_begin) && (data_begin <=? data_end));;
  let pos := data_begin in
  if data_end - pos <? INPUT_DG_P_KEY_V0_FLAGS_FIELD_SIZE
  then DiscardMalformedMsg dg;; mret None else
  flags ← need OutOfBounds (ReadInt16FromHeader (at_ dg pos));
  if decide (flags ≠ 0) then DiscardMalformedMsg dg;; mret None else
  let pos := pos + INPUT_DG_P_KEY_V0_FLAGS_FIELD_SIZE in
  if data_end - pos <? INPUT_DG_P_KEY_V0_PARTITION_KEY_FIELD_SIZE
  then DiscardMalformedMsg dg;; mret None else
  partition_key ← need OutOfBounds (ReadInt32FromHeader (at_ dg pos));
  let pos := pos + INPUT_DG_P_KEY_V0_PARTITION_KEY_FIELD_SIZE in
  BuildMsg_tail dg pos data_end (TryCreatePartitionKeyMsg partition_key).

Definition BuildAnyPartitionMsgFromDg (dg : list byte) (api_version : Z)
    (versioned_part_begin versioned_part_end : Z) : IM (option TMsg) :=
  massert (0 <? versioned_part_begin);;
  massert (versioned_part_begin <? versioned_part_end);;
  Increment InputAgentProcessAnyPartitionMsg;;
  if decide (api_version = 0)
  then AnyPartition_BuildMsg dg versioned_part_begin versioned_part_end else
  on_anomaly (TrackUnsupportedMsgVersionDiscard now dg api_version);;
  Increment InputAgentDiscardAnyPartitionMsgUnsupportedApiVersion;;
  mret None.

Definition BuildPartitionKeyMsgFromDg (dg : list byte) (api_version : Z)
    (versioned_part_begin versioned_part_end : Z) : IM (option TMsg) :=
  massert (0 <? versioned_part_begin);;
  massert (versioned_part_begin <? versioned_part_end);;
  Increment InputAgentProcessPartitionKeyMsg;;
  if decide (api_version = 0)
  then PartitionKey_BuildMsg dg versioned_part_begin versioned_part_end else
  on_anomaly (TrackUnsupportedMsgVersionDiscard now dg api_version);;
  Increment InputAgentDiscardPartitionKeyMsgUnsupportedApiVersion;;
  mret None.

(** [BuildMsgFromDg]. *)
Definition BuildMsgFromDg (dg : list byte) : IM (option TMsg) :=
  let dg_size := Z.of_nat (length dg) in
  let fixed_part_size := INPUT_DG_SZ_FIELD_SIZE + INPUT_DG_API_KEY_FIELD_SIZE +
                         INPUT_DG_API_VERSION_FIELD_SIZE in
  if dg_size <? fixed_part_size then DiscardMalformedMsg dg;; mret None else
  sz ← need OutOfBounds (ReadInt32FromHeader dg);
  if (sz <? 0) || negb (uwrap 64 sz =? dg_size) then DiscardMalformedMsg dg;; mret None else
  api_key ← need OutOfBounds (ReadInt16FromHeader (at_ dg INPUT_DG_SZ_FIELD_SIZE));
  let key_part_size := INPUT_DG_SZ_FIELD_SIZE + INPUT_DG_API_KEY_FIELD_SIZE in
  api_version ← need OutOfBounds (ReadInt16FromHeader (at_ dg key_part_size));
  let versioned_part_begin := fixed_part_size in
  let versioned_part_end := versioned_part_begin + (dg_size - fixed_part_size) in
  if decide (api_key = 256) then
    BuildAnyPartitionMsgFromDg dg api_version versioned_part_begin versioned_part_end
  else if decide (api_key = 257) then
    BuildPartitionKeyMsgFromDg dg api_version versioned_part_begin versioned_part_end
  else
    on_anomaly (TrackUnsupportedApiKeyDiscard now dg api_key);;
    Increment InputAgentDiscardMsgUnsupportedApiKey;;
    mret None.
End server.

(** ** What a datagram says

    The formats as a grammar: [classify] reads a datagram without positions,
    bounds checks or effects. *)

Definition int16 (l : list byte) : option (Z * list byte) :=
  v ← ReadInt16FromHeader l; Some (v, drop 2 l).

Definition int32 (l : list byte) : option (Z * list byte) :=
  v ← ReadInt32FromHeader l; Some (v, drop 4 l).

Definition int64 (l : list byte) : option (Z * list byte) :=
  v ← ReadInt64FromHeader l; Some (v, drop 8 l).

Definition chunk (n : Z) (l : list byte) : option (list byte * list byte) :=
  if decide (0 ≤ n ≤ Z.of_nat (length l))
  then Some (take (Z.to_nat n) l, drop (Z.to_nat n) l) else None.

Record content := mkContent {
  c_topic : list byte; c_ts : Z; c_key : list byte; c_value : list byte
}.

Definition parse_tail (l : list byte) : option content :=
  '(topic_sz, l) ← int16 l;
  guard (0 < topic_sz);;
  '(topic, l) ← chunk topic_sz l;
  '(ts, l) ← int64 l;
  '(key_sz, l) ← int32 l;
  '(key, l) ← chunk key_sz l;
  '(value_sz, l) ← int32 l;
  guard (value_sz = Z.of_nat (length l));;
  Some (mkContent topic ts key l).

Inductive dg_class :=
| Malformed
| UnsupportedApiKey (api_key : Z)
| UnsupportedVersion (rt : TRoutingType) (version : Z)
| EmptyVersionedPart (rt : TRoutingType)
| Content (rt : TRoutingType) (partition_key : Z) (c : content)
| BadContent (rt : TRoutingType).

Definition parse_any (l : list byte) : dg_class :=
  match '(flags, l) ← int16 l; guard (flags = 0);; parse_tail l with
  | Some c => Content AnyPartition 0 c
  | None => BadContent AnyPartition
  end.

Definition parse_pkey (l : list byte) : dg_class :=
  match '(flags, l) ← int16 l; guard (flags = 0);;
        '(pk, l) ← int32 l; c ← parse_tail l; Some (pk, c) with
  | Some (pk, c) => Content PartitionKey pk c
  | None => BadContent PartitionKey
  end.

Definition classify (dg : list byte) : dg_class :=
  match '(sz, l) ← int32 dg; '(api_key, l) ← int16 l; '(version, l) ← int16 l;
        guard (sz = Z.of_nat (length dg));; Some (api_key, version, l) with
  | None => Malformed
  | Some (api_key, version, l) =>
      if decide (api_key = 256) then
        match l with
        | [] => EmptyVersionedPart AnyPartition
        | _ => if decide (version = 0) then parse_any l else UnsupportedVersion AnyPartition version
        end
      else if decide (api_key = 257) then
        match l with
        | [] => EmptyVersionedPart PartitionKey
        | _ => if decide (version = 0) then parse_pkey l else UnsupportedVersion PartitionKey version
        end
      else UnsupportedApiKey api_key
  end.

(** What the server does with each kind of datagram. *)
Definition ProcessCounter (rt : TRoutingType) : input_counter :=
  match rt with
  | AnyPartition => InputAgentProcessAnyPartitionMsg
  | PartitionKey => InputAgentProcessPartitionKeyMsg
  end.

Definition VersionCounter (rt : TRoutingType) : input_counter :=
  match rt with
  | AnyPartition => InputAgentDiscardAnyPartitionMsgUnsupportedApiVersion
  | PartitionKey => InputAgentDiscardPartitionKeyMsgUnsupportedApiVersion
  end.

Definition TryCreate (now mono : Z) (rt : TRoutingType) (pk : Z) (c : content) : IM (option TMsg) :=
  match rt with
  | AnyPartition => TryCreateAnyPartitionMsg now mono (c_ts c) (c_topic c) (c_key c) (c_value c)
  | PartitionKey =>
      TryCreatePartitionKeyMsg now mono pk (c_ts c) (c_topic c) (c_key c) (c_value c)
  end.

Definition react (now mono : Z) (dg : list byte) (cl : dg_class) : IM (option TMsg) :=
  match cl with
  | Malformed => DiscardMalformedMsg now dg;; mret None
  | UnsupportedApiKey k =>
      on_anomaly (TrackUnsupportedApiKeyDiscard now dg k);;
      Increment InputAgentDiscardMsgUnsupportedApiKey;; mret None
  | UnsupportedVersion rt v =>
      Increment (ProcessCounter rt);;
      on_anomaly (TrackUnsupportedMsgVersionDiscard now dg v);;
      Increment (VersionCounter rt);; mret None
  | EmptyVersionedPart rt => crash AssertFailed
  | BadContent rt => Increment (ProcessCounter rt);; DiscardMalformedMsg now dg;; mret None
  | Content rt pk c => Increment (ProcessCounter rt);; TryCreate now mono rt pk c
  end.

(** ** The readers follow the grammar *)

Lemma at_plus dg pos n : 0 ≤ pos → 0 ≤ n → at_ dg (pos + n) = drop (Z.to_nat n) (at_ dg pos).
Proof. intros. unfold at_. rewrite drop_drop. f_equal. lia. Qed.

Lemma at_length dg pos :
  0 ≤ pos ≤ Z.of_nat (length dg) → Z.of_nat (length (at_ dg pos)) = Z.of_nat (length dg) - pos.
Proof. intros. unfold at_. rewrite length_drop. lia. Qed.

Section read_step.
Context {S A : Type} (dg : list byte) (pos : Z) (D : M exn S A) (w : S).
Hypothesis Hpos : 0 ≤ pos ≤ Z.of_nat (length dg).

Lemma step_int (rd : list byte → option Z) (n : nat) (k : Z → M exn S A) :
  (∀ l, (n ≤ length l)%nat → is_Some (rd l)) →
  (∀ l v, rd l = Some v → (n ≤ length l)%nat) →
  (if Z.of_nat (length dg) - pos <? Z.of_nat n then D
   else x ← need OutOfBounds (rd (at_ dg pos)); k x) w =
  match rd (at_ dg pos) with None => D w | Some v => k v w end.
Proof.
  intros H1 H2. pose proof (at_length dg pos Hpos) as Hl. case_match eqn:Hc.
  - destruct (rd _) eqn:Hr; [| done]. apply H2 in Hr. lia.
  - destruct (H1 (at_ dg pos)) as [v Hv]; [lia |]. munfold. by rewrite Hv.
Qed.

Lemma step_chunk n (k : list byte → M exn S A) :
  0 ≤ n →
  (if Z.of_nat (length dg) - pos <? n then D
   else x ← need OutOfBounds (slice dg pos n); k x) w =
  match chunk n (at_ dg pos) with None => D w | Some (c, _) => k c w end.
Proof.
  intros Hn. pose proof (at_length dg pos Hpos) as Hl. unfold chunk, slice. case_match eqn:Hc.
  - by rewrite decide_False by lia.
  - munfold. by rewrite !decide_True by lia.
Qed.
End read_step.

Lemma ReadInt16_length l v : ReadInt16FromHeader l = Some v → (2 ≤ length l)%nat.
Proof. intros H. apply (ReadInt16_Some _ _ H). Qed.

Lemma ReadInt32_length l v : ReadInt32FromHeader l = Some v → (4 ≤ length l)%nat.
Proof. intros H. apply (ReadInt32_Some _ _ H). Qed.

Lemma ReadInt64_length l v : ReadInt64FromHeader l = Some v → (8 ≤ length l)%nat.
Proof. intros H. apply (ReadInt64_Some _ _ H). Qed.

Ltac step16 H :=
  etrans; [apply (step_int _ _ _ _ H ReadInt16FromHeader 2 _ ReadInt16_is_Some ReadInt16_length) |].
Ltac step32 H :=
  etrans; [apply (step_int _ _ _ _ H ReadInt32FromHeader 4 _ ReadInt32_is_Some ReadInt32_length) |].
Ltac step64 H :=
  etrans; [apply (step_int _ _ _ _ H ReadInt64FromHeader 8 _ ReadInt64_is_Some ReadInt64_length) |].

(** Positions after a successful read. *)
Lemma after_read dg pos n :
  0 ≤ pos ≤ Z.of_nat (length dg) → (n ≤ length (at_ dg pos))%nat →
  drop n (at_ dg pos) = at_ dg (pos + Z.of_nat n) ∧ 0 ≤ pos + Z.of_nat n ≤ Z.of_nat (length dg).
Proof.
  intros Hp Hn. pose proof (at_length dg pos Hp). rewrite at_plus by lia.
  rewrite Nat2Z.id. split; [done | lia].
Qed.

Lemma after_chunk dg pos n c l :
  0 ≤ pos ≤ Z.of_nat (length dg) → chunk n (at_ dg pos) = Some (c, l) →
  l = at_ dg (pos + n) ∧ 0 ≤ pos + n ≤ Z.of_nat (length dg).
Proof.
  intros Hp. unfold chunk. case_decide as Hd; [| done]. intros [= <- <-].
  pose proof (at_length dg pos Hp). rewrite at_plus by lia. split; [done | lia].
Qed.

Lemma BuildMsg_tail_parse now dg pos create w :
  0 ≤ pos ≤ Z.of_nat (length dg) →
  BuildMsg_tail now dg pos (Z.of_nat (length dg)) create w =
  match parse_tail (at_ dg pos) with
  | Some c => create (c_ts c) (c_topic c) (c_key c) (c_value c) w
  | None => (DiscardMalformedMsg now dg;; mret None) w
  end.
Proof.
  intros H1. unfold BuildMsg_tail, parse_tail, int16, int32, int64.
  unfold INPUT_DG_ANY_P_V0_TOPIC_SZ_FIELD_SIZE, INPUT_DG_ANY_P_V0_TS_FIELD_SIZE,
    INPUT_DG_ANY_P_V0_KEY_SZ_FIELD_SIZE, INPUT_DG_ANY_P_V0_VALUE_SZ_FIELD_SIZE.
  set (D := (DiscardMalformedMsg now dg;; mret None) w).
  step16 H1. destruct (ReadInt16FromHeader _) as [topic_sz |] eqn:Hr; [| done]. cbn [mbind option_bind].
  destruct (after_read dg pos 2 H1 (ReadInt16_length _ _ Hr)) as [-> H2]. clear Hr.
  change (Z.of_nat 2) with 2 in *.
  destruct (topic_sz <=? 0) eqn:Hsz; [by rewrite option_guard_False by lia |].
  rewrite option_guard_True by lia.
  etrans; [apply (step_chunk _ _ _ _ H2); lia |].
  destruct (chunk topic_sz _) as [[topic l] |] eqn:Hc; [| done]. cbn [mbind option_bind].
  destruct (after_chunk _ _ _ _ _ H2 Hc) as [-> H3]. clear Hc.
  step64 H3. destruct (ReadInt64FromHeader _) as [ts |] eqn:Hr; [| done]. cbn [mbind option_bind].
  destruct (after_read dg _ 8 H3 (ReadInt64_length _ _ Hr)) as [-> H4]. clear Hr.
  change (Z.of_nat 8) with 8 in *.
  step32 H4. destruct (ReadInt32FromHeader _) as [key_sz |] eqn:Hr; [| done]. cbn [mbind option_bind].
  destruct (after_read dg _ 4 H4 (ReadInt32_length _ _ Hr)) as [-> H5]. clear Hr.
  change (Z.of_nat 4) with 4 in *.
  destruct (key_sz <? 0) eqn:Hk; [unfold chunk; by rewrite decide_False by lia |].
  etrans; [apply (step_chunk _ _ _ _ H5); lia |].
  destruct (chunk key_sz _) as [[key l] |] eqn:Hc; [| done]. cbn [mbind option_bind].
  destruct (after_chunk _ _ _ _ _ H5 Hc) as [-> H6]. clear Hc.
  step32 H6. destruct (ReadInt32FromHeader _) as [value_sz |] eqn:Hr; [| done]. cbn [mbind option_bind].
  destruct (after_read dg _ 4 H6 (ReadInt32_length _ _ Hr)) as [-> H7]. clear Hr.
  change (Z.of_nat 4) with 4 in *. pose proof (at_length _ _ H7) as Hl.
  destruct (value_sz <? 0) eqn:Hv; [by rewrite option_guard_False by lia |].
  case_decide as Hd; [by rewrite option_guard_False by lia |].
  rewrite option_guard_True by lia. unfold slice. rewrite decide_True by lia.
  munfold. cbn [c_ts c_topic c_key c_value]. by rewrite take_ge by lia.
Qed.

Lemma AnyPartition_parse now mono dg pos w :
  0 < pos ≤ Z.of_nat (length dg) →
  AnyPartition_BuildMsg now mono dg pos (Z.of_nat (length dg)) w =
  match parse_any (at_ dg pos) with
  | Content _ pk c => TryCreate now mono AnyPartition pk c w
  | _ => (DiscardMalformedMsg now dg;; mret None) w
  end.
Proof.
  intros H0. assert (0 ≤ pos ≤ Z.of_nat (length dg)) as H1 by lia.
  unfold AnyPartition_BuildMsg, parse_any, int16, INPUT_DG_ANY_P_V0_FLAGS_FIELD_SIZE.
  set (D := (DiscardMalformedMsg now dg;; mret None) w).
  replace ((0 <? pos) && _) with true by (symmetry; lia).
  step16 H1. destruct (ReadInt16FromHeader _) as [flags |] eqn:Hr; [| done].
  cbn [mbind option_bind].
  destruct (after_read dg pos 2 H1 (ReadInt16_length _ _ Hr)) as [-> H2]. clear Hr.
  case_decide as Hf; [by rewrite option_guard_False by done |].
  rewrite option_guard_True by lia.
  rewrite BuildMsg_tail_parse by done. change (Z.of_nat 2) with 2.
  by destruct (parse_tail _).
Qed.

Lemma PartitionKey_parse now mono dg pos w :
  0 < pos ≤ Z.of_nat (length dg) →
  PartitionKey_BuildMsg now mono dg pos (Z.of_nat (length dg)) w =
  match parse_pkey (at_ dg pos) with
  | Content _ pk c => TryCreate now mono PartitionKey pk c w
  | _ => (DiscardMalformedMsg now dg;; mret None) w
  end.
Proof.
  intros H0. assert (0 ≤ pos ≤ Z.of_nat (length dg)) as H1 by lia.
  unfold PartitionKey_BuildMsg, parse_pkey, int16, int32, INPUT_DG_P_KEY_V0_FLAGS_FIELD_SIZE,
    INPUT_DG_P_KEY_V0_PARTITION_KEY_FIELD_SIZE.
  set (D := (DiscardMalformedMsg now dg;; mret None) w).
  replace ((0 <? pos) && _) with true by (symmetry; lia).
  step16 H1. destruct (ReadInt16FromHeader _) as [flags |] eqn:Hr; [| done].
  cbn [mbind option_bind].
  destruct (after_read dg pos 2 H1 (ReadInt16_length _ _ Hr)) as [-> H2]. clear Hr.
  case_decide as Hf; [by rewrite option_guard_False by done |].
  rewrite option_guard_True by lia. change (Z.of_nat 2) with 2 in *.
  step32 H2. destruct (ReadInt32FromHeader _) as [pk |] eqn:Hr; [| done].
  cbn [mbind option_bind].
  destruct (after_read dg _ 4 H2 (ReadInt32_length _ _ Hr)) as [-> H3]. clear Hr.
  rewrite BuildMsg_tail_parse by done. change (Z.of_nat 4) with 4.
  by destruct (parse_tail _).
Qed.

Lemma parse_any_shape l :
  match parse_any l with Content AnyPartition 0 _ | BadContent AnyPartition => True | _ => False end.
Proof. unfold parse_any. by destruct (mbind _ _). Qed.

Lemma parse_pkey_shape l :
  match parse_pkey l with
  | Content PartitionKey _ _ | BadContent PartitionKey => True
  | _ => False
  end.
Proof. unfold parse_pkey. by destruct (mbind _ _) as [[]|]. Qed.

(** The header of a datagram of at least eight bytes. *)
Lemma read_header dg :
  (8 ≤ length dg)%nat →
  ∃ sz k v, ReadInt32FromHeader dg = Some sz ∧ ReadInt16FromHeader (at_ dg 4) = Some k ∧
    ReadInt16FromHeader (at_ dg 6) = Some v ∧ in_s 32 sz.
Proof.
  intros H. destruct (ReadInt32_is_Some dg ltac:(lia)) as [sz Hsz].
  destruct (ReadInt16_is_Some (at_ dg 4)) as [k Hk]; [unfold at_; rewrite length_drop; lia |].
  destruct (ReadInt16_is_Some (at_ dg 6)) as [v Hv]; [unfold at_; rewrite length_drop; lia |].
  exists sz, k, v. split; [done |]. split; [done |]. split; [done |].
  apply ReadInt32_Some in Hsz. tauto.
Qed.

Lemma classify_short dg : (length dg < 8)%nat → classify dg = Malformed.
Proof.
  intros H. unfold classify, int32, int16.
  destruct (ReadInt32FromHeader dg) as [sz |] eqn:H1; [| done]. cbn [mbind option_bind].
  destruct (ReadInt16FromHeader (drop 4 dg)) as [k |] eqn:H2; [| done]. cbn [mbind option_bind].
  destruct (ReadInt16FromHeader (drop 2 (drop 4 dg))) as [v |] eqn:H3; [| done].
  apply ReadInt16_length in H3. rewrite !length_drop in H3. lia.
Qed.

Lemma BuildAny_react now mono dg v w :
  (8 ≤ length dg)%nat →
  BuildAnyPartitionMsgFromDg now mono dg v 8 (Z.of_nat (length dg)) w =
  react now mono dg (if decide (length dg = 8%nat) then EmptyVersionedPart AnyPartition
    else if decide (v = 0) then parse_any (at_ dg 8) else UnsupportedVersion AnyPartition v) w.
Proof.
  intros H. unfold BuildAnyPartitionMsgFromDg. change (0 <? 8) with true.
  destruct (decide (length dg = 8%nat));
    [by replace (8 <? Z.of_nat (length dg)) with false by (symmetry; lia) |].
  replace (8 <? Z.of_nat (length dg)) with true by (symmetry; lia).
  unfold massert. unfold mbind, mret, M_bind, M_ret, Increment, modify.
  destruct (decide (v = 0)); [| done]. rewrite AnyPartition_parse by lia.
  pose proof (parse_any_shape (at_ dg 8)) as Hp. by destruct (parse_any _) as [| | | | [] [] | []].
Qed.

Lemma BuildPKey_react now mono dg v w :
  (8 ≤ length dg)%nat →
  BuildPartitionKeyMsgFromDg now mono dg v 8 (Z.of_nat (length dg)) w =
  react now mono dg (if decide (length dg = 8%nat) then EmptyVersionedPart PartitionKey
    else if decide (v = 0) then parse_pkey (at_ dg 8) else UnsupportedVersion PartitionKey v) w.
Proof.
  intros H. unfold BuildPartitionKeyMsgFromDg. change (0 <? 8) with true.
  destruct (decide (length dg = 8%nat));
    [by replace (8 <? Z.of_nat (length dg)) with false by (symmetry; lia) |].
  replace (8 <? Z.of_nat (length dg)) with true by (symmetry; lia).
  unfold massert. unfold mbind, mret, M_bind, M_ret, Increment, modify.
  destruct (decide (v = 0)); [| done]. rewrite PartitionKey_parse by lia.
  pose proof (parse_pkey_shape (at_ dg 8)) as Hp. by destruct (parse_pkey _) as [| | | | [] | []].
Qed.

Lemma BuildMsgFromDg_react now mono dg w :
  BuildMsgFromDg now mono dg w = react now mono dg (classify dg) w.
Proof.
  unfold BuildMsgFromDg, INPUT_DG_SZ_FIELD_SIZE, INPUT_DG_API_KEY_FIELD_SIZE,
    INPUT_DG_API_VERSION_FIELD_SIZE. change (4 + 2 + 2) with 8. change (4 + 2) with 6.
  destruct (Z.of_nat (length dg) <? 8) eqn:Hs; [by rewrite classify_short by lia |].
  destruct (read_header dg) as (sz & k & v & H1 & H2 & H3 & Hr); [lia |].
  assert (classify dg = if decide (sz = Z.of_nat (length dg)) then
    if decide (k = 256) then
      if decide (length dg = 8%nat) then EmptyVersionedPart AnyPartition
      else if decide (v = 0) then parse_any (at_ dg 8) else UnsupportedVersion AnyPartition v
    else if decide (k = 257) then
      if decide (length dg = 8%nat) then EmptyVersionedPart PartitionKey
      else if decide (v = 0) then parse_pkey (at_ dg 8) else UnsupportedVersion PartitionKey v
    else UnsupportedApiKey k else Malformed) as ->.
  { unfold classify, int32, int16. rewrite H1. cbn [mbind option_bind].
    assert (drop 2 (at_ dg 4) = at_ dg 6) as E6 by (unfold at_; by rewrite drop_drop).
    assert (drop 2 (at_ dg 6) = at_ dg 8) as E8 by (unfold at_; by rewrite drop_drop).
    change (drop 4 dg) with (at_ dg 4). rewrite H2. cbn [mbind option_bind]. rewrite E6, H3.
    cbn [mbind option_bind]. rewrite E8.
    pose proof (at_length dg 8 ltac:(lia)) as Hl.
    destruct (decide (sz = Z.of_nat (length dg))) as [He | He];
      [rewrite option_guard_True by done | by rewrite option_guard_False by done].
    cbn [mbind option_bind]. destruct (at_ dg 8) as [| b l] eqn:Hat; cbn in Hl;
      destruct (decide (length dg = 8%nat)); try lia; done. }
  unfold mbind at 1, M_bind at 1. rewrite H1. unfold need at 1, mret at 1, M_ret at 1.
  destruct (decide (sz = Z.of_nat (length dg))) as [He | He]; last first.
  { replace ((sz <? 0) || _) with true; [done |]. symmetry.
    destruct (Z.ltb_spec sz 0) as [| Hge]; [done |].
    rewrite uwrap_small by width_lia. cbn. lia. }
  rewrite uwrap_small by width_lia. replace ((sz <? 0) || _) with false by (symmetry; lia).
  unfold mbind at 1, M_bind at 1. rewrite H2. unfold need at 1, mret at 1, M_ret at 1.
  unfold mbind at 1, M_bind at 1. rewrite H3. unfold need at 1, mret at 1, M_ret at 1.
  replace (8 + (Z.of_nat (length dg) - 8)) with (Z.of_nat (length dg)) by lia.
  destruct (decide (k = 256)); [by apply BuildAny_react; lia |].
  destruct (decide (k = 257)); [by apply BuildPKey_react; lia | done].
Qed.

(** ** The writers and the grammar *)

Lemma int16_Write v l : in_s 16 v → int16 (WriteInt16ToHeader v ++ l) = Some (v, l).
Proof.
  intros H. unfold int16. rewrite ReadInt16_Write by done. cbn [mbind option_bind].
  by rewrite drop_app_length' by (by rewrite length_WriteInt16).
Qed.

Lemma int32_Write v l : in_s 32 v → int32 (WriteInt32ToHeader v ++ l) = Some (v, l).
Proof.
  intros H. unfold int32. rewrite ReadInt32_Write by done. cbn [mbind option_bind].
  by rewrite drop_app_length' by (by rewrite length_WriteInt32).
Qed.

Lemma int64_Write v l : in_s 64 v → int64 (WriteInt64ToHeader v ++ l) = Some (v, l).
Proof.
  intros H. unfold int64. rewrite ReadInt64_Write by done. cbn [mbind option_bind].
  by rewrite drop_app_length' by (by rewrite length_WriteInt64).
Qed.

Lemma chunk_app l k n : n = Z.of_nat (length l) → chunk n (l ++ k) = Some (l, k).
Proof.
  intros ->. unfold chunk. rewrite decide_True by (rewrite length_app; lia).
  by rewrite Nat2Z.id, take_app_length, drop_app_length.
Qed.

Lemma int16_inv l v k : int16 l = Some (v, k) → l = WriteInt16ToHeader v ++ k ∧ in_s 16 v.
Proof.
  unfold int16. intros (x & (_ & Hr & Hx)%ReadInt16_Some & [= <- <-])%bind_Some.
  by rewrite Hx, take_drop.
Qed.

Lemma int32_inv l v k : int32 l = Some (v, k) → l = WriteInt32ToHeader v ++ k ∧ in_s 32 v.
Proof.
  unfold int32. intros (x & (_ & Hr & Hx)%ReadInt32_Some & [= <- <-])%bind_Some.
  by rewrite Hx, take_drop.
Qed.

Lemma int64_inv l v k : int64 l = Some (v, k) → l = WriteInt64ToHeader v ++ k ∧ in_s 64 v.
Proof.
  unfold int64. intros (x & (_ & Hr & Hx)%ReadInt64_Some & [= <- <-])%bind_Some.
  by rewrite Hx, take_drop.
Qed.

Lemma chunk_inv n l c k : chunk n l = Some (c, k) → l = c ++ k ∧ n = Z.of_nat (length c).
Proof.
  unfold chunk. case_decide; [| done]. intros [= <- <-]. rewrite take_drop.
  rewrite length_take. split; [done | lia].
Qed.

(** What follows the fixed fields. *)
Definition tail_bytes (c : content) : list byte :=
  WriteInt16ToHeader (Z.of_nat (length (c_topic c))) ++ c_topic c ++
  WriteInt64ToHeader (c_ts c) ++
  WriteInt32ToHeader (Z.of_nat (length (c_key c))) ++ c_key c ++
  WriteInt32ToHeader (Z.of_nat (length (c_value c))) ++ c_value c.

Record content_ok (c : content) : Prop := {
  co_topic : c_topic c ≠ [];
  co_topic_sz : Z.of_nat (length (c_topic c)) ≤ INT16_MAX;
  co_ts : in_s 64 (c_ts c);
  co_key_sz : Z.of_nat (length (c_key c)) ≤ INT32_MAX;
  co_value_sz : Z.of_nat (length (c_value c)) ≤ INT32_MAX
}.

Lemma parse_tail_iff l c : parse_tail l = Some c ↔ content_ok c ∧ l = tail_bytes c.
Proof.
  split.
  - unfold parse_tail. intros ([tsz l1] & [-> R1]%int16_inv & H)%bind_Some.
    apply bind_Some in H as (Ht & _ & H).
    apply bind_Some in H as ([topic l2] & [-> ->]%chunk_inv & H).
    apply bind_Some in H as ([ts l3] & [-> R2]%int64_inv & H).
    apply bind_Some in H as ([ksz l4] & [-> R3]%int32_inv & H).
    apply bind_Some in H as ([key l5] & [-> ->]%chunk_inv & H).
    apply bind_Some in H as ([vsz l6] & [-> R4]%int32_inv & H).
    apply bind_Some in H as (-> & _ & H). injection H as <-.
    split; [split; cbn; try done; try width_lia |].
    + intros ->. cbn in Ht. lia.
    + done.
  - intros [[H1 H2 H3 H4 H5] ->]. destruct c as [topic ts key value]; cbn in H1, H2, H3, H4, H5.
    unfold parse_tail, tail_bytes. cbn [c_topic c_ts c_key c_value].
    rewrite int16_Write by width_lia. cbn [mbind option_bind].
    rewrite option_guard_True by (destruct topic; [done | cbn; lia]).
    rewrite chunk_app by done. cbn [mbind option_bind].
    rewrite int64_Write by done. cbn [mbind option_bind].
    rewrite int32_Write by width_lia. cbn [mbind option_bind].
    rewrite chunk_app by done. cbn [mbind option_bind].
    rewrite int32_Write by width_lia. cbn [mbind option_bind].
    by rewrite option_guard_True by done.
Qed.

(** The sizes that fit a datagram with [overhead] bytes of fields. *)
Definition fits (overhead : Z) (topic key value : list byte) : Prop :=
  Z.of_nat (length topic) ≤ INT16_MAX ∧
  overhead + Z.of_nat (length topic) + Z.of_nat (length key) + Z.of_nat (length value) ≤ INT32_MAX.

#[global] Instance fits_dec overhead topic key value : Decision (fits overhead topic key value).
Proof. unfold fits. apply _. Defined.

Lemma any_check_fits topic key value :
  input_dg_any_p_v0_check_msg_size (Z.of_nat (length topic)) (Z.of_nat (length key))
    (Z.of_nat (length value)) =
  if decide (fits 28 topic key value) then DORY_OK
  else if decide (Z.of_nat (length topic) ≤ INT16_MAX) then DORY_MSG_TOO_LARGE
  else DORY_TOPIC_TOO_LARGE.
Proof.
  unfold input_dg_any_p_v0_check_msg_size. change any_p_get_msg_overhead with 28.
  unfold fits. destruct (INT16_MAX <? _) eqn:Ht;
    [by rewrite !decide_False by lia |].
  rewrite (uwrap_small 64 (INT32_MAX - 28)), (uwrap_small 64 (INT32_MAX - 28 - _)) by width_lia.
  rewrite (decide_True _ _ (P := Z.of_nat (length topic) ≤ INT16_MAX)) by lia.
  destruct (_ <? Z.of_nat (length key)) eqn:Hk; cbn [orb].
  - by rewrite decide_False by lia.
  - rewrite uwrap_small by width_lia. case_match; case_decide; try done; lia.
Qed.

Lemma p_key_check_fits topic key value :
  input_dg_p_key_v0_check_msg_size (Z.of_nat (length topic)) (Z.of_nat (length key))
    (Z.of_nat (length value)) =
  if decide (fits 32 topic key value) then DORY_OK
  else if decide (Z.of_nat (length topic) ≤ INT16_MAX) then DORY_MSG_TOO_LARGE
  else DORY_TOPIC_TOO_LARGE.
Proof.
  unfold input_dg_p_key_v0_check_msg_size. change p_key_get_msg_overhead with 32.
  unfold fits. destruct (INT16_MAX <? _) eqn:Ht;
    [by rewrite !decide_False by lia |].
  rewrite (uwrap_small 64 (INT32_MAX - 32)), (uwrap_small 64 (INT32_MAX - 32 - _)) by width_lia.
  rewrite (decide_True _ _ (P := Z.of_nat (length topic) ≤ INT16_MAX)) by lia.
  destruct (_ <? Z.of_nat (length key)) eqn:Hk; cbn [orb].
  - by rewrite decide_False by lia.
  - rewrite uwrap_small by width_lia. case_match; case_decide; try done; lia.
Qed.

(** The datagrams: a header, the fixed fields, the rest. *)
Definition dg_bytes (rt : TRoutingType) (pk : Z) (c : content) : list byte :=
  let body :=
    WriteInt16ToHeader 0 ++
    match rt with AnyPartition => [] | PartitionKey => WriteInt32ToHeader pk end ++ tail_bytes c in
  WriteInt32ToHeader (8 + Z.of_nat (length body)) ++
  WriteInt16ToHeader match rt with AnyPartition => 256 | PartitionKey => 257 end ++
  WriteInt16ToHeader 0 ++ body.

Definition dg_overhead (rt : TRoutingType) : Z :=
  match rt with AnyPartition => 28 | PartitionKey => 32 end.

Definition write_msg (rt : TRoutingType) (pk : Z) (c : content) : option (list byte) :=
  match rt with
  | AnyPartition => input_dg_any_p_v0_write_msg (c_ts c) (c_topic c) (c_key c) (c_value c)
  | PartitionKey => input_dg_p_key_v0_write_msg (c_ts c) pk (c_topic c) (c_key c) (c_value c)
  end.

Lemma length_tail_bytes c :
  Z.of_nat (length (tail_bytes c)) = 18 + Z.of_nat (length (c_topic c)) +
    Z.of_nat (length (c_key c)) + Z.of_nat (length (c_value c)).
Proof. unfold tail_bytes. rewrite !length_app. autorewrite with len. lia. Qed.

Lemma length_dg_bytes rt pk c :
  Z.of_nat (length (dg_bytes rt pk c)) = dg_overhead rt + Z.of_nat (length (c_topic c)) +
    Z.of_nat (length (c_key c)) + Z.of_nat (length (c_value c)).
Proof.
  unfold dg_bytes. rewrite !length_app. autorewrite with len. pose proof (length_tail_bytes c).
  destruct rt; cbn [dg_overhead]; autorewrite with len; cbn [length]; lia.
Qed.

Lemma write_msg_eq rt pk c :
  write_msg rt pk c =
  if decide (fits (dg_overhead rt) (c_topic c) (c_key c) (c_value c))
  then Some (dg_bytes rt pk c) else None.
Proof.
  pose proof (length_tail_bytes c) as Hl.
  destruct rt, c as [topic ts key value];
    unfold write_msg, input_dg_any_p_v0_write_msg, input_dg_p_key_v0_write_msg,
      input_dg_any_p_v0_compute_msg_size, input_dg_p_key_v0_compute_msg_size,
      any_p_do_compute_msg_size, p_key_do_compute_msg_size; cbn [c_topic c_ts c_key c_value] in *;
    rewrite ?any_check_fits, ?p_key_check_fits; cbn [dg_overhead];
    change any_p_get_msg_overhead with 28; change p_key_get_msg_overhead with 32.
  all: destruct (decide (fits _ topic key value)) as [[H1 H2] | Hf]; last first.
  all: try (destruct (decide (Z.of_nat (length topic) ≤ INT16_MAX)); done).
  all: rewrite !(decide_False (P := DORY_OK ≠ DORY_OK)) by (intros []; done).
  all: unfold dg_bytes, tail_bytes; cbn [c_topic c_ts c_key c_value].
  all: rewrite (uwrap_small 64) by width_lia; rewrite !swrap_small by (lia || width_lia).
  all: f_equal; f_equal; f_equal; rewrite !length_app; autorewrite with len; cbn [length]; lia.
Qed.

Lemma content_ok_fits rt pk c :
  Z.of_nat (length (dg_bytes rt pk c)) ≤ INT32_MAX →
  content_ok c ↔
  c_topic c ≠ [] ∧ in_s 64 (c_ts c) ∧ fits (dg_overhead rt) (c_topic c) (c_key c) (c_value c).
Proof.
  intros Hl. rewrite length_dg_bytes in Hl. unfold fits. split.
  - intros []. split; [done |]. split; [done |]. split; lia.
  - intros (H1 & H2 & H3 & H4). assert (0 < dg_overhead rt) by (by destruct rt). split; try done; lia.
Qed.

Lemma parse_any_steps l0 l1 c :
  int16 l0 = Some (0, l1) → parse_tail l1 = Some c → parse_any l0 = Content AnyPartition 0 c.
Proof.
  intros H1 H2. unfold parse_any. rewrite H1. cbn [mbind option_bind].
  by rewrite option_guard_True, H2.
Qed.

Lemma parse_pkey_steps l0 l1 l2 pk c :
  int16 l0 = Some (0, l1) → int32 l1 = Some (pk, l2) → parse_tail l2 = Some c →
  parse_pkey l0 = Content PartitionKey pk c.
Proof.
  intros H1 H2 H3. unfold parse_pkey. rewrite H1. cbn [mbind option_bind].
  rewrite option_guard_True by done. rewrite H2. cbn [mbind option_bind]. by rewrite H3.
Qed.

Lemma classify_steps dg l1 l2 b l k :
  int32 dg = Some (Z.of_nat (length dg), l1) → int16 l1 = Some (k, l2) →
  int16 l2 = Some (0, b :: l) →
  classify dg = if decide (k = 256) then parse_any (b :: l)
                else if decide (k = 257) then parse_pkey (b :: l) else UnsupportedApiKey k.
Proof.
  intros H1 H2 H3. unfold classify. rewrite H1. cbn [mbind option_bind].
  rewrite H2. cbn [mbind option_bind]. rewrite H3. cbn [mbind option_bind].
  rewrite option_guard_True by done. cbn [mbind option_bind]. done.
Qed.

Lemma dg_bytes_header rt pk c :
  Z.of_nat (length (dg_bytes rt pk c)) ≤ INT32_MAX →
  ∃ l1 l2 b l, int32 (dg_bytes rt pk c) = Some (Z.of_nat (length (dg_bytes rt pk c)), l1) ∧
    int16 l1 = Some (match rt with AnyPartition => 256 | PartitionKey => 257 end, l2) ∧
    int16 l2 = Some (0, b :: l) ∧
    b :: l = WriteInt16ToHeader 0 ++
      match rt with AnyPartition => [] | PartitionKey => WriteInt32ToHeader pk end ++ tail_bytes c.
Proof.
  intros Hm. unfold dg_bytes in *.
  remember (WriteInt16ToHeader 0 ++
    match rt with AnyPartition => [] | PartitionKey => WriteInt32ToHeader pk end ++ tail_bytes c)
    as body eqn:Hbody.
  assert (body ≠ []) as Hne.
  { intros E. apply (f_equal length) in Hbody. rewrite E, length_app, length_WriteInt16 in Hbody.
    done. }
  rewrite !length_app in *. autorewrite with len in *.
  destruct body as [| b l]; [done |]. do 2 eexists. exists b, l. split; [| split; [| split]].
  - rewrite int32_Write by width_lia. do 2 f_equal. lia.
  - apply int16_Write. destruct rt; width_lia.
  - apply int16_Write. width_lia.
  - done.
Qed.

Lemma classify_dg_bytes rt pk c :
  content_ok c → fits (dg_overhead rt) (c_topic c) (c_key c) (c_value c) →
  match rt with AnyPartition => pk = 0 | PartitionKey => in_s 32 pk end →
  classify (dg_bytes rt pk c) = Content rt pk c.
Proof.
  intros Hc [_ Hf] Hpk. pose proof (length_dg_bytes rt pk c) as Hl.
  destruct (dg_bytes_header rt pk c) as (l1 & l2 & b & l & H1 & H2 & H3 & Hb); [lia |].
  rewrite (classify_steps _ _ _ _ _ _ H1 H2 H3), Hb. clear H1 H2 H3 Hb.
  assert (parse_tail (tail_bytes c) = Some c) as Ht by (by apply parse_tail_iff).
  destruct rt.
  - rewrite decide_True by done. subst pk.
    exact (parse_any_steps _ _ _ (int16_Write 0 _ ltac:(width_lia)) Ht).
  - rewrite decide_False, decide_True by done.
    exact (parse_pkey_steps _ _ _ _ _ (int16_Write 0 _ ltac:(width_lia))
      (int32_Write pk _ Hpk) Ht).
Qed.

Lemma parse_any_Content l rt pk c :
  parse_any l = Content rt pk c →
  rt = AnyPartition ∧ pk = 0 ∧ content_ok c ∧ l = WriteInt16ToHeader 0 ++ tail_bytes c.
Proof.
  unfold parse_any. case_match eqn:E; [| done]. intros [= <- <- <-].
  apply bind_Some in E as ([f l1] & [-> _]%int16_inv & E).
  apply bind_Some in E as (-> & _ & [Hc ->]%parse_tail_iff). done.
Qed.

Lemma parse_pkey_Content l rt pk c :
  parse_pkey l = Content rt pk c →
  rt = PartitionKey ∧ in_s 32 pk ∧ content_ok c ∧
  l = WriteInt16ToHeader 0 ++ WriteInt32ToHeader pk ++ tail_bytes c.
Proof.
  unfold parse_pkey. case_match eqn:E; [| done]. case_match; subst. intros [= <- <- <-].
  apply bind_Some in E as ([f l1] & [-> _]%int16_inv & E).
  apply bind_Some in E as (-> & _ & E).
  apply bind_Some in E as ([k l2] & [-> Hk]%int32_inv & E).
  apply bind_Some in E as (c' & [Hc ->]%parse_tail_iff & [= -> ->]). done.
Qed.

Lemma classify_Content dg rt pk c :
  classify dg = Content rt pk c →
  dg = dg_bytes rt pk c ∧ content_ok c ∧ Z.of_nat (length dg) ≤ INT32_MAX ∧
  match rt with AnyPartition => pk = 0 | PartitionKey => in_s 32 pk end.
Proof.
  unfold classify. destruct (mbind _ _) as [[[k v] l] |] eqn:E; [| done]. intros H.
  apply bind_Some in E as ([sz l1] & [E1 Hsz]%int32_inv & E).
  apply bind_Some in E as ([k' l2] & [-> _]%int16_inv & E).
  apply bind_Some in E as ([v' l3] & [-> _]%int16_inv & E).
  apply bind_Some in E as (Hlen & _ & [= -> -> ->]).
  assert (sz = 8 + Z.of_nat (length l)) as Hsz'.
  { rewrite Hlen, E1, !length_app. autorewrite with len. lia. }
  assert (Z.of_nat (length dg) ≤ INT32_MAX) by (rewrite <- Hlen; width_lia).
  destruct (decide (k = 256)) as [-> |].
  - destruct l as [| b l]; [done |]. destruct (decide (v = 0)) as [-> |]; [| done].
    apply parse_any_Content in H as (-> & -> & Hc & Hl).
    split; [| done]. rewrite E1, Hsz', Hl. done.
  - destruct (decide (k = 257)) as [-> |]; [| done].
    destruct l as [| b l]; [done |]. destruct (decide (v = 0)) as [-> |]; [| done].
    apply parse_pkey_Content in H as (-> & Hk & Hc & Hl).
    split; [| done]. rewrite E1, Hsz', Hl. done.
Qed.

(** The grammar has exactly the datagrams that the client library writes. *)
Lemma classify_written dg rt pk c :
  classify dg = Content rt pk c ↔
  write_msg rt pk c = Some dg ∧ c_topic c ≠ [] ∧ in_s 64 (c_ts c) ∧
  match rt with AnyPartition => pk = 0 | PartitionKey => in_s 32 pk end.
Proof.
  rewrite write_msg_eq. split.
  - intros (-> & Hc & Hlen & Hpk)%classify_Content.
    apply (content_ok_fits rt pk c Hlen) in Hc as (H1 & H2 & H3). by rewrite decide_True.
  - intros (Hw & H1 & H2 & Hpk). case_decide as Hf; [| done]. injection Hw as <-.
    apply classify_dg_bytes; [| done | done]. apply (content_ok_fits rt pk c); [| done].
    rewrite length_dg_bytes. apply Hf.
Qed.

(** ** The whole reader *)

(** What a class of datagrams does to the anomaly tracker, without memory
    trouble. *)
Definition tracked (now : Z) (dg : list byte) (cl : dg_class) : TAnomalyTracker → TAnomalyTracker :=
  match cl with
  | Malformed | BadContent _ => TrackMalformedMsgDiscard now dg
  | UnsupportedApiKey k => TrackUnsupportedApiKeyDiscard now dg k
  | UnsupportedVersion _ v => TrackUnsupportedMsgVersionDiscard now dg v
  | _ => id
  end.

(** The state of the server's input side: the pool holds the bodies of the
    live messages [lv], the message state tracker counts the messages [pop]. *)
Record input_ok (w : TInput) (free : list nat) (lv : list live) (pop : list TMsg) : Prop := {
  io_heap : heap_rep (cs_pool (in_creator w)) free lv;
  io_tracker : tracker_ok (cs_tracker (in_creator w)) pop
}.

Definition blocks_needed (w : TInput) (c : content) : nat :=
  nblocks (dsz (cs_pool (in_creator w))) (length (c_key c ++ c_value c)).

(** The [try] block around the creation of a message. *)
Lemma try_create_Ret (m : M exn creator_state TMsg) w msg s' :
  m (in_creator w) = (Ret msg, s') →
  try_catch (x ← on_creator m; mret (Some x)) (λ _, mret None) w =
    (Ret (Some msg), mkInput s' (in_anomaly w) (in_counters w)).
Proof. intros H. unfold on_creator, zoom. munfold. by rewrite H. Qed.

Lemma try_create_Throw (m : M exn creator_state TMsg) w e s' :
  m (in_creator w) = (Throw e, s') →
  try_catch (x ← on_creator m; mret (Some x)) (λ _, mret None) w =
    (Ret None, mkInput s' (in_anomaly w) (in_counters w)).
Proof. intros H. unfold on_creator, zoom. munfold. by rewrite H. Qed.

Lemma TryCreate_ok now mono rt pk c w free lv pop :
  (rt = AnyPartition → pk = 0) → c_topic c ≠ [] → input_ok w free lv pop →
  (blocks_needed w c ≤ length free)%nat →
  ∃ blob bs w', TryCreate now mono rt pk c w =
    (Ret (Some (created mono rt pk (c_ts c) (c_topic c) (c_key c) false blob)), w') ∧
    input_ok w' (drop (blocks_needed w c) free) (mkLive blob bs (c_key c ++ c_value c) :: lv)
      (created mono rt pk (c_ts c) (c_topic c) (c_key c) false blob :: pop) ∧
    in_anomaly w' = in_anomaly w ∧ in_counters w' = in_counters w.
Proof.
  intros Hpk Ht [Hh Hp] Hn.
  destruct (create_ok mono rt pk (c_ts c) (c_topic c) (c_key c) (c_value c) false
    (in_creator w) free lv pop Hh Hp Hn) as (s' & blob & bs & Hc & Hh' & Hp').
  exists blob, bs, (mkInput s' (in_anomaly w) (in_counters w)).
  split; [| split; [by split | done]].
  assert (0 <? Z.of_nat (length (c_topic c)) = true) as Hlt
    by (apply Z.ltb_lt; destruct (c_topic c); [done | rewrite length_cons; lia]).
  destruct rt; [rewrite (Hpk eq_refl) in * |]; unfold TryCreate, TryCreateAnyPartitionMsg,
    TryCreatePartitionKeyMsg, IM; rewrite Hlt; rewrite (bind_Ret _ _ w () w) by done;
    by erewrite bind_Ret by (apply try_create_Ret; exact Hc).
Qed.

Lemma TryCreate_no_mem now mono rt pk c w free lv pop :
  (rt = AnyPartition → pk = 0) → c_topic c ≠ [] → input_ok w free lv pop →
  (length free < blocks_needed w c)%nat →
  ∃ w' free', TryCreate now mono rt pk c w = (Ret None, w') ∧ free' ≡ₚ free ∧
    input_ok w' free' lv pop ∧
    in_anomaly w' = TrackNoMemDiscard now (c_ts c) (c_topic c) (c_key c) (c_value c) (in_anomaly w) ∧
    in_counters w' = InputAgentDiscardMsgNoMem :: in_counters w.
Proof.
  intros Hpk Ht [Hh Hp] Hn.
  destruct (create_no_mem mono rt pk (c_ts c) (c_topic c) (c_key c) (c_value c) false
    (in_creator w) free lv Hh Hn) as (s' & free' & Hc & Hf & Hh' & Hp').
  exists (mkInput s' (TrackNoMemDiscard now (c_ts c) (c_topic c) (c_key c) (c_value c)
    (in_anomaly w)) (InputAgentDiscardMsgNoMem :: in_counters w)), free'.
  split; [| split; [done | split; [split; [done | cbn; congruence] | done]]].
  assert (0 <? Z.of_nat (length (c_topic c)) = true) as Hlt
    by (apply Z.ltb_lt; destruct (c_topic c); [done | rewrite length_cons; lia]).
  destruct rt; [rewrite (Hpk eq_refl) in * |]; unfold TryCreate, TryCreateAnyPartitionMsg,
    TryCreatePartitionKeyMsg, IM; rewrite Hlt; rewrite (bind_Ret _ _ w () w) by done;
    by erewrite bind_Ret by (eapply try_create_Throw; exact Hc).
Qed.

(** What [BuildMsgFromDg] returns and leaves behind. *)
Definition built (now mono : Z) (dg : list byte) (w : TInput) (free : list nat) (lv : list live) (pop : list TMsg)
    (r : option TMsg) (w' : TInput) : Prop :=
  match classify dg with
  | Content rt pk c =>
      if decide (blocks_needed w c ≤ length free)%nat then
        ∃ blob bs, let m := created mono rt pk (c_ts c) (c_topic c) (c_key c) false blob in
          r = Some m ∧
          input_ok w' (drop (blocks_needed w c) free)
            (mkLive blob bs (c_key c ++ c_value c) :: lv) (m :: pop) ∧
          in_anomaly w' = in_anomaly w
      else
        r = None ∧ (∃ free', free' ≡ₚ free ∧ input_ok w' free' lv pop) ∧
        in_anomaly w' =
          TrackNoMemDiscard now (c_ts c) (c_topic c) (c_key c) (c_value c) (in_anomaly w)
  | cl => r = None ∧ in_creator w' = in_creator w ∧
          in_anomaly w' = tracked now dg cl (in_anomaly w)
  end.

Lemma BuildMsgFromDg_ok now mono dg w free lv pop :
  input_ok w free lv pop → (∀ rt, classify dg ≠ EmptyVersionedPart rt) →
  ∃ r w', BuildMsgFromDg now mono dg w = (Ret r, w') ∧ built now mono dg w free lv pop r w'.
Proof.
  intros Hok Hne. rewrite BuildMsgFromDg_react. unfold built.
  destruct (classify dg) as [| k | rt v | rt | rt pk c | rt] eqn:Hc;
    [by do 2 eexists.. | by destruct (Hne rt) | | by do 2 eexists].
  apply classify_Content in Hc as (_ & Hco & _ & Hpk).
  set (w1 := mkInput (in_creator w) (in_anomaly w) (ProcessCounter rt :: in_counters w)).
  assert (input_ok w1 free lv pop) as Hok1 by (destruct Hok; by split).
  assert (rt = AnyPartition → pk = 0) as Hpk' by (by intros ->).
  change (react now mono dg (Content rt pk c) w) with (TryCreate now mono rt pk c w1).
  change (blocks_needed w c) with (blocks_needed w1 c). case_decide as Hn.
  - destruct (TryCreate_ok now mono rt pk c w1 free lv pop Hpk' (co_topic _ Hco) Hok1 Hn)
      as (blob & bs & w' & Hr & Hw & Ha & _).
    eexists _, w'. split; [exact Hr |]. by exists blob, bs.
  - destruct (TryCreate_no_mem now mono rt pk c w1 free lv pop Hpk' (co_topic _ Hco) Hok1
      ltac:(lia)) as (w' & free' & Hr & Hf & Hw & Ha & _).
    exists None, w'. split; [exact Hr |]. split; [done |]. split; [by exists free' | done].
Qed.

(** *** What the server accepts *)

(** The message [m], whose body is in the pool [p], has the fields [rt], [pk] and [c]. *)
Record carries (p : TPool) (m : TMsg) (rt : TRoutingType) (pk : Z) (c : content) : Prop := {
  ca_routing : RoutingType m = rt;
  ca_partition_key : MsgPartitionKey m = pk;
  ca_topic : Topic m = String.string_of_list_byte (c_topic c);
  ca_timestamp : Timestamp m = c_ts c;
  ca_key_size : KeySize m = Z.of_nat (length (c_key c));
  ca_body : (Read p (Z.to_nat (NumBytes (KeyAndValue m))) (TReader_new (KeyAndValue m))).1 = Ret (c_key c ++ c_value c)
}.

Lemma created_carries mono rt pk c p free blob bs lv :
  heap_rep p free (mkLive blob bs (c_key c ++ c_value c) :: lv) →
  carries p (created mono rt pk (c_ts c) (c_topic c) (c_key c) false blob) rt pk c.
Proof.
  intros Hh. split; try done. cbn [KeyAndValue created].
  destruct (Read_twice p free [] (mkLive blob bs (c_key c ++ c_value c)) lv (length (c_key c ++ c_value c)) 0 Hh ltac:(done)) as (r1 & r2 & Hr & _).
  cbn [l_blob l_bytes] in Hr. rewrite firstn_all in Hr.
  assert (NumBytes blob = Z.of_nat (length (c_key c ++ c_value c))) as ->; [| by rewrite Nat2Z.id, Hr].
  destruct Hh as [_ [Hl _]%Forall_cons]. apply Hl.
Qed.

(** A message determines its fields. *)
Lemma carries_unique p m rt pk c rt' pk' c' :
  carries p m rt pk c → carries p m rt' pk' c' → rt = rt' ∧ pk = pk' ∧ c = c'.
Proof.
  intros [<- <- H1 H2 H3 H4] [<- <- H1' H2' H3' H4']. split; [done |]. split; [done |].
  destruct c as [tp ts k v], c' as [tp' ts' k' v']. cbn [c_topic c_ts c_key c_value] in *. rewrite H4 in H4'. injection H4' as Hkv.
  assert (length k = length k') as Hk by lia. destruct (app_inj_1 _ _ _ _ Hk Hkv) as [-> ->].
  assert (tp = tp') as ->; [| congruence]. rewrite H1 in H1'. apply (f_equal String.list_byte_of_string) in H1'.
  by rewrite !String.list_byte_of_string_of_list_byte in H1'.
Qed.

(** C1: the server accepts exactly what the client library writes.  In every state of its
    input side with enough free memory for the key and the value, [BuildMsgFromDg] returns a
    message with given routing, partition key, topic, timestamp, key and value if and
    only if the datagram is the one that the writers of the client library produce for
    them, the topic is not empty, and the integers are in range.  The key and the value
    are what a reader gets from the message's body in the pool. *)
Theorem datagram_format_exact now mono dg w free lv pop rt pk c :
  input_ok w free lv pop → (blocks_needed w c ≤ length free)%nat →
  (∃ m w', BuildMsgFromDg now mono dg w = (Ret (Some m), w') ∧ carries (cs_pool (in_creator w')) m rt pk c) ↔
  write_msg rt pk c = Some dg ∧ c_topic c ≠ [] ∧ in_s 64 (c_ts c) ∧
  match rt with AnyPartition => pk = 0 | PartitionKey => in_s 32 pk end.
Proof.
  intros Hok Hmem. rewrite <- classify_written. split.
  - intros (m & w' & Hr & Hca). destruct (BuildMsgFromDg_ok now mono dg w free lv pop Hok) as (r & w2 & Hr' & Hb).
    { intros rt' Hc. by rewrite BuildMsgFromDg_react, Hc in Hr. } rewrite Hr in Hr'. injection Hr' as <- <-.
    unfold built in Hb. destruct (classify dg) as [| | | | rt' pk' c' |] eqn:Hc; [by destruct Hb as [? _].. | | by destruct Hb as [? _]].
    case_decide; [| by destruct Hb as [? _]]. destruct Hb as (blob & bs & [= ->] & [Hh _] & _).
    by destruct (carries_unique _ _ _ _ _ _ _ _ Hca (created_carries _ _ _ _ _ _ _ _ _ Hh)) as (-> & -> & ->).
  - intros Hc. destruct (BuildMsgFromDg_ok now mono dg w free lv pop Hok) as (r & w' & Hr & Hb); [by rewrite Hc |].
    unfold built in Hb. rewrite Hc, decide_True in Hb by done. destruct Hb as (blob & bs & -> & [Hh _] & _).
    eexists _, w'. split; [exact Hr |]. by eapply created_carries.
Qed.

(** C28: every datagram is turned into exactly one message or exactly one
    tracked discard, and reading it never goes outside it.  Unless the
    datagram is an eight byte header with a known API key, [BuildMsgFromDg]
    returns: for a well-formed datagram and enough free blocks, a new message
    with the datagram's fields whose body is stored in the pool and which the
    state tracker counts; without enough blocks, no message, a discard tracked
    as lack of memory, and every block given back; for any other datagram no
    message, the pool and the counters of messages untouched, and one tracked
    discard of the datagram's kind. *)
Theorem BuildMsgFromDg_total now mono dg w free lv pop :
  input_ok w free lv pop → (∀ rt, classify dg ≠ EmptyVersionedPart rt) →
  ∃ r w', BuildMsgFromDg now mono dg w = (Ret r, w') ∧ built now mono dg w free lv pop r w'.
Proof. apply BuildMsgFromDg_ok. Qed.

(** A datagram that is only an eight byte header, with API key 256 or 257,
    stops the server on the assertion [versioned_part_end >
    versioned_part_begin] of [BuildAnyPartitionMsgFromDg] and
    [BuildPartitionKeyMsgFromDg]: [BuildMsgFromDg] lets it through, since it
    only requires eight bytes. *)
Theorem header_only_datagram_asserts now mono w :
  let dg k := WriteInt32ToHeader 8 ++ WriteInt16ToHeader k ++ WriteInt16ToHeader 0 in
  BuildMsgFromDg now mono (dg 256) w = (Fault AssertFailed, w) ∧
  BuildMsgFromDg now mono (dg 257) w = (Fault AssertFailed, w).
Proof. cbv zeta. by rewrite !BuildMsgFromDg_react. Qed.

(** ** The client library *)

(** What either writing function of the library does. *)
Definition dory_write (rt : TRoutingType) (pk : Z) (topic : list byte) (ts : Z)
    (key value : list byte) : M Empty_set (list byte) Z :=
  match rt with
  | AnyPartition => dory_write_any_partition_msg topic ts key value
  | PartitionKey => dory_write_partition_key_msg pk topic ts key value
  end.

Lemma strlen_app topic rest :
  x00 ∉ topic → strlen (topic ++ x00 :: rest) = Some (length topic).
Proof.
  intros Hn. unfold strlen.
  rewrite (list_find_app_r (x00 =.) topic);
    [| apply list_find_None, Forall_forall; by intros x Hx <-].
  cbn. f_equal.
Qed.

(** The client library's functions write the whole datagram or report why
    not.  For a NUL terminated topic, each returns [DORY_TOPIC_TOO_LARGE] or
    [DORY_MSG_TOO_LARGE] when the sizes do not fit the format,
    [DORY_BUF_TOO_SMALL] when the buffer is shorter than the datagram, all with
    the buffer unchanged, and otherwise [DORY_OK] with the datagram at the
    front of the buffer and the rest of the buffer unchanged; it never writes
    outside the buffer and never stops on its assertion. *)
Theorem dory_write_total rt pk topic rest ts key value buf :
  x00 ∉ topic →
  dory_write rt pk (topic ++ x00 :: rest) ts key value buf =
  let dg := dg_bytes rt pk (mkContent topic ts key value) in
  if decide (Z.of_nat (length topic) ≤ INT16_MAX) then
    if decide (fits (dg_overhead rt) topic key value) then
      if decide (length dg ≤ length buf)%nat then (Ret DORY_OK, dg ++ drop (length dg) buf)
      else (Ret DORY_BUF_TOO_SMALL, buf)
    else (Ret DORY_MSG_TOO_LARGE, buf)
  else (Ret DORY_TOPIC_TOO_LARGE, buf).
Proof.
  intros Hn. pose proof (length_dg_bytes rt pk (mkContent topic ts key value)) as Hl.
  pose proof (write_msg_eq rt pk (mkContent topic ts key value)) as Hw.
  cbn [c_topic c_ts c_key c_value] in Hl, Hw. cbv zeta.
  set (dg := dg_bytes rt pk (mkContent topic ts key value)) in *.
  destruct rt; unfold dory_write, dory_write_any_partition_msg, dory_write_partition_key_msg;
    rewrite strlen_app by done; rewrite (bind_Ret _ _ buf (length topic) buf) by done;
    cbv beta; rewrite take_app_length;
    unfold dory_find_any_partition_msg_size, dory_find_partition_key_msg_size,
      input_dg_any_p_v0_compute_msg_size, input_dg_p_key_v0_compute_msg_size;
    rewrite ?any_check_fits, ?p_key_check_fits; cbn [dg_overhead] in *;
    cbn [write_msg c_topic c_ts c_key c_value] in Hw; rewrite Hw;
    unfold any_p_do_compute_msg_size, p_key_do_compute_msg_size;
    change any_p_get_msg_overhead with 28; change p_key_get_msg_overhead with 32.
  all: destruct (decide (fits _ topic key value)) as [Hf | Hf]; last first.
  all: try by destruct (decide (Z.of_nat (length topic) ≤ INT16_MAX)).
  all: destruct Hf as [Hf1 Hf2]; rewrite (decide_True (P := _ ≤ INT16_MAX)) by done.
  all: rewrite !(decide_False (P := DORY_OK ≠ DORY_OK)) by (intros []; done).
  all: rewrite uwrap_small by width_lia; rewrite <- Hl; unfold store; munfold.
  all: cbv beta iota; destruct (decide (length dg ≤ length buf)%nat);
    [replace (_ <? _) with false by (symmetry; lia)
    |replace (_ <? _) with true by (symmetry; lia)]; try done.
  all: by rewrite decide_True by done.
Qed.

(** ** Examples *)

Definition ex_content : content := mkContent [x61] 100 ex_key ex_value.

Definition ex_dg : list byte := dg_bytes PartitionKey 5 ex_content.

Definition ex_input : TInput :=
  mkInput (mkCreator ex_pool TMsgStateTracker_new) (TAnomalyTracker_new 60 4 1000) [].

Lemma ex_input_ok : input_ok ex_input [2%nat; 1%nat; 0%nat] [] [].
Proof.
  split; [exact ex_pool_heap |]. split; [done |]. intros topic. unfold stats_of. cbn.
  by rewrite lookup_empty.
Qed.

Lemma BuildMsgFromDg_total_witness :
  ∃ m w', BuildMsgFromDg 1001 7 ex_dg ex_input = (Ret (Some m), w') ∧
    Topic m = "a" ∧ MsgPartitionKey m = 5 ∧ Timestamp m = 100.
Proof.
  destruct (BuildMsgFromDg_total 1001 7 ex_dg ex_input [2%nat; 1%nat; 0%nat] [] [])
    as (r & w' & Hr & H); [.. | unfold built in H].
  - exact ex_input_ok.
  - intros rt. vm_compute. discriminate.
  - change (classify ex_dg) with (classify (dg_bytes PartitionKey 5 ex_content)) in H.
    rewrite classify_dg_bytes in H.
    + rewrite decide_True in H by (vm_compute; lia).
      destruct H as (blob & bs & -> & _).
      exists (created 7 PartitionKey 5 100 [x61] ex_key false blob), w'.
      split; [exact Hr |]. split; [reflexivity |]. split; reflexivity.
    + split; [discriminate | vm_compute; discriminate | | vm_compute; discriminate..].
      vm_compute. split; [discriminate | reflexivity].
    + split; vm_compute; discriminate.
    + vm_compute. split; [discriminate | reflexivity].
Defined.

Lemma datagram_format_exact_witness :
  ∃ m w', BuildMsgFromDg 1001 7 ex_dg ex_input = (Ret (Some m), w') ∧ carries (cs_pool (in_creator w')) m PartitionKey 5 ex_content.
Proof.
  apply (datagram_format_exact 1001 7 ex_dg ex_input [2%nat; 1%nat; 0%nat] [] [] PartitionKey 5 ex_content).
  - exact ex_input_ok.
  - vm_compute. lia.
  - split; [vm_compute; reflexivity |]. split; [discriminate |]. split; vm_compute; (split; [discriminate | reflexivity]).
Defined.

Lemma dory_write_total_witness :
  dory_write AnyPartition 0 [x61; x00] 100 ex_key ex_value [] = (Ret DORY_BUF_TOO_SMALL, []).
Proof.
  etrans; [apply (dory_write_total AnyPartition 0 [x61] [] 100 ex_key ex_value []) |].
  - intros H. apply list_elem_of_singleton in H. discriminate.
  - vm_compute. reflexivity.
Defined.
