(* ===== verification/Batch.v ===== *)
(** * Batching (dory/batch/batch_config.h, batcher_core.cc,
      single_topic_batcher.cc, combined_topics_batcher.cc, dory/util/topic_map.cc)

    Messages are grouped before they are sent, until a limit on age, number or
    bytes is reached.  [TBatcherCore] decides; a single-topic batcher holds one
    list of messages, the combined batcher holds a list per topic.  A message
    passed by rvalue reference is taken or left with the caller: the functions
    return the caller's message as an option. *)
From S2P Require Import Prelude FieldAccess Capped Msg.

(** ** Configuration (batch_config.h) *)

Record TBatchConfig := mkBatchConfig {
  TimeLimit : Z;
  MsgCountLimit : Z;
  ByteCountLimit : Z
}.

Definition BatchingIsEnabled (config : TBatchConfig) : bool :=
  negb (TimeLimit config =? 0) || negb (MsgCountLimit config =? 0) ||
  negb (ByteCountLimit config =? 0).

Definition TimeLimitIsEnabled (config : TBatchConfig) : bool := negb (TimeLimit config =? 0).

Definition MsgCountLimitIsEnabled (config : TBatchConfig) : bool :=
  negb (MsgCountLimit config =? 0).

Definition ByteCountLimitIsEnabled (config : TBatchConfig) : bool :=
  negb (ByteCountLimit config =? 0).

(** ** [TBatcherCore] *)

Inductive TAction :=
| LeaveMsgAndReturnBatch
| ReturnBatchAndTakeMsg
| TakeMsgAndReturnBatch
| TakeMsgAndLeaveBatch.

Record TBatcherCore := mkCore {
  Config : TBatchConfig;
  MinTimestamp : Z;
  MsgCount : Z;
  ByteCount : Z
}.

Definition TBatcherCore_new (config : TBatchConfig) : TBatcherCore :=
  mkCore config INT64_MAX 0 0.

Definition Core_IsEmpty (c : TBatcherCore) : bool := MsgCount c =? 0.

(** [MinTimestamp + Config.TimeLimit] is computed as a [size_t]. *)
Definition Core_GetNextCompleteTime (c : TBatcherCore) : option Z :=
  if Core_IsEmpty c || negb (TimeLimitIsEnabled (Config c)) then None
  else Some (swrap 64 (uwrap 64 (MinTimestamp c + TimeLimit (Config c)))).

Definition ClearState (c : TBatcherCore) : TBatcherCore := mkCore (Config c) INT64_MAX 0 0.

Definition TestTimeLimit (now new_msg_timestamp : Z) (c : TBatcherCore) : bool :=
  if negb (TimeLimitIsEnabled (Config c)) then false else
  let min_ts := MinTimestamp c `min` new_msg_timestamp in
  swrap 64 (uwrap 64 (min_ts + TimeLimit (Config c))) <=? now.

Definition TestMsgCount (adding_msg : bool) (c : TBatcherCore) : bool :=
  if negb (MsgCountLimitIsEnabled (Config c)) then false else
  let to_add := if adding_msg then 1 else 0 in
  MsgCountLimit (Config c) <=? uwrap 64 (MsgCount c + to_add).

Definition TestByteCount (bytes_to_add : Z) (c : TBatcherCore) : bool :=
  if negb (ByteCountLimitIsEnabled (Config c)) then false else
  ByteCountLimit (Config c) <=? uwrap 64 (ByteCount c + bytes_to_add).

Definition TestByteCountExceeded (bytes_to_add : Z) (c : TBatcherCore) : bool :=
  if negb (ByteCountLimitIsEnabled (Config c)) then false else
  ByteCountLimit (Config c) <? uwrap 64 (ByteCount c + bytes_to_add).

Definition TestAllLimits (now : Z) (c : TBatcherCore) : bool :=
  TestTimeLimit now INT64_MAX c || TestMsgCount false c || TestByteCount 0 c.

Definition UpdateState (timestamp body_size : Z) (c : TBatcherCore) : TBatcherCore :=
  mkCore (Config c) (MinTimestamp c `min` timestamp) (uwrap 64 (MsgCount c + 1))
    (uwrap 64 (ByteCount c + body_size)).

Definition ProcessNewMsg (now : Z) (msg : TMsg) (c : TBatcherCore) : TAction * TBatcherCore :=
  if negb (BatchingIsEnabled (Config c)) then (LeaveMsgAndReturnBatch, c) else
  let timestamp := Timestamp msg in
  let body_size := 1 `max` NumBytes (KeyAndValue msg) in
  if ByteCountLimitIsEnabled (Config c) && (ByteCountLimit (Config c) <=? body_size)
  then (LeaveMsgAndReturnBatch, ClearState c) else
  if TestByteCountExceeded body_size c then
    let c := ClearState c in
    if TestMsgCount true c || TestTimeLimit now timestamp c then (LeaveMsgAndReturnBatch, c)
    else (ReturnBatchAndTakeMsg, UpdateState timestamp body_size c)
  else
    let c := UpdateState timestamp body_size c in
    if TestAllLimits now c then (TakeMsgAndReturnBatch, ClearState c)
    else (TakeMsgAndLeaveBatch, c).

(** ** [TSingleTopicBatcher] *)

Record TSingleTopicBatcher := mkSingle {
  CoreState : TBatcherCore;
  MsgList : list TMsg
}.

Definition TSingleTopicBatcher_new (config : TBatchConfig) : TSingleTopicBatcher :=
  mkSingle (TBatcherCore_new config) [].

Definition Single_IsEmpty (b : TSingleTopicBatcher) : bool := Core_IsEmpty (CoreState b).

Definition Single_BatchingIsEnabled (b : TSingleTopicBatcher) : bool :=
  BatchingIsEnabled (Config (CoreState b)).

Definition Single_GetNextCompleteTime (b : TSingleTopicBatcher) : option Z :=
  Core_GetNextCompleteTime (CoreState b).

(** The batch returned, and the message if it is left with the caller. *)
Definition DoAddMsg (msg : TMsg) (now : Z) (b : TSingleTopicBatcher)
    : (list TMsg * option TMsg) * TSingleTopicBatcher :=
  if negb (Single_BatchingIsEnabled b) then (([], Some msg), b) else
  let '(action, core) := ProcessNewMsg now msg (CoreState b) in
  match action with
  | LeaveMsgAndReturnBatch => ((MsgList b, Some msg), mkSingle core [])
  | ReturnBatchAndTakeMsg => ((MsgList b, None), mkSingle core [msg])
  | TakeMsgAndReturnBatch => ((MsgList b ++ [msg], None), mkSingle core [])
  | TakeMsgAndLeaveBatch => (([], None), mkSingle core (MsgList b ++ [msg]))
  end.

Definition SBM := M Empty_set TSingleTopicBatcher.

Definition Single_AddMsg (msg : TMsg) (now : Z) : SBM (list TMsg * option TMsg) := λ b,
  let '(result, b) := DoAddMsg msg now b in
  (massert (uwrap 64 (Z.of_nat (length (MsgList b))) =? MsgCount (CoreState b));;
   mret result) b.

Definition Single_TakeBatch : SBM (list TMsg) :=
  modify (λ b, mkSingle (ClearState (CoreState b)) (MsgList b));;
  count ← gets (λ b, MsgCount (CoreState b));
  massert (count =? 0);;
  batch ← gets MsgList;
  modify (λ b, mkSingle (CoreState b) []);;
  mret batch.

(** ** [TTopicMap] *)

Definition TTopicMap := gmap string (list TMsg).

Definition TopicMap_IsEmpty (m : TTopicMap) : bool := bool_decide (m = ∅).

(** [PutCommon] and what its callers do with the list it returns. *)
Definition PutCommon (topic : string) (f : list TMsg → list TMsg) (m : TTopicMap) : TTopicMap :=
  match m !! topic with
  | Some l => <[topic := f l]> m
  | None => <[topic := f []]> m
  end.

Definition TopicMap_Put (msg : TMsg) (m : TTopicMap) : TTopicMap :=
  PutCommon (Topic msg) (λ l, l ++ [msg]) m.

(** [None]: the assertion fails. *)
Definition TopicMap_Put_batch (batch : list TMsg) (m : TTopicMap) : option TTopicMap :=
  match batch with
  | [] => None
  | msg :: _ => Some (PutCommon (Topic msg) (λ l, l ++ batch) m)
  end.

Fixpoint TopicMap_Put_batches (batch_list : list (list TMsg)) (m : TTopicMap) : option TTopicMap :=
  match batch_list with
  | [] => Some m
  | batch :: batch_list => m ← TopicMap_Put_batch batch m; TopicMap_Put_batches batch_list m
  end.

Definition TopicMap_Get_topic (topic : string) (m : TTopicMap) : list TMsg * TTopicMap :=
  match m !! topic with
  | Some l => (l, delete topic m)
  | None => ([], m)
  end.

Definition TopicMap_Get `{HashOrder} (m : TTopicMap) : list (list TMsg) * TTopicMap :=
  (filter (λ l, l ≠ []) (snd <$> hash_order m), ∅).

(** ** [TCombinedTopicsBatcher] *)

Record TCombinedTopicsBatcher := mkCombined {
  CombCore : TBatcherCore;
  TopicFilter : gset string;
  ExcludeTopicFilter : bool;
  TopicMap : TTopicMap
}.

Definition TCombinedTopicsBatcher_new (config : TBatchConfig) (topic_filter : gset string)
    (exclude_topic_filter : bool) : TCombinedTopicsBatcher :=
  mkCombined (TBatcherCore_new config) topic_filter exclude_topic_filter ∅.

Definition Combined_IsEmpty : M Empty_set TCombinedTopicsBatcher bool :=
  b ← get;
  massert (eqb (Core_IsEmpty (CombCore b)) (TopicMap_IsEmpty (TopicMap b)));;
  mret (Core_IsEmpty (CombCore b)).

Definition Combined_BatchingIsEnabled (b : TCombinedTopicsBatcher) : bool :=
  (ExcludeTopicFilter b || negb (bool_decide (TopicFilter b = ∅))) &&
  BatchingIsEnabled (Config (CombCore b)).

Definition Combined_BatchingIsEnabled_topic (topic : string) (b : TCombinedTopicsBatcher) : bool :=
  if negb (BatchingIsEnabled (Config (CombCore b))) then false else
  if bool_decide (TopicFilter b = ∅) then ExcludeTopicFilter b else
  eqb (negb (bool_decide (topic ∈ TopicFilter b))) (ExcludeTopicFilter b).

Definition Combined_GetNextCompleteTime (b : TCombinedTopicsBatcher) : option Z :=
  Core_GetNextCompleteTime (CombCore b).

Definition with_topics (m : TTopicMap) (b : TCombinedTopicsBatcher) : TCombinedTopicsBatcher :=
  mkCombined (CombCore b) (TopicFilter b) (ExcludeTopicFilter b) m.

Definition with_core (c : TBatcherCore) (b : TCombinedTopicsBatcher) : TCombinedTopicsBatcher :=
  mkCombined c (TopicFilter b) (ExcludeTopicFilter b) (TopicMap b).

Section combined.
Context `{HashOrder}.

Definition Combined_TakeBatch (b : TCombinedTopicsBatcher)
    : list (list TMsg) * TCombinedTopicsBatcher :=
  let '(result, m) := TopicMap_Get (TopicMap b) in
  (result, with_core (ClearState (CombCore b)) (with_topics m b)).

(** The batches returned, and the message if it is left with the caller. *)
Definition Combined_AddMsg (msg : TMsg) (now : Z) (b : TCombinedTopicsBatcher)
    : (list (list TMsg) * option TMsg) * TCombinedTopicsBatcher :=
  if negb (Combined_BatchingIsEnabled_topic (Topic msg) b) then
    match Combined_GetNextCompleteTime b with
    | Some nct =>
        if nct <=? now then
          let '(result, b) := Combined_TakeBatch b in ((result, Some msg), b)
        else (([], Some msg), b)
    | None => (([], Some msg), b)
    end
  else
  let '(action, core) := ProcessNewMsg now msg (CombCore b) in
  let b := with_core core b in
  match action with
  | LeaveMsgAndReturnBatch =>
      let '(result, m) := TopicMap_Get (TopicMap b) in ((result, Some msg), with_topics m b)
  | ReturnBatchAndTakeMsg =>
      let '(result, m) := TopicMap_Get (TopicMap b) in
      ((result, None), with_topics (TopicMap_Put msg m) b)
  | TakeMsgAndReturnBatch =>
      let '(result, m) := TopicMap_Get (TopicMap_Put msg (TopicMap b)) in
      ((result, None), with_topics m b)
  | TakeMsgAndLeaveBatch => (([], None), with_topics (TopicMap_Put msg (TopicMap b)) b)
  end.
End combined.

(** ** What the core promises *)

(** A message's size as the batchers count it, and that of a batch. *)
Definition body_size (msg : TMsg) : Z := 1 `max` NumBytes (KeyAndValue msg).

Definition batch_bytes (msgs : list TMsg) : Z := sumZ (body_size <$> msgs).

Definition min_ts (msgs : list TMsg) : Z := foldr (λ m t, Timestamp m `min` t) INT64_MAX msgs.

(** The core's counters are those of the messages held. *)
Record core_counts (c : TBatcherCore) (msgs : list TMsg) : Prop := {
  cc_count : MsgCount c = uwrap 64 (Z.of_nat (length msgs));
  cc_bytes : ByteCount c = uwrap 64 (batch_bytes msgs);
  cc_min : MinTimestamp c = min_ts msgs
}.

(** Limits on what a batcher keeps, and on what it hands out. *)
Definition keepable (config : TBatchConfig) (msgs : list TMsg) : Prop :=
  (MsgCountLimit config ≠ 0 → Z.of_nat (length msgs) < MsgCountLimit config) ∧
  (ByteCountLimit config ≠ 0 → batch_bytes msgs < ByteCountLimit config).

Definition sendable (config : TBatchConfig) (msgs : list TMsg) : Prop :=
  (MsgCountLimit config ≠ 0 → Z.of_nat (length msgs) ≤ MsgCountLimit config) ∧
  (ByteCountLimit config ≠ 0 → batch_bytes msgs ≤ ByteCountLimit config).

(** The limits of a configuration leave room for [size_t] sums. *)
Record config_ok (config : TBatchConfig) : Prop := {
  co_time : 0 ≤ TimeLimit config < 2 ^ 63;
  co_count : 0 ≤ MsgCountLimit config < 2 ^ 63;
  co_bytes : 0 ≤ ByteCountLimit config < 2 ^ 63
}.

Record core_ok (c : TBatcherCore) (msgs : list TMsg) : Prop := {
  ok_counts : core_counts c msgs;
  ok_keep : keepable (Config c) msgs
}.

(** The deadline of a batch, as the code computes it. *)
Definition deadline (config : TBatchConfig) (msgs : list TMsg) : Z :=
  swrap 64 (uwrap 64 (min_ts msgs + TimeLimit config)).

(** The messages handed out and those kept, for each action. *)
Definition handed_out (a : TAction) (msgs : list TMsg) (msg : TMsg) : list TMsg :=
  match a with
  | LeaveMsgAndReturnBatch | ReturnBatchAndTakeMsg => msgs
  | TakeMsgAndReturnBatch => msgs ++ [msg]
  | TakeMsgAndLeaveBatch => []
  end.

Definition kept (a : TAction) (msgs : list TMsg) (msg : TMsg) : list TMsg :=
  match a with
  | LeaveMsgAndReturnBatch | TakeMsgAndReturnBatch => []
  | ReturnBatchAndTakeMsg => [msg]
  | TakeMsgAndLeaveBatch => msgs ++ [msg]
  end.

Definition left_over (a : TAction) (msg : TMsg) : option TMsg :=
  match a with LeaveMsgAndReturnBatch => Some msg | _ => None end.

Lemma handed_kept a msgs msg :
  msgs ++ [msg] = handed_out a msgs msg ++ option_list (left_over a msg) ++ kept a msgs msg.
Proof. destruct a; cbn; rewrite ?app_nil_r; done. Qed.

Lemma core_counts_nil config : core_counts (TBatcherCore_new config) [].
Proof. split; done. Qed.

Lemma core_counts_clear c : core_counts (ClearState c) [].
Proof. split; done. Qed.

Lemma batch_bytes_app l k : batch_bytes (l ++ k) = batch_bytes l + batch_bytes k.
Proof. unfold batch_bytes. by rewrite fmap_app, sumZ_app. Qed.

Lemma batch_bytes_one m : batch_bytes [m] = body_size m.
Proof. unfold batch_bytes, sumZ. cbn. lia. Qed.

Lemma body_size_pos m : 1 ≤ body_size m.
Proof. unfold body_size. lia. Qed.

Lemma batch_bytes_nonneg l : 0 ≤ batch_bytes l.
Proof.
  apply sumZ_nonneg, Forall_forall. intros x (m & -> & _)%list_elem_of_fmap.
  pose proof (body_size_pos m). lia.
Qed.

Lemma min_ts_snoc l m : Timestamp m ≤ INT64_MAX → min_ts (l ++ [m]) = min_ts l `min` Timestamp m.
Proof.
  intros Hm. unfold min_ts. rewrite foldr_app. cbn. rewrite Z.min_l by done.
  induction l as [| x l IH]; cbn; [by rewrite Z.min_r |]. rewrite IH. lia.
Qed.

Lemma uwrap_add w a b : 0 ≤ w → uwrap w (uwrap w a + b) = uwrap w (a + b).
Proof. intros. unfold uwrap. apply Z.add_mod_idemp_l. lia. Qed.

Lemma core_counts_update c msgs m :
  core_counts c msgs → Timestamp m ≤ INT64_MAX →
  core_counts (UpdateState (Timestamp m) (body_size m) c) (msgs ++ [m]).
Proof.
  intros [H1 H2 H3] Hm. split; cbn.
  - rewrite H1, uwrap_add, length_app by lia. cbn. f_equal. lia.
  - by rewrite H2, uwrap_add, batch_bytes_app, batch_bytes_one by lia.
  - by rewrite H3, min_ts_snoc.
Qed.

(** The tests against the limits, in terms of the messages held. *)
Section core.
Context (c : TBatcherCore) (msgs : list TMsg).
Hypothesis Hcfg : config_ok (Config c).

Lemma keepable_nil : keepable (Config c) [].
Proof. destruct Hcfg. split; cbn; intros; unfold batch_bytes, sumZ; cbn; lia. Qed.

Lemma TestMsgCount_false :
  core_counts c msgs → TestMsgCount false c = false → Z.of_nat (length msgs) < 2 ^ 64 →
  MsgCountLimit (Config c) ≠ 0 → Z.of_nat (length msgs) < MsgCountLimit (Config c).
Proof.
  intros [H1 _ _] Ht Hl Hn. revert Ht. unfold TestMsgCount, MsgCountLimitIsEnabled.
  replace (MsgCountLimit (Config c) =? 0) with false by (symmetry; lia). cbn [negb].
  rewrite H1, uwrap_add by lia. rewrite uwrap_small by width_lia. lia.
Qed.

Lemma TestByteCount_false :
  core_counts c msgs → TestByteCount 0 c = false → batch_bytes msgs < 2 ^ 64 →
  ByteCountLimit (Config c) ≠ 0 → batch_bytes msgs < ByteCountLimit (Config c).
Proof.
  intros [_ H2 _] Ht Hl Hn. revert Ht. unfold TestByteCount, ByteCountLimitIsEnabled.
  replace (ByteCountLimit (Config c) =? 0) with false by (symmetry; lia). cbn [negb].
  pose proof (batch_bytes_nonneg msgs).
  rewrite H2, uwrap_add by lia. rewrite uwrap_small by width_lia. lia.
Qed.

(** With the byte limit on, what fits is kept exactly. *)
Lemma TestByteCountExceeded_false n :
  core_counts c msgs → keepable (Config c) msgs → 0 ≤ n < ByteCountLimit (Config c) →
  TestByteCountExceeded n c = false → batch_bytes msgs + n ≤ ByteCountLimit (Config c).
Proof.
  intros [_ H2 _] [_ Hk] Hn Ht. revert Ht. unfold TestByteCountExceeded, ByteCountLimitIsEnabled.
  replace (ByteCountLimit (Config c) =? 0) with false by (symmetry; lia). cbn [negb].
  pose proof (batch_bytes_nonneg msgs). specialize (Hk ltac:(lia)). destruct Hcfg as [_ _ Hb].
  rewrite H2, uwrap_add by lia. rewrite uwrap_small by width_lia. lia.
Qed.

Lemma TestTimeLimit_false now ts :
  core_counts c msgs → ts ≤ INT64_MAX → TestTimeLimit now ts c = false →
  TimeLimit (Config c) ≠ 0 →
  now < swrap 64 (uwrap 64 (min_ts msgs `min` ts + TimeLimit (Config c))).
Proof.
  intros [_ _ H3] Hts Ht Hn. revert Ht. unfold TestTimeLimit, TimeLimitIsEnabled.
  replace (TimeLimit (Config c) =? 0) with false by (symmetry; lia). cbn [negb].
  rewrite H3. lia.
Qed.
End core.

(** What [ProcessNewMsg] does to a core that is in order: the messages it
    decides to hand out are within the limits, so are those it keeps, and the
    deadline of those it keeps has not passed. *)
Lemma ProcessNewMsg_ok now msg c msgs a c' :
  config_ok (Config c) → BatchingIsEnabled (Config c) = true → core_ok c msgs →
  Timestamp msg ≤ INT64_MAX →
  ProcessNewMsg now msg c = (a, c') →
  Config c' = Config c ∧ core_ok c' (kept a msgs msg) ∧
  sendable (Config c) (handed_out a msgs msg) ∧
  (TimeLimit (Config c) ≠ 0 → kept a msgs msg ≠ [] →
     now < deadline (Config c) (kept a msgs msg)).
Proof.
  intros Hcfg Hen [Hcc [Hk1 Hk2]] Hts. unfold ProcessNewMsg. rewrite Hen. cbn [negb].
  fold (body_size msg). pose proof (body_size_pos msg) as Hpos.
  pose proof (keepable_nil c Hcfg) as Hnil.
  assert (sendable (Config c) msgs) as Hsend.
  { split; intros Hn; [specialize (Hk1 Hn) | specialize (Hk2 Hn)]; lia. }
  destruct (ByteCountLimitIsEnabled (Config c) && _) eqn:Hbig.
  { intros [= <- <-]. split; [done |]. split; [split; [apply core_counts_clear | done] |].
    split; [done |]. done. }
  assert (ByteCountLimit (Config c) ≠ 0 → body_size msg < ByteCountLimit (Config c)) as Hsmall.
  { intros Hn. revert Hbig. unfold ByteCountLimitIsEnabled.
    replace (ByteCountLimit (Config c) =? 0) with false by (symmetry; lia). cbn. lia. }
  destruct (TestByteCountExceeded (body_size msg) c) eqn:Hexc.
  - destruct (TestMsgCount true _ || _) eqn:Hor; intros [= <- <-].
    { split; [done |]. split; [split; [apply core_counts_clear | done] |]. done. }
    apply orb_false_iff in Hor as [Hm Ht]. split; [done |]. split; [| split; [done |]].
    + split; [by apply (core_counts_update (ClearState c) []); [apply core_counts_clear |] |].
      split; cbn [UpdateState Config ClearState kept length].
      * intros Hn. revert Hm. unfold TestMsgCount, MsgCountLimitIsEnabled. cbn [ClearState Config].
        replace (MsgCountLimit (Config c) =? 0) with false by (symmetry; lia).
        change (MsgCount (ClearState c)) with 0. cbn [negb].
        rewrite uwrap_small by width_lia. cbn [length]. lia.
      * intros Hn. rewrite batch_bytes_one. by apply Hsmall.
    + intros Hn _. pose proof (TestTimeLimit_false (ClearState c) [] now _
        (core_counts_clear c) Hts Ht Hn) as Hlt.
      unfold deadline. cbn in *. by rewrite (Z.min_comm (Timestamp msg)).
  - pose proof (core_counts_update c msgs msg Hcc Hts) as Hcc'.
    assert (sendable (Config c) (msgs ++ [msg])) as Hsend'.
    { split; intros Hn.
      - rewrite length_app. cbn. specialize (Hk1 Hn). lia.
      - rewrite batch_bytes_app, batch_bytes_one. apply TestByteCountExceeded_false; try done.
        specialize (Hsmall Hn). lia. }
    destruct (TestAllLimits now _) eqn:Hall; intros [= <- <-].
    { split; [done |]. split; [split; [apply core_counts_clear | done] |]. done. }
    unfold TestAllLimits in Hall. apply orb_false_iff in Hall as [[Ht Hm]%orb_false_iff Hb].
    split; [done |]. split; [split; [done |] | split; [cbn |]].
    + split; cbn [kept UpdateState Config]; intros Hn.
      * eapply (TestMsgCount_false (UpdateState (Timestamp msg) (body_size msg) c)); try done.
        rewrite length_app. cbn. specialize (Hk1 Hn). destruct Hcfg. width_lia.
      * eapply (TestByteCount_false (UpdateState (Timestamp msg) (body_size msg) c)); try done.
        rewrite batch_bytes_app, batch_bytes_one. specialize (Hk2 Hn). specialize (Hsmall Hn).
        destruct Hcfg. width_lia.
    + split; intros; unfold batch_bytes, sumZ; cbn; destruct Hcfg; lia.
    + intros Hn _. pose proof (TestTimeLimit_false _ _ now INT64_MAX Hcc' ltac:(done) Ht Hn) as Hlt.
      unfold deadline. cbn [kept UpdateState Config] in *. rewrite Z.min_l in Hlt; [done |].
      rewrite min_ts_snoc by done. lia.
Qed.

(** ** The single-topic batcher *)

Record single_ok (b : TSingleTopicBatcher) : Prop := {
  so_cfg : config_ok (Config (CoreState b));
  so_core : core_ok (CoreState b) (MsgList b);
  so_off : Single_BatchingIsEnabled b = false → MsgList b = []
}.

Lemma single_ok_new config : config_ok config → single_ok (TSingleTopicBatcher_new config).
Proof.
  intros Hc. split; [done | | done]. split; [apply core_counts_nil |].
  by apply (keepable_nil (TBatcherCore_new config)).
Qed.

Definition single_config (b : TSingleTopicBatcher) : TBatchConfig := Config (CoreState b).

Lemma Single_AddMsg_ok msg now b :
  single_ok b → Timestamp msg ≤ INT64_MAX →
  ∃ batch left b', Single_AddMsg msg now b = (Ret (batch, left), b') ∧ single_ok b' ∧
    single_config b' = single_config b ∧
    MsgList b ++ [msg] = batch ++ option_list left ++ MsgList b' ∧
    sendable (single_config b) batch ∧ (left ≠ None → MsgList b' = []) ∧
    (TimeLimit (single_config b) ≠ 0 → left = None → MsgList b' ≠ [] →
       now < deadline (single_config b) (MsgList b')) ∧
    (Single_BatchingIsEnabled b = false → batch = [] ∧ left = Some msg ∧ b' = b).
Proof.
  intros [Hcfg Hcore Hoff] Hts. unfold Single_AddMsg, DoAddMsg.
  destruct (Single_BatchingIsEnabled b) eqn:Hen; cbn [negb].
  - destruct (ProcessNewMsg now msg (CoreState b)) as [a c'] eqn:Hp.
    destruct (ProcessNewMsg_ok _ _ _ _ _ _ Hcfg Hen Hcore Hts Hp) as (Hc & Hcore' & Hs & Ht).
    exists (handed_out a (MsgList b) msg), (left_over a msg),
      (mkSingle c' (kept a (MsgList b) msg)).
    assert (uwrap 64 (Z.of_nat (length (kept a (MsgList b) msg))) =? MsgCount c' = true) as Hassert.
    { destruct Hcore' as [[-> _ _] _]. apply Z.eqb_refl. }
    split; [destruct a; cbn [MsgList CoreState handed_out left_over kept] in *; by rewrite Hassert |].
    split; [split; cbn; rewrite ?Hc; try done |].
    { unfold Single_BatchingIsEnabled in *. cbn. rewrite Hc, Hen. done. }
    split; [done |]. split; [apply handed_kept |]. split; [done |].
    split; [by destruct a |]. split; [| done]. intros Hn _ Hne. by apply Ht.
  - specialize (Hoff eq_refl). exists [], (Some msg), b. rewrite Hoff. cbn [length MsgList].
    assert (MsgCount (CoreState b) = 0) as -> by (destruct Hcore as [[-> _ _] _]; by rewrite Hoff).
    split; [done |]. split; [by split |]. split; [done |]. split; [done |].
    split; [| done]. destruct Hcfg.
    split; intros; unfold single_config, batch_bytes, sumZ; cbn; lia.
Qed.

Lemma Single_TakeBatch_ok b :
  single_ok b →
  ∃ b', Single_TakeBatch b = (Ret (MsgList b), b') ∧ single_ok b' ∧
    single_config b' = single_config b ∧ MsgList b' = [] ∧
    Single_GetNextCompleteTime b' = None.
Proof.
  intros [Hcfg Hcore Hoff]. eexists. split; [done |]. split; [| done].
  split; [done | | done]. split; [apply core_counts_clear |]. by apply (keepable_nil (CoreState b)).
Qed.

(** When a batch is due. *)
Lemma core_next c msgs :
  core_counts c msgs → Z.of_nat (length msgs) < 2 ^ 64 →
  Core_GetNextCompleteTime c =
    if decide (TimeLimit (Config c) ≠ 0 ∧ msgs ≠ [])
    then Some (deadline (Config c) msgs) else None.
Proof.
  intros [H1 _ H3] Hl. unfold Core_GetNextCompleteTime, Core_IsEmpty, TimeLimitIsEnabled.
  rewrite H1, H3, uwrap_small by width_lia. unfold deadline.
  destruct (TimeLimit _ =? 0) eqn:Ht; cbn [negb].
  - rewrite orb_true_r, decide_False by lia. done.
  - rewrite orb_false_r. destruct msgs as [| m l]; [by rewrite decide_False by naive_solver |].
    rewrite decide_True by (split; [lia | done]). rewrite length_cons.
    assert (Z.of_nat (S (length l)) =? 0 = false) as ->; [| done]. apply Z.eqb_neq. lia.
Qed.

Lemma Single_next b :
  single_ok b → Z.of_nat (length (MsgList b)) < 2 ^ 64 →
  Single_GetNextCompleteTime b =
    if decide (TimeLimit (single_config b) ≠ 0 ∧ MsgList b ≠ [])
    then Some (deadline (single_config b) (MsgList b)) else None.
Proof. intros [_ [Hc _] _] Hl. by apply core_next. Qed.

(** Additions in sequence; what leaves the batcher is the batches, and the
    messages it does not take. *)
Fixpoint single_run (adds : list (TMsg * Z)) : SBM (list TMsg) :=
  match adds with
  | [] => mret []
  | (msg, now) :: adds =>
      '(batch, back) ← Single_AddMsg msg now;
      rest ← single_run adds;
      mret (batch ++ option_list back ++ rest)
  end.

Lemma single_run_ok adds b :
  single_ok b → Forall (λ a : TMsg * Z, Timestamp a.1 ≤ INT64_MAX) adds →
  ∃ out b', single_run adds b = (Ret out, b') ∧ single_ok b' ∧
    single_config b' = single_config b ∧ MsgList b ++ adds.*1 = out ++ MsgList b'.
Proof.
  revert b. induction adds as [| [msg now] adds IH]; intros b Hb Hts.
  - exists [], b. cbn. rewrite app_nil_r. done.
  - apply Forall_cons in Hts as [Hm Hts].
    destruct (Single_AddMsg_ok msg now b Hb Hm) as (batch & left & b1 & Hr & Hb1 & Hc & Hmsgs & _).
    destruct (IH b1 Hb1 Hts) as (out & b2 & Hr2 & Hb2 & Hc2 & Hmsgs2).
    exists (batch ++ option_list left ++ out), b2. split; [| split; [done | split; [congruence |]]].
    + cbn [single_run]. unfold SBM. rewrite (bind_Ret _ _ _ _ _ Hr). cbv beta iota.
      by rewrite (bind_Ret _ _ _ _ _ Hr2).
    + cbn. replace (MsgList b ++ msg :: adds.*1) with ((MsgList b ++ [msg]) ++ adds.*1)
        by by rewrite <- app_assoc.
      rewrite Hmsgs, <- !app_assoc, Hmsgs2. done.
Qed.

(** ** The topic map *)

Definition of_topic (t : string) (msgs : list TMsg) : list TMsg :=
  filter (λ m, Topic m = t) msgs.

(** The map holds the messages [msgs], in their order within each topic. *)
Definition topics_rep (m : TTopicMap) (msgs : list TMsg) : Prop :=
  ∀ t, m !! t = match of_topic t msgs with [] => None | l => Some l end.

(** [batches] is [msgs] grouped by topic, every topic once. *)
Definition grouped (batches : list (list TMsg)) (msgs : list TMsg) : Prop :=
  NoDup batches ∧ ∀ l, l ∈ batches ↔ l ≠ [] ∧ ∃ t, l = of_topic t msgs.

Lemma topics_rep_empty : topics_rep ∅ [].
Proof. intros t. done. Qed.

Lemma of_topic_snoc t msgs m :
  of_topic t (msgs ++ [m]) = of_topic t msgs ++ if decide (Topic m = t) then [m] else [].
Proof.
  unfold of_topic. rewrite filter_app. by f_equal.
Qed.

Lemma topics_rep_lookup m msgs t : topics_rep m msgs → default [] (m !! t) = of_topic t msgs.
Proof. intros H. rewrite H. by destruct (of_topic t msgs). Qed.

Lemma TopicMap_Put_rep msg m msgs :
  topics_rep m msgs → topics_rep (TopicMap_Put msg m) (msgs ++ [msg]).
Proof.
  intros Hm t. unfold TopicMap_Put, PutCommon. pose proof (Hm (Topic msg)) as Ht.
  rewrite of_topic_snoc. destruct (decide (Topic msg = t)) as [<- | Hne].
  - rewrite Ht. destruct (of_topic (Topic msg) msgs) as [| x l]; apply lookup_insert_eq.
  - rewrite app_nil_r, <- (Hm t). by destruct (m !! Topic msg); apply lookup_insert_ne.
Qed.

Section topic_map.
Context `{HashOrder}.

Lemma of_topic_inj t t' msgs : of_topic t msgs ≠ [] → of_topic t msgs = of_topic t' msgs → t = t'.
Proof.
  intros Hne He. destruct (of_topic t msgs) as [| x l] eqn:E; [done |].
  assert (x ∈ of_topic t msgs) as [H1 _]%list_elem_of_filter by (rewrite E; left).
  assert (x ∈ of_topic t' msgs) as [H2 _]%list_elem_of_filter by (rewrite <- He; left).
  congruence.
Qed.

Lemma topics_rep_item m msgs t l :
  topics_rep m msgs → (t, l) ∈ hash_order m ↔ l = of_topic t msgs ∧ l ≠ [].
Proof.
  intros Hm. rewrite hash_order_perm, elem_of_map_to_list, Hm.
  destruct (of_topic t msgs) eqn:E; naive_solver.
Qed.

Lemma TopicMap_Get_grouped m msgs :
  topics_rep m msgs → grouped (TopicMap_Get m).1 msgs ∧ (TopicMap_Get m).2 = ∅.
Proof.
  intros Hm. split; [| done]. unfold TopicMap_Get. cbn [fst].
  assert (filter (λ l : list TMsg, l ≠ []) (snd <$> hash_order m) = snd <$> hash_order m) as ->.
  { assert (∀ x, x ∈ hash_order m → x.2 ≠ []) as Hne.
    { intros [t l] Hx. apply (topics_rep_item _ _ _ _ Hm) in Hx. tauto. }
    induction (hash_order m) as [| x l IH]; [done |].
    rewrite fmap_cons, filter_cons, decide_True by (apply Hne; left). f_equal. apply IH.
    intros y Hy. apply Hne. by right. }
  split.
  - apply NoDup_fmap_2_strong.
    + intros [t l] [t' l'] Hx Hy. cbn. intros <-.
      apply (topics_rep_item _ _ _ _ Hm) in Hx as [-> Hne].
      apply (topics_rep_item _ _ _ _ Hm) in Hy as [He _].
      f_equal. by apply (of_topic_inj t t' msgs).
    + rewrite hash_order_perm. apply NoDup_map_to_list.
  - intros l. rewrite list_elem_of_fmap. split.
    + intros ([t l'] & -> & Hx). apply (topics_rep_item _ _ _ _ Hm) in Hx as [-> Hne]. eauto.
    + intros [Hne [t ->]]. exists (t, of_topic t msgs). split; [done |].
      by apply (topics_rep_item _ _ _ _ Hm).
Qed.

(** ** The combined batcher *)

Record combined_ok (b : TCombinedTopicsBatcher) (msgs : list TMsg) : Prop := {
  cb_cfg : config_ok (Config (CombCore b));
  cb_core : core_ok (CombCore b) msgs;
  cb_topics : topics_rep (TopicMap b) msgs;
  cb_enabled : Forall (λ m, Combined_BatchingIsEnabled_topic (Topic m) b = true) msgs
}.

Lemma enabled_topic_enabled t b :
  Combined_BatchingIsEnabled_topic t b = true → BatchingIsEnabled (Config (CombCore b)) = true.
Proof. unfold Combined_BatchingIsEnabled_topic. by destruct (BatchingIsEnabled _). Qed.

Lemma enabled_with t c m b :
  Config c = Config (CombCore b) →
  Combined_BatchingIsEnabled_topic t (with_topics m (with_core c b)) =
  Combined_BatchingIsEnabled_topic t b.
Proof. intros Hc. unfold Combined_BatchingIsEnabled_topic. cbn. by rewrite Hc. Qed.

Lemma grouped_nil : grouped [] [].
Proof.
  split; [constructor |]. intros l. rewrite elem_of_nil. split; [done |]. by intros [Hl [t ->]].
Qed.

Lemma Combined_TakeBatch_ok b msgs :
  combined_ok b msgs →
  grouped (Combined_TakeBatch b).1 msgs ∧ combined_ok (Combined_TakeBatch b).2 [].
Proof.
  intros [H1 H2 H3 H4]. destruct (TopicMap_Get_grouped _ _ H3) as [Hg He].
  unfold Combined_TakeBatch. destruct (TopicMap_Get (TopicMap b)) as [r m]. cbn in *.
  split; [done |]. subst m. split; cbn; [done | | apply topics_rep_empty | constructor].
  split; [apply core_counts_clear |]. by apply (keepable_nil (CombCore b)).
Qed.

Lemma Combined_AddMsg_ok msg now b msgs :
  combined_ok b msgs → Timestamp msg ≤ INT64_MAX →
  ∃ batches back b' out kept,
    Combined_AddMsg msg now b = ((batches, back), b') ∧ combined_ok b' kept ∧
    Config (CombCore b') = Config (CombCore b) ∧
    grouped batches out ∧ msgs ++ [msg] = out ++ kept ++ option_list back ∧
    sendable (Config (CombCore b)) out ∧
    (Combined_BatchingIsEnabled_topic (Topic msg) b = false → back = Some msg) ∧
    (TimeLimit (Config (CombCore b)) ≠ 0 → kept ≠ [] → Z.of_nat (length kept) < 2 ^ 64 →
       now < deadline (Config (CombCore b)) kept).
Proof.
  intros Hb Hts. pose proof Hb as [Hcfg Hcore Htop Hen].
  assert (sendable (Config (CombCore b)) msgs) as Hsend.
  { destruct Hcore as [_ [Hk1 Hk2]]. split; intros Hn; [specialize (Hk1 Hn) | specialize (Hk2 Hn)]; lia. }
  assert (sendable (Config (CombCore b)) []) as Hsend0.
  { destruct Hcfg. split; intros; unfold batch_bytes, sumZ; cbn; lia. }
  unfold Combined_AddMsg.
  destruct (Combined_BatchingIsEnabled_topic (Topic msg) b) eqn:Et; cbn [negb].
  - destruct (ProcessNewMsg now msg (CombCore b)) as [a c'] eqn:Hp.
    destruct (ProcessNewMsg_ok _ _ _ _ _ _ Hcfg (enabled_topic_enabled _ _ Et) Hcore Hts Hp)
      as (Hc & Hcore' & Hs & Ht).
    assert (∀ m, topics_rep m (kept a msgs msg) →
      combined_ok (with_topics m (with_core c' b)) (kept a msgs msg)) as Hok.
    { intros m Hm. split; cbn [CombCore TopicMap with_topics with_core]; [by rewrite Hc | done | done |].
      apply (Forall_impl (λ x, Combined_BatchingIsEnabled_topic (Topic x) b = true));
        [| by intros x; rewrite enabled_with].
      destruct a; cbn; rewrite ?Forall_app, ?Forall_singleton; auto. }
    pose proof grouped_nil as Hg0.
    destruct (TopicMap_Get_grouped _ _ Htop) as [Hg He].
    destruct (TopicMap_Get_grouped _ _ (TopicMap_Put_rep msg _ _ Htop)) as [Hg' He'].
    pose proof (TopicMap_Put_rep msg ∅ [] topics_rep_empty : topics_rep _ [msg]) as Hone.
    cbn [with_core TopicMap]. destruct (TopicMap_Get (TopicMap b)) as [r m].
    destruct (TopicMap_Get (TopicMap_Put msg (TopicMap b))) as [r' m']. cbn [fst snd] in *. subst m m'.
    destruct a; cbn [handed_out kept left_over option_list] in *;
      eexists _, _, _, _, _; (split; [done |]); (split; [apply Hok; eauto using
        topics_rep_empty, TopicMap_Put_rep |]); (split; [done |]); (split; [done |]);
      (split; [by rewrite ?app_nil_r |]); (split; [done |]); (split; [done |]); intros; by apply Ht.
  - pose proof grouped_nil as Hg0.
    destruct (Combined_GetNextCompleteTime b) as [nct |] eqn:Hn; [destruct (nct <=? now) eqn:Hd |].
    + destruct (Combined_TakeBatch_ok b msgs Hb) as [Hg Hok].
      assert (Config (CombCore (Combined_TakeBatch b).2) = Config (CombCore b)) as Hc.
      { unfold Combined_TakeBatch. by destruct (TopicMap_Get _). }
      destruct (Combined_TakeBatch b) as [r b']. exists r, (Some msg), b', msgs, []. done.
    + exists [], (Some msg), b, [], msgs. do 7 (split; [done |]). intros Ht Hne Hl.
      unfold Combined_GetNextCompleteTime in Hn.
      rewrite (core_next _ msgs (ok_counts _ _ Hcore) Hl), decide_True in Hn by done.
      injection Hn as <-. lia.
    + exists [], (Some msg), b, [], msgs. do 7 (split; [done |]). intros Ht Hne Hl.
      unfold Combined_GetNextCompleteTime in Hn.
      by rewrite (core_next _ msgs (ok_counts _ _ Hcore) Hl), decide_True in Hn.
Qed.
End topic_map.

(** ** Theorems *)

(** The batching decision respects the limits.  With the counters of the
    messages held in order, [ProcessNewMsg] never lets a batch exceed the byte
    or message limit: what it hands out has at most the limits' bytes and
    messages, what it keeps stays strictly below both, and if a time limit is
    set the deadline of what it keeps has not passed.  Machine integers are
    kept at their width throughout. *)
Theorem ProcessNewMsg_limits now msg c msgs :
  config_ok (Config c) → BatchingIsEnabled (Config c) = true → core_ok c msgs →
  Timestamp msg ≤ INT64_MAX →
  let '(a, c') := ProcessNewMsg now msg c in
  Config c' = Config c ∧ core_ok c' (kept a msgs msg) ∧
  sendable (Config c) (handed_out a msgs msg) ∧
  (TimeLimit (Config c) ≠ 0 → kept a msgs msg ≠ [] →
     now < deadline (Config c) (kept a msgs msg)).
Proof.
  intros Hc He Hok Ht. destruct (ProcessNewMsg now msg c) as [a c'] eqn:Hp.
  by eapply ProcessNewMsg_ok.
Qed.

(** A single-topic batcher loses, duplicates and reorders nothing.  For
    every sequence of additions to a new batcher no assertion fails, and the
    messages that came out (in batches, or left with the caller) followed by
    those still held are the messages added, in order; those still held are
    below the limits. *)
Theorem single_batcher_fifo config adds :
  config_ok config → Forall (λ a : TMsg * Z, Timestamp a.1 ≤ INT64_MAX) adds →
  ∃ out b, single_run adds (TSingleTopicBatcher_new config) = (Ret out, b) ∧
    adds.*1 = out ++ MsgList b ∧ keepable config (MsgList b).
Proof.
  intros Hc Hts. destruct (single_run_ok adds _ (single_ok_new _ Hc) Hts)
    as (out & b & Hr & [_ [_ Hk] _] & Hcfg & Hm).
  exists out, b. split; [done |]. split; [done |]. unfold single_config in Hcfg.
  by rewrite Hcfg in Hk.
Qed.

(** The combined batcher groups by topic without losing messages.  Adding
    a message to a batcher that holds [msgs] returns batches that are some
    first part of the messages grouped by topic (every topic in one batch, in
    order of arrival), keeps the rest, and takes the message or leaves it with
    the caller; a message of a topic that is not batched is always left; what
    is kept is not overdue and what is returned is within the limits. *)
Theorem combined_batcher_groups `{HashOrder} msg now b msgs :
  combined_ok b msgs → Timestamp msg ≤ INT64_MAX →
  ∃ batches back b' out kept,
    Combined_AddMsg msg now b = ((batches, back), b') ∧ combined_ok b' kept ∧
    Config (CombCore b') = Config (CombCore b) ∧
    grouped batches out ∧ msgs ++ [msg] = out ++ kept ++ option_list back ∧
    sendable (Config (CombCore b)) out ∧
    (Combined_BatchingIsEnabled_topic (Topic msg) b = false → back = Some msg) ∧
    (TimeLimit (Config (CombCore b)) ≠ 0 → kept ≠ [] → Z.of_nat (length kept) < 2 ^ 64 →
       now < deadline (Config (CombCore b)) kept).
Proof. apply Combined_AddMsg_ok. Qed.

(** ** Examples *)

Definition ex_config : TBatchConfig := mkBatchConfig 10 3 100.

Lemma ex_config_ok : config_ok ex_config.
Proof. split; cbn; lia. Qed.

Definition ex_combined : TCombinedTopicsBatcher := TCombinedTopicsBatcher_new ex_config ∅ true.

Lemma ProcessNewMsg_limits_witness :
  ∃ c', ProcessNewMsg 105 (ex_msg "a" New) (TBatcherCore_new ex_config) =
    (TakeMsgAndLeaveBatch, c') ∧ core_ok c' [ex_msg "a" New].
Proof.
  assert (ProcessNewMsg 105 (ex_msg "a" New) (TBatcherCore_new ex_config) =
    (TakeMsgAndLeaveBatch, mkCore ex_config 100 1 1)) as E by (vm_compute; reflexivity).
  pose proof (ProcessNewMsg_limits 105 (ex_msg "a" New) (TBatcherCore_new ex_config) []
    ex_config_ok eq_refl (so_core _ (single_ok_new _ ex_config_ok))) as H.
  rewrite E in H. exists (mkCore ex_config 100 1 1). split; [exact E |]. apply H.
  vm_compute. discriminate.
Defined.

Lemma single_batcher_fifo_witness :
  ∃ out b, single_run [(ex_msg "a" New, 1); (ex_msg "a" Batching, 120)]
      (TSingleTopicBatcher_new ex_config) = (Ret out, b) ∧
    [ex_msg "a" New; ex_msg "a" Batching] = out ++ MsgList b ∧ keepable ex_config (MsgList b).
Proof.
  apply (single_batcher_fifo ex_config [(ex_msg "a" New, 1); (ex_msg "a" Batching, 120)]).
  - exact ex_config_ok.
  - repeat constructor; vm_compute; discriminate.
Defined.

Lemma combined_batcher_groups_witness :
  ∃ batches back b' out kept,
    @Combined_AddMsg map_order (ex_msg "a" New) 5 ex_combined = ((batches, back), b') ∧
    combined_ok b' kept ∧ [ex_msg "a" New] = out ++ kept ++ option_list back.
Proof.
  destruct (@combined_batcher_groups map_order (ex_msg "a" New) 5 ex_combined [])
    as (batches & back & b' & out & kept & H1 & H2 & _ & _ & H3 & _).
  - split; [exact ex_config_ok | | apply topics_rep_empty | constructor].
    apply (so_core _ (single_ok_new _ ex_config_ok)).
  - vm_compute. discriminate.
  - exists batches, back, b', out, kept. split; [exact H1 |]. split; [exact H2 | exact H3].
Defined.
