(* ===== verification/PerTopicBatcher.v ===== *)
(** * Per-topic batching (dory/batch/per_topic_batcher.h, per_topic_batcher.cc)

    One batcher per topic, and a multiset of expiry records ordered by time
    that tells which batches are due.  A record of the multiset has an identity
    (what a [multiset] iterator refers to); [ExpiryRef] of a topic's entry is
    the identity of its record, or none for [end()].  The multiset is the list
    of its records in iteration order: ascending expiry, and among equals in
    the order of insertion. *)
From Stdlib Require Import Sorting.Sorted.
From S2P Require Import Prelude FieldAccess Capped Msg Batch.

Record TBatchExpiryRecord := mkExpiry {
  RecId : nat;
  Expiry : Z;
  RecTopic : string
}.

Record TBatchMapEntry := mkEntry {
  Batcher : TSingleTopicBatcher;
  ExpiryRef : option nat
}.

(** [TPerTopicBatcher::TConfig]. *)
Record TPerTopicConfig := mkPerTopicConfig {
  DefaultTopic : TBatchConfig;
  PerTopic : gmap string TBatchConfig
}.

Definition Config_Get (topic : string) (c : TPerTopicConfig) : TBatchConfig :=
  match PerTopic c !! topic with
  | None => DefaultTopic c
  | Some config => config
  end.

Record TPerTopicBatcher := mkPerTopic {
  PTConfig : TPerTopicConfig;
  BatchMap : gmap string TBatchMapEntry;
  ExpiryTracker : list TBatchExpiryRecord;
  NextRecId : nat
}.

Definition TPerTopicBatcher_new (config : TPerTopicConfig) : TPerTopicBatcher :=
  mkPerTopic config ∅ [] 0.

Definition PM := M Empty_set TPerTopicBatcher.

Definition set_map (f : gmap string TBatchMapEntry → gmap string TBatchMapEntry) : PM () :=
  modify (λ b, mkPerTopic (PTConfig b) (f (BatchMap b)) (ExpiryTracker b) (NextRecId b)).

(** [multiset::insert]: after every record that is not later. *)
Fixpoint expiry_insert (r : TBatchExpiryRecord) (l : list TBatchExpiryRecord)
    : list TBatchExpiryRecord :=
  match l with
  | [] => [r]
  | x :: l => if Expiry r <? Expiry x then r :: x :: l else x :: expiry_insert r l
  end.

Definition tracker_insert (expiry : Z) (topic : string) : PM nat :=
  r ← gets NextRecId;
  modify (λ b, mkPerTopic (PTConfig b) (BatchMap b)
                 (expiry_insert (mkExpiry r expiry topic) (ExpiryTracker b)) (S r));;
  mret r.

(** Dereferencing or erasing through an iterator that is not in the multiset
    is a fault. *)
Definition tracker_deref (r : nat) : PM TBatchExpiryRecord :=
  l ← gets ExpiryTracker;
  need OutOfBounds (snd <$> list_find (λ x, RecId x = r) l).

Definition tracker_erase (r : nat) : PM () :=
  tracker_deref r;;
  modify (λ b, mkPerTopic (PTConfig b) (BatchMap b)
                 (filter (λ x, RecId x ≠ r) (ExpiryTracker b)) (NextRecId b)).

Definition get_entry (topic : string) : PM TBatchMapEntry :=
  m ← gets BatchMap;
  need NullDeref (m !! topic).

Definition set_ref (topic : string) (ref : option nat) : PM () :=
  set_map (alter (λ e, mkEntry (Batcher e) ref) topic).

(** An operation of the single-topic batcher of an entry. *)
Definition on_batcher {A} (topic : string) (m : SBM A) : PM A :=
  e ← get_entry topic;
  match m (Batcher e) with
  | (Ret a, b') => set_map (alter (λ e, mkEntry b' (ExpiryRef e)) topic);; mret a
  | (Throw x, b') => match x with end
  | (Fault x, b') => crash x
  end.

(** The loop of [GetCompleteBatches] from record [curr] on; erasing a record
    leaves the later ones in place. *)
Fixpoint GetCompleteBatches_loop (now : Z) (recs : list TBatchExpiryRecord)
    : PM (list (list TMsg)) :=
  match recs with
  | [] => mret []
  | curr :: rest =>
      if Expiry curr <=? now then
        m ← gets BatchMap;
        entry ← need AssertFailed (m !! RecTopic curr);
        massert (bool_decide (ExpiryRef entry = Some (RecId curr)));;
        massert (negb (Single_IsEmpty (Batcher entry)));;
        batch ← on_batcher (RecTopic curr) Single_TakeBatch;
        set_ref (RecTopic curr) None;;
        tracker_erase (RecId curr);;
        result ← GetCompleteBatches_loop now rest;
        mret (batch :: result)
      else mret []
  end.

Definition GetCompleteBatches (now : Z) : PM (list (list TMsg)) :=
  recs ← gets ExpiryTracker;
  GetCompleteBatches_loop now recs.

(** The part of [AddMsg] that brings the expiry record of the topic up to date. *)
Definition UpdateExpiry (topic : string) (expiry_ref : option nat) (expiry : Z)
    (opt_nct_final : option Z) : PM () :=
  let '(remove_old_expiry, add_new_expiry) :=
    match expiry_ref, opt_nct_final with
    | Some _, Some nct => if decide (nct ≠ expiry) then (true, true) else (false, false)
    | Some _, None => (true, false)
    | None, Some _ => (false, true)
    | None, None => (false, false)
    end in
  match remove_old_expiry, expiry_ref with
  | true, Some r => tracker_erase r;; set_ref topic None
  | _, _ => mret ()
  end;;
  match add_new_expiry, opt_nct_final with
  | true, Some nct => r ← tracker_insert nct topic; set_ref topic (Some r)
  | _, _ => mret ()
  end.

(** The part of [AddMsg] for a topic that is batched: the batches of the
    message's topic that are complete. *)
Definition AddMsg_enabled (msg : TMsg) (now : Z) (entry : TBatchMapEntry)
    : PM (list (list TMsg)) :=
  let topic := Topic msg in
  let opt_nct_initial := Single_GetNextCompleteTime (Batcher entry) in
  massert (eqb (bool_decide (is_Some opt_nct_initial)) (bool_decide (is_Some (ExpiryRef entry))));;
  expiry ← match ExpiryRef entry with
           | None => mret 0
           | Some r =>
               rec ← tracker_deref r;
               massert (bool_decide (opt_nct_initial = Some (Expiry rec)));;
               mret (Expiry rec)
           end;
  '(complete_batch, back) ← on_batcher topic (Single_AddMsg msg now);
  entry' ← get_entry topic;
  let opt_nct_final := Single_GetNextCompleteTime (Batcher entry') in
  UpdateExpiry topic (ExpiryRef entry) expiry opt_nct_final;;
  let batches := match complete_batch with [] => [] | _ => [complete_batch] end in
  mret (match back with None => batches | Some msg => batches ++ [[msg]] end).

(** [AddMsg]: the batches, and the message if it is left with the caller. *)
Definition PerTopic_AddMsg (msg : TMsg) (now : Z) : PM (list (list TMsg) * option TMsg) :=
  let topic := Topic msg in
  config ← gets PTConfig;
  set_map (λ m, match m !! topic with
                | Some _ => m
                | None =>
                    <[topic := mkEntry (TSingleTopicBatcher_new (Config_Get topic config)) None]> m
                end);;
  entry ← get_entry topic;
  '(complete_topic_batches, back) ←
    (if Single_BatchingIsEnabled (Batcher entry) then
       batches ← AddMsg_enabled msg now entry; mret (batches, None)
     else mret ([], Some msg));
  batch_list ← GetCompleteBatches now;
  mret (batch_list ++ complete_topic_batches, back).

Definition PerTopic_GetNextCompleteTime (b : TPerTopicBatcher) : option Z :=
  Expiry <$> head (ExpiryTracker b).

Section all_batches.
Context `{HashOrder}.

Fixpoint GetAllBatches_loop (topics : list string) : PM (list (list TMsg)) :=
  match topics with
  | [] => mret []
  | topic :: topics =>
      batch ← on_batcher topic Single_TakeBatch;
      set_ref topic None;;
      result ← GetAllBatches_loop topics;
      mret (match batch with [] => result | _ => batch :: result end)
  end.

Definition GetAllBatches : PM (list (list TMsg)) :=
  m ← gets BatchMap;
  result ← GetAllBatches_loop (hash_order m).*1;
  modify (λ b, mkPerTopic (PTConfig b) (BatchMap b) [] (NextRecId b));;
  mret result.
End all_batches.

Definition DeleteTopic (topic : string) : PM (list TMsg) :=
  m ← gets BatchMap;
  match m !! topic with
  | None => mret []
  | Some entry =>
      batch ← on_batcher topic Single_TakeBatch;
      match ExpiryRef entry with
      | None => mret ()
      | Some ref =>
          rec ← tracker_deref ref;
          massert (bool_decide (RecTopic rec = topic));;
          massert (bool_decide (batch ≠ []));;
          tracker_erase ref
      end;;
      set_map (delete topic);;
      mret batch
  end.

(** [SanityCheck]. *)
Definition entry_sane (tracker : list TBatchExpiryRecord) (topic : string) (entry : TBatchMapEntry)
    : bool :=
  let expiry_iter := snd <$> list_find (λ r, RecTopic r = topic) tracker in
  match Single_GetNextCompleteTime (Batcher entry) with
  | Some time_limit =>
      match expiry_iter with
      | None => false
      | Some rec =>
          if bool_decide (ExpiryRef entry ≠ Some (RecId rec)) then false
          else negb (bool_decide (Expiry rec ≠ time_limit))
      end
  | None =>
      negb (bool_decide (ExpiryRef entry ≠ None) || bool_decide (expiry_iter ≠ None))
  end.

Fixpoint tracker_sane (m : gmap string TBatchMapEntry) (topic_set : gset string)
    (recs : list TBatchExpiryRecord) : bool :=
  match recs with
  | [] => true
  | rec :: recs =>
      if bool_decide (m !! RecTopic rec = None) then false
      else if bool_decide (RecTopic rec ∈ topic_set) then false
      else tracker_sane m ({[RecTopic rec]} ∪ topic_set) recs
  end.

Definition SanityCheck `{HashOrder} (b : TPerTopicBatcher) : bool :=
  forallb (λ i, entry_sane (ExpiryTracker b) i.1 i.2) (hash_order (BatchMap b)) &&
  tracker_sane (BatchMap b) ∅ (ExpiryTracker b).

(** ** The invariant *)

Definition nct (e : TBatchMapEntry) : option Z := Single_GetNextCompleteTime (Batcher e).

(** The messages batched for a topic. *)
Definition held (b : TPerTopicBatcher) (t : string) : list TMsg :=
  from_option (λ e, MsgList (Batcher e)) [] (BatchMap b !! t).

Record entry_ok (cfg : TPerTopicConfig) (t : string) (e : TBatchMapEntry) : Prop := {
  eo_single : single_ok (Batcher e);
  eo_config : single_config (Batcher e) = Config_Get t cfg;
  eo_topic : Forall (λ m, Topic m = t) (MsgList (Batcher e));
  eo_size : Z.of_nat (length (MsgList (Batcher e))) < 2 ^ 64
}.

(** The entry's reference is right: none when no batch is due at any time, or
    the record of the topic with the batch's deadline. *)
Definition ref_ok (tracker : list TBatchExpiryRecord) (t : string) (e : TBatchMapEntry) : Prop :=
  match ExpiryRef e with
  | None => nct e = None
  | Some r => ∃ x, x ∈ tracker ∧ RecId x = r ∧ RecTopic x = t ∧ nct e = Some (Expiry x)
  end.

Record pt_inv (b : TPerTopicBatcher) : Prop := {
  pi_cfg : ∀ t, config_ok (Config_Get t (PTConfig b));
  pi_entry : ∀ t e, BatchMap b !! t = Some e → entry_ok (PTConfig b) t e;
  pi_ref : ∀ t e, BatchMap b !! t = Some e → ref_ok (ExpiryTracker b) t e;
  pi_rec : ∀ x, x ∈ ExpiryTracker b →
    ∃ e, BatchMap b !! RecTopic x = Some e ∧ ExpiryRef e = Some (RecId x);
  pi_ids : NoDup (RecId <$> ExpiryTracker b);
  pi_fresh : ∀ x, x ∈ ExpiryTracker b → (RecId x < NextRecId b)%nat;
  pi_sorted : StronglySorted (λ x y, Expiry x ≤ Expiry y) (ExpiryTracker b)
}.

Lemma pt_inv_new config :
  (∀ t, config_ok (Config_Get t config)) → pt_inv (TPerTopicBatcher_new config).
Proof. intros Hc. split; cbn; try done; try (intros; set_solver); constructor. Qed.

(** The records of a topic: the one its entry refers to. *)
Lemma rec_topic_inj b x y :
  pt_inv b → x ∈ ExpiryTracker b → y ∈ ExpiryTracker b → RecTopic x = RecTopic y →
  RecId x = RecId y.
Proof.
  intros Hi Hx Hy Ht. destruct (pi_rec b Hi x Hx) as (e & He & Hr).
  destruct (pi_rec b Hi y Hy) as (e' & He' & Hr'). rewrite Ht in He. congruence.
Qed.

Lemma rec_id_inj b x y :
  pt_inv b → x ∈ ExpiryTracker b → y ∈ ExpiryTracker b → RecId x = RecId y → x = y.
Proof.
  intros Hi Hx Hy He. apply list_elem_of_lookup_1 in Hx as [i Hi'].
  apply list_elem_of_lookup_1 in Hy as [j Hj].
  assert (i = j) as ->; [| congruence].
  eapply (NoDup_lookup (RecId <$> ExpiryTracker b)); [apply (pi_ids b Hi) | |];
    rewrite list_lookup_fmap; [by rewrite Hi' | by rewrite Hj; cbn; f_equal].
Qed.

Lemma find_id b x :
  pt_inv b → x ∈ ExpiryTracker b →
  snd <$> list_find (λ y, RecId y = RecId x) (ExpiryTracker b) = Some x.
Proof.
  intros Hi Hx.
  destruct (list_find (λ y, RecId y = RecId x) (ExpiryTracker b)) as [[i y] |] eqn:Hf.
  - apply list_find_Some in Hf as (Hy & He & _).
    apply list_elem_of_lookup_2 in Hy. cbn. by rewrite (rec_id_inj b y x).
  - apply list_find_None in Hf. rewrite Forall_forall in Hf. by destruct (Hf x Hx).
Qed.

Lemma tracker_deref_ok b x :
  pt_inv b → x ∈ ExpiryTracker b → tracker_deref (RecId x) b = (Ret x, b).
Proof. intros Hi Hx. unfold tracker_deref. munfold. cbv beta. by rewrite find_id. Qed.

Lemma get_entry_ok b t e : BatchMap b !! t = Some e → get_entry t b = (Ret e, b).
Proof. intros He. unfold get_entry. munfold. cbv beta. by rewrite He. Qed.

Definition with_entry (t : string) (e : TBatchMapEntry) (b : TPerTopicBatcher) : TPerTopicBatcher :=
  mkPerTopic (PTConfig b) (<[t := e]> (BatchMap b)) (ExpiryTracker b) (NextRecId b).

Definition without (r : nat) (l : list TBatchExpiryRecord) : list TBatchExpiryRecord :=
  filter (λ x, RecId x ≠ r) l.

Lemma set_alter_ok b t e f :
  BatchMap b !! t = Some e →
  set_map (alter f t) b = (Ret (), with_entry t (f e) b).
Proof.
  intros He. unfold set_map, modify, with_entry. do 2 f_equal. apply map_eq. intros t'.
  destruct (decide (t = t')) as [<- |].
  - by rewrite lookup_alter_eq, lookup_insert_eq, He.
  - by rewrite lookup_alter_ne, lookup_insert_ne.
Qed.

Lemma on_batcher_ok {A} b t e (m : SBM A) a s :
  BatchMap b !! t = Some e → m (Batcher e) = (Ret a, s) →
  on_batcher t m b = (Ret a, with_entry t (mkEntry s (ExpiryRef e)) b).
Proof.
  intros He Hm. unfold on_batcher, PM. rewrite (bind_Ret _ _ _ _ _ (get_entry_ok b t e He)), Hm.
  by rewrite (bind_Ret _ _ _ _ _ (set_alter_ok b t e (λ e, mkEntry s (ExpiryRef e)) He)).
Qed.

(** The invariant when one topic's entry and record change. *)
Lemma pt_inv_set b t e' tr' n' :
  pt_inv b → entry_ok (PTConfig b) t e' → ref_ok tr' t e' →
  (∀ x, RecTopic x ≠ t → x ∈ tr' ↔ x ∈ ExpiryTracker b) →
  (∀ x, x ∈ tr' → RecTopic x = t → ExpiryRef e' = Some (RecId x)) →
  NoDup (RecId <$> tr') → (∀ x, x ∈ tr' → (RecId x < n')%nat) →
  StronglySorted (λ x y, Expiry x ≤ Expiry y) tr' →
  pt_inv (mkPerTopic (PTConfig b) (<[t := e']> (BatchMap b)) tr' n').
Proof.
  intros Hi He Hr Hsame Hrec Hids Hfresh Hsort.
  split; cbn [PTConfig BatchMap ExpiryTracker NextRecId]; try done; [apply (pi_cfg b Hi) | | |].
  - intros t0 e0. destruct (decide (t = t0)) as [<- | Hne].
    + rewrite lookup_insert_eq. by intros [= <-].
    + rewrite lookup_insert_ne by done. apply (pi_entry b Hi).
  - intros t0 e0. destruct (decide (t = t0)) as [<- | Hne].
    + rewrite lookup_insert_eq. by intros [= <-].
    + rewrite lookup_insert_ne by done. intros H0. pose proof (pi_ref b Hi t0 e0 H0) as H.
      unfold ref_ok in *. destruct (ExpiryRef e0); [| done].
      destruct H as (x & Hx & H1 & H2 & H3). exists x. split; [| done]. apply Hsame; [congruence | done].
  - intros x Hx. destruct (decide (RecTopic x = t)) as [<- | Hne].
    + exists e'. rewrite lookup_insert_eq. split; [done |]. by apply Hrec.
    + rewrite lookup_insert_ne by done. by apply (pi_rec b Hi), Hsame.
Qed.

Lemma without_spec r l x : x ∈ without r l ↔ x ∈ l ∧ RecId x ≠ r.
Proof. unfold without. rewrite list_elem_of_filter. tauto. Qed.

Lemma without_ids r l : NoDup (RecId <$> l) → NoDup (RecId <$> without r l).
Proof.
  intros Hn. eapply sublist_NoDup; [exact Hn |]. apply fmap_sublist, sublist_filter.
Qed.

Lemma StronglySorted_filter {A} (R : A → A → Prop) (P : A → Prop) `{∀ x, Decision (P x)} l :
  StronglySorted R l → StronglySorted R (filter P l).
Proof.
  induction 1 as [| x l Hs IH Hf]; [constructor |]. rewrite filter_cons.
  case_decide; [| done]. constructor; [done |]. rewrite Forall_forall in *.
  intros y [_ Hy]%list_elem_of_filter. by apply Hf.
Qed.

(** Records [tr] after the records of topic [t] are gone. *)
Record cleared (b : TPerTopicBatcher) (t : string) (tr : list TBatchExpiryRecord) : Prop := {
  cl_same : ∀ x, RecTopic x ≠ t → x ∈ tr ↔ x ∈ ExpiryTracker b;
  cl_none : ∀ x, x ∈ tr → RecTopic x ≠ t;
  cl_ids : NoDup (RecId <$> tr);
  cl_fresh : ∀ x, x ∈ tr → (RecId x < NextRecId b)%nat;
  cl_sorted : StronglySorted (λ x y, Expiry x ≤ Expiry y) tr
}.

Lemma cleared_absent b t e :
  pt_inv b → BatchMap b !! t = Some e → ExpiryRef e = None → cleared b t (ExpiryTracker b).
Proof.
  intros Hi He Hr. split; try done; [| apply Hi..].
  intros x Hx <-. destruct (pi_rec b Hi x Hx) as (e' & He' & Hr'). congruence.
Qed.

Lemma cleared_without b x :
  pt_inv b → x ∈ ExpiryTracker b → cleared b (RecTopic x) (without (RecId x) (ExpiryTracker b)).
Proof.
  intros Hi Hx. split.
  - intros y Hy. rewrite without_spec. split; [tauto |]. intros Hy'. split; [done |].
    intros E. apply Hy. by rewrite (rec_id_inj b y x).
  - intros y [Hy Hne]%without_spec Ht. by destruct Hne; apply (rec_topic_inj b y x).
  - apply without_ids, (pi_ids b Hi).
  - intros y [Hy _]%without_spec. by apply (pi_fresh b Hi).
  - apply StronglySorted_filter, (pi_sorted b Hi).
Qed.

Lemma pt_inv_cleared b t s tr :
  pt_inv b → entry_ok (PTConfig b) t (mkEntry s None) → Single_GetNextCompleteTime s = None →
  cleared b t tr →
  pt_inv (mkPerTopic (PTConfig b) (<[t := mkEntry s None]> (BatchMap b)) tr (NextRecId b)).
Proof.
  intros Hi He Hn [H1 H2 H3 H4 H5]. apply pt_inv_set; try done.
  intros x Hx Ht. by destruct (H2 x Hx).
Qed.

(** Dropping the record of a topic whose batch has been taken. *)
Lemma pt_inv_release b x s' :
  pt_inv b → x ∈ ExpiryTracker b → entry_ok (PTConfig b) (RecTopic x) (mkEntry s' None) →
  Single_GetNextCompleteTime s' = None →
  pt_inv (mkPerTopic (PTConfig b) (<[RecTopic x := mkEntry s' None]> (BatchMap b))
            (without (RecId x) (ExpiryTracker b)) (NextRecId b)).
Proof. intros Hi Hx He Hn. apply pt_inv_cleared; try done. by apply cleared_without. Qed.

Lemma tracker_erase_ok b x :
  pt_inv b → x ∈ ExpiryTracker b →
  tracker_erase (RecId x) b =
    (Ret (), mkPerTopic (PTConfig b) (BatchMap b) (without (RecId x) (ExpiryTracker b)) (NextRecId b)).
Proof.
  intros Hi Hx. unfold tracker_erase, PM.
  by rewrite (bind_Ret _ _ _ _ _ (tracker_deref_ok b x Hi Hx)).
Qed.

(** The same, while the topic's entry is being changed. *)
Lemma tracker_erase_entry b x t e :
  pt_inv b → x ∈ ExpiryTracker b →
  tracker_erase (RecId x) (with_entry t e b) =
    (Ret (), mkPerTopic (PTConfig b) (<[t := e]> (BatchMap b))
               (without (RecId x) (ExpiryTracker b)) (NextRecId b)).
Proof.
  intros Hi Hx. pose proof (tracker_erase_ok b x Hi Hx) as H. revert H.
  unfold tracker_erase, tracker_deref, with_entry. munfold. cbn.
  destruct (snd <$> list_find _ _); [| done]. by intros _.
Qed.

(** Taking the batch of a topic. *)
Lemma take_entry_ok cfg t e :
  entry_ok cfg t e →
  ∃ s', Single_TakeBatch (Batcher e) = (Ret (MsgList (Batcher e)), s') ∧ MsgList s' = [] ∧
    Single_GetNextCompleteTime s' = None ∧ ∀ r, entry_ok cfg t (mkEntry s' r).
Proof.
  intros [H1 H2 H3 H4]. destruct (Single_TakeBatch_ok _ H1) as (s' & Hs & Hok & Hc & Hm & Hn).
  exists s'. split; [done |]. split; [done |]. split; [done |]. intros r. split; cbn.
  - done.
  - congruence.
  - rewrite Hm. constructor.
  - rewrite Hm. done.
Qed.

(** A batch with a deadline is not empty. *)
Lemma nct_nonempty cfg t e z :
  entry_ok cfg t e → nct e = Some z →
  MsgList (Batcher e) ≠ [] ∧ Single_IsEmpty (Batcher e) = false ∧
  TimeLimit (Config_Get t cfg) ≠ 0 ∧ z = deadline (Config_Get t cfg) (MsgList (Batcher e)).
Proof.
  intros [H1 H2 H3 H4] Hn. unfold nct in Hn. pose proof Hn as Hn'.
  rewrite (Single_next _ H1 H4), H2 in Hn. case_decide as Hd; [| done]. injection Hn as <-.
  split; [tauto |]. split; [| tauto]. revert Hn'. unfold Single_GetNextCompleteTime,
    Core_GetNextCompleteTime, Single_IsEmpty. by destruct (Core_IsEmpty _).
Qed.

(** ** [GetCompleteBatches] *)

Definition due (now : Z) (b : TPerTopicBatcher) : list TBatchExpiryRecord :=
  filter (λ x, Expiry x ≤ now) (ExpiryTracker b).

Lemma held_insert b t e tr n t' :
  held (mkPerTopic (PTConfig b) (<[t := e]> (BatchMap b)) tr n) t' =
  if decide (t = t') then MsgList (Batcher e) else held b t'.
Proof.
  unfold held. cbn. case_decide as E; [subst; by rewrite lookup_insert_eq |].
  by rewrite lookup_insert_ne.
Qed.

Lemma without_notin r l : r ∉ (RecId <$> l) → without r l = l.
Proof.
  intros Hn. unfold without. induction l as [| x l IH]; [done |]. set_unfold.
  rewrite filter_cons, decide_True by naive_solver. f_equal. naive_solver.
Qed.

Lemma without_head x rest : NoDup (RecId <$> x :: rest) → without (RecId x) (x :: rest) = rest.
Proof.
  intros [Hn _]%NoDup_cons. unfold without. rewrite filter_cons, decide_False by naive_solver.
  by apply without_notin.
Qed.

(** One iteration. *)
Lemma complete_one b x rest now :
  pt_inv b → ExpiryTracker b = x :: rest → Expiry x ≤ now →
  ∃ b', GetCompleteBatches_loop now (x :: rest) b =
      (result ← GetCompleteBatches_loop now rest; mret (held b (RecTopic x) :: result)) b' ∧
    pt_inv b' ∧ PTConfig b' = PTConfig b ∧ ExpiryTracker b' = rest ∧
    (∀ t, held b' t = if decide (RecTopic x = t) then [] else held b t) ∧
    (∀ t, is_Some (BatchMap b' !! t) ↔ is_Some (BatchMap b !! t)).
Proof.
  intros Hi Htr Hx. assert (x ∈ ExpiryTracker b) as Hin by (rewrite Htr; left).
  destruct (pi_rec b Hi x Hin) as (e & He & Hr).
  pose proof (pi_entry b Hi _ _ He) as Heo.
  pose proof (pi_ref b Hi _ _ He) as Hro. unfold ref_ok in Hro. rewrite Hr in Hro.
  destruct Hro as (y & Hy & Hid & _ & Hn).
  destruct (nct_nonempty _ _ _ _ Heo Hn) as (_ & Hne & _).
  destruct (take_entry_ok _ _ _ Heo) as (s' & Hs & Hm & Hn' & Hok).
  eexists. split; [| split; [apply (pt_inv_release b x s' Hi Hin (Hok None) Hn') |]].
  - cbn [GetCompleteBatches_loop]. replace (Expiry x <=? now) with true by (symmetry; lia).
    unfold PM. rewrite (bind_Ret _ _ b (BatchMap b) b) by done. cbv beta. rewrite He.
    rewrite (bind_Ret _ _ b e b) by done. cbv beta. rewrite Hr, bool_decide_true by done.
    rewrite (bind_Ret _ _ b () b) by done. rewrite Hne. rewrite (bind_Ret _ _ b () b) by done.
    rewrite (bind_Ret _ _ _ _ _ (on_batcher_ok b _ e _ _ _ He Hs)).
    set (b1 := with_entry (RecTopic x) (mkEntry s' (ExpiryRef e)) b).
    assert (BatchMap b1 !! RecTopic x = Some (mkEntry s' (ExpiryRef e))) as He1
      by apply lookup_insert_eq.
    rewrite (bind_Ret _ _ _ _ _ (set_alter_ok b1 _ _ (λ e, mkEntry (Batcher e) None) He1)).
    assert (with_entry (RecTopic x) (mkEntry s' None) b1 =
      with_entry (RecTopic x) (mkEntry s' None) b) as Heq.
    { unfold b1, with_entry. cbn. by rewrite insert_insert_eq. }
    cbn [Batcher]. rewrite Heq.
    rewrite (bind_Ret _ _ _ _ _ (tracker_erase_entry b x _ _ Hi Hin)).
    unfold held. by rewrite He.
  - split; [done |]. split; [| split].
    + cbn [ExpiryTracker]. pose proof (pi_ids b Hi) as Hnd. rewrite Htr in *. by apply without_head.
    + intros t. rewrite held_insert. cbn [Batcher]. by rewrite Hm.
    + intros t. cbn. destruct (decide (RecTopic x = t)) as [<- |].
      * rewrite lookup_insert_eq, He. done.
      * by rewrite lookup_insert_ne.
Qed.

Lemma GetCompleteBatches_loop_ok now l b :
  pt_inv b → ExpiryTracker b = l →
  ∃ b', GetCompleteBatches_loop now l b =
      (Ret (held b <$> (RecTopic <$> due now b)), b') ∧
    pt_inv b' ∧ PTConfig b' = PTConfig b ∧
    ExpiryTracker b' = filter (λ x, now < Expiry x) l ∧
    (∀ t, held b' t = if decide (t ∈ RecTopic <$> due now b) then [] else held b t) ∧
    (∀ t, is_Some (BatchMap b' !! t) ↔ is_Some (BatchMap b !! t)).
Proof.
  revert b. induction l as [| x l IH]; intros b Hi Htr.
  { exists b. unfold due. rewrite Htr. cbn. done. }
  pose proof (pi_sorted b Hi) as Hs. rewrite Htr in Hs. inversion Hs as [| ? ? Hs' Hle]; subst.
  rewrite Forall_forall in Hle. destruct (decide (Expiry x ≤ now)) as [Hd | Hd].
  - destruct (complete_one b x l now Hi Htr Hd) as (b1 & Hr & Hi1 & Hc1 & Htr1 & Hh1 & Hk1).
    destruct (IH b1 Hi1 Htr1) as (b2 & Hr2 & Hi2 & Hc2 & Htr2 & Hh2 & Hk2).
    assert (due now b = x :: due now b1) as Hdue.
    { unfold due. by rewrite Htr, Htr1, filter_cons, decide_True. }
    assert (RecTopic x ∉ RecTopic <$> due now b1) as Hnot.
    { intros (y & Hy & [_ Hin]%list_elem_of_filter)%list_elem_of_fmap. rewrite Htr1 in Hin.
      pose proof (pi_ids b Hi) as Hnd. rewrite Htr in Hnd. apply NoDup_cons in Hnd as [Hnd _].
      apply Hnd. rewrite (rec_topic_inj b x y Hi); [by apply list_elem_of_fmap_2 | | |];
        rewrite ?Htr; [left | by right | done]. }
    exists b2. rewrite Hr. unfold PM. rewrite (bind_Ret _ _ _ _ _ Hr2). rewrite Hdue.
    split; [| split; [done | split; [congruence | split; [| split]]]].
    + assert (held b1 <$> (RecTopic <$> due now b1) = held b <$> (RecTopic <$> due now b1)) as ->;
        [| done].
      apply list_fmap_ext. intros i t Ht. rewrite Hh1, decide_False; [done |].
      intros <-. by apply Hnot, (list_elem_of_lookup_2 _ i).
    + by rewrite Htr2, filter_cons, decide_False by lia.
    + intros t. rewrite Hh2, Hh1, fmap_cons. repeat case_decide; set_solver.
    + intros t. rewrite Hk2. apply Hk1.
  - assert (due now b = []) as Hdue.
    { unfold due. rewrite Htr. apply filter_none. intros y [-> | Hy]%elem_of_cons; [done |].
      specialize (Hle y Hy). cbn in Hle. lia. }
    exists b. rewrite Hdue. cbn [GetCompleteBatches_loop].
    replace (Expiry x <=? now) with false by (symmetry; lia).
    split; [done |]. split; [done |]. split; [done |]. split; [| split; [| done]].
    + rewrite Htr. symmetry. apply filter_all. intros y [-> | Hy]%elem_of_cons; [lia |].
      specialize (Hle y Hy). cbn in Hle. lia.
    + intros t. done.
Qed.

(** ** Adding to a topic's batch *)

Lemma expiry_insert_perm r l : expiry_insert r l ≡ₚ r :: l.
Proof.
  induction l as [| x l IH]; [done |]. cbn. case_match; [done |].
  rewrite IH. apply perm_swap.
Qed.

Lemma expiry_insert_sorted r l :
  StronglySorted (λ x y, Expiry x ≤ Expiry y) l →
  StronglySorted (λ x y, Expiry x ≤ Expiry y) (expiry_insert r l).
Proof.
  induction 1 as [| x l Hs IH Hf]; [repeat constructor |]. cbn. case_match eqn:Hlt.
  - constructor; [by constructor |]. constructor; [lia |].
    eapply Forall_impl; [exact Hf |]. cbn. lia.
  - constructor; [done |]. rewrite expiry_insert_perm. constructor; [lia | done].
Qed.

Lemma pt_inv_insert b t s tr z :
  pt_inv b → entry_ok (PTConfig b) t (mkEntry s (Some (NextRecId b))) →
  Single_GetNextCompleteTime s = Some z → cleared b t tr →
  pt_inv (mkPerTopic (PTConfig b) (<[t := mkEntry s (Some (NextRecId b))]> (BatchMap b))
            (expiry_insert (mkExpiry (NextRecId b) z t) tr) (S (NextRecId b))).
Proof.
  intros Hi He Hn [H1 H2 H3 H4 H5]. apply pt_inv_set; try done.
  - exists (mkExpiry (NextRecId b) z t). rewrite expiry_insert_perm. split; [left | done].
  - intros x Hx. rewrite expiry_insert_perm, elem_of_cons, <- H1 by done. split; [| by right].
    intros [-> | ?]; [done | done].
  - intros x. rewrite expiry_insert_perm, elem_of_cons. intros [-> | Hx] Ht; [done |].
    by destruct (H2 x Hx).
  - rewrite expiry_insert_perm. cbn. apply NoDup_cons. split; [| done].
    intros (x & Hx & Hin)%list_elem_of_fmap. specialize (H4 x Hin). lia.
  - intros x. rewrite expiry_insert_perm, elem_of_cons. intros [-> | Hx]; [cbn; lia |].
    specialize (H4 x Hx). lia.
  - by apply expiry_insert_sorted.
Qed.

Lemma pt_inv_same b t e s :
  pt_inv b → BatchMap b !! t = Some e → entry_ok (PTConfig b) t (mkEntry s (ExpiryRef e)) →
  Single_GetNextCompleteTime s = nct e → pt_inv (with_entry t (mkEntry s (ExpiryRef e)) b).
Proof.
  intros Hi He Hok Hn. apply pt_inv_set; try done; [| | apply Hi..].
  - pose proof (pi_ref b Hi t e He) as Hr. unfold ref_ok, nct in *. cbn [ExpiryRef Batcher].
    by rewrite Hn.
  - intros x Hx <-. destruct (pi_rec b Hi x Hx) as (e' & He' & Hr'). cbn. congruence.
Qed.

(** What is wanted after the topic's batcher has been changed to [s]: the
    expiry records follow. *)
Definition retracked (b b' : TPerTopicBatcher) (t : string) (s : TSingleTopicBatcher) : Prop :=
  pt_inv b' ∧ PTConfig b' = PTConfig b ∧
  (∀ t', held b' t' = if decide (t = t') then MsgList s else held b t') ∧
  (∀ x, x ∈ ExpiryTracker b' → RecTopic x = t → Single_GetNextCompleteTime s = Some (Expiry x)).

Lemma retracked_intro b t s r tr n :
  let b' := mkPerTopic (PTConfig b) (<[t := mkEntry s r]> (BatchMap b)) tr n in
  pt_inv b' → retracked b b' t s.
Proof.
  intros b' Hi. split; [done |]. split; [done |]. split.
  - intros t'. apply held_insert.
  - intros x Hx Ht. destruct (pi_rec b' Hi x Hx) as (e & He & Hr).
    pose proof (pi_ref b' Hi _ _ He) as Hro. unfold ref_ok in Hro. rewrite Hr in Hro.
    destruct Hro as (y & Hy & Hid & _ & Hn). rewrite (rec_id_inj b' y x Hi Hy Hx Hid) in Hn.
    rewrite Ht in He. unfold b' in He. cbn in He. rewrite lookup_insert_eq in He.
    by injection He as <-.
Qed.

Lemma set_ref_insert cfg t s r0 r m tr n :
  set_ref t r (mkPerTopic cfg (<[t := mkEntry s r0]> m) tr n) =
  (Ret (), mkPerTopic cfg (<[t := mkEntry s r]> m) tr n).
Proof.
  unfold set_ref. erewrite set_alter_ok; [| apply lookup_insert_eq].
  unfold with_entry. cbn. by rewrite insert_insert_eq.
Qed.

Lemma tracker_insert_eq z t b :
  tracker_insert z t b = (Ret (NextRecId b), mkPerTopic (PTConfig b) (BatchMap b)
    (expiry_insert (mkExpiry (NextRecId b) z t) (ExpiryTracker b)) (S (NextRecId b))).
Proof. done. Qed.

Lemma UpdateExpiry_ok b t e s :
  pt_inv b → BatchMap b !! t = Some e → (∀ r, entry_ok (PTConfig b) t (mkEntry s r)) →
  ∃ b', UpdateExpiry t (ExpiryRef e) (default 0 (nct e)) (Single_GetNextCompleteTime s)
          (with_entry t (mkEntry s (ExpiryRef e)) b) = (Ret (), b') ∧
    retracked b b' t s.
Proof.
  intros Hi He Hok. pose proof (pi_ref b Hi t e He) as Hr. unfold ref_ok in Hr.
  unfold UpdateExpiry. destruct (ExpiryRef e) as [r |] eqn:Href.
  - destruct Hr as (x & Hx & <- & <- & Hn). rewrite Hn. cbn [default from_option].
    pose proof (cleared_without b x Hi Hx) as Hcl.
    destruct (Single_GetNextCompleteTime s) as [z |] eqn:Hz;
      [destruct (decide (z = Expiry x)) as [-> | Hne];
        [rewrite decide_False by (intros []; done) | rewrite decide_True by done] |];
      cbv beta iota; eexists; split.
    + done.
    + apply retracked_intro. rewrite <- Href. apply pt_inv_same; [done | done | done |].
      by rewrite Hz, Hn.
    + unfold PM. erewrite bind_Ret.
      2: { erewrite bind_Ret by by apply tracker_erase_entry. apply set_ref_insert. }
      rewrite (bind_Ret _ _ _ _ _ (tracker_insert_eq _ _ _)). apply set_ref_insert.
    + cbn [PTConfig BatchMap ExpiryTracker NextRecId with_entry].
      by apply retracked_intro, pt_inv_insert.
    + unfold PM. erewrite bind_Ret; [done |].
      erewrite bind_Ret by by apply tracker_erase_entry. apply set_ref_insert.
    + by apply retracked_intro, pt_inv_cleared.
  - pose proof (cleared_absent b t e Hi He Href) as Hcl.
    destruct (Single_GetNextCompleteTime s) as [z |] eqn:Hz; cbv beta iota; eexists; split.
    + unfold PM. rewrite (bind_Ret _ _ _ () _) by done.
      rewrite (bind_Ret _ _ _ _ _ (tracker_insert_eq _ _ _)). apply set_ref_insert.
    + cbn [PTConfig BatchMap ExpiryTracker NextRecId with_entry].
      by apply retracked_intro, pt_inv_insert.
    + done.
    + by apply retracked_intro, pt_inv_cleared.
Qed.

(** A batch of the topic, or the message alone when it does not fit. *)
Definition batch_ok (cfg : TPerTopicConfig) (t : string) (l : list TMsg) : Prop :=
  l ≠ [] ∧ Forall (λ m, Topic m = t) l ∧ (sendable (Config_Get t cfg) l ∨ ∃ m, l = [m]).

Lemma AddMsg_enabled_ok b msg now e :
  pt_inv b → BatchMap b !! Topic msg = Some e → Single_BatchingIsEnabled (Batcher e) = true →
  Timestamp msg ≤ INT64_MAX → Z.of_nat (length (held b (Topic msg))) + 1 < 2 ^ 64 →
  ∃ batches s b', AddMsg_enabled msg now e b = (Ret batches, b') ∧
    retracked b b' (Topic msg) s ∧
    held b (Topic msg) ++ [msg] = concat batches ++ MsgList s ∧
    Forall (batch_ok (PTConfig b) (Topic msg)) batches ∧
    (∀ z, Single_GetNextCompleteTime s = Some z → now < z).
Proof.
  intros Hi He Hen Hts Hlen. set (t := Topic msg) in *.
  pose proof (pi_entry b Hi t e He) as Heo. pose proof (pi_ref b Hi t e He) as Hr.
  assert (held b t = MsgList (Batcher e)) as Hh by (unfold held; by rewrite He).
  rewrite Hh in *. destruct (Single_AddMsg_ok msg now _ (eo_single _ _ _ Heo) Hts)
    as (batch & back & s & Hadd & Hs & Hcfg & Hmsgs & Hsend & Hback & Hdl & _).
  assert (∀ r, entry_ok (PTConfig b) t (mkEntry s r)) as Hok.
  { intros r. assert (Forall (λ m, Topic m = t) (MsgList (Batcher e) ++ [msg])) as Hall.
    { apply Forall_app. split; [apply Heo |]. by repeat constructor. }
    rewrite Hmsgs, !Forall_app in Hall. split; cbn; [done | | tauto |].
    - rewrite Hcfg. apply Heo.
    - apply (f_equal length) in Hmsgs. rewrite !length_app in Hmsgs. cbn in Hmsgs. lia. }
  destruct (UpdateExpiry_ok b t e s Hi He Hok) as (b' & Hu & Hret).
  exists (match batch with [] => [] | _ => [batch] end ++ option_list ((λ m, [m]) <$> back)), s, b'.
  assert (Forall (λ m, Topic m = t) (batch ++ option_list back)) as Hall.
  { assert (Forall (λ m, Topic m = t) (MsgList (Batcher e) ++ [msg])) as Hall.
    { apply Forall_app. split; [apply Heo |]. by repeat constructor. }
    rewrite Hmsgs, !Forall_app in Hall. rewrite Forall_app. tauto. }
  split; [| split; [done | split; [| split]]].
  - unfold AddMsg_enabled, PM. fold t.
    rewrite (bind_Ret _ _ b () b).
    2: { unfold ref_ok, nct in Hr. destruct (ExpiryRef e); [destruct Hr as (x & _ & _ & _ & ->) | rewrite Hr]; done. }
    rewrite (bind_Ret _ _ b (default 0 (nct e)) b).
    2: { unfold ref_ok in Hr. destruct (ExpiryRef e) as [r |]; [| by rewrite Hr].
      destruct Hr as (x & Hx & <- & _ & Hn). unfold nct in Hn. unfold nct. rewrite Hn.
      rewrite (bind_Ret _ _ _ _ _ (tracker_deref_ok b x Hi Hx)), bool_decide_true; done. }
    rewrite (bind_Ret _ _ _ _ _ (on_batcher_ok b t e _ _ _ He Hadd)). cbv beta iota.
    erewrite (bind_Ret (get_entry t)); [| apply get_entry_ok, lookup_insert_eq]. cbv beta zeta.
    cbn [Batcher]. rewrite (bind_Ret _ _ _ _ _ Hu). destruct batch, back; done.
  - rewrite Hmsgs. destruct batch, back; cbn; rewrite ?app_nil_r, <- ?app_assoc; done.
  - rewrite Forall_app in Hall. destruct Hall as [Ha Hb]. apply Forall_app. split.
    + destruct batch as [| m batch]; [done |]. constructor; [| done]. split; [done |].
      split; [done |]. left. by rewrite <- (eo_config _ _ _ Heo).
    + destruct back as [m |]; [| done]. constructor; [| done]. split; [done |].
      split; [done |]. right. by exists m.
  - intros z Hz. destruct (nct_nonempty _ _ _ _ (Hok None) Hz) as (Hne & _ & Htl & ->).
    cbn [Batcher] in Hne. rewrite <- (eo_config _ _ _ Heo) in Htl |- *.
    apply Hdl; [done | | done]. destruct back as [m |]; [| done]. by destruct Hne; apply Hback.
Qed.

(** ** [AddMsg] *)

Lemma held_topic b t : pt_inv b → Forall (λ m, Topic m = t) (held b t).
Proof.
  intros Hi. unfold held. destruct (BatchMap b !! t) as [e |] eqn:He; [| constructor].
  apply (pi_entry b Hi t e He).
Qed.

Lemma of_topic_all t l : Forall (λ m, Topic m = t) l → of_topic t l = l.
Proof. intros Hl. apply filter_all. intros x Hx. by rewrite Forall_forall in Hl; apply Hl. Qed.

Lemma of_topic_other t t' l : Forall (λ m, Topic m = t) l → t ≠ t' → of_topic t' l = [].
Proof.
  intros Hl Ht. apply filter_none. intros x Hx. rewrite Forall_forall in Hl.
  rewrite (Hl x Hx). done.
Qed.

Lemma of_topic_app t l k : of_topic t (l ++ k) = of_topic t l ++ of_topic t k.
Proof. apply filter_app. Qed.

Lemma of_topic_concat b t ts :
  pt_inv b → NoDup ts →
  of_topic t (concat (held b <$> ts)) = if decide (t ∈ ts) then held b t else [].
Proof.
  intros Hi Hnd. induction Hnd as [| t0 ts Hn Hnd IH]; [done |].
  rewrite fmap_cons. cbn [concat]. rewrite of_topic_app, IH.
  destruct (decide (t0 = t)) as [-> | Hne].
  - rewrite decide_False by done. rewrite app_nil_r, decide_True by left.
    by apply of_topic_all, held_topic.
  - rewrite (of_topic_other t0 t) by (by apply held_topic || done). cbn.
    repeat case_decide; set_solver.
Qed.

Lemma due_topics_NoDup now b : pt_inv b → NoDup (RecTopic <$> due now b).
Proof.
  intros Hi. apply NoDup_fmap_2_strong.
  - intros x y [_ Hx]%list_elem_of_filter [_ Hy]%list_elem_of_filter Ht.
    apply (rec_id_inj b); try done. by apply (rec_topic_inj b).
  - apply NoDup_filter. eapply NoDup_fmap_1, (pi_ids b Hi).
Qed.

(** The entry of the message's topic exists. *)
Lemma ensure_entry b t :
  pt_inv b →
  ∃ b0 e, set_map (λ m, match m !! t with
      | Some _ => m
      | None => <[t := mkEntry (TSingleTopicBatcher_new (Config_Get t (PTConfig b))) None]> m
      end) b = (Ret (), b0) ∧
    pt_inv b0 ∧ PTConfig b0 = PTConfig b ∧ BatchMap b0 !! t = Some e ∧
    ∀ t', held b0 t' = held b t'.
Proof.
  intros Hi. destruct (BatchMap b !! t) as [e |] eqn:He.
  - exists b, e. split; [| done]. unfold set_map, modify. rewrite He. by destruct b.
  - set (e := mkEntry (TSingleTopicBatcher_new (Config_Get t (PTConfig b))) None).
    assert (∀ x, x ∈ ExpiryTracker b → RecTopic x ≠ t) as Hno.
    { intros x Hx <-. destruct (pi_rec b Hi x Hx) as (e' & He' & _). congruence. }
    exists (with_entry t e b), e. split; [unfold set_map, modify; by rewrite He |].
    split; [| split; [done | split; [apply lookup_insert_eq |]]].
    + apply pt_inv_set; try done; [| | apply Hi..].
      * split; cbn; [apply single_ok_new, Hi | done | constructor | lia].
      * intros x Hx Ht. by destruct (Hno x Hx).
    + intros t'. unfold with_entry. rewrite held_insert. case_decide as E; [subst | done].
      unfold held. by rewrite He.
Qed.

(** What adding a message means: nothing is lost, duplicated or reordered
    within a topic, every batch is of one topic, and nothing due is kept. *)
Record added (now : Z) (b : TPerTopicBatcher) (msg : TMsg) (batches : list (list TMsg))
    (back : option TMsg) (b' : TPerTopicBatcher) : Prop := {
  ad_inv : pt_inv b';
  ad_config : PTConfig b' = PTConfig b;
  ad_conserve : ∀ t, held b t ++ of_topic t [msg] =
    of_topic t (concat batches) ++ held b' t ++ of_topic t (option_list back);
  ad_batches : Forall (λ l, l ≠ [] ∧ ∃ t, Forall (λ m, Topic m = t) l) batches;
  ad_due : ∀ x, x ∈ ExpiryTracker b' → now < Expiry x;
  ad_back : back = if BatchingIsEnabled (Config_Get (Topic msg) (PTConfig b)) then None else Some msg
}.

Lemma held_nonempty_due now b t :
  pt_inv b → t ∈ RecTopic <$> due now b → held b t ≠ [].
Proof.
  intros Hi (x & -> & [_ Hx]%list_elem_of_filter)%list_elem_of_fmap.
  destruct (pi_rec b Hi x Hx) as (e & He & Hr). pose proof (pi_ref b Hi _ _ He) as Hro.
  unfold ref_ok in Hro. rewrite Hr in Hro. destruct Hro as (y & _ & _ & _ & Hn).
  destruct (nct_nonempty _ _ _ _ (pi_entry b Hi _ _ He) Hn) as (Hne & _).
  unfold held. by rewrite He.
Qed.

(** [GetCompleteBatches] after the message's topic is settled. *)
Lemma complete_after now b b1 msg batches back s :
  pt_inv b → retracked b b1 (Topic msg) s →
  held b (Topic msg) ++ [msg] = concat batches ++ MsgList s ++ option_list back →
  Forall (λ l, l ≠ [] ∧ Forall (λ m, Topic m = Topic msg) l) batches →
  Forall (λ m, Topic m = Topic msg) (option_list back) →
  (∀ z, Single_GetNextCompleteTime s = Some z → now < z) →
  back = (if BatchingIsEnabled (Config_Get (Topic msg) (PTConfig b)) then None else Some msg) →
  ∃ complete b', GetCompleteBatches now b1 = (Ret complete, b') ∧
    added now b msg (complete ++ batches) back b'.
Proof.
  intros Hi (Hi1 & Hc1 & Hh1 & Htr1) Hmsgs Hbt Hbk Hz Hback.
  destruct (GetCompleteBatches_loop_ok now _ b1 Hi1 eq_refl) as (b' & Hr & Hi' & Hc' & Htr' & Hh' & _).
  exists (held b1 <$> (RecTopic <$> due now b1)), b'. split; [exact Hr |].
  assert (Topic msg ∉ RecTopic <$> due now b1) as Hnot.
  { intros (x & Hx & [Hle Hin]%list_elem_of_filter)%list_elem_of_fmap.
    specialize (Hz _ (Htr1 x Hin (eq_sym Hx))). lia. }
  split; [done | congruence | | | | done].
  - intros t. rewrite concat_app, of_topic_app, of_topic_concat by (done || by apply due_topics_NoDup).
    rewrite Hh', Hh1. destruct (decide (Topic msg = t)) as [<- | Hne].
    + rewrite !(decide_False (P := _ ∈ _)) by done. cbn [app].
      rewrite (of_topic_all _ [msg]) by by repeat constructor. rewrite Hmsgs.
      rewrite !of_topic_all; [done | done |]. apply Forall_concat.
      eapply Forall_impl; [exact Hbt |]. cbn. tauto.
    + rewrite (of_topic_other (Topic msg) t [msg]) by (done || by repeat constructor).
      rewrite (of_topic_other (Topic msg) t (option_list back)) by done.
      rewrite (of_topic_other (Topic msg) t (concat batches)); [| | done].
      * rewrite !app_nil_r. case_decide; by rewrite ?app_nil_r.
      * apply Forall_concat. eapply Forall_impl; [exact Hbt |]. cbn. tauto.
  - apply Forall_app. split.
    + apply Forall_fmap, Forall_forall. intros t Ht. cbn. split; [by eapply held_nonempty_due |].
      exists t. by apply held_topic.
    + eapply Forall_impl; [exact Hbt |]. cbn. intros l [? ?]. eauto.
  - intros x. rewrite Htr'. by intros [? _]%list_elem_of_filter.
Qed.

Lemma retracked_refl b t e : pt_inv b → BatchMap b !! t = Some e → retracked b b t (Batcher e).
Proof.
  intros Hi He. split; [done |]. split; [done |]. split.
  - intros t'. case_decide as E; [subst | done]. unfold held. by rewrite He.
  - intros x Hx <-. destruct (pi_rec b Hi x Hx) as (e' & He' & Hr).
    assert (e' = e) as -> by congruence. pose proof (pi_ref b Hi _ _ He) as Hro.
    unfold ref_ok in Hro. rewrite Hr in Hro. destruct Hro as (y & Hy & Hid & _ & Hn).
    by rewrite (rec_id_inj b y x Hi Hy Hx Hid) in Hn.
Qed.

Lemma added_from now b b0 msg batches back b' :
  PTConfig b0 = PTConfig b → (∀ t, held b0 t = held b t) →
  added now b0 msg batches back b' → added now b msg batches back b'.
Proof.
  intros Hc Hh [H1 H2 H3 H4 H5 H6]. split; try done; [congruence | | by rewrite <- Hc].
  intros t. rewrite <- Hh. apply H3.
Qed.

Lemma PerTopic_AddMsg_ok b msg now :
  pt_inv b → Timestamp msg ≤ INT64_MAX →
  Z.of_nat (length (held b (Topic msg))) + 1 < 2 ^ 64 →
  ∃ batches back b', PerTopic_AddMsg msg now b = (Ret (batches, back), b') ∧
    added now b msg batches back b'.
Proof.
  intros Hi Hts Hlen. unfold PerTopic_AddMsg, PM.
  destruct (ensure_entry b (Topic msg) Hi) as (b0 & e & Hset & Hi0 & Hc0 & He & Hh0).
  rewrite (bind_Ret _ _ b (PTConfig b) b) by done. cbv beta.
  rewrite (bind_Ret _ _ _ _ _ Hset), (bind_Ret _ _ _ _ _ (get_entry_ok _ _ _ He)).
  pose proof (pi_entry b0 Hi0 _ _ He) as Heo. rewrite <- Hh0 in Hlen.
  assert (Single_BatchingIsEnabled (Batcher e) =
    BatchingIsEnabled (Config_Get (Topic msg) (PTConfig b0))) as Hen.
  { unfold Single_BatchingIsEnabled. fold (single_config (Batcher e)). by rewrite (eo_config _ _ _ Heo). }
  destruct (Single_BatchingIsEnabled (Batcher e)) eqn:Hon.
  - destruct (AddMsg_enabled_ok b0 msg now e Hi0 He Hon Hts Hlen)
      as (batches & s & b1 & Hadd & Hret & Hmsgs & Hbt & Hz).
    destruct (complete_after now b0 b1 msg batches None s Hi0 Hret) as (complete & b' & Hcb & Had);
      [by cbn; rewrite app_nil_r | | done | done | by rewrite <- Hen |].
    { eapply Forall_impl; [exact Hbt |]. intros l (? & ? & _). done. }
    exists (complete ++ batches), None, b'. split; [| by eapply added_from].
    erewrite bind_Ret; [| by rewrite (bind_Ret _ _ _ _ _ Hadd)]. cbv beta iota.
    by rewrite (bind_Ret _ _ _ _ _ Hcb).
  - pose proof (so_off _ (eo_single _ _ _ Heo) Hon) as Hnil.
    destruct (complete_after now b0 b0 msg [] (Some msg) (Batcher e) Hi0 (retracked_refl _ _ _ Hi0 He))
      as (complete & b' & Hcb & Had); [| constructor | by repeat constructor | | by rewrite <- Hen |].
    { unfold held. by rewrite He; cbn; rewrite Hnil. }
    { intros z Hz. destruct (nct_nonempty _ _ _ _ Heo Hz) as (Hne & _). done. }
    exists (complete ++ []), (Some msg), b'. split; [| by eapply added_from].
    rewrite (bind_Ret _ _ b0 ([], Some msg) b0) by done. cbv beta iota.
    by rewrite (bind_Ret _ _ _ _ _ Hcb).
Qed.

(** ** The other operations *)

Lemma filter_ext_in {A} (P Q : A → Prop) `{∀ x, Decision (P x)} `{∀ x, Decision (Q x)} (l : list A) :
  (∀ x, x ∈ l → P x ↔ Q x) → filter P l = filter Q l.
Proof.
  intros Hl. induction l as [| x l IH]; [done |]. rewrite !filter_cons.
  rewrite (decide_ext (P x) (Q x)) by (apply Hl; left).
  rewrite IH by (intros; apply Hl; by right). done.
Qed.

Lemma pt_inv_delete b t :
  pt_inv b →
  pt_inv (mkPerTopic (PTConfig b) (delete t (BatchMap b))
            (filter (λ x, RecTopic x ≠ t) (ExpiryTracker b)) (NextRecId b)).
Proof.
  intros Hi. split; cbn [PTConfig BatchMap ExpiryTracker NextRecId].
  - apply Hi.
  - intros t0 e0 [_ H0]%lookup_delete_Some. by apply (pi_entry b Hi).
  - intros t0 e0 [Hne H0]%lookup_delete_Some. pose proof (pi_ref b Hi _ _ H0) as Hr.
    unfold ref_ok in *. destruct (ExpiryRef e0); [| done].
    destruct Hr as (x & Hx & H1 & H2 & H3). exists x. split; [| done].
    apply list_elem_of_filter. split; [congruence | done].
  - intros x [Hne Hx]%list_elem_of_filter. destruct (pi_rec b Hi x Hx) as (e & He & Hr).
    exists e. by rewrite lookup_delete_ne.
  - eapply sublist_NoDup; [apply (pi_ids b Hi) |]. apply fmap_sublist, sublist_filter.
  - intros x [_ Hx]%list_elem_of_filter. by apply (pi_fresh b Hi).
  - apply StronglySorted_filter, (pi_sorted b Hi).
Qed.

(** [DeleteTopic] gives back the topic's messages and forgets the topic. *)
Lemma DeleteTopic_ok b t :
  pt_inv b →
  ∃ b', DeleteTopic t b = (Ret (held b t), b') ∧ pt_inv b' ∧ PTConfig b' = PTConfig b ∧
    BatchMap b' = delete t (BatchMap b) ∧
    ExpiryTracker b' = filter (λ x, RecTopic x ≠ t) (ExpiryTracker b).
Proof.
  intros Hi. exists (mkPerTopic (PTConfig b) (delete t (BatchMap b))
    (filter (λ x, RecTopic x ≠ t) (ExpiryTracker b)) (NextRecId b)).
  split; [| split; [by apply pt_inv_delete | done]].
  unfold DeleteTopic, PM. rewrite (bind_Ret _ _ b (BatchMap b) b) by done. cbv beta.
  unfold held. destruct (BatchMap b !! t) as [e |] eqn:He; cbn [from_option].
  - destruct (take_entry_ok _ _ _ (pi_entry b Hi _ _ He)) as (s' & Hs & _).
    rewrite (bind_Ret _ _ _ _ _ (on_batcher_ok b t e _ _ _ He Hs)).
    pose proof (pi_ref b Hi _ _ He) as Hr. unfold ref_ok in Hr.
    destruct (ExpiryRef e) as [r |] eqn:Href.
    + destruct Hr as (x & Hx & <- & Ht & Hn).
      destruct (nct_nonempty _ _ _ _ (pi_entry b Hi _ _ He) Hn) as (Hne & _).
      erewrite bind_Ret.
      2: { rewrite (bind_Ret _ _ (with_entry t (mkEntry s' (Some (RecId x))) b) x
             (with_entry t (mkEntry s' (Some (RecId x))) b)).
           2: { pose proof (tracker_deref_ok b x Hi Hx) as Hd. revert Hd. unfold tracker_deref.
                munfold. cbn. destruct (snd <$> _); [| done]. by intros [= ->]. }
           rewrite !massert_bind by by apply bool_decide_true.
           by apply tracker_erase_entry. }
      unfold set_map, modify. cbn. unfold mbind, M_bind, mret, M_ret. cbn.
      rewrite delete_insert_eq. do 2 f_equal. unfold without. apply filter_ext_in.
      intros y Hy. split; intros Hneq E; apply Hneq; [by apply (rec_topic_inj b); congruence |].
      rewrite (rec_id_inj b y x); done.
    + unfold set_map, modify, mbind, M_bind, mret, M_ret. cbn. rewrite delete_insert_eq.
      do 2 f_equal. symmetry. apply filter_all. intros x Hx <-.
      destruct (pi_rec b Hi x Hx) as (e' & He' & Hr'). congruence.
  - unfold mret, M_ret. do 2 f_equal. rewrite delete_id by done. destruct b as [cfg m tr n].
    cbn in *. f_equal. symmetry. apply filter_all. intros x Hx <-.
    destruct (pi_rec _ Hi x Hx) as (e' & He' & Hr'). cbn in He'. congruence.
Qed.

Section all_batches_ok.
Context `{HashOrder}.

Lemma GetAllBatches_loop_ok ts b :
  (∀ t e, BatchMap b !! t = Some e → entry_ok (PTConfig b) t e) →
  NoDup ts → (∀ t, t ∈ ts → is_Some (BatchMap b !! t)) →
  ∃ m, GetAllBatches_loop ts b =
      (Ret (filter (λ l, l ≠ []) (held b <$> ts)),
       mkPerTopic (PTConfig b) m (ExpiryTracker b) (NextRecId b)) ∧
    (∀ t e, m !! t = Some e → entry_ok (PTConfig b) t e) ∧
    (∀ t e, m !! t = Some e → t ∈ ts → ExpiryRef e = None ∧ nct e = None ∧ MsgList (Batcher e) = []) ∧
    (∀ t, t ∉ ts → m !! t = BatchMap b !! t) ∧
    (∀ t, is_Some (m !! t) ↔ is_Some (BatchMap b !! t)).
Proof.
  revert b. induction ts as [| t ts IH]; intros b Hok Hnd Hin.
  { exists (BatchMap b). split; [by destruct b |]. split; [done |].
    split; [intros ? ? _ ?%elem_of_nil; done | done]. }
  apply NoDup_cons in Hnd as [Hnt Hnd]. destruct (Hin t ltac:(left)) as [e He].
  destruct (take_entry_ok _ _ _ (Hok _ _ He)) as (s' & Hs & Hm & Hn & Heo).
  set (b1 := with_entry t (mkEntry s' None) b).
  assert (∀ t', held b1 t' = if decide (t = t') then [] else held b t') as Hh.
  { intros t'. unfold b1, with_entry. rewrite held_insert. cbn [Batcher]. by rewrite Hm. }
  destruct (IH b1) as (m & Hr & H1 & H2 & H3 & H4).
  - intros t0 e0. unfold b1. cbn. destruct (decide (t = t0)) as [<- | Hne].
    + rewrite lookup_insert_eq. by intros [= <-].
    + rewrite lookup_insert_ne by done. apply Hok.
  - done.
  - intros t0 Ht0. unfold b1. cbn. rewrite lookup_insert_is_Some. right. split; [set_solver |].
    apply Hin. by right.
  - exists m. split; [| split; [done | split; [| split]]].
    + cbn [GetAllBatches_loop]. unfold PM.
      rewrite (bind_Ret _ _ _ _ _ (on_batcher_ok b t e _ _ _ He Hs)).
      unfold with_entry at 1. rewrite (bind_Ret _ _ _ _ _ (set_ref_insert _ _ _ _ _ _ _ _)).
      fold (with_entry t (mkEntry s' None) b). fold b1.
      rewrite (bind_Ret _ _ _ _ _ Hr). unfold mret, M_ret. rewrite fmap_cons, filter_cons.
      assert (held b t = MsgList (Batcher e)) as Hb by (unfold held; by rewrite He).
      assert (held b1 <$> ts = held b <$> ts) as ->.
      { apply list_fmap_ext. intros i t' Ht'. rewrite Hh, decide_False; [done |].
        intros <-. by apply Hnt, (list_elem_of_lookup_2 _ i). }
      rewrite Hb. destruct (MsgList (Batcher e)) as [| x l].
      * by rewrite decide_False by naive_solver.
      * by rewrite decide_True by done.
    + intros t0 e0 H0 [-> | Ht0]%elem_of_cons; [| by apply (H2 t0 e0)].
      rewrite H3 in H0 by done. unfold b1 in H0. cbn in H0. rewrite lookup_insert_eq in H0.
      injection H0 as <-. by split.
    + intros t0 Ht0. rewrite H3 by set_solver. unfold b1. cbn. rewrite lookup_insert_ne by set_solver.
      done.
    + intros t0. rewrite H4. unfold b1. cbn. rewrite lookup_insert_is_Some'. split; [| by right].
      intros [<- | ?]; [by eexists | done].
Qed.


(** [GetAllBatches] returns every batch and leaves the batcher empty. *)
Lemma GetAllBatches_ok b :
  pt_inv b →
  ∃ ts b', GetAllBatches b = (Ret (filter (λ l, l ≠ []) (held b <$> ts)), b') ∧
    NoDup ts ∧ (∀ t, t ∈ ts ↔ is_Some (BatchMap b !! t)) ∧
    pt_inv b' ∧ PTConfig b' = PTConfig b ∧ ExpiryTracker b' = [] ∧ ∀ t, held b' t = [].
Proof.
  intros Hi. destruct (hash_order_keys (BatchMap b)) as [Hnd Hts].
  destruct (GetAllBatches_loop_ok (hash_order (BatchMap b)).*1 b) as (m & Hr & H1 & H2 & H3 & H4);
    [apply Hi | done | intros t; apply Hts |].
  eexists _, (mkPerTopic (PTConfig b) m [] (NextRecId b)).
  split; [| split; [done | split; [done | split; [| split; [done | split; [done |]]]]]].
  - unfold GetAllBatches, PM. rewrite (bind_Ret _ _ b (BatchMap b) b) by done. cbv beta.
    by rewrite (bind_Ret _ _ _ _ _ Hr).
  - split; cbn [PTConfig BatchMap ExpiryTracker NextRecId].
    + apply Hi.
    + done.
    + intros t e He. unfold ref_ok. destruct (H2 t e He) as (-> & Hn & _); [| done].
      apply Hts. apply H4. by exists e.
    + intros x Hx. by apply elem_of_nil in Hx.
    + constructor.
    + intros x Hx. by apply elem_of_nil in Hx.
    + constructor.
  - intros t. unfold held. cbn. destruct (m !! t) as [e |] eqn:He; [| done].
    apply (H2 t e He). apply Hts, H4. by exists e.
Qed.

(** ** [SanityCheck] *)

Lemma find_topic_ok b t e :
  pt_inv b → BatchMap b !! t = Some e →
  snd <$> list_find (λ r, RecTopic r = t) (ExpiryTracker b) =
  match ExpiryRef e with
  | None => None
  | Some r => snd <$> list_find (λ x, RecId x = r) (ExpiryTracker b)
  end.
Proof.
  intros Hi He. assert (∀ x, x ∈ ExpiryTracker b → RecTopic x = t ↔ ExpiryRef e = Some (RecId x)) as Hx.
  { intros x Hx. destruct (pi_rec b Hi x Hx) as (e' & He' & Hr'). split; [intros <-; congruence |].
    intros Hr. pose proof (pi_ref b Hi _ _ He) as Hro. unfold ref_ok in Hro. rewrite Hr in Hro.
    destruct Hro as (y & Hy & Hid & Hty & _). by rewrite (rec_id_inj b x y). }
  destruct (ExpiryRef e) as [r |].
  - induction (ExpiryTracker b) as [| x l IH]; [done |]. cbn.
    pose proof (Hx x ltac:(left)) as Hx0.
    destruct (decide (RecTopic x = t)) as [Ht | Ht], (decide (RecId x = r)) as [Hr | Hr];
      [done | apply Hx0 in Ht; congruence | destruct Ht; apply Hx0; by rewrite Hr |].
    specialize (IH ltac:(intros; apply Hx; by right)).
    destruct (list_find (λ r0, RecTopic r0 = t) l) as [[] |], (list_find (λ x0, RecId x0 = r) l) as [[] |];
      cbn in *; congruence.
  - destruct (list_find _ _) as [[i y] |] eqn:Hf; [| done].
    apply list_find_Some in Hf as (Hy & Ht & _). apply list_elem_of_lookup_2 in Hy.
    apply Hx in Ht; done.
Qed.

Lemma SanityCheck_ok b : pt_inv b → SanityCheck b = true.
Proof.
  intros Hi. unfold SanityCheck. apply andb_true_iff. split.
  - apply forallb_forall. intros [t e] Hin. cbn [fst snd].
    apply list_elem_of_In in Hin. rewrite hash_order_perm, elem_of_map_to_list in Hin.
    unfold entry_sane. rewrite (find_topic_ok b t e Hi Hin). fold (nct e).
    pose proof (pi_ref b Hi _ _ Hin) as Hr. unfold ref_ok in Hr.
    destruct (ExpiryRef e) as [r |].
    + destruct Hr as (x & Hx & <- & _ & ->). rewrite find_id by done.
      rewrite bool_decide_false by (intros []; done). by rewrite bool_decide_false by (intros []; done).
    + rewrite Hr. by rewrite !bool_decide_false by (intros []; done).
  - assert (∀ S, (∀ x, x ∈ ExpiryTracker b → RecTopic x ∉ S) →
      tracker_sane (BatchMap b) S (ExpiryTracker b) = true) as Hsane; [| apply Hsane; set_solver].
    pose proof (pi_rec b Hi) as Hrec.
    assert (NoDup (RecTopic <$> ExpiryTracker b)) as Hnd.
    { apply NoDup_fmap_2_strong; [| eapply NoDup_fmap_1, (pi_ids b Hi)].
      intros x y Hx Hy Ht. apply (rec_id_inj b); try done. by apply (rec_topic_inj b). }
    induction (ExpiryTracker b) as [| x l IH]; intros S HS; [done |]. cbn.
    apply NoDup_cons in Hnd as [Hnot Hnd].
    destruct (Hrec x ltac:(left)) as (e & He & _). rewrite He.
    rewrite bool_decide_false by done.
    rewrite bool_decide_false by (apply HS; left). apply IH; [| done |].
    + intros y Hy. apply Hrec. by right.
    + intros y Hy. apply not_elem_of_union. split; [| apply HS; by right].
      apply not_elem_of_singleton. intros E. apply Hnot. rewrite <- E. by apply list_elem_of_fmap_2.
Qed.
End all_batches_ok.

(** ** Theorems *)

(** The states a per-topic batcher gets into. *)
Inductive reachable `{HashOrder} (config : TPerTopicConfig) : TPerTopicBatcher → Prop :=
| reach_new : reachable config (TPerTopicBatcher_new config)
| reach_add b msg now o b' :
    reachable config b → Timestamp msg ≤ INT64_MAX →
    Z.of_nat (length (held b (Topic msg))) + 1 < 2 ^ 64 →
    PerTopic_AddMsg msg now b = (o, b') → reachable config b'
| reach_complete b now o b' :
    reachable config b → GetCompleteBatches now b = (o, b') → reachable config b'
| reach_all b o b' :
    reachable config b → GetAllBatches b = (o, b') → reachable config b'
| reach_delete b topic o b' :
    reachable config b → DeleteTopic topic b = (o, b') → reachable config b'.

Section theorems.
Context `{HashOrder}.

Lemma reachable_inv config b :
  (∀ t, config_ok (Config_Get t config)) → reachable config b → pt_inv b ∧ PTConfig b = config.
Proof.
  intros Hc. induction 1 as [| b msg now o b' _ [IH Hcfg] Hts Hlen Hr | b now o b' _ [IH Hcfg] Hr
    | b o b' _ [IH Hcfg] Hr | b t o b' _ [IH Hcfg] Hr].
  - split; [by apply pt_inv_new | done].
  - destruct (PerTopic_AddMsg_ok b msg now IH Hts Hlen) as (batches & back & b2 & Hr' & Had).
    rewrite Hr' in Hr. injection Hr as _ <-. split; [apply Had | by rewrite (ad_config _ _ _ _ _ _ Had)].
  - destruct (GetCompleteBatches_loop_ok now _ b IH eq_refl) as (b2 & Hr' & Hi' & Hc' & _).
    unfold GetCompleteBatches in Hr. munfold. cbv beta in Hr. rewrite Hr' in Hr.
    injection Hr as _ <-. split; [done | congruence].
  - destruct (GetAllBatches_ok b IH) as (ts & b2 & Hr' & _ & _ & Hi' & Hc' & _).
    rewrite Hr' in Hr. injection Hr as _ <-. split; [done | congruence].
  - destruct (DeleteTopic_ok b t IH) as (b2 & Hr' & Hi' & Hc' & _).
    rewrite Hr' in Hr. injection Hr as _ <-. split; [done | congruence].
Qed.

(** C30: the per-topic batcher stays consistent.  In every reachable state
    [SanityCheck] holds: a topic has an expiry record exactly when its batch is
    not empty and has a time limit, that record carries the batch's deadline
    and is the one its entry refers to, and no topic has two records. *)
Theorem per_topic_SanityCheck config b :
  (∀ t, config_ok (Config_Get t config)) → reachable config b → SanityCheck b = true.
Proof. intros Hc Hr. apply SanityCheck_ok. by apply (reachable_inv config b). Qed.

(** Adding a message to a reachable per-topic batcher never stops on an
    assertion; within every topic the messages returned, then those kept, then
    the message if it is left with the caller, are the messages that were kept
    followed by the one added; every batch returned is not empty and has a
    single topic; nothing that is due is kept; and the message is left with the
    caller exactly when its topic is not batched. *)
Theorem per_topic_AddMsg_conserves config b msg now :
  (∀ t, config_ok (Config_Get t config)) → reachable config b →
  Timestamp msg ≤ INT64_MAX → Z.of_nat (length (held b (Topic msg))) + 1 < 2 ^ 64 →
  ∃ batches back b', PerTopic_AddMsg msg now b = (Ret (batches, back), b') ∧
    (∀ t, held b t ++ of_topic t [msg] =
          of_topic t (concat batches) ++ held b' t ++ of_topic t (option_list back)) ∧
    Forall (λ l, l ≠ [] ∧ ∃ t, Forall (λ m, Topic m = t) l) batches ∧
    (∀ z, PerTopic_GetNextCompleteTime b' = Some z → now < z) ∧
    back = (if BatchingIsEnabled (Config_Get (Topic msg) config) then None else Some msg).
Proof.
  intros Hc Hr Hts Hlen. destruct (reachable_inv config b Hc Hr) as [Hi <-].
  destruct (PerTopic_AddMsg_ok b msg now Hi Hts Hlen) as (batches & back & b' & Hadd & []).
  exists batches, back, b'. split; [done |]. split; [done |]. split; [done |]. split; [| done].
  intros z Hz. unfold PerTopic_GetNextCompleteTime in Hz.
  destruct (ExpiryTracker b') as [| x l] eqn:E; [done |]. injection Hz as <-.
  apply ad_due0. left.
Qed.

(** [GetCompleteBatches] returns the batches that are due and no others.
    From a reachable state it returns, in order of expiry, the whole batch of
    every topic whose deadline is not after [now], empties those topics, leaves
    the others as they are, and afterwards the next deadline is after [now]. *)
Theorem per_topic_GetCompleteBatches config b now :
  (∀ t, config_ok (Config_Get t config)) → reachable config b →
  ∃ ts b', GetCompleteBatches now b = (Ret (held b <$> ts), b') ∧ NoDup ts ∧
    (∀ t, t ∈ ts ↔ ∃ e z, BatchMap b !! t = Some e ∧ nct e = Some z ∧ z ≤ now) ∧
    (∀ t, held b' t = if decide (t ∈ ts) then [] else held b t) ∧
    (∀ z, PerTopic_GetNextCompleteTime b' = Some z → now < z).
Proof.
  intros Hc Hr. destruct (reachable_inv config b Hc Hr) as [Hi _].
  destruct (GetCompleteBatches_loop_ok now _ b Hi eq_refl) as (b' & Hrun & Hi' & _ & Htr & Hh & _).
  exists (RecTopic <$> due now b), b'. split; [exact Hrun |].
  split; [by apply due_topics_NoDup |]. split; [| split; [done |]].
  - intros t. rewrite list_elem_of_fmap. split.
    + intros (x & -> & [Hle Hx]%list_elem_of_filter). destruct (pi_rec b Hi x Hx) as (e & He & Hre).
      pose proof (pi_ref b Hi _ _ He) as Hro. unfold ref_ok in Hro. rewrite Hre in Hro.
      destruct Hro as (y & Hy & Hid & _ & Hn). rewrite (rec_id_inj b y x Hi Hy Hx Hid) in Hn. eauto.
    + intros (e & z & He & Hn & Hle). pose proof (pi_ref b Hi _ _ He) as Hro. unfold ref_ok in Hro.
      destruct (ExpiryRef e); [| congruence]. destruct Hro as (x & Hx & _ & Ht & Hn').
      exists x. split; [done |]. apply list_elem_of_filter. split; [congruence | done].
  - intros z Hz. unfold PerTopic_GetNextCompleteTime in Hz.
    destruct (ExpiryTracker b') as [| x l] eqn:E; [done |]. injection Hz as <-.
    assert (x ∈ x :: l) as Hx by left. rewrite Htr in Hx. by apply list_elem_of_filter in Hx as [? _].
Qed.

(** At shutdown and when a topic goes away nothing batched is lost.
    [GetAllBatches] returns the non-empty batch of every topic and leaves all
    topics empty; [DeleteTopic] returns exactly the messages of the topic,
    removes its entry and its expiry record, and leaves the other topics. *)
Theorem per_topic_drains config b :
  (∀ t, config_ok (Config_Get t config)) → reachable config b →
  (∃ ts b', GetAllBatches b = (Ret (filter (λ l, l ≠ []) (held b <$> ts)), b') ∧ NoDup ts ∧
     (∀ t, held b t ≠ [] → t ∈ ts) ∧ ExpiryTracker b' = [] ∧ ∀ t, held b' t = []) ∧
  ∀ topic, ∃ b', DeleteTopic topic b = (Ret (held b topic), b') ∧
     BatchMap b' = delete topic (BatchMap b) ∧
     ExpiryTracker b' = filter (λ x, RecTopic x ≠ topic) (ExpiryTracker b).
Proof.
  intros Hc Hr. destruct (reachable_inv config b Hc Hr) as [Hi _]. split.
  - destruct (GetAllBatches_ok b Hi) as (ts & b' & Hrun & Hnd & Hts & _ & _ & Htr & Hh).
    exists ts, b'. split; [done |]. split; [done |]. split; [| done].
    intros t Ht. apply Hts. unfold held in Ht. destruct (BatchMap b !! t); [by eexists | done].
  - intros topic. destruct (DeleteTopic_ok b topic Hi) as (b' & Hrun & _ & _ & H1 & H2). eauto.
Qed.
End theorems.

(** ** Examples *)

Definition ex_pt_config : TPerTopicConfig :=
  mkPerTopicConfig ex_config {[ "b" := mkBatchConfig 0 0 0 ]}.

Definition ex_pt : TPerTopicBatcher :=
  (PerTopic_AddMsg (ex_msg "a" New) 105 (TPerTopicBatcher_new ex_pt_config)).2.

Lemma ex_pt_config_ok t : config_ok (Config_Get t ex_pt_config).
Proof.
  unfold Config_Get, ex_pt_config. cbn [PerTopic DefaultTopic].
  destruct (decide (t = "b")) as [-> |].
  - rewrite lookup_singleton_eq. split; cbn; lia.
  - rewrite lookup_singleton_ne by done. exact ex_config_ok.
Qed.

Lemma ex_pt_reachable : @reachable map_order ex_pt_config ex_pt.
Proof.
  eapply (@reach_add map_order _ (TPerTopicBatcher_new ex_pt_config) (ex_msg "a" New) 105).
  - apply reach_new.
  - vm_compute. discriminate.
  - vm_compute. reflexivity.
  - apply surjective_pairing.
Qed.

Lemma per_topic_SanityCheck_witness : @SanityCheck map_order ex_pt = true.
Proof.
  apply (@per_topic_SanityCheck map_order ex_pt_config ex_pt);
    [exact ex_pt_config_ok | exact ex_pt_reachable].
Defined.

Lemma per_topic_AddMsg_conserves_witness :
  ∃ batches b', PerTopic_AddMsg (ex_msg "b" New) 111 ex_pt = (Ret (batches, Some (ex_msg "b" New)), b') ∧
    held ex_pt "a" = of_topic "a" (concat batches) ++ held b' "a".
Proof.
  destruct (@per_topic_AddMsg_conserves map_order ex_pt_config ex_pt (ex_msg "b" New) 111)
    as (batches & back & b' & H1 & H2 & _ & _ & ->).
  - exact ex_pt_config_ok.
  - exact ex_pt_reachable.
  - vm_compute. discriminate.
  - vm_compute. reflexivity.
  - exists batches, b'. split; [exact H1 |]. specialize (H2 "a").
    change (option_list _) with [ex_msg "b" New] in H2.
    change (of_topic "a" [ex_msg "b" New]) with (@nil TMsg) in H2.
    rewrite !app_nil_r in H2. exact H2.
Defined.

Lemma per_topic_GetCompleteBatches_witness :
  ∃ ts b', GetCompleteBatches 110 ex_pt = (Ret (held ex_pt <$> ts), b') ∧ "a" ∈ ts.
Proof.
  destruct (@per_topic_GetCompleteBatches map_order ex_pt_config ex_pt 110)
    as (ts & b' & H1 & _ & H2 & _).
  - exact ex_pt_config_ok.
  - exact ex_pt_reachable.
  - exists ts, b'. split; [exact H1 |]. apply H2. do 2 eexists.
    split; [vm_compute; reflexivity |]. split; [vm_compute; reflexivity |]. discriminate.
Defined.

Lemma per_topic_drains_witness :
  ∃ b', DeleteTopic "a" ex_pt = (Ret (held ex_pt "a"), b') ∧ BatchMap b' = delete "a" (BatchMap ex_pt).
Proof.
  destruct (@per_topic_drains map_order ex_pt_config ex_pt) as [_ H].
  - exact ex_pt_config_ok.
  - exact ex_pt_reachable.
  - destruct (H "a") as (b' & H1 & H2 & _). exists b'. split; [exact H1 | exact H2].
Defined.
