(* ===== verification/BrokerMsgQueue.v ===== *)
(** * The queue between the router and a connector
      (dory/msg_dispatch/broker_msg_queue.h, broker_msg_queue.cc)

    Messages for one broker: batched per topic, batched with other topics, or
    ready to send.  The semaphore [SenderNotify] wakes the connector thread.
    Each operation is a critical section under the queue's mutex ([Put_locked],
    [PutNow_locked], [NonblockingGet], ...) and what it does outside of it: it
    pushes the semaphore after, or pops it before.  The wakeup theorem is about
    these parts as steps of their own.  The message state tracker, shared by the
    whole server, is part of the state.

    A message is owned by one container at a time; an operation that changes
    the state of messages returns them changed. *)
From S2P Require Import Prelude FieldAccess Capped Msg Batch PerTopicBatcher.

Inductive queue_counter :=
| BrokerMsgQueueNotify
| BrokerMsgQueueSkipNotify
| CombinedTopicsBatchAnyPartition
| CombinedTopicsBatchPartitionKey
| NoBatchAnyPartition
| NoBatchPartitionKey
| PerTopicBatchPartitionKey.

Record TBrokerMsgQueue := mkQueue {
  SenderNotify : Z;
  PerTopicEnabled : bool;
  PerTopicBatcher : TPerTopicBatcher;
  CombinedTopicsBatcher : TCombinedTopicsBatcher;
  ReadyList : list (list TMsg);
  MsgStateTracker : TMsgStateTracker;
  QueueCounters : list queue_counter
}.

Definition TBrokerMsgQueue_new (per_topic : option TPerTopicConfig) (combined : TBatchConfig)
    (topic_filter : gset string) (exclude : bool) (tracker : TMsgStateTracker) : TBrokerMsgQueue :=
  mkQueue 0 (bool_decide (is_Some per_topic))
    (TPerTopicBatcher_new (default (mkPerTopicConfig (mkBatchConfig 0 0 0) ∅) per_topic))
    (TCombinedTopicsBatcher_new combined topic_filter exclude) [] tracker [].

Definition QM := M Empty_set TBrokerMsgQueue.

Definition on_per_topic {A} (m : PM A) : QM A :=
  zoom PerTopicBatcher (λ p q, mkQueue (SenderNotify q) (PerTopicEnabled q) p
    (CombinedTopicsBatcher q) (ReadyList q) (MsgStateTracker q) (QueueCounters q)) m.

Definition on_combined {A} (m : M Empty_set TCombinedTopicsBatcher A) : QM A :=
  zoom CombinedTopicsBatcher (λ c q, mkQueue (SenderNotify q) (PerTopicEnabled q)
    (PerTopicBatcher q) c (ReadyList q) (MsgStateTracker q) (QueueCounters q)) m.

Definition on_states {A} (m : TM A) : QM A :=
  zoom MsgStateTracker (λ t q, mkQueue (SenderNotify q) (PerTopicEnabled q)
    (PerTopicBatcher q) (CombinedTopicsBatcher q) (ReadyList q) t (QueueCounters q)) m.

Definition QIncrement (c : queue_counter) : QM () :=
  modify (λ q, mkQueue (SenderNotify q) (PerTopicEnabled q) (PerTopicBatcher q)
    (CombinedTopicsBatcher q) (ReadyList q) (MsgStateTracker q) (c :: QueueCounters q)).

Definition SenderNotify_Push : QM () :=
  modify (λ q, mkQueue (SenderNotify q + 1) (PerTopicEnabled q) (PerTopicBatcher q)
    (CombinedTopicsBatcher q) (ReadyList q) (MsgStateTracker q) (QueueCounters q)).

(** [ReadyList.splice(ReadyList.end(), batches)]. *)
Definition ReadyList_append (batches : list (list TMsg)) : QM () :=
  modify (λ q, mkQueue (SenderNotify q) (PerTopicEnabled q) (PerTopicBatcher q)
    (CombinedTopicsBatcher q) (ReadyList q ++ batches) (MsgStateTracker q) (QueueCounters q)).

(** [std::move(ReadyList)]. *)
Definition ReadyList_take : QM (list (list TMsg)) :=
  l ← gets ReadyList;
  modify (λ q, mkQueue (SenderNotify q) (PerTopicEnabled q) (PerTopicBatcher q)
    (CombinedTopicsBatcher q) [] (MsgStateTracker q) (QueueCounters q));;
  mret l.

Definition min_opt_ts (t1 t2 : option Z) : option Z :=
  match t1, t2 with
  | Some a, Some b => Some (a `min` b)
  | Some a, None => Some a
  | None, Some b => Some b
  | None, None => None
  end.

(** [TExpiryStatus]. *)
Record TExpiryStatus := mkStatus { OptInitialExpiry : option Z; OptFinalExpiry : option Z }.

(** A computation of a batcher that cannot fault, as the monad has it. *)
Definition pure_op {S A} (f : S → A * S) : M Empty_set S A := λ s,
  let '(a, s') := f s in (Ret a, s').

Section queue.
Context `{HashOrder}.

(** A batcher that took the message now owns it, or has handed it out in a
    batch; [MsgEnterBatching] changes the message where it is.  The batchers
    never look at the state of a message ([add] is the batcher's [AddMsg]), so
    the changed message is where [add] puts it. *)
Definition add_and_enter {S} (add : TMsg → M Empty_set S (list (list TMsg) * option TMsg))
    (batcher : TBrokerMsgQueue → S)
    (on : ∀ A, M Empty_set S A → QM A) (msg : TMsg) : QM (list (list TMsg) * option TMsg) :=
  b ← gets batcher;
  match (add msg b).1 with
  | Ret (_, None) =>
      msg ← on_states (MsgEnterBatching msg);
      on _ (add msg)
  | _ => on _ (add msg)
  end.

Definition TryBatchPerTopic (now : Z) (msg : TMsg) : QM (option TMsg * TExpiryStatus) :=
  enabled ← gets PerTopicEnabled;
  if negb enabled then mret (Some msg, mkStatus None None) else
  initial ← gets (λ q, PerTopic_GetNextCompleteTime (PerTopicBatcher q));
  if decide (RoutingType msg = PartitionKey) then
    '(batch_list, back) ← add_and_enter (λ m, PerTopic_AddMsg m now) PerTopicBatcher
                            (@on_per_topic) msg;
    batch_list ← on_states (MsgEnterSendWait_lists batch_list);
    ReadyList_append batch_list;;
    final ← gets (λ q, PerTopic_GetNextCompleteTime (PerTopicBatcher q));
    mret (back, mkStatus initial final)
  else mret (Some msg, mkStatus initial initial).

Definition TryBatchCombinedTopics (now : Z) (msg : TMsg) : QM (option TMsg * TExpiryStatus) :=
  initial ← gets (λ q, Combined_GetNextCompleteTime (CombinedTopicsBatcher q));
  '(batch_list, back) ← add_and_enter (λ m, pure_op (Combined_AddMsg m now)) CombinedTopicsBatcher
                          (@on_combined) msg;
  batch_list ← on_states (MsgEnterSendWait_lists batch_list);
  ReadyList_append batch_list;;
  final ← gets (λ q, Combined_GetNextCompleteTime (CombinedTopicsBatcher q));
  mret (back, mkStatus initial final).

(** Whether [Put] wakes the connector, from what it saw in its critical section. *)
Definition Put_wakes (empty_initial empty_final : bool) (per_topic combined : TExpiryStatus) : bool :=
  (empty_initial && negb empty_final) ||
  let min_initial := min_opt_ts (OptInitialExpiry per_topic) (OptInitialExpiry combined) in
  let min_final := min_opt_ts (OptFinalExpiry per_topic) (OptFinalExpiry combined) in
  match min_final with
  | None => false
  | Some f => match min_initial with None => true | Some i => f <? i end
  end.

(** The end of [Put] and of [PutNow], after the mutex has been released. *)
Definition PutNow_notify (notify : bool) : QM () :=
  if notify then QIncrement BrokerMsgQueueNotify;; SenderNotify_Push
  else QIncrement BrokerMsgQueueSkipNotify.

Definition Put_notify (empty_initial empty_final : bool) (per_topic combined : TExpiryStatus)
    : QM () :=
  PutNow_notify (Put_wakes empty_initial empty_final per_topic combined).

Definition is_empty (l : list (list TMsg)) : bool := match l with [] => true | _ => false end.

(** The critical section of [Put]: was the ready list empty before and after, and the
    statuses of the batchers. *)
Definition Put_locked (now : Z) (msg : TMsg) : QM (bool * bool * TExpiryStatus * TExpiryStatus) :=
  empty_initial ← gets (λ q, is_empty (ReadyList q));
  '(back, per_topic) ← TryBatchPerTopic now msg;
  combined ←
    match back with
    | Some msg =>
        let routing_type := RoutingType msg in
        '(back, combined) ← TryBatchCombinedTopics now msg;
        match back with
        | Some msg =>
            msg ← on_states (MsgEnterSendWait msg);
            ReadyList_append [[msg]];;
            QIncrement (match routing_type with
                        | PartitionKey => NoBatchPartitionKey
                        | AnyPartition => NoBatchAnyPartition
                        end)
        | None =>
            QIncrement (match routing_type with
                        | PartitionKey => CombinedTopicsBatchPartitionKey
                        | AnyPartition => CombinedTopicsBatchAnyPartition
                        end)
        end;;
        mret combined
    | None =>
        QIncrement PerTopicBatchPartitionKey;;
        initial ← gets (λ q, Combined_GetNextCompleteTime (CombinedTopicsBatcher q));
        mret (mkStatus initial initial)
    end;
  empty_final ← gets (λ q, is_empty (ReadyList q));
  mret (empty_initial, empty_final, per_topic, combined).

Definition Put (now : Z) (msg : TMsg) : QM () :=
  '(empty_initial, empty_final, per_topic, combined) ← Put_locked now msg;
  Put_notify empty_initial empty_final per_topic combined.

Definition CheckPerTopicBatcher (now : Z) : QM (list (list TMsg) * TExpiryStatus) :=
  initial ← gets (λ q, PerTopic_GetNextCompleteTime (PerTopicBatcher q));
  '(ready_batches, final) ←
    match initial with
    | Some t =>
        if t <=? now then
          batches ← on_per_topic (GetCompleteBatches now);
          final ← gets (λ q, PerTopic_GetNextCompleteTime (PerTopicBatcher q));
          mret (batches, final)
        else mret ([], initial)
    | None => mret ([], None)
    end;
  ready_batches ← on_states (MsgEnterSendWait_lists ready_batches);
  mret (ready_batches, mkStatus initial final).

Definition CheckCombinedTopicsBatcher (now : Z) : QM (list (list TMsg) * TExpiryStatus) :=
  initial ← gets (λ q, Combined_GetNextCompleteTime (CombinedTopicsBatcher q));
  '(ready_batches, final) ←
    match initial with
    | Some t =>
        if t <=? now then
          e ← on_combined Combined_IsEmpty; massert (negb e);;
          batches ← on_combined (pure_op Combined_TakeBatch);
          e ← on_combined Combined_IsEmpty; massert e;;
          mret (batches, None)
        else mret ([], initial)
    | None => mret ([], None)
    end;
  ready_batches ← on_states (MsgEnterSendWait_lists ready_batches);
  mret (ready_batches, mkStatus initial final).

(** The two statuses. *)
Definition CheckBothBatchers (now : Z) : QM (TExpiryStatus * TExpiryStatus) :=
  '(per_topic_batches, per_topic) ← CheckPerTopicBatcher now;
  '(combined_topics_batches, combined) ← CheckCombinedTopicsBatcher now;
  match OptInitialExpiry per_topic, OptInitialExpiry combined with
  | Some p, Some c =>
      if p <? c then
        ReadyList_append per_topic_batches;; ReadyList_append combined_topics_batches
      else
        ReadyList_append combined_topics_batches;; ReadyList_append per_topic_batches
  | _, _ => ReadyList_append per_topic_batches;; ReadyList_append combined_topics_batches
  end;;
  mret (per_topic, combined).

(** The critical sections of [PutNow], with one message and with batches: was the ready
    list empty? *)
Definition PutNow_locked (now : Z) (msg : TMsg) : QM bool :=
  was_empty ← gets (λ q, is_empty (ReadyList q));
  CheckBothBatchers now;;
  ReadyList_append [[msg]];;
  mret was_empty.

Definition PutNow_batch_locked (now : Z) (batch : list (list TMsg)) : QM bool :=
  was_empty ← gets (λ q, is_empty (ReadyList q));
  CheckBothBatchers now;;
  ReadyList_append batch;;
  empty ← gets (λ q, is_empty (ReadyList q));
  massert (negb empty);;
  mret was_empty.

Definition PutNow (now : Z) (msg : TMsg) : QM () :=
  msg ← on_states (MsgEnterSendWait msg);
  was_empty ← PutNow_locked now msg;
  PutNow_notify was_empty.

Definition PutNow_batch (now : Z) (batch : list (list TMsg)) : QM () :=
  match batch with
  | [] => mret ()
  | _ =>
      batch ← on_states (MsgEnterSendWait_lists batch);
      was_empty ← PutNow_batch_locked now batch;
      PutNow_notify was_empty
  end.

(** The next expiry if there is one, and the messages. *)
Definition NonblockingGet (now : Z) : QM (option Z * list (list TMsg)) :=
  '(per_topic, combined) ← CheckBothBatchers now;
  ready_msgs ← ReadyList_take;
  mret (min_opt_ts (OptFinalExpiry per_topic) (OptFinalExpiry combined), ready_msgs).

(** [SenderNotify.Pop()]; a pop that would wait is a fault of the model (the caller has
    seen the descriptor readable, and no other thread pops). *)
Definition SenderNotify_Pop : QM () :=
  n ← gets SenderNotify;
  massert (0 <? n);;
  modify (λ q, mkQueue (SenderNotify q - 1) (PerTopicEnabled q) (PerTopicBatcher q)
    (CombinedTopicsBatcher q) (ReadyList q) (MsgStateTracker q) (QueueCounters q)).

Definition Get (now : Z) : QM (option Z * list (list TMsg)) :=
  SenderNotify_Pop;;
  NonblockingGet now.

Definition GetAllMsgs : QM (list (list TMsg)) :=
  per_topic_expiry ← gets (λ q, PerTopic_GetNextCompleteTime (PerTopicBatcher q));
  combined_topics_expiry ← gets (λ q, Combined_GetNextCompleteTime (CombinedTopicsBatcher q));
  per_topic ← on_per_topic GetAllBatches;
  combined_topics ← on_combined (pure_op Combined_TakeBatch);
  per_topic ← on_states (MsgEnterSendWait_lists per_topic);
  combined_topics ← on_states (MsgEnterSendWait_lists combined_topics);
  match per_topic_expiry, combined_topics_expiry with
  | Some p, Some c =>
      if c <? p then ReadyList_append combined_topics;; ReadyList_append per_topic
      else ReadyList_append per_topic;; ReadyList_append combined_topics
  | _, _ => ReadyList_append per_topic;; ReadyList_append combined_topics
  end;;
  ReadyList_take.

Definition GetAllOnShutdown : QM (list (list TMsg)) := GetAllMsgs.

Definition Reset : QM (list (list TMsg)) :=
  modify (λ q, mkQueue 0 (PerTopicEnabled q) (PerTopicBatcher q)
    (CombinedTopicsBatcher q) (ReadyList q) (MsgStateTracker q) (QueueCounters q));;
  GetAllMsgs.
End queue.

(** ** The messages in the queue *)

Lemma of_topic_perm l k : (∀ t, of_topic t l ≡ₚ of_topic t k) → l ≡ₚ k.
Proof.
  revert k. induction l as [| x l IH]; intros k Hk.
  - destruct k as [| y k]; [done |]. specialize (Hk (Topic y)). unfold of_topic in Hk.
    rewrite filter_cons, decide_True in Hk by done. by apply Permutation_nil_cons in Hk.
  - assert (x ∈ k) as (k1 & k2 & ->)%list_elem_of_split.
    { assert (x ∈ of_topic (Topic x) k) as [_ Hx]%list_elem_of_filter; [| done].
      rewrite <- Hk. unfold of_topic. rewrite filter_cons, decide_True by done. left. }
    rewrite <- Permutation_middle. constructor. apply IH. intros t. specialize (Hk t).
    unfold of_topic in *. rewrite <- Permutation_middle in Hk. rewrite !filter_cons in Hk.
    case_decide; [by apply Permutation_cons_inv in Hk | done].
Qed.

(** [l] is the messages of the per-topic batcher. *)
Definition pt_rep (b : TPerTopicBatcher) (l : list TMsg) : Prop := ∀ t, of_topic t l = held b t.

Lemma pt_rep_exists b : pt_inv b → ∃ l, pt_rep b l.
Proof.
  intros Hi. exists (concat (held b <$> (map_to_list (BatchMap b)).*1)). intros t.
  rewrite of_topic_concat by (done || apply NoDup_fst_map_to_list). case_decide as Hd; [done |].
  unfold held. destruct (BatchMap b !! t) as [e |] eqn:He; [| done].
  destruct Hd. apply list_elem_of_fmap. exists (t, e). split; [done |].
  by apply elem_of_map_to_list.
Qed.

Lemma of_topic_proper t l k : l ≡ₚ k → of_topic t l ≡ₚ of_topic t k.
Proof. intros Hl. unfold of_topic. by rewrite Hl. Qed.

(** Batches grouped by topic have the messages they group. *)
Lemma grouped_perm bs out : grouped bs out → concat bs ≡ₚ out.
Proof.
  intros [Hnd Hbs]. apply of_topic_perm. intros t.
  assert (∀ bs', (∀ l, l ∈ bs' → l ≠ [] ∧ ∃ t, l = of_topic t out) → NoDup bs' →
    of_topic t (concat bs') = if decide (of_topic t out ≠ [] ∧ of_topic t out ∈ bs')
      then of_topic t out else []) as Hc.
  { intros bs' Hall Hnd'. induction Hnd' as [| l bs' Hn Hnd' IH].
    - rewrite decide_False; [done |]. intros [_ Hx]. by apply elem_of_nil in Hx.
    - cbn [concat]. rewrite of_topic_app, IH by (intros; apply Hall; by right).
      destruct (Hall l) as [Hl [t0 Ht0]]; [left |].
      assert (Forall (λ m, Topic m = t0) l) as Hft.
      { rewrite Ht0. apply Forall_forall. by intros m [Hm _]%list_elem_of_filter. }
      destruct (decide (t0 = t)) as [-> | Hne].
      + rewrite of_topic_all by done. rewrite decide_False by (rewrite <- Ht0; tauto).
        rewrite decide_True by (rewrite <- Ht0; split; [done | left]). by rewrite app_nil_r.
      + rewrite (of_topic_other t0 t) by done. cbn. apply decide_ext. split.
        * intros [? ?]. split; [done | by right].
        * intros [Hne' [E | ?]%elem_of_cons]; [| done]. destruct Hne.
          apply (of_topic_inj t0 t out); congruence. }
  rewrite (Hc bs); [| by intros l ?%Hbs | done].
  case_decide as Hd; [done |]. destruct (of_topic t out) eqn:E; [done |].
  destruct Hd. split; [done |]. apply Hbs. split; [done |]. by exists t.
Qed.

Lemma grouped_batch bs out l : grouped bs out → l ∈ bs → l ≠ [] ∧ ∃ t, Forall (λ m, Topic m = t) l.
Proof.
  intros [_ Hbs] [Hl [t ->]]%Hbs. split; [done |]. exists t. apply Forall_forall.
  by intros m [Hm _]%list_elem_of_filter.
Qed.

(** Moving batches to [SendWait]. *)
Definition sent (bs : list (list TMsg)) : list (list TMsg) :=
  (λ l : list TMsg, SetState SendWait <$> l) <$> bs.

Lemma concat_sent bs : concat (sent bs) = SetState SendWait <$> concat bs.
Proof. unfold sent. induction bs as [| l bs IH]; [done |]. cbn. by rewrite IH, fmap_app. Qed.

Definition one_topic (l : list TMsg) : Prop := l ≠ [] ∧ ∃ t, Forall (λ m, Topic m = t) l.

Lemma enter_lists_ok bs t others :
  tracker_ok t (concat bs ++ others) → Forall one_topic bs →
  Forall (λ m, legal SendWait (State m) = true) (concat bs) →
  ∃ t', MsgEnterSendWait_lists bs t = (Ret (sent bs), t') ∧ tracker_ok t' (concat (sent bs) ++ others).
Proof.
  revert t others. induction bs as [| l bs IH]; intros t others Ht Hone Hleg; [by exists t |].
  apply Forall_cons in Hone as [[_ [tp Htp]] Hone]. cbn in Hleg.
  apply Forall_app in Hleg as [Hl Hleg]. cbn in Ht. rewrite <- app_assoc in Ht.
  destruct (EnterList_ok SendWait t l (concat bs ++ others) Ht) as (t1 & Hr1 & Ht1).
  { exists tp. rewrite Forall_forall in *. intros m Hm. split; [by apply Htp | by apply Hl]. }
  destruct (IH t1 ((SetState SendWait <$> l) ++ others)) as (t2 & Hr2 & Ht2).
  { eapply tracker_ok_perm; [| exact Ht1]. by rewrite Permutation_app_swap_app. }
  { done. } { done. }
  exists t2. split.
  - unfold MsgEnterSendWait_lists in *. cbn [mmap]. unfold TM, MsgEnterSendWait_list at 1.
    change CountSendWaitEntered with (count_of SendWait).
    rewrite (bind_Ret _ _ _ _ _ Hr1). by rewrite (bind_Ret _ _ _ _ _ Hr2).
  - eapply tracker_ok_perm; [| exact Ht2]. cbn. rewrite <- app_assoc.
    by rewrite Permutation_app_swap_app.
Qed.

Lemma enter_one_ok target m t others :
  tracker_ok t (m :: others) → legal target (State m) = true →
  ∃ t', EnterOne (count_of target) target m t = (Ret (SetState target m), t') ∧
    tracker_ok t' (SetState target m :: others).
Proof.
  intros Ht Hl. destruct (EnterList_ok target t [m] others Ht) as (t' & Hr & Ht').
  { exists (Topic m). by repeat constructor. }
  rewrite EnterOne_EnterList in Hr. exists t'. split; [| done].
  destruct (EnterOne _ _ m t) as [[m' | [] |] t0]; [| done]. by injection Hr as <- <-.
Qed.

(** ** The invariant *)

(** A message without its state: what an operation must conserve. *)
Definition forget (m : TMsg) : TMsg := SetState New m.

Lemma forget_SetState s (l : list TMsg) : forget <$> (SetState s <$> l) = forget <$> l.
Proof. rewrite <- list_fmap_compose. by apply list_fmap_ext. Qed.

(** The queue holds [pm] in the per-topic batcher, [cm] in the combined one and
    the ready messages; [others] are the messages elsewhere in the server. *)
Record q_inv (q : TBrokerMsgQueue) (others pm cm : list TMsg) : Prop := {
  qi_pt : pt_inv (PerTopicBatcher q);
  qi_rep : pt_rep (PerTopicBatcher q) pm;
  qi_cb : combined_ok (CombinedTopicsBatcher q) cm;
  qi_off : PerTopicEnabled q = false → pm = [];
  qi_pm : Forall (λ m, State m = Batching) pm;
  qi_cm : Forall (λ m, State m = Batching) cm;
  qi_ready : Forall one_topic (ReadyList q);
  qi_sendwait : Forall (λ m, State m = SendWait) (concat (ReadyList q));
  qi_tracker : tracker_ok (MsgStateTracker q) (others ++ pm ++ cm ++ concat (ReadyList q));
  qi_size : Z.of_nat (length (others ++ pm ++ cm ++ concat (ReadyList q))) < 2 ^ 64
}.

(** What a step inside an operation keeps. *)
Record q_moves (q : TBrokerMsgQueue) (others pm cm : list TMsg)
    (q' : TBrokerMsgQueue) (others' pm' cm' : list TMsg) : Prop := {
  qm_inv : q_inv q' others' pm' cm';
  qm_all : forget <$> (others' ++ pm' ++ cm' ++ concat (ReadyList q')) ≡ₚ
    forget <$> (others ++ pm ++ cm ++ concat (ReadyList q));
  qm_notify : SenderNotify q' = SenderNotify q;
  qm_ready : ∃ l, ReadyList q' = ReadyList q ++ l
}.

Lemma q_moves_refl q o p c : q_inv q o p c → q_moves q o p c q o p c.
Proof. split; try done. exists []. by rewrite app_nil_r. Qed.

Lemma q_moves_trans q1 o1 p1 c1 q2 o2 p2 c2 q3 o3 p3 c3 :
  q_moves q1 o1 p1 c1 q2 o2 p2 c2 → q_moves q2 o2 p2 c2 q3 o3 p3 c3 →
  q_moves q1 o1 p1 c1 q3 o3 p3 c3.
Proof.
  intros [_ H1 H2 [l Hl]] [H3 H4 H5 [k Hk]]. split; [done | by rewrite H4 | congruence |].
  exists (l ++ k). by rewrite Hk, Hl, app_assoc.
Qed.

Lemma q_inv_perm q o o' p c : o ≡ₚ o' → q_inv q o p c → q_inv q o' p c.
Proof.
  intros Ho []. split; try done; [| by rewrite <- Ho].
  eapply tracker_ok_perm; [| done]. by rewrite Ho.
Qed.

(** Messages that are in no batcher enter [SendWait]. *)
Lemma send_lists_ok q bs o p c :
  q_inv q (concat bs ++ o) p c → Forall one_topic bs →
  Forall (λ m, legal SendWait (State m) = true) (concat bs) →
  ∃ q', on_states (MsgEnterSendWait_lists bs) q = (Ret (sent bs), q') ∧
    q_moves q (concat bs ++ o) p c q' (concat (sent bs) ++ o) p c ∧
    PerTopicBatcher q' = PerTopicBatcher q ∧ CombinedTopicsBatcher q' = CombinedTopicsBatcher q ∧
    PerTopicEnabled q' = PerTopicEnabled q ∧ ReadyList q' = ReadyList q.
Proof.
  intros Hi Hone Hleg. pose proof (qi_tracker _ _ _ _ Hi) as Ht. rewrite <- app_assoc in Ht.
  destruct (enter_lists_ok _ _ _ Ht Hone Hleg) as (t' & Hr & Ht').
  eexists. split; [unfold on_states, zoom; by rewrite Hr |].
  split; [| done]. split; cbn [ReadyList SenderNotify].
  - destruct Hi. split; try done; cbn [ReadyList MsgStateTracker]; [by rewrite <- app_assoc |].
    rewrite !length_app in *. by rewrite concat_sent, length_fmap.
  - by rewrite concat_sent, !fmap_app, forget_SetState.
  - done.
  - exists []. by rewrite app_nil_r.
Qed.

Lemma sent_one_topic bs : Forall one_topic bs → Forall one_topic (sent bs).
Proof.
  unfold sent. intros Hb. apply Forall_fmap. eapply Forall_impl; [exact Hb |].
  intros l [Hl [t Ht]]. split; [by destruct l |]. exists t. cbn. by apply Forall_fmap.
Qed.

Lemma sent_SendWait bs : Forall (λ m, State m = SendWait) (concat (sent bs)).
Proof. rewrite concat_sent. apply Forall_fmap, Forall_forall. done. Qed.

Lemma ReadyList_append_ok q bs o p c :
  q_inv q (concat bs ++ o) p c → Forall one_topic bs →
  Forall (λ m, State m = SendWait) (concat bs) →
  ∃ q', ReadyList_append bs q = (Ret (), q') ∧
    q_moves q (concat bs ++ o) p c q' o p c ∧
    PerTopicBatcher q' = PerTopicBatcher q ∧ CombinedTopicsBatcher q' = CombinedTopicsBatcher q ∧
    PerTopicEnabled q' = PerTopicEnabled q ∧ ReadyList q' = ReadyList q ++ bs.
Proof.
  intros Hi Hone Hsw. eexists. split; [done |]. split; [| done].
  assert (o ++ p ++ c ++ concat (ReadyList q ++ bs) ≡ₚ
    (concat bs ++ o) ++ p ++ c ++ concat (ReadyList q)) as Hp by (rewrite concat_app; perm_lia).
  split; cbn [ReadyList SenderNotify].
  - destruct Hi. split; try done; cbn [ReadyList MsgStateTracker].
    + by apply Forall_app.
    + rewrite concat_app. by apply Forall_app.
    + eapply tracker_ok_perm; [| done]. done.
    + by rewrite Hp.
  - by rewrite Hp.
  - done.
  - by eexists.
Qed.

Lemma send_append_ok q bs o p c :
  q_inv q (concat bs ++ o) p c → Forall one_topic bs →
  Forall (λ m, legal SendWait (State m) = true) (concat bs) →
  ∃ q', (bs' ← on_states (MsgEnterSendWait_lists bs); ReadyList_append bs') q = (Ret (), q') ∧
    q_moves q (concat bs ++ o) p c q' o p c ∧
    PerTopicBatcher q' = PerTopicBatcher q ∧ CombinedTopicsBatcher q' = CombinedTopicsBatcher q ∧
    PerTopicEnabled q' = PerTopicEnabled q ∧ ReadyList q' = ReadyList q ++ sent bs.
Proof.
  intros Hi Hone Hleg.
  destruct (send_lists_ok q bs o p c Hi Hone Hleg) as (q1 & Hr1 & Hm1 & Hp1 & Hc1 & He1 & Hl1).
  destruct (ReadyList_append_ok q1 (sent bs) o p c) as (q2 & Hr2 & Hm2 & Hp2 & Hc2 & He2 & Hl2);
    [apply Hm1 | by apply sent_one_topic | apply sent_SendWait |].
  exists q2. unfold QM. rewrite (bind_Ret _ _ _ _ _ Hr1). split; [done |].
  split; [by eapply q_moves_trans |]. rewrite Hl2, Hl1. repeat split; congruence.
Qed.

Lemma batching_legal l :
  Forall (λ m, State m = Batching) l → Forall (λ m, legal SendWait (State m) = true) l.
Proof. intros Hl. eapply Forall_impl; [exact Hl |]. by intros m ->. Qed.

Definition with_pt (b : TPerTopicBatcher) (q : TBrokerMsgQueue) : TBrokerMsgQueue :=
  mkQueue (SenderNotify q) (PerTopicEnabled q) b (CombinedTopicsBatcher q) (ReadyList q)
    (MsgStateTracker q) (QueueCounters q).

Definition with_cb (b : TCombinedTopicsBatcher) (q : TBrokerMsgQueue) : TBrokerMsgQueue :=
  mkQueue (SenderNotify q) (PerTopicEnabled q) (PerTopicBatcher q) b (ReadyList q)
    (MsgStateTracker q) (QueueCounters q).

(** Messages leave and enter the per-topic batcher. *)
Lemma with_pt_moves q b' o o' p p' c :
  q_inv q o p c → pt_inv b' → pt_rep b' p' → (PerTopicEnabled q = false → p' = []) →
  o' ++ p' ≡ₚ o ++ p → Forall (λ m, State m = Batching) p' →
  q_moves q o p c (with_pt b' q) o' p' c.
Proof.
  intros Hi Hb Hr Hoff Hp Hst.
  assert (o' ++ p' ++ c ++ concat (ReadyList q) ≡ₚ o ++ p ++ c ++ concat (ReadyList q)) as Hall.
  { by rewrite !(app_assoc _ p), !(app_assoc _ p'), Hp. }
  split; cbn [with_pt ReadyList SenderNotify]; [| by rewrite Hall | done | exists []; by rewrite app_nil_r].
  destruct Hi. split; try done; cbn [with_pt ReadyList MsgStateTracker]; [| by rewrite Hall].
  by eapply tracker_ok_perm.
Qed.

Lemma with_cb_moves q b' o o' p c c' :
  q_inv q o p c → combined_ok b' c' →
  o' ++ c' ≡ₚ o ++ c → Forall (λ m, State m = Batching) c' →
  q_moves q o p c (with_cb b' q) o' p c'.
Proof.
  intros Hi Hb Hp Hst.
  assert (o' ++ p ++ c' ++ concat (ReadyList q) ≡ₚ o ++ p ++ c ++ concat (ReadyList q)) as Hall
    by perm_lia.
  split; cbn [with_cb ReadyList SenderNotify]; [| by rewrite Hall | done | exists []; by rewrite app_nil_r].
  destruct Hi. split; try done; cbn [with_cb ReadyList MsgStateTracker]; [| by rewrite Hall].
  by eapply tracker_ok_perm.
Qed.

(** The state of one message changes. *)
Lemma enter_one_moves target q m o p c :
  q_inv q (m :: o) p c → legal target (State m) = true →
  ∃ q', on_states (EnterOne (count_of target) target m) q = (Ret (SetState target m), q') ∧
    q_moves q (m :: o) p c q' (SetState target m :: o) p c ∧
    PerTopicBatcher q' = PerTopicBatcher q ∧ CombinedTopicsBatcher q' = CombinedTopicsBatcher q ∧
    PerTopicEnabled q' = PerTopicEnabled q ∧ ReadyList q' = ReadyList q.
Proof.
  intros Hi Hl. destruct (enter_one_ok target m _ _ (qi_tracker _ _ _ _ Hi) Hl) as (t' & Hr & Ht').
  eexists. split; [unfold on_states, zoom; by rewrite Hr |]. split; [| done].
  split; cbn [ReadyList SenderNotify]; [| done | done | exists []; by rewrite app_nil_r].
  destruct Hi. by split.
Qed.

Section per_topic_add.
Variables (now : Z) (q : TBrokerMsgQueue) (m : TMsg) (o p c : list TMsg).
Variables (bs : list (list TMsg)) (back : option TMsg).

Lemma added_moves b' :
  q_inv q (m :: o) p c → PerTopicEnabled q = true → (back = None → State m = Batching) →
  (back = None ∨ back = Some m) → added now (PerTopicBatcher q) m bs back b' →
  ∃ p', q_moves q (m :: o) p c (with_pt b' q) (concat bs ++ option_list back ++ o) p' c ∧
    Forall (λ m, State m = Batching) (concat bs).
Proof.
  intros Hi Hen Hst Hback [Hinv _ Hcons Hone Hdue _].
  destruct (pt_rep_exists b' Hinv) as [p' Hp']. exists p'.
  assert (p ++ [m] ≡ₚ concat bs ++ p' ++ option_list back) as Hp.
  { apply of_topic_perm. intros t. rewrite !of_topic_app, (qi_rep _ _ _ _ Hi), Hp'. by rewrite Hcons. }
  assert (Forall (λ m, State m = Batching) (concat bs ++ p')) as [Hb1 Hb2]%Forall_app.
  { pose proof (qi_pm _ _ _ _ Hi) as Hpm. destruct Hback as [-> | ->]; cbn in Hp.
    - rewrite app_nil_r in Hp. rewrite <- Hp. apply Forall_app. split; [done |].
      by repeat constructor; apply Hst.
    - rewrite app_assoc, <- !Permutation_cons_append in Hp. apply Permutation_cons_inv in Hp.
      by rewrite <- Hp. }
  split; [| done]. apply with_pt_moves; try done; [congruence |]. perm_lia.
Qed.
End per_topic_add.

Lemma per_topic_add_ok q msg now o p c :
  PerTopicEnabled q = true → q_inv q (msg :: o) p c → State msg = New → Timestamp msg ≤ INT64_MAX →
  ∃ bs back q' p', add_and_enter (λ m, PerTopic_AddMsg m now) PerTopicBatcher (@on_per_topic) msg q =
      (Ret (bs, back), q') ∧
    q_moves q (msg :: o) p c q' (concat bs ++ option_list back ++ o) p' c ∧
    Forall one_topic bs ∧ Forall (λ m, State m = Batching) (concat bs) ∧
    (back = None ∨ back = Some msg) ∧ CombinedTopicsBatcher q' = CombinedTopicsBatcher q ∧
    PerTopicEnabled q' = true ∧ ReadyList q' = ReadyList q.
Proof.
  intros Hen Hi Hst Hts.
  assert (Z.of_nat (length (held (PerTopicBatcher q) (Topic msg))) + 1 < 2 ^ 64) as Hlen.
  { rewrite <- (qi_rep _ _ _ _ Hi). pose proof (qi_size _ _ _ _ Hi) as Hs.
    pose proof (length_filter (λ m, Topic m = Topic msg) p). unfold of_topic.
    cbn in Hs. rewrite !length_app in Hs. lia. }
  destruct (PerTopic_AddMsg_ok _ msg now (qi_pt _ _ _ _ Hi) Hts Hlen) as (bs & back & b' & Hr & Ha).
  pose proof (ad_back _ _ _ _ _ _ Ha) as Hback.
  unfold add_and_enter, QM. rewrite (bind_Ret _ _ q (PerTopicBatcher q) q) by done.
  cbv beta. rewrite Hr. cbn [fst].
  destruct (BatchingIsEnabled (Config_Get (Topic msg) (PTConfig (PerTopicBatcher q)))) eqn:He.
  - subst back. destruct (enter_one_moves Batching q msg o p c Hi) as (q1 & Hr1 & Hm1 & Hp1 & Hc1 & He1 & Hl1).
    { by rewrite Hst. }
    set (msg' := SetState Batching msg) in *.
    destruct (PerTopic_AddMsg_ok (PerTopicBatcher q1) msg' now) as (bs' & back' & b1 & Hr' & Ha');
      [apply (qi_pt _ _ _ _ (qm_inv _ _ _ _ _ _ _ _ Hm1)) | done | by rewrite Hp1 |].
    pose proof (ad_back _ _ _ _ _ _ Ha') as Hback'. rewrite Hp1 in Hback'.
    change (Topic msg') with (Topic msg) in Hback'. rewrite He in Hback'. subst back'.
    destruct (added_moves now q1 msg' o p c bs' None b1) as (p' & Hm2 & Hb);
      [apply Hm1 | congruence | done | by left | done |].
    exists bs', None, (with_pt b1 q1), p'. change (MsgEnterBatching msg) with
      (EnterOne (count_of Batching) Batching msg). rewrite (bind_Ret _ _ _ _ _ Hr1).
    split; [unfold on_per_topic, zoom; by rewrite Hr' |]. split; [by eapply q_moves_trans |].
    split; [apply Ha' |]. split; [done |]. split; [by left |]. cbn. rewrite He1. done.
  - subst back. destruct (added_moves now q msg o p c bs (Some msg) b') as (p' & Hm & Hb);
      [done | done | done | by right | done |].
    exists bs, (Some msg), (with_pt b' q), p'.
    split; [unfold on_per_topic, zoom; by rewrite Hr |]. split; [done |].
    split; [apply Ha |]. split; [done |]. split; [by right |]. done.
Qed.

Section queue_proofs.
Context `{HashOrder}.

(** The combined batcher never looks at the state of a message. *)
Lemma Combined_AddMsg_state s m now b :
  (Combined_AddMsg (SetState s m) now b).1.2 = SetState s <$> (Combined_AddMsg m now b).1.2.
Proof.
  unfold Combined_AddMsg. change (Topic (SetState s m)) with (Topic m).
  change (ProcessNewMsg now (SetState s m)) with (ProcessNewMsg now m).
  destruct (Combined_BatchingIsEnabled_topic (Topic m) b); cbn [negb].
  - destruct (ProcessNewMsg now m (CombCore b)) as [[] c'];
      repeat destruct (TopicMap_Get _); done.
  - destruct (Combined_GetNextCompleteTime b) as [z |]; [destruct (z <=? now) |]; done.
Qed.

Lemma combined_moves q m now o p c bs back b' :
  q_inv q (m :: o) p c → Timestamp m ≤ INT64_MAX → (back = None → State m = Batching) →
  Combined_AddMsg m now (CombinedTopicsBatcher q) = ((bs, back), b') →
  (back = None ∨ back = Some m) ∧ Forall one_topic bs ∧ Forall (λ m, State m = Batching) (concat bs) ∧
  ∃ c', q_moves q (m :: o) p c (with_cb b' q) (concat bs ++ option_list back ++ o) p c'.
Proof.
  intros Hi Hts Hst Hr.
  destruct (Combined_AddMsg_ok m now _ _ (qi_cb _ _ _ _ Hi) Hts)
    as (bs0 & back0 & b0 & out & c' & Hr' & Hok & _ & Hg & Hcons & _).
  rewrite Hr in Hr'. injection Hr' as <- <- <-.
  assert (back = None ∨ back = Some m) as Hback.
  { destruct back as [x |]; [| by left]. cbn in Hcons. rewrite app_assoc in Hcons.
    apply app_inj_tail in Hcons as [_ ->]. by right. }
  pose proof (grouped_perm _ _ Hg) as Hperm.
  assert (Forall (λ m, State m = Batching) (out ++ c')) as [Hb1 Hb2]%Forall_app.
  { pose proof (qi_cm _ _ _ _ Hi) as Hcm. destruct Hback as [-> | ->]; cbn in Hcons.
    - rewrite app_nil_r in Hcons. rewrite <- Hcons. apply Forall_app. split; [done |].
      by repeat constructor; apply Hst.
    - rewrite app_assoc in Hcons. apply app_inj_tail in Hcons as [<- _]. done. }
  split; [done |]. split; [apply Forall_forall; intros l Hl; by eapply grouped_batch |].
  split; [by rewrite Hperm |]. exists c'. apply with_cb_moves; try done.
  assert (c ++ [m] ≡ₚ out ++ c' ++ option_list back) as Hc by by rewrite Hcons.
  perm_lia.
Qed.

Lemma combined_add_ok q msg now o p c :
  q_inv q (msg :: o) p c → State msg = New → Timestamp msg ≤ INT64_MAX →
  ∃ bs back q' c', add_and_enter (λ m, pure_op (Combined_AddMsg m now)) CombinedTopicsBatcher
      (@on_combined) msg q = (Ret (bs, back), q') ∧
    q_moves q (msg :: o) p c q' (concat bs ++ option_list back ++ o) p c' ∧
    Forall one_topic bs ∧ Forall (λ m, State m = Batching) (concat bs) ∧
    (back = None ∨ back = Some msg) ∧ PerTopicBatcher q' = PerTopicBatcher q ∧
    PerTopicEnabled q' = PerTopicEnabled q ∧ ReadyList q' = ReadyList q.
Proof.
  intros Hi Hst Hts. unfold add_and_enter, QM.
  rewrite (bind_Ret _ _ q (CombinedTopicsBatcher q) q) by done. cbv beta. unfold pure_op at 1.
  destruct (Combined_AddMsg msg now (CombinedTopicsBatcher q)) as [[bs back] b'] eqn:Hr.
  cbn [fst]. destruct back as [x |].
  - destruct (combined_moves q msg now o p c bs (Some x) b') as (Hb & H1 & H2 & c' & Hm); try done.
    exists bs, (Some x), (with_cb b' q), c'.
    split; [unfold on_combined, zoom, pure_op; by rewrite Hr |]. done.
  - destruct (enter_one_moves Batching q msg o p c Hi) as (q1 & Hr1 & Hm1 & Hp1 & Hc1 & He1 & Hl1).
    { by rewrite Hst. }
    pose proof (Combined_AddMsg_state Batching msg now (CombinedTopicsBatcher q)) as Hs.
    rewrite Hr in Hs. set (msg' := SetState Batching msg) in *.
    destruct (Combined_AddMsg msg' now (CombinedTopicsBatcher q)) as [[bs' back'] b1] eqn:Hr'.
    cbn in Hs. subst back'. rewrite <- Hc1 in Hr'.
    destruct (combined_moves q1 msg' now o p c bs' None b1) as (_ & H1 & H2 & c' & Hm2); try done;
      [apply Hm1 |].
    exists bs', None, (with_cb b1 q1), c'.
    change (MsgEnterBatching msg) with (EnterOne (count_of Batching) Batching msg).
    rewrite (bind_Ret _ _ _ _ _ Hr1).
    split; [unfold on_combined, zoom, pure_op; by rewrite Hr' |].
    split; [by eapply q_moves_trans |]. split; [done |]. split; [done |]. split; [by left |]. done.
Qed.

Lemma no_batches_no_expiry b : pt_inv b → pt_rep b [] → PerTopic_GetNextCompleteTime b = None.
Proof.
  intros Hi Hr. unfold PerTopic_GetNextCompleteTime.
  destruct (ExpiryTracker b) as [| x l] eqn:E; [done |].
  assert (RecTopic x ∈ RecTopic <$> due (Expiry x) b) as Hd.
  { apply list_elem_of_fmap_2, list_elem_of_filter. split; [done |]. rewrite E. left. }
  apply (held_nonempty_due _ b _ Hi) in Hd. by rewrite <- Hr in Hd.
Qed.

Definition expiry_pt (q : TBrokerMsgQueue) : option Z := PerTopic_GetNextCompleteTime (PerTopicBatcher q).
Definition expiry_cb (q : TBrokerMsgQueue) : option Z :=
  Combined_GetNextCompleteTime (CombinedTopicsBatcher q).

Lemma TryBatchPerTopic_ok q msg now o p c :
  q_inv q (msg :: o) p c → State msg = New → Timestamp msg ≤ INT64_MAX →
  ∃ back q' p', TryBatchPerTopic now msg q =
      (Ret (back, mkStatus (expiry_pt q) (expiry_pt q')), q') ∧
    q_moves q (msg :: o) p c q' (option_list back ++ o) p' c ∧
    (back = None ∨ back = Some msg) ∧ CombinedTopicsBatcher q' = CombinedTopicsBatcher q.
Proof.
  intros Hi Hst Hts. unfold TryBatchPerTopic, QM.
  assert (q_moves q (msg :: o) p c q (msg :: o) p c) as Hrefl.
  { split; try done. exists []. by rewrite app_nil_r. }
  rewrite (bind_Ret _ _ q (PerTopicEnabled q) q) by done. cbv beta.
  destruct (PerTopicEnabled q) eqn:Hen; cbn [negb].
  - rewrite (bind_Ret _ _ q (expiry_pt q) q) by done. cbv beta.
    destruct (decide (RoutingType msg = PartitionKey)).
    + destruct (per_topic_add_ok q msg now o p c Hen Hi Hst Hts)
        as (bs & back & q1 & p' & Hr1 & Hm1 & Hone & Hbat & Hback & Hc1 & He1 & Hl1).
      rewrite (bind_Ret _ _ _ _ _ Hr1). cbv beta iota.
      destruct (send_append_ok q1 bs (option_list back ++ o) p' c)
        as (q2 & Hr2 & Hm2 & Hp2 & Hc2 & _); [apply Hm1 | done | by apply batching_legal |].
      unfold QM in Hr2. exists back, q2, p'. split; [| split; [by eapply q_moves_trans |
        split; [done | congruence]]].
      by rewrite (bind_assoc_Ret _ _ _ _ _ _ Hr2).
    + exists (Some msg), q, p. split; [done |]. split; [done |]. split; [by right | done].
  - exists (Some msg), q, p. split; [| split; [done |]; split; [by right | done]].
    assert (expiry_pt q = None) as ->; [| done].
    apply no_batches_no_expiry; [apply Hi |].
    pose proof (qi_rep _ _ _ _ Hi) as Hr. by rewrite (qi_off _ _ _ _ Hi Hen) in Hr.
Qed.

Lemma TryBatchCombinedTopics_ok q msg now o p c :
  q_inv q (msg :: o) p c → State msg = New → Timestamp msg ≤ INT64_MAX →
  ∃ back q' c', TryBatchCombinedTopics now msg q =
      (Ret (back, mkStatus (expiry_cb q) (expiry_cb q')), q') ∧
    q_moves q (msg :: o) p c q' (option_list back ++ o) p c' ∧
    (back = None ∨ back = Some msg) ∧ PerTopicBatcher q' = PerTopicBatcher q.
Proof.
  intros Hi Hst Hts. unfold TryBatchCombinedTopics, QM.
  rewrite (bind_Ret _ _ q (expiry_cb q) q) by done. cbv beta.
  destruct (combined_add_ok q msg now o p c Hi Hst Hts)
    as (bs & back & q1 & c' & Hr1 & Hm1 & Hone & Hbat & Hback & Hc1 & He1 & Hl1).
  rewrite (bind_Ret _ _ _ _ _ Hr1). cbv beta iota.
  destruct (send_append_ok q1 bs (option_list back ++ o) p c')
    as (q2 & Hr2 & Hm2 & Hp2 & Hc2 & _); [apply Hm1 | done | by apply batching_legal |].
  unfold QM in Hr2. exists back, q2, c'.
  split; [| split; [by eapply q_moves_trans | split; [done | congruence]]].
  by rewrite (bind_assoc_Ret _ _ _ _ _ _ Hr2).
Qed.

Lemma q_moves_counter q o p c q' o' p' c' k :
  q_moves q o p c q' o' p' c' →
  q_moves q o p c (QIncrement k q').2 o' p' c'.
Proof. intros [Hi ? ? ?]. split; [| done..]. destruct Hi. by split. Qed.

(** A message that no batcher takes goes to the ready list alone. *)
Lemma send_one_ok q m o p c :
  q_inv q (m :: o) p c → legal SendWait (State m) = true →
  ∃ q', (m' ← on_states (MsgEnterSendWait m); ReadyList_append [[m']]) q = (Ret (), q') ∧
    q_moves q (m :: o) p c q' o p c ∧
    PerTopicBatcher q' = PerTopicBatcher q ∧ CombinedTopicsBatcher q' = CombinedTopicsBatcher q ∧
    ReadyList q' = ReadyList q ++ [[SetState SendWait m]].
Proof.
  intros Hi Hl. destruct (enter_one_moves SendWait q m o p c Hi Hl) as (q1 & Hr1 & Hm1 & Hp1 & Hc1 & He1 & Hl1).
  destruct (ReadyList_append_ok q1 [[SetState SendWait m]] o p c) as (q2 & Hr2 & Hm2 & Hp2 & Hc2 & He2 & Hl2).
  - apply Hm1.
  - repeat constructor; [done |]. exists (Topic m). by repeat constructor.
  - by repeat constructor.
  - exists q2. change (MsgEnterSendWait m) with (EnterOne (count_of SendWait) SendWait m).
    unfold QM. rewrite (bind_Ret _ _ _ _ _ Hr1). split; [done |].
    split; [by eapply q_moves_trans |]. rewrite Hl2, Hl1. repeat split; congruence.
Qed.

(** The second half of [Put]: the message is not for the per-topic batcher. *)
Lemma Put_combined_ok q msg now o p c :
  q_inv q (msg :: o) p c → State msg = New → Timestamp msg ≤ INT64_MAX →
  ∃ q' c',
    ('(back, combined) ← TryBatchCombinedTopics now msg;
     match back with
     | Some msg' =>
         msg' ← on_states (MsgEnterSendWait msg');
         ReadyList_append [[msg']];;
         QIncrement (match RoutingType msg with
                     | PartitionKey => NoBatchPartitionKey
                     | AnyPartition => NoBatchAnyPartition
                     end)
     | None =>
         QIncrement (match RoutingType msg with
                     | PartitionKey => CombinedTopicsBatchPartitionKey
                     | AnyPartition => CombinedTopicsBatchAnyPartition
                     end)
     end;;
     mret combined) q = (Ret (mkStatus (expiry_cb q) (expiry_cb q')), q') ∧
    q_moves q (msg :: o) p c q' o p c' ∧ PerTopicBatcher q' = PerTopicBatcher q.
Proof.
  intros Hi Hst Hts. unfold QM.
  destruct (TryBatchCombinedTopics_ok q msg now o p c Hi Hst Hts)
    as (back & q1 & c' & Hr1 & Hm1 & Hback & Hp1).
  rewrite (bind_Ret _ _ _ _ _ Hr1). cbv beta iota. destruct Hback as [-> | ->].
  - exists (QIncrement (match RoutingType msg with PartitionKey => CombinedTopicsBatchPartitionKey
      | AnyPartition => CombinedTopicsBatchAnyPartition end) q1).2, c'.
    split; [reflexivity |]. split; [by apply q_moves_counter | done].
  - destruct (send_one_ok q1 msg o p c') as (q2 & Hr2 & Hm2 & Hp2 & Hc2 & Hl2);
      [apply Hm1 | by rewrite Hst |].
    unfold QM in Hr2. exists (QIncrement (match RoutingType msg with
      | PartitionKey => NoBatchPartitionKey | AnyPartition => NoBatchAnyPartition end) q2).2, c'.
    split; [| split; [apply q_moves_counter; by eapply q_moves_trans | cbn; congruence]].
    erewrite bind_Ret; [| rewrite (bind_assoc_Ret _ _ _ _ _ _ Hr2); reflexivity].
    unfold expiry_cb. cbn [QIncrement modify snd CombinedTopicsBatcher]. by rewrite Hc2.
Qed.

Lemma Put_locked_ok q msg now o p c :
  q_inv q (msg :: o) p c → State msg = New → Timestamp msg ≤ INT64_MAX →
  ∃ q' p' c',
    Put_locked now msg q = (Ret (is_empty (ReadyList q), is_empty (ReadyList q'),
      mkStatus (expiry_pt q) (expiry_pt q'), mkStatus (expiry_cb q) (expiry_cb q')), q') ∧
    q_moves q (msg :: o) p c q' o p' c'.
Proof.
  intros Hi Hst Hts. unfold Put_locked, QM.
  rewrite (bind_Ret _ _ q (is_empty (ReadyList q)) q) by done. cbv beta.
  destruct (TryBatchPerTopic_ok q msg now o p c Hi Hst Hts)
    as (back & q1 & p' & Hr1 & Hm1 & Hback & Hc1).
  rewrite (bind_Ret _ _ _ _ _ Hr1). cbv beta iota. destruct Hback as [-> | ->].
  - exists (QIncrement PerTopicBatchPartitionKey q1).2, p', c.
    split; [| by apply q_moves_counter].
    erewrite bind_Ret; [| reflexivity].
    rewrite (bind_Ret _ _ _ (is_empty (ReadyList q1)) (QIncrement PerTopicBatchPartitionKey q1).2) by done.
    unfold expiry_cb. cbn [QIncrement modify snd CombinedTopicsBatcher]. by rewrite Hc1.
  - destruct (Put_combined_ok q1 msg now o p' c) as (q2 & c' & Hr2 & Hm2 & Hp2); [apply Hm1 | done | done |].
    unfold QM in Hr2. exists q2, p', c'. split; [| by eapply q_moves_trans].
    rewrite (bind_Ret _ _ _ _ _ Hr2).
    rewrite (bind_Ret _ _ q2 (is_empty (ReadyList q2)) q2) by done.
    unfold expiry_pt, expiry_cb. by rewrite Hp2, Hc1.
Qed.

Lemma Put_body_ok q msg now o p c :
  q_inv q (msg :: o) p c → State msg = New → Timestamp msg ≤ INT64_MAX →
  ∃ q' p' c',
    Put now msg q = Put_notify (is_empty (ReadyList q)) (is_empty (ReadyList q'))
      (mkStatus (expiry_pt q) (expiry_pt q')) (mkStatus (expiry_cb q) (expiry_cb q')) q' ∧
    q_moves q (msg :: o) p c q' o p' c'.
Proof.
  intros Hi Hst Hts. destruct (Put_locked_ok q msg now o p c Hi Hst Hts) as (q' & p' & c' & Hr & Hm).
  exists q', p', c'. split; [| done]. unfold Put, QM. by rewrite (bind_Ret _ _ _ _ _ Hr).
Qed.

(** ** Batches that are due *)

Lemma topics_rep_nil m msgs : topics_rep m msgs → m = ∅ ↔ msgs = [].
Proof.
  intros Hm. split; [intros -> | intros ->; by apply map_eq].
  destruct msgs as [| x msgs]; [done |]. specialize (Hm (Topic x)). unfold of_topic in Hm.
  by rewrite filter_cons, decide_True in Hm.
Qed.

Lemma Combined_IsEmpty_ok b msgs :
  combined_ok b msgs → Z.of_nat (length msgs) < 2 ^ 64 →
  Combined_IsEmpty b = (Ret (bool_decide (msgs = [])), b).
Proof.
  intros [_ [[Hc _ _] _] Ht _] Hl.
  assert (Core_IsEmpty (CombCore b) = bool_decide (msgs = [])) as He.
  { unfold Core_IsEmpty. rewrite Hc, uwrap_small by width_lia. destruct msgs; [done |].
    rewrite bool_decide_eq_false_2 by done. apply Z.eqb_neq. cbn [length]. lia. }
  assert (TopicMap_IsEmpty (TopicMap b) = bool_decide (msgs = [])) as Ht'.
  { unfold TopicMap_IsEmpty. apply bool_decide_ext. by apply topics_rep_nil. }
  unfold Combined_IsEmpty. rewrite (bind_Ret _ _ b b b) by done. cbv beta.
  rewrite He, Ht'. rewrite massert_bind by apply eqb_reflx. done.
Qed.

(** How a check moves a deadline: nothing due is left, and a deadline that
    changes was due. *)
Definition checked (now : Z) (initial final : option Z) : Prop :=
  (∀ z, final = Some z → now < z) ∧ (final = initial ∨ ∃ z, initial = Some z ∧ z ≤ now).

Lemma expiry_due_pt now b b' :
  ExpiryTracker b' = filter (λ x, now < Expiry x) (ExpiryTracker b) →
  ∀ z, PerTopic_GetNextCompleteTime b' = Some z → now < z.
Proof.
  intros Htr z Hz. unfold PerTopic_GetNextCompleteTime in Hz.
  destruct (ExpiryTracker b') as [| x l] eqn:E; [done |]. injection Hz as <-.
  assert (x ∈ x :: l) as Hx by left. rewrite Htr in Hx. by apply list_elem_of_filter in Hx as [? _].
Qed.

(** The batches that [GetCompleteBatches] takes from the per-topic batcher. *)
Lemma complete_moves q now o p c :
  q_inv q o p c →
  ∃ bs q' p', on_per_topic (GetCompleteBatches now) q = (Ret bs, q') ∧
    q_moves q o p c q' (concat bs ++ o) p' c ∧ Forall one_topic bs ∧
    Forall (λ m, State m = Batching) (concat bs) ∧
    CombinedTopicsBatcher q' = CombinedTopicsBatcher q ∧ ReadyList q' = ReadyList q ∧
    ∀ z, expiry_pt q' = Some z → now < z.
Proof.
  intros Hi. pose proof (qi_pt _ _ _ _ Hi) as Hpt. set (b := PerTopicBatcher q) in *.
  destruct (GetCompleteBatches_loop_ok now _ b Hpt eq_refl) as (b' & Hr & Hi' & _ & Htr & Hh & _).
  destruct (pt_rep_exists b' Hi') as [p' Hp'].
  set (bs := held b <$> (RecTopic <$> due now b)) in *.
  assert (p ≡ₚ concat bs ++ p') as Hp.
  { apply of_topic_perm. intros t. unfold bs.
    rewrite of_topic_app, of_topic_concat by (done || by apply due_topics_NoDup).
    rewrite (qi_rep _ _ _ _ Hi), Hp', Hh. case_decide; by rewrite ?app_nil_r. }
  pose proof (qi_pm _ _ _ _ Hi) as Hb. rewrite Hp in Hb. apply Forall_app in Hb as [Hb1 Hb2].
  exists bs, (with_pt b' q), p'.
  split; [unfold on_per_topic, zoom, GetCompleteBatches; munfold; fold b; cbv beta; by rewrite Hr |].
  split; [apply with_pt_moves; try done; [| perm_lia] |].
  - intros He. rewrite (qi_off _ _ _ _ Hi He) in Hp. symmetry in Hp. apply Permutation_nil_r in Hp.
    by apply app_eq_nil in Hp as [_ ->].
  - split; [| split; [done |]; split; [done |]; split; [done | by apply (expiry_due_pt now b)]].
    unfold bs. apply Forall_fmap, Forall_forall. intros t Ht.
    split; [by eapply held_nonempty_due |]. exists t. by apply held_topic.
Qed.

Lemma CheckPerTopicBatcher_ok q now o p c :
  q_inv q o p c →
  ∃ bs q' p', CheckPerTopicBatcher now q =
      (Ret (sent bs, mkStatus (expiry_pt q) (expiry_pt q')), q') ∧
    q_moves q o p c q' (concat (sent bs) ++ o) p' c ∧ Forall one_topic bs ∧
    CombinedTopicsBatcher q' = CombinedTopicsBatcher q ∧ ReadyList q' = ReadyList q ∧
    checked now (expiry_pt q) (expiry_pt q').
Proof.
  intros Hi. unfold CheckPerTopicBatcher, QM.
  rewrite (bind_Ret _ _ q (expiry_pt q) q) by done. cbv beta.
  destruct (expiry_pt q) as [z |] eqn:Hz; [destruct (z <=? now) eqn:Hd |].
  - destruct (complete_moves q now o p c Hi) as (bs & q1 & p' & Hr1 & Hm1 & Hone & Hb & Hc1 & Hl1 & Hn).
    destruct (send_lists_ok q1 bs o p' c) as (q2 & Hr2 & Hm2 & Hp2 & Hc2 & He2 & Hl2);
      [apply Hm1 | done | by apply batching_legal |].
    exists bs, q2, p'. assert (expiry_pt q2 = expiry_pt q1) as He by (unfold expiry_pt; congruence).
    split; [| split; [by eapply q_moves_trans | split; [done | split; [congruence | split; [congruence |]]]]].
    + erewrite bind_Ret; [| rewrite (bind_Ret _ _ _ _ _ Hr1); reflexivity]. cbv beta iota.
      rewrite (bind_Ret _ _ _ _ _ Hr2). by rewrite He.
    + split; [by rewrite He |]. right. exists z. split; [done | lia].
  - exists [], q, p. rewrite Hz. split; [by destruct q |]. split; [by apply q_moves_refl |].
    split; [done |]. split; [done |]. split; [done |].
    split; [intros ? [= <-]; lia | by left].
  - exists [], q, p. rewrite Hz. split; [by destruct q |]. split; [by apply q_moves_refl |].
    split; [done |]. split; [done |]. split; [done |]. split; [done | by left].
Qed.

Lemma q_size q o p c : q_inv q o p c → Z.of_nat (length c) < 2 ^ 64.
Proof. intros Hi. pose proof (qi_size _ _ _ _ Hi) as Hs. rewrite !length_app in Hs. lia. Qed.

(** Everything in the combined batcher. *)
Lemma take_moves q o p c :
  q_inv q o p c →
  ∃ bs q', on_combined (pure_op Combined_TakeBatch) q = (Ret bs, q') ∧
    q_moves q o p c q' (concat bs ++ o) p [] ∧ Forall one_topic bs ∧
    Forall (λ m, State m = Batching) (concat bs) ∧
    PerTopicBatcher q' = PerTopicBatcher q ∧ ReadyList q' = ReadyList q ∧ expiry_cb q' = None.
Proof.
  intros Hi. destruct (Combined_TakeBatch_ok _ _ (qi_cb _ _ _ _ Hi)) as [Hg Hok].
  unfold on_combined, zoom, pure_op.
  destruct (Combined_TakeBatch (CombinedTopicsBatcher q)) as [bs b'] eqn:Hr. cbn [fst snd] in *.
  pose proof (grouped_perm _ _ Hg) as Hp. exists bs, (with_cb b' q). split; [done |].
  split; [apply with_cb_moves; try done; perm_lia |].
  split; [apply Forall_forall; intros l Hl; by eapply grouped_batch |].
  split; [rewrite Hp; apply Hi |]. split; [done |]. split; [done |].
  unfold expiry_cb, Combined_GetNextCompleteTime. cbn.
  by rewrite (core_next _ [] (ok_counts _ _ (cb_core _ _ Hok))), decide_False by (naive_solver || done).
Qed.

Lemma expiry_cb_nonempty q o p c z : q_inv q o p c → expiry_cb q = Some z → c ≠ [].
Proof.
  intros Hi Hz. unfold expiry_cb, Combined_GetNextCompleteTime in Hz.
  rewrite (core_next _ c (ok_counts _ _ (cb_core _ _ (qi_cb _ _ _ _ Hi)))) in Hz
    by by eapply q_size. case_decide; [tauto | done].
Qed.

Lemma CheckCombinedTopicsBatcher_ok q now o p c :
  q_inv q o p c →
  ∃ bs q' c', CheckCombinedTopicsBatcher now q =
      (Ret (sent bs, mkStatus (expiry_cb q) (expiry_cb q')), q') ∧
    q_moves q o p c q' (concat (sent bs) ++ o) p c' ∧ Forall one_topic bs ∧
    PerTopicBatcher q' = PerTopicBatcher q ∧ ReadyList q' = ReadyList q ∧
    checked now (expiry_cb q) (expiry_cb q').
Proof.
  intros Hi. unfold CheckCombinedTopicsBatcher, QM.
  rewrite (bind_Ret _ _ q (expiry_cb q) q) by done. cbv beta.
  destruct (expiry_cb q) as [z |] eqn:Hz; [destruct (z <=? now) eqn:Hd |].
  - pose proof (expiry_cb_nonempty q o p c z Hi Hz) as Hne.
    destruct (take_moves q o p c Hi) as (bs & q1 & Hr1 & Hm1 & Hone & Hb & Hp1 & Hl1 & Hn).
    assert (∀ q o p c, q_inv q o p c → on_combined Combined_IsEmpty q =
      (Ret (bool_decide (c = [])), q)) as Hemp.
    { intros q0 o0 p0 c0 Hi0. unfold on_combined, zoom.
      rewrite (Combined_IsEmpty_ok _ _ (qi_cb _ _ _ _ Hi0)) by by eapply q_size. by destruct q0. }
    destruct (send_lists_ok q1 bs o p []) as (q2 & Hr2 & Hm2 & Hp2 & Hc2 & He2 & Hl2);
      [apply Hm1 | done | by apply batching_legal |].
    exists bs, q2, []. assert (expiry_cb q2 = None) as He by (unfold expiry_cb in *; congruence).
    rewrite He. split; [| split; [by eapply q_moves_trans | split; [done | split; [congruence | split; [congruence |]]]]].
    + erewrite bind_Ret.
      2:{ rewrite (bind_Ret _ _ _ _ _ (Hemp _ _ _ _ Hi)). cbv beta.
          rewrite (bool_decide_eq_false_2 _ Hne), massert_bind by done. cbv beta.
          rewrite (bind_Ret _ _ _ _ _ Hr1). cbv beta.
          rewrite (bind_Ret _ _ _ _ _ (Hemp _ _ _ _ (qm_inv _ _ _ _ _ _ _ _ Hm1))). reflexivity. }
      cbv beta iota. by rewrite (bind_Ret _ _ _ _ _ Hr2).
    + split; [done |]. right. exists z. split; [done | lia].
  - exists [], q, c. rewrite Hz. split; [by destruct q |]. split; [by apply q_moves_refl |].
    split; [done |]. split; [done |]. split; [done |].
    split; [intros ? [= <-]; lia | by left].
  - exists [], q, c. rewrite Hz. split; [by destruct q |]. split; [by apply q_moves_refl |].
    split; [done |]. split; [done |]. split; [done |]. split; [done | by left].
Qed.

(** Two lists of batches go to the ready list. *)
Lemma append_two_ok q l1 l2 o p c :
  q_inv q (concat l1 ++ concat l2 ++ o) p c → Forall one_topic l1 → Forall one_topic l2 →
  Forall (λ m, State m = SendWait) (concat l1) → Forall (λ m, State m = SendWait) (concat l2) →
  ∃ q', (ReadyList_append l1;; ReadyList_append l2) q = (Ret (), q') ∧
    q_moves q (concat l1 ++ concat l2 ++ o) p c q' o p c ∧
    PerTopicBatcher q' = PerTopicBatcher q ∧ CombinedTopicsBatcher q' = CombinedTopicsBatcher q ∧
    ReadyList q' = ReadyList q ++ l1 ++ l2.
Proof.
  intros Hi H1 H2 H3 H4.
  destruct (ReadyList_append_ok q l1 _ p c Hi H1 H3) as (q1 & Hr1 & Hm1 & Hp1 & Hc1 & _ & Hl1).
  destruct (ReadyList_append_ok q1 l2 o p c (qm_inv _ _ _ _ _ _ _ _ Hm1) H2 H4)
    as (q2 & Hr2 & Hm2 & Hp2 & Hc2 & _ & Hl2).
  exists q2. unfold QM. rewrite (bind_Ret _ _ _ _ _ Hr1). split; [done |].
  split; [by eapply q_moves_trans |]. rewrite Hl2, Hl1, <- app_assoc. repeat split; congruence.
Qed.

Lemma CheckBothBatchers_ok q now o p c :
  q_inv q o p c →
  ∃ q' p' c', CheckBothBatchers now q =
      (Ret (mkStatus (expiry_pt q) (expiry_pt q'), mkStatus (expiry_cb q) (expiry_cb q')), q') ∧
    q_moves q o p c q' o p' c' ∧
    checked now (expiry_pt q) (expiry_pt q') ∧ checked now (expiry_cb q) (expiry_cb q').
Proof.
  intros Hi. unfold CheckBothBatchers, QM.
  destruct (CheckPerTopicBatcher_ok q now o p c Hi) as (b1 & q1 & p' & Hr1 & Hm1 & Ho1 & Hc1 & Hl1 & Hk1).
  rewrite (bind_Ret _ _ _ _ _ Hr1). cbv beta iota.
  destruct (CheckCombinedTopicsBatcher_ok q1 now _ p' c (qm_inv _ _ _ _ _ _ _ _ Hm1))
    as (b2 & q2 & c' & Hr2 & Hm2 & Ho2 & Hp2 & Hl2 & Hk2).
  rewrite (bind_Ret _ _ _ _ _ Hr2). cbv beta iota. cbn [OptInitialExpiry].
  pose proof (q_moves_trans _ _ _ _ _ _ _ _ _ _ _ _ Hm1 Hm2) as Hm.
  assert (expiry_pt q2 = expiry_pt q1) as Ept by (unfold expiry_pt; congruence).
  assert (expiry_cb q1 = expiry_cb q) as Ecb by (unfold expiry_cb; congruence).
  assert (∀ m q3, q_moves q2 (concat (sent b2) ++ concat (sent b1) ++ o) p' c' q3 o p' c' →
    PerTopicBatcher q3 = PerTopicBatcher q2 → CombinedTopicsBatcher q3 = CombinedTopicsBatcher q2 →
    m q2 = (Ret (), q3) → ∃ q' p'' c'', (m;;
      mret (mkStatus (expiry_pt q) (expiry_pt q1), mkStatus (expiry_cb q1) (expiry_cb q2)) :
        QM (TExpiryStatus * TExpiryStatus)) q2 =
      (Ret (mkStatus (expiry_pt q) (expiry_pt q'), mkStatus (expiry_cb q) (expiry_cb q')), q') ∧
      q_moves q o p c q' o p'' c'' ∧
      checked now (expiry_pt q) (expiry_pt q') ∧ checked now (expiry_cb q) (expiry_cb q')) as Hfin.
  { intros m q3 Hm3 Hp3 Hc3 Hr3. exists q3, p', c'. unfold QM. rewrite (bind_Ret _ _ _ _ _ Hr3).
    assert (expiry_pt q3 = expiry_pt q1) as -> by (unfold expiry_pt in *; congruence).
    assert (expiry_cb q3 = expiry_cb q2) as -> by (unfold expiry_cb in *; congruence).
    rewrite Ecb in Hk2 |- *. split; [done |]. split; [by eapply q_moves_trans | done]. }
  destruct (append_two_ok q2 (sent b2) (sent b1) o p' c' (qm_inv _ _ _ _ _ _ _ _ Hm))
    as (q3 & Hr3 & Hm3 & Hp3 & Hc3 & _); try apply sent_SendWait; try by apply sent_one_topic.
  assert (q_inv q2 (concat (sent b1) ++ concat (sent b2) ++ o) p' c') as Hi2.
  { eapply q_inv_perm; [| apply Hm]. perm_lia. }
  destruct (append_two_ok q2 (sent b1) (sent b2) o p' c' Hi2)
    as (q4 & Hr4 & Hm4 & Hp4 & Hc4 & _); try apply sent_SendWait; try by apply sent_one_topic.
  assert (q_moves q2 (concat (sent b2) ++ concat (sent b1) ++ o) p' c' q4 o p' c') as Hm4'.
  { destruct Hm4 as [? Hall ? ?]. split; try done. rewrite Hall. apply fmap_Permutation. perm_lia. }
  destruct (expiry_pt q) as [a |]; [destruct (expiry_cb q1) as [b |]; [destruct (a <? b) |] |];
    first [by apply (Hfin _ q3) | by apply (Hfin _ q4)].
Qed.

Lemma PutNow_locked_ok q msg now o p c :
  q_inv q (msg :: o) p c → State msg = SendWait →
  ∃ q' p' c', PutNow_locked now msg q = (Ret (is_empty (ReadyList q)), q') ∧
    q_moves q (msg :: o) p c q' o p' c' ∧ ReadyList q' ≠ [] ∧
    checked now (expiry_pt q) (expiry_pt q') ∧ checked now (expiry_cb q) (expiry_cb q').
Proof.
  intros Hi Hst. unfold PutNow_locked, QM. rewrite (bind_Ret _ _ q (is_empty (ReadyList q)) q) by done. cbv beta.
  destruct (CheckBothBatchers_ok q now _ p c Hi) as (q2 & p' & c' & Hr2 & Hm2 & Hk1 & Hk2).
  rewrite (bind_Ret _ _ _ _ _ Hr2).
  destruct (ReadyList_append_ok q2 [[msg]] o p' c') as (q3 & Hr3 & Hm3 & Hp3 & Hc3 & _ & Hl3).
  - apply Hm2.
  - repeat constructor; [done |]. exists (Topic msg). by repeat constructor.
  - by repeat constructor.
  - rewrite (bind_Ret _ _ _ _ _ Hr3). exists q3, p', c'. split; [done |].
    split; [by eapply q_moves_trans |]. split; [rewrite Hl3; by destruct (ReadyList q2) |].
    unfold expiry_pt, expiry_cb in *. by rewrite Hp3, Hc3.
Qed.

Lemma PutNow_batch_locked_ok q bs now o p c :
  q_inv q (concat bs ++ o) p c → bs ≠ [] → Forall one_topic bs →
  Forall (λ m, State m = SendWait) (concat bs) →
  ∃ q' p' c', PutNow_batch_locked now bs q = (Ret (is_empty (ReadyList q)), q') ∧
    q_moves q (concat bs ++ o) p c q' o p' c' ∧ ReadyList q' ≠ [] ∧
    checked now (expiry_pt q) (expiry_pt q') ∧ checked now (expiry_cb q) (expiry_cb q').
Proof.
  intros Hi Hne Hone Hl. unfold PutNow_batch_locked, QM.
  rewrite (bind_Ret _ _ q (is_empty (ReadyList q)) q) by done. cbv beta.
  destruct (CheckBothBatchers_ok q now _ p c Hi) as (q2 & p' & c' & Hr2 & Hm2 & Hk1 & Hk2).
  destruct (ReadyList_append_ok q2 bs o p' c') as (q3 & Hr3 & Hm3 & Hp3 & Hc3 & _ & Hl3);
    [apply Hm2 | done | done |].
  assert (ReadyList q3 ≠ []) as Hne3 by (rewrite Hl3; by destruct (ReadyList q2), bs).
  exists q3, p', c'. split; [| split; [by eapply q_moves_trans |]].
  - rewrite (bind_Ret _ _ _ _ _ Hr2), (bind_Ret _ _ _ _ _ Hr3), (bind_Ret _ _ q3 (is_empty (ReadyList q3)) q3) by done.
    cbv beta. rewrite massert_bind; [done |]. by destruct (ReadyList q3).
  - split; [done |]. unfold expiry_pt, expiry_cb in *. by rewrite Hp3, Hc3.
Qed.

Lemma PutNow_body_ok q msg now o p c :
  q_inv q (msg :: o) p c → legal SendWait (State msg) = true →
  ∃ q' p' c', PutNow now msg q = PutNow_notify (is_empty (ReadyList q)) q' ∧
    q_moves q (msg :: o) p c q' o p' c' ∧ ReadyList q' ≠ [].
Proof.
  intros Hi Hl. unfold PutNow, QM.
  destruct (enter_one_moves SendWait q msg o p c Hi Hl) as (q1 & Hr1 & Hm1 & _ & _ & _ & Hl1).
  change (MsgEnterSendWait msg) with (EnterOne (count_of SendWait) SendWait msg). rewrite (bind_Ret _ _ _ _ _ Hr1).
  destruct (PutNow_locked_ok q1 (SetState SendWait msg) now o p c (qm_inv _ _ _ _ _ _ _ _ Hm1)) as (q2 & p' & c' & Hr2 & Hm2 & Hne & _); [done |].
  exists q2, p', c'. rewrite (bind_Ret _ _ _ _ _ Hr2), Hl1. split; [done |]. split; [by eapply q_moves_trans | done].
Qed.

Lemma PutNow_batch_body_ok q bs now o p c :
  q_inv q (concat bs ++ o) p c → bs ≠ [] → Forall one_topic bs →
  Forall (λ m, legal SendWait (State m) = true) (concat bs) →
  ∃ q' p' c', PutNow_batch now bs q = PutNow_notify (is_empty (ReadyList q)) q' ∧
    q_moves q (concat bs ++ o) p c q' o p' c' ∧ ReadyList q' ≠ [].
Proof.
  intros Hi Hne Hone Hl.
  destruct (send_lists_ok q bs o p c Hi Hone Hl) as (q1 & Hr1 & Hm1 & _ & _ & _ & Hl1).
  destruct (PutNow_batch_locked_ok q1 (sent bs) now o p c (qm_inv _ _ _ _ _ _ _ _ Hm1)) as (q2 & p' & c' & Hr2 & Hm2 & Hne2 & _);
    [by destruct bs | by apply sent_one_topic | apply sent_SendWait |].
  exists q2, p', c'. split; [| split; [by eapply q_moves_trans | done]].
  unfold PutNow_batch, QM. destruct bs as [| l bs]; [done |].
  by rewrite (bind_Ret _ _ _ _ _ Hr1), (bind_Ret _ _ _ _ _ Hr2), Hl1.
Qed.

Definition next_expiry (q : TBrokerMsgQueue) : option Z := min_opt_ts (expiry_pt q) (expiry_cb q).

(** The ready list goes to the caller. *)
Lemma ReadyList_take_ok q o p c :
  q_inv q o p c →
  ∃ q', ReadyList_take q = (Ret (ReadyList q), q') ∧ q_inv q' (concat (ReadyList q) ++ o) p c ∧
    ReadyList q' = [] ∧ SenderNotify q' = SenderNotify q ∧
    expiry_pt q' = expiry_pt q ∧ expiry_cb q' = expiry_cb q.
Proof.
  intros Hi. eexists. split; [reflexivity |]. split; [| done].
  assert ((concat (ReadyList q) ++ o) ++ p ++ c ++ concat [] ≡ₚ
    o ++ p ++ c ++ concat (ReadyList q)) as Hp by (cbn [concat]; perm_lia).
  destruct Hi. split; try done; cbn [ReadyList MsgStateTracker];
    first [by apply Forall_nil | by eapply tracker_ok_perm | by rewrite Hp].
Qed.

Lemma NonblockingGet_ok q now o p c :
  q_inv q o p c →
  ∃ msgs q' p' c', NonblockingGet now q = (Ret (next_expiry q', msgs), q') ∧
    q_inv q' (concat msgs ++ o) p' c' ∧ Forall one_topic msgs ∧
    Forall (λ m, State m = SendWait) (concat msgs) ∧
    forget <$> (p' ++ c' ++ concat msgs) ≡ₚ forget <$> (p ++ c ++ concat (ReadyList q)) ∧
    SenderNotify q' = SenderNotify q ∧ ReadyList q' = [] ∧ (∃ l, msgs = ReadyList q ++ l) ∧
    checked now (expiry_pt q) (expiry_pt q') ∧ checked now (expiry_cb q) (expiry_cb q').
Proof.
  intros Hi. unfold NonblockingGet, QM.
  destruct (CheckBothBatchers_ok q now o p c Hi) as (q1 & p' & c' & Hr1 & Hm1 & Hk1 & Hk2).
  rewrite (bind_Ret _ _ _ _ _ Hr1). cbv beta iota.
  destruct (ReadyList_take_ok q1 o p' c' (qm_inv _ _ _ _ _ _ _ _ Hm1))
    as (q2 & Hr2 & Hi2 & Hl2 & Hn2 & He1 & He2).
  rewrite (bind_Ret _ _ _ _ _ Hr2). exists (ReadyList q1), q2, p', c'.
  destruct Hm1 as [Hi1 Hall Hn Hrd]. unfold next_expiry. rewrite He1, He2.
  split; [done |]. split; [done |]. split; [apply Hi1 |]. split; [apply Hi1 |].
  split; [| split; [congruence | done]].
  rewrite !(fmap_app _ o) in Hall. by apply Permutation_app_inv_l in Hall.
Qed.

Lemma concat_nonempty {A} (ls : list (list A)) : concat (filter (λ l, l ≠ []) ls) = concat ls.
Proof.
  induction ls as [| [| x l] ls IH]; [done | |]; rewrite filter_cons.
  - rewrite decide_False by (intros Hx; by apply Hx). done.
  - rewrite decide_True by done. cbn. by rewrite IH.
Qed.

(** [GetAllBatches] empties the per-topic batcher. *)
Lemma all_batches_moves q o p c :
  q_inv q o p c →
  ∃ bs q', on_per_topic GetAllBatches q = (Ret bs, q') ∧
    q_moves q o p c q' (concat bs ++ o) [] c ∧ Forall one_topic bs ∧
    Forall (λ m, State m = Batching) (concat bs) ∧
    CombinedTopicsBatcher q' = CombinedTopicsBatcher q ∧ ReadyList q' = ReadyList q.
Proof.
  intros Hi. pose proof (qi_pt _ _ _ _ Hi) as Hpt. set (b := PerTopicBatcher q) in *.
  destruct (GetAllBatches_ok b Hpt) as (ts & b' & Hr & Hnd & Hts & Hi' & _ & Htr & Hh).
  set (bs := filter (λ l, l ≠ []) (held b <$> ts)) in *.
  assert (concat bs = concat (held b <$> ts)) as Hbs by apply concat_nonempty.
  assert (p ≡ₚ concat bs) as Hp.
  { rewrite Hbs. apply of_topic_perm. intros t. rewrite of_topic_concat by done.
    rewrite (qi_rep _ _ _ _ Hi). case_decide as Hd; [done |]. unfold held. fold b.
    destruct (BatchMap b !! t) eqn:He; [| done]. destruct Hd. apply Hts. by rewrite He. }
  exists bs, (with_pt b' q). split; [unfold on_per_topic, zoom; fold b; by rewrite Hr |].
  split; [apply with_pt_moves; try done; [intros t; by rewrite Hh |]; rewrite app_nil_r, Hp; apply Permutation_app_comm |].
  split; [| split; [rewrite <- Hp; apply Hi | done]].
  unfold bs. apply Forall_forall. intros l [Hl (t & -> & Ht)%list_elem_of_fmap]%list_elem_of_filter.
  split; [done |]. exists t. by apply held_topic.
Qed.

Lemma q_moves_perm q o p c q' o' o'' p' c' :
  q_moves q o p c q' o' p' c' → o' ≡ₚ o'' → q_moves q o p c q' o'' p' c'.
Proof.
  intros [Hi Hall Hn Hr] Ho. split; [by eapply q_inv_perm | by rewrite <- Ho | done | done].
Qed.

(** The end of [GetAllMsgs]: all messages are in the ready list. *)
Lemma take_all_ok q q5 o p c (m : QM ()) q4 :
  m q4 = (Ret (), q5) → q_moves q o p c q5 o [] [] →
  ∃ msgs q', (m;; ReadyList_take) q4 = (Ret msgs, q') ∧ q_inv q' (concat msgs ++ o) [] [] ∧
    ReadyList q' = [] ∧ Forall one_topic msgs ∧ Forall (λ m, State m = SendWait) (concat msgs) ∧
    forget <$> concat msgs ≡ₚ forget <$> (p ++ c ++ concat (ReadyList q)) ∧
    SenderNotify q' = SenderNotify q.
Proof.
  intros Hr [Hi Hall Hn _]. destruct (ReadyList_take_ok q5 o [] [] Hi) as (q' & Hr' & Hi' & Hl & Hn' & _).
  exists (ReadyList q5), q'. unfold QM. rewrite (bind_Ret _ _ _ _ _ Hr). split; [done |].
  split; [done |]. split; [done |]. split; [apply Hi |]. split; [apply Hi |].
  split; [| congruence]. rewrite !(fmap_app _ o) in Hall. by apply Permutation_app_inv_l in Hall.
Qed.

Lemma GetAllMsgs_ok q o p c :
  q_inv q o p c →
  ∃ msgs q', GetAllMsgs q = (Ret msgs, q') ∧ q_inv q' (concat msgs ++ o) [] [] ∧
    ReadyList q' = [] ∧ Forall one_topic msgs ∧ Forall (λ m, State m = SendWait) (concat msgs) ∧
    forget <$> concat msgs ≡ₚ forget <$> (p ++ c ++ concat (ReadyList q)) ∧
    SenderNotify q' = SenderNotify q.
Proof.
  intros Hi. unfold GetAllMsgs, QM.
  rewrite (bind_Ret _ _ q (expiry_pt q) q), (bind_Ret _ _ q (expiry_cb q) q) by done. cbv beta.
  destruct (all_batches_moves q o p c Hi) as (b1 & q1 & Hr1 & Hm1 & Ho1 & Hb1 & _).
  destruct (take_moves q1 _ _ _ (qm_inv _ _ _ _ _ _ _ _ Hm1)) as (b2 & q2 & Hr2 & Hm2 & Ho2 & Hb2 & _).
  pose proof (q_moves_trans _ _ _ _ _ _ _ _ _ _ _ _ Hm1 Hm2) as H2.
  apply (q_moves_perm _ _ _ _ _ _ (concat b1 ++ concat b2 ++ o)) in H2; [| perm_lia].
  destruct (send_lists_ok q2 b1 _ _ _ (qm_inv _ _ _ _ _ _ _ _ H2) Ho1 (batching_legal _ Hb1))
    as (q3 & Hr3 & Hm3 & _).
  pose proof (q_moves_trans _ _ _ _ _ _ _ _ _ _ _ _ H2 Hm3) as H3.
  apply (q_moves_perm _ _ _ _ _ _ (concat b2 ++ concat (sent b1) ++ o)) in H3; [| perm_lia].
  destruct (send_lists_ok q3 b2 _ _ _ (qm_inv _ _ _ _ _ _ _ _ H3) Ho2 (batching_legal _ Hb2))
    as (q4 & Hr4 & Hm4 & _).
  pose proof (q_moves_trans _ _ _ _ _ _ _ _ _ _ _ _ H3 Hm4) as H4.
  pose proof H4 as H4'.
  apply (q_moves_perm _ _ _ _ _ _ (concat (sent b1) ++ concat (sent b2) ++ o)) in H4'; [| perm_lia].
  rewrite (bind_Ret _ _ _ _ _ Hr1), (bind_Ret _ _ _ _ _ Hr2), (bind_Ret _ _ _ _ _ Hr3),
    (bind_Ret _ _ _ _ _ Hr4).
  destruct (append_two_ok q4 (sent b2) (sent b1) o [] [] (qm_inv _ _ _ _ _ _ _ _ H4))
    as (q6 & Hr6 & Hm6 & _); try apply sent_SendWait; try by apply sent_one_topic.
  destruct (append_two_ok q4 (sent b1) (sent b2) o [] [] (qm_inv _ _ _ _ _ _ _ _ H4'))
    as (q5 & Hr5 & Hm5 & _); try apply sent_SendWait; try by apply sent_one_topic.
  pose proof (q_moves_trans _ _ _ _ _ _ _ _ _ _ _ _ H4 Hm6) as H6.
  pose proof (q_moves_trans _ _ _ _ _ _ _ _ _ _ _ _ H4' Hm5) as H5.
  destruct (expiry_pt q) as [a |]; [destruct (expiry_cb q) as [b |]; [destruct (b <? a) |] |];
    first [by eapply (take_all_ok q q5) | by eapply (take_all_ok q q6)].
Qed.

(** ** Waking the connector

    Threads that put messages (the router) and the one that gets them (the connector) run
    at the same time.  A step is a critical section or an operation on the semaphore; in
    between, a thread that has put knows whether it will push, and the connector may have
    popped and not yet taken the messages. *)
Inductive put_phase := PutIdle | PutDone (notify : bool).
Inductive get_phase := GetIdle | GetPopped.

(** The deadline is the one that the connector was last given; it polls for the semaphore
    until then.  [qs_elsewhere] are the messages in the rest of the server. *)
Record queue_sys := mkQueueSys {
  qs_queue : TBrokerMsgQueue;
  qs_deadline : option Z;
  qs_elsewhere : list TMsg;
  qs_putters : list put_phase;
  qs_getter : get_phase
}.

(** A queue of a new dispatcher. *)
Inductive queue_init : queue_sys → Prop :=
| queue_init_new per_topic combined topic_filter exclude tracker o n :
    (∀ c t, per_topic = Some c → config_ok (Config_Get t c)) → config_ok combined →
    tracker_ok tracker o → Z.of_nat (length o) < 2 ^ 64 →
    queue_init (mkQueueSys (TBrokerMsgQueue_new per_topic combined topic_filter exclude tracker)
      None o (replicate n PutIdle) GetIdle).

(** [qs_enter]: [PutNow] calls the state tracker before it takes the mutex.
    [qs_rest]: the rest of the server handles its own messages; the counts of the tracker
    stay exact.  [qs_reset]: no thread is in a method. *)
Inductive queue_step : queue_sys → queue_sys → Prop :=
| qs_put q D msg o ts g i now r q' :
    ts !! i = Some PutIdle → State msg = New → Timestamp msg ≤ INT64_MAX →
    Put_locked now msg q = (Ret r, q') →
    queue_step (mkQueueSys q D (msg :: o) ts g)
      (mkQueueSys q' D o (<[i := PutDone (Put_wakes r.1.1.1 r.1.1.2 r.1.2 r.2)]> ts) g)
| qs_enter q D msg msg' o ts g q' :
    legal SendWait (State msg) = true → on_states (MsgEnterSendWait msg) q = (Ret msg', q') →
    queue_step (mkQueueSys q D (msg :: o) ts g) (mkQueueSys q' D (msg' :: o) ts g)
| qs_enter_lists q D bs bs' o ts g q' :
    Forall one_topic bs → Forall (λ m, legal SendWait (State m) = true) (concat bs) →
    on_states (MsgEnterSendWait_lists bs) q = (Ret bs', q') →
    queue_step (mkQueueSys q D (concat bs ++ o) ts g) (mkQueueSys q' D (concat bs' ++ o) ts g)
| qs_put_now q D msg o ts g i now b q' :
    ts !! i = Some PutIdle → State msg = SendWait → PutNow_locked now msg q = (Ret b, q') →
    queue_step (mkQueueSys q D (msg :: o) ts g) (mkQueueSys q' D o (<[i := PutDone b]> ts) g)
| qs_put_batch q D bs o ts g i now b q' :
    ts !! i = Some PutIdle → bs ≠ [] → Forall one_topic bs → Forall (λ m, State m = SendWait) (concat bs) →
    PutNow_batch_locked now bs q = (Ret b, q') →
    queue_step (mkQueueSys q D (concat bs ++ o) ts g) (mkQueueSys q' D o (<[i := PutDone b]> ts) g)
| qs_notify q D o ts g i b q' :
    ts !! i = Some (PutDone b) → PutNow_notify b q = (Ret (), q') →
    queue_step (mkQueueSys q D o ts g) (mkQueueSys q' D o (<[i := PutIdle]> ts) g)
| qs_pop q D o ts q' :
    SenderNotify_Pop q = (Ret (), q') →
    queue_step (mkQueueSys q D o ts GetIdle) (mkQueueSys q' D o ts GetPopped)
| qs_get q D o ts g now e msgs q' :
    NonblockingGet now q = (Ret (e, msgs), q') →
    queue_step (mkQueueSys q D o ts g) (mkQueueSys q' e (concat msgs ++ o) ts GetIdle)
| qs_get_all q D o ts msgs q' :
    GetAllOnShutdown q = (Ret msgs, q') →
    queue_step (mkQueueSys q D o ts GetIdle) (mkQueueSys q' D (concat msgs ++ o) ts GetIdle)
| qs_reset q D o ts msgs q' :
    Forall (λ p, p = PutIdle) ts → Reset q = (Ret msgs, q') →
    queue_step (mkQueueSys q D o ts GetIdle) (mkQueueSys q' None (concat msgs ++ o) ts GetIdle)
| qs_perm q D o o' ts g : o ≡ₚ o' → queue_step (mkQueueSys q D o ts g) (mkQueueSys q D o' ts g)
| qs_rest q D o o' ts g t :
    (∀ p c, q_inv q o p c → q_inv (on_states (λ _, (Ret (), t)) q).2 o' p c) →
    queue_step (mkQueueSys q D o ts g) (mkQueueSys (on_states (λ _, (Ret (), t)) q).2 D o' ts g).

(** The wakeups on their way: the count of the semaphore, the pushes that are still to
    come, and the connector that has popped and not yet taken the messages. *)
Definition pending (p : put_phase) : Z := match p with PutDone true => 1 | _ => 0 end.
Definition popped (g : get_phase) : Z := match g with GetPopped => 1 | GetIdle => 0 end.
Definition wakeups (s : queue_sys) : Z :=
  SenderNotify (qs_queue s) + sumZ (pending <$> qs_putters s) + popped (qs_getter s).

(** With no wakeup on its way there is nothing to send, and no batch is due before the
    deadline that the connector knows. *)
Definition woken (W : Z) (D : option Z) (q : TBrokerMsgQueue) : Prop :=
  (ReadyList q ≠ [] → 0 < W) ∧ (W = 0 → ∀ e, next_expiry q = Some e → ∃ d, D = Some d ∧ d ≤ e).

Record queue_sys_ok (s : queue_sys) : Prop := {
  qo_inv : ∃ p c, q_inv (qs_queue s) (qs_elsewhere s) p c;
  qo_count : 0 ≤ SenderNotify (qs_queue s);
  qo_woken : woken (wakeups s) (qs_deadline s) (qs_queue s)
}.

Lemma pending_nonneg ts : 0 ≤ sumZ (pending <$> ts).
Proof. apply sumZ_nonneg, Forall_fmap, Forall_true. by intros [| []]. Qed.

Lemma pending_insert ts i p r :
  ts !! i = Some p → sumZ (pending <$> <[i := r]> ts) = sumZ (pending <$> ts) - pending p + pending r.
Proof.
  intros H'. rewrite <- (take_drop_middle ts i p H') at 2. rewrite insert_take_drop by by eapply lookup_lt_Some.
  rewrite !fmap_app, !sumZ_app, !fmap_cons. cbn. lia.
Qed.

Lemma pending_some ts : 0 < sumZ (pending <$> ts) → ∃ i, ts !! i = Some (PutDone true).
Proof.
  induction ts as [| p ts IH]; [done |]. rewrite fmap_cons. cbn. intros H'. destruct p as [| []]; [| by exists 0%nat |]; (destruct IH as [i Hi]; [done | by exists (S i)]).
Qed.

(** A put that is not going to wake the connector leaves nothing that it would miss. *)
Lemma Put_woken W D q q1 l :
  woken W D q → 0 ≤ W → ReadyList q1 = ReadyList q ++ l →
  woken (W + pending (PutDone (Put_wakes (is_empty (ReadyList q)) (is_empty (ReadyList q1))
    (mkStatus (expiry_pt q) (expiry_pt q1)) (mkStatus (expiry_cb q) (expiry_cb q1))))) D q1.
Proof.
  intros (Hr & He) H0 Hl. unfold Put_wakes. cbn [OptInitialExpiry OptFinalExpiry].
  fold (next_expiry q) (next_expiry q1). destruct (_ || _) eqn:Hb; cbn [pending]; [split; lia |].
  apply orb_false_iff in Hb as [Hb1 Hb2]. rewrite Z.add_0_r. split.
  - intros Hne. destruct (ReadyList q) eqn:E; [| by apply Hr]. by destruct (ReadyList q1).
  - intros Hz e Heq. rewrite Heq in Hb2. destruct (next_expiry q) as [i |]; [| done].
    destruct (He Hz i eq_refl) as (d & -> & ?). exists d. split; [done | lia].
Qed.

Lemma checked_later now q q' :
  checked now (expiry_pt q) (expiry_pt q') → checked now (expiry_cb q) (expiry_cb q') →
  ∀ e', next_expiry q' = Some e' → now < e' ∧ ∃ e, next_expiry q = Some e ∧ e ≤ e'.
Proof.
  unfold next_expiry, checked. intros [H1 H1'] [H2 H2'] e'.
  destruct (expiry_pt q') as [a |], (expiry_cb q') as [b |]; cbn; intros [= <-];
    try specialize (H1 _ eq_refl); try specialize (H2 _ eq_refl);
    destruct H1' as [<- | (x & -> & ?)], H2' as [<- | (y & -> & ?)];
    (split; [lia |]); cbn; eexists; (split; [reflexivity | lia]).
Qed.

Lemma PutNow_woken W D q q1 :
  woken W D q → 0 ≤ W → woken (W + pending (PutDone (is_empty (ReadyList q)))) D q1.
Proof.
  intros (Hr & He) H0. assert (0 < W + pending (PutDone (is_empty (ReadyList q)))); [| split; lia].
  destruct (ReadyList q); cbn; [lia |]. specialize (Hr ltac:(done)). lia.
Qed.

Lemma q_inv_new per_topic combined topic_filter exclude tracker o :
  (∀ c t, per_topic = Some c → config_ok (Config_Get t c)) → config_ok combined →
  tracker_ok tracker o → Z.of_nat (length o) < 2 ^ 64 →
  q_inv (TBrokerMsgQueue_new per_topic combined topic_filter exclude tracker) o [] [].
Proof.
  intros Hp Hc Ht Hl. split; cbn; try done; rewrite ?app_nil_r; try done.
  - apply pt_inv_new. intros t. destruct per_topic as [cfg |]; [by apply Hp |].
    unfold Config_Get. cbn. rewrite lookup_empty. split; cbn; lia.
  - split; cbn; [done | apply (so_core _ (single_ok_new _ Hc)) | apply topics_rep_empty | constructor].
Qed.

Lemma PutNow_notify_inv b q o p c :
  q_inv q o p c → ∃ q', PutNow_notify b q = (Ret (), q') ∧ q_inv q' o p c ∧
    ReadyList q' = ReadyList q.
Proof.
  intros []. unfold PutNow_notify. destruct b; (eexists; split; [reflexivity |]);
    (split; [by split | done]).
Qed.

Lemma Put_notify_inv a b s1 s2 q o p c :
  q_inv q o p c → ∃ q', Put_notify a b s1 s2 q = (Ret (), q') ∧ q_inv q' o p c ∧
    ReadyList q' = ReadyList q.
Proof. apply PutNow_notify_inv. Qed.

(** With nothing ready, a connector that knows the deadline misses nothing. *)
Lemma got_woken W q' : ReadyList q' = [] → woken W (next_expiry q') q'.
Proof. intros Hl. split; [by rewrite Hl |]. intros _ e He. by exists e. Qed.

Lemma drained_woken W D q o : ReadyList q = [] → q_inv q o [] [] → woken W D q.
Proof.
  intros Hl Hi. split; [by rewrite Hl |]. intros _ e He.
  assert (next_expiry q = None) as E; [| congruence]. unfold next_expiry, expiry_pt.
  rewrite (no_batches_no_expiry _ (qi_pt _ _ _ _ Hi) (qi_rep _ _ _ _ Hi)).
  destruct (expiry_cb q) as [z |] eqn:Hz; [| done].
  by destruct (expiry_cb_nonempty q _ _ _ z Hi Hz).
Qed.

Lemma SenderNotify_Pop_ok q o p c :
  q_inv q o p c → 0 < SenderNotify q →
  ∃ q', SenderNotify_Pop q = (Ret (), q') ∧ q_inv q' o p c ∧ SenderNotify q' = SenderNotify q - 1 ∧
    ReadyList q' = ReadyList q ∧ next_expiry q' = next_expiry q.
Proof.
  intros Hi Hn. unfold SenderNotify_Pop, QM. rewrite (bind_Ret _ _ q (SenderNotify q) q) by done. cbv beta.
  rewrite massert_bind by lia. eexists. split; [reflexivity |]. split; [destruct Hi; by split | done].
Qed.

Lemma SenderNotify_Pop_ready q q' : SenderNotify_Pop q = (Ret (), q') → 0 < SenderNotify q.
Proof.
  unfold SenderNotify_Pop, QM. rewrite (bind_Ret _ _ q (SenderNotify q) q) by done. cbv beta. intros Hr.
  destruct (0 <? SenderNotify q) eqn:E; [lia |]. done.
Qed.

Lemma Get_ok q now o p c :
  q_inv q o p c → 0 < SenderNotify q →
  ∃ msgs q' p' c', Get now q = (Ret (next_expiry q', msgs), q') ∧
    q_inv q' (concat msgs ++ o) p' c' ∧ Forall one_topic msgs ∧
    Forall (λ m, State m = SendWait) (concat msgs) ∧
    forget <$> (p' ++ c' ++ concat msgs) ≡ₚ forget <$> (p ++ c ++ concat (ReadyList q)) ∧
    SenderNotify q' = SenderNotify q - 1 ∧ ReadyList q' = [] ∧
    ∀ e, next_expiry q' = Some e → now < e.
Proof.
  intros Hi Hn. destruct (SenderNotify_Pop_ok q o p c Hi Hn) as (q1 & Hr1 & Hi1 & Hn1 & Hl1 & _).
  unfold Get, QM. rewrite (bind_Ret _ _ _ _ _ Hr1).
  destruct (NonblockingGet_ok q1 now o p c Hi1)
    as (msgs & q' & p' & c' & Hr & H1 & H2 & H3 & H4 & H5 & H6 & _ & Hk1 & Hk2).
  rewrite Hl1 in H4. rewrite Hn1 in H5.
  exists msgs, q', p', c'. do 7 (split; [done |]). intros e He.
  by apply (checked_later now q1 q' Hk1 Hk2).
Qed.

Lemma queue_init_ok s : queue_init s → queue_sys_ok s.
Proof.
  intros [pt cb tf ex tr o n H1 H2 H3 H4]. split; cbn [qs_queue qs_elsewhere qs_deadline]; [| done |].
  - exists [], []. by apply q_inv_new.
  - by eapply drained_woken, q_inv_new.
Qed.

Lemma wakeups_nonneg s : 0 ≤ SenderNotify (qs_queue s) → 0 ≤ wakeups s.
Proof. intros H0. pose proof (pending_nonneg (qs_putters s)). unfold wakeups. destruct (qs_getter s); cbn; lia. Qed.

(** A critical section of a put, by a thread that then knows whether to push. *)
Lemma put_step_ok q q' D o o' p' c' ts g i b :
  queue_sys_ok (mkQueueSys q D o ts g) → ts !! i = Some PutIdle → q_inv q' o' p' c' → SenderNotify q' = SenderNotify q →
  woken (wakeups (mkQueueSys q D o ts g) + pending (PutDone b)) D q' →
  queue_sys_ok (mkQueueSys q' D o' (<[i := PutDone b]> ts) g).
Proof.
  intros [_ H0 _] Hi Hi' Hn Hw. split; cbn [qs_queue qs_elsewhere qs_deadline] in *; [by exists p', c' | by rewrite Hn |].
  replace (wakeups (mkQueueSys q' D o' (<[i := PutDone b]> ts) g))
    with (wakeups (mkQueueSys q D o ts g) + pending (PutDone b)); [done |].
  unfold wakeups. cbn [qs_queue qs_putters qs_getter]. rewrite (pending_insert _ _ _ _ Hi), Hn. cbn [pending]. lia.
Qed.

(** Messages elsewhere change, the queue only in the tracker. *)
Lemma elsewhere_step_ok q q' D o o' p' c' ts g :
  queue_sys_ok (mkQueueSys q D o ts g) → q_inv q' o' p' c' → SenderNotify q' = SenderNotify q →
  ReadyList q' = ReadyList q → next_expiry q' = next_expiry q →
  queue_sys_ok (mkQueueSys q' D o' ts g).
Proof.
  intros [_ H0 Hw] Hi' Hn Hl He. split; cbn [qs_queue qs_elsewhere qs_deadline] in *; [by exists p', c' | by rewrite Hn |].
  unfold woken, wakeups in *. cbn [qs_queue qs_putters qs_getter] in *. by rewrite Hn, Hl, He.
Qed.

Lemma next_expiry_eq q q' : PerTopicBatcher q' = PerTopicBatcher q → CombinedTopicsBatcher q' = CombinedTopicsBatcher q →
  next_expiry q' = next_expiry q.
Proof. unfold next_expiry, expiry_pt, expiry_cb. by intros -> ->. Qed.

(** The connector's semaphore and what it takes. *)
Lemma get_step_ok q' D' o' p' c' ts g :
  q_inv q' o' p' c' → 0 ≤ SenderNotify q' → woken (wakeups (mkQueueSys q' D' o' ts g)) D' q' →
  queue_sys_ok (mkQueueSys q' D' o' ts g).
Proof. split; [by exists p', c' | done | done]. Qed.

Lemma notify_step_ok q q' D o ts g i b :
  queue_sys_ok (mkQueueSys q D o ts g) → ts !! i = Some (PutDone b) → PutNow_notify b q = (Ret (), q') →
  queue_sys_ok (mkQueueSys q' D o (<[i := PutIdle]> ts) g) ∧ SenderNotify q' = SenderNotify q + pending (PutDone b).
Proof.
  intros [(p & c & Hi) H0 Hw] Hti Hr. cbn [qs_queue qs_elsewhere qs_deadline] in *.
  destruct (PutNow_notify_inv b q o p c Hi) as (q1 & Hr1 & Hi1 & Hl1). assert (q1 = q') as -> by congruence.
  assert (SenderNotify q' = SenderNotify q + pending (PutDone b) ∧ next_expiry q' = next_expiry q) as [Hn He].
  { unfold PutNow_notify, QM in Hr. destruct b; injection Hr as <-; cbn; (split; [lia | done]). }
  split; [| done]. split; cbn [qs_queue qs_elsewhere qs_deadline]; [by exists p, c | rewrite Hn; destruct b; cbn; lia |].
  replace (wakeups _) with (wakeups (mkQueueSys q D o ts g)); [unfold woken; by rewrite Hl1, He |].
  unfold wakeups. cbn [qs_queue qs_putters qs_getter]. rewrite (pending_insert _ _ _ _ Hti), Hn. cbn [pending]. lia.
Qed.

Lemma queue_step_ok s s' : queue_step s s' → queue_sys_ok s → queue_sys_ok s'.
Proof.
  intros Hs Hok. pose proof (wakeups_nonneg _ (qo_count _ Hok)) as HW.
  destruct Hs as [q D msg o ts g i now r q' Hi Hst Hts Hr | q D msg msg' o ts g q' Hl Hr
    | q D bs bs' o ts g q' Hone Hl Hr | q D msg o ts g i now b q' Hi Hst Hr
    | q D bs o ts g i now b q' Hi Hne Hone Hst Hr | q D o ts g i b q' Hi Hr | q D o ts q' Hr
    | q D o ts g now e msgs q' Hr | q D o ts msgs q' Hr | q D o ts msgs q' Hidle Hr | q D o o' ts g Ho | q D o o' ts g t Ht];
    pose proof Hok as [(p & c & Hq) H0 Hw]; cbn [qs_queue qs_elsewhere qs_deadline] in Hq, H0, Hw.
  - destruct (Put_locked_ok q msg now o p c Hq Hst Hts) as (q1 & p' & c' & Hr1 & [Hi1 _ Hn [l Hl]]).
    rewrite Hr in Hr1. injection Hr1 as -> ->. eapply put_step_ok; [done | done | exact Hi1 | done |]. by eapply Put_woken.
  - destruct (enter_one_moves SendWait q msg o p c Hq Hl) as (q1 & Hr1 & Hm & Hp & Hc & _ & Hl1).
    change (MsgEnterSendWait msg) with (EnterOne (count_of SendWait) SendWait msg) in Hr. rewrite Hr in Hr1. injection Hr1 as -> ->.
    eapply elsewhere_step_ok; [done | apply Hm | apply Hm | done | by apply next_expiry_eq].
  - destruct (send_lists_ok q bs o p c Hq Hone Hl) as (q1 & Hr1 & Hm & Hp & Hc & _ & Hl1).
    rewrite Hr in Hr1. injection Hr1 as -> ->.
    eapply elsewhere_step_ok; [done | apply Hm | apply Hm | done | by apply next_expiry_eq].
  - destruct (PutNow_locked_ok q msg now o p c Hq Hst) as (q1 & p' & c' & Hr1 & [Hi1 _ Hn _] & _).
    rewrite Hr in Hr1. injection Hr1 as -> ->. eapply put_step_ok; [done | done | exact Hi1 | done |]. by apply PutNow_woken.
  - destruct (PutNow_batch_locked_ok q bs now o p c Hq Hne Hone Hst) as (q1 & p' & c' & Hr1 & [Hi1 _ Hn _] & _).
    rewrite Hr in Hr1. injection Hr1 as -> ->. eapply put_step_ok; [done | done | exact Hi1 | done |]. by apply PutNow_woken.
  - by eapply notify_step_ok.
  - destruct (SenderNotify_Pop_ok q o p c Hq (SenderNotify_Pop_ready _ _ Hr)) as (q1 & Hr1 & Hi1 & Hn & Hl & He).
    pose proof (SenderNotify_Pop_ready _ _ Hr). rewrite Hr in Hr1. injection Hr1 as ->. eapply get_step_ok; [exact Hi1 | lia |].
    unfold woken, wakeups in *. cbn [qs_queue qs_putters qs_getter popped] in *. rewrite Hn, Hl, He.
    by replace (_ - 1 + _ + 1) with (SenderNotify q + sumZ (pending <$> ts) + 0) by lia.
  - destruct (NonblockingGet_ok q now o p c Hq) as (m' & q1 & p' & c' & Hr1 & Hi1 & _ & _ & _ & Hn & Hl & _).
    rewrite Hr in Hr1. injection Hr1 as -> -> ->. eapply get_step_ok; [exact Hi1 | lia |]. by apply got_woken.
  - destruct (GetAllMsgs_ok q o p c Hq) as (m' & q1 & Hr1 & Hi1 & Hl & _ & _ & _ & Hn).
    unfold GetAllOnShutdown in Hr. rewrite Hr in Hr1. injection Hr1 as -> ->.
    eapply get_step_ok; [exact Hi1 | lia |]. by eapply drained_woken.
  - unfold Reset, QM in Hr. erewrite bind_Ret in Hr; [| reflexivity].
    match type of Hr with GetAllMsgs ?x = _ => set (q0 := x) in Hr end.
    assert (q_inv q0 o p c) as Hi0 by (destruct Hq; by split).
    destruct (GetAllMsgs_ok q0 o p c Hi0) as (m' & q1 & Hr1 & Hi1 & Hl & _ & _ & _ & Hn).
    rewrite Hr in Hr1. injection Hr1 as -> ->. eapply get_step_ok; [exact Hi1 | by rewrite Hn |]. by eapply drained_woken.
  - eapply elsewhere_step_ok; [done | by eapply q_inv_perm | done..].
  - eapply elsewhere_step_ok; [done | by apply Ht | done..].
Qed.

Lemma queue_reachable_ok s0 s : queue_init s0 → rtc queue_step s0 s → queue_sys_ok s.
Proof. intros H0%queue_init_ok. induction 1 as [| ??? Hs _ IH]; [done | by eapply IH, queue_step_ok]. Qed.

(** ** Theorems *)

(** C8: the queue loses and duplicates no message.  From every state that
    satisfies the invariant, [Put] of a new message stops on no assertion of
    the queue, the batchers or the state tracker, keeps the invariant (batched
    messages are in state Batching, ready ones in SendWait in non-empty
    single-topic batches, and the tracker's counts are exact), and the queue
    then holds its old messages and the new one. *)
Theorem queue_Put_conserves q msg now o p c :
  q_inv q (msg :: o) p c → State msg = New → Timestamp msg ≤ INT64_MAX →
  ∃ q' p' c', Put now msg q = (Ret (), q') ∧ q_inv q' o p' c' ∧
    forget <$> (p' ++ c' ++ concat (ReadyList q')) ≡ₚ
    forget <$> (msg :: p ++ c ++ concat (ReadyList q)).
Proof.
  intros Hi Hst Hts.
  destruct (Put_body_ok q msg now o p c Hi Hst Hts) as (q1 & p' & c' & Hr & [Hi1 Hall _ _]).
  destruct (Put_notify_inv (is_empty (ReadyList q)) (is_empty (ReadyList q1))
    (mkStatus (expiry_pt q) (expiry_pt q1)) (mkStatus (expiry_cb q) (expiry_cb q1)) q1 o p' c' Hi1)
    as (q2 & Hr2 & Hi2 & Hl2).
  exists q2, p', c'. rewrite Hr. split; [done |]. split; [done |]. rewrite Hl2.
  clear -Hall. perm_lia.
Qed.

(** Messages that are to be sent again, or that skip batching, conserve the
    messages of the queue too: [PutNow] of a message, and of batches, in any
    state that may enter SendWait never stops on an assertion, keeps the
    invariant, adds exactly the messages given, and leaves the queue with
    something ready to send. *)
Theorem queue_PutNow_conserves q bs now o p c :
  q_inv q (concat bs ++ o) p c → bs ≠ [] → Forall one_topic bs →
  Forall (λ m, legal SendWait (State m) = true) (concat bs) →
  (∃ q' p' c', PutNow_batch now bs q = (Ret (), q') ∧ q_inv q' o p' c' ∧ ReadyList q' ≠ [] ∧
    forget <$> (p' ++ c' ++ concat (ReadyList q')) ≡ₚ
    forget <$> (concat bs ++ p ++ c ++ concat (ReadyList q))) ∧
  ∀ msg, bs = [[msg]] → ∃ q' p' c', PutNow now msg q = (Ret (), q') ∧ q_inv q' o p' c' ∧
    ReadyList q' ≠ [] ∧
    forget <$> (p' ++ c' ++ concat (ReadyList q')) ≡ₚ
    forget <$> (msg :: p ++ c ++ concat (ReadyList q)).
Proof.
  intros Hi Hne Hone Hl. split.
  - destruct (PutNow_batch_body_ok q bs now o p c Hi Hne Hone Hl)
      as (q1 & p' & c' & Hr & [Hi1 Hall _ _] & Hne1).
    destruct (PutNow_notify_inv (is_empty (ReadyList q)) q1 o p' c' Hi1) as (q2 & Hr2 & Hi2 & Hl2).
    exists q2, p', c'. rewrite Hr, Hl2. do 3 (split; [done |]). clear -Hall. perm_lia.
  - intros msg ->. cbn in Hi, Hl. apply Forall_cons in Hl as [Hl _].
    destruct (PutNow_body_ok q msg now o p c Hi Hl)
      as (q1 & p' & c' & Hr & [Hi1 Hall _ _] & Hne1).
    destruct (PutNow_notify_inv (is_empty (ReadyList q)) q1 o p' c' Hi1) as (q2 & Hr2 & Hi2 & Hl2).
    exists q2, p', c'. rewrite Hr, Hl2. do 3 (split; [done |]). clear -Hall. perm_lia.
Qed.

(** What the connector gets.  When the semaphore is readable [Get] returns
    every ready message and every batch that is due, each batch non-empty, of
    one topic and in state SendWait; what it returns and what stays batched are
    the messages the queue held; the deadline it returns is that of the batches
    that stay, and it is after [now]. *)
Theorem queue_Get_delivers q now o p c :
  q_inv q o p c → 0 < SenderNotify q →
  ∃ msgs q' p' c', Get now q = (Ret (next_expiry q', msgs), q') ∧
    q_inv q' (concat msgs ++ o) p' c' ∧ Forall one_topic msgs ∧
    Forall (λ m, State m = SendWait) (concat msgs) ∧
    forget <$> (p' ++ c' ++ concat msgs) ≡ₚ forget <$> (p ++ c ++ concat (ReadyList q)) ∧
    SenderNotify q' = SenderNotify q - 1 ∧ ReadyList q' = [] ∧
    ∀ e, next_expiry q' = Some e → now < e.
Proof. apply Get_ok. Qed.

(** At shutdown, and when the connection is reset, [GetAllOnShutdown] and
    [Reset] return every message the queue holds, batched or ready, exactly
    once, and leave the queue empty. *)
Theorem queue_GetAllMsgs_drains q o p c :
  q_inv q o p c →
  ∃ msgs q', GetAllOnShutdown q = (Ret msgs, q') ∧ q_inv q' (concat msgs ++ o) [] [] ∧
    ReadyList q' = [] ∧ Forall one_topic msgs ∧ Forall (λ m, State m = SendWait) (concat msgs) ∧
    forget <$> concat msgs ≡ₚ forget <$> (p ++ c ++ concat (ReadyList q)).
Proof.
  intros Hi. destruct (GetAllMsgs_ok q o p c Hi) as (msgs & q' & Hr & H1 & H2 & H3 & H4 & H5 & _).
  by exists msgs, q'.
Qed.

(** C9: the connector never sleeps past work.  Threads put messages, and one gets them, in
    any interleaving of their critical sections and of the pushes and pops of the semaphore,
    which are outside of the mutex.  Whenever a message is ready, or a batch is due before
    the deadline that the connector was last given, the semaphore that it polls is readable,
    or the connector has popped it and is about to take the messages, or a thread that has
    put is about to push.  Such a push succeeds and makes the semaphore readable.  A
    connector that has popped takes all that is ready, and learns the first deadline of the
    batches that stay.  So when no thread is between a critical section and its push, and
    the connector waits with the semaphore at zero, nothing is ready and no batch is due
    before the connector's deadline. *)
Theorem sender_is_woken s0 s :
  queue_init s0 → rtc queue_step s0 s →
  (ReadyList (qs_queue s) ≠ [] ∨
    (∃ e, next_expiry (qs_queue s) = Some e ∧ ∀ d, qs_deadline s = Some d → e < d) →
   0 < SenderNotify (qs_queue s) ∨ qs_getter s = GetPopped ∨ ∃ i, qs_putters s !! i = Some (PutDone true)) ∧
  (∀ i, qs_putters s !! i = Some (PutDone true) →
   ∃ q', PutNow_notify true (qs_queue s) = (Ret (), q') ∧ 0 < SenderNotify q' ∧
     queue_step s (mkQueueSys q' (qs_deadline s) (qs_elsewhere s) (<[i := PutIdle]> (qs_putters s)) (qs_getter s))) ∧
  (qs_getter s = GetPopped → ∀ now, ∃ msgs q', NonblockingGet now (qs_queue s) = (Ret (next_expiry q', msgs), q') ∧
     (∃ l, msgs = ReadyList (qs_queue s) ++ l) ∧ ReadyList q' = [] ∧
     queue_step s (mkQueueSys q' (next_expiry q') (concat msgs ++ qs_elsewhere s) (qs_putters s) GetIdle)).
Proof.
  intros Hs0 Hr. pose proof (queue_reachable_ok _ _ Hs0 Hr) as Hok. destruct s as [q D o ts g].
  pose proof Hok as [(p & c & Hi) H0 [Hw1 Hw2]]. cbn [qs_queue qs_elsewhere qs_deadline qs_putters qs_getter] in *. split_and!.
  - intros Hwork. assert (0 < wakeups (mkQueueSys q D o ts g)) as HW.
    { destruct Hwork as [Hne | (e & He & Hd)]; [by apply Hw1 |].
      pose proof (wakeups_nonneg (mkQueueSys q D o ts g) H0). destruct (decide (wakeups (mkQueueSys q D o ts g) = 0)) as [E |]; [| lia].
      destruct (Hw2 E e He) as (d & -> & ?). specialize (Hd d eq_refl). lia. }
    unfold wakeups in HW. cbn [qs_queue qs_putters qs_getter] in HW.
    destruct (decide (0 < SenderNotify q)); [by left |]. right. destruct g; [right | by left]. apply pending_some. cbn in HW. lia.
  - intros i Hti. destruct (PutNow_notify_inv true q o p c Hi) as (q' & Hn & _). exists q'. split; [done |].
    destruct (notify_step_ok _ _ _ _ _ _ _ _ Hok Hti Hn) as [_ E]. cbn in E. split; [lia | by eapply qs_notify].
  - intros -> now. destruct (NonblockingGet_ok q now o p c Hi) as (msgs & q' & p' & c' & Hr1 & _ & _ & _ & _ & _ & Hl & Hm & _).
    exists msgs, q'. split; [done |]. split; [done |]. split; [done |]. by eapply qs_get.
Qed.
End queue_proofs.

(** ** Examples *)

Definition ex_queue : TBrokerMsgQueue :=
  TBrokerMsgQueue_new (Some ex_pt_config) ex_config ∅ true ex_run.

Lemma ex_run_ok : tracker_ok ex_run [ex_msg "a" New].
Proof.
  split; [done |]. intros topic. unfold cnt, sumZ. cbn. by destruct (bool_decide ("a" = topic)).
Qed.

Lemma ex_queue_inv : q_inv ex_queue [ex_msg "a" New] [] [].
Proof.
  apply q_inv_new; [intros c t [= <-]; apply ex_pt_config_ok | exact ex_config_ok | exact ex_run_ok | done].
Qed.

Lemma queue_Put_conserves_witness :
  ∃ q' p' c', @Put map_order 5 (ex_msg "a" New) ex_queue = (Ret (), q') ∧ q_inv q' [] p' c' ∧
    forget <$> (p' ++ c' ++ concat (ReadyList q')) ≡ₚ [ex_msg "a" New].
Proof.
  apply (@queue_Put_conserves map_order ex_queue (ex_msg "a" New) 5 [] [] []).
  - exact ex_queue_inv.
  - reflexivity.
  - vm_compute. discriminate.
Defined.

Lemma queue_PutNow_conserves_witness :
  ∃ q' p' c', @PutNow map_order 5 (ex_msg "a" New) ex_queue = (Ret (), q') ∧ q_inv q' [] p' c' ∧
    ReadyList q' ≠ [].
Proof.
  destruct (@queue_PutNow_conserves map_order ex_queue [[ex_msg "a" New]] 5 [] [] []) as [_ H].
  - exact ex_queue_inv.
  - discriminate.
  - repeat constructor; [discriminate |]. exists "a". repeat constructor.
  - repeat constructor.
  - destruct (H (ex_msg "a" New) eq_refl) as (q' & p' & c' & H1 & H2 & H3 & _).
    exists q', p', c'. split; [exact H1 |]. split; [exact H2 | exact H3].
Defined.

(** The queue when the message is ready. *)
Definition ex_queue_ready : TBrokerMsgQueue := (@PutNow map_order 5 (ex_msg "a" New) ex_queue).2.

Lemma ex_queue_ready_inv : ∃ p c, q_inv ex_queue_ready [] p c.
Proof.
  destruct (@PutNow_body_ok map_order ex_queue (ex_msg "a" New) 5 [] [] [] ex_queue_inv eq_refl)
    as (q1 & p' & c' & Hr & [Hi1 _ _ _] & _).
  destruct (PutNow_notify_inv (is_empty (ReadyList ex_queue)) q1 [] p' c' Hi1) as (q2 & Hr2 & Hi2 & _).
  exists p', c'. unfold ex_queue_ready. rewrite Hr, Hr2. exact Hi2.
Qed.

Lemma queue_Get_delivers_witness :
  ∃ msgs q', @Get map_order 5 ex_queue_ready = (Ret (next_expiry q', msgs), q') ∧
    Forall one_topic msgs ∧ ReadyList q' = [].
Proof.
  destruct ex_queue_ready_inv as (p & c & Hi).
  destruct (@queue_Get_delivers map_order ex_queue_ready 5 [] p c Hi)
    as (msgs & q' & p' & c' & H1 & _ & H2 & _ & _ & _ & H3 & _).
  - vm_compute. reflexivity.
  - exists msgs, q'. split; [exact H1 |]. split; [exact H2 | exact H3].
Defined.

Lemma queue_GetAllMsgs_drains_witness :
  ∃ msgs q', @GetAllOnShutdown map_order ex_queue_ready = (Ret msgs, q') ∧ ReadyList q' = [] ∧
    Forall one_topic msgs.
Proof.
  destruct ex_queue_ready_inv as (p & c & Hi).
  destruct (@queue_GetAllMsgs_drains map_order ex_queue_ready [] p c Hi)
    as (msgs & q' & H1 & _ & H2 & H3 & _).
  exists msgs, q'. split; [exact H1 |]. split; [exact H2 | exact H3].
Defined.

(** The router has put a message that is ready and has not yet pushed; the connector has
    not been woken. *)
Definition ex_sys (q : TBrokerMsgQueue) (p : put_phase) (o : list TMsg) : queue_sys := mkQueueSys q None o [p] GetIdle.
Definition ex_entered : TBrokerMsgQueue := (on_states (MsgEnterSendWait (ex_msg "a" New)) ex_queue).2.
Definition ex_before_push : TBrokerMsgQueue := (@PutNow_locked map_order 5 (ex_msg "a" SendWait) ex_entered).2.

Lemma sender_is_woken_witness :
  let s := ex_sys ex_before_push (PutDone true) [] in
  ReadyList (qs_queue s) ≠ [] ∧ SenderNotify (qs_queue s) = 0 ∧
  (0 < SenderNotify (qs_queue s) ∨ qs_getter s = GetPopped ∨ ∃ i, qs_putters s !! i = Some (PutDone true)).
Proof.
  intros s.
  assert (queue_init (ex_sys ex_queue PutIdle [ex_msg "a" New])) as Hinit.
  { apply (queue_init_new (Some ex_pt_config) ex_config ∅ true ex_run [ex_msg "a" New] 1);
      [intros c t [= <-]; apply ex_pt_config_ok | exact ex_config_ok | exact ex_run_ok | done]. }
  assert (rtc (@queue_step map_order) (ex_sys ex_queue PutIdle [ex_msg "a" New]) s) as Hr.
  { eapply rtc_l; [apply (@qs_enter map_order ex_queue None (ex_msg "a" New) (ex_msg "a" SendWait) [] [PutIdle] GetIdle ex_entered);
      [reflexivity | vm_compute; reflexivity] |].
    eapply rtc_l; [| apply rtc_refl].
    apply (@qs_put_now map_order ex_entered None (ex_msg "a" SendWait) [] [PutIdle] GetIdle 0 5 true ex_before_push);
      [reflexivity | reflexivity | vm_compute; reflexivity]. }
  assert (ReadyList (qs_queue s) ≠ []) as Hne by (vm_compute; discriminate).
  split; [exact Hne |]. split; [vm_compute; reflexivity |].
  apply (proj1 (@sender_is_woken map_order _ s Hinit Hr)). left. exact Hne.
Defined.
