(* ===== verification/Metadata.v ===== *)
(** * Cluster metadata (dory/metadata.h, dory/metadata.cc)

    [TMetadata]: the brokers, the topics with their partitions, and for every
    topic and broker the partition choices, as chunks of one vector.  It is
    made by [TBuilder], whose methods are a state machine; [build_all] calls
    them the way [BuildMetadataFromResponse] of
    dory/kafka_proto/metadata/v0/metadata_proto.cc does.  Indexes of vectors
    are [nat].  What the standard library leaves open is a parameter: the order
    of [std::sort] on equivalent items, of loops over hash tables, and the
    permutation [std::shuffle] makes. *)
From S2P Require Import Prelude.

(** ** Data *)

Record TBroker := mkBroker {
  BrokerId : Z;
  Hostname : string;
  Port : Z;
  InService : bool
}.

Record TPartition := mkPartition {
  PartId : Z;
  BrokerIndex : nat;
  ErrorCode : Z
}.

Record TPartitionChoices := mkChoices {
  TopicBrokerVecIndex : nat;
  TopicBrokerVecNumItems : nat
}.

Record TTopic := mkTopic {
  OkPartitions : list TPartition;
  OutOfServicePartitions : list TPartition;
  AllPartitions : list TPartition;
  PartitionChoiceMap : gmap nat TPartitionChoices
}.

Record TMetadata := mkMetadata {
  Brokers : list TBroker;
  InServiceBrokerCount : nat;
  TopicBrokerVec : list Z;
  Topics : list TTopic;
  TopicNameToIndex : gmap string nat
}.

#[global] Instance TBroker_eq_dec : EqDecision TBroker.
Proof. solve_decision. Defined.
#[global] Instance TPartition_eq_dec : EqDecision TPartition.
Proof. solve_decision. Defined.

Definition TTopic_new : TTopic := mkTopic [] [] [] ∅.

Definition MarkInService (b : TBroker) : TBroker :=
  mkBroker (BrokerId b) (Hostname b) (Port b) true.

(** [TBroker::operator==]. *)
Definition Broker_eqb (x y : TBroker) : bool :=
  (BrokerId x =? BrokerId y) && bool_decide (Hostname x = Hostname y) &&
  (Port x =? Port y) && eqb (InService x) (InService y).

(** ** The builder *)

Inductive TBuilderState := Initial | AddingBrokers | AddingTopics | AddingOneTopic.

#[global] Instance TBuilderState_eq_dec : EqDecision TBuilderState.
Proof. solve_decision. Defined.

Inductive metadata_counter :=
| MetadataDuplicateBrokerId
| MetadataDuplicatePartition
| MetadataDuplicateTopic
| MetadataPartitionHasUnknownBroker
| MetadataSanityCheckFail
| MetadataSanityCheckSuccess.

(** The vectors and maps that [Build] moves into the result are a [TMetadata]
    ([md]). *)
Record TBuilder := mkBuilder {
  BState : TBuilderState;
  BrokerMap : gmap Z nat;
  CurrentTopicName : string;
  CurrentTopicIndex : nat;
  CurrentTopicPartitions : gset Z;
  md : TMetadata;
  BCounters : list metadata_counter
}.

Definition TBuilder_new : TBuilder :=
  mkBuilder Initial ∅ "" 0 ∅ (mkMetadata [] 0 [] [] ∅) [].

Definition MB := M Empty_set TBuilder.

Definition set_bstate (s : TBuilderState) : MB () :=
  modify (λ b, mkBuilder s (BrokerMap b) (CurrentTopicName b) (CurrentTopicIndex b)
    (CurrentTopicPartitions b) (md b) (BCounters b)).

Definition set_md (f : TMetadata → TMetadata) : MB () :=
  modify (λ b, mkBuilder (BState b) (BrokerMap b) (CurrentTopicName b) (CurrentTopicIndex b)
    (CurrentTopicPartitions b) (f (md b)) (BCounters b)).

Definition with_brokers (l : list TBroker) (m : TMetadata) : TMetadata :=
  mkMetadata l (InServiceBrokerCount m) (TopicBrokerVec m) (Topics m) (TopicNameToIndex m).

Definition with_vec (v : list Z) (m : TMetadata) : TMetadata :=
  mkMetadata (Brokers m) (InServiceBrokerCount m) v (Topics m) (TopicNameToIndex m).

Definition with_topics (l : list TTopic) (m : TMetadata) : TMetadata :=
  mkMetadata (Brokers m) (InServiceBrokerCount m) (TopicBrokerVec m) l (TopicNameToIndex m).

Definition with_names (n : gmap string nat) (m : TMetadata) : TMetadata :=
  mkMetadata (Brokers m) (InServiceBrokerCount m) (TopicBrokerVec m) (Topics m) n.

Definition with_ok (l : list TPartition) (t : TTopic) : TTopic :=
  mkTopic l (OutOfServicePartitions t) (AllPartitions t) (PartitionChoiceMap t).

Definition with_out (l : list TPartition) (t : TTopic) : TTopic :=
  mkTopic (OkPartitions t) l (AllPartitions t) (PartitionChoiceMap t).

Definition with_all (l : list TPartition) (t : TTopic) : TTopic :=
  mkTopic (OkPartitions t) (OutOfServicePartitions t) l (PartitionChoiceMap t).

Definition with_choices (m : gmap nat TPartitionChoices) (t : TTopic) : TTopic :=
  mkTopic (OkPartitions t) (OutOfServicePartitions t) (AllPartitions t) m.

Definition MIncrement (c : metadata_counter) : MB () :=
  modify (λ b, mkBuilder (BState b) (BrokerMap b) (CurrentTopicName b) (CurrentTopicIndex b)
    (CurrentTopicPartitions b) (md b) (c :: BCounters b)).

Definition in_state (s : TBuilderState) : MB () :=
  st ← gets BState; massert (bool_decide (st = s)).

(** [TopicNameToIndex.size() == Topics.size()]. *)
Definition check_names : MB () :=
  m ← gets md; massert (bool_decide (size (TopicNameToIndex m) = length (Topics m))).

Definition OpenBrokerList : MB () := in_state Initial;; set_bstate AddingBrokers.

Definition AddBroker (kafka_id : Z) (hostname : string) (port : Z) : MB () :=
  in_state AddingBrokers;;
  b ← get;
  let '(bm, inserted) := map_emplace kafka_id (length (Brokers (md b))) (BrokerMap b) in
  modify (λ b, mkBuilder (BState b) bm (CurrentTopicName b) (CurrentTopicIndex b)
    (CurrentTopicPartitions b) (md b) (BCounters b));;
  if inserted : bool then
    set_md (λ m, with_brokers (Brokers m ++ [mkBroker kafka_id hostname port false]) m)
  else MIncrement MetadataDuplicateBrokerId.

Definition CloseBrokerList : MB () := in_state AddingBrokers;; set_bstate AddingTopics.

Definition OpenTopic (name : string) : MB bool :=
  in_state AddingTopics;;
  m ← gets md;
  let '(names, success) := map_emplace name (length (Topics m)) (TopicNameToIndex m) in
  set_md (with_names names);;
  (if success : bool then
     modify (λ b, mkBuilder (BState b) (BrokerMap b) (CurrentTopicName b) (length (Topics (md b)))
       (CurrentTopicPartitions b) (md b) (BCounters b));;
     set_md (λ m, with_topics (Topics m ++ [TTopic_new]) m);;
     modify (λ b, mkBuilder (BState b) (BrokerMap b) (CurrentTopicName b) (CurrentTopicIndex b)
       ∅ (md b) (BCounters b));;
     set_bstate AddingOneTopic;;
     check_names;;
     modify (λ b, mkBuilder (BState b) (BrokerMap b) name (CurrentTopicIndex b)
       (CurrentTopicPartitions b) (md b) (BCounters b))
   else MIncrement MetadataDuplicateTopic);;
  mret success.

Definition AddPartitionToTopic (partition_id broker_id : Z) (can_send_to_partition : bool)
    (error_code : Z) : MB () :=
  in_state AddingOneTopic;;
  b ← get;
  match BrokerMap b !! broker_id with
  | None => MIncrement MetadataPartitionHasUnknownBroker
  | Some broker_index =>
      massert (broker_index <? length (Brokers (md b)))%nat;;
      if bool_decide (partition_id ∈ CurrentTopicPartitions b) then
        MIncrement MetadataDuplicatePartition
      else
        modify (λ b, mkBuilder (BState b) (BrokerMap b) (CurrentTopicName b) (CurrentTopicIndex b)
          ({[partition_id]} ∪ CurrentTopicPartitions b) (md b) (BCounters b));;
        t ← need AssertFailed (Topics (md b) !! CurrentTopicIndex b);
        let part := mkPartition partition_id broker_index error_code in
        let t := if can_send_to_partition then with_ok (OkPartitions t ++ [part]) t
                 else with_out (OutOfServicePartitions t ++ [part]) t in
        set_md (λ m, with_topics (<[CurrentTopicIndex b := t]> (Topics m)) m)
  end.

(** The orders of the two calls of [std::sort] in [CloseTopic]. *)
Definition by_broker_and_id (x y : TPartition) : bool :=
  if negb (BrokerIndex x =? BrokerIndex y)%nat then (BrokerIndex x <? BrokerIndex y)%nat
  else PartId x <? PartId y.

Definition by_id (x y : TPartition) : bool := PartId x <? PartId y.

(** The items from [iter1] to [iter2], and those from [iter2]. *)
Fixpoint same_broker (broker_index : nat) (l : list TPartition) : list TPartition * list TPartition :=
  match l with
  | p :: l' =>
      if (BrokerIndex p =? broker_index)%nat then
        let '(g, rest) := same_broker broker_index l' in (p :: g, rest)
      else ([], l)
  | [] => ([], [])
  end.

(** The loop of [CloseTopic], on the items from [iter1]; every round takes at
    least one item, so their number is enough fuel. *)
Fixpoint CloseTopic_loop (fuel : nat) (l : list TPartition) : MB () :=
  match l with
  | [] => mret ()
  | p :: _ =>
      match fuel with
      | O => crash OutOfFuel
      | S fuel =>
          let broker_index := BrokerIndex p in
          let '(group, rest) := same_broker broker_index l in
          b ← get;
          br ← need AssertFailed (Brokers (md b) !! broker_index);
          set_md (λ m, with_brokers (<[broker_index := MarkInService br]> (Brokers m)) m);;
          t ← need OutOfBounds (Topics (md b) !! CurrentTopicIndex b);
          let choices := mkChoices (length (TopicBrokerVec (md b))) (length group) in
          set_md (λ m, with_topics (<[CurrentTopicIndex b :=
            with_choices (map_emplace broker_index choices (PartitionChoiceMap t)).1 t]> (Topics m)) m);;
          set_md (λ m, with_vec (TopicBrokerVec m ++ (PartId <$> group)) m);;
          CloseTopic_loop fuel rest
      end
  end.

(** [std::shuffle] with the builder's engine: the call for topic [n]. *)
Class Shuffle := {
  shuffle : nat → list TPartition → list TPartition;
  shuffle_perm n l : shuffle n l ≡ₚ l
}.

Section builder.
Context `{!StdSort} `{!Shuffle} `{!HashOrder}.

Definition CloseTopic : MB () :=
  in_state AddingOneTopic;;
  check_names;;
  b ← get;
  t ← need AssertFailed (Topics (md b) !! CurrentTopicIndex b);
  let ok := std_sort by_broker_and_id (OkPartitions t) in
  set_md (λ m, with_topics (<[CurrentTopicIndex b := with_ok ok t]> (Topics m)) m);;
  CloseTopic_loop (length ok) ok;;
  m ← gets md;
  t ← need OutOfBounds (Topics m !! CurrentTopicIndex b);
  let all := std_sort by_id (OkPartitions t ++ OutOfServicePartitions t) in
  let t := with_ok (shuffle (CurrentTopicIndex b) (OkPartitions t)) (with_all all t) in
  set_md (λ m, with_topics (<[CurrentTopicIndex b := t]> (Topics m)) m);;
  modify (λ b, mkBuilder (BState b) (BrokerMap b) "" (CurrentTopicIndex b)
    (CurrentTopicPartitions b) (md b) (BCounters b));;
  set_bstate AddingTopics.

(** [Brokers[i].IsInService()]. *)
Definition in_service (l : list TBroker) (i : nat) : bool :=
  match l !! i with Some b => InService b | None => false end.

Fixpoint count_in_service (l : list TBroker) : nat :=
  match l with
  | b :: l => if InService b then S (count_in_service l) else O
  | [] => O
  end.

(** [old_indexes_to_new]: position [i] of [reorder] is the new index of broker
    [reorder[i]]. *)
Definition old_indexes_to_new (reorder : list nat) : list nat :=
  foldl (λ v x, <[x.2 := x.1]> v) (replicate (length reorder) O) (imap pair reorder).

(** [part.BrokerIndex = old_indexes_to_new[part.BrokerIndex]]. *)
Definition reindex_partition (new : list nat) (p : TPartition) : option TPartition :=
  (λ i, mkPartition (PartId p) i (ErrorCode p)) <$> new !! BrokerIndex p.

Fixpoint reindex_choices (new : list nat) (items : list (nat * TPartitionChoices))
    (m : gmap nat TPartitionChoices) : option (gmap nat TPartitionChoices) :=
  match items with
  | [] => Some m
  | (i, c) :: items => j ← new !! i; reindex_choices new items (map_emplace j c m).1
  end.

Definition reindex_topic (new : list nat) (t : TTopic) : MB TTopic :=
  ok ← need OutOfBounds (mapM (reindex_partition new) (OkPartitions t));
  out ← need OutOfBounds (mapM (reindex_partition new) (OutOfServicePartitions t));
  all ← need OutOfBounds (mapM (reindex_partition new) (AllPartitions t));
  choices ← need OutOfBounds (reindex_choices new (hash_order (PartitionChoiceMap t)) ∅);
  massert (bool_decide (size choices = size (PartitionChoiceMap t)));;
  mret (mkTopic ok out all choices).

Definition GroupInServiceBrokers : MB () :=
  m ← gets md;
  let reorder := std_sort (λ i j, in_service (Brokers m) i && negb (in_service (Brokers m) j))
                   (seq 0 (length (Brokers m))) in
  brokers ← need OutOfBounds (mapM (λ i, Brokers m !! i) reorder);
  set_md (λ m, mkMetadata brokers (count_in_service brokers) (TopicBrokerVec m) (Topics m)
                 (TopicNameToIndex m));;
  topics ← mmap (reindex_topic (old_indexes_to_new reorder)) (Topics m);
  set_md (with_topics topics).

(** [Build], which resets the builder (its counters are global). *)
Definition Build : MB TMetadata :=
  st ← gets BState;
  massert (negb (bool_decide (st = AddingBrokers)) && negb (bool_decide (st = AddingOneTopic)));;
  check_names;;
  GroupInServiceBrokers;;
  m ← gets md;
  massert (InServiceBrokerCount m <=? length (Brokers m))%nat;;
  modify (λ b, mkBuilder (BState TBuilder_new) (BrokerMap TBuilder_new) (CurrentTopicName TBuilder_new)
    (CurrentTopicIndex TBuilder_new) (CurrentTopicPartitions TBuilder_new) (md TBuilder_new)
    (BCounters b));;
  mret m.
End builder.

(** ** Queries *)

(** The result is the [int] returned; the assertion on a bad index fails. *)
Definition FindTopicIndex (topic : string) (m : TMetadata) : outcome Empty_set Z :=
  match TopicNameToIndex m !! topic with
  | None => Ret (-1)
  | Some i => if (i <? length (Topics m))%nat then Ret (Z.of_nat i) else Fault AssertFailed
  end.

(** The partition IDs at the location returned, [None] for a null pointer. *)
Definition FindPartitionChoices (topic : string) (broker_index : nat) (m : TMetadata)
    : outcome Empty_set (option (list Z)) :=
  match FindTopicIndex topic m with
  | Ret i =>
      if i <? 0 then Fault AssertFailed else
      match Topics m !! Z.to_nat i with
      | None => Fault AssertFailed
      | Some t =>
          if (length (Brokers m) <=? broker_index)%nat then Fault AssertFailed else
          match PartitionChoiceMap t !! broker_index with
          | None => Ret None
          | Some c =>
              if (length (TopicBrokerVec m) <=? TopicBrokerVecIndex c)%nat then Fault AssertFailed else
              if (length (TopicBrokerVec m) - TopicBrokerVecIndex c <? TopicBrokerVecNumItems c)%nat
              then Fault AssertFailed else
              if (TopicBrokerVecNumItems c =? 0)%nat then Fault AssertFailed else
              Ret (Some (take (TopicBrokerVecNumItems c) (drop (TopicBrokerVecIndex c) (TopicBrokerVec m))))
          end
      end
  | Throw e => match e with end
  | Fault f => Fault f
  end.

(** ** Comparison *)

(** The assertion that the set has no duplicates fails: [None]. *)
Definition CompareBrokers (this that : TMetadata) : option bool :=
  if bool_decide (NoDup (Brokers this)) then
    Some (forallb (λ b, existsb (Broker_eqb b) (Brokers this)) (Brokers that))
  else None.

(** [t_part]: partition, broker and error code. *)
Definition t_part (m : TMetadata) (p : TPartition) : option (Z * Z * Z) :=
  b ← Brokers m !! BrokerIndex p;
  Some (PartId p, BrokerId b, ErrorCode p).

(** One of the two halves of [SingleTopicCompare]. *)
Definition parts_subset (this that : TMetadata) (l k : list TPartition) : option bool :=
  set ← mapM (t_part this) l;
  if bool_decide (NoDup set) then
    other ← mapM (t_part that) k;
    Some (forallb (λ p, bool_decide (p ∈ set)) other)
  else None.

Definition SingleTopicCompare (this that : TMetadata) (this_topic that_topic : TTopic) : option bool :=
  if negb (length (OkPartitions this_topic) =? length (OkPartitions that_topic))%nat ||
     negb (length (OutOfServicePartitions this_topic) =?
           length (OutOfServicePartitions that_topic))%nat
  then Some false
  else
    ok ← parts_subset this that (OkPartitions this_topic) (OkPartitions that_topic);
    if negb ok then Some false else
    parts_subset this that (OutOfServicePartitions this_topic) (OutOfServicePartitions that_topic).

Fixpoint CompareTopics_loop (this that : TMetadata) (items : list (string * nat)) : option bool :=
  match items with
  | [] => Some true
  | (name, i) :: items =>
      match TopicNameToIndex that !! name with
      | None => Some false
      | Some j =>
          this_topic ← Topics this !! i;
          that_topic ← Topics that !! j;
          same ← SingleTopicCompare this that this_topic that_topic;
          if same : bool then CompareTopics_loop this that items else Some false
      end
  end.

Definition CompareTopics `{HashOrder} (this that : TMetadata) : option bool :=
  CompareTopics_loop this that (hash_order (TopicNameToIndex this)).

(** [operator==]; [None] when an assertion fails or an index is out of range. *)
Definition Metadata_eq `{HashOrder} (this that : TMetadata) : option bool :=
  if negb (length (Brokers this) =? length (Brokers that))%nat ||
     negb (length (TopicBrokerVec this) =? length (TopicBrokerVec that))%nat ||
     negb (length (Topics this) =? length (Topics that))%nat
  then Some false
  else if bool_decide (size (TopicNameToIndex this) = length (Topics this)) &&
          bool_decide (size (TopicNameToIndex that) = length (Topics that))
  then
    same ← CompareBrokers this that;
    if same : bool then CompareTopics this that else Some false
  else None.

(** ** Sanity check *)

(** [std::lower_bound] by ID, on a sorted vector. *)
Definition lower_bound_id (l : list TPartition) (p : TPartition) : option TPartition :=
  find (λ x, negb (PartId x <? PartId p)) l.

(** The checks of one item against [AllPartitions]. *)
Definition check_item (m : TMetadata) (t : TTopic) (p : TPartition) : bool :=
  (BrokerIndex p <? length (Brokers m))%nat &&
  match lower_bound_id (AllPartitions t) p with
  | Some x => (PartId x =? PartId p) && (BrokerIndex x =? BrokerIndex p)%nat && (ErrorCode x =? ErrorCode p)
  | None => false
  end.

(** The sets the check fills: the IDs, the IDs of each broker and the indexes
    of brokers in service; [None] when the check fails. *)
Fixpoint OkPartitions_loop (m : TMetadata) (t : TTopic) (l : list TPartition) (ids : gset Z)
    (bpm : gmap nat (gset Z)) (in_svc : gset nat) : option (gset Z * gmap nat (gset Z) * gset nat) :=
  match l with
  | [] => Some (ids, bpm, in_svc)
  | p :: l =>
      if check_item m t p then
        OkPartitions_loop m t l ({[PartId p]} ∪ ids)
          (<[BrokerIndex p := {[PartId p]} ∪ default ∅ (bpm !! BrokerIndex p)]> bpm)
          ({[BrokerIndex p]} ∪ in_svc)
      else None
  end.

Definition SanityCheckOkPartitions (m : TMetadata) (t : TTopic) (in_svc : gset nat)
    : option (gset Z * gmap nat (gset Z) * gset nat) :=
  '(ids, bpm, in_svc) ← OkPartitions_loop m t (OkPartitions t) ∅ ∅ in_svc;
  if (size ids =? length (OkPartitions t))%nat then Some (ids, bpm, in_svc) else None.

Definition SanityCheckOutOfServicePartitions (m : TMetadata) (t : TTopic) : option (gset Z) :=
  if forallb (check_item m t) (OutOfServicePartitions t) then
    let ids := list_to_set (PartId <$> OutOfServicePartitions t) in
    if (size ids =? length (OutOfServicePartitions t))%nat then Some ids else None
  else None.

(** Strictly ascending. *)
Fixpoint ascending (l : list Z) : bool :=
  match l with
  | x :: ((y :: _) as l') => negb (y <=? x) && ascending l'
  | _ => true
  end.

Fixpoint SanityCheckBrokerPartitionMap (m : TMetadata) (t : TTopic) (items : list (nat * gset Z))
    (access : list nat) : option (list nat) :=
  match items with
  | [] => Some access
  | (i, ids) :: items =>
      c ← PartitionChoiceMap t !! i;
      let chunk_index := TopicBrokerVecIndex c in
      let chunk_size := TopicBrokerVecNumItems c in
      if (length (TopicBrokerVec m) <=? chunk_index)%nat then None else
      if (length (TopicBrokerVec m) - chunk_index <? chunk_size)%nat then None else
      let chunk := take chunk_size (drop chunk_index (TopicBrokerVec m)) in
      if negb (bool_decide (list_to_set chunk = ids)) then None else
      if negb (ascending chunk) then None else
      SanityCheckBrokerPartitionMap m t items
        (foldl (λ a k, alter S k a) access (seq chunk_index chunk_size))
  end.

Section sanity.
Context `{!HashOrder}.

Definition SanityCheckOneTopic (m : TMetadata) (t : TTopic) (in_svc : gset nat) (access : list nat)
    : option (gset nat * list nat) :=
  if negb (length (AllPartitions t) =? length (OkPartitions t) + length (OutOfServicePartitions t))%nat
  then None else
  if negb (ascending (PartId <$> AllPartitions t)) then None else
  '(ids_ok, bpm, in_svc) ← SanityCheckOkPartitions m t in_svc;
  ids_bad ← SanityCheckOutOfServicePartitions m t;
  if negb (bool_decide (ids_ok ∩ ids_bad = ∅)) then None else
  if negb (size bpm =? size (PartitionChoiceMap t))%nat then None else
  access ← SanityCheckBrokerPartitionMap m t (hash_order bpm) access;
  Some (in_svc, access).

Fixpoint SanityCheckTopics_loop (m : TMetadata) (ts : list TTopic) (in_svc : gset nat)
    (access : list nat) : option (gset nat * list nat) :=
  match ts with
  | [] => Some (in_svc, access)
  | t :: ts =>
      '(in_svc, access) ← SanityCheckOneTopic m t in_svc access;
      SanityCheckTopics_loop m ts in_svc access
  end.

(** The set of brokers in service. *)
Definition SanityCheckTopics (m : TMetadata) : option (gset nat) :=
  let indexes := (hash_order (TopicNameToIndex m)).*2 in
  if negb (forallb (λ i, i <? length (Topics m))%nat indexes) then None else
  if negb (size (list_to_set indexes : gset nat) =? length (Topics m))%nat then None else
  '(in_svc, access) ← SanityCheckTopics_loop m (Topics m) ∅ (replicate (length (TopicBrokerVec m)) O);
  if forallb (λ v, v =? 1)%nat access then Some in_svc else None.

(** The loop over the brokers: those in service, and those before the first
    that is not. *)
Fixpoint SanityCheck_brokers (in_svc : gset nat) (i : nat) (l : list TBroker) (found_out : bool)
    (in_svc_count adjacent : nat) : option (nat * nat) :=
  match l with
  | [] => Some (in_svc_count, adjacent)
  | b :: l =>
      if eqb (InService b) (bool_decide (i ∈ in_svc)) then
        if InService b then
          SanityCheck_brokers in_svc (S i) l found_out (S in_svc_count)
            (if found_out then adjacent else S adjacent)
        else SanityCheck_brokers in_svc (S i) l true in_svc_count adjacent
      else None
  end.

(** The last test of the source, [adjacent_in_svc_count != in_svc_count], only
    writes to the log. *)
Definition DoSanityCheck (m : TMetadata) : bool :=
  match SanityCheckTopics m with
  | None => false
  | Some in_svc =>
      match SanityCheck_brokers in_svc 0 (Brokers m) false 0 0 with
      | None => false
      | Some (in_svc_count, adjacent) => (InServiceBrokerCount m =? in_svc_count)%nat
      end
  end.

(** [SanityCheck]: the result and the counter incremented. *)
Definition SanityCheck (m : TMetadata) : bool * metadata_counter :=
  let result := DoSanityCheck m in
  (result, if result then MetadataSanityCheckSuccess else MetadataSanityCheckFail).
End sanity.

(** ** The calls that build metadata from a response

    What the reader of the response yields: the brokers, and the topics, each
    with its error code and partitions (partition, leader, error code).  The
    port is an [int32_t] there and a [uint16_t] in the builder. *)

Definition CanSendToPartition (error_code : Z) : bool := (error_code =? 0) || (error_code =? 9).

Record md_partition := mkMdPartition { mp_id : Z; mp_leader : Z; mp_error : Z }.
Record md_topic := mkMdTopic { mt_error : Z; mt_name : string; mt_partitions : list md_partition }.
Record md_broker := mkMdBroker { mb_id : Z; mb_host : string; mb_port : Z }.
Record md_response := mkMdResponse { mr_brokers : list md_broker; mr_topics : list md_topic }.

Section build.
Context `{!StdSort} `{!Shuffle} `{!HashOrder}.

Fixpoint mfor {A} (f : A → MB ()) (l : list A) : MB () :=
  match l with [] => mret () | a :: l => f a;; mfor f l end.

Definition build_topic (t : md_topic) : MB () :=
  if negb (mt_error t =? 0) then mret () else
  opened ← OpenTopic (mt_name t);
  if opened : bool then
    mfor (λ p, AddPartitionToTopic (mp_id p) (mp_leader p) (CanSendToPartition (mp_error p))
                 (mp_error p)) (mt_partitions t);;
    CloseTopic
  else mret ().

Definition build_all (r : md_response) : MB TMetadata :=
  OpenBrokerList;;
  mfor (λ b, AddBroker (mb_id b) (mb_host b) (uwrap 16 (mb_port b))) (mr_brokers r);;
  CloseBrokerList;;
  mfor build_topic (mr_topics r);;
  Build.
End build.

(** ** What a response says

    Brokers by ID, and for every topic its partitions with their leaders and
    error codes.  Of duplicates the first counts; a partition whose leader is
    not listed does not count, nor does a topic with an error. *)

Record md_view := mkView {
  v_brokers : gmap Z (string * Z);
  v_topics : gmap string (gmap Z (Z * Z))
}.

Definition view_brokers (l : list md_broker) : gmap Z (string * Z) :=
  foldl (λ v b, (map_emplace (mb_id b) (mb_host b, uwrap 16 (mb_port b)) v).1) ∅ l.

Definition view_partition (brokers : gmap Z (string * Z)) (v : gmap Z (Z * Z)) (p : md_partition)
    : gmap Z (Z * Z) :=
  match brokers !! mp_leader p with
  | None => v
  | Some _ => (map_emplace (mp_id p) (mp_leader p, mp_error p) v).1
  end.

Definition view_topic (brokers : gmap Z (string * Z)) (v : gmap string (gmap Z (Z * Z)))
    (t : md_topic) : gmap string (gmap Z (Z * Z)) :=
  if negb (mt_error t =? 0) then v
  else (map_emplace (mt_name t) (foldl (view_partition brokers) ∅ (mt_partitions t)) v).1.

Definition response_view (r : md_response) : md_view :=
  let brokers := view_brokers (mr_brokers r) in
  mkView brokers (foldl (view_topic brokers) ∅ (mr_topics r)).

(** What metadata says. *)
Definition broker_item (b : TBroker) : Z * (string * Z) := (BrokerId b, (Hostname b, Port b)).

Definition part_item (brokers : list TBroker) (p : TPartition) : Z * (Z * Z) :=
  (PartId p, (default (-1) (BrokerId <$> brokers !! BrokerIndex p), ErrorCode p)).

Definition parts_view (brokers : list TBroker) (l : list TPartition) : gmap Z (Z * Z) :=
  list_to_map (part_item brokers <$> l).

Definition metadata_view (m : TMetadata) : md_view :=
  mkView (list_to_map (broker_item <$> Brokers m))
    (omap (λ i, parts_view (Brokers m) ∘ AllPartitions <$> Topics m !! i) (TopicNameToIndex m)).

(** ** Well-formed metadata *)

(** The partitions that a broker leads. *)
Definition on_broker (i : nat) (l : list TPartition) : list TPartition :=
  filter (λ p, BrokerIndex p = i) l.

Definition chunk (vec : list Z) (c : TPartitionChoices) : list Z :=
  take (TopicBrokerVecNumItems c) (drop (TopicBrokerVecIndex c) vec).

Record choice_ok (vec : list Z) (ok : list TPartition) (i : nat) (c : TPartitionChoices) : Prop := {
  ch_range : (TopicBrokerVecIndex c + TopicBrokerVecNumItems c ≤ length vec)%nat;
  ch_pos : (0 < TopicBrokerVecNumItems c)%nat;
  ch_ids : chunk vec c ≡ₚ PartId <$> on_broker i ok;
  ch_sorted : StronglySorted Z.lt (chunk vec c)
}.

Record topic_ok (nb : nat) (vec : list Z) (t : TTopic) : Prop := {
  to_ids : NoDup (PartId <$> OkPartitions t ++ OutOfServicePartitions t);
  to_all : AllPartitions t ≡ₚ OkPartitions t ++ OutOfServicePartitions t;
  to_sorted : StronglySorted (λ x y, PartId x < PartId y) (AllPartitions t);
  to_ok : Forall (λ p, CanSendToPartition (ErrorCode p) = true) (OkPartitions t);
  to_out : Forall (λ p, CanSendToPartition (ErrorCode p) = false) (OutOfServicePartitions t);
  to_index : Forall (λ p, (BrokerIndex p < nb)%nat) (OkPartitions t ++ OutOfServicePartitions t);
  to_choices : ∀ i c, PartitionChoiceMap t !! i = Some c → choice_ok vec (OkPartitions t) i c;
  to_no_choice : ∀ i, PartitionChoiceMap t !! i = None → on_broker i (OkPartitions t) = []
}.

(** The positions of the vector that a topic uses. *)
Definition ranges (choices : gmap nat TPartitionChoices) : list nat :=
  concat ((λ x : nat * TPartitionChoices, seq (TopicBrokerVecIndex x.2) (TopicBrokerVecNumItems x.2))
    <$> map_to_list choices).

Definition leads (ts : list TTopic) (i : nat) : Prop :=
  ∃ t p, t ∈ ts ∧ p ∈ OkPartitions t ∧ BrokerIndex p = i.

Record topics_ok (brokers : list TBroker) (vec : list Z) (ts : list TTopic) : Prop := {
  ts_each : Forall (topic_ok (length brokers) vec) ts;
  ts_ranges : concat ((λ t, ranges (PartitionChoiceMap t)) <$> ts) ≡ₚ seq 0 (length vec);
  ts_service : ∀ i b, brokers !! i = Some b → InService b = true ↔ leads ts i
}.

Definition names_ok (names : gmap string nat) (ns : list string) : Prop :=
  ∀ name i, names !! name = Some i ↔ ns !! i = Some name.

Definition brokers_ok (bm : gmap Z nat) (brokers : list TBroker) : Prop :=
  ∀ id i, bm !! id = Some i ↔ BrokerId <$> brokers !! i = Some id.

Lemma names_size names ns : names_ok names ns → size names = length ns.
Proof.
  intros Hn. rewrite <- (length_seq (length ns) 0), <- length_map_to_list, <- (length_fmap snd).
  apply Permutation_length, NoDup_Permutation.
  - apply NoDup_fmap_2_strong; [| apply NoDup_map_to_list].
    intros [n i] [n' i'] H1%elem_of_map_to_list H2%elem_of_map_to_list. cbn. intros <-.
    apply Hn in H1, H2. congruence.
  - apply NoDup_seq.
  - intros i. rewrite list_elem_of_fmap, elem_of_seq. split.
    + intros ([n j] & -> & H1%elem_of_map_to_list%Hn). apply lookup_lt_Some in H1. cbn. lia.
    + intros [_ Hi]. destruct (lookup_lt_is_Some_2 ns i) as [n Hx]; [lia |].
      exists (n, i). split; [done |]. by apply elem_of_map_to_list, Hn.
Qed.

Lemma names_snoc names ns name :
  names_ok names ns → names !! name = None → names_ok (<[name := length ns]> names) (ns ++ [name]).
Proof.
  intros Hn Hnew n i. destruct (decide (n = name)) as [-> | Hne].
  - rewrite lookup_insert_eq. split; [intros [= <-]; by rewrite list_lookup_middle |].
    intros [Hi | [Hi E]]%lookup_app_Some; [apply Hn in Hi; congruence |].
    apply list_lookup_singleton_Some in E as [E _]. f_equal. lia.
  - rewrite lookup_insert_ne by done. rewrite (Hn n i). split; [intros; by apply lookup_app_l_Some |].
    intros [Hi | [Hi E]]%lookup_app_Some; [done |].
    apply list_lookup_singleton_Some in E as [_ E]. congruence.
Qed.

Lemma brokers_snoc bm brokers b :
  brokers_ok bm brokers → bm !! BrokerId b = None →
  brokers_ok (<[BrokerId b := length brokers]> bm) (brokers ++ [b]).
Proof.
  intros Hb Hnew id i. destruct (decide (id = BrokerId b)) as [-> | Hne].
  - rewrite lookup_insert_eq. split; [intros [= <-]; by rewrite list_lookup_middle |].
    intros (x & E & Hx)%fmap_Some. apply lookup_app_Some in E as [E | [Hi E]].
    + assert (bm !! BrokerId b = Some i) by (apply Hb; by rewrite E, Hx). congruence.
    + apply list_lookup_singleton_Some in E as [E _]. f_equal. lia.
  - rewrite lookup_insert_ne by done. rewrite (Hb id i). rewrite !fmap_Some. split.
    + intros (x & E & ->). exists x. split; [by apply lookup_app_l_Some | done].
    + intros (x & E & ->). exists x. split; [| done].
      apply lookup_app_Some in E as [E | [Hi E]]; [done |].
      apply list_lookup_singleton_Some in E as [_ E]. congruence.
Qed.

Lemma brokers_ids_NoDup bm brokers : brokers_ok bm brokers → NoDup (BrokerId <$> brokers).
Proof.
  intros Hb. apply NoDup_alt. intros i j id Hi Hj. rewrite list_lookup_fmap in Hi, Hj.
  apply Hb in Hi, Hj. congruence.
Qed.

(** ** Adding brokers *)

Lemma map_emplace_new {K} `{Countable K} {A} (k : K) (a : A) (m : gmap K A) :
  m !! k = None → map_emplace k a m = (<[k := a]> m, true).
Proof. intros E. unfold map_emplace. by rewrite E. Qed.

Lemma map_emplace_old {K} `{Countable K} {A} (k : K) (a x : A) (m : gmap K A) :
  m !! k = Some x → map_emplace k a m = (m, false).
Proof. intros E. unfold map_emplace. by rewrite E. Qed.

(** A builder that has seen the brokers of [v]. *)
Definition adding_brokers (v : gmap Z (string * Z)) (b : TBuilder) : Prop :=
  BState b = AddingBrokers ∧ brokers_ok (BrokerMap b) (Brokers (md b)) ∧
  list_to_map (broker_item <$> Brokers (md b)) = v ∧
  Forall (λ b, InService b = false) (Brokers (md b)) ∧
  TopicBrokerVec (md b) = [] ∧ Topics (md b) = [] ∧ TopicNameToIndex (md b) = ∅.

Lemma broker_known bm brokers id :
  brokers_ok bm brokers →
  is_Some (bm !! id) ↔ is_Some ((list_to_map (broker_item <$> brokers) : gmap Z _) !! id).
Proof.
  intros Hb.
  assert (NoDup (broker_item <$> brokers).*1) as Hnd
    by (rewrite <- list_fmap_compose; by eapply brokers_ids_NoDup).
  split.
  - intros [i Hi]. apply Hb, fmap_Some in Hi as (b & Hl & ->). eexists.
    apply elem_of_list_to_map; [done |]. apply list_elem_of_fmap.
    exists b. split; [reflexivity |]. by eapply list_elem_of_lookup_2.
  - intros [x Hx]. apply elem_of_list_to_map_2, list_elem_of_fmap in Hx as (b & E & Hl).
    injection E as -> _. apply list_elem_of_lookup_1 in Hl as [i Hi]. exists i. apply Hb. by rewrite Hi.
Qed.

Lemma AddBroker_ok v b x :
  adding_brokers v b →
  ∃ b', AddBroker (mb_id x) (mb_host x) (uwrap 16 (mb_port x)) b = (Ret (), b') ∧
    adding_brokers (map_emplace (mb_id x) (mb_host x, uwrap 16 (mb_port x)) v).1 b'.
Proof.
  intros (Hs & Hb & Hv & Hf & Hvec & Ht & Hn). unfold AddBroker, in_state, MB.
  erewrite bind_Ret; [| erewrite bind_Ret by reflexivity; rewrite Hs; reflexivity].
  rewrite (bind_Ret _ _ b b b) by done. cbv beta.
  pose proof (broker_known _ _ (mb_id x) Hb) as Hk.
  destruct (BrokerMap b !! mb_id x) as [i |] eqn:E.
  - rewrite (map_emplace_old _ _ i) by done. eexists. split; [reflexivity |].
    destruct Hk as [[y Hy] _]; [by eexists |]. rewrite Hv in Hy.
    rewrite (map_emplace_old _ _ y) by done. by split_and!.
  - rewrite map_emplace_new by done. eexists. split; [reflexivity |].
    set (nb := mkBroker (mb_id x) (mb_host x) (uwrap 16 (mb_port x)) false).
    assert (v !! mb_id x = None) as Hvn.
    { rewrite <- Hv. apply eq_None_not_Some. intros Hx%Hk. by destruct Hx. }
    rewrite map_emplace_new by done. split_and!; cbn; try done.
    + exact (brokers_snoc (BrokerMap b) (Brokers (md b)) nb Hb E).
    + rewrite fmap_app, list_to_map_app. cbn. rewrite insert_empty, Hv.
      rewrite <- insert_union_singleton_r by done. done.
    + apply Forall_app. split; [done |]. by repeat constructor.
Qed.

(** ** Adding topics *)

Definition topics_map (brokers : list TBroker) (ns : list string) (ts : list TTopic)
    : gmap string (gmap Z (Z * Z)) :=
  list_to_map (zip ns ((λ t, parts_view brokers (AllPartitions t)) <$> ts)).

Lemma names_NoDup names ns : names_ok names ns → NoDup ns.
Proof.
  intros Hn. apply NoDup_alt. intros i j n Hi%Hn Hj%Hn. congruence.
Qed.

(** A builder between topics: it has seen the brokers of [vb] and the topics
    of [vt]. *)
Record adding_topics (vb : gmap Z (string * Z)) (vt : gmap string (gmap Z (Z * Z))) (b : TBuilder)
    : Prop := {
  at_state : BState b = AddingTopics;
  at_brokers : brokers_ok (BrokerMap b) (Brokers (md b));
  at_vb : list_to_map (broker_item <$> Brokers (md b)) = vb;
  at_names : ∃ ns, names_ok (TopicNameToIndex (md b)) ns ∧ length ns = length (Topics (md b)) ∧
    topics_map (Brokers (md b)) ns (Topics (md b)) = vt;
  at_topics : topics_ok (Brokers (md b)) (TopicBrokerVec (md b)) (Topics (md b))
}.

(** The topic being added, when it has the partitions of [vp]. *)
Record open_topic (brokers : list TBroker) (vp : gmap Z (Z * Z)) (t : TTopic) : Prop := {
  ot_ids : NoDup (PartId <$> OkPartitions t ++ OutOfServicePartitions t);
  ot_ok : Forall (λ p, CanSendToPartition (ErrorCode p) = true) (OkPartitions t);
  ot_out : Forall (λ p, CanSendToPartition (ErrorCode p) = false) (OutOfServicePartitions t);
  ot_index : Forall (λ p, (BrokerIndex p < length brokers)%nat) (OkPartitions t ++ OutOfServicePartitions t);
  ot_view : parts_view brokers (OkPartitions t ++ OutOfServicePartitions t) = vp;
  ot_choices : PartitionChoiceMap t = ∅
}.

Record adding_one (vb : gmap Z (string * Z)) (vt : gmap string (gmap Z (Z * Z))) (name : string)
    (vp : gmap Z (Z * Z)) (b : TBuilder) : Prop := {
  ao_state : BState b = AddingOneTopic;
  ao_brokers : brokers_ok (BrokerMap b) (Brokers (md b));
  ao_vb : list_to_map (broker_item <$> Brokers (md b)) = vb;
  ao_topics : ∃ ns ts t, names_ok (TopicNameToIndex (md b)) (ns ++ [name]) ∧ length ns = length ts ∧
    topics_map (Brokers (md b)) ns ts = vt ∧ Topics (md b) = ts ++ [t] ∧
    CurrentTopicIndex b = length ts ∧ topics_ok (Brokers (md b)) (TopicBrokerVec (md b)) ts ∧
    open_topic (Brokers (md b)) vp t;
  ao_ids : CurrentTopicPartitions b = dom vp
}.

Lemma topics_map_None brokers ns ts n :
  length ns = length ts → topics_map brokers ns ts !! n = None ↔ n ∉ ns.
Proof.
  intros Hl. unfold topics_map. rewrite <- not_elem_of_list_to_map.
  by rewrite fst_zip by (rewrite length_fmap; lia).
Qed.

Lemma names_None names ns n : names_ok names ns → names !! n = None ↔ n ∉ ns.
Proof.
  intros Hn. rewrite eq_None_not_Some. split; intros H1 H2; apply H1.
  - apply list_elem_of_lookup_1 in H2 as [i Hi]. exists i. by apply Hn.
  - destruct H2 as [i Hi%Hn]. by eapply list_elem_of_lookup_2.
Qed.

Lemma topics_map_snoc brokers ns ts n t :
  length ns = length ts → n ∉ ns →
  topics_map brokers (ns ++ [n]) (ts ++ [t]) =
  <[n := parts_view brokers (AllPartitions t)]> (topics_map brokers ns ts).
Proof.
  intros Hl Hn. unfold topics_map. rewrite fmap_app, zip_with_app by (by rewrite length_fmap).
  cbn. rewrite list_to_map_snoc; [done |]. by rewrite fst_zip by (rewrite length_fmap; lia).
Qed.

Lemma in_state_ok s b : BState b = s → in_state s b = (Ret (), b).
Proof.
  intros Hs. unfold in_state, MB. rewrite (bind_Ret _ _ b (BState b) b) by done.
  unfold massert. by rewrite bool_decide_true.
Qed.

Lemma check_names_ok b ns :
  names_ok (TopicNameToIndex (md b)) ns → length ns = length (Topics (md b)) →
  check_names b = (Ret (), b).
Proof.
  intros Hn Hl. unfold check_names, MB. rewrite (bind_Ret _ _ b (md b) b) by done.
  unfold massert. rewrite bool_decide_true; [done |]. by rewrite (names_size _ ns Hn).
Qed.

Lemma open_topic_new brokers : open_topic brokers ∅ TTopic_new.
Proof. split; cbn; try done; constructor. Qed.

Lemma OpenTopic_ok vb vt b name :
  adding_topics vb vt b →
  ∃ b', OpenTopic name b = (Ret (bool_decide (vt !! name = None)), b') ∧
    if decide (vt !! name = None) then adding_one vb vt name ∅ b' else adding_topics vb vt b'.
Proof.
  intros [Hs Hb Hvb (ns & Hn & Hl & Hvt) Ht]. unfold OpenTopic, MB.
  rewrite (bind_Ret _ _ _ _ _ (in_state_ok _ _ Hs)), (bind_Ret _ _ b (md b) b) by done. cbv beta.
  assert (TopicNameToIndex (md b) !! name = None ↔ vt !! name = None) as Hiff.
  { rewrite <- Hvt, topics_map_None by done. by apply names_None. }
  destruct (TopicNameToIndex (md b) !! name) as [i |] eqn:E.
  - assert (vt !! name ≠ None) as Hv by (intros Hx; by apply Hiff in Hx).
    rewrite (map_emplace_old _ _ i), bool_decide_false by done.
    eexists. split; [reflexivity |]. rewrite decide_False by done. split; cbn; try done. by exists ns.
  - assert (vt !! name = None) as Hv by by apply Hiff.
    rewrite map_emplace_new, bool_decide_true by done.
    pose proof (names_snoc _ ns name Hn E) as Hn'. rewrite Hl in Hn'.
    set (b1 := mkBuilder AddingOneTopic (BrokerMap b) (CurrentTopicName b) (length (Topics (md b))) ∅
      (with_topics (Topics (md b) ++ [TTopic_new]) (with_names (<[name := length (Topics (md b))]>
        (TopicNameToIndex (md b))) (md b))) (BCounters b)).
    assert (check_names b1 = (Ret (), b1)) as Hck.
    { apply (check_names_ok b1 (ns ++ [name])); [done |]. cbn. rewrite !length_app. cbn. lia. }
    exists (mkBuilder AddingOneTopic (BrokerMap b) name (length (Topics (md b))) ∅ (md b1) (BCounters b)).
    split; [| rewrite decide_True by done; split; cbn; try done].
    + unfold set_md, set_bstate. cbn [mret]. erewrite (bind_Ret _ _ b) by reflexivity.
      erewrite bind_Ret; [reflexivity |]. do 4 (erewrite bind_Ret by reflexivity).
      rewrite (bind_Ret _ _ _ () b1); [reflexivity | exact Hck].
    + exists ns, (Topics (md b)), TTopic_new. split_and!; try done. apply open_topic_new.
Qed.

Lemma parts_view_perm brokers l k :
  NoDup (PartId <$> l) → l ≡ₚ k → parts_view brokers l = parts_view brokers k.
Proof.
  intros Hnd Hp. unfold parts_view. apply list_to_map_proper; [| by rewrite Hp].
  by rewrite <- list_fmap_compose.
Qed.

Lemma parts_view_None brokers l id : parts_view brokers l !! id = None ↔ id ∉ PartId <$> l.
Proof.
  unfold parts_view. rewrite <- not_elem_of_list_to_map. by rewrite <- list_fmap_compose.
Qed.

Lemma open_topic_add brokers vp t p (can : bool) leader :
  open_topic brokers vp t → vp !! PartId p = None → can = CanSendToPartition (ErrorCode p) →
  BrokerId <$> brokers !! BrokerIndex p = Some leader →
  open_topic brokers (<[PartId p := (leader, ErrorCode p)]> vp)
    (if can then with_ok (OkPartitions t ++ [p]) t
     else with_out (OutOfServicePartitions t ++ [p]) t).
Proof.
  intros [Hids Hok Hout Hidx Hv Hch] Hnew Hcan Hl.
  assert (PartId p ∉ PartId <$> OkPartitions t ++ OutOfServicePartitions t) as Hni
    by (rewrite <- Hv in Hnew; by apply parts_view_None in Hnew).
  set (t' := if can then _ else _).
  assert (OkPartitions t' ++ OutOfServicePartitions t' ≡ₚ
    p :: OkPartitions t ++ OutOfServicePartitions t) as Hp.
  { unfold t'. clear. destruct can; cbn; perm_lia. }
  assert (NoDup (PartId <$> p :: OkPartitions t ++ OutOfServicePartitions t)) as Hnd
    by (rewrite fmap_cons; by constructor).
  split.
  - by rewrite Hp.
  - unfold t'. destruct can; cbn; [| done]. apply Forall_app. split; [done |]. by repeat constructor.
  - unfold t'. destruct can; cbn; [done |]. apply Forall_app. split; [done |]. by repeat constructor.
  - rewrite Hp. constructor; [| done]. destruct (brokers !! BrokerIndex p) eqn:E; [| done].
    by apply lookup_lt_Some in E.
  - rewrite (parts_view_perm _ _ (p :: OkPartitions t ++ OutOfServicePartitions t)) by by rewrite ?Hp.
    rewrite <- Hv. unfold parts_view. cbn. by rewrite Hl.
  - unfold t'. by destruct can.
Qed.

Lemma AddPartition_ok vb vt name vp b p :
  adding_one vb vt name vp b →
  ∃ b', AddPartitionToTopic (mp_id p) (mp_leader p) (CanSendToPartition (mp_error p)) (mp_error p) b =
      (Ret (), b') ∧ adding_one vb vt name (view_partition vb vp p) b'.
Proof.
  intros [Hs Hb Hvb (ns & ts & t & Hn & Hl & Hvt & Htops & Hcur & Hts & Ho) Hids].
  unfold AddPartitionToTopic, MB. rewrite (bind_Ret _ _ _ _ _ (in_state_ok _ _ Hs)).
  rewrite (bind_Ret _ _ b b b) by done. cbv beta. unfold view_partition.
  pose proof (broker_known _ _ (mp_leader p) Hb) as Hk. rewrite Hvb in Hk.
  destruct (BrokerMap b !! mp_leader p) as [i |] eqn:E.
  - destruct Hk as [[x Hx] _]; [by eexists |]. rewrite Hx. pose proof E as Hi. apply Hb in Hi.
    rewrite massert_bind.
    2:{ destruct (Brokers (md b) !! i) eqn:El; [| done]. apply lookup_lt_Some in El.
        by apply Nat.ltb_lt. }
    assert (mp_id p ∈ dom vp ↔ vp !! mp_id p ≠ None) as Hd
      by (rewrite elem_of_dom; destruct (vp !! mp_id p); split; eauto; by intros []).
    rewrite Hids. destruct (vp !! mp_id p) as [y |] eqn:Ey.
    + rewrite bool_decide_true by by apply Hd. rewrite (map_emplace_old _ _ y) by done.
      eexists. split; [reflexivity |]. split; cbn; try done. by exists ns, ts, t.
    + rewrite bool_decide_false by (by intros Hx'%Hd). rewrite map_emplace_new by done.
      erewrite bind_Ret by reflexivity. rewrite Hcur, Htops, list_lookup_middle by done. cbn [need].
      erewrite bind_Ret by reflexivity.
      set (part := mkPartition (mp_id p) i (mp_error p)).
      eexists. split; [reflexivity |]. split; cbn; try done.
      * eexists ns, ts, _. split_and!; try done; cbn.
        -- rewrite Htops, insert_app_r_alt, Nat.sub_diag by done. reflexivity.
        -- by apply (open_topic_add (Brokers (md b)) vp t part _ (mp_leader p)).
      * by rewrite Hids, dom_insert_L.
  - assert (vb !! mp_leader p = None) as ->.
    { apply eq_None_not_Some. intros Hx%Hk. by destruct Hx. }
    eexists. split; [reflexivity |]. split; cbn; try done. by exists ns, ts, t.
Qed.

Lemma AddPartitions_ok vb vt name l vp b :
  adding_one vb vt name vp b →
  ∃ b', mfor (λ p, AddPartitionToTopic (mp_id p) (mp_leader p) (CanSendToPartition (mp_error p))
      (mp_error p)) l b = (Ret (), b') ∧ adding_one vb vt name (foldl (view_partition vb) vp l) b'.
Proof.
  revert vp b. induction l as [| p l IH]; intros vp b Ha; [by exists b |].
  destruct (AddPartition_ok vb vt name vp b p Ha) as (b1 & Hr1 & Ha1).
  destruct (IH _ b1 Ha1) as (b2 & Hr2 & Ha2). exists b2. cbn [mfor]. unfold MB in *.
  by rewrite (bind_Ret _ _ _ _ _ Hr1).
Qed.

(** ** Closing a topic *)

(** The order of [OkPartitions] after the first sort. *)
Definition key_le (x y : TPartition) : Prop :=
  (BrokerIndex x < BrokerIndex y)%nat ∨ (BrokerIndex x = BrokerIndex y ∧ PartId x ≤ PartId y).

Lemma not_after_key x y : not_after by_broker_and_id x y ↔ key_le x y.
Proof.
  unfold not_after, by_broker_and_id, key_le.
  destruct (Nat.eqb_spec (BrokerIndex y) (BrokerIndex x)) as [E | E]; cbn [negb].
  - rewrite E. rewrite Z.ltb_ge. lia.
  - rewrite Nat.ltb_ge. lia.
Qed.

Lemma by_broker_and_id_weak : strict_weak by_broker_and_id.
Proof.
  split; intros x y; unfold by_broker_and_id.
  - destruct (Nat.eqb_spec (BrokerIndex x) (BrokerIndex y)), (Nat.eqb_spec (BrokerIndex y) (BrokerIndex x));
      cbn [negb]; try lia; rewrite ?Nat.ltb_lt, ?Nat.ltb_ge; lia.
  - intros z H1 H2. apply (not_after_key x y) in H1. apply (not_after_key y z) in H2.
    apply (not_after_key x z). unfold key_le in *. lia.
Qed.

Lemma by_id_weak : strict_weak by_id.
Proof. split; unfold by_id; intros; lia. Qed.

Lemma same_broker_app i l :
  l = (same_broker i l).1 ++ (same_broker i l).2 ∧
  Forall (λ p, BrokerIndex p = i) (same_broker i l).1 ∧
  match (same_broker i l).2 with p :: _ => BrokerIndex p ≠ i | [] => True end.
Proof.
  induction l as [| p l IH]; [done |]. cbn.
  destruct (Nat.eqb_spec (BrokerIndex p) i) as [E | E]; [| done].
  destruct (same_broker i l) as [g rest]. destruct IH as (-> & Hg & Hr). cbn in *.
  split; [done |]. split; [by constructor | done].
Qed.

Lemma same_broker_sorted p l :
  StronglySorted key_le (p :: l) →
  let '(g, rest) := same_broker (BrokerIndex p) (p :: l) in
  p :: l = g ++ rest ∧ g ≠ [] ∧ g = on_broker (BrokerIndex p) (p :: l) ∧
  (∀ x, x ∈ rest → BrokerIndex x ≠ BrokerIndex p) ∧ StronglySorted key_le rest.
Proof.
  intros Hs. set (i := BrokerIndex p). pose proof (same_broker_app i (p :: l)) as (He & Hg & Hr).
  assert ((same_broker i (p :: l)).1 ≠ []) as Hne.
  { cbn. unfold i. rewrite Nat.eqb_refl. by destruct (same_broker _ l). }
  destruct (same_broker i (p :: l)) as [g rest]. cbn [fst snd] in *. rewrite He in Hs.
  apply StronglySorted_app in Hs as (Hgr & Hsg & Hsr).
  assert (∀ x, x ∈ rest → BrokerIndex x ≠ i) as Hrest.
  { destruct rest as [| q rest]; [by intros x ?%elem_of_nil |].
    assert (BrokerIndex p ≤ BrokerIndex q)%nat as Hpq.
    { destruct g as [| p' g]; [done |]. injection He as -> _.
      specialize (Hgr p' q). unfold key_le in Hgr. destruct Hgr; [left | left | |]; lia. }
    intros x [-> | Hx]%elem_of_cons; [done |]. inversion Hsr as [| ? ? _ Hall]; subst.
    rewrite Forall_forall in Hall. specialize (Hall x Hx). unfold key_le in Hall. fold i in Hpq. lia. }
  split; [done |]. split; [done |]. split; [| by split].
  unfold on_broker. rewrite He, filter_app.
  rewrite Forall_forall in Hg. by rewrite filter_all, filter_none, app_nil_r.
Qed.

(** The brokers of the partitions [l] marked. *)
Definition mark (l : list TPartition) (bs : list TBroker) : list TBroker :=
  imap (λ i b, if decide (i ∈ BrokerIndex <$> l) then MarkInService b else b) bs.

(** The choices the loop adds for [l], whose IDs go to the vector from [start]. *)
Record new_choices (start : nat) (l : list TPartition) (new : gmap nat TPartitionChoices) : Prop := {
  nc_dom : ∀ i, is_Some (new !! i) ↔ i ∈ BrokerIndex <$> l;
  nc_chunk : ∀ i c, new !! i = Some c → ∃ a z, PartId <$> l = a ++ (PartId <$> on_broker i l) ++ z ∧
    TopicBrokerVecIndex c = (start + length a)%nat ∧
    TopicBrokerVecNumItems c = length (on_broker i l);
  nc_ranges : ranges new ≡ₚ seq start (length l)
}.

Lemma ranges_insert i c m :
  m !! i = None →
  ranges (<[i := c]> m) ≡ₚ seq (TopicBrokerVecIndex c) (TopicBrokerVecNumItems c) ++ ranges m.
Proof.
  intros Hi. unfold ranges. rewrite map_to_list_insert by done. done.
Qed.

Lemma new_choices_cons start i g rest new :
  g ≠ [] → Forall (λ p, BrokerIndex p = i) g → (∀ x, x ∈ rest → BrokerIndex x ≠ i) →
  new_choices (start + length g) rest new →
  new !! i = None ∧ new_choices start (g ++ rest) (<[i := mkChoices start (length g)]> new).
Proof.
  intros Hne Hg Hrest [Hd Hc Hr].
  assert (new !! i = None) as Hi.
  { apply eq_None_not_Some. intros (x & Hx & Hin)%Hd%list_elem_of_fmap. by apply (Hrest x). }
  assert (on_broker i g = g) as Hgi by (apply filter_all; by apply Forall_forall).
  assert (∀ j, j ≠ i → on_broker j g = []) as Hgj.
  { intros j Hj. apply filter_none. rewrite Forall_forall in Hg. intros x Hx E. apply Hj. rewrite <- E. by apply Hg. }
  assert (on_broker i rest = []) as Hri by by apply filter_none.
  split; [done |]. split.
  - intros j. rewrite fmap_app, elem_of_app, lookup_insert_is_Some'. rewrite Hd. split; [| intros [H | H]].
    + intros [-> | H]; [left | by right]. destruct g as [| x g]; [done |].
      apply Forall_cons in Hg as [<- _]. left.
    + left. apply list_elem_of_fmap in H as (x & -> & Hx). rewrite Forall_forall in Hg. by rewrite Hg.
    + by right.
  - intros j c Hj. destruct (decide (j = i)) as [-> | Hji].
    + rewrite lookup_insert_eq in Hj. injection Hj as <-. exists [], (PartId <$> rest).
      unfold on_broker. rewrite filter_app. fold (on_broker i g) (on_broker i rest).
      rewrite Hgi, Hri, app_nil_r, fmap_app. cbn. split; [done |]. split; [lia | done].
    + rewrite lookup_insert_ne in Hj by done. destruct (Hc j c Hj) as (a & z & He & H1 & H2).
      exists ((PartId <$> g) ++ a), z. unfold on_broker. rewrite filter_app.
      fold (on_broker j g) (on_broker j rest). rewrite (Hgj j Hji). cbn [app].
      rewrite fmap_app, He, <- app_assoc, length_app, length_fmap. split; [done |]. split; [lia | done].
  - rewrite ranges_insert by done. cbn. rewrite Hr, length_app, seq_app. done.
Qed.

Lemma mark_app i br g rest bs :
  bs !! i = Some br → g ≠ [] → Forall (λ p, BrokerIndex p = i) g →
  mark rest (<[i := MarkInService br]> bs) = mark (g ++ rest) bs.
Proof.
  intros Hbr Hne Hg. unfold mark. apply list_eq. intros j. rewrite !list_lookup_imap.
  assert (∀ j, j ∈ BrokerIndex <$> g ++ rest ↔ j = i ∨ j ∈ BrokerIndex <$> rest) as Hin.
  { intros k. rewrite fmap_app, elem_of_app. rewrite Forall_forall in Hg. split; intros [H | H]; auto.
    - apply list_elem_of_fmap in H as (x & -> & Hx). left. auto.
    - subst k. left. destruct g as [| x g]; [done |]. rewrite <- (Hg x) by left. left. }
  destruct (decide (j = i)) as [-> | Hji].
  - rewrite list_lookup_insert_eq by (by eapply lookup_lt_Some). rewrite Hbr. cbn.
    rewrite (decide_True (P := i ∈ BrokerIndex <$> g ++ rest)) by (apply Hin; by left).
    by case_decide.
  - rewrite list_lookup_insert_ne by done. destruct (bs !! j); [| done]. cbn. f_equal.
    apply decide_ext. rewrite Hin. naive_solver.
Qed.

Lemma CloseTopic_loop_ok fuel l b t k :
  (length l ≤ fuel)%nat → StronglySorted key_le l →
  Forall (λ p, (BrokerIndex p < length (Brokers (md b)))%nat) l →
  CurrentTopicIndex b = k → Topics (md b) !! k = Some t →
  (∀ p, p ∈ l → PartitionChoiceMap t !! BrokerIndex p = None) →
  ∃ new, new_choices (length (TopicBrokerVec (md b))) l new ∧
    CloseTopic_loop fuel l b =
      (Ret (), mkBuilder (BState b) (BrokerMap b) (CurrentTopicName b) k (CurrentTopicPartitions b)
        (mkMetadata (mark l (Brokers (md b))) (InServiceBrokerCount (md b))
           (TopicBrokerVec (md b) ++ (PartId <$> l))
           (<[k := with_choices (new ∪ PartitionChoiceMap t) t]> (Topics (md b)))
           (TopicNameToIndex (md b))) (BCounters b)).
Proof.
  revert l b t. induction fuel as [| fuel IH]; intros l b t Hf Hs Hi Hk Ht Hno.
  - destruct l; [| cbn in Hf; lia]. exists ∅. split.
    { split; [| done | done]. intros i. rewrite lookup_empty. cbn. split; [by intros [] | by intros ?%elem_of_nil]. }
    cbn. unfold mret, M_ret. destruct b as [s bm cn ci cp [bs ic vec ts nm] cs]. cbn in *. subst ci.
    rewrite app_nil_r, map_empty_union. do 3 f_equal.
    + apply list_eq. intros i. unfold mark. rewrite list_lookup_imap. by destruct (bs !! i).
    + symmetry. apply list_insert_id. by destruct t.
  - destruct l as [| p l].
    { destruct (IH [] b t) as (new & Hn & Hr); try done; [cbn; lia |]. exists new. split; [done |].
      rewrite <- Hr. by destruct fuel. }
    pose proof (same_broker_sorted p l Hs) as Hsb. cbn [CloseTopic_loop].
    destruct (same_broker (BrokerIndex p) (p :: l)) as [g rest] eqn:Esb.
    destruct Hsb as (He & Hne & Hgo & Hrest & Hsr). set (i := BrokerIndex p) in *.
    assert (Forall (λ p, BrokerIndex p = i) g) as Hg.
    { rewrite Hgo. apply Forall_forall. by intros x [Hx _]%list_elem_of_filter. }
    assert (i < length (Brokers (md b)))%nat as Hil by (by apply Forall_cons in Hi as [? _]).
    apply lookup_lt_is_Some_2 in Hil as [br Hbr].
    unfold MB. rewrite (bind_Ret _ _ b b b) by done. cbv beta. rewrite Hbr. cbn [need].
    erewrite bind_Ret by reflexivity. erewrite bind_Ret by reflexivity. rewrite Hk, Ht. cbn [need].
    erewrite bind_Ret by reflexivity. do 2 (erewrite bind_Ret by reflexivity).
    rewrite map_emplace_new by (apply Hno; left). cbn [fst].
    set (t1 := with_choices (<[i := mkChoices (length (TopicBrokerVec (md b))) (length g)]>
      (PartitionChoiceMap t)) t).
    match goal with |- context [CloseTopic_loop fuel rest ?x] => set (b1 := x) end.
    destruct (IH rest b1 t1) as (new & Hnew & Hrun).
    + assert (length (p :: l) = length (g ++ rest)) as Hlen by by rewrite <- He.
      rewrite length_app in Hlen. cbn in Hlen, Hf. destruct g; [done |]. cbn in Hlen. lia.
    + done.
    + rewrite He in Hi. apply Forall_app in Hi as [_ Hi]. cbn. by rewrite length_insert.
    + done.
    + cbn. by rewrite list_lookup_insert_eq by (by eapply lookup_lt_Some).
    + intros x Hx. cbn. rewrite lookup_insert_ne by (intros E; by apply (Hrest x Hx)).
      apply Hno. rewrite He. apply elem_of_app. by right.
    + cbn [b1 md TopicBrokerVec with_vec with_topics with_brokers] in Hnew, Hrun.
      rewrite length_app, length_fmap in Hnew.
      destruct (new_choices_cons _ i g rest new Hne Hg Hrest Hnew) as [Hni Hnc].
      exists (<[i := mkChoices (length (TopicBrokerVec (md b))) (length g)]> new).
      rewrite He. split; [done |]. rewrite Hrun. do 3 f_equal.
      * cbn. by apply mark_app.
      * by rewrite fmap_app, app_assoc.
      * cbn. rewrite list_insert_insert_eq. f_equal. unfold t1, with_choices. cbn. f_equal.
        by rewrite <- insert_union_r, insert_union_l.
Qed.

Lemma mark_lookup l bs i :
  mark l bs !! i = (λ b, if decide (i ∈ BrokerIndex <$> l) then MarkInService b else b) <$> bs !! i.
Proof. apply list_lookup_imap. Qed.

Lemma mark_length l bs : length (mark l bs) = length bs.
Proof. apply length_imap. Qed.

Lemma mark_ids l bs i : BrokerId <$> mark l bs !! i = BrokerId <$> bs !! i.
Proof. rewrite mark_lookup. destruct (bs !! i); [| done]. cbn. by case_decide. Qed.

Lemma mark_items l bs : broker_item <$> mark l bs = broker_item <$> bs.
Proof.
  apply list_eq. intros i. rewrite !list_lookup_fmap, mark_lookup.
  destruct (bs !! i); [| done]. cbn. by case_decide.
Qed.

Lemma parts_view_ext bs bs' l :
  (∀ i, BrokerId <$> bs !! i = BrokerId <$> bs' !! i) → parts_view bs l = parts_view bs' l.
Proof.
  intros H. unfold parts_view. f_equal. apply list_fmap_ext. intros i p _. unfold part_item. by rewrite H.
Qed.

Lemma topics_map_ext bs bs' ns ts :
  (∀ i, BrokerId <$> bs !! i = BrokerId <$> bs' !! i) → topics_map bs ns ts = topics_map bs' ns ts.
Proof.
  intros H. unfold topics_map. do 2 f_equal. apply list_fmap_ext. intros i t _.
  by apply parts_view_ext.
Qed.

Lemma chunk_grow vec more c :
  (TopicBrokerVecIndex c + TopicBrokerVecNumItems c ≤ length vec)%nat →
  chunk (vec ++ more) c = chunk vec c.
Proof.
  intros Hr. unfold chunk. rewrite drop_app_le, take_app_le by (rewrite ?length_drop; lia). done.
Qed.

Lemma topic_ok_app nb vec more t : topic_ok nb vec t → topic_ok nb (vec ++ more) t.
Proof.
  intros [H1 H2 H3 H4 H5 H6 H7 H8]. split; try done. intros i c Hc.
  destruct (H7 i c Hc) as [Hr Hp Hi Hs].
  split; rewrite ?length_app, ?chunk_grow; try done; lia.
Qed.

Lemma on_broker_perm i l k : l ≡ₚ k → on_broker i l ≡ₚ on_broker i k.
Proof. intros Hp. unfold on_broker. by rewrite Hp. Qed.

Lemma on_broker_elem i l p : p ∈ on_broker i l ↔ BrokerIndex p = i ∧ p ∈ l.
Proof. unfold on_broker. apply (list_elem_of_filter (λ p, BrokerIndex p = i)). Qed.

Lemma filter_sorted {A} (R : A → A → Prop) (P : A → Prop) `{!∀ x, Decision (P x)} l :
  StronglySorted R l → StronglySorted R (filter P l).
Proof.
  intros Hs. induction Hs as [| x l Hs IH Hx]; [constructor |]. rewrite filter_cons. case_decide; [| done].
  constructor; [done |]. apply Forall_forall. intros y [_ Hy]%list_elem_of_filter.
  rewrite Forall_forall in Hx. by apply Hx.
Qed.

Lemma sorted_ids_lt l :
  StronglySorted (λ x y, PartId x ≤ PartId y) l → NoDup (PartId <$> l) →
  StronglySorted (λ x y, PartId x < PartId y) l.
Proof.
  intros Hs. induction Hs as [| x l Hs IH Hx]; [constructor |]. cbn. intros [Hn Hnd]%NoDup_cons.
  constructor; [by apply IH |]. apply Forall_forall. intros y Hy. rewrite Forall_forall in Hx.
  specialize (Hx y Hy). destruct (decide (PartId x = PartId y)) as [E |]; [| lia].
  destruct Hn. rewrite E. apply list_elem_of_fmap. by exists y.
Qed.

Lemma sorted_impl {A} (R R' : A → A → Prop) l :
  (∀ x y, R x y → R' x y) → StronglySorted R l → StronglySorted R' l.
Proof.
  intros H Hs. induction Hs as [| x l Hs IH Hx]; constructor; [done |].
  eapply Forall_impl; [exact Hx |]. auto.
Qed.

Lemma sorted_fmap {A B} (R : B → B → Prop) (f : A → B) l :
  StronglySorted (λ x y, R (f x) (f y)) l ↔ StronglySorted R (f <$> l).
Proof.
  induction l as [| x l IH]; [split; constructor |]. cbn. split; inversion_clear 1; constructor.
  - by apply IH.
  - by apply Forall_fmap.
  - by apply IH.
  - by apply Forall_fmap.
Qed.

Lemma on_broker_sorted i l :
  StronglySorted key_le l → NoDup (PartId <$> l) →
  StronglySorted Z.lt (PartId <$> on_broker i l).
Proof.
  intros Hs Hnd. apply (sorted_fmap Z.lt PartId), sorted_ids_lt.
  - assert (StronglySorted key_le (on_broker i l)) as H by by apply filter_sorted.
    assert (Forall (λ p, BrokerIndex p = i) (on_broker i l)) as Hb
      by (apply Forall_forall; by intros x [? _]%on_broker_elem).
    induction H as [| x k Hk IH Hx]; [constructor |]. apply Forall_cons in Hb as [Hb Hbs].
    constructor; [by apply IH |]. apply Forall_forall. intros y Hy. rewrite Forall_forall in Hx, Hbs.
    specialize (Hx y Hy). specialize (Hbs y Hy). unfold key_le in Hx. lia.
  - eapply sublist_NoDup; [exact Hnd |]. apply fmap_sublist, sublist_filter.
Qed.

Lemma std_sort_keys `{!StdSort} l : StronglySorted key_le (std_sort by_broker_and_id l).
Proof.
  eapply sorted_impl; [| apply std_sort_sorted, by_broker_and_id_weak].
  intros x y. apply not_after_key.
Qed.

Lemma new_choice_ok start l new ok vec :
  StronglySorted key_le l → NoDup (PartId <$> l) → l ≡ₚ ok → length vec = start →
  new_choices start l new →
  (∀ i c, new !! i = Some c → choice_ok (vec ++ (PartId <$> l)) ok i c) ∧
  (∀ i, new !! i = None → on_broker i ok = []).
Proof.
  intros Hs Hnd Hp Hv [Hd Hc _]. split.
  - intros i c Hi. destruct (Hc i c Hi) as (a & z & He & H1 & H2).
    assert (chunk (vec ++ (PartId <$> l)) c = PartId <$> on_broker i l) as Hch.
    { unfold chunk. rewrite H1, H2, <- Hv, He. rewrite drop_app_ge by lia.
      replace (length vec + length a - length vec)%nat with (length a) by lia.
      rewrite drop_app_length, take_app_le by (by rewrite length_fmap).
      by rewrite take_ge by (by rewrite length_fmap). }
    assert (is_Some (new !! i)) as (p & -> & Hin)%Hd%list_elem_of_fmap by eauto.
    split; rewrite ?Hch.
    + rewrite H1, H2, He, !length_app, length_fmap. lia.
    + rewrite H2. assert (p ∈ on_broker (BrokerIndex p) l) as Hx by by apply on_broker_elem.
      destruct (on_broker _ l); [by apply elem_of_nil in Hx | cbn; lia].
    + by rewrite (on_broker_perm _ l ok).
    + by apply on_broker_sorted.
  - intros i Hi. destruct (on_broker i ok) as [| p k] eqn:E; [done |].
    assert (p ∈ on_broker i ok) as [<- Hp']%on_broker_elem by (rewrite E; left).
    rewrite <- Hp in Hp'. assert (is_Some (new !! BrokerIndex p)) as [] by (apply Hd, list_elem_of_fmap; eauto).
    congruence.
Qed.

Lemma leads_snoc ts t i : leads (ts ++ [t]) i ↔ leads ts i ∨ i ∈ BrokerIndex <$> OkPartitions t.
Proof.
  unfold leads. rewrite list_elem_of_fmap. setoid_rewrite elem_of_app. setoid_rewrite list_elem_of_singleton.
  naive_solver.
Qed.

Lemma insert_last {A} (l : list A) x y : <[length l := y]> (l ++ [x]) = l ++ [y].
Proof. by rewrite insert_app_r_alt, Nat.sub_diag. Qed.

Section closing.
Context `{!StdSort} `{!Shuffle}.

Lemma CloseTopic_run b ns ts t :
  BState b = AddingOneTopic → names_ok (TopicNameToIndex (md b)) ns → length ns = S (length ts) →
  Topics (md b) = ts ++ [t] → CurrentTopicIndex b = length ts → PartitionChoiceMap t = ∅ →
  Forall (λ p, (BrokerIndex p < length (Brokers (md b)))%nat) (OkPartitions t) →
  let l := std_sort by_broker_and_id (OkPartitions t) in
  ∃ new, new_choices (length (TopicBrokerVec (md b))) l new ∧
    CloseTopic b = (Ret (), mkBuilder AddingTopics (BrokerMap b) "" (length ts) (CurrentTopicPartitions b)
      (mkMetadata (mark l (Brokers (md b))) (InServiceBrokerCount (md b))
        (TopicBrokerVec (md b) ++ (PartId <$> l))
        (ts ++ [mkTopic (shuffle (length ts) l) (OutOfServicePartitions t)
                  (std_sort by_id (l ++ OutOfServicePartitions t)) new])
        (TopicNameToIndex (md b))) (BCounters b)).
Proof.
  intros Hs Hn Hl Ht Hc Hch Hi l. unfold CloseTopic, MB.
  rewrite (bind_Ret _ _ _ _ _ (in_state_ok _ _ Hs)).
  rewrite (bind_Ret _ _ _ _ _ (check_names_ok b ns Hn ltac:(rewrite Ht, length_app; cbn; lia))).
  rewrite (bind_Ret _ _ b b b) by done. cbv beta.
  rewrite Hc, Ht, list_lookup_middle by done. cbn [need]. erewrite bind_Ret by reflexivity.
  erewrite bind_Ret by reflexivity. fold l.
  set (b1 := mkBuilder (BState b) (BrokerMap b) (CurrentTopicName b) (CurrentTopicIndex b)
    (CurrentTopicPartitions b) (with_topics (<[length ts := with_ok l t]> (Topics (md b))) (md b))
    (BCounters b)).
  destruct (CloseTopic_loop_ok (length l) l b1 (with_ok l t) (length ts)) as (new & Hnew & Hrun); try done.
  - apply std_sort_keys.
  - cbn. unfold l. by rewrite std_sort_perm.
  - cbn. by rewrite Ht, insert_last, list_lookup_middle.
  - intros p _. cbn. by rewrite Hch.
  - exists new. split; [done |]. rewrite (bind_Ret _ _ b1 _ _ Hrun). erewrite bind_Ret by reflexivity.
    cbn [md b1 Topics with_topics]. rewrite Ht, !insert_last.
    rewrite list_lookup_middle by done. cbn [need]. erewrite bind_Ret by reflexivity.
    cbn [PartitionChoiceMap with_ok with_choices OkPartitions]. rewrite Hch, map_union_empty.
    do 2 (erewrite bind_Ret by reflexivity). unfold set_bstate, modify, with_topics. cbn.
    by rewrite insert_last, map_union_empty.
Qed.
End closing.

Section building.
Context `{!StdSort} `{!Shuffle}.

Lemma closed_topic_ok nb vec t new n :
  let l := std_sort by_broker_and_id (OkPartitions t) in
  let all := std_sort by_id (l ++ OutOfServicePartitions t) in
  new_choices (length vec) l new → NoDup (PartId <$> OkPartitions t ++ OutOfServicePartitions t) →
  Forall (λ p, CanSendToPartition (ErrorCode p) = true) (OkPartitions t) →
  Forall (λ p, CanSendToPartition (ErrorCode p) = false) (OutOfServicePartitions t) →
  Forall (λ p, (BrokerIndex p < nb)%nat) (OkPartitions t ++ OutOfServicePartitions t) →
  topic_ok nb (vec ++ (PartId <$> l)) (mkTopic (shuffle n l) (OutOfServicePartitions t) all new).
Proof.
  intros l all Hnew Hids Hok Hout Hidx.
  assert (l ≡ₚ OkPartitions t) as Hl by apply std_sort_perm.
  assert (shuffle n l ≡ₚ OkPartitions t) as Hsh by by rewrite shuffle_perm.
  assert (all ≡ₚ OkPartitions t ++ OutOfServicePartitions t) as Ha.
  { unfold all. rewrite std_sort_perm. by rewrite Hl. }
  assert (NoDup (PartId <$> l)) as Hnd.
  { rewrite fmap_app in Hids. apply NoDup_app in Hids as [Hids _]. by rewrite Hl. }
  destruct (new_choice_ok (length vec) l new (shuffle n l) vec (std_sort_keys _) Hnd) as [Hc Hno]; try done.
  { by rewrite shuffle_perm. }
  split; cbn [OkPartitions OutOfServicePartitions AllPartitions PartitionChoiceMap]; try done.
  - by rewrite Hsh.
  - by rewrite Ha, Hsh.
  - apply sorted_ids_lt; [| by rewrite Ha].
    eapply sorted_impl; [| apply std_sort_sorted, by_id_weak]. intros x y. unfold not_after, by_id. lia.
  - by rewrite Hsh.
  - by rewrite Hsh.
Qed.

Lemma CloseTopic_ok vb vt name vp b :
  adding_one vb vt name vp b →
  ∃ b', CloseTopic b = (Ret (), b') ∧ adding_topics vb (<[name := vp]> vt) b'.
Proof.
  intros [Hs Hb Hvb (ns & ts & t & Hn & Hl & Hvt & Htops & Hcur & [Hts Hrg Hsv] & Ho) Hids].
  destruct Ho as [Hoi Hok Hout Hidx Hv Hch].
  destruct (CloseTopic_run b (ns ++ [name]) ts t) as (new & Hnew & Hrun); try done.
  { rewrite length_app. cbn. lia. }
  { by apply Forall_app in Hidx as [? _]. }
  set (l := std_sort by_broker_and_id (OkPartitions t)) in *.
  assert (l ≡ₚ OkPartitions t) as Hlp by apply std_sort_perm.
  assert (name ∉ ns) as Hni.
  { apply names_NoDup in Hn. apply NoDup_app in Hn as (_ & Hn & _). intros Hx. apply (Hn name Hx). left. }
  eexists. split; [exact Hrun |]. split; cbn; try done.
  - intros id i. rewrite (Hb id i). by rewrite mark_ids.
  - by rewrite mark_items.
  - exists (ns ++ [name]). split; [done |]. split; [rewrite !length_app; cbn; lia |].
    rewrite topics_map_snoc by done. cbn [AllPartitions]. f_equal.
    + rewrite <- Hv. rewrite (parts_view_ext _ (Brokers (md b))) by apply mark_ids.
      symmetry. apply parts_view_perm; [done |]. by rewrite std_sort_perm, Hlp.
    + rewrite <- Hvt. apply topics_map_ext. intros i. apply mark_ids.
  - split; rewrite ?mark_length.
    + apply Forall_app. split; [eapply Forall_impl; [exact Hts |]; intros x; apply topic_ok_app |].
      constructor; [| constructor]. by apply closed_topic_ok.
    + rewrite fmap_app, concat_app, length_app, seq_app, Hrg. cbn. rewrite app_nil_r, length_fmap.
      by rewrite (nc_ranges _ _ _ Hnew).
    + intros i br. rewrite mark_lookup, leads_snoc. cbn [OkPartitions]. rewrite (shuffle_perm _ l).
      intros (br0 & Hbr & ->)%fmap_Some. rewrite <- (Hsv i br0) by done.
      case_decide as Hd; cbn; [naive_solver |]. naive_solver.
Qed.

Lemma build_topic_ok vb vt b t :
  adding_topics vb vt b →
  ∃ b', build_topic t b = (Ret (), b') ∧ adding_topics vb (view_topic vb vt t) b'.
Proof.
  intros Ha. unfold build_topic, view_topic. destruct (negb (mt_error t =? 0)); [by exists b |].
  destruct (OpenTopic_ok vb vt b (mt_name t) Ha) as (b1 & Hr1 & Ha1). unfold MB in *.
  rewrite (bind_Ret _ _ _ _ _ Hr1). destruct (vt !! mt_name t) as [x |] eqn:E.
  - rewrite bool_decide_false by done. rewrite decide_False in Ha1 by done.
    rewrite (map_emplace_old _ _ x) by done. by exists b1.
  - rewrite bool_decide_true by done. rewrite decide_True in Ha1 by done. rewrite map_emplace_new by done.
    destruct (AddPartitions_ok vb vt _ (mt_partitions t) ∅ b1 Ha1) as (b2 & Hr2 & Ha2).
    rewrite (bind_Ret _ _ _ _ _ Hr2). by apply CloseTopic_ok.
Qed.

Lemma build_topics_ok vb l vt b :
  adding_topics vb vt b →
  ∃ b', mfor build_topic l b = (Ret (), b') ∧ adding_topics vb (foldl (view_topic vb) vt l) b'.
Proof.
  revert vt b. induction l as [| t l IH]; intros vt b Ha; [by exists b |].
  destruct (build_topic_ok vb vt b t Ha) as (b1 & Hr1 & Ha1).
  destruct (IH _ b1 Ha1) as (b2 & Hr2 & Ha2). exists b2. cbn [mfor]. unfold MB in *.
  by rewrite (bind_Ret _ _ _ _ _ Hr1).
Qed.

Lemma AddBrokers_ok l v b :
  adding_brokers v b →
  ∃ b', mfor (λ b, AddBroker (mb_id b) (mb_host b) (uwrap 16 (mb_port b))) l b = (Ret (), b') ∧
    adding_brokers (foldl (λ v b, (map_emplace (mb_id b) (mb_host b, uwrap 16 (mb_port b)) v).1) v l) b'.
Proof.
  revert v b. induction l as [| x l IH]; intros v b Ha; [by exists b |].
  destruct (AddBroker_ok v b x Ha) as (b1 & Hr1 & Ha1).
  destruct (IH _ b1 Ha1) as (b2 & Hr2 & Ha2). exists b2. cbn [mfor]. unfold MB in *.
  by rewrite (bind_Ret _ _ _ _ _ Hr1).
Qed.
End building.

(** ** Grouping the brokers in service *)

(** [new] gives every index of a list of [n] items another place. *)
Definition renaming (n : nat) (new : list nat) : Prop := new ≡ₚ seq 0 n.

(** The new index of [i]. *)
Definition moved (new : list nat) (i : nat) : nat := default O (new !! i).

Definition move_part (new : list nat) (p : TPartition) : TPartition :=
  mkPartition (PartId p) (moved new (BrokerIndex p)) (ErrorCode p).

Lemma moved_lookup n new i : renaming n new → (i < n)%nat → new !! i = Some (moved new i).
Proof.
  intros Hp Hi. unfold moved. destruct (lookup_lt_is_Some_2 new i) as [k Hk]; [| by rewrite Hk].
  apply Permutation_length in Hp. rewrite length_seq in Hp. lia.
Qed.

Lemma moved_lt n new i : renaming n new → (i < n)%nat → (moved new i < n)%nat.
Proof.
  intros Hp Hi. apply (moved_lookup n new) in Hi; [| done]. apply list_elem_of_lookup_2 in Hi.
  generalize dependent (moved new i). intros k. rewrite Hp, elem_of_seq. lia.
Qed.

Lemma moved_inj n new i j :
  renaming n new → (i < n)%nat → (j < n)%nat → moved new i = moved new j → i = j.
Proof.
  intros Hp Hi Hj E. apply (moved_lookup n new i Hp) in Hi. apply (moved_lookup n new j Hp) in Hj.
  assert (NoDup new) as Hnd by (rewrite Hp; apply NoDup_seq). rewrite E in Hi.
  eapply NoDup_lookup; eauto.
Qed.

Lemma moved_onto n new k : renaming n new → (k < n)%nat → ∃ i, (i < n)%nat ∧ moved new i = k.
Proof.
  intros Hp Hk. assert (k ∈ new) as [i Hi]%list_elem_of_lookup_1 by (rewrite Hp; apply elem_of_seq; lia).
  exists i. split; [| unfold moved; by rewrite Hi].
  apply lookup_lt_Some in Hi. apply Permutation_length in Hp. rewrite length_seq in Hp. lia.
Qed.

Lemma reindex_partitions n new l :
  renaming n new → Forall (λ p, (BrokerIndex p < n)%nat) l →
  mapM (reindex_partition new) l = Some (move_part new <$> l).
Proof.
  intros Hp Hl. apply mapM_Some_2. induction Hl as [| p l H Hl IH]; cbn; constructor; [| done].
  unfold reindex_partition. by rewrite (moved_lookup n).
Qed.

Lemma reindex_choices_ok n new items acc :
  renaming n new → NoDup items.*1 → Forall (λ x, (x.1 < n)%nat) items →
  (∀ i, i ∈ items.*1 → acc !! moved new i = None) →
  ∃ m, reindex_choices new items acc = Some m ∧
    (∀ j c, m !! j = Some c ↔ acc !! j = Some c ∨ ∃ i, (i, c) ∈ items ∧ moved new i = j) ∧
    size m = (size acc + length items)%nat ∧
    ranges m ≡ₚ concat ((λ x : nat * TPartitionChoices, seq (TopicBrokerVecIndex x.2)
      (TopicBrokerVecNumItems x.2)) <$> items) ++ ranges acc.
Proof.
  intros Hp. revert acc. induction items as [| [i c] items IH]; intros acc Hnd Hlt Hacc.
  - exists acc. split; [done |]. split; [| split; [cbn; lia | done]].
    intros j c. split; [by left |]. intros [H | (i & Hi%elem_of_nil & _)]; done.
  - cbn in Hnd. apply NoDup_cons in Hnd as [Hni Hnd]. apply Forall_cons in Hlt as [Hi Hlt]. cbn in Hi.
    assert (acc !! moved new i = None) as Hnone by (apply Hacc; left).
    assert (∀ k, k ∈ items.*1 → moved new i ≠ moved new k) as Hne.
    { intros k Hk E. apply (moved_inj n) in E; [by subst | done | done |].
      apply list_elem_of_fmap in Hk as (x & -> & Hx). rewrite Forall_forall in Hlt. by apply Hlt. }
    destruct (IH (<[moved new i := c]> acc)) as (m & Hm & Hl & Hsz & Hrg); try done.
    { intros k Hk. rewrite lookup_insert_ne by by apply Hne. apply Hacc. by right. }
    exists m. cbn [reindex_choices]. rewrite (moved_lookup n new i Hp Hi). cbn.
    rewrite map_emplace_new by done. split; [done |]. split; [| split].
    + intros j c'. rewrite Hl. setoid_rewrite elem_of_cons. split.
      * intros [H | (k & Hk & E)]; [| right; exists k; by split; [right |]].
        apply lookup_insert_Some in H as [[E Ec] | [_ H]]; [| by left]. right. exists i.
        split; [left; by subst | done].
      * intros [H | (k & [E | Hk] & Ek)]; [| | right; by exists k].
        -- left. rewrite lookup_insert_ne; [done |]. intros E. congruence.
        -- left. injection E as -> ->. subst j. apply lookup_insert_eq.
    + rewrite Hsz, map_size_insert_None by done. cbn. lia.
    + rewrite Hrg, ranges_insert by done. cbn. rewrite Permutation_app_swap_app.
      by rewrite <- app_assoc.
Qed.

Lemma on_broker_move n new i l :
  renaming n new → (i < n)%nat → Forall (λ p, (BrokerIndex p < n)%nat) l →
  on_broker (moved new i) (move_part new <$> l) = move_part new <$> on_broker i l.
Proof.
  intros Hp Hi Hl. unfold on_broker. induction Hl as [| p l H Hl IH]; [done |].
  rewrite fmap_cons, !filter_cons. cbn [move_part BrokerIndex].
  destruct (decide (BrokerIndex p = i)) as [E | E].
  - rewrite decide_True by by rewrite E. by rewrite IH.
  - rewrite decide_False; [done |]. intros E'. apply E. by eapply moved_inj.
Qed.

Lemma choice_index nb vec t i c :
  topic_ok nb vec t → PartitionChoiceMap t !! i = Some c →
  (i < nb)%nat ∧ ∃ p, p ∈ OkPartitions t ∧ BrokerIndex p = i.
Proof.
  intros Ht Hc. destruct (to_choices _ _ _ Ht i c Hc) as [Hr Hp Hids _].
  assert (∃ p, p ∈ on_broker i (OkPartitions t)) as [p [<- Hin]%on_broker_elem].
  { destruct (on_broker i (OkPartitions t)) as [| p l]; [| exists p; left].
    apply Permutation_length in Hids. unfold chunk in Hids. rewrite length_take, length_drop in Hids.
    cbn in Hids. lia. }
  split; [| by exists p]. pose proof (to_index _ _ _ Ht) as Hi. rewrite Forall_forall in Hi.
  apply (Hi p), elem_of_app. by left.
Qed.

Lemma old_indexes_spec reorder n :
  reorder ≡ₚ seq 0 n →
  renaming n (old_indexes_to_new reorder) ∧
  (∀ i k, old_indexes_to_new reorder !! i = Some k ↔ reorder !! k = Some i).
Proof.
  intros Hp. assert (NoDup reorder) as Hnd by (rewrite Hp; apply NoDup_seq).
  assert (length reorder = n) as Hlen by (apply Permutation_length in Hp; by rewrite length_seq in Hp).
  assert (∀ (l : list (nat * nat)) v, NoDup l.*2 → Forall (λ x, (x.2 < length v)%nat) l →
    let w := foldl (λ v x, <[x.2 := x.1]> v) v l in length w = length v ∧
    (∀ k i, (k, i) ∈ l → w !! i = Some k)) as Hfold.
  { clear. intros l. induction l as [| [k i] l IH] using rev_ind; intros v Hnd Hv.
    { split; [done |]. by intros k i ?%elem_of_nil. }
    rewrite fmap_app in Hnd. apply NoDup_app in Hnd as (Hnd & Hni & _).
    apply Forall_app in Hv as [Hv [Hi _]%Forall_cons]. cbn in Hi.
    rewrite foldl_app. cbn. destruct (IH v Hnd Hv) as [Hl Hk]. split; [by rewrite length_insert |].
    intros k' i' [Hin | E]%elem_of_app.
    - rewrite list_lookup_insert_ne; [by apply Hk |]. intros ->. apply (Hni i').
      + apply list_elem_of_fmap. by exists (k', i').
      + left.
    - apply list_elem_of_singleton in E. injection E as -> ->. by rewrite list_lookup_insert_eq by lia. }
  destruct (Hfold (imap pair reorder) (replicate (length reorder) O)) as [Hl Hk].
  { replace ((imap pair reorder).*2) with reorder; [done |]. apply list_eq. intros j.
    rewrite list_lookup_fmap, list_lookup_imap. by destruct (reorder !! j). }
  { apply Forall_lookup. intros k [j i]. rewrite list_lookup_imap.
    intros (x & Hx & E)%fmap_Some. injection E as -> ->. cbn. rewrite length_replicate, Hlen.
    apply list_elem_of_lookup_2 in Hx. rewrite Hp, elem_of_seq in Hx. lia. }
  fold (old_indexes_to_new reorder) in Hl, Hk. rewrite length_replicate, Hlen in Hl.
  assert (∀ i k, reorder !! k = Some i → old_indexes_to_new reorder !! i = Some k) as Hto.
  { intros i k Hi. apply Hk. apply (list_elem_of_lookup_2 _ k). by rewrite list_lookup_imap, Hi. }
  assert (∀ i k, old_indexes_to_new reorder !! i = Some k → reorder !! k = Some i) as Hfrom.
  { intros i k Hi. pose proof (lookup_lt_Some _ _ _ Hi) as Hlt.
    assert (i ∈ reorder) as [k' Hk']%list_elem_of_lookup_1 by (rewrite Hp; apply elem_of_seq; lia).
    pose proof (Hto i k' Hk'). congruence. }
  split; [| split; eauto]. apply NoDup_Permutation.
  - apply NoDup_alt. intros i j k Hi%Hfrom Hj%Hfrom. congruence.
  - apply NoDup_seq.
  - intros k. rewrite elem_of_seq. split.
    + intros [i Hi%Hfrom]%list_elem_of_lookup_1. apply lookup_lt_Some in Hi. lia.
    + intros [_ H]. destruct (lookup_lt_is_Some_2 reorder k) as [i Hi]; [lia |].
      by eapply list_elem_of_lookup_2, Hto.
Qed.

Section grouping.
Context `{!HashOrder}.

(** The topic with its broker indexes renamed. *)
Record moved_topic (new : list nat) (t t' : TTopic) : Prop := {
  mt_ok : OkPartitions t' = move_part new <$> OkPartitions t;
  mt_out : OutOfServicePartitions t' = move_part new <$> OutOfServicePartitions t;
  mt_all : AllPartitions t' = move_part new <$> AllPartitions t;
  mt_choices : ∀ j c, PartitionChoiceMap t' !! j = Some c ↔
    ∃ i, PartitionChoiceMap t !! i = Some c ∧ moved new i = j;
  mt_ranges : ranges (PartitionChoiceMap t') ≡ₚ ranges (PartitionChoiceMap t)
}.

Lemma reindex_topic_ok n new vec t b :
  renaming n new → topic_ok n vec t →
  ∃ t', reindex_topic new t b = (Ret t', b) ∧ moved_topic new t t'.
Proof.
  intros Hp Ht. pose proof (to_index _ _ _ Ht) as Hidx. apply Forall_app in Hidx as [Hok Hout].
  assert (Forall (λ p, (BrokerIndex p < n)%nat) (AllPartitions t)) as Hall
    by (rewrite (to_all _ _ _ Ht); by apply Forall_app).
  destruct (reindex_choices_ok n new (hash_order (PartitionChoiceMap t)) ∅) as (m & Hm & Hl & Hsz & Hrg).
  - done.
  - apply hash_order_keys.
  - apply Forall_forall. intros [i c] Hi%elem_of_hash_order. by eapply choice_index.
  - done.
  - exists (mkTopic (move_part new <$> OkPartitions t) (move_part new <$> OutOfServicePartitions t)
      (move_part new <$> AllPartitions t) m).
    split.
    + unfold reindex_topic, MB. rewrite !(reindex_partitions n) by done. cbn [need].
      do 3 (erewrite bind_Ret by reflexivity). rewrite Hm. cbn [need].
      erewrite bind_Ret by reflexivity. rewrite massert_bind; [done |]. apply bool_decide_eq_true.
      rewrite Hsz, map_size_empty. cbn. rewrite hash_order_perm. apply length_map_to_list.
    + split; cbn; try done.
      * intros j c. rewrite Hl. setoid_rewrite elem_of_hash_order. rewrite lookup_empty. naive_solver.
      * rewrite Hrg. unfold ranges at 1. rewrite map_to_list_empty. cbn. rewrite app_nil_r.
        unfold ranges. by rewrite hash_order_perm.
Qed.

Lemma moved_topic_ok n new vec t t' :
  renaming n new → topic_ok n vec t → moved_topic new t t' → topic_ok n vec t'.
Proof.
  intros Hp Ht [H1 H2 H3 H4 _]. pose proof (to_index _ _ _ Ht) as Hidx.
  pose proof Hidx as [Hokx _]%Forall_app.
  assert (∀ l : list TPartition, PartId <$> (move_part new <$> l) = PartId <$> l) as Hids.
  { intros l. by rewrite <- list_fmap_compose. }
  split; rewrite ?H1, ?H2, ?H3, <- ?fmap_app, ?Hids, ?Forall_fmap.
  - apply Ht.
  - by rewrite (to_all _ _ _ Ht).
  - apply (sorted_fmap Z.lt PartId). rewrite Hids. apply (sorted_fmap Z.lt PartId), Ht.
  - apply Ht.
  - apply Ht.
  - eapply Forall_impl; [exact Hidx |]. intros p Hi. cbn. by apply moved_lt.
  - intros j c (i & Hi & <-)%H4. destruct (choice_index _ _ _ i c Ht Hi) as [Hlt _].
    destruct (to_choices _ _ _ Ht i c Hi) as [Hr Hps Hch Hs]. split; try done.
    by rewrite (on_broker_move n), Hids.
  - intros j Hj. destruct (on_broker j _) as [| q l] eqn:E; [done |].
    assert (q ∈ on_broker j (move_part new <$> OkPartitions t)) as Hq by (rewrite E; left).
    apply on_broker_elem in Hq as [Hq (p & -> & Hin)%list_elem_of_fmap]. cbn in Hq.
    destruct (PartitionChoiceMap t !! BrokerIndex p) as [c |] eqn:Ec.
    + assert (PartitionChoiceMap t' !! j = Some c) by (apply H4; eauto). congruence.
    + apply (to_no_choice _ _ _ Ht) in Ec.
      assert (p ∈ on_broker (BrokerIndex p) (OkPartitions t)) as Hx by by apply on_broker_elem.
      rewrite Ec in Hx. by apply elem_of_nil in Hx.
Qed.

Lemma reindex_topics_ok n new vec ts b :
  renaming n new → Forall (topic_ok n vec) ts →
  ∃ ts', mmap (reindex_topic new) ts b = (Ret ts', b) ∧ Forall2 (moved_topic new) ts ts'.
Proof.
  intros Hp Hts. induction Hts as [| t ts Ht Hts (ts' & Hr & Hm)]; [by exists [] |].
  destruct (reindex_topic_ok n new vec t b Hp Ht) as (t' & Hr' & Hm'). exists (t' :: ts'). cbn [mmap].
  unfold MB in *. rewrite (bind_Ret _ _ _ _ _ Hr'), (bind_Ret _ _ _ _ _ Hr). split; [done |]. by constructor.
Qed.
End grouping.

Record metadata_ok (m : TMetadata) : Prop := {
  mo_names : ∃ ns, names_ok (TopicNameToIndex m) ns ∧ length ns = length (Topics m);
  mo_ids : NoDup (BrokerId <$> Brokers m);
  mo_topics : topics_ok (Brokers m) (TopicBrokerVec m) (Topics m);
  mo_grouped : ∃ a z, Brokers m = a ++ z ∧ Forall (λ b, InService b = true) a ∧
    Forall (λ b, InService b = false) z ∧ InServiceBrokerCount m = length a
}.

Lemma in_service_weak bs : strict_weak (λ i j, in_service bs i && negb (in_service bs j)).
Proof.
  split; [intros x y | intros x y z]; destruct (in_service bs x), (in_service bs y); try done;
    by destruct (in_service bs z).
Qed.

Lemma grouped_sorted l :
  StronglySorted (λ x y, InService y = true → InService x = true) l →
  ∃ a z, l = a ++ z ∧ Forall (λ b, InService b = true) a ∧ Forall (λ b, InService b = false) z ∧
    count_in_service l = length a.
Proof.
  induction 1 as [| b l Hs (a & z & -> & Ha & Hz & Hc) Hb]; [by exists [], [] |].
  destruct (InService b) eqn:E.
  - exists (b :: a), z. cbn. rewrite E. split_and!; try done; [by constructor | by rewrite Hc].
  - exists [], (b :: a ++ z). cbn. rewrite E. split_and!; try done. constructor; [done |].
    eapply Forall_impl; [exact Hb |]. intros x Hx. cbn in Hx. destruct (InService x); [| done]. by discriminate Hx.
Qed.

Lemma reorder_spec `{!StdSort} bs reorder :
  reorder = std_sort (λ i j, in_service bs i && negb (in_service bs j)) (seq 0 (length bs)) →
  ∃ bs', mapM (λ i, bs !! i) reorder = Some bs' ∧ length bs' = length bs ∧
    (∀ i k, reorder !! k = Some i → bs' !! k = bs !! i) ∧
    StronglySorted (λ x y, InService y = true → InService x = true) bs'.
Proof.
  intros E. assert (reorder ≡ₚ seq 0 (length bs)) as Hp by (subst; apply std_sort_perm).
  assert (StronglySorted (not_after (λ i j, in_service bs i && negb (in_service bs j))) reorder) as Hs
    by (subst; apply std_sort_sorted, in_service_weak).
  assert (∃ bs', mapM (λ i, bs !! i) reorder = Some bs') as [bs' Hm].
  { apply mapM_is_Some_2. apply Forall_forall. intros i. rewrite Hp, elem_of_seq. intros Hi.
    apply lookup_lt_is_Some_2. lia. }
  exists bs'. split; [done |]. apply mapM_Some_1 in Hm.
  pose proof (Forall2_length _ _ _ Hm) as Hl. apply Permutation_length in Hp. rewrite length_seq in Hp.
  split; [lia |]. split.
  - intros i k Hi. destruct (Forall2_lookup_l _ _ _ _ _ Hm Hi) as (b & Hb & Hx). by rewrite Hb, Hx.
  - clear -Hm Hs. induction Hm as [| i b reorder bs' Hb Hm IH]; [constructor |].
    inversion Hs as [| ? ? Hs' Hall]; subst. constructor; [by apply IH |].
    apply Forall_lookup. intros k b' Hb'. destruct (Forall2_lookup_r _ _ _ _ _ Hm Hb') as (j & Hj & Hx).
    rewrite Forall_lookup in Hall. specialize (Hall k j Hj). unfold not_after, in_service in Hall.
    rewrite Hx, Hb in Hall. destruct (InService b'), (InService b); done.
Qed.

(** [bs'] has the brokers of [bs] at the places [new] gives. *)
Definition moved_brokers (new : list nat) (bs bs' : list TBroker) : Prop :=
  length bs' = length bs ∧ ∀ i, (i < length bs)%nat → bs' !! moved new i = bs !! i.

Lemma moved_brokers_inv new bs bs' k b :
  renaming (length bs) new → moved_brokers new bs bs' → bs' !! k = Some b →
  ∃ i, (i < length bs)%nat ∧ moved new i = k ∧ bs !! i = Some b.
Proof.
  intros Hr [Hl Hm] Hk. pose proof (lookup_lt_Some _ _ _ Hk) as Hlt.
  destruct (moved_onto _ new k Hr ltac:(lia)) as (i & Hi & <-). exists i. split_and!; try done.
  by rewrite <- Hm.
Qed.

Lemma moved_brokers_ids new bs bs' :
  renaming (length bs) new → moved_brokers new bs bs' → NoDup (BrokerId <$> bs) →
  NoDup (BrokerId <$> bs') ∧ bs' ≡ₚ bs.
Proof.
  intros Hr Hm Hnd.
  assert (NoDup (BrokerId <$> bs')) as Hnd'.
  { apply NoDup_alt. intros i j id. rewrite !list_lookup_fmap.
    intros (b1 & H1 & ->)%fmap_Some (b2 & H2 & E)%fmap_Some.
    destruct (moved_brokers_inv _ _ _ _ _ Hr Hm H1) as (i' & _ & <- & H1').
    destruct (moved_brokers_inv _ _ _ _ _ Hr Hm H2) as (j' & _ & <- & H2'). f_equal.
    apply (NoDup_lookup _ i' j' (BrokerId b1) Hnd); rewrite list_lookup_fmap; [by rewrite H1' |].
    by rewrite H2', E. }
  split; [done |]. apply NoDup_Permutation; [by eapply NoDup_fmap_1 | by eapply NoDup_fmap_1 |].
  intros b. rewrite !list_elem_of_lookup. split.
  - intros [k Hk]. destruct (moved_brokers_inv _ _ _ _ _ Hr Hm Hk) as (i & _ & _ & Hi). by exists i.
  - intros [i Hi]. exists (moved new i). destruct Hm as [_ Hm]. rewrite Hm; [done |].
    by eapply lookup_lt_Some.
Qed.

Lemma moved_view new bs bs' l :
  moved_brokers new bs bs' → Forall (λ p, (BrokerIndex p < length bs)%nat) l →
  parts_view bs' (move_part new <$> l) = parts_view bs l.
Proof.
  intros [_ Hm] Hl. unfold parts_view. f_equal. rewrite <- list_fmap_compose. apply list_fmap_ext.
  intros i p Hp. unfold part_item, compose. cbn. rewrite Forall_lookup in Hl. by rewrite Hm by by eapply Hl.
Qed.

Lemma moved_topics_map vec new bs bs' ns ts ts' :
  moved_brokers new bs bs' → Forall (topic_ok (length bs) vec) ts → Forall2 (moved_topic new) ts ts' →
  topics_map bs' ns ts' = topics_map bs ns ts.
Proof.
  intros Hm Hts Hf. unfold topics_map. do 2 f_equal.
  induction Hf as [| t t' ts ts' Ht Hf IH]; [done |]. apply Forall_cons in Hts as [Hok Hts].
  cbn. f_equal; [| by apply IH]. rewrite (mt_all _ _ _ Ht). apply moved_view; [done |].
  rewrite (to_all _ _ _ Hok). apply Hok.
Qed.

Lemma moved_topics_ok vec new bs bs' ts ts' :
  renaming (length bs) new → moved_brokers new bs bs' → topics_ok bs vec ts →
  Forall2 (moved_topic new) ts ts' → topics_ok bs' vec ts'.
Proof.
  intros Hr Hm [Hts Hrg Hsv] Hf. split.
  - destruct Hm as [-> _]. clear -Hts Hf Hr. induction Hf as [| t t' ts ts' Ht Hf IH]; [constructor |].
    apply Forall_cons in Hts as [Hok Hts]. constructor; [by eapply moved_topic_ok | by apply IH].
  - rewrite <- Hrg. clear -Hf. induction Hf as [| t t' ts ts' Ht Hf IH]; [done |]. cbn.
    by rewrite (mt_ranges _ _ _ Ht), IH.
  - intros k b Hk. destruct (moved_brokers_inv _ _ _ _ _ Hr Hm Hk) as (i & Hi & <- & Hb).
    rewrite (Hsv i b Hb). unfold leads. split.
    + intros (t & p & [j Hj]%list_elem_of_lookup_1 & Hp & <-).
      destruct (Forall2_lookup_l _ _ _ _ _ Hf Hj) as (t' & Hj' & Ht).
      exists t', (move_part new p). split; [by eapply list_elem_of_lookup_2 |]. split; [| done].
      rewrite (mt_ok _ _ _ Ht). apply list_elem_of_fmap. by exists p.
    + intros (t' & q & [j Hj]%list_elem_of_lookup_1 & Hq & E).
      destruct (Forall2_lookup_r _ _ _ _ _ Hf Hj) as (t & Hj' & Ht).
      rewrite (mt_ok _ _ _ Ht) in Hq. apply list_elem_of_fmap in Hq as (p & -> & Hp).
      exists t, p. split; [by eapply list_elem_of_lookup_2 |]. split; [done |]. cbn in E.
      apply (moved_inj (length bs) new); try done. rewrite Forall_lookup in Hts.
      pose proof (to_index _ _ _ (Hts j t Hj')) as Hx. rewrite Forall_forall in Hx. apply Hx, elem_of_app. by left.
Qed.

Lemma view_topics_map m ns :
  names_ok (TopicNameToIndex m) ns → length ns = length (Topics m) →
  v_topics (metadata_view m) = topics_map (Brokers m) ns (Topics m).
Proof.
  intros Hn Hl. apply map_eq. intros name. cbn. rewrite lookup_omap.
  destruct (TopicNameToIndex m !! name) as [i |] eqn:E; cbn.
  - pose proof E as Hi. apply Hn in Hi. pose proof (lookup_lt_Some _ _ _ Hi) as Hlt.
    destruct (lookup_lt_is_Some_2 (Topics m) i) as [t Ht]; [lia |]. rewrite Ht. cbn.
    symmetry. apply elem_of_list_to_map.
    { rewrite fst_zip by (rewrite length_fmap; lia). by eapply names_NoDup. }
    apply (list_elem_of_lookup_2 _ i). apply lookup_zip_with_Some.
    eexists _, _. split; [reflexivity |]. split; [done |]. by rewrite list_lookup_fmap, Ht.
  - symmetry. apply topics_map_None; [done |]. by apply (names_None _ _ _ Hn).
Qed.

Section building_all.
Context `{!StdSort} `{!Shuffle} `{!HashOrder}.

Lemma GroupInServiceBrokers_ok vb vt b :
  adding_topics vb vt b →
  ∃ m, GroupInServiceBrokers b =
      (Ret (), mkBuilder AddingTopics (BrokerMap b) (CurrentTopicName b) (CurrentTopicIndex b)
        (CurrentTopicPartitions b) m (BCounters b)) ∧
    metadata_ok m ∧ metadata_view m = mkView vb vt ∧
    length (Topics m) = length (Topics (md b)) ∧ TopicNameToIndex m = TopicNameToIndex (md b).
Proof.
  intros [Hs Hb Hvb (ns & Hn & Hl & Hvt) Hts]. unfold GroupInServiceBrokers, MB.
  rewrite (bind_Ret _ _ b (md b) b) by done. cbv beta.
  set (reorder := std_sort _ _).
  destruct (reorder_spec (Brokers (md b)) reorder eq_refl) as (bs' & Hm & Hlen & Hat & Hsort).
  destruct (old_indexes_spec reorder (length (Brokers (md b)))) as [Hren Hnew]; [apply std_sort_perm |].
  set (new := old_indexes_to_new reorder) in *.
  assert (moved_brokers new (Brokers (md b)) bs') as Hmb.
  { split; [done |]. intros i Hi. apply Hat, Hnew. by eapply moved_lookup. }
  destruct (reindex_topics_ok (length (Brokers (md b))) new (TopicBrokerVec (md b)) (Topics (md b))
    (mkBuilder (BState b) (BrokerMap b) (CurrentTopicName b) (CurrentTopicIndex b)
      (CurrentTopicPartitions b) (mkMetadata bs' (count_in_service bs') (TopicBrokerVec (md b))
        (Topics (md b)) (TopicNameToIndex (md b))) (BCounters b)))
    as (ts' & Hr & Hmt); [done | apply Hts |].
  pose proof (Forall2_length _ _ _ Hmt) as Hlt.
  set (m := mkMetadata bs' (count_in_service bs') (TopicBrokerVec (md b)) ts' (TopicNameToIndex (md b))).
  exists m. split; [| split; [| split; [| split; [done | done]]]].
  - rewrite Hm. cbn [need]. do 2 (erewrite bind_Ret by reflexivity). unfold MB in Hr.
    rewrite (bind_Ret _ _ _ _ _ Hr). rewrite <- Hs. reflexivity.
  - apply brokers_ids_NoDup in Hb. split; cbn.
    + exists ns. split; [done | congruence].
    + by eapply moved_brokers_ids.
    + by eapply moved_topics_ok.
    + by apply grouped_sorted.
  - unfold metadata_view. f_equal.
    + cbn. rewrite <- Hvb. apply brokers_ids_NoDup in Hb.
      destruct (moved_brokers_ids _ _ _ Hren Hmb Hb) as [Hnd Hp].
      apply list_to_map_proper; [by rewrite <- list_fmap_compose | by rewrite Hp].
    + transitivity (topics_map bs' ns ts').
      * apply (view_topics_map m ns); [done |]. cbn. congruence.
      * rewrite <- Hvt. eapply moved_topics_map; [done | apply Hts | done].
Qed.

Lemma Build_ok vb vt b :
  adding_topics vb vt b →
  ∃ m b', Build b = (Ret m, b') ∧ metadata_ok m ∧ metadata_view m = mkView vb vt ∧
    b' = mkBuilder Initial ∅ "" 0 ∅ (mkMetadata [] 0 [] [] ∅) (BCounters b).
Proof.
  intros Ha. destruct (GroupInServiceBrokers_ok vb vt b Ha) as (m & Hr & Hok & Hv & _ & _).
  destruct Ha as [Hs Hb Hvb (ns & Hn & Hl & Hvt) Hts].
  exists m. eexists. split; [| split; [done | split; [done | reflexivity]]].
  unfold Build, MB in *. rewrite (bind_Ret _ _ b (BState b) b) by done. rewrite Hs.
  rewrite massert_bind by done. rewrite (bind_Ret _ _ _ _ _ (check_names_ok b ns Hn Hl)).
  rewrite (bind_Ret _ _ _ _ _ Hr). erewrite bind_Ret by reflexivity.
  rewrite massert_bind; [reflexivity |]. cbn.
  destruct (mo_grouped _ Hok) as (a & z & -> & _ & _ & ->). rewrite length_app. apply Nat.leb_le. lia.
Qed.

Lemma CloseBrokerList_ok v b :
  adding_brokers v b → ∃ b', CloseBrokerList b = (Ret (), b') ∧ adding_topics v ∅ b'.
Proof.
  intros (Hs & Hb & Hv & Hf & Hvec & Ht & Hn).
  exists (mkBuilder AddingTopics (BrokerMap b) (CurrentTopicName b) (CurrentTopicIndex b)
    (CurrentTopicPartitions b) (md b) (BCounters b)). split.
  - unfold CloseBrokerList, MB. rewrite (bind_Ret _ _ b () b); [done |]. by apply in_state_ok.
  - split; cbn; try done.
    + exists []. rewrite Hn, Ht. split; [| done]. intros n i. by rewrite lookup_empty.
    + rewrite Hvec, Ht. split; [constructor | done |]. intros i x Hi.
      rewrite Forall_lookup in Hf. rewrite (Hf i x Hi). unfold leads.
      split; [done | by intros (t & p & ?%elem_of_nil & _)].
Qed.

Lemma build_all_ok r :
  ∃ m b', build_all r TBuilder_new = (Ret m, b') ∧ metadata_ok m ∧ metadata_view m = response_view r ∧
    BState b' = Initial.
Proof.
  set (b0 := mkBuilder AddingBrokers ∅ "" 0 ∅ (mkMetadata [] 0 [] [] ∅) []).
  assert (adding_brokers ∅ b0) as Hb0 by (split_and!; try done; by constructor).
  destruct (AddBrokers_ok (mr_brokers r) ∅ b0 Hb0) as (b1 & Hr1 & Ha1).
  destruct (CloseBrokerList_ok _ b1 Ha1) as (b2 & Hr2 & Hb2).
  destruct (build_topics_ok _ (mr_topics r) ∅ b2 Hb2) as (b3 & Hr3 & Ha3).
  destruct (Build_ok _ _ b3 Ha3) as (m & b4 & Hr4 & Hok & Hv & Hb4).
  exists m, b4. split; [| split; [done | split; [exact Hv | by subst b4]]].
  unfold build_all, MB in *. rewrite (bind_Ret _ _ _ () b0) by done.
  rewrite (bind_Ret _ _ _ _ _ Hr1), (bind_Ret _ _ _ _ _ Hr2). by rewrite (bind_Ret _ _ _ _ _ Hr3).
Qed.
End building_all.

(** ** The sanity check accepts what the builder makes *)

Lemma ascending_sorted l : StronglySorted Z.lt l → ascending l = true.
Proof.
  induction 1 as [| x l Hs IH Hx]; [done |]. destruct l as [| y l]; [done |].
  apply Forall_cons in Hx as [Hxy _]. change (negb (y <=? x) && ascending (y :: l) = true).
  rewrite IH, andb_true_r. lia.
Qed.

Lemma lower_bound_found l p :
  StronglySorted (λ x y, PartId x < PartId y) l → p ∈ l → lower_bound_id l p = Some p.
Proof.
  intros Hs. unfold lower_bound_id. induction Hs as [| x l Hs IH Hx]; [by intros ?%elem_of_nil |].
  cbn. intros [-> | Hp]%elem_of_cons.
  - by rewrite Z.ltb_irrefl.
  - rewrite Forall_forall in Hx. specialize (Hx p Hp). apply Z.ltb_lt in Hx. rewrite Hx. by apply IH.
Qed.

Lemma check_item_ok m vec t p :
  topic_ok (length (Brokers m)) vec t → p ∈ OkPartitions t ++ OutOfServicePartitions t →
  check_item m t p = true.
Proof.
  intros Ht Hp. unfold check_item. pose proof (to_index _ _ _ Ht) as Hi. rewrite Forall_forall in Hi.
  rewrite (proj2 (Nat.ltb_lt _ _) (Hi p Hp)). cbn.
  rewrite (lower_bound_found (AllPartitions t) p); [| apply Ht | by rewrite (to_all _ _ _ Ht)].
  by rewrite !Z.eqb_refl, Nat.eqb_refl.
Qed.

Lemma OkPartitions_loop_ok m t l ids bpm in_svc :
  Forall (λ p, check_item m t p = true) l →
  ∃ bpm', OkPartitions_loop m t l ids bpm in_svc =
      Some (list_to_set (PartId <$> l) ∪ ids, bpm', list_to_set (BrokerIndex <$> l) ∪ in_svc) ∧
    (∀ i, is_Some (bpm' !! i) ↔ is_Some (bpm !! i) ∨ i ∈ BrokerIndex <$> l) ∧
    (∀ i, default ∅ (bpm' !! i) = list_to_set (PartId <$> on_broker i l) ∪ default ∅ (bpm !! i)).
Proof.
  intros Hl. revert ids bpm in_svc. induction Hl as [| p l Hp Hl IH]; intros ids bpm in_svc.
  - exists bpm. cbn. rewrite !union_empty_l_L. split; [done |]. split; [| intros; by rewrite union_empty_l_L].
    intros i. split; [by left |]. intros [H | H%elem_of_nil]; done.
  - cbn [OkPartitions_loop]. rewrite Hp. edestruct IH as (bpm' & Hr & Hd & Hx). exists bpm'. rewrite Hr.
    split; [do 2 f_equal; [f_equal |]; cbn; set_solver |]. split.
    + intros i. rewrite Hd, lookup_insert_is_Some'. rewrite fmap_cons, elem_of_cons. naive_solver.
    + intros i. rewrite Hx. unfold on_broker. rewrite filter_cons.
      destruct (decide (BrokerIndex p = i)) as [<- | E].
      * rewrite lookup_insert_eq. cbn. set_solver.
      * by rewrite lookup_insert_ne.
Qed.

Definition bump (access l : list nat) : list nat := foldl (λ a k, alter S k a) access l.

Lemma bump_lookup access l k :
  bump access l !! k = (λ v, (v + length (filter (λ x, x = k) l))%nat) <$> access !! k.
Proof.
  revert access. induction l as [| x l IH]; intros access.
  - cbn. destruct (access !! k); [| done]. cbn. f_equal. lia.
  - change (bump access (x :: l)) with (bump (alter S x access) l). rewrite IH, filter_cons. destruct (decide (x = k)) as [-> | E].
    + rewrite list_lookup_alter_eq. destruct (access !! k); [| done]. cbn. f_equal. lia.
    + by rewrite list_lookup_alter_ne.
Qed.

Lemma bump_all n l : l ≡ₚ seq 0 n → bump (replicate n O) l = replicate n 1%nat.
Proof.
  intros Hp. apply list_eq. intros k. rewrite bump_lookup.
  destruct (decide (k < n)%nat) as [Hk | Hk].
  - rewrite !lookup_replicate_2 by done. cbn. f_equal. rewrite Hp.
    assert (k ∈ seq 0 n) as (a & z & E)%list_elem_of_split by (apply elem_of_seq; lia).
    pose proof (NoDup_seq 0 n) as Hnd. rewrite E in Hnd |- *.
    apply NoDup_app in Hnd as (_ & Ha & [Hz _]%NoDup_cons).
    assert (∀ l : list nat, k ∉ l → filter (λ x, x = k) l = []) as Hnone
      by (intros l' Hl'; apply filter_none; by intros x Hx ->).
    rewrite filter_app, filter_cons, decide_True, !Hnone; try done.
    intros Hx. apply (Ha k Hx). left.
  - by rewrite !lookup_ge_None_2 by (rewrite length_replicate; lia).
Qed.

Lemma BrokerPartitionMap_ok m t items access :
  (∀ i ids, (i, ids) ∈ items → is_Some (PartitionChoiceMap t !! i) ∧
    ids = list_to_set (PartId <$> on_broker i (OkPartitions t))) →
  topic_ok (length (Brokers m)) (TopicBrokerVec m) t →
  ∃ cs, cs.*1 = items.*1 ∧ (∀ x, x ∈ cs → PartitionChoiceMap t !! x.1 = Some x.2) ∧
    SanityCheckBrokerPartitionMap m t items access =
      Some (bump access (concat ((λ x : nat * TPartitionChoices, seq (TopicBrokerVecIndex x.2)
        (TopicBrokerVecNumItems x.2)) <$> cs))).
Proof.
  intros Hit Ht. revert access. induction items as [| [i ids] items IH]; intros access.
  - exists []. split; [done |]. split; [by intros x ?%elem_of_nil | done].
  - destruct (Hit i ids) as [[c Hc] ->]; [left |].
    destruct (to_choices _ _ _ Ht i c Hc) as [Hr Hp Hids Hs].
    edestruct IH as (cs & Hk & Hcs & Hrun); [intros; apply Hit; by right |].
    exists ((i, c) :: cs). split; [cbn; by rewrite Hk |]. split.
    { intros x [-> | Hx]%elem_of_cons; [done | by apply Hcs]. }
    cbn [SanityCheckBrokerPartitionMap]. rewrite Hc. cbn [mbind option_bind].
    rewrite (proj2 (Nat.leb_gt _ _)) by lia. rewrite (proj2 (Nat.ltb_ge _ _)) by lia.
    fold (chunk (TopicBrokerVec m) c). rewrite bool_decide_true by by rewrite Hids.
    rewrite ascending_sorted by done. cbn [negb]. rewrite Hrun. f_equal. cbn. unfold bump.
    by rewrite foldl_app.
Qed.

Section sane.
Context `{!HashOrder}.

Lemma choices_are_ranges (choices : gmap nat TPartitionChoices) cs :
  NoDup cs.*1 → (∀ x, x ∈ cs → choices !! x.1 = Some x.2) → (∀ i, is_Some (choices !! i) → i ∈ cs.*1) →
  concat ((λ x : nat * TPartitionChoices, seq (TopicBrokerVecIndex x.2) (TopicBrokerVecNumItems x.2)) <$> cs)
    ≡ₚ ranges choices.
Proof.
  intros Hnd Hcs Hall. unfold ranges. f_equiv. f_equiv. apply NoDup_Permutation.
  - by eapply NoDup_fmap_1.
  - apply NoDup_map_to_list.
  - intros [i c]. rewrite elem_of_map_to_list. split; [apply Hcs |]. intros Hc.
    assert (i ∈ cs.*1) as ([i' c'] & E & Hx)%list_elem_of_fmap by (apply Hall; eauto). cbn in E. subst i'.
    pose proof (Hcs _ Hx) as Hy. cbn in Hy. by simplify_eq.
Qed.

Lemma SanityCheckOneTopic_ok m t in_svc access :
  topic_ok (length (Brokers m)) (TopicBrokerVec m) t →
  ∃ L, L ≡ₚ ranges (PartitionChoiceMap t) ∧
    SanityCheckOneTopic m t in_svc access =
      Some (list_to_set (BrokerIndex <$> OkPartitions t) ∪ in_svc, bump access L).
Proof.
  intros Ht. pose proof (to_ids _ _ _ Ht) as Hids. rewrite fmap_app in Hids.
  apply NoDup_app in Hids as (Hn1 & Hdis & Hn2).
  unfold SanityCheckOneTopic. rewrite (Permutation_length (to_all _ _ _ Ht)), length_app, Nat.eqb_refl.
  rewrite (ascending_sorted (PartId <$> _)) by (apply (sorted_fmap Z.lt PartId), Ht). cbn [negb].
  unfold SanityCheckOkPartitions, SanityCheckOutOfServicePartitions.
  destruct (OkPartitions_loop_ok m t (OkPartitions t) ∅ ∅ in_svc) as (bpm & -> & Hd & Hx).
  { apply Forall_forall. intros p Hp. eapply check_item_ok; [done |]. apply elem_of_app. by left. }
  cbn [mbind option_bind]. rewrite union_empty_r_L, size_list_to_set, length_fmap, Nat.eqb_refl by done.
  cbn [mbind option_bind].
  assert (forallb (check_item m t) (OutOfServicePartitions t) = true) as ->.
  { apply forallb_forall. intros p Hp%list_elem_of_In. eapply check_item_ok; [done |].
    apply elem_of_app. by right. }
  rewrite size_list_to_set, length_fmap, Nat.eqb_refl by done. cbn [mbind option_bind].
  rewrite bool_decide_true by set_solver. cbn [negb].
  assert (∀ i, is_Some (bpm !! i) ↔ is_Some (PartitionChoiceMap t !! i)) as Hdom.
  { intros i. rewrite Hd, lookup_empty. split.
    - intros [[] | (p & -> & Hp)%list_elem_of_fmap]; [done |].
      destruct (PartitionChoiceMap t !! BrokerIndex p) eqn:E; [by eexists |].
      apply (to_no_choice _ _ _ Ht) in E.
      assert (p ∈ on_broker (BrokerIndex p) (OkPartitions t)) as Hin by by apply on_broker_elem.
      rewrite E in Hin. by apply elem_of_nil in Hin.
    - intros [c Hc]. right. destruct (choice_index _ _ _ i c Ht Hc) as [_ (p & Hp & <-)].
      apply list_elem_of_fmap. by exists p. }
  assert (size bpm = size (PartitionChoiceMap t)) as ->.
  { rewrite <- !size_dom. f_equal. apply set_eq. intros i. by rewrite !elem_of_dom. }
  rewrite Nat.eqb_refl. cbn [negb].
  destruct (BrokerPartitionMap_ok m t (hash_order bpm) access) as (cs & Hk & Hcs & ->); [| done |].
  - intros i ids Hi%elem_of_hash_order. split; [apply Hdom; by eexists |].
    specialize (Hx i). rewrite Hi, lookup_empty in Hx. cbn in Hx. by rewrite union_empty_r_L in Hx.
  - eexists. split; [| reflexivity]. apply choices_are_ranges; [| done |].
    + rewrite Hk. apply hash_order_keys.
    + intros i [ids Hi]%Hdom. rewrite Hk. apply list_elem_of_fmap. exists (i, ids).
      split; [done |]. by apply elem_of_hash_order.
Qed.

Lemma SanityCheckTopics_loop_ok m ts in_svc access :
  Forall (topic_ok (length (Brokers m)) (TopicBrokerVec m)) ts →
  ∃ L svc, L ≡ₚ concat ((λ t, ranges (PartitionChoiceMap t)) <$> ts) ∧
    (∀ i, i ∈ svc ↔ i ∈ in_svc ∨ leads ts i) ∧
    SanityCheckTopics_loop m ts in_svc access = Some (svc, bump access L).
Proof.
  intros Hts. revert in_svc access. induction Hts as [| t ts Ht Hts IH]; intros in_svc access.
  - exists [], in_svc. split; [done |]. split; [| done]. intros i. split; [by left |].
    intros [Hx | (t & p & Hx%elem_of_nil & _)]; done.
  - destruct (SanityCheckOneTopic_ok m t in_svc access Ht) as (L1 & HL1 & Hr1).
    destruct (IH (list_to_set (BrokerIndex <$> OkPartitions t) ∪ in_svc) (bump access L1))
      as (L2 & svc & HL2 & Hsvc & Hr2). exists (L1 ++ L2), svc.
    split; [cbn; by rewrite HL1, HL2 |]. split.
    + intros i. rewrite Hsvc, elem_of_union, elem_of_list_to_set, list_elem_of_fmap. unfold leads.
      setoid_rewrite elem_of_cons. naive_solver.
    + cbn [SanityCheckTopics_loop]. rewrite Hr1. cbn [mbind option_bind]. rewrite Hr2.
      unfold bump. by rewrite foldl_app.
Qed.

Lemma SanityCheckTopics_ok m :
  metadata_ok m → ∃ svc, SanityCheckTopics m = Some svc ∧ ∀ i, i ∈ svc ↔ leads (Topics m) i.
Proof.
  intros [(ns & Hn & Hl) _ [Hts Hrg _] _]. unfold SanityCheckTopics.
  assert (Forall (λ i, (i < length (Topics m))%nat) (hash_order (TopicNameToIndex m)).*2) as Hlt.
  { apply Forall_fmap, Forall_forall. intros [n i] Hi%elem_of_hash_order%Hn. apply lookup_lt_Some in Hi.
    cbn. lia. }
  assert (forallb (λ i, i <? length (Topics m))%nat (hash_order (TopicNameToIndex m)).*2 = true) as ->.
  { apply forallb_forall. intros i Hi%list_elem_of_In. rewrite Forall_forall in Hlt.
    by apply Nat.ltb_lt, Hlt. }
  cbn [negb]. rewrite size_list_to_set, length_fmap.
  2:{ apply NoDup_fmap_2_strong.
      - intros [n i] [n' i'] Hi%elem_of_hash_order%Hn Hj%elem_of_hash_order%Hn. cbn. intros <-. congruence.
      - eapply NoDup_fmap_1, hash_order_keys. }
  rewrite (Permutation_length (hash_order_perm _)), length_map_to_list, (names_size _ ns Hn), Hl, Nat.eqb_refl.
  cbn [negb].
  destruct (SanityCheckTopics_loop_ok m (Topics m) ∅ (replicate (length (TopicBrokerVec m)) O) Hts)
    as (L & svc & HL & Hsvc & ->).
  cbn [mbind option_bind]. rewrite bump_all by (by rewrite HL, Hrg).
  assert (forallb (λ v, v =? 1)%nat (replicate (length (TopicBrokerVec m)) 1%nat) = true) as ->.
  { apply forallb_forall. intros v Hv%list_elem_of_In%elem_of_replicate_inv. by subst. }
  exists svc. split; [done |]. intros i. rewrite Hsvc. set_solver.
Qed.

Lemma SanityCheck_brokers_ok svc i l fo n adj :
  (∀ k b, l !! k = Some b → InService b = true ↔ (i + k)%nat ∈ svc) →
  ∃ adj', SanityCheck_brokers svc i l fo n adj =
    Some ((n + length (filter (λ b, InService b = true) l))%nat, adj').
Proof.
  revert i fo n adj. induction l as [| b l IH]; intros i fo n adj Hs.
  - exists adj. cbn. do 2 f_equal. lia.
  - cbn [SanityCheck_brokers].
    assert (InService b = true ↔ i ∈ svc) as Hb by (rewrite <- (Nat.add_0_r i) at 1; by apply Hs).
    assert (∀ k b', l !! k = Some b' → InService b' = true ↔ (S i + k)%nat ∈ svc) as Hs'.
    { intros k b' Hk. replace (S i + k)%nat with (i + S k)%nat by lia. by apply Hs. }
    rewrite filter_cons. destruct (InService b).
    + rewrite bool_decide_true by by apply Hb. cbn [eqb].
      destruct (IH (S i) fo (S n) (if fo then adj else S adj) Hs') as [adj' ->].
      exists adj'. rewrite decide_True by done. do 2 f_equal. cbn. lia.
    + rewrite bool_decide_false by (by intros ?%Hb). cbn [eqb].
      destruct (IH (S i) true n adj Hs') as [adj' ->]. exists adj'. by rewrite decide_False.
Qed.

Lemma Metadata_SanityCheck_ok m : metadata_ok m → SanityCheck m = (true, MetadataSanityCheckSuccess).
Proof.
  intros Hm. unfold SanityCheck, DoSanityCheck. destruct (SanityCheckTopics_ok m Hm) as (svc & -> & Hsvc).
  destruct Hm as [_ _ [_ _ Hsv] (a & z & Hb & Ha & Hz & Hc)].
  destruct (SanityCheck_brokers_ok svc 0 (Brokers m) false 0 0) as [adj ->].
  { intros k b Hk. cbn. by rewrite Hsvc, (Hsv k b Hk). }
  replace (filter (λ b, InService b = true) (Brokers m)) with a; [by rewrite Hc, Nat.eqb_refl |].
  rewrite Forall_forall in Ha, Hz. rewrite Hb, filter_app, filter_all, filter_none, app_nil_r; try done.
  intros x Hx. by rewrite (Hz x Hx).
Qed.
End sane.

(** ** What metadata says, by its view *)

Definition can_send_item (x : Z * (Z * Z)) : Prop := CanSendToPartition x.2.2 = true.

#[global] Instance can_send_item_dec x : Decision (can_send_item x).
Proof. unfold can_send_item. apply _. Defined.

Lemma parts_view_items bs l :
  NoDup (PartId <$> l) → map_to_list (parts_view bs l) ≡ₚ part_item bs <$> l.
Proof. intros Hnd. apply map_to_list_to_map. by rewrite <- list_fmap_compose. Qed.

Lemma topic_items bs nb vec t :
  topic_ok nb vec t →
  filter can_send_item (map_to_list (parts_view bs (AllPartitions t))) ≡ₚ part_item bs <$> OkPartitions t ∧
  filter (λ x, ¬ can_send_item x) (map_to_list (parts_view bs (AllPartitions t))) ≡ₚ
    part_item bs <$> OutOfServicePartitions t.
Proof.
  intros Ht.
  assert (map_to_list (parts_view bs (AllPartitions t)) ≡ₚ
    (part_item bs <$> OkPartitions t) ++ (part_item bs <$> OutOfServicePartitions t)) as ->.
  { rewrite parts_view_items by (rewrite (to_all _ _ _ Ht); apply Ht).
    by rewrite (to_all _ _ _ Ht), fmap_app. }
  assert (Forall can_send_item (part_item bs <$> OkPartitions t)) as Hok by (apply Forall_fmap, Ht).
  assert (Forall (λ x, ¬ can_send_item x) (part_item bs <$> OutOfServicePartitions t)) as Hout.
  { apply Forall_fmap. eapply Forall_impl; [apply (to_out _ _ _ Ht) |]. intros p Hp. cbn.
    unfold can_send_item. cbn. by rewrite Hp. }
  rewrite Forall_forall in Hok, Hout. rewrite !filter_app.
  rewrite (filter_all can_send_item), (filter_none can_send_item), (filter_none (λ x, ¬ can_send_item x)),
    (filter_all (λ x, ¬ can_send_item x)); try done; [by rewrite app_nil_r |].
  intros x Hx Hn. by apply Hn, Hok.
Qed.

Lemma parts_view_lookup bs nb vec t id leader err :
  topic_ok nb vec t →
  parts_view bs (AllPartitions t) !! id = Some (leader, err) ↔
  ∃ p, p ∈ OkPartitions t ++ OutOfServicePartitions t ∧ part_item bs p = (id, (leader, err)).
Proof.
  intros Ht. rewrite <- elem_of_map_to_list.
  rewrite parts_view_items by (rewrite (to_all _ _ _ Ht); apply Ht).
  rewrite (to_all _ _ _ Ht), list_elem_of_fmap. naive_solver.
Qed.

Lemma ok_view_lookup bs nb vec t id leader err :
  topic_ok nb vec t →
  parts_view bs (AllPartitions t) !! id = Some (leader, err) ∧ CanSendToPartition err = true ↔
  ∃ p, p ∈ OkPartitions t ∧ part_item bs p = (id, (leader, err)).
Proof.
  intros Ht. destruct (topic_items bs _ _ _ Ht) as [Hok _].
  transitivity ((id, (leader, err)) ∈ part_item bs <$> OkPartitions t).
  - rewrite <- Hok, list_elem_of_filter, elem_of_map_to_list. unfold can_send_item. naive_solver.
  - rewrite list_elem_of_fmap. naive_solver.
Qed.

Lemma view_topic_lookup m name vp :
  metadata_ok m → v_topics (metadata_view m) !! name = Some vp →
  ∃ i t, TopicNameToIndex m !! name = Some i ∧ Topics m !! i = Some t ∧
    vp = parts_view (Brokers m) (AllPartitions t) ∧ topic_ok (length (Brokers m)) (TopicBrokerVec m) t.
Proof.
  intros Hm Hv. cbn in Hv. rewrite lookup_omap in Hv.
  destruct (TopicNameToIndex m !! name) as [i |] eqn:E; [| done]. cbn in Hv.
  apply fmap_Some in Hv as (t & Ht & ->). exists i, t. split_and!; try done.
  destruct (mo_topics _ Hm) as [Hts _ _]. rewrite Forall_lookup in Hts. by eapply Hts.
Qed.

Lemma topic_in_view m t :
  metadata_ok m → t ∈ Topics m →
  ∃ name, v_topics (metadata_view m) !! name = Some (parts_view (Brokers m) (AllPartitions t)).
Proof.
  intros Hm [i Hi]%list_elem_of_lookup_1. destruct (mo_names _ Hm) as (ns & Hn & Hl).
  pose proof (lookup_lt_Some _ _ _ Hi) as Hlt. destruct (lookup_lt_is_Some_2 ns i) as [name Hname]; [lia |].
  exists name. cbn. rewrite lookup_omap. apply Hn in Hname. rewrite Hname. cbn. by rewrite Hi.
Qed.

Lemma part_item_leader m i b p :
  metadata_ok m → Brokers m !! i = Some b → (BrokerIndex p < length (Brokers m))%nat →
  (part_item (Brokers m) p).2.1 = BrokerId b ↔ BrokerIndex p = i.
Proof.
  intros Hm Hb Hp. apply lookup_lt_is_Some_2 in Hp as [b' Hb']. cbn. rewrite Hb'. cbn. split.
  - intros E. apply (NoDup_lookup _ _ _ (BrokerId b) (mo_ids _ Hm)); rewrite list_lookup_fmap.
    + by rewrite Hb', <- E.
    + by rewrite Hb.
  - intros E. rewrite E in Hb'. congruence.
Qed.

Lemma ok_partition_index nb vec t p : topic_ok nb vec t → p ∈ OkPartitions t → (BrokerIndex p < nb)%nat.
Proof.
  intros Ht Hp. pose proof (to_index _ _ _ Ht) as Hi. rewrite Forall_forall in Hi.
  apply Hi, elem_of_app. by left.
Qed.

(** A broker is in service when it leads a partition that takes messages. *)
Definition leads_in_view (v : md_view) (id : Z) : Prop :=
  ∃ name vp pid err, v_topics v !! name = Some vp ∧ vp !! pid = Some (id, err) ∧
    CanSendToPartition err = true.

Lemma in_service_view m i b :
  metadata_ok m → Brokers m !! i = Some b →
  InService b = true ↔ leads_in_view (metadata_view m) (BrokerId b).
Proof.
  intros Hm Hb. destruct (mo_topics _ Hm) as [Hts _ Hsv]. rewrite (Hsv i b Hb).
  rewrite Forall_forall in Hts. split.
  - intros (t & p & Ht & Hp & Hi). destruct (topic_in_view m t Hm Ht) as [name Hname].
    exists name, (parts_view (Brokers m) (AllPartitions t)), (PartId p), (ErrorCode p).
    split; [done |]. apply (ok_view_lookup _ _ _ _ _ _ _ (Hts t Ht)). exists p. split; [done |].
    unfold part_item. by rewrite Hi, Hb.
  - intros (name & vp & pid & err & Hname & Hpid & Herr).
    destruct (view_topic_lookup m name vp Hm Hname) as (k & t & _ & Hk & -> & Ht).
    destruct (proj1 (ok_view_lookup _ _ _ _ _ _ _ Ht) (conj Hpid Herr)) as (p & Hp & E).
    exists t, p. split; [by eapply list_elem_of_lookup_2 |]. split; [done |].
    apply (part_item_leader m i b p Hm Hb); [by eapply ok_partition_index | by rewrite E].
Qed.

(** ** Finding the choices of a topic and a broker *)

Lemma FindTopicIndex_ok m name :
  metadata_ok m →
  FindTopicIndex name m = Ret (match TopicNameToIndex m !! name with Some i => Z.of_nat i | None => -1 end).
Proof.
  intros Hm. unfold FindTopicIndex. destruct (mo_names _ Hm) as (ns & Hn & Hl).
  destruct (TopicNameToIndex m !! name) as [i |] eqn:E; [| done].
  apply Hn, lookup_lt_Some in E. by rewrite (proj2 (Nat.ltb_lt _ _)) by lia.
Qed.

Lemma FindPartitionChoices_ok m name k t i :
  metadata_ok m → TopicNameToIndex m !! name = Some k → Topics m !! k = Some t →
  (i < length (Brokers m))%nat →
  ∃ l, FindPartitionChoices name i m = Ret (match l with [] => None | _ :: _ => Some l end) ∧
    StronglySorted Z.lt l ∧ l ≡ₚ PartId <$> on_broker i (OkPartitions t).
Proof.
  intros Hm Hk Ht Hi. destruct (mo_topics _ Hm) as [Hts _ _]. rewrite Forall_lookup in Hts.
  specialize (Hts k t Ht). unfold FindPartitionChoices. rewrite (FindTopicIndex_ok m name Hm), Hk.
  rewrite (proj2 (Z.ltb_ge _ _)) by lia. rewrite Nat2Z.id, Ht, (proj2 (Nat.leb_gt _ _)) by lia.
  destruct (PartitionChoiceMap t !! i) as [c |] eqn:Ec.
  - destruct (to_choices _ _ _ Hts i c Ec) as [Hr Hp Hids Hs]. exists (chunk (TopicBrokerVec m) c).
    split; [| done]. rewrite (proj2 (Nat.leb_gt _ _)) by lia. rewrite (proj2 (Nat.ltb_ge _ _)) by lia.
    rewrite (proj2 (Nat.eqb_neq _ _)) by lia. fold (chunk (TopicBrokerVec m) c).
    destruct (chunk (TopicBrokerVec m) c) eqn:E; [| done].
    apply (f_equal length) in E. unfold chunk in E. rewrite length_take, length_drop in E. cbn in E. lia.
  - apply (to_no_choice _ _ _ Hts) in Ec. exists []. rewrite Ec. split; [done |]. split; [constructor | done].
Qed.

(** ** Comparison *)

Lemma same_parts bs1 bs2 n1 n2 v1 v2 t1 t2 :
  topic_ok n1 v1 t1 → topic_ok n2 v2 t2 →
  parts_view bs1 (AllPartitions t1) = parts_view bs2 (AllPartitions t2) ↔
  part_item bs1 <$> OkPartitions t1 ≡ₚ part_item bs2 <$> OkPartitions t2 ∧
  part_item bs1 <$> OutOfServicePartitions t1 ≡ₚ part_item bs2 <$> OutOfServicePartitions t2.
Proof.
  intros Ht1 Ht2. destruct (topic_items bs1 _ _ _ Ht1) as [Ho1 Hb1].
  destruct (topic_items bs2 _ _ _ Ht2) as [Ho2 Hb2]. split.
  - intros E. by rewrite <- Ho1, <- Ho2, <- Hb1, <- Hb2, E.
  - intros [Hok Hout].
    assert (NoDup (PartId <$> AllPartitions t1)) as Hn1 by (rewrite (to_all _ _ _ Ht1); apply Ht1).
    unfold parts_view. apply list_to_map_proper.
    { by rewrite <- list_fmap_compose. }
    by rewrite (to_all _ _ _ Ht1), (to_all _ _ _ Ht2), !fmap_app, Hok, Hout.
Qed.

Lemma subset_same_length {A} (l k : list A) :
  NoDup l → NoDup k → length l = length k → k ⊆ l ↔ l ≡ₚ k.
Proof.
  intros Hl Hk Hlen. split.
  - intros Hs. symmetry. apply submseteq_length_Permutation; [| lia]. by apply NoDup_submseteq.
  - intros Hp x Hx. by rewrite Hp.
Qed.

Definition flat (x : Z * (Z * Z)) : Z * Z * Z := (x.1, x.2.1, x.2.2).

#[global] Instance flat_inj : Inj (=) (=) flat.
Proof. intros [a [b c]] [a' [b' c']] E. unfold flat in E. by simplify_eq/=. Qed.

Lemma t_parts m l :
  Forall (λ p, (BrokerIndex p < length (Brokers m))%nat) l →
  mapM (t_part m) l = Some (flat <$> (part_item (Brokers m) <$> l)).
Proof.
  intros Hl. apply mapM_Some_2. induction Hl as [| p l Hp Hl IH]; cbn; constructor; [| done].
  unfold t_part, part_item. apply lookup_lt_is_Some_2 in Hp as [b Hb]. by rewrite Hb.
Qed.

Lemma part_items_NoDup bs l : NoDup (PartId <$> l) → NoDup (part_item bs <$> l).
Proof.
  intros Hnd. apply (NoDup_fmap_1 fst). by rewrite <- list_fmap_compose.
Qed.

Lemma parts_subset_ok this that l k :
  Forall (λ p, (BrokerIndex p < length (Brokers this))%nat) l →
  Forall (λ p, (BrokerIndex p < length (Brokers that))%nat) k →
  NoDup (PartId <$> l) → NoDup (PartId <$> k) → length l = length k →
  parts_subset this that l k =
    Some (bool_decide (part_item (Brokers this) <$> l ≡ₚ part_item (Brokers that) <$> k)).
Proof.
  intros Hl Hk Hnl Hnk Hlen. unfold parts_subset. rewrite !t_parts by done. cbn [mbind option_bind].
  rewrite bool_decide_true by (by apply (NoDup_fmap_2 flat), part_items_NoDup). f_equal. apply Bool.eq_iff_eq_true.
  rewrite bool_decide_eq_true, <- subset_same_length
    by (rewrite ?length_fmap; auto using part_items_NoDup).
  rewrite forallb_forall. setoid_rewrite <- list_elem_of_In. split.
  - intros Hall x Hx. specialize (Hall (flat x)). rewrite bool_decide_eq_true in Hall.
    by apply (list_elem_of_fmap_inj flat), Hall, list_elem_of_fmap_2.
  - intros Hs x (y & -> & Hy)%list_elem_of_fmap. apply bool_decide_eq_true, list_elem_of_fmap_2, Hs, Hy.
Qed.

Lemma SingleTopicCompare_ok this that t1 t2 v1 v2 :
  topic_ok (length (Brokers this)) v1 t1 → topic_ok (length (Brokers that)) v2 t2 →
  SingleTopicCompare this that t1 t2 =
    Some (bool_decide (parts_view (Brokers this) (AllPartitions t1) =
                       parts_view (Brokers that) (AllPartitions t2))).
Proof.
  intros Ht1 Ht2. pose proof (same_parts (Brokers this) (Brokers that) _ _ _ _ _ _ Ht1 Ht2) as Hsame.
  pose proof (to_index _ _ _ Ht1) as [Hi1 Hj1]%Forall_app. pose proof (to_index _ _ _ Ht2) as [Hi2 Hj2]%Forall_app.
  pose proof (to_ids _ _ _ Ht1) as Hn1. pose proof (to_ids _ _ _ Ht2) as Hn2. rewrite fmap_app in Hn1, Hn2.
  apply NoDup_app in Hn1 as (Hn1 & _ & Hm1). apply NoDup_app in Hn2 as (Hn2 & _ & Hm2).
  unfold SingleTopicCompare.
  destruct (Nat.eqb_spec (length (OkPartitions t1)) (length (OkPartitions t2))) as [E1 | E1]; cbn [negb orb].
  2:{ rewrite bool_decide_false; [done |]. intros [Hp%Permutation_length _]%Hsame.
      by rewrite !length_fmap in Hp. }
  destruct (Nat.eqb_spec (length (OutOfServicePartitions t1)) (length (OutOfServicePartitions t2)))
    as [E2 | E2]; cbn [negb].
  2:{ rewrite bool_decide_false; [done |]. intros [_ Hp%Permutation_length]%Hsame.
      by rewrite !length_fmap in Hp. }
  rewrite !parts_subset_ok by done. cbn [mbind option_bind]. case_bool_decide as Hok; cbn [negb].
  - f_equal. apply bool_decide_ext. rewrite Hsame. naive_solver.
  - rewrite bool_decide_false; [done |]. by intros [? _]%Hsame.
Qed.

Lemma CompareTopics_loop_ok this that items :
  metadata_ok this → metadata_ok that →
  (∀ name i, (name, i) ∈ items → TopicNameToIndex this !! name = Some i) →
  CompareTopics_loop this that items =
    Some (forallb (λ x : string * nat, bool_decide
      (v_topics (metadata_view that) !! x.1 = v_topics (metadata_view this) !! x.1)) items).
Proof.
  intros H1 H2. induction items as [| [name i] items IH]; intros Hit; [done |].
  assert (TopicNameToIndex this !! name = Some i) as Hi by (apply Hit; left).
  destruct (mo_names _ H1) as (ns & Hns & Hls). pose proof Hi as Hni. apply Hns, lookup_lt_Some in Hni.
  destruct (lookup_lt_is_Some_2 (Topics this) i) as [t1 Ht1]; [lia |].
  assert (v_topics (metadata_view this) !! name = Some (parts_view (Brokers this) (AllPartitions t1))) as Hv1.
  { cbn. rewrite lookup_omap, Hi. cbn. by rewrite Ht1. }
  destruct (view_topic_lookup this name _ H1 Hv1) as (? & ? & Hi' & Ht1' & _ & Hok1). simplify_eq.
  cbn [CompareTopics_loop forallb fst]. rewrite Hv1.
  destruct (TopicNameToIndex that !! name) as [j |] eqn:Ej.
  - destruct (mo_names _ H2) as (ms & Hms & Hlm). pose proof Ej as Hnj. apply Hms, lookup_lt_Some in Hnj.
    destruct (lookup_lt_is_Some_2 (Topics that) j) as [t2 Ht2]; [lia |].
    assert (v_topics (metadata_view that) !! name = Some (parts_view (Brokers that) (AllPartitions t2))) as Hv2.
    { cbn. rewrite lookup_omap, Ej. cbn. by rewrite Ht2. }
    destruct (view_topic_lookup that name _ H2 Hv2) as (? & ? & Hj' & Ht2' & _ & Hok2). simplify_eq.
    rewrite Ht1, Ht2. cbn [mbind option_bind]. rewrite (SingleTopicCompare_ok _ _ _ _ _ _ Hok1 Hok2).
    cbn [mbind option_bind]. rewrite Hv2. case_bool_decide as E.
    + rewrite bool_decide_true by by rewrite E. cbn [andb]. apply IH. intros n k Hx. apply Hit. by right.
    + rewrite bool_decide_false; [done |]. intros E'. apply E. by simplify_eq.
  - rewrite bool_decide_false; [done |]. cbn. by rewrite lookup_omap, Ej.
Qed.

Lemma length_concat_ext {A B C} (f : A → list B) (g : A → list C) l :
  (∀ x, x ∈ l → length (f x) = length (g x)) → length (concat (f <$> l)) = length (concat (g <$> l)).
Proof.
  induction l as [| x l IH]; intros Hl; [done |]. cbn. rewrite !length_app, (Hl x) by left. f_equal.
  apply IH. intros y Hy. apply Hl. by right.
Qed.

Lemma by_broker_all nb vec t :
  topic_ok nb vec t →
  concat ((λ x : nat * TPartitionChoices, on_broker x.1 (OkPartitions t)) <$>
    map_to_list (PartitionChoiceMap t)) ≡ₚ OkPartitions t.
Proof.
  intros Ht. pose proof (to_ids _ _ _ Ht) as Hids. rewrite fmap_app in Hids.
  apply NoDup_app in Hids as [Hids _]. apply NoDup_Permutation.
  - pose proof (NoDup_fst_map_to_list (PartitionChoiceMap t)) as Hk.
    induction (map_to_list (PartitionChoiceMap t)) as [| [i c] l IH]; [constructor |].
    cbn in Hk |- *. apply NoDup_cons in Hk as [Hi Hk]. apply NoDup_app. split.
    { apply NoDup_filter. by eapply NoDup_fmap_1. }
    split; [| by apply IH]. intros p [<- _]%on_broker_elem Hin. apply Hi.
    apply list_elem_of_In, in_concat in Hin as (k & Hx%list_elem_of_In & Hin%list_elem_of_In).
    apply list_elem_of_fmap in Hx as (y & -> & Hy). apply on_broker_elem in Hin as [-> _].
    by apply list_elem_of_fmap_2.
  - by eapply NoDup_fmap_1.
  - intros p. rewrite list_elem_of_In, in_concat. setoid_rewrite <- list_elem_of_In. split.
    + intros (k & (x & -> & _)%list_elem_of_fmap & [_ Hp]%on_broker_elem). done.
    + intros Hp. destruct (PartitionChoiceMap t !! BrokerIndex p) as [c |] eqn:E.
      * eexists. split; [| by apply on_broker_elem]. apply list_elem_of_fmap. exists (BrokerIndex p, c).
        split; [done |]. by apply elem_of_map_to_list.
      * apply (to_no_choice _ _ _ Ht) in E.
        assert (p ∈ on_broker (BrokerIndex p) (OkPartitions t)) as Hx by by apply on_broker_elem.
        rewrite E in Hx. by apply elem_of_nil in Hx.
Qed.

Lemma ranges_length nb vec t :
  topic_ok nb vec t → length (ranges (PartitionChoiceMap t)) = length (OkPartitions t).
Proof.
  intros Ht. rewrite <- (Permutation_length (by_broker_all _ _ _ Ht)). apply length_concat_ext.
  intros [i c] Hc%elem_of_map_to_list. cbn. rewrite length_seq.
  destruct (to_choices _ _ _ Ht i c Hc) as [Hr _ Hids _]. apply Permutation_length in Hids.
  rewrite length_fmap in Hids. rewrite <- Hids. unfold chunk. rewrite length_take, length_drop. lia.
Qed.

(** The number of partitions that take messages. *)
Definition view_ok_items (v : md_view) : list (Z * (Z * Z)) :=
  concat ((λ x : string * gmap Z (Z * Z), filter can_send_item (map_to_list x.2)) <$> map_to_list (v_topics v)).

Lemma vec_length m : metadata_ok m → length (TopicBrokerVec m) = length (view_ok_items (metadata_view m)).
Proof.
  intros Hm. destruct (mo_names _ Hm) as (ns & Hn & Hl). destruct (mo_topics _ Hm) as [Hts Hrg _].
  unfold view_ok_items. rewrite (view_topics_map m ns Hn Hl). unfold topics_map.
  rewrite map_to_list_to_map by (rewrite fst_zip by (rewrite length_fmap; lia); by eapply names_NoDup).
  change (λ x : string * gmap Z (Z * Z), filter can_send_item (map_to_list x.2))
    with ((λ y : gmap Z (Z * Z), filter can_send_item (map_to_list y)) ∘ @snd string _).
  rewrite list_fmap_compose, snd_zip by (rewrite length_fmap; lia). rewrite <- list_fmap_compose.
  apply Permutation_length in Hrg. rewrite length_seq in Hrg. rewrite <- Hrg.
  apply length_concat_ext. intros t Ht. rewrite Forall_forall in Hts. specialize (Hts t Ht). cbn.
  destruct (topic_items (Brokers m) _ _ _ Hts) as [Hok%Permutation_length _].
  rewrite (ranges_length _ _ _ Hts). by rewrite length_fmap in Hok.
Qed.

Lemma broker_items m : metadata_ok m → map_to_list (v_brokers (metadata_view m)) ≡ₚ broker_item <$> Brokers m.
Proof.
  intros Hm. apply map_to_list_to_map. rewrite <- list_fmap_compose. apply Hm.
Qed.

Lemma brokers_from_view m1 m2 :
  metadata_ok m1 → metadata_ok m2 → metadata_view m1 = metadata_view m2 → Brokers m1 ⊆ Brokers m2.
Proof.
  intros H1 H2 E b Hb. pose proof Hb as [i Hi]%list_elem_of_lookup_1.
  assert (broker_item b ∈ broker_item <$> Brokers m2) as (b' & Eb & Hb')%list_elem_of_fmap.
  { rewrite <- (broker_items m2 H2), <- E, (broker_items m1 H1). by apply list_elem_of_fmap_2. }
  pose proof Hb' as [j Hj]%list_elem_of_lookup_1.
  enough (b = b') by by subst. destruct b as [id h p s] eqn:Hbe, b' as [id' h' p' s'] eqn:Hbe'.
  cbn in Eb. injection Eb as <- <- <-. f_equal.
  pose proof (in_service_view m1 i _ H1 Hi) as Hs1. pose proof (in_service_view m2 j _ H2 Hj) as Hs2.
  cbn in Hs1, Hs2. rewrite E, <- Hs2 in Hs1. destruct s, s'; naive_solver.
Qed.

Lemma Broker_eqb_eq x y : Broker_eqb x y = true ↔ x = y.
Proof.
  destruct x as [i h p s], y as [i' h' p' s']. unfold Broker_eqb. cbn.
  rewrite !andb_true_iff, !Z.eqb_eq, bool_decide_eq_true, eqb_true_iff. naive_solver.
Qed.

Lemma CompareBrokers_ok this that :
  metadata_ok this → CompareBrokers this that = Some (bool_decide (Brokers that ⊆ Brokers this)).
Proof.
  intros Hm. unfold CompareBrokers. rewrite bool_decide_true by (eapply NoDup_fmap_1, Hm). f_equal.
  apply Bool.eq_iff_eq_true. rewrite bool_decide_eq_true, forallb_forall. setoid_rewrite existsb_exists.
  setoid_rewrite <- list_elem_of_In. setoid_rewrite Broker_eqb_eq. split.
  - intros Hall b Hb. destruct (Hall b Hb) as (x & Hx & ->). done.
  - intros Hs b Hb. exists b. split; [by apply Hs | done].
Qed.

Section compare.
Context `{!HashOrder}.

Lemma Metadata_eq_ok m1 m2 :
  metadata_ok m1 → metadata_ok m2 →
  ∃ r, Metadata_eq m1 m2 = Some r ∧ (r = true ↔ metadata_view m1 = metadata_view m2).
Proof.
  intros H1 H2. unfold Metadata_eq.
  destruct (mo_names _ H1) as (ns1 & Hn1 & Hl1). destruct (mo_names _ H2) as (ns2 & Hn2 & Hl2).
  assert (∀ m ns, names_ok (TopicNameToIndex m) ns → length ns = length (Topics m) →
    size (v_topics (metadata_view m)) = length (Topics m)) as Hsz.
  { intros m ns Hn Hl. rewrite (view_topics_map m ns Hn Hl). unfold topics_map.
    rewrite <- length_map_to_list, map_to_list_to_map, length_zip_with, length_fmap; [lia |].
    rewrite fst_zip by (rewrite length_fmap; lia). by eapply names_NoDup. }
  pose proof (Hsz m1 ns1 Hn1 Hl1) as Hs1. pose proof (Hsz m2 ns2 Hn2 Hl2) as Hs2.
  assert (∀ m, metadata_ok m → length (Brokers m) = size (v_brokers (metadata_view m))) as Hbz.
  { intros m Hm. rewrite <- length_map_to_list, (Permutation_length (broker_items m Hm)). by rewrite length_fmap. }
  destruct (Nat.eqb_spec (length (Brokers m1)) (length (Brokers m2))) as [Eb | Eb]; cbn [negb orb].
  2:{ exists false. split; [done |]. split; [done |]. intros E. by rewrite !Hbz, E in Eb. }
  destruct (Nat.eqb_spec (length (TopicBrokerVec m1)) (length (TopicBrokerVec m2))) as [Ev | Ev]; cbn [negb orb].
  2:{ exists false. split; [done |]. split; [done |]. intros E. by rewrite !vec_length, E in Ev. }
  destruct (Nat.eqb_spec (length (Topics m1)) (length (Topics m2))) as [Et | Et]; cbn [negb].
  2:{ exists false. split; [done |]. split; [done |]. intros E. by rewrite <- Hs1, <- Hs2, E in Et. }
  rewrite (names_size _ ns1 Hn1), (names_size _ ns2 Hn2), Hl1, Hl2, !bool_decide_true by done. cbn [andb].
  rewrite CompareBrokers_ok by done. cbn [mbind option_bind]. case_bool_decide as Hb.
  2:{ exists false. split; [done |]. split; [done |]. intros E. destruct Hb. by apply brokers_from_view. }
  unfold CompareTopics. rewrite CompareTopics_loop_ok by (done || intros ? ?; apply elem_of_hash_order).
  eexists. split; [reflexivity |].
  rewrite forallb_forall. setoid_rewrite <- list_elem_of_In. split.
  - intros Hall.
    assert (v_brokers (metadata_view m1) = v_brokers (metadata_view m2)) as Evb.
    { cbn. apply subset_same_length in Hb; [| eapply NoDup_fmap_1, H1 | eapply NoDup_fmap_1, H2 | lia].
      apply list_to_map_proper; [| by rewrite Hb]. rewrite <- list_fmap_compose. apply H1. }
    assert (v_topics (metadata_view m1) = v_topics (metadata_view m2)) as Evt.
    { apply map_subseteq_size_eq; [| by rewrite Hs1, Hs2, Et]. apply map_subseteq_spec. intros name vp Hvp.
      destruct (view_topic_lookup m1 name vp H1 Hvp) as (i & _ & Hi & _).
      specialize (Hall (name, i)). rewrite elem_of_hash_order, bool_decide_eq_true in Hall.
      cbn [fst] in Hall. by rewrite (Hall Hi). }
    destruct (metadata_view m1), (metadata_view m2). cbn in Evb, Evt. by subst.
  - intros E x _. by rewrite E, bool_decide_true.
Qed.
End compare.

(** ** Properties *)

(** An engine that leaves the partitions in place. *)
Definition no_shuffle : Shuffle := {| shuffle n l := l; shuffle_perm n l := reflexivity l |}.

(** A response with two brokers and a partition of each kind. *)
Definition example_response : md_response :=
  mkMdResponse [mkMdBroker 5 "a" 9092; mkMdBroker 7 "b" 9092; mkMdBroker 5 "c" 1]
    [mkMdTopic 0 "t" [mkMdPartition 3 7 0; mkMdPartition 1 7 9; mkMdPartition 2 5 5;
                      mkMdPartition 3 5 0; mkMdPartition 4 6 0];
     mkMdTopic 3 "u" []; mkMdTopic 0 "t" []].

(** C15: Building metadata from a decoded response never fails an assertion
    and never reads out of bounds; the metadata says exactly what the response
    says (brokers, topics, partitions, leaders and error codes; the first of
    duplicates), but for topics with an error and partitions whose leader is not one of
    the brokers, which are left out; its sanity check succeeds and the builder is as new. *)
Theorem metadata_build_refines `{!StdSort} `{!Shuffle} `{!HashOrder} (r : md_response) :
  ∃ m b', build_all r TBuilder_new = (Ret m, b') ∧ BState b' = Initial ∧
    metadata_view m = response_view r ∧ SanityCheck m = (true, MetadataSanityCheckSuccess).
Proof.
  destruct (build_all_ok r) as (m & b' & Hr & Hm & Hv & Hs). exists m, b'. split_and!; try done.
  by apply Metadata_SanityCheck_ok.
Qed.

(** C38: In metadata built from a response, a topic of the response that has no
    error is found and no other; the choices found for it and a broker are the
    IDs, in ascending order, of the partitions that broker leads and that take
    messages, and no choices are found when there is none. *)
Theorem metadata_partition_choices `{!StdSort} `{!Shuffle} `{!HashOrder} (r : md_response) m b' :
  build_all r TBuilder_new = (Ret m, b') →
  ∀ topic,
    match v_topics (response_view r) !! topic with
    | None => FindTopicIndex topic m = Ret (-1)
    | Some parts =>
        ∀ i b, Brokers m !! i = Some b →
        ∃ l, FindPartitionChoices topic i m = Ret (match l with [] => None | _ :: _ => Some l end) ∧
          StronglySorted Z.lt l ∧
          ∀ id, id ∈ l ↔ ∃ error_code, parts !! id = Some (BrokerId b, error_code) ∧
                                      CanSendToPartition error_code = true
    end.
Proof.
  intros Hr topic. destruct (build_all_ok r) as (m' & b'' & Hr' & Hm & Hv & _).
  rewrite Hr in Hr'. injection Hr' as <- <-. rewrite <- Hv.
  destruct (v_topics (metadata_view m) !! topic) as [parts |] eqn:E.
  - intros i b Hb. destruct (view_topic_lookup m topic parts Hm E) as (k & t & Hk & Ht & -> & Hok).
    destruct (FindPartitionChoices_ok m topic k t i Hm Hk Ht) as (l & Hf & Hs & Hl);
      [by eapply lookup_lt_Some |].
    exists l. split; [done |]. split; [done |]. intros id. rewrite Hl, list_elem_of_fmap.
    setoid_rewrite on_broker_elem. setoid_rewrite (ok_view_lookup _ _ _ _ _ _ _ Hok). split.
    + intros (p & -> & Hi & Hp). exists (ErrorCode p), p. split; [done |].
      unfold part_item. by rewrite Hi, Hb.
    + intros (err & p & Hp & Ep). exists p. split; [by injection Ep |]. split; [| done].
      apply (part_item_leader m i b p Hm Hb); [by eapply ok_partition_index | by rewrite Ep].
  - rewrite (FindTopicIndex_ok m topic Hm).
    destruct (TopicNameToIndex m !! topic) as [k |] eqn:Ek; [| done]. exfalso.
    destruct (mo_names _ Hm) as (ns & Hn & Hl). pose proof Ek as Hx. apply Hn, lookup_lt_Some in Hx.
    destruct (lookup_lt_is_Some_2 (Topics m) k) as [t Ht]; [lia |].
    cbn in E. rewrite lookup_omap, Ek in E. cbn in E. by rewrite Ht in E.
Qed.

Lemma metadata_partition_choices_witness :
  match v_topics (response_view example_response) !! "t" with
  | None => False
  | Some parts =>
      ∃ m b l, Brokers m !! 0%nat = Some b ∧ FindPartitionChoices "t" 0 m = Ret (Some l) ∧
        ∀ id, id ∈ l ↔ ∃ error_code, parts !! id = Some (BrokerId b, error_code) ∧
                                    CanSendToPartition error_code = true
  end.
Proof.
  pose (m := match (build_all (H := merge_order) (H0 := no_shuffle) (H1 := map_order) example_response
    TBuilder_new).1 with Ret m => m | _ => mkMetadata [] 0 [] [] ∅ end).
  pose proof (metadata_partition_choices (H := merge_order) (H0 := no_shuffle) (H1 := map_order)
    example_response m _ ltac:(vm_compute; reflexivity) "t") as Hp.
  destruct (v_topics (response_view example_response) !! "t") as [parts |] eqn:E;
    [| vm_compute in E; discriminate E].
  destruct (Hp 0%nat (mkBroker 7 "b" 9092 true) ltac:(vm_compute; reflexivity)) as (l & Hf & _ & Hl).
  exists m, (mkBroker 7 "b" 9092 true), l. split; [vm_compute; reflexivity |]. split; [| exact Hl].
  destruct l; [vm_compute in Hf; discriminate Hf | exact Hf].
Defined.

(** Comparing metadata built from two responses never fails an assertion,
    and they are equal exactly when they say the same: the order of brokers,
    topics and partitions and the shuffling do not matter. *)
Theorem metadata_equality {srt : StdSort} {order : HashOrder} (engine1 engine2 : Shuffle)
    (r1 r2 : md_response) m1 b1 m2 b2 :
  @build_all srt engine1 order r1 TBuilder_new = (Ret m1, b1) →
  @build_all srt engine2 order r2 TBuilder_new = (Ret m2, b2) →
  ∃ same, Metadata_eq m1 m2 = Some same ∧ (same = true ↔ response_view r1 = response_view r2).
Proof.
  intros H1 H2. destruct (@build_all_ok srt engine1 order r1) as (? & ? & Hr1 & Hm1 & Hv1 & _).
  destruct (@build_all_ok srt engine2 order r2) as (? & ? & Hr2 & Hm2 & Hv2 & _).
  rewrite H1 in Hr1. rewrite H2 in Hr2. injection Hr1 as <- <-. injection Hr2 as <- <-.
  rewrite <- Hv1, <- Hv2. by apply Metadata_eq_ok.
Qed.

(** An engine that reverses. *)
Definition reverse_shuffle : Shuffle :=
  {| shuffle n l := reverse l; shuffle_perm n l := reverse_Permutation l |}.

(** The same brokers and partitions in another order. *)
Definition example_reordered : md_response :=
  mkMdResponse [mkMdBroker 7 "b" 9092; mkMdBroker 5 "a" 9092]
    [mkMdTopic 0 "t" [mkMdPartition 1 7 9; mkMdPartition 2 5 5; mkMdPartition 3 7 0]].

Lemma metadata_equality_witness :
  ∃ m1 m2 same, Metadata_eq (H := map_order) m1 m2 = Some same ∧
    (same = true ↔ response_view example_response = response_view example_reordered).
Proof.
  pose (m1 := match (@build_all merge_order no_shuffle map_order example_response TBuilder_new).1 with
    Ret m => m | _ => mkMetadata [] 0 [] [] ∅ end).
  pose (m2 := match (@build_all merge_order reverse_shuffle map_order example_reordered TBuilder_new).1 with
    Ret m => m | _ => mkMetadata [] 0 [] [] ∅ end).
  exists m1, m2.
  apply (@metadata_equality merge_order map_order no_shuffle reverse_shuffle example_response
    example_reordered m1 _ m2 _ ltac:(vm_compute; reflexivity) ltac:(vm_compute; reflexivity)).
Defined.

(** A broker out of service before one that is in service. *)
Definition ungrouped : TMetadata :=
  mkMetadata [mkBroker 1 "a" 1 false; mkBroker 2 "b" 1 true] 1 [0]
    [mkTopic [mkPartition 0 1 0] [] [mkPartition 0 1 0] {[1%nat := mkChoices 0 1]}] {["t" := O]}.

(** The sanity check does not check that the brokers in service come
    first: it finds this out and writes it to the log, but then succeeds, on
    metadata that has a broker out of service before one in service. *)
Theorem sanity_check_misses_grouping :
  Brokers ungrouped !! 0%nat = Some (mkBroker 1 "a" 1 false) ∧
  Brokers ungrouped !! 1%nat = Some (mkBroker 2 "b" 1 true) ∧
  SanityCheck (H := map_order) ungrouped = (true, MetadataSanityCheckSuccess).
Proof. split_and!; vm_compute; reflexivity. Qed.
