(* ===== verification/Wire.v ===== *)
(** * Buffers of the Kafka wire formats

    Shared by the readers and writers under dory/kafka_proto: reads at an offset
    of a buffer, and [std::vector<uint8_t>] as a list of bytes, with [resize]
    and writes at an index.  Pointers into a buffer are offsets from its
    start. *)
From S2P Require Import Prelude FieldAccess.

(** One step of a run whose next operation evaluates. *)
Ltac rstep := erewrite bind_Ret by reflexivity; cbv beta.

(** ** Reading *)

Section reading.
Context {E S : Type}.

Definition mem_at (mem : list byte) (pos : Z) : list byte := drop (Z.to_nat pos) mem.

(** A read before the start of the buffer or past its end is a fault. *)
Definition rd {A} (f : list byte → option A) (mem : list byte) (pos : Z) : M E S A :=
  need OutOfBounds (if pos <? 0 then None else f (mem_at mem pos)).

Definition rd16 : list byte → Z → M E S Z := rd ReadInt16FromHeader.
Definition rd32 : list byte → Z → M E S Z := rd ReadInt32FromHeader.
Definition rd64 : list byte → Z → M E S Z := rd ReadInt64FromHeader.

(** The bytes from [a] to [b]. *)
Definition rd_range (mem : list byte) (a b : Z) : M E S (list byte) :=
  need OutOfBounds (if (a <? 0) || (b <? a) || (Z.of_nat (length mem) <? b) then None
                    else Some (take (Z.to_nat (b - a)) (mem_at mem a))).

(** A result of [int32_t] arithmetic; overflow is undefined. *)
Definition int32_arith (z : Z) : M E S Z :=
  if decide (in_s 32 z) then mret z else crash Overflow.
End reading.

Definition REQUEST_OR_RESPONSE_SIZE_SIZE : Z := 4.

(** [GetRequestOrResponseSize]: the size of the whole request or response;
    [None] where it throws [TBadRequestOrResponseSize]. *)
Definition GetRequestOrResponseSize {E S} (bad_size : E) (mem : list byte) : M E S Z :=
  size_field ← rd32 mem 0;
  if size_field <? 0 then throw bad_size
  else mret (size_field + REQUEST_OR_RESPONSE_SIZE_SIZE).

(** ** Vectors *)

Definition vec_resize (n : nat) (v : list byte) : list byte :=
  take n v ++ replicate (n - length v) x00.

(** [bytes] written at index [off]. *)
Definition vec_write (off : nat) (bytes v : list byte) : option (list byte) :=
  if decide (off + length bytes ≤ length v)%nat
  then Some (take off v ++ bytes ++ drop (off + length bytes) v) else None.

Lemma vec_resize_grow n v : (length v ≤ n)%nat → vec_resize n v = v ++ replicate (n - length v) x00.
Proof. intros H. unfold vec_resize. by rewrite take_ge. Qed.

Lemma vec_resize_length n v : length (vec_resize n v) = n.
Proof. unfold vec_resize. rewrite length_app, length_take, length_replicate. lia. Qed.

Lemma vec_resize_app k v w : vec_resize (length v + k) (v ++ w) = v ++ vec_resize k w.
Proof.
  unfold vec_resize. rewrite length_app. rewrite take_app_add, <- app_assoc.
  by replace (length v + k - (length v + length w))%nat with (k - length w)%nat by lia.
Qed.

Lemma vec_write_at a b b' c :
  length b = length b' → vec_write (length a) b' (a ++ b ++ c) = Some (a ++ b' ++ c).
Proof.
  intros Hl. unfold vec_write. rewrite !length_app, decide_True by lia.
  rewrite take_app_length, (app_assoc a b c), drop_app_length'; [done |]. rewrite length_app. lia.
Qed.

(** ** Reading back *)

Lemma mem_at_app a l : mem_at (a ++ l) (Z.of_nat (length a)) = l.
Proof. unfold mem_at. by rewrite Nat2Z.id, drop_app_length. Qed.

Section read_back.
Context {E S : Type}.

Lemma rd_app {A} (f : list byte → option A) a l v (s : S) :
  f l = Some v → rd (E := E) f (a ++ l) (Z.of_nat (length a)) s = (Ret v, s).
Proof.
  intros Hf. unfold rd. rewrite (proj2 (Z.ltb_ge _ _)) by lia. by rewrite mem_at_app, Hf.
Qed.

Lemma rd16_app a v l (s : S) :
  in_s 16 v → rd16 (E := E) (a ++ WriteInt16ToHeader v ++ l) (Z.of_nat (length a)) s = (Ret v, s).
Proof. intros Hv. apply rd_app. by apply ReadInt16_Write. Qed.

Lemma rd32_app a v l (s : S) :
  in_s 32 v → rd32 (E := E) (a ++ WriteInt32ToHeader v ++ l) (Z.of_nat (length a)) s = (Ret v, s).
Proof. intros Hv. apply rd_app. by apply ReadInt32_Write. Qed.

Lemma rd64_app a v l (s : S) :
  in_s 64 v → rd64 (E := E) (a ++ WriteInt64ToHeader v ++ l) (Z.of_nat (length a)) s = (Ret v, s).
Proof. intros Hv. apply rd_app. by apply ReadInt64_Write. Qed.

Lemma rd_range_app a b c (s : S) :
  rd_range (E := E) (a ++ b ++ c) (Z.of_nat (length a)) (Z.of_nat (length a) + Z.of_nat (length b)) s =
  (Ret b, s).
Proof.
  unfold rd_range. rewrite (proj2 (Z.ltb_ge _ 0)), (proj2 (Z.ltb_ge _ (Z.of_nat (length a)))) by lia.
  rewrite (proj2 (Z.ltb_ge (Z.of_nat (length (a ++ b ++ c))) _)) by (rewrite !length_app; lia).
  rewrite mem_at_app. cbn [orb need]. unfold need, mret, M_ret. do 2 f_equal.
  replace (Z.to_nat _) with (length b) by lia. apply take_app_length.
Qed.

(** ** Reads inside the buffer *)

Lemma rd16_ok mem pos (s : S) :
  0 ≤ pos → pos + 2 ≤ Z.of_nat (length mem) → ∃ v, rd16 (E := E) mem pos s = (Ret v, s) ∧ in_s 16 v.
Proof.
  intros H1 H2. unfold rd16, rd. rewrite (proj2 (Z.ltb_ge _ _)) by lia.
  destruct (ReadInt16_is_Some (mem_at mem pos)) as [v Hv].
  { unfold mem_at. rewrite length_drop. lia. }
  exists v. rewrite Hv. split; [done |]. by apply ReadInt16_Some in Hv as (_ & ? & _).
Qed.

Lemma rd32_start mem v (s s' : S) : rd32 (E := E) mem 0 s = (Ret v, s') → ReadInt32FromHeader mem = Some v.
Proof.
  unfold rd32, rd, need, mem_at. change (0 <? 0) with false. change (Z.to_nat 0) with 0%nat. rewrite drop_0.
  destruct (ReadInt32FromHeader mem); [| done]. unfold mret, M_ret. congruence.
Qed.

Lemma rd32_ok mem pos (s : S) :
  0 ≤ pos → pos + 4 ≤ Z.of_nat (length mem) → ∃ v, rd32 (E := E) mem pos s = (Ret v, s) ∧ in_s 32 v.
Proof.
  intros H1 H2. unfold rd32, rd. rewrite (proj2 (Z.ltb_ge _ _)) by lia.
  destruct (ReadInt32_is_Some (mem_at mem pos)) as [v Hv].
  { unfold mem_at. rewrite length_drop. lia. }
  exists v. rewrite Hv. split; [done |]. by apply ReadInt32_Some in Hv as (_ & ? & _).
Qed.

Lemma rd64_ok mem pos (s : S) :
  0 ≤ pos → pos + 8 ≤ Z.of_nat (length mem) → ∃ v, rd64 (E := E) mem pos s = (Ret v, s) ∧ in_s 64 v.
Proof.
  intros H1 H2. unfold rd64, rd. rewrite (proj2 (Z.ltb_ge _ _)) by lia.
  destruct (ReadInt64_is_Some (mem_at mem pos)) as [v Hv].
  { unfold mem_at. rewrite length_drop. lia. }
  exists v. rewrite Hv. split; [done |]. by apply ReadInt64_Some in Hv as (_ & ? & _).
Qed.

Lemma rd_range_ok mem a b (s : S) :
  0 ≤ a → a ≤ b → b ≤ Z.of_nat (length mem) →
  ∃ l, rd_range (E := E) mem a b s = (Ret l, s) ∧ Z.of_nat (length l) = b - a.
Proof.
  intros Ha Hb Hl. unfold rd_range. rewrite (proj2 (Z.ltb_ge a 0)), (proj2 (Z.ltb_ge b a)) by lia.
  rewrite (proj2 (Z.ltb_ge _ b)) by lia. cbn [orb]. eexists. split; [reflexivity |].
  unfold mem_at. rewrite length_take, length_drop. lia.
Qed.
End read_back.
