(* ===== verification/ProduceResponse.v ===== *)
(** * Produce responses (dory/kafka_proto/produce/v0)

    [Writer]: [TProduceResponseWriter]; [Reader]: [TProduceResponseReader], an
    iterator over the topics of a response and the partitions of a topic.
    Pointers of the reader are offsets from the start of the response; the
    memory it reads is the response buffer it is given.  Topic names are bytes. *)
From S2P Require Import Prelude FieldAccess Wire.

Definition CORRELATION_ID_SIZE : Z := 4.
Definition TOPIC_COUNT_SIZE : Z := 4.
Definition TOPIC_NAME_LEN_SIZE : Z := 2.
Definition PARTITION_COUNT_SIZE : Z := 4.
Definition PARTITION_SIZE : Z := 4.
Definition ERROR_CODE_SIZE : Z := 2.
Definition OFFSET_SIZE : Z := 8.

Module Reader.

Inductive exn :=
| TShortResponse
| TResponseTruncated
| TBadTopicCount
| TBadTopicNameLength
| TBadPartitionCount
| TBadRequestOrResponseSize
| range_error.

(** The first five are a [TBadProduceResponse]. *)
Definition TBadProduceResponse (e : exn) : bool :=
  match e with TBadRequestOrResponseSize | range_error => false | _ => true end.

Inductive counter :=
| ProduceResponseBadPartitionCount
| ProduceResponseBadTopicCount
| ProduceResponseBadTopicNameLength
| ProduceResponseTruncated (n : nat).

(** [Mem] is the memory at [Begin]. *)
Record TProduceResponseReader := mkReader {
  Mem : list byte;
  Begin : option Z;
  End_ : option Z;
  NumTopics : Z;
  CurrentTopicIndex : Z;
  CurrentTopicBegin : option Z;
  CurrentTopicNameEnd : option Z;
  NumPartitionsInTopic : Z;
  CurrentPartitionIndexInTopic : Z;
  Counters : list counter
}.

Definition TProduceResponseReader_new : TProduceResponseReader :=
  mkReader [] None None 0 (-1) None None 0 (-1) [].

Definition RM := M exn TProduceResponseReader.

Definition Increment (c : counter) : RM () :=
  modify (λ r, mkReader (Mem r) (Begin r) (End_ r) (NumTopics r) (CurrentTopicIndex r)
    (CurrentTopicBegin r) (CurrentTopicNameEnd r) (NumPartitionsInTopic r)
    (CurrentPartitionIndexInTopic r) (c :: Counters r)).

Definition set_buf (mem : list byte) (begin end_ : option Z) : RM () :=
  modify (λ r, mkReader mem begin end_ (NumTopics r) (CurrentTopicIndex r)
    (CurrentTopicBegin r) (CurrentTopicNameEnd r) (NumPartitionsInTopic r)
    (CurrentPartitionIndexInTopic r) (Counters r)).

Definition set_num_topics (n : Z) : RM () :=
  modify (λ r, mkReader (Mem r) (Begin r) (End_ r) n (CurrentTopicIndex r)
    (CurrentTopicBegin r) (CurrentTopicNameEnd r) (NumPartitionsInTopic r)
    (CurrentPartitionIndexInTopic r) (Counters r)).

Definition set_topic_index (i : Z) : RM () :=
  modify (λ r, mkReader (Mem r) (Begin r) (End_ r) (NumTopics r) i
    (CurrentTopicBegin r) (CurrentTopicNameEnd r) (NumPartitionsInTopic r)
    (CurrentPartitionIndexInTopic r) (Counters r)).

Definition set_topic_begin (p : option Z) : RM () :=
  modify (λ r, mkReader (Mem r) (Begin r) (End_ r) (NumTopics r) (CurrentTopicIndex r)
    p (CurrentTopicNameEnd r) (NumPartitionsInTopic r)
    (CurrentPartitionIndexInTopic r) (Counters r)).

Definition set_name_end (p : option Z) : RM () :=
  modify (λ r, mkReader (Mem r) (Begin r) (End_ r) (NumTopics r) (CurrentTopicIndex r)
    (CurrentTopicBegin r) p (NumPartitionsInTopic r)
    (CurrentPartitionIndexInTopic r) (Counters r)).

Definition set_num_partitions (n : Z) : RM () :=
  modify (λ r, mkReader (Mem r) (Begin r) (End_ r) (NumTopics r) (CurrentTopicIndex r)
    (CurrentTopicBegin r) (CurrentTopicNameEnd r) n
    (CurrentPartitionIndexInTopic r) (Counters r)).

Definition set_partition_index (i : Z) : RM () :=
  modify (λ r, mkReader (Mem r) (Begin r) (End_ r) (NumTopics r) (CurrentTopicIndex r)
    (CurrentTopicBegin r) (CurrentTopicNameEnd r) (NumPartitionsInTopic r)
    i (Counters r)).

Definition non_null {A} (p : option A) : bool := match p with Some _ => true | None => false end.

Definition MinSize : Z := REQUEST_OR_RESPONSE_SIZE_SIZE + CORRELATION_ID_SIZE + TOPIC_COUNT_SIZE.

Definition Clear : RM () :=
  modify (λ r, mkReader [] None None 0 (-1) None None 0 (-1) (Counters r)).

(** [response] is the buffer, of [response_size] bytes. *)
Definition SetResponse (response : list byte) : RM () :=
  Clear;;
  let response_size := Z.of_nat (length response) in
  if response_size <? MinSize then
    Increment (ProduceResponseTruncated 1);; throw TShortResponse
  else
    set_buf response (Some 0) None;;
    size ← GetRequestOrResponseSize TBadRequestOrResponseSize response;
    set_buf response (Some 0) (Some size);;
    if response_size <? size then
      Increment (ProduceResponseTruncated 2);; throw TResponseTruncated
    else
      n ← rd32 response (REQUEST_OR_RESPONSE_SIZE_SIZE + CORRELATION_ID_SIZE);
      set_num_topics n;;
      if n <? 0 then Increment ProduceResponseBadTopicCount;; throw TBadTopicCount
      else mret ().

Definition GetCorrelationId : RM Z :=
  r ← get;
  massert (non_null (Begin r));;
  massert (non_null (End_ r));;
  massert (0 <=? NumTopics r);;
  begin ← need NullDeref (Begin r);
  rd32 (Mem r) (begin + REQUEST_OR_RESPONSE_SIZE_SIZE).

Definition GetPartitionStart (index : Z) : RM Z :=
  r ← get;
  massert (0 <=? NumTopics r);;
  massert (non_null (CurrentTopicBegin r));;
  massert (non_null (CurrentTopicNameEnd r));;
  massert (0 <=? NumPartitionsInTopic r);;
  name_end ← need NullDeref (CurrentTopicNameEnd r);
  off ← int32_arith (index * (PARTITION_SIZE + ERROR_CODE_SIZE + OFFSET_SIZE));
  mret (name_end + PARTITION_COUNT_SIZE + off).

Definition InitCurrentTopic : RM () :=
  r ← get;
  begin ← need NullDeref (CurrentTopicBegin r);
  end_ ← need NullDeref (End_ r);
  if end_ <? begin + TOPIC_NAME_LEN_SIZE then
    Increment (ProduceResponseTruncated 3);; throw TResponseTruncated
  else
    len ← rd16 (Mem r) begin;
    let topic_name_len := if len =? -1 then 0 else len in
    if topic_name_len <? 0 then
      Increment ProduceResponseBadTopicNameLength;; throw TBadTopicNameLength
    else
      let name_end := begin + TOPIC_NAME_LEN_SIZE + topic_name_len in
      set_name_end (Some name_end);;
      if end_ <? name_end + PARTITION_COUNT_SIZE then
        Increment (ProduceResponseTruncated 4);; throw TResponseTruncated
      else
        n ← rd32 (Mem r) name_end;
        set_num_partitions n;;
        if n <? 0 then
          Increment ProduceResponseBadPartitionCount;; throw TBadPartitionCount
        else set_partition_index (-1).

Definition InitCurrentPartition : RM () :=
  r ← get;
  next ← int32_arith (CurrentPartitionIndexInTopic r + 1);
  partition_end ← GetPartitionStart next;
  end_ ← need NullDeref (End_ r);
  if end_ <? partition_end then
    Increment (ProduceResponseTruncated 5);; throw TResponseTruncated
  else mret ().

Definition FirstTopic : RM bool :=
  r ← get;
  massert (0 <=? NumTopics r);;
  if NumTopics r <? 1 then mret false
  else
    set_topic_index 0;;
    begin ← need NullDeref (Begin r);
    set_topic_begin (Some (begin + REQUEST_OR_RESPONSE_SIZE_SIZE + CORRELATION_ID_SIZE +
      TOPIC_COUNT_SIZE));;
    InitCurrentTopic;;
    mret true.

Definition NextTopic : RM bool :=
  r ← get;
  massert (0 <=? NumTopics r);;
  if CurrentTopicIndex r <? 0 then FirstTopic
  else
    massert (non_null (CurrentTopicBegin r));;
    massert (non_null (CurrentTopicNameEnd r));;
    if NumTopics r <=? CurrentTopicIndex r then throw range_error
    else
      set_topic_index (CurrentTopicIndex r + 1);;
      if CurrentTopicIndex r + 1 <? NumTopics r then
        name_end ← need NullDeref (CurrentTopicNameEnd r);
        off ← int32_arith (NumPartitionsInTopic r * (PARTITION_SIZE + ERROR_CODE_SIZE + OFFSET_SIZE));
        set_topic_begin (Some (name_end + PARTITION_COUNT_SIZE + off));;
        InitCurrentTopic;;
        mret true
      else
        set_topic_begin None;;
        set_name_end None;;
        set_num_partitions 0;;
        set_partition_index 0;;
        mret false.

(** The name from [GetCurrentTopicNameBegin] to [GetCurrentTopicNameEnd]. *)
Definition GetCurrentTopicName : RM (list byte) :=
  r ← get;
  massert (0 <=? NumTopics r);;
  massert (non_null (CurrentTopicBegin r));;
  begin ← need NullDeref (CurrentTopicBegin r);
  name_end ← need AssertFailed (CurrentTopicNameEnd r);
  massert (begin <? name_end);;
  rd_range (Mem r) (begin + TOPIC_NAME_LEN_SIZE) name_end.

Definition FirstPartitionInTopic : RM bool :=
  r ← get;
  massert (0 <=? NumTopics r);;
  massert (non_null (CurrentTopicBegin r));;
  massert (non_null (CurrentTopicNameEnd r));;
  massert (0 <=? NumPartitionsInTopic r);;
  if NumPartitionsInTopic r <? 1 then mret false
  else set_partition_index 0;; InitCurrentPartition;; mret true.

Definition NextPartitionInTopic : RM bool :=
  r ← get;
  massert (0 <=? NumTopics r);;
  massert (non_null (CurrentTopicBegin r));;
  massert (non_null (CurrentTopicNameEnd r));;
  massert (0 <=? NumPartitionsInTopic r);;
  if CurrentPartitionIndexInTopic r <? 0 then FirstPartitionInTopic
  else if NumPartitionsInTopic r <=? CurrentPartitionIndexInTopic r then throw range_error
  else
    set_partition_index (CurrentPartitionIndexInTopic r + 1);;
    if CurrentPartitionIndexInTopic r + 1 <? NumPartitionsInTopic r then
      InitCurrentPartition;; mret true
    else mret false.

(** The start of the current partition, with the assertions of the three
    functions that read its fields. *)
Definition current_partition : RM Z :=
  r ← get;
  massert (0 <=? NumTopics r);;
  massert (non_null (CurrentTopicBegin r));;
  massert (non_null (CurrentTopicNameEnd r));;
  massert (0 <=? NumPartitionsInTopic r);;
  massert ((0 <=? CurrentPartitionIndexInTopic r) &&
           (CurrentPartitionIndexInTopic r <? NumPartitionsInTopic r));;
  GetPartitionStart (CurrentPartitionIndexInTopic r).

Definition GetCurrentPartitionNumber : RM Z :=
  r ← get; pos ← current_partition; rd32 (Mem r) pos.

Definition GetCurrentPartitionErrorCode : RM Z :=
  r ← get; pos ← current_partition; rd16 (Mem r) (pos + PARTITION_SIZE).

Definition GetCurrentPartitionOffset : RM Z :=
  r ← get; pos ← current_partition; rd64 (Mem r) (pos + PARTITION_SIZE + ERROR_CODE_SIZE).

End Reader.

Module Writer.

(** [OutBuf]: is the pointer set; [Out] is the vector it points to (the
    caller's).  [size_t] members are [nat]. *)
Record TProduceResponseWriter := mkWriter {
  Out : list byte;
  OutBuf : bool;
  TopicStarted : bool;
  CurrentTopicOffset : nat;
  CurrentTopicIndex : nat;
  PartitionCountOffset : nat;
  CurrentPartitionOffset : nat;
  CurrentPartitionIndex : nat
}.

Definition WM := M Empty_set TProduceResponseWriter.

Definition BYTES_PER_PARTITION : nat := 4 + 2 + 8.

(** [out.resize(n)], and a write of [bytes] at [&out[off]]. *)
Definition resize (n : nat) : WM () :=
  modify (λ w, mkWriter (vec_resize n (Out w)) (OutBuf w) (TopicStarted w) (CurrentTopicOffset w)
    (CurrentTopicIndex w) (PartitionCountOffset w) (CurrentPartitionOffset w) (CurrentPartitionIndex w)).

Definition write (off : nat) (bytes : list byte) : WM () :=
  w ← get;
  out ← need OutOfBounds (vec_write off bytes (Out w));
  modify (λ w, mkWriter out (OutBuf w) (TopicStarted w) (CurrentTopicOffset w)
    (CurrentTopicIndex w) (PartitionCountOffset w) (CurrentPartitionOffset w) (CurrentPartitionIndex w)).

Definition Reset : WM () := modify (λ w, mkWriter (Out w) false false 0 0 0 0 0).

Definition OpenResponse (correlation_id : Z) : WM () :=
  Reset;;
  w ← get;
  massert (negb (OutBuf w));;
  massert (negb (TopicStarted w));;
  modify (λ w, mkWriter (Out w) true (TopicStarted w) (4 + 4 + 4) (CurrentTopicIndex w)
    (PartitionCountOffset w) (CurrentPartitionOffset w) (CurrentPartitionIndex w));;
  resize (4 + 4 + 4);;
  write 4 (WriteInt32ToHeader correlation_id).

Definition OpenTopic (topic : list byte) : WM () :=
  w ← get;
  massert (OutBuf w);;
  massert (negb (TopicStarted w));;
  massert (4 + 4 + 4 <=? CurrentTopicOffset w)%nat;;
  massert (Z.of_nat (length topic) <=? INT16_MAX);;
  let topic_len := length topic in
  let off := CurrentTopicOffset w in
  resize (length (Out w) + 2 + topic_len + 4);;
  write off (WriteInt16ToHeader (if (topic_len =? 0)%nat then -1 else Z.of_nat topic_len));;
  write (off + 2) topic;;
  modify (λ w, mkWriter (Out w) (OutBuf w) true (CurrentTopicOffset w) (CurrentTopicIndex w)
    (off + 2 + topic_len) (off + 2 + topic_len + 4) 0).

Definition AddPartition (partition error_code offset : Z) : WM () :=
  massert (0 <=? partition);;
  massert (0 <=? offset);;
  w ← get;
  massert (OutBuf w);;
  massert (TopicStarted w);;
  massert (4 + 4 + 4 <=? CurrentTopicOffset w)%nat;;
  massert (CurrentTopicOffset w <? CurrentPartitionOffset w)%nat;;
  resize (length (Out w) + BYTES_PER_PARTITION);;
  write (CurrentPartitionOffset w) (WriteInt32ToHeader partition);;
  write (CurrentPartitionOffset w + 4) (WriteInt16ToHeader error_code);;
  write (CurrentPartitionOffset w + 4 + 2) (WriteInt64ToHeader offset);;
  modify (λ w, mkWriter (Out w) (OutBuf w) (TopicStarted w) (CurrentTopicOffset w) (CurrentTopicIndex w)
    (PartitionCountOffset w) (CurrentPartitionOffset w + BYTES_PER_PARTITION)
    (S (CurrentPartitionIndex w))).

Definition CloseTopic : WM () :=
  w ← get;
  massert (OutBuf w);;
  massert (TopicStarted w);;
  massert (4 + 4 + 4 <=? CurrentTopicOffset w)%nat;;
  massert (CurrentTopicOffset w <? PartitionCountOffset w)%nat;;
  massert (PartitionCountOffset w + 4 <=? CurrentPartitionOffset w)%nat;;
  write (PartitionCountOffset w) (WriteInt32ToHeader (swrap 32 (Z.of_nat (CurrentPartitionIndex w))));;
  modify (λ w, mkWriter (Out w) (OutBuf w) false (CurrentPartitionOffset w) (S (CurrentTopicIndex w)) 0 0 0).

Definition CloseResponse : WM () :=
  w ← get;
  massert (OutBuf w);;
  massert (negb (TopicStarted w));;
  massert (4 + 4 + 4 <=? CurrentTopicOffset w)%nat;;
  write (4 + 4) (WriteInt32ToHeader (swrap 32 (Z.of_nat (CurrentTopicIndex w))));;
  w ← get;
  massert (4 <? length (Out w))%nat;;
  write 0 (WriteInt32ToHeader (swrap 32 (Z.of_nat (length (Out w)) - 4)));;
  modify (λ w, mkWriter (Out w) false false 0 0 0 0 0).

End Writer.

(** ** The format *)

Record ack := mkAck { ack_partition : Z; ack_error : Z; ack_offset : Z }.

Definition enc_ack (a : ack) : list byte :=
  WriteInt32ToHeader (ack_partition a) ++ WriteInt16ToHeader (ack_error a) ++
  WriteInt64ToHeader (ack_offset a).

(** The length of a name; -1 stands for 0. *)
Definition enc_len (name : list byte) : list byte :=
  WriteInt16ToHeader (if (length name =? 0)%nat then -1 else Z.of_nat (length name)).

Definition enc_topic (t : list byte * list ack) : list byte :=
  enc_len t.1 ++ t.1 ++ WriteInt32ToHeader (Z.of_nat (length t.2)) ++ concat (enc_ack <$> t.2).

Definition enc_topics (ts : list (list byte * list ack)) : list byte := concat (enc_topic <$> ts).

Definition enc_response (corr_id : Z) (ts : list (list byte * list ack)) : list byte :=
  WriteInt32ToHeader (8 + Z.of_nat (length (enc_topics ts))) ++ WriteInt32ToHeader corr_id ++
  WriteInt32ToHeader (Z.of_nat (length ts)) ++ enc_topics ts.

Record ack_ok (a : ack) : Prop := {
  ak_partition : in_s 32 (ack_partition a) ∧ 0 ≤ ack_partition a;
  ak_error : in_s 16 (ack_error a);
  ak_offset : in_s 64 (ack_offset a) ∧ 0 ≤ ack_offset a
}.

Definition topic_ok (t : list byte * list ack) : Prop :=
  Z.of_nat (length t.1) ≤ INT16_MAX ∧ Forall ack_ok t.2.

(** A response that fits its size field. *)
Definition response_ok (corr_id : Z) (ts : list (list byte * list ack)) : Prop :=
  in_s 32 corr_id ∧ Forall topic_ok ts ∧ 8 + Z.of_nat (length (enc_topics ts)) ≤ INT32_MAX.

(** ** Writing a response *)

Fixpoint write_acks (l : list ack) : Writer.WM () :=
  match l with
  | [] => mret ()
  | a :: l => Writer.AddPartition (ack_partition a) (ack_error a) (ack_offset a);; write_acks l
  end.

Fixpoint write_topics (ts : list (list byte * list ack)) : Writer.WM () :=
  match ts with
  | [] => mret ()
  | t :: ts => Writer.OpenTopic t.1;; write_acks t.2;; Writer.CloseTopic;; write_topics ts
  end.

Definition write_response (corr_id : Z) (ts : list (list byte * list ack)) : Writer.WM () :=
  Writer.OpenResponse corr_id;; write_topics ts;; Writer.CloseResponse.

(** ** Reading a response to its end *)

Section loops.
Import Reader.

Fixpoint read_acks (fuel : nat) : RM (list ack) :=
  match fuel with
  | O => crash OutOfFuel
  | S fuel =>
      more ← NextPartitionInTopic;
      if more : bool then
        p ← GetCurrentPartitionNumber;
        e ← GetCurrentPartitionErrorCode;
        o ← GetCurrentPartitionOffset;
        l ← read_acks fuel;
        mret (mkAck p e o :: l)
      else mret []
  end.

Fixpoint read_topics (fuel : nat) : RM (list (list byte * list ack)) :=
  match fuel with
  | O => crash OutOfFuel
  | S fuel' =>
      more ← NextTopic;
      if more : bool then
        name ← GetCurrentTopicName;
        acks ← read_acks fuel;
        l ← read_topics fuel';
        mret ((name, acks) :: l)
      else mret []
  end.

(** Every partition and every topic takes bytes of the response, so the number
    of bytes is enough fuel. *)
Definition read_response (buf : list byte) : RM (Z * list (list byte * list ack)) :=
  SetResponse buf;;
  corr_id ← GetCorrelationId;
  ts ← read_topics (S (length buf));
  mret (corr_id, ts).
End loops.

Section writer_proofs.
Import Writer.

Definition with_out (o : list byte) (w : TProduceResponseWriter) : TProduceResponseWriter :=
  mkWriter o (OutBuf w) (TopicStarted w) (CurrentTopicOffset w) (CurrentTopicIndex w)
    (PartitionCountOffset w) (CurrentPartitionOffset w) (CurrentPartitionIndex w).

Ltac wcbn := cbn [Out OutBuf TopicStarted CurrentTopicOffset CurrentTopicIndex PartitionCountOffset
  CurrentPartitionOffset CurrentPartitionIndex with_out].

Lemma write_ok w off bytes a b c :
  Out w = a ++ b ++ c → off = length a → length b = length bytes →
  write off bytes w = (Ret (), with_out (a ++ bytes ++ c) w).
Proof.
  intros Ho -> Hl. unfold write, WM. rewrite (bind_Ret _ _ w w w) by done. cbv beta.
  rewrite Ho, (vec_write_at a b bytes c) by done. reflexivity.
Qed.

Lemma resize_ok w k :
  resize (length (Out w) + k) w = (Ret (), with_out (Out w ++ replicate k x00) w).
Proof.
  unfold resize, modify. rewrite vec_resize_grow by lia.
  by replace (length (Out w) + k - length (Out w))%nat with k by lia.
Qed.

(** A writer between topics, after [n] topics; [pre] is the response so far. *)
Record between (pre : list byte) (n : nat) (w : TProduceResponseWriter) : Prop := {
  bt_out : Out w = pre;
  bt_buf : OutBuf w = true;
  bt_started : TopicStarted w = false;
  bt_offset : CurrentTopicOffset w = length pre;
  bt_index : CurrentTopicIndex w = n;
  bt_length : (12 ≤ length pre)%nat
}.

(** A writer in a topic, after [k] partitions [body]; the count [cnt] is not
    filled in yet. *)
Record in_topic (pre : list byte) (n : nat) (name body : list byte) (k : nat)
    (w : TProduceResponseWriter) : Prop := {
  it_out : ∃ cnt, length cnt = 4%nat ∧ Out w = pre ++ enc_len name ++ name ++ cnt ++ body;
  it_buf : OutBuf w = true;
  it_started : TopicStarted w = true;
  it_offset : CurrentTopicOffset w = length pre;
  it_index : CurrentTopicIndex w = n;
  it_count : PartitionCountOffset w = (length pre + 2 + length name)%nat;
  it_partition : CurrentPartitionOffset w = (length pre + 2 + length name + 4 + length body)%nat;
  it_k : CurrentPartitionIndex w = k;
  it_length : (12 ≤ length pre)%nat
}.

Lemma enc_len_length name : length (enc_len name) = 2%nat.
Proof. apply length_WriteInt16. Qed.

Lemma resp_OpenTopic_ok pre n name w :
  between pre n w → Z.of_nat (length name) ≤ INT16_MAX →
  ∃ w', OpenTopic name w = (Ret (), w') ∧ in_topic pre n name [] 0 w'.
Proof.
  intros [Ho Hb Hs Hoff Hi Hl] Hn. unfold OpenTopic, WM. rewrite (bind_Ret _ _ w w w) by done. cbv beta.
  rewrite Hb, Hs, Hoff. rewrite !massert_bind by boolia.
  rewrite <- !Nat.add_assoc, (bind_Ret _ _ _ _ _ (resize_ok w _)), Ho.
  set (len := if (length name =? 0)%nat then -1 else Z.of_nat (length name)).
  set (w1 := with_out _ w). fold len in w1.
  assert (write (length pre) (WriteInt16ToHeader len) w1 =
    (Ret (), with_out (pre ++ WriteInt16ToHeader len ++ replicate (length name + 4) x00) w1)) as Hw1.
  { apply (write_ok _ _ _ pre (replicate 2 x00)); [| done | by rewrite length_WriteInt16, length_replicate].
    cbn [Out with_out w1]. by rewrite <- replicate_add. }
  rewrite (bind_Ret _ _ _ _ _ Hw1).
  assert (write (length pre + 2) name
    (with_out (pre ++ WriteInt16ToHeader len ++ replicate (length name + 4) x00) w1) =
    (Ret (), with_out (pre ++ enc_len name ++ name ++ replicate 4 x00) w1)) as Hw2.
  { rewrite (app_assoc pre), (app_assoc pre). rewrite (write_ok _ _ _ (pre ++ enc_len name)
      (replicate (length name) x00) (replicate 4 x00)); [done | | | by rewrite length_replicate].
    - cbn [Out with_out]. by rewrite <- replicate_add.
    - by rewrite length_app, enc_len_length. }
  rewrite (bind_Ret _ _ _ _ _ Hw2). eexists. split; [reflexivity |].
  split; wcbn; cbn [length]; try done; try lia.
  exists (replicate 4 x00). by rewrite app_nil_r.
Qed.

Lemma resp_AddPartition_ok pre n name body k a w :
  in_topic pre n name body k w → 0 ≤ ack_partition a → 0 ≤ ack_offset a →
  ∃ w', AddPartition (ack_partition a) (ack_error a) (ack_offset a) w = (Ret (), w') ∧
    in_topic pre n name (body ++ enc_ack a) (S k) w'.
Proof.
  intros [(cnt & Hc & Ho) Hb Hs Hoff Hi Hcnt Hp Hk Hl] Ha1 Ha2. unfold AddPartition, WM.
  rewrite !massert_bind by lia. rewrite (bind_Ret _ _ w w w) by done. cbv beta.
  rewrite Hb, Hs, Hoff, Hp.
  rewrite !massert_bind by boolia.
  rewrite (bind_Ret _ _ _ _ _ (resize_ok w _)).
  set (pos := (length pre + 2 + length name + 4 + length body)%nat).
  assert (length (Out w) = pos) as Hpos by (rewrite Ho, !length_app, enc_len_length, Hc; lia).
  rewrite (bind_Ret _ _ _ _ _ (write_ok (with_out (Out w ++ replicate BYTES_PER_PARTITION x00) w) pos
    (WriteInt32ToHeader (ack_partition a)) (Out w) (replicate 4 x00) (replicate 10 x00)
    eq_refl (eq_sym Hpos) ltac:(by rewrite length_WriteInt32))).
  set (p32 := WriteInt32ToHeader (ack_partition a)) in *.
  assert (length p32 = 4%nat) as H32 by apply length_WriteInt32.
  rewrite (bind_Ret _ _ _ _ _ (write_ok (with_out (Out w ++ p32 ++ replicate 10 x00) w) (pos + 4)
    (WriteInt16ToHeader (ack_error a)) (Out w ++ p32) (replicate 2 x00) (replicate 8 x00)
    ltac:(cbn [Out with_out]; by rewrite <- app_assoc) ltac:(rewrite length_app; lia)
    ltac:(by rewrite length_WriteInt16))).
  set (e16 := WriteInt16ToHeader (ack_error a)) in *.
  assert (length e16 = 2%nat) as H16 by apply length_WriteInt16.
  rewrite (bind_Ret _ _ _ _ _ (write_ok (with_out ((Out w ++ p32) ++ e16 ++ replicate 8 x00) w)
    (pos + 4 + 2) (WriteInt64ToHeader (ack_offset a)) ((Out w ++ p32) ++ e16) (replicate 8 x00) []
    ltac:(cbn [Out with_out]; by rewrite <- !app_assoc) ltac:(rewrite !length_app; lia)
    ltac:(by rewrite length_WriteInt64))).
  eexists. split; [reflexivity |].
  assert (length (enc_ack a) = 14%nat) as Hea
    by (unfold enc_ack; rewrite !length_app, length_WriteInt32, length_WriteInt16, length_WriteInt64; lia).
  split; wcbn; try done; try (rewrite ?length_app; lia).
  - exists cnt. split; [done |]. rewrite Ho. unfold enc_ack. rewrite app_nil_r. by rewrite <- !app_assoc.
  - rewrite Hp, length_app, Hea. unfold BYTES_PER_PARTITION. lia.
Qed.

Lemma resp_CloseTopic_ok pre n name body k w :
  in_topic pre n name body k w → in_s 32 (Z.of_nat k) →
  ∃ w', CloseTopic w = (Ret (), w') ∧
    between (pre ++ enc_len name ++ name ++ WriteInt32ToHeader (Z.of_nat k) ++ body) (S n) w'.
Proof.
  intros [(cnt & Hc & Ho) Hb Hs Hoff Hi Hcnt Hp Hk Hl] Hr. unfold CloseTopic, WM.
  rewrite (bind_Ret _ _ w w w) by done. cbv beta. rewrite Hb, Hs, Hoff, Hcnt, Hp.
  rewrite !massert_bind by boolia.
  rewrite Hk, swrap_small by (done || lia).
  rewrite (bind_Ret _ _ _ _ _ (write_ok w (length pre + 2 + length name)
    (WriteInt32ToHeader (Z.of_nat k)) (pre ++ enc_len name ++ name) cnt body
    ltac:(by rewrite Ho, <- !app_assoc) ltac:(rewrite !length_app, enc_len_length; lia)
    ltac:(by rewrite length_WriteInt32))).
  eexists. split; [reflexivity |]. split; wcbn; try done.
  - by rewrite <- !app_assoc.
  - rewrite Hp, !length_app, enc_len_length, length_WriteInt32. lia.
  - by rewrite Hi.
  - rewrite !length_app. lia.
Qed.

Lemma write_acks_ok pre n name l body k w :
  in_topic pre n name body k w → Forall ack_ok l →
  ∃ w', write_acks l w = (Ret (), w') ∧
    in_topic pre n name (body ++ concat (enc_ack <$> l)) (k + length l) w'.
Proof.
  intros Hw Hl. revert body k w Hw. induction Hl as [| a l Ha Hl IH]; intros body k w Hw.
  - exists w. split; [done |]. cbn. by rewrite app_nil_r, Nat.add_0_r.
  - destruct (resp_AddPartition_ok _ _ _ _ _ a _ Hw) as (w1 & Hr1 & Hw1); [apply Ha | apply Ha |].
    destruct (IH _ _ _ Hw1) as (w2 & Hr2 & Hw2). exists w2. cbn [write_acks]. unfold WM in *.
    rewrite (bind_Ret _ _ _ _ _ Hr1). split; [done |]. cbn. rewrite <- app_assoc in Hw2.
    by replace (k + S (length l))%nat with (S k + length l)%nat by lia.
Qed.

Lemma enc_acks_length l : length (concat (enc_ack <$> l)) = (14 * length l)%nat.
Proof.
  induction l as [| a l IH]; [done |]. cbn [fmap list_fmap concat length]. rewrite length_app, IH.
  unfold enc_ack. rewrite !length_app, length_WriteInt32, length_WriteInt16, length_WriteInt64. lia.
Qed.

Lemma enc_topic_length t : length (enc_topic t) = (6 + length t.1 + 14 * length t.2)%nat.
Proof.
  unfold enc_topic. rewrite !length_app, enc_len_length, length_WriteInt32, enc_acks_length. lia.
Qed.

Lemma write_topics_ok ts pre n w :
  between pre n w → Forall topic_ok ts → Z.of_nat (length (enc_topics ts)) ≤ INT32_MAX →
  ∃ w', write_topics ts w = (Ret (), w') ∧ between (pre ++ enc_topics ts) (n + length ts) w'.
Proof.
  intros Hw Hts. revert pre n w Hw. induction Hts as [| [name acks] ts [Hn Ha] Hts IH]; intros pre n w Hw Hl.
  - exists w. split; [done |]. cbn. by rewrite app_nil_r, Nat.add_0_r.
  - unfold enc_topics in Hl |- *. cbn [fmap list_fmap concat] in Hl |- *. rewrite length_app in Hl.
    rewrite enc_topic_length in Hl. cbn [fst snd] in Hn, Ha, Hl. fold (enc_topics ts) in Hl |- *.
    destruct (resp_OpenTopic_ok _ _ name _ Hw Hn) as (w1 & Hr1 & Hw1).
    destruct (write_acks_ok _ _ _ acks _ _ _ Hw1 Ha) as (w2 & Hr2 & Hw2). cbn [app Nat.add] in Hw2.
    destruct (resp_CloseTopic_ok _ _ _ _ _ _ Hw2) as (w3 & Hr3 & Hw3).
    { unfold in_s. change (2 ^ (32 - 1)) with (INT32_MAX + 1). lia. }
    destruct (IH _ _ _ Hw3) as (w4 & Hr4 & Hw4); [lia |]. exists w4.
    cbn [write_topics fst snd]. unfold WM in *.
    rewrite (bind_Ret _ _ _ _ _ Hr1), (bind_Ret _ _ _ _ _ Hr2), (bind_Ret _ _ _ _ _ Hr3).
    split; [done |]. unfold enc_topic. cbn [fst snd length]. rewrite <- !app_assoc in Hw4 |- *.
    by replace (n + S (length ts))%nat with (S n + length ts)%nat by lia.
Qed.

Lemma write_response_ok corr_id ts w :
  response_ok corr_id ts →
  ∃ w', write_response corr_id ts w = (Ret (), w') ∧ Out w' = enc_response corr_id ts ∧ OutBuf w' = false.
Proof.
  intros (Hc & Hts & Hl). unfold write_response, OpenResponse, WM.
  set (w0 := mkWriter (vec_resize 12 (Out w)) true false 12 0 0 0 0).
  assert (∃ a c, length a = 4%nat ∧ length c = 4%nat ∧
    OpenResponse corr_id w = (Ret (), with_out (a ++ WriteInt32ToHeader corr_id ++ c) w0)) as (a & c & Ha & Hc' & Hr0).
  { set (v := vec_resize 12 (Out w)) in *. assert (length v = 12%nat) as Hv by apply vec_resize_length.
    exists (take 4 v), (drop 8 v). rewrite length_take, length_drop. split; [lia |]. split; [lia |].
    unfold OpenResponse, WM. do 6 (erewrite bind_Ret by reflexivity).
    apply (write_ok _ _ _ (take 4 v) (take 4 (drop 4 v)) (drop 8 v)).
    - cbn [Out]. change (vec_resize (4 + 4 + 4) (Out w)) with v. rewrite <- (take_drop 4 v) at 1. f_equal.
      rewrite <- (take_drop 4 (drop 4 v)) at 1. f_equal. by rewrite drop_drop.
    - rewrite length_take. lia.
    - rewrite length_take, length_drop, length_WriteInt32. lia. }
  fold (OpenResponse corr_id). unfold WM in Hr0. rewrite (bind_Ret _ _ _ _ _ Hr0).
  set (pre := a ++ WriteInt32ToHeader corr_id ++ c).
  assert (length pre = 12%nat) as Hpre by (unfold pre; rewrite !length_app, length_WriteInt32; lia).
  assert (between pre 0 (with_out pre w0)) as Hw by (split; try done; wcbn; lia).
  destruct (write_topics_ok ts pre 0 _ Hw Hts) as (w1 & Hr1 & [Ho Hb Hs Hoff Hi Hlen]); [lia |].
  unfold WM in Hr1. rewrite (bind_Ret _ _ _ _ _ Hr1). unfold CloseResponse, WM.
  rewrite (bind_Ret _ _ w1 w1 w1) by done. cbv beta. rewrite Hb, Hs, Hoff, Hi.
  rewrite !massert_bind by boolia.
  assert (in_s 32 (Z.of_nat (length ts))) as Hcnt.
  { unfold in_s. change (2 ^ (32 - 1)) with (INT32_MAX + 1).
    assert (length ts ≤ length (enc_topics ts))%nat; [| lia]. unfold enc_topics. clear.
    induction ts as [| t ts IH]; [done |]. cbn [fmap list_fmap concat length].
    rewrite length_app, enc_topic_length. lia. }
  cbn [Nat.add]. rewrite swrap_small by (done || lia).
  rewrite (bind_Ret _ _ _ _ _ (write_ok w1 8 (WriteInt32ToHeader (Z.of_nat (length ts)))
    (a ++ WriteInt32ToHeader corr_id) c (enc_topics ts) ltac:(rewrite Ho; unfold pre; by rewrite <- !app_assoc)
    ltac:(rewrite length_app, length_WriteInt32; lia) ltac:(by rewrite length_WriteInt32))).
  erewrite bind_Ret by reflexivity. wcbn.
  assert (length ((a ++ WriteInt32ToHeader corr_id) ++ WriteInt32ToHeader (Z.of_nat (length ts)) ++ enc_topics ts) =
    (12 + length (enc_topics ts))%nat) as Hlen'
    by (rewrite !length_app, !length_WriteInt32; lia).
  rewrite Hlen', massert_bind by boolia.
  rewrite swrap_small by (try lia; unfold in_s; change (2 ^ (32 - 1)) with (INT32_MAX + 1); lia).
  rewrite (bind_Ret _ _ _ _ _ (write_ok (with_out ((a ++ WriteInt32ToHeader corr_id) ++
    WriteInt32ToHeader (Z.of_nat (length ts)) ++ enc_topics ts) w1) 0 _ [] a
    (WriteInt32ToHeader corr_id ++ WriteInt32ToHeader (Z.of_nat (length ts)) ++ enc_topics ts)
    ltac:(wcbn; by rewrite <- !app_assoc) eq_refl ltac:(by rewrite length_WriteInt32))).
  eexists. split; [reflexivity |]. split; [| done]. wcbn. unfold enc_response.
  by replace (Z.of_nat (12 + length (enc_topics ts)) - 4) with (8 + Z.of_nat (length (enc_topics ts))) by lia.
Qed.
End writer_proofs.

(** ** Reading *)

Section reader_proofs.
Import Reader.

(** A reader of [mem] that ends at [e], at topic [i] of [nt] which begins at [b]
    and whose name ends at [n], with [np] partitions, at partition [k]. *)
Definition at_topic (mem : list byte) (e nt i b n np k : Z) (cs : list counter) : TProduceResponseReader :=
  mkReader mem (Some 0) (Some e) nt i (Some b) (Some n) np k cs.

Definition pos (n k : Z) : Z := n + 4 + 14 * k.

(** What [SetResponse] and the initialization of a topic check. *)
Record located (mem : list byte) (e nt i b n np : Z) : Prop := {
  lc_end : e ≤ Z.of_nat (length mem) ∧ e ≤ 2 ^ 31 + 3;
  lc_index : 0 ≤ i < nt;
  lc_nt : in_s 32 nt;
  lc_begin : 12 ≤ b ∧ b + 2 ≤ n;
  lc_name : n + 4 ≤ e;
  lc_np : 0 ≤ np ∧ in_s 32 np
}.

Lemma int32_ok {E S} z (s : S) : in_s 32 z → int32_arith (E := E) z s = (Ret z, s).
Proof. intros Hz. unfold int32_arith. by rewrite decide_True. Qed.

Ltac pos_lia := unfold pos in *; lia.

Lemma GetPartitionStart_ok mem e nt i b n np k cs j :
  located mem e nt i b n np → 0 ≤ j → pos n j ≤ e + 14 →
  GetPartitionStart j (at_topic mem e nt i b n np k cs) = (Ret (pos n j), at_topic mem e nt i b n np k cs).
Proof.
  intros Hl Hj Hp. unfold GetPartitionStart, RM. rstep.
  destruct Hl as [[He1 He2] Hi Hnt [Hb1 Hb2] Hn [Hnp1 Hnp2]].
  cbn [NumTopics CurrentTopicBegin CurrentTopicNameEnd NumPartitionsInTopic at_topic non_null].
  rewrite !massert_bind by boolia. cbn [need]. rstep.
  change (PARTITION_SIZE + ERROR_CODE_SIZE + OFFSET_SIZE) with 14.
  rewrite (bind_Ret _ _ _ _ _ (int32_ok (j * 14) _ ltac:(unfold in_s, pos in *; lia))).
  unfold mret, M_ret, pos, PARTITION_COUNT_SIZE. by replace (j * 14) with (14 * j) by lia.
Qed.

Lemma InitCurrentPartition_ok mem e nt i b n np k cs :
  located mem e nt i b n np → 0 ≤ k < np → pos n k ≤ e →
  InitCurrentPartition (at_topic mem e nt i b n np k cs) =
    if decide (pos n (k + 1) ≤ e) then (Ret (), at_topic mem e nt i b n np k cs)
    else (Throw TResponseTruncated, at_topic mem e nt i b n np k (ProduceResponseTruncated 5 :: cs)).
Proof.
  intros Hl Hk Hp. unfold InitCurrentPartition, RM. rstep.
  pose proof (lc_np _ _ _ _ _ _ _ Hl) as [_ Hnp].
  cbn [CurrentPartitionIndexInTopic at_topic].
  rewrite (bind_Ret _ _ _ _ _ (int32_ok (k + 1) _ ltac:(unfold in_s in *; lia))).
  assert (pos n (k + 1) ≤ e + 14) as Hp1 by (unfold pos in *; lia).
  assert (0 ≤ k + 1) as Hk1 by lia.
  pose proof (GetPartitionStart_ok _ _ _ _ _ _ _ k cs (k + 1) Hl Hk1 Hp1) as Hg. unfold RM in Hg.
  rewrite (bind_Ret _ _ _ _ _ Hg). cbn [End_ at_topic need]. rstep. case_decide.
  - by rewrite (proj2 (Z.ltb_ge _ _)) by lia.
  - by rewrite (proj2 (Z.ltb_lt _ _)) by lia.
Qed.

(** The next partition, when [k] partitions have been read. *)
Lemma NextPartition_ok mem e nt i b n np k cs :
  located mem e nt i b n np → 0 ≤ k ≤ np → pos n k ≤ e →
  NextPartitionInTopic (at_topic mem e nt i b n np (k - 1) cs) =
    if decide (k = np) then (Ret false, at_topic mem e nt i b n np (if decide (np = 0) then -1 else np) cs)
    else if decide (pos n (k + 1) ≤ e) then (Ret true, at_topic mem e nt i b n np k cs)
    else (Throw TResponseTruncated, at_topic mem e nt i b n np k (ProduceResponseTruncated 5 :: cs)).
Proof.
  intros Hl Hk Hp. unfold NextPartitionInTopic, RM. rstep.
  pose proof Hl as [[He1 He2] Hi Hnt [Hb1 Hb2] Hn [Hnp1 Hnp2]].
  cbn [NumTopics CurrentTopicBegin CurrentTopicNameEnd NumPartitionsInTopic CurrentPartitionIndexInTopic
    at_topic non_null]. rewrite !massert_bind by boolia.
  destruct (Z.ltb_spec (k - 1) 0) as [H0 | H0].
  - replace k with 0 in * by lia. unfold FirstPartitionInTopic, RM. rstep.
    cbn [NumTopics CurrentTopicBegin CurrentTopicNameEnd NumPartitionsInTopic at_topic non_null].
    rewrite !massert_bind by boolia. destruct (Z.ltb_spec np 1) as [H1 | H1].
    + by rewrite decide_True, decide_True by lia.
    + rewrite decide_False by lia. rstep.
      pose proof (InitCurrentPartition_ok mem e nt i b n np 0 cs Hl ltac:(lia) Hp) as Hinit. unfold RM in Hinit.
      case_decide as Hd.
      * rewrite (bind_Ret _ _ _ _ _ Hinit). done.
      * rewrite (bind_Throw _ _ _ _ _ Hinit). done.
  - rewrite (proj2 (Z.leb_gt _ _)) by lia. rstep. replace (k - 1 + 1) with k by lia.
    destruct (Z.ltb_spec k np) as [H1 | H1].
    + rewrite decide_False by lia.
      pose proof (InitCurrentPartition_ok mem e nt i b n np k cs Hl ltac:(lia) Hp) as Hinit. unfold RM in Hinit.
      case_decide as Hd.
      * rewrite (bind_Ret _ _ _ _ _ Hinit). done.
      * rewrite (bind_Throw _ _ _ _ _ Hinit). done.
    + rewrite decide_True, decide_False by lia. unfold mret, M_ret, at_topic. cbn.
      by replace k with np by lia.
Qed.

Lemma current_partition_ok mem e nt i b n np k cs :
  located mem e nt i b n np → 0 ≤ k < np → pos n (k + 1) ≤ e →
  current_partition (at_topic mem e nt i b n np k cs) = (Ret (pos n k), at_topic mem e nt i b n np k cs).
Proof.
  intros Hl Hk Hp. unfold current_partition, RM. rstep.
  pose proof Hl as [[He1 He2] Hi Hnt [Hb1 Hb2] Hn [Hnp1 Hnp2]].
  cbn [NumTopics CurrentTopicBegin CurrentTopicNameEnd NumPartitionsInTopic CurrentPartitionIndexInTopic
    at_topic non_null]. rewrite !massert_bind by boolia.
  apply GetPartitionStart_ok; [done | lia |]. unfold pos in *. lia.
Qed.

Lemma ack_fields_ok mem e nt i b n np k cs :
  located mem e nt i b n np → 0 ≤ k < np → pos n (k + 1) ≤ e →
  let r := at_topic mem e nt i b n np k cs in
  GetCurrentPartitionNumber r = rd32 mem (pos n k) r ∧
  GetCurrentPartitionErrorCode r = rd16 mem (pos n k + 4) r ∧
  GetCurrentPartitionOffset r = rd64 mem (pos n k + 4 + 2) r.
Proof.
  intros Hl Hk Hp r. pose proof (current_partition_ok _ _ _ _ _ _ _ _ cs Hl Hk Hp) as Hc. fold r in Hc.
  unfold GetCurrentPartitionNumber, GetCurrentPartitionErrorCode, GetCurrentPartitionOffset, RM in *.
  split_and!; rstep; by rewrite (bind_Ret _ _ _ _ _ Hc).
Qed.

(** The reader of an unopened topic that begins at [b]. *)
Definition before_topic (mem : list byte) (e nt i b : Z) (ne : option Z) (np k : Z) (cs : list counter)
    : TProduceResponseReader := mkReader mem (Some 0) (Some e) nt i (Some b) ne np k cs.

Lemma InitCurrentTopic_safe mem e nt i b ne np k cs :
  e ≤ Z.of_nat (length mem) → e ≤ 2 ^ 31 + 3 → 0 ≤ i < nt → in_s 32 nt → 12 ≤ b →
  (∃ n np', InitCurrentTopic (before_topic mem e nt i b ne np k cs) =
     (Ret (), at_topic mem e nt i b n np' (-1) cs) ∧ located mem e nt i b n np') ∨
  (∃ x s, InitCurrentTopic (before_topic mem e nt i b ne np k cs) = (Throw x, s) ∧
     TBadProduceResponse x = true).
Proof.
  intros He1 He2 Hi Hnt Hb. unfold InitCurrentTopic, RM. rstep.
  cbn [CurrentTopicBegin End_ before_topic Mem need]. do 2 rstep. unfold TOPIC_NAME_LEN_SIZE.
  destruct (Z.ltb_spec e (b + 2)) as [H1 | H1].
  { right. by eexists _, _. }
  destruct (rd16_ok (E := exn) mem b (before_topic mem e nt i b ne np k cs) ltac:(lia) ltac:(lia))
    as (len & Hlen & Hr). rewrite (bind_Ret _ _ _ _ _ Hlen). cbv zeta.
  set (tl := if len =? -1 then 0 else len).
  destruct (Z.ltb_spec tl 0) as [H2 | H2].
  { right. by eexists _, _. }
  rstep. unfold PARTITION_COUNT_SIZE. destruct (Z.ltb_spec e (b + 2 + tl + 4)) as [H3 | H3].
  { right. by eexists _, _. }
  match goal with |- context [(rd32 mem ?p ≫= _) ?s] =>
    destruct (rd32_ok (E := exn) mem p s ltac:(lia) ltac:(lia)) as (n & Hn & Hrn) end.
  rewrite (bind_Ret _ _ _ _ _ Hn). rstep. destruct (Z.ltb_spec n 0) as [H4 | H4].
  { right. by eexists _, _. }
  left. exists (b + 2 + tl), n. split; [reflexivity |]. split; try done; lia.
Qed.

Definition exhausted (np : Z) : Z := if decide (np = 0) then -1 else np.

Lemma read_acks_safe fuel mem e nt i b n np k cs :
  located mem e nt i b n np → 0 ≤ k ≤ np → pos n k ≤ e → e - pos n k < Z.of_nat fuel →
  (∃ l, read_acks fuel (at_topic mem e nt i b n np (k - 1) cs) =
     (Ret l, at_topic mem e nt i b n np (exhausted np) cs) ∧ pos n np ≤ e) ∨
  (∃ x s, read_acks fuel (at_topic mem e nt i b n np (k - 1) cs) = (Throw x, s) ∧
     TBadProduceResponse x = true).
Proof.
  intros Hl. revert k. induction fuel as [| fuel IH]; intros k Hk Hp Hf; [lia |].
  cbn [read_acks]. unfold RM in *. pose proof (NextPartition_ok _ _ _ _ _ _ _ k cs Hl Hk Hp) as Hnext.
  unfold RM in Hnext. case_decide as Hd.
  { left. subst k. rewrite (bind_Ret _ _ _ _ _ Hnext). by eexists. }
  case_decide as Hd'; [| right; rewrite (bind_Throw _ _ _ _ _ Hnext); by eexists _, _].
  rewrite (bind_Ret _ _ _ _ _ Hnext).
  pose proof (ack_fields_ok mem e nt i b n np k cs Hl ltac:(lia) Hd') as (Hf1 & Hf2 & Hf3).
  pose proof Hl as [[He1 He2] _ _ [Hb1 Hb2] _ _].
  set (r := at_topic mem e nt i b n np k cs) in *.
  destruct (rd32_ok (E := exn) mem (pos n k) r ltac:(pos_lia) ltac:(pos_lia)) as (p & Hp' & _).
  destruct (rd16_ok (E := exn) mem (pos n k + 4) r ltac:(pos_lia) ltac:(pos_lia)) as (er & He & _).
  destruct (rd64_ok (E := exn) mem (pos n k + 4 + 2) r ltac:(pos_lia) ltac:(pos_lia)) as (o & Ho & _).
  rewrite Hp' in Hf1. rewrite He in Hf2. rewrite Ho in Hf3. unfold RM in *.
  rewrite (bind_Ret _ _ _ _ _ Hf1), (bind_Ret _ _ _ _ _ Hf2), (bind_Ret _ _ _ _ _ Hf3).
  destruct (IH (k + 1)) as [(l & Hr & Hend) | (x & s & Hr & Hx)].
  - lia.
  - done.
  - unfold pos in *. lia.
  - replace (k + 1 - 1) with k in Hr by lia. left. rewrite (bind_Ret _ _ _ _ _ Hr). by eexists.
  - replace (k + 1 - 1) with k in Hr by lia. right. rewrite (bind_Throw _ _ _ _ _ Hr). by eexists _, _.
Qed.

Definition at_start (mem : list byte) (e nt : Z) (cs : list counter) : TProduceResponseReader :=
  mkReader mem (Some 0) (Some e) nt (-1) None None 0 (-1) cs.

Definition at_end (mem : list byte) (e nt : Z) (cs : list counter) : TProduceResponseReader :=
  mkReader mem (Some 0) (Some e) nt nt None None 0 0 cs.

(** A reader before topic [i], which will begin at [b]: at the start, or after
    the last partition of a topic. *)
Inductive ready (mem : list byte) (e nt : Z) (cs : list counter) : Z → Z → TProduceResponseReader → Prop :=
| ready_start : ready mem e nt cs 0 12 (at_start mem e nt cs)
| ready_after i b n np :
    located mem e nt i b n np → pos n np ≤ e →
    ready mem e nt cs (i + 1) (pos n np) (at_topic mem e nt i b n np (exhausted np) cs).

Lemma NextTopic_ready mem e nt cs i b r :
  e ≤ Z.of_nat (length mem) → e ≤ 2 ^ 31 + 3 → 0 ≤ nt → in_s 32 nt → ready mem e nt cs i b r →
  if decide (i < nt) then
    ∃ ne np k, NextTopic r = (InitCurrentTopic;; mret true) (before_topic mem e nt i b ne np k cs)
  else ∃ r', NextTopic r = (Ret false, r').
Proof.
  intros He1 He2 Hnt1 Hnt2 [| i' b' n np Hl Hp]; unfold NextTopic, RM; rstep.
  - cbn [NumTopics CurrentTopicIndex at_start]. rewrite massert_bind by boolia. cbn [Z.ltb Z.compare].
    unfold FirstTopic, RM. rstep. cbn [NumTopics at_start Begin]. rewrite massert_bind by boolia.
    destruct (Z.ltb_spec nt 1) as [H1 | H1].
    + rewrite decide_False by lia. by eexists.
    + rewrite decide_True by lia. cbn [need]. do 3 rstep. by eexists _, _, _.
  - pose proof Hl as [_ Hi _ [Hb1 Hb2] Hn [Hnp1 Hnp2]].
    cbn [NumTopics CurrentTopicIndex CurrentTopicBegin CurrentTopicNameEnd NumPartitionsInTopic at_topic
      non_null]. rewrite massert_bind by boolia. rewrite (proj2 (Z.ltb_ge _ _)) by lia.
    rewrite !massert_bind by done. rewrite (proj2 (Z.leb_gt _ _)) by lia. rstep.
    destruct (Z.ltb_spec (i' + 1) nt) as [H1 | H1].
    + rewrite decide_True by lia. cbn [need]. rstep.
      change (PARTITION_SIZE + ERROR_CODE_SIZE + OFFSET_SIZE) with 14.
      match goal with |- context [(int32_arith ?z ≫= _) ?s] =>
        rewrite (bind_Ret _ _ _ _ _ (int32_ok z s ltac:(unfold in_s; pos_lia))) end.
      rstep. exists (Some n), np, (exhausted np). unfold before_topic, PARTITION_COUNT_SIZE, pos.
      by replace (n + 4 + np * 14) with (n + 4 + 14 * np) by lia.
    + rewrite decide_False by lia. by eexists.
Qed.

(** A reader that may have stopped before the last partition of its topic: the
    next topic begins at [b], if the number of partitions is true. *)
Inductive stopped (mem : list byte) (e nt : Z) (cs : list counter) : Z → Z → TProduceResponseReader → Prop :=
| stopped_start : stopped mem e nt cs 0 12 (at_start mem e nt cs)
| stopped_after i b n np k :
    located mem e nt i b n np →
    stopped mem e nt cs (i + 1) (pos n np) (at_topic mem e nt i b n np k cs).

Lemma NextTopic_stopped mem e nt cs i b r :
  e ≤ Z.of_nat (length mem) → e ≤ 2 ^ 31 + 3 → 0 ≤ nt → in_s 32 nt → stopped mem e nt cs i b r →
  if decide (i < nt) then
    (∃ ne np k, NextTopic r = (InitCurrentTopic;; mret true) (before_topic mem e nt i b ne np k cs)) ∨
    (∃ r', NextTopic r = (Fault Overflow, r'))
  else ∃ r', NextTopic r = (Ret false, r').
Proof.
  intros He1 He2 Hnt1 Hnt2 [| i' b' n np k Hl].
  - pose proof (NextTopic_ready mem e nt cs 0 12 _ He1 He2 Hnt1 Hnt2 (ready_start mem e nt cs)) as Hn.
    case_decide; [by left | done].
  - unfold NextTopic, RM; rstep. pose proof Hl as [_ Hi _ [Hb1 Hb2] Hn [Hnp1 Hnp2]].
    cbn [NumTopics CurrentTopicIndex CurrentTopicBegin CurrentTopicNameEnd NumPartitionsInTopic at_topic
      non_null]. rewrite massert_bind by boolia. rewrite (proj2 (Z.ltb_ge _ _)) by lia.
    rewrite !massert_bind by done. rewrite (proj2 (Z.leb_gt _ _)) by lia. rstep.
    destruct (Z.ltb_spec (i' + 1) nt) as [H1 | H1].
    + rewrite decide_True by lia. cbn [need]. rstep.
      change (PARTITION_SIZE + ERROR_CODE_SIZE + OFFSET_SIZE) with 14.
      destruct (decide (in_s 32 (np * 14))) as [Hs | Hs].
      * left. rewrite (bind_Ret _ _ _ _ _ (int32_ok (np * 14) _ Hs)).
        rstep. exists (Some n), np, k. unfold before_topic, PARTITION_COUNT_SIZE, pos.
        by replace (n + 4 + np * 14) with (n + 4 + 14 * np) by lia.
      * right. eexists. apply bind_Fault. unfold int32_arith. by rewrite decide_False.
    + rewrite decide_False by lia. by eexists.
Qed.

Lemma GetCurrentTopicName_ok mem e nt i b n np k cs :
  located mem e nt i b n np →
  GetCurrentTopicName (at_topic mem e nt i b n np k cs) =
  rd_range mem (b + 2) n (at_topic mem e nt i b n np k cs).
Proof.
  intros [_ Hi _ [Hb1 Hb2] _ _]. unfold GetCurrentTopicName, RM. rstep.
  cbn [NumTopics CurrentTopicBegin CurrentTopicNameEnd at_topic non_null Mem].
  rewrite !massert_bind by boolia. cbn [need]. do 2 rstep. by rewrite massert_bind by boolia.
Qed.

Lemma read_topics_safe fuel mem e nt cs i b r :
  e ≤ Z.of_nat (length mem) → e ≤ 2 ^ 31 + 3 → 0 ≤ nt → in_s 32 nt → ready mem e nt cs i b r →
  12 ≤ b → 0 ≤ i → e - b < Z.of_nat fuel → (0 < fuel)%nat →
  (∃ ts r', read_topics fuel r = (Ret ts, r')) ∨
  (∃ x r', read_topics fuel r = (Throw x, r') ∧ TBadProduceResponse x = true).
Proof.
  intros He1 He2 Hn1 Hn2. revert i b r. induction fuel as [| fuel IH]; intros i b r Hr Hb Hi Hf Hpos; [lia |].
  cbn [read_topics]. unfold RM in *. pose proof (NextTopic_ready _ _ _ _ _ _ _ He1 He2 Hn1 Hn2 Hr) as Hnext.
  case_decide as Hd.
  2:{ destruct Hnext as [r' Hr']. unfold RM in Hr'. rewrite (bind_Ret _ _ _ _ _ Hr'). left. by eexists _, _. }
  destruct Hnext as (ne & np & k & Hnext). unfold RM in Hnext.
  destruct (InitCurrentTopic_safe mem e nt i b ne np k cs) as [(n & np' & Hinit & Hl) | (x & s & Hinit & Hx)];
    try done; unfold RM in Hinit.
  2:{ rewrite (bind_Throw _ _ _ _ _ Hinit) in Hnext. rewrite (bind_Throw _ _ _ _ _ Hnext). right. by eexists _, _. }
  rewrite (bind_Ret _ _ _ _ _ Hinit) in Hnext. unfold mret, M_ret in Hnext.
  rewrite (bind_Ret _ _ _ _ _ Hnext).
  pose proof Hl as [_ _ _ [Hb1 Hb2] Hn [Hnp1 Hnp2]].
  destruct (rd_range_ok (E := exn) mem (b + 2) n (at_topic mem e nt i b n np' (-1) cs)) as (name & Hname & _); try lia.
  pose proof (GetCurrentTopicName_ok mem e nt i b n np' (-1) cs Hl) as Hg. rewrite Hname in Hg. unfold RM in Hg.
  rewrite (bind_Ret _ _ _ _ _ Hg).
  destruct (read_acks_safe (S fuel) mem e nt i b n np' 0 cs Hl) as [(l & Hacks & Hend) | (x & s & Hacks & Hx)];
    try pos_lia; unfold RM in Hacks; change (0 - 1) with (-1) in Hacks.
  2:{ rewrite (bind_Throw _ _ _ _ _ Hacks). right. by eexists _, _. }
  rewrite (bind_Ret _ _ _ _ _ Hacks).
  destruct (IH (i + 1) (pos n np') (at_topic mem e nt i b n np' (exhausted np') cs))
    as [(ts & r' & Hts) | (x & r' & Hts & Hx)]; try pos_lia.
  - by constructor.
  - rewrite (bind_Ret _ _ _ _ _ Hts). left. by eexists _, _.
  - rewrite (bind_Throw _ _ _ _ _ Hts). right. by eexists _, _.
Qed.

Lemma SetResponse_safe buf r :
  (∃ e nt, SetResponse buf r = (Ret (), at_start buf e nt (Counters r)) ∧ 12 ≤ Z.of_nat (length buf) ∧
     e ≤ Z.of_nat (length buf) ∧ e ≤ 2 ^ 31 + 3 ∧ 0 ≤ nt ∧ in_s 32 nt) ∨
  (∃ x r', SetResponse buf r = (Throw x, r') ∧ x ≠ range_error ∧
     (TBadProduceResponse x = false → ∃ size, ReadInt32FromHeader buf = Some size ∧ size < 0)).
Proof.
  unfold SetResponse, Clear, RM. rstep. cbv zeta. change MinSize with 12.
  destruct (Z.ltb_spec (Z.of_nat (length buf)) 12) as [H1 | H1].
  { right. by eexists _, _. }
  rstep. unfold GetRequestOrResponseSize.
  match goal with |- context [((rd32 buf 0 ≫= ?f) ≫= ?g) ?s] =>
    destruct (rd32_ok (E := exn) buf 0 s ltac:(lia) ltac:(lia)) as (sz & Hsz & Hr) end.
  set (s0 := mkReader _ _ _ _ _ _ _ _ _ _) in *.
  destruct (Z.ltb_spec sz 0) as [H2 | H2].
  { right. eexists _, _. split; [| shelve]. apply bind_Throw. rewrite (bind_Ret _ _ _ _ _ Hsz).
    rewrite (proj2 (Z.ltb_lt _ _)) by lia. reflexivity. Unshelve. split; [done |]. intros _. exists sz.
    split; [by eapply rd32_start | done]. }
  assert ((size_field ← rd32 buf 0; if size_field <? 0 then throw TBadRequestOrResponseSize
    else mret (size_field + REQUEST_OR_RESPONSE_SIZE_SIZE)) s0 = (Ret (sz + 4), s0)) as Hg.
  { rewrite (bind_Ret _ _ _ _ _ Hsz). by rewrite (proj2 (Z.ltb_ge _ _)) by lia. }
  rewrite (bind_Ret _ _ _ _ _ Hg). rstep. destruct (Z.ltb_spec (Z.of_nat (length buf)) (sz + 4)) as [H3 | H3].
  { right. by eexists _, _. }
  match goal with |- context [(rd32 buf ?p ≫= ?f) ?s] =>
    destruct (rd32_ok (E := exn) buf p s) as (nt & Hnt & Hrn); [done | change p with 8; lia |] end.
  rewrite (bind_Ret _ _ _ _ _ Hnt). rstep. destruct (Z.ltb_spec nt 0) as [H4 | H4].
  { right. by eexists _, _. }
  left. exists (sz + 4), nt. unfold in_s in Hr. split; [reflexivity |]. split_and!; try done; lia.
Qed.

(** ** Reading back what was written *)

Lemma length_in_s32 {A} (l : list A) : Z.of_nat (length l) ≤ INT32_MAX → in_s 32 (Z.of_nat (length l)).
Proof. unfold in_s. change (2 ^ (32 - 1)) with (INT32_MAX + 1). lia. Qed.

Lemma InitCurrentTopic_app a name acks z e nt i ne np k cs :
  let mem := a ++ enc_topic (name, acks) ++ z in
  let b := Z.of_nat (length a) in let n := b + 2 + Z.of_nat (length name) in
  e ≤ Z.of_nat (length mem) → e ≤ 2 ^ 31 + 3 → 0 ≤ i < nt → in_s 32 nt → 12 ≤ b →
  b + Z.of_nat (length (enc_topic (name, acks))) ≤ e → Z.of_nat (length name) ≤ INT16_MAX →
  Z.of_nat (length acks) ≤ INT32_MAX →
  InitCurrentTopic (before_topic mem e nt i b ne np k cs) =
    (Ret (), at_topic mem e nt i b n (Z.of_nat (length acks)) (-1) cs) ∧
  located mem e nt i b n (Z.of_nat (length acks)).
Proof.
  intros mem b n He1 He2 Hi Hnt Hb Hfit Hname Hacks. rewrite enc_topic_length in Hfit. cbn [fst snd] in Hfit.
  set (len := if (length name =? 0)%nat then -1 else Z.of_nat (length name)).
  assert (in_s 16 len) as Hlen.
  { unfold len, in_s. change (2 ^ (16 - 1)) with (INT16_MAX + 1). case_match; lia. }
  split; [| split; try done; try lia; split; [lia | by apply length_in_s32]].
  unfold InitCurrentTopic, RM. rstep. cbn [CurrentTopicBegin End_ before_topic Mem need]. do 2 rstep.
  unfold TOPIC_NAME_LEN_SIZE. rewrite (proj2 (Z.ltb_ge _ _)) by lia.
  assert (mem = a ++ WriteInt16ToHeader len ++ name ++ WriteInt32ToHeader (Z.of_nat (length acks)) ++
    concat (enc_ack <$> acks) ++ z) as Hmem.
  { unfold mem, enc_topic, enc_len. cbn [fst snd]. fold len. by rewrite <- !app_assoc. }
  rewrite Hmem at 1. unfold b. rewrite (bind_Ret _ _ _ _ _ (rd16_app a len _ _ Hlen)). fold b. cbv zeta.
  assert ((if len =? -1 then 0 else len) = Z.of_nat (length name)) as ->.
  { unfold len. destruct (Nat.eqb_spec (length name) 0) as [E | E]; [by rewrite E |].
    by rewrite (proj2 (Z.eqb_neq _ _)) by lia. }
  rewrite (proj2 (Z.ltb_ge _ _)) by lia. rstep. unfold PARTITION_COUNT_SIZE. fold n.
  rewrite (proj2 (Z.ltb_ge _ _)) by lia.
  assert (∀ s : TProduceResponseReader, rd32 (E := exn) mem n s = (Ret (Z.of_nat (length acks)), s)) as Hcount.
  { intros s. replace n with (Z.of_nat (length ((a ++ WriteInt16ToHeader len) ++ name)))
      by (rewrite !length_app, length_WriteInt16; unfold n, b; lia).
    rewrite Hmem. rewrite (app_assoc a), (app_assoc (a ++ _) name). apply rd32_app. by apply length_in_s32. }
  rewrite (bind_Ret _ _ _ _ _ (Hcount _)).
  rstep. by rewrite (proj2 (Z.ltb_ge _ _)) by lia.
Qed.

Lemma read_acks_app fuel acks pre z e nt i b n np k cs :
  let mem := pre ++ concat (enc_ack <$> acks) ++ z in
  located mem e nt i b n np → Forall ack_ok acks → 0 ≤ k → np = k + Z.of_nat (length acks) →
  Z.of_nat (length pre) = pos n k → pos n np ≤ e → (length acks < fuel)%nat →
  read_acks fuel (at_topic mem e nt i b n np (k - 1) cs) =
  (Ret acks, at_topic mem e nt i b n np (exhausted np) cs).
Proof.
  intros mem Hl Ha. revert fuel pre k mem Hl.
  induction Ha as [| a acks Ha Hacks IH]; intros fuel pre k mem Hl Hk Hnp Hpre Hend Hf; cbn [length] in *;
    (destruct fuel as [| fuel]; [lia |]); cbn [read_acks]; unfold RM in *;
    pose proof (NextPartition_ok _ _ _ _ _ _ _ k cs Hl ltac:(lia) ltac:(pos_lia)) as Hnext; unfold RM in Hnext.
  - rewrite decide_True in Hnext by lia. by rewrite (bind_Ret _ _ _ _ _ Hnext).
  - rewrite decide_False, decide_True in Hnext by pos_lia. rewrite (bind_Ret _ _ _ _ _ Hnext).
    pose proof (ack_fields_ok mem e nt i b n np k cs Hl ltac:(lia) ltac:(pos_lia)) as (Hf1 & Hf2 & Hf3).
    set (r := at_topic mem e nt i b n np k cs) in *.
    set (rest := concat (enc_ack <$> acks) ++ z).
    assert (mem = pre ++ WriteInt32ToHeader (ack_partition a) ++ WriteInt16ToHeader (ack_error a) ++
      WriteInt64ToHeader (ack_offset a) ++ rest) as Hmem.
    { unfold mem, rest. cbn [fmap list_fmap concat]. unfold enc_ack at 1. by rewrite <- !app_assoc. }
    assert (rd32 (E := exn) mem (pos n k) r = (Ret (ack_partition a), r)) as E1.
    { rewrite Hmem at 1. rewrite <- Hpre. apply rd32_app, Ha. }
    assert (rd16 (E := exn) mem (pos n k + 4) r = (Ret (ack_error a), r)) as E2.
    { rewrite Hmem at 1. rewrite app_assoc. replace (pos n k + 4)
        with (Z.of_nat (length (pre ++ WriteInt32ToHeader (ack_partition a))))
        by (rewrite length_app, length_WriteInt32; lia).
      apply rd16_app, Ha. }
    assert (rd64 (E := exn) mem (pos n k + 4 + 2) r = (Ret (ack_offset a), r)) as E3.
    { rewrite Hmem at 1. rewrite 2!app_assoc. replace (pos n k + 4 + 2)
        with (Z.of_nat (length ((pre ++ WriteInt32ToHeader (ack_partition a)) ++ WriteInt16ToHeader (ack_error a))))
        by (rewrite !length_app, length_WriteInt32, length_WriteInt16; lia).
      apply rd64_app, Ha. }
    rewrite E1 in Hf1. rewrite E2 in Hf2. rewrite E3 in Hf3. unfold RM in *.
    rewrite (bind_Ret _ _ _ _ _ Hf1), (bind_Ret _ _ _ _ _ Hf2), (bind_Ret _ _ _ _ _ Hf3).
    assert (mem = (pre ++ enc_ack a) ++ rest) as Hmem'.
    { rewrite Hmem. unfold enc_ack. by rewrite <- !app_assoc. }
    specialize (IH fuel (pre ++ enc_ack a) (k + 1)). cbv zeta in IH. fold rest in IH.
    rewrite <- Hmem' in IH. replace (k + 1 - 1) with k in IH by lia. unfold r.
    rewrite (bind_Ret _ _ _ _ _ (IH Hl ltac:(lia) ltac:(lia)
      ltac:(rewrite length_app; unfold enc_ack; rewrite !length_app, length_WriteInt32, length_WriteInt16,
        length_WriteInt64; pos_lia) Hend ltac:(lia))).
    unfold mret, M_ret. by destruct a.
Qed.

Lemma read_topics_app fuel ts pre z e nt i r cs :
  let mem := pre ++ enc_topics ts ++ z in
  ready mem e nt cs i (Z.of_nat (length pre)) r → Forall topic_ok ts → 12 ≤ Z.of_nat (length pre) →
  nt = i + Z.of_nat (length ts) → 0 ≤ i → in_s 32 nt → e = Z.of_nat (length (pre ++ enc_topics ts)) →
  e ≤ 2 ^ 31 + 3 → e - Z.of_nat (length pre) < Z.of_nat fuel →
  ∃ r', read_topics fuel r = (Ret ts, r').
Proof.
  intros mem Hr Hts. revert fuel pre i r mem Hr.
  induction Hts as [| [name acks] ts [Hn Ha] Hts IH]; intros fuel pre i r mem Hr Hpre Hnt Hi Hnts He He2 Hf;
    (destruct fuel as [| fuel]; [rewrite He, length_app in Hf; lia |]); cbn [read_topics]; unfold RM in *; cbn [length] in Hnt;
    (assert (e ≤ Z.of_nat (length mem)) as He1 by (unfold mem; rewrite He, !length_app; lia));
    pose proof (NextTopic_ready mem e nt cs i _ r He1 He2 ltac:(lia) Hnts Hr) as Hnext; unfold RM in Hnext.
  - rewrite decide_False in Hnext by lia. destruct Hnext as [r' Hnext].
    rewrite (bind_Ret _ _ _ _ _ Hnext). by eexists.
  - rewrite decide_True in Hnext by lia. destruct Hnext as (ne & np & k & Hnext).
    cbn [fst snd] in Hn, Ha. set (t := (name, acks)) in *. set (rest := enc_topics ts ++ z).
    assert (mem = pre ++ enc_topic t ++ rest) as Hmem
      by (unfold mem, rest, enc_topics; cbn [fmap list_fmap concat]; by rewrite <- app_assoc).
    assert (e = Z.of_nat (length pre) + Z.of_nat (length (enc_topic t)) + Z.of_nat (length (enc_topics ts))) as He'.
    { rewrite He. unfold enc_topics. cbn [fmap list_fmap concat]. rewrite !length_app. lia. }
    pose proof (enc_topic_length t) as Htl. cbn [fst snd t] in Htl.
    pose proof (InitCurrentTopic_app pre name acks rest e nt i ne np k cs) as Hinit. cbv zeta in Hinit.
    fold t in Hinit. rewrite <- Hmem in Hinit. fold (enc_topic t) in Hinit.
    destruct Hinit as [Hinit Hl]; try lia; try done; [unfold INT32_MAX; lia |].
    set (b := Z.of_nat (length pre)) in *. set (n := b + 2 + Z.of_nat (length name)) in *. unfold RM in Hinit.
    rewrite (bind_Ret _ _ _ _ _ Hinit) in Hnext. unfold mret, M_ret in Hnext.
    rewrite (bind_Ret _ _ _ _ _ Hnext).
    pose proof (GetCurrentTopicName_ok mem e nt i b n (Z.of_nat (length acks)) (-1) cs Hl) as Hg.
    assert (mem = (pre ++ enc_len name) ++ name ++ WriteInt32ToHeader (Z.of_nat (length acks)) ++
      concat (enc_ack <$> acks) ++ rest) as Hmem2
      by (rewrite Hmem; unfold enc_topic; cbn [fst snd t]; by rewrite <- !app_assoc).
    assert (b + 2 = Z.of_nat (length (pre ++ enc_len name))) as Hb2
      by (rewrite length_app, enc_len_length; lia).
    assert (rd_range (E := exn) mem (b + 2) n (at_topic mem e nt i b n (Z.of_nat (length acks)) (-1) cs) =
      (Ret name, at_topic mem e nt i b n (Z.of_nat (length acks)) (-1) cs)) as Hname.
    { unfold n. rewrite Hb2. rewrite Hmem2 at 1. apply rd_range_app. }
    rewrite Hname in Hg. unfold RM in Hg. rewrite (bind_Ret _ _ _ _ _ Hg).
    pose proof (read_acks_app (S fuel) acks (((pre ++ enc_len name) ++ name) ++
      WriteInt32ToHeader (Z.of_nat (length acks))) rest e nt i b n (Z.of_nat (length acks)) 0 cs) as Hra.
    cbv zeta in Hra. rewrite <- (app_assoc _ (WriteInt32ToHeader _)), <- (app_assoc _ name), <- Hmem2 in Hra.
    assert (pos n (Z.of_nat (length acks)) = b + Z.of_nat (length (enc_topic t))) as Hpos
      by (unfold pos, n; lia).
    change (0 - 1) with (-1) in Hra. unfold RM in Hra.
    rewrite (bind_Ret _ _ _ _ _ (Hra Hl Ha ltac:(lia) ltac:(lia)
      ltac:(rewrite !length_app, enc_len_length, length_WriteInt32; unfold pos, n, b; lia)
      ltac:(lia) ltac:(lia))).
    specialize (IH fuel (pre ++ enc_topic t) (i + 1)
      (at_topic mem e nt i b n (Z.of_nat (length acks)) (exhausted (Z.of_nat (length acks))) cs)).
    cbv zeta in IH. rewrite <- app_assoc in IH. fold rest in IH. rewrite <- Hmem in IH.
    destruct IH as [r' Hts']; try (rewrite ?length_app; lia).
    + rewrite length_app, Nat2Z.inj_add. fold b. rewrite <- Hpos. constructor; [done | lia].
    + done.
    + rewrite (bind_Ret _ _ _ _ _ Hts'). by eexists.
Qed.
End reader_proofs.

(** ** Properties *)

Lemma read_response_app corr_id ts tail r :
  response_ok corr_id ts →
  ∃ r', read_response (enc_response corr_id ts ++ tail) r = (Ret (corr_id, ts), r').
Proof.
  intros (Hc & Hts & Hl). unfold INT32_MAX in Hl.
  set (size := 8 + Z.of_nat (length (enc_topics ts))) in *. set (nt := Z.of_nat (length ts)).
  set (h := WriteInt32ToHeader size). set (c := WriteInt32ToHeader corr_id). set (k := WriteInt32ToHeader nt).
  assert (length h = 4%nat ∧ length c = 4%nat ∧ length k = 4%nat) as (Lh & Lc & Lk)
    by (split_and!; apply length_WriteInt32).
  set (buf := enc_response corr_id ts ++ tail).
  assert (buf = h ++ c ++ k ++ enc_topics ts ++ tail) as Hbuf by (unfold buf, enc_response; by rewrite <- !app_assoc).
  assert (length buf = (12 + length (enc_topics ts) + length tail)%nat) as Lbuf
    by (rewrite Hbuf, !length_app; lia).
  assert (nt ≤ 2147483647) as Hnt.
  { assert (length ts ≤ length (enc_topics ts))%nat; [| unfold nt; lia]. unfold enc_topics. clear.
    induction ts as [| t ts IH]; [done |]. cbn [fmap list_fmap concat length].
    rewrite length_app, enc_topic_length. lia. }
  assert (in_s 32 size ∧ in_s 32 nt) as [Hs32 Hn32]
    by (unfold in_s; change (2 ^ (32 - 1)) with 2147483648; lia).
  assert (∀ s, rd32 (E := Reader.exn) (S := Reader.TProduceResponseReader) buf 0 s = (Ret size, s)) as R0
    by (intros s; rewrite Hbuf; apply (rd32_app []); done).
  assert (∀ s, rd32 (E := Reader.exn) (S := Reader.TProduceResponseReader) buf 4 s = (Ret corr_id, s)) as R4
    by (intros s; rewrite Hbuf; change 4 with (Z.of_nat 4); rewrite <- Lh; by apply rd32_app).
  assert (∀ s, rd32 (E := Reader.exn) (S := Reader.TProduceResponseReader) buf 8 s = (Ret nt, s)) as R8.
  { intros s. rewrite Hbuf, app_assoc. replace 8 with (Z.of_nat (length (h ++ c))) by (rewrite length_app; lia).
    by apply rd32_app. }
  assert (Reader.SetResponse buf r = (Ret (), at_start buf (size + 4) nt (Reader.Counters r))) as Hset.
  { unfold Reader.SetResponse, Reader.Clear, Reader.RM. rstep. change Reader.MinSize with 12.
    rewrite (proj2 (Z.ltb_ge _ _)) by lia. rstep. unfold GetRequestOrResponseSize.
    match goal with |- context [((rd32 buf 0 ≫= ?f) ≫= ?g) ?s] =>
      rewrite (bind_Ret (rd32 buf 0 ≫= f) g s (size + 4) s)
        by (rewrite (bind_Ret _ _ _ _ _ (R0 s)), (proj2 (Z.ltb_ge _ _)) by lia; done) end.
    rstep. rewrite (proj2 (Z.ltb_ge _ _)) by lia.
    change (REQUEST_OR_RESPONSE_SIZE_SIZE + CORRELATION_ID_SIZE) with 8.
    rewrite (bind_Ret _ _ _ _ _ (R8 _)). rstep. by rewrite (proj2 (Z.ltb_ge _ _)) by lia. }
  assert (Reader.GetCorrelationId (at_start buf (size + 4) nt (Reader.Counters r)) =
    (Ret corr_id, at_start buf (size + 4) nt (Reader.Counters r))) as Hcorr.
  { unfold Reader.GetCorrelationId, Reader.RM. rstep. cbn [Reader.Begin Reader.End_ Reader.NumTopics at_start
      Reader.non_null Reader.Mem]. rewrite !massert_bind by boolia. cbn [need]. rstep. apply R4. }
  destruct (read_topics_app (S (length buf)) ts (h ++ c ++ k) tail (size + 4) nt 0
    (at_start buf (size + 4) nt (Reader.Counters r)) (Reader.Counters r)) as [r' Hr'].
  - replace ((h ++ c ++ k) ++ enc_topics ts ++ tail) with buf by (rewrite Hbuf; by rewrite <- !app_assoc).
    replace (Z.of_nat (length (h ++ c ++ k))) with 12 by (rewrite !length_app; lia). constructor.
  - done.
  - rewrite !length_app. lia.
  - unfold nt. lia.
  - done.
  - done.
  - rewrite !length_app. lia.
  - lia.
  - rewrite !length_app. lia.
  - exists r'. unfold read_response. rewrite (bind_Ret _ _ _ _ _ Hset), (bind_Ret _ _ _ _ _ Hcorr).
    by rewrite (bind_Ret _ _ _ _ _ Hr').
Qed.

(** C34: What is written is read back: for every response whose numbers are in
    range and which fits its size field, [TProduceResponseWriter] fails no
    assertion and stays inside its vector, and iterating over the result with
    [TProduceResponseReader] (whatever bytes follow it) gives the correlation
    ID, the topics and their partitions, error codes and offsets, in order. *)
Theorem produce_response_roundtrip corr_id ts w r tail :
  response_ok corr_id ts →
  ∃ w' r', write_response corr_id ts w = (Ret (), w') ∧
    read_response (Writer.Out w' ++ tail) r = (Ret (corr_id, ts), r').
Proof.
  intros Hok. destruct (write_response_ok corr_id ts w Hok) as (w' & Hw & Ho & _).
  destruct (read_response_app corr_id ts tail r Hok) as [r' Hr]. exists w', r'. by rewrite Ho.
Qed.

Definition ex_response : list (list byte * list ack) :=
  [([x61; x62], [mkAck 0 0 100; mkAck 3 6 0]); ([], []); ([x63], [mkAck 1 (-1) 7])].

Lemma ex_response_ok : response_ok 77 ex_response.
Proof.
  split; [done |]. split; [| vm_compute; discriminate].
  repeat constructor; try done; vm_compute; discriminate.
Qed.

Lemma produce_response_roundtrip_witness :
  ∃ w' r', write_response 77 ex_response (Writer.mkWriter [x01] true true 5 5 5 5 5) = (Ret (), w') ∧
    read_response (Writer.Out w' ++ [x00]) Reader.TProduceResponseReader_new = (Ret (77, ex_response), r').
Proof. apply produce_response_roundtrip. exact ex_response_ok. Defined.

(** C35: No bytes that a broker sends make the reader leave the buffer: reading
    any buffer to its end as a response returns or throws; it fails no
    assertion, never reads outside the buffer, never overflows, terminates,
    and never throws [std::range_error]. *)
Theorem produce_response_reader_safe buf r :
  (∃ v r', read_response buf r = (Ret v, r')) ∨
  (∃ x r', read_response buf r = (Throw x, r') ∧ x ≠ Reader.range_error).
Proof.
  unfold read_response. destruct (SetResponse_safe buf r) as [(e & nt & Hs & Hlen & He1 & He2 & Hn1 & Hn2) | (x & r' & Hs & Hx & _)].
  2:{ right. rewrite (bind_Throw _ _ _ _ _ Hs). by eexists _, _. }
  rewrite (bind_Ret _ _ _ _ _ Hs). set (s0 := at_start _ _ _ _).
  assert (∃ c, Reader.GetCorrelationId s0 = (Ret c, s0)) as [c Hc].
  { unfold Reader.GetCorrelationId, Reader.RM. rstep. cbn [Reader.Begin Reader.End_ Reader.NumTopics at_start
      Reader.non_null Reader.Mem s0]. rewrite !massert_bind by boolia. cbn [need]. rstep.
    destruct (rd32_ok (E := Reader.exn) buf 4 s0) as (c & Hc & _); [lia | lia |]. by exists c. }
  rewrite (bind_Ret _ _ _ _ _ Hc).
  destruct (read_topics_safe (S (length buf)) buf e nt (Reader.Counters r) 0 12 s0)
    as [(ts & r' & Hts) | (x & r' & Hts & Hx)]; try done; try lia.
  - constructor.
  - left. rewrite (bind_Ret _ _ _ _ _ Hts). by eexists _, _.
  - right. rewrite (bind_Throw _ _ _ _ _ Hts). eexists _, _. split; [done |]. by intros ->.
Qed.
