(* ===== verification/StdMap.v ===== *)
(** * Ordered maps

    [std::map] as the list of its entries in order: lookup, [operator[]], erasure
    and change in place, with the lemmas on them. *)
From S2P Require Import Prelude.

Section smap.
Context {K V : Type} `{!EqDecision K} (lt : K → K → bool).

Fixpoint sm_find (k : K) (m : list (K * V)) : option V :=
  match m with
  | [] => None
  | (k', v) :: m => if decide (k = k') then Some v else sm_find k m
  end.

Definition sm_erase (k : K) (m : list (K * V)) : list (K * V) := filter (λ x, x.1 ≠ k) m.

(** The value of an entry that is there, changed by [f]. *)
Definition sm_alter (k : K) (f : V → V) (m : list (K * V)) : list (K * V) :=
  (λ x, if decide (x.1 = k) then (x.1, f x.2) else x) <$> m.

(** [m[k]], changed by [f]; [d] is the value of a new entry. *)
Fixpoint sm_upd (k : K) (d : V) (f : V → V) (m : list (K * V)) : list (K * V) :=
  match m with
  | [] => [(k, f d)]
  | (k', v) :: m' =>
      if decide (k = k') then (k, f v) :: m'
      else if lt k k' then (k, f d) :: m
      else (k', v) :: sm_upd k d f m'
  end.
End smap.

(** ** Lemmas on maps *)

Section smap_lemmas.
Context {K V : Type} `{!EqDecision K}.

Lemma sm_find_split (k : K) (v : V) m :
  sm_find k m = Some v → ∃ a z, m = a ++ (k, v) :: z ∧ k ∉ a.*1.
Proof.
  induction m as [| [k' v'] m IH]; [done |]. cbn. case_decide as E.
  - intros [= ->]. subst k'. exists [], m. split; [done | apply not_elem_of_nil].
  - intros (a & z & -> & Ha)%IH. exists ((k', v') :: a), z. split; [done |]. cbn.
    by apply not_elem_of_cons.
Qed.

Lemma sm_find_None (k : K) (m : list (K * V)) : sm_find k m = None ↔ k ∉ m.*1.
Proof.
  induction m as [| [k' v'] m IH]; cbn; [split; [intros _; apply not_elem_of_nil | done] |].
  rewrite not_elem_of_cons. case_decide; naive_solver.
Qed.

Lemma sm_erase_other (k : K) (m : list (K * V)) : k ∉ m.*1 → sm_erase k m = m.
Proof.
  intros Hk. apply filter_all. intros [k' v] Hx E. cbn in E. subst k'. apply Hk.
  apply list_elem_of_fmap. by exists (k, v).
Qed.

Lemma sm_erase_split (k : K) (v : V) a z :
  NoDup (a ++ (k, v) :: z).*1 → sm_erase k (a ++ (k, v) :: z) = a ++ z.
Proof.
  rewrite fmap_app. cbn. intros (_ & Ha & [Hz _]%NoDup_cons)%NoDup_app.
  unfold sm_erase. rewrite filter_app, filter_cons, decide_False by (cbn; congruence || auto).
  fold (sm_erase k a) (sm_erase k z). rewrite !sm_erase_other; [done | done |].
  intros Hx. apply (Ha k Hx). left.
Qed.

Lemma sm_alter_other (k : K) f (m : list (K * V)) : k ∉ m.*1 → sm_alter k f m = m.
Proof.
  intros Hk. unfold sm_alter. rewrite <- (list_fmap_id m) at 2. apply list_fmap_ext. intros i [k' v] Hx.
  cbn. rewrite decide_False; [done |]. intros ->. apply Hk. apply list_elem_of_fmap.
  exists (k, v). split; [done |]. by eapply list_elem_of_lookup_2.
Qed.

Lemma sm_alter_split (k : K) f (v : V) a z :
  NoDup (a ++ (k, v) :: z).*1 → sm_alter k f (a ++ (k, v) :: z) = a ++ (k, f v) :: z.
Proof.
  rewrite fmap_app. cbn. intros (_ & Ha & [Hz _]%NoDup_cons)%NoDup_app.
  unfold sm_alter. rewrite fmap_app, fmap_cons. cbn. rewrite decide_True by done.
  fold (sm_alter k f a) (sm_alter k f z). rewrite !sm_alter_other; [done | done |].
  intros Hx. apply (Ha k Hx). left.
Qed.

Lemma sm_find_middle (k : K) (v : V) a z : k ∉ a.*1 → sm_find k (a ++ (k, v) :: z) = Some v.
Proof.
  induction a as [| [k' v'] a IH]; cbn; [by rewrite decide_True |].
  intros [Hne Hk]%not_elem_of_cons. rewrite decide_False by done. by apply IH.
Qed.
End smap_lemmas.

Lemma sm_find_erase {K V} `{!EqDecision K} (k k' : K) (m : list (K * V)) :
  k ≠ k' → sm_find k (sm_erase k' m) = sm_find k m.
Proof.
  intros Hne. induction m as [| [x v] m IH]; [done |]. unfold sm_erase in *. rewrite filter_cons. cbn.
  case_decide as E; cbn in *; [by rewrite IH |]. rewrite IH. rewrite decide_False by naive_solver. done.
Qed.

Lemma sm_erase_keys {K V} `{!EqDecision K} (k : K) (m : list (K * V)) l :
  NoDup m.*1 → k :: l ≡ₚ m.*1 → is_Some (sm_find k m) ∧ NoDup (sm_erase k m).*1 ∧ l ≡ₚ (sm_erase k m).*1.
Proof.
  intros Hnd Hp. destruct (sm_find k m) as [v |] eqn:Hf.
  - apply sm_find_split in Hf as (a & z & -> & Ha). rewrite sm_erase_split by done. split; [by eexists |].
    rewrite !fmap_app in *. cbn in *. split.
    + eapply sublist_NoDup; [exact Hnd |]. apply sublist_app; [done |]. by constructor.
    + apply (Permutation_cons_inv (a := k)). rewrite Hp. by rewrite Permutation_middle.
  - apply sm_find_None in Hf. destruct Hf. rewrite <- Hp. left.
Qed.

Lemma sm_erase_alter {K V} `{!EqDecision K} (k : K) (f : V → V) (m : list (K * V)) :
  sm_erase k (sm_alter k f m) = sm_erase k m.
Proof.
  induction m as [| [x v] m IH]; [done |]. unfold sm_erase, sm_alter in *. cbn [fmap list_fmap].
  rewrite !filter_cons, IH. cbn. destruct (decide (x = k)) as [-> | Hne]; cbn; [| done].
  by rewrite !decide_False by auto.
Qed.

Lemma sm_erase_perm {K V} `{!EqDecision K} (k : K) (v : V) (m : list (K * V)) :
  NoDup m.*1 → sm_find k m = Some v → m ≡ₚ (k, v) :: sm_erase k m.
Proof.
  intros Hnd (a & z & -> & _)%sm_find_split. rewrite sm_erase_split by done. by rewrite Permutation_middle.
Qed.

(** ** Order *)

(** A strict total order, as a boolean function. *)
Class TotalLt {K : Type} (lt : K → K → bool) := {
  lt_irrefl : ∀ x, lt x x = false;
  lt_trans : ∀ x y z, lt x y = true → lt y z = true → lt x z = true;
  lt_total : ∀ x y, x ≠ y → lt x y = false → lt y x = true
}.

#[global] Instance Z_TotalLt : TotalLt Z.ltb.
Proof.
  split.
  - apply Z.ltb_irrefl.
  - intros x y z ?%Z.ltb_lt ?%Z.ltb_lt. apply Z.ltb_lt. lia.
  - intros x y Hne ?%Z.ltb_ge. apply Z.ltb_lt. lia.
Qed.

Lemma string_compare_trans x y z :
  String.compare x y = Lt → String.compare y z = Lt → String.compare x z = Lt.
Proof.
  revert y z. induction x as [| a x IH]; intros [| b y] [| c z]; cbn; try done.
  unfold Ascii.compare. intros H1 H2.
  destruct (N.compare_spec (Ascii.N_of_ascii a) (Ascii.N_of_ascii b)) as [E1 | L1 | G1];
    destruct (N.compare_spec (Ascii.N_of_ascii b) (Ascii.N_of_ascii c)) as [E2 | L2 | G2]; try discriminate.
  - rewrite E1, E2, N.compare_refl. by eapply IH.
  - rewrite E1. by rewrite (proj2 (N.compare_lt_iff _ _)).
  - rewrite <- E2. by rewrite (proj2 (N.compare_lt_iff _ _)).
  - by rewrite (proj2 (N.compare_lt_iff _ _)) by lia.
Qed.

#[global] Instance string_TotalLt : TotalLt String.ltb.
Proof.
  assert (∀ x y, String.ltb x y = true ↔ String.compare x y = Lt) as Hlt.
  { intros x y. unfold String.ltb. by destruct (String.compare x y). }
  split.
  - intros x. unfold String.ltb. pose proof (String.compare_antisym x x). by destruct (String.compare x x).
  - intros x y z. rewrite !Hlt. apply string_compare_trans.
  - intros x y Hne. rewrite Hlt. unfold String.ltb. rewrite (String.compare_antisym y x).
    destruct (String.compare x y) eqn:E; [| done | done]. by apply String.compare_eq_iff in E.
Qed.

Section order.
Context {K V : Type} `{!EqDecision K} (lt : K → K → bool) `{!TotalLt lt}.

(** The keys are in ascending order. *)
Definition sm_sorted (m : list (K * V)) : Prop := StronglySorted (λ x y, lt x y = true) m.*1.

Lemma sm_sorted_NoDup m : sm_sorted m → NoDup m.*1.
Proof.
  unfold sm_sorted. induction 1 as [| x l Hs IH Hx]; constructor; [| done].
  intros Hin. rewrite Forall_forall in Hx. specialize (Hx x Hin). by rewrite lt_irrefl in Hx.
Qed.

Lemma sm_find_upd_ne k k' d f (m : list (K * V)) : k' ≠ k → sm_find k' (sm_upd lt k d f m) = sm_find k' m.
Proof.
  intros Hne. induction m as [| [x v] m IH]; cbn; [by rewrite decide_False |].
  destruct (decide (k = x)) as [-> | Hx]; cbn; [by rewrite !decide_False by done |].
  destruct (lt k x); cbn; [by rewrite (decide_False (P := k' = k)) by done |]. by rewrite IH.
Qed.

Lemma sm_find_smaller k (m : list (K * V)) :
  Forall (λ x, lt k x = true) m.*1 → sm_find k m = None.
Proof.
  intros Hm. apply sm_find_None. intros Hin. rewrite Forall_forall in Hm. specialize (Hm k Hin).
  by rewrite lt_irrefl in Hm.
Qed.

Lemma sm_find_upd k d f (m : list (K * V)) :
  sm_sorted m → sm_find k (sm_upd lt k d f m) = Some (f (default d (sm_find k m))).
Proof.
  unfold sm_sorted. induction m as [| [x v] m IH]; cbn; [by rewrite decide_True |].
  intros [Hs Hx]%StronglySorted_inv. destruct (decide (k = x)) as [-> | Hne]; cbn; [by rewrite decide_True |].
  destruct (lt k x) eqn:E; cbn; [| by rewrite decide_False, IH].
  rewrite decide_True by done. rewrite sm_find_smaller; [done |].
  eapply Forall_impl; [exact Hx |]. cbn. intros y Hy. by eapply lt_trans.
Qed.

Lemma sm_upd_keys k d f (m : list (K * V)) x : x ∈ (sm_upd lt k d f m).*1 ↔ x = k ∨ x ∈ m.*1.
Proof.
  induction m as [| [y v] m IH]; cbn.
  - rewrite list_elem_of_singleton. set_solver.
  - destruct (decide (k = y)) as [-> | Hne]; cbn; [set_solver |].
    destruct (lt k y); cbn; [set_solver |]. rewrite !elem_of_cons, IH. set_solver.
Qed.

Lemma sm_upd_sorted k d f (m : list (K * V)) : sm_sorted m → sm_sorted (sm_upd lt k d f m).
Proof.
  unfold sm_sorted. induction m as [| [y v] m IH]; cbn; [by repeat constructor |].
  intros [Hs Hy]%StronglySorted_inv. destruct (decide (k = y)) as [-> | Hne]; cbn; [by constructor |].
  destruct (lt k y) eqn:E; cbn.
  - constructor; [by constructor |]. constructor; [done |]. eapply Forall_impl; [exact Hy |]. cbn.
    intros z Hz. by eapply lt_trans.
  - constructor; [by apply IH |]. apply Forall_forall. intros z [-> | Hz]%sm_upd_keys; [by apply (lt_total k y) |].
    rewrite Forall_forall in Hy. by apply Hy.
Qed.

Lemma sm_upd_Forall (P : K * V → Prop) k d f (m : list (K * V)) :
  Forall P m → P (k, f d) → (∀ v, P (k, v) → P (k, f v)) → Forall P (sm_upd lt k d f m).
Proof.
  intros Hm Hd Hf. induction Hm as [| [y v] m Hy Hm IH]; cbn; [by repeat constructor |].
  case_decide as E; [subst y; by constructor; [apply Hf |] |]. destruct (lt k y); by repeat constructor.
Qed.

(** What is collected from the values grows by what the change adds. *)
Lemma sm_upd_concat {B} (g : V → list B) (x : B) k d f (m : list (K * V)) :
  g (f d) ≡ₚ g d ++ [x] → g d = [] → (∀ v, g (f v) ≡ₚ g v ++ [x]) →
  concat ((λ y, g y.2) <$> sm_upd lt k d f m) ≡ₚ concat ((λ y : K * V, g y.2) <$> m) ++ [x].
Proof.
  intros Hd H0 Hf. rewrite H0 in Hd. induction m as [| [y v] m IH]; cbn; [by rewrite Hd |].
  case_decide as E; cbn.
  - rewrite Hf, <- !app_assoc. by rewrite (Permutation_app_comm [x]).
  - destruct (lt k y); cbn.
    + rewrite Hd. by rewrite Permutation_app_comm.
    + by rewrite IH, app_assoc.
Qed.
End order.
