(* ===== verification/ResponseProcessor.v ===== *)
(** * Processing produce responses
      (dory/msg_dispatch/produce_response_processor.cc, common.{h,cc},
       dispatcher_shared_state.cc, TProduceProto::ProcessAck)

    A produce request holds message sets by topic and partition.  The
    processor walks over the ACKs of a response and takes each message set
    out of the request: acknowledged, discarded, or put aside to be sent
    again.  [std::map] is an association list in key order.  The messages
    that are destroyed are recorded with the state they had
    ([TMsg::~TMsg] counts those that are not [Processed]). *)
From S2P Require Import Prelude FieldAccess Capped Msg AnomalyTracker BrokerMsgQueue Wire ProduceResponse StdMap.

(** ** Requests *)

Record TMsgSet := mkMsgSet { DataSize : Z; Contents : list TMsg }.

Definition TMultiPartitionGroup := list (Z * TMsgSet).
Definition TAllTopics := list (string * TMultiPartitionGroup).
Definition TProduceRequest : Type := Z * TAllTopics.

(** [EmptyAllTopics]: the message sets, in order; the request is cleared. *)
Definition EmptyAllTopics (all_topics : TAllTopics) : option (list (list TMsg)) :=
  let sets := concat ((λ t : string * TMultiPartitionGroup, (λ p : Z * TMsgSet, Contents p.2) <$> t.2) <$> all_topics) in
  if forallb (λ l, negb (bool_decide (l = []))) sets then Some sets else None.

(** ** The meaning of ACK values *)

Inductive TAckResultAction := AckOk | AckResend | AckDiscard | AckPause | AckDiscardAndPause.

(** [TProduceProto::ProcessAck]; the cases are the values of
    [TKafkaErrorCode], of which those from 21 to 43 and all unlisted ones are
    discarded. *)
Definition ProcessAck (ack_value : Z) : TAckResultAction :=
  match ack_value with
  | -1 => AckDiscard
  | 0 => AckOk
  | 1 => AckDiscard
  | 2 => AckResend
  | 3 => AckPause
  | 4 => AckDiscard
  | 5 => AckPause
  | 6 => AckPause
  | 7 => AckPause
  | 8 => AckDiscard
  | 9 => AckDiscard
  | 10 => AckDiscard
  | 11 => AckDiscard
  | 12 => AckDiscard
  | 13 => AckPause
  | 14 => AckDiscard
  | 15 => AckDiscard
  | 16 => AckDiscard
  | 17 => AckDiscard
  | 18 => AckDiscard
  | 19 => AckDiscard
  | 20 => AckDiscard
  | _ => AckDiscard
  end.

(** ** State *)

(** What the connectors share: the trackers, the ACK count, and the messages
    destroyed so far, last first. *)
Record TDispatcherSharedState := mkShared {
  MsgStateTracker : TMsgStateTracker;
  AnomalyTracker : TAnomalyTracker;
  AckCount : Z;
  Destroyed : list TMsg
}.

Inductive processor_counter :=
| ConnectorGotDiscardAck
| ConnectorGotDiscardAndPauseAck
| ConnectorGotOkProduceResponse
| ConnectorGotPauseAck
| ConnectorGotResendAck
| ConnectorGotSuccessfulAck
| ConnectorQueueImmediateResendMsgSet
| ConnectorQueueNoAckMsgs
| ConnectorQueuePauseAndResendMsgSet
| CorrelationIdMismatch
| DiscardOnFailedDeliveryAttemptLimit
| ProduceResponseShortPartitionList
| ProduceResponseShortTopicList
| ProduceResponseUnexpectedPartition
| ProduceResponseUnexpectedTopic.

(** The processor, with the reader it uses and the request it is given. *)
Record TProduceResponseProcessor := mkProcessor {
  Ds : TDispatcherSharedState;
  ResponseReader : Reader.TProduceResponseReader;
  Request : TAllTopics;
  MsgsWithoutAcks : list (list TMsg);
  PauseAndResendAckMsgs : list (list TMsg);
  ImmediateResendAckMsgs : list (list TMsg);
  PCounters : list processor_counter
}.

Definition PM := M Reader.exn TProduceResponseProcessor.

Definition PIncrement (c : processor_counter) : PM () :=
  modify (λ p, mkProcessor (Ds p) (ResponseReader p) (Request p) (MsgsWithoutAcks p)
    (PauseAndResendAckMsgs p) (ImmediateResendAckMsgs p) (c :: PCounters p)).

Definition set_request (r : TAllTopics) : PM () :=
  modify (λ p, mkProcessor (Ds p) (ResponseReader p) r (MsgsWithoutAcks p)
    (PauseAndResendAckMsgs p) (ImmediateResendAckMsgs p) (PCounters p)).

Definition on_ds (f : TDispatcherSharedState → TDispatcherSharedState) : PM () :=
  modify (λ p, mkProcessor (f (Ds p)) (ResponseReader p) (Request p) (MsgsWithoutAcks p)
    (PauseAndResendAckMsgs p) (ImmediateResendAckMsgs p) (PCounters p)).

Definition on_reader {A} (m : Reader.RM A) : PM A :=
  zoom ResponseReader (λ r p, mkProcessor (Ds p) r (Request p) (MsgsWithoutAcks p)
    (PauseAndResendAckMsgs p) (ImmediateResendAckMsgs p) (PCounters p)) m.

Definition on_msg_tracker {A} (m : TM A) : PM A :=
  zoom (λ p, MsgStateTracker (Ds p))
    (λ t p, mkProcessor (mkShared t (AnomalyTracker (Ds p)) (AckCount (Ds p)) (Destroyed (Ds p)))
       (ResponseReader p) (Request p) (MsgsWithoutAcks p)
       (PauseAndResendAckMsgs p) (ImmediateResendAckMsgs p) (PCounters p)) (no_throw m).

(** The end of the life of messages. *)
Definition destroy (msgs : list TMsg) : PM () :=
  on_ds (λ d, mkShared (MsgStateTracker d) (AnomalyTracker d) (AckCount d) (reverse msgs ++ Destroyed d)).

Inductive TAction := KeepRunning | PauseAndDeferFinish | PauseAndFinishNow.

Section processor.
(** The clock of the anomaly tracker, and [MaxFailedDeliveryAttempts]. *)
Context (now max_failed : Z).

(** [TDispatcherSharedState::Discard] of a message and of a list. *)
Definition Discard (msg : TMsg) (reason : TDiscardReason) : PM () :=
  on_ds (λ d, mkShared (MsgStateTracker d) (TrackDiscard now msg reason (AnomalyTracker d))
    (AckCount d) (Destroyed d));;
  m ← on_msg_tracker (MsgEnterProcessed msg);
  destroy [m].

Definition Discard_list (msg_list : list TMsg) (reason : TDiscardReason) : PM () :=
  on_ds (λ d, mkShared (MsgStateTracker d)
    (foldl (λ a msg, TrackDiscard now msg reason a) (AnomalyTracker d) msg_list)
    (AckCount d) (Destroyed d));;
  l ← on_msg_tracker (MsgEnterProcessed_list msg_list);
  destroy l.

(** The messages that are kept. *)
Fixpoint CountFailedDeliveryAttempt_set (msg_set : list TMsg) (topic : string) : PM (list TMsg) :=
  match msg_set with
  | [] => mret []
  | msg :: msg_set =>
      massert (bool_decide (Topic msg = topic));;
      let '(n, msg) := CountFailedDeliveryAttempt msg in
      if max_failed <? n then
        PIncrement DiscardOnFailedDeliveryAttemptLimit;;
        Discard msg FailedDeliveryAttemptLimit;;
        CountFailedDeliveryAttempt_set msg_set topic
      else
        l ← CountFailedDeliveryAttempt_set msg_set topic;
        mret (msg :: l)
  end.

Definition ProcessImmediateResendMsgSet (msg_set : list TMsg) (topic : string) : PM () :=
  massert (negb (bool_decide (msg_set = [])));;
  msg_set ← CountFailedDeliveryAttempt_set msg_set topic;
  if bool_decide (msg_set = []) then mret ()
  else
    PIncrement ConnectorQueueImmediateResendMsgSet;;
    l ← on_msg_tracker (MsgEnterSendWait_list msg_set);
    modify (λ p, mkProcessor (Ds p) (ResponseReader p) (Request p) (MsgsWithoutAcks p)
      (PauseAndResendAckMsgs p) (ImmediateResendAckMsgs p ++ [l]) (PCounters p)).

Definition ProcessPauseAndResendMsgSet (msg_set : list TMsg) (topic : string) : PM () :=
  massert (negb (bool_decide (msg_set = [])));;
  msg_set ← CountFailedDeliveryAttempt_set msg_set topic;
  if bool_decide (msg_set = []) then mret ()
  else
    PIncrement ConnectorQueuePauseAndResendMsgSet;;
    l ← on_msg_tracker (MsgEnterSendWait_list msg_set);
    modify (λ p, mkProcessor (Ds p) (ResponseReader p) (Request p) (MsgsWithoutAcks p)
      (PauseAndResendAckMsgs p ++ [l]) (ImmediateResendAckMsgs p) (PCounters p)).

Definition ProcessNoAckMsgs : PM () :=
  p ← get;
  tmp ← need AssertFailed (EmptyAllTopics (Request p));
  set_request [];;
  if bool_decide (tmp = []) then mret ()
  else
    PIncrement ConnectorQueueNoAckMsgs;;
    l ← on_msg_tracker (MsgEnterSendWait_lists tmp);
    modify (λ p, mkProcessor (Ds p) (ResponseReader p) (Request p) (MsgsWithoutAcks p ++ l)
      (PauseAndResendAckMsgs p) (ImmediateResendAckMsgs p) (PCounters p)).

(** [false]: a pause is needed. *)
Definition ProcessOneAck (msg_set : list TMsg) (ack : Z) (topic : string) : PM bool :=
  massert (negb (bool_decide (msg_set = [])));;
  on_ds (λ d, mkShared (MsgStateTracker d) (AnomalyTracker d) (uadd (AckCount d) 1) (Destroyed d));;
  match ProcessAck ack with
  | AckOk =>
      PIncrement ConnectorGotSuccessfulAck;;
      l ← on_msg_tracker (MsgEnterProcessed_list msg_set);
      destroy l;;
      mret true
  | AckResend =>
      PIncrement ConnectorGotResendAck;;
      ProcessImmediateResendMsgSet msg_set topic;;
      mret true
  | AckDiscard =>
      PIncrement ConnectorGotDiscardAck;;
      Discard_list msg_set KafkaErrorAck;;
      mret true
  | AckPause =>
      PIncrement ConnectorGotPauseAck;;
      ProcessPauseAndResendMsgSet msg_set topic;;
      mret false
  | AckDiscardAndPause =>
      PIncrement ConnectorGotDiscardAndPauseAck;;
      Discard_list msg_set KafkaErrorAck;;
      mret false
  end.

(** The partitions of the request's topic [topic] not acknowledged yet. *)
Definition partitions_of (topic : string) : PM TMultiPartitionGroup :=
  r ← gets Request; need NullDeref (sm_find topic r).

(** The loop over the partitions of a topic: was there an ACK that needs a
    pause, and was there an unexpected partition. *)
Fixpoint Acks_partitions (fuel : nat) (topic : string) (got_pause_ack : bool) : PM (bool * bool) :=
  match fuel with
  | O => crash OutOfFuel
  | S fuel =>
      more ← on_reader Reader.NextPartitionInTopic;
      if more : bool then
        partition ← on_reader Reader.GetCurrentPartitionNumber;
        all_partitions ← partitions_of topic;
        match sm_find partition all_partitions with
        | None => PIncrement ProduceResponseUnexpectedPartition;; mret (got_pause_ack, true)
        | Some msg_set =>
            massert (negb (bool_decide (Contents msg_set = [])));;
            ack ← on_reader Reader.GetCurrentPartitionErrorCode;
            ok ← ProcessOneAck (Contents msg_set) ack topic;
            r ← gets Request;
            set_request (sm_alter topic (sm_erase partition) r);;
            Acks_partitions fuel topic (got_pause_ack || negb ok)
        end
      else mret (got_pause_ack, false)
  end.

(** The loop over the topics: [got_pause_ack] and [bad_response]. *)
Fixpoint Acks_topics (fuel : nat) (got_pause_ack bad_response : bool) : PM (bool * bool) :=
  match fuel with
  | O => crash OutOfFuel
  | S fuel' =>
      more ← on_reader Reader.NextTopic;
      if more : bool then
        name ← on_reader Reader.GetCurrentTopicName;
        let topic := String.string_of_list_byte name in
        r ← gets Request;
        match sm_find topic r with
        | None => PIncrement ProduceResponseUnexpectedTopic;; mret (got_pause_ack, true)
        | Some _ =>
            '(got_pause_ack, bad) ← Acks_partitions fuel topic got_pause_ack;
            let bad_response := bad_response || bad in
            all_partitions ← partitions_of topic;
            if negb (bool_decide (all_partitions = [])) then
              PIncrement ProduceResponseShortPartitionList;; mret (got_pause_ack, true)
            else
              r ← gets Request;
              set_request (sm_erase topic r);;
              Acks_topics fuel' got_pause_ack bad_response
        end
      else mret (got_pause_ack, bad_response)
  end.

Definition ProcessResponseAcks (fuel : nat) : PM TAction :=
  '(got_pause_ack, bad_response) ← Acks_topics fuel false false;
  r ← gets Request;
  bad_response ←
    (if negb bad_response && negb (bool_decide (r = [])) then
       PIncrement ProduceResponseShortTopicList;; mret true
     else mret bad_response);
  (if bad_response : bool then ProcessNoAckMsgs else mret ());;
  r ← gets Request;
  massert (bool_decide (r = []));;
  if bad_response : bool then mret PauseAndFinishNow
  else
    PIncrement ConnectorGotOkProduceResponse;;
    mret (if got_pause_ack : bool then PauseAndDeferFinish else KeepRunning).

(** [request_id] is the correlation ID of the request; every ACK takes bytes of
    the response, so the size of the response is enough fuel. *)
Definition ProcessResponse (request_id : Z) (response_buf : list byte) : PM TAction :=
  on_reader (Reader.SetResponse response_buf);;
  corr_id ← on_reader Reader.GetCorrelationId;
  if negb (corr_id =? request_id) then
    PIncrement CorrelationIdMismatch;;
    ProcessNoAckMsgs;;
    mret PauseAndFinishNow
  else
    action ← ProcessResponseAcks (S (length response_buf));
    r ← gets Request;
    massert (bool_decide (r = []));;
    mret action.
End processor.

(** ** Messages of a request *)

Definition set_msgs (g : TMultiPartitionGroup) : list TMsg := concat ((λ p : Z * TMsgSet, Contents p.2) <$> g).
Definition req_msgs (r : TAllTopics) : list TMsg :=
  concat ((λ t : string * TMultiPartitionGroup, set_msgs t.2) <$> r).

(** A message set of topic [topic] that waits for its ACK. *)
Definition set_wf (topic : string) (p : Z * TMsgSet) : Prop :=
  Contents p.2 ≠ [] ∧ Forall (λ m, Topic m = topic ∧ State m = AckWait) (Contents p.2).

Definition request_wf (r : TAllTopics) : Prop :=
  NoDup r.*1 ∧ Forall (λ t : string * TMultiPartitionGroup, NoDup t.2.*1 ∧ Forall (set_wf t.1) t.2) r.

#[global] Instance set_msgs_proper : Proper ((≡ₚ) ==> (≡ₚ)) set_msgs.
Proof. intros g h Hp. unfold set_msgs. by rewrite Hp. Qed.

#[global] Instance req_msgs_proper : Proper ((≡ₚ) ==> (≡ₚ)) req_msgs.
Proof. intros r s Hp. unfold req_msgs. by rewrite Hp. Qed.

Lemma set_msgs_app g h : set_msgs (g ++ h) = set_msgs g ++ set_msgs h.
Proof. unfold set_msgs. by rewrite fmap_app, concat_app. Qed.

Lemma req_msgs_app r s : req_msgs (r ++ s) = req_msgs r ++ req_msgs s.
Proof. unfold req_msgs. by rewrite fmap_app, concat_app. Qed.

Lemma set_msgs_cons p g : set_msgs (p :: g) = Contents p.2 ++ set_msgs g.
Proof. done. Qed.

Lemma req_msgs_cons t r : req_msgs (t :: r) = set_msgs t.2 ++ req_msgs r.
Proof. done. Qed.

(** The message sets are nonempty, each of its topic. *)
Definition sets_full (r : TAllTopics) : Prop :=
  Forall (λ t : string * TMultiPartitionGroup,
    Forall (λ p : Z * TMsgSet, Contents p.2 ≠ [] ∧ Forall (λ m, Topic m = t.1) (Contents p.2)) t.2) r.

Lemma EmptyAllTopics_full r :
  sets_full r → ∃ l, EmptyAllTopics r = Some l ∧ concat l = req_msgs r ∧ Forall one_topic l.
Proof.
  intros Hr. unfold EmptyAllTopics. set (sets := concat _).
  assert (Forall one_topic sets) as Hone.
  { unfold sets. clear sets. induction Hr as [| [tp g] r Hg Hr IH]; [constructor |]. cbn.
    apply Forall_app. split; [| done]. apply Forall_fmap. eapply Forall_impl; [exact Hg |].
    intros p [Hne Hm]. split; [done |]. by exists tp. }
  exists sets. rewrite (proj2 (forallb_forall _ _)).
  2:{ intros l Hl%list_elem_of_In. rewrite Forall_forall in Hone. destruct (Hone l Hl) as [Hne _].
      by rewrite bool_decide_false. }
  split; [done |]. split; [| done]. unfold sets, req_msgs. clear. induction r as [| t r IH]; [done |]. cbn.
  by rewrite concat_app, IH.
Qed.

Lemma request_wf_full r : request_wf r → sets_full r.
Proof.
  intros [_ Hr]. eapply Forall_impl; [exact Hr |]. intros t [_ Ht]. eapply Forall_impl; [exact Ht |].
  intros p [Hne Hm]. split; [done |]. eapply Forall_impl; [exact Hm |]. by intros m [? _].
Qed.

Lemma EmptyAllTopics_ok r :
  request_wf r → ∃ l, EmptyAllTopics r = Some l ∧ concat l = req_msgs r ∧ Forall one_topic l.
Proof. intros Hr. by apply EmptyAllTopics_full, request_wf_full. Qed.

(** An acknowledged partition leaves the request. *)
Lemma request_erase_partition r topic g partition ms :
  request_wf r → sm_find topic r = Some g → sm_find partition g = Some ms →
  let r' := sm_alter topic (sm_erase partition) r in
  request_wf r' ∧ req_msgs r ≡ₚ Contents ms ++ req_msgs r' ∧
  sm_find topic r' = Some (sm_erase partition g) ∧ set_wf topic (partition, ms).
Proof.
  intros [Hnd Hr] (a & z & -> & Ha)%sm_find_split (u & v & -> & Hu)%sm_find_split r'.
  pose proof Hr as Hr'. apply Forall_app in Hr' as [Hra [[Hg1 Hg2] Hrz]%Forall_cons].
  apply Forall_app in Hg2 as Hg3. destruct Hg3 as [Hgu [Hset Hgv]%Forall_cons].
  assert (r' = a ++ (topic, u ++ v) :: z) as Er.
  { unfold r'. rewrite sm_alter_split by done. cbn in Hg1. by rewrite sm_erase_split. }
  rewrite Er, (sm_erase_split partition ms) by done. split_and!; [split | | by apply sm_find_middle | done].
  - rewrite fmap_app in *. exact Hnd.
  - apply Forall_app. split; [done |]. constructor; [| done]. split.
    + eapply sublist_NoDup; [exact Hg1 |]. apply fmap_sublist. cbn. apply sublist_app; [done |]. by constructor.
    + by apply Forall_app.
  - rewrite !req_msgs_app, !req_msgs_cons. cbn [snd]. rewrite !set_msgs_app, set_msgs_cons. cbn [snd]. perm_lia.
Qed.

(** A topic all of whose partitions are acknowledged leaves the request. *)
Lemma request_erase_topic r topic :
  request_wf r → sm_find topic r = Some [] →
  request_wf (sm_erase topic r) ∧ req_msgs (sm_erase topic r) = req_msgs r.
Proof.
  intros [Hnd Hr] (a & z & -> & Ha)%sm_find_split. rewrite sm_erase_split by done. split; [split |].
  - eapply sublist_NoDup; [exact Hnd |]. apply fmap_sublist, sublist_app; [done |]. by constructor.
  - apply Forall_app in Hr as [Hra [_ Hrz]%Forall_cons]. by apply Forall_app.
  - by rewrite !req_msgs_app.
Qed.

(** ** Where the messages are *)

(** What every step conserves of a message: all of it but its state and its
    count of failed delivery attempts. *)
Definition core (m : TMsg) : TMsg :=
  mkMsg (RoutingType m) (MsgPartitionKey m) (Timestamp m) (CreationTimestamp m) New 0
    (Topic m) (Partition m) (KeyAndValue m) (KeySize m) (BodyTruncated m).

(** The batches the processor has set aside for the dispatcher. *)
Definition batches (p : TProduceResponseProcessor) : list (list TMsg) :=
  MsgsWithoutAcks p ++ PauseAndResendAckMsgs p ++ ImmediateResendAckMsgs p.

(** Of the messages [msgs], the running function holds [hand] and the request
    [rest]; the others are destroyed, on top of [gone], or set aside. *)
Definition placed (msgs others gone hand rest : list TMsg) (p : TProduceResponseProcessor) : Prop :=
  ∃ dest, Destroyed (Ds p) = dest ++ gone ∧ Forall (λ m, State m = Processed) dest ∧
    core <$> msgs ≡ₚ core <$> hand ++ dest ++ concat (batches p) ++ rest ∧
    tracker_ok (MsgStateTracker (Ds p)) (hand ++ dest ++ concat (batches p) ++ rest ++ others) ∧
    Forall one_topic (batches p) ∧ Forall (λ m, State m = SendWait) (concat (batches p)).

Lemma core_SetState s (l : list TMsg) : core <$> (SetState s <$> l) = core <$> l.
Proof. rewrite <- list_fmap_compose. by apply list_fmap_ext. Qed.

Lemma tracker_ok_replace t m m' l :
  State m' = State m → Topic m' = Topic m → tracker_ok t (m :: l) → tracker_ok t (m' :: l).
Proof.
  intros Hs Ht [Hn Hc].
  assert (∀ s, in_state s m' = in_state s m) as Hi by (intros s; unfold in_state; by rewrite Hs).
  split.
  - rewrite Hn. unfold new_cnt. cbn. by rewrite Hi.
  - intros topic. rewrite Hc. unfold cnt. cbn. by rewrite !Hi, Ht.
Qed.

Section placed.
Context (msgs others gone : list TMsg).

Lemma placed_perm hand rest hand' rest' p :
  hand ++ rest ≡ₚ hand' ++ rest' → placed msgs others gone hand rest p → placed msgs others gone hand' rest' p.
Proof.
  intros Hp (dest & Hd & Hs & Hc & Ht & H1 & H2). exists dest. split_and!; try done.
  - rewrite Hc. apply fmap_Permutation. perm_lia.
  - eapply tracker_ok_perm; [| exact Ht]. perm_lia.
Qed.

(** A step that only changes the rest of the state. *)
Lemma placed_same hand rest p p' :
  Destroyed (Ds p') = Destroyed (Ds p) → MsgStateTracker (Ds p') = MsgStateTracker (Ds p) →
  batches p' = batches p → placed msgs others gone hand rest p → placed msgs others gone hand rest p'.
Proof. intros E1 E2 E3. unfold placed. by rewrite E1, E2, E3. Qed.

Definition with_tracker (t : TMsgStateTracker) (p : TProduceResponseProcessor) : TProduceResponseProcessor :=
  mkProcessor (mkShared t (AnomalyTracker (Ds p)) (AckCount (Ds p)) (Destroyed (Ds p)))
    (ResponseReader p) (Request p) (MsgsWithoutAcks p) (PauseAndResendAckMsgs p)
    (ImmediateResendAckMsgs p) (PCounters p).

Lemma placed_enter target l hand rest p :
  placed msgs others gone (l ++ hand) rest p → (∃ tp, Forall (λ m, Topic m = tp ∧ legal target (State m) = true) l) →
  ∃ t, on_msg_tracker (EnterList (count_of target) target l) p =
         (Ret (SetState target <$> l), with_tracker t p) ∧
       placed msgs others gone ((SetState target <$> l) ++ hand) rest (with_tracker t p).
Proof.
  intros (dest & Hd & Hs & Hc & Ht & H1 & H2) Hl. rewrite <- app_assoc in Ht.
  destruct (EnterList_ok target _ l _ Ht Hl) as (t & Hr & Ht').
  exists t. split; [unfold on_msg_tracker, zoom, no_throw; by rewrite Hr |].
  exists dest. split_and!; try done; rewrite <- (app_assoc (SetState target <$> l)); [| done].
  rewrite fmap_app, core_SetState, <- fmap_app, app_assoc. exact Hc.
Qed.

Lemma placed_enter_one target m hand rest p :
  placed msgs others gone (m :: hand) rest p → legal target (State m) = true →
  ∃ t, on_msg_tracker (EnterOne (count_of target) target m) p = (Ret (SetState target m), with_tracker t p) ∧
       placed msgs others gone (SetState target m :: hand) rest (with_tracker t p).
Proof.
  intros (dest & Hd & Hs & Hc & Ht & H1 & H2) Hl.
  destruct (enter_one_ok target m _ _ Ht Hl) as (t & Hr & Ht').
  exists t. split; [unfold on_msg_tracker, zoom, no_throw; by rewrite Hr |].
  exists dest. by split_and!.
Qed.

Lemma placed_count m hand rest p :
  placed msgs others gone (m :: hand) rest p → placed msgs others gone ((CountFailedDeliveryAttempt m).2 :: hand) rest p.
Proof.
  intros (dest & Hd & Hs & Hc & Ht & H1 & H2). exists dest. split_and!; try done.
  by eapply tracker_ok_replace; [| | exact Ht].
Qed.

Lemma placed_destroy l hand rest p :
  Forall (λ m, State m = Processed) l → placed msgs others gone (l ++ hand) rest p →
  placed msgs others gone hand rest (destroy l p).2.
Proof.
  intros Hl (dest & Hd & Hs & Hc & Ht & H1 & H2). exists (reverse l ++ dest).
  change (batches (destroy l p).2) with (batches p).
  change (MsgStateTracker (Ds (destroy l p).2)) with (MsgStateTracker (Ds p)).
  change (Destroyed (Ds (destroy l p).2)) with (reverse l ++ Destroyed (Ds p)).
  split_and!; try done.
  - by rewrite Hd, app_assoc.
  - apply Forall_app. split; [by apply Forall_reverse | done].
  - rewrite Hc. apply fmap_Permutation. rewrite (reverse_Permutation l). perm_lia.
  - eapply tracker_ok_perm; [| exact Ht]. rewrite (reverse_Permutation l). perm_lia.
Qed.

(** Batches that are set aside, on one of the three lists. *)
Lemma placed_aside bs hand rest p p' :
  Destroyed (Ds p') = Destroyed (Ds p) → MsgStateTracker (Ds p') = MsgStateTracker (Ds p) →
  batches p' ≡ₚ bs ++ batches p → Forall one_topic bs → Forall (λ m, State m = SendWait) (concat bs) →
  placed msgs others gone (concat bs ++ hand) rest p → placed msgs others gone hand rest p'.
Proof.
  intros E1 E2 E3 Hb Hw (dest & Hd & Hs & Hc & Ht & H1 & H2).
  assert (concat (batches p') ≡ₚ concat bs ++ concat (batches p)) as Hp by (rewrite <- concat_app; by rewrite E3).
  exists dest. rewrite E1, E2. split_and!; try done.
  - rewrite Hc. apply fmap_Permutation. rewrite Hp. perm_lia.
  - eapply tracker_ok_perm; [| exact Ht]. rewrite Hp. perm_lia.
  - rewrite E3. by apply Forall_app.
  - rewrite Hp. by apply Forall_app.
Qed.
End placed.

(** ** The operations on one message set *)

Definition same_frame (p p' : TProduceResponseProcessor) : Prop :=
  Request p' = Request p ∧ ResponseReader p' = ResponseReader p.

#[global] Instance same_frame_refl : Reflexive same_frame.
Proof. done. Qed.

#[global] Instance same_frame_trans : Transitive same_frame.
Proof. intros p q r [? ?] [? ?]. split; congruence. Qed.

Definition awaiting (topic : string) (m : TMsg) : Prop := Topic m = topic ∧ State m = AckWait.

Lemma awaiting_legal target topic l :
  legal target AckWait = true → Forall (awaiting topic) l →
  ∃ tp, Forall (λ m, Topic m = tp ∧ legal target (State m) = true) l.
Proof. intros Ht Hl. exists topic. eapply Forall_impl; [exact Hl |]. by intros m [? ->]. Qed.

Lemma SetState_all s (l : list TMsg) : Forall (λ m, State m = s) (SetState s <$> l).
Proof. apply Forall_fmap. by apply Forall_true. Qed.

Section operations.
Context (msgs others gone : list TMsg) (now max_failed : Z).
Context (T : Reader.exn → TProduceResponseProcessor → Prop) (F : fault → Prop).

Lemma Discard_wp m reason hand rest p :
  placed msgs others gone (m :: hand) rest p → State m = AckWait →
  wp (Discard now m reason) p (λ _ p', placed msgs others gone hand rest p' ∧ same_frame p p') T F.
Proof.
  intros Hp Hm. wstep. set (p1 := mkProcessor _ _ _ _ _ _ _).
  destruct (placed_enter_one msgs others gone Processed m hand rest p1) as (t & Hr & Hp2).
  { by eapply placed_same; [| | | exact Hp]. }
  { by rewrite Hm. }
  eapply wp_bind_Ret; [exact Hr |]. eapply wp_Ret; [reflexivity |]. split; [| done].
  apply (placed_destroy _ _ _ [SetState Processed m] hand rest (with_tracker t p1)); [| done].
  by repeat constructor.
Qed.

Lemma enter_destroy_wp topic l hand rest p :
  placed msgs others gone (l ++ hand) rest p → Forall (awaiting topic) l →
  wp (l' ← on_msg_tracker (MsgEnterProcessed_list l); destroy l') p
    (λ _ p', placed msgs others gone hand rest p' ∧ same_frame p p') T F.
Proof.
  intros Hp Hl. destruct (placed_enter msgs others gone Processed l hand rest p Hp) as (t & Hr & Hp2).
  { by apply (awaiting_legal _ topic). }
  eapply wp_bind_Ret; [exact Hr |]. eapply wp_Ret; [reflexivity |]. split; [| done].
  apply (placed_destroy _ _ _ (SetState Processed <$> l) hand rest (with_tracker t p)); [| done].
  apply SetState_all.
Qed.

Lemma CountFailed_wp topic l hand rest p :
  placed msgs others gone (l ++ hand) rest p → Forall (awaiting topic) l →
  wp (CountFailedDeliveryAttempt_set now max_failed l topic) p
    (λ kept p', placed msgs others gone (kept ++ hand) rest p' ∧ Forall (awaiting topic) kept ∧ same_frame p p') T F.
Proof.
  revert hand p. induction l as [| m l IH]; intros hand p Hp Hl.
  - eapply wp_Ret; [reflexivity |]. by split_and!.
  - apply Forall_cons in Hl as [[Hm1 Hm2] Hl]. cbn [CountFailedDeliveryAttempt_set].
    apply wp_massert; [by apply bool_decide_true |]. cbn [CountFailedDeliveryAttempt].
    pose proof (placed_count msgs others gone m (l ++ hand) rest p Hp) as Hp1. set (m1 := (CountFailedDeliveryAttempt m).2) in *.
    change (mkMsg _ _ _ _ _ _ _ _ _ _ _) with m1. destruct (max_failed <? _).
    + wstep. apply wp_bind. eapply wp_mono.
      { eapply Discard_wp; [by eapply placed_same; [| | | exact Hp1] | done]. }
      intros _ p2 [Hp2 Hf2]. eapply wp_mono; [by apply IH |].
      intros kept p3 (Hp3 & Hk & Hf3). split_and!; [done | done |]. etrans; [| exact Hf3]. done.
    + apply wp_bind. eapply wp_mono.
      { apply (IH (m1 :: hand)); [| done]. eapply placed_perm; [| exact Hp1]. perm_lia. }
      intros kept p2 (Hp2 & Hk & Hf2). eapply wp_Ret; [reflexivity |]. split_and!; [| by constructor | done].
      eapply placed_perm; [| exact Hp2]. perm_lia.
Qed.

(** A message set that is kept goes to one of the lists of batches. *)
Lemma resend_wp topic l hand rest p c (put : list TMsg → PM ()) :
  placed msgs others gone (l ++ hand) rest p → Forall (awaiting topic) l → l ≠ [] →
  (∀ b q, ∃ q', put b q = (Ret (), q') ∧ same_frame q q' ∧ Destroyed (Ds q') = Destroyed (Ds q) ∧
     MsgStateTracker (Ds q') = MsgStateTracker (Ds q) ∧ batches q' ≡ₚ [b] ++ batches q) →
  wp (massert (negb (bool_decide (l = [])));;
      l ← CountFailedDeliveryAttempt_set now max_failed l topic;
      if bool_decide (l = []) then mret ()
      else PIncrement c;; l ← on_msg_tracker (MsgEnterSendWait_list l); put l) p
    (λ _ p', placed msgs others gone hand rest p' ∧ same_frame p p') T F.
Proof.
  intros Hp Hl Hne Hput. apply wp_massert; [by rewrite bool_decide_false |]. apply wp_bind.
  eapply wp_mono; [by apply CountFailed_wp |]. intros kept p1 (Hp1 & Hk & Hf1). case_bool_decide as E.
  { subst kept. by eapply wp_Ret. }
  wstep. set (p2 := mkProcessor _ _ _ _ _ _ _).
  destruct (placed_enter msgs others gone SendWait kept hand rest p2) as (t & Hr & Hp3).
  { by eapply placed_same; [| | | exact Hp1]. }
  { by apply (awaiting_legal _ topic). }
  eapply wp_bind_Ret; [exact Hr |].
  destruct (Hput (SetState SendWait <$> kept) (with_tracker t p2)) as (q & Hq & Hfq & E1 & E2 & E3).
  eapply wp_Ret; [exact Hq |]. split.
  - eapply (placed_aside _ _ _ [SetState SendWait <$> kept]); [exact E1 | exact E2 | exact E3 | | |].
    + repeat constructor; [by destruct kept |]. exists topic. apply Forall_fmap.
      eapply Forall_impl; [exact Hk |]. by intros m [? _].
    + cbn. rewrite app_nil_r. apply SetState_all.
    + cbn. by rewrite app_nil_r.
  - etrans; [exact Hf1 |]. by etrans; [| exact Hfq].
Qed.

Lemma ProcessImmediateResendMsgSet_wp topic l hand rest p :
  placed msgs others gone (l ++ hand) rest p → Forall (awaiting topic) l → l ≠ [] →
  wp (ProcessImmediateResendMsgSet now max_failed l topic) p
    (λ _ p', placed msgs others gone hand rest p' ∧ same_frame p p') T F.
Proof.
  intros Hp Hl Hne. apply resend_wp; [done | done | done |]. intros b q. eexists. split; [reflexivity |].
  split_and!; [done | done | done |]. unfold batches. cbn. perm_lia.
Qed.

Lemma ProcessPauseAndResendMsgSet_wp topic l hand rest p :
  placed msgs others gone (l ++ hand) rest p → Forall (awaiting topic) l → l ≠ [] →
  wp (ProcessPauseAndResendMsgSet now max_failed l topic) p
    (λ _ p', placed msgs others gone hand rest p' ∧ same_frame p p') T F.
Proof.
  intros Hp Hl Hne. apply resend_wp; [done | done | done |]. intros b q. eexists. split; [reflexivity |].
  split_and!; [done | done | done |]. unfold batches. cbn. perm_lia.
Qed.

Lemma ProcessOneAck_wp topic l ack hand rest p :
  placed msgs others gone (l ++ hand) rest p → Forall (awaiting topic) l → l ≠ [] →
  wp (ProcessOneAck now max_failed l ack topic) p
    (λ _ p', placed msgs others gone hand rest p' ∧ same_frame p p') T F.
Proof.
  intros Hp Hl Hne. apply wp_massert; [by rewrite bool_decide_false |]. wstep.
  set (p1 := mkProcessor _ _ _ _ _ _ _).
  assert (∀ c A (m : PM A) (b : bool),
    (∀ q, placed msgs others gone (l ++ hand) rest q →
       wp m q (λ _ q', placed msgs others gone hand rest q' ∧ same_frame q q') T F) →
    wp (PIncrement c;; m;; mret b) p1
      (λ _ p', placed msgs others gone hand rest p' ∧ same_frame p p') T F) as Hstep.
  { intros c A m b Hm. wstep. apply wp_bind. eapply wp_mono; [apply Hm |].
    - by eapply placed_same; [| | | exact Hp].
    - intros _ q [Hq Hf]. by eapply wp_Ret. }
  destruct (ProcessAck ack).
  - wstep. set (p2 := mkProcessor _ _ _ _ _ _ _).
    destruct (placed_enter msgs others gone Processed l hand rest p2) as (t & Hr & Hp2).
    { by eapply placed_same; [| | | exact Hp]. }
    { by apply (awaiting_legal _ topic). }
    eapply wp_bind_Ret; [exact Hr |]. wstep. eapply wp_Ret; [reflexivity |]. split; [| done].
    apply (placed_destroy _ _ _ (SetState Processed <$> l) hand rest (with_tracker t p2)); [| done].
    apply SetState_all.
  - apply Hstep. intros q Hq. by apply ProcessImmediateResendMsgSet_wp.
  - apply Hstep. intros q Hq. unfold Discard_list. wstep. eapply wp_mono.
    { apply (enter_destroy_wp topic); [| done]. by eapply placed_same; [| | | exact Hq]. }
    done.
  - apply Hstep. intros q Hq. by apply ProcessPauseAndResendMsgSet_wp.
  - apply Hstep. intros q Hq. unfold Discard_list. wstep. eapply wp_mono.
    { apply (enter_destroy_wp topic); [| done]. by eapply placed_same; [| | | exact Hq]. }
    done.
Qed.
End operations.

(** ** The loops over a response *)

Ltac pos_lia := unfold pos in *; lia.

Section loops.
Context (msgs others gone : list TMsg) (now max_failed : Z).

(** Every message is destroyed, set aside or still in the request. *)
Definition settled (p : TProduceResponseProcessor) : Prop :=
  request_wf (Request p) ∧ placed msgs others gone [] (req_msgs (Request p)) p.

Definition with_reader (r : Reader.TProduceResponseReader) (p : TProduceResponseProcessor)
    : TProduceResponseProcessor :=
  mkProcessor (Ds p) r (Request p) (MsgsWithoutAcks p) (PauseAndResendAckMsgs p)
    (ImmediateResendAckMsgs p) (PCounters p).

Lemma settled_same p p' :
  Request p' = Request p → Destroyed (Ds p') = Destroyed (Ds p) →
  MsgStateTracker (Ds p') = MsgStateTracker (Ds p) → batches p' = batches p → settled p → settled p'.
Proof.
  intros E1 E2 E3 E4 [Hr Hp]. unfold settled. rewrite E1. split; [done |].
  by eapply placed_same; [| | | exact Hp].
Qed.

Lemma settled_reader r p : settled p → settled (with_reader r p).
Proof. by apply settled_same. Qed.

Lemma on_reader_run {A} (m : Reader.RM A) p o r :
  m (ResponseReader p) = (o, r) → on_reader m p = (o, with_reader r p).
Proof. intros Hm. unfold on_reader, zoom. by rewrite Hm. Qed.

Lemma ProcessNoAckMsgs_wp T F p :
  settled p →
  wp ProcessNoAckMsgs p (λ _ p', settled p' ∧ Request p' = []) T F.
Proof.
  intros [Hr Hp]. wstep. destruct (EmptyAllTopics_ok _ Hr) as (bs & Hbs & Hc & Hone).
  eapply wp_bind_Ret; [by rewrite Hbs |]. wstep. set (p1 := mkProcessor _ _ [] _ _ _ _).
  assert (placed msgs others gone (concat bs) [] p1) as Hp1.
  { eapply placed_same with (p := p); [done | done | done |]. eapply placed_perm; [| exact Hp]. rewrite Hc. perm_lia. }
  case_bool_decide as E.
  { subst bs. eapply wp_Ret; [reflexivity |]. split; [| done]. split; [by split; constructor | exact Hp1]. }
  wstep. set (p2 := mkProcessor _ _ _ _ _ _ _). destruct Hp1 as (dest & Hd & Hs & Hcore & Ht & H1 & H2).
  change (MsgStateTracker (Ds p1)) with (MsgStateTracker (Ds p2)) in Ht.
  destruct (enter_lists_ok bs _ _ Ht Hone) as (t & Ht1 & Ht2).
  { rewrite Hc. destruct Hr as [_ Hr]. clear -Hr. induction Hr as [| [tp g] r [_ Hg] Hr IH]; [constructor |].
    rewrite req_msgs_cons. apply Forall_app. split; [| exact IH]. clear -Hg. cbn [fst snd] in *.
    induction Hg as [| q g [_ Hq] Hg IHg]; [constructor |]. rewrite set_msgs_cons. apply Forall_app.
    split; [| exact IHg]. eapply Forall_impl; [exact Hq |]. by intros m [_ ->]. }
  eapply wp_bind_Ret; [unfold on_msg_tracker, zoom, no_throw; by rewrite Ht1 |].
  eapply wp_Ret; [reflexivity |]. split; [| done]. split; [by split; constructor |]. set (p3 := mkProcessor _ _ _ _ _ _ _).
  assert (concat (batches p3) ≡ₚ concat (sent bs) ++ concat (batches p)) as Hb.
  { unfold p3, batches. cbn. rewrite !concat_app. perm_lia. }
  exists dest. split_and!; try done.
  - rewrite Hcore, !fmap_app, Hb, concat_sent, fmap_app, core_SetState. change (batches p1) with (batches p).
    change (req_msgs (Request p3)) with (@nil TMsg). cbn [fmap list_fmap]. perm_lia.
  - eapply tracker_ok_perm; [| exact Ht2]. rewrite Hb. change (batches p1) with (batches p).
    change (req_msgs (Request p3)) with (@nil TMsg). perm_lia.
  - apply Forall_app in H1 as [Ha1 Ha2]. unfold batches, p3. cbn. rewrite <- app_assoc. apply Forall_app.
    split; [done |]. apply Forall_app. split; [| done]. unfold sent. apply Forall_fmap.
    eapply Forall_impl; [exact Hone |]. intros l [Hne [tp Htp]]. split; [by destruct l |].
    exists tp. by apply Forall_fmap.
  - rewrite Hb, concat_sent. apply Forall_app. split; [apply SetState_all | exact H2].
Qed.

(** How a run may end before its time: with the exceptions the connector
    catches, or on the product of [NextTopic]. *)
Definition T_bad (x : Reader.exn) (p : TProduceResponseProcessor) : Prop :=
  Reader.TBadProduceResponse x = true ∧ settled p.
Definition F_overflow (f : fault) : Prop := f = Overflow.

Lemma Acks_partitions_wp fuel topic g mem e nt i b n np k cs p :
  located mem e nt i b n np → 0 ≤ k ≤ np → pos n k ≤ e → e - pos n k < Z.of_nat fuel →
  settled p → ResponseReader p = at_topic mem e nt i b n np (k - 1) cs → is_Some (sm_find topic (Request p)) →
  wp (Acks_partitions now max_failed fuel topic g) p
    (λ _ p', settled p' ∧ is_Some (sm_find topic (Request p')) ∧
       ∃ k', ResponseReader p' = at_topic mem e nt i b n np k' cs) T_bad F_overflow.
Proof.
  intros Hl. revert k g p. induction fuel as [| fuel IH]; intros k g p Hk Hpos Hf Hs Hr Htp; [lia |].
  cbn [Acks_partitions]. pose proof (NextPartition_ok _ _ _ _ _ _ _ k cs Hl Hk Hpos) as Hnext.
  rewrite <- Hr in Hnext. case_decide as Hd.
  { eapply wp_bind_Ret; [by apply on_reader_run |]. eapply wp_Ret; [reflexivity |].
    split_and!; [by apply settled_reader | done | by eexists]. }
  case_decide as Hd'.
  2:{ eapply wp_bind_Throw; [by apply on_reader_run |]. split; [done | by apply settled_reader]. }
  eapply wp_bind_Ret; [by apply on_reader_run |]. cbv iota.
  pose proof (ack_fields_ok mem e nt i b n np k cs Hl ltac:(lia) Hd') as (Hf1 & Hf2 & _).
  pose proof Hl as [[He1 He2] _ _ [Hb1 Hb2] _ _].
  set (r := at_topic mem e nt i b n np k cs) in *.
  destruct (rd32_ok (E := Reader.exn) mem (pos n k) r ltac:(pos_lia) ltac:(pos_lia)) as (part & Hpart & _).
  destruct (rd16_ok (E := Reader.exn) mem (pos n k + 4) r ltac:(pos_lia) ltac:(pos_lia)) as (er & Her & _).
  rewrite Hpart in Hf1. rewrite Her in Hf2. set (p1 := with_reader r p).
  assert (settled p1) as Hs1 by (by apply settled_reader).
  eapply wp_bind_Ret; [by apply (on_reader_run _ p1 _ r) |]. change (with_reader r p1) with p1.
  destruct Htp as [ps Hps]. eapply wp_bind_Ret.
  { unfold partitions_of. erewrite bind_Ret by reflexivity. cbn [Request p1 with_reader]. by rewrite Hps. }
  destruct (sm_find part ps) as [ms |] eqn:Hms.
  2:{ wstep. eapply wp_Ret; [reflexivity |]. split_and!; [by eapply settled_same; [.. | exact Hs1] | by eexists | by eexists]. }
  destruct Hs1 as [Hwf Hpl].
  destruct (request_erase_partition _ _ _ _ _ Hwf Hps Hms) as (Hwf' & Hperm & Hfind & [Hne Haw]).
  apply wp_massert; [by rewrite bool_decide_false |].
  eapply wp_bind_Ret; [by apply (on_reader_run _ p1 _ r) |]. change (with_reader r p1) with p1. apply wp_bind.
  set (r' := sm_alter topic (sm_erase part) (Request p1)) in *. eapply wp_mono.
  { apply (ProcessOneAck_wp msgs others gone now max_failed _ _ topic (Contents ms) er [] (req_msgs r')); [| done | done].
    eapply placed_perm; [| exact Hpl]. rewrite app_nil_r. exact Hperm. }
  intros ok p2 [Hp2 [Hf3 Hf4]]. wstep. rewrite Hf3. wstep. eapply IH with (k := k + 1).
  - lia.
  - pos_lia.
  - pos_lia.
  - split; [done |]. by eapply placed_same; [| | | exact Hp2].
  - cbn [ResponseReader]. rewrite Hf4. unfold p1, r. cbn. by replace (k + 1 - 1) with k by lia.
  - by eexists.
Qed.

Lemma Acks_topics_wp fuel g bad mem e nt cs i b p :
  e ≤ Z.of_nat (length mem) → e ≤ 2 ^ 31 + 3 → 0 ≤ nt → in_s 32 nt → stopped mem e nt cs i b (ResponseReader p) →
  12 ≤ b → 0 ≤ i → e - b < Z.of_nat fuel → (0 < fuel)%nat → settled p →
  wp (Acks_topics now max_failed fuel g bad) p (λ _, settled) T_bad F_overflow.
Proof.
  intros He1 He2 Hn1 Hn2. revert g bad i b p.
  induction fuel as [| fuel IH]; intros g bad i b p Hr Hb Hi Hf Hpos Hs; [lia |]. cbn [Acks_topics].
  pose proof (NextTopic_stopped _ _ _ _ _ _ _ He1 He2 Hn1 Hn2 Hr) as Hnext. case_decide as Hd.
  2:{ destruct Hnext as [r' Hr']. eapply wp_bind_Ret; [by apply on_reader_run |].
      eapply wp_Ret; [reflexivity |]. by apply settled_reader. }
  destruct Hnext as [(ne & np & k & Hnext) | (r' & Hr')].
  2:{ apply wp_bind. unfold wp. by rewrite (on_reader_run _ _ _ _ Hr'). }
  destruct (InitCurrentTopic_safe mem e nt i b ne np k cs) as [(n & np' & Hinit & Hl) | (x & s & Hinit & Hx)];
    try done; unfold Reader.RM in Hinit, Hnext.
  2:{ rewrite (bind_Throw _ _ _ _ _ Hinit) in Hnext. eapply wp_bind_Throw; [by apply on_reader_run |].
      split; [done | by apply settled_reader]. }
  rewrite (bind_Ret _ _ _ _ _ Hinit) in Hnext. eapply wp_bind_Ret; [by apply on_reader_run |]. cbv iota.
  pose proof Hl as [_ _ _ [Hb1 Hb2] Hn [Hnp1 Hnp2]].
  set (r1 := at_topic mem e nt i b n np' (-1) cs) in *. set (p1 := with_reader r1 p).
  destruct (rd_range_ok (E := Reader.exn) mem (b + 2) n r1) as (name & Hname & _); try lia.
  pose proof (GetCurrentTopicName_ok mem e nt i b n np' (-1) cs Hl) as Hg. fold r1 in Hg. rewrite Hname in Hg.
  eapply wp_bind_Ret; [by apply (on_reader_run _ p1 _ r1) |]. change (with_reader r1 p1) with p1.
  assert (settled p1) as Hs1 by (by apply settled_reader). wstep.
  destruct (sm_find _ (Request p1)) as [ps |] eqn:Hps.
  2:{ wstep. eapply wp_Ret; [reflexivity |]. by eapply settled_same; [.. | exact Hs1]. }
  apply wp_bind. eapply wp_mono.
  { eapply (Acks_partitions_wp _ _ _ mem e nt i b n np' 0 cs); [done | lia | pos_lia | pos_lia | done | done | by eexists]. }
  intros [g' bad'] p2 (Hs2 & [ps2 Hps2] & k' & Hr2). eapply wp_bind_Ret.
  { unfold partitions_of. erewrite bind_Ret by reflexivity. cbv beta. by rewrite Hps2. }
  case_bool_decide as E; cbn [negb].
  2:{ wstep. eapply wp_Ret; [reflexivity |]. by eapply settled_same; [.. | exact Hs2]. }
  subst ps2. destruct Hs2 as [Hwf Hpl]. destruct (request_erase_topic _ _ Hwf Hps2) as [Hwf' Hm].
  wstep. wstep. eapply (IH _ _ (i + 1) (pos n np')); try pos_lia.
  - cbn [ResponseReader]. rewrite Hr2. by constructor.
  - split; [done |]. cbn [Request]. rewrite Hm. by eapply placed_same; [| | | exact Hpl].
Qed.

Lemma ProcessResponseAcks_wp fuel mem e nt cs p :
  e ≤ Z.of_nat (length mem) → e ≤ 2 ^ 31 + 3 → 0 ≤ nt → in_s 32 nt → ResponseReader p = at_start mem e nt cs →
  e < Z.of_nat fuel → (0 < fuel)%nat → settled p →
  wp (ProcessResponseAcks now max_failed fuel) p (λ _ p', settled p' ∧ Request p' = []) T_bad F_overflow.
Proof.
  intros He1 He2 Hn1 Hn2 Hr Hf1 Hf2 Hs. apply wp_bind. eapply wp_mono.
  { eapply (Acks_topics_wp _ _ _ mem e nt cs 0 12); try done; try lia. rewrite Hr. constructor. }
  intros [g bad] p1 Hs1. wstep. apply wp_bind.
  apply wp_mono with (Q := λ bad' p2, settled p2 ∧ (bad' = false → Request p2 = [])).
  { destruct bad; cbn [negb andb].
    - by eapply wp_Ret.
    - case_bool_decide as E; cbn [negb]; [by eapply wp_Ret |]. wstep. eapply wp_Ret; [reflexivity |].
      split; [by eapply settled_same; [.. | exact Hs1] | done]. }
  intros bad' p2 [Hs2 Hb2]. apply wp_bind.
  apply wp_mono with (Q := λ _ p3, settled p3 ∧ Request p3 = []).
  { destruct bad'; [by apply ProcessNoAckMsgs_wp |]. eapply wp_Ret; [reflexivity |]. auto. }
  intros _ p3 [Hs3 Hr3]. wstep. apply wp_massert; [by apply bool_decide_true |].
  destruct bad'; [by eapply wp_Ret |]. wstep. eapply wp_Ret; [reflexivity |].
  split; [by eapply settled_same; [.. | exact Hs3] | done].
Qed.

Lemma ProcessResponse_wp request_id buf p :
  settled p →
  wp (ProcessResponse now max_failed request_id buf) p (λ _ p', settled p' ∧ Request p' = [])
    (λ x p', x ≠ Reader.range_error ∧ settled p' ∧
      (Reader.TBadProduceResponse x = false → ∃ size, ReadInt32FromHeader buf = Some size ∧ size < 0)) F_overflow.
Proof.
  intros Hs. unfold ProcessResponse.
  destruct (SetResponse_safe buf (ResponseReader p)) as
    [(e & nt & Hset & Hbuf & He1 & He2 & Hn1 & Hn2) | (x & r' & Hset & Hx & Hsz)].
  2:{ eapply wp_bind_Throw; [by apply on_reader_run |]. split; [done |]. split; [by apply settled_reader | done]. }
  eapply wp_bind_Ret; [by apply on_reader_run |]. set (r1 := at_start _ _ _ _). set (p1 := with_reader r1 p).
  assert (settled p1) as Hs1 by (by apply settled_reader).
  destruct (rd32_ok (E := Reader.exn) buf 4 r1 ltac:(lia) ltac:(lia)) as (id & Hid & _).
  assert (Reader.GetCorrelationId r1 = (Ret id, r1)) as Hget.
  { unfold Reader.GetCorrelationId, Reader.RM. rstep. cbn [Reader.Begin Reader.End_ Reader.NumTopics r1 at_start
      Reader.non_null]. rewrite !massert_bind by boolia. cbn [need]. rstep. exact Hid. }
  eapply wp_bind_Ret; [by apply (on_reader_run _ p1 _ r1) |]. change (with_reader r1 p1) with p1.
  destruct (id =? request_id); cbn [negb].
  - apply wp_bind. unfold wp. pose proof (ProcessResponseAcks_wp (S (length buf)) buf e nt _ p1 He1 He2 Hn1 Hn2
      eq_refl ltac:(lia) ltac:(lia) Hs1) as Hp. unfold wp in Hp.
    destruct (ProcessResponseAcks _ _ _ p1) as [[a | x | f] p2]; [| destruct Hp as [Hx Hp]; split; [by intros -> | split; [done | by rewrite Hx]] | done].
    destruct Hp as [Hs2 Hr2]. apply wp_bind_Ret with (a := Request p2) (s' := p2); [done |].
    apply wp_massert; [by apply bool_decide_true |]. by eapply wp_Ret.
  - wstep. apply wp_bind. eapply wp_mono.
    { apply ProcessNoAckMsgs_wp. by eapply settled_same; [.. | exact Hs1]. }
    cbv beta. intros _ p2 Hp2. by eapply wp_Ret.
Qed.
End loops.

(** ** What is set aside *)

(** [m] sets no message aside, but for resending at once. *)
Definition sets_nothing {A} (m : PM A) : Prop := ∀ p,
  wp m p (λ _ p', MsgsWithoutAcks p' = MsgsWithoutAcks p ∧ PauseAndResendAckMsgs p' = PauseAndResendAckMsgs p)
    (λ _ p', MsgsWithoutAcks p' = MsgsWithoutAcks p) (λ _, True).

(** [m] sets a message aside for a pause only if it asks for one. *)
Definition sets_paused {A} (pauses : A → bool) (m : PM A) : Prop := ∀ p,
  wp m p (λ a p', MsgsWithoutAcks p' = MsgsWithoutAcks p ∧
      (pauses a = false → PauseAndResendAckMsgs p' = PauseAndResendAckMsgs p))
    (λ _ p', MsgsWithoutAcks p' = MsgsWithoutAcks p) (λ _, True).

Lemma sets_nothing_paused {A} f (m : PM A) : sets_nothing m → sets_paused f m.
Proof. intros Hm p. eapply wp_mono; [apply Hm |]. naive_solver. Qed.

Lemma sets_nothing_bind {A B} (m : PM A) (f : A → PM B) :
  sets_nothing m → (∀ a, sets_nothing (f a)) → sets_nothing (m ≫= f).
Proof.
  intros Hm Hf p. apply wp_bind. eapply wp_mono; [apply Hm |]. intros a p' [<- <-]. apply Hf.
Qed.

Lemma sets_paused_bind {A B} (g : B → bool) (m : PM A) (f : A → PM B) :
  sets_nothing m → (∀ a, sets_paused g (f a)) → sets_paused g (m ≫= f).
Proof.
  intros Hm Hf p. apply wp_bind. eapply wp_mono; [apply Hm |]. intros a p' [<- <-]. apply Hf.
Qed.

(** [m] asks for a pause, and [f] does too then. *)
Lemma sets_paused_then {A B} (h : A → bool) (g : B → bool) (m : PM A) (f : A → PM B) :
  sets_paused h m → (∀ a p, wp (f a) p (λ b p', MsgsWithoutAcks p' = MsgsWithoutAcks p ∧
      (g b = false → h a = false ∧ PauseAndResendAckMsgs p' = PauseAndResendAckMsgs p))
    (λ _ p', MsgsWithoutAcks p' = MsgsWithoutAcks p) (λ _, True)) → sets_paused g (m ≫= f).
Proof.
  intros Hm Hf p. apply wp_bind. eapply wp_mono; [apply Hm |]. intros a p' [<- Ha].
  eapply wp_mono; [apply Hf |]. intros b p2 [<- Hb]. split; [done |]. intros Hg. destruct (Hb Hg) as [Hh ->]. auto.
Qed.

Lemma sets_nothing_ret {A} (a : A) : sets_nothing (mret a).
Proof. done. Qed.

Lemma sets_nothing_massert b : sets_nothing (massert b).
Proof. intros p. by destruct b. Qed.

Lemma sets_nothing_on_reader {A} (m : Reader.RM A) : sets_nothing (on_reader m).
Proof. intros p. unfold wp, on_reader, zoom. by destruct (m (ResponseReader p)) as [[] ?]. Qed.

Lemma sets_nothing_on_msg_tracker {A} (m : TM A) : sets_nothing (on_msg_tracker m).
Proof.
  intros p. unfold wp, on_msg_tracker, zoom, no_throw. destruct (m (MsgStateTracker (Ds p))) as [[| [] |] ?]; done.
Qed.

Lemma sets_nothing_crash {A} x : sets_nothing (A := A) (crash x).
Proof. done. Qed.

Lemma sets_nothing_need {A} x (o : option A) : sets_nothing (need x o).
Proof. by destruct o. Qed.

#[local] Hint Resolve sets_nothing_ret sets_nothing_massert sets_nothing_on_reader sets_nothing_on_msg_tracker
  sets_nothing_crash sets_nothing_need : core.

Ltac sets_step :=
  repeat first
    [ progress auto | apply sets_nothing_bind; [| intros ?] | apply sets_paused_bind; [| intros ?]
    | match goal with |- sets_nothing (if ?b then _ else _) => destruct b end
    | match goal with |- sets_nothing (match ?b with _ => _ end) => destruct b end
    | match goal with |- sets_paused _ (if ?b then _ else _) => destruct b end
    | done ].

Section sets.
Context (now max_failed : Z).

Lemma Discard_sets m reason : sets_nothing (Discard now m reason).
Proof. unfold Discard, destroy. sets_step. Qed.

Lemma Discard_list_sets l reason : sets_nothing (Discard_list now l reason).
Proof. unfold Discard_list, destroy. sets_step. Qed.

Lemma CountFailed_sets l topic : sets_nothing (CountFailedDeliveryAttempt_set now max_failed l topic).
Proof.
  induction l as [| m l IH]; [done |]. cbn [CountFailedDeliveryAttempt_set]. apply sets_nothing_bind; [done |]. intros _.
  destruct (CountFailedDeliveryAttempt m) as [n m']. destruct (max_failed <? n); sets_step; apply Discard_sets.
Qed.

Lemma ProcessImmediateResend_sets l topic : sets_nothing (ProcessImmediateResendMsgSet now max_failed l topic).
Proof. unfold ProcessImmediateResendMsgSet. sets_step; apply CountFailed_sets. Qed.

#[local] Hint Resolve Discard_list_sets ProcessImmediateResend_sets : core.

(** Only the messages that stay are touched on the way. *)
Lemma ProcessPauseAndResend_sets l topic :
  sets_paused (λ _ : (), true) (ProcessPauseAndResendMsgSet now max_failed l topic).
Proof. unfold ProcessPauseAndResendMsgSet. sets_step; try apply CountFailed_sets; by apply sets_nothing_paused. Qed.

Lemma ProcessOneAck_sets l ack topic : sets_paused negb (ProcessOneAck now max_failed l ack topic).
Proof.
  unfold ProcessOneAck, destroy. apply sets_paused_bind; [done |]. intros _. apply sets_paused_bind; [done |]. intros _.
  destruct (ProcessAck ack); try (apply sets_nothing_paused; by sets_step).
  apply sets_paused_bind; [done |]. intros _. eapply sets_paused_then; [apply ProcessPauseAndResend_sets |].
  intros a p. by apply (wp_Ret _ _ _ _ false p).
Qed.

Lemma Acks_partitions_sets fuel topic g :
  ∀ p, wp (Acks_partitions now max_failed fuel topic g) p
    (λ a p', MsgsWithoutAcks p' = MsgsWithoutAcks p ∧
      (a.1 = false → g = false ∧ PauseAndResendAckMsgs p' = PauseAndResendAckMsgs p))
    (λ _ p', MsgsWithoutAcks p' = MsgsWithoutAcks p) (λ _, True).
Proof.
  revert g. induction fuel as [| fuel IH]; intros g p; [done |]. cbn [Acks_partitions]. apply wp_bind.
  eapply wp_mono; [apply sets_nothing_on_reader |]. intros [] p1 [<- <-]; [| done]. apply wp_bind.
  eapply wp_mono; [apply sets_nothing_on_reader |]. intros part p2 [<- <-]. apply wp_bind.
  eapply wp_mono; [apply (sets_nothing_bind (gets Request)); [done | intros r; apply sets_nothing_need] |].
  intros g' p3 [<- <-]. destruct (sm_find part g') as [ms |]; [| by wstep]. apply wp_bind.
  eapply wp_mono; [apply sets_nothing_massert |]. intros _ p4 [<- <-]. apply wp_bind.
  eapply wp_mono; [apply sets_nothing_on_reader |]. intros ack p5 [<- <-]. apply wp_bind.
  eapply wp_mono; [apply ProcessOneAck_sets |]. intros ok p6 [<- Hok]. wstep. wstep.
  eapply wp_weaken; [apply IH | | by intros x s' -> | done]. intros a p7 [-> Ha]. split; [done |]. intros Hf. destruct (Ha Hf) as [Hg ->].
  apply orb_false_iff in Hg as [-> Hn]. split; [done |]. cbn. auto.
Qed.

Lemma Acks_topics_sets fuel g bad :
  ∀ p, wp (Acks_topics now max_failed fuel g bad) p
    (λ a p', MsgsWithoutAcks p' = MsgsWithoutAcks p ∧
      (a.1 = false → g = false ∧ PauseAndResendAckMsgs p' = PauseAndResendAckMsgs p))
    (λ _ p', MsgsWithoutAcks p' = MsgsWithoutAcks p) (λ _, True).
Proof.
  revert g bad. induction fuel as [| fuel IH]; intros g bad p; [done |]. cbn [Acks_topics]. apply wp_bind.
  eapply wp_mono; [apply sets_nothing_on_reader |]. intros [] p1 [<- <-]; [| done]. apply wp_bind.
  eapply wp_mono; [apply sets_nothing_on_reader |]. intros name p2 [<- <-]. wstep.
  destruct (sm_find _ (Request p2)) as [ms |]; [| by wstep]. apply wp_bind.
  eapply wp_mono; [apply Acks_partitions_sets |]. intros [g1 b1] p3 [<- Hg]. apply wp_bind.
  eapply wp_mono; [apply (sets_nothing_bind (gets Request)); [done | intros r; apply sets_nothing_need] |].
  intros ps p4 [<- Hp]. rewrite <- Hp in Hg. destruct (negb _); [by wstep |]. wstep. wstep.
  eapply wp_weaken; [apply IH | | by intros x s' -> | done]. intros a p5 [-> Ha]. split; [done |]. intros Hf. destruct (Ha Hf) as [-> ->]. cbn. auto.
Qed.

(** Messages that got no ACK are set aside only if the connector must stop at
    once, and those for a pause only if it must pause. *)
Lemma ProcessResponse_sets request_id buf p :
  wp (ProcessResponse now max_failed request_id buf) p
    (λ a p', (a ≠ PauseAndFinishNow → MsgsWithoutAcks p' = MsgsWithoutAcks p) ∧
      (a = KeepRunning → PauseAndResendAckMsgs p' = PauseAndResendAckMsgs p))
    (λ _ p', MsgsWithoutAcks p' = MsgsWithoutAcks p) (λ _, True).
Proof.
  unfold ProcessResponse. apply wp_bind. eapply wp_mono; [apply sets_nothing_on_reader |]. intros _ p1 [<- <-].
  apply wp_bind. eapply wp_mono; [apply sets_nothing_on_reader |]. intros id p2 [<- <-].
  assert (∀ p, wp ProcessNoAckMsgs p (λ _ _, True) (λ _ p', MsgsWithoutAcks p' = MsgsWithoutAcks p) (λ _, True)) as Hno.
  { intros q. unfold ProcessNoAckMsgs. wstep. destruct (EmptyAllTopics (Request q)) as [l |]; [| done].
    eapply wp_bind_Ret; [reflexivity |]. wstep. case_bool_decide; [done |]. wstep. apply wp_bind.
    eapply wp_weaken; [apply sets_nothing_on_msg_tracker | done | by intros x q' -> | done]. }
  destruct (negb _).
  { wstep. apply wp_bind. eapply wp_weaken; [apply Hno | done | done | done]. }
  apply wp_bind. eapply wp_mono with (Q := λ a p', (a ≠ PauseAndFinishNow → MsgsWithoutAcks p' = MsgsWithoutAcks p2) ∧
      (a = KeepRunning → PauseAndResendAckMsgs p' = PauseAndResendAckMsgs p2)).
  2: { intros a p3 Hp3. wstep. unfold massert. destruct (bool_decide _); done. }
  unfold ProcessResponseAcks. apply wp_bind. eapply wp_mono; [apply Acks_topics_sets |]. intros [g bad] p3 [<- Hg]. wstep.
  assert (∀ (b : bool) p4, MsgsWithoutAcks p4 = MsgsWithoutAcks p3 → PauseAndResendAckMsgs p4 = PauseAndResendAckMsgs p3 →
    wp ((if b then ProcessNoAckMsgs else mret ());; r ← gets Request; massert (bool_decide (r = []));;
      if b then mret PauseAndFinishNow else PIncrement ConnectorGotOkProduceResponse;;
        mret (if g then PauseAndDeferFinish else KeepRunning)) p4
      (λ a p', (a ≠ PauseAndFinishNow → MsgsWithoutAcks p' = MsgsWithoutAcks p3) ∧
        (a = KeepRunning → PauseAndResendAckMsgs p' = PauseAndResendAckMsgs p2))
      (λ _ p', MsgsWithoutAcks p' = MsgsWithoutAcks p3) (λ _, True)) as Hend.
  { intros b p4 H1 H2. destruct b.
    - apply wp_bind. eapply wp_weaken; [apply Hno | | intros x p5 ->; exact H1 | done]. intros _ p5 _. wstep.
      unfold massert. by case_bool_decide.
    - wstep. wstep. unfold massert. case_bool_decide; [| done]. wstep. wstep. eapply wp_Ret; [reflexivity |]. cbn.
      split; [done |]. destruct g; [done |]. intros _. rewrite H2. by apply Hg. }
  destruct (negb bad && _); wstep; by apply Hend.
Qed.
End sets.

(** ** A complete response *)

(** [m] does not change its state. *)
Definition reads_only {E S A} (m : M E S A) : Prop := ∀ s, (m s).2 = s.

Lemma reads_only_bind {E S A B} (m : M E S A) (f : A → M E S B) :
  reads_only m → (∀ a, reads_only (f a)) → reads_only (m ≫= f).
Proof.
  intros Hm Hf s. specialize (Hm s). unfold mbind, M_bind. destruct (m s) as [[a | e | x] s'] eqn:E1; cbn in *; subst s'; [apply Hf | done | done].
Qed.

Lemma reads_only_massert {E S} b : reads_only (E := E) (S := S) (massert b).
Proof. by destruct b. Qed.

Lemma reads_only_need {E S A} x (o : option A) : reads_only (E := E) (S := S) (need x o).
Proof. by destruct o. Qed.

Lemma reads_only_get {E S} : reads_only (E := E) (S := S) get.
Proof. done. Qed.

Lemma reads_only_int32 {E S} z : reads_only (E := E) (S := S) (int32_arith z).
Proof. intros s. unfold int32_arith. by case_decide. Qed.

Create HintDb reads discriminated.
#[local] Hint Resolve reads_only_bind reads_only_massert reads_only_need reads_only_get reads_only_int32 : reads.

Lemma getters_read_only :
  reads_only Reader.GetCurrentPartitionNumber ∧ reads_only Reader.GetCurrentPartitionErrorCode ∧
  reads_only Reader.GetCurrentPartitionOffset ∧ reads_only Reader.GetCurrentTopicName ∧
  reads_only Reader.GetCorrelationId.
Proof.
  assert (∀ i, reads_only (Reader.GetPartitionStart i)) as Hstart.
  { intros i. repeat (apply reads_only_bind; [auto with reads | intros ?]). done. }
  assert (reads_only Reader.current_partition) as Hcur.
  { repeat (apply reads_only_bind; [auto with reads | intros ?]). done. }
  split_and!; repeat (apply reads_only_bind; [auto with reads | intros ?]); apply reads_only_need.
Qed.

(** States that agree on everything but the request, the reader and the counts
    of events. *)
Record like (p q : TProduceResponseProcessor) : Prop := {
  like_ds : Ds p = Ds q;
  like_noack : MsgsWithoutAcks p = MsgsWithoutAcks q;
  like_pause : PauseAndResendAckMsgs p = PauseAndResendAckMsgs q;
  like_now : ImmediateResendAckMsgs p = ImmediateResendAckMsgs q
}.

(** [m] does the same in states that agree. *)
Definition respects {A} (m : PM A) : Prop :=
  ∀ p q, like p q → (m p).1 = (m q).1 ∧ like (m p).2 (m q).2 ∧ same_frame p (m p).2.

Lemma respects_bind {A B} (m : PM A) (f : A → PM B) :
  respects m → (∀ a, respects (f a)) → respects (m ≫= f).
Proof.
  intros Hm Hf p q Hl. destruct (Hm p q Hl) as (E1 & E2 & E3). unfold mbind, M_bind.
  destruct (m p) as [o p'], (m q) as [o' q']. cbn in *. subst o'. destruct o as [a | |]; [| done | done].
  destruct (Hf a _ _ E2) as (? & ? & ?). split_and!; [done | done | by etrans].
Qed.

Lemma respects_massert b : respects (massert b).
Proof. intros p q Hl. by destruct b. Qed.

Lemma respects_mret {A} (a : A) : respects (mret a).
Proof. done. Qed.

Lemma respects_PIncrement c : respects (PIncrement c).
Proof. intros p q []. by split_and!. Qed.

Lemma respects_on_ds f : respects (on_ds f).
Proof. intros p q [E1 E2 E3 E4]. split_and!; [done | | done]. split; cbn; congruence. Qed.

Lemma respects_on_msg_tracker {A} (m : TM A) : respects (on_msg_tracker m).
Proof.
  intros p q [E1 E2 E3 E4]. unfold on_msg_tracker, zoom. rewrite E1. destruct (no_throw m _) as [o t].
  split_and!; [done | | done]. split; cbn; congruence.
Qed.

Lemma respects_push (f : list (list TMsg) → list (list TMsg)) (g : list (list TMsg) → list (list TMsg)) :
  respects (modify (λ p, mkProcessor (Ds p) (ResponseReader p) (Request p) (MsgsWithoutAcks p)
    (f (PauseAndResendAckMsgs p)) (g (ImmediateResendAckMsgs p)) (PCounters p))).
Proof. intros p q [E1 E2 E3 E4]. split_and!; [done | | done]. split; cbn; congruence. Qed.

Lemma respects_if {A} (b : bool) (m n : PM A) : respects m → respects n → respects (if b then m else n).
Proof. by destruct b. Qed.

#[local] Hint Resolve respects_massert respects_mret respects_PIncrement respects_on_ds respects_on_msg_tracker
  respects_if : reads.

Ltac respects :=
  repeat (first [apply respects_bind; [| intros ?] | apply respects_if]; auto with reads).

Section complete.
Context (now max_failed : Z).

Lemma ProcessOneAck_respects l ack topic : respects (ProcessOneAck now max_failed l ack topic).
Proof.
  assert (∀ l, respects (CountFailedDeliveryAttempt_set now max_failed l topic)) as Hcount.
  { clear. intros l. induction l as [| m l IH]; [done |]. cbn [CountFailedDeliveryAttempt_set].
    unfold Discard, destroy. respects. }
  unfold ProcessOneAck. do 2 (apply respects_bind; [auto with reads | intros ?]).
  unfold Discard_list, ProcessImmediateResendMsgSet, ProcessPauseAndResendMsgSet, destroy.
  destruct (ProcessAck ack); respects.
  - apply (respects_push (λ x, x) (λ x, x ++ [_])).
  - apply (respects_push (λ x, x ++ [_]) (λ x, x)).
Qed.

(** A message set with the error code of its ACK. *)
Definition job : Type := string * list TMsg * Z.

Fixpoint process_jobs (js : list job) : PM bool :=
  match js with
  | [] => mret true
  | (topic, l, ack) :: js =>
      ok ← ProcessOneAck now max_failed l ack topic;
      oks ← process_jobs js;
      mret (ok && oks)
  end.

Lemma process_jobs_app js js' q b q' :
  process_jobs (js ++ js') q = (Ret b, q') →
  ∃ b1 q1 b2, process_jobs js q = (Ret b1, q1) ∧ process_jobs js' q1 = (Ret b2, q') ∧ b = b1 && b2.
Proof.
  revert q b. induction js as [| [[topic l] ack] js IH]; intros q b.
  - intros Hr. by exists true, q, b.
  - cbn [process_jobs app]. unfold PM.
    intros (ok & q1 & H1 & (oks & q2 & H2 & [= <- <-])%bind_inv_Ret)%bind_inv_Ret.
    destruct (IH _ _ H2) as (b1 & q3 & b2 & H3 & H4 & ->). exists (ok && b1), q3, b2.
    rewrite (bind_Ret _ _ _ _ _ H1), (bind_Ret _ _ _ _ _ H3). split_and!; [done | done | by destruct ok].
Qed.

(** The set of each ACK of topic [topic], whose partitions are [g]. *)
Definition group_jobs (topic : string) (g : TMultiPartitionGroup) (acks : list ack) : list job :=
  omap (λ a, (λ ms, (topic, Contents ms, ack_error a)) <$> sm_find (ack_partition a) g) acks.

Definition topic_name (t : list byte * list ack) : string := String.string_of_list_byte t.1.

Definition jobs (r : TAllTopics) (ts : list (list byte * list ack)) : list job :=
  concat ((λ t, group_jobs (topic_name t) (default [] (sm_find (topic_name t) r)) t.2) <$> ts).

(** The topics and partitions of the response are those of the request. *)
Definition complete (r : TAllTopics) (ts : list (list byte * list ack)) : Prop :=
  (topic_name <$> ts) ≡ₚ r.*1 ∧
  Forall (λ t, ∃ g, sm_find (topic_name t) r = Some g ∧ (ack_partition <$> t.2) ≡ₚ g.*1) ts.

Lemma group_jobs_erase topic g x acks :
  x ∉ (ack_partition <$> acks) → group_jobs topic (sm_erase x g) acks = group_jobs topic g acks.
Proof.
  intros Hx. unfold group_jobs. induction acks as [| a acks IH]; [done |].
  apply not_elem_of_cons in Hx as [Hne Hx]. cbn. rewrite (IH Hx).
  by rewrite sm_find_erase by congruence.
Qed.

(** A getter returns the reader as it was. *)
Lemma reads_only_inv {E S A} (m : M E S A) s o s' : reads_only m → m s = (o, s') → s' = s.
Proof. intros Hm Hr. specialize (Hm s). by rewrite Hr in Hm. Qed.

Lemma Acks_partitions_run fuel topic acks r r' p q g pz ok q' :
  read_acks fuel r = (Ret acks, r') → ResponseReader p = r → request_wf (Request p) →
  sm_find topic (Request p) = Some g → (ack_partition <$> acks) ≡ₚ g.*1 → like p q →
  process_jobs (group_jobs topic g acks) q = (Ret ok, q') →
  ∃ p', Acks_partitions now max_failed fuel topic pz p = (Ret (pz || negb ok, false), p') ∧ like p' q' ∧
    ResponseReader p' = r' ∧ request_wf (Request p') ∧ sm_find topic (Request p') = Some [] ∧
    sm_erase topic (Request p') = sm_erase topic (Request p).
Proof.
  revert acks r p q g pz ok. induction fuel as [| fuel IH]; intros acks r p q g pz ok Hread Hr Hwf Hg Hparts Hlike Hjobs;
    [done |]. cbn [read_acks] in Hread. unfold Reader.RM in Hread. cbn [Acks_partitions]. unfold PM.
  apply bind_inv_Ret in Hread as (more & r1 & Hmore & Hread). rewrite <- Hr in Hmore.
  rewrite (bind_Ret _ _ _ _ _ (on_reader_run _ _ _ _ Hmore)). destruct more.
  2:{ injection Hread as <- <-. apply Permutation_nil_l in Hparts. destruct g; [| done].
      injection Hjobs as <- <-. exists (with_reader r1 p). rewrite orb_false_r. split_and!; try done. by destruct Hlike. }
  destruct getters_read_only as (G1 & G2 & G3 & _).
  apply bind_inv_Ret in Hread as (part & r2 & H1 & Hread). pose proof (reads_only_inv _ _ _ _ G1 H1) as ->.
  apply bind_inv_Ret in Hread as (er & r2 & H2 & Hread). pose proof (reads_only_inv _ _ _ _ G2 H2) as ->.
  apply bind_inv_Ret in Hread as (off & r2 & H3 & Hread). pose proof (reads_only_inv _ _ _ _ G3 H3) as ->.
  apply bind_inv_Ret in Hread as (acks' & r2 & H4 & [= <- <-]). set (p1 := with_reader r1 p).
  rewrite (bind_Ret _ _ _ _ _ (on_reader_run _ p1 _ _ H1)). change (with_reader r1 p1) with p1.
  rewrite (bind_Ret _ _ p1 g p1) by (unfold partitions_of, PM; erewrite bind_Ret by reflexivity; cbn [Request p1 with_reader]; by rewrite Hg).
  assert (NoDup g.*1) as Hnd.
  { apply sm_find_split in Hg as (a & z & Hreq & _). destruct Hwf as [_ Hwf]. rewrite Hreq in Hwf.
    by apply Forall_app in Hwf as [_ [[? _] _]%Forall_cons]. }
  destruct (sm_erase_keys _ _ _ Hnd Hparts) as ([ms Hms] & Hnd' & Hparts'). cbn in Hms. rewrite Hms.
  destruct (request_erase_partition _ _ _ _ _ Hwf Hg Hms) as (Hwf' & _ & Hfind & [Hne _]).
  rewrite massert_bind by (by rewrite bool_decide_false).
  rewrite (bind_Ret _ _ _ _ _ (on_reader_run _ p1 _ _ H2)). change (with_reader r1 p1) with p1.
  unfold group_jobs in Hjobs. cbn in Hjobs. rewrite Hms in Hjobs. cbn in Hjobs. unfold PM in Hjobs.
  apply bind_inv_Ret in Hjobs as (ok1 & q1 & J1 & Hjobs). apply bind_inv_Ret in Hjobs as (oks & q2 & J2 & [= <- <-]).
  destruct (ProcessOneAck_respects (Contents ms) er topic p1 q) as (E1 & E2 & [E3 E4]).
  { by destruct Hlike. }
  rewrite J1 in E1, E2. destruct (ProcessOneAck now max_failed (Contents ms) er topic p1) as [o p2] eqn:Hone.
  cbn in E1, E2, E3, E4. subst o. rewrite (bind_Ret _ _ _ _ _ Hone).
  erewrite bind_Ret by reflexivity. cbv beta. rewrite E3. erewrite bind_Ret by reflexivity. cbv beta.
  set (p3 := mkProcessor _ _ _ _ _ _ _).
  assert (part ∉ (ack_partition <$> acks')) as Hfresh.
  { intros Hin. rewrite <- Hparts in Hnd. by apply NoDup_cons in Hnd as [? _]. }
  destruct (IH acks' r1 p3 q1 (sm_erase part g) (pz || negb ok1) oks) as (p' & Hp' & L' & R' & W' & F' & S').
  - done.
  - by rewrite <- E4.
  - done.
  - done.
  - done.
  - by destruct E2.
  - by rewrite group_jobs_erase.
  - exists p'. split_and!; try done.
    + rewrite Hp'. by destruct pz, ok1.
    + rewrite S'. apply sm_erase_alter.
Qed.

Lemma request_group r topic g :
  request_wf r → sm_find topic r = Some g → NoDup g.*1 ∧ Forall (set_wf topic) g ∧ request_wf (sm_erase topic r).
Proof.
  intros [Hnd Hr] Hg. pose proof (sm_erase_perm _ _ _ Hnd Hg) as Hp. rewrite Hp in Hr.
  apply Forall_cons in Hr as [[? ?] Hr]. split_and!; [done | done | split; [| done]].
  rewrite Hp in Hnd. by apply NoDup_cons in Hnd as [_ ?].
Qed.

Lemma complete_cons r t ts :
  request_wf r → complete r (t :: ts) →
  ∃ g, sm_find (topic_name t) r = Some g ∧ (ack_partition <$> t.2) ≡ₚ g.*1 ∧
    complete (sm_erase (topic_name t) r) ts ∧
    jobs r (t :: ts) = group_jobs (topic_name t) g t.2 ++ jobs (sm_erase (topic_name t) r) ts.
Proof.
  intros [Hnd _] [Hn [(g & Hg & Hp) Hts]%Forall_cons]. exists g.
  destruct (sm_erase_keys _ _ _ Hnd Hn) as (_ & _ & Hn').
  assert (∀ t', t' ∈ ts → sm_find (topic_name t') (sm_erase (topic_name t) r) = sm_find (topic_name t') r) as Heq.
  { intros t' Ht'. apply sm_find_erase. intros E. rewrite <- Hn in Hnd. apply NoDup_cons in Hnd as [Hnot _].
    apply Hnot. rewrite <- E. by apply list_elem_of_fmap_2. }
  split_and!; [done | done | |].
  - split; [done |]. rewrite Forall_forall in *. intros t' Ht'. rewrite Heq by done. by apply Hts.
  - unfold jobs. cbn. rewrite Hg. cbn. do 2 f_equal. apply list_fmap_ext. intros i t' Ht'.
    by rewrite Heq by (by eapply list_elem_of_lookup_2).
Qed.

Lemma Acks_topics_run fuel ts r r' p q pz ok q' :
  read_topics fuel r = (Ret ts, r') → ResponseReader p = r → request_wf (Request p) → complete (Request p) ts →
  like p q → process_jobs (jobs (Request p) ts) q = (Ret ok, q') →
  ∃ p', Acks_topics now max_failed fuel pz false p = (Ret (pz || negb ok, false), p') ∧ like p' q' ∧ Request p' = [].
Proof.
  revert ts r p q pz ok. induction fuel as [| fuel IH]; intros ts r p q pz ok Hread Hr Hwf Hcomp Hlike Hjobs; [done |].
  cbn [read_topics] in Hread. unfold Reader.RM in Hread. cbn [Acks_topics]. unfold PM.
  apply bind_inv_Ret in Hread as (more & r1 & Hmore & Hread). rewrite <- Hr in Hmore.
  rewrite (bind_Ret _ _ _ _ _ (on_reader_run _ _ _ _ Hmore)). destruct more.
  2:{ injection Hread as <- <-. destruct Hcomp as [Hc _]. apply Permutation_nil_l in Hc.
      injection Hjobs as <- <-. exists (with_reader r1 p). rewrite orb_false_r. split_and!; [done | by destruct Hlike |].
      by destruct (Request p) eqn:E. }
  destruct getters_read_only as (_ & _ & _ & G4 & _).
  apply bind_inv_Ret in Hread as (name & r2 & H1 & Hread). pose proof (reads_only_inv _ _ _ _ G4 H1) as ->.
  apply bind_inv_Ret in Hread as (acks & r3 & H2 & Hread).
  apply bind_inv_Ret in Hread as (ts' & r4 & H3 & [= <- <-]). set (p1 := with_reader r1 p).
  rewrite (bind_Ret _ _ _ _ _ (on_reader_run _ p1 _ _ H1)). change (with_reader r1 p1) with p1.
  erewrite bind_Ret by reflexivity. cbv beta zeta. change (Request p1) with (Request p).
  destruct (complete_cons _ _ _ Hwf Hcomp) as (g & Hg & Hparts & Hcomp' & Hj). unfold topic_name in Hg. cbn [fst] in Hg.
  rewrite Hg. rewrite Hj in Hjobs. apply process_jobs_app in Hjobs as (ok1 & q1 & ok2 & J1 & J2 & ->).
  destruct (Acks_partitions_run _ _ _ _ _ p1 _ _ pz _ _ H2 eq_refl Hwf Hg Hparts ltac:(by destruct Hlike) J1)
    as (p2 & Hp2 & L2 & R2 & W2 & F2 & S2).
  rewrite (bind_Ret _ _ _ _ _ Hp2). cbv beta iota. unfold topic_name in F2. cbn [fst] in F2.
  rewrite (bind_Ret _ _ p2 [] p2) by (unfold partitions_of, PM; erewrite bind_Ret by reflexivity; by rewrite F2).
  rewrite bool_decide_true by done. cbn [negb]. erewrite bind_Ret by reflexivity. cbv beta.
  erewrite bind_Ret by reflexivity. cbv beta. set (p3 := mkProcessor _ _ _ _ _ _ _).
  assert (Request p3 = sm_erase (topic_name (name, acks)) (Request p)) as E3 by exact S2.
  destruct (IH ts' r3 p3 q1 (pz || negb ok1) ok2) as (p' & Hp' & L' & R').
  - done.
  - done.
  - rewrite E3. by eapply request_group.
  - by rewrite E3.
  - by destruct L2.
  - by rewrite E3.
  - exists p'. split_and!; try done. change (false || false) with false. rewrite Hp'. by destruct pz, ok1.
Qed.

Lemma jobs_ok r ts :
  request_wf r → complete r ts →
  concat ((λ j : job, j.1.2) <$> jobs r ts) ≡ₚ req_msgs r ∧
  Forall (λ j : job, j.1.2 ≠ [] ∧ Forall (awaiting j.1.1) j.1.2) (jobs r ts).
Proof.
  revert r. induction ts as [| t ts IH]; intros r Hwf Hcomp.
  { destruct Hcomp as [Hc _]. apply Permutation_nil_l in Hc. destruct r; [| done]. by split. }
  destruct (complete_cons _ _ _ Hwf Hcomp) as (g & Hg & Hparts & Hcomp' & ->).
  destruct (request_group _ _ _ Hwf Hg) as (Hnd & Hset & Hwf').
  destruct (IH _ Hwf' Hcomp') as [IH1 IH2]. rewrite fmap_app, concat_app, IH1.
  assert (req_msgs r ≡ₚ set_msgs g ++ req_msgs (sm_erase (topic_name t) r)) as ->
    by exact (req_msgs_proper _ _ (sm_erase_perm _ _ _ (proj1 Hwf) Hg)).
  rewrite Forall_app. clear -Hparts Hnd Hset IH2. destruct t as [name acks]. cbn [snd] in *.
  set (tn := topic_name _) in *. clearbody tn. cut (concat ((λ j : job, j.1.2) <$> group_jobs tn g acks) ≡ₚ set_msgs g ∧
    Forall (λ j : job, j.1.2 ≠ [] ∧ Forall (awaiting j.1.1) j.1.2) (group_jobs tn g acks)).
  { intros [-> ?]. by split_and!. }
  clear IH2. revert g Hparts Hnd Hset. induction acks as [| a acks IH]; intros g Hparts Hnd Hset.
  { apply Permutation_nil_l in Hparts. destruct g; [| done]. by split. }
  destruct (sm_erase_keys _ _ _ Hnd Hparts) as ([ms Hms] & Hnd' & Hparts').
  pose proof (sm_erase_perm _ _ _ Hnd Hms) as Hp. rewrite Hp in Hset. apply Forall_cons in Hset as [[S1 S2] Hset].
  destruct (IH _ Hparts' Hnd' Hset) as [IH1 IH2]. rewrite group_jobs_erase in IH1, IH2.
  2,3: (intros Hin; rewrite <- Hparts in Hnd; by apply NoDup_cons in Hnd as [? _]).
  assert (group_jobs tn g (a :: acks) = (tn, Contents ms, ack_error a) :: group_jobs tn g acks) as ->
    by (unfold group_jobs; cbn; by rewrite Hms). split.
  - cbn [fmap list_fmap concat fst snd]. rewrite IH1. symmetry. exact (set_msgs_proper _ _ Hp).
  - by constructor.
Qed.

Lemma process_jobs_wp msgs others gone js rest p :
  placed msgs others gone (concat ((λ j : job, j.1.2) <$> js)) rest p →
  Forall (λ j : job, j.1.2 ≠ [] ∧ Forall (awaiting j.1.1) j.1.2) js →
  wp (process_jobs js) p (λ _ p', placed msgs others gone [] rest p') (λ _ _, False) (λ _, False).
Proof.
  revert p. induction js as [| [[topic l] ack] js IH]; intros p Hp Hjs; [by eapply wp_Ret |].
  apply Forall_cons in Hjs as [[H1 H2] Hjs]. cbn [process_jobs]. apply wp_bind. eapply wp_mono.
  { by apply (ProcessOneAck_wp msgs others gone now max_failed _ _ topic l ack
      (concat ((λ j : job, j.1.2) <$> js)) rest). }
  intros ok p1 [Hp1 _]. apply wp_bind. eapply wp_mono; [by apply IH |].
  intros oks p2 Hp2. by eapply wp_Ret.
Qed.
End complete.

(** ** What a response does to the messages of its request *)

(** C25: Whatever bytes arrive as the response to a request, no message of the
    request is lost, duplicated or counted twice.  A normal return leaves the
    request empty, and each of its messages is either destroyed in state
    Processed, or in exactly one of the three lists for resending, in a nonempty
    batch of one topic and in state SendWait.  An exception, which is never the
    reader's [range_error], leaves the messages not acknowledged yet in the
    request.  In both cases the message state tracker has the counts of the
    messages as they are now.  The only other end is the signed overflow of the
    reader's [NextTopic]: no assertion fails and nothing is read out of bounds. *)
Theorem ProcessResponse_conserves now max_failed request_id buf p others :
  request_wf (Request p) → batches p = [] →
  tracker_ok (MsgStateTracker (Ds p)) (req_msgs (Request p) ++ others) →
  wp (ProcessResponse now max_failed request_id buf) p
    (λ _ p', settled (req_msgs (Request p)) others (Destroyed (Ds p)) p' ∧ Request p' = [])
    (λ x p', x ≠ Reader.range_error ∧ settled (req_msgs (Request p)) others (Destroyed (Ds p)) p')
    (λ f, f = Overflow).
Proof.
  intros Hwf Hb Ht. eapply wp_weaken; 
    [apply (ProcessResponse_wp (req_msgs (Request p)) others (Destroyed (Ds p))) | done | by intros x p' (? & ? & _) | done].
  split; [done |]. exists []. rewrite Hb. by split_and!.
Qed.

(** C26: A response that acknowledges exactly the topics and partitions of its
    request, in any order, has exactly the effect of its error codes: the outcome
    is that of running [ProcessOneAck] once on each message set of the request,
    with the error code read for its topic and partition, in the order of the
    response; the daemon pauses if one of these ACKs asks for it, and nothing of
    the request is left. *)
Theorem ProcessResponse_complete now max_failed request_id buf p others ts r1 :
  request_wf (Request p) → batches p = [] →
  tracker_ok (MsgStateTracker (Ds p)) (req_msgs (Request p) ++ others) →
  read_response buf (ResponseReader p) = (Ret (request_id, ts), r1) → complete (Request p) ts →
  ∃ ok q p', process_jobs now max_failed (jobs (Request p) ts) p = (Ret ok, q) ∧
    ProcessResponse now max_failed request_id buf p =
      (Ret (if ok then KeepRunning else PauseAndDeferFinish), p') ∧
    Request p' = [] ∧ like p' q.
Proof.
  intros Hwf Hb Ht Hread Hcomp. destruct (jobs_ok _ _ Hwf Hcomp) as [Hj1 Hj2].
  assert (placed (req_msgs (Request p)) others (Destroyed (Ds p)) (concat ((λ j : job, j.1.2) <$> jobs (Request p) ts)) [] p) as Hpl.
  { exists []. rewrite Hb. split_and!; try done.
    - apply fmap_Permutation. rewrite Hj1. cbn [concat]. perm_lia.
    - eapply tracker_ok_perm; [| exact Ht]. rewrite Hj1. cbn [concat]. perm_lia. }
  pose proof (process_jobs_wp now max_failed _ _ _ _ _ p Hpl Hj2) as Hw. unfold wp in Hw.
  destruct (process_jobs now max_failed (jobs (Request p) ts) p) as [[ok | |] q] eqn:Hjobs; [| done | done].
  unfold read_response, Reader.RM in Hread. apply bind_inv_Ret in Hread as (u & r2 & Hset & Hread).
  apply bind_inv_Ret in Hread as (id & r3 & Hid & Hread).
  destruct getters_read_only as (_ & _ & _ & _ & G5). pose proof (reads_only_inv _ _ _ _ G5 Hid) as ->.
  apply bind_inv_Ret in Hread as (ts' & r4 & Hts & [= -> -> ->]). set (p1 := with_reader r2 p).
  destruct (Acks_topics_run now max_failed _ _ _ _ p1 p false ok q Hts eq_refl Hwf Hcomp ltac:(by split) Hjobs)
    as (p2 & Hp2 & L2 & R2). exists ok, q.
  eexists. split; [done |]. unfold ProcessResponse, PM. rewrite (bind_Ret _ _ _ _ _ (on_reader_run _ _ _ _ Hset)).
  rewrite (bind_Ret _ _ _ _ _ (on_reader_run _ p1 _ _ Hid)). change (with_reader r2 p1) with p1.
  rewrite Z.eqb_refl. cbn [negb]. unfold ProcessResponseAcks, PM. erewrite bind_Ret.
  2:{ rewrite (bind_Ret _ _ _ _ _ Hp2). cbv beta iota. erewrite bind_Ret by reflexivity. cbv beta.
      rewrite (bool_decide_true (Request p2 = [])) by done. cbn [negb andb]. do 3 (erewrite bind_Ret by reflexivity; cbv beta).
      rewrite massert_bind by (by apply bool_decide_true). erewrite bind_Ret by reflexivity. cbv beta. reflexivity. }
  cbv beta. erewrite bind_Ret by reflexivity. cbv beta. rewrite massert_bind by (by apply bool_decide_true).
  split_and!; [by destruct ok | done | by destruct L2].
Qed.

(** ** Examples *)

Definition ex_request : TAllTopics :=
  [("a"%string, [(0, mkMsgSet 0 [ex_msg "a" AckWait; ex_msg "a" AckWait])]);
   ("b"%string, [(1, mkMsgSet 0 [ex_msg "b" AckWait])])].

Definition ex_request_tracker : TMsgStateTracker :=
  mkTracker (<["a"%string := mkWrapper (mkStats 0 0 2) false]>
            (<["b"%string := mkWrapper (mkStats 0 0 1) false]> ∅)) 0.

Definition ex_processor : TProduceResponseProcessor :=
  mkProcessor (mkShared ex_request_tracker (TAnomalyTracker_new 600000 256 0) 0 [])
    Reader.TProduceResponseReader_new ex_request [] [] [] [].

Lemma ex_request_wf : request_wf ex_request.
Proof.
  split; [repeat constructor; set_solver |].
  repeat first [constructor | done | apply not_elem_of_nil].
Qed.

Lemma ex_request_tracker_ok : tracker_ok ex_request_tracker (req_msgs ex_request ++ []).
Proof.
  split; [done |]. intros topic.
  destruct (decide (topic = "a"%string)) as [-> |]; [done |].
  destruct (decide (topic = "b"%string)) as [-> |]; [done |].
  unfold stats_of, ex_request_tracker. cbn [TopicStats].
  rewrite !lookup_insert_ne, lookup_empty by congruence.
  unfold cnt, req_msgs, set_msgs, in_state. cbn -[bool_decide].
  by rewrite !(bool_decide_false (_ = topic)) by congruence.
Qed.

(** An ACK for each message set; the second one asks for a pause. *)
Definition ex_response : list byte :=
  enc_response 7 [(["a"%byte], [mkAck 0 0 11]); (["b"%byte], [mkAck 1 3 (-1)])].

Lemma ProcessResponse_conserves_witness :
  (ProcessResponse 0 5 7 ex_response ex_processor).1 = Ret PauseAndDeferFinish ∧
  wp (ProcessResponse 0 5 7 ex_response) ex_processor
    (λ _ p', settled (req_msgs ex_request) [] [] p' ∧ Request p' = [])
    (λ x p', x ≠ Reader.range_error ∧ settled (req_msgs ex_request) [] [] p')
    (λ f, f = Overflow).
Proof.
  split; [vm_compute; reflexivity |].
  exact (ProcessResponse_conserves 0 5 7 ex_response ex_processor [] ex_request_wf eq_refl ex_request_tracker_ok).
Defined.

Lemma ProcessResponse_complete_witness :
  ∃ ok q p', process_jobs 0 5 (jobs ex_request [(["a"%byte], [mkAck 0 0 11]); (["b"%byte], [mkAck 1 3 (-1)])])
      ex_processor = (Ret ok, q) ∧
    ProcessResponse 0 5 7 ex_response ex_processor =
      (Ret (if ok then KeepRunning else PauseAndDeferFinish), p') ∧
    Request p' = [] ∧ like p' q.
Proof.
  eapply (ProcessResponse_complete 0 5 7 ex_response ex_processor []).
  - exact ex_request_wf.
  - done.
  - exact ex_request_tracker_ok.
  - vm_compute. reflexivity.
  - split; [done |]. repeat constructor; by eexists.
Defined.

(** A response with two topics, of which the first claims 153391690 partitions
    and has two: that of the request, and one that is not in it. *)
Definition ex_big_count : list byte :=
  let body := WriteInt32ToHeader 7 ++ WriteInt32ToHeader 2 ++ WriteInt16ToHeader 1 ++ ["a"%byte] ++
    WriteInt32ToHeader 153391690 ++ enc_ack (mkAck 0 0 11) ++ enc_ack (mkAck 5 0 11) in
  WriteInt32ToHeader (Z.of_nat (length body)) ++ body.

(** A broker's response of 47 bytes makes the daemon multiply the partition
    count it read by 14 in [int32_t], which overflows: [ProcessResponseAcks]
    leaves the partition loop at a partition that is not in the request, finds
    no partition of the topic left, and calls [NextTopic], which trusts the
    count although its partitions have not been read. *)
Theorem partition_count_overflow :
  length ex_big_count = 47%nat ∧
  (ProcessResponse 0 5 7 ex_big_count ex_processor).1 = Fault Overflow.
Proof. split; vm_compute; reflexivity. Qed.
