(* ===== verification/ProduceRequest.v ===== *)
(** * Writing a produce request

    The v0 writers of message sets and produce requests
    ([dory/kafka_proto/produce/v0/msg_set_writer], [produce_request_writer] and
    [produce_request_constants.h]).  The state of an operation is the vector the
    writer's [Buf] points to and the writer; the request writer and the message
    set writer inside it share one vector.  [size_t] members are [nat].  The
    CRC is computed by Boost ([base/crc.h]) and is a parameter. *)
From S2P Require Import Prelude FieldAccess Wire.

(** [TCompressionType], and the attributes byte of a message. *)
Inductive TCompressionType := CompressNone | CompressGzip | CompressSnappy | CompressLz4.

#[global] Instance TCompressionType_eq_dec : EqDecision TCompressionType.
Proof. solve_decision. Defined.

Definition XlateCompressionType (compression_type : TCompressionType) : byte :=
  match compression_type with
  | CompressNone => x00
  | CompressGzip => x01
  | CompressSnappy => x02
  | CompressLz4 => x03
  end.

(** A size field, in which -1 means zero. *)
Definition size_or_minus_one (n : nat) : Z := if (n =? 0)%nat then -1 else Z.of_nat n.

Definition fits32 (n : nat) : bool := Z.of_nat n <=? INT32_MAX.

(** A write of [bytes] at [offset] of the vector: the assertions of
    [WriteInt8] ... [WriteData], whose [size() > offset + n - 1] is in
    [size_t], and then the write. *)
Definition vec_put {S} (buf : S → bool) (offset : nat) (bytes : list byte) : M Empty_set (list byte * S) () :=
  s ← get;
  massert (buf s.2);;
  massert ((0 <? offset + length bytes) && (offset + length bytes <=? length s.1))%nat;;
  v ← need OutOfBounds (vec_write offset bytes s.1);
  modify (λ s, (v, s.2)).

(** [n] bytes from index [offset]. *)
Definition vec_slice (offset n : nat) (v : list byte) : option (list byte) :=
  if decide (offset + n ≤ length v)%nat then Some (take n (drop offset v)) else None.

Definition resize_vec {S} (n : nat) : M Empty_set (list byte * S) () :=
  modify (λ s, (vec_resize n s.1, s.2)).

Module MsgSet.

Inductive TState := Idle | InMsgSet | InMsg.

#[global] Instance TState_eq_dec : EqDecision TState.
Proof. solve_decision. Defined.

(** [Buf]: is the pointer set. *)
Record TMsgSetWriter := mkWriter {
  Buf : bool;
  State : TState;
  AtOffset : nat;
  MsgSetSize : nat;
  FirstMsgSetItemOffset : nat;
  CurrentMsgSetItemOffset : nat;
  MsgSetItemCount : nat;
  CurrentMsgCrcOffset : nat;
  CurrentMsgKeyOffset : nat;
  CurrentMsgValueOffset : nat;
  CurrentMsgKeySize : nat;
  CurrentMsgValueSize : nat
}.

Definition MW := M Empty_set (list byte * TMsgSetWriter).

Definition on_writer (f : TMsgSetWriter → TMsgSetWriter) : MW () := modify (λ s, (s.1, f s.2)).

Definition set_AtOffset (n : nat) : MW () := on_writer (λ w,
  mkWriter (Buf w) (State w) n (MsgSetSize w) (FirstMsgSetItemOffset w) (CurrentMsgSetItemOffset w)
    (MsgSetItemCount w) (CurrentMsgCrcOffset w) (CurrentMsgKeyOffset w) (CurrentMsgValueOffset w)
    (CurrentMsgKeySize w) (CurrentMsgValueSize w)).

(** The fields that describe the message being written. *)
Definition set_current (item crc key value key_size value_size : nat) : MW () := on_writer (λ w,
  mkWriter (Buf w) (State w) (AtOffset w) (MsgSetSize w) (FirstMsgSetItemOffset w) item
    (MsgSetItemCount w) crc key value key_size value_size).

Definition set_State (st : TState) : MW () := on_writer (λ w,
  mkWriter (Buf w) st (AtOffset w) (MsgSetSize w) (FirstMsgSetItemOffset w) (CurrentMsgSetItemOffset w)
    (MsgSetItemCount w) (CurrentMsgCrcOffset w) (CurrentMsgKeyOffset w) (CurrentMsgValueOffset w)
    (CurrentMsgKeySize w) (CurrentMsgValueSize w)).

Definition Write (offset : nat) (bytes : list byte) : MW () := vec_put Buf offset bytes.

Definition WriteAtOffset (bytes : list byte) : MW () :=
  s ← get; Write (AtOffset s.2) bytes;; set_AtOffset (AtOffset s.2 + length bytes).

Definition Skip (n : nat) : MW () := s ← get; set_AtOffset (AtOffset s.2 + n).

Definition TMsgSetWriter_new : TMsgSetWriter := mkWriter false Idle 0 0 0 0 0 0 0 0 0 0.

Definition Reset : MW () := on_writer (λ _, TMsgSetWriter_new).

Definition OpenMsgSet (append : bool) : MW () :=
  Reset;;
  s ← get;
  massert (bool_decide (State s.2 = Idle));;
  (if append then mret () else resize_vec 0);;
  s ← get;
  let at_offset := length s.1 in
  on_writer (λ w, mkWriter true InMsgSet at_offset (MsgSetSize w) at_offset (CurrentMsgSetItemOffset w)
    (MsgSetItemCount w) (CurrentMsgCrcOffset w) (CurrentMsgKeyOffset w) (CurrentMsgValueOffset w)
    (CurrentMsgKeySize w) (CurrentMsgValueSize w)).

Definition ComputeMsgMinusValueSize (key_size : nat) : nat := 4 + 1 + 1 + 4 + key_size + 4.

Definition ComputeMsgSetItemSize (msg_size : nat) : nat := 8 + 4 + msg_size.

Definition OpenMsg (compression_type : TCompressionType) (key_size value_size : nat) : MW () :=
  s ← get;
  massert (bool_decide (State s.2 = InMsgSet));;
  massert (Buf s.2);;
  massert (fits32 key_size);;
  massert (fits32 value_size);;
  let msg_size := (ComputeMsgMinusValueSize key_size + value_size)%nat in
  massert (AtOffset s.2 =? length s.1)%nat;;
  resize_vec (length s.1 + ComputeMsgSetItemSize msg_size);;
  let item := AtOffset s.2 in
  WriteAtOffset (WriteInt64ToHeader 0);;
  Skip 4;;
  s ← get;
  let crc := AtOffset s.2 in
  Skip 4;;
  WriteAtOffset [x00];;
  WriteAtOffset [XlateCompressionType compression_type];;
  WriteAtOffset (WriteInt32ToHeader (size_or_minus_one key_size));;
  s ← get;
  let key := AtOffset s.2 in
  Skip key_size;;
  Skip 4;;
  s ← get;
  set_current item crc key (AtOffset s.2) key_size value_size;;
  set_State InMsg.

Definition GetCurrentMsgKeyOffset : MW nat :=
  s ← get;
  massert (bool_decide (State s.2 = InMsg));;
  massert (Buf s.2);;
  massert (CurrentMsgSetItemOffset s.2 <? CurrentMsgKeyOffset s.2)%nat;;
  mret (CurrentMsgKeyOffset s.2).

Definition GetCurrentMsgValueOffset : MW nat :=
  s ← get;
  massert (bool_decide (State s.2 = InMsg));;
  massert (Buf s.2);;
  massert (CurrentMsgSetItemOffset s.2 <? CurrentMsgValueOffset s.2)%nat;;
  mret (CurrentMsgValueOffset s.2).

Definition AdjustValueSize (new_size : nat) : MW () :=
  s ← get;
  massert (bool_decide (State s.2 = InMsg));;
  massert (CurrentMsgValueSize s.2 <? length s.1)%nat;;
  resize_vec (length s.1 - CurrentMsgValueSize s.2 + new_size);;
  set_current (CurrentMsgSetItemOffset s.2) (CurrentMsgCrcOffset s.2) (CurrentMsgKeyOffset s.2)
    (CurrentMsgValueOffset s.2) (CurrentMsgKeySize s.2) new_size.

(** The assertions of [RollbackOpenMsg] and [CloseMsg]. *)
Definition assert_in_msg : MW () :=
  s ← get;
  massert (bool_decide (State s.2 = InMsg));;
  massert (Buf s.2);;
  massert (CurrentMsgSetItemOffset s.2 <? CurrentMsgCrcOffset s.2)%nat;;
  massert (CurrentMsgSetItemOffset s.2 <? CurrentMsgKeyOffset s.2)%nat;;
  massert (CurrentMsgSetItemOffset s.2 <? CurrentMsgValueOffset s.2)%nat.

Definition RollbackOpenMsg : MW () :=
  assert_in_msg;;
  s ← get;
  resize_vec (CurrentMsgSetItemOffset s.2);;
  set_AtOffset (CurrentMsgSetItemOffset s.2);;
  set_current 0 0 0 0 0 0;;
  set_State InMsgSet.

Section with_crc.
Context (ComputeCrc32 : list byte → Z).

Definition CloseMsg : MW () :=
  assert_in_msg;;
  s ← get;
  let w := s.2 in
  let msg_size := (ComputeMsgMinusValueSize (CurrentMsgKeySize w) + CurrentMsgValueSize w)%nat in
  massert (CurrentMsgValueOffset w <=? length s.1)%nat;;
  massert (length s.1 - CurrentMsgValueOffset w =? CurrentMsgValueSize w)%nat;;
  Write (CurrentMsgSetItemOffset w + 8) (WriteInt32ToHeader (swrap 32 (Z.of_nat msg_size)));;
  Write (CurrentMsgKeyOffset w + CurrentMsgKeySize w)
    (WriteInt32ToHeader (size_or_minus_one (CurrentMsgValueSize w)));;
  Skip (CurrentMsgValueSize w);;
  on_writer (λ w, mkWriter (Buf w) (State w) (AtOffset w) (MsgSetSize w + ComputeMsgSetItemSize msg_size)
    (FirstMsgSetItemOffset w) (CurrentMsgSetItemOffset w) (MsgSetItemCount w) (CurrentMsgCrcOffset w)
    (CurrentMsgKeyOffset w) (CurrentMsgValueOffset w) (CurrentMsgKeySize w) (CurrentMsgValueSize w));;
  massert (4 <? msg_size)%nat;;
  s ← get;
  area ← need OutOfBounds (vec_slice (CurrentMsgCrcOffset w + 4) (msg_size - 4) s.1);
  Write (CurrentMsgCrcOffset w) (WriteInt32ToHeader (swrap 32 (ComputeCrc32 area)));;
  on_writer (λ w, mkWriter (Buf w) InMsgSet (AtOffset w) (MsgSetSize w) (FirstMsgSetItemOffset w) 0
    (S (MsgSetItemCount w)) 0 0 0 0 0).

Definition AddMsg (compression_type : TCompressionType) (key value : list byte) : MW () :=
  s ← get;
  massert (bool_decide (State s.2 = InMsgSet));;
  massert (Buf s.2);;
  massert (fits32 (length key));;
  massert (fits32 (length value));;
  OpenMsg compression_type (length key) (length value);;
  (if (length key =? 0)%nat then mret ()
   else off ← GetCurrentMsgKeyOffset;
        s ← get; v ← need OutOfBounds (vec_write off key s.1); modify (λ s, (v, s.2)));;
  (if (length value =? 0)%nat then mret ()
   else off ← GetCurrentMsgValueOffset;
        s ← get; v ← need OutOfBounds (vec_write off value s.1); modify (λ s, (v, s.2)));;
  CloseMsg.
End with_crc.

Definition CloseMsgSet : MW nat :=
  s ← get;
  let w := s.2 in
  massert (bool_decide (State w = InMsgSet));;
  massert (Buf w);;
  massert (FirstMsgSetItemOffset w <=? AtOffset w)%nat;;
  massert (MsgSetSize w =? AtOffset w - FirstMsgSetItemOffset w)%nat;;
  set_State Idle;;
  massert (fits32 (MsgSetSize w));;
  mret (MsgSetSize w).

End MsgSet.

Module Request.

Inductive TState := Idle | InRequest | InTopic | InMsgSet.

#[global] Instance TState_eq_dec : EqDecision TState.
Proof. solve_decision. Defined.

Record TProduceRequestWriter := mkWriter {
  Buf : bool;
  State : TState;
  AtOffset : nat;
  TopicCountOffset : nat;
  FirstTopicOffset : nat;
  CurrentTopicOffset : nat;
  CurrentTopicPartitionCountOffset : nat;
  TopicCount : nat;
  FirstPartitionOffset : nat;
  CurrentPartitionOffset : nat;
  PartitionCount : nat;
  MsgSetWriter : MsgSet.TMsgSetWriter
}.

Definition RW := M Empty_set (list byte * TProduceRequestWriter).

Definition on_writer (f : TProduceRequestWriter → TProduceRequestWriter) : RW () := modify (λ s, (s.1, f s.2)).

Definition on_msg_set {A} (m : MsgSet.MW A) : RW A :=
  zoom (λ s, (s.1, MsgSetWriter s.2))
    (λ t s, (t.1, let w := s.2 in
       mkWriter (Buf w) (State w) (AtOffset w) (TopicCountOffset w) (FirstTopicOffset w) (CurrentTopicOffset w)
         (CurrentTopicPartitionCountOffset w) (TopicCount w) (FirstPartitionOffset w) (CurrentPartitionOffset w)
         (PartitionCount w) t.2)) m.

Definition set_AtOffset (n : nat) : RW () := on_writer (λ w,
  mkWriter (Buf w) (State w) n (TopicCountOffset w) (FirstTopicOffset w) (CurrentTopicOffset w)
    (CurrentTopicPartitionCountOffset w) (TopicCount w) (FirstPartitionOffset w) (CurrentPartitionOffset w)
    (PartitionCount w) (MsgSetWriter w)).

Definition set_State (st : TState) : RW () := on_writer (λ w,
  mkWriter (Buf w) st (AtOffset w) (TopicCountOffset w) (FirstTopicOffset w) (CurrentTopicOffset w)
    (CurrentTopicPartitionCountOffset w) (TopicCount w) (FirstPartitionOffset w) (CurrentPartitionOffset w)
    (PartitionCount w) (MsgSetWriter w)).

Definition Write (offset : nat) (bytes : list byte) : RW () := vec_put Buf offset bytes.

Definition WriteAtOffset (bytes : list byte) : RW () :=
  s ← get; Write (AtOffset s.2) bytes;; set_AtOffset (AtOffset s.2 + length bytes).

Definition Skip (n : nat) : RW () := s ← get; set_AtOffset (AtOffset s.2 + n).

Definition assert_state (st : TState) : RW () :=
  s ← get; massert (bool_decide (State s.2 = st)).

Definition assert_buf : RW () := s ← get; massert (Buf s.2).

Definition TProduceRequestWriter_new : TProduceRequestWriter :=
  mkWriter false Idle 0 0 0 0 0 0 0 0 0 MsgSet.TMsgSetWriter_new.

Definition Reset : RW () :=
  on_writer (λ w, mkWriter false Idle 0 0 0 0 0 0 0 0 0 (MsgSetWriter w));;
  on_msg_set MsgSet.Reset.

Definition OpenRequest (corr_id : Z) (client_id : list byte) (required_acks replication_timeout : Z) : RW () :=
  Reset;;
  assert_state Idle;;
  massert (Z.of_nat (length client_id) <=? INT16_MAX);;
  let client_id_len := length client_id in
  on_writer (λ w, mkWriter true (State w) (AtOffset w) (TopicCountOffset w) (FirstTopicOffset w)
    (CurrentTopicOffset w) (CurrentTopicPartitionCountOffset w) (TopicCount w) (FirstPartitionOffset w)
    (CurrentPartitionOffset w) (PartitionCount w) (MsgSetWriter w));;
  resize_vec (4 + 2 + 2 + 4 + 2 + client_id_len + 2 + 4 + 4);;
  set_AtOffset 4;;
  WriteAtOffset (WriteInt16ToHeader 0);;
  WriteAtOffset (WriteInt16ToHeader 0);;
  WriteAtOffset (WriteInt32ToHeader corr_id);;
  WriteAtOffset (WriteInt16ToHeader (size_or_minus_one client_id_len));;
  WriteAtOffset client_id;;
  WriteAtOffset (WriteInt16ToHeader required_acks);;
  WriteAtOffset (WriteInt32ToHeader replication_timeout);;
  on_writer (λ w, mkWriter (Buf w) (State w) (AtOffset w) (AtOffset w) (FirstTopicOffset w)
    (CurrentTopicOffset w) (CurrentTopicPartitionCountOffset w) (TopicCount w) (FirstPartitionOffset w)
    (CurrentPartitionOffset w) (PartitionCount w) (MsgSetWriter w));;
  Skip 4;;
  set_State InRequest.

(** The name length is converted to [int16_t], unchecked. *)
Definition OpenTopic (topic_name : list byte) : RW () :=
  assert_state InRequest;;
  massert (0 <? length topic_name)%nat;;
  let topic_name_len := length topic_name in
  assert_buf;;
  s ← get;
  resize_vec (length s.1 + 2 + topic_name_len + 4);;
  on_writer (λ w, mkWriter (Buf w) (State w) (AtOffset w) (TopicCountOffset w)
    (if (TopicCount w =? 0)%nat then AtOffset w else FirstTopicOffset w)
    (AtOffset w) (CurrentTopicPartitionCountOffset w) (TopicCount w) 0 0 0 (MsgSetWriter w));;
  WriteAtOffset (WriteInt16ToHeader (swrap 16 (size_or_minus_one topic_name_len)));;
  WriteAtOffset topic_name;;
  on_writer (λ w, mkWriter (Buf w) (State w) (AtOffset w) (TopicCountOffset w) (FirstTopicOffset w)
    (CurrentTopicOffset w) (AtOffset w) (TopicCount w) (FirstPartitionOffset w)
    (CurrentPartitionOffset w) (PartitionCount w) (MsgSetWriter w));;
  Skip 4;;
  set_State InTopic.

Definition OpenMsgSet (partition : Z) : RW () :=
  assert_state InTopic;;
  assert_buf;;
  s ← get;
  resize_vec (length s.1 + 4 + 4);;
  on_writer (λ w, mkWriter (Buf w) (State w) (AtOffset w) (TopicCountOffset w) (FirstTopicOffset w)
    (CurrentTopicOffset w) (CurrentTopicPartitionCountOffset w) (TopicCount w)
    (if (PartitionCount w =? 0)%nat then AtOffset w else FirstPartitionOffset w) (AtOffset w)
    (PartitionCount w) (MsgSetWriter w));;
  WriteAtOffset (WriteInt32ToHeader partition);;
  Skip 4;;
  on_msg_set (MsgSet.OpenMsgSet true);;
  set_State InMsgSet.

Definition OpenMsg (compression_type : TCompressionType) (key_size value_size : nat) : RW () :=
  assert_state InMsgSet;;
  assert_buf;;
  massert (fits32 key_size);;
  massert (fits32 value_size);;
  on_msg_set (MsgSet.OpenMsg compression_type key_size value_size).

(** The operations that only check the state and call the message set writer. *)
Definition delegate {A} (m : MsgSet.MW A) : RW A := assert_state InMsgSet;; assert_buf;; on_msg_set m.

Definition GetCurrentMsgKeyOffset : RW nat := delegate MsgSet.GetCurrentMsgKeyOffset.
Definition GetCurrentMsgValueOffset : RW nat := delegate MsgSet.GetCurrentMsgValueOffset.
Definition AdjustValueSize (new_size : nat) : RW () := delegate (MsgSet.AdjustValueSize new_size).
Definition RollbackOpenMsg : RW () := delegate MsgSet.RollbackOpenMsg.
Definition CloseMsg (ComputeCrc32 : list byte → Z) : RW () := delegate (MsgSet.CloseMsg ComputeCrc32).
Definition AddMsg (ComputeCrc32 : list byte → Z) (compression_type : TCompressionType)
    (key value : list byte) : RW () := delegate (MsgSet.AddMsg ComputeCrc32 compression_type key value).

Definition CloseMsgSet : RW () :=
  assert_state InMsgSet;;
  assert_buf;;
  msg_set_size ← on_msg_set MsgSet.CloseMsgSet;
  s ← get;
  massert (AtOffset s.2 + msg_set_size =? length s.1)%nat;;
  set_AtOffset (length s.1);;
  Write (CurrentPartitionOffset s.2 + 4) (WriteInt32ToHeader (swrap 32 (Z.of_nat msg_set_size)));;
  on_writer (λ w, mkWriter (Buf w) InTopic (AtOffset w) (TopicCountOffset w) (FirstTopicOffset w)
    (CurrentTopicOffset w) (CurrentTopicPartitionCountOffset w) (TopicCount w) (FirstPartitionOffset w)
    (CurrentPartitionOffset w) (S (PartitionCount w)) (MsgSetWriter w)).

Definition CloseTopic : RW () :=
  assert_state InTopic;;
  assert_buf;;
  s ← get;
  Write (CurrentTopicPartitionCountOffset s.2) (WriteInt32ToHeader (swrap 32 (Z.of_nat (PartitionCount s.2))));;
  on_writer (λ w, mkWriter (Buf w) InRequest (AtOffset w) (TopicCountOffset w) (FirstTopicOffset w)
    (CurrentTopicOffset w) (CurrentTopicPartitionCountOffset w) (S (TopicCount w)) (FirstPartitionOffset w)
    (CurrentPartitionOffset w) (PartitionCount w) (MsgSetWriter w)).

Definition CloseRequest : RW () :=
  assert_state InRequest;;
  assert_buf;;
  s ← get;
  Write (TopicCountOffset s.2) (WriteInt32ToHeader (swrap 32 (Z.of_nat (TopicCount s.2))));;
  s ← get;
  massert (4 <? length s.1)%nat;;
  massert (fits32 (length s.1 - 4));;
  Write 0 (WriteInt32ToHeader (swrap 32 (Z.of_nat (length s.1 - 4))));;
  on_writer (λ w, mkWriter false Idle (AtOffset w) (TopicCountOffset w) (FirstTopicOffset w)
    (CurrentTopicOffset w) (CurrentTopicPartitionCountOffset w) (TopicCount w) (FirstPartitionOffset w)
    (CurrentPartitionOffset w) (PartitionCount w) (MsgSetWriter w)).

End Request.

(** ** The format *)

(** A message: how it is compressed, its key and its value. *)
Definition wire_msg : Type := TCompressionType * list byte * list byte.

Definition enc_size (n : nat) : list byte := WriteInt32ToHeader (size_or_minus_one n).

(** The part of a message that the CRC covers. *)
Definition crc_area (t : TCompressionType) (key value : list byte) : list byte :=
  [x00; XlateCompressionType t] ++ enc_size (length key) ++ key ++ enc_size (length value) ++ value.

(** The header of a message set item before the CRC area. *)
Definition item_header (size crc : list byte) : list byte := WriteInt64ToHeader 0 ++ size ++ crc.

Definition enc_count (n : nat) : list byte := WriteInt32ToHeader (swrap 32 (Z.of_nat n)).

Section format.
Context (ComputeCrc32 : list byte → Z).

Definition enc_msg (m : wire_msg) : list byte :=
  let area := crc_area m.1.1 m.1.2 m.2 in
  item_header (enc_count (4 + length area)) (WriteInt32ToHeader (swrap 32 (ComputeCrc32 area))) ++ area.

Definition enc_msg_set (ms : list wire_msg) : list byte := concat (enc_msg <$> ms).

Definition enc_partition (p : Z * list wire_msg) : list byte :=
  WriteInt32ToHeader p.1 ++ enc_count (length (enc_msg_set p.2)) ++ enc_msg_set p.2.

Definition enc_topic (t : list byte * list (Z * list wire_msg)) : list byte :=
  WriteInt16ToHeader (swrap 16 (size_or_minus_one (length t.1))) ++ t.1 ++
  enc_count (length t.2) ++ concat (enc_partition <$> t.2).

Definition request_header (corr_id : Z) (client_id : list byte) (required_acks replication_timeout : Z) : list byte :=
  WriteInt16ToHeader 0 ++ WriteInt16ToHeader 0 ++ WriteInt32ToHeader corr_id ++
  WriteInt16ToHeader (size_or_minus_one (length client_id)) ++ client_id ++
  WriteInt16ToHeader required_acks ++ WriteInt32ToHeader replication_timeout.

Definition enc_request (corr_id : Z) (client_id : list byte) (required_acks replication_timeout : Z)
    (ts : list (list byte * list (Z * list wire_msg))) : list byte :=
  let body := request_header corr_id client_id required_acks replication_timeout ++
    enc_count (length ts) ++ concat (enc_topic <$> ts) in
  enc_count (length body) ++ body.
End format.

(** ** Lemmas on writes *)

Lemma length_enc_size n : length (enc_size n) = 4%nat.
Proof. apply length_WriteInt32. Qed.

Lemma length_enc_count n : length (enc_count n) = 4%nat.
Proof. apply length_WriteInt32. Qed.

Lemma length_item_header size crc : length (item_header size crc) = (8 + length size + length crc)%nat.
Proof. unfold item_header. by rewrite !length_app, length_WriteInt64, Nat.add_assoc. Qed.

#[export] Hint Rewrite length_enc_size length_enc_count length_item_header length_WriteInt16 length_WriteInt32 length_WriteInt64
  @length_replicate : len.

Lemma vec_put_ok {S} (buf : S → bool) a b b' c (w : S) off v :
  v = a ++ b ++ c → off = length a → buf w = true → length b = length b' → (0 < length a + length b')%nat →
  vec_put buf off b' (v, w) = (Ret (), (a ++ b' ++ c, w)).
Proof.
  intros -> -> Hb Hl Hp. unfold vec_put. erewrite bind_Ret by reflexivity. cbn [fst snd]. rewrite Hb.
  rewrite massert_bind by done.
  rewrite massert_bind by (rewrite !length_app; apply andb_true_intro; split; boolia).
  by rewrite vec_write_at.
Qed.

Lemma resize_vec_grow {S} k v (w : S) :
  resize_vec (length v + k) (v, w) = (Ret (), (v ++ replicate k x00, w)).
Proof.
  unfold resize_vec, modify. cbn [fst snd]. rewrite vec_resize_grow by lia.
  by replace (length v + k - length v)%nat with k by lia.
Qed.

Section msg_set_proofs.
Import MsgSet.

(** A writer of a message set that begins after [pre], with the items written so
    far. *)
Record in_set (pre items : list byte) (w : TMsgSetWriter) : Prop := {
  is_buf : Buf w = true;
  is_state : State w = InMsgSet;
  is_at : AtOffset w = (length pre + length items)%nat;
  is_size : MsgSetSize w = length items;
  is_first : FirstMsgSetItemOffset w = length pre
}.

(** The writer while a message with a key of [ks] and a value of [vs] bytes is
    open. *)
Record in_msg (pre items : list byte) (ks vs : nat) (w : TMsgSetWriter) : Prop := {
  im_buf : Buf w = true;
  im_state : State w = InMsg;
  im_at : AtOffset w = (length pre + length items + 26 + ks)%nat;
  im_size : MsgSetSize w = length items;
  im_first : FirstMsgSetItemOffset w = length pre;
  im_item : CurrentMsgSetItemOffset w = (length pre + length items)%nat;
  im_crc : CurrentMsgCrcOffset w = (length pre + length items + 12)%nat;
  im_key : CurrentMsgKeyOffset w = (length pre + length items + 22)%nat;
  im_value : CurrentMsgValueOffset w = (length pre + length items + 26 + ks)%nat;
  im_ks : CurrentMsgKeySize w = ks;
  im_vs : CurrentMsgValueSize w = vs
}.

(** The vector while a message is open: the size, the CRC and the value size are
    not filled in yet. *)
Definition open_item (t : TCompressionType) (size crc key vsize value : list byte) : list byte :=
  item_header size crc ++ [x00] ++ [XlateCompressionType t] ++ enc_size (length key) ++ key ++ vsize ++ value.

Lemma WriteAtOffset_ok a b b' c w v :
  v = a ++ b ++ c → AtOffset w = length a → Buf w = true → length b = length b' → (0 < length a + length b')%nat →
  WriteAtOffset b' (v, w) = set_AtOffset (length a + length b') (a ++ b' ++ c, w).
Proof.
  intros Hv Ha Hb Hl Hp. unfold WriteAtOffset, MW. erewrite bind_Ret by reflexivity. cbn [fst snd]. unfold Write.
  rewrite Ha. by rewrite (bind_Ret _ _ _ _ _ (vec_put_ok Buf a b b' c w _ v Hv eq_refl Hb Hl Hp)).
Qed.

Ltac mcbn := cbn [fst snd Buf State AtOffset MsgSetSize FirstMsgSetItemOffset CurrentMsgSetItemOffset MsgSetItemCount
  CurrentMsgCrcOffset CurrentMsgKeyOffset CurrentMsgValueOffset CurrentMsgKeySize CurrentMsgValueSize].

(** One write of a run, at a position given by what is before it. *)
Ltac write_step a b c :=
  eapply wp_bind_Ret; [rewrite (WriteAtOffset_ok a b _ c); [reflexivity | | | | |] |]; mcbn;
  [unfold item_header; by rewrite <- ?app_assoc | solve_len | done | solve_len | solve_len |].

Lemma OpenMsg_ok pre items t ks vs w :
  in_set pre items w → Z.of_nat ks ≤ INT32_MAX → Z.of_nat vs ≤ INT32_MAX →
  wp (OpenMsg t ks vs) (pre ++ items, w)
    (λ _ s, in_msg pre items ks vs s.2 ∧
       s.1 = pre ++ items ++ open_item t (replicate 4 x00) (replicate 4 x00) (replicate ks x00)
         (replicate 4 x00) (replicate vs x00)) (λ _ _, False) (λ _, False).
Proof.
  intros [H1 H2 H3 H4 H5] Hk Hv. unfold OpenMsg. wstep. mcbn. set (P := pre ++ items).
  assert (length P = (length pre + length items)%nat) as HP by apply length_app.
  apply wp_massert; [by apply bool_decide_true |]. apply wp_massert; [done |].
  apply wp_massert; [unfold fits32; boolia |]. apply wp_massert; [unfold fits32; boolia |].
  apply wp_massert; [boolia |]. eapply wp_bind_Ret; [apply resize_vec_grow |]. rewrite H3, <- HP.
  set (z := replicate _ x00).
  assert (z = replicate 8 x00 ++ replicate 4 x00 ++ replicate 4 x00 ++ replicate 1 x00 ++ replicate 1 x00 ++
    replicate 4 x00 ++ replicate ks x00 ++ replicate 4 x00 ++ replicate vs x00) as Hz.
  { unfold z. rewrite <- !replicate_add. f_equal. unfold ComputeMsgSetItemSize, ComputeMsgMinusValueSize. lia. }
  clearbody z. subst z.
  write_step P (replicate 8 x00) (replicate 4 x00 ++ replicate 4 x00 ++ replicate 1 x00 ++ replicate 1 x00 ++
    replicate 4 x00 ++ replicate ks x00 ++ replicate 4 x00 ++ replicate vs x00).
  wstep. wstep. wstep. mcbn.
  write_step (P ++ item_header (replicate 4 x00) (replicate 4 x00)) (replicate 1 x00) (replicate 1 x00 ++
    replicate 4 x00 ++ replicate ks x00 ++ replicate 4 x00 ++ replicate vs x00).
  write_step (P ++ item_header (replicate 4 x00) (replicate 4 x00) ++ [x00]) (replicate 1 x00)
    (replicate 4 x00 ++ replicate ks x00 ++ replicate 4 x00 ++ replicate vs x00).
  write_step (P ++ item_header (replicate 4 x00) (replicate 4 x00) ++ [x00] ++ [XlateCompressionType t])
    (replicate 4 x00) (replicate ks x00 ++ replicate 4 x00 ++ replicate vs x00).
  wstep. wstep. wstep. wstep. wstep. eapply wp_Ret; [reflexivity |]. mcbn. split.
  - split; mcbn; try done; try solve_len.
  - unfold P, open_item, item_header, enc_size. by rewrite length_replicate, <- !app_assoc.
Qed.

Context (ComputeCrc32 : list byte → Z).

Lemma assert_in_msg_ok pre items ks vs v w :
  in_msg pre items ks vs w → assert_in_msg (v, w) = (Ret (), (v, w)).
Proof.
  intros [H1 H2 _ _ _ H6 H7 H8 H9 _ _]. unfold assert_in_msg, MW. erewrite bind_Ret by reflexivity. cbn [fst snd].
  do 4 (rewrite massert_bind by (first [done | by apply bool_decide_true | boolia])).
  unfold massert. by rewrite (proj2 (Nat.ltb_lt _ _)) by lia.
Qed.

Lemma length_open_item t size crc key vsize value :
  length (open_item t size crc key vsize value) =
  (8 + length size + length crc + 6 + length key + length vsize + length value)%nat.
Proof. unfold open_item. rewrite !length_app, length_item_header, length_enc_size. cbn [length]. lia. Qed.

Lemma CloseMsg_ok pre items t size crc key vsize value w :
  in_msg pre items (length key) (length value) w → length size = 4%nat → length crc = 4%nat → length vsize = 4%nat →
  wp (CloseMsg ComputeCrc32) (pre ++ items ++ open_item t size crc key vsize value, w)
    (λ _ s, in_set pre (items ++ enc_msg ComputeCrc32 (t, key, value)) s.2 ∧
       s.1 = pre ++ items ++ enc_msg ComputeCrc32 (t, key, value)) (λ _ _, False) (λ _, False).
Proof.
  intros Hw Ls Lc Lv. pose proof Hw as [H1 H2 H3 H4 H5 H6 H7 H8 H9 H10 H11].
  eapply wp_bind_Ret; [by eapply assert_in_msg_ok |]. wstep. mcbn.
  pose proof (length_open_item t size crc key vsize value) as Lo.
  apply wp_massert; [rewrite !length_app; boolia |]. apply wp_massert; [rewrite !length_app; boolia |].
  rewrite H6, H7, H8, H10, H11. set (n := (ComputeMsgMinusValueSize (length key) + length value)%nat).
  set (P := pre ++ items). assert (length P = (length pre + length items)%nat) as HP by apply length_app.
  assert (n = (4 + length (crc_area t key value))%nat) as Hn.
  { unfold n, crc_area, ComputeMsgMinusValueSize. solve_len. }
  rewrite app_assoc. fold P. set (mid := [x00] ++ [XlateCompressionType t] ++ enc_size (length key)).
  assert (length mid = 6%nat) as Lmid by (unfold mid; solve_len).
  eapply wp_bind_Ret.
  { apply (vec_put_ok Buf (P ++ WriteInt64ToHeader 0) size _ (crc ++ mid ++ key ++ vsize ++ value));
      [unfold open_item, item_header, mid; by rewrite <- !app_assoc | solve_len | done | solve_len | solve_len]. }
  eapply wp_bind_Ret.
  { apply (vec_put_ok Buf (P ++ WriteInt64ToHeader 0 ++ enc_count n ++ crc ++ mid ++ key) vsize _ value);
      [by rewrite <- !app_assoc | solve_len | done | solve_len | solve_len]. }
  wstep. wstep. apply wp_massert; [boolia |]. wstep. mcbn. fold (enc_size (length value)).
  assert (mid ++ key ++ enc_size (length value) ++ value = crc_area t key value) as Harea
    by (unfold mid, crc_area; by rewrite <- !app_assoc).
  set (area := crc_area t key value) in *.
  set (v2 := (P ++ WriteInt64ToHeader 0 ++ _ ++ crc ++ mid ++ key) ++ enc_size (length value) ++ value).
  assert (v2 = (P ++ WriteInt64ToHeader 0 ++ enc_count n) ++ crc ++ area) as Hv2
    by (unfold v2; rewrite <- Harea; by rewrite <- !app_assoc). clearbody v2. subst v2.
  eapply wp_bind_Ret.
  { unfold vec_slice. rewrite decide_True by solve_len. rewrite app_assoc, drop_app_length' by solve_len.
    rewrite take_ge by lia. reflexivity. }
  eapply wp_bind_Ret.
  { apply (vec_put_ok Buf (P ++ WriteInt64ToHeader 0 ++ enc_count n) crc _ area);
      [by rewrite <- app_assoc | solve_len | done | solve_len | solve_len]. }
  eapply wp_Ret; [reflexivity |]. mcbn.
  assert (length (enc_msg ComputeCrc32 (t, key, value)) = ComputeMsgSetItemSize n) as Le.
  { unfold enc_msg. cbn [fst snd]. fold area. unfold ComputeMsgSetItemSize. solve_len. }
  split.
  - split; mcbn; try done; rewrite length_app, Le; unfold ComputeMsgSetItemSize, n, ComputeMsgMinusValueSize in *; lia.
  - unfold enc_msg, item_header, P. cbn [fst snd]. fold area. rewrite <- Hn. by rewrite <- !app_assoc.
Qed.

Lemma vec_write_key pre items t size crc key0 key vsize value :
  length size = 4%nat → length crc = 4%nat → length key0 = length key →
  vec_write (length pre + length items + 22) key (pre ++ items ++ open_item t size crc key0 vsize value) =
  Some (pre ++ items ++ open_item t size crc key vsize value).
Proof.
  intros Ls Lc Lk. unfold open_item. rewrite Lk.
  set (a := pre ++ items ++ item_header size crc ++ [x00] ++ [XlateCompressionType t] ++ enc_size (length key)).
  replace (length pre + length items + 22)%nat with (length a) by (unfold a; solve_len).
  pose proof (vec_write_at a key0 key (vsize ++ value) Lk) as Hw. unfold a in *. by rewrite <- !app_assoc in Hw.
Qed.

(** The value, or its first bytes only. *)
Lemma vec_write_value_prefix pre items t size crc key vsize value0 value rest :
  length size = 4%nat → length crc = 4%nat → length vsize = 4%nat → length value0 = length value →
  vec_write (length pre + length items + 26 + length key) value
    (pre ++ items ++ open_item t size crc key vsize (value0 ++ rest)) =
  Some (pre ++ items ++ open_item t size crc key vsize (value ++ rest)).
Proof.
  intros Ls Lc Lv Lk. unfold open_item.
  set (a := pre ++ items ++ item_header size crc ++ [x00] ++ [XlateCompressionType t] ++ enc_size (length key) ++
    key ++ vsize).
  replace (length pre + length items + 26 + length key)%nat with (length a) by (unfold a; solve_len).
  pose proof (vec_write_at a value0 value rest Lk) as Hw. unfold a in *. by rewrite <- !app_assoc in Hw.
Qed.

Lemma vec_write_value pre items t size crc key vsize value0 value :
  length size = 4%nat → length crc = 4%nat → length vsize = 4%nat → length value0 = length value →
  vec_write (length pre + length items + 26 + length key) value
    (pre ++ items ++ open_item t size crc key vsize value0) =
  Some (pre ++ items ++ open_item t size crc key vsize value).
Proof.
  intros Ls Lc Lv Lk. pose proof (vec_write_value_prefix pre items t size crc key vsize value0 value [] Ls Lc Lv Lk) as H.
  by rewrite !app_nil_r in H.
Qed.

Lemma GetOffsets_ok pre items ks vs v w :
  in_msg pre items ks vs w →
  GetCurrentMsgKeyOffset (v, w) = (Ret (length pre + length items + 22)%nat, (v, w)) ∧
  GetCurrentMsgValueOffset (v, w) = (Ret (length pre + length items + 26 + ks)%nat, (v, w)).
Proof.
  intros [H1 H2 _ _ _ H6 H7 H8 H9 _ _]. unfold GetCurrentMsgKeyOffset, GetCurrentMsgValueOffset, MW.
  split; erewrite bind_Ret by reflexivity; cbn [fst snd];
    do 3 (rewrite massert_bind by (first [done | by apply bool_decide_true | boolia])); unfold mret, M_ret; congruence.
Qed.

Lemma AdjustValueSize_ok pre items t size crc key vsize value z w :
  in_msg pre items (length key) (length value + z) w →
  wp (AdjustValueSize (length value))
    (pre ++ items ++ open_item t size crc key vsize (value ++ replicate z x00), w)
    (λ _ s, in_msg pre items (length key) (length value) s.2 ∧
       s.1 = pre ++ items ++ open_item t size crc key vsize value) (λ _ _, False) (λ _, False).
Proof.
  intros [H1 H2 H3 H4 H5 H6 H7 H8 H9 H10 H11]. wstep. mcbn. apply wp_massert; [by apply bool_decide_true |].
  set (v := pre ++ _). assert (length v = (length pre + length items + length (open_item t size crc key vsize value) + z)%nat) as Lv.
  { unfold v. rewrite !length_app, !length_open_item, length_app, length_replicate. lia. }
  pose proof (length_open_item t size crc key vsize value) as Lo. rewrite H11.
  apply wp_massert; [boolia |]. wstep. eapply wp_Ret; [reflexivity |]. mcbn. split; [by split; mcbn |].
  unfold vec_resize. rewrite (proj2 (Nat.sub_0_le _ (length v))) by lia. cbn [replicate]. rewrite app_nil_r.
  set (a := pre ++ items ++ open_item t size crc key vsize value).
  replace v with (a ++ replicate z x00) by (unfold v, a, open_item; by rewrite <- !app_assoc).
  apply take_app_length'. rewrite length_app, length_replicate. unfold a. rewrite !length_app. lia.
Qed.

Lemma RollbackOpenMsg_ok pre items ks vs rest w :
  in_msg pre items ks vs w →
  wp RollbackOpenMsg (pre ++ items ++ rest, w)
    (λ _ s, in_set pre items s.2 ∧ s.1 = pre ++ items) (λ _ _, False) (λ _, False).
Proof.
  intros Hw. pose proof Hw as [H1 H2 H3 H4 H5 H6 H7 H8 H9 H10 H11].
  eapply wp_bind_Ret; [by eapply assert_in_msg_ok |]. wstep. mcbn. wstep. wstep. wstep.
  eapply wp_Ret; [reflexivity |]. mcbn. split; [by split; mcbn |]. rewrite H6.
  unfold vec_resize. rewrite app_assoc, take_app_length' by (by rewrite length_app).
  rewrite !length_app. replace (_ - _)%nat with 0%nat by lia. by rewrite app_nil_r.
Qed.

Lemma OpenMsgSet_ok pre w :
  ∃ w', MsgSet.OpenMsgSet true (pre, w) = (Ret (), (pre, w')) ∧ in_set pre [] w'.
Proof.
  exists (mkWriter true InMsgSet (length pre) 0 (length pre) 0 0 0 0 0 0 0). split; [reflexivity |].
  split; mcbn; cbn [length]; done || lia.
Qed.

Lemma OpenMsgSet_fresh v w :
  ∃ w', MsgSet.OpenMsgSet false (v, w) = (Ret (), ([], w')) ∧ in_set [] [] w'.
Proof.
  exists (mkWriter true InMsgSet 0 0 0 0 0 0 0 0 0 0). split; [| by split].
  unfold MsgSet.OpenMsgSet, MW. erewrite bind_Ret by reflexivity. cbv beta. erewrite bind_Ret by reflexivity. cbv beta.
  rewrite massert_bind by done. erewrite bind_Ret by reflexivity. reflexivity.
Qed.

Lemma CloseMsgSet_ok pre items w :
  in_set pre items w → Z.of_nat (length items) ≤ INT32_MAX →
  ∃ w', MsgSet.CloseMsgSet (pre ++ items, w) = (Ret (length items), (pre ++ items, w')).
Proof.
  intros [H1 H2 H3 H4 H5] Hf. unfold MsgSet.CloseMsgSet, MW. erewrite bind_Ret by reflexivity. cbn [fst snd].
  do 4 (rewrite massert_bind by (first [done | by apply bool_decide_true | boolia])).
  erewrite bind_Ret by reflexivity. cbv beta. rewrite massert_bind by (unfold fits32; boolia).
  rewrite H4. by eexists.
Qed.

Lemma AddMsg_ok pre items t key value w :
  in_set pre items w → Z.of_nat (length key) ≤ INT32_MAX → Z.of_nat (length value) ≤ INT32_MAX →
  wp (AddMsg ComputeCrc32 t key value) (pre ++ items, w)
    (λ _ s, in_set pre (items ++ enc_msg ComputeCrc32 (t, key, value)) s.2 ∧
       s.1 = pre ++ items ++ enc_msg ComputeCrc32 (t, key, value)) (λ _ _, False) (λ _, False).
Proof.
  intros Hw Hk Hv. pose proof Hw as [H1 H2 _ _ _]. wstep. mcbn.
  do 4 (apply wp_massert; [first [done | by apply bool_decide_true | unfold fits32; boolia] |]).
  apply wp_bind. eapply wp_mono; [by apply OpenMsg_ok |]. intros _ [v w1] [Hw1 Hv1]. cbn [fst snd] in *. subst v.
  destruct (GetOffsets_ok _ _ _ _ (pre ++ items ++ open_item t (replicate 4 x00) (replicate 4 x00)
    (replicate (length key) x00) (replicate 4 x00) (replicate (length value) x00)) _ Hw1) as [Hko _].
  eapply wp_bind_Ret with (a := ()) (s' := (pre ++ items ++ open_item t (replicate 4 x00) (replicate 4 x00) key
    (replicate 4 x00) (replicate (length value) x00), w1)).
  { destruct key as [| b key]; [done |]. cbn [Nat.eqb length]. rewrite (bind_Ret _ _ _ _ _ Hko).
    erewrite bind_Ret by reflexivity. cbn [fst]. by rewrite vec_write_key by solve_len. }
  destruct (GetOffsets_ok _ _ _ _ (pre ++ items ++ open_item t (replicate 4 x00) (replicate 4 x00) key
    (replicate 4 x00) (replicate (length value) x00)) _ Hw1) as [_ Hvo].
  eapply wp_bind_Ret with (a := ()) (s' := (pre ++ items ++ open_item t (replicate 4 x00) (replicate 4 x00) key
    (replicate 4 x00) value, w1)).
  { destruct value as [| b value]; [done |]. cbn [Nat.eqb length]. rewrite (bind_Ret _ _ _ _ _ Hvo).
    erewrite bind_Ret by reflexivity. cbn [fst]. by rewrite vec_write_value by solve_len. }
  by apply CloseMsg_ok.
Qed.
End msg_set_proofs.

Section request_proofs.
Import Request.

(** The request writer between topics, in a topic, and in a message set that
    begins after [base]; [tco] and [pco] are the places of the topic count and
    the partition count, [n] and [k] the counts so far. *)
Record at_request (v : list byte) (tco n : nat) (w : TProduceRequestWriter) : Prop := {
  ar_buf : Buf w = true;
  ar_state : State w = InRequest;
  ar_at : AtOffset w = length v;
  ar_tco : TopicCountOffset w = tco;
  ar_n : TopicCount w = n
}.

Record at_topic (v : list byte) (tco n pco k : nat) (w : TProduceRequestWriter) : Prop := {
  at_buf : Buf w = true;
  at_state : State w = InTopic;
  at_at : AtOffset w = length v;
  at_tco : TopicCountOffset w = tco;
  at_n : TopicCount w = n;
  at_pco : CurrentTopicPartitionCountOffset w = pco;
  at_k : PartitionCount w = k
}.

Record at_set (base : list byte) (tco n pco k : nat) (w : TProduceRequestWriter) : Prop := {
  as_buf : Buf w = true;
  as_state : State w = InMsgSet;
  as_at : AtOffset w = length base;
  as_tco : TopicCountOffset w = tco;
  as_n : TopicCount w = n;
  as_pco : CurrentTopicPartitionCountOffset w = pco;
  as_k : PartitionCount w = k;
  as_partition : (CurrentPartitionOffset w + 8)%nat = length base
}.

Ltac rcbn := cbn [fst snd Buf State AtOffset TopicCountOffset FirstTopicOffset CurrentTopicOffset
  CurrentTopicPartitionCountOffset TopicCount FirstPartitionOffset CurrentPartitionOffset PartitionCount
  MsgSetWriter].

Lemma RWriteAtOffset_ok a b b' c w v :
  v = a ++ b ++ c → AtOffset w = length a → Buf w = true → length b = length b' → (0 < length a + length b')%nat →
  WriteAtOffset b' (v, w) = set_AtOffset (length a + length b') (a ++ b' ++ c, w).
Proof.
  intros Hv Ha Hb Hl Hp. unfold WriteAtOffset, RW. erewrite bind_Ret by reflexivity. cbn [fst snd]. unfold Write.
  rewrite Ha. by rewrite (bind_Ret _ _ _ _ _ (vec_put_ok Buf a b b' c w _ v Hv eq_refl Hb Hl Hp)).
Qed.

Ltac rwrite_step a b c :=
  eapply wp_bind_Ret; [rewrite (RWriteAtOffset_ok a b _ c); [reflexivity | | | | |] |]; rcbn;
  [by rewrite <- ?app_assoc | solve_len | done | solve_len | solve_len |].

Lemma assert_state_ok st v w : State w = st → assert_state st (v, w) = (Ret (), (v, w)).
Proof.
  intros Hs. unfold assert_state, RW. erewrite bind_Ret by reflexivity. cbn [fst snd].
  rewrite bool_decide_true by done. reflexivity.
Qed.

Lemma assert_buf_ok v w : Buf w = true → assert_buf (v, w) = (Ret (), (v, w)).
Proof. intros Hs. unfold assert_buf, RW. erewrite bind_Ret by reflexivity. cbn [fst snd]. by rewrite Hs. Qed.

Ltac checks := repeat first
  [eapply wp_bind_Ret; [by apply assert_state_ok |] | eapply wp_bind_Ret; [by apply assert_buf_ok |]].

Definition never {A B : Type} (_ : A) (_ : B) : Prop := False.

Lemma ROpenTopic_ok name v tco n w :
  at_request v tco n w → name ≠ [] →
  wp (OpenTopic name) (v, w) (λ _ s,
    s.1 = v ++ WriteInt16ToHeader (swrap 16 (size_or_minus_one (length name))) ++ name ++ replicate 4 x00 ∧
    at_topic s.1 tco n (length v + 2 + length name) 0 s.2) never (λ _, False).
Proof.
  intros [H1 H2 H3 H4 H5] Hn. unfold OpenTopic. checks.
  apply wp_massert; [destruct name; [done | boolia] |]. checks. wstep. rcbn.
  rewrite <- !Nat.add_assoc. eapply wp_bind_Ret; [apply resize_vec_grow |]. rewrite !replicate_add. wstep.
  rwrite_step v (replicate 2 x00) (replicate (length name) x00 ++ replicate 4 x00).
  rwrite_step (v ++ WriteInt16ToHeader (swrap 16 (size_or_minus_one (length name)))) (replicate (length name) x00)
    (replicate 4 x00).
  wstep. wstep. eapply wp_Ret; [reflexivity |]. rcbn. split; [by rewrite <- !app_assoc |].
  split; rcbn; try done; solve_len.
Qed.

Lemma ROpenMsgSet_ok partition v tco n pco k w :
  at_topic v tco n pco k w →
  wp (OpenMsgSet partition) (v, w) (λ _ s,
    s.1 = v ++ WriteInt32ToHeader partition ++ replicate 4 x00 ∧
    at_set (v ++ WriteInt32ToHeader partition ++ replicate 4 x00) tco n pco k s.2 ∧
    in_set (v ++ WriteInt32ToHeader partition ++ replicate 4 x00) [] (MsgSetWriter s.2)) never (λ _, False).
Proof.
  intros [H1 H2 H3 H4 H5 H6 H7]. unfold OpenMsgSet. checks. wstep. rcbn.
  rewrite <- !Nat.add_assoc. eapply wp_bind_Ret; [apply resize_vec_grow |]. rewrite !replicate_add. wstep.
  rwrite_step v (replicate 4 x00) (replicate 4 x00). wstep. set (w1 := mkWriter _ _ _ _ _ _ _ _ _ _ _ _).
  destruct (OpenMsgSet_ok (v ++ WriteInt32ToHeader partition ++ replicate 4 x00) (MsgSetWriter w1)) as (mw & Hm & Hs).
  eapply wp_bind_Ret; [unfold on_msg_set, zoom; rcbn; by rewrite Hm |]. eapply wp_Ret; [reflexivity |]. rcbn.
  split; [done |]. split; [| done]. split; rcbn; try done; unfold w1; rcbn; solve_len.
Qed.

Lemma delegate_wp {A} (m : MsgSet.MW A) v base tco n pco k w Q :
  at_set base tco n pco k w → wp m (v, MsgSetWriter w) Q never (λ _, False) →
  wp (delegate m) (v, w) (λ a s, Q a (s.1, MsgSetWriter s.2) ∧ at_set base tco n pco k s.2) never (λ _, False).
Proof.
  intros [H1 H2 H3 H4 H5 H6 H7 H8] Hm. unfold delegate. checks. unfold wp, on_msg_set, zoom in *. rcbn.
  destruct (m (v, MsgSetWriter w)) as [[a | [] | f] [v' mw]]; [| done]. rcbn. split; [done |]. by split.
Qed.

Lemma ROpenMsg_ok base items t ks vs tco n pco k w :
  at_set base tco n pco k w → in_set base items (MsgSetWriter w) →
  Z.of_nat ks ≤ INT32_MAX → Z.of_nat vs ≤ INT32_MAX →
  wp (OpenMsg t ks vs) (base ++ items, w) (λ _ s,
    in_msg base items ks vs (MsgSetWriter s.2) ∧ at_set base tco n pco k s.2 ∧
    s.1 = base ++ items ++ open_item t (replicate 4 x00) (replicate 4 x00) (replicate ks x00)
      (replicate 4 x00) (replicate vs x00)) never (λ _, False).
Proof.
  intros Ha Hs Hk Hv. pose proof Ha as [H1 H2 H3 H4 H5 H6 H7 H8]. unfold OpenMsg. checks.
  apply wp_massert; [unfold fits32; boolia |]. apply wp_massert; [unfold fits32; boolia |].
  pose proof (OpenMsg_ok base items t ks vs _ Hs Hk Hv) as Hm. unfold wp, on_msg_set, zoom in *. rcbn.
  destruct (MsgSet.OpenMsg t ks vs (base ++ items, MsgSetWriter w)) as [[a | [] | f] [v' mw]]; [| done]. rcbn.
  destruct Hm. split_and!; [done | | done]. by split.
Qed.

Lemma RCloseMsgSet_ok v partition size items tco n pco k w :
  let base := v ++ WriteInt32ToHeader partition ++ size in
  at_set base tco n pco k w → in_set base items (MsgSetWriter w) → length size = 4%nat →
  Z.of_nat (length items) ≤ INT32_MAX →
  wp CloseMsgSet (base ++ items, w) (λ _ s,
    s.1 = v ++ WriteInt32ToHeader partition ++ enc_count (length items) ++ items ∧
    at_topic s.1 tco n pco (S k) s.2) never (λ _, False).
Proof.
  intros base [H1 H2 H3 H4 H5 H6 H7 H8] Hs Ls Hf. unfold CloseMsgSet. checks.
  destruct (CloseMsgSet_ok _ _ _ Hs Hf) as (mw & Hm).
  assert (length base = (length v + 8)%nat) as Lb by (unfold base; solve_len).
  eapply wp_bind_Ret; [unfold on_msg_set, zoom; rcbn; by rewrite Hm |]. wstep. rcbn.
  apply wp_massert; [rewrite length_app; boolia |]. wstep. rcbn. eapply wp_bind_Ret.
  { apply (vec_put_ok Buf (v ++ WriteInt32ToHeader partition) size _ items);
      [unfold base; by rewrite <- !app_assoc | solve_len | done | solve_len | solve_len]. }
  eapply wp_Ret; [reflexivity |]. rcbn. split; [by rewrite <- !app_assoc |]. split; rcbn; try done; [| by rewrite H7].
  rewrite !length_app, length_WriteInt32, length_WriteInt32. lia.
Qed.

Lemma RCloseTopic_ok v name cnt parts tco n k w :
  at_topic (v ++ name ++ cnt ++ parts) tco n (length v + length name) k w → length cnt = 4%nat →
  wp CloseTopic (v ++ name ++ cnt ++ parts, w) (λ _ s,
    s.1 = v ++ name ++ enc_count k ++ parts ∧ at_request s.1 tco (S n) s.2) never (λ _, False).
Proof.
  intros [H1 H2 H3 H4 H5 H6 H7] Lc. unfold CloseTopic. checks. wstep. rcbn. rewrite H6, H7.
  eapply wp_bind_Ret.
  { apply (vec_put_ok Buf (v ++ name) cnt _ parts); [by rewrite <- !app_assoc | solve_len | done | solve_len | solve_len]. }
  eapply wp_Ret; [reflexivity |]. rcbn. split; [by rewrite <- !app_assoc |]. split; rcbn; try done; [| by rewrite H5].
  rewrite H3. solve_len.
Qed.

Lemma CloseRequest_ok size header cnt topics n w :
  at_request (size ++ header ++ cnt ++ topics) (4 + length header) n w → length size = 4%nat → length cnt = 4%nat →
  Z.of_nat (length (header ++ cnt ++ topics)) ≤ INT32_MAX →
  wp CloseRequest (size ++ header ++ cnt ++ topics, w) (λ _ s,
    s.1 = enc_count (length (header ++ enc_count n ++ topics)) ++ header ++ enc_count n ++ topics) never (λ _, False).
Proof.
  intros [H1 H2 H3 H4 H5] Ls Lc Hf. unfold CloseRequest. checks. wstep. rcbn. rewrite H4, H5. eapply wp_bind_Ret.
  { apply (vec_put_ok Buf (size ++ header) cnt _ topics);
      [by rewrite <- !app_assoc | solve_len | done | solve_len | solve_len]. }
  wstep. rcbn. rewrite <- !app_assoc. fold (enc_count n). set (body := header ++ enc_count n ++ topics).
  assert (length (size ++ body) - 4 = length body)%nat as Lb by (rewrite length_app; lia).
  assert (length body = length (header ++ cnt ++ topics)) as Lb' by (unfold body; solve_len).
  apply wp_massert; [apply Nat.ltb_lt; rewrite length_app; unfold body; solve_len |].
  apply wp_massert; [unfold fits32; rewrite Lb; boolia |]. rewrite Lb. eapply wp_bind_Ret.
  { apply (vec_put_ok Buf [] size _ body); [done | done | done | solve_len | solve_len]. }
  by eapply wp_Ret.
Qed.

Lemma OpenRequest_ok corr_id client_id required_acks replication_timeout v w :
  Z.of_nat (length client_id) ≤ INT16_MAX →
  let header := request_header corr_id client_id required_acks replication_timeout in
  wp (OpenRequest corr_id client_id required_acks replication_timeout) (v, w) (λ _ s,
    ∃ size cnt, length size = 4%nat ∧ length cnt = 4%nat ∧ s.1 = size ++ header ++ cnt ∧
      at_request (size ++ header ++ cnt) (4 + length header) 0 s.2) never (λ _, False).
Proof.
  intros Hc header. unfold OpenRequest. wstep. checks. apply wp_massert; [boolia |]. wstep. wstep. rcbn.
  set (total := vec_resize _ v). set (L := length client_id).
  assert (length total = (4 + 2 + 2 + 4 + 2 + L + 2 + 4 + 4)%nat) as Lt by apply vec_resize_length.
  assert (∃ z4 a b c d e f g h, total = z4 ++ a ++ b ++ c ++ d ++ e ++ f ++ g ++ h ∧ length z4 = 4%nat ∧ length a = 2%nat ∧
    length b = 2%nat ∧ length c = 4%nat ∧ length d = 2%nat ∧ length e = L ∧ length f = 2%nat ∧ length g = 4%nat ∧
    length h = 4%nat) as (z4 & a & b & c & d & e & f & g & h & Ht & L0 & L1 & L2 & L3 & L4 & L5 & L6 & L7 & L8).
  { clearbody total. revert Lt. clear. intros Lt.
    exists (take 4 total), (take 2 (drop 4 total)), (take 2 (drop 6 total)), (take 4 (drop 8 total)),
      (take 2 (drop 12 total)), (take L (drop 14 total)), (take 2 (drop (14 + L) total)),
      (take 4 (drop (16 + L) total)), (drop (20 + L) total).
    split; [| rewrite !length_take, !length_drop; lia].
    rewrite <- (take_drop 4 total) at 1. f_equal.
    rewrite <- (take_drop 2 (drop 4 total)) at 1. f_equal. rewrite drop_drop. cbn [Nat.add].
    rewrite <- (take_drop 2 (drop 6 total)) at 1. f_equal. rewrite drop_drop. cbn [Nat.add].
    rewrite <- (take_drop 4 (drop 8 total)) at 1. f_equal. rewrite drop_drop. cbn [Nat.add].
    rewrite <- (take_drop 2 (drop 12 total)) at 1. f_equal. rewrite drop_drop. cbn [Nat.add].
    rewrite <- (take_drop L (drop 14 total)) at 1. f_equal. rewrite drop_drop. cbn [Nat.add].
    rewrite <- (take_drop 2 (drop (14 + L) total)) at 1. f_equal. rewrite drop_drop.
    replace (14 + L + 2)%nat with (16 + L)%nat by lia.
    rewrite <- (take_drop 4 (drop (16 + L) total)) at 1. f_equal. rewrite drop_drop. f_equal. lia. }
  rewrite Ht. clearbody total. clear Lt Ht total. wstep.
  rwrite_step z4 a (b ++ c ++ d ++ e ++ f ++ g ++ h).
  rwrite_step (z4 ++ WriteInt16ToHeader 0) b (c ++ d ++ e ++ f ++ g ++ h).
  rwrite_step (z4 ++ WriteInt16ToHeader 0 ++ WriteInt16ToHeader 0) c (d ++ e ++ f ++ g ++ h).
  rwrite_step (z4 ++ WriteInt16ToHeader 0 ++ WriteInt16ToHeader 0 ++ WriteInt32ToHeader corr_id) d (e ++ f ++ g ++ h).
  set (k := WriteInt16ToHeader (size_or_minus_one L)).
  assert (length k = 2%nat) as Lk by apply length_WriteInt16.
  rwrite_step (z4 ++ WriteInt16ToHeader 0 ++ WriteInt16ToHeader 0 ++ WriteInt32ToHeader corr_id ++ k) e (f ++ g ++ h).
  rwrite_step (z4 ++ WriteInt16ToHeader 0 ++ WriteInt16ToHeader 0 ++ WriteInt32ToHeader corr_id ++ k ++ client_id)
    f (g ++ h).
  rwrite_step (z4 ++ WriteInt16ToHeader 0 ++ WriteInt16ToHeader 0 ++ WriteInt32ToHeader corr_id ++ k ++ client_id ++
    WriteInt16ToHeader required_acks) g h.
  wstep. wstep. eapply wp_Ret; [reflexivity |]. rcbn. exists z4, h. split_and!; [done | done | |].
  - unfold header, request_header. fold k. by rewrite <- !app_assoc.
  - unfold header, request_header. fold L k. split; rcbn; try done; solve_len.
Qed.

(** ** Writing a whole request *)

Context (ComputeCrc32 : list byte → Z).

Definition write_msg_set (p : Z * list wire_msg) : RW () :=
  OpenMsgSet p.1;;
  mmap (λ m : wire_msg, AddMsg ComputeCrc32 m.1.1 m.1.2 m.2) p.2;;
  CloseMsgSet.

Definition write_topic (t : list byte * list (Z * list wire_msg)) : RW () :=
  OpenTopic t.1;; mmap write_msg_set t.2;; CloseTopic.

Definition write_request (corr_id : Z) (client_id : list byte) (required_acks replication_timeout : Z)
    (ts : list (list byte * list (Z * list wire_msg))) : RW () :=
  OpenRequest corr_id client_id required_acks replication_timeout;;
  mmap write_topic ts;;
  CloseRequest.

Lemma length_enc_msg m : length (enc_msg ComputeCrc32 m) = (26 + length m.1.2 + length m.2)%nat.
Proof. unfold enc_msg, crc_area. destruct m as [[t k] x]. cbn [fst snd]. solve_len. Qed.

Lemma write_msgs_ok ms base items tco n pco k w :
  at_set base tco n pco k w → in_set base items (MsgSetWriter w) →
  Z.of_nat (length (enc_msg_set ComputeCrc32 ms)) ≤ INT32_MAX →
  wp (mmap (λ m : wire_msg, AddMsg ComputeCrc32 m.1.1 m.1.2 m.2) ms) (base ++ items, w) (λ _ s,
    s.1 = base ++ items ++ enc_msg_set ComputeCrc32 ms ∧ at_set base tco n pco k s.2 ∧
    in_set base (items ++ enc_msg_set ComputeCrc32 ms) (MsgSetWriter s.2)) never (λ _, False).
Proof.
  revert items w. induction ms as [| m ms IH]; intros items w Ha Hs Hf.
  - eapply wp_Ret; [reflexivity |]. unfold enc_msg_set. cbn. by rewrite app_nil_r.
  - unfold enc_msg_set in *. cbn [fmap list_fmap concat mmap] in *. rewrite length_app in Hf.
    pose proof (length_enc_msg m) as Hm. apply wp_bind. eapply wp_mono.
    { eapply delegate_wp; [exact Ha |]. apply AddMsg_ok; [exact Hs | lia | lia]. }
    intros u1 [v1 w1] [[Hs1 Hv1] Ha1]. cbn [fst snd] in *. subst v1. destruct m as [[t key] value]. cbn [fst snd] in *.
    apply wp_bind. eapply wp_mono; [apply (IH (items ++ enc_msg ComputeCrc32 (t, key, value))); [done | done | lia] |].
    intros u [v2 w2] (Hv2 & Ha2 & Hs2). eapply wp_Ret; [reflexivity |]. cbn [fst snd] in *.
    by rewrite <- !app_assoc in *.
Qed.

Lemma write_msg_set_ok p v tco n pco k w :
  at_topic v tco n pco k w → Z.of_nat (length (enc_partition ComputeCrc32 p)) ≤ INT32_MAX →
  wp (write_msg_set p) (v, w) (λ _ s,
    s.1 = v ++ enc_partition ComputeCrc32 p ∧ at_topic s.1 tco n pco (S k) s.2) never (λ _, False).
Proof.
  intros Ha Hf. unfold enc_partition in Hf. rewrite !length_app in Hf. apply wp_bind.
  eapply wp_mono; [by apply ROpenMsgSet_ok |].
  intros u0 [v1 w1] (Hv1 & Ha1 & Hs1). cbn [fst snd] in *. subst v1. apply wp_bind.
  set (base := v ++ _) in *. rewrite <- (app_nil_r base) at 1. eapply wp_mono; [apply write_msgs_ok; [done | done | lia] |].
  intros u [v2 w2] (Hv2 & Ha2 & Hs2). cbn [fst snd app] in *. subst v2.
  eapply wp_mono; [by apply RCloseMsgSet_ok; [| | | lia] |].
  intros u1 s. unfold enc_partition. auto.
Qed.

Lemma write_msg_sets_ok ps v tco n pco k w :
  at_topic v tco n pco k w → Z.of_nat (length (concat (enc_partition ComputeCrc32 <$> ps))) ≤ INT32_MAX →
  wp (mmap write_msg_set ps) (v, w) (λ _ s,
    s.1 = v ++ concat (enc_partition ComputeCrc32 <$> ps) ∧ at_topic s.1 tco n pco (k + length ps) s.2)
    never (λ _, False).
Proof.
  revert v k w. induction ps as [| p ps IH]; intros v k w Ha Hf.
  - eapply wp_Ret; [reflexivity |]. cbn. rewrite app_nil_r, Nat.add_0_r. done.
  - cbn [fmap list_fmap concat mmap length] in *. rewrite length_app in Hf. apply wp_bind.
    eapply wp_mono; [apply write_msg_set_ok; [done | lia] |].
    intros u [v1 w1] (Hv1 & Ha1). cbn [fst snd] in *. apply wp_bind. eapply wp_mono; [apply IH; [done | lia] |].
    intros u2 [v2 w2] (Hv2 & Ha2). eapply wp_Ret; [reflexivity |]. cbn [fst snd] in *.
    rewrite Hv2, Hv1, <- app_assoc. split; [done |]. rewrite Hv2, Hv1, <- app_assoc in Ha2.
    by rewrite <- Nat.add_succ_comm.
Qed.

Lemma write_topic_ok t v tco n w :
  at_request v tco n w → t.1 ≠ [] → Z.of_nat (length (enc_topic ComputeCrc32 t)) ≤ INT32_MAX →
  wp (write_topic t) (v, w) (λ _ s,
    s.1 = v ++ enc_topic ComputeCrc32 t ∧ at_request s.1 tco (S n) s.2) never (λ _, False).
Proof.
  intros Ha Hne Hf. unfold enc_topic in *. rewrite !length_app in Hf. apply wp_bind.
  eapply wp_mono; [by apply ROpenTopic_ok |].
  intros u0 [v1 w1] (Hv1 & Ha1). cbn [fst snd] in *. apply wp_bind.
  eapply wp_mono; [apply write_msg_sets_ok; [done | lia] |]. intros u [v2 w2] (Hv2 & Ha2). cbn [fst snd] in *.
  subst v2 v1. set (nm := WriteInt16ToHeader _) in *. set (parts := concat _) in *.
  replace ((v ++ nm ++ t.1 ++ replicate 4 x00) ++ parts) with (v ++ (nm ++ t.1) ++ replicate 4 x00 ++ parts) in *
    by (by rewrite <- !app_assoc).
  eapply wp_mono; [eapply RCloseTopic_ok; [| by rewrite length_replicate] |].
  - replace (length v + length (nm ++ t.1))%nat with (length v + 2 + length t.1)%nat; [exact Ha2 |].
    unfold nm. solve_len.
  - intros u3 [v3 w3] (Hv3 & Ha3). cbn [fst snd] in *. subst v3. by rewrite <- !app_assoc in *.
Qed.

Lemma Rwrite_topics_ok ts v tco n w :
  at_request v tco n w → Forall (λ t, t.1 ≠ []) ts →
  Z.of_nat (length (concat (enc_topic ComputeCrc32 <$> ts))) ≤ INT32_MAX →
  wp (mmap write_topic ts) (v, w) (λ _ s,
    s.1 = v ++ concat (enc_topic ComputeCrc32 <$> ts) ∧ at_request s.1 tco (n + length ts) s.2) never (λ _, False).
Proof.
  intros Ha Hts. revert v n w Ha. induction Hts as [| t ts Ht Hts IH]; intros v n w Ha Hf.
  - eapply wp_Ret; [reflexivity |]. cbn. rewrite app_nil_r, Nat.add_0_r. done.
  - cbn [fmap list_fmap concat mmap length] in *. rewrite length_app in Hf. apply wp_bind.
    eapply wp_mono; [apply write_topic_ok; [done | done | lia] |].
    intros u [v1 w1] (Hv1 & Ha1). cbn [fst snd] in *. apply wp_bind. eapply wp_mono; [apply IH; [done | lia] |].
    intros u2 [v2 w2] (Hv2 & Ha2). eapply wp_Ret; [reflexivity |]. cbn [fst snd] in *.
    rewrite Hv2, Hv1, <- app_assoc. split; [done |]. rewrite Hv2, Hv1, <- app_assoc in Ha2.
    by rewrite <- Nat.add_succ_comm.
Qed.
End request_proofs.

(** C33: The writers produce the format exactly.  For every request whose topics
    have names, whose client ID fits its 16-bit length and which fits its size field, the calls [OpenRequest],
    [OpenTopic], [OpenMsgSet], [AddMsg] ... [CloseRequest] fail no assertion,
    never write outside the vector (whatever it held before), and leave in it
    precisely the bytes of [enc_request]: sizes, counts and CRCs included. *)
Theorem produce_request_format ComputeCrc32 corr_id client_id required_acks replication_timeout ts v w :
  Z.of_nat (length client_id) ≤ INT16_MAX → Forall (λ t, t.1 ≠ []) ts →
  Z.of_nat (length (enc_request ComputeCrc32 corr_id client_id required_acks replication_timeout ts)) ≤ INT32_MAX →
  ∃ w', write_request ComputeCrc32 corr_id client_id required_acks replication_timeout ts (v, w) =
    (Ret (), (enc_request ComputeCrc32 corr_id client_id required_acks replication_timeout ts, w')).
Proof.
  intros Hc Hts Hf. cut (wp (write_request ComputeCrc32 corr_id client_id required_acks replication_timeout ts) (v, w)
    (λ _ s, s.1 = enc_request ComputeCrc32 corr_id client_id required_acks replication_timeout ts) never (λ _, False)).
  { unfold wp. destruct (write_request _ _ _ _ _ _ _) as [[[] | [] | f] [v' w']]; [| done]. cbn. intros ->. by exists w'. }
  unfold enc_request in *. rewrite !length_app in Hf. apply wp_bind. eapply wp_mono; [by apply OpenRequest_ok |].
  intros u0 [v1 w1] (size & cnt & Ls & Lc & Hv1 & Ha1). cbn [fst snd] in *. subst v1. apply wp_bind.
  eapply wp_mono; [apply Rwrite_topics_ok; [done | done | lia] |].
  intros u [v2 w2] (Hv2 & Ha2). cbn [fst snd] in *. subst v2. rewrite <- !app_assoc in *.
  apply CloseRequest_ok; [done | done | done |]. rewrite !length_app. rewrite length_enc_count in Hf. lia.
Qed.

Definition ex_topics : list (list byte * list (Z * list wire_msg)) :=
  [([x61; x62], [(0, [(CompressNone, [x01], [x02; x03]); (CompressGzip, [], [x04])]); (7, [])]); ([x63], [])].

Definition ex_crc (l : list byte) : Z := Z.of_nat (length l).

Lemma produce_request_format_witness :
  ∃ w', write_request ex_crc 5 [x64] (-1) 1000 ex_topics
      ([x00; x01], Request.mkWriter false Request.Idle 0 0 0 0 0 0 0 0 0 (MsgSet.mkWriter false MsgSet.Idle 0 0 0 0 0 0 0 0 0 0)) =
    (Ret (), (enc_request ex_crc 5 [x64] (-1) 1000 ex_topics, w')).
Proof.
  apply (produce_request_format ex_crc 5 [x64] (-1) 1000 ex_topics).
  - by vm_compute.
  - apply Forall_cons. split; [discriminate |]. apply Forall_cons. split; [discriminate | apply Forall_nil_2].
  - by vm_compute.
Defined.
