(* ===== verification/RequestFactory.v ===== *)
(** * Building produce requests

    [TProduceRequestFactory] and [TAnyPartitionChooser]
    ([dory/msg_dispatch/produce_request_factory], [any_partition_chooser]): the
    choice of the messages of a request and of the partitions of AnyPartition
    messages, and the serialization of the request, with compression.  The
    compression codecs ([dory/compress], around external libraries) and the CRC
    are parameters; messages' bytes are read from the pool.  Single-precision
    floats are those of [SpecFloat]. *)
From S2P Require Import Prelude FieldAccess Capped Msg AnomalyTracker BrokerMsgQueue Metadata Wire ProduceRequest.
From S2P Require Import ProduceResponse StdMap ResponseProcessor.
From Stdlib Require Import Floats.SpecFloat.

(** ** The chooser of partitions *)

Record TAnyPartitionChooser := mkChooser {
  Count : Z;
  Choice : option Z;
  ChoiceUsed : bool
}.

Definition TAnyPartitionChooser_new : TAnyPartitionChooser := mkChooser 0 None false.

(** [Choose]: the index of the choice is the count modulo the number of
    choices; the modulus of zero choices is fatal. *)
Definition Choose (broker_index : nat) (md : TMetadata) (topic : string) (c : TAnyPartitionChooser)
    : outcome Empty_set Z :=
  match FindPartitionChoices topic broker_index md with
  | Ret (Some choice_vec) =>
      match choice_vec !! Z.to_nat (Count c `mod` Z.of_nat (length choice_vec)) with
      | Some p => Ret p
      | None => Fault OutOfBounds
      end
  | Ret None => Fault Died
  | Throw e => Throw e
  | Fault f => Fault f
  end.

Definition GetChoice (broker_index : nat) (md : TMetadata) (topic : string) (c : TAnyPartitionChooser)
    : outcome Empty_set (Z * TAnyPartitionChooser) :=
  match Choice c with
  | Some p => Ret (p, c)
  | None =>
      match Choose broker_index md topic c with
      | Ret p => Ret (p, mkChooser (Count c) (Some p) (ChoiceUsed c))
      | Throw e => Throw e
      | Fault f => Fault f
      end
  end.

Definition SetChoiceUsed (c : TAnyPartitionChooser) : TAnyPartitionChooser :=
  mkChooser (Count c) (Choice c) true.

Definition ClearChoice (c : TAnyPartitionChooser) : TAnyPartitionChooser :=
  if ChoiceUsed c then mkChooser (uadd (Count c) 1) None false else mkChooser (Count c) None false.

(** ** Compression *)

(** [TCompressionCodecApi]; [None] is a [TError]. *)
Record TCompressionCodec := mkCodec {
  GetRealCompressionLevel : option Z → option Z;
  ComputeCompressedResultBufSpace : list byte → option Z → option nat;
  Compress : list byte → nat → option Z → option (list byte)
}.

Record TCompressionConf_TConf := mkCConf { Type_ : TCompressionType; MinSize : Z; Level : option Z }.

Record TCompressionConf := mkCompressionConf {
  SizeThresholdPercent : Z;
  DefaultTopicConfig : TCompressionConf_TConf;
  TopicConfigs : gmap string TCompressionConf_TConf
}.

Record TCompressionInfo := mkInfo {
  CompressionCodec : option TCompressionCodec;
  MinCompressionSize : Z;
  CompressionType : TCompressionType;
  CompressionLevel : option Z
}.

Record TTopicData := mkTopicData {
  CompressionInfo : TCompressionInfo;
  AnyPartitionChooser : TAnyPartitionChooser
}.

(** [static_cast<float>(n)] of a [size_t], division and [<=]. *)
Definition float_of (n : Z) : spec_float := binary_normalize 24 128 n 0 false.
Definition float_div : spec_float → spec_float → spec_float := SFdiv 24 128.

Definition MaxCompressionRatio (conf : TCompressionConf) : spec_float :=
  float_div (float_of (SizeThresholdPercent conf)) (float_of 100).

Definition ratio_accepted (max_ratio : spec_float) (compressed_size size : nat) : bool :=
  SFleb (float_div (float_of (Z.of_nat compressed_size)) (float_of (Z.of_nat size))) max_ratio.

(** ** State *)

(** What the constructor fixes. *)
Record factory_conf := mkFactoryConf {
  BrokerIndex : nat;
  ProduceRequestDataLimit : Z;
  MessageMaxBytes : Z;
  MaxRatio : spec_float;
  ClientId : list byte;
  ReplicationTimeout : Z
}.

(** [TProduceProto::ComputeConstants]. *)
Definition SingleMsgOverhead : Z := 8 + 4 + 4 + 1 + 1 + 4 + 4.

(** [Dst] is the caller's vector. *)
Record TProduceRequestFactory := mkFactory {
  RequestWriter : Request.TProduceRequestWriter;
  MsgSetWriter : MsgSet.TMsgSetWriter;
  DefaultTopicCompressionInfo : TCompressionInfo;
  FMetadata : option TMetadata;
  CorrIdCounter : Z;
  InputQueue : list (list TMsg);
  TopicDataMap : gmap string TTopicData;
  CompressionBuf : list byte;
  Dst : list byte
}.

(** The exceptions are those of the pool's reader. *)
Definition FM := M exn TProduceRequestFactory.

Definition set_queue (q : list (list TMsg)) : FM () := modify (λ f,
  mkFactory (RequestWriter f) (MsgSetWriter f) (DefaultTopicCompressionInfo f) (FMetadata f) (CorrIdCounter f) q
    (TopicDataMap f) (CompressionBuf f) (Dst f)).

Definition set_topic_data (t : gmap string TTopicData) : FM () := modify (λ f,
  mkFactory (RequestWriter f) (MsgSetWriter f) (DefaultTopicCompressionInfo f) (FMetadata f) (CorrIdCounter f)
    (InputQueue f) t (CompressionBuf f) (Dst f)).

Definition on_request {A} (m : Request.RW A) : FM A :=
  zoom (λ f, (Dst f, RequestWriter f))
    (λ s f, mkFactory s.2 (MsgSetWriter f) (DefaultTopicCompressionInfo f) (FMetadata f) (CorrIdCounter f)
       (InputQueue f) (TopicDataMap f) (CompressionBuf f) s.1) (no_throw m).

Definition on_compression {A} (m : MsgSet.MW A) : FM A :=
  zoom (λ f, (CompressionBuf f, MsgSetWriter f))
    (λ s f, mkFactory (RequestWriter f) s.2 (DefaultTopicCompressionInfo f) (FMetadata f) (CorrIdCounter f)
       (InputQueue f) (TopicDataMap f) s.1 (Dst f)) (no_throw m).

(** ** Queueing *)

Definition IsEmpty (f : TProduceRequestFactory) : bool := bool_decide (InputQueue f = []).

Definition Put_batch (batch : list TMsg) : FM () := f ← get; set_queue (InputQueue f ++ [batch]).
Definition Put_batches (bs : list (list TMsg)) : FM () := f ← get; set_queue (InputQueue f ++ bs).
Definition PutFront_batch (batch : list TMsg) : FM () := f ← get; set_queue (batch :: InputQueue f).
Definition PutFront_batches (bs : list (list TMsg)) : FM () := f ← get; set_queue (bs ++ InputQueue f).
Definition GetAll : FM (list (list TMsg)) := f ← get; set_queue [];; mret (InputQueue f).

(** ** Configuration *)

Section factory.
(** [GetCompressionCodec], Boost's CRC, the pool, and the constructor's
    constants. *)
Context (GetCompressionCodec : TCompressionType → option TCompressionCodec).
Context (ComputeCrc32 : list byte → Z) (pool : TPool) (conf : factory_conf).

Definition TCompressionInfo_new (c : TCompressionConf_TConf) : TCompressionInfo :=
  let codec := GetCompressionCodec (Type_ c) in
  mkInfo codec (MinSize c) (Type_ c) (codec ≫= λ k, GetRealCompressionLevel k (Level c)).

Definition TTopicData_new (info : TCompressionInfo) : TTopicData := mkTopicData info TAnyPartitionChooser_new.

Definition TopicDataMap_of (c : TCompressionConf) : gmap string TTopicData :=
  (λ k, TTopicData_new (TCompressionInfo_new k)) <$> TopicConfigs c.

Definition InitTopicDataMap (c : TCompressionConf) : FM () := set_topic_data (TopicDataMap_of c).

Definition TProduceRequestFactory_new (c : TCompressionConf) : TProduceRequestFactory :=
  mkFactory Request.TProduceRequestWriter_new MsgSet.TMsgSetWriter_new (TCompressionInfo_new (DefaultTopicConfig c)) None 0 []
    (TopicDataMap_of c) [] [].

Definition Init (c : TCompressionConf) (md : TMetadata) : FM () :=
  modify (λ f, mkFactory (RequestWriter f) (MsgSetWriter f) (TCompressionInfo_new (DefaultTopicConfig c)) (Some md) 0
    (InputQueue f) (TopicDataMap f) (CompressionBuf f) (Dst f));;
  InitTopicDataMap c.

Definition Reset : FM () :=
  modify (λ f, mkFactory (RequestWriter f) (MsgSetWriter f) (DefaultTopicCompressionInfo f) None 0
    (InputQueue f) ∅ (CompressionBuf f) (Dst f)).

(** The entry for [topic], created if needed. *)
Definition GetTopicData (topic : string) : FM TTopicData :=
  f ← get;
  match TopicDataMap f !! topic with
  | Some td => mret td
  | None =>
      let td := TTopicData_new (DefaultTopicCompressionInfo f) in
      set_topic_data (<[topic := td]> (TopicDataMap f));;
      mret td
  end.

(** ** The contents of a request *)

(** A change of the chooser of [topic]. *)
Definition on_chooser (topic : string) (g : TAnyPartitionChooser → TAnyPartitionChooser) : FM () :=
  f ← get;
  set_topic_data (alter (λ td, mkTopicData (CompressionInfo td) (g (AnyPartitionChooser td))) topic (TopicDataMap f)).

Definition get_choice (topic : string) : FM Z :=
  f ← get;
  td ← need NullDeref (TopicDataMap f !! topic);
  md ← need NullDeref (FMetadata f);
  match GetChoice (BrokerIndex conf) md topic (AnyPartitionChooser td) with
  | Ret (p, c) => on_chooser topic (λ _, c);; mret p
  | Throw e => match e with end
  | Fault x => crash x
  end.

Definition any_partition (msg : TMsg) : bool :=
  match RoutingType msg with AnyPartition => true | PartitionKey => false end.

Definition data_size (msg : TMsg) : Z := NumBytes (KeyAndValue msg).

Definition empty_set : TMsgSet := mkMsgSet 0 [].

(** [result[topic][partition]], changed by [g]. *)
Definition at_set_of (topic : string) (partition : Z) (g : TMsgSet → TMsgSet) (result : TAllTopics) : TAllTopics :=
  sm_upd String.ltb topic [] (sm_upd Z.ltb partition empty_set g) result.

Definition set_of (topic : string) (partition : Z) (result : TAllTopics) : TMsgSet :=
  default empty_set (sm_find topic result ≫= sm_find partition).

(** The message set with [msg] at its end; its size counts if it may be
    compressed. *)
Definition push_msg (compressed : bool) (new_size : Z) (msg : TMsg) (s : TMsgSet) : TMsgSet :=
  mkMsgSet (if compressed then new_size else DataSize s) (Contents s ++ [msg]).

Definition has_codec (td : TTopicData) : bool :=
  match CompressionCodec (CompressionInfo td) with Some _ => true | None => false end.

(** The result, and the size of the first message. *)
Definition AddFirstMsg : FM (TAllTopics * Z) :=
  f ← get;
  match InputQueue f with
  | [] => crash AssertFailed
  | [] :: _ => crash AssertFailed
  | (msg :: first_batch) :: q =>
      set_queue (if bool_decide (first_batch = []) then q else first_batch :: q);;
      let topic := Topic msg in
      topic_data ← GetTopicData topic;
      msg ← (if any_partition msg then
               p ← get_choice topic;
               on_chooser topic SetChoiceUsed;;
               mret (SetPartition p msg)
             else mret msg);
      mret (at_set_of topic (Partition msg)
              (push_msg (has_codec topic_data) (uadd (data_size msg) SingleMsgOverhead) msg) [],
            data_size msg)
  end.

(** Was the message consumed; the message, the size so far and the result. *)
Definition TryConsumeFrontMsg (msg : TMsg) (topic : string) (topic_data : TTopicData) (result_data_size : Z)
    (result : TAllTopics) : FM (bool * TMsg * Z * TAllTopics) :=
  msg ← (if any_partition msg then p ← get_choice topic; mret (SetPartition p msg) else mret msg);
  let new_result_data_size := uadd result_data_size (data_size msg) in
  if ProduceRequestDataLimit conf <? new_result_data_size then mret (false, msg, result_data_size, result)
  else
    let msg_set := set_of topic (Partition msg) result in
    let new_data_size := uadd (uadd (DataSize msg_set) (data_size msg)) SingleMsgOverhead in
    if has_codec topic_data && (MessageMaxBytes conf <? new_data_size) then
      massert (negb (bool_decide (Contents msg_set = [])));;
      massert (negb (DataSize msg_set =? 0));;
      mret (false, msg, result_data_size, result)
    else
      (if any_partition msg then on_chooser topic SetChoiceUsed else mret ());;
      mret (true, msg, new_result_data_size,
            at_set_of topic (Partition msg) (push_msg (has_codec topic_data) new_data_size msg) result).

(** The loop over a batch of topic [topic]: what is left of it, was the request
    full, and the size and the result.  A message of another topic is
    [MultipleTopicBugFixup], which asserts. *)
Fixpoint consume_batch (batch : list TMsg) (topic : string) (topic_data : TTopicData) (size : Z) (result : TAllTopics)
    : FM (list TMsg * bool * Z * TAllTopics) :=
  match batch with
  | [] => mret ([], false, size, result)
  | msg :: rest =>
      if bool_decide (Topic msg = topic) then
        '(consumed, msg, size, result) ← TryConsumeFrontMsg msg topic topic_data size result;
        if consumed : bool then consume_batch rest topic topic_data size result
        else mret (msg :: rest, true, size, result)
      else crash AssertFailed
  end.

(** The loop over the batches: the batches left and the result. *)
Fixpoint consume_queue (q : list (list TMsg)) (size : Z) (result : TAllTopics) : FM (list (list TMsg) * TAllTopics) :=
  match q with
  | [] => mret ([], result)
  | [] :: _ => crash AssertFailed
  | (msg :: _) as next_batch :: q =>
      topic_data ← GetTopicData (Topic msg);
      '(rest, full, size, result) ← consume_batch next_batch (Topic msg) topic_data size result;
      if full : bool then mret (rest :: q, result) else consume_queue q size result
  end.

(** [SanityCheckRequestContents]: an empty message set or group asserts. *)
Definition SanityCheckRequestContents (contents : TAllTopics) : FM () :=
  massert (forallb (λ t : string * TMultiPartitionGroup,
    negb (bool_decide (t.2 = [])) &&
    forallb (λ p : Z * TMsgSet, negb (bool_decide (Contents p.2 = []))) t.2) contents).

Definition BuildRequestContents : FM TAllTopics :=
  f ← get;
  massert (negb (bool_decide (InputQueue f = [])));;
  '(result, result_data_size) ← AddFirstMsg;
  result ←
    (if result_data_size <? ProduceRequestDataLimit conf then
       f ← get;
       '(q, result) ← consume_queue (InputQueue f) result_data_size result;
       set_queue q;;
       mret result
     else mret result);
  mmap (λ t : string * TMultiPartitionGroup, GetTopicData t.1;; on_chooser t.1 ClearChoice) result;;
  SanityCheckRequestContents result;;
  mret result.

(** ** Serialization *)

(** [WriteKey] and [WriteValue] of [dory/util/msg_util]: the bytes that they
    read. *)
Definition read_key (msg : TMsg) : M exn TReader (list byte) := Read pool (Z.to_nat (KeySize msg)).

Definition read_value (msg : TMsg) : M exn TReader (list byte) :=
  Skip pool (Z.to_nat (KeySize msg));; Read pool (Z.to_nat (GetValueSize msg)).

Definition with_reader_of {A} (msg : TMsg) (m : M exn TReader A) : FM A := λ f,
  (match (m (TReader_new (KeyAndValue msg))).1 with Ret a => Ret a | Throw e => Throw e | Fault x => Fault x end, f).

Definition write_dst (offset : nat) (bytes : list byte) : FM () :=
  f ← get;
  v ← need OutOfBounds (vec_write offset bytes (Dst f));
  modify (λ f, mkFactory (RequestWriter f) (MsgSetWriter f) (DefaultTopicCompressionInfo f) (FMetadata f)
    (CorrIdCounter f) (InputQueue f) (TopicDataMap f) (CompressionBuf f) v).

Definition write_compression (offset : nat) (bytes : list byte) : FM () :=
  f ← get;
  v ← need OutOfBounds (vec_write offset bytes (CompressionBuf f));
  modify (λ f, mkFactory (RequestWriter f) (MsgSetWriter f) (DefaultTopicCompressionInfo f) (FMetadata f)
    (CorrIdCounter f) (InputQueue f) (TopicDataMap f) v (Dst f)).

(** The body of the loops of [SerializeUncompressedMsgSet] and
    [SerializeToCompressionBuf], which differ in the writer and the buffer. *)
Definition serialize_with (open : nat → nat → FM ()) (get_key_offset get_value_offset : FM nat)
    (buf : TProduceRequestFactory → list byte) (put : nat → list byte → FM ()) (close : FM ()) (msg : TMsg) : FM () :=
  let key_size := Z.to_nat (KeySize msg) in
  let value_size := Z.to_nat (GetValueSize msg) in
  open key_size value_size;;
  key_offset ← get_key_offset;
  f ← get;
  massert (key_offset <=? length (buf f))%nat;;
  massert (key_size <=? length (buf f) - key_offset)%nat;;
  value_offset ← get_value_offset;
  massert (value_offset <=? length (buf f))%nat;;
  massert (length (buf f) - value_offset =? value_size)%nat;;
  key ← with_reader_of msg (read_key msg);
  put key_offset key;;
  value ← with_reader_of msg (read_value msg);
  put value_offset value;;
  close.

Definition serialize_msg : TMsg → FM () :=
  serialize_with (λ ks vs, on_request (Request.OpenMsg CompressNone ks vs))
    (on_request Request.GetCurrentMsgKeyOffset) (on_request Request.GetCurrentMsgValueOffset)
    Dst write_dst (on_request (Request.CloseMsg ComputeCrc32)).

Definition SerializeUncompressedMsgSet (msg_set : list TMsg) : FM () :=
  massert (negb (bool_decide (msg_set = [])));;
  mmap serialize_msg msg_set;;
  mret ().

Definition serialize_msg_compression : TMsg → FM () :=
  serialize_with (λ ks vs, on_compression (MsgSet.OpenMsg CompressNone ks vs))
    (on_compression MsgSet.GetCurrentMsgKeyOffset) (on_compression MsgSet.GetCurrentMsgValueOffset)
    CompressionBuf write_compression (on_compression (MsgSet.CloseMsg ComputeCrc32)).

Definition SerializeToCompressionBuf (msg_set : list TMsg) : FM () :=
  massert (negb (bool_decide (msg_set = [])));;
  on_compression (MsgSet.OpenMsgSet false);;
  mmap serialize_msg_compression msg_set;;
  on_compression MsgSet.CloseMsgSet;;
  mret ().

(** Was the set written compressed.  The codec's error is caught; a message that
    was opened is rolled back then. *)
Definition write_compressed (codec : TCompressionCodec) (info : TCompressionInfo) : FM bool :=
  f ← get;
  let buf := CompressionBuf f in
  match ComputeCompressedResultBufSpace codec buf (CompressionLevel info) with
  | None => mret false
  | Some max_compressed_size =>
      on_request (Request.OpenMsg (CompressionType info) 0 max_compressed_size);;
      value_offset ← on_request Request.GetCurrentMsgValueOffset;
      f ← get;
      massert (value_offset <=? length (Dst f))%nat;;
      massert (length (Dst f) - value_offset =? max_compressed_size)%nat;;
      match Compress codec buf max_compressed_size (CompressionLevel info) with
      | None => on_request Request.RollbackOpenMsg;; mret false
      | Some compressed =>
          write_dst value_offset compressed;;
          if ratio_accepted (MaxRatio conf) (length compressed) (length buf) then
            on_request (Request.AdjustValueSize (length compressed));;
            on_request (Request.CloseMsg ComputeCrc32);;
            mret true
          else on_request Request.RollbackOpenMsg;; mret false
      end
  end.

Definition WriteOneMsgSet (msg_set : TMsgSet) (info : TCompressionInfo) : FM () :=
  written ←
    match CompressionCodec info with
    | Some codec =>
        if MinCompressionSize info <=? DataSize msg_set then
          SerializeToCompressionBuf (Contents msg_set);; write_compressed codec info
        else mret false
    | None => mret false
    end;
  if written : bool then mret () else SerializeUncompressedMsgSet (Contents msg_set).

Definition write_partition_group (topic : string) (p : Z * TMsgSet) : FM () :=
  on_request (Request.OpenMsgSet p.1);;
  td ← GetTopicData topic;
  WriteOneMsgSet p.2 (CompressionInfo td);;
  on_request Request.CloseMsgSet.

Definition write_topic_group (t : string * TMultiPartitionGroup) : FM () :=
  on_request (Request.OpenTopic (String.list_byte_of_string t.1));;
  massert (negb (bool_decide (t.2 = [])));;
  mmap (write_partition_group t.1) t.2;;
  on_request Request.CloseTopic.

(** [None] when there are no messages. *)
Definition BuildRequest : FM (option TProduceRequest) :=
  f ← get;
  if IsEmpty f then mret None
  else
    corr_id ← int32_arith (CorrIdCounter f + 1);
    modify (λ f, mkFactory (RequestWriter f) (MsgSetWriter f) (DefaultTopicCompressionInfo f) (FMetadata f) corr_id
      (InputQueue f) (TopicDataMap f) (CompressionBuf f) (Dst f));;
    all_topics ← BuildRequestContents;
    massert (negb (bool_decide (all_topics = [])));;
    on_request (Request.OpenRequest corr_id (ClientId conf) (-1) (swrap 32 (ReplicationTimeout conf)));;
    mmap write_topic_group all_topics;;
    on_request Request.CloseRequest;;
    mret (Some (corr_id, all_topics)).
End factory.

(** ** What a request consists of *)

Section contents.
Context (conf : factory_conf).

Definition chooser_of (f : TProduceRequestFactory) (topic : string) : TAnyPartitionChooser :=
  default TAnyPartitionChooser_new (AnyPartitionChooser <$> TopicDataMap f !! topic).

Definition info_of (f : TProduceRequestFactory) (topic : string) : TCompressionInfo :=
  default (DefaultTopicCompressionInfo f) (CompressionInfo <$> TopicDataMap f !! topic).

Definition compresses (f : TProduceRequestFactory) (topic : string) : bool :=
  match CompressionCodec (info_of f topic) with Some _ => true | None => false end.

(** The partitions of a topic that the broker takes. *)
Definition choices (f : TProduceRequestFactory) (topic : string) : option (list Z) :=
  md ← FMetadata f;
  match FindPartitionChoices topic (BrokerIndex conf) md with Ret o => o | _ => None end.

(** The partition that AnyPartition messages of a topic get in the next
    request. *)
Definition choice_of (f : TProduceRequestFactory) (topic : string) : option Z :=
  match Choice (chooser_of f topic) with
  | Some p => Some p
  | None => l ← choices f topic; l !! Z.to_nat (Count (chooser_of f topic) `mod` Z.of_nat (length l))
  end.

Definition assign (f : TProduceRequestFactory) (m : TMsg) : TMsg :=
  if any_partition m then SetPartition (default 0 (choice_of f (Topic m))) m else m.

Definition total (l : list TMsg) : Z := sumZ (data_size <$> l).

Definition add_msg (f : TProduceRequestFactory) (r : TAllTopics) (m : TMsg) : TAllTopics :=
  at_set_of (Topic m) (Partition m) (push_msg (compresses f (Topic m))
    (uadd (uadd (DataSize (set_of (Topic m) (Partition m) r)) (data_size m)) SingleMsgOverhead) m) r.

(** The messages [l], grouped by topic and partition. *)
Definition group (f : TProduceRequestFactory) (l : list TMsg) : TAllTopics := foldl (add_msg f) [] l.

(** Does [m] fit into a request with the messages [l]. *)
Definition fits (f : TProduceRequestFactory) (l : list TMsg) (m : TMsg) : bool :=
  (total (l ++ [m]) <=? ProduceRequestDataLimit conf) &&
  negb (compresses f (Topic m) &&
        (MessageMaxBytes conf <? uadd (uadd (DataSize (set_of (Topic m) (Partition m) (group f l))) (data_size m))
                                   SingleMsgOverhead)).

Fixpoint all_fit (f : TProduceRequestFactory) (l ms : list TMsg) : Prop :=
  match ms with
  | [] => True
  | m :: ms => fits f l m = true ∧ all_fit f (l ++ [m]) ms
  end.

Definition uses (l : list TMsg) (topic : string) : bool :=
  existsb (λ m, any_partition m && bool_decide (Topic m = topic)) l.

(** [f'] is [f] while it builds a request that consumed [l]. *)
Record steady (f : TProduceRequestFactory) (l : list TMsg) (f' : TProduceRequestFactory) : Prop := {
  st_md : FMetadata f' = FMetadata f;
  st_default : DefaultTopicCompressionInfo f' = DefaultTopicCompressionInfo f;
  st_corr : CorrIdCounter f' = CorrIdCounter f;
  st_writers : RequestWriter f' = RequestWriter f ∧ MsgSetWriter f' = MsgSetWriter f;
  st_bufs : CompressionBuf f' = CompressionBuf f ∧ Dst f' = Dst f;
  st_info : ∀ t, info_of f' t = info_of f t;
  st_choice : ∀ t, choice_of f' t = choice_of f t;
  st_count : ∀ t, Count (chooser_of f' t) = Count (chooser_of f t);
  st_used : ∀ t, ChoiceUsed (chooser_of f' t) = ChoiceUsed (chooser_of f t) || uses l t
}.

Lemma steady_refl f : steady f [] f.
Proof. split; try done. intros t. cbn. by rewrite orb_false_r. Qed.

Lemma chooser_of_set f t td t' :
  chooser_of (set_topic_data (<[t := td]> (TopicDataMap f)) f).2 t' =
  if decide (t' = t) then AnyPartitionChooser td else chooser_of f t'.
Proof.
  unfold chooser_of. cbn. case_decide as Hd; [subst t'; by rewrite lookup_insert_eq |].
  by rewrite lookup_insert_ne.
Qed.

(** A step that changes the data of one topic. *)
Lemma steady_topic f l l' f1 t td :
  steady f l f1 → CompressionInfo td = info_of f1 t →
  Count (AnyPartitionChooser td) = Count (chooser_of f1 t) →
  (Choice (AnyPartitionChooser td) = Choice (chooser_of f1 t) ∨ Choice (AnyPartitionChooser td) = choice_of f1 t) →
  ChoiceUsed (AnyPartitionChooser td) = ChoiceUsed (chooser_of f t) || uses l' t →
  (∀ t', t' ≠ t → uses l' t' = uses l t') →
  ∀ f2, (set_topic_data (<[t := td]> (TopicDataMap f1)) f1).2 = f2 → steady f l' f2.
Proof.
  intros [H1 H2 H3 H4 H5 H6 H7 H8 H9] Ei Ec Eo Eu Hu f2 <-.
  pose proof (chooser_of_set f1 t td) as Hc. split; try done; intros t'; rewrite ?Hc.
  - rewrite <- H6. unfold info_of. cbn. destruct (decide (t' = t)) as [-> | Hne].
    + rewrite lookup_insert_eq. exact Ei.
    + by rewrite lookup_insert_ne.
  - rewrite <- H7. unfold choice_of at 1. rewrite Hc. case_decide as Hd; [| done]. subst t'.
    change (choices _ t) with (choices f1 t). rewrite Ec. destruct Eo as [-> | Eo]; [done |].
    rewrite Eo. unfold choice_of. destruct (Choice (chooser_of f1 t)); [done |]. by destruct (choices f1 t ≫= _).
  - rewrite <- H8. case_decide; [by subst t' | done].
  - case_decide; [by subst t' |]. by rewrite H9, Hu.
Qed.

Lemma uses_app l k t : uses (l ++ k) t = uses l t || uses k t.
Proof. apply existsb_app. Qed.

Context (T : exn → TProduceRequestFactory → Prop) (F : fault → Prop).

(** [f2] has the queue of [f1] and the topics of [f1]. *)
Definition keeps (f1 f2 : TProduceRequestFactory) : Prop :=
  InputQueue f2 = InputQueue f1 ∧ ∀ t, is_Some (TopicDataMap f1 !! t) → is_Some (TopicDataMap f2 !! t).

#[local] Instance keeps_refl : Reflexive keeps.
Proof. done. Qed.

#[local] Instance keeps_trans : Transitive keeps.
Proof. intros f1 f2 f3 [E1 H1] [E2 H2]. split; [congruence | auto]. Qed.

Lemma keeps_insert f1 t td : keeps f1 (set_topic_data (<[t := td]> (TopicDataMap f1)) f1).2.
Proof.
  split; [done |]. intros t' Ht'. cbn. destruct (decide (t' = t)) as [-> | Hne].
  - rewrite lookup_insert_eq. by eexists.
  - by rewrite lookup_insert_ne.
Qed.

Lemma GetTopicData_wp f l f1 t :
  steady f l f1 →
  wp (GetTopicData t) f1 (λ td f2, steady f l f2 ∧ keeps f1 f2 ∧ has_codec td = compresses f t ∧
    CompressionInfo td = info_of f t ∧ is_Some (TopicDataMap f2 !! t)) T F.
Proof.
  intros Hs. unfold GetTopicData. wstep. pose proof (st_info _ _ _ Hs t) as Hi. unfold info_of at 1 in Hi.
  destruct (TopicDataMap f1 !! t) as [td |] eqn:Ht; cbn in Hi.
  - eapply wp_Ret; [reflexivity |]. split_and!; [done | done | | done | by eexists].
    unfold has_codec, compresses. by rewrite Hi.
  - wstep. eapply wp_Ret; [reflexivity |]. split_and!.
    + assert (chooser_of f1 t = TAnyPartitionChooser_new) as Hc by (unfold chooser_of; by rewrite Ht).
      apply (steady_topic f l l f1 t (TTopicData_new (DefaultTopicCompressionInfo f1))); [done | | by rewrite Hc | left; by rewrite Hc | | done | reflexivity].
      * cbn. unfold info_of. by rewrite Ht.
      * cbn. pose proof (st_used _ _ _ Hs t) as Hu. by rewrite Hc in Hu.
    + apply keeps_insert.
    + unfold has_codec, compresses. by rewrite <- Hi.
    + done.
    + cbn. rewrite lookup_insert_eq. by eexists.
Qed.

Lemma alter_insert {A} (g : A → A) (m : gmap string A) t x : m !! t = Some x → alter g t m = <[t := g x]> m.
Proof.
  intros Hx. apply map_eq. intros t'. destruct (decide (t' = t)) as [-> | Hne].
  - by rewrite lookup_alter_eq, lookup_insert_eq, Hx.
  - by rewrite lookup_alter_ne, lookup_insert_ne.
Qed.

Lemma get_choice_wp f l f1 t p :
  steady f l f1 → is_Some (TopicDataMap f1 !! t) → is_Some (choices f t) → choice_of f t = Some p →
  wp (get_choice conf t) f1 (λ p' f2, p' = p ∧ steady f l f2 ∧ keeps f1 f2) T F.
Proof.
  intros Hs [td Htd] [ch Hch] Hp. unfold get_choice. wstep. eapply wp_bind_Ret; [by rewrite Htd |].
  rewrite <- (st_choice _ _ _ Hs) in Hp. pose proof (st_md _ _ _ Hs) as Hm. unfold choices in Hch.
  destruct (FMetadata f) as [md |] eqn:Hmd; [| done]. cbn in Hch. eapply wp_bind_Ret; [by rewrite Hm |].
  assert (chooser_of f1 t = AnyPartitionChooser td) as Hc by (unfold chooser_of; by rewrite Htd).
  assert (choices f1 t = Some ch) as Hch1 by (unfold choices; rewrite Hm; exact Hch).
  destruct (FindPartitionChoices t (BrokerIndex conf) md) as [o | [] | x] eqn:Hf; [subst o | done].
  unfold choice_of in Hp. rewrite Hc, Hch1 in Hp.
  assert (GetChoice (BrokerIndex conf) md t (AnyPartitionChooser td) =
    Ret (p, mkChooser (Count (AnyPartitionChooser td)) (Some p) (ChoiceUsed (AnyPartitionChooser td)))) as ->.
  { unfold GetChoice, Choose. destruct (AnyPartitionChooser td) as [c [p' |] u]; cbn in *; [by injection Hp as -> |].
    rewrite Hf. by rewrite Hp. }
  unfold on_chooser. eapply wp_bind_Ret.
  { unfold FM. erewrite bind_Ret by reflexivity. cbv beta. rewrite (alter_insert _ _ _ _ Htd). reflexivity. }
  eapply wp_Ret; [reflexivity |]. split; [done |]. split.
  - apply (steady_topic f l l f1 t (mkTopicData (CompressionInfo td)
      (mkChooser (Count (AnyPartitionChooser td)) (Some p) (ChoiceUsed (AnyPartitionChooser td)))));
      [done | | | right | | done | reflexivity]; cbn.
    + unfold info_of. by rewrite Htd.
    + by rewrite Hc.
    + unfold choice_of. by rewrite Hc, Hch1.
    + rewrite <- (st_used _ _ _ Hs). by rewrite Hc.
  - apply (keeps_insert f1 t (mkTopicData (CompressionInfo td) _)).
Qed.

Lemma choice_used_wp f l f1 t m :
  steady f l f1 → is_Some (TopicDataMap f1 !! t) → any_partition m = true → Topic m = t →
  wp (on_chooser t SetChoiceUsed) f1 (λ _ f2, steady f (l ++ [m]) f2 ∧ keeps f1 f2) T F.
Proof.
  intros Hs [td Htd] Ha Ht. unfold on_chooser. wstep. rewrite (alter_insert _ _ _ _ Htd).
  assert (chooser_of f1 t = AnyPartitionChooser td) as Hc by (unfold chooser_of; by rewrite Htd).
  eapply wp_Ret; [reflexivity |]. split.
  - apply (steady_topic f l (l ++ [m]) f1 t (mkTopicData (CompressionInfo td) (SetChoiceUsed (AnyPartitionChooser td)))); [done | | | left | | | reflexivity]; cbn.
    + unfold info_of. by rewrite Htd.
    + by rewrite Hc.
    + by rewrite Hc.
    + rewrite uses_app. cbn. rewrite Ha, bool_decide_true by done. cbn. by rewrite !orb_true_r.
    + intros t' Hne. rewrite uses_app. cbn. rewrite (bool_decide_false (Topic m = t')) by congruence.
      by rewrite andb_false_r, !orb_false_r.
  - apply (keeps_insert f1 t (mkTopicData (CompressionInfo td) _)).
Qed.

Lemma steady_unused f l f1 m : steady f l f1 → any_partition m = false → steady f (l ++ [m]) f1.
Proof.
  intros [H1 H2 H3 H4 H5 H6 H7 H8 H9] Ha. split; try done. intros t. rewrite H9, uses_app. cbn.
  by rewrite Ha, orb_false_r.
Qed.

(** An AnyPartition message needs a partition to go to. *)
Definition sendable (f : TProduceRequestFactory) (m : TMsg) : Prop :=
  any_partition m = true → ∃ ch, choices f (Topic m) = Some ch ∧ ch ≠ [].

Lemma sendable_choice f m :
  sendable f m → any_partition m = true → is_Some (choices f (Topic m)) ∧ is_Some (choice_of f (Topic m)).
Proof.
  intros Hs Ha. destruct (Hs Ha) as (ch & Hch & Hne). split; [by eexists |]. unfold choice_of. rewrite Hch.
  destruct (Choice (chooser_of f (Topic m))); [by eexists |]. cbn. apply lookup_lt_is_Some_2.
  assert (0 < Z.of_nat (length ch)) by (destruct ch; [done | cbn; lia]).
  pose proof (Z.mod_pos_bound (Count (chooser_of f (Topic m))) (Z.of_nat (length ch))). lia.
Qed.

(** The choice of a partition for a message of a topic that has its data. *)
Lemma assign_wp f l f1 m :
  steady f l f1 → is_Some (TopicDataMap f1 !! Topic m) → sendable f m →
  wp (if any_partition m then p ← get_choice conf (Topic m); mret (SetPartition p m) else mret m) f1
    (λ m' f2, m' = assign f m ∧ steady f l f2 ∧ keeps f1 f2) T F.
Proof.
  intros Hs Htd Hm. unfold assign. destruct (any_partition m) eqn:Ha; [| by eapply wp_Ret].
  destruct (sendable_choice f m Hm Ha) as [Hc [p Hp]]. apply wp_bind. eapply wp_mono; [by apply get_choice_wp |].
  intros p' f2 (-> & Hs2 & Hk2). eapply wp_Ret; [reflexivity |]. by rewrite Hp.
Qed.

Lemma assign_fields f m :
  Topic (assign f m) = Topic m ∧ any_partition (assign f m) = any_partition m ∧
  data_size (assign f m) = data_size m ∧ RoutingType (assign f m) = RoutingType m.
Proof. unfold assign. by destruct (any_partition m) eqn:E. Qed.

Lemma group_snoc f l m : group f (l ++ [m]) = add_msg f (group f l) m.
Proof. unfold group. by rewrite foldl_app. Qed.

Lemma total_snoc l m : total (l ++ [m]) = total l + data_size m.
Proof. unfold total. rewrite fmap_app, sumZ_app. cbn. lia. Qed.

Definition next_size (f : TProduceRequestFactory) (l : list TMsg) (m : TMsg) : Z :=
  uadd (uadd (DataSize (set_of (Topic m) (Partition m) (group f l))) (data_size m)) SingleMsgOverhead.

(** The set that a message is too big for is not empty. *)
Definition small (f : TProduceRequestFactory) (l : list TMsg) (m : TMsg) : Prop :=
  compresses f (Topic m) = true → MessageMaxBytes conf < next_size f l m →
  Contents (set_of (Topic m) (Partition m) (group f l)) ≠ [] ∧
  DataSize (set_of (Topic m) (Partition m) (group f l)) ≠ 0.

Lemma TryConsume_wp f l f1 m td :
  steady f l f1 → is_Some (TopicDataMap f1 !! Topic m) → has_codec td = compresses f (Topic m) → sendable f m →
  0 ≤ data_size m → 0 ≤ total l → total l + data_size m < 2 ^ 64 → small f l (assign f m) →
  wp (TryConsumeFrontMsg conf m (Topic m) td (total l) (group f l)) f1
    (λ x f2, x.1.1.2 = assign f m ∧ keeps f1 f2 ∧ x.1.1.1 = fits f l (assign f m) ∧
      let l' := if x.1.1.1 then l ++ [assign f m] else l in
      x.1.2 = total l' ∧ x.2 = group f l' ∧ steady f l' f2) T F.
Proof.
  intros Hs Htd Hc Hm H0 H1 H2 Hsm. destruct (assign_fields f m) as (E1 & E2 & E3 & _).
  apply wp_bind. eapply wp_mono; [by apply (assign_wp f l) |].
  intros m' f2 (-> & Hs2 & Hk2). unfold fits, small, next_size in *. rewrite total_snoc, E3, ?E1 in *.
  rewrite uadd_small by lia. destruct (Z.ltb_spec (ProduceRequestDataLimit conf) (total l + data_size m)) as [Hl | Hl].
  { eapply wp_Ret; [reflexivity |]. cbn. rewrite (proj2 (Z.leb_gt _ _)) by lia. by split_and!. }
  rewrite (proj2 (Z.leb_le _ _)) by lia. rewrite Hc. set (big := compresses f (Topic m) && _). cbn [andb].
  destruct big eqn:Hb.
  - apply andb_prop in Hb as [Hb1 Hb2%Z.ltb_lt]. destruct (Hsm Hb1 Hb2) as [Hne Hnz].
    apply wp_massert; [by rewrite bool_decide_false |]. apply wp_massert; [by rewrite (proj2 (Z.eqb_neq _ _)) |].
    eapply wp_Ret; [reflexivity |]. cbn. by split_and!.
  - rewrite E2. apply wp_bind. apply wp_mono with (Q := λ _ f3, steady f (l ++ [assign f m]) f3 ∧ keeps f1 f3).
    + destruct (any_partition m) eqn:Ha.
      * eapply wp_mono; [apply (choice_used_wp f l f2 (Topic m) (assign f m)); [done | by apply Hk2 | by rewrite E2 | done] |].
        intros _ f3 [? ?]. split; [done | by etrans].
      * eapply wp_Ret; [reflexivity |]. split; [| done]. apply steady_unused; [done | by rewrite E2].
    + intros _ f3 [Hs3 Hk3]. eapply wp_Ret; [reflexivity |]. cbn [fst snd negb]. rewrite total_snoc, E3, group_snoc. unfold add_msg.
      rewrite E1, E3. by split_and!.
Qed.

(** What is left of the queue may begin with a message that was given a
    partition. *)
Definition unassigned (m : TMsg) : TMsg := if any_partition m then SetPartition 0 m else m.

Lemma unassigned_assign f m : unassigned (assign f m) = unassigned m.
Proof.
  unfold unassigned, assign. destruct (any_partition m) eqn:E; [| by rewrite E].
  change (any_partition (SetPartition _ m)) with (any_partition m). by rewrite E.
Qed.

(** The conditions on the messages [ms] that may be added to [l]. *)
Definition queued_ok (f : TProduceRequestFactory) (l ms : list TMsg) : Prop :=
  Forall (sendable f) ms ∧ Forall (λ m, 0 ≤ data_size m) ms ∧ 0 ≤ total l ∧ total l + total ms < 2 ^ 64 ∧
  ∀ a m b, ms = a ++ m :: b → all_fit f l (assign f <$> a) → small f (l ++ (assign f <$> a)) (assign f m).

Lemma queued_ok_cons f l m ms :
  queued_ok f l (m :: ms) →
  sendable f m ∧ 0 ≤ data_size m ∧ 0 ≤ total l ∧ total l + data_size m < 2 ^ 64 ∧ small f l (assign f m) ∧
  (fits f l (assign f m) = true → queued_ok f (l ++ [assign f m]) ms).
Proof.
  intros (H1 & H2 & H3 & H4 & H5). apply Forall_cons in H1 as [Hm H1]. apply Forall_cons in H2 as [H0 H2].
  assert (0 ≤ total ms) by (apply sumZ_nonneg, Forall_fmap; exact H2).
  assert (total (m :: ms) = data_size m + total ms) as Ht by done. rewrite Ht in H4.
  split_and!; [done | done | done | lia | |].
  - pose proof (H5 [] m ms eq_refl I) as Hs. by rewrite app_nil_r in Hs.
  - intros Hfit. destruct (assign_fields f m) as (_ & _ & E3 & _).
    split_and!; [done | done | rewrite total_snoc; lia | rewrite total_snoc; lia |].
    intros a m' b -> Ha. rewrite <- app_assoc. apply (H5 (m :: a) m' b); [done |]. by split.
Qed.

Lemma queued_ok_app f l a b :
  queued_ok f l (a ++ b) → all_fit f l (assign f <$> a) → queued_ok f (l ++ (assign f <$> a)) b.
Proof.
  revert l. induction a as [| m a IH]; intros l Hq Ha; [by rewrite app_nil_r |].
  destruct Ha as [Hf Ha]. apply queued_ok_cons in Hq as (_ & _ & _ & _ & _ & Hq).
  specialize (IH _ (Hq Hf) Ha). by rewrite <- app_assoc in IH.
Qed.

Lemma consume_batch_wp f l f1 batch t td :
  steady f l f1 → is_Some (TopicDataMap f1 !! t) → has_codec td = compresses f t → Forall (λ m, Topic m = t) batch →
  (∃ b, queued_ok f l (batch ++ b)) →
  wp (consume_batch conf batch t td (total l) (group f l)) f1
    (λ x f2, ∃ a b, batch = a ++ b ∧ all_fit f l (assign f <$> a) ∧ keeps f1 f2 ∧
      let l' := l ++ (assign f <$> a) in
      x.1.2 = total l' ∧ x.2 = group f l' ∧ steady f l' f2 ∧
      if x.1.1.2 then ∃ m b', b = m :: b' ∧ x.1.1.1 = assign f m :: b' ∧ fits f l' (assign f m) = false
      else b = []) T F.
Proof.
  revert l f1. induction batch as [| m batch IH]; intros l f1 Hs Htd Hc Hb [b Hq].
  { eapply wp_Ret; [reflexivity |]. exists [], []. cbn [fmap list_fmap fst snd]. rewrite !app_nil_r. by split_and!. }
  apply Forall_cons in Hb as [Hm Hb]. cbn [app] in Hq.
  destruct (queued_ok_cons _ _ _ _ Hq) as (Q1 & Q2 & Q3 & Q4 & Q5 & Q6). cbn [consume_batch].
  rewrite bool_decide_true by done. subst t. apply wp_bind. eapply wp_mono; [by apply TryConsume_wp |].
  intros [[[ok m'] size] r] f2 (E1 & Hk & E2 & Hrest). cbn [fst snd] in *. subst m'. destruct ok.
  - destruct Hrest as (-> & -> & Hs2). symmetry in E2. eapply wp_mono.
    { apply IH; [done | by apply Hk | done | done |]. exists b. apply Q6. done. }
    intros x f3 (a & b' & -> & Ha & Hk3 & Hx). exists (m :: a), b'. cbn [fmap list_fmap all_fit].
    rewrite <- app_assoc in Hx. split; [done |]. split; [by split |]. split; [by etrans | exact Hx].
  - destruct Hrest as (-> & -> & Hs2). eapply wp_Ret; [reflexivity |]. exists [], (m :: batch). cbn [fmap list_fmap fst snd].
    rewrite app_nil_r. split_and!; [done | done | done | done | done | done |]. by eexists _, _.
Qed.

Lemma consume_queue_wp f l f1 q :
  steady f l f1 → Forall one_topic q → queued_ok f l (concat q) →
  wp (consume_queue conf q (total l) (group f l)) f1
    (λ x f2, ∃ a b, concat q = a ++ b ∧ all_fit f l (assign f <$> a) ∧ keeps f1 f2 ∧
      let l' := l ++ (assign f <$> a) in
      x.2 = group f l' ∧ steady f l' f2 ∧ Forall one_topic x.1 ∧
      match b with
      | [] => x.1 = []
      | m :: b => concat x.1 = assign f m :: b ∧ fits f l' (assign f m) = false
      end) T F.
Proof.
  revert l f1. induction q as [| batch q IH]; intros l f1 Hs Hone Hq.
  { eapply wp_Ret; [reflexivity |]. exists [], []. cbn [fmap list_fmap fst snd]. rewrite !app_nil_r. by split_and!. }
  apply Forall_cons in Hone as [[Hne [t Ht]] Hone]. destruct batch as [| m batch]; [done |]. cbn [consume_queue].
  pose proof (Forall_inv Ht) as Hm. cbn in Hm. rewrite Hm. apply wp_bind. eapply wp_mono; [by apply (GetTopicData_wp f l) |].
  intros td f2 (Hs2 & Hk2 & Hc & _ & Hsome). apply wp_bind. eapply wp_mono.
  { apply (consume_batch_wp f l f2 (m :: batch) t td); [done | done | done | done | by exists (concat q)]. }
  intros [[[rest full] size] r] f3 (a & b & Hab & Ha & Hk3 & Hx). cbn [fst snd] in Hx.
  destruct Hx as (-> & -> & Hs3 & Hfull). cbn [concat] in *. rewrite Hab in *. destruct full.
  - destruct Hfull as (m' & b' & -> & -> & Hfit). eapply wp_Ret; [reflexivity |].
    exists a, (m' :: b' ++ concat q). split; [by rewrite <- app_assoc |]. split; [done |].
    split; [by etrans |]. cbn [fst snd]. split; [done |]. split; [done |]. split; [| done].
    constructor; [| done]. split; [done |]. exists t. apply Forall_app in Ht as [_ [Hm' Hb']%Forall_cons].
    destruct (assign_fields f m') as (E1 & _). constructor; [by rewrite E1 | done].
  - subst b. rewrite app_nil_r in *. eapply wp_mono.
    { apply (IH (l ++ (assign f <$> a))); [done | done | by apply queued_ok_app]. }
    intros x f4 (a' & b' & Hab' & Ha' & Hk4 & Hx). exists (a ++ a'), b'. rewrite fmap_app.
    split; [by rewrite Hab', app_assoc |]. split.
    + clear -Ha Ha'. revert l Ha Ha'. induction (assign f <$> a) as [| m k IHk]; intros l Ha Ha';
        [by rewrite app_nil_r in Ha' |]. destruct Ha as [Hf Ha]. cbn. split; [done |]. apply IHk; [done |].
      by rewrite <- app_assoc.
    + split; [etrans; [by etrans | done] |]. rewrite app_assoc. exact Hx.
Qed.

(** ** Grouping *)

Definition r_sorted (r : TAllTopics) : Prop :=
  sm_sorted String.ltb r ∧ Forall (λ t : string * TMultiPartitionGroup, sm_sorted Z.ltb t.2) r.

Lemma sm_find_Forall {K V} `{!EqDecision K} (P : K * V → Prop) k v (m : list (K * V)) :
  Forall P m → sm_find k m = Some v → P (k, v).
Proof. intros Hm (a & z & -> & _)%sm_find_split. by apply Forall_app in Hm as [_ [? _]%Forall_cons]. Qed.

Lemma set_of_at t p t' p' g r :
  r_sorted r →
  set_of t p (at_set_of t' p' g r) = if decide (t = t' ∧ p = p') then g (set_of t' p' r) else set_of t p r.
Proof.
  intros [Hs Hi]. unfold set_of, at_set_of. destruct (decide (t = t')) as [-> | Hne].
  - rewrite (sm_find_upd String.ltb) by done. cbn.
    set (grp := default [] (sm_find t' r)).
    assert (sm_sorted Z.ltb grp) as Hg.
    { unfold grp. destruct (sm_find t' r) as [x |] eqn:E; cbn; [| constructor].
      exact (sm_find_Forall _ _ _ _ Hi E). }
    assert (sm_find t' r ≫= sm_find p = sm_find p grp ∧ sm_find t' r ≫= sm_find p' = sm_find p' grp) as [-> ->].
    { unfold grp. by destruct (sm_find t' r). }
    destruct (decide (p = p')) as [-> | Hp].
    + rewrite (sm_find_upd Z.ltb) by done. by rewrite decide_True.
    + rewrite (sm_find_upd_ne Z.ltb) by done. rewrite decide_False by naive_solver. done.
  - rewrite (sm_find_upd_ne String.ltb) by done. by rewrite decide_False by naive_solver.
Qed.

Lemma at_set_of_sorted t p g r : r_sorted r → r_sorted (at_set_of t p g r).
Proof.
  intros [Hs Hi]. split; [by apply sm_upd_sorted; [apply _ |] |]. unfold at_set_of.
  apply sm_upd_Forall; [done | | intros v Hv]; cbn [snd]; apply sm_upd_sorted; first [apply _ | done | constructor].
Qed.

Lemma group_sorted f l : r_sorted (group f l).
Proof.
  induction l as [| m l IH] using rev_ind; [by split; constructor |]. rewrite group_snoc. by apply at_set_of_sorted.
Qed.

(** No topic and no message set of a request is empty, and its messages are among
    those consumed. *)
Definition r_full (P : TMsg → Prop) (r : TAllTopics) : Prop :=
  Forall (λ t : string * TMultiPartitionGroup,
    t.2 ≠ [] ∧ Forall (λ p : Z * TMsgSet, Contents p.2 ≠ [] ∧ Forall P (Contents p.2)) t.2) r.

Lemma sm_upd_not_nil {K V} `{!EqDecision K} (lt : K → K → bool) k d g (m : list (K * V)) : sm_upd lt k d g m ≠ [].
Proof. destruct m as [| [y v] m]; cbn; [done |]. case_decide; [done |]. by destruct (lt k y). Qed.

Lemma group_full (P : TMsg → Prop) f l : Forall P l → r_full P (group f l).
Proof.
  induction l as [| m l IH] using rev_ind; [constructor |]. intros [Hl [Hm _]%Forall_cons]%Forall_app.
  rewrite group_snoc. unfold add_msg, at_set_of, r_full. apply sm_upd_Forall; [by apply IH | |]; cbn [snd].
  - split; [apply sm_upd_not_nil |]. by repeat constructor.
  - intros v [_ Hv]. split; [apply sm_upd_not_nil |]. apply sm_upd_Forall; [done | |]; cbn [snd push_msg Contents].
    + split; [done |]. by repeat constructor.
    + intros w [_ Hw]. split; [by destruct (Contents w) |]. apply Forall_app. by repeat constructor.
Qed.

Definition in_set_of (t : string) (p : Z) (m : TMsg) : Prop := Topic m = t ∧ Partition m = p.

#[global] Instance in_set_of_dec t p m : Decision (in_set_of t p m).
Proof. unfold in_set_of. apply _. Defined.

Definition set_size (l : list TMsg) : Z := sumZ ((λ m, data_size m + SingleMsgOverhead) <$> l).

Lemma set_size_nonneg l : Forall (λ m, 0 ≤ data_size m) l → 0 ≤ set_size l.
Proof.
  intros Hl. apply sumZ_nonneg, Forall_fmap. eapply Forall_impl; [exact Hl |]. cbn. intros m Hm.
  unfold SingleMsgOverhead. lia.
Qed.

Lemma set_size_filter t p l : Forall (λ m, 0 ≤ data_size m) l → set_size (filter (in_set_of t p) l) ≤ set_size l.
Proof.
  intros Hl. induction Hl as [| m l Hm Hl IH]; [done |]. rewrite filter_cons.
  assert (∀ k, set_size (m :: k) = data_size m + 26 + set_size k) as Hc by done.
  case_decide; rewrite ?Hc; lia.
Qed.

Lemma set_size_snoc l m : set_size (l ++ [m]) = set_size l + (data_size m + SingleMsgOverhead).
Proof. unfold set_size. rewrite fmap_app, sumZ_app. cbn. lia. Qed.

Lemma group_set f l t p :
  Forall (λ m, 0 ≤ data_size m) l → set_size l < 2 ^ 64 →
  Contents (set_of t p (group f l)) = filter (in_set_of t p) l ∧
  DataSize (set_of t p (group f l)) = if compresses f t then set_size (filter (in_set_of t p) l) else 0.
Proof.
  revert t p. induction l as [| m l IH] using rev_ind; intros t p Hl Hsz; [by destruct (compresses f t) |].
  apply Forall_app in Hl as [Hl [Hm _]%Forall_cons]. rewrite set_size_snoc in Hsz.
  pose proof (set_size_nonneg l Hl) as H0.
  assert (set_size l < 2 ^ 64) as Hsz' by (unfold SingleMsgOverhead in *; lia).
  rewrite group_snoc. unfold add_msg. rewrite set_of_at by apply group_sorted. rewrite filter_app.
  destruct (IH t p Hl Hsz') as [IH1 IH2]. case_decide as Hd.
  - destruct Hd as [-> ->]. rewrite filter_cons, decide_True by done. cbn [filter list_filter push_msg Contents DataSize].
    rewrite IH1, IH2. split; [done |]. destruct (compresses f (Topic m)); [| done].
    rewrite set_size_snoc. pose proof (set_size_filter (Topic m) (Partition m) l Hl).
    assert (0 ≤ set_size (filter (in_set_of (Topic m) (Partition m)) l)).
    { apply set_size_nonneg. rewrite Forall_forall in *. intros x [_ Hx]%list_elem_of_filter. by apply Hl. }
    unfold SingleMsgOverhead in *. rewrite (uadd_small (set_size _)) by lia. rewrite uadd_small by lia. lia.
  - rewrite filter_cons, decide_False by (intros [? ?]; apply Hd; split; congruence). cbn [filter list_filter].
    by rewrite !app_nil_r.
Qed.

(** Every set has a message; the request has exactly the messages. *)
Lemma group_msgs f l :
  req_msgs (group f l) ≡ₚ l ∧
  Forall (λ t : string * TMultiPartitionGroup, t.2 ≠ [] ∧ Forall (λ p : Z * TMsgSet, Contents p.2 ≠ []) t.2) (group f l).
Proof.
  induction l as [| m l [IH1 IH2]] using rev_ind; [by split |]. rewrite group_snoc. unfold add_msg, at_set_of.
  set (g := push_msg _ _ _). split.
  - unfold req_msgs. rewrite (sm_upd_concat String.ltb set_msgs m); [by rewrite IH1 | done | done |].
    intros v. unfold set_msgs. by apply (sm_upd_concat Z.ltb (λ s, Contents s) m).
  - assert (∀ v, Forall (λ p : Z * TMsgSet, Contents p.2 ≠ []) v → sm_upd Z.ltb (Partition m) empty_set g v ≠ [] ∧
      Forall (λ p : Z * TMsgSet, Contents p.2 ≠ []) (sm_upd Z.ltb (Partition m) empty_set g v)) as Hg.
    { intros v Hv. split.
      - destruct v as [| [y z] v]; cbn; [done |]. case_decide; [done |]. by destruct (_ <? _).
      - apply sm_upd_Forall; [done | done |]. intros z Hz. cbn. by destruct (Contents z). }
    apply sm_upd_Forall; [done | by apply Hg |]. intros v [_ Hv]. by apply Hg.
Qed.

Lemma group_topics f l m : m ∈ l → Topic m ∈ (group f l).*1.
Proof.
  induction l as [| x l IH] using rev_ind; [by intros ?%elem_of_nil |].
  rewrite group_snoc. unfold add_msg, at_set_of.
  rewrite (sm_upd_keys String.ltb). intros [Hl | ->%list_elem_of_singleton]%elem_of_app; [right; by apply IH | by left].
Qed.

Lemma uses_elem l t : uses l t = true → ∃ m, m ∈ l ∧ Topic m = t.
Proof.
  unfold uses. intros (m & Hm%list_elem_of_In & [_ Ht%bool_decide_eq_true]%andb_prop)%existsb_exists. eauto.
Qed.

Lemma uses_assign f l t : uses (assign f <$> l) t = uses l t.
Proof.
  unfold uses. induction l as [| m l IH]; [done |]. cbn. destruct (assign_fields f m) as (-> & -> & _). by rewrite IH.
Qed.

Lemma total_assign f l : total (assign f <$> l) = total l.
Proof.
  unfold total. induction l as [| m l IH]; [done |]. cbn. destruct (assign_fields f m) as (_ & _ & E & _).
  change (foldr Z.add 0 (data_size <$> ?k)) with (sumZ (data_size <$> k)). cbn in IH. by rewrite E, IH.
Qed.

(** ** Limits *)

Lemma all_fit_total f l ms : all_fit f l ms → ms ≠ [] → total (l ++ ms) ≤ ProduceRequestDataLimit conf.
Proof.
  revert l. induction ms as [| m ms IH]; intros l; [done |]. intros [Hf Ha] _. destruct ms as [| m' ms].
  - apply andb_prop in Hf as [Hf%Z.leb_le _]. done.
  - replace (l ++ m :: m' :: ms) with ((l ++ [m]) ++ m' :: ms) by (by rewrite <- app_assoc). by apply IH.
Qed.

Definition sets_small (f : TProduceRequestFactory) (l : list TMsg) : Prop :=
  ∀ t p, compresses f t = true →
    filter (in_set_of t p) l = [] ∨ set_size (filter (in_set_of t p) l) ≤ MessageMaxBytes conf.

Lemma next_size_ok f l m :
  Forall (λ m, 0 ≤ data_size m) (l ++ [m]) → set_size (l ++ [m]) < 2 ^ 64 → compresses f (Topic m) = true →
  next_size f l m = set_size (filter (in_set_of (Topic m) (Partition m)) l) + data_size m + SingleMsgOverhead.
Proof.
  intros [Hl [Hm _]%Forall_cons]%Forall_app Hsz Hc. rewrite set_size_snoc in Hsz. unfold next_size.
  pose proof (set_size_nonneg l Hl) as H0. unfold SingleMsgOverhead in *.
  destruct (group_set f l (Topic m) (Partition m) Hl ltac:(lia)) as [_ ->]. rewrite Hc.
  pose proof (set_size_filter (Topic m) (Partition m) l Hl).
  assert (0 ≤ set_size (filter (in_set_of (Topic m) (Partition m)) l)).
  { apply set_size_nonneg. rewrite Forall_forall in *. intros x [_ Hx]%list_elem_of_filter. by apply Hl. }
  rewrite (uadd_small (set_size _)) by lia. rewrite uadd_small by lia. done.
Qed.

Lemma all_fit_sets f l ms :
  Forall (λ m, 0 ≤ data_size m) (l ++ ms) → set_size (l ++ ms) < 2 ^ 64 → sets_small f l → all_fit f l ms →
  sets_small f (l ++ ms).
Proof.
  revert l. induction ms as [| m ms IH]; intros l Hn Hsz Hs Ha; [by rewrite app_nil_r |]. destruct Ha as [Hf Ha].
  replace (l ++ m :: ms) with ((l ++ [m]) ++ ms) in * by (by rewrite <- app_assoc).
  apply IH; [done | done | | done]. apply Forall_app in Hn as [Hn Hn'].
  assert (set_size ((l ++ [m]) ++ ms) = set_size (l ++ [m]) + set_size ms) as Hadd
    by (unfold set_size; by rewrite (fmap_app _ (l ++ [m])), sumZ_app).
  pose proof (set_size_nonneg ms Hn') as H0.
  intros t p Hc. rewrite filter_app, filter_cons. case_decide as Hd; cbn [filter list_filter];
    [| rewrite app_nil_r; by apply Hs]. destruct Hd as [<- <-]. right. rewrite set_size_snoc.
  apply andb_prop in Hf as [_ Hf]. rewrite Hc in Hf. apply negb_true_iff, Z.ltb_ge in Hf.
  fold (next_size f l m) in Hf. rewrite next_size_ok in Hf by (done || lia). lia.
Qed.

Lemma fits_false f l m :
  Forall (λ m, 0 ≤ data_size m) (l ++ [m]) → set_size (l ++ [m]) < 2 ^ 64 → fits f l m = false →
  ProduceRequestDataLimit conf < total l + data_size m ∨
  compresses f (Topic m) = true ∧
  MessageMaxBytes conf < set_size (filter (in_set_of (Topic m) (Partition m)) l) + data_size m + SingleMsgOverhead.
Proof.
  intros Hn Hsz Hf. unfold fits in Hf. rewrite total_snoc in Hf.
  destruct (Z.leb_spec (total l + data_size m) (ProduceRequestDataLimit conf)) as [_ | Hl]; [| by left].
  right. destruct (compresses f (Topic m)) eqn:Hc; [| done]. cbn in Hf. split; [done |].
  apply negb_false_iff, Z.ltb_lt in Hf. fold (next_size f l m) in Hf. by rewrite next_size_ok in Hf.
Qed.

Lemma assign_nonneg f k :
  Forall (λ m, 0 ≤ data_size m) k → Forall (λ m, 0 ≤ data_size m) (assign f <$> k).
Proof.
  intros Hk. apply Forall_fmap. eapply Forall_impl; [exact Hk |]. cbn. intros m.
  by destruct (assign_fields f m) as (_ & _ & -> & _).
Qed.

Lemma set_size_assign f k : set_size (assign f <$> k) = set_size k.
Proof.
  unfold set_size. rewrite <- list_fmap_compose. f_equal. apply list_fmap_ext. intros i m _. cbn.
  by destruct (assign_fields f m) as (_ & _ & -> & _).
Qed.

Lemma set_size_app l k : set_size (l ++ k) = set_size l + set_size k.
Proof. unfold set_size. by rewrite fmap_app, sumZ_app. Qed.

Lemma queued_ok_intro f l ms :
  Forall (sendable f) ms → Forall (λ m, 0 ≤ data_size m) (l ++ ms) →
  Forall (λ m, compresses f (Topic m) = true → data_size m + SingleMsgOverhead ≤ MessageMaxBytes conf) ms →
  set_size (l ++ ms) < 2 ^ 64 → queued_ok f l ms.
Proof.
  intros H1 H2 H3 H4. assert (∀ k, Forall (λ m, 0 ≤ data_size m) k → 0 ≤ total k ≤ set_size k) as Hts.
  { clear. intros k Hk. induction Hk as [| m k Hm Hk IH]; [done |].
    assert (total (m :: k) = data_size m + total k ∧ set_size (m :: k) = data_size m + 26 + set_size k) as [-> ->] by done.
    lia. }
  apply Forall_app in H2 as H2'. destruct H2' as [H2a H2b].
  pose proof (set_size_app l ms) as Hadd. pose proof (Hts l H2a). pose proof (Hts ms H2b). split_and!; [done | done | lia | lia |].
  intros a m b -> Ha Hc Hbig. destruct (assign_fields f m) as (E1 & _ & E3 & _).
  apply Forall_app in H2b as [Ha2 [Hm2 Hb2]%Forall_cons].
  assert (Forall (λ m, 0 ≤ data_size m) ((l ++ (assign f <$> a)) ++ [assign f m])) as Hnn.
  { apply Forall_app. split; [apply Forall_app; split; [done | by apply assign_nonneg] |]. by repeat constructor; rewrite E3. }
  assert (set_size ((l ++ (assign f <$> a)) ++ [assign f m]) < 2 ^ 64) as Hss.
  { rewrite set_size_snoc, E3, set_size_app, set_size_assign. pose proof (set_size_nonneg b Hb2).
    rewrite (set_size_app a (m :: b)) in Hadd.
    assert (set_size (m :: b) = data_size m + SingleMsgOverhead + set_size b) as Hx by done. lia. }
  rewrite next_size_ok in Hbig by done. rewrite E3 in Hbig.
  apply Forall_app in Hnn as [Hnn _]. rewrite set_size_snoc, E3 in Hss.
  destruct (group_set f (l ++ (assign f <$> a)) (Topic (assign f m)) (Partition (assign f m)) Hnn
    ltac:(unfold SingleMsgOverhead in *; lia)) as [-> ->]. rewrite Hc.
  set (k := filter _ _) in *. apply Forall_app in H3 as [_ [H3 _]%Forall_cons]. rewrite E1 in Hc. specialize (H3 Hc).
  assert (Forall (λ m, 0 ≤ data_size m) k) as Hk.
  { unfold k. rewrite Forall_forall in *. intros x [_ Hx]%list_elem_of_filter. by apply Hnn. }
  destruct Hk as [| x k' Hx Hk']; [change (set_size []) with 0 in Hbig; lia |]. split; [done |].
  pose proof (set_size_nonneg k' Hk').
  assert (set_size (x :: k') = data_size x + 26 + set_size k') as -> by done. lia.
Qed.

(** ** The whole *)

Record same_setup (f f' : TProduceRequestFactory) : Prop := {
  ss_md : FMetadata f' = FMetadata f;
  ss_default : DefaultTopicCompressionInfo f' = DefaultTopicCompressionInfo f;
  ss_corr : CorrIdCounter f' = CorrIdCounter f;
  ss_writers : RequestWriter f' = RequestWriter f ∧ MsgSetWriter f' = MsgSetWriter f;
  ss_bufs : CompressionBuf f' = CompressionBuf f ∧ Dst f' = Dst f;
  ss_info : ∀ t, info_of f' t = info_of f t
}.

#[local] Instance same_setup_trans : Transitive same_setup.
Proof.
  intros f1 f2 f3 [A1 A2 A3 [A4 A4'] [A5 A5'] A6] [B1 B2 B3 [B4 B4'] [B5 B5'] B6].
  split; try split; try congruence.
Qed.

Lemma steady_setup f l f' : steady f l f' → same_setup f f'.
Proof. intros [H1 H2 H3 H4 H5 H6 _ _ _]. by split. Qed.

Lemma GetTopicData_run t f1 :
  ∃ td f2, GetTopicData t f1 = (Ret td, f2) ∧ same_setup f1 f2 ∧ InputQueue f2 = InputQueue f1 ∧
    (∀ t', chooser_of f2 t' = chooser_of f1 t') ∧ is_Some (TopicDataMap f2 !! t) ∧ CompressionInfo td = info_of f1 t.
Proof.
  unfold GetTopicData, FM. erewrite bind_Ret by reflexivity. cbv beta. destruct (TopicDataMap f1 !! t) as [td |] eqn:Ht.
  - exists td, f1. split_and!; [done | by split | done | done | by eexists | unfold info_of; by rewrite Ht].
  - eexists _, _. split; [reflexivity |]. split_and!; [| done | | | unfold info_of; by rewrite Ht].
    + split; try done. intros t'. unfold info_of. cbn. destruct (decide (t' = t)) as [-> | Hne].
      * by rewrite lookup_insert_eq, Ht.
      * by rewrite lookup_insert_ne.
    + intros t'. unfold chooser_of. cbn. destruct (decide (t' = t)) as [-> | Hne].
      * by rewrite lookup_insert_eq, Ht.
      * by rewrite lookup_insert_ne.
    + cbn. rewrite lookup_insert_eq. by eexists.
Qed.

Lemma on_chooser_run t g f1 :
  is_Some (TopicDataMap f1 !! t) →
  ∃ f2, on_chooser t g f1 = (Ret (), f2) ∧ same_setup f1 f2 ∧ InputQueue f2 = InputQueue f1 ∧
    ∀ t', chooser_of f2 t' = if decide (t' = t) then g (chooser_of f1 t) else chooser_of f1 t'.
Proof.
  intros [td Htd]. unfold on_chooser, FM. erewrite bind_Ret by reflexivity. cbv beta.
  rewrite (alter_insert _ _ _ _ Htd). eexists. split; [reflexivity |]. split_and!; [| done |].
  - split; try done. intros t'. unfold info_of. cbn. destruct (decide (t' = t)) as [-> | Hne].
    + by rewrite lookup_insert_eq, Htd.
    + by rewrite lookup_insert_ne.
  - intros t'. etrans; [apply (chooser_of_set f1 t (mkTopicData (CompressionInfo td) (g (AnyPartitionChooser td))) t') |].
    case_decide; [| done]. unfold chooser_of. by rewrite Htd.
Qed.

Lemma clear_wp (ts : TAllTopics) f1 :
  NoDup ts.*1 →
  wp (mmap (λ t : string * TMultiPartitionGroup, GetTopicData t.1;; on_chooser t.1 ClearChoice) ts) f1
    (λ _ f2, same_setup f1 f2 ∧ InputQueue f2 = InputQueue f1 ∧
       ∀ t, chooser_of f2 t = if decide (t ∈ ts.*1) then ClearChoice (chooser_of f1 t) else chooser_of f1 t) T F.
Proof.
  revert f1. induction ts as [| [t g] ts IH]; intros f1 Hnd.
  - eapply wp_Ret; [reflexivity |]. split_and!; [by split | done | done].
  - apply NoDup_cons in Hnd as [Hn Hnd]. cbn [mmap fst].
    destruct (GetTopicData_run t f1) as (td & f2 & Hr2 & Hs2 & Hq2 & Hc2 & Hsome & _).
    destruct (on_chooser_run t ClearChoice f2 Hsome) as (f3 & Hr3 & Hs3 & Hq3 & Hc3).
    eapply wp_bind_Ret; [unfold FM; by rewrite (bind_Ret _ _ _ _ _ Hr2) |]. apply wp_bind.
    eapply wp_mono; [by apply IH |]. intros u f4 (Hs4 & Hq4 & Hc4). eapply wp_Ret; [reflexivity |].
    split_and!; [by do 2 (etrans; [done |]) | congruence |].
    intros t'. rewrite Hc4, Hc3, !Hc2. cbn [fmap list_fmap fst]. destruct (decide (t' = t)) as [-> | Hne].
    + rewrite decide_False by done. by rewrite decide_True by left.
    + destruct (decide (t' ∈ ts.*1)) as [Hin | Hin].
      * by rewrite decide_True by (by right).
      * rewrite decide_False; [done |]. by intros [? | ?]%elem_of_cons.
Qed.

Lemma AddFirstMsg_wp f m batch q :
  InputQueue f = (m :: batch) :: q → sendable f m → 0 ≤ data_size m < 2 ^ 64 →
  wp (AddFirstMsg conf) f (λ x f1, x.1 = group f [assign f m] ∧ x.2 = data_size m ∧ steady f [assign f m] f1 ∧
    InputQueue f1 = if bool_decide (batch = []) then q else batch :: q) T F.
Proof.
  intros Hq Hm H0. unfold AddFirstMsg. wstep. rewrite Hq. wstep. set (f1 := mkFactory _ _ _ _ _ _ _ _ _).
  assert (steady f [] f1) as Hs1 by (destruct (steady_refl f); by split).
  apply wp_bind. eapply wp_mono; [by apply (GetTopicData_wp f [] f1) |].
  intros td f2 (Hs2 & [Hq2 _] & Hc & _ & Hsome). destruct (assign_fields f m) as (E1 & E2 & E3 & _).
  apply wp_bind. apply wp_mono with (Q := λ m' f3, m' = assign f m ∧ steady f [assign f m] f3 ∧ InputQueue f3 = InputQueue f1).
  { destruct (any_partition m) eqn:Ha.
    - destruct (sendable_choice f m Hm Ha) as [Hch [p Hp]]. apply wp_bind. eapply wp_mono; [by apply (get_choice_wp f []) |].
      intros p' f3 (-> & Hs3 & [Hq3 Hk3]). apply wp_bind. eapply wp_mono.
      { apply (choice_used_wp f [] f3 (Topic m) (assign f m)); [done | by apply Hk3 | by rewrite E2 | done]. }
      intros _ f4 (Hs4 & [Hq4 _]). eapply wp_Ret; [reflexivity |]. unfold assign in *. rewrite Ha, Hp in *.
      split_and!; [done | done | congruence].
    - eapply wp_Ret; [reflexivity |]. assert (assign f m = m) as -> by (unfold assign; by rewrite Ha).
      split_and!; [done | by apply (steady_unused f [] f2 m) | done]. }
  intros m' f3 (-> & Hs3 & Hq3). eapply wp_Ret; [reflexivity |]. cbn [fst snd].
  split_and!; [| by rewrite E3 | done | by rewrite Hq3].
  change (group f [assign f m]) with (add_msg f [] (assign f m)). unfold add_msg. rewrite E1, E3, Hc.
  change (DataSize (set_of _ _ [])) with 0. by rewrite (uadd_small 0) by lia.
Qed.

(** What the messages of the queue have to satisfy: an AnyPartition message has
    a partition to go to, and a message of a topic that is compressed is not too
    large by itself (the router discards such messages). *)
Definition msg_ok (f : TProduceRequestFactory) (m : TMsg) : Prop :=
  sendable f m ∧ 0 ≤ data_size m ∧
  (compresses f (Topic m) = true → data_size m + SingleMsgOverhead ≤ MessageMaxBytes conf).

Record queue_ok (f : TProduceRequestFactory) : Prop := {
  qo_topics : Forall one_topic (InputQueue f);
  qo_msgs : Forall (msg_ok f) (concat (InputQueue f));
  qo_size : set_size (concat (InputQueue f)) < 2 ^ 64
}.

(** [r] is a request with the first messages [a] of the queue, in state [f'] the
    queue has the others. *)
Record built (f : TProduceRequestFactory) (a b : list TMsg) (r : TAllTopics) (f' : TProduceRequestFactory) : Prop := {
  bu_queue : concat (InputQueue f) = a ++ b;
  bu_some : a ≠ [];
  bu_result : r = group f (assign f <$> a);
  bu_rest : unassigned <$> concat (InputQueue f') = unassigned <$> b;
  bu_topics : Forall one_topic (InputQueue f');
  bu_setup : same_setup f f';
  bu_total : total a ≤ ProduceRequestDataLimit conf ∨ length a = 1%nat;
  bu_sets : sets_small f (assign f <$> a);
  bu_full : match b with
    | [] => True
    | m :: _ => ProduceRequestDataLimit conf ≤ total a ∨ fits f (assign f <$> a) (assign f m) = false
    end;
  bu_chooser : ∀ t, let c := chooser_of f t in let c' := chooser_of f' t in
    (Count c' = if uses a t then uadd (Count c) 1 else Count c) ∧ ChoiceUsed c' = false ∧
    (uses a t = true → Choice c' = None)
}.

Lemma queue_ok_first f m batch q :
  queue_ok f → InputQueue f = (m :: batch) :: q →
  sendable f m ∧ 0 ≤ data_size m < 2 ^ 64 ∧ queued_ok f [assign f m] (batch ++ concat q) ∧ sets_small f [assign f m].
Proof.
  intros [_ Hm Hsz] Hq. rewrite Hq in Hm, Hsz. cbn [concat app] in *.
  destruct (assign_fields f m) as (E1 & _ & E3 & _).
  assert (Forall (λ m, 0 ≤ data_size m) (m :: batch ++ concat q)) as Hn.
  { eapply Forall_impl; [exact Hm |]. by intros x (_ & ? & _). }
  apply Forall_cons in Hm as [(H1 & H2 & H3) Hm]. apply Forall_cons in Hn as [_ Hn].
  assert (set_size (m :: batch ++ concat q) = data_size m + 26 + set_size (batch ++ concat q)) as Hs by done.
  pose proof (set_size_nonneg _ Hn). split_and!; [done | done | lia | |].
  - apply queued_ok_intro.
    + eapply Forall_impl; [exact Hm |]. by intros x (? & _ & _).
    + constructor; [by rewrite E3 | done].
    + eapply Forall_impl; [exact Hm |]. by intros x (_ & _ & ?).
    + assert (set_size ([assign f m] ++ batch ++ concat q) = data_size (assign f m) + 26 + set_size (batch ++ concat q)) as ->
        by done. rewrite E3. lia.
  - intros t p Hc. rewrite filter_cons. case_decide as Hd; [destruct Hd as [Ht _] |]; cbn [filter list_filter].
    + right. assert (set_size [assign f m] = data_size m + SingleMsgOverhead) as ->.
      { unfold set_size. cbn [fmap list_fmap sumZ foldr]. rewrite E3. lia. }
      apply H3. by rewrite <- E1, Ht.
    + by left.
Qed.

Lemma BuildRequestContents_wp f :
  queue_ok f → InputQueue f ≠ [] → (∀ t, ChoiceUsed (chooser_of f t) = false) →
  wp (BuildRequestContents conf) f (λ r f', ∃ a b, built f a b r f') T F.
Proof.
  intros Hq Hne Hidle. unfold BuildRequestContents. wstep. apply wp_massert; [by rewrite bool_decide_false |].
  pose proof (qo_topics _ Hq) as Hone. destruct (InputQueue f) as [| [| m batch] q] eqn:Eq; [done | |].
  { by apply Forall_cons in Hone as [[? _] _]. }
  destruct (queue_ok_first f m batch q Hq Eq) as (H1 & H2 & H3 & H4). destruct (assign_fields f m) as (_ & _ & E3 & _).
  assert (total [m] = data_size m) as Hm by (unfold total; cbn [fmap list_fmap sumZ foldr]; lia).
  apply wp_bind. eapply wp_mono; [by eapply AddFirstMsg_wp |].
  intros [r size] f1 (Er & Es & Hs1 & Hq1). cbn [fst snd] in *. subst r size.
  set (q1 := if bool_decide (batch = []) then q else batch :: q) in *.
  assert (concat q1 = batch ++ concat q) as Hc1 by (unfold q1; by case_bool_decide as E; [rewrite E |]).
  assert (Forall one_topic q1) as Ho1.
  { apply Forall_cons in Hone as [[_ [t [_ Ht]%Forall_cons]] Hone]. unfold q1. case_bool_decide; [done |].
    constructor; [| done]. split; [done |]. by exists t. }
  apply wp_bind. apply wp_mono with (Q := λ r f2, ∃ a b, m :: batch ++ concat q = a ++ b ∧ a ≠ [] ∧ r = group f (assign f <$> a) ∧
    steady f (assign f <$> a) f2 ∧ unassigned <$> concat (InputQueue f2) = unassigned <$> b ∧ Forall one_topic (InputQueue f2) ∧
    (total a ≤ ProduceRequestDataLimit conf ∨ length a = 1%nat) ∧ sets_small f (assign f <$> a) ∧
    match b with [] => True | x :: _ => ProduceRequestDataLimit conf ≤ total a ∨ fits f (assign f <$> a) (assign f x) = false end).
  { destruct (Z.ltb_spec (data_size m) (ProduceRequestDataLimit conf)) as [Hl | Hl].
    - wstep. rewrite Hq1. apply wp_bind. replace (data_size m) with (total [assign f m])
        by (unfold total; cbn [fmap list_fmap sumZ foldr]; rewrite E3; lia).
      eapply wp_mono; [apply (consume_queue_wp f [assign f m]); [done | done | by rewrite Hc1] |].
      intros [q2 r2] f2 (a & b & Hab & Ha & [Hk _] & Hx). cbn [fst snd] in Hx. destruct Hx as (-> & Hs2 & Ho2 & Hb).
      wstep. eapply wp_Ret; [reflexivity |]. exists (m :: a), b. cbn [fmap list_fmap InputQueue].
      rewrite Hc1 in Hab. split_and!; try done.
      + by rewrite Hab.
      + destruct Hs2. by split.
      + destruct b as [| x b]; [by rewrite Hb |]. destruct Hb as [-> _]. cbn. by rewrite unassigned_assign.
      + assert (total (m :: a) = total ([assign f m] ++ (assign f <$> a))) as ->
          by (rewrite <- (total_assign f (m :: a)); done).
        destruct a as [| x a]; [by right |]. left. by eapply all_fit_total.
      + destruct H3 as (_ & Hn & _). rewrite Hab in Hn. apply Forall_app in Hn as [Hna Hnb].
        destruct Hq as [_ _ Hz]. rewrite Eq in Hz. cbn [concat app] in Hz. rewrite Hab in Hz.
        pose proof (set_size_app (m :: a) b) as Hab2. cbn [app] in Hab2. pose proof (set_size_nonneg b Hnb).
        apply (all_fit_sets f [assign f m] (assign f <$> a)); [| | done | done].
        * constructor; [rewrite E3; lia | by apply assign_nonneg].
        * change ([assign f m] ++ (assign f <$> a)) with (assign f <$> (m :: a)). rewrite set_size_assign. lia.
      + destruct b as [| x b]; [done |]. right. by destruct Hb as [_ ?].
    - eapply wp_Ret; [reflexivity |]. exists [m], (batch ++ concat q). cbn [fmap list_fmap].
      rewrite Hq1, Hc1. split_and!; try done; [by right |]. destruct (batch ++ concat q); [done |]. left. by rewrite Hm. }
  intros r f2 (a & b & Hab & Ha & -> & Hs2 & Hr2 & Ho2 & Ht2 & Hsm2 & Hf2). apply wp_bind.
  eapply wp_mono; [apply clear_wp, (sm_sorted_NoDup String.ltb), (group_sorted f) |].
  intros u f3 (Hs3 & Hq3 & Hc3). apply wp_massert.
  { apply forallb_forall. intros [t g] Hin%list_elem_of_In. destruct (group_msgs f (assign f <$> a)) as [_ Hg].
    rewrite Forall_forall in Hg. destruct (Hg _ Hin) as [G1 G2]. cbn in *. rewrite bool_decide_false by done. cbn.
    apply forallb_forall. intros p Hp%list_elem_of_In. rewrite Forall_forall in G2. by rewrite bool_decide_false by (by apply G2). }
  eapply wp_Ret; [reflexivity |]. exists a, b. split; try done.
  - rewrite Eq. done.
  - by rewrite Hq3.
  - by rewrite Hq3.
  - etrans; [by eapply steady_setup | done].
  - intros t c c'. unfold c, c'. rewrite Hc3. pose proof (st_used _ _ _ Hs2 t) as Hu.
    pose proof (st_count _ _ _ Hs2 t) as Hcn. rewrite Hidle, uses_assign in Hu. cbn in Hu. unfold ClearChoice.
    case_decide as Hd.
    + rewrite Hu. destruct (uses a t); cbn; by rewrite Hcn.
    + destruct (uses a t) eqn:Hua; [exfalso | by rewrite Hcn, Hu].
      rewrite <- (uses_assign f) in Hua. apply uses_elem in Hua as (x & Hx & <-). apply Hd. by apply group_topics.
Qed.
End contents.

(** What goes into a request.  For every non-empty queue of batches,
    [BuildRequestContents] fails no assertion and takes the messages off the front
    of the queue, in order: [a] is sent, [b] stays (at most with a partition
    assigned).  The request groups [a] by topic and partition, in the order of the
    queue within each message set, the topics and partitions in the order of the
    maps, nothing empty; AnyPartition messages all have the one partition that
    their topic's chooser picked.  It respects the data limit unless it is a single
    message, and [MessageMaxBytes] in each set that may be compressed; and it is
    maximal: the next message would break one of the limits.  The choosers of the
    topics with AnyPartition messages move on by one. *)
Theorem request_contents conf f :
  queue_ok conf f → InputQueue f ≠ [] → (∀ t, ChoiceUsed (chooser_of f t) = false) →
  ∃ a b r f', BuildRequestContents conf f = (Ret r, f') ∧
    concat (InputQueue f) = a ++ b ∧ a ≠ [] ∧
    unassigned <$> concat (InputQueue f') = unassigned <$> b ∧
    (∀ t p, Contents (set_of t p r) = filter (in_set_of t p) (assign conf f <$> a)) ∧
    req_msgs r ≡ₚ assign conf f <$> a ∧ r_sorted r ∧ r_full (λ _, True) r ∧
    (total a ≤ ProduceRequestDataLimit conf ∨ length a = 1%nat) ∧
    (∀ t p, compresses f t = true → Contents (set_of t p r) ≠ [] →
       set_size (Contents (set_of t p r)) ≤ MessageMaxBytes conf) ∧
    (∀ m, head b = Some m → ProduceRequestDataLimit conf ≤ total a ∨
       ProduceRequestDataLimit conf < total a + data_size m ∨
       compresses f (Topic m) = true ∧ MessageMaxBytes conf <
         set_size (Contents (set_of (Topic m) (Partition (assign conf f m)) r)) + data_size m + SingleMsgOverhead) ∧
    (∀ t, Count (chooser_of f' t) = if uses a t then uadd (Count (chooser_of f t)) 1 else Count (chooser_of f t)).
Proof.
  intros Hq Hne Hidle. pose proof (BuildRequestContents_wp conf never (λ _, False) f Hq Hne Hidle) as Hw. unfold wp in Hw.
  destruct (BuildRequestContents conf f) as [[r | e | x] f'] eqn:Hr; [| done..].
  destruct Hw as (a & b & [Hab Ha -> Hb _ _ Ht Hs Hfull Hc]). exists a, b, (group f (assign conf f <$> a)), f'.
  destruct Hq as [_ Hm Hsz]. rewrite Hab in Hm, Hsz. rewrite set_size_app in Hsz.
  apply Forall_app in Hm as [Hma Hmb].
  assert (∀ l, Forall (msg_ok conf f) l → Forall (λ m, 0 ≤ data_size m) l) as Hnn.
  { intros l Hl. eapply Forall_impl; [exact Hl |]. by intros x (_ & ? & _). }
  pose proof (set_size_nonneg b (Hnn b Hmb)). pose proof (assign_nonneg conf f a (Hnn a Hma)) as Hna.
  assert (set_size (assign conf f <$> a) < 2 ^ 64) as Hsa by (rewrite set_size_assign; lia).
  assert (∀ t p, Contents (set_of t p (group f (assign conf f <$> a))) = filter (in_set_of t p) (assign conf f <$> a)) as Hset.
  { intros t p. by apply group_set. }
  split_and!; try done.
  - apply group_msgs.
  - apply group_sorted.
  - apply group_full, Forall_true. done.
  - intros t p Hco. rewrite Hset. intros Hn. by destruct (Hs t p Hco).
  - intros m Hb0. destruct b as [| m' b]; [done |]. injection Hb0 as ->.
    apply Forall_cons in Hmb as [(_ & Hm0 & _) Hmb]. rewrite Hset. destruct Hfull as [Hfull | Hfull]; [by left |]. right.
    destruct (assign_fields conf f m) as (Ft & _ & Fd & _).
    apply fits_false in Hfull.
    + by rewrite total_assign, Fd, Ft in Hfull.
    + apply Forall_app. split; [done |]. constructor; [by rewrite Fd | done].
    + rewrite set_size_snoc, set_size_assign, Fd. pose proof (set_size_nonneg b (Hnn b Hmb)).
      change (set_size (m :: b)) with (data_size m + SingleMsgOverhead + set_size b) in Hsz. lia.
  - intros t. by destruct (Hc t) as [? _].
Qed.

(** ** An example *)

(** A codec that stores its input. *)
Definition storing : TCompressionCodec :=
  mkCodec id (λ buf _, Some (length buf)) (λ buf space _, if (length buf <=? space)%nat then Some buf else None).

Definition ex_conf : factory_conf := mkFactoryConf 0 25 100 (float_of 1) [x64] 1000.

Definition ex_md : TMetadata :=
  match (build_all (H := merge_order) (H0 := no_shuffle) (H1 := map_order) example_response TBuilder_new).1 with
  | Ret m => m | _ => mkMetadata [] 0 [] [] ∅ end.

(** Messages of 10 bytes: two of a compressed topic, one of another topic. *)
Definition ex_msg (r : TRoutingType) (topic : string) (partition : Z) : TMsg :=
  mkMsg r 0 0 0 SendWait 0 topic partition (l_blob ex_live) 3 false.

Definition ex_factory : TProduceRequestFactory :=
  mkFactory (Request.mkWriter false Request.Idle 0 0 0 0 0 0 0 0 0 (MsgSet.mkWriter false MsgSet.Idle 0 0 0 0 0 0 0 0 0 0))
    (MsgSet.mkWriter false MsgSet.Idle 0 0 0 0 0 0 0 0 0 0)
    (mkInfo None 0 CompressNone None) (Some ex_md) 6
    [[ex_msg AnyPartition "t" 0; ex_msg PartitionKey "t" 1]; [ex_msg PartitionKey "u" 4]]
    {["t" := mkTopicData (mkInfo (Some storing) 0 CompressSnappy None) TAnyPartitionChooser_new]} [] [].

Lemma ex_queue_ok : queue_ok ex_conf ex_factory.
Proof.
  split; cbn [InputQueue ex_factory concat app].
  - apply Forall_cons. split; [split; [done |]; exists "t"; by repeat constructor |].
    apply Forall_cons. split; [split; [done |]; exists "u"; by repeat constructor | done].
  - repeat (apply Forall_cons; split; [split; [| split; [by vm_compute | intros H; vm_compute in H |- *; done]] |]).
    + intros _. eexists. split; [vm_compute; reflexivity | done].
    + done.
    + done.
    + done.
  - by vm_compute.
Qed.

Lemma ex_idle t : ChoiceUsed (chooser_of ex_factory t) = false.
Proof.
  unfold chooser_of. cbn [TopicDataMap ex_factory]. destruct (decide (t = "t")) as [-> | Hne].
  - by rewrite lookup_singleton_eq.
  - by rewrite lookup_singleton_ne.
Qed.

Lemma request_contents_witness :
  ∃ a b r f', BuildRequestContents ex_conf ex_factory = (Ret r, f') ∧
    concat (InputQueue ex_factory) = a ++ b ∧ a ≠ [] ∧ r_sorted r.
Proof.
  destruct (request_contents ex_conf ex_factory ex_queue_ok ltac:(done) ex_idle)
    as (a & b & r & f' & H1 & H2 & H3 & _ & _ & _ & H4 & _).
  exact (ex_intro _ a (ex_intro _ b (ex_intro _ r (ex_intro _ f' (conj H1 (conj H2 (conj H3 H4))))))).
Defined.
