(* ===== verification/RequestBytes.v ===== *)
(** * The bytes of a produce request

    What [TProduceRequestFactory::BuildRequest] writes: the messages of the
    request in the format of [ProduceRequest], each message set plain or, if its
    topic is compressed and that pays, as one message that holds the compressed
    set. *)
From S2P Require Import Prelude FieldAccess Capped Msg AnomalyTracker BrokerMsgQueue Metadata Wire ProduceResponse.
From S2P Require Import StdMap ResponseProcessor ProduceRequest RequestFactory.

(** ** The bytes of a request *)

Section serialization.
Context (ComputeCrc32 : list byte → Z) (pool : TPool) (conf : factory_conf).

(** The key and the value of a message, as they are read from the pool. *)
Definition key_of (m : TMsg) : list byte :=
  match (read_key pool m (TReader_new (KeyAndValue m))).1 with Ret k => k | _ => [] end.

Definition value_of (m : TMsg) : list byte :=
  match (read_value pool m (TReader_new (KeyAndValue m))).1 with Ret v => v | _ => [] end.

Record readable (m : TMsg) : Prop := {
  rb_key : (read_key pool m (TReader_new (KeyAndValue m))).1 = Ret (key_of m);
  rb_value : (read_value pool m (TReader_new (KeyAndValue m))).1 = Ret (value_of m);
  rb_key_size : Z.to_nat (KeySize m) = length (key_of m);
  rb_value_size : Z.to_nat (GetValueSize m) = length (value_of m);
  rb_fits : Z.of_nat (length (key_of m)) ≤ INT32_MAX ∧ Z.of_nat (length (value_of m)) ≤ INT32_MAX
}.

Definition plain (ms : list TMsg) : list wire_msg := (λ m, (CompressNone, key_of m, value_of m)) <$> ms.

(** What serialization keeps. *)
Record ser (f f' : TProduceRequestFactory) : Prop := {
  se_md : FMetadata f' = FMetadata f;
  se_default : DefaultTopicCompressionInfo f' = DefaultTopicCompressionInfo f;
  se_corr : CorrIdCounter f' = CorrIdCounter f;
  se_queue : InputQueue f' = InputQueue f;
  se_info : ∀ t, info_of f' t = info_of f t;
  se_chooser : ∀ t, chooser_of f' t = chooser_of f t
}.

#[local] Instance ser_refl : Reflexive ser.
Proof. by split. Qed.

#[local] Instance ser_trans : Transitive ser.
Proof.
  intros f1 f2 f3 [A1 A2 A3 A4 A5 A6] [B1 B2 B3 B4 B5 B6].
  split; congruence.
Qed.

Definition no_exn (_ : exn) (_ : TProduceRequestFactory) : Prop := False.
Definition no_fault (_ : fault) : Prop := False.

Definition with_request (s : list byte * Request.TProduceRequestWriter) (f : TProduceRequestFactory) :=
  mkFactory s.2 (MsgSetWriter f) (DefaultTopicCompressionInfo f) (FMetadata f) (CorrIdCounter f)
    (InputQueue f) (TopicDataMap f) (CompressionBuf f) s.1.

Definition with_compression (s : list byte * MsgSet.TMsgSetWriter) (f : TProduceRequestFactory) :=
  mkFactory (RequestWriter f) s.2 (DefaultTopicCompressionInfo f) (FMetadata f) (CorrIdCounter f)
    (InputQueue f) (TopicDataMap f) s.1 (Dst f).

Lemma on_request_wp {A} (m : Request.RW A) f Q :
  wp m (Dst f, RequestWriter f) (λ a s, Q a (with_request s f)) never (λ _, False) →
  wp (on_request m) f Q no_exn no_fault.
Proof. unfold wp, on_request, zoom, no_throw. by destruct (m _) as [[a | [] | x] s]. Qed.

Lemma on_compression_wp {A} (m : MsgSet.MW A) f Q :
  wp m (CompressionBuf f, MsgSetWriter f) (λ a s, Q a (with_compression s f)) never (λ _, False) →
  wp (on_compression m) f Q no_exn no_fault.
Proof. unfold wp, on_compression, zoom, no_throw. by destruct (m _) as [[a | [] | x] s]. Qed.

Lemma write_dst_ok off bytes v f :
  vec_write off bytes (Dst f) = Some v → write_dst off bytes f = (Ret (), with_request (v, RequestWriter f) f).
Proof. intros Hv. unfold write_dst, FM. erewrite bind_Ret by reflexivity. cbv beta. by rewrite Hv. Qed.

Lemma write_compression_ok off bytes v f :
  vec_write off bytes (CompressionBuf f) = Some v →
  write_compression off bytes f = (Ret (), with_compression (v, MsgSetWriter f) f).
Proof. intros Hv. unfold write_compression, FM. erewrite bind_Ret by reflexivity. cbv beta. by rewrite Hv. Qed.

Lemma with_reader_ok m {A} (r : M exn TReader A) a f :
  (r (TReader_new (KeyAndValue m))).1 = Ret a → with_reader_of m r f = (Ret a, f).
Proof. intros Hr. unfold with_reader_of. by rewrite Hr. Qed.

(** The factory while the request writer is in a message set. *)
Record writing (base items : list byte) (tco n pco k : nat) (f : TProduceRequestFactory) : Prop := {
  wr_dst : Dst f = base ++ items;
  wr_request : at_set base tco n pco k (RequestWriter f);
  wr_set : in_set base items (Request.MsgSetWriter (RequestWriter f))
}.


(** The factory while a message is open. *)
Definition item (key value : list byte) : list byte :=
  open_item CompressNone (replicate 4 x00) (replicate 4 x00) key (replicate 4 x00) value.

Section loop_body.
Context (open : nat → nat → FM ()) (key_off value_off : FM nat) (buf : TProduceRequestFactory → list byte).
Context (put : nat → list byte → FM ()) (close : FM ()).
Context (base : list byte) (I : list byte → TProduceRequestFactory → Prop).
Context (J : list byte → list byte → list byte → TProduceRequestFactory → Prop).
Context (J_buf : ∀ items key value f, J items key value f → buf f = base ++ items ++ item key value).
Context (open_wp : ∀ items ks vs f, I items f → Z.of_nat ks ≤ INT32_MAX → Z.of_nat vs ≤ INT32_MAX →
  wp (open ks vs) f (λ _ f', J items (replicate ks x00) (replicate vs x00) f' ∧ ser f f') no_exn no_fault).
Context (off_ok : ∀ items key value f, J items key value f →
  key_off f = (Ret (length base + length items + 22)%nat, f) ∧
  value_off f = (Ret (length base + length items + 26 + length key)%nat, f)).
Context (put_ok : ∀ items key value key' value' off bytes f, J items key value f →
  length key' = length key → length value' = length value →
  vec_write off bytes (base ++ items ++ item key value) = Some (base ++ items ++ item key' value') →
  wp (put off bytes) f (λ _ f', J items key' value' f' ∧ ser f f') no_exn no_fault).
Context (close_wp : ∀ items key value f, J items key value f →
  wp close f (λ _ f', I (items ++ enc_msg ComputeCrc32 (CompressNone, key, value)) f' ∧ ser f f') no_exn no_fault).

Lemma serialize_with_wp items m f :
  I items f → readable m →
  wp (serialize_with pool open key_off value_off buf put close m) f
    (λ _ f', I (items ++ enc_msg ComputeCrc32 (CompressNone, key_of m, value_of m)) f' ∧ ser f f') no_exn no_fault.
Proof.
  intros Hi [R1 R2 R3 R4 [R5 R6]]. unfold serialize_with. rewrite R3, R4.
  set (key := key_of m) in *. set (value := value_of m) in *. apply wp_bind. eapply wp_mono; [by apply open_wp |].
  intros u1 f1 [Hj1 S1]. pose proof (J_buf _ _ _ _ Hj1) as Hb1. destruct (off_ok _ _ _ _ Hj1) as [Hk Hv].
  eapply wp_bind_Ret; [exact Hk |]. wstep. rewrite Hb1.
  assert (length (base ++ items ++ item (replicate (length key) x00) (replicate (length value) x00)) =
    (length base + length items + 26 + length key + length value)%nat) as Lb.
  { unfold item. rewrite !length_app, length_open_item, !length_replicate. lia. }
  apply wp_massert; [rewrite Lb; boolia |]. apply wp_massert; [rewrite Lb; boolia |].
  eapply wp_bind_Ret; [exact Hv |]. rewrite length_replicate. apply wp_massert; [rewrite Lb; boolia |].
  apply wp_massert; [rewrite Lb; boolia |]. eapply wp_bind_Ret; [by apply with_reader_ok |]. apply wp_bind.
  eapply wp_mono.
  { apply (put_ok items (replicate (length key) x00) (replicate (length value) x00) key (replicate (length value) x00));
      [done | by rewrite length_replicate | done |].
    exact (vec_write_key base items CompressNone (replicate 4 x00) (replicate 4 x00) (replicate (length key) x00) key
      (replicate 4 x00) (replicate (length value) x00) eq_refl eq_refl (length_replicate _ _)). }
  intros u2 f2 [Hj2 S2]. eapply wp_bind_Ret; [by apply with_reader_ok |]. apply wp_bind. eapply wp_mono.
  { apply (put_ok items key (replicate (length value) x00) key value);
      [done | done | by rewrite length_replicate |].
    exact (vec_write_value base items CompressNone (replicate 4 x00) (replicate 4 x00) key (replicate 4 x00)
      (replicate (length value) x00) value eq_refl eq_refl eq_refl (length_replicate _ _)). }
  intros u3 f3 [Hj3 S3]. eapply wp_mono; [by apply close_wp |]. intros u4 f4 [Hi4 S4]. split; [done |].
  do 3 (etrans; [done |]). done.
Qed.

Lemma serialize_all_wp ms items f :
  I items f → Forall readable ms →
  wp (mmap (serialize_with pool open key_off value_off buf put close) ms) f
    (λ _ f', I (items ++ enc_msg_set ComputeCrc32 (plain ms)) f' ∧ ser f f') no_exn no_fault.
Proof.
  intros Hi Hms. revert items f Hi. induction Hms as [| m ms Hm Hms IH]; intros items f Hi.
  - eapply wp_Ret; [reflexivity |]. unfold enc_msg_set. cbn. by rewrite app_nil_r.
  - cbn [mmap]. apply wp_bind. eapply wp_mono; [by apply serialize_with_wp |]. intros u1 f1 [Hi1 S1].
    apply wp_bind. eapply wp_mono; [by apply IH |]. intros u2 f2 [Hi2 S2]. eapply wp_Ret; [reflexivity |].
    rewrite <- app_assoc in Hi2. split; [exact Hi2 | by etrans].
Qed.
End loop_body.

Section one_set.
Context (base : list byte) (tco n pco k : nat).

Definition msg_open (items key value : list byte) (f : TProduceRequestFactory) : Prop :=
  Dst f = base ++ items ++ item key value ∧ at_set base tco n pco k (RequestWriter f) ∧
  in_msg base items (length key) (length value) (Request.MsgSetWriter (RequestWriter f)).

(** An operation of the request writer that only reads. *)
Lemma on_request_get (m : MsgSet.MW nat) o f :
  at_set base tco n pco k (RequestWriter f) →
  m (Dst f, Request.MsgSetWriter (RequestWriter f)) = (Ret o, (Dst f, Request.MsgSetWriter (RequestWriter f))) →
  on_request (Request.delegate m) f = (Ret o, f).
Proof.
  intros [H1 H2 _ _ _ _ _ _] Hm. unfold on_request, zoom, no_throw, Request.delegate, Request.RW.
  rewrite (bind_Ret _ _ _ _ _ (assert_state_ok _ _ _ H2)), (bind_Ret _ _ _ _ _ (assert_buf_ok _ _ H1)).
  unfold Request.on_msg_set, zoom. cbn [fst snd]. rewrite Hm. cbn [fst snd]. destruct f as [[] ? ? ? ? ? ? ? ?]. done.
Qed.

Lemma SerializeUncompressedMsgSet_wp ms items f :
  writing base items tco n pco k f → Forall readable ms → ms ≠ [] →
  wp (SerializeUncompressedMsgSet ComputeCrc32 pool ms) f (λ _ f',
    writing base (items ++ enc_msg_set ComputeCrc32 (plain ms)) tco n pco k f' ∧ ser f f') no_exn no_fault.
Proof.
  intros Hw Hms Hne. apply wp_massert; [by rewrite bool_decide_false |]. apply wp_bind. eapply wp_mono.
  { apply (serialize_all_wp _ _ _ _ _ _ base (λ its f, writing base its tco n pco k f) msg_open); [.. | exact Hw | done].
    - by intros its key value f1 (? & _ & _).
    - intros its ks vs f1 [D1 A1 S1] Hk Hv. apply on_request_wp. rewrite D1. eapply wp_mono; [by apply ROpenMsg_ok |].
      intros u [v1 w1] (Hm1 & Ha1 & Hv1). cbn [fst snd] in *. split; [| by split]. split; [done |]. split; [done |].
      by rewrite !length_replicate.
    - intros its key value f1 (D1 & A1 & M1). destruct (GetOffsets_ok _ _ _ _ (Dst f1) _ M1). split; by apply on_request_get.
    - intros its key value key' value' off bytes f1 (D1 & A1 & M1) Lk Lv Hput. rewrite <- D1 in Hput.
      eapply wp_Ret; [by apply write_dst_ok |]. split; [| by split]. split; [done |]. split; [done |]. cbn. by rewrite Lk, Lv.
    - intros its key value f1 (D1 & A1 & M1). apply on_request_wp. rewrite D1. eapply wp_mono.
      { eapply delegate_wp; [done |].
        exact (CloseMsg_ok ComputeCrc32 base its CompressNone (replicate 4 x00) (replicate 4 x00) key (replicate 4 x00) value _ M1 eq_refl eq_refl eq_refl). }
      intros u [v1 w1] [[S1 V1] A2]. cbn [fst snd] in *. split; [by split | by split]. }
  intros u f1 H1. by eapply wp_Ret.
Qed.

(** The factory while the message set is written to [CompressionBuf]. *)
Definition in_compression (items : list byte) (f : TProduceRequestFactory) : Prop :=
  CompressionBuf f = items ∧ in_set [] items (MsgSetWriter f) ∧ writing base [] tco n pco k f.

Definition in_compression_msg (items key value : list byte) (f : TProduceRequestFactory) : Prop :=
  CompressionBuf f = items ++ item key value ∧ in_msg [] items (length key) (length value) (MsgSetWriter f) ∧
  writing base [] tco n pco k f.

Lemma on_compression_get (m : MsgSet.MW nat) o f :
  m (CompressionBuf f, MsgSetWriter f) = (Ret o, (CompressionBuf f, MsgSetWriter f)) →
  on_compression m f = (Ret o, f).
Proof. intros Hm. unfold on_compression, zoom, no_throw. rewrite Hm. cbn [fst snd]. by destruct f. Qed.

Lemma SerializeToCompressionBuf_wp ms f :
  writing base [] tco n pco k f → Forall readable ms → ms ≠ [] →
  Z.of_nat (length (enc_msg_set ComputeCrc32 (plain ms))) ≤ INT32_MAX →
  wp (SerializeToCompressionBuf ComputeCrc32 pool ms) f (λ _ f',
    writing base [] tco n pco k f' ∧ CompressionBuf f' = enc_msg_set ComputeCrc32 (plain ms) ∧ ser f f') no_exn no_fault.
Proof.
  intros Hw Hms Hne Hf. apply wp_massert; [by rewrite bool_decide_false |]. apply wp_bind, on_compression_wp.
  destruct (OpenMsgSet_fresh (CompressionBuf f) (MsgSetWriter f)) as (w1 & Hr1 & Hs1). eapply wp_Ret; [exact Hr1 |].
  apply wp_bind. eapply wp_mono.
  { apply (serialize_all_wp _ _ _ _ _ _ [] in_compression in_compression_msg); [.. | | done].
    - by intros its key value f1 (? & _ & _).
    - intros its ks vs f1 (D1 & S1 & R1) Hk Hv. apply on_compression_wp. rewrite D1.
      eapply wp_mono; [by apply (OpenMsg_ok [] its) |].
      intros u [v1 w2] (Hm1 & Hv1). cbn [fst snd app] in *. split; [| by split]. split; [done |]. split; [by rewrite !length_replicate |].
      destruct R1. by split.
    - intros its key value f1 (D1 & M1 & R1). destruct (GetOffsets_ok _ _ _ _ (CompressionBuf f1) _ M1).
      split; by apply on_compression_get.
    - intros its key value key' value' off bytes f1 (D1 & M1 & R1) Lk Lv Hput. cbn [app] in Hput. rewrite <- D1 in Hput.
      eapply wp_Ret; [by apply write_compression_ok |]. split; [| by split]. split; [done |].
      split; [cbn; by rewrite Lk, Lv |]. destruct R1. by split.
    - intros its key value f1 (D1 & M1 & R1). apply on_compression_wp. rewrite D1. eapply wp_mono.
      { exact (CloseMsg_ok ComputeCrc32 [] its CompressNone (replicate 4 x00) (replicate 4 x00) key (replicate 4 x00) value _ M1 eq_refl eq_refl eq_refl). }
      intros u [v1 w2] [S1 V1]. cbn [fst snd app] in *. split; [| by split]. split; [done |]. split; [done |].
      destruct R1. by split.
    - split; [done |]. split; [done |]. destruct Hw. by split. }
  intros u f1 [(D1 & S1 & R1) E1]. cbn [app] in *. apply wp_bind, on_compression_wp. rewrite D1.
  destruct (CloseMsgSet_ok [] _ _ S1 Hf) as (w2 & Hr2). cbn [app] in Hr2. eapply wp_Ret; [exact Hr2 |].
  eapply wp_Ret; [reflexivity |]. split_and!; [destruct R1; by split | done |].
  etrans; [| by etrans]. by split.
Qed.

Lemma RollbackOpenMsg_wp ks vs rest f :
  Dst f = base ++ rest → at_set base tco n pco k (RequestWriter f) →
  in_msg base [] ks vs (Request.MsgSetWriter (RequestWriter f)) →
  wp (on_request Request.RollbackOpenMsg) f (λ _ f', writing base [] tco n pco k f' ∧ ser f f') no_exn no_fault.
Proof.
  intros Hd Ha Hm. apply on_request_wp. rewrite Hd. eapply wp_mono.
  { eapply delegate_wp; [done |]. exact (RollbackOpenMsg_ok base [] ks vs rest _ Hm). }
  intros u [v1 w1] [[S1 V1] A1]. cbn [fst snd app] in *. rewrite app_nil_r in V1. split; [split; cbn | by split]; try done.
  by rewrite app_nil_r.
Qed.

(** The compressed bytes that are sent, given the codec. *)
Definition compressed_with (codec : TCompressionCodec) (info : TCompressionInfo) (buf : list byte) : option (list byte) :=
  match ComputeCompressedResultBufSpace codec buf (CompressionLevel info) with
  | None => None
  | Some space =>
      match Compress codec buf space (CompressionLevel info) with
      | None => None
      | Some z => if ratio_accepted (MaxRatio conf) (length z) (length buf) then Some z else None
      end
  end.

Lemma write_compressed_wp codec info f :
  writing base [] tco n pco k f →
  (∀ buf space l z, Compress codec buf space l = Some z → (length z ≤ space)%nat) →
  (∀ space, ComputeCompressedResultBufSpace codec (CompressionBuf f) (CompressionLevel info) = Some space →
    Z.of_nat space ≤ INT32_MAX) →
  wp (write_compressed ComputeCrc32 conf codec info) f (λ b f',
    match compressed_with codec info (CompressionBuf f) with
    | Some z => b = true ∧ writing base (enc_msg ComputeCrc32 (CompressionType info, [], z)) tco n pco k f'
    | None => b = false ∧ writing base [] tco n pco k f'
    end ∧ ser f f') no_exn no_fault.
Proof.
  intros Hw Hz Hspace. unfold write_compressed, compressed_with. wstep.
  destruct (ComputeCompressedResultBufSpace _ _ _) as [space |] eqn:Es; [| by eapply wp_Ret].
  specialize (Hspace space eq_refl). destruct Hw as [D0 A0 S0]. apply wp_bind, on_request_wp. rewrite D0.
  eapply wp_mono; [apply ROpenMsg_ok; [done | done | cbn; lia | done] |].
  intros u [v1 w1] (M1 & A1 & V1). cbn [fst snd app] in *. set (f1 := with_request _ _).
  assert (ser f f1) as S1 by by split.
  eapply wp_bind_Ret. { apply on_request_get; [exact A1 |]. exact (proj2 (GetOffsets_ok _ _ _ _ _ _ M1)). }
  wstep. subst v1.
  assert (length (Dst f1) = length base + 26 + space)%nat as Ld.
  { unfold f1, with_request. cbn [Dst fst]. rewrite length_app, length_open_item, !length_replicate. cbn. lia. }
  cbn [length]. rewrite Ld. apply wp_massert; [boolia |]. apply wp_massert; [boolia |].
  destruct (Compress _ _ _ _) as [z |] eqn:Ec.
  2: { apply wp_bind. eapply wp_mono; [by eapply RollbackOpenMsg_wp |]. intros u2 f2 [W2 S2].
       eapply wp_Ret; [reflexivity |]. split; [done | by etrans]. }
  apply Hz in Ec. set (item0 := λ value, open_item (CompressionType info) (replicate 4 x00) (replicate 4 x00) []
    (replicate 4 x00) value).
  assert (Dst f1 = base ++ [] ++ item0 (replicate (length z) x00 ++ replicate (space - length z) x00)) as Hd1.
  { unfold f1, with_request, item0. cbn [Dst fst app]. rewrite <- replicate_add. by replace (length z + (space - length z))%nat with space by lia. }
  eapply wp_bind_Ret.
  { apply write_dst_ok. rewrite Hd1. apply (vec_write_value_prefix base [] _ _ _ [] _ _ z); try done.
    by rewrite length_replicate. }
  set (f2 := with_request _ _).
  assert (in_msg base [] 0 (length z + (space - length z)) (Request.MsgSetWriter (RequestWriter f2))) as M2.
  { cbn. by replace (length z + (space - length z))%nat with space by lia. }
  destruct (ratio_accepted _ _ _).
  2: { apply wp_bind. eapply wp_mono; [by eapply RollbackOpenMsg_wp |]. intros u2 f3 [W2 S2].
       eapply wp_Ret; [reflexivity |]. split; [done |]. etrans; [done |]. etrans; [| done]. by split. }
  apply wp_bind, on_request_wp. eapply wp_mono.
  { eapply delegate_wp; [exact A1 |].
    exact (AdjustValueSize_ok base [] (CompressionType info) (replicate 4 x00) (replicate 4 x00) [] (replicate 4 x00)
      z (space - length z) _ M2). }
  intros u3 [v3 w3] [[M3 V3] A3]. cbn [fst snd] in *. subst v3. apply wp_bind, on_request_wp. eapply wp_mono.
  { eapply delegate_wp; [exact A3 |].
    exact (CloseMsg_ok ComputeCrc32 base [] (CompressionType info) (replicate 4 x00) (replicate 4 x00) [] (replicate 4 x00)
      z _ M3 eq_refl eq_refl eq_refl). }
  intros u4 [v4 w4] [[S4 V4] A4]. cbn [fst snd app] in *. eapply wp_Ret; [reflexivity |]. by split.
Qed.

(** The compressed form of a message set, when it is sent that way. *)
Definition compressed_form (info : TCompressionInfo) (s : TMsgSet) : option (list byte) :=
  match CompressionCodec info with
  | Some codec =>
      if MinCompressionSize info <=? DataSize s
      then compressed_with codec info (enc_msg_set ComputeCrc32 (plain (Contents s)))
      else None
  | None => None
  end.

Definition wire_set (info : TCompressionInfo) (s : TMsgSet) : list wire_msg :=
  match compressed_form info s with
  | Some z => [(CompressionType info, [], z)]
  | None => plain (Contents s)
  end.

(** What the codec promises: the compressed data fits the buffer it was given.
    The sizes of a set that is compressed fit the size fields. *)
Definition codec_ok (info : TCompressionInfo) (s : TMsgSet) : Prop :=
  ∀ codec, CompressionCodec info = Some codec →
    (∀ buf space l z, Compress codec buf space l = Some z → (length z ≤ space)%nat) ∧
    (MinCompressionSize info ≤ DataSize s →
       Z.of_nat (length (enc_msg_set ComputeCrc32 (plain (Contents s)))) ≤ INT32_MAX ∧
       ∀ space, ComputeCompressedResultBufSpace codec (enc_msg_set ComputeCrc32 (plain (Contents s))) (CompressionLevel info) =
         Some space → Z.of_nat space ≤ INT32_MAX).

Lemma WriteOneMsgSet_wp s info f :
  writing base [] tco n pco k f → Forall readable (Contents s) → Contents s ≠ [] → codec_ok info s →
  wp (WriteOneMsgSet ComputeCrc32 pool conf s info) f (λ _ f',
    writing base (enc_msg_set ComputeCrc32 (wire_set info s)) tco n pco k f' ∧ ser f f') no_exn no_fault.
Proof.
  intros Hw Hr Hne Hc. unfold WriteOneMsgSet, wire_set. apply wp_bind.
  set (Q := λ (b : bool) f1, match compressed_form info s with
    | Some z => b = true ∧ writing base (enc_msg_set ComputeCrc32 [(CompressionType info, [], z)]) tco n pco k f1
    | None => b = false ∧ writing base [] tco n pco k f1 end ∧ ser f f1).
  eapply (wp_mono _ _ _ _ Q).
  - unfold Q, compressed_form, codec_ok in *. destruct (CompressionCodec info) as [codec |]; [| by eapply wp_Ret].
    destruct (Hc codec eq_refl) as [Hz Hs]. destruct (Z.leb_spec (MinCompressionSize info) (DataSize s)); [| by eapply wp_Ret].
    destruct (Hs ltac:(done)) as [Hf Hspace]. apply wp_bind. eapply wp_mono; [by apply SerializeToCompressionBuf_wp |].
    intros u f1 (W1 & B1 & S1). eapply wp_mono; [apply write_compressed_wp; [done | done | by rewrite B1] |].
    rewrite B1. intros b f2 [H2 S2]. split; [clear Q | by etrans]. destruct (compressed_with _ _ _); [| done].
    unfold enc_msg_set. cbn [fmap list_fmap concat]. by rewrite app_nil_r.
  - intros b f1 [H1 S1]. destruct (compressed_form info s) as [z |]; destruct H1 as [-> H1].
    + by eapply wp_Ret.
    + eapply wp_mono; [by apply SerializeUncompressedMsgSet_wp |]. intros u f2 [W2 S2]. split; [done | by etrans].
Qed.
End one_set.

Section loops.
Context (info : string → TCompressionInfo).

Definition wire_partition (t : string) (p : Z * TMsgSet) : Z * list wire_msg := (p.1, wire_set (info t) p.2).

Definition wire_topic (t : string * TMultiPartitionGroup) : list byte * list (Z * list wire_msg) :=
  (String.list_byte_of_string t.1, wire_partition t.1 <$> t.2).

Definition in_topic (v : list byte) (tco n pco k : nat) (f : TProduceRequestFactory) : Prop :=
  Dst f = v ∧ at_topic v tco n pco k (RequestWriter f) ∧ ∀ t, info_of f t = info t.

Definition in_request (v : list byte) (tco n : nat) (f : TProduceRequestFactory) : Prop :=
  Dst f = v ∧ at_request v tco n (RequestWriter f) ∧ ∀ t, info_of f t = info t.

Definition set_ok (t : string) (p : Z * TMsgSet) : Prop :=
  Contents p.2 ≠ [] ∧ Forall readable (Contents p.2) ∧ codec_ok (info t) p.2.

Lemma GetTopicData_ser t f :
  ∃ td f', GetTopicData t f = (Ret td, f') ∧ ser f f' ∧ CompressionInfo td = info_of f t ∧
    RequestWriter f' = RequestWriter f ∧ Dst f' = Dst f.
Proof.
  destruct (GetTopicData_run t f) as (td & f' & Hr & [H1 H2 H3 [H4 _] [_ H5] H6] & Hq & Hc & _ & Hi).
  exists td, f'. by repeat split.
Qed.

Lemma write_partition_group_wp t p v tco n pco k f :
  in_topic v tco n pco k f → set_ok t p →
  Z.of_nat (length (enc_partition ComputeCrc32 (wire_partition t p))) ≤ INT32_MAX →
  wp (write_partition_group ComputeCrc32 pool conf t p) f (λ _ f',
    in_topic (v ++ enc_partition ComputeCrc32 (wire_partition t p)) tco n pco (S k) f' ∧ ser f f') no_exn no_fault.
Proof.
  intros (Hd & Ha & Hi) (Hne & Hr & Hc) Hf. unfold write_partition_group. apply wp_bind, on_request_wp. rewrite Hd.
  eapply wp_mono; [by apply ROpenMsgSet_ok |]. intros u [v1 w1] (V1 & A1 & S1). cbn [fst snd] in *.
  set (f1 := with_request _ _). set (base := v ++ _) in *.
  destruct (GetTopicData_ser t f1) as (td & f2 & Hr2 & S2 & I2 & R2 & D2). eapply wp_bind_Ret; [exact Hr2 |].
  assert (CompressionInfo td = info t) as ->. { rewrite I2. apply Hi. }
  apply wp_bind. eapply wp_mono.
  { apply (WriteOneMsgSet_wp base tco n pco k); [| done | done | done]. split.
    - rewrite D2, app_nil_r. exact V1.
    - rewrite R2. exact A1.
    - rewrite R2. exact S1. }
  intros u3 f3 [[D3 A3 I3] S3]. apply on_request_wp. rewrite D3. eapply wp_mono.
  { apply RCloseMsgSet_ok; [exact A3 | exact I3 | done |]. unfold wire_partition, enc_partition in Hf. cbn [fst snd] in Hf.
    rewrite !length_app in Hf. lia. }
  intros u4 [v4 w4] [V4 A4]. cbn [fst snd] in *. assert (ser f f3) as S4. { etrans; [| exact S3]. etrans; [| exact S2]. by split. }
  split; [| etrans; [exact S4 | by split]]. split; [exact V4 |]. split; [rewrite V4 in A4; exact A4 |].
  intros t'. rewrite <- Hi. exact (se_info _ _ S4 t').
Qed.

Lemma write_partition_groups_wp t ps v tco n pco k f :
  in_topic v tco n pco k f → Forall (set_ok t) ps →
  Z.of_nat (length (concat (enc_partition ComputeCrc32 <$> (wire_partition t <$> ps)))) ≤ INT32_MAX →
  wp (mmap (write_partition_group ComputeCrc32 pool conf t) ps) f (λ _ f',
    in_topic (v ++ concat (enc_partition ComputeCrc32 <$> (wire_partition t <$> ps))) tco n pco (k + length ps) f' ∧
    ser f f') no_exn no_fault.
Proof.
  intros Ha Hps. revert v k f Ha. induction Hps as [| p ps Hp Hps IH]; intros v k f Ha Hf.
  - eapply wp_Ret; [reflexivity |]. cbn. by rewrite app_nil_r, Nat.add_0_r.
  - cbn [fmap list_fmap concat mmap length] in *. rewrite length_app in Hf. apply wp_bind.
    eapply wp_mono; [apply write_partition_group_wp; [exact Ha | done | lia] |]. intros u f1 [H1 S1]. apply wp_bind.
    eapply wp_mono; [apply IH; [exact H1 | lia] |]. intros u2 f2 [H2 S2]. eapply wp_Ret; [reflexivity |].
    rewrite app_assoc, Nat.add_succ_r. split; [exact H2 | by etrans].
Qed.

Definition topic_ok (t : string * TMultiPartitionGroup) : Prop :=
  String.list_byte_of_string t.1 ≠ [] ∧ t.2 ≠ [] ∧ Forall (set_ok t.1) t.2.

Lemma write_topic_group_wp t v tco n f :
  in_request v tco n f → topic_ok t → Z.of_nat (length (enc_topic ComputeCrc32 (wire_topic t))) ≤ INT32_MAX →
  wp (write_topic_group ComputeCrc32 pool conf t) f (λ _ f',
    in_request (v ++ enc_topic ComputeCrc32 (wire_topic t)) tco (S n) f' ∧ ser f f') no_exn no_fault.
Proof.
  intros (Hd & Ha & Hi) (Hn & Hne & Hps) Hf. unfold write_topic_group. apply wp_bind, on_request_wp. rewrite Hd.
  eapply wp_mono; [by apply ROpenTopic_ok |]. intros u [v1 w1] [V1 A1]. cbn [fst snd] in *.
  apply wp_massert; [by rewrite bool_decide_false |]. apply wp_bind. eapply wp_mono.
  { apply write_partition_groups_wp; [split; [exact V1 |]; split; [rewrite V1 in A1; exact A1 | exact Hi] | exact Hps |].
    unfold wire_topic, enc_topic in Hf. cbn [fst snd] in Hf. rewrite !length_app in Hf. lia. }
  intros u2 f2 [(D2 & A2 & I2) S2]. apply on_request_wp. rewrite D2. cbn [Nat.add] in A2.
  rewrite <- !app_assoc in *. set (name := String.list_byte_of_string t.1) in *.
  eapply wp_mono.
  { apply (RCloseTopic_ok v (WriteInt16ToHeader (swrap 16 (size_or_minus_one (length name))) ++ name) (replicate 4 x00)).
    - rewrite <- !app_assoc, length_app, length_WriteInt16. rewrite Nat.add_assoc. exact A2.
    - done. }
  intros u3 [v3 w3] [V3 A3]. cbn [fst snd] in *. rewrite <- !app_assoc in V3. rewrite V3 in A3.
  assert (ser f f2) as S3. { etrans; [| exact S2]. by split. }
  assert (v3 = v ++ enc_topic ComputeCrc32 (wire_topic t)) as V3'.
  { rewrite V3. unfold enc_topic, wire_topic. cbn [fst snd]. by rewrite length_fmap. }
  rewrite <- V3, V3' in A3. split; [| etrans; [exact S3 | by split]]. split; [exact V3' |]. split; [exact A3 | exact I2].
Qed.

Lemma write_topic_groups_wp ts v tco n f :
  in_request v tco n f → Forall topic_ok ts →
  Z.of_nat (length (concat (enc_topic ComputeCrc32 <$> (wire_topic <$> ts)))) ≤ INT32_MAX →
  wp (mmap (write_topic_group ComputeCrc32 pool conf) ts) f (λ _ f',
    in_request (v ++ concat (enc_topic ComputeCrc32 <$> (wire_topic <$> ts))) tco (n + length ts) f' ∧ ser f f')
    no_exn no_fault.
Proof.
  intros Ha Hts. revert v n f Ha. induction Hts as [| t ts Ht Hts IH]; intros v n f Ha Hf.
  - eapply wp_Ret; [reflexivity |]. cbn. by rewrite app_nil_r, Nat.add_0_r.
  - cbn [fmap list_fmap concat mmap length] in *. rewrite length_app in Hf. apply wp_bind.
    eapply wp_mono; [apply write_topic_group_wp; [exact Ha | done | lia] |]. intros u f1 [H1 S1]. apply wp_bind.
    eapply wp_mono; [apply IH; [exact H1 | lia] |]. intros u2 f2 [H2 S2]. eapply wp_Ret; [reflexivity |].
    rewrite app_assoc, Nat.add_succ_r. split; [exact H2 | by etrans].
Qed.

(** The part of [BuildRequest] that serializes. *)
Lemma serialize_request_wp {A} corr_id (r : TAllTopics) f (k : FM A) Q :
  let timeout := swrap 32 (ReplicationTimeout conf) in
  let bytes := enc_request ComputeCrc32 corr_id (ClientId conf) (-1) timeout (wire_topic <$> r) in
  (∀ t, info_of f t = info t) → Forall topic_ok r → Z.of_nat (length (ClientId conf)) ≤ INT16_MAX →
  Z.of_nat (length bytes) ≤ INT32_MAX → (∀ f', Dst f' = bytes → ser f f' → wp k f' Q no_exn no_fault) →
  wp (on_request (Request.OpenRequest corr_id (ClientId conf) (-1) timeout);;
      mmap (write_topic_group ComputeCrc32 pool conf) r;;
      on_request Request.CloseRequest;; k) f Q no_exn no_fault.
Proof.
  intros timeout bytes Hi Hr Hc Hf Hk. unfold bytes, enc_request in *. rewrite !length_app in Hf.
  apply wp_bind, on_request_wp. eapply wp_mono; [by apply OpenRequest_ok |].
  intros u0 [v1 w1] (size & cnt & Ls & Lc & Hv1 & Ha1). cbn [fst snd] in *. subst v1. apply wp_bind.
  set (header := request_header _ _ _ _) in *.
  eapply wp_mono; [apply (write_topic_groups_wp r (size ++ header ++ cnt) (4 + length header) 0); [by split | done | lia] |].
  intros u2 f2 [(D2 & A2 & _) S2]. apply wp_bind, on_request_wp. rewrite D2. rewrite <- !app_assoc. rewrite <- !app_assoc in A2.
  eapply wp_mono.
  { apply CloseRequest_ok; [exact A2 | done | done |]. rewrite !length_app, Lc. rewrite !length_enc_count in Hf. lia. }
  intros u3 [v3 w3] V3. cbn [fst snd] in *. apply Hk; [by rewrite length_fmap |].
  etrans; [| etrans; [exact S2 |]]; by split.
Qed.
End loops.

(** ** Messages of the pool *)

(** The key and the value of [m] are in the live blob [l]. *)
Definition stored_in (m : TMsg) (l : live) : Prop :=
  l_blob l = KeyAndValue m ∧ 0 ≤ KeySize m ≤ Z.of_nat (length (l_bytes l)) ∧ Z.of_nat (length (l_bytes l)) ≤ INT32_MAX.

Definition stored (lv : list live) (m : TMsg) : Prop := Exists (stored_in m) lv.

Lemma stored_readable free lv m : heap_rep pool free lv → stored lv m → readable m.
Proof.
  intros Hh (l & Hl & Hb & Hk & Hf)%Exists_exists. apply list_elem_of_split in Hl as (lv1 & lv2 & ->).
  assert (NumBytes (KeyAndValue m) = Z.of_nat (length (l_bytes l))) as Hn.
  { rewrite <- Hb. destruct Hh as [_ (_ & [Hl _]%Forall_cons)%Forall_app]. apply Hl. }
  destruct (Read_twice _ _ _ _ _ (Z.to_nat (KeySize m)) (Z.to_nat (GetValueSize m)) Hh ltac:(lia)) as (r1 & r2 & H1 & H2).
  unfold GetValueSize in *. rewrite decide_True in H2 by lia. rewrite Hb in H1.
  assert ((read_value pool m (TReader_new (KeyAndValue m))).1 =
    Ret (take (Z.to_nat (NumBytes (KeyAndValue m) - KeySize m)) (drop (Z.to_nat (KeySize m)) (l_bytes l)))) as Hv.
  { unfold read_value, Skip. unfold Read in H1. unfold GetValueSize. erewrite bind_Ret; [by rewrite H2 |].
    by erewrite bind_Ret by exact H1. }
  split; unfold key_of, value_of, read_key; rewrite ?Hv, ?H1; cbn [fst]; try done.
  - rewrite length_take. lia.
  - rewrite length_take, length_drop. unfold GetValueSize. lia.
  - rewrite !length_take, length_drop. lia.
Qed.
End serialization.

(** ** [BuildRequest] *)

(** What the request of the messages [r] needs: the contract of the codecs, and
    that its size fits the size field. *)
Record serializable (ComputeCrc32 : list byte → Z) (pool : TPool) (conf : factory_conf) (f : TProduceRequestFactory)
    (r : TAllTopics) : Prop := {
  sz_codecs : Forall (λ t : string * TMultiPartitionGroup,
    Forall (λ p : Z * TMsgSet, codec_ok ComputeCrc32 pool (info_of f t.1) p.2) t.2) r;
  sz_fits : Z.of_nat (length (enc_request ComputeCrc32 (CorrIdCounter f + 1) (ClientId conf) (-1)
    (swrap 32 (ReplicationTimeout conf)) (wire_topic ComputeCrc32 pool conf (info_of f) <$> r))) ≤ INT32_MAX
}.

Lemma group_topic_names (P : string → Prop) f l : Forall (λ m, P (Topic m)) l → Forall (λ t, P t.1) (group f l).
Proof.
  induction l as [| m l IH] using rev_ind; [constructor |]. intros [Hl [Hm _]%Forall_cons]%Forall_app.
  rewrite group_snoc. apply sm_upd_Forall; [by apply IH | done | done].
Qed.

Lemma topics_ok ComputeCrc32 pool conf f l :
  Forall (readable pool) l → Forall (λ m, Topic m ≠ "") l → serializable ComputeCrc32 pool conf f (group f l) →
  Forall (topic_ok ComputeCrc32 pool (info_of f)) (group f l).
Proof.
  intros Hr Hn [Hc _]. pose proof (group_full _ f l Hr) as Hfull.
  pose proof (group_topic_names (λ t, t ≠ "") f l Hn) as Hnames. rewrite Forall_forall in *. unfold r_full in Hfull.
  rewrite Forall_forall in Hfull. intros t Ht. destruct (Hfull t Ht) as [Hne Hps]. split; [| split; [done |]].
  - specialize (Hnames t Ht). by destruct (t.1).
  - specialize (Hc t Ht). rewrite Forall_forall in *. intros p Hp. destruct (Hps p Hp). split; [done |]. auto.
Qed.

Lemma assign_readable conf f pool m : readable pool m → readable pool (assign conf f m).
Proof. intros [H1 H2 H3 H4 H5]. unfold assign. destruct (any_partition m); by split. Qed.

Definition with_corr_id (corr_id : Z) (f : TProduceRequestFactory) : TProduceRequestFactory :=
  mkFactory (RequestWriter f) (MsgSetWriter f) (DefaultTopicCompressionInfo f) (FMetadata f) corr_id
    (InputQueue f) (TopicDataMap f) (CompressionBuf f) (Dst f).

(** The metadata and the compression settings are the same. *)
Definition like_setup (f f' : TProduceRequestFactory) : Prop :=
  FMetadata f' = FMetadata f ∧ DefaultTopicCompressionInfo f' = DefaultTopicCompressionInfo f ∧
  ∀ t, info_of f' t = info_of f t.

Lemma BuildRequest_wp ComputeCrc32 pool conf f :
  queue_ok conf f → InputQueue f ≠ [] → (∀ t, ChoiceUsed (chooser_of f t) = false) →
  in_s 32 (CorrIdCounter f + 1) → Z.of_nat (length (ClientId conf)) ≤ INT16_MAX →
  Forall (readable pool) (concat (InputQueue f)) → Forall (λ m, Topic m ≠ "") (concat (InputQueue f)) →
  (∀ a, a `prefix_of` concat (InputQueue f) →
    serializable ComputeCrc32 pool conf f (group f (assign conf f <$> a))) →
  wp (BuildRequest ComputeCrc32 pool conf) f (λ o f', ∃ a b,
    let r := group f (assign conf f <$> a) in
    o = Some (CorrIdCounter f + 1, r) ∧
    concat (InputQueue f) = a ++ b ∧ a ≠ [] ∧ unassigned <$> concat (InputQueue f') = unassigned <$> b ∧
    CorrIdCounter f' = CorrIdCounter f + 1 ∧
    Dst f' = enc_request ComputeCrc32 (CorrIdCounter f + 1) (ClientId conf) (-1) (swrap 32 (ReplicationTimeout conf))
      (wire_topic ComputeCrc32 pool conf (info_of f) <$> r) ∧
    Forall one_topic (InputQueue f') ∧ like_setup f f' ∧ ∀ t, ChoiceUsed (chooser_of f' t) = false) no_exn no_fault.
Proof.
  intros Hq Hne Hidle Hcorr Hcl Hread Hnames Hser. unfold BuildRequest. wstep. unfold IsEmpty.
  destruct (InputQueue f) as [| batch q] eqn:HQ; [done |]. rewrite <- HQ in *. rewrite bool_decide_false by done.
  eapply wp_bind_Ret. { unfold int32_arith. by rewrite decide_True. }
  wstep. set (f0 := mkFactory _ _ _ _ _ _ _ _ _). apply wp_bind. eapply wp_mono.
  { apply (BuildRequestContents_wp conf no_exn no_fault f0); [| exact Hne | exact Hidle].
    destruct Hq as [H1 H2 H3]. by split. }
  intros r f1 (a & b & [Hab Ha -> Hb Hone [S1 S2 S3 _ _ S6] _ _ _ Hch]).
  change (group f0 (assign conf f0 <$> a)) with (group f (assign conf f <$> a)).
  change (InputQueue f0) with (InputQueue f) in Hab. rewrite Hab in Hread, Hnames.
  apply Forall_app in Hread as [Hread _]. apply Forall_app in Hnames as [Hnames _].
  specialize (Hser a ltac:(rewrite Hab; by exists b)). set (l := assign conf f <$> a) in *.
  assert (Forall (readable pool) l ∧ Forall (λ m, Topic m ≠ "") l) as [Hrl Hnl].
  { split; apply Forall_fmap.
    - eapply Forall_impl; [exact Hread |]. intros m. apply assign_readable.
    - eapply Forall_impl; [exact Hnames |]. intros m Hm. unfold compose. by destruct (assign_fields conf f m) as [-> _]. }
  pose proof (topics_ok _ _ _ _ _ Hrl Hnl Hser) as Htop. destruct Hser as [_ Hfits].
  apply wp_massert.
  { rewrite bool_decide_false; [done |]. intros E. destruct (group_msgs f l) as [Hp _]. rewrite E in Hp.
    apply Permutation_nil, fmap_nil_inv in Hp. done. }
  apply (serialize_request_wp _ _ _ (info_of f)); [exact S6 | done | done | done |].
  intros f2 D2 [E1 E2 E3 E4 E5 E6]. eapply wp_Ret; [reflexivity |]. exists a, b. split_and!; try done.
  - by rewrite E4.
  - by rewrite E3, S3.
  - by rewrite E4.
  - split_and!; [by rewrite E1, S1 | by rewrite E2, S2 |]. intros t. rewrite E5, S6. done.
  - intros t. rewrite E6. by destruct (Hch t) as (_ & ? & _).
Qed.

(** C21: The bytes of a request.  When the messages' keys and values are in the
    pool, the codecs stay within the buffer they are given and the request fits
    its size field, [BuildRequest] fails no assertion and writes no byte out of
    place: it returns the next correlation ID and the first messages [a] of the
    queue, grouped, and the caller's vector holds exactly the encoding of that
    request.  A message set of a compressed topic whose size reaches the minimum is
    one message with the compressed set as its value, if the codec succeeds and the
    compression ratio is acceptable; otherwise (and after a rollback of the message
    already opened) it is the plain messages. *)
Theorem BuildRequest_bytes ComputeCrc32 pool free lv conf f :
  heap_rep pool free lv → Forall (stored lv) (concat (InputQueue f)) →
  queue_ok conf f → InputQueue f ≠ [] → (∀ t, ChoiceUsed (chooser_of f t) = false) →
  in_s 32 (CorrIdCounter f + 1) → Z.of_nat (length (ClientId conf)) ≤ INT16_MAX →
  Forall (λ m, Topic m ≠ "") (concat (InputQueue f)) →
  (∀ a, a `prefix_of` concat (InputQueue f) →
    serializable ComputeCrc32 pool conf f (group f (assign conf f <$> a))) →
  ∃ a b f', let r := group f (assign conf f <$> a) in
    BuildRequest ComputeCrc32 pool conf f = (Ret (Some (CorrIdCounter f + 1, r)), f') ∧
    concat (InputQueue f) = a ++ b ∧ a ≠ [] ∧ unassigned <$> concat (InputQueue f') = unassigned <$> b ∧
    CorrIdCounter f' = CorrIdCounter f + 1 ∧
    Dst f' = enc_request ComputeCrc32 (CorrIdCounter f + 1) (ClientId conf) (-1) (swrap 32 (ReplicationTimeout conf))
      (wire_topic ComputeCrc32 pool conf (info_of f) <$> r).
Proof.
  intros Hh Hst Hq Hne Hidle Hcorr Hcl Hn Hser.
  assert (Forall (readable pool) (concat (InputQueue f))) as Hr.
  { eapply Forall_impl; [exact Hst |]. intros m. by apply (stored_readable pool free). }
  pose proof (BuildRequest_wp ComputeCrc32 pool conf f Hq Hne Hidle Hcorr Hcl Hr Hn Hser) as Hw. unfold wp in Hw.
  destruct (BuildRequest ComputeCrc32 pool conf f) as [[o | e | x] f']; [| done..].
  destruct Hw as (a & b & -> & H1 & H2 & H3 & H4 & H5 & _). exists a, b, f'. split_and!; done.
Qed.

(** A sum in place of the CRC. *)
Definition ex_sum (l : list byte) : Z := foldr (λ b s, uwrap 32 (Z.of_N (Byte.to_N b) + s)) 0 l.

Lemma storing_ok ComputeCrc32 pool info s :
  match CompressionCodec info with Some c => c = storing | None => True end →
  Z.of_nat (length (enc_msg_set ComputeCrc32 (plain pool (Contents s)))) ≤ INT32_MAX → codec_ok ComputeCrc32 pool info s.
Proof.
  intros Hc Hl codec Hi. rewrite Hi in Hc. subst codec. split.
  - intros buf space l z. cbn. destruct (Nat.leb_spec (length buf) space); [| done]. intros [= ->]. done.
  - intros _. split; [done |]. cbn. by intros space [= <-].
Qed.

Definition ex_request (k : nat) : TAllTopics :=
  group ex_factory (assign ex_conf ex_factory <$> take k (concat (InputQueue ex_factory))).

Definition ex_fits (k : nat) : bool :=
  forallb (λ t : string * TMultiPartitionGroup, forallb (λ p : Z * TMsgSet,
    Z.of_nat (length (enc_msg_set ex_sum (plain ex_pool1 (Contents p.2)))) <=? INT32_MAX) t.2) (ex_request k) &&
  (Z.of_nat (length (enc_request ex_sum (CorrIdCounter ex_factory + 1) (ClientId ex_conf) (-1)
    (swrap 32 (ReplicationTimeout ex_conf)) (wire_topic ex_sum ex_pool1 ex_conf (info_of ex_factory) <$> ex_request k)))
   <=? INT32_MAX).

Lemma ex_info t : match CompressionCodec (info_of ex_factory t) with Some c => c = storing | None => True end.
Proof.
  unfold info_of. cbn [TopicDataMap ex_factory]. destruct (decide (t = "t")) as [-> | Hne].
  - by rewrite lookup_singleton_eq.
  - by rewrite lookup_singleton_ne.
Qed.

Lemma ex_fits_ok k :
  ex_fits k = true → serializable ex_sum ex_pool1 ex_conf ex_factory (ex_request k).
Proof.
  intros [H1 H2%Z.leb_le]%andb_true_iff. split; [| exact H2]. apply Forall_forall. intros t Ht. apply Forall_forall. intros p Hp.
  rewrite forallb_forall in H1. specialize (H1 t ltac:(by apply list_elem_of_In)). cbv beta in H1.
  rewrite forallb_forall in H1. specialize (H1 p ltac:(by apply list_elem_of_In)). apply Z.leb_le in H1.
  apply storing_ok; [apply ex_info | exact H1].
Qed.

Lemma ex_serializable a :
  a `prefix_of` concat (InputQueue ex_factory) →
  serializable ex_sum ex_pool1 ex_conf ex_factory (group ex_factory (assign ex_conf ex_factory <$> a)).
Proof.
  intros [b Hb]. assert (take (length a) (concat (InputQueue ex_factory)) = a) as Ha.
  { by rewrite Hb, take_app_length. }
  assert (length a ≤ 3)%nat as Hl. { apply (f_equal length) in Hb. rewrite length_app in Hb. cbn in Hb. lia. }
  rewrite <- Ha. apply ex_fits_ok.
  assert (forallb ex_fits (seq 0 4) = true) as Hf by (vm_compute; reflexivity).
  rewrite forallb_forall in Hf. apply Hf, in_seq. lia.
Qed.

Lemma BuildRequest_bytes_witness :
  ∃ a b f', let r := group ex_factory (assign ex_conf ex_factory <$> a) in
    BuildRequest ex_sum ex_pool1 ex_conf ex_factory = (Ret (Some (7, r)), f') ∧
    concat (InputQueue ex_factory) = a ++ b ∧
    Dst f' = enc_request ex_sum 7 [x64] (-1) (swrap 32 1000)
      (wire_topic ex_sum ex_pool1 ex_conf (info_of ex_factory) <$> r).
Proof.
  assert (Forall (stored [ex_live]) (concat (InputQueue ex_factory))) as Hst.
  { repeat (apply Forall_cons; split; [apply Exists_cons; left; split; [reflexivity | by vm_compute] |]). apply Forall_nil_2. }
  destruct (BuildRequest_bytes ex_sum ex_pool1 [0%nat] [ex_live] ex_conf ex_factory ex_pool1_heap Hst ex_queue_ok
    ltac:(discriminate) ex_idle ltac:(by vm_compute) ltac:(by vm_compute)
    ltac:(repeat (apply Forall_cons; split; [discriminate |]); apply Forall_nil_2) ex_serializable)
    as (a & b & f' & H1 & H2 & _ & _ & _ & H3).
  exact (ex_intro _ a (ex_intro _ b (ex_intro _ f' (conj H1 (conj H2 H3))))).
Defined.
