(* ===== verification/RequestSize.v ===== *)
(** * The size of a produce request

    A bound on the bytes of a request from the messages it contains, with which
    the hypotheses of [BuildRequest] hold for every choice of messages and
    partitions that the factory can make. *)
From S2P Require Import Prelude FieldAccess Capped Msg AnomalyTracker BrokerMsgQueue Metadata Wire ProduceResponse.
From S2P Require Import StdMap ResponseProcessor ProduceRequest RequestFactory RequestBytes.

(** What a message can add to a request: its own bytes and header, the headers of
    the partition and the topic if it is alone in them, and the header of the
    message that holds a compressed set. *)
Definition weight (m : TMsg) : Z :=
  data_size m + Z.of_nat (length (String.list_byte_of_string (Topic m))) + 66.

Definition total_weight (l : list TMsg) : Z := sumZ (weight <$> l).

(** The room that the size field leaves for the messages. *)
Definition request_room (conf : factory_conf) : Z := INT32_MAX - 26 - Z.of_nat (length (ClientId conf)).

(** What a codec promises: its output fits the space it asked for, which fits the
    size field; and compressed data that is sent is not larger than the original
    ([MaxCompressionRatio] is at most 1). *)
Record codec_contract (conf : factory_conf) (info : TCompressionInfo) : Prop := {
  cc_fits : ∀ codec, CompressionCodec info = Some codec →
    ∀ buf space l z, Compress codec buf space l = Some z → (length z ≤ space)%nat;
  cc_space : ∀ codec, CompressionCodec info = Some codec →
    ∀ buf space, Z.of_nat (length buf) ≤ request_room conf →
      ComputeCompressedResultBufSpace codec buf (CompressionLevel info) = Some space → Z.of_nat space ≤ INT32_MAX;
  cc_smaller : ∀ codec, CompressionCodec info = Some codec →
    ∀ buf z, Z.of_nat (length buf) ≤ request_room conf → compressed_with conf codec info buf = Some z →
      (length z ≤ length buf)%nat
}.

Definition sized (m : TMsg) : Prop := 0 ≤ KeySize m ≤ NumBytes (KeyAndValue m).

(** The messages of a topic and a partition are of that topic and partition. *)
Definition r_placed (r : TAllTopics) : Prop :=
  Forall (λ t : string * TMultiPartitionGroup, Forall (λ p : Z * TMsgSet,
    Forall (λ m, Topic m = t.1 ∧ Partition m = p.1) (Contents p.2)) t.2) r.

Lemma group_placed f l : r_placed (group f l).
Proof.
  induction l as [| m l IH] using rev_ind; [constructor |]. rewrite group_snoc.
  apply sm_upd_Forall; [exact IH | |]; cbn [fst snd].
  - apply sm_upd_Forall; [constructor | |]; cbn [fst snd push_msg Contents]; [by repeat constructor |].
    intros s Hs. apply Forall_app. by repeat constructor.
  - intros v Hv. apply sm_upd_Forall; [exact Hv | |]; cbn [fst snd push_msg Contents]; [by repeat constructor |].
    intros s Hs. apply Forall_app. by repeat constructor.
Qed.

Lemma sumZ_cons x l : sumZ (x :: l) = x + sumZ l.
Proof. done. Qed.

Section size.
Context (ComputeCrc32 : list byte → Z) (pool : TPool) (conf : factory_conf) (info : string → TCompressionInfo).
Context (codecs : ∀ t, codec_contract conf (info t)).

Lemma total_weight_app l k : total_weight (l ++ k) = total_weight l + total_weight k.
Proof. unfold total_weight. by rewrite fmap_app, sumZ_app. Qed.

Lemma plain_size l :
  Forall (readable pool) l → Forall sized l →
  Z.of_nat (length (enc_msg_set ComputeCrc32 (plain pool l))) = sumZ ((λ m, data_size m + 26) <$> l).
Proof.
  intros Hr Hs. induction l as [| m l IH]; [done |]. apply Forall_cons in Hr as [[_ _ H3 H4 _] Hr].
  apply Forall_cons in Hs as [Hm Hs]. unfold enc_msg_set, plain in *. cbn [fmap list_fmap concat].
  rewrite length_app, length_enc_msg. cbn [fst snd]. specialize (IH Hr Hs). unfold fmap in IH. rewrite <- H3, <- H4.
  unfold sized, GetValueSize, data_size in *. cbn [sumZ foldr]. fold (sumZ ((λ m, NumBytes (KeyAndValue m) + 26) <$> l)).
  unfold fmap. lia.
Qed.

Lemma weight_bounds m : sized m → data_size m + 66 ≤ weight m ∧ 0 ≤ data_size m.
Proof. unfold weight, sized, data_size. lia. Qed.

Lemma plain_weight l :
  Forall (readable pool) l → Forall sized l →
  Z.of_nat (length (enc_msg_set ComputeCrc32 (plain pool l))) + 40 * Z.of_nat (length l) ≤ total_weight l.
Proof.
  intros Hr Hs. rewrite plain_size by done. unfold total_weight. clear Hr. induction Hs as [| m l Hm Hs IH]; [done |].
  rewrite !fmap_cons, !sumZ_cons. cbn [length]. pose proof (weight_bounds m Hm). lia.
Qed.

(** A message set adds at most its header, and the header of a message. *)
Lemma wire_set_size t s :
  Forall (readable pool) (Contents s) → Forall sized (Contents s) → Contents s ≠ [] →
  total_weight (Contents s) ≤ request_room conf →
  Z.of_nat (length (enc_msg_set ComputeCrc32 (wire_set ComputeCrc32 pool conf (info t) s))) ≤
    Z.of_nat (length (enc_msg_set ComputeCrc32 (plain pool (Contents s)))) + 26.
Proof.
  intros Hr Hs Hne Hw. unfold wire_set, compressed_form. pose proof (plain_weight _ Hr Hs) as Hp.
  destruct (CompressionCodec (info t)) as [codec |] eqn:E; [| lia]. destruct (_ <=? _); [| lia].
  destruct (compressed_with _ _ _ _) as [z |] eqn:Ez; [| lia].
  apply (cc_smaller _ _ (codecs t) _ E) in Ez; [| lia]. unfold enc_msg_set at 1. cbn [fmap list_fmap concat].
  rewrite app_nil_r, length_enc_msg. cbn [fst snd length]. lia.
Qed.

Lemma codec_ok_weight t s :
  Forall (readable pool) (Contents s) → Forall sized (Contents s) →
  total_weight (Contents s) ≤ request_room conf → codec_ok ComputeCrc32 pool (info t) s.
Proof.
  intros Hr Hs Hw codec Hc. pose proof (plain_weight _ Hr Hs) as Hp. unfold request_room in *. split.
  - by apply (cc_fits _ _ (codecs t)).
  - intros _. split; [lia |]. intros space. apply (cc_space _ _ (codecs t) _ Hc). unfold request_room. lia.
Qed.

Definition fine (m : TMsg) : Prop := readable pool m ∧ sized m.

Lemma total_weight_nonneg l : Forall fine l → 0 ≤ total_weight l.
Proof.
  intros Hl. apply sumZ_nonneg, Forall_fmap. eapply Forall_impl; [exact Hl |]. intros m [_ Hm]. cbn.
  pose proof (weight_bounds m Hm). unfold weight in *. lia.
Qed.

Lemma partitions_size t g :
  Forall (λ p : Z * TMsgSet, Contents p.2 ≠ [] ∧ Forall fine (Contents p.2)) g →
  Forall (λ p : Z * TMsgSet, Forall (λ m, Topic m = t) (Contents p.2)) g →
  total_weight (set_msgs g) ≤ request_room conf →
  let name := Z.of_nat (length (String.list_byte_of_string t)) in
  Z.of_nat (length (concat (enc_partition ComputeCrc32 <$> (wire_partition ComputeCrc32 pool conf info t <$> g)))) +
    (6 + name) * Z.of_nat (length g) ≤ total_weight (set_msgs g).
Proof.
  intros Hg Ht Hw name. induction g as [| p g IH]; [cbn; lia |]. apply Forall_cons in Hg as [[Hne Hp] Hg].
  apply Forall_cons in Ht as [Htp Ht]. rewrite set_msgs_cons, total_weight_app in *.
  assert (0 ≤ total_weight (set_msgs g)).
  { apply total_weight_nonneg. unfold set_msgs. apply Forall_concat, Forall_fmap. eapply Forall_impl; [exact Hg |].
    by intros q [_ ?]. }
  assert (Forall (readable pool) (Contents p.2) ∧ Forall sized (Contents p.2)) as [Hr Hs].
  { split; (eapply Forall_impl; [exact Hp |]); by intros m [? ?]. }
  pose proof (total_weight_nonneg _ Hp). specialize (IH Hg Ht ltac:(lia)).
  pose proof (wire_set_size t p.2 Hr Hs Hne ltac:(lia)) as Hset. rewrite plain_size in Hset by done.
  assert (sumZ ((λ m, data_size m + 26) <$> Contents p.2) + (40 + name) * Z.of_nat (length (Contents p.2)) =
    total_weight (Contents p.2)) as He.
  { unfold total_weight. clear -Htp. induction Htp as [| m l Hm Hl IHl]; [cbn; lia |].
    rewrite !fmap_cons, !sumZ_cons. cbn [length]. unfold weight at 1. rewrite Hm. fold name. lia. }
  rewrite !fmap_cons. cbn [concat length]. rewrite length_app. unfold enc_partition at 1, wire_partition at 1.
  cbn [fst snd]. rewrite !length_app, length_WriteInt32, length_enc_count.
  destruct (Contents p.2) as [| m l]; [done |]. cbn [length] in He. rewrite Nat2Z.inj_succ in He |- *.
  assert (0 ≤ (40 + name) * Z.of_nat (length l)) by (apply Z.mul_nonneg_nonneg; lia).
  unfold wire_partition at 1. cbn [snd]. lia.
Qed.

Lemma topics_size r :
  r_full fine r → r_placed r → total_weight (req_msgs r) ≤ request_room conf →
  Z.of_nat (length (concat (enc_topic ComputeCrc32 <$> (wire_topic ComputeCrc32 pool conf info <$> r)))) ≤
    total_weight (req_msgs r).
Proof.
  intros Hr Hp Hw. induction r as [| t r IH]; [done |]. apply Forall_cons in Hr as [[Hne Ht] Hr].
  apply Forall_cons in Hp as [Hpt Hp]. rewrite req_msgs_cons, total_weight_app in *.
  assert (Forall fine (set_msgs t.2) ∧ Forall fine (req_msgs r)) as [Hf1 Hf2].
  { split.
    - unfold set_msgs. apply Forall_concat, Forall_fmap. eapply Forall_impl; [exact Ht |]. by intros q [_ ?].
    - unfold req_msgs, set_msgs. apply Forall_concat, Forall_fmap. eapply Forall_impl; [exact Hr |]. intros q [_ Hq].
      apply Forall_concat, Forall_fmap. eapply Forall_impl; [exact Hq |]. by intros x [_ ?]. }
  pose proof (total_weight_nonneg _ Hf1). pose proof (total_weight_nonneg _ Hf2). specialize (IH Hr Hp ltac:(lia)).
  assert (Forall (λ p : Z * TMsgSet, Forall (λ m, Topic m = t.1) (Contents p.2)) t.2) as Htop.
  { eapply Forall_impl; [exact Hpt |]. intros p Hx. cbv beta in Hx. eapply Forall_impl; [exact Hx |]. by intros m [? _]. }
  pose proof (partitions_size t.1 t.2 Ht Htop ltac:(lia)) as Hparts. cbv zeta in Hparts. rewrite !fmap_cons.
  cbn [concat]. rewrite length_app.
  set (name := String.list_byte_of_string t.1) in *.
  set (parts := concat (enc_partition ComputeCrc32 <$> (wire_partition ComputeCrc32 pool conf info t.1 <$> t.2))) in *.
  assert (length (enc_topic ComputeCrc32 (wire_topic ComputeCrc32 pool conf info t)) =
    (2 + length name + 4 + length parts)%nat) as ->.
  { unfold enc_topic, wire_topic. cbn [fst snd]. rewrite !length_app, length_WriteInt16, length_enc_count. unfold parts, name. lia. }
  assert (1 ≤ Z.of_nat (length t.2)) by (destruct t.2; [done | cbn; lia]).
  assert (0 ≤ (6 + Z.of_nat (length name)) * (Z.of_nat (length t.2) - 1)) by (apply Z.mul_nonneg_nonneg; lia). lia.
Qed.

Lemma length_header corr_id client_id acks timeout :
  length (request_header corr_id client_id acks timeout) = (16 + length client_id)%nat.
Proof. unfold request_header. rewrite !length_app, !length_WriteInt16, !length_WriteInt32. lia. Qed.

Lemma request_size corr_id acks timeout r :
  r_full fine r → r_placed r → total_weight (req_msgs r) ≤ request_room conf →
  Z.of_nat (length (enc_request ComputeCrc32 corr_id (ClientId conf) acks timeout
    (wire_topic ComputeCrc32 pool conf info <$> r))) ≤ INT32_MAX.
Proof.
  intros Hr Hp Hw. pose proof (topics_size r Hr Hp Hw). unfold request_room in Hw. unfold enc_request.
  rewrite !length_app, !length_enc_count, length_header. lia.
Qed.
End size.

(** However the messages [l] are grouped, their request can be serialized. *)
Lemma serializable_weight ComputeCrc32 pool conf f l :
  (∀ t, codec_contract conf (info_of f t)) → Forall (fine pool) l → total_weight l ≤ request_room conf →
  serializable ComputeCrc32 pool conf f (group f l).
Proof.
  intros Hc Hl Hw. pose proof (group_full _ f l Hl) as Hfull. destruct (group_msgs f l) as [Hperm _].
  assert (total_weight (req_msgs (group f l)) = total_weight l) as Hwe.
  { unfold total_weight. by rewrite Hperm. }
  split.
  - apply Forall_forall. intros t Ht. apply Forall_forall. intros p Hp. unfold r_full in Hfull.
    rewrite Forall_forall in Hfull. destruct (Hfull t Ht) as [_ Hg]. rewrite Forall_forall in Hg.
    destruct (Hg p Hp) as [_ Hf]. apply (codec_ok_weight _ _ conf (info_of f)); [done | | |].
    1,2: eapply Forall_impl; [exact Hf |]; by intros m [? ?].
    etrans; [| exact Hw]. rewrite <- Hwe.
    assert (Contents p.2 ⊆+ req_msgs (group f l)) as [k Hk]%submseteq_Permutation.
    { unfold req_msgs. apply list_elem_of_split in Ht as (r1 & r2 & ->). apply list_elem_of_split in Hp as (g1 & g2 & Hg2).
      rewrite fmap_app, concat_app. cbn [fmap list_fmap concat]. rewrite Hg2, set_msgs_app, set_msgs_cons.
      solve_submseteq. }
    assert (total_weight (req_msgs (group f l)) = total_weight (Contents p.2 ++ k)) as ->.
    { unfold total_weight. by rewrite Hk. }
    rewrite total_weight_app. assert (0 ≤ total_weight k); [| lia].
    apply (total_weight_nonneg pool). rewrite <- Hperm, Hk in Hl. by apply Forall_app in Hl as [_ ?].
  - apply request_size; [done | done | apply group_placed | lia].
Qed.

(** ** A factory that can build requests *)

Definition good (conf : factory_conf) (f : TProduceRequestFactory) (m : TMsg) : Prop :=
  msg_ok conf f m ∧ Topic m ≠ "" ∧ sized m.

Record ready (conf : factory_conf) (f : TProduceRequestFactory) : Prop := {
  rd_topics : Forall one_topic (InputQueue f);
  rd_msgs : Forall (good conf f) (concat (InputQueue f));
  rd_weight : total_weight (concat (InputQueue f)) ≤ request_room conf;
  rd_idle : ∀ t, ChoiceUsed (chooser_of f t) = false;
  rd_codecs : ∀ t, codec_contract conf (info_of f t);
  rd_client : Z.of_nat (length (ClientId conf)) ≤ INT16_MAX
}.

Lemma good_like conf f f' m : like_setup f f' → good conf f m → good conf f' m.
Proof.
  intros (H1 & H2 & H3) ((Hs & Hn & Hc) & Ht & Hz). split; [| done]. split.
  - intros Ha. destruct (Hs Ha) as (ch & Hch & Hne). exists ch. split; [| done]. unfold choices in *. by rewrite H1.
  - split; [done |]. unfold compresses in *. by rewrite H3.
Qed.

(** What a message set of a request looks like, whatever the state of its
    messages. *)
Definition request_shape (r : TAllTopics) : Prop :=
  r ≠ [] ∧ NoDup r.*1 ∧ Forall (λ t : string * TMultiPartitionGroup, t.2 ≠ [] ∧ NoDup t.2.*1 ∧
    Forall (λ p : Z * TMsgSet, Contents p.2 ≠ [] ∧ Forall (λ m, Topic m = t.1) (Contents p.2)) t.2) r.

Lemma group_shape f l : l ≠ [] → request_shape (group f l).
Proof.
  intros Hl. split; [| split].
  - intros E. destruct (group_msgs f l) as [Hp _]. rewrite E in Hp. by apply Permutation_nil in Hp.
  - destruct (group_sorted f l) as [Hs _]. by apply (sm_sorted_NoDup String.ltb).
  - pose proof (group_full (λ _, True) f l ltac:(by apply Forall_true)) as Hf. pose proof (group_placed f l) as Hp.
    destruct (group_sorted f l) as [_ Hs]. unfold r_full, r_placed in *. rewrite Forall_forall in *. intros t Ht.
    destruct (Hf t Ht) as [Hne Hc]. split; [done |]. split; [by apply (sm_sorted_NoDup Z.ltb), Hs |].
    specialize (Hp t Ht). rewrite Forall_forall in *. intros p Hpt. split; [by apply Hc |].
    specialize (Hp p Hpt). eapply Forall_impl; [exact Hp |]. by intros m [? _].
Qed.

(** [BuildRequest] on a factory that is ready fails only by the overflow of the
    correlation ID. *)
Lemma BuildRequest_ready ComputeCrc32 pool conf f :
  ready conf f → InputQueue f ≠ [] → Forall (readable pool) (concat (InputQueue f)) →
  wp (BuildRequest ComputeCrc32 pool conf) f (λ o f', ∃ r ts,
    o = Some (CorrIdCounter f + 1, r) ∧ request_shape r ∧
    unassigned <$> (req_msgs r ++ concat (InputQueue f')) ≡ₚ unassigned <$> concat (InputQueue f) ∧
    CorrIdCounter f' = CorrIdCounter f + 1 ∧
    Dst f' = enc_request ComputeCrc32 (CorrIdCounter f + 1) (ClientId conf) (-1) (swrap 32 (ReplicationTimeout conf)) ts ∧
    Z.of_nat (length (Dst f')) ≤ INT32_MAX ∧
    Forall one_topic (InputQueue f') ∧ like_setup f f' ∧ ∀ t, ChoiceUsed (chooser_of f' t) = false)
    no_exn (λ x, x = Overflow).
Proof.
  intros [Ht Hm Hw Hi Hc Hcl] Hne Hr. destruct (decide (in_s 32 (CorrIdCounter f + 1))) as [Hin | Hout].
  2: { unfold BuildRequest. wstep. unfold IsEmpty. rewrite bool_decide_false by done.
       unfold wp. unfold FM. erewrite bind_Fault; [done |]. unfold int32_arith. by rewrite decide_False. }
  assert (Forall sized (concat (InputQueue f)) ∧ Forall (msg_ok conf f) (concat (InputQueue f)) ∧
    Forall (λ m, Topic m ≠ "") (concat (InputQueue f))) as (Hs & Hok & Hn).
  { split_and!; (eapply Forall_impl; [exact Hm |]); by intros m (? & ? & ?). }
  assert (Forall (fine pool) (concat (InputQueue f))) as Hfine.
  { rewrite Forall_forall in *. intros m Hx. split; auto. }
  assert (∀ a, a `prefix_of` concat (InputQueue f) →
    serializable ComputeCrc32 pool conf f (group f (assign conf f <$> a))) as Hser.
  { intros a [b Hab]. rewrite Hab in Hfine, Hw. apply Forall_app in Hfine as [Hfa Hfb].
    rewrite total_weight_app in Hw. pose proof (total_weight_nonneg pool _ Hfb). apply serializable_weight; [done | |].
    - apply Forall_fmap. eapply Forall_impl; [exact Hfa |]. intros m [Hm1 Hm2]. split; [by apply assign_readable |].
      unfold sized, compose, assign in *. by destruct (any_partition m).
    - assert (total_weight (assign conf f <$> a) = total_weight a) as ->; [| lia].
      unfold total_weight. rewrite <- list_fmap_compose. f_equal. apply list_fmap_ext. intros i m _. unfold compose, assign.
      by destruct (any_partition m). }
  eapply wp_weaken.
  - apply BuildRequest_wp; try done.
    split; [done | done |]. assert (set_size (concat (InputQueue f)) ≤ total_weight (concat (InputQueue f))).
    { clear -Hs. unfold set_size, total_weight. induction Hs as [| m l Hm Hl IH]; [done |].
      rewrite !fmap_cons, !sumZ_cons. pose proof (weight_bounds m Hm). unfold SingleMsgOverhead in *. lia. }
    unfold request_room, INT32_MAX in Hw. lia.
  - intros o f' (a & b & -> & Hab & Ha & Hb & H1 & H2 & H3 & H4 & H5).
    eexists _, _. split; [reflexivity |]. split_and!; try done; [| | rewrite H2; apply Hser; rewrite Hab; by exists b].
    + apply group_shape. by destruct a.
    + destruct (group_msgs f (assign conf f <$> a)) as [-> _]. rewrite fmap_app, Hb, Hab, fmap_app.
      rewrite <- list_fmap_compose. f_equiv.
      assert (unassigned ∘ assign conf f <$> a = unassigned <$> a) as ->; [| done].
      apply list_fmap_ext. intros i m _. apply unassigned_assign.
  - done.
  - done.
Qed.
