(* ===== verification/Connector.v ===== *)
(** * The connector
      (dory/msg_dispatch/connector.{h,cc}, util/pause_button.cc,
       base/system_error_codes.{h,cc})

    The thread that sends the messages for one broker and processes the
    responses.  It owns the broker's message queue, the request factory, the
    buffer of the request that is being sent, the queue of requests that wait for
    a response, and the reader of the response stream.  The main loop is a
    sequence of iterations; what [poll()], [send()], [read()], [connect()] and the
    clocks return is an argument.  A handler is one step.  The trackers that all
    threads share are in [Shared]. *)
From S2P Require Import Prelude FieldAccess StreamReader Capped Msg AnomalyTracker Batch PerTopicBatcher BrokerMsgQueue.
From S2P Require Import Metadata Wire ProduceResponse StdMap ResponseProcessor ProduceRequest RequestFactory RequestBytes.

(** ** State *)

Record TInProgressShutdown := mkInProgress { Deadline : Z; FastShutdown : bool }.

Record TShutdownCmd := mkShutdownCmd { OptSlowShutdownStartTime : option Z }.

(** [Sock]: is the socket open.  [PauseButton] and [ShutdownRequest]: is the
    descriptor readable.  [Wired]: the bytes that [send()] took. *)
Record TConnector := mkConnector {
  Sock : bool;
  SendWaitAfterShutdown : list (list TMsg);
  NoAckAfterShutdown : list (list TMsg);
  Shared : TDispatcherSharedState;
  PauseButton : bool;
  OptInProgressShutdown : option TInProgressShutdown;
  CMetadata : option TMetadata;
  OptNextBatchExpiry : option Z;
  CInputQueue : TBrokerMsgQueue;
  Factory : TProduceRequestFactory;
  SendBuf : TBuf;
  PauseInProgress : bool;
  Destroying : bool;
  OptShutdownCmd : option TShutdownCmd;
  ShutdownRequest : bool;
  ShutdownAck : Z;
  CurrentRequest : option TProduceRequest;
  CResponseReader : Reader.TProduceResponseReader;
  CStreamReader : TStreamMsgReader TSizeReader;
  AckWaitQueue : list TProduceRequest;
  NoAckAfterPause : list (list TMsg);
  GotAckAfterPause : list (list TMsg);
  OkShutdown : bool;
  Wired : list byte
}.

#[global] Instance TConnector_settable : Settable TConnector := λ c,
  mkConnector (Sock c) (SendWaitAfterShutdown c) (NoAckAfterShutdown c) (Shared c) (PauseButton c)
    (OptInProgressShutdown c) (CMetadata c) (OptNextBatchExpiry c) (CInputQueue c) (Factory c) (SendBuf c)
    (PauseInProgress c) (Destroying c) (OptShutdownCmd c) (ShutdownRequest c) (ShutdownAck c) (CurrentRequest c)
    (CResponseReader c) (CStreamReader c) (AckWaitQueue c) (NoAckAfterPause c) (GotAckAfterPause c) (OkShutdown c)
    (Wired c).

(** What the constructor and the configuration fix. *)
Record conn_conf := mkConnConf {
  MyBrokerIndex : nat;
  FactoryConf : factory_conf;
  CompressionConf : TCompressionConf;
  MaxFailedDeliveryAttempts : Z;
  KafkaSocketTimeout : Z;
  DispatcherRestartMaxDelay : Z;
  ShutdownMaxDelay : Z
}.

(** [TShutdownOnDestroy], the only exception that [Run] expects. *)
Inductive conn_exn := ShutdownOnDestroy.

Definition CM := M conn_exn TConnector.

(** ** The parts *)

Definition with_queue_tracker (t : TMsgStateTracker) (q : TBrokerMsgQueue) : TBrokerMsgQueue :=
  mkQueue (SenderNotify q) (PerTopicEnabled q) (PerTopicBatcher q) (CombinedTopicsBatcher q) (ReadyList q) t
    (QueueCounters q).

Definition with_shared_tracker (t : TMsgStateTracker) (d : TDispatcherSharedState) : TDispatcherSharedState :=
  mkShared t (ResponseProcessor.AnomalyTracker d) (AckCount d) (Destroyed d).

Definition tracker_of (c : TConnector) : TMsgStateTracker := ResponseProcessor.MsgStateTracker (Shared c).

(** The queue uses the shared tracker. *)
Definition queue_of (c : TConnector) : TBrokerMsgQueue := with_queue_tracker (tracker_of c) (CInputQueue c).

Definition with_queue (q : TBrokerMsgQueue) (c : TConnector) : TConnector :=
  c <| CInputQueue := q |> <| Shared := with_shared_tracker (BrokerMsgQueue.MsgStateTracker q) (Shared c) |>.

Definition on_queue {A} (m : QM A) : CM A := zoom queue_of with_queue (no_throw m).

Definition on_tracker {A} (m : TM A) : CM A :=
  zoom tracker_of (λ t c, c <| Shared := with_shared_tracker t (Shared c) |>) (no_throw m).

Definition on_send_buf {A} (m : BM A) : CM A := zoom SendBuf (λ b c, c <| SendBuf := b |>) (no_throw m).

(** The exceptions of the pool's reader reach [Run], which terminates. *)
Definition on_factory {A} (m : FM A) : CM A := λ c,
  let '(o, f) := m (Factory c) in
  (match o with Ret a => Ret a | Throw _ => Fault Died | Fault x => Fault x end, c <| Factory := f |>).

(** [Ds.PauseButton.Push()]. *)
Definition PauseButton_Push : CM () := modify (λ c, c <| PauseButton := true |>).

(** [!SendBuf.DataIsEmpty()]. *)
Definition SendInProgress : CM bool := e ← on_send_buf DataIsEmpty; mret (negb e).

Section connector.
Context `{HashOrder}.
Context (GetCompressionCodec : TCompressionType → option TCompressionCodec) (ComputeCrc32 : list byte → Z).
Context (conf : conn_conf).

(** The constructor, for the batching configuration of the shared state. *)
Definition TConnector_new (ds : TDispatcherSharedState) (per_topic : option TPerTopicConfig) (combined : TBatchConfig)
    (topic_filter : gset string) (exclude : bool) : TConnector :=
  mkConnector false [] [] ds false None None None
    (TBrokerMsgQueue_new per_topic combined topic_filter exclude (ResponseProcessor.MsgStateTracker ds))
    (TProduceRequestFactory_new GetCompressionCodec (CompressionConf conf)) TBuf_new false false None false 0 None
    Reader.TProduceResponseReader_new
    (TStreamMsgReader_new (-1) (mkSizeReader 4 true false true (4 * 1024 * 1024) (64 * 1024) None None)) [] [] [] true [].

(** ** Operations of other threads *)

Definition SetMetadata (md : TMetadata) : CM () :=
  modify (λ c, c <| CMetadata := Some md |>);;
  on_factory (Init GetCompressionCodec (CompressionConf conf) md).

Definition Dispatch (now : Z) (msg : TMsg) : CM () := on_queue (Put now msg).
Definition DispatchNow (now : Z) (msg : TMsg) : CM () := on_queue (PutNow now msg).
Definition DispatchNow_batch (now : Z) (batch : list (list TMsg)) : CM () := on_queue (PutNow_batch now batch).

Definition StartSlowShutdown (start_time : Z) : CM () :=
  c ← get;
  massert (bool_decide (OptShutdownCmd c = None));;
  modify (λ c, c <| OptShutdownCmd := Some (mkShutdownCmd (Some start_time)) |> <| ShutdownRequest := true |>).

Definition StartFastShutdown : CM () :=
  c ← get;
  massert (bool_decide (OptShutdownCmd c = None));;
  modify (λ c, c <| OptShutdownCmd := Some (mkShutdownCmd None) |> <| ShutdownRequest := true |>).

(** Its end, when the acknowledgement or the end of the thread was seen. *)
Definition WaitForShutdownAck : CM () := modify (λ c, c <| OptShutdownCmd := None |>).

Definition CleanupAfterJoin : CM () :=
  c ← get;
  massert (bool_decide (SendWaitAfterShutdown c = []));;
  massert (bool_decide (NoAckAfterShutdown c = []));;
  massert (negb (Destroying c));;
  modify (λ c, c <| CMetadata := None |>);;
  match CurrentRequest c with
  | Some request =>
      sets ← need AssertFailed (EmptyAllTopics request.2);
      modify (λ c, c <| CurrentRequest := Some (request.1, []) |>
        <| SendWaitAfterShutdown := SendWaitAfterShutdown c ++ sets |>)
  | None => mret ()
  end;;
  modify (λ c, c <| SendWaitAfterShutdown := SendWaitAfterShutdown c ++ GotAckAfterPause c |> <| GotAckAfterPause := [] |>);;
  l ← on_factory GetAll;
  modify (λ c, c <| SendWaitAfterShutdown := SendWaitAfterShutdown c ++ l |>);;
  l ← on_queue BrokerMsgQueue.Reset;
  modify (λ c, c <| SendWaitAfterShutdown := SendWaitAfterShutdown c ++ l |>);;
  modify (λ c, c <| NoAckAfterShutdown := NoAckAfterShutdown c ++ NoAckAfterPause c |> <| NoAckAfterPause := [] |>);;
  sets ← mmap (λ request : TProduceRequest, need AssertFailed (EmptyAllTopics request.2)) (AckWaitQueue c);
  modify (λ c, c <| NoAckAfterShutdown := NoAckAfterShutdown c ++ concat sets |>
    <| AckWaitQueue := (λ request : TProduceRequest, (request.1, [])) <$> AckWaitQueue c |>).

Definition ShutdownWasOk (c : TConnector) : bool := OkShutdown c.

(** The lists go to the caller. *)
Definition GetNoAckQueueAfterShutdown : CM (list (list TMsg)) :=
  c ← get; modify (λ c, c <| NoAckAfterShutdown := [] |>);; mret (NoAckAfterShutdown c).

Definition GetSendWaitQueueAfterShutdown : CM (list (list TMsg)) :=
  c ← get; modify (λ c, c <| SendWaitAfterShutdown := [] |>);; mret (SendWaitAfterShutdown c).

(** ** Connecting *)

(** [connected]: did [ConnectToHost] open the socket. *)
Definition DoConnect (connected : bool) : CM bool :=
  c ← get;
  massert (negb (Sock c));;
  md ← need NullDeref (CMetadata c);
  broker ← need OutOfBounds (Brokers md !! MyBrokerIndex conf);
  massert (InService broker);;
  modify (λ c, c <| Sock := connected |>);;
  mret connected.

Definition ConnectToBroker (connected : bool) : CM bool :=
  success ← DoConnect connected;
  (if success : bool then mret () else PauseButton_Push);;
  mret success.

(** ** Shutdown *)

(** [now] is [GetEpochMilliseconds()]. *)
Definition SetFastShutdownState (now : Z) : CM () :=
  let deadline := uadd now (DispatcherRestartMaxDelay conf) in
  modify (λ c, c <| OptInProgressShutdown := Some (match OptInProgressShutdown c with
    | Some s => mkInProgress (Deadline s `min` deadline) true
    | None => mkInProgress deadline true
    end) |>).

Definition HandleShutdownRequest (now : Z) : CM () :=
  c ← get;
  if Destroying c then throw ShutdownOnDestroy
  else
    cmd ← need AssertFailed (OptShutdownCmd c);
    match OptSlowShutdownStartTime cmd with
    | None => SetFastShutdownState now
    | Some start_time =>
        l ← on_queue GetAllOnShutdown;
        on_factory (Put_batches l);;
        let deadline := uadd start_time (ShutdownMaxDelay conf) in
        modify (λ c, c <| OptInProgressShutdown := Some (match OptInProgressShutdown c with
          | Some s => mkInProgress (Deadline s `min` deadline) (FastShutdown s)
          | None => mkInProgress deadline false
          end) |>)
    end;;
    modify (λ c, c <| ShutdownAck := ShutdownAck c + 1 |> <| ShutdownRequest := false |>).

Definition SetPauseInProgress (now : Z) : CM () :=
  modify (λ c, c <| PauseInProgress := true |>);;
  SetFastShutdownState now.

Definition HandlePauseDetected (now : Z) : CM () := SetPauseInProgress now.

(** ** Input *)

Definition CheckInputQueue (now : Z) (pop_sem : bool) : CM () :=
  '(expiry, ready_msgs) ← on_queue (if pop_sem then Get now else NonblockingGet now);
  modify (λ c, c <| OptNextBatchExpiry := expiry |>);;
  on_factory (Put_batches ready_msgs).

(** ** Sending *)

(** What [send()] returns for the bytes it is given.  An error that is not a lost
    connection is fatal. *)
Inductive send_result := Sent (n : nat) | SendError (errno : Z).

Definition TrySendProduceRequest (send : list byte → send_result) : CM bool :=
  at_ ← on_send_buf StreamReader.Data;
  size ← on_send_buf StreamReader.DataSize;
  c ← get;
  let data := take (Z.to_nat size) (drop (Z.to_nat at_) (StreamReader.Storage (SendBuf c))) in
  match send data with
  | SendError errno =>
      if LostTcpConnection errno then PauseButton_Push;; mret false else crash Died
  | Sent n =>
      modify (λ c, c <| Wired := Wired c ++ take n data |>);;
      on_send_buf (MarkDataConsumed (Z.of_nat n));;
      mret true
  end.

(** The messages of the request that was sent now wait for their ACK. *)
Definition EnterAckWait_group (group : TMultiPartitionGroup) : CM TMultiPartitionGroup :=
  mmap (λ p : Z * TMsgSet,
    l ← on_tracker (MsgEnterAckWait_list (Contents p.2));
    mret (p.1, mkMsgSet (ResponseProcessor.DataSize p.2) l)) group.

Definition EnterAckWait_request (all_topics : TAllTopics) : CM TAllTopics :=
  mmap (λ t : string * TMultiPartitionGroup, g ← EnterAckWait_group t.2; mret (t.1, g)) all_topics.

(** [pool] is the pool that holds the messages' bytes. *)
Definition HandleSockWriteReady (pool : TPool) (send : list byte → send_result) : CM bool :=
  c ← get;
  sending ← SendInProgress;
  massert (Bool.eqb (bool_decide (CurrentRequest c ≠ None)) sending);;
  (if sending : bool then mret ()
   else
     buf ← on_send_buf TakeStorage;
     on_factory (modify (λ f, mkFactory (RequestWriter f) (MsgSetWriter f) (DefaultTopicCompressionInfo f) (FMetadata f)
       (CorrIdCounter f) (InputQueue f) (TopicDataMap f) (CompressionBuf f) buf));;
     r ← on_factory (BuildRequest ComputeCrc32 pool (FactoryConf conf));
     match r with
     | None => crash AssertFailed
     | Some request =>
         modify (λ c, c <| CurrentRequest := Some request |>);;
         c ← get;
         on_send_buf (TBuf_assign (Dst (Factory c)));;
         empty ← on_send_buf DataIsEmpty;
         massert (negb empty)
     end);;
  sent ← TrySendProduceRequest send;
  if negb sent then mret false
  else
    sending ← SendInProgress;
    (if sending : bool then mret ()
     else
       c ← get;
       request ← need NullDeref (CurrentRequest c);
       all_topics ← EnterAckWait_request request.2;
       modify (λ c, c <| AckWaitQueue := AckWaitQueue c ++ [(request.1, all_topics)] |> <| CurrentRequest := None |>));;
    mret true.

(** ** Responses *)

(** A run of the processor on [request]; its exceptions are a value. *)
Definition run_processor (tracker_now : Z) (request : TProduceRequest) (response : list byte)
    : CM ((TAction + Reader.exn) * TProduceResponseProcessor) := λ c,
  let '(o, p) := ProcessResponse tracker_now (MaxFailedDeliveryAttempts conf) request.1 response
    (mkProcessor (Shared c) (CResponseReader c) request.2 [] [] [] []) in
  let c' := c <| Shared := Ds p |> <| CResponseReader := ResponseReader p |> in
  match o with
  | Ret a => (Ret (inl a, p), c')
  | Throw x => (Ret (inr x, p), c')
  | Fault f => (Fault f, c')
  end.

(** The end of the life of messages. *)
Definition destroy_msgs (msgs : list TMsg) : CM () :=
  modify (λ c, c <| Shared := mkShared (tracker_of c) (ResponseProcessor.AnomalyTracker (Shared c))
    (AckCount (Shared c)) (reverse msgs ++ Destroyed (Shared c)) |>).

Definition on_stream {A} (m : RM TSizeReader A) : CM (A + system_error) := λ c,
  let '(o, r) := m (CStreamReader c) in
  (match o with Ret a => Ret (inl a) | Throw x => Ret (inr x) | Fault f => Fault f end,
   c <| CStreamReader := r |>).

(** An operation of the reader that does not read from the socket. *)
Definition on_stream_pure {A} (m : RM TSizeReader A) : CM A :=
  a ← on_stream m;
  match a with inl a => mret a | inr _ => crash Died end.

(** Whether to keep running.  What the processor and the request still hold at
    the end is destroyed. *)
Definition ProcessSingleProduceResponse (now tracker_now : Z) : CM bool :=
  c ← get;
  match AckWaitQueue c with
  | [] => crash AssertFailed
  | request :: queue =>
      massert (bool_decide (StreamReader.State (Impl (CStreamReader c)) = MsgReady));;
      modify (λ c, c <| AckWaitQueue := queue |>);;
      msg ← on_stream_pure GetReadyMsg;
      size ← on_stream_pure GetReadyMsgSize;
      '(result, processor) ← run_processor tracker_now request (take (Z.to_nat size) msg);
      '(keep_running, pause, no_ack) ←
        match result with
        | inl KeepRunning => mret (true, false, MsgsWithoutAcks processor)
        | inl PauseAndDeferFinish => SetPauseInProgress now;; mret (true, true, MsgsWithoutAcks processor)
        | inl PauseAndFinishNow =>
            modify (λ c, c <| NoAckAfterPause := NoAckAfterPause c ++ MsgsWithoutAcks processor |>);;
            mret (false, true, [])
        | inr x => if Reader.TBadProduceResponse x then mret (false, true, MsgsWithoutAcks processor) else crash Died
        end;
      pause_left ←
        (if pause : bool then
           PauseButton_Push;;
           modify (λ c, c <| GotAckAfterPause := GotAckAfterPause c ++ PauseAndResendAckMsgs processor |>);;
           mret []
         else mret (PauseAndResendAckMsgs processor));
      on_factory (PutFront_batches (ImmediateResendAckMsgs processor));;
      destroy_msgs (concat no_ack ++ concat pause_left ++ req_msgs (Request processor));;
      mret (keep_running : bool)
  end.

(** The loop over the responses that have been read; every response takes bytes
    of the buffer. *)
Fixpoint response_loop (fuel : nat) (now tracker_now : Z) (reader_state : StreamReader.TState) : CM bool :=
  match reader_state with
  | ReadNeeded => mret true
  | DataInvalid | AtEnd => PauseButton_Push;; mret false
  | MsgReady =>
      match fuel with
      | O => crash OutOfFuel
      | S fuel =>
          keep_running ← ProcessSingleProduceResponse now tracker_now;
          if negb keep_running then mret false
          else
            reader_state ← on_stream_pure ConsumeReadyMsg;
            c ← get;
            if bool_decide (AckWaitQueue c = []) && bool_decide (reader_state = MsgReady) then
              PauseButton_Push;; mret false
            else response_loop fuel now tracker_now reader_state
      end
  end.

(** [Wr::read] is fatal on an error that is not a lost connection. *)
Definition HandleSockReadReady (now tracker_now : Z) (res : read_result) : CM bool :=
  c ← get;
  massert (negb (bool_decide (AckWaitQueue c = [])));;
  match res with
  | ReadError errno => if LostTcpConnection errno then mret () else crash Died
  | ReadBytes _ => mret ()
  end;;
  r ← on_stream (StreamReader.Read res);
  match r with
  | inr (SystemError errno) => massert (LostTcpConnection errno);; PauseButton_Push;; mret false
  | inl reader_state =>
      c ← get;
      response_loop (length (StreamReader.Storage (StreamReader.Buf (Impl (CStreamReader c))))) now tracker_now reader_state
  end.

(** ** The main loop *)

Definition AdjustTimeoutByDeadline (initial_timeout now deadline : Z) : Z :=
  let full_deadline_timeout := if deadline <? now then 0 else usub deadline now in
  let deadline_timeout := if INT32_MAX <? full_deadline_timeout then INT32_MAX else swrap 32 full_deadline_timeout in
  if initial_timeout <? 0 then deadline_timeout else initial_timeout `min` deadline_timeout.

(** What the descriptors are polled for. *)
Record poll_plan := mkPlan {
  PollTimeout : Z;
  PollOut : bool;
  PollIn : bool;
  PollPause : bool;
  PollInput : bool
}.

(** [None]: nothing is left to do. *)
Definition PrepareForPoll (now : Z) : CM (option poll_plan) :=
  c ← get;
  let need_sock_read := negb (bool_decide (AckWaitQueue c = [])) in
  massert (negb (PauseInProgress c) ||
    match OptInProgressShutdown c with Some s => FastShutdown s | None => false end);;
  sending ← SendInProgress;
  let plan (need_sock_write need_shutdown_timeout need_batch_timeout : bool) : poll_plan :=
    let t := if need_sock_write || need_sock_read then swrap 32 (uwrap 64 (KafkaSocketTimeout conf * 1000)) else -1 in
    let t := match OptInProgressShutdown c with
      | Some s => if need_shutdown_timeout then AdjustTimeoutByDeadline t now (Deadline s) else t
      | None => t
      end in
    let t := match OptNextBatchExpiry c with
      | Some e => if need_batch_timeout then AdjustTimeoutByDeadline t now (uwrap 64 e) else t
      | None => t
      end in
    mkPlan t need_sock_write need_sock_read (negb (PauseInProgress c)) (bool_decide (OptInProgressShutdown c = None)) in
  if sending : bool then mret (Some (plan true false false))
  else
    match OptInProgressShutdown c with
    | Some s =>
        let need_sock_write := negb (IsEmpty (Factory c)) && negb (FastShutdown s) in
        if negb need_sock_write && negb need_sock_read then mret None
        else mret (Some (plan need_sock_write true
          (bool_decide (is_Some (OptNextBatchExpiry c)) && negb (FastShutdown s))))
    | None => mret (Some (plan (negb (IsEmpty (Factory c))) false (bool_decide (is_Some (OptNextBatchExpiry c)))))
    end.

(** What happens in an iteration: the clock before and after [poll()], whether it
    timed out or which descriptors are ready, and the results of the system calls
    that the handlers make. *)
Inductive poll_result :=
| TimedOut
| Ready (shutdown_request pause_button input_queue sock_out sock_in : bool).

Record conn_event := mkEvent {
  StartTime : Z;
  Polled : poll_result;
  FinishClock : Z;
  HandlerClock : Z;
  TrackerClock : Z;
  EvPool : TPool;
  SendRes : list byte → send_result;
  ReadRes : read_result
}.

(** An iteration of the loop of [DoRun]: [true] to go on. *)
Definition iteration (e : conn_event) : CM bool :=
  plan ← PrepareForPoll (StartTime e);
  match plan with
  | None => modify (λ c, c <| OkShutdown := true |>);; mret false
  | Some plan =>
      let finish_time := StartTime e `max` FinishClock e in
      match Polled e with
      | TimedOut =>
          c ← get;
          if (PollOut plan || PollIn plan) &&
             (uwrap 64 (KafkaSocketTimeout conf * 1000) <=? finish_time - StartTime e) then
            PauseButton_Push;; mret false
          else if match OptInProgressShutdown c with Some s => Deadline s <=? finish_time | None => false end then
            modify (λ c, c <| OkShutdown := true |>);; mret false
          else CheckInputQueue finish_time false;; mret true
      | Ready shutdown pause input out in_ =>
          if shutdown then HandleShutdownRequest (HandlerClock e);; mret true
          else if pause then HandlePauseDetected (HandlerClock e);; mret true
          else
            (if input then CheckInputQueue finish_time true else mret ());;
            ok ← (if out then HandleSockWriteReady (EvPool e) (SendRes e) else mret true);
            if negb ok then mret false
            else if in_ then HandleSockReadReady (HandlerClock e) (TrackerClock e) (ReadRes e)
            else mret true
      end
  end.

(** [DoRun] up to the loop: did the thread get there. *)
Definition DoRun_start (connected : bool) (fd : Z) : CM bool :=
  modify (λ c, c <| OkShutdown := false |>);;
  ok ← ConnectToBroker connected;
  if negb ok then mret false
  else on_stream_pure (StreamReader.Reset fd);; mret true.

(** [DoRun] with the events of its iterations; [true] if they ran out. *)
Fixpoint DoRun_loop (events : list conn_event) : CM bool :=
  match events with
  | [] => mret true
  | e :: events =>
      go_on ← iteration e;
      if go_on : bool then DoRun_loop events else mret false
  end.

Definition DoRun (connected : bool) (fd : Z) (events : list conn_event) : CM bool :=
  ok ← DoRun_start connected fd;
  if ok : bool then DoRun_loop events else mret false.

(** The thread: the socket is closed at the end in any case. *)
Definition Run (connected : bool) (fd : Z) (events : list conn_event) : CM () := λ c,
  let '(o, c') :=
    (md ← need AssertFailed (CMetadata c);
     massert (MyBrokerIndex conf <? length (Brokers md))%nat;;
     DoRun connected fd events) c in
  (match o with
   | Ret _ | Throw ShutdownOnDestroy => Ret ()
   | Fault x => Fault x
   end, c' <| Sock := false |>).
End connector.
