(* ===== verification/ConnectorInv.v ===== *)
(** * The connector keeps every message

    The invariant of a connector's state, that every handler of the main loop
    preserves it and fails no assertion, and what happens to the messages: each is
    in one place, or processed; only a response that cannot be parsed makes the
    connector drop messages. *)
From S2P Require Import Prelude FieldAccess StreamReader Capped Msg AnomalyTracker Batch PerTopicBatcher BrokerMsgQueue.
From S2P Require Import Metadata Wire ProduceResponse StdMap ResponseProcessor ProduceRequest RequestFactory RequestBytes.
From S2P Require Import RequestSize Connector.

(** ** What stays of a message *)

(** A message up to its state, its count of failed attempts, and the partition of
    an AnyPartition message. *)
Definition ident (m : TMsg) : TMsg := core (unassigned m).

Definition tag (m : TMsg) : TState * string := (Msg.State m, Topic m).

Lemma ident_forget m m' : forget m = forget m' → ident m = ident m'.
Proof.
  destruct m, m'. unfold forget, ident, core, unassigned, any_partition, SetState, SetPartition. cbn. intros [= -> -> -> -> -> -> -> -> -> ->].
  by destruct (match _ with AnyPartition => _ | PartitionKey => _ end).
Qed.

Lemma ident_core m m' : core m = core m' → ident m = ident m'.
Proof.
  destruct m, m'. unfold ident, core, unassigned, any_partition, SetPartition. cbn. intros [= -> -> -> -> -> -> -> -> ->].
  by destruct (match _ with AnyPartition => _ | PartitionKey => _ end).
Qed.

Lemma ident_unassigned m m' : unassigned m = unassigned m' → ident m = ident m'.
Proof. unfold ident. by intros ->. Qed.

(** From a multiset of one view of the messages to that of a coarser view. *)
Lemma fmap_coarser {A B C} (g : A → B) (h : A → C) (l k : list A) :
  (∀ x y, g x = g y → h x = h y) → g <$> l ≡ₚ g <$> k → h <$> l ≡ₚ h <$> k.
Proof.
  intros Hgh. revert k. induction l as [| x l IH]; intros k Hk.
  - apply Permutation_nil, fmap_nil_inv in Hk. by rewrite Hk.
  - assert (g x ∈ g <$> k) as (y & Hy & (k1 & k2 & ->)%list_elem_of_split)%list_elem_of_fmap.
    { rewrite <- Hk. left. }
    rewrite fmap_app, !fmap_cons in *. rewrite <- Permutation_middle in Hk |- *. rewrite Hy in Hk.
    apply Permutation_cons_inv in Hk. rewrite (Hgh _ _ Hy). constructor. rewrite <- fmap_app in *. by apply IH.
Qed.

Lemma in_state_eq s m : Msg.in_state s m = bool_decide (Msg.State m = s).
Proof. unfold Msg.in_state. by destruct (Msg.State m), s. Qed.

Lemma cnt_tags s t l : cnt s t l = sumZ ((λ x : TState * string, ind (bool_decide (x.1 = s) && bool_decide (x.2 = t))) <$> (tag <$> l)).
Proof.
  unfold cnt. rewrite <- list_fmap_compose. f_equal. apply list_fmap_ext. intros i m _. by rewrite in_state_eq.
Qed.

Lemma new_cnt_tags l : new_cnt l = sumZ ((λ x : TState * string, ind (bool_decide (x.1 = New))) <$> (tag <$> l)).
Proof.
  unfold new_cnt. rewrite <- list_fmap_compose. f_equal. apply list_fmap_ext. intros i m _. by rewrite in_state_eq.
Qed.

(** The trackers' counts are those of the states and the topics. *)
Lemma tracker_ok_tags t l k : tag <$> l ≡ₚ tag <$> k → tracker_ok t l → tracker_ok t k.
Proof.
  intros Hp [Hn Hs]. split.
  - rewrite Hn, !new_cnt_tags. by rewrite Hp.
  - intros topic. rewrite Hs, !cnt_tags. by rewrite Hp.
Qed.

(** Messages that are processed do not count. *)
Lemma tracker_ok_processed t d l :
  Forall (λ m, Msg.State m = Processed) d → tracker_ok t (d ++ l) → tracker_ok t l.
Proof.
  intros Hd [Hn Hs]. assert (new_cnt (d ++ l) = new_cnt l ∧ ∀ s topic, s ≠ Processed → cnt s topic (d ++ l) = cnt s topic l) as [H1 H2].
  { clear Hn Hs. induction Hd as [| m d Hm Hd [IH1 IH2]]; [done |]. unfold new_cnt, cnt in *. cbn [app]. rewrite !fmap_cons.
    cbn [sumZ foldr]. split.
    - rewrite <- IH1, in_state_eq, bool_decide_false by congruence. done.
    - intros s topic Hne. rewrite <- (IH2 s topic Hne), fmap_cons, in_state_eq, bool_decide_false by congruence. done. }
  split; [by rewrite <- H1 |]. intros topic. by rewrite Hs, !H2.
Qed.

Lemma tag_unassigned m m' : unassigned m = unassigned m' → tag m = tag m'.
Proof.
  intros H. assert (tag (unassigned m) = tag m ∧ tag (unassigned m') = tag m') as [<- <-]; [| by rewrite H].
  unfold unassigned. by destruct (any_partition m), (any_partition m').
Qed.

(** ** The messages of a connector *)

Definition current_msgs (c : TConnector) : list TMsg :=
  match CurrentRequest c with Some r => req_msgs r.2 | None => [] end.

Definition ack_wait_msgs (c : TConnector) : list TMsg :=
  concat ((λ r : TProduceRequest, req_msgs r.2) <$> AckWaitQueue c).

(** Those outside of the queue, and all: [p] and [q] are in the batchers of the
    queue. *)
Definition held (c : TConnector) : list TMsg :=
  concat (InputQueue (Factory c)) ++ current_msgs c ++ ack_wait_msgs c ++
  concat (GotAckAfterPause c) ++ concat (NoAckAfterPause c).

Definition all_msgs (p q : list TMsg) (c : TConnector) : list TMsg :=
  p ++ q ++ concat (ReadyList (CInputQueue c)) ++ held c.

(** The configuration of the response stream, as the constructor has it. *)
Definition stream_cfg : TSizeReader := mkSizeReader 4 true false true (4 * 1024 * 1024) (64 * 1024) None None.

Lemma stream_cfg_ok : cfg_ok stream_cfg.
Proof. split; cbn; [tauto | unfold INT32_MAX; lia | lia]. Qed.

Section invariant.
Context `{HashOrder} (ComputeCrc32 : list byte → Z) (conf : conn_conf).

(** The invariant of the parts that hold messages; [o] are the messages of the
    rest of the server. *)
Record msgs_inv (o p q : list TMsg) (c : TConnector) : Prop := {
  mi_queue : q_inv (queue_of c) (held c ++ o) p q;
  mi_topics : Forall one_topic (InputQueue (Factory c));
  mi_sendwait : Forall (λ m, Msg.State m = SendWait)
    (concat (InputQueue (Factory c)) ++ current_msgs c ++ concat (GotAckAfterPause c) ++ concat (NoAckAfterPause c));
  mi_current : match CurrentRequest c with Some r => request_shape r.2 | None => True end;
  mi_ack : Forall (λ r : TProduceRequest, request_wf r.2) (AckWaitQueue c);
  mi_aside : Forall one_topic (GotAckAfterPause c ++ NoAckAfterPause c);
  mi_idle : ∀ t, ChoiceUsed (chooser_of (Factory c) t) = false;
  mi_good : Forall (good (FactoryConf conf) (Factory c)) (all_msgs p q c);
  mi_weight : total_weight (all_msgs p q c) ≤ request_room (FactoryConf conf);
  mi_codecs : ∀ t, codec_contract (FactoryConf conf) (info_of (Factory c) t);
  mi_client : Z.of_nat (length (ClientId (FactoryConf conf))) ≤ INT16_MAX
}.

(** The bytes of the requests with the correlation IDs 1, 2, ... and the contents
    [tss]. *)
Definition wire_of (tss : list (list (list byte * list (Z * list wire_msg)))) : list byte :=
  concat (imap (λ i ts, enc_request ComputeCrc32 (Z.of_nat i + 1) (ClientId (FactoryConf conf)) (-1)
    (swrap 32 (ReplicationTimeout (FactoryConf conf))) ts) tss).

Definition current_id (c : TConnector) : list Z :=
  match CurrentRequest c with Some r => [r.1] | None => [] end.

(** What was sent and what is in the buffer are requests in order; those that wait
    for a response are the last ones, in order, before the one in the buffer. *)
Definition on_wire (data : list byte) (c : TConnector) : Prop :=
  ∃ tss answered, Wired c ++ data = wire_of tss ∧ CorrIdCounter (Factory c) = Z.of_nat (length tss) ∧
    seqZ 1 (CorrIdCounter (Factory c)) = answered ++ (AckWaitQueue c).*1 ++ current_id c.

(** The request in the send buffer. *)
Definition send_inv (c : TConnector) : Prop :=
  ∃ data, buf_rep (SendBuf c) data ∧ (data = [] ↔ CurrentRequest c = None) ∧ on_wire data c.

(** A pause makes the shutdown a fast one. *)
Definition pause_inv (c : TConnector) : Prop :=
  PauseInProgress c = true → ∃ s, OptInProgressShutdown c = Some s ∧ FastShutdown s = true.

(** The stream reader between reads. *)
Definition stream_inv (c : TConnector) : Prop :=
  ∃ data, StreamReader.settled stream_cfg (CStreamReader c) data false ∧ next_frame stream_cfg data = FramePartial ∧
    Storage_size (StreamReader.Buf (Impl (CStreamReader c))) ≤ storage_bound stream_cfg.

(** The lists that the cleanup fills. *)
Definition after_shutdown (c : TConnector) : list (list TMsg) * list (list TMsg) :=
  (SendWaitAfterShutdown c, NoAckAfterShutdown c).

(** What an operation did with the messages: they are the same, except those in
    [lost] and the processed ones that were destroyed. *)
Definition moved (lost p q : list TMsg) (c : TConnector) (p' q' : list TMsg) (c' : TConnector) : Prop :=
  after_shutdown c' = after_shutdown c ∧ ∃ d, Destroyed (Shared c') = reverse lost ++ d ++ Destroyed (Shared c) ∧ Forall (λ m, Msg.State m = Processed) d ∧
    ident <$> (all_msgs p' q' c' ++ lost ++ d) ≡ₚ ident <$> all_msgs p q c.

Lemma moved_refl p q c : moved [] p q c p q c.
Proof. split; [done |]. exists []. split_and!; [done | done |]. by rewrite !app_nil_r. Qed.

Lemma moved_trans lost p q c p1 q1 c1 p2 q2 c2 :
  moved [] p q c p1 q1 c1 → moved lost p1 q1 c1 p2 q2 c2 → moved lost p q c p2 q2 c2.
Proof.
  intros (A1 & d1 & D1 & S1 & P1) (A2 & d2 & D2 & S2 & P2). split; [congruence |]. exists (d2 ++ d1). split_and!.
  - rewrite D2, D1. cbn. by rewrite <- app_assoc.
  - by apply Forall_app.
  - cbn [app] in *. rewrite !fmap_app in *. rewrite <- P1, !app_assoc. f_equiv. by rewrite <- P2, <- !app_assoc.
Qed.

(** [msgs_inv] is about these parts. *)
Record same_msgs (c c' : TConnector) : Prop := {
  sm_shared : Shared c' = Shared c;
  sm_queue : CInputQueue c' = CInputQueue c;
  sm_factory : InputQueue (Factory c') = InputQueue (Factory c) ∧ like_setup (Factory c) (Factory c') ∧
    ∀ t, chooser_of (Factory c') t = chooser_of (Factory c) t;
  sm_current : CurrentRequest c' = CurrentRequest c;
  sm_ack : AckWaitQueue c' = AckWaitQueue c;
  sm_aside : GotAckAfterPause c' = GotAckAfterPause c ∧ NoAckAfterPause c' = NoAckAfterPause c;
  sm_after : after_shutdown c' = after_shutdown c
}.

Lemma same_msgs_held c c' : same_msgs c c' → held c' = held c.
Proof.
  intros [_ _ [H1 _] H2 H3 [H4 H5] _]. unfold held, current_msgs, ack_wait_msgs. by rewrite H1, H2, H3, H4, H5.
Qed.

Lemma same_msgs_all p q c c' : same_msgs c c' → all_msgs p q c' = all_msgs p q c.
Proof. intros Hs. unfold all_msgs. by rewrite (same_msgs_held c c' Hs), (sm_queue _ _ Hs). Qed.

(** [send_inv] is about these. *)
Record same_io (c c' : TConnector) : Prop := {
  io_buf : SendBuf c' = SendBuf c;
  io_current : CurrentRequest c' = CurrentRequest c;
  io_ack : AckWaitQueue c' = AckWaitQueue c;
  io_wired : Wired c' = Wired c;
  io_corr : CorrIdCounter (Factory c') = CorrIdCounter (Factory c)
}.

Lemma send_inv_same c c' : same_io c c' → send_inv c → send_inv c'.
Proof.
  intros [H1 H2 H3 H4 H5]. unfold send_inv, on_wire, current_id. by rewrite H1, H2, H3, H4, H5.
Qed.

Lemma like_setup_codecs f f' : like_setup f f' →
  (∀ t, codec_contract (FactoryConf conf) (info_of f t)) → ∀ t, codec_contract (FactoryConf conf) (info_of f' t).
Proof. intros (_ & _ & Hi) Hc t. by rewrite Hi. Qed.

Lemma msgs_inv_same o p q c c' : same_msgs c c' → msgs_inv o p q c → msgs_inv o p q c' ∧ moved [] p q c p q c'.
Proof.
  intros Hs [H1 H2 H3 H4 H5 H6 H7 H8 H9 H10 H11]. pose proof (same_msgs_held _ _ Hs) as Hh.
  pose proof (same_msgs_all p q _ _ Hs) as Ha. destruct Hs as [S1 S2 (S3 & S4 & S5) S6 S7 [S8 S9] S10]. split.
  - split.
    + rewrite Hh. unfold queue_of, tracker_of in *. by rewrite S1, S2.
    + by rewrite S3.
    + unfold current_msgs in *. by rewrite S3, S6, S8, S9.
    + by rewrite S6.
    + by rewrite S7.
    + by rewrite S8, S9.
    + intros t. by rewrite S5.
    + rewrite Ha. eapply Forall_impl; [exact H8 |]. intros m. by apply good_like.
    + by rewrite Ha.
    + by eapply like_setup_codecs.
    + done.
  - split; [done |]. exists []. split_and!; [by rewrite S1 | done |]. by rewrite Ha, !app_nil_r.
Qed.

(** ** Messages that move *)

Lemma good_ident f m : good (FactoryConf conf) f (ident m) ↔ good (FactoryConf conf) f m.
Proof.
  unfold ident, unassigned, good, msg_ok, sendable, sized, data_size, any_partition. by destruct m as [[]].
Qed.

Lemma weight_ident m : weight (ident m) = weight m.
Proof. unfold ident, unassigned, weight, data_size, any_partition. by destruct m as [[]]. Qed.

Lemma Forall_ident (P : TMsg → Prop) l k :
  (∀ m, P (ident m) ↔ P m) → ident <$> l ≡ₚ ident <$> k → Forall P k → Forall P l.
Proof.
  intros HP Hp Hk. assert (∀ l, Forall P (ident <$> l) ↔ Forall P l) as Hf.
  { intros l'. rewrite Forall_fmap. unfold compose. split; (intros Hx; eapply Forall_impl; [exact Hx |]; intros m; apply HP). }
  apply Hf. rewrite Hp. by apply Hf.
Qed.

Lemma total_weight_ident l k : ident <$> l ≡ₚ ident <$> k → total_weight l = total_weight k.
Proof.
  intros Hp. assert (∀ l, total_weight (ident <$> l) = total_weight l) as Hf.
  { intros l'. unfold total_weight. rewrite <- list_fmap_compose. f_equal. apply list_fmap_ext.
    intros i m _. apply weight_ident. }
  rewrite <- Hf, <- (Hf k). unfold total_weight. by rewrite Hp.
Qed.

Lemma good_weight f l : Forall (good (FactoryConf conf) f) l → 0 ≤ total_weight l.
Proof.
  unfold total_weight. induction 1 as [| m l (_ & _ & Hm) Hl IH]; [done |]. rewrite fmap_cons, sumZ_cons.
  pose proof (weight_bounds m Hm). lia.
Qed.

#[global] Instance like_setup_refl : Reflexive like_setup.
Proof. done. Qed.

#[global] Instance like_setup_trans : Transitive like_setup.
Proof. intros f g h (H1 & H2 & H3) (H4 & H5 & H6). split_and!; [congruence | congruence |]. intros t. by rewrite H6. Qed.

(** What the invariant says of all messages stays true. *)
Lemma carry lost o p q c p' q' c' :
  msgs_inv o p q c → moved lost p q c p' q' c' → like_setup (Factory c) (Factory c') →
  Forall (good (FactoryConf conf) (Factory c')) (all_msgs p' q' c') ∧
  total_weight (all_msgs p' q' c') ≤ request_room (FactoryConf conf).
Proof.
  intros Hi (_ & d & _ & _ & Hp) Hl.
  assert (Forall (good (FactoryConf conf) (Factory c)) (all_msgs p' q' c' ++ lost ++ d)) as Hg.
  { eapply Forall_ident; [intros m; apply good_ident | exact Hp | apply Hi]. }
  pose proof (total_weight_ident _ _ Hp) as Hw. rewrite total_weight_app in Hw. apply Forall_app in Hg as [Hg1 Hg2].
  pose proof (good_weight _ _ Hg2). pose proof (mi_weight _ _ _ _ Hi). split; [| lia].
  eapply Forall_impl; [exact Hg1 |]. intros m. by apply good_like.
Qed.

(** ** The queue *)

Lemma queue_of_with q c : queue_of (with_queue q c) = q.
Proof. by destruct q. Qed.

Lemma on_queue_run {A} (m : QM A) c a q' :
  m (queue_of c) = (Ret a, q') → on_queue m c = (Ret a, with_queue q' c).
Proof. intros Hm. unfold on_queue, zoom, no_throw. by rewrite Hm. Qed.

Definition put_back (bs : list (list TMsg)) (c : TConnector) : TConnector :=
  c <| Factory := (Put_batches bs (Factory c)).2 |>.

(** Batches of the queue go to the factory. *)
Lemma queue_to_factory o p q c msgs q' p' r' (e : option Z) :
  msgs_inv o p q c → q_inv q' (concat msgs ++ held c ++ o) p' r' → Forall one_topic msgs →
  Forall (λ m, Msg.State m = SendWait) (concat msgs) →
  forget <$> (p' ++ r' ++ concat (ReadyList q') ++ concat msgs) ≡ₚ
    forget <$> (p ++ q ++ concat (ReadyList (CInputQueue c))) →
  let c' := put_back msgs ((with_queue q' c) <| OptNextBatchExpiry := e |>) in
  msgs_inv o p' r' c' ∧ moved [] p q c p' r' c'.
Proof.
  intros Hi Hq Hone Hsw Hp c'.
  assert (held c' ≡ₚ concat msgs ++ held c) as Hh.
  { unfold held. change (InputQueue (Factory c')) with (InputQueue (Factory c) ++ msgs).
    change (current_msgs c') with (current_msgs c). change (ack_wait_msgs c') with (ack_wait_msgs c).
    change (GotAckAfterPause c') with (GotAckAfterPause c). change (NoAckAfterPause c') with (NoAckAfterPause c).
    rewrite concat_app. perm_lia. }
  assert (moved [] p q c p' r' c') as Hm.
  { split; [done |]. exists []. split_and!; [done | done |]. rewrite app_nil_r. unfold all_msgs. rewrite Hh. change (CInputQueue c') with q'.
    apply (fmap_coarser forget ident _ _ ident_forget) in Hp. clear -Hp. perm_lia. }
  split; [| done]. assert (like_setup (Factory c) (Factory c')) as Hl by done.
  destruct (carry [] o p q c p' r' c' Hi Hm Hl) as [Hg Hw]. destruct Hi as [H1 H2 H3 H4 H5 H6 H7 H8 H9 H10 H11].
  split; try done.
  - eapply q_inv_perm; [| replace (queue_of c') with q' by (by destruct q'); exact Hq]. rewrite Hh. perm_lia.
  - apply Forall_app. done.
  - change (InputQueue (Factory c')) with (InputQueue (Factory c) ++ msgs). rewrite concat_app, <- app_assoc.
    apply Forall_app in H3 as [H3 H3']. apply Forall_app. split; [done |]. by apply Forall_app.
Qed.

Lemma CheckInputQueue_ok now (pop_sem : bool) o p q c :
  msgs_inv o p q c → (pop_sem = true → 0 < SenderNotify (CInputQueue c)) →
  ∃ p' q' c', CheckInputQueue now pop_sem c = (Ret (), c') ∧ msgs_inv o p' q' c' ∧ moved [] p q c p' q' c' ∧ same_io c c' ∧
    CStreamReader c' = CStreamReader c ∧ PauseInProgress c' = PauseInProgress c ∧
    OptInProgressShutdown c' = OptInProgressShutdown c ∧ Destroying c' = Destroying c ∧
    (InputQueue (Factory c) ≠ [] → InputQueue (Factory c') ≠ []).
Proof.
  intros Hi Hn. assert (∃ msgs x' p' q', (if pop_sem then Get now else NonblockingGet now) (queue_of c) = (Ret (next_expiry x', msgs), x') ∧
    q_inv x' (concat msgs ++ held c ++ o) p' q' ∧ Forall one_topic msgs ∧ Forall (λ m, Msg.State m = SendWait) (concat msgs) ∧
    forget <$> (p' ++ q' ++ concat msgs) ≡ₚ forget <$> (p ++ q ++ concat (ReadyList (queue_of c))) ∧ ReadyList x' = [])
    as (msgs & x' & p' & q' & Hr & Hq & Hone & Hsw & Hp & Hrd).
  { pose proof (mi_queue _ _ _ _ Hi) as Hq. destruct pop_sem.
    - destruct (Get_ok (queue_of c) now _ p q Hq (Hn eq_refl)) as (msgs & x' & p' & q' & H1 & H2 & H3 & H4 & H5 & H6 & H7 & H8).
      by exists msgs, x', p', q'.
    - destruct (NonblockingGet_ok (queue_of c) now _ p q Hq) as (msgs & x' & p' & q' & H1 & H2 & H3 & H4 & H5 & H6 & H7 & H8).
      by exists msgs, x', p', q'. }
  destruct (queue_to_factory o p q c msgs x' p' q' (next_expiry x') Hi Hq Hone Hsw) as [Hi' Hm].
  { rewrite Hrd. exact Hp. }
  exists p', q', (put_back msgs ((with_queue x' c) <| OptNextBatchExpiry := next_expiry x' |>)).
  split; [| split_and!; try done].
  - unfold CheckInputQueue, CM. rewrite (bind_Ret _ _ _ _ _ (on_queue_run _ _ _ _ Hr)). done.
  - intros Hne [He _]%app_nil. done.
Qed.

(** ** Shutdown *)

(** A step that keeps every message and the state of the sending. *)
Record quiet (o p q : list TMsg) (c : TConnector) (p' q' : list TMsg) (c' : TConnector) : Prop := {
  qt_msgs : msgs_inv o p' q' c';
  qt_moved : moved [] p q c p' q' c';
  qt_io : same_io c c';
  qt_stream : CStreamReader c' = CStreamReader c;
  qt_pause : pause_inv c';
  qt_destroying : Destroying c' = Destroying c
}.

Lemma quiet_trans o p q c p1 q1 c1 p2 q2 c2 :
  quiet o p q c p1 q1 c1 → quiet o p1 q1 c1 p2 q2 c2 → quiet o p q c p2 q2 c2.
Proof.
  intros [_ A1 [A2 A3 A4 A5 A6] A7 _ A8] [B0 B1 [B2 B3 B4 B5 B6] B7 B8 B9]. 
  split; [done | by eapply moved_trans | split; congruence | congruence | done | congruence].
Qed.

(** Changes outside of the messages. *)
Lemma quiet_same o p q c c' :
  msgs_inv o p q c → same_msgs c c' → same_io c c' → CStreamReader c' = CStreamReader c → pause_inv c' →
  Destroying c' = Destroying c → quiet o p q c p q c'.
Proof. intros Hi Hs Hio Hst Hp Hd. destruct (msgs_inv_same o p q c c' Hs Hi). by split. Qed.

Lemma SetFastShutdownState_ok now o p q c :
  msgs_inv o p q c → ∃ c', SetFastShutdownState conf now c = (Ret (), c') ∧ quiet o p q c p q c'.
Proof.
  intros Hi. eexists. split; [reflexivity |]. apply quiet_same; try done. intros _. cbn. eexists. split; [reflexivity |].
  by destruct (OptInProgressShutdown c).
Qed.

Lemma SetPauseInProgress_ok now o p q c :
  msgs_inv o p q c → ∃ c', SetPauseInProgress conf now c = (Ret (), c') ∧ quiet o p q c p q c'.
Proof.
  intros Hi. eexists. split; [reflexivity |]. apply quiet_same; try done. intros _. cbn. eexists. split; [reflexivity |].
  by destruct (OptInProgressShutdown c).
Qed.

Lemma HandleShutdownRequest_ok now o p q c :
  msgs_inv o p q c → pause_inv c → Destroying c = false → OptShutdownCmd c ≠ None →
  ∃ p' q' c', HandleShutdownRequest conf now c = (Ret (), c') ∧ quiet o p q c p' q' c'.
Proof.
  intros Hi Hpi Hd Hs. unfold HandleShutdownRequest, CM. erewrite bind_Ret by reflexivity. rewrite Hd.
  destruct (OptShutdownCmd c) as [cmd |] eqn:Ecmd; [| done]. erewrite bind_Ret by reflexivity.
  destruct (OptSlowShutdownStartTime cmd) as [start |].
  - destruct (GetAllMsgs_ok (queue_of c) _ p q (mi_queue _ _ _ _ Hi)) as (msgs & x & Hr & Hq & Hrd & Hone & Hsw & Hp & _).
    destruct (queue_to_factory o p q c msgs x [] [] (OptNextBatchExpiry c) Hi Hq Hone Hsw) as [Hi' Hm].
    { rewrite Hrd. exact Hp. }
    set (c1 := put_back _ _) in *. set (dl := uadd start (ShutdownMaxDelay conf)).
    set (c2 := c1 <| OptInProgressShutdown := Some (match OptInProgressShutdown c with
      | Some s => mkInProgress (Deadline s `min` dl) (FastShutdown s) | None => mkInProgress dl false end) |>
      <| ShutdownAck := ShutdownAck c + 1 |> <| ShutdownRequest := false |>).
    exists [], [], c2. split.
    + assert (on_queue GetAllOnShutdown c = (Ret msgs, with_queue x c)) as Hr1 by (by apply on_queue_run). cbn [fst snd] in *.
      rewrite (bind_Ret _ _ c () (c1 <| OptInProgressShutdown := OptInProgressShutdown c2 |>)); [done |].
      rewrite (bind_Ret _ _ _ _ _ Hr1). rewrite (bind_Ret _ _ _ () c1); [done |]. unfold c1. by destruct c.
    + assert (pause_inv c2) as Hp2.
      { intros Hpp. destruct (Hpi Hpp) as (s & Hs1 & Hs2). cbn. rewrite Hs1. by eexists. }
      eapply (quiet_trans _ _ _ _ [] [] c1); [by split | by apply quiet_same].
  - destruct (SetFastShutdownState_ok now o p q c Hi) as (c1 & Hr1 & Hq1). rewrite (bind_Ret _ _ _ _ _ Hr1).
    eexists p, q, _. split; [reflexivity |]. eapply quiet_trans; [exact Hq1 |]. apply quiet_same; try done; apply Hq1.
Qed.
End invariant.
