(* ===== verification/ConnectorSend.v ===== *)
(** * Sending requests

    That [HandleSockWriteReady] keeps the invariant of the connector: it builds
    requests in order, sends their bytes in order, and moves a request that is
    fully sent to the queue of those that wait for a response. *)
From S2P Require Import Prelude FieldAccess StreamReader Capped Msg AnomalyTracker Batch PerTopicBatcher BrokerMsgQueue.
From S2P Require Import Metadata Wire ProduceResponse StdMap ResponseProcessor ProduceRequest RequestFactory RequestBytes.
From S2P Require Import RequestSize Connector ConnectorInv.

(** ** Buffers *)

Lemma DataIsEmpty_ok b data : buf_rep b data → DataIsEmpty b = (Ret (bool_decide (data = [])), b).
Proof.
  intros Hb. unfold DataIsEmpty, BM. rewrite (bind_Ret _ _ _ _ _ (check_buf_ok _ _ Hb)).
  rewrite (bind_Ret _ _ _ _ _ (DataSize_ok _ _ Hb)). unfold mret, M_ret. do 2 f_equal. by destruct data.
Qed.

Lemma Data_ok b data :
  buf_rep b data → data ≠ [] →
  StreamReader.Data b = (Ret (ItemOffset b), b) ∧
  take (length data) (drop (Z.to_nat (ItemOffset b)) (StreamReader.Storage b)) = data.
Proof.
  intros Hb Hne. pose proof (buf_bounds _ _ Hb) as (H1 & H2 & _ & H4). specialize (H4 Hne). split.
  - unfold StreamReader.Data, BM. erewrite bind_Ret by reflexivity. cbv beta. rewrite massert_bind by lia.
    rewrite usub_small by lia. rewrite (br_count _ _ Hb), massert_bind by lia.
    rewrite (bind_Ret _ _ _ _ _ (DataSize_ok _ _ Hb)). destruct data; [done |]. by rewrite massert_bind.
  - destruct (br_storage _ _ Hb) as (pre & post & Hs & -> & _). rewrite Hs, Nat2Z.id, drop_app_length.
    apply take_app_length.
Qed.

Lemma buf_rep_assigned items : Z.of_nat (length items) < 2 ^ 63 → buf_rep (mkBuf items 0 (Z.of_nat (length items))) items.
Proof. intros Hl. split; [| done | done]. exists [], []. by rewrite app_nil_r. Qed.

(** ** Entering the ACK wait state *)

Definition with_tracker_of (t : TMsgStateTracker) (c : TConnector) : TConnector :=
  c <| Shared := with_shared_tracker t (Shared c) |>.

Lemma on_tracker_run {A} (m : TM A) c a t :
  m (tracker_of c) = (Ret a, t) → on_tracker m c = (Ret a, with_tracker_of t c).
Proof. intros Hm. unfold on_tracker, zoom, no_throw. by rewrite Hm. Qed.

Definition waiting (p : Z * TMsgSet) : Z * TMsgSet :=
  (p.1, mkMsgSet (ResponseProcessor.DataSize p.2) (SetState AckWait <$> Contents p.2)).

Lemma EnterAckWait_group_ok topic g c others :
  tracker_ok (tracker_of c) (set_msgs g ++ others) →
  Forall (λ p : Z * TMsgSet, Forall (λ m, Topic m = topic ∧ Msg.State m = SendWait) (Contents p.2)) g →
  ∃ t, EnterAckWait_group g c = (Ret (waiting <$> g), with_tracker_of t c) ∧
    tracker_ok t (set_msgs (waiting <$> g) ++ others).
Proof.
  revert c others. induction g as [| p g IH]; intros c others Ht Hg.
  { exists (tracker_of c). split; [| done]. unfold with_tracker_of, tracker_of. by destruct c as [? ? ? []]. }
  apply Forall_cons in Hg as [Hp Hg]. rewrite set_msgs_cons, <- app_assoc in Ht.
  destruct (EnterList_ok AckWait _ _ _ Ht) as (t1 & Hr1 & Ht1).
  { exists topic. eapply Forall_impl; [exact Hp |]. by intros m [? ->]. }
  destruct (IH (with_tracker_of t1 c) ((SetState AckWait <$> Contents p.2) ++ others)) as (t2 & Hr2 & Ht2); [| done |].
  { eapply tracker_ok_perm; [| exact Ht1]. perm_lia. }
  exists t2. split.
  - unfold EnterAckWait_group, CM in *. cbn [mmap]. erewrite bind_Ret.
    2: { erewrite bind_Ret; [| apply on_tracker_run, Hr1]. reflexivity. }
    by rewrite (bind_Ret _ _ _ _ _ Hr2).
  - eapply tracker_ok_perm; [| exact Ht2]. rewrite fmap_cons, set_msgs_cons. cbn [waiting snd Contents]. perm_lia.
Qed.

Definition waiting_request (r : TAllTopics) : TAllTopics :=
  (λ t : string * TMultiPartitionGroup, (t.1, waiting <$> t.2)) <$> r.

Lemma set_msgs_waiting g : set_msgs (waiting <$> g) = SetState AckWait <$> set_msgs g.
Proof. induction g as [| p g IH]; [done |]. by rewrite fmap_cons, !set_msgs_cons, fmap_app, IH. Qed.

Lemma req_msgs_waiting r : req_msgs (waiting_request r) = SetState AckWait <$> req_msgs r.
Proof.
  induction r as [| t r IH]; [done |]. unfold waiting_request in *. rewrite fmap_cons, !req_msgs_cons, fmap_app, IH.
  cbn [snd]. by rewrite set_msgs_waiting.
Qed.

Lemma waiting_wf r : request_shape r → request_wf (waiting_request r).
Proof.
  intros (_ & Hnd & Hr). split; [unfold waiting_request; by rewrite <- list_fmap_compose |].
  unfold waiting_request. apply Forall_fmap. eapply Forall_impl; [exact Hr |]. intros [topic g] (_ & Hn & Hg).
  cbn [compose fst snd] in *. split; [by rewrite <- list_fmap_compose |]. apply Forall_fmap.
  eapply Forall_impl; [exact Hg |]. intros [k ms] [Hne Hm]. unfold set_wf, compose. cbn in *. split; [by destruct (Contents ms) |].
  apply Forall_fmap. eapply Forall_impl; [exact Hm |]. by intros m Hmt.
Qed.

Lemma EnterAckWait_request_ok r c others :
  tracker_ok (tracker_of c) (req_msgs r ++ others) → request_shape r → Forall (λ m, Msg.State m = SendWait) (req_msgs r) →
  ∃ t, EnterAckWait_request r c = (Ret (waiting_request r), with_tracker_of t c) ∧
    tracker_ok t (req_msgs (waiting_request r) ++ others).
Proof.
  intros Ht (_ & _ & Hr) Hs. revert c others Ht. induction r as [| [topic g] r IH]; intros c others Ht.
  { exists (tracker_of c). split; [| done]. unfold with_tracker_of, tracker_of. by destruct c as [? ? ? []]. }
  apply Forall_cons in Hr as [(_ & _ & Hg) Hr]. rewrite req_msgs_cons in Hs, Ht. rewrite <- app_assoc in Ht.
  apply Forall_app in Hs as [Hs1 Hs2]. cbn [fst snd] in *.
  destruct (EnterAckWait_group_ok topic g c _ Ht) as (t1 & Hr1 & Ht1).
  { clear -Hg Hs1. induction Hg as [| p g [_ Hp] Hg IHg]; [constructor |]. rewrite set_msgs_cons in Hs1.
    apply Forall_app in Hs1 as [Hp1 Hg1]. constructor; [| by apply IHg]. rewrite Forall_forall in *. auto. }
  destruct (IH Hr Hs2 (with_tracker_of t1 c) (set_msgs (waiting <$> g) ++ others)) as (t2 & Hr2 & Ht2).
  { eapply tracker_ok_perm; [| exact Ht1]. perm_lia. }
  exists t2. split.
  - unfold EnterAckWait_request, CM in *. cbn [mmap]. erewrite bind_Ret.
    2: { cbn [fst snd]. erewrite bind_Ret; [| exact Hr1]. reflexivity. }
    by rewrite (bind_Ret _ _ _ _ _ Hr2).
  - eapply tracker_ok_perm; [| exact Ht2]. unfold waiting_request. rewrite fmap_cons, req_msgs_cons. cbn [snd]. perm_lia.
Qed.

Section sending.
Context `{HashOrder} (ComputeCrc32 : list byte → Z) (conf : conn_conf).

Notation on_wire := (on_wire ComputeCrc32 conf).
Notation send_inv := (send_inv ComputeCrc32 conf).
Notation msgs_inv := (msgs_inv conf).

(** What sending does not touch. *)
Record same_rest (c c' : TConnector) : Prop := {
  sr_stream : CStreamReader c' = CStreamReader c;
  sr_pause : PauseInProgress c' = PauseInProgress c;
  sr_shutdown : OptInProgressShutdown c' = OptInProgressShutdown c;
  sr_destroying : Destroying c' = Destroying c
}.

Lemma same_rest_trans c c1 c2 : same_rest c c1 → same_rest c1 c2 → same_rest c c2.
Proof. intros [] []. split; congruence. Qed.

(** ** Writing to the socket *)

(** The contract of [send()]: it takes at most the bytes it is given, or fails. *)
Definition send_ok (send : list byte → send_result) : Prop := ∀ data n, send data = Sent n → (n ≤ length data)%nat.

(** It fails, and not because the connection is lost. *)
Definition send_fatal (send : list byte → send_result) : Prop :=
  ∃ data errno, send data = SendError errno ∧ LostTcpConnection errno = false.

Lemma on_send_buf_run {A} (m : BM A) c a b :
  m (SendBuf c) = (Ret a, b) → on_send_buf m c = (Ret a, c <| SendBuf := b |>).
Proof. intros Hm. unfold on_send_buf, zoom, no_throw. by rewrite Hm. Qed.

Lemma on_send_buf_read {A} (m : BM A) c a :
  m (SendBuf c) = (Ret a, SendBuf c) → on_send_buf m c = (Ret a, c).
Proof. intros Hm. rewrite (on_send_buf_run _ _ _ _ Hm). by destruct c. Qed.

Lemma SendInProgress_ok c data :
  buf_rep (SendBuf c) data → SendInProgress c = (Ret (negb (bool_decide (data = []))), c).
Proof.
  intros Hb. unfold SendInProgress, CM. by rewrite (bind_Ret _ _ _ _ _ (on_send_buf_read _ _ _ (DataIsEmpty_ok _ _ Hb))).
Qed.

Lemma TrySend_ok send c data :
  buf_rep (SendBuf c) data → data ≠ [] → send_ok send →
  (∃ (ok : bool) n b pb, TrySendProduceRequest send c =
      (Ret ok, c <| Wired := Wired c ++ take n data |> <| SendBuf := b |> <| PauseButton := pb |>) ∧
    buf_rep b (drop n data) ∧ (ok = false → n = 0%nat)) ∨
  (TrySendProduceRequest send c = (Fault Died, c) ∧ send_fatal send).
Proof.
  intros Hb Hne Hsend. destruct (Data_ok _ _ Hb Hne) as [Hd Htake]. unfold TrySendProduceRequest, CM.
  rewrite (bind_Ret _ _ _ _ _ (on_send_buf_read _ _ _ Hd)).
  rewrite (bind_Ret _ _ _ _ _ (on_send_buf_read _ _ _ (DataSize_ok _ _ Hb))). erewrite bind_Ret by reflexivity. cbv beta zeta.
  rewrite Nat2Z.id, Htake. specialize (Hsend data). destruct (send data) as [n | errno] eqn:Es.
  - left. destruct (MarkDataConsumed_ok _ _ n Hb (Hsend n eq_refl)) as (b & Hr & Hb' & _). exists true, n, b, (PauseButton c).
    split; [| done]. erewrite bind_Ret by reflexivity.
    set (c1 := c <| Wired := _ |>). erewrite bind_Ret; [reflexivity | exact (on_send_buf_run _ c1 () b Hr)].
  - destruct (LostTcpConnection errno) eqn:El; [left | right; split; [done |]; by exists data, errno].
    exists false, 0%nat, (SendBuf c), true. split; [| done]. cbn. rewrite app_nil_r. by destruct c.
Qed.

(** Sending moves bytes from the buffer to the wire. *)
Lemma on_wire_send n data c c' :
  on_wire data c → Wired c' = Wired c ++ take n data → CorrIdCounter (Factory c') = CorrIdCounter (Factory c) →
  AckWaitQueue c' = AckWaitQueue c → CurrentRequest c' = CurrentRequest c → on_wire (drop n data) c'.
Proof.
  intros (tss & ans & H1 & H2 & H3) E1 E2 E3 E4. exists tss, ans. unfold current_id. rewrite E1, E2, E3, E4.
  split_and!; [by rewrite <- app_assoc, take_drop | done | done].
Qed.

(** ** Building *)

Lemma q_inv_tags q o o' p c : tag <$> o ≡ₚ tag <$> o' → q_inv q o p c → q_inv q o' p c.
Proof.
  intros Ht []. split; try done.
  - eapply tracker_ok_tags; [| done]. rewrite !(fmap_app _ _ (p ++ _)). by rewrite Ht.
  - apply Permutation_length in Ht. rewrite !length_fmap in Ht. by rewrite length_app, <- Ht, <- length_app.
Qed.

Lemma wire_of_snoc tss ts :
  wire_of ComputeCrc32 conf (tss ++ [ts]) = wire_of ComputeCrc32 conf tss ++
    enc_request ComputeCrc32 (Z.of_nat (length tss) + 1) (ClientId (FactoryConf conf)) (-1)
      (swrap 32 (ReplicationTimeout (FactoryConf conf))) ts.
Proof. unfold wire_of. rewrite imap_app, concat_app. cbn. by rewrite app_nil_r, Nat.add_0_r. Qed.

Lemma on_wire_built data c c' r ts :
  on_wire [] c → CurrentRequest c = None → CurrentRequest c' = Some (CorrIdCounter (Factory c) + 1, r) →
  Wired c' = Wired c → AckWaitQueue c' = AckWaitQueue c → CorrIdCounter (Factory c') = CorrIdCounter (Factory c) + 1 →
  data = enc_request ComputeCrc32 (CorrIdCounter (Factory c) + 1) (ClientId (FactoryConf conf)) (-1)
    (swrap 32 (ReplicationTimeout (FactoryConf conf))) ts → on_wire data c'.
Proof.
  intros (tss & ans & H1 & H2 & H3) E0 E1 E2 E3 E4 ->. unfold current_id in H3. rewrite E0 in H3. rewrite app_nil_r in H1, H3.
  exists (tss ++ [ts]), ans. unfold current_id. rewrite E1, E2, E3, E4, wire_of_snoc, length_app, <- H1, <- H2. cbn [length fst].
  split_and!; [done | lia |]. rewrite app_assoc, <- H3. rewrite (seqZ_app 1 (CorrIdCounter (Factory c)) 1) by lia.
  f_equal. by rewrite Z.add_comm.
Qed.

Lemma ready_factory o p q c : msgs_inv o p q c → ready (FactoryConf conf) (Factory c).
Proof.
  intros Hi. pose proof (mi_good _ _ _ _ _ Hi) as Hg. pose proof (mi_weight _ _ _ _ _ Hi) as Hw.
  assert (∃ k, all_msgs p q c ≡ₚ concat (InputQueue (Factory c)) ++ k) as [k Hk].
  { unfold all_msgs, held. exists (p ++ q ++ concat (ReadyList (CInputQueue c)) ++ current_msgs c ++ ack_wait_msgs c ++
      concat (GotAckAfterPause c) ++ concat (NoAckAfterPause c)). perm_lia. }
  rewrite Hk in Hg. apply Forall_app in Hg as [Hg1 Hg2]. pose proof (good_weight _ _ _ Hg2).
  assert (total_weight (all_msgs p q c) = total_weight (concat (InputQueue (Factory c)) ++ k)) as E.
  { unfold total_weight. by rewrite Hk. }
  rewrite E, total_weight_app in Hw. split; try apply Hi; [done | lia].
Qed.

(** The messages of a request come from the factory's queue. *)
Lemma msgs_inv_built o p q c c' r :
  msgs_inv o p q c → CurrentRequest c = None → CurrentRequest c' = Some r → Shared c' = Shared c →
  CInputQueue c' = CInputQueue c → AckWaitQueue c' = AckWaitQueue c → GotAckAfterPause c' = GotAckAfterPause c →
  NoAckAfterPause c' = NoAckAfterPause c → after_shutdown c' = after_shutdown c → request_shape r.2 →
  unassigned <$> (req_msgs r.2 ++ concat (InputQueue (Factory c'))) ≡ₚ unassigned <$> concat (InputQueue (Factory c)) →
  Forall one_topic (InputQueue (Factory c')) → like_setup (Factory c) (Factory c') →
  (∀ t, ChoiceUsed (chooser_of (Factory c') t) = false) →
  msgs_inv o p q c' ∧ moved [] p q c p q c'.
Proof.
  intros Hi E0 E1 E2 E3 E4 E5 E6 E7 Hs Hp Hone Hl Hidle.
  set (k := ack_wait_msgs c ++ concat (GotAckAfterPause c) ++ concat (NoAckAfterPause c)).
  assert (held c = concat (InputQueue (Factory c)) ++ k) as Hh by (unfold held, current_msgs; by rewrite E0).
  assert (held c' ≡ₚ (req_msgs r.2 ++ concat (InputQueue (Factory c'))) ++ k) as Hh'.
  { unfold held, current_msgs, ack_wait_msgs. rewrite E1, E4, E5, E6. unfold k. fold (ack_wait_msgs c). perm_lia. }
  assert (moved [] p q c p q c') as Hm.
  { split; [done |]. exists []. rewrite E2. split_and!; [done | done |]. rewrite app_nil_r. unfold all_msgs. rewrite E3, Hh', Hh.
    apply (fmap_coarser _ _ _ _ ident_unassigned) in Hp. clear -Hp. perm_lia. }
  split; [| done]. destruct (carry conf [] o p q c p q c' Hi Hm Hl) as [Hg Hw].
  destruct Hi as [H1 H2 H3 H4 H5 H6 H7 H8 H9 H10 H11]. unfold current_msgs in H3. rewrite E0 in H3. cbn [app] in H3.
  apply Forall_app in H3 as [H3 H3']. split; try done.
  - unfold queue_of, tracker_of in *. rewrite E2, E3. eapply q_inv_tags; [| exact H1]. rewrite Hh, Hh'.
    apply (fmap_coarser _ _ _ _ tag_unassigned) in Hp. rewrite !(fmap_app _ _ o), !(fmap_app _ _ k). by rewrite Hp.
  - rewrite E5, E6, (app_assoc _ (current_msgs c')). apply Forall_app. split; [| done].
    unfold current_msgs. rewrite E1. apply (fmap_coarser _ tag _ _ tag_unassigned) in Hp.
    assert (Forall (λ x : TState * string, x.1 = SendWait) (tag <$> concat (InputQueue (Factory c)))) as Ht by (by apply Forall_fmap).
    rewrite <- Hp in Ht. apply Forall_fmap in Ht. rewrite Permutation_app_comm. exact Ht.
  - by rewrite E1.
  - by rewrite E4.
  - by rewrite E5, E6.
  - by eapply like_setup_codecs.
Qed.

Definition no_throws (x : conn_exn) (c : TConnector) : Prop := False.

Lemma on_factory_wp {A} (m : FM A) c Q F :
  wp m (Factory c) Q no_exn F → wp (on_factory m) c (λ a c', ∃ f, c' = c <| Factory := f |> ∧ Q a f) no_throws F.
Proof. unfold wp, on_factory. destruct (m (Factory c)) as [[a | x | x] f]; [eauto | done | done]. Qed.

(** The part of [HandleSockWriteReady] that builds the next request. *)
Definition build_next (pool : TPool) : CM () :=
  buf ← on_send_buf TakeStorage;
  on_factory (modify (λ f, mkFactory (RequestWriter f) (MsgSetWriter f) (DefaultTopicCompressionInfo f) (FMetadata f)
    (CorrIdCounter f) (InputQueue f) (TopicDataMap f) (CompressionBuf f) buf));;
  r ← on_factory (BuildRequest ComputeCrc32 pool (FactoryConf conf));
  match r with
  | None => crash AssertFailed
  | Some request =>
      modify (λ c, c <| CurrentRequest := Some request |>);;
      c ← get;
      on_send_buf (TBuf_assign (Dst (Factory c)));;
      empty ← on_send_buf DataIsEmpty;
      massert (negb empty)
  end.

Lemma enc_request_nonempty id cl acks t ts : enc_request ComputeCrc32 id cl acks t ts ≠ [].
Proof. unfold enc_request, enc_count. intros E. apply (f_equal length) in E. rewrite length_app in E. cbn in E. lia. Qed.

Lemma build_next_wp pool o p q c :
  msgs_inv o p q c → on_wire [] c → CurrentRequest c = None → InputQueue (Factory c) ≠ [] →
  Forall (readable pool) (concat (InputQueue (Factory c))) →
  wp (build_next pool) c (λ _ c', msgs_inv o p q c' ∧ moved [] p q c p q c' ∧ same_rest c c' ∧
    AckWaitQueue c' = AckWaitQueue c ∧ CurrentRequest c' ≠ None ∧
    ∃ data, buf_rep (SendBuf c') data ∧ data ≠ [] ∧ on_wire data c') no_throws (λ x, x = Overflow).
Proof.
  intros Hi Hw Hcur Hne Hr. unfold build_next. wstep. wstep. set (c1 := c <| SendBuf := TBuf_new |>).
  set (f1 := mkFactory _ _ _ _ _ _ _ _ _). set (c2 := c1 <| Factory := f1 |>).
  assert (ready (FactoryConf conf) (Factory c2)) as Hrd by (destruct (ready_factory _ _ _ _ Hi); by split).
  apply wp_bind. eapply wp_mono.
  { apply on_factory_wp, (BuildRequest_ready ComputeCrc32 pool (FactoryConf conf) (Factory c2) Hrd Hne Hr). }
  cbv beta. intros _ c3 (f & -> & r & ts & -> & Hsh & Hp & Hid & Hdst & Hlen & Hone & Hl & Hidle). wstep. wstep.
  change (Factory (_ <| CurrentRequest := _ |>)) with f.
  assert (buf_rep (mkBuf (Dst f) 0 (Z.of_nat (length (Dst f)))) (Dst f)) as Hb.
  { apply buf_rep_assigned. unfold INT32_MAX in Hlen. lia. }
  wstep. set (c4 := _ <| SendBuf := _ |>). assert (Dst f ≠ []) as Hdne by (rewrite Hdst; apply enc_request_nonempty).
  eapply wp_bind_Ret; [apply (on_send_buf_read _ c4 _ (DataIsEmpty_ok _ _ Hb)) |].
  eapply wp_Ret; [by rewrite bool_decide_false |].
  destruct (msgs_inv_built o p q c c4 (CorrIdCounter (Factory c) + 1, r) Hi) as [Hi4 Hm4]; try done.
  split_and!; try done. exists (Dst f). split_and!; [done | done |]. by eapply (on_wire_built _ c c4 r ts).
Qed.

(** ** A request that is sent *)

Lemma q_inv_tracker x t o o' p q :
  q_inv x o p q → tracker_ok t (o' ++ p ++ q ++ concat (ReadyList x)) → length o' = length o →
  q_inv (with_queue_tracker t x) o' p q.
Proof.
  intros [] Ht Hlen. split; try done. cbn [ReadyList with_queue_tracker]. by rewrite length_app, Hlen, <- length_app.
Qed.

Definition sent_request (c : TConnector) (r : TProduceRequest) (t : TMsgStateTracker) : TConnector :=
  (with_tracker_of t c) <| AckWaitQueue := AckWaitQueue c ++ [(r.1, waiting_request r.2)] |> <| CurrentRequest := None |>.

Lemma ident_SetState s (l : list TMsg) : ident <$> (SetState s <$> l) = ident <$> l.
Proof. rewrite <- list_fmap_compose. apply list_fmap_ext. intros i m _. unfold compose. by apply ident_core. Qed.

Lemma msgs_inv_sent o p q c r :
  msgs_inv o p q c → CurrentRequest c = Some r →
  ∃ t, EnterAckWait_request r.2 c = (Ret (waiting_request r.2), with_tracker_of t c) ∧
    msgs_inv o p q (sent_request c r t) ∧ moved [] p q c p q (sent_request c r t).
Proof.
  intros Hi E. set (k := concat (InputQueue (Factory c)) ++ ack_wait_msgs c ++
    concat (GotAckAfterPause c) ++ concat (NoAckAfterPause c)).
  assert (held c ≡ₚ req_msgs r.2 ++ k) as Hh by (unfold held, current_msgs, k; rewrite E; perm_lia).
  assert (∀ t, held (sent_request c r t) ≡ₚ (SetState AckWait <$> req_msgs r.2) ++ k) as Hh'.
  { intros t. unfold held, k. change (current_msgs _) with (@nil TMsg). unfold ack_wait_msgs.
    change (AckWaitQueue (sent_request c r t)) with (AckWaitQueue c ++ [(r.1, waiting_request r.2)]).
    rewrite fmap_app, concat_app. cbn [fmap list_fmap concat snd app]. rewrite req_msgs_waiting, app_nil_r.
    change (InputQueue (Factory (sent_request c r t))) with (InputQueue (Factory c)).
    change (GotAckAfterPause (sent_request c r t)) with (GotAckAfterPause c).
    change (NoAckAfterPause (sent_request c r t)) with (NoAckAfterPause c). perm_lia. }
  assert (∀ t, moved [] p q c p q (sent_request c r t)) as Hm.
  { intros t. split; [done |]. exists []. split_and!; [done | done |]. rewrite app_nil_r. unfold all_msgs.
    rewrite Hh, Hh', !fmap_app, ident_SetState. done. }
  pose proof (λ t, carry conf [] o p q c p q (sent_request c r t) Hi (Hm t) ltac:(done)) as Hcar.
  destruct Hi as [H1 H2 H3 H4 H5 H6 H7 H8 H9 H10 H11]. rewrite E in H4. unfold current_msgs in H3. rewrite E in H3.
  apply Forall_app in H3 as [H3a [H3b H3c]%Forall_app].
  pose proof (qi_tracker _ _ _ _ H1) as Ht. change (BrokerMsgQueue.MsgStateTracker (queue_of c)) with (tracker_of c) in Ht.
  set (rest := k ++ o ++ p ++ q ++ concat (ReadyList (CInputQueue c))).
  destruct (EnterAckWait_request_ok r.2 c rest) as (t & Hr & Ht'); [| done | done |].
  { eapply tracker_ok_perm; [| exact Ht]. rewrite Hh. unfold rest. change (ReadyList (queue_of c)) with (ReadyList (CInputQueue c)).
    perm_lia. }
  exists t. split; [exact Hr |]. split; [| apply Hm]. destruct (Hcar t) as [Hg Hw]. split; try done.
  - eapply (q_inv_tracker (queue_of c) t); [exact H1 | |].
    + eapply tracker_ok_perm; [| exact Ht']. rewrite Hh', req_msgs_waiting. unfold rest.
      change (ReadyList (queue_of c)) with (ReadyList (CInputQueue c)). clear. perm_lia.
    + rewrite !length_app, Hh, Hh', !length_app, length_fmap. done.
  - apply Forall_app. split; [done |]. exact H3c.
  - apply Forall_app. split; [done |]. constructor; [| done]. by apply waiting_wf.
Qed.

Lemma on_wire_sent c r t : on_wire [] c → CurrentRequest c = Some r → on_wire [] (sent_request c r t).
Proof.
  intros (tss & ans & H1 & H2 & H3) E. exists tss, ans. unfold current_id in H3. rewrite E in H3. split_and!; [done | done |].
  unfold current_id. cbn. rewrite fmap_app, app_nil_r. exact H3.
Qed.

(** ** The handler *)

(** With the contracts of [send()] and of the memory of the messages, the handler
    keeps the invariant; the correlation IDs may overflow. *)
Lemma HandleSockWriteReady_wp pool send o p q c :
  msgs_inv o p q c → send_inv c → send_ok send → CurrentRequest c ≠ None ∨ InputQueue (Factory c) ≠ [] →
  Forall (readable pool) (concat (InputQueue (Factory c))) →
  wp (HandleSockWriteReady ComputeCrc32 conf pool send) c (λ _ c', msgs_inv o p q c' ∧ moved [] p q c p q c' ∧
    send_inv c' ∧ same_rest c c' ∧ ∃ l, AckWaitQueue c' = AckWaitQueue c ++ l) no_throws
    (λ x, x = Overflow ∨ (x = Died ∧ send_fatal send)).
Proof.
  intros Hi (data & Hb & Hd & Hw) Hs Hwork Hr. unfold HandleSockWriteReady. wstep.
  eapply wp_bind_Ret; [by apply SendInProgress_ok |]. apply wp_massert.
  { apply eqb_true_iff. repeat case_bool_decide; naive_solver. }
  apply wp_bind. apply (wp_mono _ _ _ _ (λ _ c', msgs_inv o p q c' ∧ moved [] p q c p q c' ∧ same_rest c c' ∧
    AckWaitQueue c' = AckWaitQueue c ∧ CurrentRequest c' ≠ None ∧
    ∃ data, buf_rep (SendBuf c') data ∧ data ≠ [] ∧ on_wire data c')).
  { case_bool_decide as E; cbn [negb].
    - destruct Hd as [Hd _]. specialize (Hd E). subst data. eapply wp_weaken; [apply (build_next_wp pool o p q c) | intros ? ? Hx; exact Hx | done | by left]; try done.
      by destruct Hwork.
    - eapply wp_Ret; [reflexivity |]. split_and!; try done; [apply moved_refl | tauto | by exists data]. }
  clear data Hb Hd Hw. intros _ c1 (Hi1 & Hm1 & Hsr1 & Ha1 & Hc1 & data & Hb & Hne & Hw).
  destruct (TrySend_ok send c1 data Hb Hne Hs) as [(ok & n & b & pb & Hr2 & Hb2 & Hok) | [Hr2 Hfatal]].
  2: { apply wp_bind. unfold wp. rewrite Hr2. by right. }
  eapply wp_bind_Ret; [exact Hr2 |]. set (c2 := c1 <| Wired := _ |> <| SendBuf := b |> <| PauseButton := pb |>).
  assert (on_wire (drop n data) c2) as Hw2 by (by apply (on_wire_send n data c1)).
  destruct (msgs_inv_same conf o p q c1 c2 ltac:(done) Hi1) as [Hi2 Hm2].
  pose proof (moved_trans _ _ _ _ _ _ _ _ _ _ Hm1 Hm2) as Hm02.
  assert (same_rest c c2) as Hsr2 by (eapply same_rest_trans; [exact Hsr1 | done]).
  assert (∃ l, AckWaitQueue c2 = AckWaitQueue c ++ l) as Ha2 by (exists []; by rewrite app_nil_r).
  destruct ok; cbn [negb].
  2: { eapply wp_Ret; [reflexivity |]. split_and!; try done. exists (drop n data). rewrite (Hok eq_refl) in *. cbn [drop] in *.
       split_and!; [done | | done]. split; [done |]. intros E. by destruct Hc1. }
  eapply wp_bind_Ret; [by apply (SendInProgress_ok c2) |]. case_bool_decide as E; cbn [negb].
  2: { wstep. eapply wp_Ret; [reflexivity |]. split_and!; try done. exists (drop n data). split_and!; [done | | done].
       split; [done |]. intros E'. by destruct Hc1. }
  rewrite E in *. destruct (CurrentRequest c1) as [r |] eqn:Er; [| done].
  destruct (msgs_inv_sent o p q c2 r Hi2 Er) as (t & Hrt & Hi3 & Hm3).
  eapply wp_bind_Ret.
  { erewrite bind_Ret by reflexivity. cbv beta. change (CurrentRequest c2) with (CurrentRequest c1). rewrite Er.
    erewrite bind_Ret by reflexivity. unfold CM in Hrt. rewrite (bind_Ret _ _ _ _ _ Hrt). reflexivity. }
  eapply wp_Ret; [reflexivity |]. split_and!.
  - exact Hi3.
  - by eapply moved_trans.
  - exists []. split_and!; [exact Hb2 | done |]. by apply (on_wire_sent c2).
  - eapply same_rest_trans; [exact Hsr2 | done].
  - cbn. rewrite Ha1. by eexists.
Qed.
End sending.
