(* ===== verification/ConnectorRecv.v ===== *)
(** * Processing responses

    That [HandleSockReadReady] keeps the invariant of the connector: every
    response that arrives settles the first request that waits, no assertion
    fails, and no message is lost unless a response cannot be parsed. *)
From S2P Require Import Prelude FieldAccess StreamReader Capped Msg AnomalyTracker Batch PerTopicBatcher BrokerMsgQueue.
From S2P Require Import Metadata Wire ProduceResponse StdMap ResponseProcessor ProduceRequest RequestFactory RequestBytes.
From S2P Require Import RequestSize Connector ConnectorInv ConnectorSend.

Section receiving.
Context `{HashOrder} (ComputeCrc32 : list byte → Z) (conf : conn_conf).

Notation on_wire := (on_wire ComputeCrc32 conf).
Notation send_inv := (send_inv ComputeCrc32 conf).
Notation msgs_inv := (msgs_inv conf).

(** ** A response settles a request *)

Lemma on_wire_answered data c c' request queue :
  on_wire data c → AckWaitQueue c = request :: queue → AckWaitQueue c' = queue → Wired c' = Wired c →
  CorrIdCounter (Factory c') = CorrIdCounter (Factory c) → CurrentRequest c' = CurrentRequest c → on_wire data c'.
Proof.
  intros (tss & ans & H1 & H2 & H3) E1 E2 E3 E4 E5. exists tss, (ans ++ [request.1]). unfold current_id in *.
  rewrite E2, E3, E4, E5. rewrite E1 in H3. split_and!; [done | done |]. rewrite H3. cbn [fmap list_fmap app].
  by rewrite <- app_assoc.
Qed.

(** The messages of the request [request], that waited first, as the processor
    left them: destroyed ([dest]), to be sent again ([no], [pr], [im]), or still in
    the request ([rem]). *)
Record answered (c c' : TConnector) (request : TProduceRequest) (queue : list TProduceRequest)
    (dest : list TMsg) (no pr im : list (list TMsg)) (rem : list TMsg) : Prop := {
  an_ack : AckWaitQueue c = request :: queue ∧ AckWaitQueue c' = queue;
  an_queue : CInputQueue c' = CInputQueue c;
  an_current : CurrentRequest c' = CurrentRequest c;
  an_factory : InputQueue (Factory c') = im ++ InputQueue (Factory c) ∧ like_setup (Factory c) (Factory c') ∧
    ∀ t, chooser_of (Factory c') t = chooser_of (Factory c) t;
  an_aside : GotAckAfterPause c' = GotAckAfterPause c ++ pr ∧ NoAckAfterPause c' = NoAckAfterPause c ++ no;
  an_after : after_shutdown c' = after_shutdown c;
  an_destroyed : Destroyed (Shared c') = reverse rem ++ dest ++ Destroyed (Shared c);
  an_processed : Forall (λ m, Msg.State m = Processed) dest;
  an_core : core <$> req_msgs request.2 ≡ₚ core <$> [] ++ dest ++ concat (no ++ pr ++ im) ++ rem;
  an_topics : Forall one_topic (no ++ pr ++ im);
  an_states : Forall (λ m, Msg.State m = SendWait) (concat (no ++ pr ++ im))
}.

(** The messages that are not in the first request. *)
Definition others_of (o p q : list TMsg) (queue : list TProduceRequest) (c : TConnector) : list TMsg :=
  concat (InputQueue (Factory c)) ++ current_msgs c ++ concat ((λ r : TProduceRequest, req_msgs r.2) <$> queue) ++
  concat (GotAckAfterPause c) ++ concat (NoAckAfterPause c) ++ o ++ p ++ q ++ concat (ReadyList (CInputQueue c)).

Lemma held_first c request queue o p q :
  AckWaitQueue c = request :: queue →
  (held c ++ o) ++ p ++ q ++ concat (ReadyList (CInputQueue c)) ≡ₚ req_msgs request.2 ++ others_of o p q queue c.
Proof. intros E. unfold held, others_of, ack_wait_msgs. rewrite E. cbn [fmap list_fmap concat]. perm_lia. Qed.

Lemma msgs_inv_answered o p q c c' request queue dest no pr im rem :
  msgs_inv o p q c → answered c c' request queue dest no pr im rem →
  tracker_ok (tracker_of c') ([] ++ dest ++ concat (no ++ pr ++ im) ++ rem ++ others_of o p q queue c) →
  msgs_inv (rem ++ o) p q c' ∧ moved rem p q c p q c'.
Proof.
  intros Hi [[E1 E2] E3 E4 (E5 & E6 & E7) [E8 E9] Eaf E10 Hd Hcore Hone Hsw] Ht.
  set (k := concat (InputQueue (Factory c)) ++ current_msgs c ++ concat ((λ r : TProduceRequest, req_msgs r.2) <$> queue) ++
    concat (GotAckAfterPause c) ++ concat (NoAckAfterPause c)).
  assert (held c ≡ₚ req_msgs request.2 ++ k) as Hh.
  { unfold held, ack_wait_msgs, k. rewrite E1. cbn [fmap list_fmap concat]. clear. perm_lia. }
  assert (held c' ≡ₚ concat (no ++ pr ++ im) ++ k) as Hh'.
  { unfold held, ack_wait_msgs, k, current_msgs. rewrite E2, E4, E5, E8, E9. rewrite !concat_app. clear. perm_lia. }
  assert (moved rem p q c p q c') as Hm.
  { split; [done |]. exists dest. split_and!; [done | done |]. unfold all_msgs. rewrite E3, Hh, Hh'.
    apply (fmap_coarser _ ident _ _ ident_core) in Hcore. cbn [app] in Hcore. clear -Hcore. perm_lia. }
  split; [| done]. destruct (carry conf rem o p q c p q c' Hi Hm E6) as [Hg Hw].
  destruct Hi as [H1 H2 H3 H4 H5 H6 H7 H8 H9 H10 H11].
  apply Forall_app in H3 as [H3a [H3b [H3c H3d]%Forall_app]%Forall_app].
  rewrite !Forall_app in Hone. rewrite !concat_app, !Forall_app in Hsw. destruct Hone as (O1 & O2 & O3), Hsw as (S1 & S2 & S3).
  split; try done.
  - destruct H1 as [P1 P2 P3 P4 P5 P6 P7 P8 P9 P10]. split; unfold queue_of; rewrite ?E3; try done;
      cbn [with_queue_tracker ReadyList BrokerMsgQueue.MsgStateTracker].
    + apply (tracker_ok_processed _ dest); [done |]. eapply tracker_ok_perm; [| exact Ht]. rewrite Hh'. unfold others_of, k.
      clear. perm_lia.
    + apply Permutation_length in Hcore, Hh, Hh'. rewrite !length_fmap in Hcore. cbn [app] in Hcore.
      change (ReadyList (queue_of c)) with (ReadyList (CInputQueue c)) in P10.
      rewrite !length_app in Hcore. rewrite !length_app in P10. rewrite length_app in Hh, Hh'. rewrite !length_app. lia.
  - rewrite E5. by apply Forall_app.
  - rewrite E5, E8, E9, !concat_app, !Forall_app. unfold current_msgs in *. by rewrite E4.
  - by rewrite E4.
  - rewrite E2. rewrite E1 in H5. by apply Forall_cons in H5 as [_ H5].
  - rewrite E8, E9, !Forall_app. apply Forall_app in H6 as [? ?]. done.
  - intros t. by rewrite E7.
  - by eapply like_setup_codecs.
Qed.

(** ** The frame that is ready *)

(** The stream reader checked the size field. *)
Lemma frame_size_field data n size :
  next_frame stream_cfg data = FrameMsg n →
  ReadInt32FromHeader (reported stream_cfg (take n data)) = Some size → 0 ≤ size.
Proof.
  intros Hn Hs. destruct (next_frame_msg stream_cfg stream_cfg_ok _ _ Hn) as (body & Hf & Hb & Hlen & Hle).
  cbn [SizeFieldSize stream_cfg] in Hlen. change (reported stream_cfg (take n data)) with (take n data) in Hs.
  destruct (frame_body_long stream_cfg stream_cfg_ok (take n data)) as (r & Hr & _).
  { rewrite length_take. cbn [SizeFieldSize stream_cfg]. lia. }
  pose proof (Hr (drop n data)) as Hr1. rewrite take_drop, Hf in Hr1. injection Hr1 as <-. specialize (Hr []).
  rewrite app_nil_r in Hr. unfold frame_body in Hr.
  change (ChooseSizeFieldReadFn (SizeFieldSize stream_cfg) (SizeFieldIsSigned stream_cfg)) with (Some ReadSigned32BitSizeField) in Hr.
  unfold ReadSigned32BitSizeField, signed_field in Hr. cbn [mbind option_bind] in Hr. rewrite Hs in Hr. cbn in Hr.
  destruct (Z.ltb_spec size 0); [done | lia].
Qed.

Lemma on_stream_run {A} (m : RM TSizeReader A) c a r :
  m (CStreamReader c) = (Ret a, r) → on_stream_pure m c = (Ret a, c <| CStreamReader := r |>).
Proof. intros Hm. unfold on_stream_pure, CM. erewrite bind_Ret; [| unfold on_stream; by rewrite Hm]. done. Qed.

Lemma on_stream_read {A} (m : RM TSizeReader A) c a :
  m (CStreamReader c) = (Ret a, CStreamReader c) → on_stream_pure m c = (Ret a, c).
Proof. intros Hm. rewrite (on_stream_run _ _ _ _ Hm). by destruct c. Qed.

(** ** The processor *)

(** What the processor has left, by how it ended. *)
Definition processed (gone : list TMsg) (request : TAllTopics) (others : list TMsg) (result : TAction + Reader.exn)
    (p : TProduceResponseProcessor) : Prop :=
  ResponseProcessor.settled (req_msgs request) others gone p ∧
  match result with
  | inl a => Request p = [] ∧ (a ≠ PauseAndFinishNow → MsgsWithoutAcks p = []) ∧
      (a = KeepRunning → PauseAndResendAckMsgs p = [])
  | inr x => Reader.TBadProduceResponse x = true ∧ MsgsWithoutAcks p = []
  end.

Lemma run_processor_wp now request response c others T :
  request_wf request.2 → tracker_ok (tracker_of c) (req_msgs request.2 ++ others) →
  (∀ size, ReadInt32FromHeader response = Some size → 0 ≤ size) →
  wp (run_processor conf now request response) c (λ rp c',
    c' = c <| Shared := Ds rp.2 |> <| CResponseReader := ResponseReader rp.2 |> ∧
    processed (Destroyed (Shared c)) request.2 others rp.1 rp.2) T (λ x, x = Overflow).
Proof.
  intros Hwf Ht Hsize. set (p0 := mkProcessor (Shared c) (CResponseReader c) request.2 [] [] [] []).
  assert (ResponseProcessor.settled (req_msgs request.2) others (Destroyed (Shared c)) p0) as Hs.
  { split; [done |]. exists []. split_and!; try done; constructor. }
  pose proof (wp_conj _ _ _ _ _ _ _ _
    (ProcessResponse_wp _ _ _ now (MaxFailedDeliveryAttempts conf) request.1 response p0 Hs)
    (ProcessResponse_sets now (MaxFailedDeliveryAttempts conf) request.1 response p0)) as Hp.
  unfold wp, run_processor in *. fold p0. destruct (ProcessResponse _ _ _ _ p0) as [[a | x | f] p1].
  - destruct Hp as [[H1 H2] [H3 H4]]. done.
  - destruct Hp as [(H1 & H2 & H3) H4]. split; [done |]. split; [done |]. split; [| done].
    destruct (Reader.TBadProduceResponse x); [done |]. destruct (H3 eq_refl) as (size & Hz & Hneg). specialize (Hsize size Hz). lia.
  - by destruct Hp.
Qed.

Lemma request_wf_waits r : request_wf r → Forall (λ m, Msg.State m = AckWait) (req_msgs r).
Proof.
  intros [_ Hr]. induction Hr as [| [topic g] r [_ Hg] Hr IH]; [constructor |]. rewrite req_msgs_cons. apply Forall_app.
  split; [| done]. cbn [snd fst] in *. induction Hg as [| x g [_ Hx] Hg IHg]; [constructor |]. rewrite set_msgs_cons.
  apply Forall_app. split; [| done]. eapply Forall_impl; [exact Hx |]. by intros m [_ ?].
Qed.

(** ** One response *)

(** The connector after a response: [lost] are the messages that the connector no
    longer has, though they are not processed. *)
Record received (lost o p q : list TMsg) (c c' : TConnector) : Prop := {
  rc_msgs : msgs_inv (lost ++ o) p q c';
  rc_moved : moved lost p q c p q c';
  rc_send : send_inv c';
  rc_pause : pause_inv c';
  rc_destroying : Destroying c' = Destroying c;
  rc_lost : Forall (λ m, Msg.State m = AckWait) lost
}.

(** The end of [ProcessSingleProduceResponse], in terms of what the processor set
    aside. *)
Definition finish_response (pause : bool) (no_ack : list (list TMsg)) (pr : TProduceResponseProcessor) (keep : bool) : CM bool :=
  pause_left ←
    (if pause then
       PauseButton_Push;;
       modify (λ c, c <| GotAckAfterPause := GotAckAfterPause c ++ PauseAndResendAckMsgs pr |>);;
       mret []
     else mret (PauseAndResendAckMsgs pr));
  on_factory (PutFront_batches (ImmediateResendAckMsgs pr));;
  destroy_msgs (concat no_ack ++ concat pause_left ++ req_msgs (Request pr));;
  mret keep.

(** [c1] is the connector without the request, [c2] after the processor and the
    handling of the messages without ACKs. *)
Lemma finish_response_ok o p q c request queue c2 result pr (pause keep : bool) :
  msgs_inv o p q c → send_inv c → AckWaitQueue c = request :: queue →
  processed (Destroyed (Shared c)) request.2 (others_of o p q queue c) result pr →
  (pause = false → PauseAndResendAckMsgs pr = []) → (keep = true → Request pr = []) →
  AckWaitQueue c2 = queue → same_io (c <| AckWaitQueue := queue |>) c2 → CInputQueue c2 = CInputQueue c →
  Factory c2 = Factory c → GotAckAfterPause c2 = GotAckAfterPause c →
  NoAckAfterPause c2 = NoAckAfterPause c ++ MsgsWithoutAcks pr → Shared c2 = Ds pr → pause_inv c2 →
  Destroying c2 = Destroying c → CStreamReader c2 = CStreamReader c → after_shutdown c2 = after_shutdown c →
  ∃ c' lost, finish_response pause [] pr keep c2 = (Ret keep, c') ∧ received lost o p q c c' ∧ AckWaitQueue c' = queue ∧
    CStreamReader c' = CStreamReader c ∧ (keep = true → lost = []).
Proof.
  intros Hi (data & Hb & Hd & Hw) E [[Hwf (dest & D1 & D2 & D3 & D4 & D5 & D6)] _] Hnp Hk A1 [I1 I2 I3 I4 I5] A2 A3 A4 A5 A6 Hpi A7 A8 A9.
  set (f' := (PutFront_batches (ImmediateResendAckMsgs pr) (Factory c2)).2).
  set (c3 := c2 <| GotAckAfterPause := GotAckAfterPause c2 ++ PauseAndResendAckMsgs pr |>
    <| PauseButton := if pause then true else PauseButton c2 |> <| Factory := f' |>).
  set (c' := c3 <| Shared := mkShared (tracker_of c3) (ResponseProcessor.AnomalyTracker (Shared c3)) (AckCount (Shared c3))
    (reverse (req_msgs (Request pr)) ++ Destroyed (Shared c3)) |>).
  exists c', (req_msgs (Request pr)).
  assert (answered c c' request queue dest (MsgsWithoutAcks pr) (PauseAndResendAckMsgs pr) (ImmediateResendAckMsgs pr)
    (req_msgs (Request pr))) as Han.
  { split; try done.
    - change (Factory c') with f'. unfold f'. rewrite A3. done.
    - split; [change (GotAckAfterPause c') with (GotAckAfterPause c2 ++ PauseAndResendAckMsgs pr); by rewrite A4 | done].
    - change (Destroyed (Shared c')) with (reverse (req_msgs (Request pr)) ++ Destroyed (Shared c2)). by rewrite A6, D1. }
  destruct (msgs_inv_answered o p q c c' _ _ _ _ _ _ _ Hi Han) as [Hi' Hm'].
  { change (tracker_of c') with (ResponseProcessor.MsgStateTracker (Shared c2)). rewrite A6. exact D4. }
  split; [| split_and!; [split; try done | done | done |]].
  - unfold finish_response, CM. destruct pause.
    + erewrite bind_Ret by reflexivity. erewrite bind_Ret by reflexivity. erewrite bind_Ret by reflexivity. reflexivity.
    + assert (c' = (c2 <| Factory := f' |>) <| Shared := mkShared (tracker_of c2) (ResponseProcessor.AnomalyTracker (Shared c2))
        (AckCount (Shared c2)) (reverse (req_msgs (Request pr)) ++ Destroyed (Shared c2)) |>) as ->.
      { unfold c', c3. rewrite (Hnp eq_refl), app_nil_r. by destruct c2. }
      rewrite (Hnp eq_refl). do 3 (erewrite bind_Ret by reflexivity). reflexivity.
  - exists data. change (SendBuf c') with (SendBuf c2). change (CurrentRequest c') with (CurrentRequest c2). rewrite I1, I2.
    split_and!; [done | done |]. by apply (on_wire_answered data c c' request queue).
  - by apply request_wf_waits.
  - intros ->. by rewrite (Hk eq_refl).
Qed.

(** A response, for the connector whose stream reader offers one. *)
Lemma ProcessSingle_wp now tracker_now o p q c data eof n :
  msgs_inv o p q c → send_inv c → pause_inv c → AckWaitQueue c ≠ [] →
  StreamReader.settled stream_cfg (CStreamReader c) data eof → next_frame stream_cfg data = FrameMsg n →
  wp (ProcessSingleProduceResponse conf now tracker_now) c (λ keep c', ∃ lost, received lost o p q c c' ∧
    CStreamReader c' = CStreamReader c ∧ (keep = true → lost = [])) no_throws (λ x, x = Overflow).
Proof.
  intros Hi Hsend Hpi Hne Hst Hn. unfold ProcessSingleProduceResponse. wstep.
  destruct (AckWaitQueue c) as [| request queue] eqn:E; [done |].
  destruct (ready_msg_ok stream_cfg stream_cfg_ok _ _ _ _ Hst Hn) as (mem & Hmem & Hsz & _ & Htake).
  pose proof (st_case _ _ _ _ Hst) as Hcase. rewrite Hn in Hcase. destruct Hcase as (Hms & _).
  apply wp_massert; [by apply bool_decide_true |]. wstep. set (c1 := c <| AckWaitQueue := queue |>).
  eapply wp_bind_Ret; [apply (on_stream_read _ c1), Hmem |]. eapply wp_bind_Ret; [apply (on_stream_read _ c1), Hsz |].
  rewrite Nat2Z.id, Htake. apply wp_bind. eapply wp_mono.
  { apply (run_processor_wp tracker_now request _ c1 (others_of o p q queue c)).
    - pose proof (mi_ack _ _ _ _ _ Hi) as Ha. rewrite E in Ha. by apply Forall_cons in Ha as [Ha _].
    - eapply tracker_ok_perm; [apply (held_first c request queue o p q E) |]. apply (qi_tracker _ _ _ _ (mi_queue _ _ _ _ _ Hi)).
    - intros size. by apply frame_size_field. }
  intros [result pr] c2 [-> Hpr]. cbn [fst snd] in *.
  set (c2 := c1 <| Shared := Ds pr |> <| CResponseReader := ResponseReader pr |>) in *.
  change (Destroyed (Shared c1)) with (Destroyed (Shared c)) in Hpr.
  pose proof Hpr as [_ Hres]. destruct result as [[] | x].
  - (* KeepRunning *) destruct Hres as (R1 & R2 & R3). wstep. rewrite (R2 ltac:(done)).
    destruct (finish_response_ok o p q c request queue c2 _ pr false true Hi Hsend E Hpr) as (c' & lost & Hr & Hrc & _ & H1 & H2);
      try done; [auto | by rewrite (R2 ltac:(done)), app_nil_r |]. eapply wp_Ret; [exact Hr |]. by exists lost.
  - (* PauseAndDeferFinish *) destruct Hres as (R1 & R2 & R3). set (c3 := (SetPauseInProgress conf now c2).2).
    eapply wp_bind_Ret; [reflexivity |]. fold c3. rewrite (R2 ltac:(done)).
    destruct (finish_response_ok o p q c request queue c3 _ pr true true Hi Hsend E Hpr) as (c' & lost & Hr & Hrc & _ & H1 & H2);
      try done; [by rewrite (R2 ltac:(done)), app_nil_r | |].
    { intros _. eexists. split; [reflexivity |]. by destruct (OptInProgressShutdown _). }
    eapply wp_Ret; [exact Hr |]. by exists lost.
  - (* PauseAndFinishNow *) destruct Hres as (R1 & _). wstep.
    destruct (finish_response_ok o p q c request queue (c2 <| NoAckAfterPause := NoAckAfterPause c2 ++ MsgsWithoutAcks pr |>)
      _ pr true false Hi Hsend E Hpr) as (c' & lost & Hr & Hrc & _ & H1 & H2); try done. eapply wp_Ret; [exact Hr |]. by exists lost.
  - (* a bad response *) destruct Hres as (R1 & R2). rewrite R1. wstep. rewrite R2.
    destruct (finish_response_ok o p q c request queue c2 _ pr true false Hi Hsend E Hpr) as (c' & lost & Hr & Hrc & _ & H1 & H2);
      try done; [by rewrite R2, app_nil_r |]. eapply wp_Ret; [exact Hr |]. by exists lost.
Qed.

Lemma received_trans lost o p q c c1 c2 : received [] o p q c c1 → received lost o p q c1 c2 → received lost o p q c c2.
Proof.
  intros [A1 A2 A3 A4 A5 A6] [B1 B2 B3 B4 B5 B6]. split; try done; [by eapply moved_trans | congruence].
Qed.

Lemma received_same lost o p q c c' : received lost o p q c c' →
  ∀ c2, same_msgs c' c2 → same_io c' c2 → pause_inv c2 → Destroying c2 = Destroying c → received lost o p q c c2.
Proof.
  intros [A1 A2 A3 A4 A5 A6] c2 Hs Hio Hp Hd. destruct (msgs_inv_same conf _ p q c' c2 Hs A1) as [Hi _]. split; try done.
  - destruct A2 as (D0 & d & D1 & D2 & D3). split; [by rewrite (sm_after _ _ Hs) |]. exists d. rewrite (same_msgs_all p q _ _ Hs), (sm_shared _ _ Hs). done.
  - by eapply send_inv_same.
Qed.

Lemma received_refl o p q c :
  msgs_inv o p q c → send_inv c → pause_inv c → received [] o p q c c.
Proof. intros Hi Hs Hp. split; try done. apply moved_refl. Qed.

(** ** The loop *)

(** The connector may go on: the stream reader needs more data. *)
Definition goes_on (keep : bool) (lost : list TMsg) (c : TConnector) : Prop :=
  keep = true → lost = [] ∧ stream_inv c.

Lemma response_loop_wp fuel now tracker_now o p q c data eof :
  msgs_inv o p q c → send_inv c → pause_inv c →
  StreamReader.settled stream_cfg (CStreamReader c) data eof →
  Storage_size (StreamReader.Buf (Impl (CStreamReader c))) ≤ storage_bound stream_cfg → (length data ≤ fuel)%nat →
  (StreamReader.State (Impl (CStreamReader c)) = MsgReady → AckWaitQueue c ≠ []) →
  wp (response_loop conf fuel now tracker_now (StreamReader.State (Impl (CStreamReader c)))) c
    (λ keep c', ∃ lost, received lost o p q c c' ∧ goes_on keep lost c') no_throws (λ x, x = Overflow).
Proof.
  revert c data. induction fuel as [| fuel IH]; intros c data Hi Hs Hp Hst Hsz Hf Hack;
    pose proof (st_case _ _ _ _ Hst) as Hcase; pose proof (st_eof _ _ _ _ Hst) as Heof; cbn [response_loop].
  all: destruct (next_frame stream_cfg data) as [n | | reason] eqn:Hn; [destruct Hcase as (Hc & _) | destruct Hcase as (Hc & _) |
    destruct Hcase as (Hc & _)]; rewrite Hc.
  1, 4: destruct (next_frame_msg stream_cfg stream_cfg_ok _ _ Hn) as (_ & _ & _ & _ & Hlen).
  1: lia.
  2, 4: destruct eof.
  2, 4, 6, 7: wstep; eapply wp_Ret; [reflexivity |]; exists []; split; [| done]; by apply (received_same _ _ _ _ c c (received_refl _ _ _ _ Hi Hs Hp)).
  2, 3: eapply wp_Ret; [reflexivity |]; exists []; split; [by apply received_refl |]; intros _; split; [done | by exists data].
  apply wp_bind. eapply wp_mono; [by eapply ProcessSingle_wp; eauto |].
  intros keep c1 (lost & Hrc & Hsr & Hl). destruct keep; cbn [negb]; [| eapply wp_Ret; [reflexivity |]; by exists lost].
  rewrite (Hl eq_refl) in Hrc. rewrite <- Hsr in Hst, Hsz.
  destruct (Consume_ok stream_cfg stream_cfg_ok _ _ _ _ Hst Hn) as (r & Hr & Hst' & Hsz').
  eapply wp_bind_Ret; [apply (on_stream_run _ c1), Hr |]. set (c2 := c1 <| CStreamReader := r |>). wstep.
  assert (received [] o p q c c2) as Hrc2 by (apply (received_same _ _ _ _ c c1 Hrc); done || apply Hrc).
  change (StreamReader.State (Impl r)) with (StreamReader.State (Impl (CStreamReader c2))).
  destruct (bool_decide (AckWaitQueue c2 = []) && _) eqn:E.
  { wstep. eapply wp_Ret; [reflexivity |]. exists []. split; [| done]. apply (received_same _ _ _ _ c c2 Hrc2); done || apply Hrc2. }
  eapply wp_mono; [eapply (IH c2 (drop n data)); try apply Hrc2; try done |].
  - cbn. rewrite Hsz'. done.
  - rewrite length_drop. lia.
  - intros Hm Hnil. rewrite Hm, !bool_decide_true in E by done. done.
  - intros keep c3 (lost' & Hrc3 & Hgo). exists lost'. split; [by eapply received_trans | done].
Qed.

(** The contract of [read()]: at most the bytes that are asked for, or it fails. *)
Definition read_contract (res : read_result) : Prop :=
  ∀ bytes, res = ReadBytes bytes → Z.of_nat (length bytes) ≤ PreferredReadSize stream_cfg.

(** It fails, and not because the connection is lost. *)
Definition read_fatal (res : read_result) : Prop := ∃ errno, res = ReadError errno ∧ LostTcpConnection errno = false.

(** At most the bytes that are asked for, or the connection is lost. *)
Definition read_ok (res : read_result) : Prop :=
  match res with
  | ReadBytes bytes => Z.of_nat (length bytes) ≤ PreferredReadSize stream_cfg
  | ReadError errno => LostTcpConnection errno = true
  end.

Lemma read_contract_cases res : read_contract res → read_ok res ∨ read_fatal res.
Proof.
  intros H'. destruct res as [bytes | errno]; [left; by apply H' |]. unfold read_fatal. cbn.
  destruct (LostTcpConnection errno) eqn:E; [by left | right; by exists errno].
Qed.

(** A failure that is not a lost connection ends the process. *)
Lemma HandleSockReadReady_fatal now tracker_now res c :
  AckWaitQueue c ≠ [] → read_fatal res → HandleSockReadReady conf now tracker_now res c = (Fault Died, c).
Proof.
  intros Hne (errno & -> & He). unfold HandleSockReadReady, CM. erewrite bind_Ret by reflexivity. cbv beta.
  rewrite massert_bind by (by rewrite bool_decide_false). unfold mbind, M_bind. by rewrite He.
Qed.

(** No lost connection is one of the errors that the reader takes for a retry. *)
Lemma lost_not_retry errno :
  LostTcpConnection errno = true → (errno =? EAGAIN) || (errno =? EWOULDBLOCK) || (errno =? EINTR) = false.
Proof.
  intros He%bool_decide_eq_true_1. unfold LostTcpConnectionErrorCodes in He. unfold EAGAIN, EWOULDBLOCK, EINTR.
  repeat (apply elem_of_cons in He as [-> | He]; [done |]). by apply not_elem_of_nil in He.
Qed.

Lemma HandleSockReadReady_wp now tracker_now res o p q c :
  msgs_inv o p q c → send_inv c → pause_inv c → stream_inv c → AckWaitQueue c ≠ [] → read_ok res →
  wp (HandleSockReadReady conf now tracker_now res) c
    (λ keep c', ∃ lost, received lost o p q c c' ∧ goes_on keep lost c') no_throws (λ x, x = Overflow).
Proof.
  intros Hi Hs Hp (data & Hst & Hpart & Hsz) Hne Hres. unfold HandleSockReadReady. wstep.
  apply wp_massert; [by rewrite bool_decide_false |]. destruct res as [bytes | errno].
  - wstep. destruct (Read_ok stream_cfg stream_cfg_ok _ _ _ Hst Hpart Hres Hsz) as (r & Hr & Hst' & Hsz').
    set (c1 := c <| CStreamReader := r |>).
    eapply wp_bind_Ret; [unfold on_stream; rewrite Hr; reflexivity |]. wstep.
    destruct (msgs_inv_same conf o p q c c1 ltac:(done) Hi) as [Hi1 Hm1].
    assert (send_inv c1) as Hs1 by (by apply (send_inv_same _ _ c)). eapply wp_mono.
    { apply (response_loop_wp _ now tracker_now o p q c1 _ _ Hi1 Hs1 Hp Hst' Hsz'); [| done].
      pose proof (buf_bounds _ _ (st_buf _ _ _ _ Hst')) as (H1 & H2 & _). unfold Storage_size in H2. cbn. lia. }
    intros keep c2 (lost & Hrc & Hgo). exists lost. split; [| done]. by apply (received_trans _ _ _ _ c c1).
  - cbn in Hres. rewrite Hres. wstep.
    destruct (Read_error_ok stream_cfg stream_cfg_ok _ _ errno Hst Hpart Hsz) as (r & Hr & _).
    rewrite (lost_not_retry _ Hres : read_again errno = false) in Hr.
    eapply wp_bind_Ret; [unfold on_stream; rewrite Hr; reflexivity |]. apply wp_massert; [done |]. wstep.
    eapply wp_Ret; [reflexivity |]. exists []. split; [| done]. by apply (received_same _ _ _ _ c c (received_refl _ _ _ _ Hi Hs Hp)).
Qed.
End receiving.
