(* ===== verification/ConnectorRun.v ===== *)
(** * The life of a connector

    The invariant holds when the thread enters its loop, every iteration keeps it,
    and so do the operations of the other threads.  From this follow the claims:
    an iteration fails no assertion; every message that the connector was given is
    in one place or processed; the broker receives the requests in order; and the
    cleanup hands over every message that is left. *)
From S2P Require Import Prelude FieldAccess StreamReader Capped Msg AnomalyTracker Batch PerTopicBatcher BrokerMsgQueue.
From S2P Require Import Metadata Wire ProduceResponse StdMap ResponseProcessor ProduceRequest RequestFactory RequestBytes.
From S2P Require Import RequestSize Connector ConnectorInv ConnectorSend ConnectorRecv.

Section life.
Context `{HashOrder} (GetCompressionCodec : TCompressionType → option TCompressionCodec) (ComputeCrc32 : list byte → Z).
Context (conf : conn_conf).

Notation on_wire := (on_wire ComputeCrc32 conf).
Notation send_inv := (send_inv ComputeCrc32 conf).
Notation msgs_inv := (msgs_inv conf).

(** The state between two iterations. *)
Record conn_inv (o p q : list TMsg) (c : TConnector) : Prop := {
  ci_msgs : msgs_inv o p q c;
  ci_send : send_inv c;
  ci_pause : pause_inv c;
  ci_stream : stream_inv c
}.

Lemma conn_inv_quiet o p q c p' q' c' : conn_inv o p q c → quiet conf o p q c p' q' c' → conn_inv o p' q' c'.
Proof.
  intros [_ Hs _ Hst] [Hi _ Hio Hsr Hp _]. split; [done | by eapply send_inv_same | done |].
  unfold stream_inv in *. by rewrite Hsr.
Qed.

(** ** Polling *)

Lemma PrepareForPoll_ok now o p q c :
  conn_inv o p q c → ∃ plan, PrepareForPoll conf now c = (Ret plan, c) ∧
    match plan with
    | Some pl => (PollOut pl = true → CurrentRequest c ≠ None ∨ InputQueue (Factory c) ≠ []) ∧
        (PollIn pl = true → AckWaitQueue c ≠ [])
    | None => CurrentRequest c = None ∧ AckWaitQueue c = [] ∧ is_Some (OptInProgressShutdown c)
    end.
Proof.
  intros [Hi (data & Hb & Hd & Hw) Hp _]. unfold PrepareForPoll, CM. erewrite bind_Ret by reflexivity. cbv beta zeta.
  rewrite massert_bind.
  2: { destruct (PauseInProgress c) eqn:E; [| done]. destruct (Hp E) as (s & -> & ->). done. }
  rewrite (bind_Ret _ _ _ _ _ (SendInProgress_ok c data Hb)). unfold IsEmpty.
  assert (∀ l : list (list TMsg), negb (bool_decide (l = [])) = true → l ≠ []) as Hne.
  { intros l. by case_bool_decide. }
  assert (negb (bool_decide (AckWaitQueue c = [])) = true → AckWaitQueue c ≠ []) as Hna by (by case_bool_decide).
  destruct (decide (data = [])) as [E | E]; [rewrite (bool_decide_true (data = [])) by done |
    rewrite (bool_decide_false (data = [])) by done]; cbn [negb].
  2: { eexists. split; [reflexivity |]. cbn. split; [| done]. intros _. left. tauto. }
  destruct (OptInProgressShutdown c) as [s |] eqn:Es.
  2: { eexists. split; [reflexivity |]. cbn. split; [| done]. intros Hx. right. by apply Hne. }
  destruct (negb (_ && _) && _) eqn:E2.
  - eexists. split; [reflexivity |]. cbv beta iota. apply andb_true_iff in E2 as [_ E2]. rewrite negb_involutive in E2.
    apply bool_decide_eq_true_1 in E2. split_and!; [tauto | done | by eexists].
  - eexists. split; [reflexivity |]. cbn [PollOut PollIn]. split; [| done]. intros [Hx _]%andb_true_iff. right. by apply Hne.
Qed.

(** ** An iteration *)

(** [l] is the messages of [acc] that the connector still has. *)
Definition left_of (acc : list TMsg) (c : TConnector) (l : list TMsg) : Prop :=
  ident <$> (l ++ Destroyed (Shared c)) ≡ₚ ident <$> acc.

(** The contracts of [poll()], [send()] and [read()], and that the messages are in
    the pool. *)
Record event_ok (acc : list TMsg) (c : TConnector) (e : conn_event) : Prop := {
  ev_input : ∀ b1 b2 b3 b4, Polled e = Ready b1 b2 true b3 b4 → 0 < SenderNotify (CInputQueue c);
  ev_sock : ∀ b1 b2 b3 out in_ plan c', Polled e = Ready b1 b2 b3 out in_ →
    PrepareForPoll conf (StartTime e) c = (Ret (Some plan), c') →
    (out = true → PollOut plan = true) ∧ (in_ = true → PollIn plan = true);
  ev_pool : ∀ l, left_of acc c l → Forall (readable (EvPool e)) l;
  ev_send : send_ok (SendRes e);
  ev_read : read_contract (ReadRes e)
}.

(** [send()] or [read()] fails, and not because the connection is lost. *)
Definition fatal_io (e : conn_event) : Prop := send_fatal (SendRes e) ∨ read_fatal (ReadRes e).

(** A request to shut down that has no command. *)
Definition orphan_request (c : TConnector) (e : conn_event) : Prop :=
  (∃ b1 b2 b3 b4, Polled e = Ready true b1 b2 b3 b4) ∧ Destroying c = false ∧ OptShutdownCmd c = None.

(** How an iteration can end the process. *)
Definition iteration_fault (c : TConnector) (e : conn_event) (x : fault) : Prop :=
  x = Overflow ∨ (x = Died ∧ fatal_io e) ∨ (x = AssertFailed ∧ orphan_request c e).

(** What an iteration leaves. *)
Definition stepped (o p q : list TMsg) (c : TConnector) (go_on : bool) (c' : TConnector) : Prop :=
  ∃ p' q' lost, msgs_inv (lost ++ o) p' q' c' ∧ moved lost p q c p' q' c' ∧ send_inv c' ∧ pause_inv c' ∧
    Destroying c' = Destroying c ∧ Forall (λ m, Msg.State m = AckWait) lost ∧ goes_on go_on lost c'.

Lemma stepped_quiet o p q c p' q' c' b : conn_inv o p q c → quiet conf o p q c p' q' c' → stepped o p q c b c'.
Proof.
  intros Hc Hq. destruct (conn_inv_quiet _ _ _ _ _ _ _ Hc Hq). destruct Hq. exists p', q', []. by split_and!.
Qed.

Lemma readable_ident pool m : readable pool (ident m) ↔ readable pool m.
Proof.
  unfold ident, unassigned, any_partition. destruct m as [[] ? ? ? ? ? ? ? ? ? ?]; cbn; (split; intros []; by split).
Qed.

Lemma CheckInputQueue_quiet now pop o p q c :
  conn_inv o p q c → (pop = true → 0 < SenderNotify (CInputQueue c)) →
  ∃ p' q' c', CheckInputQueue now pop c = (Ret (), c') ∧ quiet conf o p q c p' q' c' ∧
    (InputQueue (Factory c) ≠ [] → InputQueue (Factory c') ≠ []).
Proof.
  intros Hc Hn. destruct (CheckInputQueue_ok conf now pop o p q c (ci_msgs _ _ _ _ Hc) Hn)
    as (p' & q' & c' & Hr & Hi & Hm & Hio & Hs & Hp & Ho & Hd & Hne).
  exists p', q', c'. split; [done |]. split; [| done]. split; try done. unfold pause_inv. rewrite Hp, Ho. apply Hc.
Qed.

(** The part of an iteration that serves the socket. *)
Definition serve_socket (e : conn_event) (out in_ : bool) : CM bool :=
  ok ← (if out then HandleSockWriteReady ComputeCrc32 conf (EvPool e) (SendRes e) else mret true);
  if negb ok then mret false
  else if in_ then HandleSockReadReady conf (HandlerClock e) (TrackerClock e) (ReadRes e)
  else mret true.

Lemma serve_socket_wp e (out in_ : bool) o p q c T :
  conn_inv o p q c → send_ok (SendRes e) → read_contract (ReadRes e) → Forall (readable (EvPool e)) (all_msgs p q c) →
  (out = true → CurrentRequest c ≠ None ∨ InputQueue (Factory c) ≠ []) → (in_ = true → AckWaitQueue c ≠ []) →
  wp (serve_socket e out in_) c (stepped o p q c) T (λ x, x = Overflow ∨ (x = Died ∧ fatal_io e)).
Proof.
  intros Hc Hse Hre Hpool Hout Hin. unfold serve_socket. apply wp_bind.
  apply (wp_mono _ _ _ _ (λ _ c1, msgs_inv o p q c1 ∧ moved [] p q c p q c1 ∧ send_inv c1 ∧ same_rest c c1 ∧
    ∃ l, AckWaitQueue c1 = AckWaitQueue c ++ l)).
  { destruct out.
    - eapply wp_weaken; [apply HandleSockWriteReady_wp; [apply Hc | apply Hc | done | by apply Hout |] | done | done | unfold fatal_io; naive_solver].
      unfold all_msgs, held in Hpool. rewrite !Forall_app in Hpool. naive_solver.
    - eapply wp_Ret; [reflexivity |]. split_and!; [apply Hc | apply moved_refl | apply Hc | done |]. exists []. by rewrite app_nil_r. }
  intros ok c1 (Hi1 & Hm1 & Hs1 & [R1 R2 R3 R4] & l & Ha1).
  assert (pause_inv c1) as Hp1 by (unfold pause_inv; rewrite R2, R3; apply Hc).
  assert (stream_inv c1) as Hst1 by (unfold stream_inv; rewrite R1; apply Hc).
  destruct ok; cbn [negb]; [| eapply wp_Ret; [reflexivity |]; by exists p, q, []].
  destruct in_; [| eapply wp_Ret; [reflexivity |]; by exists p, q, []].
  assert (AckWaitQueue c1 ≠ []) as Hne.
  { rewrite Ha1. specialize (Hin eq_refl). by destruct (AckWaitQueue c). }
  destruct (read_contract_cases _ Hre) as [Hrd | Hfatal].
  2: { unfold wp. rewrite HandleSockReadReady_fatal by done. right. split; [done | by right]. }
  eapply wp_weaken; [by apply (HandleSockReadReady_wp ComputeCrc32 conf _ _ _ o p q c1) | | done | by left].
  intros keep c2 (lost & [A1 A2 A3 A4 A5 A6] & Hgo). exists p, q, lost. split_and!; try done; [| congruence].
  by eapply moved_trans.
Qed.

Lemma stepped_after o p q c p1 q1 c1 b c2 :
  moved [] p q c p1 q1 c1 → Destroying c1 = Destroying c → stepped o p1 q1 c1 b c2 → stepped o p q c b c2.
Proof.
  intros Hm Hd (p2 & q2 & lost & H1 & H2 & H3 & H4 & H5 & H6 & H7). exists p2, q2, lost.
  split_and!; try done; [by eapply moved_trans | congruence].
Qed.

Lemma iteration_wp e o acc p q c :
  conn_inv o p q c → left_of acc c (all_msgs p q c) → event_ok acc c e →
  wp (iteration ComputeCrc32 conf e) c (stepped o p q c) (λ x c', Destroying c = true ∧ c' = c) (iteration_fault c e).
Proof.
  intros Hc Hleft [E2 E3 E4 E5 E6]. specialize (E4 _ Hleft). unfold iteration. destruct (PrepareForPoll_ok (StartTime e) o p q c Hc) as (plan & Hplan & Hpl).
  eapply wp_bind_Ret; [exact Hplan |].
  assert (∀ c', same_msgs c c' → same_io c c' → CStreamReader c' = CStreamReader c → PauseInProgress c' = PauseInProgress c →
    OptInProgressShutdown c' = OptInProgressShutdown c → Destroying c' = Destroying c → ∀ b, stepped o p q c b c') as Hsame.
  { intros c' S1 S2 S3 S4 S5 S6 b. apply (stepped_quiet o p q c p q c' b Hc). apply quiet_same; try done; [apply Hc |].
    unfold pause_inv. rewrite S4, S5. apply Hc. }
  destruct plan as [plan |]; [| wstep; eapply wp_Ret; [reflexivity | by apply Hsame]].
  destruct Hpl as [Hout Hin]. destruct (Polled e) as [| sd ps inp out in_] eqn:Ep.
  - wstep. destruct (_ && _); [wstep; eapply wp_Ret; [reflexivity | by apply Hsame] |].
    destruct (match OptInProgressShutdown c with Some _ => _ | None => _ end); [wstep; eapply wp_Ret; [reflexivity | by apply Hsame] |].
    destruct (CheckInputQueue_quiet (StartTime e `max` FinishClock e) false o p q c Hc ltac:(done)) as (p' & q' & c' & Hr & Hq & _).
    eapply wp_bind_Ret; [exact Hr |]. eapply wp_Ret; [reflexivity |]. by eapply stepped_quiet.
  - destruct sd.
    { destruct (Destroying c) eqn:Ed.
      - apply wp_bind. unfold HandleShutdownRequest. wstep. rewrite Ed. by eapply wp_Throw.
      - destruct (decide (OptShutdownCmd c = None)) as [Hcmd | Hcmd].
        { apply wp_bind. unfold HandleShutdownRequest. wstep. rewrite Ed, Hcmd. unfold wp. cbn. right. right. split; [done |].
          split; [rewrite Ep; by eexists _, _, _, _ | done]. }
        destruct (HandleShutdownRequest_ok conf (HandlerClock e) o p q c) as (p' & q' & c' & Hr & Hq); try done; try apply Hc.
        eapply wp_bind_Ret; [exact Hr |]. eapply wp_Ret; [reflexivity |]. by eapply stepped_quiet. }
    destruct ps.
    { destruct (SetPauseInProgress_ok conf (HandlerClock e) o p q c) as (c' & Hr & Hq); [apply Hc |].
      eapply wp_bind_Ret; [exact Hr |]. eapply wp_Ret; [reflexivity |]. by eapply stepped_quiet. }
    assert (∃ p1 q1 c1, (if inp then CheckInputQueue (StartTime e `max` FinishClock e) true else mret ()) c = (Ret (), c1) ∧
      quiet conf o p q c p1 q1 c1 ∧ (InputQueue (Factory c) ≠ [] → InputQueue (Factory c1) ≠ [])) as (p1 & q1 & c1 & Hr1 & Hq1 & Hne1).
    { destruct inp.
      - apply CheckInputQueue_quiet; [done |]. intros _. by eapply E2.
      - exists p, q, c. split_and!; try done. apply quiet_same; try done; apply Hc. }
    eapply wp_bind_Ret; [exact Hr1 |]. destruct (E3 _ _ _ _ _ _ _ eq_refl Hplan) as [Eo Ei].
    eapply wp_weaken; [apply (serve_socket_wp e out in_ o p1 q1 c1 no_throws) | intros b c2; apply stepped_after; apply Hq1 | done | unfold iteration_fault; naive_solver]; try done.
    + by eapply conn_inv_quiet.
    + destruct (qt_moved _ _ _ _ _ _ _ _ Hq1) as (_ & d & _ & _ & Hp). rewrite app_nil_l in Hp.
      pose proof (Forall_ident _ _ _ (readable_ident (EvPool e)) Hp E4) as Hf. by apply Forall_app in Hf as [? _].
    + intros Ho. destruct (Hout (Eo Ho)) as [Hx | Hx]; [left | right; by apply Hne1]. by rewrite (io_current _ _ (qt_io _ _ _ _ _ _ _ _ Hq1)).
    + intros Hi. rewrite (io_ack _ _ (qt_io _ _ _ _ _ _ _ _ Hq1)). by apply Hin, Ei.
Qed.

(** ** The end *)

Lemma shape_full r : request_shape r → sets_full r.
Proof. intros (_ & _ & Hr). eapply Forall_impl; [exact Hr |]. by intros t (_ & _ & ?). Qed.

(** Emptying the requests that wait. *)
Lemma empty_requests (l : list TProduceRequest) (c : TConnector) :
  Forall (λ r : TProduceRequest, request_wf r.2) l →
  ∃ sets, (mmap (λ r : TProduceRequest, need AssertFailed (EmptyAllTopics r.2)) l : CM _) c = (Ret sets, c) ∧
    concat (concat sets) = concat ((λ r : TProduceRequest, req_msgs r.2) <$> l) ∧ Forall one_topic (concat sets).
Proof.
  induction 1 as [| r l Hr Hl (sets & IH1 & IH2 & IH3)]; [by exists [] |].
  destruct (EmptyAllTopics_ok _ Hr) as (bs & H1 & H2 & H3). exists (bs :: sets). cbn [mmap]. split_and!.
  - unfold CM in *. erewrite bind_Ret by (by rewrite H1). by rewrite (bind_Ret _ _ _ _ _ IH1).
  - cbn. by rewrite concat_app, H2, IH2.
  - cbn. by apply Forall_app.
Qed.

(** The state after the cleanup. *)
Record cleaned (o p q : list TMsg) (c c' : TConnector) : Prop := {
  cl_send : forget <$> concat (SendWaitAfterShutdown c') ≡ₚ forget <$> (current_msgs c ++ concat (GotAckAfterPause c) ++
    concat (InputQueue (Factory c)) ++ p ++ q ++ concat (ReadyList (CInputQueue c)));
  cl_no_ack : concat (NoAckAfterShutdown c') = concat (NoAckAfterPause c) ++ ack_wait_msgs c;
  cl_states : Forall (λ m, Msg.State m = SendWait) (concat (SendWaitAfterShutdown c'));
  cl_topics : Forall one_topic (SendWaitAfterShutdown c' ++ NoAckAfterShutdown c');
  cl_tracker : tracker_ok (tracker_of c') (concat (SendWaitAfterShutdown c') ++ concat (NoAckAfterShutdown c') ++ o);
  cl_empty : q_inv (queue_of c') (concat (SendWaitAfterShutdown c') ++ concat (NoAckAfterShutdown c') ++ o) [] [] ∧
    ReadyList (CInputQueue c') = [] ∧ held c' = [];
  cl_destroyed : Destroyed (Shared c') = Destroyed (Shared c)
}.

Lemma queue_Reset_ok x o p q :
  q_inv x o p q →
  ∃ msgs x', BrokerMsgQueue.Reset x = (Ret msgs, x') ∧ q_inv x' (concat msgs ++ o) [] [] ∧
    ReadyList x' = [] ∧ Forall one_topic msgs ∧ Forall (λ m, Msg.State m = SendWait) (concat msgs) ∧
    forget <$> concat msgs ≡ₚ forget <$> (p ++ q ++ concat (ReadyList x)).
Proof.
  intros Hi. unfold BrokerMsgQueue.Reset, QM. erewrite bind_Ret by reflexivity. set (x0 := mkQueue 0 _ _ _ _ _ _).
  destruct (GetAllMsgs_ok x0 o p q) as (msgs & x' & H1 & H2 & H3 & H4 & H5 & H6 & _); [by destruct Hi |].
  by exists msgs, x'.
Qed.

(** The first part of the cleanup: the request that was being sent. *)
Definition cleanup_current (c : TConnector) : CM () :=
  match CurrentRequest c with
  | Some request =>
      sets ← need AssertFailed (EmptyAllTopics request.2);
      modify (λ c, c <| CurrentRequest := Some (request.1, []) |>
        <| SendWaitAfterShutdown := SendWaitAfterShutdown c ++ sets |>)
  | None => mret ()
  end.

Lemma cleanup_current_ok c :
  match CurrentRequest c with Some r => request_shape r.2 | None => True end → SendWaitAfterShutdown c = [] →
  ∃ cur r, cleanup_current c c = (Ret (), c <| CurrentRequest := r |> <| SendWaitAfterShutdown := cur |>) ∧
    concat cur = current_msgs c ∧ Forall one_topic cur ∧ match r with Some r => r.2 = [] | None => True end.
Proof.
  intros Hcur E1. unfold current_msgs, cleanup_current. destruct (CurrentRequest c) as [r |] eqn:E.
  - destruct (EmptyAllTopics_full _ (shape_full _ Hcur)) as (l & H1 & H2 & H3). exists l, (Some (r.1, [])).
    split_and!; try done. unfold CM. erewrite bind_Ret by (by rewrite H1). unfold modify. cbn. by rewrite E1.
  - exists [], None. split_and!; try done. cbn. rewrite <- E, <- E1. by destruct c.
Qed.

Lemma CleanupAfterJoin_ok o p q c :
  msgs_inv o p q c → SendWaitAfterShutdown c = [] → NoAckAfterShutdown c = [] → Destroying c = false →
  ∃ c', CleanupAfterJoin c = (Ret (), c') ∧ cleaned o p q c c'.
Proof.
  intros Hi E1 E2 E3. unfold CleanupAfterJoin, CM. erewrite bind_Ret by reflexivity. cbv beta.
  rewrite E1, E2, E3, !bool_decide_true by done. do 3 rewrite massert_bind by done. erewrite bind_Ret by reflexivity.
  set (c1 := c <| CMetadata := None |>).
  destruct (cleanup_current_ok c1 (mi_current _ _ _ _ _ Hi) E1) as (cur & r & Hr2 & Hcur & Hone & Hreq). unfold cleanup_current, CM in Hr2.
  rewrite (bind_Ret _ _ _ _ _ Hr2). clear Hr2. do 3 (erewrite bind_Ret by reflexivity).
  set (c3 := _ <| SendWaitAfterShutdown := _ |>). assert (queue_of c3 = queue_of c) as Eq3 by done.
  destruct (queue_Reset_ok (queue_of c) _ p q (mi_queue _ _ _ _ _ Hi)) as (msgs & x & Hx & Hq & Hrd & Ho & Hsw & Hp).
  rewrite <- Eq3 in Hx. rewrite (bind_Ret _ _ _ _ _ (on_queue_run _ c3 _ _ Hx)). do 2 (erewrite bind_Ret by reflexivity).
  set (c4 := _ <| NoAckAfterPause := [] |>).
  destruct (empty_requests (AckWaitQueue c) c4 (mi_ack _ _ _ _ _ Hi)) as (sets & Hs1 & Hs2 & Hs3).
  unfold CM in Hs1. rewrite (bind_Ret _ _ _ _ _ Hs1). eexists. split; [reflexivity |].
  set (c' := _ <| AckWaitQueue := _ |>).
  assert (SendWaitAfterShutdown c' = ((cur ++ GotAckAfterPause c) ++ InputQueue (Factory c)) ++ msgs) as F1 by done.
  assert (NoAckAfterShutdown c' = (NoAckAfterShutdown c ++ NoAckAfterPause c) ++ concat sets) as F2 by done.
  rewrite E2 in F2. cbn [app] in F2. change (current_msgs c1) with (current_msgs c) in Hcur.
  pose proof (mi_sendwait _ _ _ _ _ Hi) as Hw. rewrite !Forall_app in Hw. destruct Hw as (W1 & W2 & W3 & W4).
  pose proof (mi_aside _ _ _ _ _ Hi) as Ha. rewrite Forall_app in Ha. destruct Ha as [Ha1 Ha2].
  assert (concat msgs ++ held c ++ o ≡ₚ concat (SendWaitAfterShutdown c') ++ concat (NoAckAfterShutdown c') ++ o) as Hall.
  { rewrite F1, F2, !concat_app, Hcur, Hs2. unfold held, ack_wait_msgs. clear. perm_lia. }
  assert (queue_of c' = x) as Eq by (by destruct x). apply (q_inv_perm _ _ _ _ _ Hall) in Hq.
  split.
  - rewrite F1, !concat_app, Hcur. change (ReadyList (queue_of c)) with (ReadyList (CInputQueue c)) in Hp.
    clear -Hp. perm_lia.
  - by rewrite F2, concat_app, Hs2.
  - rewrite F1, !concat_app, Hcur, !Forall_app. done.
  - rewrite F1, F2, !Forall_app. pose proof (mi_topics _ _ _ _ _ Hi). done.
  - pose proof (qi_tracker _ _ _ _ Hq) as Ht. rewrite Hrd, !app_nil_r in Ht. exact Ht.
  - rewrite Eq. split_and!; [done | exact Hrd |]. unfold held, current_msgs, ack_wait_msgs.
    change (CurrentRequest c') with r. change (InputQueue (Factory c')) with (@nil (list TMsg)).
    change (GotAckAfterPause c') with (@nil (list TMsg)). change (NoAckAfterPause c') with (@nil (list TMsg)).
    change (AckWaitQueue c') with ((λ request : TProduceRequest, (request.1, [] : TAllTopics)) <$> AckWaitQueue c).
    cbn [concat app]. rewrite !app_nil_r. assert (match r with Some r => req_msgs r.2 | None => [] end = []) as ->.
    { destruct r as [r |]; [by rewrite Hreq | done]. }
    clear. induction (AckWaitQueue c); [done |]. done.
  - done.
Qed.

(** ** Messages that arrive *)

(** [new] arrives in the queue, which is then [x]. *)
Lemma conn_inv_put new o p q c x p' q' :
  conn_inv (new ++ o) p q c → q_inv x (held c ++ o) p' q' →
  forget <$> (p' ++ q' ++ concat (ReadyList x)) ≡ₚ forget <$> (new ++ p ++ q ++ concat (ReadyList (CInputQueue c))) →
  Forall (good (FactoryConf conf) (Factory c)) new → total_weight (new ++ all_msgs p q c) ≤ request_room (FactoryConf conf) →
  conn_inv o p' q' (with_queue x c) ∧ ident <$> all_msgs p' q' (with_queue x c) ≡ₚ ident <$> (new ++ all_msgs p q c).
Proof.
  intros [Hi Hs Hp Hst] Hq Hf Hg Hw. set (c' := with_queue x c).
  assert (ident <$> all_msgs p' q' c' ≡ₚ ident <$> (new ++ all_msgs p q c)) as Hall.
  { unfold all_msgs. change (held c') with (held c). change (CInputQueue c') with x.
    apply (fmap_coarser _ ident _ _ ident_forget) in Hf. clear -Hf. perm_lia. }
  split; [| done]. split; [| by apply (send_inv_same _ _ c) | done | done].
  destruct Hi as [H1 H2 H3 H4 H5 H6 H7 H8 H9 H10 H11]. split; try done.
  - unfold c'. by rewrite queue_of_with.
  - eapply Forall_ident; [intros m; apply good_ident | exact Hall |]. by apply Forall_app.
  - by rewrite (total_weight_ident _ _ Hall).
Qed.

Lemma others_perm (o o' p q : list TMsg) c : conn_inv o p q c → o ≡ₚ o' → conn_inv o' p q c.
Proof.
  intros [Hi Hs Hp Hst] Ho. split; try done. destruct Hi as [H1 H2 H3 H4 H5 H6 H7 H8 H9 H10 H11]. split; try done.
  eapply q_inv_perm; [| exact H1]. by rewrite Ho.
Qed.

(** The messages [new] can be sent, and all messages fit in a request. *)
Record acceptable (new acc : list TMsg) (c : TConnector) : Prop := {
  ac_good : Forall (good (FactoryConf conf) (Factory c)) new;
  ac_weight : ∀ l, left_of acc c l → total_weight (new ++ l) ≤ request_room (FactoryConf conf)
}.

(** The premises of an arrival. *)
Definition arrives (new acc o p q : list TMsg) (c : TConnector) : Prop :=
  conn_inv (new ++ o) p q c ∧ left_of acc c (all_msgs p q c) ∧ acceptable new acc c.

(** What it gives. *)
Definition arrived (new o p q : list TMsg) (c c' : TConnector) : Prop :=
  ∃ p' q', conn_inv o p' q' c' ∧ ident <$> all_msgs p' q' c' ≡ₚ ident <$> (new ++ all_msgs p q c) ∧
    Shared c' = with_shared_tracker (tracker_of c') (Shared c).

Lemma queue_others new o p q c : conn_inv (new ++ o) p q c → q_inv (queue_of c) (new ++ held c ++ o) p q.
Proof. intros [Hi _ _ _]. eapply q_inv_perm; [| apply Hi]. perm_lia. Qed.

Lemma Dispatch_ok now msg acc o p q c :
  arrives [msg] acc o p q c → Msg.State msg = New → Timestamp msg ≤ INT64_MAX →
  ∃ c', Dispatch now msg c = (Ret (), c') ∧ arrived [msg] o p q c c'.
Proof.
  intros (Hc & Hleft & [Hg Hw]) Hst Hts.
  destruct (Put_body_ok (queue_of c) msg now _ p q (queue_others _ _ _ _ _ Hc) Hst Hts) as (q1 & p' & q' & Hr & [Hi1 Hall _ _]).
  destruct (Put_notify_inv (is_empty (ReadyList (queue_of c))) (is_empty (ReadyList q1))
    (mkStatus (expiry_pt (queue_of c)) (expiry_pt q1)) (mkStatus (expiry_cb (queue_of c)) (expiry_cb q1)) q1 _ p' q' Hi1)
    as (x & Hr2 & Hi2 & Hl2).
  rewrite <- Hr in Hr2. exists (with_queue x c). split; [by apply on_queue_run |]. exists p', q'.
  destruct (conn_inv_put [msg] o p q c x p' q' Hc Hi2) as [H1 H2]; [| done | by apply Hw | done].
  rewrite Hl2. change (ReadyList (queue_of c)) with (ReadyList (CInputQueue c)) in Hall. cbn [app] in *. clear -Hall. perm_lia.
Qed.

Lemma DispatchNow_ok now msg acc o p q c :
  arrives [msg] acc o p q c → legal SendWait (Msg.State msg) = true →
  ∃ c', DispatchNow now msg c = (Ret (), c') ∧ arrived [msg] o p q c c'.
Proof.
  intros (Hc & Hleft & [Hg Hw]) Hst.
  destruct (PutNow_body_ok (queue_of c) msg now _ p q (queue_others _ _ _ _ _ Hc) Hst) as (q1 & p' & q' & Hr & [Hi1 Hall _ _] & _).
  destruct (PutNow_notify_inv (is_empty (ReadyList (queue_of c))) q1 _ p' q' Hi1) as (x & Hr2 & Hi2 & Hl2).
  rewrite <- Hr in Hr2. exists (with_queue x c). split; [by apply on_queue_run |]. exists p', q'.
  destruct (conn_inv_put [msg] o p q c x p' q' Hc Hi2) as [H1 H2]; [| done | by apply Hw | done].
  rewrite Hl2. change (ReadyList (queue_of c)) with (ReadyList (CInputQueue c)) in Hall. cbn [app] in *. clear -Hall. perm_lia.
Qed.

Lemma DispatchNow_batch_ok now bs acc o p q c :
  arrives (concat bs) acc o p q c → bs ≠ [] → Forall one_topic bs →
  Forall (λ m, legal SendWait (Msg.State m) = true) (concat bs) →
  ∃ c', DispatchNow_batch now bs c = (Ret (), c') ∧ arrived (concat bs) o p q c c'.
Proof.
  intros (Hc & Hleft & [Hg Hw]) Hne Hone Hst.
  destruct (PutNow_batch_body_ok (queue_of c) bs now _ p q (queue_others _ _ _ _ _ Hc) Hne Hone Hst)
    as (q1 & p' & q' & Hr & [Hi1 Hall _ _] & _).
  destruct (PutNow_notify_inv (is_empty (ReadyList (queue_of c))) q1 _ p' q' Hi1) as (x & Hr2 & Hi2 & Hl2).
  rewrite <- Hr in Hr2. exists (with_queue x c). split; [by apply on_queue_run |]. exists p', q'.
  destruct (conn_inv_put (concat bs) o p q c x p' q' Hc Hi2) as [H1 H2]; [| done | by apply Hw | done].
  rewrite Hl2. change (ReadyList (queue_of c)) with (ReadyList (CInputQueue c)) in Hall. cbn [app] in *. clear -Hall. perm_lia.
Qed.

(** ** The start *)

Lemma stream_start fd (c : TConnector) :
  0 ≤ fd → CStreamReader c = StreamReader.mkReader (TImpl_new fd TBuf_new) stream_cfg → stream_inv c.
Proof.
  intros Hfd E. exists []. rewrite E. split; [| split; [done | vm_compute; discriminate]]. unfold TImpl_new.
  rewrite (proj2 (Z.ltb_ge fd 0)) by lia. split; cbn; try done.
  - by apply (buf_rep_assigned []).
  - split_and!; try done. by exists None.
Qed.

(** The configuration that a connector can work with. *)
Record conf_ok : Prop := {
  co_codecs : ∀ k, codec_contract (FactoryConf conf) (TCompressionInfo_new GetCompressionCodec k);
  co_client : Z.of_nat (length (ClientId (FactoryConf conf))) ≤ INT16_MAX
}.

Lemma DoConnect_inv md connected c :
  Sock c = false → CMetadata c = Some md →
  DoConnect conf connected c = (Ret connected, c <| Sock := connected |>) ∨ ∃ x, DoConnect conf connected c = (Fault x, c).
Proof.
  intros Hs Hm. unfold DoConnect, CM. erewrite bind_Ret by reflexivity. cbv beta. rewrite Hs, Hm, massert_bind by done.
  erewrite bind_Ret by reflexivity. destruct (Brokers md !! MyBrokerIndex conf) as [b |]; [| right; by eexists].
  erewrite bind_Ret by reflexivity. destruct (InService b); [| right; by eexists]. left. reflexivity.
Qed.

Lemma start_inv ds per_topic combined topic_filter exclude md fd o c :
  conf_ok → tracker_ok (ResponseProcessor.MsgStateTracker ds) o → Z.of_nat (length o) < 2 ^ 64 →
  (∀ k t, per_topic = Some k → config_ok (Config_Get t k)) → config_ok combined → 0 ≤ fd →
  (SetMetadata GetCompressionCodec conf md;; DoRun_start conf true fd)
    (TConnector_new GetCompressionCodec conf ds per_topic combined topic_filter exclude) = (Ret true, c) →
  conn_inv o [] [] c ∧ all_msgs [] [] c = [] ∧ Shared c = ds ∧ after_shutdown c = ([], []).
Proof.
  intros [Hco Hcl] Ht Hlen Hpt Hcb Hfd Hr. set (c0 := TConnector_new _ _ _ _ _ _ _) in Hr. unfold CM in Hr.
  erewrite bind_Ret in Hr by reflexivity. unfold DoRun_start, CM in Hr. erewrite bind_Ret in Hr by reflexivity.
  set (c1 := _ <| OkShutdown := false |>) in Hr. unfold ConnectToBroker, CM in Hr.
  destruct (DoConnect_inv md true c1 eq_refl eq_refl) as [Hd | (x & Hd)].
  2: { exfalso. revert Hr. unfold CM in Hd. by rewrite (bind_Fault _ _ _ _ _ (bind_Fault _ _ _ _ _ Hd)). }
  unfold CM in Hd. erewrite bind_Ret in Hr by (rewrite (bind_Ret _ _ _ _ _ Hd); reflexivity). cbn [negb] in Hr.
  erewrite bind_Ret in Hr by (apply on_stream_run; reflexivity). injection Hr as <-.
  set (c := _ <| CStreamReader := _ |>). split; [| done]. split.
  - split; [| constructor | constructor | done | constructor | constructor | | constructor | | | done].
    + change (queue_of c) with (TBrokerMsgQueue_new per_topic combined topic_filter exclude (ResponseProcessor.MsgStateTracker ds)).
      by apply q_inv_new.
    + intros t. unfold chooser_of. change (TopicDataMap (Factory c)) with (TopicDataMap_of GetCompressionCodec (CompressionConf conf)).
      unfold TopicDataMap_of. rewrite lookup_fmap. by destruct (TopicConfigs _ !! t).
    + unfold request_room, total_weight, INT32_MAX, INT16_MAX in *. cbn. lia.
    + intros t. unfold info_of. change (TopicDataMap (Factory c)) with (TopicDataMap_of GetCompressionCodec (CompressionConf conf)).
      unfold TopicDataMap_of. rewrite lookup_fmap. destruct (TopicConfigs _ !! t); apply Hco.
  - exists []. split_and!; [by apply (buf_rep_assigned []) | done |]. by exists [], [].
  - done.
  - by apply (stream_start fd).
Qed.

(** ** Every history *)

(** The states of a connector's thread in its loop, with the messages [o] of the
    rest of the server and those that the connector was given, [acc]: the router
    dispatches messages, the dispatcher starts shutdowns, any thread pushes the
    pause button, other messages change their state, and the thread runs the
    iterations of its loop. *)
Inductive life : list TMsg → list TMsg → TConnector → Prop :=
| life_start ds per_topic combined topic_filter exclude md fd o c :
    conf_ok → tracker_ok (ResponseProcessor.MsgStateTracker ds) o → Z.of_nat (length o) < 2 ^ 64 →
    (∀ k t, per_topic = Some k → config_ok (Config_Get t k)) → config_ok combined → 0 ≤ fd → Destroyed ds = [] →
    (SetMetadata GetCompressionCodec conf md;; DoRun_start conf true fd)
      (TConnector_new GetCompressionCodec conf ds per_topic combined topic_filter exclude) = (Ret true, c) →
    life o [] c
| life_perm o o' acc c : life o acc c → o ≡ₚ o' → life o' acc c
| life_dispatch o acc c now msg c' :
    life ([msg] ++ o) acc c → acceptable [msg] acc c →
    Msg.State msg = New → Timestamp msg ≤ INT64_MAX → Dispatch now msg c = (Ret (), c') → life o ([msg] ++ acc) c'
| life_dispatch_now o acc c now msg c' :
    life ([msg] ++ o) acc c → acceptable [msg] acc c →
    legal SendWait (Msg.State msg) = true → DispatchNow now msg c = (Ret (), c') → life o ([msg] ++ acc) c'
| life_dispatch_batch o acc c now bs c' :
    life (concat bs ++ o) acc c → acceptable (concat bs) acc c →
    bs ≠ [] → Forall one_topic bs → Forall (λ m, legal SendWait (Msg.State m) = true) (concat bs) →
    DispatchNow_batch now bs c = (Ret (), c') → life o (concat bs ++ acc) c'
| life_slow_shutdown o acc c t c' : life o acc c → StartSlowShutdown t c = (Ret (), c') → life o acc c'
| life_fast_shutdown o acc c c' : life o acc c → StartFastShutdown c = (Ret (), c') → life o acc c'
| life_shutdown_ack o acc c c' : life o acc c → WaitForShutdownAck c = (Ret (), c') → life o acc c'
| life_pause o acc c c' : life o acc c → PauseButton_Push c = (Ret (), c') → life o acc c'
| life_elsewhere o o' acc c t :
    life o acc c → (∀ p q, conn_inv o p q c → conn_inv o' p q (with_tracker_of t c)) → life o' acc (with_tracker_of t c)
| life_iteration o acc c e c' :
    life o acc c → event_ok acc c e →
    iteration ComputeCrc32 conf e c = (Ret true, c') → life o acc c'.

(** The messages in [acc], except those in [lost], are in the connector or
    processed. *)
Definition accounted (lost o acc p q : list TMsg) (c : TConnector) : Prop :=
  msgs_inv (lost ++ o) p q c ∧ Forall (λ m, Msg.State m = AckWait) lost ∧
  ident <$> (all_msgs p q c ++ Destroyed (Shared c)) ≡ₚ ident <$> acc ∧
  ∃ d, Destroyed (Shared c) ≡ₚ lost ++ d ∧ Forall (λ m, Msg.State m = Processed) d.

Lemma accounted_left lost o acc p q c : accounted lost o acc p q c → left_of acc c (all_msgs p q c).
Proof. by intros (_ & _ & ? & _). Qed.

Lemma accounted_moved lost o acc p q c p' q' c' :
  accounted [] o acc p q c → msgs_inv (lost ++ o) p' q' c' → moved lost p q c p' q' c' →
  Forall (λ m, Msg.State m = AckWait) lost → accounted lost o acc p' q' c'.
Proof.
  intros (_ & _ & H1 & d1 & H2 & H3) Hi (_ & d & D1 & D2 & D3) Hl. split_and!; try done.
  - rewrite <- H1, D1, reverse_Permutation. clear -D3. perm_lia.
  - exists (d ++ d1). rewrite D1, reverse_Permutation, H2. cbn [app]. split; [by rewrite app_assoc | by apply Forall_app].
Qed.

(** The invariant of the histories. *)
Definition alive (o acc : list TMsg) (c : TConnector) : Prop :=
  ∃ p q, conn_inv o p q c ∧ accounted [] o acc p q c ∧ after_shutdown c = ([], []).

Lemma alive_arrived new o acc p q c c' :
  accounted [] (new ++ o) acc p q c → after_shutdown c = ([], []) → arrived new o p q c c' →
  after_shutdown c' = after_shutdown c → alive o (new ++ acc) c'.
Proof.
  intros (_ & _ & H1 & d & H2 & H3) Haf (p' & q' & Hc & Hall & Hsh) Haf2. exists p', q'.
  split; [done |]. split; [| congruence]. assert (Destroyed (Shared c') = Destroyed (Shared c)) as Hd by (by rewrite Hsh).
  split_and!; [apply Hc | done | | exists d; by rewrite Hd]. rewrite Hd. clear -H1 Hall. perm_lia.
Qed.

Lemma alive_quiet o acc p q c p' q' c' :
  conn_inv o p q c → accounted [] o acc p q c → after_shutdown c = ([], []) → quiet conf o p q c p' q' c' → alive o acc c'.
Proof.
  intros Hc Hac Haf Hq. exists p', q'. split; [by eapply conn_inv_quiet |]. split.
  - eapply accounted_moved; [exact Hac | apply Hq | apply Hq | done].
  - destruct (qt_moved _ _ _ _ _ _ _ _ Hq) as [Ha _]. congruence.
Qed.

Lemma alive_same o acc p q c c' :
  conn_inv o p q c → accounted [] o acc p q c → after_shutdown c = ([], []) → same_msgs c c' → same_io c c' →
  CStreamReader c' = CStreamReader c → PauseInProgress c' = PauseInProgress c →
  OptInProgressShutdown c' = OptInProgressShutdown c → Destroying c' = Destroying c → alive o acc c'.
Proof.
  intros Hc Hac Haf S1 S2 S3 S4 S5 S6. eapply (alive_quiet o acc p q c p q c'); try done.
  apply quiet_same; try done; [apply Hc |]. unfold pause_inv. rewrite S4, S5. apply Hc.
Qed.

Lemma on_queue_after {A} (m : QM A) c o c' : on_queue m c = (o, c') → after_shutdown c' = after_shutdown c.
Proof. unfold on_queue, zoom. destruct (no_throw m (queue_of c)). by intros [= _ <-]. Qed.

(** A shutdown starts if there is none. *)
Lemma StartShutdown_inv cmd c c' :
  (c ← get; massert (bool_decide (OptShutdownCmd c = None));;
   modify (λ c, c <| OptShutdownCmd := Some cmd |> <| ShutdownRequest := true |>) : CM ()) c = (Ret (), c') →
  c' = c <| OptShutdownCmd := Some cmd |> <| ShutdownRequest := true |>.
Proof. unfold CM. erewrite bind_Ret by reflexivity. cbv beta. case_bool_decide; [| done]. by intros [= <-]. Qed.

Lemma life_inv o acc c : life o acc c → alive o acc c.
Proof.
  induction 1 as [ds pt cb tf ex md fd o c Hco Ht Hlen Hpt Hcb Hfd Hds Hr
    | o o' acc c _ (p & q & Hc & Hac & Haf) Ho
    | o acc c now msg c' _ (p & q & Hc & Hac & Haf) Harv Hst Hts Hr
    | o acc c now msg c' _ (p & q & Hc & Hac & Haf) Harv Hst Hr
    | o acc c now bs c' _ (p & q & Hc & Hac & Haf) Harv Hne Hone Hst Hr
    | o acc c t c' _ (p & q & Hc & Hac & Haf) Hr | o acc c c' _ (p & q & Hc & Hac & Haf) Hr
    | o acc c c' _ (p & q & Hc & Hac & Haf) Hr | o acc c c' _ (p & q & Hc & Hac & Haf) Hr
    | o o' acc c t _ (p & q & Hc & Hac & Haf) Hw
    | o acc c e c' _ (p & q & Hc & Hac & Haf) He Hr].
  - destruct (start_inv ds pt cb tf ex md fd o c Hco Ht Hlen Hpt Hcb Hfd Hr) as (Hc & Ha & Hs & Haf).
    exists [], []. split; [done |]. split; [| done]. split_and!; [apply Hc | done | by rewrite Ha, Hs, Hds |].
    exists []. by rewrite Hs, Hds.
  - exists p, q. assert (conn_inv o' p q c) as Hc' by (by eapply others_perm). split; [done |]. split; [| done].
    destruct Hac as (_ & H2 & H3). split; [apply Hc' | done].
  - destruct (Dispatch_ok now msg acc o p q c (conj Hc (conj (accounted_left _ _ _ _ _ _ Hac) Harv)) Hst Hts) as (c2 & Hr2 & Har).
    rewrite Hr in Hr2. injection Hr2 as <-. eapply alive_arrived; try done. by eapply on_queue_after.
  - destruct (DispatchNow_ok now msg acc o p q c (conj Hc (conj (accounted_left _ _ _ _ _ _ Hac) Harv)) Hst) as (c2 & Hr2 & Har).
    rewrite Hr in Hr2. injection Hr2 as <-. eapply alive_arrived; try done. by eapply on_queue_after.
  - destruct (DispatchNow_batch_ok now bs acc o p q c (conj Hc (conj (accounted_left _ _ _ _ _ _ Hac) Harv)) Hne Hone Hst) as (c2 & Hr2 & Har).
    rewrite Hr in Hr2. injection Hr2 as <-. eapply alive_arrived; try done. by eapply on_queue_after.
  - apply StartShutdown_inv in Hr. subst c'. by eapply alive_same.
  - apply StartShutdown_inv in Hr. subst c'. by eapply alive_same.
  - injection Hr as <-. by eapply alive_same.
  - injection Hr as <-. by eapply alive_same.
  - exists p, q. specialize (Hw p q Hc). split; [done |]. split; [| done]. destruct Hac as (_ & H2 & H3).
    split; [apply Hw | done].
  - pose proof (iteration_wp e o acc p q c Hc (accounted_left _ _ _ _ _ _ Hac) He) as Hwp. unfold wp in Hwp. rewrite Hr in Hwp.
    destruct Hwp as (p' & q' & lost & H1 & H2 & H3 & H4 & H5 & H6 & H7). destruct (H7 eq_refl) as [-> H8].
    exists p', q'. split; [by split |]. split; [by eapply accounted_moved |]. destruct H2 as [Ha _]. congruence.
Qed.

(** ** The claims *)


(** C3: When the thread has left its loop, for any reason but its destruction, the
    cleanup after the join never fails.  It hands over, in two lists of batches of
    one topic each, exactly the messages that are not processed: those to be sent
    are in state SendWait, and those that wait for an ACK are in the other list.
    Only messages dropped by the last iteration are missing, and the message state
    tracker has the counts of all of them. *)
Theorem connector_cleanup o acc c e c' :
  life o acc c → event_ok acc c e →
  iteration ComputeCrc32 conf e c = (Ret false, c') → Destroying c = false →
  ∃ c2 lost d, CleanupAfterJoin c' = (Ret (), c2) ∧
    ident <$> (concat (SendWaitAfterShutdown c2) ++ concat (NoAckAfterShutdown c2) ++ lost ++ d) ≡ₚ ident <$> acc ∧
    Forall (λ m, Msg.State m = SendWait) (concat (SendWaitAfterShutdown c2)) ∧
    Forall one_topic (SendWaitAfterShutdown c2 ++ NoAckAfterShutdown c2) ∧
    Destroyed (Shared c2) ≡ₚ lost ++ d ∧ Forall (λ m, Msg.State m = AckWait) lost ∧ Forall (λ m, Msg.State m = Processed) d ∧
    tracker_ok (tracker_of c2) (concat (SendWaitAfterShutdown c2) ++ concat (NoAckAfterShutdown c2) ++ lost ++ o).
Proof.
  intros Hl He Hr Hd. destruct (life_inv _ _ _ Hl) as (p & q & Hc & Hac & Haf).
  pose proof (iteration_wp e o acc p q c Hc (accounted_left _ _ _ _ _ _ Hac) He) as Hwp. unfold wp in Hwp. rewrite Hr in Hwp.
  destruct Hwp as (p' & q' & lost & H1 & H2 & _ & _ & H5 & H6 & _).
  pose proof (accounted_moved lost o acc p q c p' q' c' Hac H1 H2 H6) as (_ & _ & Hid & d & Hd1 & Hd2).
  destruct H2 as [Haf' _]. rewrite Haf in Haf'. injection Haf' as Hs1 Hs2.
  destruct (CleanupAfterJoin_ok (lost ++ o) p' q' c' H1 Hs1 Hs2 ltac:(congruence)) as (c2 & Hr2 & [C1 C2 C3 C4 C5 _ C7]).
  exists c2, lost, d. split; [done |]. split_and!; try done; [| by rewrite C7].
  rewrite <- Hid, !fmap_app, Hd1, C2. apply (fmap_coarser _ ident _ _ ident_forget) in C1.
  unfold all_msgs, held. clear -C1. perm_lia.
Qed.

(** C4: What the broker receives: the bytes that were sent, followed by those in the
    send buffer, are the produce requests with the correlation IDs 1, 2, 3, ...
    one after the other, each complete; and the requests that wait for a response
    are the last ones sent, in the order of their IDs, before the one whose bytes
    are in the buffer. *)
Theorem connector_wire_order o acc c :
  life o acc c →
  ∃ data tss answered, buf_rep (SendBuf c) data ∧ Wired c ++ data = wire_of ComputeCrc32 conf tss ∧
    seqZ 1 (Z.of_nat (length tss)) = answered ++ (AckWaitQueue c).*1 ++ current_id c ∧
    (data = [] ↔ CurrentRequest c = None).
Proof.
  intros Hl. destruct (life_inv _ _ _ Hl) as (p & q & [_ (data & Hb & Hd & tss & ans & H1 & H2 & H3) _ _] & _).
  exists data, tss, ans. rewrite <- H2. done.
Qed.

(** C27: The loop over the responses in the buffer ends: the size of the buffer is
    enough fuel, whatever the broker sends, and the memory of the buffer keeps its
    bound. *)
Theorem responses_terminate o acc c now tracker_now res :
  life o acc c → AckWaitQueue c ≠ [] → read_ok res →
  match HandleSockReadReady conf now tracker_now res c with
  | (Ret true, c') => Storage_size (StreamReader.Buf (Impl (CStreamReader c'))) ≤ storage_bound stream_cfg
  | (Ret false, _) => True
  | (Throw _, _) => False
  | (Fault x, _) => x = Overflow
  end.
Proof.
  intros Hl Hne Hres. destruct (life_inv _ _ _ Hl) as (p & q & [Hi Hs Hp Hst] & _).
  pose proof (HandleSockReadReady_wp ComputeCrc32 conf now tracker_now res o p q c Hi Hs Hp Hst Hne Hres) as Hwp.
  unfold wp in Hwp. destruct (HandleSockReadReady _ _ _ _ c) as [[[] | x | x] c']; try done.
  destruct Hwp as (lost & _ & Hgo). destruct (Hgo eq_refl) as (_ & data & _ & _ & Hsz). exact Hsz.
Qed.
End life.

(** ** An example: a message on its way to the broker *)

Definition ex_new : TMsg := mkMsg PartitionKey 0 0 0 New 0 "t" 1 (l_blob ex_live) 3 false.

Definition ex_cc : conn_conf :=
  mkConnConf 0 ex_conf (mkCompressionConf 75 (mkCConf CompressNone 0 None) ∅) 5 60 1000 30000.

Definition ex_ds : TDispatcherSharedState := mkShared ex_run (TAnomalyTracker_new 600000 256 0) 0 [].

Definition no_codec (t : TCompressionType) : option TCompressionCodec := None.

Definition ex_started : TConnector := Eval vm_compute in
  ((SetMetadata no_codec ex_cc ex_md;; DoRun_start ex_cc true 3)
    (TConnector_new no_codec ex_cc ex_ds None ex_config ∅ true)).2.

Definition ex_given : TConnector := Eval vm_compute in (DispatchNow (H := map_order) 5 ex_new ex_started).2.

Definition ex_event (r : poll_result) (bytes : list byte) : conn_event :=
  mkEvent 10 r 11 12 13 ex_pool1 (λ data, Sent (length data)) (ReadBytes bytes).

Definition ex_input : conn_event := ex_event (Ready false false true false false) [].
Definition ex_output : conn_event := ex_event (Ready false false false true false) [].

(** The response that acknowledges the message, and one with a bad topic count. *)
Definition ex_answer : conn_event :=
  ex_event (Ready false false false false true) (enc_response 1 [(["t"%byte], [mkAck 1 0 11])]).
Definition ex_garbage : conn_event :=
  ex_event (Ready false false false false true)
    [x00; x00; x00; x08; x00; x00; x00; x01; xff; xff; xff; xff].

Definition ex_queued : TConnector := Eval vm_compute in
  (iteration (H := map_order) ex_sum ex_cc ex_input ex_given).2.
Definition ex_sent : TConnector := Eval vm_compute in
  (iteration (H := map_order) ex_sum ex_cc ex_output ex_queued).2.

Lemma ex_conf_ok : conf_ok no_codec ex_cc.
Proof. split; [intros k; by split | by vm_compute]. Qed.

Lemma ex_left c l : Destroyed (Shared c) = [] → left_of [ex_new] c l → ∃ m, l = [m] ∧ ident m = ident ex_new.
Proof.
  intros Hd. unfold left_of. rewrite Hd, app_nil_r. intros Hp. apply Permutation_singleton_r in Hp.
  destruct l as [| m [| m' l]]; [done | | done]. exists m. split; [done |]. exact (f_equal (λ l, default m (head l)) Hp).
Qed.

Lemma ex_event_ok r bytes c :
  Destroyed (Shared c) = [] →
  (∀ b1 b2 b3 b4, r = Ready b1 b2 true b3 b4 → 0 < SenderNotify (CInputQueue c)) →
  match PrepareForPoll ex_cc 10 c, r with
  | (Ret (Some plan), _), Ready _ _ _ out in_ => (implb out (PollOut plan) && implb in_ (PollIn plan)) = true
  | _, _ => True
  end → Z.of_nat (length bytes) ≤ 65536 → event_ok ex_cc [ex_new] c (ex_event r bytes).
Proof.
  intros Hd Hi Hp Hl. split; try done.
  - intros b1 b2 b3 out in_ plan c' E0 E. change (r = Ready b1 b2 b3 out in_) in E0. subst r.
    change (StartTime (ex_event _ bytes)) with 10 in E. rewrite E in Hp.
    apply andb_true_iff in Hp as [H1 H2]. split; intros ->; done.
  - intros l (m & -> & Hm)%ex_left; [| done]. apply Forall_singleton. apply readable_ident. rewrite Hm. apply readable_ident.
    apply (stored_readable ex_pool1 [0%nat] [ex_live]); [exact ex_pool1_heap |]. apply Exists_cons. left. split; [reflexivity | by vm_compute].
  - intros data n [= <-]. lia.
  - by intros ? [= <-].
Qed.

Lemma ex_started_life : life (H := map_order) no_codec ex_sum ex_cc [ex_new] [] ex_started.
Proof.
  eapply (life_start (H := map_order) no_codec ex_sum ex_cc ex_ds None ex_config ∅ true ex_md 3).
  - exact ex_conf_ok.
  - split; [done |]. intros topic. unfold cnt, sumZ. cbn. by destruct (bool_decide ("t" = topic)).
  - by vm_compute.
  - done.
  - exact ex_config_ok.
  - done.
  - done.
  - vm_compute. reflexivity.
Qed.

Lemma ex_given_life : life (H := map_order) no_codec ex_sum ex_cc [] [ex_new] ex_given.
Proof.
  apply (life_dispatch_now (H := map_order) no_codec ex_sum ex_cc [] [] ex_started 5 ex_new).
  - exact ex_started_life.
  - split.
    + apply Forall_singleton. split; [split; [done | split; [by vm_compute | done]] | split; [done | by vm_compute]].
    + intros l Hl. assert (l = []) as ->.
      { unfold left_of in Hl. apply Permutation_nil_r, fmap_nil_inv, app_nil in Hl as [? _]. done. }
      by vm_compute.
  - reflexivity.
  - vm_compute. reflexivity.
Qed.

Lemma ex_queued_life : life (H := map_order) no_codec ex_sum ex_cc [] [ex_new] ex_queued.
Proof.
  apply (life_iteration (H := map_order) no_codec ex_sum ex_cc [] [ex_new] ex_given ex_input).
  - exact ex_given_life.
  - apply ex_event_ok; [reflexivity | by vm_compute | by vm_compute | by vm_compute].
  - vm_compute. reflexivity.
Qed.

Lemma ex_sent_life : life (H := map_order) no_codec ex_sum ex_cc [] [ex_new] ex_sent.
Proof.
  apply (life_iteration (H := map_order) no_codec ex_sum ex_cc [] [ex_new] ex_queued ex_output).
  - exact ex_queued_life.
  - apply ex_event_ok; [reflexivity | by vm_compute | by vm_compute | by vm_compute].
  - vm_compute. reflexivity.
Qed.

Lemma ex_answer_ok : event_ok ex_cc [ex_new] ex_sent ex_answer.
Proof. apply ex_event_ok; [reflexivity | by vm_compute | by vm_compute | by vm_compute]. Qed.

Lemma ex_garbage_ok : event_ok ex_cc [ex_new] ex_sent ex_garbage.
Proof. apply ex_event_ok; [reflexivity | by vm_compute | by vm_compute | by vm_compute]. Qed.

Lemma ex_answered :
  (iteration (H := map_order) ex_sum ex_cc ex_answer ex_sent).1 = Ret true ∧
  length (Destroyed (Shared (iteration (H := map_order) ex_sum ex_cc ex_answer ex_sent).2)) = 1%nat.
Proof.
  assert ((λ r : outcome conn_exn bool * TConnector, (r.1, length (Destroyed (Shared r.2))))
    (iteration (H := map_order) ex_sum ex_cc ex_answer ex_sent) = (Ret true, 1%nat)) as E by (vm_compute; reflexivity).
  revert E. generalize (iteration (H := map_order) ex_sum ex_cc ex_answer ex_sent). intros [o c] E. cbn [fst snd] in *.
  by injection E as -> ->.
Qed.

(** All that the claim below says of the run. *)
Definition drop_summary (r : outcome conn_exn bool * TConnector) :=
  let '(o, c) := r in
  let '(o2, c2) := CleanupAfterJoin (H := map_order) c in
  (o, o2, SendWaitAfterShutdown c2, NoAckAfterShutdown c2, Destroyed (Shared c2), stats_of (tracker_of c2) "t",
   ResponseProcessor.AnomalyTracker (Shared c2)).

Lemma ex_dropped :
  drop_summary (iteration (H := map_order) ex_sum ex_cc ex_garbage ex_sent) =
  (Ret false, Ret (), [], [], [SetState AckWait ex_new], mkStats 0 0 1, ResponseProcessor.AnomalyTracker ex_ds).
Proof. vm_compute. reflexivity. Qed.

Lemma ex_sent_state :
  CurrentRequest ex_sent = None ∧ (AckWaitQueue ex_sent).*1 = [1] ∧ AckWaitQueue ex_sent ≠ [] ∧ Wired ex_sent ≠ [].
Proof. split_and!; vm_compute; [reflexivity | reflexivity | discriminate | discriminate]. Qed.

Lemma ex_answer_read : (HandleSockReadReady ex_cc 12 13 (ReadRes ex_answer) ex_sent).1 = Ret true.
Proof. vm_compute. reflexivity. Qed.

Lemma wp_run {E S A} (m : M E S A) s Q T F a : wp m s Q T F → (m s).1 = Ret a → Q a (m s).2.
Proof. unfold wp. destruct (m s) as [[] ?]; cbn; congruence || done. Qed.

Lemma run_result {A B} (x : A * B) a : x.1 = a → x = (a, x.2).
Proof. by destruct x; intros <-. Qed.


Lemma ex_garbage_stops :
  iteration (H := map_order) ex_sum ex_cc ex_garbage ex_sent =
  (Ret false, (iteration (H := map_order) ex_sum ex_cc ex_garbage ex_sent).2).
Proof.
  apply run_result. pose proof ex_dropped as E. revert E.
  generalize (iteration (H := map_order) ex_sum ex_cc ex_garbage ex_sent). intros [o c]. unfold drop_summary. intros E.
  destruct (CleanupAfterJoin c) as [o2 c2]. by injection E.
Qed.

Lemma connector_cleanup_witness :
  ∃ c2 lost d, CleanupAfterJoin (H := map_order) (iteration (H := map_order) ex_sum ex_cc ex_garbage ex_sent).2 = (Ret (), c2) ∧
    ident <$> (concat (SendWaitAfterShutdown c2) ++ concat (NoAckAfterShutdown c2) ++ lost ++ d) ≡ₚ ident <$> [ex_new].
Proof.
  destruct (connector_cleanup (H := map_order) no_codec ex_sum ex_cc [] [ex_new] ex_sent ex_garbage
    (iteration (H := map_order) ex_sum ex_cc ex_garbage ex_sent).2 ex_sent_life ex_garbage_ok) as (c2 & lost & d & H1 & H2 & _).
  - exact ex_garbage_stops.
  - vm_compute. reflexivity.
  - exact (ex_intro _ c2 (ex_intro _ lost (ex_intro _ d (conj H1 H2)))).
Defined.

Lemma current_id_None c : CurrentRequest c = None → current_id c = [].
Proof. unfold current_id. by intros ->. Qed.

Lemma connector_wire_order_witness :
  ∃ tss answered, Wired ex_sent = wire_of ex_sum ex_cc tss ∧
    seqZ 1 (Z.of_nat (length tss)) = answered ++ [1] ∧ Wired ex_sent ≠ [].
Proof.
  destruct (connector_wire_order (H := map_order) no_codec ex_sum ex_cc [] [ex_new] ex_sent ex_sent_life)
    as (data & tss & ans & H1 & H2 & H3 & H4).
  destruct ex_sent_state as (Hc & E & _ & Hw).
  rewrite (proj2 H4 Hc), app_nil_r in H2. rewrite (current_id_None _ Hc), app_nil_r in H3.
  rewrite E in H3. exact (ex_intro _ tss (ex_intro _ ans (conj H2 (conj H3 Hw)))).
Defined.

Lemma responses_terminate_witness :
  Storage_size (StreamReader.Buf (Impl (CStreamReader (HandleSockReadReady ex_cc 12 13 (ReadRes ex_answer) ex_sent).2))) ≤
    storage_bound stream_cfg.
Proof.
  pose proof (responses_terminate (H := map_order) no_codec ex_sum ex_cc [] [ex_new] ex_sent 12 13 (ReadRes ex_answer) ex_sent_life
    (proj1 (proj2 (proj2 ex_sent_state))) ltac:(vm_compute; discriminate)) as Hr.
  rewrite (run_result _ _ ex_answer_read) in Hr. exact Hr.
Defined.

(** A response that cannot be parsed makes the connector drop the messages of its
    request: the thread stops, the cleanup hands over nothing, and the message,
    still in state AckWait, is destroyed; neither is it reported as discarded, and
    the message state tracker counts it forever. *)
Theorem bad_response_drops_messages :
  ∃ c c2 m, iteration (H := map_order) ex_sum ex_cc ex_garbage ex_sent = (Ret false, c) ∧ CleanupAfterJoin (H := map_order) c = (Ret (), c2) ∧
    SendWaitAfterShutdown c2 = [] ∧ NoAckAfterShutdown c2 = [] ∧ Destroyed (Shared c2) = [m] ∧
    ident m = ident ex_new ∧ Msg.State m = AckWait ∧ stats_of (tracker_of c2) "t" = mkStats 0 0 1 ∧
    ResponseProcessor.AnomalyTracker (Shared c2) = ResponseProcessor.AnomalyTracker ex_ds.
Proof.
  pose proof ex_dropped as E. revert E. generalize (iteration (H := map_order) ex_sum ex_cc ex_garbage ex_sent).
  intros [o c]. unfold drop_summary. intros E.
  destruct (CleanupAfterJoin c) as [o2 c2] eqn:E2. injection E as -> -> H1 H2 H3 H4 H5.
  exists c, c2, (SetState AckWait ex_new). split_and!; try done.
Qed.
