(* ===== verification/RateLimiter.v ===== *)
(** * Rate limits

    The per topic message rate limiter with the builder of its configuration
    (dory/msg_rate_limiter.{h,cc}, dory/conf/topic_rate_conf.{h,cc}).  The
    limiter lets through the messages that a count over the history says. *)
From S2P Require Import Prelude.

(** ** The configuration *)

Record TConf := mkRateConf { Interval : Z; MaxCount : option Z }.

Record TTopicRateConf := mkTopicRateConf {
  DefaultTopicConfig : TConf;
  TopicConfigs : gmap string TConf
}.

Definition TConf_new : TConf := mkRateConf 1 None.

Inductive rate_conf_error :=
| TTopicRateDuplicateNamedConfig (config_name : string)
| TTopicRateZeroRateLimitInterval (config_name : string)
| TTopicRateDuplicateDefaultTopicConfig
| TTopicRateUnknownDefaultTopicConfig (config_name : string)
| TTopicRateDuplicateTopicConfig (topic : string)
| TTopicRateUnknownTopicConfig (topic config_name : string)
| TTopicRateMissingDefaultTopic.

Module RateConfBuilder.

Record TBuilder := mkBuilder {
  NamedConfigs : gmap string TConf;
  BuildResult : TTopicRateConf;
  GotDefaultTopic : bool
}.

#[export] Instance TBuilder_settable : Settable TBuilder :=
  λ b, mkBuilder (NamedConfigs b) (BuildResult b) (GotDefaultTopic b).

Definition TBuilder_new : TBuilder := mkBuilder ∅ (mkTopicRateConf TConf_new ∅) false.

Definition BM := M rate_conf_error TBuilder.

(** The insertion of a named configuration that both kinds share. *)
Definition insert_named (name : string) (c : TConf) : BM () :=
  b ← get;
  let '(m, inserted) := map_emplace name c (NamedConfigs b) in
  modify (λ b, b <| NamedConfigs := m |>);;
  if inserted then mret () else throw (TTopicRateDuplicateNamedConfig name).

Definition AddBoundedNamedConfig (name : string) (interval max_count : Z) : BM () :=
  if interval =? 0 then throw (TTopicRateZeroRateLimitInterval name)
  else insert_named name (mkRateConf interval (Some max_count)).

Definition AddUnlimitedNamedConfig (name : string) : BM () := insert_named name TConf_new.

Definition SetDefaultTopicConfig (config_name : string) : BM () :=
  b ← get;
  if GotDefaultTopic b then throw TTopicRateDuplicateDefaultTopicConfig
  else match NamedConfigs b !! config_name with
  | None => throw (TTopicRateUnknownDefaultTopicConfig config_name)
  | Some c => modify (λ b, b <| BuildResult := mkTopicRateConf c (TopicConfigs (BuildResult b)) |>
                             <| GotDefaultTopic := true |>)
  end.

Definition SetTopicConfig (topic config_name : string) : BM () :=
  b ← get;
  match TopicConfigs (BuildResult b) !! topic with
  | Some _ => throw (TTopicRateDuplicateTopicConfig topic)
  | None =>
      match NamedConfigs b !! config_name with
      | None => throw (TTopicRateUnknownTopicConfig topic config_name)
      | Some c => modify (λ b, b <| BuildResult := mkTopicRateConf (DefaultTopicConfig (BuildResult b))
                                                     (<[topic := c]> (TopicConfigs (BuildResult b))) |>)
      end
  end.

Definition Reset : BM () := modify (λ _, TBuilder_new).

Definition Build : BM TTopicRateConf :=
  b ← get;
  if GotDefaultTopic b then Reset;; mret (BuildResult b) else throw TTopicRateMissingDefaultTopic.

(** The calls that a reader of a configuration file makes. *)
Inductive call :=
| Bounded (name : string) (interval max_count : Z)
| Unlimited (name : string)
| Default (config_name : string)
| Topic (topic config_name : string).

Definition do_call (c : call) : BM () :=
  match c with
  | Bounded n i m => AddBoundedNamedConfig n i m
  | Unlimited n => AddUnlimitedNamedConfig n
  | Default n => SetDefaultTopicConfig n
  | Topic t n => SetTopicConfig t n
  end.

Definition build_conf (calls : list call) : BM TTopicRateConf := mmap do_call calls;; Build.

End RateConfBuilder.

(** ** The message rate limiter *)

Record TTopicState := mkTopicState {
  Enable : bool;
  TSInterval : Z;
  TSMaxCount : Z;
  IntervalStart : Z;
  Count : Z
}.

#[export] Instance TTopicState_settable : Settable TTopicState :=
  λ s, mkTopicState (Enable s) (TSInterval s) (TSMaxCount s) (IntervalStart s) (Count s).

Definition TTopicState_new : TTopicState := mkTopicState false 1 0 0 0.

(** The state is the map [TopicStateMap]. *)
Definition LM := M Empty_set (gmap string TTopicState).

Section limiter.
Context (Conf : TTopicRateConf).

Definition RateLimitingIsEnabled : bool :=
  bool_decide (is_Some (MaxCount (DefaultTopicConfig Conf))) ||
  existsb (λ elem, bool_decide (is_Some (MaxCount elem.2))) (map_to_list (TopicConfigs Conf)).

(** The configuration that applies to a topic. *)
Definition conf_of (topic : string) : TConf := default (DefaultTopicConfig Conf) (TopicConfigs Conf !! topic).

Definition GetTopicState (topic : string) (timestamp : Z) : LM TTopicState :=
  m ← get;
  match m !! topic with
  | Some state =>
      if uadd (IntervalStart state) (TSInterval state) <=? timestamp then
        if TSInterval state =? 0 then crash DivByZero
        else
          let interval_delta := usub timestamp (IntervalStart state) `div` TSInterval state in
          let state := state <| IntervalStart := uadd (IntervalStart state) (uwrap 64 (interval_delta * TSInterval state)) |>
                             <| Count := 0 |> in
          modify (<[topic := state]>);; mret state
      else mret state
  | None =>
      let conf := conf_of topic in
      let state := match MaxCount conf with
        | None => TTopicState_new
        | Some max_count => TTopicState_new <| Enable := true |> <| TSInterval := Interval conf |>
            <| TSMaxCount := max_count |> <| IntervalStart := timestamp |>
        end in
      modify (<[topic := state]>);; mret state
  end.

Definition WouldExceedLimit (topic : string) (timestamp : Z) : LM bool :=
  if RateLimitingIsEnabled then
    state ← GetTopicState topic timestamp;
    let state := state <| Count := uadd (Count state) 1 |> in
    modify (<[topic := state]>);;
    mret (Enable state && (TSMaxCount state <? Count state))
  else mret false.

(** ** What the limiter lets through *)

(** The times of the messages of a topic. *)
Definition times (topic : string) (evs : list (string * Z)) : list Z :=
  (filter (λ e : string * Z, e.1 = topic) evs).*2.

(** The number of the interval that [t] is in, when the first starts at [t0]. *)
Definition slot (t0 interval t : Z) : Z := (t - t0) `div` interval.

(** How many of the times [h] are in the interval of [t]; the first message of the
    topic starts the first interval. *)
Definition in_slot (interval : Z) (h : list Z) (t : Z) : nat :=
  length (filter (λ t', slot (default t (head h)) interval t' = slot (default t (head h)) interval t) h).

(** A message is over the limit when the limit was reached in its interval. *)
Definition over_limit (hist : list (string * Z)) (e : string * Z) : bool :=
  match MaxCount (conf_of e.1) with
  | None => false
  | Some max_count => max_count <=? Z.of_nat (in_slot (Interval (conf_of e.1)) (times e.1 hist) e.2)
  end.

Fixpoint over_limits (hist evs : list (string * Z)) : list bool :=
  match evs with
  | [] => []
  | e :: evs => over_limit hist e :: over_limits (hist ++ [e]) evs
  end.

(** The latest time of the topic so far: a message that comes with an earlier time than
    one before it counts at that one's time. *)
Definition latest (hist : list (string * Z)) (e : string * Z) : Z := foldr Z.max e.2 (times e.1 hist).

Fixpoint in_order (hist evs : list (string * Z)) : list (string * Z) :=
  match evs with
  | [] => []
  | e :: evs => (e.1, latest hist e) :: in_order (hist ++ [(e.1, latest hist e)]) evs
  end.

End limiter.

Record rate_conf_ok (c : TTopicRateConf) : Prop := {
  rc_default : 1 ≤ Interval (DefaultTopicConfig c);
  rc_topics : map_Forall (λ _ x, 1 ≤ Interval x) (TopicConfigs c)
}.

(** ** The limiter is exact *)

Lemma times_app topic a b : times topic (a ++ b) = times topic a ++ times topic b.
Proof. unfold times. by rewrite filter_app, fmap_app. Qed.

Lemma times_same topic t : times topic [(topic, t)] = [t].
Proof. unfold times. by rewrite filter_cons_True. Qed.

Lemma times_other topic topic' t : topic' ≠ topic → times topic [(topic', t)] = [].
Proof. intros Hne. unfold times. by rewrite filter_cons_False. Qed.

Lemma length_times topic evs : (length (times topic evs) ≤ length evs)%nat.
Proof. unfold times. rewrite length_fmap. apply length_filter. Qed.

(** How many of the times of the slot [k] there are. *)
Definition slot_count (t0 interval k : Z) (h : list Z) : nat := length (filter (λ t, slot t0 interval t = k) h).

Lemma slot_count_app t0 interval k a b :
  slot_count t0 interval k (a ++ b) = (slot_count t0 interval k a + slot_count t0 interval k b)%nat.
Proof. unfold slot_count. by rewrite filter_app, length_app. Qed.

Lemma slot_count_one t0 interval t : slot_count t0 interval (slot t0 interval t) [t] = 1%nat.
Proof. unfold slot_count. by rewrite filter_cons_True. Qed.

Lemma slot_mono t0 interval a b : 1 ≤ interval → a ≤ b → slot t0 interval a ≤ slot t0 interval b.
Proof. intros Hi Hab. unfold slot. apply Z.div_le_mono; lia. Qed.

(** A time before the end of a slot that the last time of the history is in, is in
    that slot; after it, none of the history is in the slot of the time. *)
Lemma slot_within t0 interval z t :
  1 ≤ interval → z ≤ t → t < t0 + slot t0 interval z * interval + interval →
  slot t0 interval t = slot t0 interval z.
Proof.
  intros Hi Hz Ht. apply Z.le_antisymm; [| by apply slot_mono]. unfold slot in *.
  apply Z.lt_succ_r. apply Z.div_lt_upper_bound; lia.
Qed.

Lemma slot_beyond t0 interval z t :
  1 ≤ interval → t0 + slot t0 interval z * interval + interval ≤ t → slot t0 interval z < slot t0 interval t.
Proof. intros Hi Ht. unfold slot in *. apply Z.lt_le_trans with ((t - t0) `div` interval); [| lia]. apply Z.le_succ_l. apply Z.div_le_lower_bound; lia. Qed.

Lemma slot_count_none t0 interval h z k :
  1 ≤ interval → Forall (λ t, t ≤ z) h → slot t0 interval z < k → slot_count t0 interval k h = 0%nat.
Proof.
  intros Hi Hh Hk. unfold slot_count. rewrite filter_none; [done |]. intros t Ht E.
  rewrite Forall_forall in Hh. pose proof (slot_mono t0 interval t z Hi (Hh t Ht)). lia.
Qed.

Section exact.
Context (Conf : TTopicRateConf) (Hconf : rate_conf_ok Conf).

Lemma conf_of_interval topic : 1 ≤ Interval (conf_of Conf topic).
Proof.
  destruct Hconf as [H1 H2]. unfold conf_of. destruct (TopicConfigs Conf !! topic) as [c |] eqn:E; [| done]. by apply (H2 topic c).
Qed.

(** The state of a topic with the history [h]. *)
Definition state_of (topic : string) (h : list Z) (o : option TTopicState) : Prop :=
  match head h, last h with
  | Some t0, Some z => ∃ s, o = Some s ∧
      match MaxCount (conf_of Conf topic) with
      | None => Enable s = false ∧ TSInterval s = 1
      | Some n =>
          let interval := Interval (conf_of Conf topic) in
          s = mkTopicState true interval n (t0 + slot t0 interval z * interval)
                (Z.of_nat (slot_count t0 interval (slot t0 interval z) h))
      end
  | _, _ => o = None
  end.

Definition limiter_inv (hist : list (string * Z)) (m : gmap string TTopicState) : Prop :=
  ∀ topic, state_of topic (times topic hist) (m !! topic).

(** A time that the arithmetic on times does not wrap for. *)
Definition time_ok (topic : string) (t : Z) : Prop := 0 ≤ t ∧ t + Interval (conf_of Conf topic) < 2 ^ 64.

Lemma limiter_inv_step hist m topic t s :
  limiter_inv hist m → state_of topic (times topic hist ++ [t]) (Some s) →
  limiter_inv (hist ++ [(topic, t)]) (<[topic := s]> m).
Proof.
  intros Hm Hs topic'. rewrite times_app. destruct (decide (topic = topic')) as [<- | Hne].
  - by rewrite lookup_insert_eq, times_same.
  - rewrite lookup_insert_ne, times_other, app_nil_r by done. apply Hm.
Qed.

Lemma in_slot_eq interval h t0 t :
  head h = Some t0 → in_slot interval h t = slot_count t0 interval (slot t0 interval t) h.
Proof. intros E. unfold in_slot, slot_count. by rewrite E. Qed.

(** The first message of a topic. *)
Lemma exceed_first hist m topic t :
  RateLimitingIsEnabled Conf = true → limiter_inv hist m → time_ok topic t → times topic hist = [] →
  ∃ m', WouldExceedLimit Conf topic t m = (Ret (over_limit Conf hist (topic, t)), m') ∧
    limiter_inv (hist ++ [(topic, t)]) m'.
Proof.
  intros Hen Hm [Ht0 Ht1] Hh. pose proof (Hm topic) as Hs. rewrite Hh in Hs. cbn in Hs.
  unfold WouldExceedLimit, GetTopicState. rewrite Hen. munfold. rewrite Hs. cbn -[uadd].
  rewrite insert_insert_eq. eexists. split.
  - f_equal. unfold over_limit. cbn [fst snd]. rewrite Hh. unfold in_slot. cbn.
    destruct (MaxCount (conf_of Conf topic)) as [n |]; cbn; [| done]. f_equal.
    change (uadd 0 1) with 1. apply eq_true_iff_eq. rewrite Z.ltb_lt, Z.leb_le. lia.
  - apply limiter_inv_step; [done |]. rewrite Hh. unfold state_of. cbn [app head last]. eexists. split; [done |].
    destruct (MaxCount (conf_of Conf topic)) as [n |]; [| done]. rewrite slot_count_one. unfold slot.
    rewrite Z.sub_diag, Z.div_0_l by (pose proof (conf_of_interval topic); lia).
    by rewrite Z.mul_0_l, Z.add_0_r.
Qed.

(** The next ones. *)
Lemma exceed_next hist m topic t t0 z :
  RateLimitingIsEnabled Conf = true → limiter_inv hist m → time_ok topic t →
  head (times topic hist) = Some t0 → last (times topic hist) = Some z →
  Forall (λ x, t0 ≤ x ≤ z) (times topic hist) → 0 ≤ t0 → z ≤ t → Z.of_nat (length hist) < 2 ^ 64 - 1 →
  ∃ m', WouldExceedLimit Conf topic t m = (Ret (over_limit Conf hist (topic, t)), m') ∧
    limiter_inv (hist ++ [(topic, t)]) m'.
Proof.
  intros Hen Hm [Ht0 Ht1] Hh Hl Hall H0 Hz Hn. pose proof (Hm topic) as Hs. unfold state_of in Hs. rewrite Hh, Hl in Hs.
  destruct Hs as (s & Es & Hs). pose proof (conf_of_interval topic) as Hi.
  assert (t0 ≤ z) as H0z.
  { rewrite Forall_forall in Hall. apply head_Some_elem_of, Hall in Hh. lia. }
  unfold WouldExceedLimit, GetTopicState. rewrite Hen. munfold. rewrite Es.
  assert (∀ s', state_of topic (times topic hist ++ [t]) (Some s') →
    limiter_inv (hist ++ [(topic, t)]) (<[topic := s']> m)) as Hstep.
  { intros s'. by apply limiter_inv_step. }
  assert (head (times topic hist ++ [t]) = Some t0) as Hh'.
  { by destruct (times topic hist). }
  unfold over_limit. cbn [fst snd]. unfold state_of in Hstep. rewrite Hh', last_snoc in Hstep.
  destruct (MaxCount (conf_of Conf topic)) as [n |].
  - set (I := Interval (conf_of Conf topic)) in *. subst s. rewrite (in_slot_eq I _ t0 t Hh). cbn -[uadd usub Z.mul Z.leb Z.ltb].
    assert (0 ≤ slot t0 I z) as Hk by (apply Z.div_pos; lia).
    assert (slot t0 I z * I ≤ z - t0) as Hkz by (unfold slot; rewrite Z.mul_comm; apply Z.mul_div_le; lia).
    rewrite (uadd_small _ I) by lia.
    destruct (Z.leb_spec (t0 + slot t0 I z * I + I) t) as [E | E].
    + rewrite (proj2 (Z.eqb_neq I 0)) by lia. cbn -[uadd usub Z.mul Z.leb Z.ltb]. rewrite insert_insert_eq.
      assert (slot t0 I t = slot t0 I z + (t - (t0 + slot t0 I z * I)) `div` I) as Hd.
      { generalize (slot t0 I z). intros k. unfold slot. rewrite <- Z.div_add_l by lia. f_equal. lia. }
      assert (slot t0 I t * I ≤ t - t0) as Htz by (unfold slot; rewrite Z.mul_comm; apply Z.mul_div_le; lia).
      rewrite usub_small by lia. set (d := (t - (t0 + slot t0 I z * I)) `div` I) in *.
      assert (0 ≤ d) as Hd0 by (apply Z.div_pos; lia).
      assert (d * I = slot t0 I t * I - slot t0 I z * I) as HdI by (rewrite Hd; lia).
      rewrite (uwrap_small 64) by (unfold in_u; nia). rewrite (uadd_small 0), (uadd_small (t0 + _)) by lia.
      assert (slot_count t0 I (slot t0 I t) (times topic hist) = 0%nat) as Hc.
      { eapply slot_count_none; [done | | by apply slot_beyond]. eapply Forall_impl; [exact Hall |]. cbn. lia. }
      rewrite Hc. eexists. split; [| apply Hstep].
      * do 2 f_equal. apply eq_true_iff_eq. rewrite Z.ltb_lt, Z.leb_le. lia.
      * eexists. split; [done |]. rewrite slot_count_app, Hc, slot_count_one.
        transitivity (mkTopicState true I n (t0 + slot t0 I z * I + d * I) 1); [done | f_equal; lia].
    + cbn -[uadd Z.leb Z.ltb]. assert (slot t0 I t = slot t0 I z) as Ek by (apply slot_within; lia).
      assert (slot_count t0 I (slot t0 I t) (times topic hist) ≤ length hist)%nat as Hc.
      { etrans; [apply length_filter | apply length_times]. }
      rewrite Ek in *. rewrite uadd_small by lia. eexists. split; [| apply Hstep].
      * do 2 f_equal. apply eq_true_iff_eq. rewrite Z.ltb_lt, Z.leb_le. lia.
      * eexists. split; [done |]. rewrite slot_count_app. pose proof (slot_count_one t0 I t) as H1. rewrite Ek in *. rewrite H1.
        transitivity (mkTopicState true I n (t0 + slot t0 I z * I) (Z.of_nat (slot_count t0 I (slot t0 I z) (times topic hist)) + 1));
          [done | f_equal; lia].
  - destruct Hs as [He H1]. rewrite H1. destruct s as [en iv mx st ct]. cbn in He, H1. subst en iv. cbn -[uadd usub].
    destruct (uadd st 1 <=? t); cbn -[uadd usub]; try rewrite insert_insert_eq; eexists; (split; [done | apply Hstep]); by eexists.
Qed.

(** Without a limit anywhere no message is over the limit. *)
Lemma not_enabled_conf topic : RateLimitingIsEnabled Conf = false → MaxCount (conf_of Conf topic) = None.
Proof.
  unfold RateLimitingIsEnabled. intros [H1%bool_decide_eq_false H2]%orb_false_iff.
  unfold conf_of. destruct (TopicConfigs Conf !! topic) as [c |] eqn:E; cbn; [| by apply eq_None_not_Some].
  apply eq_None_not_Some. intros Hc. apply not_true_iff_false in H2. apply H2, existsb_exists. exists (topic, c).
  split; [| by apply bool_decide_eq_true]. apply list_elem_of_In. by apply elem_of_map_to_list.
Qed.

Lemma sorted_ends (l : list Z) t0 z t :
  StronglySorted Z.le (l ++ [t]) → head l = Some t0 → last l = Some z → z ≤ t ∧ Forall (λ x, t0 ≤ x ≤ z) l.
Proof.
  intros (H1 & H2 & _)%StronglySorted_app Hh Hl. split.
  - apply H1; [by apply last_Some_elem_of | by left].
  - apply Forall_forall. intros x Hx. split.
    + destruct l as [| y l]; [done |]. injection Hh as ->. apply elem_of_cons in Hx as [-> | Hx]; [lia |].
      apply StronglySorted_inv in H2 as [_ H2]. rewrite Forall_forall in H2. by apply H2.
    + apply last_Some in Hl as [l' ->]. apply elem_of_app in Hx as [Hx | ->%list_elem_of_singleton]; [| lia].
      apply StronglySorted_app in H2 as [H2 _]. apply H2; [done | by left].
Qed.

(** A message that comes with an earlier time than the last one. *)
Lemma exceed_late hist m topic t t0 z :
  RateLimitingIsEnabled Conf = true → limiter_inv hist m → time_ok topic z → 0 ≤ t → t ≤ z →
  head (times topic hist) = Some t0 → last (times topic hist) = Some z →
  Forall (λ x, t0 ≤ x ≤ z) (times topic hist) → 0 ≤ t0 → Z.of_nat (length hist) < 2 ^ 64 - 1 →
  ∃ m', WouldExceedLimit Conf topic t m = (Ret (over_limit Conf hist (topic, z)), m') ∧
    limiter_inv (hist ++ [(topic, z)]) m'.
Proof.
  intros Hen Hm Hz H0t Htz Hh Hl Hall H0 Hn. pose proof (Hm topic) as Hs. unfold state_of in Hs. rewrite Hh, Hl in Hs.
  destruct Hs as (s & Es & Hs). pose proof (conf_of_interval topic) as Hi. pose proof Hz as [Hz0 Hz1].
  assert (t0 ≤ z) as H0z by (rewrite Forall_forall in Hall; apply head_Some_elem_of, Hall in Hh; lia).
  destruct (exceed_next hist m topic z t0 z Hen Hm Hz Hh Hl Hall H0 ltac:(lia) Hn) as (m' & Hr & Hm').
  destruct (MaxCount (conf_of Conf topic)) as [n |] eqn:Ec.
  - exists m'. split; [| done]. rewrite <- Hr. set (I := Interval (conf_of Conf topic)) in *.
    assert (z < t0 + slot t0 I z * I + I) as Hend.
    { unfold slot. pose proof (Z.mod_pos_bound (z - t0) I ltac:(lia)). pose proof (Z.div_mod (z - t0) I ltac:(lia)). lia. }
    assert (0 ≤ slot t0 I z) by (apply Z.div_pos; lia).
    assert (slot t0 I z * I ≤ z - t0) by (unfold slot; rewrite Z.mul_comm; apply Z.mul_div_le; lia).
    unfold WouldExceedLimit, GetTopicState. rewrite Hen. munfold. rewrite Es, Hs. cbn -[uadd usub Z.mul Z.leb Z.ltb].
    rewrite (uadd_small _ I), !(proj2 (Z.leb_gt _ _)) by lia. done.
  - destruct Hs as [He H1]. assert (over_limit Conf hist (topic, z) = false) as Eo by (unfold over_limit; cbn; by rewrite Ec).
    rewrite Eo. unfold WouldExceedLimit, GetTopicState. rewrite Hen. munfold. rewrite Es, H1. destruct s as [en iv mx st ct]. cbn in He, H1. subst en iv.
    assert (∀ s', Enable s' = false ∧ TSInterval s' = 1 → limiter_inv (hist ++ [(topic, z)]) (<[topic := s']> m)) as Hstep.
    { intros s' Hs'. apply limiter_inv_step; [done |]. unfold state_of. rewrite last_snoc, Ec.
      assert (head (times topic hist ++ [z]) = Some t0) as -> by (by destruct (times topic hist)). by exists s'. }
    cbn -[uadd usub]. destruct (uadd st 1 <=? t); cbn -[uadd usub]; try rewrite insert_insert_eq; eexists; (split; [done | by apply Hstep]).
Qed.

Lemma foldr_max (l : list Z) t z : last l = Some z → Forall (λ x, x ≤ z) l → foldr Z.max t l = t `max` z.
Proof.
  induction l as [| x l IH]; [done |]. intros Hl [Hx Hxs]%Forall_cons. destruct l as [| y l].
  - injection Hl as ->. cbn. lia.
  - change (foldr Z.max t (x :: y :: l)) with (x `max` foldr Z.max t (y :: l)). rewrite (IH Hl Hxs). lia.
Qed.

Definition history_ok (hist : list (string * Z)) : Prop :=
  Forall (λ e, time_ok e.1 e.2) hist ∧ ∀ topic, StronglySorted Z.le (times topic hist).

(** The latest time of a topic keeps the history in order. *)
Lemma latest_ok hist topic t :
  history_ok hist → time_ok topic t → history_ok (hist ++ [(topic, latest hist (topic, t))]) ∧ t ≤ latest hist (topic, t).
Proof.
  intros [Ht Hs] Ho. unfold latest. cbn [fst snd].
  assert (∀ x, x ∈ times topic hist → time_ok topic x ∧ x ≤ foldr Z.max t (times topic hist)) as Hall.
  { intros x Hx. split.
    - apply list_elem_of_fmap in Hx as ([tp y] & -> & [Hy He]%list_elem_of_filter). cbn in Hy. subst tp.
      rewrite Forall_forall in Ht. by apply (Ht (topic, y)).
    - clear -Hx. induction (times topic hist) as [| y l IH]; [by apply elem_of_nil in Hx |]. cbn.
      apply elem_of_cons in Hx as [-> | Hx]; [lia |]. specialize (IH Hx). lia. }
  assert (time_ok topic (foldr Z.max t (times topic hist)) ∧ t ≤ foldr Z.max t (times topic hist)) as [H1 H2].
  { clear -Hall Ho. assert (∀ x, x ∈ times topic hist → time_ok topic x) as H1 by (intros x Hx; by apply Hall). clear Hall.
    induction (times topic hist) as [| y l IH]; [done |]. cbn. destruct IH as [[I1 I2] I3]; [set_solver |].
    destruct (H1 y) as [Y1 Y2]; [set_solver |]. split; [split; lia | lia]. }
  split; [split |]; [| | done].
  - apply Forall_app. by split; [| constructor].
  - intros topic'. rewrite times_app. destruct (decide (topic = topic')) as [<- | Hne].
    + rewrite times_same. apply StronglySorted_app. split; [| split; [done | by repeat constructor]].
      intros x y Hx ->%list_elem_of_singleton. by apply Hall.
    + by rewrite times_other, app_nil_r by done.
Qed.

(** One message with any time. *)
Lemma exceed_any hist m topic t :
  RateLimitingIsEnabled Conf = true → limiter_inv hist m → time_ok topic t → history_ok hist → Z.of_nat (length hist) < 2 ^ 64 - 1 →
  ∃ m', WouldExceedLimit Conf topic t m = (Ret (over_limit Conf hist (topic, latest hist (topic, t))), m') ∧
    limiter_inv (hist ++ [(topic, latest hist (topic, t))]) m'.
Proof.
  intros Hen Hm Ht [Hok Hs] Hn. assert (Forall (λ e, 0 ≤ e.2) hist) as H0 by (eapply Forall_impl; [exact Hok | by intros e []]).
  assert (∀ x, x ∈ times topic hist → time_ok topic x) as Hall.
  { intros x ([tp y] & -> & [Hy He]%list_elem_of_filter)%list_elem_of_fmap. cbn in Hy. subst tp. rewrite Forall_forall in Hok. by apply (Hok (topic, y)). }
  unfold latest. cbn [fst snd]. destruct (times topic hist) as [| t0 l] eqn:Eh; [by apply exceed_first |].
  destruct (last (t0 :: l)) as [z |] eqn:El; [| by apply last_None in El].
  assert (z ∈ t0 :: l) as Hz by (by apply last_Some_elem_of).
  specialize (Hs topic). rewrite Eh in Hs.
  assert (StronglySorted Z.le ((t0 :: l) ++ [z])) as Hs'.
  { apply last_Some in El as [l' El]. rewrite El in *. apply StronglySorted_app. split; [| split; [done | by repeat constructor]].
    intros x y Hx ->%list_elem_of_singleton. apply StronglySorted_app in Hs as (Hs & _).
    apply elem_of_app in Hx as [Hx | ->%list_elem_of_singleton]; [apply Hs; [done | by left] | lia]. }
  destruct (sorted_ends _ t0 z z Hs' eq_refl El) as [_ Hr].
  rewrite (foldr_max _ t z El) by (eapply Forall_impl; [exact Hr |]; cbn; lia).
  assert (0 ≤ t0) as Ht0 by (apply (Hall t0); by left).
  destruct (decide (z ≤ t)) as [Hzt | Hzt].
  - replace (t `max` z) with t by lia. apply (exceed_next hist m topic t t0 z); by rewrite ?Eh.
  - replace (t `max` z) with z by lia. apply (exceed_late hist m topic t t0 z); rewrite ?Eh; try done; [by apply Hall | apply Ht | lia].
Qed.

Definition limit_run (evs : list (string * Z)) : LM (list bool) := mmap (λ e, WouldExceedLimit Conf e.1 e.2) evs.

Lemma limit_run_exact evs hist m :
  (RateLimitingIsEnabled Conf = true → limiter_inv hist m) → history_ok hist → Forall (λ e, time_ok e.1 e.2) evs →
  Z.of_nat (length hist + length evs) < 2 ^ 64 →
  (limit_run evs m).1 = Ret (over_limits Conf hist (in_order hist evs)).
Proof.
  unfold limit_run. revert hist m. induction evs as [| [topic t] evs IH]; intros hist m Hm Hh Ht Hn; [done |].
  cbn [mmap over_limits in_order]. apply Forall_cons in Ht as [Ht Hts]. cbn [fst snd length] in *.
  set (e := (topic, latest hist (topic, t))).
  assert (∃ m', WouldExceedLimit Conf topic t m = (Ret (over_limit Conf hist e), m') ∧
    (RateLimitingIsEnabled Conf = true → limiter_inv (hist ++ [e]) m')) as (m' & E & Hm').
  { destruct (RateLimitingIsEnabled Conf) eqn:Hen.
    - destruct (exceed_any hist m topic t) as (m' & ? & ?); [by auto.. | lia | by exists m'].
    - exists m. split; [| done]. unfold WouldExceedLimit, over_limit. by rewrite Hen, not_enabled_conf. }
  rewrite (bind_Ret _ _ _ _ _ E).
  assert ((mmap (λ e, WouldExceedLimit Conf e.1 e.2) evs m').1 = Ret (over_limits Conf (hist ++ [e]) (in_order (hist ++ [e]) evs))) as E2.
  { apply IH; try done; [by apply latest_ok |]. rewrite length_app. cbn. lia. }
  munfold. destruct (mmap _ evs m') as [o m'']. cbn in E2. by rewrite E2.
Qed.

(** Messages whose times do not go back count at their own times. *)
Lemma in_order_sorted evs hist : (∀ topic, StronglySorted Z.le (times topic (hist ++ evs))) → in_order hist evs = evs.
Proof.
  revert hist. induction evs as [| [topic t] evs IH]; intros hist Hs; [done |]. cbn [in_order fst].
  assert (latest hist (topic, t) = t) as ->.
  { specialize (Hs topic). rewrite cons_middle, app_assoc, times_app, times_app, times_same in Hs. apply StronglySorted_app_1_l in Hs.
    apply StronglySorted_app in Hs as (Hs & _). unfold latest. cbn [fst snd].
    assert (Forall (λ x, x ≤ t) (times topic hist)) as Hf by (apply Forall_forall; intros x Hx; apply Hs; [done | by left]).
    clear -Hf. induction Hf as [| x l Hx _ IH]; [done |]. cbn. lia. }
  f_equal. apply IH. intros x. rewrite <- app_assoc. apply Hs.
Qed.
End exact.

(** ** Configurations that the builder makes *)

Module RateConfProofs.
Import RateConfBuilder.

Definition intervals_ok (b : TBuilder) : Prop :=
  map_Forall (λ _ x, 1 ≤ Interval x) (NamedConfigs b) ∧ rate_conf_ok (BuildResult b).

(** The arguments are unsigned. *)
Definition call_ok (c : call) : Prop :=
  match c with Bounded _ i n => 0 ≤ i ∧ 0 ≤ n | _ => True end.

Lemma insert_named_ok name c b : 1 ≤ Interval c → intervals_ok b → intervals_ok (insert_named name c b).2.
Proof.
  intros Hc [H1 H2]. unfold insert_named, map_emplace. munfold.
  destruct (NamedConfigs b !! name) eqn:E; cbn; split; try done. by apply map_Forall_insert_2.
Qed.

Lemma do_call_ok c b : call_ok c → intervals_ok b → intervals_ok (do_call c b).2.
Proof.
  intros Hc Hb. destruct c as [n i m | n | n | t n]; cbn in Hc |- *.
  - unfold AddBoundedNamedConfig. destruct (Z.eqb_spec i 0); [done |]. apply insert_named_ok; [cbn; lia | done].
  - by apply insert_named_ok.
  - destruct Hb as [H1 [H2 H3]]. unfold SetDefaultTopicConfig. munfold. destruct (GotDefaultTopic b); [done |].
    destruct (NamedConfigs b !! n) as [c |] eqn:E; [| done]. cbn. split; [done |]. split; [by apply (H1 n) | done].
  - destruct Hb as [H1 [H2 H3]]. unfold SetTopicConfig. munfold. destruct (TopicConfigs (BuildResult b) !! t); [done |].
    destruct (NamedConfigs b !! n) as [c |] eqn:E; [| done]. cbn. split; [done |]. split; [done |].
    apply map_Forall_insert_2; [by apply (H1 n) | done].
Qed.

Lemma build_conf_ok calls b conf b' :
  Forall call_ok calls → intervals_ok b → build_conf calls b = (Ret conf, b') → rate_conf_ok conf.
Proof.
  intros Hc Hb (l & b1 & E & H)%bind_inv_Ret. assert (intervals_ok b1) as [_ Hr].
  { revert b l Hb E. induction Hc as [| c calls Hc Hcs IH]; intros b l Hb E; [by injection E as _ <- |].
    cbn in E. apply bind_inv_Ret in E as (u & b2 & E1 & (l' & b3 & E2 & [= _ <-])%bind_inv_Ret).
    apply (IH b2 l'); [| done]. pose proof (do_call_ok c b Hc Hb) as H2. by rewrite E1 in H2. }
  unfold Build in H. munfold. destruct (GotDefaultTopic b1); [| done]. by injection H as <- _.
Qed.

Lemma TBuilder_new_ok : intervals_ok TBuilder_new.
Proof. split; [apply map_Forall_empty |]. split; [done | apply map_Forall_empty]. Qed.

(** C22: the rate limiter, with any configuration that the builder accepts, refuses
    a message exactly when the topic has a limit and that many messages of the
    topic came before it in its interval, the intervals following one another from
    the time of the topic's first message.  The messages may come in any order of their
    times: one with an earlier time than a message of the topic before it counts in the
    interval of the latest time so far, and if the times of each topic do not go back,
    every message counts at its own time.  (The times are 64-bit unsigned, and less than
    an interval away from the largest value at most.)  The limiter never divides by an
    interval of zero. *)
Theorem rate_limiter_exact calls conf b evs :
  Forall call_ok calls → build_conf calls TBuilder_new = (Ret conf, b) →
  Forall (λ e, time_ok conf e.1 e.2) evs → Z.of_nat (length evs) < 2 ^ 64 →
  (limit_run conf evs ∅).1 = Ret (over_limits conf [] (in_order [] evs)) ∧
  ((∀ topic, StronglySorted Z.le (times topic evs)) → in_order [] evs = evs).
Proof.
  intros Hc Hb Ht Hn. split; [| apply (in_order_sorted evs [])]. apply limit_run_exact; try done.
  - by apply (build_conf_ok calls TBuilder_new conf b Hc TBuilder_new_ok).
  - split; [constructor |]. intros topic. constructor.
Qed.

Definition ex_calls : list call := [Bounded "few" 10 2; Unlimited "all"; Default "all"; Topic "t" "few"].

Definition ex_evs : list (string * Z) :=
  [("t", 100); ("u", 100); ("t", 104); ("t", 109); ("u", 109); ("t", 110); ("t", 135); ("t", 129); ("t", 139); ("t", 140)].

Definition ex_conf : TTopicRateConf :=
  match (build_conf ex_calls TBuilder_new).1 with Ret c => c | _ => mkTopicRateConf TConf_new ∅ end.

(** The eighth message is late: it counts at the time of the seventh, so that the ninth is
    over the limit. *)
Lemma rate_limiter_exact_witness :
  (limit_run ex_conf ex_evs ∅).1 = Ret (over_limits ex_conf [] (in_order [] ex_evs)) ∧
  over_limits ex_conf [] (in_order [] ex_evs) = [false; false; false; true; false; false; false; false; true; false].
Proof.
  split; [| reflexivity].
  apply (rate_limiter_exact ex_calls ex_conf TBuilder_new ex_evs).
  - repeat constructor; cbn; lia.
  - reflexivity.
  - repeat constructor; vm_compute; done.
  - reflexivity.
Defined.
End RateConfProofs.
