(* ===== verification/Backoff.v ===== *)
(** * Delays between attempts

    The random exponential backoff of the actions that the router thread retries:
    base/random_exp_backoff.{h,cc}, base/backoff_rate_limiter.{h,cc} and
    dory/util/dory_rate_limiter.h.  The values of the random number generator and of
    the monotonic clock are arguments. *)
From S2P Require Import Prelude.

(** ** Random exponential backoff *)

Record TRandomExpBackoff := mkBackoff {
  InitialCount : Z;
  MaxDouble : Z;
  BaseCount : Z;
  DoubleTimesLeft : Z
}.

#[export] Instance TRandomExpBackoff_settable : Settable TRandomExpBackoff :=
  λ b, mkBackoff (InitialCount b) (MaxDouble b) (BaseCount b) (DoubleTimesLeft b).

Definition TRandomExpBackoff_new (initial_count max_double : Z) : TRandomExpBackoff :=
  mkBackoff initial_count max_double initial_count max_double.

Definition EM := M Empty_set TRandomExpBackoff.

Definition NextValue (random : Z) : EM Z :=
  b ← get;
  let half_base := BaseCount b `div` 2 in
  let min_result := half_base in
  let max_result := uadd (BaseCount b) half_base in
  massert (min_result <=? max_result);;
  let range := uadd (usub max_result min_result) 1 in
  if range =? 0 then crash DivByZero
  else
    let result := uadd min_result (random `mod` range) in
    massert ((min_result <=? result) && (result <=? max_result));;
    (if DoubleTimesLeft b =? 0 then mret ()
     else
       modify (λ b, b <| DoubleTimesLeft := usub (DoubleTimesLeft b) 1 |>);;
       let new_base_count := uwrap 64 (BaseCount b * 2) in
       massert (BaseCount b <? new_base_count);;
       massert (new_base_count <? uadd new_base_count (new_base_count `div` 2));;
       modify (λ b, b <| BaseCount := new_base_count |>));;
    mret result.

Definition Backoff_Reset (b : TRandomExpBackoff) : TRandomExpBackoff :=
  b <| BaseCount := InitialCount b |> <| DoubleTimesLeft := MaxDouble b |>.

(** ** The rate limiter *)

Record timespec := mkTime { tv_sec : Z; tv_nsec : Z }.

Record TBackoffRateLimiter := mkLimiter {
  BackoffWindow : Z;
  DelayGenerator : TRandomExpBackoff;
  FirstTime : bool;
  WindowStartTime : timespec;
  LastEventTime : timespec
}.

#[export] Instance TBackoffRateLimiter_settable : Settable TBackoffRateLimiter :=
  λ l, mkLimiter (BackoffWindow l) (DelayGenerator l) (FirstTime l) (WindowStartTime l) (LastEventTime l).

Definition LM := M Empty_set TBackoffRateLimiter.

(** The milliseconds from [start] to [now]; a division of a [long] rounds to
    zero. *)
Definition ComputeTimeToNow (start now : timespec) : Z :=
  if tv_sec now <? tv_sec start then 0
  else if tv_sec start =? tv_sec now then
    if tv_nsec now <? tv_nsec start then 0 else (tv_nsec now - tv_nsec start) `quot` 1000000
  else uwrap 64 ((tv_sec now - tv_sec start) * 1000 + (tv_nsec now - tv_nsec start) `quot` 1000000).

(** A shift by the width or more has no defined result. *)
Definition ComputeBackoffWindow (initial_delay max_double : Z) : outcome Empty_set Z :=
  let shift := uadd max_double 2 in
  if 64 <=? shift then Fault Overflow
  else
    let window := uwrap 64 (Z.shiftl initial_delay shift) in
    if (Z.shiftr window shift =? initial_delay) && (swrap 64 window <=? INT64_MAX) then Ret (swrap 64 window)
    else Fault AssertFailed.

Definition TBackoffRateLimiter_new (initial_delay max_double : Z) : outcome Empty_set TBackoffRateLimiter :=
  match ComputeBackoffWindow initial_delay max_double with
  | Ret w => Ret (mkLimiter w (TRandomExpBackoff_new initial_delay max_double) true (mkTime 0 0) (mkTime 0 0))
  | Throw e => Throw e
  | Fault f => Fault f
  end.

Definition InBackoffWindow (now : timespec) : LM bool :=
  l ← get;
  if FirstTime l then modify (λ l, l <| FirstTime := false |>);; mret false
  else mret (swrap 64 (ComputeTimeToNow (WindowStartTime l) now) <=? BackoffWindow l).

Definition on_generator {A} (m : EM A) : LM A := zoom DelayGenerator (λ g l, l <| DelayGenerator := g |>) m.

Definition ComputeDelay (now : timespec) (random : Z) : LM Z :=
  w ← InBackoffWindow now;
  let act := modify (λ l, l <| LastEventTime := now |>);; mret 0 in
  if w : bool then
    delay ← on_generator (NextValue random);
    l ← get;
    let delta := ComputeTimeToNow (LastEventTime l) now in
    if delta <? delay then mret (usub delay delta) else act
  else
    modify (λ l, l <| DelayGenerator := Backoff_Reset (DelayGenerator l) |> <| WindowStartTime := now |>);;
    act.

Definition OnAction (now : timespec) : LM () := modify (λ l, l <| LastEventTime := now |>).

(** ** The limiter with a minimum delay *)

Record TDoryRateLimiter := mkDoryLimiter { MinDelay : Z; Limiter : TBackoffRateLimiter }.

#[export] Instance TDoryRateLimiter_settable : Settable TDoryRateLimiter :=
  λ l, mkDoryLimiter (MinDelay l) (Limiter l).

Definition TDoryRateLimiter_new (initial_delay max_double min_delay : Z) : outcome Empty_set TDoryRateLimiter :=
  match TBackoffRateLimiter_new initial_delay max_double with
  | Ret l => Ret (mkDoryLimiter min_delay l)
  | Throw e => Throw e
  | Fault f => Fault f
  end.

Definition DM := M Empty_set TDoryRateLimiter.

Definition on_limiter {A} (m : LM A) : DM A := zoom Limiter (λ l d, d <| Limiter := l |>) m.

Definition Dory_ComputeDelay (now : timespec) (random : Z) : DM Z :=
  d ← on_limiter (ComputeDelay now random); l ← get; mret (MinDelay l `max` d).

Definition Dory_OnAction (now : timespec) : DM () := on_limiter (OnAction now).

(** ** Invariant *)

(** The base has doubled as often as the doublings that are left say. *)
Record backoff_inv (d k : Z) (b : TRandomExpBackoff) : Prop := {
  bi_initial : InitialCount b = d;
  bi_max : MaxDouble b = k;
  bi_left : 0 ≤ DoubleTimesLeft b ≤ k;
  bi_base : BaseCount b = d * 2 ^ (k - DoubleTimesLeft b)
}.

(** Parameters for which nothing wraps. *)
Definition params_ok (d k : Z) : Prop := 1 ≤ d ∧ 0 ≤ k ∧ d * 2 ^ (k + 2) < 2 ^ 63.

Lemma base_bounds d k n : params_ok d k → 0 ≤ n ≤ k → d ≤ d * 2 ^ n ∧ d * 2 ^ n * 4 < 2 ^ 63.
Proof.
  intros (Hd & Hk & Hb) Hn. assert (0 < 2 ^ n) by (apply Z.pow_pos_nonneg; lia).
  assert (2 ^ n ≤ 2 ^ k) by (apply Z.pow_le_mono_r; lia). rewrite Z.pow_add_r in Hb by lia. nia.
Qed.

Lemma NextValue_ok d k b r :
  params_ok d k → backoff_inv d k b →
  ∃ v b', NextValue r b = (Ret v, b') ∧ backoff_inv d k b' ∧
    BaseCount b `div` 2 ≤ v ≤ BaseCount b + BaseCount b `div` 2 ∧
    DoubleTimesLeft b' = 0 `max` (DoubleTimesLeft b - 1).
Proof.
  intros Hp [H1 H2 H3 H4]. destruct (base_bounds d k (k - DoubleTimesLeft b) Hp) as [B1 B2]; [lia |]. rewrite <- H4 in B1, B2.
  pose proof Hp as (Hd & Hk & _). assert (0 ≤ BaseCount b `div` 2 ≤ BaseCount b) as Hh by (split; [apply Z.div_pos | apply Z.div_le_upper_bound]; lia).
  unfold NextValue. munfold. rewrite (uadd_small (BaseCount b)) by lia. rewrite usub_small by lia.
  rewrite (proj2 (Z.leb_le _ _)) by lia. rewrite (uadd_small _ 1) by lia. rewrite (proj2 (Z.eqb_neq _ 0)) by lia.
  set (R := BaseCount b + BaseCount b `div` 2 - BaseCount b `div` 2 + 1). assert (0 ≤ r `mod` R < R) as Hr by (apply Z.mod_pos_bound; lia).
  rewrite uadd_small by lia. rewrite (proj2 (Z.leb_le _ (_ + r `mod` R))), (proj2 (Z.leb_le (_ + r `mod` R) _)) by lia. cbn [andb].
  destruct (Z.eqb_spec (DoubleTimesLeft b) 0) as [E | E].
  - eexists _, _. split; [done |]. split_and!; [by split | lia.. ].
  - destruct (base_bounds d k (k - (DoubleTimesLeft b - 1)) Hp) as [C1 C2]; [lia |].
    assert (BaseCount b * 2 = d * 2 ^ (k - (DoubleTimesLeft b - 1))) as E2.
    { rewrite H4. replace (k - (DoubleTimesLeft b - 1)) with (Z.succ (k - DoubleTimesLeft b)) by lia. rewrite Z.pow_succ_r by lia. lia. }
    rewrite <- E2 in C1, C2. rewrite (uwrap_small 64) by (unfold in_u; lia). rewrite (proj2 (Z.ltb_lt _ _)) by lia.
    assert (1 ≤ (BaseCount b * 2) `div` 2) by (rewrite Z.div_mul; lia). rewrite Z.div_mul by lia.
    rewrite (uadd_small (BaseCount b * 2)) by lia. rewrite (proj2 (Z.ltb_lt _ _)) by lia.
    eexists _, _. split; [reflexivity |]. assert (usub (DoubleTimesLeft b) 1 = DoubleTimesLeft b - 1) as Eu.
    { apply usub_small. destruct Hp as (_ & _ & Hb). assert (k < 2 ^ 64); [| lia]. assert (k < 2 ^ k) by (apply Z.pow_gt_lin_r; lia).
      rewrite Z.pow_add_r in Hb by lia. nia. }
    split; [split; cbn -[usub]; rewrite ?Eu; [done | done | lia | done] |]. split; [lia |].
    change (usub (DoubleTimesLeft b) 1 = 0 `max` (DoubleTimesLeft b - 1)). lia.
Qed.

(** ** How long an action waits *)

(** The invariant of the limiter. *)
Record limiter_ok (d k : Z) (l : TBackoffRateLimiter) : Prop := {
  lo_window : BackoffWindow l = d * 2 ^ (k + 2);
  lo_gen : backoff_inv d k (DelayGenerator l)
}.

Lemma Backoff_Reset_ok d k b : params_ok d k → backoff_inv d k b → backoff_inv d k (Backoff_Reset b).
Proof. intros (Hd & Hk & _) [H1 H2 H3 H4]. split; cbn; try lia. rewrite H1, H2, Z.sub_diag. lia. Qed.

Lemma TBackoffRateLimiter_new_ok d k :
  params_ok d k → ∃ l, TBackoffRateLimiter_new d k = Ret l ∧ limiter_ok d k l ∧ FirstTime l = true.
Proof.
  intros Hp. pose proof Hp as (Hd & Hk & Hb). assert (k + 2 < 63) as Hk2.
  { apply (Z.pow_lt_mono_r_iff 2); [lia | lia |]. nia. }
  assert (0 < 2 ^ (k + 2)) as H2 by (apply Z.pow_pos_nonneg; lia).
  unfold TBackoffRateLimiter_new, ComputeBackoffWindow. rewrite (uadd_small k) by lia.
  rewrite (proj2 (Z.leb_gt 64 _)) by lia. rewrite Z.shiftl_mul_pow2 by lia. rewrite (uwrap_small 64) by (unfold in_u; nia).
  rewrite Z.shiftr_div_pow2, Z.div_mul, Z.eqb_refl by lia.
  assert (swrap 64 (d * 2 ^ (k + 2)) = d * 2 ^ (k + 2)) as -> by (apply swrap_small; [lia | unfold in_s; nia]).
  rewrite (proj2 (Z.leb_le _ _)) by (unfold INT64_MAX; lia). cbn [andb].
  eexists. split; [done |]. split; [| done]. split; cbn; [done |]. split; cbn; [done | done | lia |]. rewrite Z.sub_diag. lia.
Qed.

(** The longest wait. *)
Definition max_wait (d k : Z) : Z := d * 2 ^ k + (d * 2 ^ k) `div` 2.

(** A wait is at most one and a half times the last base.  In the window, the wait
    and the time since the last action make up a value of the generator, which is at
    least half the base. *)
Lemma ComputeDelay_ok d k l now r :
  params_ok d k → limiter_ok d k l →
  ∃ w l', ComputeDelay now r l = (Ret w, l') ∧ limiter_ok d k l' ∧ FirstTime l' = false ∧ 0 ≤ w ≤ max_wait d k ∧
    (FirstTime l = false → swrap 64 (ComputeTimeToNow (WindowStartTime l) now) ≤ BackoffWindow l →
     BaseCount (DelayGenerator l) `div` 2 ≤ w + ComputeTimeToNow (LastEventTime l) now).
Proof.
  intros Hp [H1 H2]. assert (0 ≤ max_wait d k) as Hm.
  { destruct (base_bounds d k k Hp) as [B _]; [destruct Hp; lia |]. destruct Hp. unfold max_wait.
    pose proof (Z.div_pos (d * 2 ^ k) 2). lia. }
  assert (0 ≤ ComputeTimeToNow (LastEventTime l) now) as Hd.
  { unfold ComputeTimeToNow. destruct (_ <? _); [lia |]. destruct (_ =? _).
    - destruct (Z.ltb_spec (tv_nsec now) (tv_nsec (LastEventTime l))); [lia |]. apply Z.quot_pos; lia.
    - apply uwrap_range. lia. }
  unfold ComputeDelay, InBackoffWindow. munfold. destruct (FirstTime l) eqn:Ef.
  - eexists 0, _. split; [reflexivity |]. split; [split; [done |]; by apply Backoff_Reset_ok |]. split; [done |]. split; [lia | done].
  - destruct (Z.leb_spec (swrap 64 (ComputeTimeToNow (WindowStartTime l) now)) (BackoffWindow l)) as [E | E].
    + destruct (NextValue_ok d k _ r Hp H2) as (v & g & Ev & Hg & Hv & _). unfold on_generator, zoom. rewrite Ev.
      cbn -[ComputeTimeToNow usub].
      assert (BaseCount (DelayGenerator l) + BaseCount (DelayGenerator l) `div` 2 ≤ max_wait d k) as Hw.
      { destruct H2 as [_ _ I3 I4]. assert (BaseCount (DelayGenerator l) ≤ d * 2 ^ k) as Hb.
        { rewrite I4. destruct Hp. apply Z.mul_le_mono_nonneg_l; [lia |]. apply Z.pow_le_mono_r; lia. }
        unfold max_wait. pose proof (Z.div_le_mono _ _ 2 ltac:(lia) Hb). lia. }
      destruct (base_bounds d k k Hp) as [B0 B]; [destruct Hp; lia |].
      assert ((d * 2 ^ k) `div` 2 ≤ d * 2 ^ k) as Bd by (apply Z.div_le_upper_bound; destruct Hp; lia).
      assert (max_wait d k < 2 ^ 64) as Hm64 by (unfold max_wait; lia).
      destruct (Z.ltb_spec (ComputeTimeToNow (LastEventTime l) now) v) as [Ed | Ed].
      * eexists _, _. split; [reflexivity |]. rewrite usub_small by lia. split; [by split |]. split; [done |]. split; [lia |].
        intros _ _. lia.
      * eexists 0, _. split; [reflexivity |]. split; [by split |]. split; [done |]. split; [lia |]. intros _ _. lia.
    + eexists 0, _. split; [reflexivity |]. split; [split; [done |]; by apply Backoff_Reset_ok |]. split; [done |].
      split; [lia |]. intros _ ?. lia.
Qed.

(** A use of the limiter: the delay is computed, and the action made. *)
Inductive limiter_use := Compute (now : timespec) (random : Z) | Act (now : timespec).

Definition do_use (u : limiter_use) : DM (option Z) :=
  match u with
  | Compute now r => w ← Dory_ComputeDelay now r; mret (Some w)
  | Act now => Dory_OnAction now;; mret None
  end.

Lemma do_use_ok d k l u :
  params_ok d k → limiter_ok d k (Limiter l) →
  ∃ o l', do_use u l = (Ret o, l') ∧ limiter_ok d k (Limiter l') ∧ MinDelay l' = MinDelay l ∧
    ∀ w, o = Some w → MinDelay l ≤ w ≤ MinDelay l `max` max_wait d k.
Proof.
  intros Hp Hl. destruct u as [now r | now].
  - destruct (ComputeDelay_ok d k (Limiter l) now r Hp Hl) as (w & l' & E & Hl' & _ & Hw & _).
    unfold do_use, Dory_ComputeDelay, on_limiter, zoom. munfold. rewrite E. cbn.
    eexists _, _. split; [reflexivity |]. split; [done |]. split; [done |]. intros w' [= <-]. cbn. lia.
  - destruct Hl. by eexists None, _.
Qed.

(** With a positive initial delay and a window that fits a [long], the limiter never
    fails, and each of its delays is between the minimum delay and one and a half times
    the initial delay doubled the maximum number of times (or the minimum). *)
Theorem backoff_delays d k min_delay l uses :
  params_ok d k → TDoryRateLimiter_new d k min_delay = Ret l →
  ∃ ws l', mmap do_use uses l = (Ret ws, l') ∧
    Forall (λ o, ∀ w, o = Some w → min_delay ≤ w ≤ min_delay `max` max_wait d k) ws.
Proof.
  intros Hp Hn. unfold TDoryRateLimiter_new in Hn. destruct (TBackoffRateLimiter_new_ok d k Hp) as (l0 & E & Hl & _).
  rewrite E in Hn. injection Hn as <-.
  assert (∀ l, limiter_ok d k (Limiter l) → MinDelay l = min_delay → ∃ ws l', mmap do_use uses l = (Ret ws, l') ∧
    Forall (λ o, ∀ w, o = Some w → min_delay ≤ w ≤ min_delay `max` max_wait d k) ws) as H; [| by apply H].
  clear -Hp. induction uses as [| u uses IH]; intros l Hl Hm; [by exists [], l |].
  destruct (do_use_ok d k l u Hp Hl) as (o & l1 & E1 & Hl1 & Hm1 & Hw). rewrite Hm in Hm1, Hw.
  destruct (IH l1 Hl1 Hm1) as (ws & l2 & E2 & Hws). exists (o :: ws), l2. split; [| by constructor].
  cbn. rewrite (bind_Ret _ _ _ _ _ E1). by rewrite (bind_Ret _ _ _ _ _ E2).
Qed.

(** A window that does not fit a [long] passes the assertion that is to check for it,
    since it is converted first, and comes out negative. *)
Lemma window_assertion_is_vacuous : ComputeBackoffWindow (2 ^ 61) 0 = Ret (- 2 ^ 63).
Proof. reflexivity. Qed.

(** With an initial delay of zero and doublings left, the second wait fails the
    assertion on the doubled base. *)
Lemma zero_delay_fails : ∃ l, TBackoffRateLimiter_new 0 1 = Ret l ∧
  ((ComputeDelay (mkTime 5 0) 7;; ComputeDelay (mkTime 5 0) 7) l).1 = Fault AssertFailed.
Proof. eexists. split; [reflexivity |]. reflexivity. Qed.

(** The window is counted from its start: an action right after the previous one
    resets the limiter when the window has passed. *)
Lemma window_runs_from_start : ∃ l, TBackoffRateLimiter_new 100 1 = Ret l ∧
  (ComputeDelay (mkTime 5 0) 0;; OnAction (mkTime 5 0);; ComputeDelay (mkTime 5 790000000) 0;; OnAction (mkTime 5 800000000);;
   ComputeDelay (mkTime 5 801000000) 0) l = (Ret 0, l <| FirstTime := false |> <| WindowStartTime := mkTime 5 801000000 |> <| LastEventTime := mkTime 5 801000000 |>).
Proof. eexists. split; reflexivity. Qed.
