(* ===== verification/DispatcherApi.v ===== *)
(** * The dispatcher's interface (dory/msg_dispatch/kafka_dispatcher_api.h)

    What the router thread uses of a dispatcher.  The trackers that the dispatcher
    and the router share are reached through it.  The source has two implementations
    of the interface, one of them for tests; the real one is in KafkaDispatcher.v.

    The threads of the dispatcher run on their own: what they do between two calls
    of the router happens in [disp_run].  The source has no such method; the model of
    the router calls it where the router waits in [poll].  The argument of
    [disp_SetProduceProtocol] says whether the pointer to the protocol is not null. *)
From S2P Require Import Prelude Msg AnomalyTracker Metadata ResponseProcessor.

(** [TDispatcherState]. *)
Inductive TDispatcherState := Stopped | Started | ShuttingDown.

#[global] Instance TDispatcherState_eq_dec : EqDecision TDispatcherState.
Proof. solve_decision. Defined.

Class TKafkaDispatcherApi (D : Type) := {
  disp_shared : D → TDispatcherSharedState;
  disp_set_shared : TDispatcherSharedState → D → D;
  disp_run : M Empty_set D ();
  disp_SetProduceProtocol : bool → M Empty_set D ();
  disp_GetState : D → TDispatcherState;
  disp_GetBrokerCount : D → nat;
  disp_Start : TMetadata → M Empty_set D ();
  disp_Dispatch : Z → TMsg → nat → M Empty_set D ();
  disp_DispatchNow : Z → TMsg → nat → M Empty_set D ();
  disp_DispatchNow_batch : Z → list (list TMsg) → nat → M Empty_set D ();
  disp_StartSlowShutdown : Z → M Empty_set D ();
  disp_StartFastShutdown : M Empty_set D ();
  disp_PauseReadable : D → bool;
  disp_ShutdownWaitReadable : D → bool;
  disp_JoinAll : M Empty_set D ();
  disp_ShutdownWasOk : D → bool;
  disp_GetNoAckQueueAfterShutdown : nat → M Empty_set D (list (list TMsg));
  disp_GetSendWaitQueueAfterShutdown : nat → M Empty_set D (list (list TMsg))
}.
