(* ===== verification/Router.v ===== *)
(** * The router thread (dory/router_thread.h, router_thread.cc)

    The thread that takes the messages from the input threads, checks them, batches
    or routes them to a broker, and replaces the metadata when it has to.  All of the
    handlers are here, and the main loop as a sequence of iterations.

    The dispatcher is any implementation of its interface; the rest of the world (the
    clocks, the random numbers, the metadata fetcher's answers, the file descriptors
    that others make readable, the messages that the input threads put into the
    channel) is any implementation of [RouterEnv].  Logging and the counters are left
    out. *)
From S2P Require Import Prelude Capped Msg AnomalyTracker Batch PerTopicBatcher Metadata ResponseProcessor RateLimiter Backoff.
From S2P Require Import DispatcherApi.

(** [TMetadataFetcher::TTopicAutocreateResult]. *)
Inductive TTopicAutocreateResult := AutocreateSuccess | AutocreateFail | TryOtherBroker.

(** The results of the main loop's [poll] for the descriptors that are not the
    dispatcher's. *)
Record poll_events := mkPollEvents {
  pe_ShutdownRequest : bool;
  pe_MsgAvailable : bool;
  pe_MdUpdateRequest : bool;
  pe_MdRefresh : bool
}.

Class RouterEnv (W : Type) := {
  GetEpochMilliseconds : W → Z * W;
  MonotonicNow : W → timespec * W;
  TrackerNow : W → Z * W;
  Rand : W → Z * W;
  SleepMilliseconds : Z → W → W;
  FetcherConnect : string → Z → W → bool * W;
  FetcherFetch : Z → W → option TMetadata * W;
  FetcherTopicAutocreate : string → Z → W → TTopicAutocreateResult * W;
  FetcherDisconnect : W → W;
  ShutdownRequestReadable : Z → W → bool * W;
  ClearShutdownRequest : W → W;
  MetadataUpdateRequestReadable : W → bool * W;
  MetadataUpdateRequestPop : W → W;
  MsgChannelGet : W → list TMsg * W;
  MsgChannelNonblockingGet : W → list TMsg * W;
  InitFinishedPush : W → W;
  MainLoopPoll : Z → W → poll_events * W;
  PoolNow : W → TPool
}.

(** [TMetadataTimestamp]. *)
Record TMetadataTimestamp := mkMdTimestamp { LastUpdateTime : Z; LastModifiedTime : Z }.

(** The parts of the configuration that the thread uses. *)
Record router_conf := mkRouterConf {
  TopicAutocreate : bool;
  CompareMetadataOnRefresh : bool;
  KafkaSocketTimeout : Z;
  MetadataRefreshInterval : Z;
  ShutdownMaxDelay : Z;
  PauseRateLimitInitial : Z;
  PauseRateLimitMaxDouble : Z;
  MinPauseDelay : Z;
  TopicRateConf : TTopicRateConf;
  MessageMaxBytes : Z;
  SingleMsgOverhead : Z
}.

Record TRouterThread (W D : Type) := mkRouter {
  World : W;
  Dispatcher : D;
  MsgRateLimiter : gmap string TTopicState;
  KnownBrokers : list (string * Z);
  Metadata : option TMetadata;
  RouteCounters : list Z;
  BatcherIsEnabled : bool;
  PerTopicBatcher : TPerTopicBatcher;
  TmpBrokerMap : gmap nat (list (list TMsg));
  OptNextBatchExpiry : option Z;
  ShutdownStartTime : option Z;
  NeedToContinueShutdown : bool;
  Destroying : bool;
  OkShutdown : bool;
  MetadataRefreshTimer : option Z;
  MetadataTimestamp : TMetadataTimestamp;
  PauseRateLimiter : option TDoryRateLimiter
}.
Arguments mkRouter {W D}.
Arguments World {W D}.
Arguments Dispatcher {W D}.
Arguments MsgRateLimiter {W D}.
Arguments KnownBrokers {W D}.
Arguments Metadata {W D}.
Arguments RouteCounters {W D}.
Arguments BatcherIsEnabled {W D}.
Arguments PerTopicBatcher {W D}.
Arguments TmpBrokerMap {W D}.
Arguments OptNextBatchExpiry {W D}.
Arguments ShutdownStartTime {W D}.
Arguments NeedToContinueShutdown {W D}.
Arguments Destroying {W D}.
Arguments OkShutdown {W D}.
Arguments MetadataRefreshTimer {W D}.
Arguments MetadataTimestamp {W D}.
Arguments PauseRateLimiter {W D}.

#[export] Instance TRouterThread_settable W D : Settable (TRouterThread W D) :=
  λ r, mkRouter (World r) (Dispatcher r) (MsgRateLimiter r) (KnownBrokers r) (Metadata r) (RouteCounters r)
    (BatcherIsEnabled r) (PerTopicBatcher r) (TmpBrokerMap r) (OptNextBatchExpiry r) (ShutdownStartTime r)
    (NeedToContinueShutdown r) (Destroying r) (OkShutdown r) (MetadataRefreshTimer r) (MetadataTimestamp r)
    (PauseRateLimiter r).

(** What ends the thread: the destructor's request, or another exception. *)
Inductive router_exn := TShutdownOnDestroy | StdException.

(** A loop over a list whose body has no result. *)
Fixpoint mfor_ {E S A} (f : A → M E S ()) (l : list A) : M E S () :=
  match l with [] => mret () | a :: l => f a;; mfor_ f l end.

Section router.
Context `{HashOrder} {W D : Type} `{!RouterEnv W} `{!TKafkaDispatcherApi D} (Conf : router_conf).

Notation RM := (M router_exn (TRouterThread W D)).

Definition TRouterThread_new (w : W) (d : D) (initial_brokers : list (string * Z)) (per_topic : option TPerTopicConfig)
    : TRouterThread W D :=
  mkRouter w d ∅ initial_brokers None [] (bool_decide (is_Some per_topic))
    (TPerTopicBatcher_new (default (mkPerTopicConfig (mkBatchConfig 0 0 0) ∅) per_topic)) ∅ None None false false true None
    (mkMdTimestamp 0 0) None.

(** ** The parts of the state *)

Definition ask {A} (q : W → A * W) : RM A := λ r,
  let '(a, w) := q (World r) in (Ret a, r <| World := w |>).

Definition tell (q : W → W) : RM () := modify (λ r, r <| World := q (World r) |>).

Definition on_dispatcher {A} (m : M Empty_set D A) : RM A :=
  zoom Dispatcher (λ d r, r <| Dispatcher := d |>) (no_throw m).

Definition on_batcher {A} (m : PerTopicBatcher.PM A) : RM A :=
  zoom PerTopicBatcher (λ b r, r <| PerTopicBatcher := b |>) (no_throw m).

Definition on_rate_limiter {A} (m : RateLimiter.LM A) : RM A :=
  zoom MsgRateLimiter (λ l r, r <| MsgRateLimiter := l |>) (no_throw m).

Definition shared_of (r : TRouterThread W D) : TDispatcherSharedState := disp_shared (Dispatcher r).

Definition with_shared (s : TDispatcherSharedState) (r : TRouterThread W D) : TRouterThread W D :=
  r <| Dispatcher := disp_set_shared s (Dispatcher r) |>.

Definition on_shared (f : TDispatcherSharedState → TDispatcherSharedState) : RM () :=
  modify (λ r, with_shared (f (shared_of r)) r).

Definition with_states (t : TMsgStateTracker) (s : TDispatcherSharedState) : TDispatcherSharedState :=
  mkShared t (ResponseProcessor.AnomalyTracker s) (AckCount s) (Destroyed s).

Definition with_anomalies (a : TAnomalyTracker) (s : TDispatcherSharedState) : TDispatcherSharedState :=
  mkShared (ResponseProcessor.MsgStateTracker s) a (AckCount s) (Destroyed s).

Definition on_states {A} (m : TM A) : RM A :=
  zoom (λ r, ResponseProcessor.MsgStateTracker (shared_of r)) (λ t r, with_shared (with_states t (shared_of r)) r) (no_throw m).

(** An entry in the anomaly tracker, at the time that it reads. *)
Definition track (f : Z → TAnomalyTracker → TAnomalyTracker) : RM () :=
  now ← ask TrackerNow;
  on_shared (λ s, with_anomalies (f now (ResponseProcessor.AnomalyTracker s)) s).

(** The end of the life of messages. *)
Definition destroy (msgs : list TMsg) : RM () :=
  on_shared (λ s, mkShared (ResponseProcessor.MsgStateTracker s) (ResponseProcessor.AnomalyTracker s) (AckCount s)
                    (reverse msgs ++ Destroyed s)).

Definition lift {A} (o : outcome Empty_set A) : RM A :=
  match o with Ret a => mret a | Throw e => match e with end | Fault f => crash f end.

Definition the_metadata : RM TMetadata := r ← get; need NullDeref (Metadata r).

(** [assert(Metadata)], and what it points to. *)
Definition asserted_metadata : RM TMetadata := r ← get; need AssertFailed (Metadata r).

Definition find_topic (topic : string) : RM Z := md ← the_metadata; lift (FindTopicIndex topic md).

(** The local rate limiter of a retry loop: a call with the clock's time and a random
    number. *)
Definition run_limiter {A} (m : Backoff.DM A) (l : TDoryRateLimiter) : RM (A * TDoryRateLimiter) :=
  match m l with
  | (Ret a, l') => mret (a, l')
  | (Throw e, _) => match e with end
  | (Fault f, _) => crash f
  end.

Definition limiter_delay (l : TDoryRateLimiter) : RM (Z * TDoryRateLimiter) :=
  now ← ask MonotonicNow; r ← ask Rand; run_limiter (Dory_ComputeDelay now r) l.

Definition limiter_action (l : TDoryRateLimiter) : RM TDoryRateLimiter :=
  now ← ask MonotonicNow; '(_, l) ← run_limiter (Dory_OnAction now) l; mret l.

Definition new_limiter : RM TDoryRateLimiter :=
  lift (TDoryRateLimiter_new (PauseRateLimitInitial Conf) (PauseRateLimitMaxDouble Conf) (MinPauseDelay Conf)).

(** ** Shutdown, discards *)

Definition ComputeRetryDelay (mean_delay div : Z) : RM Z :=
  if div =? 0 then crash DivByZero else
  let half_range := mean_delay `div` div in
  let lower_bound := usub mean_delay half_range in
  let upper_bound := uadd mean_delay half_range in
  let range := uadd (usub upper_bound lower_bound) 1 in
  x ← ask Rand;
  if range =? 0 then crash DivByZero else mret (uadd (x `mod` range) lower_bound).

Definition StartShutdown : RM () :=
  r ← get;
  if Destroying r then throw TShutdownOnDestroy else
  massert (bool_decide (ShutdownStartTime r = None));;
  now ← ask GetEpochMilliseconds;
  modify (λ r, r <| ShutdownStartTime := Some now |> <| NeedToContinueShutdown := true |>);;
  tell ClearShutdownRequest.

Definition Discard (msg : TMsg) (reason : TDiscardReason) : RM () :=
  track (λ now, TrackDiscard now msg reason);;
  msg ← on_states (MsgEnterProcessed msg);
  destroy [msg].

Definition Discard_list (msg_list : list TMsg) (reason : TDiscardReason) : RM () :=
  mfor_ (λ msg, track (λ now, TrackDiscard now msg reason)) msg_list;;
  msgs ← on_states (MsgEnterProcessed_list msg_list);
  destroy msgs.

Definition Discard_batches (batch_list : list (list TMsg)) (reason : TDiscardReason) : RM () :=
  mfor_ (mfor_ (λ msg, track (λ now, TrackDiscard now msg reason))) batch_list;;
  batches ← on_states (MsgEnterProcessed_lists batch_list);
  destroy (concat batches).

(** ** Routing *)

Definition LookupValidTopicIndex (topic : string) : RM nat :=
  md ← asserted_metadata;
  topic_index ← lift (FindTopicIndex topic md);
  if topic_index <? 0 then crash Died
  else if Z.of_nat (length (Topics md)) <=? topic_index then crash Died
  else mret (Z.to_nat topic_index).

Definition GetValidTopicMetadata (topic : string) : RM TTopic :=
  md ← asserted_metadata;
  i ← LookupValidTopicIndex topic;
  need OutOfBounds (Topics md !! i).

Definition ChooseAnyPartitionBrokerIndex (topic : string) : RM nat :=
  md ← asserted_metadata;
  topic_index ← LookupValidTopicIndex topic;
  topic_meta ← need OutOfBounds (Topics md !! topic_index);
  let partition_vec := OkPartitions topic_meta in
  massert (bool_decide (partition_vec ≠ []));;
  counters ← gets RouteCounters;
  massert (bool_decide (length counters = length (Topics md)));;
  counter ← need OutOfBounds (counters !! topic_index);
  let counter := uadd counter 1 in
  modify (λ r, r <| RouteCounters := <[topic_index := counter]> (RouteCounters r) |>);;
  partition ← need OutOfBounds (partition_vec !! Z.to_nat (counter `mod` Z.of_nat (length partition_vec)));
  mret (BrokerIndex partition).

(** The [do] loop of [ChoosePartitionByKey]; a round over the partitions ends it. *)
Fixpoint ChoosePartitionByKey_loop (fuel : nat) (md : TMetadata) (partition_vec : list TPartition)
    (start_index index : nat) : RM TPartition :=
  match fuel with
  | O => crash OutOfFuel
  | S fuel =>
      partition ← need OutOfBounds (partition_vec !! index);
      massert (BrokerIndex partition <? length (Brokers md))%nat;;
      broker ← need OutOfBounds (Brokers md !! BrokerIndex partition);
      if InService broker then mret partition
      else
        let index := ((index + 1) mod length partition_vec)%nat in
        if (index =? start_index)%nat then crash Died
        else ChoosePartitionByKey_loop fuel md partition_vec start_index index
  end.

Definition ChoosePartitionByKey (topic_meta : TTopic) (partition_key : Z) : RM TPartition :=
  md ← asserted_metadata;
  massert (bool_decide (Brokers md ≠ []));;
  let partition_vec := AllPartitions topic_meta in
  massert (bool_decide (partition_vec ≠ []));;
  let start_index := Z.to_nat (uwrap 32 partition_key `mod` Z.of_nat (length partition_vec)) in
  ChoosePartitionByKey_loop (length partition_vec) md partition_vec start_index start_index.

Definition ChoosePartitionByKey_topic (topic : string) (partition_key : Z) : RM TPartition :=
  _ ← asserted_metadata;
  topic_meta ← GetValidTopicMetadata topic;
  ChoosePartitionByKey topic_meta partition_key.

(** The message as it is changed, and the broker. *)
Definition AssignBroker (msg : TMsg) : RM (TMsg * nat) :=
  if decide (RoutingType msg = PartitionKey) then
    partition ← ChoosePartitionByKey_topic (Topic msg) (MsgPartitionKey msg);
    mret (SetPartition (PartId partition) msg, BrokerIndex partition)
  else
    i ← ChooseAnyPartitionBrokerIndex (Topic msg);
    mret (msg, i).

Definition Route (msg : TMsg) : RM () :=
  '(msg, broker_index) ← AssignBroker msg;
  now ← ask GetEpochMilliseconds;
  on_dispatcher (disp_Dispatch now msg broker_index).

Definition RouteNow (msg : TMsg) : RM () :=
  '(msg, broker_index) ← AssignBroker msg;
  now ← ask GetEpochMilliseconds;
  on_dispatcher (disp_DispatchNow now msg broker_index).

(** [map[key]] of a map of lists, extended. *)
Definition map_append {A} (key : nat) (l : list A) (m : gmap nat (list A)) : gmap nat (list A) :=
  <[key := default [] (m !! key) ++ l]> m.

(** The first loop of [RouteAnyPartitionNow]: the batches by broker. *)
Definition MapBatch (batch : list TMsg) : RM () :=
  front ← need AssertFailed (head batch);
  broker_index ← ChooseAnyPartitionBrokerIndex (Topic front);
  modify (λ r, r <| TmpBrokerMap := map_append broker_index [batch] (TmpBrokerMap r) |>).

(** The second loop, for one entry of the map. *)
Definition DispatchEntry (broker_index : nat) : RM () :=
  m ← gets TmpBrokerMap;
  match default [] (m !! broker_index) with
  | [] => mret ()
  | batches =>
      now ← ask GetEpochMilliseconds;
      on_dispatcher (disp_DispatchNow_batch now batches broker_index);;
      modify (λ r, r <| TmpBrokerMap := <[broker_index := []]> (TmpBrokerMap r) |>)
  end.

Definition RouteAnyPartitionNow (batch_list : list (list TMsg)) : RM () :=
  match batch_list with
  | [] => mret ()
  | _ =>
      mfor_ MapBatch batch_list;;
      m ← gets TmpBrokerMap;
      mfor_ DispatchEntry (hash_order m).*1
  end.

(** The messages of a batch, by the broker of the partition of the key. *)
Fixpoint MapByKey (topic_meta : TTopic) (batch : list TMsg) (broker_map : gmap nat (list TMsg))
    : RM (gmap nat (list TMsg)) :=
  match batch with
  | [] => mret broker_map
  | msg :: batch =>
      partition ← ChoosePartitionByKey topic_meta (MsgPartitionKey msg);
      MapByKey topic_meta batch
        (map_append (BrokerIndex partition) [SetPartition (PartId partition) msg] broker_map)
  end.

Fixpoint MapAllByKey (batch_list : list (list TMsg)) (broker_map : gmap nat (list TMsg)) : RM (gmap nat (list TMsg)) :=
  match batch_list with
  | [] => mret broker_map
  | batch :: batch_list =>
      front ← need AssertFailed (head batch);
      topic_meta ← GetValidTopicMetadata (Topic front);
      broker_map ← MapByKey topic_meta batch broker_map;
      MapAllByKey batch_list broker_map
  end.

(** The second loop: the messages for a broker, grouped by topic; [topic_map] is used
    for one broker after the other. *)
Fixpoint DispatchByTopic (items : list (nat * list TMsg)) (topic_map : TTopicMap) : RM () :=
  match items with
  | [] => mret ()
  | (broker_index, msgs) :: items =>
      massert (TopicMap_IsEmpty topic_map);;
      let '(batches, topic_map) := TopicMap_Get (foldl (λ m msg, TopicMap_Put msg m) topic_map msgs) in
      now ← ask GetEpochMilliseconds;
      on_dispatcher (disp_DispatchNow_batch now batches broker_index);;
      DispatchByTopic items topic_map
  end.

Definition RoutePartitionKeyNow (batch_list : list (list TMsg)) : RM () :=
  _ ← asserted_metadata;
  match batch_list with
  | [] => mret ()
  | _ =>
      broker_map ← MapAllByKey batch_list ∅;
      DispatchByTopic (hash_order broker_map) ∅
  end.

(** ** Rerouting *)

(** The messages of the batch that are left. *)
Definition ValidateBeforeReroute (msg_list : list TMsg) : RM (list TMsg) :=
  front ← need AssertFailed (head msg_list);
  md ← the_metadata;
  topic_index ← lift (FindTopicIndex (Topic front) md);
  if topic_index <? 0 then
    mfor_ (λ msg, track (λ now, TrackBadTopicDiscard_msg now msg)) msg_list;;
    msgs ← on_states (MsgEnterProcessed_list msg_list);
    destroy msgs;;
    mret []
  else
    massert (topic_index <? Z.of_nat (length (Topics md)));;
    topic_meta ← need OutOfBounds (Topics md !! Z.to_nat topic_index);
    match OkPartitions topic_meta with
    | [] => Discard_list msg_list NoAvailablePartitions;; mret []
    | _ => mret msg_list
    end.

(** The inner loop of [Reroute]: [kept] are the messages of the batch before the one
    that the loop is at, [tmp] those moved away. *)
Fixpoint SeparateByRouting (kept tmp rest : list TMsg) : RM (list TMsg * list TMsg) :=
  match rest with
  | [] => mret (kept, tmp)
  | msg :: rest =>
      front ← need OutOfBounds (head (kept ++ msg :: rest));
      massert (bool_decide (Topic msg = Topic front));;
      if decide (RoutingType msg = PartitionKey) then SeparateByRouting kept (tmp ++ [msg]) rest
      else SeparateByRouting (kept ++ [msg]) tmp rest
  end.

(** The outer loop: the batches of AnyPartition messages and those of PartitionKey
    messages. *)
Fixpoint SeparateBatches (batch_list : list (list TMsg)) : RM (list (list TMsg) * list (list TMsg)) :=
  match batch_list with
  | [] => mret ([], [])
  | batch :: batch_list =>
      batch ← ValidateBeforeReroute batch;
      '(kept, tmp) ← SeparateByRouting [] [] batch;
      '(any, key) ← SeparateBatches batch_list;
      mret (match kept with [] => any | _ => kept :: any end,
            match tmp with [] => key | _ => tmp :: key end)
  end.

Definition Reroute (batch_list : list (list TMsg)) : RM () :=
  match batch_list with
  | [] => mret ()
  | _ =>
      '(any, partition_key_batches) ← SeparateBatches batch_list;
      RouteAnyPartitionNow any;;
      RoutePartitionKeyNow partition_key_batches
  end.

(** ** Getting metadata *)

Definition UpdateKnownBrokers (md : TMetadata) : RM () :=
  modify (λ r, r <| KnownBrokers := (λ b, (Hostname b, Port b)) <$> Brokers md |>).

(** Tries the known brokers one after the other, from [chosen] on. *)
Fixpoint TryGetMetadata_loop (n : nat) (chosen : nat) : RM (option TMetadata) :=
  match n with
  | O => mret None
  | S n =>
      brokers ← gets KnownBrokers;
      broker ← need OutOfBounds (brokers !! chosen);
      let next := TryGetMetadata_loop n ((chosen + 1) mod length brokers)%nat in
      connected ← ask (FetcherConnect broker.1 broker.2);
      if connected : bool then
        result ← ask (FetcherFetch (swrap 32 (swrap 32 (KafkaSocketTimeout Conf) * 1000)));
        match result with Some md => mret (Some md) | None => next end
      else next
  end.

Definition TryGetMetadata : RM (option TMetadata) :=
  brokers ← gets KnownBrokers;
  massert (bool_decide (brokers ≠ []));;
  x ← ask Rand;
  result ← TryGetMetadata_loop (length brokers) (Z.to_nat (x `mod` Z.of_nat (length brokers)));
  result ← match result with
    | None => mret None
    | Some md =>
        if (Metadata.SanityCheck md).1 then UpdateKnownBrokers md;; mret (Some md)
        else crash AssertFailed
    end;
  tell FetcherDisconnect;;
  mret result.

Definition InitMetadataRefreshTimer : RM () :=
  ms ← ComputeRetryDelay (uwrap 64 (MetadataRefreshInterval Conf * 60 * 1000)) 5;
  modify (λ r, r <| MetadataRefreshTimer := Some ms |>).

(** The retry loops have no bound of their own: [fuel] is a number of attempts. *)
Fixpoint GetInitialMetadata_loop (fuel : nat) (retry_rate_limiter : TDoryRateLimiter) : RM (option TMetadata) :=
  match fuel with
  | O => crash OutOfFuel
  | S fuel =>
      result ← TryGetMetadata;
      match result with
      | Some md => mret (Some md)
      | None =>
          '(delay, l) ← limiter_delay retry_rate_limiter;
          shutdown ← ask (ShutdownRequestReadable (swrap 32 delay));
          if shutdown : bool then mret None
          else l ← limiter_action l; GetInitialMetadata_loop fuel l
      end
  end.

Definition GetInitialMetadata (fuel : nat) : RM (option TMetadata) :=
  l ← new_limiter; GetInitialMetadata_loop fuel l.

Fixpoint GetMetadataBeforeSlowShutdown_loop (fuel : nat) (retry_rate_limiter : TDoryRateLimiter) : RM (option TMetadata) :=
  match fuel with
  | O => crash OutOfFuel
  | S fuel =>
      result ← TryGetMetadata;
      match result with
      | Some md => mret (Some md)
      | None =>
          '(delay, l) ← limiter_delay retry_rate_limiter;
          shutdown ← ask (ShutdownRequestReadable (swrap 32 delay));
          if shutdown : bool then StartShutdown;; mret None
          else l ← limiter_action l; GetMetadataBeforeSlowShutdown_loop fuel l
      end
  end.

Definition GetMetadataBeforeSlowShutdown (fuel : nat) : RM (option TMetadata) :=
  l ← new_limiter; GetMetadataBeforeSlowShutdown_loop fuel l.

Fixpoint GetMetadataDuringSlowShutdown_loop (fuel : nat) (finish_time : Z) (retry_rate_limiter : TDoryRateLimiter)
    : RM (option TMetadata) :=
  match fuel with
  | O => crash OutOfFuel
  | S fuel =>
      result ← TryGetMetadata;
      now ← ask GetEpochMilliseconds;
      if finish_time <=? now then mret None
      else match result with
      | Some md => mret (Some md)
      | None =>
          let time_left := usub finish_time now in
          '(delay, l) ← limiter_delay retry_rate_limiter;
          tell (SleepMilliseconds delay);;
          if time_left <=? delay then mret None
          else l ← limiter_action l; GetMetadataDuringSlowShutdown_loop fuel finish_time l
      end
  end.

Definition GetMetadataDuringSlowShutdown (fuel : nat) : RM (option TMetadata) :=
  r ← get;
  start ← need NullDeref (ShutdownStartTime r);
  let finish_time := uadd start (ShutdownMaxDelay Conf) in
  now ← ask GetEpochMilliseconds;
  if finish_time <=? now then mret None
  else l ← new_limiter; GetMetadataDuringSlowShutdown_loop fuel finish_time l.

Definition GetMetadata (fuel : nat) : RM (option TMetadata) :=
  r ← get;
  result ← match ShutdownStartTime r with
    | None => GetMetadataBeforeSlowShutdown fuel
    | Some _ => mret None
    end;
  match result with
  | Some md => mret (Some md)
  | None => GetMetadataDuringSlowShutdown fuel
  end.

(** ** New metadata *)

Definition RecordUpdate (modified : bool) : RM () :=
  now ← ask GetEpochMilliseconds;
  modify (λ r, r <| MetadataTimestamp :=
    mkMdTimestamp now (if modified then now else LastModifiedTime (MetadataTimestamp r)) |>).

(** The loop over the old topics: the messages of the topics that are gone, and of
    those that have no partition available any more. *)
Fixpoint DeleteOldTopics (old_md new_md : TMetadata) (items : list (string * nat)) (deleted unavailable : list TMsg)
    : RM (list TMsg * list TMsg) :=
  match items with
  | [] => mret (deleted, unavailable)
  | (topic, index) :: items =>
      old_topic ← need AssertFailed (Topics old_md !! index);
      match OkPartitions old_topic with
      | [] => DeleteOldTopics old_md new_md items deleted unavailable
      | _ =>
          new_topic_index ← lift (FindTopicIndex topic new_md);
          if new_topic_index <? 0 then
            msgs ← on_batcher (DeleteTopic topic);
            DeleteOldTopics old_md new_md items (deleted ++ msgs) unavailable
          else
            new_topic ← need AssertFailed (Topics new_md !! Z.to_nat new_topic_index);
            match OkPartitions new_topic with
            | [] =>
                msgs ← on_batcher (DeleteTopic topic);
                DeleteOldTopics old_md new_md items deleted (unavailable ++ msgs)
            | _ => DeleteOldTopics old_md new_md items deleted unavailable
            end
      end
  end.

Definition UpdateBatchStateForNewMetadata (old_md new_md : TMetadata) : RM () :=
  '(deleted_topic_msgs, unavailable_topic_msgs) ←
    DeleteOldTopics old_md new_md (hash_order (TopicNameToIndex old_md)) [] [];
  mfor_ (λ msg, track (λ now, TrackBadTopicDiscard_msg now msg)) deleted_topic_msgs;;
  msgs ← on_states (MsgEnterProcessed_list deleted_topic_msgs);
  Discard_list unavailable_topic_msgs NoAvailablePartitions;;
  destroy msgs.

Definition topic_exists (md : TMetadata) (topic : string) : bool :=
  match FindTopicIndex topic md with Ret i => 0 <=? i | _ => false end.

(** The last loop only counts and logs; it asserts that the indexes are good. *)
Definition SetMetadata (meta : TMetadata) (record_update : bool) : RM () :=
  (if record_update then RecordUpdate true else mret ());;
  modify (λ r, r <| RouteCounters := resize (length (Topics meta)) 0 (RouteCounters r) |>);;
  r ← get;
  match Metadata r with
  | None => mret ()
  | Some old_md => UpdateBatchStateForNewMetadata old_md meta
  end;;
  modify (λ r, r <| Metadata := Some meta |>);;
  on_shared (λ s, with_states (PruneTopics (topic_exists meta) (ResponseProcessor.MsgStateTracker s)) s);;
  massert (forallb (λ item, item.2 <? length (Topics meta))%nat (hash_order (TopicNameToIndex meta)));;
  modify (λ r, r <| TmpBrokerMap := ∅ |>).

(** ** Emptying the dispatcher *)

(** The loop that collects what the connectors have left, a list for each that has
    any. *)
Fixpoint CollectBrokerLists (brokers : list nat) : RM (list (list (list TMsg))) :=
  match brokers with
  | [] => mret []
  | i :: brokers =>
      no_ack ← on_dispatcher (disp_GetNoAckQueueAfterShutdown i);
      mfor_ (mfor_ (λ msg, track (λ now, TrackDuplicate now msg))) no_ack;;
      send_wait ← on_dispatcher (disp_GetSendWaitQueueAfterShutdown i);
      lists ← CollectBrokerLists brokers;
      mret (match no_ack ++ send_wait with [] => lists | tmp => tmp :: lists end)
  end.

(** [current_list.swap(broker_lists[j])], where the list at [i] is the current one. *)
Definition swap_at {A} (i j : nat) (l : list A) : option (list A) :=
  x ← l !! i; y ← l !! j; Some (<[j := x]> (<[i := y]> l)).

(** A pass over the lists from the last to the first: the front of each goes to the
    result; a list that has become empty changes places with the last that is not. *)
Fixpoint MergeRound (i nonempty_count : nat) (broker_lists : list (list (list TMsg))) (result : list (list TMsg))
    : RM (nat * list (list (list TMsg)) * list (list TMsg)) :=
  match i with
  | O => mret (nonempty_count, broker_lists, result)
  | S i =>
      current ← need OutOfBounds (broker_lists !! i);
      match current with
      | [] => crash AssertFailed
      | front :: rest =>
          let result := result ++ [front] in
          let broker_lists := <[i := rest]> broker_lists in
          match rest with
          | _ :: _ => MergeRound i nonempty_count broker_lists result
          | [] =>
              let nonempty_count := (nonempty_count - 1)%nat in
              broker_lists ← need OutOfBounds (swap_at i nonempty_count broker_lists);
              massert ((i =? nonempty_count)%nat ||
                       ((i <? nonempty_count)%nat && bool_decide (broker_lists !! i ≠ Some [])));;
              MergeRound i nonempty_count broker_lists result
          end
      end
  end.

Fixpoint MergeBrokerLists (fuel : nat) (broker_lists : list (list (list TMsg))) (result : list (list TMsg))
    : RM (list (list TMsg)) :=
  match broker_lists with
  | [] => mret result
  | _ =>
      match fuel with
      | O => crash OutOfFuel
      | S fuel =>
          let n := length broker_lists in
          '(nonempty_count, broker_lists, result) ← MergeRound n n broker_lists result;
          MergeBrokerLists fuel (take nonempty_count broker_lists) result
      end
  end.

Definition EmptyDispatcher : RM (list (list TMsg)) :=
  n ← gets (λ r, disp_GetBrokerCount (Dispatcher r));
  broker_lists ← CollectBrokerLists (seq 0 n);
  MergeBrokerLists (length (concat broker_lists)) broker_lists [].

Definition DiscardOnShutdownDuringMetadataUpdate (msg : TMsg) : RM () := Discard msg ServerShutdown.

Definition DiscardOnShutdownDuringMetadataUpdate_list : list TMsg → RM () :=
  mfor_ DiscardOnShutdownDuringMetadataUpdate.

Definition DiscardOnShutdownDuringMetadataUpdate_batches : list (list TMsg) → RM () :=
  mfor_ DiscardOnShutdownDuringMetadataUpdate_list.

(** ** Updating the metadata *)

Definition CheckDispatcherShutdown : RM () := on_dispatcher disp_JoinAll.

Definition ReplaceMetadataOnRefresh (fuel : nat) (meta : option TMetadata) : RM bool :=
  on_dispatcher disp_StartFastShutdown;;
  md ← match meta with
    | Some md => mret (Some md)
    | None =>
        md ← GetMetadata fuel;
        match md with Some _ => RecordUpdate true | None => mret () end;;
        mret md
    end;
  CheckDispatcherShutdown;;
  match md with
  | None => mret false
  | Some md =>
      SetMetadata md false;;
      to_reroute ← EmptyDispatcher;
      md ← the_metadata;
      on_dispatcher (disp_Start md);;
      Reroute to_reroute;;
      InitMetadataRefreshTimer;;
      mret true
  end.

Definition RefreshMetadata (fuel : nat) : RM bool :=
  r ← get;
  massert (bool_decide (ShutdownStartTime r = None));;
  if CompareMetadataOnRefresh Conf then
    meta ← GetMetadata fuel;
    match meta with
    | None => mret false
    | Some meta =>
        md ← the_metadata;
        unchanged ← need AssertFailed (Metadata_eq meta md);
        RecordUpdate (negb unchanged);;
        if unchanged : bool then InitMetadataRefreshTimer;; mret true
        else ReplaceMetadataOnRefresh fuel (Some meta)
    end
  else ReplaceMetadataOnRefresh fuel None.

Definition HandleMetadataUpdate (fuel : nat) : RM bool :=
  requested ← ask MetadataUpdateRequestReadable;
  (if requested : bool then tell MetadataUpdateRequestPop else mret ());;
  ok ← RefreshMetadata fuel;
  if ok : bool then mret true
  else
    to_discard ← EmptyDispatcher;
    DiscardOnShutdownDuringMetadataUpdate_batches to_discard;;
    mret false.

(** ** New messages *)

(** The loop after a topic was created, [i] updates made. *)
Fixpoint UpdateMetadataAfterTopicAutocreate_loop (fuel : nat) (topic : string) (attempts : nat) (sleep_ms : Z) : RM bool :=
  match attempts with
  | O => mret true
  | S attempts =>
      tell (SleepMilliseconds sleep_ms);;
      keep_running ← HandleMetadataUpdate fuel;
      if keep_running : bool then
        i ← find_topic topic;
        if 0 <=? i then mret true
        else UpdateMetadataAfterTopicAutocreate_loop fuel topic attempts (sleep_ms * 2)
      else mret false
  end.

Definition UpdateMetadataAfterTopicAutocreate (fuel : nat) (topic : string) : RM bool :=
  UpdateMetadataAfterTopicAutocreate_loop fuel topic 3 3000.

(** Whether to keep running, and the message unless it was discarded. *)
Fixpoint AutocreateTopic_loop (fuel : nat) (msg : TMsg) (n : nat) (chosen : nat) : RM (bool * option TMsg) :=
  let fail := Discard msg FailedTopicAutocreate;; mret (true, None) in
  match n with
  | O => fail
  | S n =>
      brokers ← gets KnownBrokers;
      broker ← need OutOfBounds (brokers !! chosen);
      let next := AutocreateTopic_loop fuel msg n ((chosen + 1) mod length brokers)%nat in
      connected ← ask (FetcherConnect broker.1 broker.2);
      if connected : bool then
        result ← ask (FetcherTopicAutocreate (Topic msg) (swrap 32 (KafkaSocketTimeout Conf * 1000)));
        match result with
        | AutocreateSuccess =>
            keep_running ← UpdateMetadataAfterTopicAutocreate fuel (Topic msg);
            if keep_running : bool then mret (true, Some msg)
            else DiscardOnShutdownDuringMetadataUpdate msg;; mret (false, None)
        | AutocreateFail => fail
        | TryOtherBroker => next
        end
      else next
  end.

Definition AutocreateTopic (fuel : nat) (msg : TMsg) : RM (bool * option TMsg) :=
  brokers ← gets KnownBrokers;
  massert (bool_decide (brokers ≠ []));;
  x ← ask Rand;
  result ← AutocreateTopic_loop fuel msg (length brokers) (Z.to_nat (x `mod` Z.of_nat (length brokers)));
  tell FetcherDisconnect;;
  mret result.

Definition TrackLong (msg : TMsg) : RM () :=
  now ← ask TrackerNow;
  r ← get;
  match TrackLongMsgDiscard now (PoolNow (World r)) msg (ResponseProcessor.AnomalyTracker (shared_of r)) with
  | (Ret _, a) => on_shared (with_anomalies a)
  | (Throw _, _) => throw StdException
  | (Fault f, _) => crash f
  end.

(** The checks of a message whose topic is known. *)
Definition ValidateKnownTopic (topic_index : Z) (msg : TMsg) : RM (option TMsg) :=
  if BodyTruncated msg || (MessageMaxBytes Conf <? uadd (NumBytes (KeyAndValue msg)) (SingleMsgOverhead Conf)) then
    TrackLong msg;;
    msg ← on_states (MsgEnterProcessed msg);
    destroy [msg];;
    mret None
  else
    md ← the_metadata;
    massert ((0 <=? topic_index) && (topic_index <? Z.of_nat (length (Topics md))));;
    topic_meta ← need OutOfBounds (Topics md !! Z.to_nat topic_index);
    match OkPartitions topic_meta with
    | [] => Discard msg NoAvailablePartitions;; mret None
    | _ =>
        exceeded ← on_rate_limiter (WouldExceedLimit (TopicRateConf Conf) (Topic msg) (CreationTimestamp msg));
        if exceeded : bool then Discard msg RateLimit;; mret None else mret (Some msg)
    end.

Definition ValidateNewMsg (fuel : nat) (msg : TMsg) : RM (bool * option TMsg) :=
  _ ← asserted_metadata;
  topic_index ← find_topic (Topic msg);
  '(keep_running, back, topic_index) ←
    (if (topic_index <? 0) && TopicAutocreate Conf then
       '(keep_running, back) ← AutocreateTopic fuel msg;
       match back with
       | None => mret (keep_running, None, topic_index)
       | Some msg => i ← find_topic (Topic msg); mret (keep_running, Some msg, i)
       end
     else mret (true, Some msg, topic_index));
  match back with
  | None => mret (keep_running, None)
  | Some msg =>
      if topic_index <? 0 then
        track (λ now, TrackBadTopicDiscard_msg now msg);;
        msg ← on_states (MsgEnterProcessed msg);
        destroy [msg];;
        mret (true, None)
      else back ← ValidateKnownTopic topic_index msg; mret (true, back)
  end.

(** The messages not looked at yet when the loop ends early. *)
Fixpoint RouteFinal_loop (fuel : nat) (msg_list : list TMsg) : RM (list TMsg) :=
  match msg_list with
  | [] => mret []
  | msg :: msg_list =>
      '(keep_running, back) ← ValidateNewMsg fuel msg;
      if keep_running : bool then
        match back with None => mret () | Some msg => RouteNow msg end;;
        RouteFinal_loop fuel msg_list
      else mret msg_list
  end.

Definition RouteFinalMsgs (fuel : nat) : RM () :=
  _ ← asserted_metadata;
  enabled ← gets BatcherIsEnabled;
  (if enabled : bool then batches ← on_batcher GetAllBatches; RouteAnyPartitionNow batches else mret ());;
  msg_list ← ask MsgChannelNonblockingGet;
  rest ← RouteFinal_loop fuel msg_list;
  DiscardOnShutdownDuringMetadataUpdate_list rest.

Definition DiscardFinalMsgs : RM () :=
  msg_list ← ask MsgChannelNonblockingGet;
  mfor_ (λ msg, Discard msg ServerShutdown) msg_list.

(** ** Handlers *)

Definition ContinueShutdown (fuel : nat) : RM () :=
  modify (λ r, r <| NeedToContinueShutdown := false |> <| MetadataRefreshTimer := None |>);;
  RouteFinalMsgs fuel;;
  r ← get;
  start ← need NullDeref (ShutdownStartTime r);
  on_dispatcher (disp_StartSlowShutdown start).

Definition HandlePause (fuel : nat) : RM bool :=
  r ← get;
  l ← need NullDeref (PauseRateLimiter r);
  '(delay, l) ← limiter_delay l;
  tell (SleepMilliseconds delay);;
  l ← limiter_action l;
  modify (λ r, r <| PauseRateLimiter := Some l |>);;
  on_dispatcher disp_StartFastShutdown;;
  CheckDispatcherShutdown;;
  shutdown_previously_started ← gets (λ r, bool_decide (is_Some (ShutdownStartTime r)));
  meta ← GetMetadata fuel;
  match meta with
  | None => mret false
  | Some meta =>
      SetMetadata meta true;;
      to_reroute ← EmptyDispatcher;
      md ← the_metadata;
      on_dispatcher (disp_Start md);;
      Reroute to_reroute;;
      r ← get;
      match ShutdownStartTime r with
      | None => mret ()
      | Some _ =>
          (if shutdown_previously_started : bool then mret () else RouteFinalMsgs fuel);;
          r ← get;
          start ← need NullDeref (ShutdownStartTime r);
          on_dispatcher (disp_StartSlowShutdown start)
      end;;
      mret true
  end.

Definition RespondToPause (fuel : nat) : RM bool :=
  ok ← HandlePause fuel;
  if ok : bool then InitMetadataRefreshTimer;; mret true
  else
    to_discard ← EmptyDispatcher;
    massert (bool_decide (Forall (λ l, l ≠ []) to_discard));;
    Discard_batches to_discard ServerShutdown;;
    mret false.

Definition HandleShutdownFinished : RM () :=
  CheckDispatcherShutdown;;
  to_discard ← EmptyDispatcher;
  massert (bool_decide (Forall (λ l, l ≠ []) to_discard));;
  Discard_batches to_discard ServerShutdown.

Definition UpdateNextBatchExpiry : RM () :=
  modify (λ r, r <| OptNextBatchExpiry := PerTopic_GetNextCompleteTime (PerTopicBatcher r) |>).

Definition HandleBatchExpiry (now : Z) : RM () :=
  enabled ← gets BatcherIsEnabled;
  massert enabled;;
  batches ← on_batcher (GetCompleteBatches now);
  RouteAnyPartitionNow batches;;
  UpdateNextBatchExpiry.

(** A message that the batcher took is in the batcher, or in a batch that it hands
    out; [MsgEnterBatching] changes it where it is.  The batcher does not look at the
    state of a message, so the changed message is where [AddMsg] puts it. *)
Definition BatchMsg (now : Z) (msg : TMsg) : RM (list (list TMsg) * option TMsg) :=
  b ← gets PerTopicBatcher;
  match (PerTopic_AddMsg msg now b).1 with
  | Ret (_, None) => msg ← on_states (MsgEnterBatching msg); on_batcher (PerTopic_AddMsg msg now)
  | _ => on_batcher (PerTopic_AddMsg msg now)
  end.

(** The loop over the new messages: whether to keep running, the batches that are
    complete, the messages to route, and the messages not looked at. *)
Fixpoint HandleMsgs_loop (fuel : nat) (now : Z) (msg_list : list TMsg) (ready_batches : list (list TMsg))
    (remaining : list TMsg) : RM (bool * list (list TMsg) * list TMsg * list TMsg) :=
  match msg_list with
  | [] => mret (true, ready_batches, remaining, [])
  | msg :: msg_list =>
      '(keep_running, back) ← ValidateNewMsg fuel msg;
      if keep_running : bool then
        match back with
        | None => HandleMsgs_loop fuel now msg_list ready_batches remaining
        | Some msg =>
            enabled ← gets BatcherIsEnabled;
            '(batches, back) ←
              (if bool_decide (RoutingType msg = AnyPartition) && enabled then
                 res ← BatchMsg now msg; UpdateNextBatchExpiry;; mret res
               else mret ([] : list (list TMsg), Some msg));
            HandleMsgs_loop fuel now msg_list (ready_batches ++ batches)
              (match back with Some msg => remaining ++ [msg] | None => remaining end)
        end
      else mret (false, ready_batches, remaining, msg_list)
  end.

Definition HandleMsgAvailable (fuel : nat) (now : Z) : RM () :=
  msg_list ← ask MsgChannelGet;
  '(keep_running, ready_batches, remaining, rest) ← HandleMsgs_loop fuel now msg_list [] [];
  if keep_running : bool then
    RouteAnyPartitionNow ready_batches;;
    mfor_ Route remaining
  else
    DiscardOnShutdownDuringMetadataUpdate_list rest;;
    DiscardOnShutdownDuringMetadataUpdate_list remaining;;
    DiscardOnShutdownDuringMetadataUpdate_batches ready_batches.

(** ** The main loop *)

Definition ComputeMainLoopPollTimeout : RM Z :=
  r ← get;
  match OptNextBatchExpiry r with
  | None => mret (-1)
  | Some e =>
      let expiry := uwrap 64 e in
      now ← ask GetEpochMilliseconds;
      if expiry <=? now then mret 0
      else
        let delta := expiry - now in
        if INT32_MAX <? delta then modify (λ r, r <| OptNextBatchExpiry := Some (swrap 64 now) |>);; mret 0
        else mret delta
  end.

(** The descriptors watched ([InitMainLoopPollArray]) and [poll]: the results for
    those that the world and the dispatcher make readable. *)
Definition PollMainLoop : RM (poll_events * bool * bool) :=
  r ← get;
  let shutdown_started := bool_decide (is_Some (ShutdownStartTime r)) in
  (if shutdown_started then mret () else _ ← need NullDeref (MetadataRefreshTimer r); mret ());;
  timeout ← ComputeMainLoopPollTimeout;
  on_dispatcher disp_run;;
  e ← ask (MainLoopPoll timeout);
  d ← gets Dispatcher;
  mret (mkPollEvents (pe_ShutdownRequest e) (negb shutdown_started && pe_MsgAvailable e) (pe_MdUpdateRequest e)
          (negb shutdown_started && pe_MdRefresh e),
        disp_PauseReadable d, shutdown_started && disp_ShutdownWaitReadable d).

(** An iteration of the loop: whether there is another. *)
Definition MainLoop_iteration (fuel : nat) : RM bool :=
  r ← get;
  (if NeedToContinueShutdown r then ContinueShutdown fuel else mret ());;
  '(e, pause, shutdown_finished) ← PollMainLoop;
  (if pe_ShutdownRequest e then StartShutdown else mret ());;
  if shutdown_finished : bool then HandleShutdownFinished;; mret false
  else
    go ← (if pause : bool then RespondToPause fuel else mret true);
    if negb go then mret false
    else
      go ← (if pe_MdUpdateRequest e || pe_MdRefresh e then HandleMetadataUpdate fuel else mret true);
      if negb go then mret false
      else
        now ← ask GetEpochMilliseconds;
        expiry ← gets OptNextBatchExpiry;
        match expiry with
        | None => mret ()
        | Some x => if uwrap 64 x <=? now then HandleBatchExpiry now else mret ()
        end;;
        (if pe_MsgAvailable e then HandleMsgAvailable fuel now else mret ());;
        mret true.

(** The choice of version 0 of the protocols; the overhead of a message, which the
    source takes from the protocol here, is in [Conf]. *)
Definition InitWireProtocol : RM () := on_dispatcher (disp_SetProduceProtocol true).

Definition Init (fuel : nat) : RM bool :=
  InitWireProtocol;;
  meta ← GetInitialMetadata fuel;
  match meta with
  | None => DiscardFinalMsgs;; mret false
  | Some meta =>
      SetMetadata meta true;;
      md ← the_metadata;
      on_dispatcher (disp_Start md);;
      l ← new_limiter;
      modify (λ r, r <| PauseRateLimiter := Some l |>);;
      InitMetadataRefreshTimer;;
      tell InitFinishedPush;;
      mret true
  end.

Fixpoint MainLoop (fuel iterations : nat) : RM () :=
  match iterations with
  | O => crash OutOfFuel
  | S iterations =>
      go ← MainLoop_iteration fuel;
      if go : bool then MainLoop fuel iterations else mret ()
  end.

Definition DoRun (fuel iterations : nat) : RM () :=
  modify (λ r, r <| OkShutdown := false |>);;
  started ← Init fuel;
  (if started : bool then
     MainLoop fuel iterations;;
     batches ← on_batcher GetAllBatches;
     Discard_batches batches ServerShutdown
   else mret ());;
  modify (λ r, r <| OkShutdown := true |>).

(** An exception ends the process. *)
Definition Run (fuel iterations : nat) : RM () := try_catch (DoRun fuel iterations) (λ _, crash Died).

End router.
