(* ===== verification/RouterRoute.v ===== *)
(** * Where the router sends messages

    The choice of a partition by key and of a broker by turns, and the merging of
    what the connectors have left when the dispatcher is restarted. *)
From S2P Require Import Prelude Capped Msg AnomalyTracker Batch PerTopicBatcher Metadata ResponseProcessor RateLimiter Backoff.
From S2P Require Import DispatcherApi Router.

(** ** Metadata *)

(** The topic is known and has a partition that messages can be sent to. *)
Definition available (md : TMetadata) (topic : string) (t : TTopic) : Prop :=
  ∃ i, TopicNameToIndex md !! topic = Some i ∧ Topics md !! i = Some t ∧ OkPartitions t ≠ [].

Definition leader_in_service (md : TMetadata) (p : TPartition) : Prop :=
  ∃ b, Brokers md !! BrokerIndex p = Some b ∧ InService b = true.

Lemma leader_in_service_dec md p : {leader_in_service md p} + {¬ leader_in_service md p}.
Proof.
  unfold leader_in_service. destruct (Brokers md !! BrokerIndex p) as [b |].
  - destruct (InService b) eqn:E; [left; by exists b | right]. intros (b' & [= <-] & ?). congruence.
  - right. by intros (b & ? & _).
Qed.

(** The brokers in service come first, and a connector is made for each of them. *)
Lemma in_service_index md p :
  metadata_ok md → leader_in_service md p → (BrokerIndex p < InServiceBrokerCount md)%nat.
Proof.
  intros Hm (b & Hb & Hs). destruct (mo_grouped _ Hm) as (a & z & E & _ & Hz & Ec). rewrite Ec. rewrite E in Hb.
  apply lookup_app_Some in Hb as [Hb | [Hge Hb]]; [by apply lookup_lt_Some in Hb |].
  rewrite Forall_forall in Hz. apply list_elem_of_lookup_2 in Hb. apply Hz in Hb. congruence.
Qed.

Lemma topic_of_ok md i t : metadata_ok md → Topics md !! i = Some t → topic_ok (length (Brokers md)) (TopicBrokerVec md) t.
Proof. intros [_ _ [Ht _ _] _] Hi. rewrite Forall_lookup in Ht. by apply (Ht i). Qed.

Lemma ok_partition_leader md i t p :
  metadata_ok md → Topics md !! i = Some t → p ∈ OkPartitions t → leader_in_service md p.
Proof.
  intros Hm Hi Hp. pose proof (topic_of_ok md i t Hm Hi) as Ht.
  pose proof (ok_partition_index _ _ _ _ Ht Hp) as Hlt. apply lookup_lt_is_Some_2 in Hlt as [b Hb]. exists b. split; [done |].
  destruct Hm as [_ _ [_ _ Hs] _]. apply (Hs _ _ Hb). exists t, p. split_and!; [by apply list_elem_of_lookup_2 in Hi | done | done].
Qed.

Section route.
Context `{HashOrder} {W D : Type} `{!RouterEnv W} `{!TKafkaDispatcherApi D}.
Implicit Types (r : TRouterThread W D).

Lemma lookup_topic md topic t r :
  metadata_ok md → Metadata r = Some md → available md topic t →
  ∃ i, LookupValidTopicIndex topic r = (Ret i, r) ∧ TopicNameToIndex md !! topic = Some i ∧ Topics md !! i = Some t.
Proof.
  intros Hm Hr (i & Hi & Ht & _). exists i. split; [| done]. unfold LookupValidTopicIndex, asserted_metadata. munfold. rewrite Hr.
  cbn. rewrite (FindTopicIndex_ok _ _ Hm), Hi. cbn. apply lookup_lt_Some in Ht.
  rewrite (proj2 (Z.ltb_ge _ _)), (proj2 (Z.leb_gt _ _)), Nat2Z.id by lia. done.
Qed.

Lemma valid_topic md topic t r :
  metadata_ok md → Metadata r = Some md → available md topic t → GetValidTopicMetadata topic r = (Ret t, r).
Proof.
  intros Hm Hr Ha. destruct (lookup_topic md topic t r Hm Hr Ha) as (i & E & _ & Ht).
  unfold GetValidTopicMetadata, asserted_metadata. munfold. by rewrite Hr, E, Ht.
Qed.

(** ** Partition keys *)

(** The position in the vector of all partitions that the [k]-th step of the search
    looks at. *)
Definition key_position (n : nat) (key : Z) (k : nat) : nat :=
  ((Z.to_nat (uwrap 32 key `mod` Z.of_nat n) + k) mod n)%nat.

(** What the search finds: the first partition, from that of the key on and around the
    end, whose leader is in service. *)
Definition key_choice (md : TMetadata) (all : list TPartition) (key : Z) (p : TPartition) : Prop :=
  ∃ k, (k < length all)%nat ∧ all !! key_position (length all) key k = Some p ∧ leader_in_service md p ∧
    ∀ j q, (j < k)%nat → all !! key_position (length all) key j = Some q → ¬ leader_in_service md q.

Lemma key_loop md all start r fuel k :
  (start < length all)%nat → Forall (λ p, (BrokerIndex p < length (Brokers md))%nat) all →
  (k + fuel = length all)%nat →
  (∃ j p, (k ≤ j < length all)%nat ∧ all !! ((start + j) mod length all)%nat = Some p ∧ leader_in_service md p) →
  ∃ j p, ChoosePartitionByKey_loop (W := W) (D := D) fuel md all start ((start + k) mod length all) r = (Ret p, r) ∧
    (k ≤ j < length all)%nat ∧ all !! ((start + j) mod length all)%nat = Some p ∧ leader_in_service md p ∧
    ∀ i q, (k ≤ i < j)%nat → all !! ((start + i) mod length all)%nat = Some q → ¬ leader_in_service md q.
Proof.
  intros Hs Hb. revert k. induction fuel as [| fuel IH]; intros k Hk (j0 & p0 & Hj0 & Hp0 & Hl0); [lia |].
  assert ((start + k) mod length all < length all)%nat as Hlt by (apply Nat.mod_upper_bound; lia).
  apply lookup_lt_is_Some_2 in Hlt as [p Hp]. cbn [ChoosePartitionByKey_loop]. munfold. rewrite Hp.
  rewrite Forall_lookup in Hb. pose proof (Hb _ _ Hp) as Hbp. rewrite (proj2 (Nat.ltb_lt _ _)) by done.
  apply lookup_lt_is_Some_2 in Hbp as [b Eb]. rewrite Eb. destruct (InService b) eqn:Es.
  - exists k, p. split; [done |]. split_and!; [lia | lia | done | by exists b |]. intros. lia.
  - assert (¬ leader_in_service md p) as Hnp by (intros (b' & Eb' & ?); congruence).
    assert (k ≠ j0) by (intros ->; congruence).
    assert ((((start + k) mod length all + 1) mod length all) = (start + S k) mod length all)%nat as En.
    { rewrite Nat.Div0.add_mod_idemp_l. f_equal. lia. }
    rewrite En. assert ((start + S k) mod length all ≠ start)%nat as Hne.
    { intros E. assert ((start + S k) mod length all = (start + 0) mod length all)%nat as E2.
      { rewrite Nat.add_0_r, (Nat.mod_small start) by lia. done. }
      pose proof (Nat.div_mod_eq (start + S k) (length all)). pose proof (Nat.div_mod_eq (start + 0) (length all)).
      rewrite E2 in *. assert ((start + S k) / length all = (start + 0) / length all)%nat; [| lia].
      assert (length all * ((start + S k) / length all) = length all * ((start + 0) / length all) + S k)%nat by lia.
      rewrite (Nat.div_small (start + 0)) in * by lia. nia. }
    rewrite (proj2 (Nat.eqb_neq _ _)) by done.
    destruct (IH (S k)) as (j & q & E & Hj & Hq & Hlq & Hno); [lia | exists j0, p0; split_and!; done || lia |].
    exists j, q. split; [done |]. split_and!; [lia | lia | done | done |].
    intros i q' Hi Hq'. destruct (decide (i = k)) as [-> | Hne']; [congruence |]. apply (Hno i); [lia | done].
Qed.

Lemma by_key_ok md topic t key r :
  metadata_ok md → Metadata r = Some md → available md topic t →
  ∃ p, ChoosePartitionByKey t key r = (Ret p, r) ∧ key_choice md (AllPartitions t) key p.
Proof.
  intros Hm Hr (i & Hi & Ht & Hok). pose proof (topic_of_ok md i t Hm Ht) as Hto.
  destruct (OkPartitions t) as [| p0 l] eqn:El; [done |].
  assert (p0 ∈ OkPartitions t) as Hp0 by (rewrite El; left).
  assert (p0 ∈ AllPartitions t) as Ha0 by (rewrite (to_all _ _ _ Hto); apply elem_of_app; by left).
  apply list_elem_of_lookup_1 in Ha0 as [a Ha]. pose proof (lookup_lt_Some _ _ _ Ha) as Hla.
  unfold ChoosePartitionByKey, asserted_metadata. munfold. rewrite Hr.
  pose proof (ok_partition_leader md i t p0 Hm Ht Hp0) as Hlp. destruct Hlp as (b0 & Hb0 & Hs0).
  rewrite bool_decide_true by (intros E; by rewrite E in Hb0).
  rewrite bool_decide_true by (intros E; by rewrite E in Ha).
  set (n := length (AllPartitions t)) in *. set (start := Z.to_nat (uwrap 32 key `mod` Z.of_nat n)).
  assert (start < n)%nat as Hst.
  { pose proof (Z.mod_pos_bound (uwrap 32 key) (Z.of_nat n)). lia. }
  destruct (key_loop md (AllPartitions t) start r n 0) as (j & p & E & Hj & Hp & Hlp & Hno); [done | | done | |].
  - rewrite (to_all _ _ _ Hto). apply (to_index _ _ _ Hto).
  - exists ((n + a - start) mod n)%nat, p0. split_and!; [lia | apply Nat.mod_upper_bound; lia | | by exists b0].
    fold n. rewrite Nat.Div0.add_mod_idemp_r. replace (start + (n + a - start))%nat with (a + 1 * n)%nat by lia.
    by rewrite Nat.Div0.mod_add, Nat.mod_small by lia.
  - rewrite Nat.add_0_r, Nat.mod_small in E by done. exists p. split; [exact E |]. exists j. split_and!; try done; [lia |].
    intros i' q Hi' Hq. apply (Hno i'); [lia | done].
Qed.

(** C23: a message with a partition key goes, whenever its topic has a partition
    available, to the first partition, from that of the key (as an unsigned number,
    modulo the number of partitions) on and around the end of the vector, whose leader
    is in service, and to that leader, which has a connector; the state is not changed,
    and the search never ends without a partition. *)
Theorem partition_key_choice md msg t r :
  metadata_ok md → Metadata r = Some md → available md (Topic msg) t → RoutingType msg = PartitionKey →
  ∃ p, AssignBroker msg r = (Ret (SetPartition (PartId p) msg, BrokerIndex p), r) ∧
    key_choice md (AllPartitions t) (MsgPartitionKey msg) p ∧ (BrokerIndex p < InServiceBrokerCount md)%nat.
Proof.
  intros Hm Hr Ha Hk. destruct (by_key_ok md (Topic msg) t (MsgPartitionKey msg) r Hm Hr Ha) as (p & E & Hp).
  exists p. split; [| split; [done |]].
  - unfold AssignBroker. rewrite decide_True by done. unfold ChoosePartitionByKey_topic, asserted_metadata. munfold. rewrite Hr.
    by rewrite (valid_topic md _ t r Hm Hr Ha), E.
  - destruct Hp as (k & _ & _ & Hl & _). by apply in_service_index.
Qed.

(** ** Turns *)

Definition counter_of (r : TRouterThread W D) (i : nat) : Z := default 0 (RouteCounters r !! i).

Definition with_counter (i : nat) (c : Z) r : TRouterThread W D := r <| RouteCounters := <[i := c]> (RouteCounters r) |>.

Lemma any_partition_step md topic t i r :
  metadata_ok md → Metadata r = Some md → TopicNameToIndex md !! topic = Some i → Topics md !! i = Some t → OkPartitions t ≠ [] →
  length (RouteCounters r) = length (Topics md) → 0 ≤ counter_of r i →
  ∃ p, OkPartitions t !! Z.to_nat (uadd (counter_of r i) 1 `mod` Z.of_nat (length (OkPartitions t))) = Some p ∧
    ChooseAnyPartitionBrokerIndex topic r = (Ret (BrokerIndex p), with_counter i (uadd (counter_of r i) 1) r).
Proof.
  intros Hm Hr Hi Ht Hok Hc H0. set (n := length (OkPartitions t)). set (c := uadd (counter_of r i) 1).
  assert (0 < n)%nat as Hn by (unfold n; destruct (OkPartitions t); [done | cbn; lia]).
  assert (Z.to_nat (c `mod` Z.of_nat n) < n)%nat as Hlt by (pose proof (Z.mod_pos_bound c (Z.of_nat n)); lia).
  apply lookup_lt_is_Some_2 in Hlt as [p Hp]. exists p. split; [done |].
  destruct (lookup_topic md topic t r Hm Hr) as (i' & E & Hi' & _); [by exists i |]. assert (i' = i) as -> by congruence.
  assert (is_Some (RouteCounters r !! i)) as [c0 Hc0].
  { apply lookup_lt_is_Some_2. rewrite Hc. by apply lookup_lt_Some in Ht. }
  unfold ChooseAnyPartitionBrokerIndex, asserted_metadata. munfold. rewrite Hr, E, Ht.
  rewrite bool_decide_true by done. rewrite bool_decide_true by done. rewrite Hc0.
  assert (uadd c0 1 = c) as -> by (unfold c, counter_of; by rewrite Hc0). fold n. by rewrite Hp.
Qed.

(** The positions of [n] turns in a row. *)
Lemma turns_perm (c : Z) (n : nat) :
  (λ j, Z.to_nat ((c + Z.of_nat j) `mod` Z.of_nat n)) <$> seq 0 n ≡ₚ seq 0 n.
Proof.
  destruct (decide (n = 0%nat)) as [-> | Hn]; [done |].
  apply submseteq_length_Permutation; [| by rewrite length_fmap].
  apply NoDup_submseteq.
  - apply NoDup_fmap_2_strong; [| apply NoDup_seq]. intros x y [_ Hx]%elem_of_seq [_ Hy]%elem_of_seq E.
    pose proof (Z.mod_pos_bound (c + Z.of_nat x) (Z.of_nat n)). pose proof (Z.mod_pos_bound (c + Z.of_nat y) (Z.of_nat n)).
    apply Z2Nat.inj in E; [| lia..].
    pose proof (Z.div_mod (c + Z.of_nat x) (Z.of_nat n)). pose proof (Z.div_mod (c + Z.of_nat y) (Z.of_nat n)).
    rewrite E in *. set (q := (c + Z.of_nat x) `div` Z.of_nat n) in *. set (q' := (c + Z.of_nat y) `div` Z.of_nat n) in *.
    assert (Z.of_nat x - Z.of_nat y = Z.of_nat n * (q - q')) as Eq by lia.
    destruct (Z.lt_trichotomy q q') as [? | [? | ?]]; nia.
  - intros k (j & -> & _)%list_elem_of_fmap. apply elem_of_seq.
    pose proof (Z.mod_pos_bound (c + Z.of_nat j) (Z.of_nat n)). lia.
Qed.

Lemma lookups_all {A} (l : list A) : (λ i, l !! i) <$> seq 0 (length l) = Some <$> l.
Proof.
  apply list_eq. intros i. rewrite !list_lookup_fmap. destruct (decide (i < length l)%nat) as [Hi | Hi].
  - rewrite lookup_seq_lt by done. cbn. destruct (lookup_lt_is_Some_2 l i Hi) as [x ->]. done.
  - rewrite lookup_seq_ge, (lookup_ge_None_2 l i) by lia. done.
Qed.

(** The result of [m] turns, from the counter's value on. *)
Lemma any_partition_turns md topic t i r m :
  metadata_ok md → Metadata r = Some md → TopicNameToIndex md !! topic = Some i → Topics md !! i = Some t → OkPartitions t ≠ [] →
  length (RouteCounters r) = length (Topics md) → 0 ≤ counter_of r i → counter_of r i + Z.of_nat m < 2 ^ 64 →
  ∃ ps r', mmap (λ _ : nat, ChooseAnyPartitionBrokerIndex topic) (seq 0 m) r = (Ret (BrokerIndex <$> ps), r') ∧
    Some <$> ps = (λ j, OkPartitions t !! Z.to_nat ((counter_of r i + 1 + Z.of_nat j) `mod` Z.of_nat (length (OkPartitions t)))) <$> seq 0 m ∧
    RouteCounters r' = (if decide (m = 0%nat) then RouteCounters r else <[i := counter_of r i + Z.of_nat m]> (RouteCounters r)).
Proof.
  intros Hm Hr Hi Ht Hok. revert r Hr. generalize 0%nat at 1. induction m as [| m IH]; intros s r Hr Hc H0 Hlt.
  { exists [], r. done. }
  destruct (any_partition_step md topic t i r Hm Hr Hi Ht Hok Hc H0) as (p & Hp & E). rewrite uadd_small in Hp, E by lia.
  assert (is_Some (RouteCounters r !! i)) as [c0 Hc0].
  { apply lookup_lt_is_Some_2. rewrite Hc. by apply lookup_lt_Some in Ht. }
  set (r1 := with_counter i (counter_of r i + 1) r) in *.
  assert (counter_of r1 i = counter_of r i + 1) as Ec.
  { unfold counter_of at 1, r1, with_counter. cbn. by rewrite list_lookup_insert_eq by (by apply lookup_lt_Some in Hc0). }
  destruct (IH (S s) r1) as (ps & r' & E2 & Hps & Hrc); [done | by cbn; rewrite length_insert | lia | lia |].
  exists (p :: ps), r'. split; [| split].
  - cbn [seq mmap]. rewrite (bind_Ret _ _ _ _ _ E). by rewrite (bind_Ret _ _ _ _ _ E2).
  - cbn [seq]. rewrite !fmap_cons, Hps. f_equal; [by rewrite Z.add_0_r |]. rewrite <- fmap_S_seq, <- list_fmap_compose.
    apply list_fmap_ext. intros _ j _. cbn. rewrite Ec. do 3 f_equal. lia.
  - rewrite Hrc. destruct (decide (S m = 0%nat)) as [| _]; [done |]. change (RouteCounters r1) with (<[i := counter_of r i + 1]> (RouteCounters r)).
    destruct (decide (m = 0%nat)) as [-> | _]; [done |]. rewrite list_insert_insert_eq, Ec. f_equal. lia.
Qed.

(** C24: as many routings of a topic's AnyPartition messages in a row as the topic has
    partitions available go to their leaders, once for each partition: every broker
    gets the share of the messages that it has of the partitions.  Each of the brokers
    is in service and has a connector. *)
Theorem any_partition_round_robin md topic t i r :
  metadata_ok md → Metadata r = Some md → TopicNameToIndex md !! topic = Some i → Topics md !! i = Some t → OkPartitions t ≠ [] →
  length (RouteCounters r) = length (Topics md) → 0 ≤ counter_of r i →
  counter_of r i + Z.of_nat (length (OkPartitions t)) < 2 ^ 64 →
  ∃ bs r', mmap (λ _ : nat, ChooseAnyPartitionBrokerIndex topic) (seq 0 (length (OkPartitions t))) r = (Ret bs, r') ∧
    bs ≡ₚ BrokerIndex <$> OkPartitions t ∧ Forall (λ b, (b < InServiceBrokerCount md)%nat) bs ∧
    RouteCounters r' = <[i := counter_of r i + Z.of_nat (length (OkPartitions t))]> (RouteCounters r).
Proof.
  intros Hm Hr Hi Ht Hok Hc H0 Hlt.
  destruct (any_partition_turns md topic t i r (length (OkPartitions t)) Hm Hr Hi Ht Hok Hc H0 Hlt) as (ps & r' & E & Hps & Hrc).
  assert (ps ≡ₚ OkPartitions t) as Hp.
  { assert (Some <$> ps ≡ₚ Some <$> OkPartitions t) as Hs.
    { rewrite Hps, <- (lookups_all (OkPartitions t)).
      rewrite <- (turns_perm (counter_of r i + 1) (length (OkPartitions t))) at 2. by rewrite <- list_fmap_compose. }
    apply (fmap_Permutation (default (mkPartition 0 0 0))) in Hs. by rewrite <- !list_fmap_compose, !list_fmap_id in Hs. }
  exists (BrokerIndex <$> ps), r'. split; [done |]. split; [by rewrite Hp |]. split.
  - apply Forall_fmap, Forall_forall. intros p. rewrite Hp. intros Hin. cbn.
    apply in_service_index; [done |]. by apply (ok_partition_leader md i t).
  - rewrite Hrc, decide_False; [done |]. by destruct (OkPartitions t).
Qed.

(** ** Merging the lists of the brokers *)

Definition nonempty {A} (l : list A) : Prop := l ≠ [].

#[local] Instance nonempty_dec {A} (l : list A) : Decision (nonempty l).
Proof. destruct l; [right; intros Hn; by apply Hn | left; done]. Defined.

Lemma nonempty_inv {A} (l : list A) : nonempty l → ∃ x k, l = x :: k.
Proof. destruct l as [| x k]; [intros Hn; by destruct Hn | by exists x, k]. Qed.

Lemma swap_at_last {A} (a b e : list A) (x y : A) :
  swap_at (length a) (length (a ++ x :: b)) (a ++ x :: b ++ y :: e) = Some (a ++ y :: b ++ x :: e).
Proof.
  unfold swap_at. rewrite (list_lookup_middle a (b ++ y :: e) x (length a) eq_refl). cbn [mbind option_bind].
  assert ((a ++ x :: b ++ y :: e) !! length (a ++ x :: b) = Some y) as ->.
  { change (a ++ x :: b ++ y :: e) with (a ++ (x :: b) ++ y :: e).
    rewrite app_assoc. by apply list_lookup_middle. }
  cbn [mbind option_bind]. f_equal. rewrite insert_app_r_alt, Nat.sub_diag by lia. cbn.
  change (a ++ y :: b ++ y :: e) with (a ++ (y :: b) ++ y :: e). rewrite app_assoc, insert_app_r_alt by (rewrite !length_app; cbn; lia).
  rewrite !length_app. cbn [length]. rewrite Nat.sub_diag. cbn. by rewrite <- app_assoc.
Qed.

(** A pass: the lists [a] are still to be looked at, [b] are those looked at that are
    not empty, and [e] are empty. *)
Lemma MergeRound_ok r (a b e : list (list (list TMsg))) result :
  Forall nonempty a → Forall nonempty b →
  ∃ b' e', MergeRound (W := W) (D := D) (length a) (length (a ++ b)) (a ++ b ++ e) result r =
      (Ret (length b', b' ++ e', result ++ omap head (reverse a)), r) ∧
    b' ≡ₚ filter nonempty (tail <$> a) ++ b.
Proof.
  revert b e result. induction a as [| l a IH] using rev_ind; intros b e result Ha Hb.
  { exists b, e. cbn. by rewrite app_nil_r. }
  apply Forall_app in Ha as [Ha Hl]. rewrite Forall_singleton in Hl. destruct (nonempty_inv l Hl) as (x & l0 & ->). rename l0 into l.
  rewrite length_app, Nat.add_1_r. cbn [MergeRound]. rewrite <- !app_assoc. cbn [app].
  assert ((a ++ (x :: l) :: b ++ e) !! length a = Some (x :: l)) as El by (by apply list_lookup_middle).
  munfold. rewrite El. rewrite insert_app_r_alt, Nat.sub_diag by lia. cbn [insert list_insert].
  rewrite reverse_snoc. cbn [omap list_omap head]. rewrite fmap_app, filter_app. cbn [fmap list_fmap tail].
  destruct l as [| y l].
  - rewrite filter_cons_False, filter_nil, app_nil_r by (intros Hn; by apply Hn).
    destruct b as [| z b _] using rev_ind.
    + cbn [app]. rewrite !app_nil_r. rewrite length_app, Nat.add_1_r. cbn [Nat.sub]. rewrite Nat.sub_0_r.
      assert (swap_at (length a) (length a) (a ++ [] :: e) = Some (a ++ [] :: e)) as ->.
      { unfold swap_at. rewrite (list_lookup_middle a e [] (length a) eq_refl). cbn. f_equal. rewrite !insert_app_r_alt, !Nat.sub_diag by lia. done. }
      rewrite Nat.eqb_refl. cbn [orb].
      destruct (IH [] ([] :: e) (result ++ [x]) Ha (Forall_nil_2 _)) as (b' & e' & E & Hp). cbn [app] in E. rewrite app_nil_r in E.
      exists b', e'. rewrite E. split; [by rewrite <- app_assoc | by rewrite app_nil_r in Hp].
    + apply Forall_app in Hb as [Hb Hz]. rewrite Forall_singleton in Hz. rewrite <- !app_assoc. cbn [app].
      replace (length (a ++ [x] :: b ++ [z]) - 1)%nat with (length (a ++ [] :: b)) by (rewrite !length_app; cbn; rewrite length_app; cbn; lia).
      rewrite swap_at_last. rewrite (list_lookup_middle a (b ++ [] :: e) z (length a) eq_refl).
      rewrite (proj2 (Nat.eqb_neq _ _)), (proj2 (Nat.ltb_lt _ _)) by (rewrite length_app; cbn; lia).
      rewrite bool_decide_true by (intros [= ->]; done). cbn [orb andb].
      destruct (IH (z :: b) ([] :: e) (result ++ [x]) Ha) as (b' & e' & E & Hp); [by constructor |].
      exists b', e'. rewrite !length_app in *. cbn [length app] in *. rewrite E. split; [by rewrite <- app_assoc |].
      rewrite Hp. by rewrite (Permutation_app_comm b [z]).
  - rewrite filter_cons_True by done. rewrite filter_nil.
    destruct (IH ((y :: l) :: b) e (result ++ [x]) Ha) as (b' & e' & E & Hp); [by constructor |].
    exists b', e'. rewrite !length_app in *. cbn [length app] in *. rewrite E. split; [by rewrite <- app_assoc |].
    rewrite Hp, <- app_assoc. done.
Qed.

Lemma heads_tails (a : list (list (list TMsg))) :
  Forall nonempty a → concat a ≡ₚ omap head (reverse a) ++ concat (filter nonempty (tail <$> a)).
Proof.
  intros Ha. assert (omap head (reverse a) ≡ₚ omap head a) as ->.
  { clear. induction a as [| l a IH]; [done |]. rewrite reverse_cons, omap_app, IH. cbn.
    destruct (head l); cbn; [by rewrite Permutation_app_comm | by rewrite app_nil_r]. }
  induction Ha as [| l a Hl Ha IH]; [done |]. destruct (nonempty_inv l Hl) as (x & l0 & ->). rename l0 into l.
  cbn [concat omap list_omap head fmap list_fmap tail app]. rewrite IH, filter_cons. destruct l as [| y l].
  - rewrite decide_False by (intros Hn; by apply Hn). done.
  - rewrite decide_True by done. cbn. constructor. 
    change (y :: l ++ omap head a ++ concat (filter nonempty (tail <$> a))) with ((y :: l) ++ omap head a ++ concat (filter nonempty (tail <$> a))).
    change (y :: l ++ concat (filter nonempty (tail <$> a))) with ((y :: l) ++ concat (filter nonempty (tail <$> a))).
    by rewrite Permutation_app_swap_app.
Qed.

Lemma tails_shorter (a : list (list (list TMsg))) :
  Forall nonempty a → a ≠ [] → (length (concat (filter nonempty (tail <$> a))) < length (concat a))%nat.
Proof.
  intros Ha Hne. rewrite (Permutation_length (heads_tails a Ha)), length_app.
  assert (0 < length (omap head (reverse a)))%nat; [| lia].
  destruct a as [| l a]; [done |]. rewrite reverse_cons, omap_app. apply Forall_cons in Ha as [Hl _]. destruct (nonempty_inv l Hl) as (x & l0 & ->).
  rewrite length_app. cbn. lia.
Qed.

Lemma MergeBrokerLists_ok r fuel (v : list (list (list TMsg))) result :
  Forall nonempty v → (length (concat v) ≤ fuel)%nat →
  ∃ out, MergeBrokerLists (W := W) (D := D) fuel v result r = (Ret (result ++ out), r) ∧
    out ≡ₚ concat v ∧ Forall (λ l, l `sublist_of` out) v.
Proof.
  revert v result. induction fuel as [| fuel IH]; intros v result Hv Hf.
  { destruct v as [| l v]; [exists []; cbn; by rewrite app_nil_r |]. apply Forall_cons in Hv as [Hl _].
    destruct (nonempty_inv l Hl) as (x & l0 & ->). cbn in Hf. lia. }
  destruct v as [| l v]; [exists []; cbn; by rewrite app_nil_r |]. set (a := l :: v) in *.
  change (MergeBrokerLists (S fuel) a result r) with
    ((MergeRound (W := W) (D := D) (length a) (length a) a result ≫= λ '(n, v, res), MergeBrokerLists fuel (take n v) res) r).
  destruct (MergeRound_ok r a [] [] result Hv (Forall_nil_2 _)) as (b' & e' & E & Hp). cbn [app] in E. rewrite !app_nil_r in E. rewrite app_nil_r in Hp.
  rewrite (bind_Ret _ _ _ _ _ E). rewrite take_app_length.
  destruct (IH b' (result ++ omap head (reverse a))) as (out & E2 & Hout & Hsub).
  - apply Forall_forall. intros k. rewrite Hp, list_elem_of_filter. by intros [? _].
  - rewrite Hp. pose proof (tails_shorter a Hv ltac:(done)). lia.
  - exists (omap head (reverse a) ++ out). rewrite E2, <- app_assoc. split; [done |]. split.
    + rewrite Hout, Hp. symmetry. by apply heads_tails.
    + apply Forall_forall. intros k Hk. rewrite Forall_forall in Hv. destruct (nonempty_inv k (Hv k Hk)) as (x & k0 & ->). rename k0 into k.
      assert (x ∈ omap head (reverse a)) as (h1 & h2 & ->)%list_elem_of_split.
      { apply list_elem_of_omap. exists (x :: k). split; [by apply elem_of_reverse | done]. }
      rewrite <- app_assoc. apply sublist_inserts_l. cbn. apply sublist_skip, sublist_inserts_l.
      destruct k as [| y k]; [apply sublist_nil_l |]. rewrite Forall_forall in Hsub. apply Hsub. rewrite Hp.
      apply list_elem_of_filter. split; [done |]. apply list_elem_of_fmap. by exists (x :: y :: k).
Qed.
End route.
