(* ===== verification/DispatcherContract.v ===== *)
(** * What the dispatcher promises to the router

    A dispatcher accepts a message for a broker that has a connector, keeps it or
    brings it to its end, and keeps the counts of the message state tracker, which it
    shares with the rest of the server, exact.  The router's theorems are proved from
    this contract. *)
From S2P Require Import Prelude FieldAccess StreamReader Capped Msg AnomalyTracker Batch PerTopicBatcher BrokerMsgQueue.
From S2P Require Import Metadata Wire ProduceResponse StdMap ResponseProcessor ProduceRequest RequestFactory RequestBytes.
From S2P Require Import RequestSize Connector ConnectorInv RateLimiter Backoff DispatcherApi Router RouterRoute.

(** The room that messages take in a produce request, at most. *)
Definition load (l : list TMsg) : Z := sumZ ((λ m, weight m `max` 0) <$> l).

Lemma load_app l k : load (l ++ k) = load l + load k.
Proof. unfold load. by rewrite fmap_app, sumZ_app. Qed.

Lemma load_nonneg l : 0 ≤ load l.
Proof. apply sumZ_nonneg, Forall_fmap, Forall_true. intros m. cbn. lia. Qed.

#[global] Instance load_Permutation : Proper ((≡ₚ) ==> eq) load.
Proof. intros l k Hp. unfold load. by rewrite Hp. Qed.

(** A message that a produce request to some broker can carry, by the metadata. *)
Record deliverable (max_bytes : Z) (md : TMetadata) (m : TMsg) : Prop := {
  dv_topic : ∃ t, available md (Topic m) t;
  dv_name : Topic m ≠ "";
  dv_sized : sized m;
  dv_fits : data_size m + RequestFactory.SingleMsgOverhead ≤ max_bytes
}.

(** A message and a broker that the router may give it to. *)
Record routed (max_bytes : Z) (md : TMetadata) (m : TMsg) (i : nat) : Prop := {
  ro_ok : deliverable max_bytes md m;
  ro_broker : (i < InServiceBrokerCount md)%nat;
  ro_leads : RoutingType m = AnyPartition → ∃ t p, available md (Topic m) t ∧ p ∈ OkPartitions t ∧ Metadata.BrokerIndex p = i
}.

(** [dc md o live acc d]: the dispatcher runs with the metadata [md]; [live] are the
    messages that it holds and [o] all others that the tracker counts; [acc] are the
    messages it has accepted, each of which is in [live] or has come to its end. *)
Class DispatcherContract (max_bytes : Z) (D : Type) `{!TKafkaDispatcherApi D} := {
  dc : TMetadata → list TMsg → list TMsg → list TMsg → D → Prop;
  dc_set_shared s d : disp_shared (disp_set_shared s d) = s;
  dc_same_shared d : disp_set_shared (disp_shared d) d = d;
  dc_tracker md o live acc d : dc md o live acc d →
    tracker_ok (ResponseProcessor.MsgStateTracker (disp_shared d)) (o ++ live) ∧ Z.of_nat (length (o ++ live)) < 2 ^ 64;
  dc_elsewhere md o live acc d o' s : dc md o live acc d →
    tracker_ok (ResponseProcessor.MsgStateTracker s) (o' ++ live) →
    (length o' ≤ length o)%nat → load o' ≤ load o →
    dc md o' live acc (disp_set_shared s d);
  dc_Dispatch md o live acc d now m i : dc md ([m] ++ o) live acc d → routed max_bytes md m i →
    Msg.State m = New → Timestamp m ≤ INT64_MAX →
    ∃ live' d', disp_Dispatch now m i d = (Ret (), d') ∧ dc md o live' ([m] ++ acc) d' ∧
      Destroyed (disp_shared d') = Destroyed (disp_shared d);
  dc_DispatchNow md o live acc d now m i : dc md ([m] ++ o) live acc d → routed max_bytes md m i →
    legal SendWait (Msg.State m) = true →
    ∃ live' d', disp_DispatchNow now m i d = (Ret (), d') ∧ dc md o live' ([m] ++ acc) d' ∧
      Destroyed (disp_shared d') = Destroyed (disp_shared d);
  dc_DispatchNow_batch md o live acc d now bs i : dc md (concat bs ++ o) live acc d → Forall one_topic bs →
    Forall (λ m, routed max_bytes md m i) (concat bs) → Forall (λ m, legal SendWait (Msg.State m) = true) (concat bs) →
    ∃ live' d', disp_DispatchNow_batch now bs i d = (Ret (), d') ∧ dc md o live' (concat bs ++ acc) d' ∧
      Destroyed (disp_shared d') = Destroyed (disp_shared d)
}.
