(* ===== verification/RouterMsgs.v ===== *)
(** * The router keeps every message

    The invariant of the router's state while it takes, checks, batches and routes
    messages, with a dispatcher that keeps its contract: every new message is
    discarded for a reason, kept by the batcher, or accepted by the dispatcher for a
    broker that leads one of its topic's partitions. *)
From S2P Require Import Prelude FieldAccess StreamReader Capped Msg AnomalyTracker Batch PerTopicBatcher BrokerMsgQueue.
From S2P Require Import Metadata Wire ProduceResponse StdMap ResponseProcessor ProduceRequest RequestFactory RequestBytes.
From S2P Require Import RequestSize Connector ConnectorInv RateLimiter Backoff DispatcherApi Router RouterRoute DispatcherContract.

Section msgs.
Context `{HashOrder} {W D : Type} `{!RouterEnv W} `{!TKafkaDispatcherApi D} (Conf : router_conf).
Context {Hcontract : DispatcherContract (Router.MessageMaxBytes Conf) D}.
Implicit Types (r : TRouterThread W D).

Notation deliverable := (DispatcherContract.deliverable (Router.MessageMaxBytes Conf)).
Notation routed := (DispatcherContract.routed (Router.MessageMaxBytes Conf)).

(** Messages as the batcher has them. *)
Definition batched (md : TMetadata) (m : TMsg) : Prop := Msg.State m = Batching ∧ RoutingType m = AnyPartition ∧ deliverable md m.

(** The states of the rate limiter: no interval is zero, and a limit is one of the
    configuration. *)
Definition limits_ok (l : gmap string TTopicState) : Prop :=
  map_Forall (λ topic s, TSInterval s ≠ 0 ∧ (Enable s = true → is_Some (MaxCount (conf_of (TopicRateConf Conf) topic)))) l.

(** [bm] are the messages in the batcher, [o] those that neither the batcher nor the
    dispatcher has; [tmp] is the map of the batches on their way. *)
Record router_inv (md : TMetadata) (o live acc bm : list TMsg) (tmp : gmap nat (list (list TMsg))) r : Prop := {
  ri_md : Router.Metadata r = Some md;
  ri_ok : metadata_ok md;
  ri_counters : length (RouteCounters r) = length (Topics md);
  ri_nonneg : Forall (λ c, 0 ≤ c) (RouteCounters r);
  ri_pt : pt_inv (Router.PerTopicBatcher r);
  ri_rep : pt_rep (Router.PerTopicBatcher r) bm;
  ri_off : BatcherIsEnabled r = false → bm = [];
  ri_batched : Forall (batched md) bm;
  ri_tmp : TmpBrokerMap r = tmp;
  ri_disp : dc md (bm ++ o) live acc (Dispatcher r);
  ri_limits : limits_ok (MsgRateLimiter r)
}.

(** ** Changes of the shared state *)

Lemma router_inv_shared md o live acc bm tmp r o' s :
  router_inv md o live acc bm tmp r → tracker_ok (ResponseProcessor.MsgStateTracker s) (bm ++ o' ++ live) →
  (length o' ≤ length o)%nat → load o' ≤ load o → router_inv md o' live acc bm tmp (with_shared s r).
Proof.
  intros [H1 H2 H3 H4 H5 H6 H7 H8 H9 H10 H11] Ht Hl Hw. split; try done.
  eapply dc_elsewhere; [exact H10 | by rewrite <- app_assoc | rewrite !length_app; lia | rewrite !load_app; lia].
Qed.

Lemma router_inv_tracker md o live acc bm tmp r :
  router_inv md o live acc bm tmp r → tracker_ok (ResponseProcessor.MsgStateTracker (shared_of r)) (bm ++ o ++ live).
Proof. intros [_ _ _ _ _ _ _ _ _ H10 _]. apply dc_tracker in H10 as [H10 _]. by rewrite <- app_assoc in H10. Qed.

Lemma shared_with s r : shared_of (with_shared s r) = s.
Proof. apply dc_set_shared. Qed.

(** A change of the anomaly tracker. *)
Lemma router_inv_same md o live acc bm tmp r s :
  router_inv md o live acc bm tmp r →
  ResponseProcessor.MsgStateTracker s = ResponseProcessor.MsgStateTracker (shared_of r) →
  router_inv md o live acc bm tmp (with_shared s r).
Proof. intros Hi Hs. eapply router_inv_shared; [done | rewrite Hs; by eapply router_inv_tracker | lia | lia]. Qed.

(** A message up to its state, its count of failed attempts and its partition. *)
Definition who (m : TMsg) : TMsg := core (SetPartition 0 m).

Lemma who_ident m m' : ident m = ident m' → who m = who m'.
Proof.
  intros E. assert (∀ x, who (ident x) = who x) as Hw.
  { intros x. unfold ident, unassigned. by destruct (any_partition x). }
  by rewrite <- (Hw m), E.
Qed.

Lemma who_SetState s m : who (SetState s m) = who m.
Proof. done. Qed.

Lemma who_states s (l : list TMsg) : who <$> (SetState s <$> l) = who <$> l.
Proof. rewrite <- list_fmap_compose. by apply list_fmap_ext. Qed.

Lemma track_ok md o live acc bm tmp r f :
  router_inv md o live acc bm tmp r →
  ∃ r', track f r = (Ret (), r') ∧ router_inv md o live acc bm tmp r' ∧ BatcherIsEnabled r' = BatcherIsEnabled r ∧
    Destroyed (shared_of r') = Destroyed (shared_of r) ∧
    ResponseProcessor.MsgStateTracker (shared_of r') = ResponseProcessor.MsgStateTracker (shared_of r).
Proof.
  intros Hi. unfold track, ask, on_shared. munfold. destruct (TrackerNow (World r)) as [now w].
  eexists. split; [reflexivity |]. split; [| split; [done |]].
  - apply router_inv_same; [| done]. destruct Hi. by split.
  - by rewrite shared_with.
Qed.

Lemma track_all_ok {A} md o live acc bm tmp r (f : A → Z → TAnomalyTracker → TAnomalyTracker) (l : list A) :
  router_inv md o live acc bm tmp r →
  ∃ r', mfor_ (λ x, track (f x)) l r = (Ret (), r') ∧ router_inv md o live acc bm tmp r' ∧ BatcherIsEnabled r' = BatcherIsEnabled r ∧
    Destroyed (shared_of r') = Destroyed (shared_of r).
Proof.
  revert r. induction l as [| x l IH]; intros r Hi; [by exists r |].
  destruct (track_ok md o live acc bm tmp r (f x) Hi) as (r1 & E1 & Hi1 & Hb1 & Hd1 & _).
  destruct (IH r1 Hi1) as (r2 & E2 & Hi2 & Hb2 & Hd2). exists r2. cbn. rewrite (bind_Ret _ _ _ _ _ E1).
  split; [done |]. split; [done |]. split; congruence.
Qed.

(** ** Messages that are processed *)

Lemma weight_SetState s m : weight (SetState s m) = weight m.
Proof. done. Qed.

Lemma ident_SetState_one s m : ident (SetState s m) = ident m.
Proof. apply ident_forget. by destruct m. Qed.

(** The messages [ms] of one topic come to their end. *)
Lemma process_list_ok md ms o live acc bm tmp r :
  router_inv md (ms ++ o) live acc bm tmp r → (∃ t, Forall (λ m, Topic m = t) ms) →
  Forall (λ m, legal Processed (Msg.State m) = true ∧ sized m) ms →
  ∃ r', (l ← on_states (MsgEnterProcessed_list ms); destroy l) r = (Ret (), r') ∧
    router_inv md o live acc bm tmp r' ∧ BatcherIsEnabled r' = BatcherIsEnabled r ∧
    Destroyed (shared_of r') = reverse (SetState Processed <$> ms) ++ Destroyed (shared_of r).
Proof.
  intros Hi [t Ht] Hms. pose proof (router_inv_tracker _ _ _ _ _ _ _ Hi) as Htr.
  destruct (EnterList_ok Processed (ResponseProcessor.MsgStateTracker (shared_of r)) ms (bm ++ o ++ live)) as (t' & E & Ht').
  { eapply tracker_ok_perm; [| exact Htr]. perm_lia. }
  { exists t. rewrite Forall_forall in *. intros m Hm. split; [by apply Ht | by apply Hms]. }
  assert (Forall sized ms) as Hsz by (eapply Forall_impl; [exact Hms | by intros m [_ ?]]).
  unfold on_states, destroy, on_shared, zoom, no_throw. munfold. unfold MsgEnterProcessed_list.
  change CountProcessedEntered with (count_of Processed). rewrite E. eexists. split; [reflexivity |].
  rewrite !shared_with. split; [| split; [done | done]].
  apply (router_inv_shared _ o); [| | lia | lia].
  - eapply router_inv_shared; [exact Hi | | rewrite !length_app; lia | rewrite load_app; pose proof (load_nonneg ms); lia].
    cbn. apply (tracker_ok_processed _ (SetState Processed <$> ms)); [by apply Forall_fmap, Forall_forall | done].
  - cbn. apply (tracker_ok_processed _ (SetState Processed <$> ms)); [by apply Forall_fmap, Forall_forall | done].
Qed.

Lemma process_one_ok md m o live acc bm tmp r :
  router_inv md ([m] ++ o) live acc bm tmp r → legal Processed (Msg.State m) = true → sized m →
  ∃ r', (m' ← on_states (MsgEnterProcessed m); destroy [m']) r = (Ret (), r') ∧
    router_inv md o live acc bm tmp r' ∧ BatcherIsEnabled r' = BatcherIsEnabled r ∧
    Destroyed (shared_of r') = SetState Processed m :: Destroyed (shared_of r).
Proof.
  intros Hi Hl Hs. destruct (process_list_ok md [m] o live acc bm tmp r Hi) as (r' & E & Hr); [exists (Topic m); by apply Forall_cons_2 | by apply Forall_cons_2 |].
  exists r'. split; [| done]. rewrite <- E. unfold MsgEnterProcessed_list, MsgEnterProcessed. unfold on_states, zoom, no_throw. munfold.
  rewrite EnterOne_EnterList. by destruct (EnterOne _ _ m _) as [[m' | [] |] t].
Qed.

Lemma Discard_ok md m reason o live acc bm tmp r :
  router_inv md ([m] ++ o) live acc bm tmp r → legal Processed (Msg.State m) = true → sized m →
  ∃ r', Discard m reason r = (Ret (), r') ∧ router_inv md o live acc bm tmp r' ∧ BatcherIsEnabled r' = BatcherIsEnabled r ∧
    Destroyed (shared_of r') = SetState Processed m :: Destroyed (shared_of r).
Proof.
  intros Hi Hl Hs. unfold Discard.
  destruct (track_ok _ _ _ _ _ _ r (λ now, TrackDiscard now m reason) Hi) as (r1 & E1 & Hi1 & Hb1 & Hd1 & _).
  destruct (process_one_ok md m o live acc bm tmp r1 Hi1 Hl Hs) as (r2 & E2 & Hi2 & Hb2 & Hd2).
  exists r2. rewrite (bind_Ret _ _ _ _ _ E1), E2. split; [done |]. split; [done |]. split; congruence.
Qed.

(** ** New messages *)

(** What the input threads put into the channel. *)
Record input_ok (m : TMsg) : Prop := {
  io_state : Msg.State m = New;
  io_name : Topic m ≠ "";
  io_sized : sized m;
  io_bytes : data_size m + Router.SingleMsgOverhead Conf < 2 ^ 64;
  io_time : Timestamp m ≤ INT64_MAX;
  io_readable : ∀ (w : W) now t, ∃ t', TrackLongMsgDiscard now (PoolNow w) m t = (Ret (), t')
}.

(** The reasons for which a new message is discarded. *)
Definition refused (md : TMetadata) (m : TMsg) : Prop :=
  (¬ ∃ t, available md (Topic m) t) ∨ BodyTruncated m = true ∨
  Router.MessageMaxBytes Conf < data_size m + Router.SingleMsgOverhead Conf ∨
  is_Some (MaxCount (conf_of (TopicRateConf Conf) (Topic m))).

Context (Hrate : rate_conf_ok (TopicRateConf Conf)) (Hov : Router.SingleMsgOverhead Conf = RequestFactory.SingleMsgOverhead).

Lemma WouldExceedLimit_ok topic t l :
  limits_ok l → ∃ b l', WouldExceedLimit (TopicRateConf Conf) topic t l = (Ret b, l') ∧ limits_ok l' ∧
    (b = true → is_Some (MaxCount (conf_of (TopicRateConf Conf) topic))).
Proof.
  intros Hl. unfold WouldExceedLimit. destruct (RateLimitingIsEnabled _); [| by exists false, l].
  assert (∃ s l', GetTopicState (TopicRateConf Conf) topic t l = (Ret s, l') ∧ limits_ok l' ∧ TSInterval s ≠ 0 ∧
    (Enable s = true → is_Some (MaxCount (conf_of (TopicRateConf Conf) topic)))) as (s & l' & E & Hl' & H1 & H2).
  { unfold GetTopicState. munfold. destruct (l !! topic) as [s |] eqn:Es.
    - destruct (Hl topic s Es) as [H1 H2]. destruct (_ <=? t); [| by exists s, l].
      rewrite (proj2 (Z.eqb_neq _ 0)) by done. eexists _, _. split; [reflexivity |]. split; [| done]. by apply map_Forall_insert_2.
    - eexists _, _. split; [reflexivity |]. pose proof (conf_of_interval _ Hrate topic) as Hint.
      assert (∀ s', s' = match MaxCount (conf_of (TopicRateConf Conf) topic) with
        | None => TTopicState_new
        | Some max_count => TTopicState_new <| Enable := true |> <| TSInterval := Interval (conf_of (TopicRateConf Conf) topic) |>
            <| TSMaxCount := max_count |> <| IntervalStart := t |> end →
        TSInterval s' ≠ 0 ∧ (Enable s' = true → is_Some (MaxCount (conf_of (TopicRateConf Conf) topic)))) as Hs.
      { intros s' ->. destruct (MaxCount _) as [n |]; cbn; [| done]. split; [lia | by eexists]. }
      split; [apply map_Forall_insert_2; [by apply Hs | done] | by apply Hs]. }
  rewrite (bind_Ret _ _ _ _ _ E). eexists _, _. split; [reflexivity |]. split; [by apply map_Forall_insert_2 |].
  intros [He _]%andb_true_iff. by apply H2.
Qed.

(** What the check of a message gives. *)
Definition validated (md : TMetadata) (m : TMsg) (o live acc bm : list TMsg) tmp (r : TRouterThread W D) (back : option TMsg) (r' : TRouterThread W D) : Prop :=
  BatcherIsEnabled r' = BatcherIsEnabled r ∧
  match back with
  | Some m' => m' = m ∧ deliverable md m ∧ router_inv md ([m] ++ o) live acc bm tmp r' ∧
      Destroyed (shared_of r') = Destroyed (shared_of r)
  | None => refused md m ∧ router_inv md o live acc bm tmp r' ∧
      Destroyed (shared_of r') = SetState Processed m :: Destroyed (shared_of r)
  end.

Lemma discarded_ok md m reason o live acc bm tmp r :
  router_inv md ([m] ++ o) live acc bm tmp r → input_ok m → refused md m →
  ∃ r', (Discard m reason;; mret (None : option TMsg)) r = (Ret None, r') ∧ validated md m o live acc bm tmp r None r'.
Proof.
  intros Hi Hm Href. destruct (Discard_ok md m reason o live acc bm tmp r Hi) as (r' & E & Hi' & Hb & Hd); [by rewrite io_state | by apply Hm |].
  exists r'. rewrite (bind_Ret _ _ _ _ _ E). by split_and!.
Qed.

Lemma ValidateKnownTopic_ok md m i t o live acc bm tmp r :
  router_inv md ([m] ++ o) live acc bm tmp r → input_ok m →
  TopicNameToIndex md !! Topic m = Some i → Topics md !! i = Some t →
  ∃ back r', ValidateKnownTopic Conf (Z.of_nat i) m r = (Ret back, r') ∧ validated md m o live acc bm tmp r back r'.
Proof.
  intros Hi Hm Hti Ht. pose proof (io_sized _ Hm) as Hsz. unfold ValidateKnownTopic.
  assert (0 ≤ Router.SingleMsgOverhead Conf) as Hov0 by (rewrite Hov; unfold RequestFactory.SingleMsgOverhead; lia).
  change (NumBytes (KeyAndValue m)) with (data_size m). rewrite uadd_small by (pose proof (io_bytes _ Hm); unfold sized, data_size in *; lia).
  destruct (BodyTruncated m || (Router.MessageMaxBytes Conf <? data_size m + Router.SingleMsgOverhead Conf)) eqn:El.
  - assert (refused md m) as Href.
    { apply orb_true_iff in El as [El | El%Z.ltb_lt]; [by right; left | by right; right; left]. }
    assert (∃ r1, TrackLong m r = (Ret (), r1) ∧ router_inv md ([m] ++ o) live acc bm tmp r1 ∧
      BatcherIsEnabled r1 = BatcherIsEnabled r ∧ Destroyed (shared_of r1) = Destroyed (shared_of r)) as (r1 & E1 & Hi1 & Hb1 & Hd1).
    { unfold TrackLong, ask. munfold. destruct (TrackerNow (World r)) as [now w]. cbn [World set_field].
      destruct (io_readable _ Hm w now (ResponseProcessor.AnomalyTracker (shared_of r))) as [a Ea].
      change (shared_of (r <| World := w |>)) with (shared_of r).
      change (PoolNow (World (r <| World := w |>))) with (PoolNow w). rewrite Ea. eexists. split; [reflexivity |].
      split; [apply router_inv_same; [by destruct Hi; split | done] |]. by rewrite shared_with. }
    destruct (process_one_ok md m o live acc bm tmp r1 Hi1) as (r2 & E2 & Hi2 & Hb2 & Hd2); [by rewrite io_state | done |].
    exists None, r2. rewrite (bind_Ret _ _ _ _ _ E1). rewrite (bind_assoc_Ret _ _ _ _ _ _ E2).
    split; [done |]. split; [congruence |]. split; [done |]. split; [done | congruence].
  - apply orb_false_iff in El as [_ El%Z.ltb_ge]. unfold the_metadata. munfold. rewrite (ri_md _ _ _ _ _ _ _ Hi).
    pose proof (lookup_lt_Some _ _ _ Ht) as Hlt. rewrite (proj2 (Z.leb_le 0 _)), (proj2 (Z.ltb_lt _ _)), Nat2Z.id, Ht by lia. cbn [andb].
    destruct (OkPartitions t) as [| p l] eqn:Eo.
    + destruct (discarded_ok md m NoAvailablePartitions o live acc bm tmp r Hi Hm) as (r' & E & Hv); [| by exists None, r'].
      left. intros (t' & i' & Hti' & Ht' & Hne). assert (i' = i) as -> by congruence. congruence.
    + destruct (WouldExceedLimit_ok (Topic m) (CreationTimestamp m) _ (ri_limits _ _ _ _ _ _ _ Hi)) as (b & l' & Ew & Hl' & Hb).
      unfold on_rate_limiter, zoom, no_throw. rewrite Ew. cbn [fst snd].
      assert (router_inv md ([m] ++ o) live acc bm tmp (r <| MsgRateLimiter := l' |>)) as Hi1 by (destruct Hi; by split).
      destruct b.
      * destruct (discarded_ok md m RateLimit o live acc bm tmp _ Hi1 Hm) as (r' & E & Hv); [| by exists None, r']. right. right. right. by apply Hb.
      * eexists (Some m), _. split; [reflexivity |]. split_and!; try done.
        split; [exists t, i; split_and!; try done; by rewrite Eo | by apply Hm | done | by rewrite <- Hov].
Qed.

Lemma ValidateNewMsg_ok fuel md m o live acc bm tmp r :
  TopicAutocreate Conf = false → router_inv md ([m] ++ o) live acc bm tmp r → input_ok m →
  ∃ back r', ValidateNewMsg Conf fuel m r = (Ret (true, back), r') ∧ validated md m o live acc bm tmp r back r'.
Proof.
  intros Hauto Hi Hm. pose proof (ri_md _ _ _ _ _ _ _ Hi) as Hmd. pose proof (ri_ok _ _ _ _ _ _ _ Hi) as Hok.
  unfold ValidateNewMsg, asserted_metadata, find_topic, the_metadata. rewrite Hauto.
  erewrite bind_Ret by (munfold; by rewrite Hmd). erewrite bind_Ret by (munfold; rewrite Hmd; by rewrite (FindTopicIndex_ok _ _ Hok)).
  rewrite andb_false_r. erewrite bind_Ret by reflexivity. cbn beta iota.
  destruct (TopicNameToIndex md !! Topic m) as [i |] eqn:Ei.
  - rewrite (proj2 (Z.ltb_ge _ _)) by lia. destruct (mo_names _ Hok) as (ns & Hn & Hl).
    assert (is_Some (Topics md !! i)) as [t Ht]. { apply lookup_lt_is_Some_2. rewrite <- Hl. by apply Hn, lookup_lt_Some in Ei. }
    destruct (ValidateKnownTopic_ok md m i t o live acc bm tmp r Hi Hm Ei Ht) as (back & r' & E & Hv).
    exists back, r'. by rewrite (bind_Ret _ _ _ _ _ E).
  - rewrite (proj2 (Z.ltb_lt (-1) 0)) by lia.
    destruct (track_ok _ _ _ _ _ _ r (λ now, TrackBadTopicDiscard_msg now m) Hi) as (r1 & E1 & Hi1 & Hb1 & Hd1 & _).
    destruct (process_one_ok md m o live acc bm tmp r1 Hi1) as (r2 & E2 & Hi2 & Hb2 & Hd2); [by rewrite io_state | by apply Hm |].
    exists None, r2. rewrite (bind_Ret _ _ _ _ _ E1), (bind_assoc_Ret _ _ _ _ _ _ E2).
    split; [done |]. split; [congruence |]. split; [| split; [done | congruence]]. left. intros (t & i & Hti & _). congruence.
Qed.

(** ** Routing *)

(** The same messages with other partitions. *)
Lemma dc_retag md o o' live acc (d : D) :
  dc md o live acc d → tag <$> o ≡ₚ tag <$> o' → load o = load o' → dc md o' live acc d.
Proof.
  intros Hd Ht Hw. destruct (dc_tracker _ _ _ _ _ Hd) as [Htr _]. rewrite <- (dc_same_shared d).
  assert (length o' = length o) as Hl by (by rewrite <- (length_fmap tag o), Ht, length_fmap).
  eapply dc_elsewhere; [exact Hd | | lia | lia]. eapply tracker_ok_tags; [| exact Htr]. by rewrite !fmap_app, Ht.
Qed.

Lemma dc_perm md o o' live acc (d : D) : dc md o live acc d → o ≡ₚ o' → dc md o' live acc d.
Proof. intros Hd Hp. eapply dc_retag; [done | by rewrite Hp |]. unfold load. by rewrite Hp. Qed.

Lemma router_inv_perm md o o' live acc bm tmp r : o ≡ₚ o' → router_inv md o live acc bm tmp r → router_inv md o' live acc bm tmp r.
Proof. intros Hp [H1 H2 H3 H4 H5 H6 H7 H8 H9 H10 H11]. split; try done. eapply dc_perm; [done |]. by rewrite Hp. Qed.

(** A broker for an AnyPartition message. *)
Lemma choose_any_ok md m o live acc bm tmp r :
  router_inv md o live acc bm tmp r → deliverable md m →
  ∃ i r', ChooseAnyPartitionBrokerIndex (Topic m) r = (Ret i, r') ∧ router_inv md o live acc bm tmp r' ∧
    BatcherIsEnabled r' = BatcherIsEnabled r ∧ shared_of r' = shared_of r ∧
    ∀ m', Topic m' = Topic m → deliverable md m' → routed md m' i.
Proof.
  intros Hi Hm. destruct (dv_topic _ _ _ Hm) as (t & k & Hk & Ht & Hne).
  assert (0 ≤ counter_of r k) as H0.
  { unfold counter_of. destruct (RouteCounters r !! k) as [c |] eqn:E; [| done]. pose proof (ri_nonneg _ _ _ _ _ _ _ Hi) as Hn.
    rewrite Forall_lookup in Hn. by apply (Hn k). }
  destruct (any_partition_step md (Topic m) t k r (ri_ok _ _ _ _ _ _ _ Hi) (ri_md _ _ _ _ _ _ _ Hi) Hk Ht Hne (ri_counters _ _ _ _ _ _ _ Hi) H0)
    as (p & Hp & E).
  eexists _, _. split; [exact E |]. apply list_elem_of_lookup_2 in Hp. split; [| split; [done | split; [done |]]].
  - destruct Hi as [H1 H2 H3 H4 H5 H6 H7 H8 H9 H10 H11]. split; try done; cbn; [by rewrite length_insert |].
    apply Forall_insert; [done |]. apply uwrap_range. lia.
  - intros m' Et Hm'. split; [done | |].
    + apply in_service_index; [apply Hi |]. by apply (ok_partition_leader md k t); [apply Hi | |].
    + intros _. exists t, p. split_and!; try done. exists k. by rewrite Et.
Qed.

Lemma deliverable_like md m m' :
  Topic m' = Topic m → KeyAndValue m' = KeyAndValue m → KeySize m' = KeySize m → deliverable md m → deliverable md m'.
Proof.
  intros E1 E2 E3 [H1 H2 H3 H4]. split; [by rewrite E1 | by rewrite E1 | unfold sized in *; by rewrite E2, E3 | unfold data_size in *; by rewrite E2].
Qed.

Lemma AssignBroker_ok md m o live acc bm tmp r :
  router_inv md ([m] ++ o) live acc bm tmp r → deliverable md m →
  ∃ m' i r', AssignBroker m r = (Ret (m', i), r') ∧ router_inv md ([m'] ++ o) live acc bm tmp r' ∧
    BatcherIsEnabled r' = BatcherIsEnabled r ∧ shared_of r' = shared_of r ∧ routed md m' i ∧
    who m' = who m ∧ Msg.State m' = Msg.State m ∧ Timestamp m' = Timestamp m.
Proof.
  intros Hi Hm. unfold AssignBroker. destruct (decide (RoutingType m = PartitionKey)) as [Hk | Hk].
  - destruct (dv_topic _ _ _ Hm) as (t & Ha).
    destruct (by_key_ok md (Topic m) t (MsgPartitionKey m) r (ri_ok _ _ _ _ _ _ _ Hi) (ri_md _ _ _ _ _ _ _ Hi) Ha) as (p & E & Hp).
    eexists _, _, r. split.
    { unfold ChoosePartitionByKey_topic, asserted_metadata. munfold. rewrite (ri_md _ _ _ _ _ _ _ Hi).
      rewrite (valid_topic md _ t r (ri_ok _ _ _ _ _ _ _ Hi) (ri_md _ _ _ _ _ _ _ Hi) Ha), E. done. }
    split; [| split_and!; try done].
    + destruct Hi as [H1 H2 H3 H4 H5 H6 H7 H8 H9 H10 H11]. split; try done.
      eapply dc_retag; [done | by rewrite !fmap_app | unfold load; by rewrite !fmap_app].
    + split; [by apply (deliverable_like md m) | | by intros Ea; cbn in Ea; congruence].
      destruct Hp as (k & _ & _ & Hl & _). by apply in_service_index; [apply Hi |].
  - destruct (choose_any_ok md m ([m] ++ o) live acc bm tmp r Hi Hm) as (i & r' & E & Hi' & Hb & Hs & Hr).
    exists m, i, r'. rewrite (bind_Ret _ _ _ _ _ E). split_and!; try done. by apply Hr.
Qed.

(** The dispatcher takes a message. *)
Lemma router_inv_given md o live acc bm tmp r m live' d' :
  router_inv md ([m] ++ o) live acc bm tmp r → dc md (bm ++ o) live' ([m] ++ acc) d' →
  router_inv md o live' ([m] ++ acc) bm tmp (r <| Dispatcher := d' |>).
Proof. intros [H1 H2 H3 H4 H5 H6 H7 H8 H9 H10 H11] Hd. by split. Qed.

Lemma ask_clock_ok md o live acc bm tmp r :
  router_inv md o live acc bm tmp r →
  ∃ now r', ask GetEpochMilliseconds r = (Ret now, r') ∧ router_inv md o live acc bm tmp r' ∧
    BatcherIsEnabled r' = BatcherIsEnabled r ∧ shared_of r' = shared_of r.
Proof.
  intros Hi. unfold ask. destruct (GetEpochMilliseconds (World r)) as [now w]. eexists now, _. split; [reflexivity |].
  split; [destruct Hi; by split | done].
Qed.

Lemma Route_ok md m o live acc bm tmp r :
  router_inv md ([m] ++ o) live acc bm tmp r → deliverable md m → Msg.State m = New → Timestamp m ≤ INT64_MAX →
  ∃ m' live' r', Route m r = (Ret (), r') ∧ router_inv md o live' ([m'] ++ acc) bm tmp r' ∧ who m' = who m ∧
    BatcherIsEnabled r' = BatcherIsEnabled r ∧ Destroyed (shared_of r') = Destroyed (shared_of r).
Proof.
  intros Hi Hm Hst Hts. unfold Route. destruct (AssignBroker_ok md m o live acc bm tmp r Hi Hm) as (m' & i & r1 & E1 & Hi1 & Hb1 & Hs1 & Hr & Hw & Hst' & Hts').
  rewrite (bind_Ret _ _ _ _ _ E1). destruct (ask_clock_ok _ _ _ _ _ _ _ Hi1) as (now & r2 & E2 & Hi2 & Hb2 & Hs2). rewrite (bind_Ret _ _ _ _ _ E2).
  destruct (dc_Dispatch md (bm ++ o) live acc (Dispatcher r2) now m' i) as (live' & d' & E3 & Hd & Hdd);
    [eapply dc_perm; [apply Hi2 | perm_lia] | done | congruence | lia |].
  exists m', live', (r2 <| Dispatcher := d' |>). split; [unfold on_dispatcher, zoom, no_throw; by rewrite E3 |].
  split; [by eapply router_inv_given |]. split; [done |]. split; [cbn; congruence |].
  change (shared_of (r2 <| Dispatcher := d' |>)) with (disp_shared d'). rewrite Hdd. fold (shared_of r2). congruence.
Qed.

Lemma RouteNow_ok md m o live acc bm tmp r :
  router_inv md ([m] ++ o) live acc bm tmp r → deliverable md m → legal SendWait (Msg.State m) = true →
  ∃ m' live' r', RouteNow m r = (Ret (), r') ∧ router_inv md o live' ([m'] ++ acc) bm tmp r' ∧ who m' = who m ∧
    BatcherIsEnabled r' = BatcherIsEnabled r ∧ Destroyed (shared_of r') = Destroyed (shared_of r).
Proof.
  intros Hi Hm Hst. unfold RouteNow. destruct (AssignBroker_ok md m o live acc bm tmp r Hi Hm) as (m' & i & r1 & E1 & Hi1 & Hb1 & Hs1 & Hr & Hw & Hst' & _).
  rewrite (bind_Ret _ _ _ _ _ E1). destruct (ask_clock_ok _ _ _ _ _ _ _ Hi1) as (now & r2 & E2 & Hi2 & Hb2 & Hs2). rewrite (bind_Ret _ _ _ _ _ E2).
  destruct (dc_DispatchNow md (bm ++ o) live acc (Dispatcher r2) now m' i) as (live' & d' & E3 & Hd & Hdd);
    [eapply dc_perm; [apply Hi2 | perm_lia] | done | by rewrite Hst' |].
  exists m', live', (r2 <| Dispatcher := d' |>). split; [unfold on_dispatcher, zoom, no_throw; by rewrite E3 |].
  split; [by eapply router_inv_given |]. split; [done |]. split; [cbn; congruence |].
  change (shared_of (r2 <| Dispatcher := d' |>)) with (disp_shared d'). rewrite Hdd. fold (shared_of r2). congruence.
Qed.

(** ** Batches of AnyPartition messages *)

(** A batch that a broker can be chosen for. *)
Definition batch_ready (md : TMetadata) (batch : list TMsg) : Prop :=
  one_topic batch ∧ Forall (λ m, deliverable md m ∧ legal SendWait (Msg.State m) = true) batch.

(** The entries of the map are batches for their broker. *)
Definition entry_ready (md : TMetadata) (i : nat) (bs : list (list TMsg)) : Prop :=
  Forall one_topic bs ∧ Forall (λ m, routed md m i ∧ legal SendWait (Msg.State m) = true) (concat bs).

(** The messages of the entries [ks] of the map. *)
Definition entry_msgs (tmp : gmap nat (list (list TMsg))) (ks : list nat) : list TMsg :=
  concat ((λ i, concat (default [] (tmp !! i))) <$> ks).

Definition all_entries (tmp : gmap nat (list (list TMsg))) : list TMsg := concat ((λ x : nat * list (list TMsg), concat x.2) <$> map_to_list tmp).

Lemma all_entries_append tmp i (b : list TMsg) : all_entries (map_append i [b] tmp) ≡ₚ b ++ all_entries tmp.
Proof.
  unfold all_entries, map_append. rewrite <- insert_delete_eq, map_to_list_insert by apply lookup_delete_eq. cbn. rewrite concat_app. cbn.
  rewrite app_nil_r. destruct (tmp !! i) as [l |] eqn:E; cbn.
  - rewrite <- (insert_delete_id tmp i l E) at 2. rewrite map_to_list_insert by apply lookup_delete_eq. cbn. perm_lia.
  - by rewrite delete_id.
Qed.

Lemma all_entries_keys tmp : entry_msgs tmp (hash_order tmp).*1 ≡ₚ all_entries tmp.
Proof.
  unfold entry_msgs, all_entries. rewrite <- list_fmap_compose.
  assert ((λ x : nat * list (list TMsg), concat (default [] (tmp !! x.1))) <$> hash_order tmp =
    (λ x : nat * list (list TMsg), concat x.2) <$> hash_order tmp) as E.
  { apply list_fmap_ext. intros k [i bs] Hk. apply list_elem_of_lookup_2, elem_of_hash_order in Hk. cbn. by rewrite Hk. }
  unfold compose. rewrite E. by rewrite hash_order_perm.
Qed.

Lemma all_entries_empty tmp : map_Forall (λ _ l, l = []) tmp → all_entries tmp = [].
Proof.
  intros Ht. unfold all_entries. assert (Forall (λ l : list TMsg, l = []) ((λ x : nat * list (list TMsg), concat x.2) <$> map_to_list tmp)) as Hf.
  { apply Forall_fmap, Forall_forall. intros [i bs] Hx%elem_of_map_to_list. cbn. by rewrite (Ht i bs Hx). }
  induction Hf as [| l k -> _ IH]; [done |]. done.
Qed.

Lemma MapBatch_ok md batch o live acc bm tmp r :
  router_inv md o live acc bm tmp r → map_Forall (entry_ready md) tmp → batch_ready md batch →
  ∃ i r', MapBatch batch r = (Ret (), r') ∧ router_inv md o live acc bm (map_append i [batch] tmp) r' ∧
    map_Forall (entry_ready md) (map_append i [batch] tmp) ∧ BatcherIsEnabled r' = BatcherIsEnabled r ∧ shared_of r' = shared_of r.
Proof.
  intros Hi Ht [Hone Hb]. pose proof Hone as [Hne [tp Htp]]. destruct batch as [| m batch]; [done |].
  pose proof Hb as Hb'. apply Forall_cons in Hb' as [[Hm _] _].
  destruct (choose_any_ok md m o live acc bm tmp r Hi Hm) as (i & r1 & E1 & Hi1 & Hb1 & Hs1 & Hr). unfold MapBatch. cbn [head].
  erewrite bind_Ret by reflexivity. rewrite (bind_Ret _ _ _ _ _ E1). eexists i, _. split; [reflexivity |].
  assert (map_Forall (entry_ready md) (map_append i [m :: batch] tmp)) as Hme.
  { unfold map_append. apply map_Forall_insert_2; [| done]. split.
    - apply Forall_app. split; [| apply Forall_cons_2; [done | constructor]].
      destruct (tmp !! i) as [l |] eqn:El; [apply (Ht i l El) | constructor].
    - rewrite concat_app. apply Forall_app. split; [destruct (tmp !! i) as [l |] eqn:El; [apply (Ht i l El) | constructor] |].
      cbn [concat]. rewrite app_nil_r. rewrite Forall_forall in Hb, Htp |- *. intros m' Hm'. split; [| by apply Hb].
      apply Hr; [rewrite (Htp m' Hm'), (Htp m); [done | left] | by apply Hb]. }
  split; [| split_and!; done]. destruct Hi1 as [H1 H2 H3 H4 H5 H6 H7 H8 H9 H10 H11]. split; try done. cbn. by rewrite H9.
Qed.

Lemma MapBatches_ok md bs o live acc bm tmp r :
  router_inv md o live acc bm tmp r → map_Forall (entry_ready md) tmp → Forall (batch_ready md) bs →
  ∃ tmp' r', mfor_ MapBatch bs r = (Ret (), r') ∧ router_inv md o live acc bm tmp' r' ∧ map_Forall (entry_ready md) tmp' ∧
    all_entries tmp' ≡ₚ concat bs ++ all_entries tmp ∧ BatcherIsEnabled r' = BatcherIsEnabled r ∧ shared_of r' = shared_of r.
Proof.
  revert tmp r. induction bs as [| b bs IH]; intros tmp r Hi Ht Hb; [by exists tmp, r |]. apply Forall_cons in Hb as [Hb Hbs].
  destruct (MapBatch_ok md b o live acc bm tmp r Hi Ht Hb) as (i & r1 & E1 & Hi1 & Ht1 & Hb1 & Hs1).
  destruct (IH _ _ Hi1 Ht1 Hbs) as (tmp' & r2 & E2 & Hi2 & Ht2 & Ha2 & Hb2 & Hs2). exists tmp', r2.
  cbn [mfor_]. rewrite (bind_Ret _ _ _ _ _ E1). split_and!; try done; [| congruence | congruence].
  rewrite Ha2, all_entries_append. cbn. perm_lia.
Qed.

Lemma DispatchEntry_ok md i o live acc bm tmp r :
  router_inv md (concat (default [] (tmp !! i)) ++ o) live acc bm tmp r → map_Forall (entry_ready md) tmp →
  ∃ tmp' live' acc' r', DispatchEntry i r = (Ret (), r') ∧ router_inv md o live' acc' bm tmp' r' ∧ map_Forall (entry_ready md) tmp' ∧
    acc' = concat (default [] (tmp !! i)) ++ acc ∧ (tmp' !! i = None ∨ tmp' !! i = Some []) ∧ (∀ j, j ≠ i → tmp' !! j = tmp !! j) ∧
    BatcherIsEnabled r' = BatcherIsEnabled r ∧ Destroyed (shared_of r') = Destroyed (shared_of r).
Proof.
  intros Hi Ht. unfold DispatchEntry. erewrite bind_Ret by reflexivity. rewrite (ri_tmp _ _ _ _ _ _ _ Hi).
  destruct (tmp !! i) as [bs |] eqn:Ei; [| exists tmp, live, acc, r; split_and!; try done; by left]. cbn [default from_option] in *.
  destruct bs as [| b bs]; [exists tmp, live, acc, r; split_and!; try done; by right |].
  cbn [from_option id] in *. set (l := b :: bs) in *.
  destruct (Ht i l Ei) as [Hone Hall].
  destruct (ask_clock_ok _ _ _ _ _ _ _ Hi) as (now & r1 & E1 & Hi1 & Hb1 & Hs1). rewrite (bind_Ret _ _ _ _ _ E1).
  destruct (dc_DispatchNow_batch md (bm ++ o) live acc (Dispatcher r1) now l i) as (live' & d' & E3 & Hd & Hdd);
    [eapply dc_perm; [apply Hi1 | perm_lia] | done | by eapply Forall_impl; [exact Hall | intros m [? _]] |
     by eapply Forall_impl; [exact Hall | intros m [_ ?]] |].
  erewrite bind_Ret by (unfold on_dispatcher, zoom, no_throw; by rewrite E3).
  exists (<[i := []]> tmp), live', (concat l ++ acc). eexists. split; [reflexivity |].
  split; [| split; [| split; [done | split; [right; apply lookup_insert_eq | split; [intros j Hj; by apply lookup_insert_ne | split]]]]].
  - destruct Hi1 as [H1 H2 H3 H4 H5 H6 H7 H8 H9 H10 H11]. split; try done. cbn. by rewrite H9.
  - apply map_Forall_insert_2; [| done]. split; constructor.
  - cbn. congruence.
  - change (Destroyed (disp_shared d') = Destroyed (shared_of r)). rewrite Hdd. fold (shared_of r1). congruence.
Qed.

Lemma DispatchEntries_ok md ks o live acc bm tmp r :
  NoDup ks → router_inv md (entry_msgs tmp ks ++ o) live acc bm tmp r → map_Forall (entry_ready md) tmp →
  ∃ tmp' live' acc' r', mfor_ DispatchEntry ks r = (Ret (), r') ∧ router_inv md o live' acc' bm tmp' r' ∧
    acc' ≡ₚ entry_msgs tmp ks ++ acc ∧ (∀ j, j ∈ ks → tmp' !! j = None ∨ tmp' !! j = Some []) ∧ (∀ j, j ∉ ks → tmp' !! j = tmp !! j) ∧
    BatcherIsEnabled r' = BatcherIsEnabled r ∧ Destroyed (shared_of r') = Destroyed (shared_of r).
Proof.
  intros Hnd. revert tmp live acc r. induction Hnd as [| i ks Hni Hnd IH]; intros tmp live acc r Hi Ht.
  { exists tmp, live, acc, r. split_and!; try done. by intros j ?%elem_of_nil. }
  unfold entry_msgs in Hi |- *. cbn [fmap list_fmap concat] in Hi |- *. rewrite <- app_assoc in Hi.
  destruct (DispatchEntry_ok md i _ live acc bm tmp r Hi Ht) as (tmp1 & live1 & acc1 & r1 & E1 & Hi1 & Ht1 & -> & Hd1 & Ho1 & Hb1 & Hs1).
  assert (entry_msgs tmp1 ks = entry_msgs tmp ks) as Ee.
  { unfold entry_msgs. f_equal. apply list_fmap_ext. intros k j Hj. apply list_elem_of_lookup_2 in Hj. rewrite Ho1; [done |]. by intros ->. }
  destruct (IH tmp1 live1 (concat (default [] (tmp !! i)) ++ acc) r1) as (tmp2 & live2 & acc2 & r2 & E2 & Hi2 & Ha2 & Hd2 & Ho2 & Hb2 & Hs2); [by rewrite Ee | done |].
  exists tmp2, live2, acc2, r2. cbn [mfor_]. rewrite (bind_Ret _ _ _ _ _ E1). split_and!; try done; [| | | congruence | congruence].
  - rewrite Ha2, Ee. unfold entry_msgs. perm_lia.
  - intros j [-> | Hj]%elem_of_cons; [| by apply Hd2]. rewrite Ho2 by done. done.
  - intros j [Hj1 Hj2]%not_elem_of_cons. rewrite Ho2, Ho1 by done. done.
Qed.

(** No batch is on its way between two calls. *)
Definition idle (tmp : gmap nat (list (list TMsg))) : Prop := map_Forall (λ _ l, l = []) tmp.

Lemma RouteAnyPartitionNow_ok md bs o live acc bm tmp r :
  router_inv md (concat bs ++ o) live acc bm tmp r → idle tmp → Forall (batch_ready md) bs →
  ∃ tmp' live' acc' r', RouteAnyPartitionNow bs r = (Ret (), r') ∧ router_inv md o live' acc' bm tmp' r' ∧ idle tmp' ∧
    acc' ≡ₚ concat bs ++ acc ∧ BatcherIsEnabled r' = BatcherIsEnabled r ∧ Destroyed (shared_of r') = Destroyed (shared_of r).
Proof.
  intros Hi Ht Hb. unfold RouteAnyPartitionNow. destruct bs as [| b bs]; [by exists tmp, live, acc, r |]. set (l := b :: bs) in *.
  assert (map_Forall (entry_ready md) tmp) as Ht0 by (intros i x Hx; rewrite (Ht i x Hx); split; constructor).
  destruct (MapBatches_ok md l _ live acc bm tmp r Hi Ht0 Hb) as (tmp1 & r1 & E1 & Hi1 & Ht1 & Ha1 & Hb1 & Hs1).
  rewrite (all_entries_empty tmp Ht), app_nil_r in Ha1. rewrite (bind_Ret _ _ _ _ _ E1). erewrite bind_Ret by reflexivity.
  rewrite (ri_tmp _ _ _ _ _ _ _ Hi1). destruct (hash_order_keys tmp1) as [Hnd Hks].
  destruct (DispatchEntries_ok md (hash_order tmp1).*1 o live acc bm tmp1 r1 Hnd) as (tmp2 & live2 & acc2 & r2 & E2 & Hi2 & Ha2 & Hd2 & Ho2 & Hb2 & Hs2);
    [| done |].
  { eapply router_inv_perm; [| exact Hi1]. by rewrite all_entries_keys, Ha1. }
  exists tmp2, live2, acc2, r2. split; [done |]. split; [done |]. split; [| split; [| split; congruence]].
  - intros i x Hx. destruct (decide (i ∈ (hash_order tmp1).*1)) as [Hin | Hin].
    + destruct (Hd2 i Hin); congruence.
    + rewrite Ho2 in Hx by done. destruct Hin. apply Hks. by eexists.
  - by rewrite Ha2, all_entries_keys, Ha1.
Qed.

(** ** Batching *)

(** Messages enter and leave the batcher. *)
Lemma router_inv_batcher md o live acc bm tmp r b' bm' o' :
  router_inv md o live acc bm tmp r → pt_inv b' → pt_rep b' bm' → BatcherIsEnabled r = true → bm' ++ o' ≡ₚ bm ++ o →
  Forall (batched md) bm' →
  router_inv md o' live acc bm' tmp (r <| Router.PerTopicBatcher := b' |>).
Proof.
  intros [H1 H2 H3 H4 H5 H6 H7 H8 H9 H10 H11] Hb Hr He Hp Hbm. split; try done; [cbn; congruence |]. by eapply dc_perm.
Qed.

Lemma batched_ready md bs :
  Forall (λ l, l ≠ [] ∧ ∃ t, Forall (λ m, Topic m = t) l) bs → Forall (batched md) (concat bs) → Forall (batch_ready md) bs.
Proof.
  intros Hbs Hl%Forall_concat. induction Hbs as [| b bs Hb Hbs IH]; [constructor |]. apply Forall_cons in Hl as [Hl Hls].
  constructor; [| by apply IH]. split; [done |]. eapply Forall_impl; [exact Hl |]. intros m (Hs & _ & Hd). by rewrite Hs.
Qed.

(** What taking a message gives: batches that are complete, and the message unless the
    batcher has it. *)
Definition batch_result (md : TMetadata) (m : TMsg) (o live acc bm : list TMsg) tmp r (bs : list (list TMsg)) (back : option TMsg)
    (r' : TRouterThread W D) : Prop :=
  ∃ bm', router_inv md (concat bs ++ option_list back ++ o) live acc bm' tmp r' ∧ Forall (batch_ready md) bs ∧
    (back = None ∨ back = Some m) ∧ who <$> (concat bs ++ option_list back ++ bm') ≡ₚ who <$> ([m] ++ bm) ∧
    BatcherIsEnabled r' = BatcherIsEnabled r ∧ Destroyed (shared_of r') = Destroyed (shared_of r).

Lemma added_ok md m o live acc bm tmp r now bs back b' :
  router_inv md ([m] ++ o) live acc bm tmp r → BatcherIsEnabled r = true → (back = None → batched md m) →
  (back = None ∨ back = Some m) → added now (Router.PerTopicBatcher r) m bs back b' →
  batch_result md m o live acc bm tmp r bs back (r <| Router.PerTopicBatcher := b' |>).
Proof.
  intros Hi Hen Hst Hback [Hinv _ Hcons Hone _ _].
  destruct (pt_rep_exists b' Hinv) as [bm' Hbm']. exists bm'.
  assert (bm ++ [m] ≡ₚ concat bs ++ bm' ++ option_list back) as Hp.
  { apply of_topic_perm. intros t. rewrite !of_topic_app, (ri_rep _ _ _ _ _ _ _ Hi), Hbm'. by rewrite Hcons. }
  assert (Forall (batched md) (concat bs ++ bm')) as [Hb1 Hb2]%Forall_app.
  { pose proof (ri_batched _ _ _ _ _ _ _ Hi) as Hbm. destruct Hback as [-> | ->]; cbn in Hp.
    - rewrite app_nil_r in Hp. rewrite <- Hp. apply Forall_app. split; [done |]. apply Forall_cons_2; [by apply Hst | constructor].
    - rewrite app_assoc, <- !Permutation_cons_append in Hp. apply Permutation_cons_inv in Hp. by rewrite <- Hp. }
  split; [| split; [by apply batched_ready | split; [done | split; [| done]]]].
  - eapply router_inv_batcher; [exact Hi | done | done | done | perm_lia | done].
  - assert (concat bs ++ option_list back ++ bm' ≡ₚ [m] ++ bm) as -> by perm_lia. done.
Qed.

Lemma BatchMsg_ok md m o live acc bm tmp r now :
  router_inv md ([m] ++ o) live acc bm tmp r → BatcherIsEnabled r = true → deliverable md m → Msg.State m = New →
  RoutingType m = AnyPartition → Timestamp m ≤ INT64_MAX →
  ∃ bs back r', BatchMsg now m r = (Ret (bs, back), r') ∧ batch_result md m o live acc bm tmp r bs back r'.
Proof.
  intros Hi Hen Hd Hst Hrt Hts.
  assert (Z.of_nat (length (PerTopicBatcher.held (Router.PerTopicBatcher r) (Topic m))) + 1 < 2 ^ 64) as Hlen.
  { rewrite <- (ri_rep _ _ _ _ _ _ _ Hi). destruct (dc_tracker _ _ _ _ _ (ri_disp _ _ _ _ _ _ _ Hi)) as [_ Hs].
    pose proof (length_filter (λ m', Topic m' = Topic m) bm). unfold of_topic. rewrite !length_app in Hs. cbn in Hs. lia. }
  destruct (PerTopic_AddMsg_ok _ m now (ri_pt _ _ _ _ _ _ _ Hi) Hts Hlen) as (bs & back & b' & Hr & Ha).
  pose proof (ad_back _ _ _ _ _ _ Ha) as Hback. unfold BatchMsg. erewrite bind_Ret by reflexivity. rewrite Hr. cbn [fst].
  destruct (BatchingIsEnabled (Config_Get (Topic m) (PTConfig (Router.PerTopicBatcher r)))) eqn:He.
  - subst back. pose proof (router_inv_tracker _ _ _ _ _ _ _ Hi) as Htr.
    destruct (enter_one_ok Batching m (ResponseProcessor.MsgStateTracker (shared_of r)) (bm ++ o ++ live)) as (t' & E1 & Ht').
    { eapply tracker_ok_perm; [| exact Htr]. cbn. perm_lia. } { by rewrite Hst. }
    set (m' := SetState Batching m) in *. set (r1 := with_shared (with_states t' (shared_of r)) r).
    assert (router_inv md ([m'] ++ o) live acc bm tmp r1) as Hi1.
    { eapply router_inv_shared; [exact Hi | | cbn; lia | done]. cbn. eapply tracker_ok_perm; [| exact Ht']. cbn. perm_lia. }
    change (MsgEnterBatching m) with (EnterOne (count_of Batching) Batching m).
    erewrite bind_Ret by (unfold on_states, zoom, no_throw; rewrite E1; reflexivity). fold r1.
    destruct (PerTopic_AddMsg_ok (Router.PerTopicBatcher r1) m' now) as (bs' & back' & b1 & Hr' & Ha');
      [apply Hi1 | done | done |].
    pose proof (ad_back _ _ _ _ _ _ Ha') as Hback'. change (PTConfig (Router.PerTopicBatcher r1)) with (PTConfig (Router.PerTopicBatcher r)) in Hback'.
    change (Topic m') with (Topic m) in Hback'. rewrite He in Hback'. subst back'.
    destruct (added_ok md m' o live acc bm tmp r1 now bs' None b1 Hi1 Hen) as (bm' & H1 & H2 & _ & H4 & H5 & H6);
      [intros _; split_and!; try done; by apply (deliverable_like md m) | by left | done |].
    exists bs', None. eexists. split; [unfold on_batcher, zoom, no_throw; by rewrite Hr' |].
    exists bm'. split_and!; try done; [by left |]. rewrite H6. unfold r1. by rewrite shared_with.
  - subst back. exists bs, (Some m). eexists. split; [unfold on_batcher, zoom, no_throw; by rewrite Hr |].
    apply (added_ok md m o live acc bm tmp r now); [done | done | done | by right | done].
Qed.

(** ** The handler of new messages *)

Definition routable (md : TMetadata) (m : TMsg) : Prop := deliverable md m ∧ Msg.State m = New ∧ Timestamp m ≤ INT64_MAX.

(** The messages [d] were refused and destroyed. *)
Definition ended (md : TMetadata) (d : list TMsg) : Prop := Forall (λ m, refused md m ∧ Msg.State m = Processed) d.

Lemma HandleMsgs_loop_ok fuel now md msgs ready remaining o live acc bm tmp r :
  TopicAutocreate Conf = false → router_inv md (msgs ++ concat ready ++ remaining ++ o) live acc bm tmp r →
  Forall input_ok msgs → Forall (batch_ready md) ready → Forall (routable md) remaining →
  ∃ ready' remaining' bm' d r', HandleMsgs_loop Conf fuel now msgs ready remaining r = (Ret (true, ready', remaining', []), r') ∧
    router_inv md (concat ready' ++ remaining' ++ o) live acc bm' tmp r' ∧ Forall (batch_ready md) ready' ∧ Forall (routable md) remaining' ∧
    BatcherIsEnabled r' = BatcherIsEnabled r ∧ Destroyed (shared_of r') = d ++ Destroyed (shared_of r) ∧ ended md d ∧
    who <$> (d ++ concat ready' ++ remaining' ++ bm') ≡ₚ who <$> (msgs ++ concat ready ++ remaining ++ bm).
Proof.
  intros Hauto. revert ready remaining bm r. induction msgs as [| m msgs IH]; intros ready remaining bm r Hi Hin Hrd Hrm.
  { exists ready, remaining, bm, [], r. split_and!; try done. constructor. }
  apply Forall_cons in Hin as [Hm Hin]. cbn [HandleMsgs_loop].
  destruct (ValidateNewMsg_ok fuel md m (msgs ++ concat ready ++ remaining ++ o) live acc bm tmp r Hauto Hi Hm) as (back & r1 & E1 & Hb1 & Hv).
  rewrite (bind_Ret _ _ _ _ _ E1). cbn beta iota. destruct back as [m' |].
  2: { destruct Hv as (Href & Hi1 & Hd1). destruct (IH ready remaining bm r1 Hi1 Hin Hrd Hrm) as (rd & rm & bm' & d & r2 & E2 & Hi2 & Hrd2 & Hrm2 & Hb2 & Hd2 & He2 & Hw2).
    exists rd, rm, bm', (d ++ [SetState Processed m]), r2. split; [done |]. split_and!; try done; [congruence | | |].
    - rewrite Hd2, Hd1. by rewrite <- app_assoc.
    - apply Forall_app. split; [done |]. apply Forall_cons_2; [done | constructor].
    - rewrite !fmap_app in *. cbn [app fmap list_fmap] in *. change (who (SetState Processed m)) with (who m).
      clear -Hw2. perm_lia. }
  destruct Hv as (-> & Hdel & Hi1 & Hd1). erewrite bind_Ret by reflexivity.
  destruct (bool_decide (RoutingType m = AnyPartition) && BatcherIsEnabled r1) eqn:Eb.
  - apply andb_true_iff in Eb as [Hrt%bool_decide_eq_true Hen].
    destruct (BatchMsg_ok md m (msgs ++ concat ready ++ remaining ++ o) live acc bm tmp r1 now Hi1 Hen Hdel) as (bs & back & r2 & E2 & bm2 & Hi2 & Hbs & Hback & Hw & Hb2 & Hd2);
      [by apply Hm | done | by apply Hm |].
    rewrite (bind_Ret _ _ _ (bs, back) (r2 <| Router.OptNextBatchExpiry := PerTopic_GetNextCompleteTime (Router.PerTopicBatcher r2) |>))
      by (rewrite (bind_Ret _ _ _ _ _ E2); reflexivity).
    set (r3 := r2 <| Router.OptNextBatchExpiry := _ |>). cbn beta iota.
    set (remaining2 := match back with Some m0 => remaining ++ [m0] | None => remaining end).
    assert (remaining2 ≡ₚ option_list back ++ remaining) as Hr2.
    { unfold remaining2. destruct back; cbn; [by rewrite Permutation_app_comm | done]. }
    destruct (IH (ready ++ bs) remaining2 bm2 r3) as (rd & rm & bm' & d & r4 & E4 & Hi4 & Hrd4 & Hrm4 & Hb4 & Hd4 & He4 & Hw4).
    + assert (router_inv md (concat bs ++ option_list back ++ msgs ++ concat ready ++ remaining ++ o) live acc bm2 tmp r3) as Hi3
        by (destruct Hi2; by split).
      eapply router_inv_perm; [| exact Hi3]. rewrite concat_app, Hr2. perm_lia.
    + done.
    + by apply Forall_app.
    + unfold remaining2. destruct Hback as [-> | ->]; [done |]. apply Forall_app. split; [done |]. apply Forall_cons_2; [| constructor].
      split_and!; [done | by apply Hm | by apply Hm].
    + exists rd, rm, bm', d, r4. split; [done |]. split_and!; try done; [unfold r3 in Hb4; cbn in Hb4; congruence | |].
      * rewrite Hd4. change (shared_of r3) with (shared_of r2). by rewrite Hd2, Hd1.
      * rewrite Hw4, concat_app, Hr2. rewrite !fmap_app in *. cbn [app fmap list_fmap] in *. clear -Hw. perm_lia.
  - erewrite bind_Ret by reflexivity. cbn beta iota. rewrite app_nil_r.
    destruct (IH ready (remaining ++ [m]) bm r1) as (rd & rm & bm' & d & r4 & E4 & Hi4 & Hrd4 & Hrm4 & Hb4 & Hd4 & He4 & Hw4).
    + eapply router_inv_perm; [| exact Hi1]. perm_lia.
    + done.
    + done.
    + apply Forall_app. split; [done |]. apply Forall_cons_2; [| constructor]. split_and!; [done | by apply Hm | by apply Hm].
    + exists rd, rm, bm', d, r4. split; [done |]. split_and!; try done; [congruence | congruence |].
      rewrite Hw4. assert (msgs ++ concat ready ++ (remaining ++ [m]) ++ bm ≡ₚ (m :: msgs) ++ concat ready ++ remaining ++ bm) as -> by perm_lia. done.
Qed.

Lemma Route_all_ok md l o live acc bm tmp r :
  router_inv md (l ++ o) live acc bm tmp r → Forall (routable md) l →
  ∃ live' acc' r', mfor_ Route l r = (Ret (), r') ∧ router_inv md o live' acc' bm tmp r' ∧ who <$> acc' ≡ₚ who <$> (l ++ acc) ∧
    BatcherIsEnabled r' = BatcherIsEnabled r ∧ Destroyed (shared_of r') = Destroyed (shared_of r).
Proof.
  intros Hi Hl. revert live acc r Hi. induction Hl as [| m l (Hd & Hs & Ht) Hl IH]; intros live acc r Hi; [by exists live, acc, r |].
  destruct (Route_ok md m (l ++ o) live acc bm tmp r Hi Hd Hs Ht) as (m' & live1 & r1 & E1 & Hi1 & Hw & Hb1 & Hd1).
  destruct (IH live1 ([m'] ++ acc) r1 Hi1) as (live2 & acc2 & r2 & E2 & Hi2 & Hw2 & Hb2 & Hd2). exists live2, acc2, r2.
  cbn [mfor_]. rewrite (bind_Ret _ _ _ _ _ E1). split_and!; try done; [| congruence | congruence].
  rewrite Hw2. rewrite !fmap_app. cbn [app fmap list_fmap]. rewrite Hw. perm_lia.
Qed.

(** What a handler does with the messages [new]: some are refused and destroyed, the
    dispatcher has accepted others for their brokers, the batcher has the rest. *)
Definition handles (md : TMetadata) (new o acc bm : list TMsg) r r' : Prop :=
  ∃ live' acc' bm' tmp' d, router_inv md o live' acc' bm' tmp' r' ∧ idle tmp' ∧ BatcherIsEnabled r' = BatcherIsEnabled r ∧
    Destroyed (shared_of r') = d ++ Destroyed (shared_of r) ∧ ended md d ∧
    who <$> (d ++ acc' ++ bm') ≡ₚ who <$> (new ++ acc ++ bm).

(** C6: the router's handler of new messages, with a dispatcher that keeps its
    contract and automatic creation of topics switched off, always returns; each
    message that it gets from the channel is then either accepted by the dispatcher
    (whose contract takes a message without a partition key only for a broker that
    leads one of its topic's available partitions), or in the batcher, or
    destroyed because its topic is unknown or has no available partition, because it is
    too long or cut off, or because its topic has a rate limit. *)
Theorem router_handles_new_messages fuel now md msgs w o live acc bm tmp r :
  TopicAutocreate Conf = false → router_inv md (msgs ++ o) live acc bm tmp r → idle tmp →
  MsgChannelGet (World r) = (msgs, w) → Forall input_ok msgs →
  ∃ r', HandleMsgAvailable Conf fuel now r = (Ret (), r') ∧ handles md msgs o acc bm r r'.
Proof.
  intros Hauto Hi Ht Hg Hm. unfold HandleMsgAvailable. erewrite bind_Ret by (unfold ask; by rewrite Hg).
  set (r0 := r <| World := w |>). assert (router_inv md (msgs ++ concat [] ++ [] ++ o) live acc bm tmp r0) as Hi0 by (destruct Hi; by split).
  destruct (HandleMsgs_loop_ok fuel now md msgs [] [] o live acc bm tmp r0 Hauto Hi0 Hm) as (rd & rm & bm1 & d & r1 & E1 & Hi1 & Hrd & Hrm & Hb1 & Hd1 & He1 & Hw1);
    [constructor | constructor |].
  rewrite (bind_Ret _ _ _ _ _ E1). cbn beta iota.
  destruct (RouteAnyPartitionNow_ok md rd (rm ++ o) live acc bm1 tmp r1 Hi1 Ht Hrd) as (tmp2 & live2 & acc2 & r2 & E2 & Hi2 & Ht2 & Ha2 & Hb2 & Hd2).
  rewrite (bind_Ret _ _ _ _ _ E2).
  destruct (Route_all_ok md rm o live2 acc2 bm1 tmp2 r2 Hi2 Hrm) as (live3 & acc3 & r3 & E3 & Hi3 & Hw3 & Hb3 & Hd3).
  exists r3. split; [done |]. exists live3, acc3, bm1, tmp2, d. split_and!; try done.
  - rewrite Hb3, Hb2, Hb1. done.
  - by rewrite Hd3, Hd2, Hd1.
  - rewrite !fmap_app in *. rewrite Hw3, Ha2. rewrite fmap_app. cbn [concat app fmap list_fmap] in Hw1. clear -Hw1. perm_lia.
Qed.

(** ** Batches that are complete *)

Lemma complete_batches_ok md now o live acc bm tmp r :
  router_inv md o live acc bm tmp r → BatcherIsEnabled r = true →
  ∃ bs bm' r', on_batcher (GetCompleteBatches now) r = (Ret bs, r') ∧ router_inv md (concat bs ++ o) live acc bm' tmp r' ∧
    Forall (batch_ready md) bs ∧ bm ≡ₚ concat bs ++ bm' ∧ BatcherIsEnabled r' = BatcherIsEnabled r ∧ shared_of r' = shared_of r.
Proof.
  intros Hi Hen. set (b := Router.PerTopicBatcher r). pose proof (ri_pt _ _ _ _ _ _ _ Hi) as Hpt. fold b in Hpt.
  destruct (GetCompleteBatches_loop_ok now _ b Hpt eq_refl) as (b' & Hr & Hi' & _ & Htr & Hh & _).
  destruct (pt_rep_exists b' Hi') as [bm' Hbm']. set (bs := PerTopicBatcher.held b <$> (RecTopic <$> due now b)) in *.
  assert (Forall (λ l, l ≠ [] ∧ ∃ t, Forall (λ m, Topic m = t) l) bs) as Hbs.
  { apply Forall_fmap, Forall_forall. intros t Ht. split; [by eapply held_nonempty_due |]. exists t. apply Forall_forall.
    intros m. fold b in Hpt. rewrite <- (ri_rep _ _ _ _ _ _ _ Hi). by intros [? _]%list_elem_of_filter. }
  assert (bm ≡ₚ concat bs ++ bm') as Hp.
  { apply of_topic_perm. intros t. rewrite of_topic_app, (ri_rep _ _ _ _ _ _ _ Hi), Hbm', Hh. fold b. unfold bs.
    rewrite of_topic_concat by (done || by apply due_topics_NoDup). case_decide; by rewrite ?app_nil_r. }
  assert (Forall (batched md) (concat bs ++ bm')) as [Hb1 Hb2]%Forall_app by (rewrite <- Hp; apply Hi).
  exists bs, bm'. eexists. split.
  { unfold on_batcher, zoom, no_throw, GetCompleteBatches. munfold. fold b. cbv beta. by rewrite Hr. }
  split; [| split; [by apply batched_ready | done]].
  eapply router_inv_batcher; [exact Hi | done | done | done | | done]. rewrite Hp. perm_lia.
Qed.

Lemma all_batches_ok md o live acc bm tmp r :
  router_inv md o live acc bm tmp r → BatcherIsEnabled r = true →
  ∃ bs r', on_batcher GetAllBatches r = (Ret bs, r') ∧ router_inv md (concat bs ++ o) live acc [] tmp r' ∧
    Forall (batch_ready md) bs ∧ bm ≡ₚ concat bs ∧ BatcherIsEnabled r' = BatcherIsEnabled r ∧ shared_of r' = shared_of r.
Proof.
  intros Hi Hen. set (b := Router.PerTopicBatcher r). pose proof (ri_pt _ _ _ _ _ _ _ Hi) as Hpt. fold b in Hpt.
  destruct (GetAllBatches_ok b Hpt) as (ts & b' & Hr & Hnd & Hts & Hi' & _ & Htr & Hh).
  set (bs := filter (λ l, l ≠ []) (PerTopicBatcher.held b <$> ts)) in *.
  assert (Forall (λ l, l ≠ [] ∧ ∃ t, Forall (λ m, Topic m = t) l) bs) as Hbs.
  { apply Forall_forall. intros l [Hl (t & -> & Ht)%list_elem_of_fmap]%list_elem_of_filter. split; [done |]. exists t.
    apply Forall_forall. intros m. rewrite <- (ri_rep _ _ _ _ _ _ _ Hi). by intros [? _]%list_elem_of_filter. }
  assert (bm ≡ₚ concat bs) as Hp.
  { unfold bs. rewrite concat_nonempty. apply of_topic_perm. intros t. rewrite of_topic_concat by done. rewrite (ri_rep _ _ _ _ _ _ _ Hi).
    case_decide as Hd; [done |]. fold b. unfold PerTopicBatcher.held. destruct (BatchMap b !! t) eqn:He; [| done]. destruct Hd. apply Hts. by rewrite He. }
  exists bs. eexists. split; [unfold on_batcher, zoom, no_throw; fold b; by rewrite Hr |].
  split; [| split; [apply batched_ready; [done | rewrite <- Hp; apply Hi] | done]].
  eapply router_inv_batcher; [exact Hi | done | intros t; by rewrite Hh | done | by rewrite Hp | constructor].
Qed.

(** Batches that the batcher hands out reach the dispatcher. *)
Lemma HandleBatchExpiry_ok now md o live acc bm tmp r :
  router_inv md o live acc bm tmp r → idle tmp → BatcherIsEnabled r = true →
  ∃ r', HandleBatchExpiry now r = (Ret (), r') ∧ handles md [] o acc bm r r'.
Proof.
  intros Hi Ht Hen. unfold HandleBatchExpiry. erewrite bind_Ret by reflexivity. rewrite Hen. erewrite bind_Ret by reflexivity.
  destruct (complete_batches_ok md now o live acc bm tmp r Hi Hen) as (bs & bm1 & r1 & E1 & Hi1 & Hb & Hp & Hb1 & Hs1).
  rewrite (bind_Ret _ _ _ _ _ E1).
  destruct (RouteAnyPartitionNow_ok md bs o live acc bm1 tmp r1 Hi1 Ht Hb) as (tmp2 & live2 & acc2 & r2 & E2 & Hi2 & Ht2 & Ha2 & Hb2 & Hd2).
  rewrite (bind_Ret _ _ _ _ _ E2). eexists. split; [reflexivity |].
  exists live2, acc2, bm1, tmp2, []. split_and!; try done.
  - destruct Hi2. by split.
  - cbn. congruence.
  - transitivity (Destroyed (shared_of r2)); [done |]. by rewrite Hd2, Hs1.
  - constructor.
  - cbn [app]. apply fmap_Permutation. rewrite Ha2, Hp. perm_lia.
Qed.

(** ** The last messages, when the server shuts down *)

Lemma RouteFinal_loop_ok fuel md msgs o live acc bm tmp r :
  TopicAutocreate Conf = false → router_inv md (msgs ++ o) live acc bm tmp r → Forall input_ok msgs →
  ∃ live' acc' d r', RouteFinal_loop Conf fuel msgs r = (Ret [], r') ∧ router_inv md o live' acc' bm tmp r' ∧
    BatcherIsEnabled r' = BatcherIsEnabled r ∧ Destroyed (shared_of r') = d ++ Destroyed (shared_of r) ∧ ended md d ∧
    who <$> (d ++ acc') ≡ₚ who <$> (msgs ++ acc).
Proof.
  intros Hauto Hi Hm. revert live acc r Hi. induction Hm as [| m msgs Hm Hms IH]; intros live acc r Hi.
  { exists live, acc, [], r. split_and!; try done. constructor. }
  destruct (ValidateNewMsg_ok fuel md m (msgs ++ o) live acc bm tmp r Hauto Hi Hm) as (back & r1 & E1 & Hb1 & Hv).
  cbn [RouteFinal_loop]. rewrite (bind_Ret _ _ _ _ _ E1). cbn beta iota. destruct back as [m1 |].
  - destruct Hv as (-> & Hdel & Hi1 & Hd1).
    destruct (RouteNow_ok md m (msgs ++ o) live acc bm tmp r1 Hi1 Hdel) as (m' & live2 & r2 & E2 & Hi2 & Hw & Hb2 & Hd2);
      [by rewrite (io_state _ Hm) |].
    destruct (IH live2 ([m'] ++ acc) r2 Hi2) as (live3 & acc3 & d & r3 & E3 & Hi3 & Hb3 & Hd3 & He3 & Hw3).
    exists live3, acc3, d, r3. rewrite (bind_Ret _ _ _ _ _ E2). split_and!; try done; [congruence | congruence |].
    rewrite Hw3. rewrite !fmap_app. cbn [app fmap list_fmap]. rewrite Hw. perm_lia.
  - destruct Hv as (Href & Hi1 & Hd1). destruct (IH live acc r1 Hi1) as (live3 & acc3 & d & r3 & E3 & Hi3 & Hb3 & Hd3 & He3 & Hw3).
    exists live3, acc3, (d ++ [SetState Processed m]), r3. erewrite bind_Ret by reflexivity. split_and!; try done; [congruence | | |].
    + rewrite Hd3, Hd1. by rewrite <- app_assoc.
    + apply Forall_app. split; [done |]. apply Forall_cons_2; [done | constructor].
    + rewrite !fmap_app in *. cbn [app fmap list_fmap] in *. change (who (SetState Processed m)) with (who m). clear -Hw3. perm_lia.
Qed.

(** Time passes in the world, and nothing else happens. *)
Definition passes : W → W → Prop := rtc (λ w w', w' = (GetEpochMilliseconds w).2).

(** The operation only looks at the clock. *)
Definition only_time {A} (m : M router_exn (TRouterThread W D) A) : Prop := ∀ r, passes (World r) (World (m r).2).

Lemma only_time_bind {A B} (m : M router_exn (TRouterThread W D) A) (f : A → M router_exn (TRouterThread W D) B) :
  only_time m → (∀ a, only_time (f a)) → only_time (m ≫= f).
Proof.
  intros Hm Hf r. specialize (Hm r). unfold mbind, M_bind. destruct (m r) as [[a | e | x] r1]; [| done..].
  etrans; [exact Hm | apply Hf].
Qed.

Lemma only_time_for {A} (f : A → M router_exn (TRouterThread W D) ()) l : (∀ a, only_time (f a)) → only_time (mfor_ f l).
Proof. intros Hf. induction l as [| a l IH]; [intros r; constructor |]. apply only_time_bind; [done | by intros []]. Qed.

Lemma only_time_same {A} (m : M router_exn (TRouterThread W D) A) : (∀ r, World (m r).2 = World r) → only_time m.
Proof. intros Hm r. rewrite Hm. constructor. Qed.

Lemma only_time_zoom {A T} (proj : TRouterThread W D → T) upd (m : M router_exn T A) :
  (∀ t r, World (upd t r) = World r) → only_time (zoom proj upd m).
Proof. intros Hu. apply only_time_same. intros r. unfold zoom. destruct (m (proj r)). apply Hu. Qed.

Lemma only_time_choose topic : only_time (ChooseAnyPartitionBrokerIndex topic).
Proof.
  apply only_time_same. intros r. unfold ChooseAnyPartitionBrokerIndex, LookupValidTopicIndex, asserted_metadata, lift, need, massert. munfold.
  repeat case_match; simplify_eq; done.
Qed.

Lemma RouteAnyPartitionNow_only_time bs : only_time (RouteAnyPartitionNow bs).
Proof.
  destruct bs as [| b bs]; [by apply only_time_same |]. unfold RouteAnyPartitionNow. apply only_time_bind; [| intros _; apply only_time_bind].
  - apply only_time_for. intros l. unfold MapBatch. apply only_time_bind; [apply only_time_same; intros r; by destruct (head l) |].
    intros m. apply only_time_bind; [apply only_time_choose | intros i; by apply only_time_same].
  - by apply only_time_same.
  - intros m. apply only_time_for. intros i. unfold DispatchEntry. apply only_time_bind; [by apply only_time_same |].
    intros tmp. destruct (default [] (tmp !! i)) as [| l ls]; [by apply only_time_same |].
    apply only_time_bind; [| intros now; apply only_time_bind; [by apply only_time_zoom | intros _; by apply only_time_same]].
    intros r. unfold ask. destruct (GetEpochMilliseconds (World r)) as [now w] eqn:E. cbn. apply rtc_once. by rewrite E.
Qed.

(** C11: when the server shuts down, with a dispatcher that keeps its contract and
    automatic creation of topics switched off (with it on, a message for a new topic makes
    the code refresh the metadata after the shutdown has started, which fails an
    assertion), [RouteFinalMsgs] empties the batcher and the channel of new messages: it
    returns, each of their messages has been accepted by the dispatcher or was refused and
    destroyed for one of the reasons of a new message, and none is left with the router. *)
Theorem router_routes_final_messages fuel md msgs o live acc bm tmp r :
  TopicAutocreate Conf = false → router_inv md (msgs ++ o) live acc bm tmp r → idle tmp →
  (∀ w, passes (World r) w → (MsgChannelNonblockingGet w).1 = msgs) → Forall input_ok msgs →
  ∃ r' live' acc' tmp' d, RouteFinalMsgs Conf fuel r = (Ret (), r') ∧ router_inv md o live' acc' [] tmp' r' ∧ idle tmp' ∧
    Destroyed (shared_of r') = d ++ Destroyed (shared_of r) ∧ ended md d ∧ who <$> (d ++ acc') ≡ₚ who <$> (msgs ++ acc ++ bm).
Proof.
  intros Hauto Hi Ht Hg Hm. unfold RouteFinalMsgs, asserted_metadata. erewrite bind_Ret by (munfold; by rewrite (ri_md _ _ _ _ _ _ _ Hi)).
  erewrite bind_Ret by reflexivity.
  assert (∃ live1 acc1 tmp1 r1, (if BatcherIsEnabled r then batches ← on_batcher GetAllBatches; RouteAnyPartitionNow batches else mret ()) r = (Ret (), r1) ∧
    router_inv md (msgs ++ o) live1 acc1 [] tmp1 r1 ∧ idle tmp1 ∧ acc1 ≡ₚ bm ++ acc ∧ passes (World r) (World r1) ∧ Destroyed (shared_of r1) = Destroyed (shared_of r))
    as (live1 & acc1 & tmp1 & r1 & E1 & Hi1 & Ht1 & Ha1 & Hw1 & Hd1).
  { destruct (BatcherIsEnabled r) eqn:Hen.
    - destruct (all_batches_ok md _ live acc bm tmp r Hi Hen) as (bs & r1 & E1 & Hi1 & Hb1 & Hp & _ & Hs1). rewrite (bind_Ret _ _ _ _ _ E1).
      destruct (RouteAnyPartitionNow_ok md bs _ live acc [] tmp r1 Hi1 Ht Hb1) as (tmp2 & live2 & acc2 & r2 & E2 & Hi2 & Ht2 & Ha2 & _ & Hd2).
      exists live2, acc2, tmp2, r2. split_and!; try done; [by rewrite Ha2, Hp | | congruence].
      pose proof (RouteAnyPartitionNow_only_time bs r1) as Hw. rewrite E2 in Hw. unfold on_batcher, zoom in E1. destruct (no_throw _ _). by simplify_eq.
    - rewrite (ri_off _ _ _ _ _ _ _ Hi Hen) in Hi |- *. exists live, acc, tmp, r. split_and!; try done. }
  rewrite (bind_Ret _ _ _ _ _ E1). specialize (Hg _ Hw1).
  destruct (MsgChannelNonblockingGet (World r1)) as [msgs' w] eqn:Eg. cbn in Hg. subst msgs'.
  erewrite bind_Ret by (unfold ask; by rewrite Eg).
  set (r2 := r1 <| World := w |>). assert (router_inv md (msgs ++ o) live1 acc1 [] tmp1 r2) as Hi2 by (destruct Hi1; by split).
  destruct (RouteFinal_loop_ok fuel md msgs o live1 acc1 [] tmp1 r2 Hauto Hi2 Hm) as (live3 & acc3 & d & r3 & E3 & Hi3 & _ & Hd3 & He3 & Hw3).
  rewrite (bind_Ret _ _ _ _ _ E3). exists r3, live3, acc3, tmp1, d. split_and!; try done.
  - rewrite Hd3. transitivity (d ++ Destroyed (shared_of r1)); [done | by rewrite Hd1].
  - rewrite Hw3. apply fmap_Permutation. rewrite Ha1. perm_lia.
Qed.
End msgs.
