(* ===== verification/KafkaDispatcher.v ===== *)
(** * The Kafka dispatcher
      (dory/msg_dispatch/kafka_dispatcher.{h,cc}, dispatcher_shared_state.{h,cc},
       thread/fd_managed_thread.{h,cc})

    The dispatcher has a connector, with a thread of its own, for every broker in
    service.  The trackers, the pause button and the count of the running threads are
    shared.  A thread connects, runs the iterations of its loop, and finishes; what it
    meets is a list of events.  The schedule says which thread makes which step, in
    bursts: a burst is what the threads do while the caller waits once.

    The messages that a connector destroyed stay in the connector's own list; the list
    of the shared state has those of the other threads. *)
From S2P Require Import Prelude FieldAccess StreamReader Capped Msg AnomalyTracker Batch PerTopicBatcher BrokerMsgQueue.
From S2P Require Import Metadata Wire ProduceResponse StdMap ResponseProcessor ProduceRequest RequestFactory RequestBytes.
From S2P Require Import Connector DispatcherApi.

(** ** State *)

(** Where a thread is.  [Thread.joinable()] holds until it is joined; the descriptor
    [GetShutdownWaitFd()] is readable in [Terminated]. *)
Inductive thread_phase := Launched | InLoop | Terminated | Joined.

#[global] Instance thread_phase_eq_dec : EqDecision thread_phase.
Proof. solve_decision. Defined.

Record TConnThread := mkConnThread { Conn : TConnector; Phase : thread_phase }.

Definition IsStarted (t : TConnThread) : bool := bool_decide (Phase t ≠ Joined).

(** What happens to a thread: the result of [ConnectToHost] with the descriptor of the
    socket, or an iteration of its loop. *)
Inductive thread_step := Connects (connected : bool) (fd : Z) | Iterates (e : conn_event).

Record TKafkaDispatcher := mkDispatcher {
  Ds : TDispatcherSharedState;
  ProduceProtocol : bool;
  DsPauseButton : bool;
  RunningThreadCount : Z;
  ShutdownFinished : Z;
  DState : TDispatcherState;
  DOkShutdown : bool;
  Connectors : list TConnThread;
  Schedule : list (list (nat * thread_step))
}.

#[global] Instance TKafkaDispatcher_settable : Settable TKafkaDispatcher := λ d,
  mkDispatcher (Ds d) (ProduceProtocol d) (DsPauseButton d) (RunningThreadCount d) (ShutdownFinished d) (DState d)
    (DOkShutdown d) (Connectors d) (Schedule d).

(** The parts of the configuration that the dispatcher hands to its connectors. *)
Record disp_conf := mkDispConf {
  ConnConf : conn_conf;
  PerTopicBatching : option TPerTopicConfig;
  CombinedBatching : TBatchConfig;
  CombinedTopicFilter : gset string;
  CombinedExclude : bool
}.

(** The configuration of the connector for the broker with index [i]. *)
Definition conf_at (conf : disp_conf) (i : nat) : conn_conf :=
  let c := ConnConf conf in let f := FactoryConf c in
  mkConnConf i (mkFactoryConf i (ProduceRequestDataLimit f) (RequestFactory.MessageMaxBytes f) (MaxRatio f) (ClientId f) (ReplicationTimeout f))
    (CompressionConf c) (MaxFailedDeliveryAttempts c) (KafkaSocketTimeout c) (DispatcherRestartMaxDelay c) (ShutdownMaxDelay c).

Definition DM := M Empty_set TKafkaDispatcher.

(** ** The shared state *)

Definition MarkAllThreadsRunning (in_service_broker_count : nat) : DM () :=
  d ← get;
  massert (RunningThreadCount d =? 0);;
  massert (ShutdownFinished d =? 0);;
  modify (λ d, d <| RunningThreadCount := Z.of_nat in_service_broker_count |>).

Definition HandleAllThreadsFinished : DM () :=
  modify (λ d, d <| ShutdownFinished := ShutdownFinished d + 1 |>).

Definition MarkThreadFinished : DM () :=
  modify (λ d, d <| RunningThreadCount := usub (RunningThreadCount d) 1 |>);;
  d ← get;
  if RunningThreadCount d =? 0 then HandleAllThreadsFinished else mret ().

Definition ResetThreadFinishedState : DM () :=
  d ← get;
  massert (RunningThreadCount d =? 0);;
  massert (0 <? ShutdownFinished d);;
  modify (λ d, d <| ShutdownFinished := 0 |>).

(** The connector with the shared state as it is now, and back. *)
Definition enter (ds : TDispatcherSharedState) (pause : bool) (c : TConnector) : TConnector :=
  c <| Shared := mkShared (ResponseProcessor.MsgStateTracker ds) (ResponseProcessor.AnomalyTracker ds) (AckCount ds) (Destroyed (Shared c)) |>
    <| PauseButton := pause |>.

Definition leave (ds : TDispatcherSharedState) (c : TConnector) : TDispatcherSharedState :=
  mkShared (tracker_of c) (ResponseProcessor.AnomalyTracker (Shared c)) (AckCount (Shared c)) (Destroyed ds).

(** The state when the thread [i] is left in [c], in phase [p]. *)
Definition with_conn (i : nat) (c : TConnector) (p : thread_phase) (d : TKafkaDispatcher) : TKafkaDispatcher :=
  d <| Ds := leave (Ds d) c |> <| DsPauseButton := PauseButton c |> <| Connectors := <[i := mkConnThread c p]> (Connectors d) |>.

(** [m] on the connector with index [i]; [None] if it throws.  [next] is the phase
    that the thread is in then. *)
Definition on_connector {A} (i : nat) (next : option A → thread_phase → thread_phase) (m : CM A) : DM (option A) := λ d,
  match Connectors d !! i with
  | None => (Fault OutOfBounds, d)
  | Some t =>
      let '(o, c) := m (enter (Ds d) (DsPauseButton d) (Conn t)) in
      match o with
      | Ret a => (Ret (Some a), with_conn i c (next (Some a) (Phase t)) d)
      | Throw ShutdownOnDestroy => (Ret None, with_conn i c (next None (Phase t)) d)
      | Fault x => (Fault x, with_conn i c (Phase t) d)
      end
  end.

(** An operation of another thread on the connector; none of them throws. *)
Definition call_connector {A} (i : nat) (m : CM A) : DM A :=
  a ← on_connector i (λ _ p, p) m; need Died a.

Fixpoint each_connector (f : nat → DM ()) (i n : nat) : DM () :=
  match n with
  | O => mret ()
  | S n => f i;; each_connector f (S i) n
  end.

Definition for_connectors (f : nat → DM ()) : DM () :=
  d ← get; each_connector f 0 (length (Connectors d)).

Definition the_thread (i : nat) : DM TConnThread := d ← get; need OutOfBounds (Connectors d !! i).

Section dispatcher.
Context `{HashOrder}.
Context (GetCompressionCodec : TCompressionType → option TCompressionCodec) (ComputeCrc32 : list byte → Z).
Context (conf : disp_conf).

(** ** The threads *)

(** The end of [TConnector::Run] closes the socket. *)
Definition phase_after (go_on : option bool) (_ : thread_phase) : thread_phase :=
  match go_on with Some true => InLoop | _ => Terminated end.

Definition close_socket (m : CM bool) : CM bool := λ c,
  match m c with
  | (Ret true, c') => (Ret true, c')
  | (o, c') => (o, c' <| Sock := false |>)
  end.

Definition run_thread (i : nat) (m : CM bool) : DM () :=
  go_on ← on_connector i phase_after (close_socket m);
  match go_on with Some true => mret () | _ => MarkThreadFinished end.

(** A step of thread [i]: [Run] up to the loop of [DoRun], or an iteration.  A step
    that the thread cannot make is skipped. *)
Definition step_thread (i : nat) (s : thread_step) : DM () :=
  d ← get;
  match Connectors d !! i with
  | None => mret ()
  | Some t =>
      match Phase t, s with
      | Launched, Connects connected fd =>
          run_thread i
            (c ← get;
             md ← need AssertFailed (CMetadata c);
             massert (MyBrokerIndex (conf_at conf i) <? length (Brokers md))%nat;;
             DoRun_start (conf_at conf i) connected fd)
      | InLoop, Iterates e => run_thread i (iteration ComputeCrc32 (conf_at conf i) e)
      | _, _ => mret ()
      end
  end.

Fixpoint run_steps (l : list (nat * thread_step)) : DM () :=
  match l with
  | [] => mret ()
  | (i, s) :: l => step_thread i s;; run_steps l
  end.

(** The next burst. *)
Definition run_threads : DM () :=
  d ← get;
  match Schedule d with
  | [] => mret ()
  | l :: ls => modify (λ d, d <| Schedule := ls |>);; run_steps l
  end.

(** A wait for something that the threads do; with an empty schedule it never ends. *)
Fixpoint wait_for (ready : TKafkaDispatcher → bool) (n : nat) : DM () :=
  d ← get;
  if ready d then mret ()
  else match n with
    | O => crash OutOfFuel
    | S n => run_threads;; wait_for ready n
    end.

Definition wait (ready : TKafkaDispatcher → bool) : DM () := d ← get; wait_for ready (length (Schedule d)).

(** ** The operations *)

Definition SetProduceProtocol (protocol : bool) : DM () := modify (λ d, d <| ProduceProtocol := protocol |>).

Definition Dispatcher_GetState (d : TKafkaDispatcher) : TDispatcherState := DState d.
Definition Dispatcher_GetBrokerCount (d : TKafkaDispatcher) : nat := length (Connectors d).

(** The connector for broker [i], with its thread started. *)
Definition StartConnector (md : TMetadata) (i : nat) : DM () :=
  broker ← need OutOfBounds (Brokers md !! i);
  massert (InService broker);;
  d ← get;
  let c := TConnector_new GetCompressionCodec (conf_at conf i)
    (mkShared (ResponseProcessor.MsgStateTracker (Ds d)) (ResponseProcessor.AnomalyTracker (Ds d)) (AckCount (Ds d)) [])
    (PerTopicBatching conf) (CombinedBatching conf) (CombinedTopicFilter conf) (CombinedExclude conf) in
  modify (λ d, d <| Connectors := Connectors d ++ [mkConnThread c Launched] |>);;
  call_connector i (SetMetadata GetCompressionCodec (conf_at conf i) md).

(** The vector is filled from its front, here and in the code. *)
Definition Dispatcher_Start (md : TMetadata) : DM () :=
  d ← get;
  massert (ProduceProtocol d);;
  massert (bool_decide (DState d = Stopped));;
  massert (negb (DsPauseButton d));;
  massert (ShutdownFinished d =? 0);;
  massert (RunningThreadCount d =? 0);;
  modify (λ d, d <| DOkShutdown := true |>);;
  let num_in_service := InServiceBrokerCount md in
  massert (num_in_service <=? length (Brokers md))%nat;;
  modify (λ d, d <| Connectors := [] |>);;
  MarkAllThreadsRunning num_in_service;;
  each_connector (StartConnector md) 0 num_in_service;;
  massert (forallb (λ b, negb (InService b)) (drop num_in_service (Brokers md)));;
  modify (λ d, d <| DState := Started |>).

(** The index of a broker without a connector fails an assertion. *)
Definition check_index (broker_index : nat) : DM () :=
  d ← get; massert (broker_index <? length (Connectors d))%nat.

Definition check_running : DM () := d ← get; massert (bool_decide (DState d ≠ Stopped)).

Definition Dispatcher_Dispatch (now : Z) (msg : TMsg) (broker_index : nat) : DM () :=
  check_running;; check_index broker_index;; call_connector broker_index (Dispatch now msg).

Definition Dispatcher_DispatchNow (now : Z) (msg : TMsg) (broker_index : nat) : DM () :=
  check_running;; check_index broker_index;; call_connector broker_index (DispatchNow now msg).

Definition Dispatcher_DispatchNow_batch (now : Z) (batch : list (list TMsg)) (broker_index : nat) : DM () :=
  check_running;;
  match batch with
  | [] => mret ()
  | _ => check_index broker_index;; call_connector broker_index (DispatchNow_batch now batch)
  end.

(** [WaitForShutdownAck] waits until the acknowledgement was pushed or the thread is
    about to terminate. *)
Definition ack_or_end (i : nat) (d : TKafkaDispatcher) : bool :=
  match Connectors d !! i with
  | Some t => (0 <? ShutdownAck (Conn t)) || bool_decide (Phase t = Terminated)
  | None => true
  end.

(** The two loops over the connectors, for the command [start]. *)
Definition start_shutdown (start : CM ()) : DM () :=
  check_running;;
  d ← get;
  (if bool_decide (Connectors d = []) then HandleAllThreadsFinished
   else
     for_connectors (λ i, t ← the_thread i; massert (IsStarted t);; call_connector i start);;
     for_connectors (λ i, wait (ack_or_end i);; call_connector i WaitForShutdownAck));;
  modify (λ d, d <| DState := ShuttingDown |>).

Definition Dispatcher_StartSlowShutdown (start_time : Z) : DM () := start_shutdown (StartSlowShutdown start_time).
Definition Dispatcher_StartFastShutdown : DM () := start_shutdown StartFastShutdown.

Definition PauseReadable (d : TKafkaDispatcher) : bool := DsPauseButton d.
Definition ShutdownWaitReadable (d : TKafkaDispatcher) : bool := 0 <? ShutdownFinished d.

(** [Join] waits for the end of the thread; [Run] lets no exception escape.  It clears
    a shutdown request that the thread has not seen. *)
Definition Join (i : nat) : DM () :=
  t ← the_thread i;
  (if IsStarted t then mret () else crash Died);;
  wait (λ d, match Connectors d !! i with Some t => bool_decide (Phase t = Terminated) | None => true end);;
  _ ← on_connector i (λ _ _, Joined) (modify (λ c, c <| ShutdownRequest := false |>));
  mret ().

Definition JoinOne (i : nat) : DM () :=
  Join i;;
  call_connector i CleanupAfterJoin.

Definition JoinAll : DM () :=
  check_running;;
  for_connectors JoinOne;;
  modify (λ d, d <| DOkShutdown := forallb (λ t, Connector.OkShutdown (Conn t)) (Connectors d) |> <| DsPauseButton := false |>);;
  d ← get;
  massert (0 <? ShutdownFinished d);;
  ResetThreadFinishedState;;
  modify (λ d, d <| DState := Stopped |>).

Definition Dispatcher_ShutdownWasOk (d : TKafkaDispatcher) : bool := DOkShutdown d.

Definition check_stopped : DM () := d ← get; massert (bool_decide (DState d = Stopped)).

Definition Dispatcher_GetNoAckQueueAfterShutdown (broker_index : nat) : DM (list (list TMsg)) :=
  check_stopped;; check_index broker_index;; call_connector broker_index GetNoAckQueueAfterShutdown.

Definition Dispatcher_GetSendWaitQueueAfterShutdown (broker_index : nat) : DM (list (list TMsg)) :=
  check_stopped;; check_index broker_index;; call_connector broker_index GetSendWaitQueueAfterShutdown.

Definition Dispatcher_GetAckCount (d : TKafkaDispatcher) : Z := AckCount (Ds d).

(** The dispatcher before its first start. *)
Definition TKafkaDispatcher_new (ds : TDispatcherSharedState) (schedule : list (list (nat * thread_step))) : TKafkaDispatcher :=
  mkDispatcher ds false false 0 0 Stopped true [] schedule.

Definition TKafkaDispatcher_api : TKafkaDispatcherApi TKafkaDispatcher := {|
  disp_shared := Ds;
  disp_set_shared s d := d <| Ds := s |>;
  disp_run := run_threads;
  disp_SetProduceProtocol := SetProduceProtocol;
  disp_GetState := Dispatcher_GetState;
  disp_GetBrokerCount := Dispatcher_GetBrokerCount;
  disp_Start := Dispatcher_Start;
  disp_Dispatch := Dispatcher_Dispatch;
  disp_DispatchNow := Dispatcher_DispatchNow;
  disp_DispatchNow_batch := Dispatcher_DispatchNow_batch;
  disp_StartSlowShutdown := Dispatcher_StartSlowShutdown;
  disp_StartFastShutdown := Dispatcher_StartFastShutdown;
  disp_PauseReadable := PauseReadable;
  disp_ShutdownWaitReadable := ShutdownWaitReadable;
  disp_JoinAll := JoinAll;
  disp_ShutdownWasOk := Dispatcher_ShutdownWasOk;
  disp_GetNoAckQueueAfterShutdown := Dispatcher_GetNoAckQueueAfterShutdown;
  disp_GetSendWaitQueueAfterShutdown := Dispatcher_GetSendWaitQueueAfterShutdown
|}.
End dispatcher.
