(* ===== verification/ConnectorFrame.v ===== *)
(** * What the connector's thread leaves alone

    The metadata of the request factory stays as the dispatcher set it, and only the
    handler of a shutdown request changes the shutdown command, the request and its
    acknowledgement.  [keeps f m] says that [m] does not change the part [f] of the
    state, however it ends; it is closed under the monad's operations. *)
From S2P Require Import Prelude FieldAccess StreamReader Capped Msg AnomalyTracker Batch PerTopicBatcher BrokerMsgQueue.
From S2P Require Import Metadata Wire ProduceResponse StdMap ResponseProcessor ProduceRequest RequestFactory RequestBytes.
From S2P Require Import Connector.

Definition keeps {E S A X} (f : S → X) (m : M E S A) : Prop := ∀ s, f (m s).2 = f s.

Section keeps.
Context {E S X : Type} (f : S → X).

Lemma keeps_bind {A B} (m : M E S A) (k : A → M E S B) : keeps f m → (∀ a, keeps f (k a)) → keeps f (m ≫= k).
Proof.
  intros Hm Hk s. specialize (Hm s). unfold mbind, M_bind. destruct (m s) as [[a | e | x] s']; [| done..].
  by rewrite Hk.
Qed.

Lemma keeps_pure {A} (m : M E S A) : (∀ s, (m s).2 = s) → keeps f m.
Proof. intros Hm s. by rewrite Hm. Qed.

Lemma keeps_ret {A} (a : A) : keeps f (mret a : M E S A).
Proof. by apply keeps_pure. Qed.

Lemma keeps_modify (g : S → S) : (∀ s, f (g s) = f s) → keeps f (modify g : M E S ()).
Proof. intros Hg s. apply Hg. Qed.

Lemma keeps_massert b : keeps f (massert b : M E S ()).
Proof. apply keeps_pure. intros s. by destruct b. Qed.

Lemma keeps_need {A} x (o : option A) : keeps f (need x o : M E S A).
Proof. apply keeps_pure. intros s. by destruct o. Qed.

Lemma keeps_mmap {A B} (g : A → M E S B) l : (∀ a, keeps f (g a)) → keeps f (mmap g l).
Proof.
  intros Hg. induction l as [| a l IH]; [apply keeps_ret |]. cbn [mmap]. apply keeps_bind; [done |]. intros b.
  apply keeps_bind; [done |]. intros bs. apply keeps_ret.
Qed.

Lemma keeps_zoom {T A} (proj : S → T) upd (m : M E T A) : (∀ t s, f (upd t s) = f s) → keeps f (zoom proj upd m).
Proof. intros Hu s. unfold zoom. destruct (m (proj s)). apply Hu. Qed.
End keeps.

Create HintDb frame.
#[export] Hint Resolve keeps_ret keeps_massert keeps_need : frame.

(** A step of a proof that a program keeps something. *)
Ltac frame_step :=
  match goal with
  | |- keeps _ (_ ≫= _) => apply keeps_bind; [| intros ?]
  | |- keeps _ (mmap _ _) => apply keeps_mmap; intros ?
  | |- keeps _ (modify _) => apply keeps_modify; done
  | |- keeps _ (zoom _ _ _) => apply keeps_zoom; done
  | |- keeps _ (match ?x with _ => _ end) => destruct x
  | |- keeps _ _ => solve [eauto with frame]
  | |- keeps _ _ => apply keeps_pure; done
  end.
Ltac frame := repeat frame_step.

(** ** The factory *)

Lemma on_request_frame {A} (m : Request.RW A) : keeps FMetadata (on_request m).
Proof. unfold on_request. frame. Qed.

Lemma on_compression_frame {A} (m : MsgSet.MW A) : keeps FMetadata (on_compression m).
Proof. unfold on_compression. frame. Qed.

Lemma set_queue_frame q : keeps FMetadata (set_queue q).
Proof. unfold set_queue. frame. Qed.

Lemma set_topic_data_frame t : keeps FMetadata (set_topic_data t).
Proof. unfold set_topic_data. frame. Qed.
#[export] Hint Resolve on_request_frame on_compression_frame set_queue_frame set_topic_data_frame : frame.

Lemma GetTopicData_frame topic : keeps FMetadata (GetTopicData topic).
Proof. unfold GetTopicData. frame. Qed.

Lemma on_chooser_frame topic g : keeps FMetadata (on_chooser topic g).
Proof. unfold on_chooser. frame. Qed.
#[export] Hint Resolve GetTopicData_frame on_chooser_frame : frame.

Section factory_frame.
Context (ComputeCrc32 : list byte → Z) (pool : TPool) (conf : factory_conf).

Lemma get_choice_frame topic : keeps FMetadata (get_choice conf topic).
Proof. unfold get_choice. frame. Qed.
Hint Resolve get_choice_frame : frame.

Lemma TryConsumeFrontMsg_frame msg topic td size r : keeps FMetadata (TryConsumeFrontMsg conf msg topic td size r).
Proof. unfold TryConsumeFrontMsg. frame. Qed.
Hint Resolve TryConsumeFrontMsg_frame : frame.

Lemma consume_batch_frame batch topic td size r : keeps FMetadata (consume_batch conf batch topic td size r).
Proof. revert size r. induction batch as [| m batch IH]; intros size r; cbn [consume_batch]; frame. Qed.
Hint Resolve consume_batch_frame : frame.

Lemma consume_queue_frame q size r : keeps FMetadata (consume_queue conf q size r).
Proof. revert size r. induction q as [| [| m b] q IH]; intros size r; cbn [consume_queue]; frame. Qed.
Hint Resolve consume_queue_frame : frame.

Lemma BuildRequestContents_frame : keeps FMetadata (BuildRequestContents conf).
Proof. unfold BuildRequestContents, AddFirstMsg, SanityCheckRequestContents. frame. Qed.
Hint Resolve BuildRequestContents_frame : frame.

Lemma write_dst_frame n l : keeps FMetadata (write_dst n l).
Proof. unfold write_dst. frame. Qed.

Lemma write_compression_frame n l : keeps FMetadata (write_compression n l).
Proof. unfold write_compression. frame. Qed.
Hint Resolve write_dst_frame write_compression_frame : frame.

Lemma serialize_with_frame open gk gv buf put close msg :
  (∀ a b, keeps FMetadata (open a b)) → keeps FMetadata gk → keeps FMetadata gv → (∀ n l, keeps FMetadata (put n l)) →
  keeps FMetadata close → keeps FMetadata (serialize_with pool open gk gv buf put close msg).
Proof. intros. unfold serialize_with, with_reader_of. frame. Qed.

Lemma WriteOneMsgSet_frame s info : keeps FMetadata (WriteOneMsgSet ComputeCrc32 pool conf s info).
Proof.
  unfold WriteOneMsgSet, SerializeToCompressionBuf, SerializeUncompressedMsgSet, serialize_msg, serialize_msg_compression, write_compressed.
  frame; apply serialize_with_frame; intros; frame.
Qed.
Hint Resolve WriteOneMsgSet_frame : frame.

Lemma BuildRequest_frame : keeps FMetadata (BuildRequest ComputeCrc32 pool conf).
Proof. unfold BuildRequest, write_topic_group, write_partition_group, int32_arith. frame. Qed.
End factory_frame.

(** ** The connector *)

(** What the protocol of shutdown requests uses. *)
Definition shutdown_state (c : TConnector) : option TShutdownCmd * bool * Z := (OptShutdownCmd c, ShutdownRequest c, ShutdownAck c).

Definition factory_md (c : TConnector) : option TMetadata := FMetadata (Factory c).

Definition rest_of (c : TConnector) : (option TShutdownCmd * bool * Z) * option TMetadata := (shutdown_state c, factory_md c).

Lemma on_factory_frame {A} (m : FM A) : keeps FMetadata m → keeps rest_of (on_factory m).
Proof.
  intros Hm c. unfold on_factory. specialize (Hm (Factory c)). destruct (m (Factory c)) as [o f]. cbn in Hm.
  unfold rest_of, factory_md. cbn. by rewrite Hm.
Qed.

Lemma on_stream_frame {A} (m : RM TSizeReader A) : keeps rest_of (on_stream m).
Proof. intros c. unfold on_stream. by destruct (m (CStreamReader c)). Qed.

Lemma on_queue_frame {A} (m : QM A) : keeps rest_of (on_queue m).
Proof. unfold on_queue. frame. Qed.

Lemma on_tracker_frame {A} (m : TM A) : keeps rest_of (on_tracker m).
Proof. unfold on_tracker. frame. Qed.

Lemma on_send_buf_frame {A} (m : BM A) : keeps rest_of (on_send_buf m).
Proof. unfold on_send_buf. frame. Qed.

Lemma PauseButton_Push_frame : keeps rest_of PauseButton_Push.
Proof. unfold PauseButton_Push. frame. Qed.
#[export] Hint Resolve on_stream_frame on_queue_frame on_tracker_frame on_send_buf_frame PauseButton_Push_frame : frame.

Lemma queueing_frame (bs : list (list TMsg)) :
  keeps rest_of (on_factory (Put_batches bs)) ∧ keeps rest_of (on_factory (PutFront_batches bs)).
Proof. split; apply on_factory_frame; unfold Put_batches, PutFront_batches; frame. Qed.

Lemma on_stream_pure_frame {A} (m : RM TSizeReader A) : keeps rest_of (on_stream_pure m).
Proof. unfold on_stream_pure. frame. Qed.
#[export] Hint Resolve on_stream_pure_frame : frame.
#[export] Hint Extern 2 (keeps _ (on_factory (Put_batches _))) => apply queueing_frame : frame.
#[export] Hint Extern 2 (keeps _ (on_factory (PutFront_batches _))) => apply queueing_frame : frame.

Section connector_frame.
Context `{HashOrder} (ComputeCrc32 : list byte → Z) (conf : conn_conf).

Lemma SetPauseInProgress_frame now : keeps rest_of (SetPauseInProgress conf now).
Proof. unfold SetPauseInProgress, SetFastShutdownState. frame. Qed.
Hint Resolve SetPauseInProgress_frame : frame.

Lemma CheckInputQueue_frame now pop : keeps rest_of (CheckInputQueue now pop).
Proof. unfold CheckInputQueue. frame. Qed.

Lemma run_processor_frame now request response : keeps rest_of (run_processor conf now request response).
Proof. intros c. unfold run_processor. by destruct (ProcessResponse _ _ _ _ _) as [[] ?]. Qed.
Hint Resolve run_processor_frame : frame.

Lemma ProcessSingleProduceResponse_frame now tnow : keeps rest_of (ProcessSingleProduceResponse conf now tnow).
Proof. unfold ProcessSingleProduceResponse, destroy_msgs. frame. Qed.
Hint Resolve ProcessSingleProduceResponse_frame : frame.

Lemma response_loop_frame fuel now tnow s : keeps rest_of (response_loop conf fuel now tnow s).
Proof. revert s. induction fuel as [| fuel IH]; intros s; cbn [response_loop]; frame. Qed.
Hint Resolve response_loop_frame : frame.

Lemma HandleSockReadReady_frame now tnow res : keeps rest_of (HandleSockReadReady conf now tnow res).
Proof. unfold HandleSockReadReady. frame. Qed.

Lemma EnterAckWait_frame r : keeps rest_of (EnterAckWait_request r).
Proof. unfold EnterAckWait_request, EnterAckWait_group. frame. Qed.
Hint Resolve EnterAckWait_frame : frame.

Lemma HandleSockWriteReady_frame pool send : keeps rest_of (HandleSockWriteReady ComputeCrc32 conf pool send).
Proof.
  unfold HandleSockWriteReady, SendInProgress, TrySendProduceRequest. frame.
  apply on_factory_frame, BuildRequest_frame.
Qed.
Hint Resolve CheckInputQueue_frame HandleSockReadReady_frame HandleSockWriteReady_frame : frame.

Lemma PrepareForPoll_frame now : keeps rest_of (PrepareForPoll conf now).
Proof. unfold PrepareForPoll, SendInProgress. frame. Qed.
Hint Resolve PrepareForPoll_frame : frame.

(** An iteration without a shutdown request. *)
Lemma iteration_frame e :
  (∀ b1 b2 b3 b4, Polled e ≠ Ready true b1 b2 b3 b4) → keeps rest_of (iteration ComputeCrc32 conf e).
Proof.
  intros He. unfold iteration. apply keeps_bind; [frame |]. intros [plan |]; [| frame]. cbv zeta.
  destruct (Polled e) as [| [] pause input out in_]; [frame | by destruct (He pause input out in_) |].
  unfold HandlePauseDetected. frame.
Qed.
End connector_frame.
