(* ===== verification/DispatcherInv.v ===== *)
(** * The dispatcher keeps every message

    The invariant of the dispatcher's state: what each connector's thread holds, in
    each phase of its life, the count of the running threads, and the protocol of the
    shutdown requests.  Every step of a thread and every operation of the router
    preserves it. *)
From S2P Require Import RateLimiter Backoff DispatcherApi Router RouterRoute.
From S2P Require Import Prelude FieldAccess StreamReader Capped Msg AnomalyTracker Batch PerTopicBatcher BrokerMsgQueue.
From S2P Require Import Metadata Wire ProduceResponse StdMap ResponseProcessor ProduceRequest RequestFactory RequestBytes.
From S2P Require Import RequestSize Connector ConnectorInv ConnectorSend ConnectorRecv ConnectorRun ConnectorFrame.
From S2P Require Import DispatcherContract KafkaDispatcher.

(** ** Connectors *)

(** The stream reader before the first read. *)
Definition idle_stream : TStreamMsgReader TSizeReader := StreamReader.mkReader (TImpl_new 0 TBuf_new) stream_cfg.

(** The stream reader that the constructor makes. *)
Definition new_stream : TStreamMsgReader TSizeReader := TStreamMsgReader_new (-1) stream_cfg.

(** The connector as it is for the other threads, who do not use the stream. *)
Definition unread (c : TConnector) : TConnector := c <| CStreamReader := idle_stream |>.

(** The shutdown request of a running thread: until it has acknowledged one, it sees a
    request exactly if there is a command. *)
Record protocol (c : TConnector) : Prop := {
  pr_ack : 0 ≤ ShutdownAck c;
  pr_first : ShutdownAck c = 0 → ShutdownRequest c = bool_decide (OptShutdownCmd c ≠ None)
}.

Lemma protocol_same c c' : shutdown_state c' = shutdown_state c → protocol c → protocol c'.
Proof. unfold shutdown_state. intros [= E1 E2 E3] [H1 H2]. split; by rewrite ?E1, ?E2, E3. Qed.

(** The messages of a connector: those it holds, those it has dropped while they
    waited for an ACK, and those it was given. *)
Record slot := mkSlot { s_live : list TMsg; s_lost : list TMsg; s_acc : list TMsg }.

Definition everything (ss : list slot) : list TMsg := concat ((λ s, s_live s ++ s_lost s) <$> ss).

Lemma everything_app a b : everything (a ++ b) = everything a ++ everything b.
Proof. unfold everything. by rewrite fmap_app, concat_app. Qed.

Lemma everything_split ss i s :
  ss !! i = Some s → everything ss ≡ₚ s_live s ++ s_lost s ++ everything (delete i ss).
Proof.
  intros Hi. pose proof (take_drop_middle _ _ _ Hi) as E. rewrite <- E at 1. rewrite delete_take_drop.
  rewrite !everything_app. change (everything (s :: drop (S i) ss)) with ((s_live s ++ s_lost s) ++ everything (drop (S i) ss)). perm_lia.
Qed.

Lemma everything_insert ss i s :
  (i < length ss)%nat → everything (<[i := s]> ss) ≡ₚ s_live s ++ s_lost s ++ everything (delete i ss).
Proof.
  intros Hi. rewrite (everything_split _ i s) by (by apply list_lookup_insert_eq). do 2 f_equiv.
  rewrite !delete_take_drop, take_insert_ge by lia. by rewrite drop_insert_lt by lia.
Qed.

Definition all_acc (ss : list slot) : list TMsg := concat (s_acc <$> ss).

(** What the operations on the queue leave alone. *)
Definition Conn_rest (c : TConnector) :=
  (Sock c, after_shutdown c, CMetadata c, Destroying c, rest_of c, CStreamReader c).

Section inv.
Context `{HashOrder} (GetCompressionCodec : TCompressionType → option TCompressionCodec) (ComputeCrc32 : list byte → Z).
Context (conf : disp_conf).

Notation conn_inv i := (ConnectorRun.conn_inv ComputeCrc32 (conf_at conf i)).

(** A connector whose thread has not been joined. *)
Record running_inv (md : TMetadata) (i : nat) (s : slot) (t : TConnThread) : Prop := {
  rv_conn : ∃ o p q, conn_inv i o p q (unread (Conn t)) ∧ all_msgs p q (Conn t) = s_live s;
  rv_after : after_shutdown (Conn t) = ([], []);
  rv_destroying : Destroying (Conn t) = false;
  rv_md : factory_md (Conn t) = Some md;
  rv_phase : match Phase t with
    | Launched => s_lost s = [] ∧ Sock (Conn t) = false ∧ CMetadata (Conn t) = Some md ∧ CStreamReader (Conn t) = new_stream ∧ protocol (Conn t)
    | InLoop => s_lost s = [] ∧ stream_inv (Conn t) ∧ protocol (Conn t)
    | Terminated | Joined => True
    end
}.

(** A connector after its thread was joined: its messages are in the two queues. *)
Record joined_inv (s : slot) (t : TConnThread) : Prop := {
  jv_live : s_live s = concat (SendWaitAfterShutdown (Conn t)) ++ concat (NoAckAfterShutdown (Conn t));
  jv_states : Forall (λ m, Msg.State m = SendWait) (concat (SendWaitAfterShutdown (Conn t)));
  jv_topics : Forall one_topic (SendWaitAfterShutdown (Conn t) ++ NoAckAfterShutdown (Conn t))
}.

Record thread_inv (md : TMetadata) (i : nat) (s : slot) (t : TConnThread) : Prop := {
  tv_state : if decide (Phase t = Joined) then joined_inv s t else running_inv md i s t;
  tv_acc : ident <$> (s_live s ++ Destroyed (Shared (Conn t))) ≡ₚ ident <$> s_acc s;
  tv_destroyed : ∃ d, Destroyed (Shared (Conn t)) ≡ₚ s_lost s ++ d ∧ Forall (λ m, Msg.State m = Processed) d;
  tv_lost : Forall (λ m, Msg.State m = AckWait) (s_lost s)
}.

(** The threads that have not finished. *)
Definition is_running (t : TConnThread) : bool := bool_decide (Phase t = Launched ∨ Phase t = InLoop).
Definition running (ts : list TConnThread) : nat := length (filter is_running ts).

(** The tracker counts the messages [l], which are not too many. *)
Record counted (l : list TMsg) (d : TKafkaDispatcher) : Prop := {
  ct_tracker : tracker_ok (ResponseProcessor.MsgStateTracker (Ds d)) l;
  ct_size : Z.of_nat (length l) < 2 ^ 64;
  ct_load : load l ≤ request_room (FactoryConf (ConnConf conf))
}.

(** [o] are the messages of the rest of the server. *)
Record msgs_kept (md : TMetadata) (o : list TMsg) (ss : list slot) (d : TKafkaDispatcher) : Prop := {
  mk_md : metadata_ok md;
  mk_slots : length ss = InServiceBrokerCount md;
  mk_conns : length (Connectors d) = InServiceBrokerCount md;
  mk_threads : ∀ i s t, ss !! i = Some s → Connectors d !! i = Some t → thread_inv md i s t;
  mk_counted : counted (o ++ everything ss) d
}.

(** The count of the running threads, and the event that the last of them pushes. *)
Record threads_counted (d : TKafkaDispatcher) : Prop := {
  tc_running : RunningThreadCount d = Z.of_nat (running (Connectors d));
  tc_few : Z.of_nat (length (Connectors d)) < 2 ^ 64;
  tc_finished : Connectors d ≠ [] → ShutdownFinished d = if decide (running (Connectors d) = 0%nat) then 1 else 0
}.

Definition disp_inv (md : TMetadata) (o : list TMsg) (ss : list slot) (d : TKafkaDispatcher) : Prop :=
  msgs_kept md o ss d ∧ threads_counted d.

(** ** The shared state *)

Lemma conn_inv_enter i o p q c ds pause o' :
  conn_inv i o p q c → tracker_ok (ResponseProcessor.MsgStateTracker ds) (o' ++ all_msgs p q c) →
  Z.of_nat (length (o' ++ all_msgs p q c)) < 2 ^ 64 → conn_inv i o' p q (enter ds pause c).
Proof.
  intros [Hi Hs Hp Hst] Ht Hl. split; try done. destruct Hi as [H1 H2 H3 H4 H5 H6 H7 H8 H9 H10 H11]. split; try done.
  assert (o' ++ all_msgs p q c ≡ₚ (held c ++ o') ++ p ++ q ++ concat (ReadyList (CInputQueue c))) as Hp'
    by (unfold all_msgs; perm_lia).
  destruct H1. split; try done.
  - eapply tracker_ok_perm; [exact Hp' | exact Ht].
  - by rewrite Hp' in Hl.
Qed.

Lemma conn_inv_tracker i o p q c :
  conn_inv i o p q c → tracker_ok (tracker_of c) (o ++ all_msgs p q c).
Proof.
  intros [Hi _ _ _]. eapply tracker_ok_perm; [| apply (qi_tracker _ _ _ _ (mi_queue _ _ _ _ _ Hi))].
  unfold all_msgs. change (ReadyList (queue_of c)) with (ReadyList (CInputQueue c)). perm_lia.
Qed.

Lemma idle_stream_inv c : stream_inv (unread c).
Proof. by apply (stream_start 0). Qed.

(** The stream reader plays no part in the rest of the invariant. *)
Lemma conn_inv_read i o p q c : conn_inv i o p q (unread c) → stream_inv c → conn_inv i o p q c.
Proof.
  intros [Hi Hs Hp _] Hst. split; [| by apply (send_inv_same _ _ (unread c)) | done | done].
  by apply (msgs_inv_same (conf_at conf i) o p q (unread c) c).
Qed.

Lemma conn_inv_unread i o p q c : msgs_inv (conf_at conf i) o p q c → send_inv ComputeCrc32 (conf_at conf i) c → pause_inv c →
  conn_inv i o p q (unread c).
Proof.
  intros Hi Hs Hp. split; [| by apply (send_inv_same _ _ c) | done | apply idle_stream_inv].
  by apply (msgs_inv_same (conf_at conf i) o p q c (unread c)).
Qed.

Lemma load_ident l k : ident <$> l ≡ₚ ident <$> k → load l = load k.
Proof.
  intros Hp. assert (∀ l, load (ident <$> l) = load l) as Hf.
  { intros l'. unfold load. rewrite <- list_fmap_compose. f_equal. apply list_fmap_ext. intros j m _. cbn. by rewrite weight_ident. }
  by rewrite <- Hf, <- (Hf k), Hp.
Qed.

Lemma total_weight_load l : total_weight l ≤ load l.
Proof. unfold total_weight, load. induction l as [| m l IH]; [done |]. rewrite !fmap_cons, !sumZ_cons. lia. Qed.

Lemma length_ident (l k : list TMsg) : ident <$> l ≡ₚ ident <$> k → length l = length k.
Proof. intros Hp%Permutation_length. by rewrite !length_fmap in Hp. Qed.

Lemma thread_entered md o ss d i s t :
  msgs_kept md o ss d → ss !! i = Some s → Connectors d !! i = Some t → Phase t ≠ Joined →
  running_inv md i s t ∧
  ∃ p q, conn_inv i (s_lost s ++ o ++ everything (delete i ss)) p q (unread (enter (Ds d) (DsPauseButton d) (Conn t))) ∧
    all_msgs p q (Conn t) = s_live s.
Proof.
  intros [_ _ _ Hth [Ht Hl _]] Hs Hc Hph. destruct (Hth i s t Hs Hc) as [Hst _ _ _]. rewrite decide_False in Hst by done.
  split; [done |]. destruct (rv_conn _ _ _ _ Hst) as (o0 & p & q & Hi & Hlive). exists p, q. split; [| done].
  assert (o ++ everything ss ≡ₚ (s_lost s ++ o ++ everything (delete i ss)) ++ all_msgs p q (unread (Conn t))) as Hp.
  { change (all_msgs p q (unread (Conn t))) with (all_msgs p q (Conn t)). rewrite Hlive, (everything_split _ _ _ Hs). perm_lia. }
  change (unread (enter ?a ?b ?c)) with (enter a b (unread c)). eapply conn_inv_enter; [exact Hi | |].
  - by eapply tracker_ok_perm.
  - by rewrite Hp in Hl.
Qed.

(** Thread [i] is left with the messages of [s']. *)
Lemma msgs_kept_update md o o' ss d i s s' t c' ph' :
  msgs_kept md o ss d → ss !! i = Some s → Connectors d !! i = Some t → thread_inv md i s' (mkConnThread c' ph') →
  tracker_ok (tracker_of c') (o' ++ s_live s' ++ s_lost s' ++ everything (delete i ss)) →
  (length (o' ++ s_live s' ++ s_lost s') ≤ length (o ++ s_live s ++ s_lost s))%nat →
  load (o' ++ s_live s' ++ s_lost s') ≤ load (o ++ s_live s ++ s_lost s) →
  msgs_kept md o' (<[i := s']> ss) (with_conn i c' ph' d).
Proof.
  intros [Hm Hls Hlc Hth [Ht Hl Hw]] Hs Hc Hnew Htr Hlen Hload. pose proof (lookup_lt_Some _ _ _ Hs) as Hi.
  pose proof (lookup_lt_Some _ _ _ Hc) as Hi'. split; [done | by rewrite length_insert | by cbn; rewrite length_insert | |].
  - intros j sj tj. cbn. destruct (decide (i = j)) as [<- | Hne].
    + rewrite !list_lookup_insert_eq by done. by intros [= <-] [= <-].
    + rewrite !list_lookup_insert_ne by done. apply Hth.
  - rewrite (everything_split _ _ _ Hs) in Hl, Hw. pose proof (everything_insert ss i s' Hi) as Hp. split.
    + cbn. eapply tracker_ok_perm; [| exact Htr]. by rewrite Hp.
    + rewrite Hp. rewrite !length_app in *. lia.
    + rewrite Hp. rewrite !load_app in *. lia.
Qed.

(** ** Messages that arrive *)

Lemma routed_good i md m f :
  metadata_ok md → FMetadata f = Some md → routed (RequestFactory.MessageMaxBytes (FactoryConf (ConnConf conf))) md m i →
  good (FactoryConf (conf_at conf i)) f m.
Proof.
  intros Hm Hf [[_ Hn Hsz Hfit] Hb Hl]. split; [| done]. split; [| split; [destruct Hsz; unfold data_size; lia | done]].
  intros Ha. unfold RequestFactory.any_partition in Ha. destruct (RoutingType m) eqn:Er; [| done].
  destruct (Hl eq_refl) as (t & p & (k & Hk & Ht & _) & Hp & Hi).
  destruct (FindPartitionChoices_ok md (Topic m) k t i Hm Hk Ht) as (l & Hfp & _ & Hperm).
  { destruct (mo_grouped _ Hm) as (a & z & E & _ & _ & Ec). rewrite E, length_app. lia. }
  assert (PartId p ∈ l) as Hin.
  { rewrite Hperm. apply list_elem_of_fmap. exists p. split; [done |]. apply list_elem_of_filter. by rewrite Hi. }
  exists l. unfold choices. rewrite Hf. cbn. rewrite Hfp. destruct l; [by apply elem_of_nil in Hin | done].
Qed.

Lemma on_queue_unread (x : QM ()) c c1 :
  on_queue x (unread c) = (Ret (), c1) → ∃ c2, on_queue x c = (Ret (), c2) ∧ c1 = unread c2 ∧
    Conn_rest c2 = Conn_rest c.
Proof.
  unfold on_queue, zoom, no_throw. change (queue_of (unread c)) with (queue_of c). destruct (x (queue_of c)) as [o q].
  destruct o as [[] | [] | f]; intros [= <-]. by eexists.
Qed.

Lemma call_connector_ok {A} i (m : CM A) d t a c' :
  Connectors d !! i = Some t → m (enter (Ds d) (DsPauseButton d) (Conn t)) = (Ret a, c') →
  call_connector i m d = (Ret a, with_conn i c' (Phase t) d).
Proof.
  intros Ht Hm. unfold call_connector, on_connector. rewrite (bind_Ret _ _ _ (Some a) (with_conn i c' (Phase t) d)); [done |].
  by rewrite Ht, Hm.
Qed.

Lemma ident_cancel (l k x : list TMsg) : ident <$> (l ++ x) ≡ₚ ident <$> (k ++ x) → ident <$> l ≡ₚ ident <$> k.
Proof. rewrite !fmap_app. apply Permutation_app_inv_r. Qed.

Lemma running_inv_rest md i s t live' acc' c2 :
  running_inv md i s t → Conn_rest c2 = Conn_rest (Conn t) →
  (∃ o p q, conn_inv i o p q (unread c2) ∧ all_msgs p q c2 = live') →
  running_inv md i (mkSlot live' (s_lost s) acc') (mkConnThread c2 (Phase t)).
Proof.
  intros [_ H2 H3 H4 H5] [= E1 E2 E3 E4 E5 E6 E7 E8 E9 E10] Hc. split; cbn [Conn Phase s_lost s_live].
  - done.
  - unfold after_shutdown in *. congruence.
  - congruence.
  - unfold factory_md in *. congruence.
  - assert (protocol (Conn t) → protocol c2) as Hp by (apply protocol_same; unfold shutdown_state; by rewrite E6, E7, E8).
    unfold stream_inv in *. rewrite E1, E4, E10. destruct (Phase t); naive_solver.
Qed.

(** What a connector's queue does with messages, as the lemmas about its operations
    state it. *)
Definition takes_new (i : nat) (x : QM ()) (new : list TMsg) : Prop :=
  ∀ acc o p q c, arrives ComputeCrc32 (conf_at conf i) new acc o p q c →
    ∃ c', on_queue x c = (Ret (), c') ∧ arrived ComputeCrc32 (conf_at conf i) new o p q c c'.

Lemma arrival_ok i x new md o ss d s t :
  takes_new i x new → msgs_kept md (new ++ o) ss d → ss !! i = Some s → Connectors d !! i = Some t → Phase t ≠ Joined →
  Forall (λ m, routed (RequestFactory.MessageMaxBytes (FactoryConf (ConnConf conf))) md m i) new →
  ∃ live' c', call_connector i (on_queue x) d = (Ret (), with_conn i c' (Phase t) d) ∧
    msgs_kept md o (<[i := mkSlot live' (s_lost s) (new ++ s_acc s)]> ss) (with_conn i c' (Phase t) d).
Proof.
  intros Hx Hk Hs Ht Hph Hnew. destruct (thread_entered _ _ _ _ _ _ _ Hk Hs Ht Hph) as [Hr (p & q & Hi & Hlive)].
  set (c := enter (Ds d) (DsPauseButton d) (Conn t)) in *. pose proof (mk_threads _ _ _ _ Hk i s t Hs Ht) as [_ Hacc Hdes Hlost].
  pose proof (mk_counted _ _ _ _ Hk) as [_ _ Hload].
  destruct (Hx (s_acc s) (s_lost s ++ o ++ everything (delete i ss)) p q (unread c)) as (c1 & E & p' & q' & Hi' & Hall & Hsh).
  { split; [eapply others_perm; [exact Hi | perm_lia] |]. change (all_msgs p q (unread c)) with (all_msgs p q (Conn t)).
    split; [by unfold left_of; rewrite Hlive |]. split.
    - eapply Forall_impl; [exact Hnew |]. intros m Hm. eapply routed_good; [apply Hk | apply Hr | done].
    - intros l Hl. assert (ident <$> l ≡ₚ ident <$> s_live s) as Hid.
      { eapply ident_cancel. rewrite Hl. symmetry. exact Hacc. }
      etrans; [apply total_weight_load |]. rewrite load_app, (load_ident _ _ Hid). rewrite (everything_split _ _ _ Hs) in Hload.
      rewrite !load_app in Hload. pose proof (load_nonneg o). pose proof (load_nonneg (s_lost s)).
      pose proof (load_nonneg (everything (delete i ss))). change (request_room (FactoryConf (conf_at conf i))) with (request_room (FactoryConf (ConnConf conf))). lia. }
  destruct (on_queue_unread x c c1 E) as (c2 & E2 & -> & Hrest). exists (all_msgs p' q' c2), c2.
  split; [by apply call_connector_ok |]. change (all_msgs p' q' (unread c2)) with (all_msgs p' q' c2) in Hall.
  change (all_msgs p q (unread c)) with (all_msgs p q (Conn t)) in Hall. rewrite Hlive in Hall.
  assert (Destroyed (Shared c2) = Destroyed (Shared (Conn t))) as Hd.
  { change (Shared (unread c2)) with (Shared c2) in Hsh. by rewrite Hsh. }
  pose proof (load_ident _ _ Hall) as Hw. pose proof (length_ident _ _ Hall) as Hlen. rewrite load_app in Hw. rewrite length_app in Hlen.
  eapply msgs_kept_update; [exact Hk | done | done | | | cbn [s_live s_lost] | cbn [s_live s_lost]].
  - split; cbn [s_live s_lost s_acc Conn]; rewrite ?Hd; try done.
    + cbn [Phase]. rewrite decide_False by done. apply running_inv_rest; [done | done |]. by eexists _, p', q'.
    + rewrite !fmap_app in *. rewrite Hall, <- Hacc. perm_lia.
  - cbn [s_live s_lost]. eapply tracker_ok_perm; [| apply (conn_inv_tracker i _ _ _ _ Hi')]. change (all_msgs p' q' (unread c2)) with (all_msgs p' q' c2). perm_lia.
  - rewrite !length_app. lia.
  - rewrite !load_app. lia.
Qed.

Lemma takes_Dispatch i now m : Msg.State m = New → Timestamp m ≤ INT64_MAX → takes_new i (Put now m) [m].
Proof. intros Hs Ht acc o p q c Ha. by eapply Dispatch_ok. Qed.

Lemma takes_DispatchNow i now m : legal SendWait (Msg.State m) = true → takes_new i (PutNow now m) [m].
Proof. intros Hs acc o p q c Ha. by eapply DispatchNow_ok. Qed.

Lemma takes_batch i now bs :
  bs ≠ [] → Forall one_topic bs → Forall (λ m, legal SendWait (Msg.State m) = true) (concat bs) →
  takes_new i (PutNow_batch now bs) (concat bs).
Proof. intros Hne Ho Hs acc o p q c Ha. by eapply DispatchNow_batch_ok. Qed.

Lemma running_insert ts i t t' :
  ts !! i = Some t → (running (<[i := t']> ts) + Nat.b2n (is_running t) = running ts + Nat.b2n (is_running t'))%nat.
Proof.
  intros Hi. rewrite insert_take_drop by (by eapply lookup_lt_Some). rewrite <- (take_drop_middle _ _ _ Hi) at 3.
  unfold running. rewrite !filter_app, !length_app, !filter_cons.
  destruct (is_running t), (is_running t'); repeat case_decide; cbn [length Nat.b2n]; first [lia | naive_solver].
Qed.

Lemma same_count d i t c' ph :
  threads_counted d → Connectors d !! i = Some t → is_running (mkConnThread c' ph) = is_running t →
  threads_counted (with_conn i c' ph d).
Proof.
  intros [H1 H2 H3] Ht Hr. pose proof (running_insert _ _ _ (mkConnThread c' ph) Ht) as Hn. rewrite Hr in Hn.
  assert (running (Connectors (with_conn i c' ph d)) = running (Connectors d)) as E by (change (Connectors (with_conn i c' ph d)) with (<[i := mkConnThread c' ph]> (Connectors d)); lia).
  split; [by rewrite E | cbn; by rewrite length_insert |]. rewrite E. intros _. apply H3. intros E0. by rewrite E0 in Ht.
Qed.

Lemma all_acc_insert ss i s s' new :
  ss !! i = Some s → s_acc s' = new ++ s_acc s → all_acc (<[i := s']> ss) ≡ₚ new ++ all_acc ss.
Proof.
  intros Hi Hs. rewrite insert_take_drop by (by eapply lookup_lt_Some). rewrite <- (take_drop_middle _ _ _ Hi) at 3.
  unfold all_acc. rewrite !fmap_app, !fmap_cons, !concat_app. cbn [concat]. rewrite Hs. perm_lia.
Qed.

(** ** The contract with the router *)

(** The dispatcher between its start and the join of its threads. *)
Definition at_work (md : TMetadata) (o live acc : list TMsg) (d : TKafkaDispatcher) : Prop :=
  ∃ ss, disp_inv md o ss d ∧ DState d ≠ Stopped ∧ Forall (λ t, Phase t ≠ Joined) (Connectors d) ∧
    live ≡ₚ everything ss ∧ acc ≡ₚ all_acc ss.

(** Messages that the router gives to the connector of broker [i]. *)
Lemma given_ok i x new md o live acc d :
  takes_new i x new → at_work md (new ++ o) live acc d → (i < InServiceBrokerCount md)%nat →
  Forall (λ m, routed (RequestFactory.MessageMaxBytes (FactoryConf (ConnConf conf))) md m i) new →
  ∃ live' d', (check_running;; check_index i;; call_connector i (on_queue x)) d = (Ret (), d') ∧
    at_work md o live' (new ++ acc) d' ∧ Destroyed (Ds d') = Destroyed (Ds d).
Proof.
  intros Hx (ss & [Hk Hn] & Hst & Hph & _ & Ha) Hi Hnew.
  assert (is_Some (Connectors d !! i)) as [t Ht] by (apply lookup_lt_is_Some_2; by rewrite (mk_conns _ _ _ _ Hk)).
  assert (is_Some (ss !! i)) as [s Hs] by (apply lookup_lt_is_Some_2; by rewrite (mk_slots _ _ _ _ Hk)).
  assert (Phase t ≠ Joined) as Hp by (rewrite Forall_lookup in Hph; by eapply Hph).
  destruct (arrival_ok i x new md o ss d s t Hx Hk Hs Ht Hp Hnew) as (live' & c' & E & Hk').
  exists (everything (<[i := mkSlot live' (s_lost s) (new ++ s_acc s)]> ss)), (with_conn i c' (Phase t) d). split; [| split; [| done]].
  - unfold check_running, check_index, DM. munfold. rewrite bool_decide_true by done.
    rewrite (proj2 (Nat.ltb_lt _ _)) by (by rewrite (mk_conns _ _ _ _ Hk)). exact E.
  - eexists. split; [split; [exact Hk' | by apply (same_count d i t)] |]. split; [done |]. split.
    + cbn. by apply Forall_insert.
    + split; [done |]. rewrite Ha. symmetry. by apply (all_acc_insert ss i s).
Qed.

Lemma at_work_tracker md o live acc d :
  at_work md o live acc d →
  tracker_ok (ResponseProcessor.MsgStateTracker (Ds d)) (o ++ live) ∧ Z.of_nat (length (o ++ live)) < 2 ^ 64.
Proof.
  intros (ss & [[_ _ _ _ [Ht Hl _]] _] & _ & _ & Hp & _). split; [eapply tracker_ok_perm; [| exact Ht]; by rewrite Hp | by rewrite Hp].
Qed.

Lemma at_work_elsewhere md o live acc d o' s :
  at_work md o live acc d → tracker_ok (ResponseProcessor.MsgStateTracker s) (o' ++ live) →
  (length o' ≤ length o)%nat → load o' ≤ load o → at_work md o' live acc (d <| Ds := s |>).
Proof.
  intros (ss & [[H1 H2 H3 H4 [_ Hl Hw]] Hn] & Hst & Hj & Hp & Ha) Ht Hlen Hload. exists ss. split; [| done].
  split; [| by destruct Hn]. split; try done. split.
  - cbn. eapply tracker_ok_perm; [| exact Ht]. by rewrite Hp.
  - rewrite !length_app in *. lia.
  - rewrite !load_app in *. lia.
Qed.

(** The dispatcher keeps its contract with the router. *)
#[local] Existing Instance TKafkaDispatcher_api.

Definition TKafkaDispatcher_contract :
  @DispatcherContract (RequestFactory.MessageMaxBytes (FactoryConf (ConnConf conf))) TKafkaDispatcher
    (TKafkaDispatcher_api GetCompressionCodec ComputeCrc32 conf).
Proof.
  refine {| dc := at_work |}.
  - done.
  - by intros [].
  - apply at_work_tracker.
  - apply at_work_elsewhere.
  - intros md o live acc d now m i Hw Hr Hs Ht. apply (given_ok i (Put now m) [m] md o live acc d); try done; [by apply takes_Dispatch | apply Hr |].
    by apply Forall_singleton.
  - intros md o live acc d now m i Hw Hr Hs. apply (given_ok i (PutNow now m) [m] md o live acc d); try done; [by apply takes_DispatchNow | apply Hr |].
    by apply Forall_singleton.
  - intros md o live acc d now bs i Hw Ho Hr Hs. destruct bs as [| b bs].
    { exists live, d. split; [| done]. destruct Hw as (ss & _ & Hst & _). cbn. unfold Dispatcher_DispatchNow_batch, check_running, DM.
      munfold. by rewrite bool_decide_true. }
    destruct b as [| m b]; [by apply Forall_cons in Ho as [[? _] _] |].
    apply (given_ok i (PutNow_batch now ((m :: b) :: bs)) (concat ((m :: b) :: bs)) md o live acc d); try done; [by apply takes_batch |].
    cbn in Hr. apply Forall_cons in Hr as [Hr _]. apply Hr.
Defined.
End inv.
