(* ===== verification/DispatcherRun.v ===== *)
(** * The life of the dispatcher

    The dispatcher starts its connectors, their threads run in any order, the router
    gives them messages and starts a shutdown, and joins the threads when they are
    done.  The invariant holds in every such history, so that no thread fails an
    assertion, and every message that the dispatcher was given is processed, in a
    connector, or handed back after the join. *)
From S2P Require Import RateLimiter Backoff DispatcherApi Router RouterRoute.
From S2P Require Import Prelude FieldAccess StreamReader Capped Msg AnomalyTracker Batch PerTopicBatcher BrokerMsgQueue.
From S2P Require Import Metadata Wire ProduceResponse StdMap ResponseProcessor ProduceRequest RequestFactory RequestBytes.
From S2P Require Import RequestSize Connector ConnectorInv ConnectorSend ConnectorRecv ConnectorRun ConnectorFrame.
From S2P Require Import DispatcherContract KafkaDispatcher DispatcherInv.

(** ** Shutdown requests *)

Section shutdown.
Context `{HashOrder} (ComputeCrc32 : list byte → Z) (conf : conn_conf).

Lemma HandleShutdownRequest_frame now : keeps factory_md (HandleShutdownRequest conf now).
Proof.
  assert (∀ A (m : CM A), keeps rest_of m → keeps factory_md m) as Hw.
  { intros A m Hm c. by injection (Hm c). }
  unfold HandleShutdownRequest, SetFastShutdownState. frame; apply Hw; eauto with frame.
Qed.

Lemma HandleShutdownRequest_state now c c' :
  HandleShutdownRequest conf now c = (Ret (), c') → shutdown_state c' = (OptShutdownCmd c, false, ShutdownAck c + 1).
Proof.
  unfold HandleShutdownRequest, CM. intros (c0 & c0' & [= <- <-] & Hr)%bind_inv_Ret. destruct (Destroying c); [done |].
  apply bind_inv_Ret in Hr as (cmd & c1 & Hn & Hr). destruct (OptShutdownCmd c) eqn:Ec; [| done]. injection Hn as <- <-.
  apply bind_inv_Ret in Hr as ([] & c2 & Hm & Hr). injection Hr as <-.
  assert (keeps rest_of (match OptSlowShutdownStartTime t with
    | None => SetFastShutdownState conf now
    | Some start_time =>
        l ← on_queue GetAllOnShutdown;
        on_factory (Put_batches l);;
        let deadline := uadd start_time (ShutdownMaxDelay conf) in
        modify (λ c, c <| OptInProgressShutdown := Some (match OptInProgressShutdown c with
          | Some s => mkInProgress (Deadline s `min` deadline) (FastShutdown s)
          | None => mkInProgress deadline false
          end) |>)
    end)) as Hk by (unfold SetFastShutdownState; frame).
  specialize (Hk c). unfold CM in Hk. rewrite Hm in Hk. unfold rest_of, shutdown_state in *. cbn in *. injection Hk as -> _ -> _. by rewrite Ec.
Qed.

Lemma iteration_md e : keeps factory_md (iteration ComputeCrc32 conf e).
Proof.
  assert (∀ A (m : CM A), keeps rest_of m → keeps factory_md m) as Hw by (intros A m Hm c; by injection (Hm c)).
  unfold iteration. apply keeps_bind; [apply Hw, PrepareForPoll_frame |]. intros [plan |]; [| frame]. cbv zeta.
  pose proof (HandleShutdownRequest_frame (HandlerClock e)).
  destruct (Polled e) as [| sd pause input out in_]; frame; apply Hw; unfold HandlePauseDetected;
    eauto using SetPauseInProgress_frame, CheckInputQueue_frame, HandleSockReadReady_frame, HandleSockWriteReady_frame with frame.
Qed.

(** A running thread stays in the protocol. *)
Lemma iteration_protocol e c c' :
  protocol c → iteration ComputeCrc32 conf e c = (Ret true, c') → protocol c'.
Proof.
  intros Hp Hr. destruct (Polled e) as [| [] b1 b2 b3 b4] eqn:Ep.
  2: { assert (∃ c1, rest_of c1 = rest_of c ∧ HandleShutdownRequest conf (HandlerClock e) c1 = (Ret (), c')) as (c1 & H1 & H2).
    { unfold iteration, CM in Hr. apply bind_inv_Ret in Hr as (plan & c1 & Hpl & Hr). exists c1. split.
      - pose proof (PrepareForPoll_frame conf (StartTime e) c) as Hk. unfold CM in Hk. by rewrite Hpl in Hk.
      - destruct plan as [plan |]; [| by apply bind_inv_Ret in Hr as (? & ? & _ & [= ? ?])]. rewrite Ep in Hr.
        apply bind_inv_Ret in Hr as ([] & c2 & Hh & [= <-]). done. }
    apply HandleShutdownRequest_state in H2. assert (shutdown_state c1 = shutdown_state c) as E by exact (f_equal fst H1).
    injection E as E1 E2 E3. injection H2 as F1 F2 F3. destruct Hp as [H0 _]. split; rewrite F3, E3; lia. }
  all: assert (rest_of c' = rest_of c) as E;
    [pose proof (iteration_frame ComputeCrc32 conf e) as Hk; rewrite Ep in Hk; specialize (Hk ltac:(done) c); unfold CM in Hk; by rewrite Hr in Hk |];
    eapply protocol_same; [exact (f_equal fst E) | done].
Qed.
End shutdown.

Section life.
Context `{HashOrder} (GetCompressionCodec : TCompressionType → option TCompressionCodec) (ComputeCrc32 : list byte → Z).
Context (conf : disp_conf).

Notation conn_inv i := (ConnectorRun.conn_inv ComputeCrc32 (conf_at conf i)).
Notation msgs_kept := (DispatcherInv.msgs_kept ComputeCrc32 conf).
Notation thread_inv := (DispatcherInv.thread_inv ComputeCrc32 conf).
Notation running_inv := (DispatcherInv.running_inv ComputeCrc32 conf).
Notation disp_inv := (DispatcherInv.disp_inv ComputeCrc32 conf).

(** ** What a thread may meet *)

(** The messages that the connectors have destroyed. *)
Definition destroyed_of (ts : list TConnThread) : list TMsg := concat ((λ t, Destroyed (Shared (Conn t))) <$> ts).

(** The contracts of [poll()], [send()] and [read()] for the thread in state [c], and
    that the messages that the dispatcher still has are in the pool. *)
Record iterates_ok (acc : list TMsg) (d : TKafkaDispatcher) (i : nat) (c : TConnector) (e : conn_event) : Prop := {
  io_shutdown : ∀ b1 b2 b3 b4, Polled e = Ready true b1 b2 b3 b4 → ShutdownRequest c = true;
  io_pause : ∀ b1 b2 b3 b4, Polled e = Ready b1 true b2 b3 b4 → PauseButton c = true;
  io_input : ∀ b1 b2 b3 b4, Polled e = Ready b1 b2 true b3 b4 → 0 < SenderNotify (CInputQueue c);
  io_sock : ∀ b1 b2 b3 out in_ plan c', Polled e = Ready b1 b2 b3 out in_ →
    PrepareForPoll (conf_at conf i) (StartTime e) c = (Ret (Some plan), c') →
    (out = true → PollOut plan = true) ∧ (in_ = true → PollIn plan = true);
  io_pool : ∀ l, ident <$> (l ++ destroyed_of (Connectors d)) ≡ₚ ident <$> acc → Forall (readable (EvPool e)) l;
  io_send : send_ok (SendRes e);
  io_read : read_contract (ReadRes e)
}.

Definition step_ok (acc : list TMsg) (d : TKafkaDispatcher) (i : nat) (st : thread_step) : Prop :=
  match st with
  | Connects connected fd => connected = true → 0 ≤ fd
  | Iterates e => ∀ t, Connectors d !! i = Some t → iterates_ok acc d i (enter (Ds d) (DsPauseButton d) (Conn t)) e
  end.

(** How a step of thread [i] can end the process. *)
Definition thread_fault (d : TKafkaDispatcher) (i : nat) (st : thread_step) (x : fault) : Prop :=
  x = Overflow ∨ ∃ e, st = Iterates e ∧
    ((x = Died ∧ fatal_io e) ∨
     (x = AssertFailed ∧ (∃ b1 b2 b3 b4, Polled e = Ready true b1 b2 b3 b4) ∧
      ∃ t, Connectors d !! i = Some t ∧ OptShutdownCmd (Conn t) = None ∧ 0 < ShutdownAck (Conn t))).

(** A request without a command comes after a command that the thread has acknowledged. *)
Lemma orphan_acknowledged acc d i t e x :
  Connectors d !! i = Some t → protocol (Conn t) → iterates_ok acc d i (enter (Ds d) (DsPauseButton d) (Conn t)) e →
  iteration_fault (enter (Ds d) (DsPauseButton d) (Conn t)) e x → thread_fault d i (Iterates e) x.
Proof.
  intros Ht [H0 Hp] Hok [-> | [[-> Hf] | (-> & (b1 & b2 & b3 & b4 & Ep) & _ & Hcmd)]]; [by left | right; exists e; split; [done |]; by left |].
  right. exists e. split; [done |]. right. split; [done |]. split; [by eexists _, _, _, _ |]. exists t. split; [done |].
  pose proof (io_shutdown _ _ _ _ _ Hok _ _ _ _ Ep) as Hr. change (ShutdownRequest (Conn t) = true) in Hr.
  change (OptShutdownCmd (Conn t) = None) in Hcmd. split; [done |].
  destruct (decide (ShutdownAck (Conn t) = 0)) as [E |]; [| lia]. specialize (Hp E). by rewrite Hr, Hcmd in Hp.
Qed.

(** The accounts of all connectors together. *)
Lemma accounts_sum (ss : list slot) (ts : list TConnThread) :
  length ss = length ts →
  (∀ i s t, ss !! i = Some s → ts !! i = Some t → ident <$> (s_live s ++ Destroyed (Shared (Conn t))) ≡ₚ ident <$> s_acc s) →
  ident <$> (concat (s_live <$> ss) ++ destroyed_of ts) ≡ₚ ident <$> all_acc ss.
Proof.
  revert ts. induction ss as [| s ss IH]; intros [| t ts] Hl Hp; [done | done | done |]. injection Hl as Hl.
  pose proof (Hp 0%nat s t eq_refl eq_refl) as H0. specialize (IH ts Hl (λ i, Hp (S i))). unfold destroyed_of, all_acc in *. cbn.
  rewrite !fmap_app in *. rewrite <- IH, <- H0. perm_lia.
Qed.

Lemma pool_ok acc d i e md o ss s t l :
  msgs_kept md o ss d → acc ≡ₚ all_acc ss → ss !! i = Some s → Connectors d !! i = Some t →
  (∀ l, ident <$> (l ++ destroyed_of (Connectors d)) ≡ₚ ident <$> acc → Forall (readable (EvPool e)) l) →
  ident <$> (l ++ Destroyed (Shared (Conn t))) ≡ₚ ident <$> s_acc s → Forall (readable (EvPool e)) l.
Proof.
  intros Hk Ha Hs Ht Hpool Hl. pose proof (lookup_lt_Some _ _ _ Hs) as Hlt. set (ss' := <[i := mkSlot l [] (s_acc s)]> ss).
  assert (all_acc ss' ≡ₚ all_acc ss) as Ha' by (by apply (all_acc_insert ss i s _ [])).
  assert (Forall (readable (EvPool e)) (concat (s_live <$> ss'))) as Hf.
  { apply Hpool. rewrite Ha, <- Ha'. apply accounts_sum.
    - unfold ss'. by rewrite length_insert, (mk_slots _ _ _ _ _ _ Hk), (mk_conns _ _ _ _ _ _ Hk).
    - intros j sj tj. unfold ss'. destruct (decide (i = j)) as [<- | Hne].
      + rewrite list_lookup_insert_eq by done. intros [= <-] E. assert (tj = t) as -> by congruence. exact Hl.
      + rewrite list_lookup_insert_ne by done. intros Hsj Htj. apply (mk_threads _ _ _ _ _ _ Hk j sj tj Hsj Htj). }
  apply Forall_concat in Hf. rewrite Forall_forall in Hf. apply Hf. apply list_elem_of_fmap. exists (mkSlot l [] (s_acc s)). split; [done |].
  apply list_elem_of_lookup. exists i. by apply list_lookup_insert_eq.
Qed.

Lemma iterates_event acc d i e md o ss s t :
  msgs_kept md o ss d → acc ≡ₚ all_acc ss → ss !! i = Some s → Connectors d !! i = Some t →
  iterates_ok acc d i (enter (Ds d) (DsPauseButton d) (Conn t)) e →
  event_ok (conf_at conf i) (s_acc s) (enter (Ds d) (DsPauseButton d) (Conn t)) e.
Proof.
  intros Hk Ha Hs Ht [E1 E2 E3 E4 E5 E6 E7]. split; try done. intros l Hl. by eapply pool_ok.
Qed.

(** ** The steps of a thread *)

(** The socket is closed when the thread is about to terminate. *)
Definition left_in (go_on : bool) (c : TConnector) : TConnector := if go_on then c else c <| Sock := false |>.

Lemma iterates_kept acc d i e md o ss s t :
  msgs_kept md o ss d → acc ≡ₚ all_acc ss → ss !! i = Some s → Connectors d !! i = Some t → Phase t = InLoop →
  iterates_ok acc d i (enter (Ds d) (DsPauseButton d) (Conn t)) e →
  wp (iteration ComputeCrc32 (conf_at conf i) e) (enter (Ds d) (DsPauseButton d) (Conn t))
    (λ go c', ∃ s', s_acc s' = s_acc s ∧ msgs_kept md o (<[i := s']> ss) (with_conn i (left_in go c') (phase_after (Some go) InLoop) d))
    (λ _ _, False) (thread_fault d i (Iterates e)).
Proof.
  intros Hk Ha Hs Ht Hph Hok. destruct (thread_entered _ _ _ _ _ _ _ _ _ Hk Hs Ht) as [Hr (p & q & Hi & Hlive)]; [by rewrite Hph |].
  pose proof (mk_threads _ _ _ _ _ _ Hk i s t Hs Ht) as [_ Hacc (dn & Hdes & Hdn) Hlost].
  pose proof Hr as [_ Haf Hdy Hmd Hphase]. rewrite Hph in Hphase. destruct Hphase as (Hl0 & Hst & Hpro).
  pose proof (iterates_event acc d i e md o ss s t Hk Ha Hs Ht Hok) as Hev.
  set (c := enter (Ds d) (DsPauseButton d) (Conn t)) in *. apply conn_inv_read in Hi; [| exact Hst].
  change (all_msgs p q (Conn t)) with (all_msgs p q c) in Hlive.
  assert (left_of (s_acc s) c (all_msgs p q c)) as Hleft by (unfold left_of; rewrite Hlive; exact Hacc).
  pose proof (iteration_wp ComputeCrc32 (conf_at conf i) e _ (s_acc s) p q c Hi Hleft Hev) as Hwp.
  pose proof (iteration_md ComputeCrc32 (conf_at conf i) e c) as Hmd'.
  pose proof (iteration_protocol ComputeCrc32 (conf_at conf i) e c) as Hpro'.
  unfold wp, CM in *. destruct (iteration ComputeCrc32 (conf_at conf i) e c) as [[go | x | x] c'] eqn:E; [| by destruct Hwp as [? _]; cbn in *; congruence | by eapply orphan_acknowledged].
  destruct Hwp as (p' & q' & lost & Hm & Hmv & Hsend & Hpause & Hdy' & Hlost' & Hgo). cbn in Hmd'.
  destruct Hmv as (Haf' & dd & Hd1 & Hd2 & Hd3). change (Destroyed (Shared c)) with (Destroyed (Shared (Conn t))) in Hd1. rewrite Hlive in Hd3.
  exists (mkSlot (all_msgs p' q' c') lost (s_acc s)). split; [done |].
  pose proof (length_ident _ _ Hd3) as Hlen. pose proof (load_ident _ _ Hd3) as Hload. rewrite !length_app in Hlen. rewrite !load_app in Hload.
  pose proof (load_nonneg dd) as Hdd. rewrite Hl0 in *.
  eapply msgs_kept_update; [exact Hk | done | done | | | |]; cbn [s_live s_lost s_acc].
  - assert (Destroyed (Shared (left_in go c')) = Destroyed (Shared c')) as Edes by (by destruct go).
    split; cbn [s_live s_lost s_acc Conn Phase]; rewrite ?Edes, ?Hd1; try done.
    + rewrite decide_False by (by destruct go). split; cbn [s_live s_lost s_acc Conn Phase].
      * eexists _, p', q'. split; [| by destruct go]. replace (unread (left_in go c')) with (left_in go (unread c')) by (by destruct go).
        pose proof (conn_inv_unread ComputeCrc32 conf i _ p' q' c' Hm Hsend Hpause) as Hu. destruct go; [exact Hu |].
        destruct Hu as [U1 U2 U3 U4]. split; [| by apply (send_inv_same _ _ (unread c')) | done | done].
        by apply (msgs_inv_same (conf_at conf i) _ p' q' (unread c')).
      * destruct go; cbn; (etrans; [exact Haf' | exact Haf]).
      * destruct go; cbn; (etrans; [exact Hdy' | exact Hdy]).
      * destruct go; cbn; (etrans; [exact Hmd' | exact Hmd]).
      * destruct go; cbn; [| done]. destruct (Hgo eq_refl) as [-> Hst']. split_and!; [done | done |].
        apply Hpro'; [by apply (protocol_same (Conn t)) | done].
    + rewrite !fmap_app in *. rewrite reverse_Permutation. clear -Hd3 Hacc. perm_lia.
    + exists (dd ++ dn). rewrite reverse_Permutation, Hdes. split; [perm_lia | by apply Forall_app].
  - replace (tracker_of (left_in go c')) with (tracker_of c') by (by destruct go).
    eapply tracker_ok_perm; [| apply (qi_tracker _ _ _ _ (mi_queue _ _ _ _ _ Hm))].
    unfold all_msgs. change (ReadyList (queue_of c')) with (ReadyList (CInputQueue c')). perm_lia.
  - rewrite !length_app. lia.
  - rewrite !load_app. pose proof (load_nonneg (s_lost s)). lia.
Qed.

(** [Run] up to the loop. *)
Definition connects (i : nat) (connected : bool) (fd : Z) : CM bool :=
  c ← get;
  md ← need AssertFailed (CMetadata c);
  massert (MyBrokerIndex (conf_at conf i) <? length (Brokers md))%nat;;
  DoRun_start (conf_at conf i) connected fd.

Lemma broker_at md i : metadata_ok md → (i < InServiceBrokerCount md)%nat → ∃ b, Brokers md !! i = Some b ∧ InService b = true.
Proof.
  intros Hm Hi. destruct (mo_grouped _ Hm) as (a & z & E & Ha & _ & Ec). rewrite Ec in Hi. apply lookup_lt_is_Some_2 in Hi as [b Hb].
  exists b. rewrite E. split; [by apply lookup_app_l_Some |]. rewrite Forall_forall in Ha. by eapply Ha, list_elem_of_lookup_2.
Qed.

Lemma DoRun_start_run i connected fd c md :
  metadata_ok md → (i < InServiceBrokerCount md)%nat → Sock c = false → CMetadata c = Some md → CStreamReader c = new_stream →
  DoRun_start (conf_at conf i) connected fd c =
    if connected then (Ret true, c <| Connector.OkShutdown := false |> <| Sock := true |>
      <| CStreamReader := StreamReader.mkReader (TImpl_new fd TBuf_new) stream_cfg |>)
    else (Ret false, c <| Connector.OkShutdown := false |> <| Sock := false |> <| PauseButton := true |>).
Proof.
  intros Hm Hi Hs Hc Hst. destruct (broker_at md i Hm Hi) as (b & Hb & Hin). unfold DoRun_start, CM.
  erewrite bind_Ret by reflexivity. set (c1 := c <| Connector.OkShutdown := false |>).
  assert (DoConnect (conf_at conf i) connected c1 = (Ret connected, c1 <| Sock := connected |>)) as Hd.
  { unfold DoConnect, CM. erewrite bind_Ret by reflexivity. cbv beta. change (Sock c1) with (Sock c). change (CMetadata c1) with (CMetadata c).
    rewrite Hs, Hc, massert_bind by done. erewrite bind_Ret by reflexivity. cbv beta. change (MyBrokerIndex (conf_at conf i)) with i. rewrite Hb.
    erewrite bind_Ret by reflexivity. cbv beta. by rewrite Hin. }
  unfold ConnectToBroker, CM. unfold CM in Hd. destruct connected.
  - erewrite bind_Ret by (rewrite (bind_Ret _ _ _ _ _ Hd); reflexivity). cbn [negb]. erewrite bind_Ret; [reflexivity |].
    apply on_stream_run. change (CStreamReader (c1 <| Sock := true |>)) with (CStreamReader c). rewrite Hst. reflexivity.
  - erewrite bind_Ret by (rewrite (bind_Ret _ _ _ _ _ Hd); reflexivity). reflexivity.
Qed.

Lemma connects_run i connected fd c md :
  metadata_ok md → (i < InServiceBrokerCount md)%nat → CMetadata c = Some md →
  connects i connected fd c = DoRun_start (conf_at conf i) connected fd c.
Proof.
  intros Hm Hi Hc. destruct (broker_at md i Hm Hi) as (b & Hb & _). apply lookup_lt_Some in Hb.
  unfold connects, CM. erewrite bind_Ret by reflexivity. cbv beta. rewrite Hc. erewrite bind_Ret by reflexivity. cbv beta.
  change (MyBrokerIndex (conf_at conf i)) with i. by rewrite massert_bind by (by apply Nat.ltb_lt).
Qed.

Lemma connects_kept i connected fd md o ss d s t :
  msgs_kept md o ss d → ss !! i = Some s → Connectors d !! i = Some t → Phase t = Launched → (connected = true → 0 ≤ fd) →
  ∃ c', close_socket (connects i connected fd) (enter (Ds d) (DsPauseButton d) (Conn t)) = (Ret connected, c') ∧
    msgs_kept md o ss (with_conn i c' (phase_after (Some connected) Launched) d).
Proof.
  intros Hk Hs Ht Hph Hfd. destruct (thread_entered _ _ _ _ _ _ _ _ _ Hk Hs Ht) as [Hr (p & q & Hi & Hlive)]; [by rewrite Hph |].
  pose proof (mk_threads _ _ _ _ _ _ Hk i s t Hs Ht) as [_ Hacc Hdes Hlost].
  pose proof Hr as [_ Haf Hdy Hmd Hphase]. rewrite Hph in Hphase. destruct Hphase as (Hl0 & Hsock & Hcm & Hstr & Hpro).
  pose proof (lookup_lt_Some _ _ _ Ht) as Hlt. rewrite (mk_conns _ _ _ _ _ _ Hk) in Hlt. set (c := enter (Ds d) (DsPauseButton d) (Conn t)) in *.
  pose proof (DoRun_start_run i connected fd c md (mk_md _ _ _ _ _ _ Hk) Hlt Hsock Hcm Hstr) as E.
  rewrite <- (connects_run i connected fd c md (mk_md _ _ _ _ _ _ Hk) Hlt Hcm) in E.
  assert (∀ c' : TConnector, same_msgs c c' → same_io c c' → PauseInProgress c' = PauseInProgress c → OptInProgressShutdown c' = OptInProgressShutdown c →
    Destroying c' = Destroying c → rest_of c' = rest_of c → CMetadata c' = CMetadata c →
    (connected = true → stream_inv c') → msgs_kept md o ss (with_conn i c' (phase_after (Some connected) Launched) d)) as Hgen.
  { intros c' S1 S2 S3 S4 S5 S6 S7 S8. rewrite <- (list_insert_id ss i s Hs).
    pose proof (same_msgs_all p q _ _ S1) as Hall. change (all_msgs p q c) with (all_msgs p q (Conn t)) in Hall.
    assert (Shared c' = Shared c) as Esh by apply S1. eapply msgs_kept_update; [exact Hk | done | done | | | done | done].
    - split; cbn [Conn Phase]; rewrite ?Esh; try done. rewrite decide_False by (by destruct connected). split; cbn [Conn Phase].
      + destruct Hi as [I1 I2 I3 I4]. eexists _, p, q. split; [apply conn_inv_unread | by rewrite Hall].
        * apply (msgs_inv_same (conf_at conf i) _ p q (unread c) c'); [by destruct S1; split | exact I1].
        * apply (send_inv_same _ _ (unread c)); [by destruct S2; split | exact I2].
        * unfold pause_inv. rewrite S3, S4. exact I3.
      + rewrite (sm_after _ _ S1). exact Haf.
      + rewrite S5. exact Hdy.
      + injection S6 as _ _ _ S6. rewrite S6. exact Hmd.
      + destruct connected; [| done]. cbn. split_and!; [done | by apply S8 |]. apply (protocol_same (Conn t)); [exact (f_equal fst S6) | done].
    - unfold tracker_of. rewrite Esh. eapply tracker_ok_perm; [| apply (mk_counted _ _ _ _ _ _ Hk)].
      rewrite (everything_split _ _ _ Hs). done. }
  unfold close_socket, CM in *. destruct connected; rewrite E; eexists; (split; [reflexivity |]); apply Hgen; try done.
  intros _. apply (stream_start fd); [by apply Hfd | done].
Qed.

(** The thread has left its loop. *)
Lemma MarkThreadFinished_ok md o ss d i t c' :
  msgs_kept md o ss (with_conn i c' Terminated d) → threads_counted d → Connectors d !! i = Some t → is_running t = true →
  ∃ d', MarkThreadFinished (with_conn i c' Terminated d) = (Ret (), d') ∧ disp_inv md o ss d' ∧ DState d' = DState d ∧
    Connectors d' = Connectors (with_conn i c' Terminated d).
Proof.
  intros Hk [H1 H2 H3] Ht Hr. pose proof (running_insert _ _ _ (mkConnThread c' Terminated) Ht) as Hn. rewrite Hr in Hn.
  set (d1 := with_conn i c' Terminated d) in *. change (<[i := _]> (Connectors d)) with (Connectors d1) in Hn.
  change (Nat.b2n (is_running (mkConnThread c' Terminated))) with 0%nat in Hn. cbn [Nat.b2n] in Hn.
  assert (length (Connectors d1) = length (Connectors d)) as El by apply length_insert.
  assert (running (Connectors d) ≤ length (Connectors d))%nat as Hle by apply length_filter.
  assert (usub (RunningThreadCount d1) 1 = Z.of_nat (running (Connectors d1))) as Eu.
  { change (RunningThreadCount d1) with (RunningThreadCount d). rewrite H1, usub_small; lia. }
  assert (Connectors d ≠ []) as Hne by (intros E0; by rewrite E0 in Ht).
  assert (∀ n, (n = if decide (running (Connectors d1) = 0%nat) then 1 else 0) →
    disp_inv md o ss (d1 <| RunningThreadCount := usub (RunningThreadCount d1) 1 |> <| ShutdownFinished := n |>)) as Hd.
  { intros n Hn'. split; [destruct Hk as [K1 K2 K3 K4 [K5 K6 K7]]; by split |]. split; [done | by rewrite <- El in H2 | done]. }
  specialize (H3 Hne). rewrite decide_False in H3 by lia. unfold MarkThreadFinished, HandleAllThreadsFinished, DM.
  erewrite bind_Ret by reflexivity. erewrite bind_Ret by reflexivity. cbv beta.
  change (RunningThreadCount (d1 <| RunningThreadCount := ?x |>)) with x. rewrite Eu. destruct (Z.of_nat (running (Connectors d1)) =? 0) eqn:E0.
  - eexists. split; [reflexivity |]. split; [| done]. rewrite <- Eu. apply (Hd (ShutdownFinished d + 1)).
    rewrite decide_True by (apply Z.eqb_eq in E0; lia). lia.
  - eexists. split; [reflexivity |]. split; [| done]. rewrite <- Eu. apply (Hd (ShutdownFinished d)).
    rewrite decide_False by (apply Z.eqb_neq in E0; lia). lia.
Qed.

(** No thread is joined by a step of a thread. *)
Definition joins_nothing (d d' : TKafkaDispatcher) : Prop :=
  ∀ j t', Connectors d' !! j = Some t' → Phase t' = Joined → ∃ t, Connectors d !! j = Some t ∧ Phase t = Joined.

Lemma with_conn_joins d i c ph : ph ≠ Joined → joins_nothing d (with_conn i c ph d).
Proof.
  intros Hph j t' Hj Hp. cbn in Hj. apply list_lookup_insert_Some in Hj as [(<- & <- & _) | [_ Hj]]; [done | by exists t'].
Qed.

Lemma run_thread_kept md o d i t m acc F :
  threads_counted d → Connectors d !! i = Some t → is_running t = true →
  wp (close_socket m) (enter (Ds d) (DsPauseButton d) (Conn t))
    (λ go c', ∃ ss', acc ≡ₚ all_acc ss' ∧ msgs_kept md o ss' (with_conn i c' (phase_after (Some go) (Phase t)) d))
    (λ _ _, False) F →
  wp (run_thread i m) d (λ _ d', ∃ ss', disp_inv md o ss' d' ∧ acc ≡ₚ all_acc ss' ∧ DState d' = DState d ∧ joins_nothing d d')
    (λ _ _, False) F.
Proof.
  intros Hn Ht Hr Hm. unfold run_thread, on_connector, wp, mbind, M_bind in *. rewrite Ht.
  destruct (close_socket m (enter (Ds d) (DsPauseButton d) (Conn t))) as [[go | x | x] c'] eqn:E; [| done | done].
  destruct Hm as (ss' & Ha & Hk). destruct go.
  - exists ss'. split_and!; try done; [| by apply with_conn_joins]. split; [exact Hk |]. by apply (same_count d i t).
  - destruct (MarkThreadFinished_ok md o ss' d i t c' Hk Hn Ht Hr) as (d' & E' & Hd & Hst & Hc).
    change (phase_after (Some false) (Phase t)) with Terminated. cbv iota beta. unfold DM in E'. rewrite E'. exists ss'. split_and!; try done.
    intros j t' Hj. rewrite Hc in Hj. by apply (with_conn_joins d i c' Terminated).
Qed.

Lemma close_socket_wp (m : CM bool) c (P : bool → TConnector → Prop) F :
  wp m c (λ go c', P go (left_in go c')) (λ _ _, False) F → wp (close_socket m) c P (λ _ _, False) F.
Proof. unfold wp, close_socket. by destruct (m c) as [[[] | |] c']. Qed.

(** A step of a thread keeps the invariant. *)
Lemma step_thread_kept acc d i st md o ss :
  disp_inv md o ss d → acc ≡ₚ all_acc ss → step_ok acc d i st →
  wp (step_thread ComputeCrc32 conf i st) d
    (λ _ d', ∃ ss', disp_inv md o ss' d' ∧ acc ≡ₚ all_acc ss' ∧ DState d' = DState d ∧ joins_nothing d d')
    (λ _ _, False) (thread_fault d i st).
Proof.
  intros [Hk Hn] Ha Hok. unfold step_thread. eapply wp_bind_Ret; [reflexivity |].
  assert (wp (mret () : DM ()) d (λ _ d', ∃ ss', disp_inv md o ss' d' ∧ acc ≡ₚ all_acc ss' ∧ DState d' = DState d ∧ joins_nothing d d')
    (λ _ _, False) (thread_fault d i st)) as Hskip.
  { eapply wp_Ret; [reflexivity |]. exists ss. split_and!; try done. intros j t' Hj Hp. by exists t'. }
  destruct (Connectors d !! i) as [t |] eqn:Ht; [| exact Hskip].
  assert (is_Some (ss !! i)) as [s Hs].
  { apply lookup_lt_is_Some_2. rewrite (mk_slots _ _ _ _ _ _ Hk), <- (mk_conns _ _ _ _ _ _ Hk). by eapply lookup_lt_Some. }
  destruct (Phase t) eqn:Hph, st as [connected fd | e]; try exact Hskip.
  - apply (run_thread_kept md o d i t); [done | done | unfold is_running; rewrite Hph; done |].
    destruct (connects_kept i connected fd md o ss d s t Hk Hs Ht Hph Hok) as (c' & E & Hk').
    eapply wp_Ret; [exact E |]. exists ss. split; [done |]. by rewrite Hph.
  - apply (run_thread_kept md o d i t); [done | done | unfold is_running; rewrite Hph; done |]. apply close_socket_wp. cbn in Hok.
    eapply wp_mono; [by eapply (iterates_kept acc d i e md o ss s t); [..| apply Hok] |]. intros go c' (s' & Hs' & Hk').
    exists (<[i := s']> ss). rewrite Hph. split; [| done]. rewrite Ha. symmetry. by apply (all_acc_insert ss i s s' []).
Qed.

(** ** The join *)

Lemma wait_ready ready d : ready d = true → wait ComputeCrc32 conf ready d = (Ret (), d).
Proof. intros Hr. unfold wait, DM. erewrite bind_Ret by reflexivity. destruct (Schedule d); cbn; unfold DM; erewrite bind_Ret by reflexivity; by rewrite Hr. Qed.

Lemma with_conn_twice i c1 p1 c2 p2 d : with_conn i c2 p2 (with_conn i c1 p1 d) = with_conn i c2 p2 d.
Proof. unfold with_conn. cbn. by rewrite list_insert_insert_eq. Qed.

Lemma JoinOne_run d i t c2 :
  Connectors d !! i = Some t → Phase t = Terminated →
  CleanupAfterJoin (enter (Ds d) (DsPauseButton d) (Conn t) <| ShutdownRequest := false |>) = (Ret (), c2) →
  JoinOne ComputeCrc32 conf i d = (Ret (), with_conn i c2 Joined d).
Proof.
  intros Ht Hph Hc. set (c1 := enter (Ds d) (DsPauseButton d) (Conn t) <| ShutdownRequest := false |>) in *.
  unfold JoinOne, DM. rewrite (bind_Ret _ _ _ () (with_conn i c1 Joined d)).
  - rewrite <- (with_conn_twice i c1 Joined c2 Joined d). change Joined with (Phase (mkConnThread c1 Joined)) at 2.
    apply call_connector_ok.
    + cbn. apply list_lookup_insert_eq. by eapply lookup_lt_Some.
    + rewrite <- Hc. f_equal.
  - unfold Join, the_thread, IsStarted, DM. erewrite bind_Ret by (erewrite bind_Ret by reflexivity; by rewrite Ht).
    cbv beta. rewrite Hph. cbn [bool_decide decide]. erewrite bind_Ret by reflexivity.
    erewrite bind_Ret by (apply wait_ready; by rewrite Ht, Hph).
    unfold on_connector, mbind, M_bind. by rewrite Ht.
Qed.

Lemma JoinOne_ok md o ss d i s t :
  disp_inv md o ss d → ss !! i = Some s → Connectors d !! i = Some t → Phase t = Terminated →
  ∃ s' c2, JoinOne ComputeCrc32 conf i d = (Ret (), with_conn i c2 Joined d) ∧
    disp_inv md o (<[i := s']> ss) (with_conn i c2 Joined d) ∧ s_acc s' = s_acc s.
Proof.
  intros [Hk Hn] Hs Ht Hph. destruct (thread_entered _ _ _ _ _ _ _ _ _ Hk Hs Ht) as [Hr (p & q & Hi & Hlive)]; [by rewrite Hph |].
  pose proof (mk_threads _ _ _ _ _ _ Hk i s t Hs Ht) as [_ Hacc Hdes Hlost]. pose proof Hr as [_ Haf Hdy _ _]. injection Haf as Haf1 Haf2.
  set (c := enter (Ds d) (DsPauseButton d) (Conn t)) in *. set (c1 := c <| ShutdownRequest := false |>).
  destruct (msgs_inv_same (conf_at conf i) (s_lost s ++ o ++ everything (delete i ss)) p q (unread c) c1) as [Hi1 _]; [done | apply Hi |].
  destruct (CleanupAfterJoin_ok (conf_at conf i) _ p q c1 Hi1 Haf1 Haf2 Hdy) as (c2 & E & [C1 C2 C3 C4 C5 _ C7]).
  set (sw := concat (SendWaitAfterShutdown c2)) in *. set (na := concat (NoAckAfterShutdown c2)) in *.
  assert (ident <$> (sw ++ na) ≡ₚ ident <$> s_live s) as Hid.
  { apply (fmap_coarser _ ident _ _ ident_forget) in C1. rewrite <- Hlive, C2. unfold all_msgs, held.
    change (current_msgs c1) with (current_msgs (Conn t)) in C1. change (GotAckAfterPause c1) with (GotAckAfterPause (Conn t)) in C1.
    change (Factory c1) with (Factory (Conn t)) in C1. change (CInputQueue c1) with (CInputQueue (Conn t)) in C1.
    change (ack_wait_msgs c1) with (ack_wait_msgs (Conn t)). change (NoAckAfterPause c1) with (NoAckAfterPause (Conn t)). clear -C1. perm_lia. }
  exists (mkSlot (sw ++ na) (s_lost s) (s_acc s)), c2. split; [by apply (JoinOne_run d i t) |].
  split; [| done]. split; [| apply (same_count d i t); [done | done | by unfold is_running; rewrite Hph]].
  pose proof (load_ident _ _ Hid) as Hw. pose proof (length_ident _ _ Hid) as Hl.
  assert (Destroyed (Shared c2) = Destroyed (Shared (Conn t))) as Hd by exact C7.
  eapply msgs_kept_update; [exact Hk | done | done | | | cbn [s_live s_lost]; rewrite !length_app in *; lia | cbn [s_live s_lost]; rewrite !load_app in *; lia].
  - split; cbn [s_live s_lost s_acc Conn Phase]; rewrite ?Hd; try done. rewrite !fmap_app in *. rewrite <- Hacc. clear -Hid. perm_lia.
  - cbn [s_live s_lost]. eapply tracker_ok_perm; [| exact C5]. perm_lia.
Qed.

(** ** Shutdown commands *)

Lemma control_kept md o ss d i t (m : CM ()) d' cmd req :
  disp_inv md o ss d → Connectors d !! i = Some t → Phase t ≠ Joined →
  (∀ c c', m c = (Ret (), c') → c' = c <| OptShutdownCmd := cmd |> <| ShutdownRequest := req c |>) →
  (is_running t = true → protocol ((Conn t) <| OptShutdownCmd := cmd |> <| ShutdownRequest := req (enter (Ds d) (DsPauseButton d) (Conn t)) |>)) →
  call_connector i m d = (Ret (), d') → disp_inv md o ss d' ∧ DState d' = DState d ∧ joins_nothing d d'.
Proof.
  intros [Hk Hn] Ht Hph Hm Hpro Hr. unfold call_connector in Hr. apply bind_inv_Ret in Hr as (a & d1 & Hr & Ha). unfold on_connector in Hr. rewrite Ht in Hr.
  set (c := enter (Ds d) (DsPauseButton d) (Conn t)) in *. destruct (m c) as [[[] | [] | x] c'] eqn:E; [injection Hr as <- <- | injection Hr as <- <-; done | done].
  injection Ha as <-. apply Hm in E. assert (is_Some (ss !! i)) as [s Hs].
  { apply lookup_lt_is_Some_2. rewrite (mk_slots _ _ _ _ _ _ Hk), <- (mk_conns _ _ _ _ _ _ Hk). by eapply lookup_lt_Some. }
  destruct (thread_entered _ _ _ _ _ _ _ _ _ Hk Hs Ht Hph) as [Hrv (p & q & Hi & Hlive)].
  pose proof (mk_threads _ _ _ _ _ _ Hk i s t Hs Ht) as [_ Hacc Hdes Hlost].
  split; [| split; [done | by apply with_conn_joins]]. split; [| by apply (same_count d i t)].
  rewrite <- (list_insert_id ss i s Hs). subst c'. eapply msgs_kept_update; [exact Hk | done | done | | | done | done].
  - split; cbn [Conn Phase]; try done. rewrite decide_False by done. destruct Hrv as [R1 R2 R3 R4 R5]. split; cbn [Conn Phase]; try done.
    + eexists _, p, q. split; [| exact Hlive]. destruct Hi as [I1 I2 I3 I4]. split; try done.
      by apply (msgs_inv_same (conf_at conf i) _ p q (unread c)).
    + unfold is_running in Hpro. destruct (Phase t); cbn in *; [| | done | done].
      * destruct R5 as (R51 & R52 & R53 & R54 & R55). split_and!; try done. eapply protocol_same; [| by apply Hpro]. done.
      * destruct R5 as (R51 & R52 & R53). split_and!; try done. eapply protocol_same; [| by apply Hpro]. done.
  - eapply tracker_ok_perm; [| apply (mk_counted _ _ _ _ _ _ Hk)]. rewrite (everything_split _ _ _ Hs). done.
Qed.

(** A shutdown command of the router. *)
Inductive command := SlowShutdown (start_time : Z) | FastShutdown.

Definition command_of (k : command) : CM () :=
  match k with SlowShutdown start_time => StartSlowShutdown start_time | FastShutdown => StartFastShutdown end.

Lemma running_protocol md o ss d i t :
  disp_inv md o ss d → Connectors d !! i = Some t → Phase t ≠ Joined → is_running t = true → protocol (Conn t).
Proof.
  intros [Hk _] Ht Hph Hr. assert (is_Some (ss !! i)) as [s Hs].
  { apply lookup_lt_is_Some_2. rewrite (mk_slots _ _ _ _ _ _ Hk), <- (mk_conns _ _ _ _ _ _ Hk). by eapply lookup_lt_Some. }
  destruct (mk_threads _ _ _ _ _ _ Hk i s t Hs Ht) as [Hst _ _ _]. rewrite decide_False in Hst by done.
  pose proof (rv_phase _ _ _ _ _ _ Hst) as Hx. unfold is_running in Hr. apply bool_decide_eq_true in Hr. destruct (Phase t); naive_solver.
Qed.

Lemma command_kept md o ss d i t k d' :
  disp_inv md o ss d → Connectors d !! i = Some t → Phase t ≠ Joined →
  call_connector i (command_of k) d = (Ret (), d') → disp_inv md o ss d' ∧ DState d' = DState d ∧ joins_nothing d d'.
Proof.
  intros Hd Ht Hph. apply (control_kept md o ss d i t (command_of k) d'
    (Some (mkShutdownCmd (match k with SlowShutdown z => Some z | FastShutdown => None end))) (λ _, true)); try done.
  - intros c c'. destruct k; apply StartShutdown_inv.
  - intros Hr. destruct (running_protocol md o ss d i t Hd Ht Hph Hr) as [H0 _]. by split.
Qed.

Lemma ack_kept md o ss d i t d' :
  disp_inv md o ss d → Connectors d !! i = Some t → Phase t ≠ Joined → ack_or_end i d = true →
  call_connector i WaitForShutdownAck d = (Ret (), d') → disp_inv md o ss d' ∧ DState d' = DState d ∧ joins_nothing d d'.
Proof.
  intros Hd Ht Hph Hack. apply (control_kept md o ss d i t WaitForShutdownAck d' None ShutdownRequest); try done.
  - intros c c' [= <-]. by destruct c.
  - intros Hr. unfold ack_or_end in Hack. rewrite Ht in Hack. unfold is_running in Hr. apply bool_decide_eq_true in Hr.
    rewrite (bool_decide_false (Phase t = Terminated)), orb_false_r in Hack by (destruct Hr; congruence). apply Z.ltb_lt in Hack.
    split; cbn; lia.
Qed.

(** ** The start *)

(** The configuration that the connectors can work with. *)
Record disp_conf_ok : Prop := {
  dk_conn : conf_ok GetCompressionCodec (ConnConf conf);
  dk_per_topic : ∀ k t, PerTopicBatching conf = Some k → config_ok (Config_Get t k);
  dk_combined : config_ok (CombinedBatching conf)
}.

Definition fresh (i : nat) (ds : TDispatcherSharedState) : TConnector :=
  TConnector_new GetCompressionCodec (conf_at conf i)
    (mkShared (ResponseProcessor.MsgStateTracker ds) (ResponseProcessor.AnomalyTracker ds) (AckCount ds) [])
    (PerTopicBatching conf) (CombinedBatching conf) (CombinedTopicFilter conf) (CombinedExclude conf).

Lemma conf_ok_at i : disp_conf_ok → conf_ok GetCompressionCodec (conf_at conf i).
Proof. intros [[H1 H2] _ _]. split; [| exact H2]. intros k. destruct (H1 k) as [C1 C2 C3]. by split. Qed.

(** A connector that has just been made. *)
Lemma fresh_inv md i ds pause o :
  disp_conf_ok → metadata_ok md → (i < InServiceBrokerCount md)%nat →
  tracker_ok (ResponseProcessor.MsgStateTracker ds) o → Z.of_nat (length o) < 2 ^ 64 →
  ∃ c, SetMetadata GetCompressionCodec (conf_at conf i) md (enter ds pause (fresh i ds)) = (Ret (), c) ∧
    thread_inv md i (mkSlot [] [] []) (mkConnThread c Launched) ∧ PauseButton c = pause ∧
    Shared c = mkShared (ResponseProcessor.MsgStateTracker ds) (ResponseProcessor.AnomalyTracker ds) (AckCount ds) [].
Proof.
  intros Hok Hm Hi Ht Hl. pose proof Hok as [_ Hpt Hcb]. eexists. split; [reflexivity |].
  set (c := _ <| Factory := _ |>). split; [| done].
  set (c0 := (SetMetadata GetCompressionCodec (conf_at conf i) md (fresh i ds)).2).
  pose proof (DoRun_start_run i true 0 c0 md Hm Hi eq_refl eq_refl eq_refl) as E.
  destruct (start_inv GetCompressionCodec ComputeCrc32 (conf_at conf i) (Shared (fresh i ds)) (PerTopicBatching conf) (CombinedBatching conf)
    (CombinedTopicFilter conf) (CombinedExclude conf) md 0 o _ (conf_ok_at i Hok) Ht Hl Hpt Hcb ltac:(lia) E) as ([I1 I2 I3 _] & _).
  split; cbn [s_live s_lost s_acc Conn Phase]; [| done | by exists [] | done].
  rewrite decide_False by done. split; try done. exists o, [], []. split; [| done]. apply conn_inv_unread.
  - by eapply (msgs_inv_same (conf_at conf i) o [] []); [| exact I1].
  - by eapply send_inv_same; [| exact I2].
  - done.
Qed.

Lemma StartConnector_run md o d :
  disp_conf_ok → metadata_ok md → (length (Connectors d) < InServiceBrokerCount md)%nat →
  tracker_ok (ResponseProcessor.MsgStateTracker (Ds d)) o → Z.of_nat (length o) < 2 ^ 64 →
  ∃ t, StartConnector GetCompressionCodec conf md (length (Connectors d)) d = (Ret (), d <| Connectors := Connectors d ++ [t] |>) ∧
    thread_inv md (length (Connectors d)) (mkSlot [] [] []) t ∧ Phase t = Launched.
Proof.
  intros Hok Hm Hi Ht Hl. set (i := length (Connectors d)) in *. destruct (broker_at md i Hm Hi) as (b & Hb & Hin).
  destruct (fresh_inv md i (Ds d) (DsPauseButton d) o Hok Hm Hi Ht Hl) as (c & E & Hinv & Hp & Hsh).
  exists (mkConnThread c Launched). split; [| done]. unfold StartConnector, DM. rewrite Hb. erewrite bind_Ret by reflexivity. cbv beta. rewrite Hin.
  erewrite bind_Ret by reflexivity. erewrite bind_Ret by reflexivity. cbv beta zeta. erewrite bind_Ret by reflexivity.
  fold (fresh i (Ds d)). set (d1 := d <| Connectors := _ |>).
  rewrite (call_connector_ok i _ d1 (mkConnThread (fresh i (Ds d)) Launched) () c); [| | exact E].
  - unfold with_conn, leave, tracker_of. rewrite Hsh, Hp. cbn [Phase]. f_equal. unfold d1. cbn. unfold i. rewrite insert_app_r_alt, Nat.sub_diag by lia.
    destruct d as [[] ? ? ? ? ? ? ? ?]. done.
  - unfold d1. cbn. unfold i. rewrite lookup_app_r, Nat.sub_diag by lia. done.
Qed.

Lemma each_start_run md o n d :
  disp_conf_ok → metadata_ok md → (length (Connectors d) + n ≤ InServiceBrokerCount md)%nat →
  tracker_ok (ResponseProcessor.MsgStateTracker (Ds d)) o → Z.of_nat (length o) < 2 ^ 64 →
  ∃ ts, each_connector (StartConnector GetCompressionCodec conf md) (length (Connectors d)) n d =
      (Ret (), d <| Connectors := Connectors d ++ ts |>) ∧ length ts = n ∧ Forall (λ t, Phase t = Launched) ts ∧
    ∀ j t, ts !! j = Some t → thread_inv md (length (Connectors d) + j) (mkSlot [] [] []) t.
Proof.
  intros Hok Hm. revert d. induction n as [| n IH]; intros d Hi Ht Hl.
  { exists []. split; [| done]. cbn. rewrite app_nil_r. by destruct d. }
  destruct (StartConnector_run md o d Hok Hm ltac:(lia) Ht Hl) as (t & E & Hinv & Hph). set (d1 := d <| Connectors := _ |>) in *.
  assert (length (Connectors d1) = S (length (Connectors d))) as El by (unfold d1; cbn; rewrite length_app; cbn; lia).
  destruct (IH d1) as (ts & E2 & Hn & Hf & Hts); [lia | done | done |]. exists (t :: ts). split_and!; [| by cbn; rewrite Hn | by constructor |].
  - cbn [each_connector]. unfold DM. rewrite (bind_Ret _ _ _ _ _ E). rewrite El in E2. rewrite E2. unfold d1. cbn. by rewrite <- app_assoc.
  - intros [| j] t' Hj; cbn in Hj.
    + injection Hj as <-. by rewrite Nat.add_0_r.
    + specialize (Hts j t' Hj). rewrite El in Hts. by replace (length (Connectors d) + S j)%nat with (S (length (Connectors d)) + j)%nat by lia.
Qed.

(** What the start needs; [o] are the messages of the server. *)
Record startable (md : TMetadata) (o : list TMsg) (d : TKafkaDispatcher) : Prop := {
  sb_conf : disp_conf_ok;
  sb_md : metadata_ok md;
  sb_protocol : ProduceProtocol d = true;
  sb_stopped : DState d = Stopped;
  sb_pause : DsPauseButton d = false;
  sb_threads : RunningThreadCount d = 0 ∧ ShutdownFinished d = 0;
  sb_few : Z.of_nat (InServiceBrokerCount md) < 2 ^ 64;
  sb_counted : counted conf o d
}.

Lemma everything_empty n : everything (replicate n (mkSlot [] [] [])) = [].
Proof. induction n as [| n IH]; [done |]. unfold everything in *. cbn. exact IH. Qed.

Lemma Dispatcher_Start_ok md o d :
  startable md o d →
  ∃ d', Dispatcher_Start GetCompressionCodec conf md d = (Ret (), d') ∧
    disp_inv md o (replicate (InServiceBrokerCount md) (mkSlot [] [] [])) d' ∧ DState d' = Started ∧
    Forall (λ t, Phase t = Launched) (Connectors d').
Proof.
  intros [H1 H2 H3 H4 H5 [H6 H7] H8 [H9 H10 H11]]. destruct (mo_grouped _ H2) as (a & z & E & Ha & Hz & Ec).
  set (n := InServiceBrokerCount md) in *.
  set (d1 := d <| DOkShutdown := true |> <| Connectors := [] |> <| RunningThreadCount := Z.of_nat n |>).
  destruct (each_start_run md o n d1 H1 H2) as (ts & Es & Hn & Hf & Hts); [cbn; lia | done | done |].
  cbn [length app] in Es. change (length (Connectors d1)) with 0%nat in Es, Hts. change (Connectors d1 ++ ts) with ts in Es.
  exists (d1 <| Connectors := ts |> <| DState := Started |>). split; [| split; [| done]].
  - unfold Dispatcher_Start, DM. erewrite bind_Ret by reflexivity. cbv beta. rewrite H3, H4, H5, H6, H7. do 5 rewrite massert_bind by done.
    erewrite bind_Ret by reflexivity. cbv zeta. fold n. rewrite massert_bind by (apply Nat.leb_le; rewrite E, length_app; lia).
    erewrite bind_Ret by reflexivity. rewrite (bind_Ret _ _ _ () d1).
    + unfold DM in Es. rewrite (bind_Ret _ _ _ _ _ Es). rewrite massert_bind; [done |]. rewrite E, drop_app_length' by done.
      apply forallb_forall. intros b Hb. rewrite Forall_forall in Hz. rewrite (Hz b); [done | by apply list_elem_of_In].
    + unfold MarkAllThreadsRunning, DM. erewrite bind_Ret by reflexivity. cbn.
      rewrite H6, H7. by rewrite !massert_bind by done.
  - assert (running ts = n) as Hrun.
    { unfold running. rewrite <- Hn. f_equal. apply filter_all. intros t Ht. rewrite Forall_forall in Hf. unfold is_running. by rewrite (Hf t Ht). }
    split; [split |].
    + done.
    + apply length_replicate.
    + done.
    + intros i s t Hs Ht. apply lookup_replicate in Hs as [-> _]. by apply (Hts i t).
    + rewrite everything_empty, app_nil_r. by split.
    + split; [by change (Z.of_nat n = Z.of_nat (running ts)); rewrite Hrun | cbn; by rewrite Hn |].
      change (ts ≠ [] → ShutdownFinished d = if decide (running ts = 0%nat) then 1 else 0). intros Hne. rewrite Hrun, H7, decide_False; [done |].
      intros E0. rewrite <- Hn in E0. by destruct ts.
Qed.

(** After its start the dispatcher is at work for the router. *)
Lemma started_at_work md o d d' :
  startable md o d → Dispatcher_Start GetCompressionCodec conf md d = (Ret (), d') → at_work ComputeCrc32 conf md o [] [] d'.
Proof.
  intros Hs Hr. destruct (Dispatcher_Start_ok md o d Hs) as (d2 & E & Hd & Hst & Hph). rewrite E in Hr. injection Hr as <-.
  eexists. split; [exact Hd |]. split; [by rewrite Hst |]. split; [eapply Forall_impl; [exact Hph | by intros t ->] |].
  rewrite everything_empty. split; [done |]. clear. unfold all_acc. induction (InServiceBrokerCount md) as [| n IH]; [done | exact IH].
Qed.

(** ** Every history *)

Notation max_bytes := (RequestFactory.MessageMaxBytes (FactoryConf (ConnConf conf))).

Definition nobody_joined (d : TKafkaDispatcher) : Prop := Forall (λ t, Phase t ≠ Joined) (Connectors d).

(** The states of a dispatcher from its start on, with the messages [o] of the rest of
    the server and those that it was given, [acc].  The router gives it messages, other
    messages change their state, the threads make their steps in any order, the router
    sends the threads shutdown commands, any number of them, waits for their
    acknowledgement, and joins threads that are about to terminate. *)
Inductive dispatcher_life (md : TMetadata) : list TMsg → list TMsg → TKafkaDispatcher → Prop :=
| dl_start o d d' : startable md o d → Dispatcher_Start GetCompressionCodec conf md d = (Ret (), d') → dispatcher_life md o [] d'
| dl_dispatch o acc d now m i d' :
    dispatcher_life md ([m] ++ o) acc d → nobody_joined d → routed max_bytes md m i → Msg.State m = New → Timestamp m ≤ INT64_MAX →
    Dispatcher_Dispatch now m i d = (Ret (), d') → dispatcher_life md o ([m] ++ acc) d'
| dl_dispatch_now o acc d now m i d' :
    dispatcher_life md ([m] ++ o) acc d → nobody_joined d → routed max_bytes md m i → legal SendWait (Msg.State m) = true →
    Dispatcher_DispatchNow now m i d = (Ret (), d') → dispatcher_life md o ([m] ++ acc) d'
| dl_dispatch_batch o acc d now bs i d' :
    dispatcher_life md (concat bs ++ o) acc d → nobody_joined d → Forall one_topic bs →
    Forall (λ m, routed max_bytes md m i) (concat bs) → Forall (λ m, legal SendWait (Msg.State m) = true) (concat bs) →
    Dispatcher_DispatchNow_batch now bs i d = (Ret (), d') → dispatcher_life md o (concat bs ++ acc) d'
| dl_elsewhere o o' acc d s :
    dispatcher_life md o acc d → (∀ l, counted conf (o ++ l) d → counted conf (o' ++ l) (d <| Ds := s |>)) →
    dispatcher_life md o' acc (d <| Ds := s |>)
| dl_thread o acc d i st d' :
    dispatcher_life md o acc d → step_ok acc d i st → step_thread ComputeCrc32 conf i st d = (Ret (), d') → dispatcher_life md o acc d'
| dl_command o acc d i t k d' :
    dispatcher_life md o acc d → Connectors d !! i = Some t → Phase t ≠ Joined →
    call_connector i (command_of k) d = (Ret (), d') → dispatcher_life md o acc d'
| dl_ack o acc d i t d' :
    dispatcher_life md o acc d → Connectors d !! i = Some t → Phase t ≠ Joined → ack_or_end i d = true →
    call_connector i WaitForShutdownAck d = (Ret (), d') → dispatcher_life md o acc d'
| dl_shutting_down o acc d : dispatcher_life md o acc d → dispatcher_life md o acc (d <| DState := ShuttingDown |>)
| dl_join o acc d i t d' :
    dispatcher_life md o acc d → Connectors d !! i = Some t → Phase t = Terminated →
    JoinOne ComputeCrc32 conf i d = (Ret (), d') → dispatcher_life md o acc d'.

Lemma contract_given md o live acc d now bs i d' :
  at_work ComputeCrc32 conf md (concat bs ++ o) live acc d → Forall one_topic bs → Forall (λ m, routed max_bytes md m i) (concat bs) →
  Forall (λ m, legal SendWait (Msg.State m) = true) (concat bs) → Dispatcher_DispatchNow_batch now bs i d = (Ret (), d') →
  ∃ live', at_work ComputeCrc32 conf md o live' (concat bs ++ acc) d'.
Proof.
  intros Hw Ho Hr Hl E.
  destruct (@dc_DispatchNow_batch _ _ _ (TKafkaDispatcher_contract GetCompressionCodec ComputeCrc32 conf) md o live acc d now bs i Hw Ho Hr Hl)
    as (live' & d2 & E2 & Hw' & _). change (Dispatcher_DispatchNow_batch now bs i d = (Ret (), d2)) in E2. rewrite E in E2. injection E2 as <-. by exists live'.
Qed.

Lemma life_kept md o acc d :
  dispatcher_life md o acc d → ∃ ss, disp_inv md o ss d ∧ acc ≡ₚ all_acc ss ∧ DState d ≠ Stopped.
Proof.
  assert (∀ o acc d ss, disp_inv md o ss d → acc ≡ₚ all_acc ss → DState d ≠ Stopped → nobody_joined d →
    at_work ComputeCrc32 conf md o (everything ss) acc d) as Hwork by (intros; eexists; by split_and!).
  set (K := TKafkaDispatcher_contract GetCompressionCodec ComputeCrc32 conf).
  induction 1 as [o d d' Hs Hr | o acc d now m i d' _ (ss & Hd & Ha & Hst) Hj Hro Hsm Hts Hr
    | o acc d now m i d' _ (ss & Hd & Ha & Hst) Hj Hro Hsm Hr | o acc d now bs i d' _ (ss & Hd & Ha & Hst) Hj Hone Hro Hsm Hr
    | o o' acc d s _ (ss & [Hk Hn] & Ha & Hst) He | o acc d i st d' _ (ss & Hd & Ha & Hst) Hok Hr
    | o acc d i t k d' _ (ss & Hd & Ha & Hst) Ht Hph Hr | o acc d i t d' _ (ss & Hd & Ha & Hst) Ht Hph Hack Hr
    | o acc d _ (ss & [Hk Hn] & Ha & Hst) | o acc d i t d' _ (ss & Hd & Ha & Hst) Ht Hph Hr].
  - destruct (Dispatcher_Start_ok md o d Hs) as (d2 & E & Hd & Hst & _). rewrite E in Hr. injection Hr as <-. eexists. split; [exact Hd |].
    split; [| by rewrite Hst]. clear. unfold all_acc. induction (InServiceBrokerCount md) as [| n IH]; [done | exact IH].
  - destruct (@dc_Dispatch _ _ _ K md o (everything ss) acc d now m i) as (live' & d2 & E2 & (ss' & H1 & H2 & _ & _ & H3) & _); try done; [by apply Hwork |].
    change (Dispatcher_Dispatch now m i d = (Ret (), d2)) in E2. rewrite Hr in E2. injection E2 as <-. by exists ss'.
  - destruct (@dc_DispatchNow _ _ _ K md o (everything ss) acc d now m i) as (live' & d2 & E2 & (ss' & H1 & H2 & _ & _ & H3) & _); try done; [by apply Hwork |].
    change (Dispatcher_DispatchNow now m i d = (Ret (), d2)) in E2. rewrite Hr in E2. injection E2 as <-. by exists ss'.
  - destruct (contract_given md o (everything ss) acc d now bs i d') as (live' & ss' & H1 & H2 & _ & _ & H3); try done; [by apply Hwork |]. by exists ss'.
  - exists ss. split_and!; try done. split; [| by destruct Hn]. destruct Hk as [K1 K2 K3 K4 K5]. split; try done. by apply He.
  - pose proof (step_thread_kept acc d i st md o ss Hd Ha Hok) as Hwp. unfold wp in Hwp. rewrite Hr in Hwp.
    destruct Hwp as (ss' & H1 & H2 & H3 & _). exists ss'. split_and!; congruence || done.
  - destruct (command_kept md o ss d i t k d' Hd Ht Hph Hr) as (H1 & H2 & _). exists ss. split_and!; congruence || done.
  - destruct (ack_kept md o ss d i t d' Hd Ht Hph Hack Hr) as (H1 & H2 & _). exists ss. split_and!; congruence || done.
  - exists ss. split_and!; try done. split; [| by destruct Hn]. destruct Hk as [K1 K2 K3 K4 [K5 K6 K7]]. by split.
  - assert (is_Some (ss !! i)) as [s Hs].
    { destruct Hd as [Hk _]. apply lookup_lt_is_Some_2. rewrite (mk_slots _ _ _ _ _ _ Hk), <- (mk_conns _ _ _ _ _ _ Hk). by eapply lookup_lt_Some. }
    destruct (JoinOne_ok md o ss d i s t Hd Hs Ht Hph) as (s' & c2 & E & H1 & H2). rewrite Hr in E. injection E as ->.
    exists (<[i := s']> ss). split_and!; [done | rewrite Ha; symmetry; by apply (all_acc_insert ss i s s' []) | done].
Qed.

(** ** The claims *)


(** C10: If there is a connector, the event that the router waits for after it started a
    shutdown is readable exactly when the thread of every connector has finished: it is not
    missed, and it does not come early. *)
Theorem dispatcher_shutdown_event md o acc d :
  dispatcher_life md o acc d → Connectors d ≠ [] →
  ShutdownWaitReadable d = true ↔ Forall (λ t, Phase t = Terminated ∨ Phase t = Joined) (Connectors d).
Proof.
  intros Hl Hne. destruct (life_kept md o acc d Hl) as (ss & [_ [H1 H2 H3]] & _). specialize (H3 Hne).
  assert (running (Connectors d) = 0%nat ↔ Forall (λ t, Phase t = Terminated ∨ Phase t = Joined) (Connectors d)) as <-.
  { clear. unfold running. induction (Connectors d) as [| t ts IH]; [done |]. rewrite filter_cons, Forall_cons.
    assert (is_running t = false ↔ (Phase t = Terminated ∨ Phase t = Joined)) as <- by (unfold is_running; destruct (Phase t); naive_solver).
    rewrite <- IH. destruct (is_running t); case_decide; cbn [length]; naive_solver. }
  unfold ShutdownWaitReadable. rewrite H3. case_decide; cbn; split; done || lia.
Qed.

(** The messages in the queues of the connectors. *)
Definition handed_over (ts : list TConnThread) : list TMsg :=
  concat ((λ t, concat (SendWaitAfterShutdown (Conn t)) ++ concat (NoAckAfterShutdown (Conn t))) <$> ts).

Lemma joined_sum md (k : nat) (ss : list slot) (ts : list TConnThread) :
  length ss = length ts → Forall (λ t, Phase t = Joined) ts →
  (∀ i s t, ss !! i = Some s → ts !! i = Some t → thread_inv md (k + i) s t) →
  concat (s_live <$> ss) = handed_over ts ∧ ∃ lost done, everything ss ≡ₚ handed_over ts ++ lost ∧ destroyed_of ts ≡ₚ lost ++ done ∧
    Forall (λ m, Msg.State m = AckWait) lost ∧ Forall (λ m, Msg.State m = Processed) done ∧
    Forall (λ t, Forall one_topic (SendWaitAfterShutdown (Conn t) ++ NoAckAfterShutdown (Conn t)) ∧
      Forall (λ m, Msg.State m = SendWait) (concat (SendWaitAfterShutdown (Conn t)))) ts.
Proof.
  revert k ts. induction ss as [| s ss IH]; intros k [| t ts] Hl Hj Hp; [| done | done |].
  { split; [done |]. exists [], []. by split_and!. }
  injection Hl as Hl. apply Forall_cons in Hj as [Hj Hjs].
  destruct (IH (S k) ts Hl Hjs) as (IH1 & lost & dn & I1 & I2 & I3 & I4 & I5).
  { intros i s' t' Hs' Ht'. specialize (Hp (S i) s' t' Hs' Ht'). by rewrite Nat.add_succ_r in Hp. }
  destruct (Hp 0%nat s t eq_refl eq_refl) as [Hst _ (d & Hd & Hdn) Hlost]. rewrite decide_True in Hst by done. destruct Hst as [J1 J2 J3].
  unfold handed_over, destroyed_of, everything in *. cbn [fmap list_fmap concat]. split; [by rewrite IH1, J1 |].
  exists (s_lost s ++ lost), (d ++ dn). split_and!; [| | by apply Forall_app | by apply Forall_app | by constructor].
  - rewrite J1, I1. perm_lia.
  - rewrite Hd, I2. perm_lia.
Qed.

Lemma join_each md o n k ss d :
  disp_inv md o ss d → (k + n = length (Connectors d))%nat →
  (∀ j t, Connectors d !! j = Some t → Phase t = if decide (j < k)%nat then Joined else Terminated) →
  ∃ ss' d', each_connector (JoinOne ComputeCrc32 conf) k n d = (Ret (), d') ∧ disp_inv md o ss' d' ∧ all_acc ss' ≡ₚ all_acc ss ∧
    Forall (λ t, Phase t = Joined) (Connectors d') ∧ DState d' = DState d.
Proof.
  revert k ss d. induction n as [| n IH]; intros k ss d Hd Hk Hph.
  { exists ss, d. split_and!; try done. apply Forall_lookup. intros j t Hj. rewrite (Hph j t Hj), decide_True; [done |].
    apply lookup_lt_Some in Hj. lia. }
  assert (is_Some (Connectors d !! k)) as [t Ht] by (apply lookup_lt_is_Some_2; lia).
  assert (is_Some (ss !! k)) as [s Hs].
  { destruct Hd as [Hk' _]. apply lookup_lt_is_Some_2. rewrite (mk_slots _ _ _ _ _ _ Hk'), <- (mk_conns _ _ _ _ _ _ Hk'). lia. }
  destruct (JoinOne_ok md o ss d k s t Hd Hs Ht) as (s' & c2 & E & Hd' & Hacc); [rewrite (Hph k t Ht), decide_False by lia; done |].
  destruct (IH (S k) (<[k := s']> ss) (with_conn k c2 Joined d) Hd') as (ss' & d' & E2 & H1 & H2 & H3 & H4).
  - cbn. rewrite length_insert. lia.
  - intros j tj Hj. cbn in Hj. apply list_lookup_insert_Some in Hj as [(<- & <- & _) | [Hne Hj]]; [by rewrite decide_True by lia |].
    rewrite (Hph j tj Hj). destruct (decide (j < k)%nat), (decide (j < S k)%nat); done || lia.
  - exists ss', d'. cbn [each_connector]. unfold DM in *. rewrite (bind_Ret _ _ _ _ _ E). split_and!; try done.
    rewrite H2. by apply (all_acc_insert ss k s s' []).
Qed.

(** C7: When the thread of every connector has finished, and there is one at least, the
    router's join of the dispatcher never fails.  It leaves the dispatcher stopped and ready for its next
    start, and the connectors hand over, in batches of one topic each, exactly the
    messages that the dispatcher was given and that have not been processed; those to
    be sent are in state SendWait.  Only messages that were dropped because of a bad
    response are missing, and the tracker still counts them. *)
Theorem dispatcher_restarts md o acc d :
  dispatcher_life md o acc d → Connectors d ≠ [] → Forall (λ t, Phase t = Terminated) (Connectors d) → disp_conf_ok →
  ∃ d' lost done, JoinAll ComputeCrc32 conf d = (Ret (), d') ∧
    ident <$> (handed_over (Connectors d') ++ lost ++ done) ≡ₚ ident <$> acc ∧
    Forall (λ m, Msg.State m = AckWait) lost ∧ Forall (λ m, Msg.State m = Processed) done ∧
    Forall (λ t, Forall one_topic (SendWaitAfterShutdown (Conn t) ++ NoAckAfterShutdown (Conn t)) ∧
      Forall (λ m, Msg.State m = SendWait) (concat (SendWaitAfterShutdown (Conn t)))) (Connectors d') ∧
    ∀ md', ProduceProtocol d' = true → metadata_ok md' → Z.of_nat (InServiceBrokerCount md') < 2 ^ 64 →
      startable md' (o ++ handed_over (Connectors d') ++ lost) d'.
Proof.
  intros Hl Hne Hph Hok. destruct (life_kept md o acc d Hl) as (ss & Hd & Ha & Hst). rewrite Forall_lookup in Hph.
  destruct (join_each md o (length (Connectors d)) 0 ss d Hd eq_refl) as (ss' & d1 & E & [Hk1 Hn1] & Ha1 & Hj1 & Hst1).
  { intros j t Hj. by rewrite (Hph j t Hj), decide_False by lia. }
  assert (length ss' = length (Connectors d1)) as Hlen by (by rewrite (mk_slots _ _ _ _ _ _ Hk1), (mk_conns _ _ _ _ _ _ Hk1)).
  destruct (joined_sum md 0 ss' (Connectors d1) Hlen Hj1 (mk_threads _ _ _ _ _ _ Hk1)) as (Hlive & lost & dn & S1 & S2 & S3 & S4 & S5).
  assert (running (Connectors d1) = 0%nat) as Hrun.
  { clear -Hj1. unfold running. induction Hj1 as [| t ts Ht Hts IH]; [done |]. rewrite filter_cons. unfold is_running at 1.
    case_decide as Hx; [| exact IH]. apply bool_decide_unpack in Hx. rewrite Ht in Hx. by destruct Hx. }
  destruct Hn1 as [N1 N2 N3]. rewrite Hrun in N1, N3. rewrite decide_True in N3 by done.
  assert (Connectors d1 ≠ []) as Hne1.
  { intros E0. destruct Hd as [Hk _]. apply (f_equal length) in E0. rewrite (mk_conns _ _ _ _ _ _ Hk1), <- (mk_conns _ _ _ _ _ _ Hk) in E0. by destruct (Connectors d). }
  specialize (N3 Hne1).
  set (d2 := d1 <| DOkShutdown := forallb (λ t, Connector.OkShutdown (Conn t)) (Connectors d1) |> <| DsPauseButton := false |>).
  exists (d2 <| ShutdownFinished := 0 |> <| DState := Stopped |>), lost, dn. change (Connectors (_ <| DState := Stopped |>)) with (Connectors d1).
  split_and!; try done.
  - unfold JoinAll, check_running, for_connectors, DM. erewrite bind_Ret by (erewrite bind_Ret by reflexivity; by rewrite bool_decide_true).
    erewrite bind_Ret by (erewrite bind_Ret by reflexivity; exact E). erewrite bind_Ret by reflexivity. erewrite bind_Ret by reflexivity.
    fold d2. cbv beta. change (ShutdownFinished d2) with (ShutdownFinished d1). rewrite N3, massert_bind by done.
    unfold ResetThreadFinishedState, DM. erewrite bind_Ret; [reflexivity |]. erewrite bind_Ret by reflexivity. cbv beta.
    change (ShutdownFinished d2) with (ShutdownFinished d1). change (RunningThreadCount d2) with (RunningThreadCount d1).
    rewrite N1, N3. by rewrite !massert_bind by done.
  - pose proof (accounts_sum ss' (Connectors d1) Hlen (λ i s t Hs Ht, tv_acc _ _ _ _ _ _ (mk_threads _ _ _ _ _ _ Hk1 i s t Hs Ht))) as Hsum.
    rewrite Hlive in Hsum. rewrite Ha, <- Ha1, <- Hsum. rewrite !fmap_app, S2, fmap_app. done.
  - intros md' P1 P2 P3. split; try done. destruct (mk_counted _ _ _ _ _ _ Hk1) as [C1 C2 C3]. rewrite S1 in C2, C3. split; try done.
    eapply tracker_ok_perm; [| exact C1]. by rewrite S1.
Qed.
End life.
