(* ===== verification/RouterExamples.v ===== *)
(** * A router with its dispatcher, on concrete inputs

    A world that is a list of what happens, and the router thread with the real
    dispatcher in it.  The witnesses of the theorems about the dispatcher and the
    router are here: one broker, one topic with two available partitions, and two
    messages. *)
From S2P Require Import Prelude FieldAccess StreamReader Capped Msg AnomalyTracker Batch PerTopicBatcher BrokerMsgQueue.
From S2P Require Import Metadata Wire ProduceResponse StdMap ResponseProcessor ProduceRequest RequestFactory RequestBytes.
From S2P Require Import RequestSize Connector ConnectorInv ConnectorSend ConnectorRecv ConnectorRun ConnectorFrame.
From S2P Require Import RateLimiter Backoff DispatcherApi Router RouterRoute DispatcherContract RouterMsgs KafkaDispatcher DispatcherInv DispatcherRun.

(** ** The world *)

(** Each list is what the calls return one after the other. *)
Record world := mkWorld {
  w_clock : Z;
  w_channel : list (list TMsg);
  w_fetched : list (option TMetadata);
  w_shutdown : list bool;
  w_update : list bool;
  w_polled : list poll_events
}.

Definition pop {A} (x : A) (l : list A) : A := default x (head l).

#[global] Instance world_env : RouterEnv world := {|
  GetEpochMilliseconds w := (w_clock w, mkWorld (w_clock w + 1) (w_channel w) (w_fetched w) (w_shutdown w) (w_update w) (w_polled w));
  MonotonicNow w := (mkTime (w_clock w) 0, w);
  TrackerNow w := (w_clock w, w);
  Rand w := (w_clock w, w);
  SleepMilliseconds _ w := w;
  FetcherConnect _ _ w := (true, w);
  FetcherFetch _ w := (pop None (w_fetched w), mkWorld (w_clock w) (w_channel w) (tail (w_fetched w)) (w_shutdown w) (w_update w) (w_polled w));
  FetcherTopicAutocreate _ _ w := (AutocreateSuccess, w);
  FetcherDisconnect w := w;
  ShutdownRequestReadable _ w := (pop false (w_shutdown w), mkWorld (w_clock w) (w_channel w) (w_fetched w) (tail (w_shutdown w)) (w_update w) (w_polled w));
  ClearShutdownRequest w := w;
  MetadataUpdateRequestReadable w := (pop false (w_update w), mkWorld (w_clock w) (w_channel w) (w_fetched w) (w_shutdown w) (tail (w_update w)) (w_polled w));
  MetadataUpdateRequestPop w := w;
  MsgChannelGet w := (pop [] (w_channel w), mkWorld (w_clock w) (tail (w_channel w)) (w_fetched w) (w_shutdown w) (w_update w) (w_polled w));
  MsgChannelNonblockingGet w := (pop [] (w_channel w), mkWorld (w_clock w) (tail (w_channel w)) (w_fetched w) (w_shutdown w) (w_update w) (w_polled w));
  InitFinishedPush w := w;
  MainLoopPoll _ w := (pop (mkPollEvents false false false false) (w_polled w),
    mkWorld (w_clock w) (w_channel w) (w_fetched w) (w_shutdown w) (w_update w) (tail (w_polled w)));
  PoolNow _ := ex_pool1
|}.

#[local] Existing Instance map_order.

(** ** The dispatcher *)

Definition ex_disp_conf : disp_conf := mkDispConf ex_cc None ex_config ∅ true.

#[local] Instance ex_api : TKafkaDispatcherApi TKafkaDispatcher := TKafkaDispatcher_api no_codec ex_sum ex_disp_conf.

(** Two messages for topic "t", one with a partition key. *)
Definition ex_any : TMsg := mkMsg AnyPartition 0 0 0 New 0 "t" 0 (l_blob ex_live) 3 false.

Definition two_new : TMsgStateTracker := (MsgEnterNew ex_run).2.

Definition ex_shared : TDispatcherSharedState := mkShared two_new (TAnomalyTracker_new 600000 256 0) 0 [].

Definition ex_stopped : TKafkaDispatcher := (TKafkaDispatcher_new ex_shared []) <| ProduceProtocol := true |>.

Definition ex_running : TKafkaDispatcher := Eval vm_compute in (Dispatcher_Start no_codec ex_disp_conf ex_md ex_stopped).2.

Lemma ex_md_ok : metadata_ok ex_md.
Proof.
  destruct (build_all_ok (H := merge_order) (H0 := no_shuffle) (H1 := map_order) example_response) as (m & b & E & Hm & _).
  assert (ex_md = m) as ->; [| done]. unfold ex_md. by rewrite E.
Qed.

Lemma two_new_ok : tracker_ok two_new [ex_new; ex_any].
Proof. split; [done |]. intros topic. unfold cnt, sumZ. cbn. by destruct (bool_decide ("t" = topic)). Qed.

Lemma ex_disp_conf_ok : disp_conf_ok no_codec ex_disp_conf.
Proof. split; [exact ex_conf_ok | done | exact ex_config_ok]. Qed.

Lemma ex_startable : startable no_codec ex_disp_conf ex_md [ex_new; ex_any] ex_stopped.
Proof.
  split; [exact ex_disp_conf_ok | exact ex_md_ok | reflexivity | reflexivity | reflexivity | split; reflexivity | by vm_compute |].
  split; [exact two_new_ok | by vm_compute | by vm_compute].
Qed.

Lemma ex_running_life : dispatcher_life no_codec ex_sum ex_disp_conf ex_md [ex_new; ex_any] [] ex_running.
Proof. eapply dl_start; [exact ex_startable | vm_compute; reflexivity]. Qed.

(** ** The router *)

Definition ex_router_conf : router_conf :=
  mkRouterConf false false 60 900000 30000 5000 4 5000 RateConfProofs.ex_conf 100 26.

#[local] Instance ex_contract : DispatcherContract (Router.MessageMaxBytes ex_router_conf) TKafkaDispatcher :=
  TKafkaDispatcher_contract no_codec ex_sum ex_disp_conf.

Definition ex_router : TRouterThread world TKafkaDispatcher :=
  (TRouterThread_new (mkWorld 1000 [[ex_new; ex_any]] [] [] [] []) ex_running [("b", 9092)] (Some (mkPerTopicConfig ex_config ∅)))
    <| Router.Metadata := Some ex_md |> <| RouteCounters := [0] |>.

Lemma ex_rate_ok : rate_conf_ok RateConfProofs.ex_conf.
Proof.
  apply (RateConfProofs.build_conf_ok RateConfProofs.ex_calls RateConfBuilder.TBuilder_new RateConfProofs.ex_conf RateConfBuilder.TBuilder_new);
    [repeat constructor; cbn; lia | exact RateConfProofs.TBuilder_new_ok | reflexivity].
Qed.

Lemma ex_at_work : at_work ex_sum ex_disp_conf ex_md [ex_new; ex_any] [] [] ex_running.
Proof.
  eapply started_at_work; [exact ex_startable | vm_compute; reflexivity].
Qed.

(** The pool has the messages. *)
Lemma ex_readable m (w : world) now t :
  KeySize m = 3 → KeyAndValue m = l_blob ex_live → ∃ t', TrackLongMsgDiscard now (PoolNow w) m t = (Ret (), t').
Proof.
  intros Hk Hv. unfold TrackLongMsgDiscard, GetValueSize. rewrite Hk, Hv. change (PoolNow w) with ex_pool1.
  match goal with |- context [(?read ?r).1] => destruct ((read r).1) eqn:E end;
    [by eexists | vm_compute in E; discriminate E | vm_compute in E; discriminate E].
Qed.

Lemma ex_msgs_input_ok : Forall (input_ok (W := world) ex_router_conf) [ex_new; ex_any].
Proof.
  apply Forall_cons_2; [| apply Forall_cons_2; [| constructor]].
  - split; [reflexivity | discriminate | split; by vm_compute | by vm_compute | by vm_compute |]. intros w now t. by apply ex_readable.
  - split; [reflexivity | discriminate | split; by vm_compute | by vm_compute | by vm_compute |]. intros w now t. by apply ex_readable.
Qed.

Lemma ex_router_inv : router_inv ex_router_conf ex_md ([ex_new; ex_any] ++ []) [] [] [] ∅ ex_router.
Proof.
  split; [reflexivity | exact ex_md_ok | reflexivity | apply Forall_cons_2; [done | constructor] | | | done | constructor | reflexivity |
    exact ex_at_work | apply map_Forall_empty].
  - apply pt_inv_new. intros t. exact ex_config_ok.
  - intros t. reflexivity.
Qed.

Lemma router_handles_new_messages_witness :
  ∃ r', HandleMsgAvailable ex_router_conf 0 1000 ex_router = (Ret (), r') ∧
    handles ex_router_conf ex_md [ex_new; ex_any] [] [] [] ex_router r'.
Proof.
  eapply (router_handles_new_messages ex_router_conf ex_rate_ok eq_refl 0 1000 ex_md [ex_new; ex_any] _ [] [] [] [] ∅ ex_router eq_refl ex_router_inv);
    [apply map_Forall_empty | reflexivity | exact ex_msgs_input_ok].
Defined.

Lemma time_keeps_channel (w w' : world) : passes w w' → w_channel w' = w_channel w.
Proof. induction 1 as [| w w1 w2 -> _ IH]; [done | by rewrite IH]. Qed.

Lemma router_routes_final_messages_witness :
  ∃ r' live' acc' tmp' d, RouteFinalMsgs ex_router_conf 0 ex_router = (Ret (), r') ∧
    router_inv ex_router_conf ex_md [] live' acc' [] tmp' r' ∧ idle tmp' ∧
    Destroyed (shared_of r') = d ++ Destroyed (shared_of ex_router) ∧ ended ex_router_conf ex_md d ∧
    who <$> (d ++ acc') ≡ₚ who <$> ([ex_new; ex_any] ++ [] ++ []).
Proof.
  apply (router_routes_final_messages ex_router_conf ex_rate_ok eq_refl 0 ex_md [ex_new; ex_any] [] [] [] [] ∅ ex_router eq_refl ex_router_inv);
    [apply map_Forall_empty | | exact ex_msgs_input_ok].
  intros w Hw. cbn. by rewrite (time_keeps_channel _ _ Hw).
Defined.

(** ** Routing *)

Definition ex_topic : TTopic := Eval vm_compute in default (mkTopic [] [] [] ∅) (Topics ex_md !! 0%nat).

Lemma ex_available : available ex_md "t" ex_topic.
Proof. exists 0%nat. split; [reflexivity |]. split; [vm_compute; reflexivity | discriminate]. Qed.

(** The key 0 is that of the first partition, whose leader is in service. *)
Lemma partition_key_choice_witness :
  ∃ p, AssignBroker ex_new ex_router = (Ret (SetPartition (PartId p) ex_new, Metadata.BrokerIndex p), ex_router) ∧
    key_choice ex_md (AllPartitions ex_topic) (MsgPartitionKey ex_new) p ∧ (Metadata.BrokerIndex p < InServiceBrokerCount ex_md)%nat.
Proof.
  apply (partition_key_choice ex_md ex_new ex_topic ex_router ex_md_ok); [reflexivity | exact ex_available | reflexivity].
Defined.

Lemma any_partition_round_robin_witness :
  ∃ bs r', mmap (λ _ : nat, ChooseAnyPartitionBrokerIndex "t") (seq 0 (length (OkPartitions ex_topic))) ex_router = (Ret bs, r') ∧
    bs ≡ₚ Metadata.BrokerIndex <$> OkPartitions ex_topic ∧ Forall (λ b, (b < InServiceBrokerCount ex_md)%nat) bs ∧
    RouteCounters r' = <[0%nat := counter_of ex_router 0 + Z.of_nat (length (OkPartitions ex_topic))]> (RouteCounters ex_router).
Proof.
  apply (any_partition_round_robin ex_md "t" ex_topic 0 ex_router ex_md_ok);
    [reflexivity | reflexivity | vm_compute; reflexivity | discriminate | reflexivity | by vm_compute | by vm_compute].
Defined.

(** ** The dispatcher's threads *)

Lemma ex_routed m : Topic m = "t" → KeyAndValue m = l_blob ex_live → KeySize m = 3 → routed 100 ex_md m 0.
Proof.
  intros Ht Hk Hs. split; [split | vm_compute; lia | intros _].
  - exists ex_topic. rewrite Ht. exact ex_available.
  - by rewrite Ht.
  - unfold sized. rewrite Hk, Hs. vm_compute. split; discriminate.
  - unfold data_size. rewrite Hk. vm_compute. discriminate.
  - exists ex_topic, (mkPartition 1 0 9). rewrite Ht. split; [exact ex_available |]. split; [| reflexivity]. left.
Qed.

(** The thread connects, and the router gives it a message. *)
Definition ex_connected : TKafkaDispatcher := Eval vm_compute in (step_thread ex_sum ex_disp_conf 0 (Connects true 3) ex_running).2.
Definition ex_dispatched : TKafkaDispatcher := Eval vm_compute in (Dispatcher_DispatchNow 5 ex_new 0 ex_connected).2.

(** Or it cannot connect. *)
Definition ex_waiting : TKafkaDispatcher := Eval vm_compute in (Dispatcher_DispatchNow 5 ex_new 0 ex_running).2.
Definition ex_refused : TKafkaDispatcher := Eval vm_compute in (step_thread ex_sum ex_disp_conf 0 (Connects false 0) ex_waiting).2.

Notation ex_life := (dispatcher_life no_codec ex_sum ex_disp_conf ex_md).

Lemma ex_dispatched_life : ex_life [ex_any] [ex_new] ex_dispatched.
Proof.
  apply (dl_dispatch_now no_codec ex_sum ex_disp_conf ex_md [ex_any] [] ex_connected 5 ex_new 0);
    [| vm_compute; repeat (constructor; try done) | by apply ex_routed | reflexivity | vm_compute; reflexivity].
  apply (dl_thread no_codec ex_sum ex_disp_conf ex_md _ _ ex_running 0 (Connects true 3)); [exact ex_running_life | | vm_compute; reflexivity].
  intros _. lia.
Qed.

Lemma ex_refused_life : ex_life [ex_any] [ex_new] ex_refused.
Proof.
  apply (dl_thread no_codec ex_sum ex_disp_conf ex_md _ _ ex_waiting 0 (Connects false 0)); [| done | vm_compute; reflexivity].
  apply (dl_dispatch_now no_codec ex_sum ex_disp_conf ex_md [ex_any] [] ex_running 5 ex_new 0);
    [exact ex_running_life | vm_compute; repeat (constructor; try done) | by apply ex_routed | reflexivity | vm_compute; reflexivity].
Qed.

(** The thread takes the message out of its queue. *)
Lemma ex_iterates : step_ok ex_disp_conf [ex_new] ex_dispatched 0 (Iterates ex_input).
Proof.
  intros t Ht. assert (0 < SenderNotify (CInputQueue (Conn t))) as Hn by (injection Ht as <-; by vm_compute).
  split.
  - intros b1 b2 b3 b4 E. discriminate E.
  - intros b1 b2 b3 b4 E. discriminate E.
  - intros _ _ _ _ _. exact Hn.
  - intros b1 b2 b3 out in_ plan c' [= <- <- <- <- <-] _. done.
  - assert (destroyed_of (Connectors ex_dispatched) = []) as -> by (vm_compute; reflexivity). intros l Hl. rewrite app_nil_r in Hl.
    apply (Forall_ident _ l [ex_new] (readable_ident ex_pool1) Hl). apply Forall_singleton.
    apply (stored_readable ex_pool1 [0%nat] [ex_live]); [exact ex_pool1_heap |]. apply Exists_cons. left. split; [reflexivity | by vm_compute].
  - intros data n [= <-]. lia.
  - by intros ? [= <-].
Qed.


Lemma dispatcher_shutdown_event_witness :
  ShutdownWaitReadable ex_refused = true ↔ Forall (λ t, Phase t = Terminated ∨ Phase t = Joined) (Connectors ex_refused).
Proof. apply (dispatcher_shutdown_event no_codec ex_sum ex_disp_conf ex_md [ex_any] [ex_new] ex_refused ex_refused_life). discriminate. Defined.

Lemma dispatcher_restarts_witness :
  ∃ d' lost done, JoinAll ex_sum ex_disp_conf ex_refused = (Ret (), d') ∧
    ident <$> (handed_over (Connectors d') ++ lost ++ done) ≡ₚ ident <$> [ex_new] ∧
    startable no_codec ex_disp_conf ex_md ([ex_any] ++ handed_over (Connectors d') ++ lost) d'.
Proof.
  destruct (dispatcher_restarts no_codec ex_sum ex_disp_conf ex_md [ex_any] [ex_new] ex_refused ex_refused_life) as (d' & lost & dn & E & H1 & _ & _ & _ & H2);
    [discriminate | vm_compute; repeat (constructor; try done) | exact ex_disp_conf_ok |].
  exists d', lost, dn. split; [done |]. split; [done |]. apply H2; [| exact ex_md_ok | by vm_compute].
  assert (ProduceProtocol (JoinAll ex_sum ex_disp_conf ex_refused).2 = true) as Hp by (vm_compute; reflexivity). by rewrite E in Hp.
Defined.
