(* ===== verification/RouterFindings.v ===== *)
(** * What the router and the dispatcher do wrong

    Concrete histories in which the code fails one of its own assertions, each
    computed from the definitions.  The first one is a case that the theorems about the
    connector and the dispatcher name: a shutdown request without a command.  The others
    are outside of the theorems about the router, which are those of its handlers of
    messages. *)
From S2P Require Import Prelude FieldAccess StreamReader Capped Msg AnomalyTracker Batch PerTopicBatcher BrokerMsgQueue.
From S2P Require Import Metadata Wire ProduceResponse StdMap ResponseProcessor ProduceRequest RequestFactory RequestBytes.
From S2P Require Import RequestSize Connector ConnectorInv ConnectorSend ConnectorRecv ConnectorRun ConnectorFrame.
From S2P Require Import RateLimiter Backoff DispatcherApi Router RouterRoute DispatcherContract RouterMsgs KafkaDispatcher DispatcherInv DispatcherRun.
From S2P Require Import RouterExamples.

#[local] Existing Instance map_order.
#[local] Existing Instance ex_api.

(** ** A second shutdown command *)

Definition ex_stop : conn_event := ex_event (Ready true false false false false) [].

(** The thread has sent a request and waits for the response; the router starts a slow
    shutdown, which the thread acknowledges; then a pause makes the router start a fast
    shutdown. *)
Definition ex_history : DM () :=
  run_steps ex_sum ex_disp_conf [(0%nat, Iterates ex_input); (0%nat, Iterates ex_output)];;
  modify (λ d, d <| Schedule := [[(0%nat, Iterates ex_stop)]] |>);;
  Dispatcher_StartSlowShutdown ex_sum ex_disp_conf 100;;
  Dispatcher_StartFastShutdown ex_sum ex_disp_conf.

(** [WaitForShutdownAck] leaves the acknowledgement of the first command in its
    semaphore, so that the wait for the second ends at once and takes the command away;
    the thread then sees the request without a command. *)
Theorem second_shutdown_fails :
  (ex_history ex_dispatched).1 = Ret () ∧
  ((ex_history;; step_thread ex_sum ex_disp_conf 0 (Iterates ex_stop)) ex_dispatched).1 = Fault AssertFailed.
Proof. split; vm_compute; reflexivity. Qed.

(** ** A topic that goes away while the batcher has messages for it *)

Definition built (r : md_response) : TMetadata :=
  match (build_all (H := merge_order) (H0 := no_shuffle) (H1 := map_order) r TBuilder_new).1 with
  | Ret m => m | _ => mkMetadata [] 0 [] [] ∅ end.

Definition ex_batching : TRouterThread world TKafkaDispatcher := (HandleMsgAvailable ex_router_conf 0 5 ex_router).2.

(** The messages of the topic are in state Batching, from which the message state
    tracker lets no message enter state Processed. *)
Theorem deleted_topic_fails :
  (HandleMsgAvailable ex_router_conf 0 5 ex_router).1 = Ret () ∧
  (Router.SetMetadata (built (mkMdResponse [mkMdBroker 7 "b" 9092] [])) true ex_batching).1 = Fault AssertFailed.
Proof. split; vm_compute; reflexivity. Qed.

(** ** An update request during a shutdown *)

(** The descriptor for the requests of the web interface is still polled after the
    shutdown has started. *)
Theorem update_during_shutdown_fails :
  let r := ex_router <| ShutdownStartTime := Some 1000 |> in
  (HandleMetadataUpdate ex_router_conf 1 r).1 = Fault AssertFailed.
Proof. vm_compute. reflexivity. Qed.

(** The last messages are routed after the shutdown has started.  With automatic creation
    of topics, a message for a new topic makes the router refresh its metadata there. *)
Definition ex_autocreate_conf : router_conf :=
  mkRouterConf true false 60 900000 30000 5000 4 5000 RateConfProofs.ex_conf 100 26.

Definition ex_unknown : TMsg := mkMsg AnyPartition 0 0 0 New 0 "u" 0 (l_blob ex_live) 3 false.

Theorem autocreate_during_shutdown_fails :
  let r := ex_router <| World := mkWorld 1000 [[ex_unknown]] [] [] [] [] |> <| ShutdownStartTime := Some 1000 |> in
  (RouteFinalMsgs ex_autocreate_conf 1 r).1 = Fault AssertFailed ∧
  (RouteFinalMsgs ex_router_conf 1 r).1 = Ret ().
Proof. split; vm_compute; reflexivity. Qed.
