(* ===== verification/MetadataResponse.v ===== *)
(** * Metadata responses (dory/kafka_proto/metadata/v0)

    [MdReader]: [TMetadataResponseReader], an iterator over the brokers of a response,
    its topics, their partitions, and the replicas of a partition
    (metadata_response_reader.{h,cc}); [MdWriter]: [TMetadataResponseWriter]
    (metadata_response_writer.{h,cc}).  The reader checks each item before it can be
    read; what is left of the current item is skipped when the next is asked for.
    Sizes and offsets are [size_t] in the reader and [int32_t] in the writer.  The
    counters of malformed responses are left out; each belongs to one exception. *)
From S2P Require Import Prelude FieldAccess Wire.

(** ** The fields (metadata_response_fields.h) *)

Definition STRING_SIZE_FIELD_SIZE : Z := 2.
Definition CORRELATION_ID_SIZE : Z := 4.
Definition BROKER_COUNT_SIZE : Z := 4.
Definition BROKER_NODE_ID_SIZE : Z := 4.
Definition BROKER_HOST_LENGTH_SIZE : Z := STRING_SIZE_FIELD_SIZE.
Definition BROKER_PORT_SIZE : Z := 4.
Definition TOPIC_COUNT_SIZE : Z := 4.
Definition TOPIC_ERROR_CODE_SIZE : Z := 2.
Definition TOPIC_NAME_LENGTH_SIZE : Z := STRING_SIZE_FIELD_SIZE.
Definition PARTITION_COUNT_SIZE : Z := 4.
Definition PARTITION_ERROR_CODE_SIZE : Z := 2.
Definition PARTITION_ID_SIZE : Z := 4.
Definition LEADER_NODE_ID_SIZE : Z := 4.
Definition REPLICA_COUNT_SIZE : Z := 4.
Definition REPLICA_NODE_ID_SIZE : Z := 4.
Definition CAUGHT_UP_REPLICA_COUNT_SIZE : Z := 4.
Definition CAUGHT_UP_REPLICA_NODE_ID_SIZE : Z := 4.
Definition RESPONSE_SIZE_OFFSET : Z := 0.
Definition CORRELATION_ID_OFFSET : Z := RESPONSE_SIZE_OFFSET + REQUEST_OR_RESPONSE_SIZE_SIZE.
Definition BROKER_COUNT_OFFSET : Z := CORRELATION_ID_OFFSET + CORRELATION_ID_SIZE.
Definition BROKER_LIST_OFFSET : Z := BROKER_COUNT_OFFSET + BROKER_COUNT_SIZE.
Definition REL_BROKER_NODE_ID_OFFSET : Z := 0.
Definition REL_BROKER_HOST_LENGTH_OFFSET : Z := REL_BROKER_NODE_ID_OFFSET + BROKER_NODE_ID_SIZE.
Definition REL_BROKER_HOST_OFFSET : Z := REL_BROKER_HOST_LENGTH_OFFSET + BROKER_HOST_LENGTH_SIZE.
Definition RelBrokerPortOffset (broker_host_length : Z) : Z := uadd REL_BROKER_HOST_OFFSET broker_host_length.
Definition REL_TOPIC_COUNT_OFFSET : Z := 0.
Definition REL_TOPIC_ERROR_CODE_OFFSET : Z := 0.
Definition REL_TOPIC_NAME_LENGTH_OFFSET : Z := REL_TOPIC_ERROR_CODE_OFFSET + TOPIC_ERROR_CODE_SIZE.
Definition REL_TOPIC_NAME_OFFSET : Z := REL_TOPIC_NAME_LENGTH_OFFSET + TOPIC_NAME_LENGTH_SIZE.
Definition RelPartitionCountOffset (topic_name_length : Z) : Z := uadd REL_TOPIC_NAME_OFFSET topic_name_length.
Definition REL_PARTITION_ERROR_CODE_OFFSET : Z := 0.
Definition REL_PARTITION_ID_OFFSET : Z := REL_PARTITION_ERROR_CODE_OFFSET + PARTITION_ERROR_CODE_SIZE.
Definition REL_LEADER_NODE_ID_OFFSET : Z := REL_PARTITION_ID_OFFSET + PARTITION_ID_SIZE.
Definition REL_REPLICA_COUNT_OFFSET : Z := REL_LEADER_NODE_ID_OFFSET + LEADER_NODE_ID_SIZE.

Definition BrokerListItemSize (broker_host_length : Z) : Z :=
  uadd (BROKER_NODE_ID_SIZE + BROKER_HOST_LENGTH_SIZE + broker_host_length) BROKER_PORT_SIZE.

Module MdReader.

(** All but the last are a [TBadMetadataResponse].  The last is what the constructor and
    [assign] of [std::string] throw for a range of negative length. *)
Inductive exn :=
| TNegativeBrokerCount
| TIncompleteMetadataResponse
| TBadBrokerHostLen
| TNegativeBrokerNodeId
| TBadBrokerPort
| TNegativeTopicCount
| TBadTopicNameLen
| TNegativePartitionCount
| TNegativePartitionId
| TInvalidLeaderNodeId
| TNegativePartitionReplicaCount
| TNegativeReplicaNodeId
| TNegativePartitionCaughtUpReplicaCount
| TNegativeCaughtUpReplicaNodeId
| length_error.

Definition TBadMetadataResponse (e : exn) : bool :=
  match e with length_error => false | _ => true end.

Inductive TState := Initial | InBrokerList | InTopicList | InPartitionList | InReplicaList | InCaughtUpReplicaList.

#[global] Instance TState_eq_dec : EqDecision TState.
Proof. solve_decision. Defined.

(** The values of the enumeration, which the source compares. *)
Definition rank (s : TState) : Z :=
  match s with
  | Initial => 0
  | InBrokerList => 1
  | InTopicList => 2
  | InPartitionList => 3
  | InReplicaList => 4
  | InCaughtUpReplicaList => 5
  end.

Record TMetadataResponseReader := mkMdReader {
  Buf : list byte;
  State : TState;
  BrokersLeft : Z;
  CurrentBrokerOffset : Z;
  CurrentBrokerHostLength : Z;
  TopicsLeft : Z;
  CurrentTopicOffset : Z;
  CurrentTopicNameLength : Z;
  PartitionsLeftInTopic : Z;
  CurrentPartitionOffset : Z;
  ReplicasLeftInPartition : Z;
  CurrentReplicaOffset : Z;
  CaughtUpReplicasLeftInPartition : Z;
  CurrentCaughtUpReplicaOffset : Z
}.

#[export] Instance TMetadataResponseReader_settable : Settable TMetadataResponseReader := λ r,
  mkMdReader (Buf r) (State r) (BrokersLeft r) (CurrentBrokerOffset r) (CurrentBrokerHostLength r) (TopicsLeft r)
    (CurrentTopicOffset r) (CurrentTopicNameLength r) (PartitionsLeftInTopic r) (CurrentPartitionOffset r)
    (ReplicasLeftInPartition r) (CurrentReplicaOffset r) (CaughtUpReplicasLeftInPartition r) (CurrentCaughtUpReplicaOffset r).

Definition MR := M exn TMetadataResponseReader.

Definition BufSize (r : TMetadataResponseReader) : Z := Z.of_nat (length (Buf r)).

(** The constructor, whose assertion is that the buffer is not empty. *)
Definition TMetadataResponseReader_new (buf : list byte) : outcome exn TMetadataResponseReader :=
  if decide (buf = []) then Fault AssertFailed
  else Ret (mkMdReader buf Initial 0 0 0 0 0 0 0 0 0 0 0 0).

Definition MinSize : Z := REQUEST_OR_RESPONSE_SIZE_SIZE + CORRELATION_ID_SIZE + BROKER_COUNT_SIZE + TOPIC_COUNT_SIZE.

Definition BrokerSize (host_length : Z) : Z := uadd (RelBrokerPortOffset host_length) BROKER_PORT_SIZE.

(** Assertions on the state. *)
Definition at_least (s : TState) : MR () := r ← get; massert (rank s <=? rank (State r)).
Definition in_state (s : TState) : MR () := r ← get; massert (bool_decide (State r = s)).
Definition some_left (left : TMetadataResponseReader → Z) : MR () := r ← get; massert (negb (left r =? 0)).
Definition none_left (left : TMetadataResponseReader → Z) : MR () := r ← get; massert (left r =? 0).

(** [ReadInt32FromHeader(Buf + pos)], [ReadInt16FromHeader(Buf + pos)]. *)
Definition read32 (pos : Z) : MR Z := r ← get; rd32 (Buf r) pos.
Definition read16 (pos : Z) : MR Z := r ← get; rd16 (Buf r) pos.

(** A count or an ID, which must not be less than [least]. *)
Definition checked (least : Z) (e : exn) (z : Z) : MR Z := if z <? least then throw e else mret z.

Definition GetCorrelationId : MR Z := read32 CORRELATION_ID_OFFSET.

Definition GetBrokerCount : MR Z := count ← read32 BROKER_COUNT_OFFSET; checked 0 TNegativeBrokerCount count.

(** The space from the offset [pos] on, which must not be less than [n]. *)
Definition space_from (pos n : Z) : MR () :=
  r ← get;
  massert (pos <=? BufSize r);;
  if BufSize r - pos <? n then throw TIncompleteMetadataResponse else mret ().

Definition ClearStateVariables : MR () :=
  modify (λ r,
    let s := rank (State r) in
    let r := if s <=? 0 then r <| BrokersLeft := 0 |> <| CurrentBrokerOffset := 0 |> <| CurrentBrokerHostLength := 0 |> else r in
    let r := if s <=? 1 then r <| TopicsLeft := 0 |> <| CurrentTopicOffset := 0 |> <| CurrentTopicNameLength := 0 |> else r in
    let r := if s <=? 2 then r <| PartitionsLeftInTopic := 0 |> <| CurrentPartitionOffset := 0 |> else r in
    let r := if s <=? 3 then r <| ReplicasLeftInPartition := 0 |> <| CurrentReplicaOffset := 0 |> else r in
    if s <=? 4 then r <| CaughtUpReplicasLeftInPartition := 0 |> <| CurrentCaughtUpReplicaOffset := 0 |> else r).

Definition InitBroker : MR bool :=
  modify (λ r, r <| CurrentBrokerHostLength := 0 |>);;
  r ← get;
  if BrokersLeft r =? 0 then mret false
  else
    space_from (CurrentBrokerOffset r) (REL_BROKER_HOST_LENGTH_OFFSET + BROKER_HOST_LENGTH_SIZE);;
    len ← read16 (CurrentBrokerOffset r + REL_BROKER_HOST_LENGTH_OFFSET);
    let len := uwrap 64 len in
    modify (λ r, r <| CurrentBrokerHostLength := len |>);;
    if len <? 1 then throw TBadBrokerHostLen
    else space_from (CurrentBrokerOffset r) (BrokerSize len);; mret true.

Definition InitTopic : MR bool :=
  modify (λ r, r <| CurrentTopicNameLength := 0 |>);;
  r ← get;
  if TopicsLeft r =? 0 then mret false
  else
    space_from (CurrentTopicOffset r) (REL_TOPIC_NAME_LENGTH_OFFSET + TOPIC_NAME_LENGTH_SIZE);;
    len ← read16 (CurrentTopicOffset r + REL_TOPIC_NAME_LENGTH_OFFSET);
    let len := uwrap 64 len in
    modify (λ r, r <| CurrentTopicNameLength := len |>);;
    if len <? 1 then throw TBadTopicNameLen
    else space_from (CurrentTopicOffset r) (uadd (RelPartitionCountOffset len) PARTITION_COUNT_SIZE);; mret true.

Definition InitPartition : MR bool :=
  r ← get;
  if PartitionsLeftInTopic r =? 0 then mret false
  else space_from (CurrentPartitionOffset r) (REL_REPLICA_COUNT_OFFSET + REPLICA_COUNT_SIZE);; mret true.

Definition InitReplica : MR bool :=
  r ← get;
  if ReplicasLeftInPartition r =? 0 then mret false
  else space_from (CurrentReplicaOffset r) REPLICA_NODE_ID_SIZE;; mret true.

Definition InitCaughtUpReplica : MR bool :=
  r ← get;
  if CaughtUpReplicasLeftInPartition r =? 0 then mret false
  else space_from (CurrentCaughtUpReplicaOffset r) CAUGHT_UP_REPLICA_NODE_ID_SIZE;; mret true.

(** [while (left) next();], where each call of [next] lowers [left] by one. *)
Fixpoint while_left (n : nat) (left : TMetadataResponseReader → Z) (next : MR bool) : MR () :=
  r ← get;
  if left r =? 0 then mret ()
  else match n with O => crash OutOfFuel | S n => next;; while_left n left next end.

Definition skip (left : TMetadataResponseReader → Z) (next : MR bool) : MR () :=
  r ← get; while_left (Z.to_nat (left r)) left next.

(** *** Brokers *)

Definition FirstBroker : MR bool :=
  r ← get;
  if BufSize r <? MinSize then throw TIncompleteMetadataResponse
  else
    modify (λ r, r <| State := InBrokerList |>);;
    count ← GetBrokerCount;
    modify (λ r, r <| BrokersLeft := count |> <| CurrentBrokerOffset := BROKER_LIST_OFFSET |>);;
    ClearStateVariables;;
    InitBroker.

Definition NextBroker : MR bool :=
  r ← get;
  if decide (State r = Initial) then FirstBroker
  else
    in_state InBrokerList;;
    some_left BrokersLeft;;
    modify (λ r, r <| BrokersLeft := BrokersLeft r - 1 |>
      <| CurrentBrokerOffset := uadd (CurrentBrokerOffset r) (BrokerSize (CurrentBrokerHostLength r)) |>);;
    InitBroker.

Definition SkipRemainingBrokers : MR () :=
  r ← get;
  massert (rank (State r) <=? rank InBrokerList);;
  go ← (if decide (State r = Initial) then FirstBroker else mret true);
  if go : bool then in_state InBrokerList;; skip BrokersLeft NextBroker else mret ().

Definition GetCurrentBrokerNodeId : MR Z :=
  in_state InBrokerList;;
  some_left BrokersLeft;;
  r ← get;
  result ← read32 (CurrentBrokerOffset r + REL_BROKER_NODE_ID_OFFSET);
  checked 0 TNegativeBrokerNodeId result.

(** A string made of the bytes from [begin] to [begin + len], where [len] is a [size_t]. *)
Definition make_string (begin len : Z) : MR (list byte) :=
  r ← get;
  if 2 ^ 63 <=? len then throw length_error else rd_range (Buf r) begin (begin + len).

(** The string from [GetCurrentBrokerHostBegin()] to [GetCurrentBrokerHostEnd()]. *)
Definition GetCurrentBrokerHost : MR (list byte) :=
  in_state InBrokerList;;
  some_left BrokersLeft;;
  r ← get;
  make_string (CurrentBrokerOffset r + REL_BROKER_HOST_OFFSET) (CurrentBrokerHostLength r).

Definition GetCurrentBrokerPort : MR Z :=
  in_state InBrokerList;;
  some_left BrokersLeft;;
  r ← get;
  port ← read32 (uadd (CurrentBrokerOffset r) (RelBrokerPortOffset (CurrentBrokerHostLength r)));
  if (port <? 0) || (65535 <? port) then throw TBadBrokerPort else mret port.

(** *** Topics *)

Definition GetTopicCount : MR Z :=
  at_least InBrokerList;;
  none_left BrokersLeft;;
  r ← get;
  space_from (CurrentBrokerOffset r) TOPIC_COUNT_SIZE;;
  count ← read32 (CurrentBrokerOffset r + REL_TOPIC_COUNT_OFFSET);
  checked 0 TNegativeTopicCount count.

Definition FirstTopic : MR bool :=
  r ← get;
  (if rank (State r) <=? rank InBrokerList then SkipRemainingBrokers else mret ());;
  at_least InBrokerList;;
  none_left BrokersLeft;;
  count ← GetTopicCount;
  modify (λ r, r <| TopicsLeft := count |> <| State := InTopicList |>
    <| CurrentTopicOffset := CurrentBrokerOffset r + TOPIC_COUNT_SIZE |>);;
  ClearStateVariables;;
  InitTopic.

Definition GetCurrentTopicErrorCode : MR Z :=
  at_least InTopicList;;
  some_left TopicsLeft;;
  r ← get;
  read16 (CurrentTopicOffset r + REL_TOPIC_ERROR_CODE_OFFSET).

(** The string from [GetCurrentTopicNameBegin()] to [GetCurrentTopicNameEnd()]. *)
Definition GetCurrentTopicName : MR (list byte) :=
  at_least InTopicList;;
  some_left TopicsLeft;;
  r ← get;
  make_string (CurrentTopicOffset r + REL_TOPIC_NAME_OFFSET) (CurrentTopicNameLength r).

Definition GetCurrentTopicPartitionCount : MR Z :=
  at_least InTopicList;;
  some_left TopicsLeft;;
  r ← get;
  count ← read32 (uadd (CurrentTopicOffset r) (RelPartitionCountOffset (CurrentTopicNameLength r)));
  checked 0 TNegativePartitionCount count.

(** *** Replicas *)

Definition GetCurrentPartitionReplicaCount : MR Z :=
  at_least InPartitionList;;
  some_left PartitionsLeftInTopic;;
  r ← get;
  count ← read32 (CurrentPartitionOffset r + REL_REPLICA_COUNT_OFFSET);
  checked 0 TNegativePartitionReplicaCount count.

Definition FirstReplicaInPartition : MR bool :=
  at_least InPartitionList;;
  some_left PartitionsLeftInTopic;;
  count ← GetCurrentPartitionReplicaCount;
  modify (λ r, r <| ReplicasLeftInPartition := count |> <| State := InReplicaList |>
    <| CurrentReplicaOffset := CurrentPartitionOffset r + REL_REPLICA_COUNT_OFFSET + REPLICA_COUNT_SIZE |>);;
  ClearStateVariables;;
  InitReplica.

(** In a partition, before the list of replicas that are caught up. *)
Definition before_caught_up : MR () :=
  r ← get; massert (bool_decide (State r = InPartitionList) || bool_decide (State r = InReplicaList)).

Definition NextReplicaInPartition : MR bool :=
  before_caught_up;;
  some_left PartitionsLeftInTopic;;
  r ← get;
  if decide (State r = InPartitionList) then FirstReplicaInPartition
  else
    in_state InReplicaList;;
    some_left ReplicasLeftInPartition;;
    modify (λ r, r <| ReplicasLeftInPartition := ReplicasLeftInPartition r - 1 |>
      <| CurrentReplicaOffset := CurrentReplicaOffset r + REPLICA_NODE_ID_SIZE |>);;
    InitReplica.

Definition SkipRemainingReplicas : MR () :=
  before_caught_up;;
  some_left PartitionsLeftInTopic;;
  r ← get;
  go ← (if decide (State r = InPartitionList) then FirstReplicaInPartition else mret true);
  if go : bool then in_state InReplicaList;; skip ReplicasLeftInPartition NextReplicaInPartition else mret ().

Definition GetCurrentReplicaNodeId : MR Z :=
  in_state InReplicaList;;
  some_left ReplicasLeftInPartition;;
  r ← get;
  id ← read32 (CurrentReplicaOffset r);
  checked 0 TNegativeReplicaNodeId id.

Definition GetCurrentPartitionCaughtUpReplicaCount : MR Z :=
  at_least InReplicaList;;
  none_left ReplicasLeftInPartition;;
  r ← get;
  space_from (CurrentReplicaOffset r) CAUGHT_UP_REPLICA_COUNT_SIZE;;
  count ← read32 (CurrentReplicaOffset r);
  checked 0 TNegativePartitionCaughtUpReplicaCount count.

Definition FirstCaughtUpReplicaInPartition : MR bool :=
  at_least InPartitionList;;
  r ← get;
  (if rank (State r) <=? rank InReplicaList then SkipRemainingReplicas else mret ());;
  at_least InReplicaList;;
  none_left ReplicasLeftInPartition;;
  count ← GetCurrentPartitionCaughtUpReplicaCount;
  modify (λ r, r <| CaughtUpReplicasLeftInPartition := count |> <| State := InCaughtUpReplicaList |>
    <| CurrentCaughtUpReplicaOffset := CurrentReplicaOffset r + CAUGHT_UP_REPLICA_COUNT_SIZE |>);;
  ClearStateVariables;;
  InitCaughtUpReplica.

Definition NextCaughtUpReplicaInPartition : MR bool :=
  at_least InPartitionList;;
  r ← get;
  if rank (State r) <? rank InCaughtUpReplicaList then FirstCaughtUpReplicaInPartition
  else
    in_state InCaughtUpReplicaList;;
    some_left CaughtUpReplicasLeftInPartition;;
    modify (λ r, r <| CaughtUpReplicasLeftInPartition := CaughtUpReplicasLeftInPartition r - 1 |>
      <| CurrentCaughtUpReplicaOffset := CurrentCaughtUpReplicaOffset r + CAUGHT_UP_REPLICA_NODE_ID_SIZE |>);;
    InitCaughtUpReplica.

Definition SkipRemainingCaughtUpReplicas : MR () :=
  r ← get;
  massert (bool_decide (State r = InReplicaList) || bool_decide (State r = InCaughtUpReplicaList));;
  none_left ReplicasLeftInPartition;;
  go ← (if decide (State r = InReplicaList) then FirstCaughtUpReplicaInPartition else mret true);
  if go : bool then
    in_state InCaughtUpReplicaList;; skip CaughtUpReplicasLeftInPartition NextCaughtUpReplicaInPartition
  else mret ().

Definition GetCurrentCaughtUpReplicaNodeId : MR Z :=
  in_state InCaughtUpReplicaList;;
  some_left CaughtUpReplicasLeftInPartition;;
  r ← get;
  id ← read32 (CurrentCaughtUpReplicaOffset r);
  checked 0 TNegativeCaughtUpReplicaNodeId id.

(** *** Partitions *)

Definition FirstPartitionInTopic : MR bool :=
  at_least InTopicList;;
  some_left TopicsLeft;;
  count ← GetCurrentTopicPartitionCount;
  modify (λ r, r <| PartitionsLeftInTopic := count |> <| State := InPartitionList |>
    <| CurrentPartitionOffset :=
         uadd (uadd (CurrentTopicOffset r) (RelPartitionCountOffset (CurrentTopicNameLength r))) PARTITION_COUNT_SIZE |>);;
  ClearStateVariables;;
  InitPartition.

Definition NextPartitionInTopic : MR bool :=
  at_least InTopicList;;
  some_left TopicsLeft;;
  r ← get;
  if decide (State r = InTopicList) then FirstPartitionInTopic
  else
    at_least InPartitionList;;
    some_left PartitionsLeftInTopic;;
    (if rank (State r) <=? rank InReplicaList then SkipRemainingReplicas else mret ());;
    SkipRemainingCaughtUpReplicas;;
    in_state InCaughtUpReplicaList;;
    none_left CaughtUpReplicasLeftInPartition;;
    modify (λ r, r <| State := InPartitionList |> <| PartitionsLeftInTopic := PartitionsLeftInTopic r - 1 |>
      <| CurrentPartitionOffset := CurrentCaughtUpReplicaOffset r |>);;
    InitPartition.

Definition SkipRemainingPartitions : MR () :=
  at_least InTopicList;;
  some_left TopicsLeft;;
  r ← get;
  go ← (if decide (State r = InTopicList) then FirstPartitionInTopic else mret true);
  if go : bool then at_least InPartitionList;; skip PartitionsLeftInTopic NextPartitionInTopic else mret ().

Definition GetCurrentPartitionErrorCode : MR Z :=
  at_least InPartitionList;;
  some_left PartitionsLeftInTopic;;
  r ← get;
  read16 (CurrentPartitionOffset r + REL_PARTITION_ERROR_CODE_OFFSET).

Definition GetCurrentPartitionId : MR Z :=
  at_least InPartitionList;;
  some_left PartitionsLeftInTopic;;
  r ← get;
  id ← read32 (CurrentPartitionOffset r + REL_PARTITION_ID_OFFSET);
  checked 0 TNegativePartitionId id.

Definition GetCurrentPartitionLeaderId : MR Z :=
  at_least InPartitionList;;
  some_left PartitionsLeftInTopic;;
  r ← get;
  id ← read32 (CurrentPartitionOffset r + REL_LEADER_NODE_ID_OFFSET);
  checked (-1) TInvalidLeaderNodeId id.

Definition NextTopic : MR bool :=
  r ← get;
  if rank (State r) <=? rank InBrokerList then FirstTopic
  else
    at_least InTopicList;;
    some_left TopicsLeft;;
    SkipRemainingPartitions;;
    none_left PartitionsLeftInTopic;;
    modify (λ r, r <| State := InTopicList |> <| TopicsLeft := TopicsLeft r - 1 |>
      <| CurrentTopicOffset := CurrentPartitionOffset r |>);;
    InitTopic.

Definition SkipRemainingTopics : MR () :=
  at_least InBrokerList;;
  none_left BrokersLeft;;
  r ← get;
  go ← (if decide (State r = InBrokerList) then FirstTopic else mret true);
  if go : bool then at_least InTopicList;; skip TopicsLeft NextTopic else mret ().

End MdReader.

Module MdWriter.

Inductive TState :=
| Initial | InResponse | InBrokerList | InTopicList | InTopic | InPartitionList | InPartition | InReplicaList
| InCaughtUpReplicaList.

#[global] Instance TState_eq_dec : EqDecision TState.
Proof. solve_decision. Defined.

(** [Result]: is the pointer set; [Out] is the vector it points to (the caller's). *)
Record TMetadataResponseWriter := mkMdWriter {
  Out : list byte;
  State : TState;
  Result : bool;
  BrokerCount : Z;
  BrokerOffset : Z;
  TopicCountOffset : Z;
  TopicCount : Z;
  TopicOffset : Z;
  PartitionCountOffset : Z;
  PartitionCount : Z;
  PartitionOffset : Z;
  ReplicaCountOffset : Z;
  ReplicaCount : Z;
  CaughtUpReplicaCountOffset : Z;
  CaughtUpReplicaCount : Z
}.

#[export] Instance TMetadataResponseWriter_settable : Settable TMetadataResponseWriter := λ w,
  mkMdWriter (Out w) (State w) (Result w) (BrokerCount w) (BrokerOffset w) (TopicCountOffset w) (TopicCount w)
    (TopicOffset w) (PartitionCountOffset w) (PartitionCount w) (PartitionOffset w) (ReplicaCountOffset w)
    (ReplicaCount w) (CaughtUpReplicaCountOffset w) (CaughtUpReplicaCount w).

(** The writer, with the vector that will be passed to [OpenResponse]. *)
Definition TMetadataResponseWriter_new (out : list byte) : TMetadataResponseWriter :=
  mkMdWriter out Initial false 0 0 0 0 0 0 0 0 0 0 0 0.

Definition MW := M Empty_set TMetadataResponseWriter.

Definition in_state (s : TState) : MW () := w ← get; massert (bool_decide (State w = s)).
Definition enter (s : TState) : MW () := modify (λ w, w <| State := s |>).

Definition resize (n : Z) : MW () :=
  w ← get;
  massert (Result w);;
  modify (λ w, w <| Out := vec_resize (Z.to_nat n) (Out w) |>).

Definition Size : MW Z := w ← get; massert (Result w);; mret (Z.of_nat (length (Out w))).

Definition GrowResult (num_bytes : Z) : MW () := size ← Size; resize (size + num_bytes).

(** A write of [bytes] at [Loc(i)]. *)
Definition write (i : Z) (bytes : list byte) : MW () :=
  w ← get;
  massert (Result w);;
  out ← need OutOfBounds (if i <? 0 then None else vec_write (Z.to_nat i) bytes (Out w));
  modify (λ w, w <| Out := out |>).

Definition ClearBookkeepingInfo : MW () :=
  modify (λ w, mkMdWriter (Out w) (State w) (Result w) 0 0 0 0 0 0 0 0 0 0 0 0).

Definition SetEmptyStr (size_field_offset : Z) : MW () := write size_field_offset (WriteInt16ToHeader (-1)).

Definition SetStr (size_field_offset : Z) (str : list byte) : MW () :=
  if decide (str = []) then SetEmptyStr size_field_offset
  else
    massert (Z.of_nat (length str) <=? INT16_MAX);;
    write size_field_offset (WriteInt16ToHeader (Z.of_nat (length str)));;
    write (size_field_offset + STRING_SIZE_FIELD_SIZE) str.

(** The vector of the writer is the argument [out]. *)
Definition OpenResponse (correlation_id : Z) : MW () :=
  in_state Initial;;
  w ← get;
  massert (negb (Result w));;
  enter InResponse;;
  ClearBookkeepingInfo;;
  modify (λ w, w <| Result := true |>);;
  resize (REQUEST_OR_RESPONSE_SIZE_SIZE + CORRELATION_ID_SIZE + BROKER_COUNT_SIZE);;
  write CORRELATION_ID_OFFSET (WriteInt32ToHeader correlation_id).

Definition OpenBrokerList : MW () :=
  in_state InResponse;;
  enter InBrokerList;;
  modify (λ w, w <| BrokerCount := 0 |> <| BrokerOffset := BROKER_LIST_OFFSET |>);;
  size ← Size;
  w ← get;
  massert (size =? BrokerOffset w).

Definition AddBroker (node_id : Z) (host : list byte) (port : Z) : MW () :=
  massert (bool_decide (host ≠ []));;
  in_state InBrokerList;;
  w ← get;
  let host_size := Z.of_nat (length host) in
  let broker_size := BrokerListItemSize host_size in
  GrowResult broker_size;;
  write (BrokerOffset w + REL_BROKER_NODE_ID_OFFSET) (WriteInt32ToHeader node_id);;
  SetStr (BrokerOffset w + REL_BROKER_HOST_LENGTH_OFFSET) host;;
  write (BrokerOffset w + RelBrokerPortOffset host_size) (WriteInt32ToHeader port);;
  count ← int32_arith (BrokerCount w + 1);
  modify (λ w, w <| BrokerCount := count |> <| BrokerOffset := swrap 32 (BrokerOffset w + broker_size) |>);;
  size ← Size;
  w ← get;
  massert (size =? uwrap 64 (BrokerOffset w)).

Definition CloseBrokerList : MW () :=
  in_state InBrokerList;;
  enter InResponse;;
  w ← get;
  write BROKER_COUNT_OFFSET (WriteInt32ToHeader (BrokerCount w)).

Definition OpenTopicList : MW () :=
  in_state InResponse;;
  enter InTopicList;;
  GrowResult TOPIC_COUNT_SIZE;;
  size ← Size;
  modify (λ w, w <| TopicCountOffset := BrokerOffset w |> <| TopicCount := 0 |> <| TopicOffset := swrap 32 size |>);;
  w ← get;
  massert (TopicOffset w =? swrap 32 (TopicCountOffset w + TOPIC_COUNT_SIZE)).

Definition OpenTopic (topic_error_code : Z) (topic_name : list byte) : MW () :=
  in_state InTopicList;;
  massert (bool_decide (topic_name ≠ []));;
  enter InTopic;;
  w ← get;
  let topic_name_size := Z.of_nat (length topic_name) in
  GrowResult (TOPIC_ERROR_CODE_SIZE + TOPIC_NAME_LENGTH_SIZE + topic_name_size + PARTITION_COUNT_SIZE);;
  write (TopicOffset w + REL_TOPIC_ERROR_CODE_OFFSET) (WriteInt16ToHeader topic_error_code);;
  SetStr (TopicOffset w + REL_TOPIC_NAME_LENGTH_OFFSET) topic_name;;
  let offset := swrap 32 (TopicOffset w + TOPIC_ERROR_CODE_SIZE + TOPIC_NAME_LENGTH_SIZE + topic_name_size) in
  modify (λ w, w <| PartitionCountOffset := offset |>);;
  size ← Size;
  massert (size =? uadd offset PARTITION_COUNT_SIZE).

Definition OpenPartitionList : MW () :=
  in_state InTopic;;
  enter InPartitionList;;
  size ← Size;
  modify (λ w, w <| PartitionCount := 0 |> <| PartitionOffset := swrap 32 size |>).

Definition OpenPartition (partition_error_code partition_id leader_node_id : Z) : MW () :=
  in_state InPartitionList;;
  enter InPartition;;
  w ← get;
  let replica_count_delta := PARTITION_ERROR_CODE_SIZE + PARTITION_ID_SIZE + LEADER_NODE_ID_SIZE in
  GrowResult (replica_count_delta + REPLICA_COUNT_SIZE);;
  modify (λ w, w <| ReplicaCountOffset := swrap 32 (PartitionOffset w + replica_count_delta) |>);;
  write (PartitionOffset w + REL_PARTITION_ERROR_CODE_OFFSET) (WriteInt16ToHeader partition_error_code);;
  write (PartitionOffset w + REL_PARTITION_ID_OFFSET) (WriteInt32ToHeader partition_id);;
  write (PartitionOffset w + REL_LEADER_NODE_ID_OFFSET) (WriteInt32ToHeader leader_node_id).

Definition OpenReplicaList : MW () :=
  in_state InPartition;; enter InReplicaList;; modify (λ w, w <| ReplicaCount := 0 |>).

Definition AddReplica (replica_node_id : Z) : MW () :=
  in_state InReplicaList;;
  offset ← Size;
  GrowResult REPLICA_NODE_ID_SIZE;;
  write offset (WriteInt32ToHeader replica_node_id);;
  w ← get;
  count ← int32_arith (ReplicaCount w + 1);
  modify (λ w, w <| ReplicaCount := count |>).

Definition CloseReplicaList : MW () :=
  in_state InReplicaList;;
  enter InPartition;;
  size ← Size;
  modify (λ w, w <| CaughtUpReplicaCountOffset := swrap 32 size |>);;
  w ← get;
  write (ReplicaCountOffset w) (WriteInt32ToHeader (ReplicaCount w));;
  GrowResult CAUGHT_UP_REPLICA_COUNT_SIZE.

Definition OpenCaughtUpReplicaList : MW () :=
  in_state InPartition;; enter InCaughtUpReplicaList;; modify (λ w, w <| CaughtUpReplicaCount := 0 |>).

Definition AddCaughtUpReplica (replica_node_id : Z) : MW () :=
  in_state InCaughtUpReplicaList;;
  offset ← Size;
  GrowResult CAUGHT_UP_REPLICA_NODE_ID_SIZE;;
  write offset (WriteInt32ToHeader replica_node_id);;
  w ← get;
  count ← int32_arith (CaughtUpReplicaCount w + 1);
  modify (λ w, w <| CaughtUpReplicaCount := count |>).

Definition CloseCaughtUpReplicaList : MW () :=
  in_state InCaughtUpReplicaList;;
  enter InPartition;;
  w ← get;
  write (CaughtUpReplicaCountOffset w) (WriteInt32ToHeader (CaughtUpReplicaCount w)).

Definition ClosePartition : MW () :=
  in_state InPartition;;
  enter InPartitionList;;
  w ← get;
  count ← int32_arith (PartitionCount w + 1);
  size ← Size;
  modify (λ w, w <| PartitionCount := count |> <| PartitionOffset := swrap 32 size |>).

Definition ClosePartitionList : MW () :=
  in_state InPartitionList;;
  enter InTopic;;
  w ← get;
  write (PartitionCountOffset w) (WriteInt32ToHeader (PartitionCount w)).

Definition CloseTopic : MW () :=
  in_state InTopic;;
  enter InTopicList;;
  w ← get;
  count ← int32_arith (TopicCount w + 1);
  size ← Size;
  modify (λ w, w <| TopicCount := count |> <| TopicOffset := swrap 32 size |>).

Definition CloseTopicList : MW () :=
  in_state InTopicList;;
  enter InResponse;;
  w ← get;
  write (TopicCountOffset w) (WriteInt32ToHeader (TopicCount w)).

Definition CloseResponse : MW () :=
  in_state InResponse;;
  enter Initial;;
  size ← Size;
  massert (REQUEST_OR_RESPONSE_SIZE_SIZE <=? size);;
  write RESPONSE_SIZE_OFFSET (WriteInt32ToHeader (swrap 32 (size - REQUEST_OR_RESPONSE_SIZE_SIZE)));;
  modify (λ w, w <| Result := false |>);;
  ClearBookkeepingInfo.

End MdWriter.
