(* ===== verification/MetadataReader.v ===== *)
(** * The metadata response reader is safe

    Whatever the bytes of a response are, the reader reads inside the buffer, fails no
    assertion when its methods are called in an order that their comments allow, and
    each loop of it ends.  The invariant says where the offsets are in each state. *)
From S2P Require Import Prelude FieldAccess Wire MetadataResponse.
Import MdReader.

(** ** Assertions and resets, whatever the exceptions and faults *)

(** Computes the fields of a changed state. *)
Ltac rfields :=
  cbn [set_field Buf State BrokersLeft CurrentBrokerOffset CurrentBrokerHostLength TopicsLeft CurrentTopicOffset
    CurrentTopicNameLength PartitionsLeftInTopic CurrentPartitionOffset ReplicasLeftInPartition CurrentReplicaOffset
    CaughtUpReplicasLeftInPartition CurrentCaughtUpReplicaOffset] in *.

(** Arithmetic with the sizes of the fields. *)
Ltac sizes :=
  unfold MinSize, BROKER_LIST_OFFSET, BROKER_COUNT_OFFSET, CORRELATION_ID_OFFSET, RESPONSE_SIZE_OFFSET,
    REQUEST_OR_RESPONSE_SIZE_SIZE, CORRELATION_ID_SIZE, BROKER_COUNT_SIZE, REL_BROKER_HOST_OFFSET,
    REL_BROKER_HOST_LENGTH_OFFSET, REL_BROKER_NODE_ID_OFFSET, BROKER_NODE_ID_SIZE, BROKER_HOST_LENGTH_SIZE,
    BROKER_PORT_SIZE, REL_TOPIC_COUNT_OFFSET, TOPIC_COUNT_SIZE, REL_TOPIC_NAME_OFFSET, REL_TOPIC_NAME_LENGTH_OFFSET,
    REL_TOPIC_ERROR_CODE_OFFSET, TOPIC_ERROR_CODE_SIZE, TOPIC_NAME_LENGTH_SIZE, PARTITION_COUNT_SIZE,
    REL_REPLICA_COUNT_OFFSET, REL_LEADER_NODE_ID_OFFSET, REL_PARTITION_ID_OFFSET, REL_PARTITION_ERROR_CODE_OFFSET,
    PARTITION_ERROR_CODE_SIZE, PARTITION_ID_SIZE, LEADER_NODE_ID_SIZE, REPLICA_COUNT_SIZE, REPLICA_NODE_ID_SIZE,
    CAUGHT_UP_REPLICA_COUNT_SIZE, CAUGHT_UP_REPLICA_NODE_ID_SIZE, STRING_SIZE_FIELD_SIZE in *.
Ltac size_lia := rfields; sizes; lia.

(** ** Arithmetic of [size_t] *)

Lemma uadd_signed a k : uadd a (uwrap 64 k) = uwrap 64 (a + k).
Proof. unfold uadd, uwrap. by rewrite Zplus_mod_idemp_r. Qed.

Lemma uadd_signed_l k a : uadd (uwrap 64 k) a = uwrap 64 (k + a).
Proof. unfold uadd, uwrap. by rewrite Zplus_mod_idemp_l. Qed.

Lemma uwrap_id z : 0 ≤ z < 2 ^ 63 → uwrap 64 z = z.
Proof. intros H. apply uwrap_small. width_lia. Qed.

(** The size of an item whose name has length [k], as a [size_t]: too large if [k] is
    too small. *)
Lemma item_size fixed k n :
  in_s 16 k → 0 ≤ fixed ≤ 100 → n < 2 ^ 63 → uwrap 64 (fixed + k) ≤ n → 0 ≤ fixed + k ≤ n ∧ uwrap 64 (fixed + k) = fixed + k.
Proof.
  intros Hk Hf Hn Hle. destruct (decide (0 ≤ fixed + k)).
  - rewrite uwrap_small in * by width_lia. lia.
  - exfalso. assert (uwrap 64 (fixed + k) = fixed + k + 2 ^ 64) as E; [| width_lia].
    unfold uwrap. rewrite <- (Z_mod_plus_full _ 1), Z.mul_1_l. apply Z.mod_small. width_lia.
Qed.

Section steps.
Context (T : exn → TMetadataResponseReader → Prop) (F : fault → Prop).

Lemma some_left_ok {A} left (f : () → MR A) r Q : left r ≠ 0 → wp (f ()) r Q T F → wp (some_left left ≫= f) r Q T F.
Proof. intros Hl Hf. unfold some_left. apply wp_bind. wstep. rewrite (proj2 (Z.eqb_neq _ _) Hl). done. Qed.

Lemma none_left_ok {A} left (f : () → MR A) r Q : left r = 0 → wp (f ()) r Q T F → wp (none_left left ≫= f) r Q T F.
Proof. intros Hl Hf. unfold none_left. apply wp_bind. wstep. rewrite Hl. done. Qed.

Lemma reader_in_state {A} s (f : () → MR A) r Q : State r = s → wp (f ()) r Q T F → wp (in_state s ≫= f) r Q T F.
Proof. intros Hs Hf. unfold in_state. apply wp_bind. wstep. rewrite bool_decide_true by done. done. Qed.

Lemma at_least_ok {A} s (f : () → MR A) r Q : rank s ≤ rank (State r) → wp (f ()) r Q T F → wp (at_least s ≫= f) r Q T F.
Proof. intros Hs Hf. unfold at_least. apply wp_bind. wstep. rewrite (proj2 (Z.leb_le _ _) Hs). done. Qed.

(** The variables of the lists inside the one of state [s] are cleared. *)
Lemma cleared {A} s (f : () → MR A) r Q :
  State r = s →
  (∀ r', State r' = s → Buf r' = Buf r →
     (1 ≤ rank s → BrokersLeft r' = BrokersLeft r ∧ CurrentBrokerOffset r' = CurrentBrokerOffset r) →
     (2 ≤ rank s → TopicsLeft r' = TopicsLeft r ∧ CurrentTopicOffset r' = CurrentTopicOffset r ∧
                   CurrentTopicNameLength r' = CurrentTopicNameLength r) →
     (3 ≤ rank s → PartitionsLeftInTopic r' = PartitionsLeftInTopic r ∧ CurrentPartitionOffset r' = CurrentPartitionOffset r) →
     (4 ≤ rank s → ReplicasLeftInPartition r' = ReplicasLeftInPartition r ∧ CurrentReplicaOffset r' = CurrentReplicaOffset r) →
     (5 ≤ rank s → CaughtUpReplicasLeftInPartition r' = CaughtUpReplicasLeftInPartition r ∧
                   CurrentCaughtUpReplicaOffset r' = CurrentCaughtUpReplicaOffset r) →
     wp (f ()) r' Q T F) →
  wp (ClearStateVariables ≫= f) r Q T F.
Proof.
  intros Hs Hf. unfold ClearStateVariables. wstep. apply Hf; rewrite Hs; by destruct s; cbn; intros; split_and?; lia || done.
Qed.

(** A loop over the items of a list, where [P l r] says that [l] is left. *)
Lemma skip_list {X} left next (P : list X → TMetadataResponseReader → Prop) l r :
  (∀ l r, P l r → left r = Z.of_nat (length l)) →
  (∀ x l r, P (x :: l) r → wp next r (λ _ r', P l r') T F) →
  P l r → wp (skip left next) r (λ _ r', P [] r') T F.
Proof.
  intros Hl Hn. unfold skip. intros HP. wstep. rewrite (Hl _ _ HP), Nat2Z.id.
  revert r HP. induction l as [| x l IH]; intros r HP; cbn [while_left length]; wstep; rewrite (Hl _ _ HP).
  - by eapply wp_Ret.
  - rewrite (proj2 (Z.eqb_neq _ _)) by (cbn [length]; lia). apply wp_bind. eapply wp_mono; [by eapply Hn |]. auto.
Qed.

End steps.

(** ** The invariant *)

Section safe.
Context (buf : list byte).
Notation L := (Z.of_nat (length buf)).
Context (Hsmall : Z.of_nat (length buf) < 2 ^ 63).

(** The run ends with a result in [Q] or throws. *)
Notation wpr m r Q := (wp m r Q (λ _ _, True) (λ _, False)).

(** An item at [off] with a name of signed length [k]: [hdr] bytes up to the end of the
    length field, and [fixed] bytes besides the name. *)
Definition named (off fixed hdr len : Z) : Prop :=
  ∃ k, in_s 16 k ∧ k ≠ 0 ∧ len = uwrap 64 k ∧ off + hdr ≤ L ∧ 0 ≤ fixed + k ∧ off + fixed + k ≤ L.

Record brokers_in (r : TMetadataResponseReader) : Prop := {
  bi_buf : Buf r = buf;
  bi_left : 0 ≤ BrokersLeft r;
  bi_off : 12 ≤ CurrentBrokerOffset r ≤ L;
  bi_item : BrokersLeft r ≠ 0 → named (CurrentBrokerOffset r) 10 6 (CurrentBrokerHostLength r)
}.

Record topics_in (r : TMetadataResponseReader) : Prop := {
  ti_buf : Buf r = buf;
  ti_brokers : BrokersLeft r = 0;
  ti_broker_off : 12 ≤ CurrentBrokerOffset r ≤ L;
  ti_left : 0 ≤ TopicsLeft r;
  ti_off : 16 ≤ CurrentTopicOffset r ≤ L;
  ti_item : TopicsLeft r ≠ 0 → named (CurrentTopicOffset r) 8 4 (CurrentTopicNameLength r)
}.

Record partitions_in (r : TMetadataResponseReader) : Prop := {
  pi_topics : topics_in r;
  pi_topic : TopicsLeft r ≠ 0;
  pi_left : 0 ≤ PartitionsLeftInTopic r;
  pi_off : 16 ≤ CurrentPartitionOffset r ≤ L;
  pi_item : PartitionsLeftInTopic r ≠ 0 → CurrentPartitionOffset r + 14 ≤ L
}.

Record replicas_in (r : TMetadataResponseReader) : Prop := {
  ri_partitions : partitions_in r;
  ri_partition : PartitionsLeftInTopic r ≠ 0;
  ri_left : 0 ≤ ReplicasLeftInPartition r;
  ri_off : 16 ≤ CurrentReplicaOffset r ≤ L;
  ri_item : ReplicasLeftInPartition r ≠ 0 → CurrentReplicaOffset r + 4 ≤ L
}.

Record caught_up_in (r : TMetadataResponseReader) : Prop := {
  ci_replicas : replicas_in r;
  ci_none : ReplicasLeftInPartition r = 0;
  ci_left : 0 ≤ CaughtUpReplicasLeftInPartition r;
  ci_off : 16 ≤ CurrentCaughtUpReplicaOffset r ≤ L;
  ci_item : CaughtUpReplicasLeftInPartition r ≠ 0 → CurrentCaughtUpReplicaOffset r + 4 ≤ L
}.

(** In a partition of a topic: the partition list, or one of the lists of a partition. *)
Definition in_partitions (r : TMetadataResponseReader) : Prop :=
  match State r with
  | InPartitionList => partitions_in r
  | InReplicaList => replicas_in r
  | InCaughtUpReplicaList => caught_up_in r
  | _ => False
  end.

Definition in_topics (r : TMetadataResponseReader) : Prop :=
  match State r with InTopicList => topics_in r | _ => in_partitions r end.

(** *** Reads *)

Lemma space_from_ok pos n r Q :
  Buf r = buf → pos ≤ L → (pos + n ≤ L → Q () r) → wpr (space_from pos n) r Q.
Proof.
  intros Hb Hp HQ. unfold space_from, BufSize. wstep. rewrite Hb. apply wp_massert; [lia |].
  case_test; [done |]. apply HQ. lia.
Qed.

Lemma read32_ok pos r Q :
  Buf r = buf → 0 ≤ pos → pos + 4 ≤ L → (∀ v, in_s 32 v → Q v r) → wpr (read32 pos) r Q.
Proof.
  intros Hb H0 HL HQ. unfold read32. wstep. rewrite Hb. destruct (rd32_ok (E := exn) buf pos r H0 HL) as (v & E & Hv).
  eapply wp_Ret; [exact E | by apply HQ].
Qed.

Lemma read16_ok pos r Q :
  Buf r = buf → 0 ≤ pos → pos + 2 ≤ L → (∀ v, in_s 16 v → Q v r) → wpr (read16 pos) r Q.
Proof.
  intros Hb H0 HL HQ. unfold read16. wstep. rewrite Hb. destruct (rd16_ok (E := exn) buf pos r H0 HL) as (v & E & Hv).
  eapply wp_Ret; [exact E | by apply HQ].
Qed.

Lemma checked_ok least e z r Q : (least ≤ z → Q z r) → wpr (checked least e z) r Q.
Proof. intros HQ. unfold checked. case_test; [done | by apply HQ]. Qed.

(** A read whose result must not be negative. *)
Lemma read_checked pos least e r Q :
  Buf r = buf → 0 ≤ pos → pos + 4 ≤ L → (∀ v, least ≤ v → in_s 32 v → Q v r) →
  wpr (v ← read32 pos; checked least e v) r Q.
Proof.
  intros Hb H0 HL HQ. apply wp_bind. apply read32_ok; try done. intros v Hv. apply checked_ok. intros ?. by apply HQ.
Qed.

(** The loops: a [next] that lowers [left] and keeps [I]. *)
Lemma skip_ok left next (I : TMetadataResponseReader → Prop) r :
  (∀ r, I r → 0 ≤ left r) →
  (∀ r, I r → left r ≠ 0 → wpr next r (λ _ r', I r' ∧ left r' = left r - 1)) →
  I r → wpr (skip left next) r (λ _ r', I r' ∧ left r' = 0).
Proof.
  intros H0 Hn HI. unfold skip. wstep.
  assert (∀ n r, I r → left r ≤ Z.of_nat n → wpr (while_left n left next) r (λ _ r', I r' ∧ left r' = 0)) as Hw.
  { clear r HI. induction n as [| n IH]; intros r HI Hl; pose proof (H0 r HI); cbn [while_left]; wstep;
      destruct (Z.eqb_spec (left r) 0); try (by eapply wp_Ret); [lia |].
    apply wp_bind. eapply wp_mono; [by apply Hn |]. cbv beta. intros b r' [HI' Hl']. apply IH; [done | lia]. }
  apply Hw; [done |]. pose proof (H0 r HI). lia.
Qed.

(** *** The first check of an item *)

Lemma InitBroker_ok r :
  State r = InBrokerList → Buf r = buf → 0 ≤ BrokersLeft r → 12 ≤ CurrentBrokerOffset r ≤ L →
  wpr InitBroker r (λ b r', (∃ len, r' = r <| CurrentBrokerHostLength := len |>) ∧ brokers_in r' ∧ b = negb (BrokersLeft r =? 0)).
Proof.
  intros Hs Hb Hl Ho. unfold InitBroker. wstep. wstep. rfields.
  destruct (Z.eqb_spec (BrokersLeft r) 0) as [E | E].
  { eapply wp_Ret; [reflexivity |]. split; [by eexists |]. split; [| done]. by split; rfields. }
  apply wp_bind, space_from_ok; [done | lia |]. rfields. intros Hsp. apply wp_bind, read16_ok; [done | size_lia.. |]. intros k Hk. wstep.
  destruct (Z.ltb_spec (uwrap 64 k) 1) as [|Hk1]; [done |]. apply wp_bind, space_from_ok; [done | lia |]. intros Hsz.
  unfold BrokerSize, RelBrokerPortOffset in Hsz. rewrite uadd_signed, uadd_signed_l in Hsz.
  destruct (item_size 10 k (L - CurrentBrokerOffset r)) as [H1 _]; [done | lia | lia | |].
  { replace (10 + k) with (REL_BROKER_HOST_OFFSET + k + BROKER_PORT_SIZE) by size_lia. lia. }
  eapply wp_Ret; [reflexivity |]. split; [by eexists |]. split; [| done].
  split; rfields; try done. intros _. exists k. split_and!; try done; try size_lia. intros ->. done.
Qed.

Lemma InitTopic_ok r :
  State r = InTopicList → Buf r = buf → BrokersLeft r = 0 → 12 ≤ CurrentBrokerOffset r ≤ L →
  0 ≤ TopicsLeft r → 16 ≤ CurrentTopicOffset r ≤ L →
  wpr InitTopic r (λ b r', (∃ len, r' = r <| CurrentTopicNameLength := len |>) ∧ topics_in r' ∧ b = negb (TopicsLeft r =? 0)).
Proof.
  intros Hs Hb Hbl Hbo Hl Ho. unfold InitTopic. wstep. wstep. rfields.
  destruct (Z.eqb_spec (TopicsLeft r) 0) as [E | E].
  { eapply wp_Ret; [reflexivity |]. split; [by eexists |]. split; [| done]. by split; rfields. }
  apply wp_bind, space_from_ok; [done | lia |]. rfields. intros Hsp. apply wp_bind, read16_ok; [done | size_lia.. |]. intros k Hk. wstep.
  destruct (Z.ltb_spec (uwrap 64 k) 1) as [|Hk1]; [done |]. apply wp_bind, space_from_ok; [done | lia |]. intros Hsz.
  unfold RelPartitionCountOffset in Hsz. rewrite uadd_signed, uadd_signed_l in Hsz.
  destruct (item_size 8 k (L - CurrentTopicOffset r)) as [H1 _]; [done | lia | lia | |].
  { replace (8 + k) with (REL_TOPIC_NAME_OFFSET + k + PARTITION_COUNT_SIZE) by size_lia. lia. }
  eapply wp_Ret; [reflexivity |]. split; [by eexists |]. split; [| done].
  split; rfields; try done. intros _. exists k. split_and!; try done; try size_lia. intros ->. done.
Qed.

Lemma InitPartition_ok r :
  topics_in r → TopicsLeft r ≠ 0 → 0 ≤ PartitionsLeftInTopic r → 16 ≤ CurrentPartitionOffset r ≤ L →
  wpr InitPartition r (λ b r', r' = r ∧ partitions_in r ∧ b = negb (PartitionsLeftInTopic r =? 0)).
Proof.
  intros Ht Hn Hl Ho. unfold InitPartition. wstep. destruct (Z.eqb_spec (PartitionsLeftInTopic r) 0) as [E | E].
  { eapply wp_Ret; [reflexivity |]. split_and!; [done | split; try done; size_lia | done]. }
  apply wp_bind, space_from_ok; [by apply ti_buf | lia |]. intros Hsp. eapply wp_Ret; [reflexivity |].
  split_and!; [done | split; try done; size_lia | done].
Qed.

Lemma InitReplica_ok r :
  partitions_in r → PartitionsLeftInTopic r ≠ 0 → 0 ≤ ReplicasLeftInPartition r → 16 ≤ CurrentReplicaOffset r ≤ L →
  wpr InitReplica r (λ b r', r' = r ∧ replicas_in r ∧ b = negb (ReplicasLeftInPartition r =? 0)).
Proof.
  intros Ht Hn Hl Ho. unfold InitReplica. wstep. destruct (Z.eqb_spec (ReplicasLeftInPartition r) 0) as [E | E].
  { eapply wp_Ret; [reflexivity |]. split_and!; [done | split; try done; size_lia | done]. }
  apply wp_bind, space_from_ok; [apply Ht | lia |]. intros Hsp. eapply wp_Ret; [reflexivity |].
  split_and!; [done | split; try done; size_lia | done].
Qed.

Lemma InitCaughtUpReplica_ok r :
  replicas_in r → ReplicasLeftInPartition r = 0 → 0 ≤ CaughtUpReplicasLeftInPartition r → 16 ≤ CurrentCaughtUpReplicaOffset r ≤ L →
  wpr InitCaughtUpReplica r (λ b r', r' = r ∧ caught_up_in r ∧ b = negb (CaughtUpReplicasLeftInPartition r =? 0)).
Proof.
  intros Ht Hn Hl Ho. unfold InitCaughtUpReplica. wstep. destruct (Z.eqb_spec (CaughtUpReplicasLeftInPartition r) 0) as [E | E].
  { eapply wp_Ret; [reflexivity |]. split_and!; [done | split; try done; size_lia | done]. }
  apply wp_bind, space_from_ok; [apply Ht | lia |]. intros Hsp. eapply wp_Ret; [reflexivity |].
  split_and!; [done | split; try done; size_lia | done].
Qed.

(** *** The brokers *)

(** Before the topics. *)
Definition before_topics (r : TMetadataResponseReader) : Prop :=
  (State r = Initial ∧ Buf r = buf) ∨ (State r = InBrokerList ∧ brokers_in r).

Lemma FirstBroker_ok r :
  Buf r = buf →
  wpr FirstBroker r (λ b r', State r' = InBrokerList ∧ brokers_in r' ∧ b = negb (BrokersLeft r' =? 0)).
Proof.
  intros Hb. unfold FirstBroker, GetBrokerCount. wstep. unfold BufSize at 1. rewrite Hb. case_test; [done |]. wstep.
  apply wp_bind. apply read_checked; [done | size_lia.. |]. intros n Hn Hn'. wstep. apply (cleared _ _ InBrokerList); [done |].
  intros r' Hs' Hb' Hbr _ _ _ _. destruct Hbr as [Hl Ho]; [done |]. rfields.
  eapply wp_mono; [apply InitBroker_ok; try done; [congruence | lia | size_lia] |].
  intros b r2 ([len ->] & Hi & ->). done.
Qed.

Lemma broker_size k : 0 ≤ 10 + k < 2 ^ 63 → BrokerSize (uwrap 64 k) = 10 + k.
Proof.
  intros Hk. unfold BrokerSize, RelBrokerPortOffset. rewrite uadd_signed, uadd_signed_l, uwrap_id; size_lia.
Qed.

Lemma NextBroker_ok r :
  State r = InBrokerList → brokers_in r → BrokersLeft r ≠ 0 →
  wpr NextBroker r (λ b r', (State r' = InBrokerList ∧ brokers_in r') ∧ BrokersLeft r' = BrokersLeft r - 1 ∧ b = negb (BrokersLeft r' =? 0)).
Proof.
  intros Hs [Hb Hl Ho Hi] Hn. destruct (Hi Hn) as (k & Hk & Hk0 & Hlen & Hh & Hf & Hsz).
  unfold NextBroker. wstep. rewrite decide_False by congruence. apply reader_in_state; [done |]. apply some_left_ok; [done |]. wstep.
  rewrite Hlen, broker_size, uadd_small by width_lia.
  eapply wp_mono; [apply InitBroker_ok; rfields; try done; lia |]. intros b r2 ([len ->] & Hi2 & ->). done.
Qed.

Lemma SkipRemainingBrokers_ok r :
  before_topics r →
  wpr SkipRemainingBrokers r (λ _ r', (State r' = InBrokerList ∧ brokers_in r') ∧ BrokersLeft r' = 0).
Proof.
  intros Hr. unfold SkipRemainingBrokers. wstep. apply wp_massert; [destruct Hr as [[-> _] | [-> _]]; done |].
  assert (∀ r, State r = InBrokerList ∧ brokers_in r →
    wpr (in_state InBrokerList;; skip BrokersLeft NextBroker) r (λ _ r', (State r' = InBrokerList ∧ brokers_in r') ∧ BrokersLeft r' = 0)) as Hskip.
  { clear r Hr. intros r [Hs Hi]. apply reader_in_state; [done |].
    apply (skip_ok BrokersLeft NextBroker (λ r, State r = InBrokerList ∧ brokers_in r)); [| | done].
    - intros r' [_ Hi']. apply Hi'.
    - intros r' [Hs' Hi'] Hn. eapply wp_mono; [by apply NextBroker_ok |]. intros b r2 (H1 & H2 & _). done. }
  apply wp_bind. destruct Hr as [[Hs Hb] | [Hs Hi]].
  - rewrite decide_True by done. eapply wp_mono; [by apply FirstBroker_ok |]. cbv beta. intros b r' (H1 & H2 & ->).
    destruct (Z.eqb_spec (BrokersLeft r') 0); [| by apply Hskip]. by eapply wp_Ret.
  - rewrite decide_False by congruence. eapply wp_Ret; [reflexivity |]. by apply Hskip.
Qed.

Lemma make_string_ok pos len r k :
  Buf r = buf → in_s 16 k → len = uwrap 64 k → 0 ≤ pos → pos + k ≤ L →
  wpr (make_string pos len) r (λ s r', r' = r).
Proof.
  intros Hb Hk -> H0 HL. unfold make_string. wstep. case_test; [done |]. rewrite Hb.
  assert (uwrap 64 k = k ∧ 0 ≤ k) as [Ek Hk0].
  { destruct (decide (0 ≤ k)); [rewrite uwrap_small; width_lia |]. exfalso.
    assert (uwrap 64 k = k + 2 ^ 64) as E; [| width_lia].
    unfold uwrap. rewrite <- (Z_mod_plus_full _ 1), Z.mul_1_l. apply Z.mod_small. width_lia. }
  rewrite Ek in *. destruct (rd_range_ok (E := exn) buf pos (pos + k) r) as (l & E & _); [lia.. |]. by eapply wp_Ret.
Qed.

Lemma broker_fields_ok r :
  State r = InBrokerList → brokers_in r → BrokersLeft r ≠ 0 →
  wpr GetCurrentBrokerHost r (λ _ r', r' = r) ∧ wpr GetCurrentBrokerNodeId r (λ _ r', r' = r) ∧
  wpr GetCurrentBrokerPort r (λ _ r', r' = r).
Proof.
  intros Hs [Hb Hl Ho Hi] Hn. destruct (Hi Hn) as (k & Hk & Hk0 & Hlen & Hh & Hf & Hsz).
  unfold GetCurrentBrokerHost, GetCurrentBrokerNodeId, GetCurrentBrokerPort.
  split_and!; (apply reader_in_state; [done |]; apply some_left_ok; [done |]; wstep).
  - apply (make_string_ok _ _ _ k); try done; size_lia.
  - by apply read_checked; [done | size_lia.. |].
  - unfold RelBrokerPortOffset. rewrite Hlen, uadd_signed, (uadd_signed (CurrentBrokerOffset r)).
    apply wp_bind. rewrite uwrap_id by size_lia. apply read32_ok; [done | size_lia.. |]. intros port _.
    destruct (_ || _); [done |]. by eapply wp_Ret.
Qed.

(** *** The replicas of a partition *)

(** [r'] is at the same partition of the same topic as [r]. *)
Definition same_partition (r r' : TMetadataResponseReader) : Prop :=
  TopicsLeft r' = TopicsLeft r ∧ PartitionsLeftInTopic r' = PartitionsLeftInTopic r.

Lemma topics_in_ext r r' :
  topics_in r → Buf r' = Buf r → BrokersLeft r' = BrokersLeft r ∧ CurrentBrokerOffset r' = CurrentBrokerOffset r →
  TopicsLeft r' = TopicsLeft r ∧ CurrentTopicOffset r' = CurrentTopicOffset r ∧ CurrentTopicNameLength r' = CurrentTopicNameLength r →
  topics_in r'.
Proof. intros [] Hb [H1 H2] (H3 & H4 & H5). split; rewrite ?Hb, ?H1, ?H2, ?H3, ?H4, ?H5; done. Qed.

Lemma partitions_in_ext r r' :
  partitions_in r → topics_in r' → TopicsLeft r' = TopicsLeft r →
  PartitionsLeftInTopic r' = PartitionsLeftInTopic r ∧ CurrentPartitionOffset r' = CurrentPartitionOffset r → partitions_in r'.
Proof. intros [] Ht H3 [H1 H2]. split; rewrite ?H1, ?H2, ?H3; done. Qed.

Lemma replicas_in_ext r r' :
  replicas_in r → partitions_in r' → PartitionsLeftInTopic r' = PartitionsLeftInTopic r →
  ReplicasLeftInPartition r' = ReplicasLeftInPartition r ∧ CurrentReplicaOffset r' = CurrentReplicaOffset r → replicas_in r'.
Proof. intros [] Ht H3 [H1 H2]. split; rewrite ?H1, ?H2, ?H3; done. Qed.

Lemma FirstReplica_ok r :
  State r = InPartitionList → partitions_in r → PartitionsLeftInTopic r ≠ 0 →
  wpr FirstReplicaInPartition r
    (λ b r', (State r' = InReplicaList ∧ replicas_in r' ∧ same_partition r r') ∧ b = negb (ReplicasLeftInPartition r' =? 0)).
Proof.
  intros Hs Hp Hn. pose proof (pi_off _ Hp). pose proof (pi_item _ Hp Hn). pose proof (ti_buf _ (pi_topics _ Hp)) as Hb.
  unfold FirstReplicaInPartition, GetCurrentPartitionReplicaCount.
  apply at_least_ok; [by rewrite Hs |]. apply some_left_ok; [done |]. apply wp_bind.
  apply at_least_ok; [by rewrite Hs |]. apply some_left_ok; [done |]. wstep. apply read_checked; [done | size_lia.. |]. intros n Hn0 _.
  wstep. apply (cleared _ _ InReplicaList); [done |]. intros r' Hs' Hb' H1 H2 H3 H4 _.
  specialize (H1 ltac:(done)). specialize (H2 ltac:(done)). specialize (H3 ltac:(done)). specialize (H4 ltac:(done)). rfields.
  assert (partitions_in r') as Hp' by (eapply partitions_in_ext; [exact Hp | by eapply topics_in_ext; [apply Hp | ..] | apply H2 | done]).
  destruct H3 as [H3 _], H4 as [H4 H5].
  eapply wp_mono; [apply InitReplica_ok; [done | congruence | lia | size_lia] |].
  intros b r2 (-> & Hi & ->). split; [| done]. split_and!; try done. split; [apply H2 | done].
Qed.

Lemma NextReplica_ok r :
  State r = InReplicaList → replicas_in r → ReplicasLeftInPartition r ≠ 0 →
  wpr NextReplicaInPartition r
    (λ b r', (State r' = InReplicaList ∧ replicas_in r' ∧ same_partition r r') ∧ ReplicasLeftInPartition r' = ReplicasLeftInPartition r - 1).
Proof.
  intros Hs [Hp Hpn Hl Ho Hi] Hn. specialize (Hi Hn). unfold NextReplicaInPartition, before_caught_up.
  apply wp_bind. wstep. rewrite Hs. eapply wp_Ret; [reflexivity |]. apply some_left_ok; [done |]. wstep.
  rewrite Hs. rewrite decide_False by done. apply reader_in_state; [done |]. apply some_left_ok; [done |]. wstep.
  eapply wp_mono; [apply InitReplica_ok; rfields; try done; [| size_lia..]; eapply partitions_in_ext; [exact Hp | by eapply topics_in_ext; [apply Hp | ..] | done..] |].
  intros b r2 (-> & Hi2 & ->). done.
Qed.

Lemma SkipRemainingReplicas_ok r :
  PartitionsLeftInTopic r ≠ 0 → (State r = InPartitionList ∧ partitions_in r) ∨ (State r = InReplicaList ∧ replicas_in r) →
  wpr SkipRemainingReplicas r
    (λ _ r', (State r' = InReplicaList ∧ replicas_in r' ∧ same_partition r r') ∧ ReplicasLeftInPartition r' = 0).
Proof.
  intros Hn Hr. unfold SkipRemainingReplicas, before_caught_up. apply wp_bind. wstep.
  assert (bool_decide (State r = InPartitionList) || bool_decide (State r = InReplicaList) = true) as ->.
  { by destruct Hr as [[-> _] | [-> _]]. }
  eapply wp_Ret; [reflexivity |]. apply some_left_ok; [done |]. wstep.
  assert (∀ r1, State r1 = InReplicaList ∧ replicas_in r1 ∧ same_partition r r1 →
    wpr (in_state InReplicaList;; skip ReplicasLeftInPartition NextReplicaInPartition) r1
      (λ _ r', (State r' = InReplicaList ∧ replicas_in r' ∧ same_partition r r') ∧ ReplicasLeftInPartition r' = 0)) as Hskip.
  { intros r1 (Hs1 & Hi1 & Hf1). apply reader_in_state; [done |].
    apply (skip_ok _ _ (λ r', State r' = InReplicaList ∧ replicas_in r' ∧ same_partition r r')); [| | done].
    - intros r' (_ & Hi' & _). apply Hi'.
    - intros r' (Hs' & Hi' & [Hf Hf']) Hne. eapply wp_mono; [by apply NextReplica_ok |]. intros b r2 ((H1 & H2 & [H3 H4]) & H5).
      split_and!; try done. split; congruence. }
  apply wp_bind. destruct Hr as [[Hs Hp] | [Hs Hi]].
  - rewrite decide_True by done. eapply wp_mono; [by apply FirstReplica_ok |]. cbv beta. intros b r' ((H1 & H2 & H3) & ->).
    destruct (Z.eqb_spec (ReplicasLeftInPartition r') 0); [| by apply Hskip]. by eapply wp_Ret.
  - rewrite decide_False by congruence. eapply wp_Ret; [reflexivity |]. by apply Hskip.
Qed.

Lemma FirstCaughtUp_ok r :
  State r = InReplicaList → replicas_in r → ReplicasLeftInPartition r = 0 →
  wpr FirstCaughtUpReplicaInPartition r
    (λ b r', (State r' = InCaughtUpReplicaList ∧ caught_up_in r' ∧ same_partition r r') ∧ b = negb (CaughtUpReplicasLeftInPartition r' =? 0)).
Proof.
  intros Hs Hr H0. unfold FirstCaughtUpReplicaInPartition. apply at_least_ok; [by rewrite Hs |]. wstep. rewrite Hs.
  apply wp_bind. eapply wp_mono; [apply SkipRemainingReplicas_ok; [by apply ri_partition | by right] |]. cbv beta.
  intros _ r1 ((Hs1 & Hr1 & Hf1) & H1). destruct Hr1 as [Hp Hpn Hl Ho Hi] eqn:E. clear E.
  pose proof (ti_buf _ (pi_topics _ Hp)) as Hb. apply at_least_ok; [by rewrite Hs1 |]. apply none_left_ok; [done |].
  apply wp_bind. unfold GetCurrentPartitionCaughtUpReplicaCount. apply at_least_ok; [by rewrite Hs1 |]. apply none_left_ok; [done |]. wstep.
  apply wp_bind, space_from_ok; [done | lia |]. intros Hsp. apply read_checked; [done | size_lia.. |]. intros n Hn _.
  wstep. apply (cleared _ _ InCaughtUpReplicaList); [done |]. intros r' Hs' Hb' H2 H3 H4 H5 H6.
  specialize (H2 ltac:(done)). specialize (H3 ltac:(done)). specialize (H4 ltac:(done)). specialize (H5 ltac:(done)). specialize (H6 ltac:(done)). rfields.
  assert (partitions_in r') as Hp' by (eapply partitions_in_ext; [exact Hp | by eapply topics_in_ext; [apply Hp | ..] | apply H3 | done]).
  assert (replicas_in r') as Hr' by (eapply replicas_in_ext; [exact Hr1 | done | apply H4 | done]).
  eapply wp_mono; [apply InitCaughtUpReplica_ok; [done | destruct H5; congruence | lia | destruct H6; size_lia] |].
  intros b r2 (-> & Hi2 & ->). split; [| done]. split_and!; try done. destruct Hf1 as [Hf1 Hf2], H3 as [H3 _], H4 as [H4 _].
  split; congruence.
Qed.

Lemma NextCaughtUp_ok r :
  State r = InCaughtUpReplicaList → caught_up_in r → CaughtUpReplicasLeftInPartition r ≠ 0 →
  wpr NextCaughtUpReplicaInPartition r
    (λ b r', (State r' = InCaughtUpReplicaList ∧ caught_up_in r' ∧ same_partition r r') ∧
             CaughtUpReplicasLeftInPartition r' = CaughtUpReplicasLeftInPartition r - 1).
Proof.
  intros Hs [Hr H0 Hl Ho Hi] Hn. specialize (Hi Hn). unfold NextCaughtUpReplicaInPartition.
  apply at_least_ok; [by rewrite Hs |]. wstep. rewrite Hs. apply reader_in_state; [done |]. apply some_left_ok; [done |]. wstep.
  set (r1 := r <| CaughtUpReplicasLeftInPartition := _ |> <| CurrentCaughtUpReplicaOffset := _ |>).
  assert (partitions_in r1) as Hp1.
  { eapply partitions_in_ext; [apply Hr | by eapply topics_in_ext; [apply Hr | ..] | done..]. }
  assert (replicas_in r1) as Hr1 by by eapply replicas_in_ext.
  eapply wp_mono; [apply (InitCaughtUpReplica_ok r1); try done; subst r1; size_lia |]. intros b r2 (-> & Hi2 & _). done.
Qed.

Lemma SkipRemainingCaughtUp_ok r :
  (State r = InReplicaList ∧ replicas_in r ∧ ReplicasLeftInPartition r = 0) ∨ (State r = InCaughtUpReplicaList ∧ caught_up_in r) →
  wpr SkipRemainingCaughtUpReplicas r
    (λ _ r', (State r' = InCaughtUpReplicaList ∧ caught_up_in r' ∧ same_partition r r') ∧ CaughtUpReplicasLeftInPartition r' = 0).
Proof.
  intros Hr. unfold SkipRemainingCaughtUpReplicas. wstep.
  apply wp_massert; [by destruct Hr as [[-> _] | [-> _]] |]. apply none_left_ok; [by destruct Hr as [(_ & _ & ?) | [_ []]] |].
  assert (∀ r1, State r1 = InCaughtUpReplicaList ∧ caught_up_in r1 ∧ same_partition r r1 →
    wpr (in_state InCaughtUpReplicaList;; skip CaughtUpReplicasLeftInPartition NextCaughtUpReplicaInPartition) r1
      (λ _ r', (State r' = InCaughtUpReplicaList ∧ caught_up_in r' ∧ same_partition r r') ∧ CaughtUpReplicasLeftInPartition r' = 0)) as Hskip.
  { intros r1 (Hs1 & Hi1 & Hf1). apply reader_in_state; [done |].
    apply (skip_ok _ _ (λ r', State r' = InCaughtUpReplicaList ∧ caught_up_in r' ∧ same_partition r r')); [| | done].
    - intros r' (_ & Hi' & _). apply Hi'.
    - intros r' (Hs' & Hi' & [Hf Hf']) Hne. eapply wp_mono; [by apply NextCaughtUp_ok |]. intros b r2 ((H1 & H2 & [H3 H4]) & H5).
      split_and!; try done. split; congruence. }
  apply wp_bind. destruct Hr as [(Hs & Hp & H0) | [Hs Hi]].
  - rewrite decide_True by done. eapply wp_mono; [by apply FirstCaughtUp_ok |]. cbv beta. intros b r' ((H1 & H2 & H3) & ->).
    destruct (Z.eqb_spec (CaughtUpReplicasLeftInPartition r') 0); [| by apply Hskip]. by eapply wp_Ret.
  - rewrite decide_False by congruence. eapply wp_Ret; [reflexivity |]. by apply Hskip.
Qed.

(** *** The partitions of a topic *)

Lemma in_partitions_in r : in_partitions r → partitions_in r.
Proof. unfold in_partitions. destruct (State r); try done; [by intros [] | by intros [[]]]. Qed.

Lemma count_offset r :
  topics_in r → TopicsLeft r ≠ 0 →
  ∃ k, uadd (CurrentTopicOffset r) (RelPartitionCountOffset (CurrentTopicNameLength r)) = CurrentTopicOffset r + 4 + k ∧
    0 ≤ 8 + k ∧ CurrentTopicOffset r + 8 + k ≤ L.
Proof.
  intros [Hb _ _ _ Ho Hi] Hn. destruct (Hi Hn) as (k & Hk & Hk0 & Hlen & Hh & Hf & Hsz). exists k. split; [| lia].
  unfold RelPartitionCountOffset. rewrite Hlen, uadd_signed, uadd_signed, uwrap_id; size_lia.
Qed.

Lemma FirstPartition_ok r :
  State r = InTopicList → topics_in r → TopicsLeft r ≠ 0 →
  wpr FirstPartitionInTopic r
    (λ b r', (State r' = InPartitionList ∧ partitions_in r' ∧ TopicsLeft r' = TopicsLeft r) ∧ b = negb (PartitionsLeftInTopic r' =? 0)).
Proof.
  intros Hs Ht Hn. destruct (count_offset r Ht Hn) as (k & Ek & Hk & Hsz). pose proof (ti_buf _ Ht) as Hb. pose proof (ti_off _ Ht).
  unfold FirstPartitionInTopic, GetCurrentTopicPartitionCount.
  apply at_least_ok; [by rewrite Hs |]. apply some_left_ok; [done |]. apply wp_bind.
  apply at_least_ok; [by rewrite Hs |]. apply some_left_ok; [done |]. wstep. rewrite Ek. apply read_checked; [done | size_lia.. |]. intros n Hn0 _.
  wstep. rewrite Ek. apply (cleared _ _ InPartitionList); [done |]. intros r' Hs' Hb' H1 H2 H3 _ _.
  specialize (H1 ltac:(done)). specialize (H2 ltac:(done)). specialize (H3 ltac:(done)). rfields.
  assert (topics_in r') as Ht' by by eapply topics_in_ext.
  destruct H3 as [H3 H4]. rewrite uadd_small in H4 by size_lia.
  eapply wp_mono; [apply InitPartition_ok; [done | destruct H2; congruence | lia | size_lia] |].
  intros b r2 (-> & Hi & ->). split; [| done]. split_and!; try done. apply H2.
Qed.

Lemma md_NextPartition_ok r :
  in_partitions r → PartitionsLeftInTopic r ≠ 0 →
  wpr NextPartitionInTopic r
    (λ b r', (State r' = InPartitionList ∧ partitions_in r' ∧ TopicsLeft r' = TopicsLeft r) ∧
             PartitionsLeftInTopic r' = PartitionsLeftInTopic r - 1 ∧ b = negb (PartitionsLeftInTopic r' =? 0)).
Proof.
  intros Hr Hn. pose proof (in_partitions_in r Hr) as Hp. pose proof (pi_topic _ Hp) as Htn. unfold NextPartitionInTopic.
  assert (rank InPartitionList ≤ rank (State r)) as Hrank by (unfold in_partitions in Hr; by destruct (State r)).
  apply at_least_ok; [cbn in *; lia |]. apply some_left_ok; [done |]. wstep.
  rewrite decide_False by (intros E; by rewrite E in Hrank). apply at_least_ok; [done |]. apply some_left_ok; [done |].
  apply wp_bind. eapply (wp_mono _ _ _ _ (λ _ r1, same_partition r r1 ∧ ((State r1 = InReplicaList ∧ replicas_in r1 ∧ ReplicasLeftInPartition r1 = 0) ∨ (State r1 = InCaughtUpReplicaList ∧ caught_up_in r1)))).
  { unfold in_partitions in Hr. destruct (State r) eqn:Es; try done.
    - eapply wp_mono; [apply SkipRemainingReplicas_ok; [done | by left] |]. intros _ r1 ((H1 & H2 & H3) & H4). split; [done | by left].
    - eapply wp_mono; [apply SkipRemainingReplicas_ok; [done | by right] |]. intros _ r1 ((H1 & H2 & H3) & H4). split; [done | by left].
    - eapply wp_Ret; [reflexivity |]. split; [done | by right]. }
  intros _ r1 [Hf1 Hr1]. apply wp_bind. eapply wp_mono; [by apply SkipRemainingCaughtUp_ok |]. cbv beta.
  intros _ r2 ((Hs2 & Hc2 & Hf2) & H0). apply reader_in_state; [done |]. apply none_left_ok; [done |]. wstep.
  destruct Hf1 as [Hf1 Hf1'], Hf2 as [Hf2 Hf2']. pose proof (ri_partitions _ (ci_replicas _ Hc2)) as Hp2. pose proof (pi_left _ Hp2).
  eapply wp_mono; [apply InitPartition_ok; rfields; [by eapply topics_in_ext; [apply Hp2 | ..] | apply Hp2 | lia | apply Hc2] |].
  intros b r3 (-> & Hi & ->). rfields. split_and!; try done; congruence.
Qed.

Lemma SkipRemainingPartitions_ok r :
  in_topics r → TopicsLeft r ≠ 0 →
  wpr SkipRemainingPartitions r (λ _ r', (in_partitions r' ∧ TopicsLeft r' = TopicsLeft r) ∧ PartitionsLeftInTopic r' = 0).
Proof.
  intros Hr Hn. unfold SkipRemainingPartitions. apply at_least_ok; [unfold in_topics, in_partitions in Hr; by destruct (State r) |].
  apply some_left_ok; [done |]. wstep.
  assert (∀ r1, in_partitions r1 ∧ TopicsLeft r1 = TopicsLeft r →
    wpr (at_least InPartitionList;; skip PartitionsLeftInTopic NextPartitionInTopic) r1
      (λ _ r', (in_partitions r' ∧ TopicsLeft r' = TopicsLeft r) ∧ PartitionsLeftInTopic r' = 0)) as Hskip.
  { intros r1 [Hi1 Hf1]. apply at_least_ok; [unfold in_partitions in Hi1; by destruct (State r1) |].
    apply (skip_ok _ _ (λ r', in_partitions r' ∧ TopicsLeft r' = TopicsLeft r)); [| | done].
    - intros r' [Hi' _]. apply (pi_left _ (in_partitions_in _ Hi')).
    - intros r' [Hi' Hf'] Hne. eapply wp_mono; [by apply md_NextPartition_ok |]. intros b r2 ((H1 & H2 & H3) & H4 & _).
      split; [| done]. split; [by unfold in_partitions; rewrite H1 | congruence]. }
  apply wp_bind. destruct (decide (State r = InTopicList)) as [Hs | Hs].
  - unfold in_topics in Hr. rewrite Hs in Hr. eapply wp_mono; [by apply FirstPartition_ok |]. cbv beta. intros b r' ((H1 & H2 & H3) & ->).
    assert (in_partitions r' ∧ TopicsLeft r' = TopicsLeft r) as Hi' by (unfold in_partitions; by rewrite H1).
    destruct (Z.eqb_spec (PartitionsLeftInTopic r') 0); [| by apply Hskip]. by eapply wp_Ret.
  - eapply wp_Ret; [reflexivity |]. apply Hskip. split; [| done]. unfold in_topics in Hr. by destruct (State r).
Qed.

(** *** The topics *)

Lemma FirstTopic_ok r :
  before_topics r →
  wpr FirstTopic r (λ b r', (State r' = InTopicList ∧ topics_in r') ∧ b = negb (TopicsLeft r' =? 0)).
Proof.
  intros Hr. unfold FirstTopic. wstep.
  assert (rank (State r) <=? rank InBrokerList = true) as -> by by destruct Hr as [[-> _] | [-> _]].
  apply wp_bind. eapply wp_mono; [by apply SkipRemainingBrokers_ok |]. cbv beta. intros _ r1 ((Hs1 & [Hb Hl Ho _]) & H0).
  apply at_least_ok; [by rewrite Hs1 |]. apply none_left_ok; [done |]. apply wp_bind. unfold GetTopicCount.
  apply at_least_ok; [by rewrite Hs1 |]. apply none_left_ok; [done |]. wstep. apply wp_bind, space_from_ok; [done | lia |]. intros Hsp.
  apply read_checked; [done | size_lia.. |]. intros n Hn _. wstep. apply (cleared _ _ InTopicList); [done |]. intros r' Hs' Hb' H1 H2 _ _ _.
  destruct H1 as [H1 H1']; [done |]. destruct H2 as (H2 & H2' & _); [done |]. rfields.
  eapply wp_mono; [apply InitTopic_ok; try done; [congruence | congruence | size_lia | lia | size_lia] |].
  intros b r2 ([len ->] & Hi & ->). done.
Qed.

Lemma NextTopic_ok r :
  in_topics r → TopicsLeft r ≠ 0 →
  wpr NextTopic r (λ b r', (State r' = InTopicList ∧ topics_in r') ∧ TopicsLeft r' = TopicsLeft r - 1 ∧ b = negb (TopicsLeft r' =? 0)).
Proof.
  intros Hr Hn. unfold NextTopic. wstep.
  assert (rank InTopicList ≤ rank (State r)) as Hrank by (unfold in_topics, in_partitions in Hr; by destruct (State r)).
  rewrite (proj2 (Z.leb_gt _ _)) by (cbn in *; lia). apply at_least_ok; [done |]. apply some_left_ok; [done |].
  apply wp_bind. eapply wp_mono; [by apply SkipRemainingPartitions_ok |]. cbv beta. intros _ r1 ((Hr1 & Hf) & H0).
  apply none_left_ok; [done |]. wstep. apply in_partitions_in in Hr1 as [Ht _ _ Ho _]. pose proof (ti_left _ Ht).
  eapply wp_mono; [apply InitTopic_ok; rfields; try done; try apply Ht; lia |].
  intros b r2 ([len ->] & Hi & ->). rfields. split_and!; try done. congruence.
Qed.

Lemma GetCurrentTopicErrorCode_ok r :
  State r = InTopicList → topics_in r → TopicsLeft r ≠ 0 → wpr GetCurrentTopicErrorCode r (λ _ r', r' = r).
Proof.
  intros Hs Ht Hn. destruct (ti_item _ Ht Hn) as (k & _ & _ & _ & Hh & _). pose proof (ti_off _ Ht).
  unfold GetCurrentTopicErrorCode. apply at_least_ok; [by rewrite Hs |]. apply some_left_ok; [done |]. wstep.
  apply read16_ok; [apply Ht | size_lia.. |]. done.
Qed.

Lemma md_GetCurrentTopicName_ok r :
  State r = InTopicList → topics_in r → TopicsLeft r ≠ 0 → wpr GetCurrentTopicName r (λ _ r', r' = r).
Proof.
  intros Hs Ht Hn. destruct (ti_item _ Ht Hn) as (k & Hk & _ & Hlen & Hh & Hf & Hsz). pose proof (ti_off _ Ht).
  unfold GetCurrentTopicName. apply at_least_ok; [by rewrite Hs |]. apply some_left_ok; [done |]. wstep.
  apply (make_string_ok _ _ _ k); [apply Ht | done | done | size_lia..].
Qed.

Lemma partition_fields_ok r :
  State r = InPartitionList → partitions_in r → PartitionsLeftInTopic r ≠ 0 →
  wpr GetCurrentPartitionErrorCode r (λ _ r', r' = r) ∧ wpr GetCurrentPartitionId r (λ _ r', r' = r) ∧
  wpr GetCurrentPartitionLeaderId r (λ _ r', r' = r).
Proof.
  intros Hs Hp Hn. pose proof (pi_off _ Hp). pose proof (pi_item _ Hp Hn). pose proof (ti_buf _ (pi_topics _ Hp)) as Hb.
  unfold GetCurrentPartitionErrorCode, GetCurrentPartitionId, GetCurrentPartitionLeaderId.
  split_and!; (apply at_least_ok; [by rewrite Hs |]; apply some_left_ok; [done |]; wstep).
  - by apply read16_ok; [done | size_lia.. |].
  - by apply read_checked; [done | size_lia.. |].
  - by apply read_checked; [done | size_lia.. |].
Qed.

End safe.
