(* ===== verification/MetadataFormat.v ===== *)
(** * The format of metadata responses

    The bytes of a response as a function of its contents; the reader's methods, on these
    bytes, go from item to item: the next item starts where the bytes of the current one
    end, whether its lists have been read or are skipped. *)
From S2P Require Import Prelude FieldAccess Wire MetadataResponse MetadataReader.

Record wire_broker := mkWireBroker { wb_id : Z; wb_host : list byte; wb_port : Z }.
Record wire_partition := mkWirePartition {
  wp_error : Z; wp_id : Z; wp_leader : Z; wp_replicas : list Z; wp_caught_up : list Z
}.
Record wire_topic := mkWireTopic { wt_error : Z; wt_name : list byte; wt_partitions : list wire_partition }.
Record wire_response := mkWireResponse { wr_corr_id : Z; wr_brokers : list wire_broker; wr_topics : list wire_topic }.

Definition enc_str (s : list byte) : list byte := WriteInt16ToHeader (Z.of_nat (length s)) ++ s.

Definition enc_count {A} (l : list A) : list byte := WriteInt32ToHeader (Z.of_nat (length l)).

Definition enc_broker (b : wire_broker) : list byte :=
  WriteInt32ToHeader (wb_id b) ++ enc_str (wb_host b) ++ WriteInt32ToHeader (wb_port b).

Definition enc_ids (l : list Z) : list byte := concat (WriteInt32ToHeader <$> l).

(** The fields of a partition before its lists. *)
Definition enc_partition_head (p : wire_partition) : list byte :=
  WriteInt16ToHeader (wp_error p) ++ WriteInt32ToHeader (wp_id p) ++ WriteInt32ToHeader (wp_leader p).

Definition enc_partition (p : wire_partition) : list byte :=
  enc_partition_head p ++ enc_count (wp_replicas p) ++ enc_ids (wp_replicas p) ++
  enc_count (wp_caught_up p) ++ enc_ids (wp_caught_up p).

Definition enc_topic_head (t : wire_topic) : list byte := WriteInt16ToHeader (wt_error t) ++ enc_str (wt_name t).

Definition enc_topic (t : wire_topic) : list byte :=
  enc_topic_head t ++ enc_count (wt_partitions t) ++ concat (enc_partition <$> wt_partitions t).

Definition enc_body (r : wire_response) : list byte :=
  WriteInt32ToHeader (wr_corr_id r) ++ enc_count (wr_brokers r) ++ concat (enc_broker <$> wr_brokers r) ++
  enc_count (wr_topics r) ++ concat (enc_topic <$> wr_topics r).

Definition enc_response (r : wire_response) : list byte :=
  WriteInt32ToHeader (Z.of_nat (length (enc_body r))) ++ enc_body r.

(** The values that a response can have. *)
Definition name_ok (s : list byte) : Prop := s ≠ [] ∧ Z.of_nat (length s) ≤ INT16_MAX.

Definition wire_broker_ok (b : wire_broker) : Prop :=
  0 ≤ wb_id b ≤ INT32_MAX ∧ name_ok (wb_host b) ∧ 0 ≤ wb_port b ≤ 65535.

Definition wire_partition_ok (p : wire_partition) : Prop :=
  in_s 16 (wp_error p) ∧ 0 ≤ wp_id p ≤ INT32_MAX ∧ -1 ≤ wp_leader p ≤ INT32_MAX.

Definition wire_topic_ok (t : wire_topic) : Prop :=
  in_s 16 (wt_error t) ∧ name_ok (wt_name t) ∧ Forall wire_partition_ok (wt_partitions t).

Record wire_ok (r : wire_response) : Prop := {
  wo_brokers : Forall wire_broker_ok (wr_brokers r);
  wo_topics : Forall wire_topic_ok (wr_topics r);
  wo_size : Z.of_nat (length (enc_body r)) ≤ INT32_MAX
}.

Lemma length_enc_str s : length (enc_str s) = (2 + length s)%nat.
Proof. unfold enc_str. solve_len. Qed.

Lemma length_md_count {A} (l : list A) : length (enc_count l) = 4%nat.
Proof. unfold enc_count. solve_len. Qed.

Lemma length_enc_broker b : length (enc_broker b) = (10 + length (wb_host b))%nat.
Proof. unfold enc_broker. rewrite !length_app, length_enc_str. solve_len. Qed.

Lemma length_enc_ids l : length (enc_ids l) = (4 * length l)%nat.
Proof. unfold enc_ids. induction l as [| x l IH]; [done |]. cbn [fmap list_fmap concat]. rewrite length_app, IH. solve_len. Qed.

Lemma length_enc_partition_head p : length (enc_partition_head p) = 10%nat.
Proof. unfold enc_partition_head. solve_len. Qed.

Lemma length_enc_partition p :
  length (enc_partition p) = (18 + 4 * length (wp_replicas p) + 4 * length (wp_caught_up p))%nat.
Proof. unfold enc_partition. rewrite !length_app, length_enc_partition_head, !length_md_count, !length_enc_ids. lia. Qed.

Lemma length_enc_topic_head t : length (enc_topic_head t) = (4 + length (wt_name t))%nat.
Proof. unfold enc_topic_head. rewrite length_app, length_enc_str. solve_len. Qed.

Lemma length_enc_topic t :
  length (enc_topic t) = (8 + length (wt_name t) + length (concat (enc_partition <$> wt_partitions t)))%nat.
Proof. unfold enc_topic. rewrite !length_app, length_enc_topic_head, length_md_count. lia. Qed.

(** An item takes at least eight bytes, so that the number of items fits if the bytes do. *)
Lemma length_concat_ge {A} (f : A → list byte) l :
  (∀ x, 8 ≤ length (f x))%nat → (8 * length l ≤ length (concat (f <$> l)))%nat.
Proof.
  intros Hf. induction l as [| x l IH]; [done |]. cbn [fmap list_fmap concat length]. rewrite length_app. specialize (Hf x). lia.
Qed.

Create Rewrite HintDb wire_len.
#[export] Hint Rewrite @length_app length_enc_str @length_md_count length_enc_broker length_enc_ids length_enc_partition_head
  length_enc_partition length_enc_topic_head length_enc_topic length_WriteInt16 length_WriteInt32 : wire_len.

Ltac wire_lia := eval_widths; autorewrite with wire_len in *; cbn [length] in *; lia.

(** ** Reading *)

(** The bytes [s] are what the buffer [b] has from the offset [off] on. *)
Definition at_bytes (b : list byte) (off : Z) (s : list byte) : Prop :=
  ∃ pre, b = pre ++ s ∧ off = Z.of_nat (length pre).

Lemma at_bytes_next b off x s : at_bytes b off (x ++ s) → at_bytes b (off + Z.of_nat (length x)) s.
Proof. intros (pre & -> & ->). exists (pre ++ x). split; [by rewrite app_assoc |]. rewrite length_app. lia. Qed.

Lemma at_bytes_skip x b off s n s' :
  at_bytes b off s → s = x ++ s' → n = Z.of_nat (length x) → at_bytes b (off + n) s'.
Proof. intros Hb -> ->. by apply at_bytes_next. Qed.

Lemma at_bytes_end b off s : at_bytes b off s → 0 ≤ off ∧ off + Z.of_nat (length s) = Z.of_nat (length b).
Proof. intros (pre & -> & ->). rewrite length_app. lia. Qed.

Section exact.
Import MdReader.

(** The run ends with a result in [Q]. *)
Notation wpx m r Q := (wp m r Q (λ _ _, False) (λ _, False)).

Implicit Types (r : TMetadataResponseReader) (post : list byte).

Lemma x_space pos s n r Q : at_bytes (Buf r) pos s → 0 ≤ n ≤ Z.of_nat (length s) → Q () r → wpx (space_from pos n) r Q.
Proof.
  intros [Hp He]%at_bytes_end Hn HQ. unfold space_from, BufSize. wstep. apply wp_massert; [lia |]. case_test; [lia |]. by eapply wp_Ret.
Qed.

Lemma x_read32 v post pos r Q :
  at_bytes (Buf r) pos (WriteInt32ToHeader v ++ post) → in_s 32 v → Q v r → wpx (read32 pos) r Q.
Proof. intros (pre & Hb & ->) Hv HQ. unfold read32. wstep. rewrite Hb. eapply wp_Ret; [by apply rd32_app | done]. Qed.

Lemma x_read16 v post pos r Q :
  at_bytes (Buf r) pos (WriteInt16ToHeader v ++ post) → in_s 16 v → Q v r → wpx (read16 pos) r Q.
Proof. intros (pre & Hb & ->) Hv HQ. unfold read16. wstep. rewrite Hb. eapply wp_Ret; [by apply rd16_app | done]. Qed.

Lemma x_id v post pos least e r Q :
  at_bytes (Buf r) pos (WriteInt32ToHeader v ++ post) → in_s 32 v → least ≤ v →
  Q v r → wpx (v ← read32 pos; checked least e v) r Q.
Proof.
  intros Hb Hv Hl HQ. apply wp_bind. eapply x_read32; [done | done |]. unfold checked. case_test; [lia |]. by eapply wp_Ret.
Qed.

Lemma x_string s post pos len r Q :
  at_bytes (Buf r) pos (s ++ post) → len = Z.of_nat (length s) → len ≤ INT16_MAX →
  Q s r → wpx (make_string pos len) r Q.
Proof.
  intros (pre & Hb & ->) -> Hl HQ. unfold make_string. wstep. case_test; [width_lia |]. rewrite Hb.
  eapply wp_Ret; [apply rd_range_app | done].
Qed.

(** A fact of the current state. *)
Ltac now_at_ P H := match goal with |- wp _ ?r _ _ _ => assert (P r) as H end.
Tactic Notation "now_at" constr(P) "as" ident(H) := now_at_ P H.

(** The buffer and the place in the lists around the replicas. *)
Definition stays r r' : Prop :=
  Buf r' = Buf r ∧ TopicsLeft r' = TopicsLeft r ∧ PartitionsLeftInTopic r' = PartitionsLeftInTopic r.

Lemma stays_trans r1 r2 r3 : stays r1 r2 → stays r2 r3 → stays r1 r3.
Proof. unfold stays. intuition congruence. Qed.

(** A buffer whose lengths fit. *)
Definition short r : Prop := BufSize r < 2 ^ 32.

(** *** The lists of a partition *)

Record at_replicas (l : list Z) post r : Prop := {
  ar_state : State r = InReplicaList;
  ar_bytes : at_bytes (Buf r) (CurrentReplicaOffset r) (enc_ids l ++ post);
  ar_left : ReplicasLeftInPartition r = Z.of_nat (length l);
  ar_partition : PartitionsLeftInTopic r ≠ 0;
  ar_short : short r
}.

Record at_caught_up (l : list Z) post r : Prop := {
  ac_state : State r = InCaughtUpReplicaList;
  ac_bytes : at_bytes (Buf r) (CurrentCaughtUpReplicaOffset r) (enc_ids l ++ post);
  ac_left : CaughtUpReplicasLeftInPartition r = Z.of_nat (length l);
  ac_none : ReplicasLeftInPartition r = 0;
  ac_partition : PartitionsLeftInTopic r ≠ 0;
  ac_short : short r
}.

Record at_partitions (ps : list wire_partition) post r : Prop := {
  ap_state : State r = InPartitionList;
  ap_bytes : at_bytes (Buf r) (CurrentPartitionOffset r) (concat (enc_partition <$> ps) ++ post);
  ap_left : PartitionsLeftInTopic r = Z.of_nat (length ps);
  ap_topic : TopicsLeft r ≠ 0;
  ap_short : short r
}.

Lemma nonzero_cons {A} (x : A) l : Z.of_nat (length (x :: l)) ≠ 0.
Proof. cbn [length]. lia. Qed.

Lemma x_InitReplica l post r :
  at_replicas l post r → wpx InitReplica r (λ b r', r' = r ∧ b = bool_decide (l ≠ [])).
Proof.
  intros [Hs Hb Hl Hp]. unfold InitReplica. wstep. rewrite Hl. destruct l as [| x l]; [by eapply wp_Ret |].
  rewrite (proj2 (Z.eqb_neq _ _) (nonzero_cons x l)). apply wp_bind. eapply x_space; [done | | by eapply wp_Ret].
  sizes. wire_lia.
Qed.

Lemma x_InitCaughtUpReplica l post r :
  at_caught_up l post r → wpx InitCaughtUpReplica r (λ b r', r' = r ∧ b = bool_decide (l ≠ [])).
Proof.
  intros [Hs Hb Hl Hp]. unfold InitCaughtUpReplica. wstep. rewrite Hl. destruct l as [| x l]; [by eapply wp_Ret |].
  rewrite (proj2 (Z.eqb_neq _ _) (nonzero_cons x l)). apply wp_bind. eapply x_space; [done | | by eapply wp_Ret].
  sizes. wire_lia.
Qed.

Lemma x_InitPartition ps post r :
  at_partitions ps post r → wpx InitPartition r (λ b r', r' = r ∧ b = bool_decide (ps ≠ [])).
Proof.
  intros [Hs Hb Hl Hp]. unfold InitPartition. wstep. rewrite Hl. destruct ps as [| x l]; [by eapply wp_Ret |].
  rewrite (proj2 (Z.eqb_neq _ _) (nonzero_cons x l)). apply wp_bind. eapply x_space; [done | | by eapply wp_Ret].
  sizes. cbn [fmap list_fmap concat]. wire_lia.
Qed.

(** What follows the replicas of [p]. *)
Definition after_replicas (p : wire_partition) post : list byte := enc_count (wp_caught_up p) ++ enc_ids (wp_caught_up p) ++ post.

Lemma x_FirstReplica p ps post r :
  at_partitions (p :: ps) post r →
  wpx FirstReplicaInPartition r (λ b r',
    at_replicas (wp_replicas p) (after_replicas p (concat (enc_partition <$> ps) ++ post)) r' ∧ stays r r' ∧
    b = bool_decide (wp_replicas p ≠ [])).
Proof.
  intros [Hs Hb Hl Ht Hsh]. pose proof (nonzero_cons p ps) as Hn. rewrite <- Hl in Hn.
  cbn [fmap list_fmap concat] in Hb. unfold enc_partition at 1 in Hb. rewrite <- !app_assoc in Hb.
  pose proof (at_bytes_end _ _ _ Hb) as [H0 He]. unfold short, BufSize in Hsh.
  eapply (at_bytes_skip (enc_partition_head p)) in Hb as Hb1; [| done | done].
  eapply (at_bytes_skip (enc_count (wp_replicas p))) in Hb1 as Hb2; [| done | done].
  unfold FirstReplicaInPartition, GetCurrentPartitionReplicaCount.
  apply at_least_ok; [by rewrite Hs |]. apply some_left_ok; [done |]. apply wp_bind.
  apply at_least_ok; [by rewrite Hs |]. apply some_left_ok; [done |]. wstep.
  eapply x_id; [rewrite length_enc_partition_head in Hb1; exact Hb1 | wire_lia | lia |].
  wstep. apply (cleared _ _ InReplicaList); [done |]. intros r' Hs' Hb' _ H2 H3 H4 _.
  destruct H2 as (H2 & _); [done |]. destruct H3 as (H3 & _); [done |]. destruct H4 as (H4 & H5); [done |]. rfields.
  assert (at_replicas (wp_replicas p) (after_replicas p (concat (enc_partition <$> ps) ++ post)) r') as Hr.
  { split; try done; [| congruence | unfold short, BufSize; by rewrite Hb'].
    rewrite Hb', H5. rewrite length_enc_partition_head, length_md_count in Hb2. sizes. exact Hb2. }
  eapply wp_mono; [by eapply x_InitReplica |]. intros b r2 [-> ->]. done.
Qed.

Lemma x_NextReplica x l post r :
  at_replicas (x :: l) post r → wpx NextReplicaInPartition r (λ _ r', at_replicas l post r' ∧ stays r r').
Proof.
  intros [Hs Hb Hl Hp Hsh]. pose proof (nonzero_cons x l) as Hn. rewrite <- Hl in Hn. unfold NextReplicaInPartition, before_caught_up.
  apply wp_bind. wstep. rewrite Hs. eapply wp_Ret; [reflexivity |]. apply some_left_ok; [done |]. wstep. rewrite Hs.
  rewrite decide_False by done. apply reader_in_state; [done |]. apply some_left_ok; [done |]. wstep.
  now_at (at_replicas l post) as Hr1.
  { split; rfields; try done; [| rewrite Hl; cbn [length]; lia].
    eapply (at_bytes_skip (WriteInt32ToHeader x)); [done | by rewrite app_assoc | by rewrite length_WriteInt32]. }
  eapply wp_mono; [by apply (x_InitReplica l post) |]. intros b r2 [-> _]. done.
Qed.

(** The rest of the list of replicas is skipped; the list may not have been started. *)
Lemma x_rest_of_replicas l post r r0 :
  at_replicas l post r → stays r0 r →
  wpx (in_state InReplicaList;; skip ReplicasLeftInPartition NextReplicaInPartition) r (λ _ r', at_replicas [] post r' ∧ stays r0 r').
Proof.
  intros Hr Hst. apply reader_in_state; [by apply Hr |].
  apply (skip_list _ _ _ _ (λ l r', at_replicas l post r' ∧ stays r0 r') l); [| | done].
  - intros l' r' [Hr' _]. apply Hr'.
  - intros x l' r' [Hr' Hst']. eapply wp_mono; [by eapply x_NextReplica |]. intros _ r2 [H1 H2]. split; [done |]. by eapply stays_trans.
Qed.

Lemma x_SkipReplicas p ps post r :
  at_partitions (p :: ps) post r →
  wpx SkipRemainingReplicas r (λ _ r', at_replicas [] (after_replicas p (concat (enc_partition <$> ps) ++ post)) r' ∧ stays r r').
Proof.
  intros Hr. unfold SkipRemainingReplicas, before_caught_up. pose proof (ap_state _ _ _ Hr) as Hs.
  apply wp_bind. wstep. rewrite Hs. eapply wp_Ret; [reflexivity |].
  apply some_left_ok; [rewrite (ap_left _ _ _ Hr); apply nonzero_cons |]. wstep. rewrite decide_True by done.
  apply wp_bind. eapply wp_mono; [by eapply x_FirstReplica |]. cbv beta. intros b r1 (Hr1 & Hst & ->).
  destruct (wp_replicas p) as [| x l]; [by eapply wp_Ret |]. rewrite bool_decide_true by done. by eapply x_rest_of_replicas.
Qed.

Lemma x_SkipReplicas_again l post r :
  at_replicas l post r → wpx SkipRemainingReplicas r (λ _ r', at_replicas [] post r' ∧ stays r r').
Proof.
  intros Hr. unfold SkipRemainingReplicas, before_caught_up. pose proof (ar_state _ _ _ Hr) as Hs.
  apply wp_bind. wstep. rewrite Hs. eapply wp_Ret; [reflexivity |].
  apply some_left_ok; [apply Hr |]. wstep. rewrite decide_False by (by rewrite Hs). wstep. by eapply x_rest_of_replicas.
Qed.

Lemma x_FirstCaughtUp l post r :
  at_replicas [] (enc_count l ++ enc_ids l ++ post) r →
  wpx FirstCaughtUpReplicaInPartition r (λ b r', at_caught_up l post r' ∧ stays r r' ∧ b = bool_decide (l ≠ [])).
Proof.
  intros Hr. unfold FirstCaughtUpReplicaInPartition. pose proof (ar_state _ _ _ Hr) as Hs.
  apply at_least_ok; [by rewrite Hs |]. wstep. rewrite Hs. apply wp_bind.
  eapply wp_mono; [by eapply x_SkipReplicas_again |]. cbv beta. intros _ r1 [[Hs1 Hb1 Hl1 Hp1 Hsh1] Hst1].
  apply at_least_ok; [by rewrite Hs1 |]. apply none_left_ok; [done |]. apply wp_bind. unfold GetCurrentPartitionCaughtUpReplicaCount.
  apply at_least_ok; [by rewrite Hs1 |]. apply none_left_ok; [done |]. wstep. cbn [enc_ids fmap list_fmap concat app] in Hb1.
  pose proof (at_bytes_end _ _ _ Hb1) as [H0 He]. unfold short, BufSize in Hsh1.
  apply wp_bind. eapply x_space; [done | sizes; wire_lia |]. eapply x_id; [done | wire_lia | lia |]. wstep.
  apply (cleared _ _ InCaughtUpReplicaList); [done |]. intros r' Hs' Hb' _ H2 H3 H4 H5.
  destruct H2 as (H2 & _); [done |]. destruct H3 as (H3 & _); [done |]. destruct H4 as (H4 & _); [done |]. destruct H5 as [H5 H6]; [done |]. rfields.
  assert (at_caught_up l post r') as Hr'.
  { split; try done; [| by rewrite H4 | congruence | unfold short, BufSize; by rewrite Hb'].
    rewrite Hb', H6. eapply (at_bytes_skip (enc_count l)); [done | done | by rewrite length_md_count]. }
  eapply wp_mono; [by eapply x_InitCaughtUpReplica |]. intros b r2 [-> ->]. split_and!; try done.
  eapply stays_trans; [done |]. unfold stays. split_and!; congruence.
Qed.

Lemma x_NextCaughtUp x l post r :
  at_caught_up (x :: l) post r → wpx NextCaughtUpReplicaInPartition r (λ _ r', at_caught_up l post r' ∧ stays r r').
Proof.
  intros [Hs Hb Hl H0 Hp Hsh]. pose proof (nonzero_cons x l) as Hn. rewrite <- Hl in Hn. unfold NextCaughtUpReplicaInPartition.
  apply at_least_ok; [by rewrite Hs |]. wstep. rewrite Hs. apply reader_in_state; [done |]. apply some_left_ok; [done |]. wstep.
  now_at (at_caught_up l post) as Hr1.
  { split; rfields; try done; [| rewrite Hl; cbn [length]; lia].
    eapply (at_bytes_skip (WriteInt32ToHeader x)); [done | by rewrite app_assoc | by rewrite length_WriteInt32]. }
  eapply wp_mono; [by apply (x_InitCaughtUpReplica l post) |]. intros b r2 [-> _]. done.
Qed.

Lemma x_SkipCaughtUp l post r :
  at_replicas [] (enc_count l ++ enc_ids l ++ post) r →
  wpx SkipRemainingCaughtUpReplicas r (λ _ r', at_caught_up [] post r' ∧ stays r r').
Proof.
  intros Hr. unfold SkipRemainingCaughtUpReplicas. pose proof (ar_state _ _ _ Hr) as Hs. wstep. rewrite Hs.
  apply wp_massert; [done |]. apply none_left_ok; [apply Hr |]. rewrite decide_True by done.
  apply wp_bind. eapply wp_mono; [by eapply x_FirstCaughtUp |]. cbv beta. intros b r1 (Hr1 & Hst & ->).
  destruct l as [| x l]; [by eapply wp_Ret |]. rewrite bool_decide_true by done. apply reader_in_state; [apply Hr1 |].
  apply (skip_list _ _ _ _ (λ l r', at_caught_up l post r' ∧ stays r r') (x :: l)); [| | done].
  - intros l' r' [Hr' _]. apply Hr'.
  - intros y l' r' [Hr' Hst']. eapply wp_mono; [by eapply x_NextCaughtUp |]. intros _ r2 [H1 H2]. split; [done |]. by eapply stays_trans.
Qed.

(** *** Partitions *)

Lemma x_NextPartition p ps post r :
  at_partitions (p :: ps) post r →
  wpx NextPartitionInTopic r (λ b r', at_partitions ps post r' ∧ TopicsLeft r' = TopicsLeft r ∧ Buf r' = Buf r ∧ b = bool_decide (ps ≠ [])).
Proof.
  intros Hr. destruct Hr as [Hs Hb Hl Ht Hsh] eqn:E. clear E. pose proof (nonzero_cons p ps) as Hn. rewrite <- Hl in Hn.
  unfold NextPartitionInTopic. apply at_least_ok; [by rewrite Hs |]. apply some_left_ok; [done |]. wstep. rewrite Hs.
  rewrite decide_False by done. apply at_least_ok; [by rewrite Hs |]. apply some_left_ok; [done |]. cbn [rank].
  apply wp_bind. eapply wp_mono; [by eapply x_SkipReplicas |]. cbv beta. intros _ r1 [Hr1 Hst1].
  apply wp_bind. eapply wp_mono; [by eapply x_SkipCaughtUp |]. cbv beta. intros _ r2 [[Hs2 Hb2 Hl2 H0 Hp2 Hsh2] Hst2].
  destruct (stays_trans _ _ _ Hst1 Hst2) as (E1 & E2 & E3).
  apply reader_in_state; [done |]. apply none_left_ok; [done |]. wstep.
  now_at (at_partitions ps post) as Hr3.
  { split; rfields; try done; [| congruence]. rewrite E3, Hl. cbn [length]. lia. }
  eapply wp_mono; [by eapply x_InitPartition |]. intros b r3 [-> ->]. done.
Qed.

Lemma x_partition_fields p ps post r :
  at_partitions (p :: ps) post r → wire_partition_ok p →
  wpx GetCurrentPartitionErrorCode r (λ v r', v = wp_error p ∧ r' = r) ∧
  wpx GetCurrentPartitionId r (λ v r', v = wp_id p ∧ r' = r) ∧
  wpx GetCurrentPartitionLeaderId r (λ v r', v = wp_leader p ∧ r' = r).
Proof.
  intros [Hs Hb Hl Ht Hsh] (Hpe & Hpi & Hpl). pose proof (nonzero_cons p ps) as Hn. rewrite <- Hl in Hn.
  cbn [fmap list_fmap concat] in Hb. unfold enc_partition at 1, enc_partition_head in Hb. rewrite <- !app_assoc in Hb.
  unfold GetCurrentPartitionErrorCode, GetCurrentPartitionId, GetCurrentPartitionLeaderId.
  split_and!; (apply at_least_ok; [by rewrite Hs |]; apply some_left_ok; [done |]; wstep).
  - eapply x_read16; [by rewrite Z.add_0_r | done | done].
  - eapply x_id; [eapply (at_bytes_skip (WriteInt16ToHeader (wp_error p))); [done.. | by rewrite length_WriteInt16] | width_lia | lia | done].
  - eapply x_id; [eapply (at_bytes_skip (WriteInt16ToHeader (wp_error p) ++ WriteInt32ToHeader (wp_id p))); [done | by rewrite <- app_assoc | sizes; wire_lia] | width_lia | lia | done].
Qed.

(** *** Topics *)

Record at_topics (ts : list wire_topic) r : Prop := {
  at_state : State r = InTopicList;
  at_topic_bytes : at_bytes (Buf r) (CurrentTopicOffset r) (concat (enc_topic <$> ts));
  at_left : TopicsLeft r = Z.of_nat (length ts);
  at_name : match ts with [] => True | t :: _ => CurrentTopicNameLength r = Z.of_nat (length (wt_name t)) end;
  at_short : short r
}.

Lemma x_InitTopic ts r :
  State r = InTopicList → at_bytes (Buf r) (CurrentTopicOffset r) (concat (enc_topic <$> ts)) →
  TopicsLeft r = Z.of_nat (length ts) → short r → Forall wire_topic_ok ts →
  wpx InitTopic r (λ b r', at_topics ts r' ∧ b = bool_decide (ts ≠ [])).
Proof.
  intros Hs Hb Hl Hsh Hok. unfold InitTopic. wstep. wstep. rfields. rewrite Hl. destruct ts as [| t ts].
  { eapply wp_Ret; [reflexivity |]. by split. }
  apply Forall_cons in Hok as [(He & [Hn0 Hn] & _) _]. rewrite (proj2 (Z.eqb_neq _ _) (nonzero_cons t ts)).
  cbn [fmap list_fmap concat] in Hb. unfold enc_topic at 1, enc_topic_head, enc_str in Hb. rewrite <- !app_assoc in Hb.
  assert (0 < length (wt_name t))%nat by (destruct (wt_name t); [done | cbn [length]; lia]).
  apply wp_bind. eapply x_space; [done | sizes; wire_lia |]. apply wp_bind.
  eapply x_read16; [eapply (at_bytes_skip (WriteInt16ToHeader (wt_error t))); [exact Hb | done | by rewrite length_WriteInt16] | width_lia |].
  wstep. rewrite uwrap_id by width_lia.
  case_test; [lia |]. apply wp_bind. unfold RelPartitionCountOffset.
  rewrite (uadd_small REL_TOPIC_NAME_OFFSET), uadd_small by (sizes; width_lia).
  eapply x_space; [exact Hb | sizes; wire_lia |]. eapply wp_Ret; [reflexivity |]. split; [| done].
  split; rfields; try done. cbn [fmap list_fmap concat]. unfold enc_topic at 1, enc_topic_head, enc_str. by rewrite <- !app_assoc.
Qed.

(** In the partitions of the topic before [ts]. *)
Definition in_topic (ps : list wire_partition) (ts : list wire_topic) r : Prop :=
  at_partitions ps (concat (enc_topic <$> ts)) r ∧ TopicsLeft r = Z.of_nat (S (length ts)).

Lemma x_FirstPartition t ts r :
  at_topics (t :: ts) r → Forall wire_topic_ok (t :: ts) →
  wpx FirstPartitionInTopic r (λ b r', in_topic (wt_partitions t) ts r' ∧ b = bool_decide (wt_partitions t ≠ [])).
Proof.
  intros [Hs Hb Hl Hname Hsh] [(_ & [_ Hn] & _) _]%Forall_cons. pose proof (nonzero_cons t ts) as Hn0. rewrite <- Hl in Hn0.
  cbn [fmap list_fmap concat] in Hb. unfold enc_topic at 1 in Hb. rewrite <- !app_assoc in Hb.
  pose proof (at_bytes_end _ _ _ Hb) as [H0 He]. unfold short, BufSize in Hsh.
  pose proof (length_concat_ge enc_partition (wt_partitions t) ltac:(intros; wire_lia)) as Hcount.
  eapply (at_bytes_skip (enc_topic_head t)) in Hb as Hb1; [| done | done].
  eapply (at_bytes_skip (enc_count (wt_partitions t))) in Hb1 as Hb2; [| done | done].
  rewrite length_enc_topic_head in Hb1, Hb2. rewrite length_md_count in Hb2.
  assert (uadd (CurrentTopicOffset r) (RelPartitionCountOffset (CurrentTopicNameLength r)) =
    CurrentTopicOffset r + Z.of_nat (4 + length (wt_name t))) as Eo.
  { unfold RelPartitionCountOffset. rewrite Hname, (uadd_small REL_TOPIC_NAME_OFFSET), uadd_small; sizes; wire_lia. }
  unfold FirstPartitionInTopic, GetCurrentTopicPartitionCount.
  apply at_least_ok; [by rewrite Hs |]. apply some_left_ok; [done |]. apply wp_bind.
  apply at_least_ok; [by rewrite Hs |]. apply some_left_ok; [done |]. wstep. rewrite Eo.
  eapply x_id; [exact Hb1 | wire_lia | lia |]. wstep. rewrite Eo. rewrite uadd_small by (sizes; wire_lia).
  apply (cleared _ _ InPartitionList); [done |]. intros r' Hs' Hb' _ H2 H3 _ _.
  destruct H2 as (H2 & _); [done |]. destruct H3 as [H3 H4]; [done |]. rfields.
  assert (in_topic (wt_partitions t) ts r') as Hr.
  { split; [| by rewrite H2, Hl]. split; try done; [by rewrite Hb', H4 | congruence | unfold short, BufSize; by rewrite Hb']. }
  eapply wp_mono; [eapply x_InitPartition, Hr |]. intros b r2 [-> ->]. done.
Qed.

Lemma x_NextPartition_in p ps ts r :
  in_topic (p :: ps) ts r → wpx NextPartitionInTopic r (λ b r', in_topic ps ts r' ∧ b = bool_decide (ps ≠ [])).
Proof.
  intros [Hr Ht]. eapply wp_mono; [by eapply x_NextPartition |]. intros b r' (H1 & H2 & _ & ->). split; [| done]. split; [done | congruence].
Qed.

Lemma x_NextPartition_first t ts r :
  at_topics (t :: ts) r → Forall wire_topic_ok (t :: ts) →
  wpx NextPartitionInTopic r (λ b r', in_topic (wt_partitions t) ts r' ∧ b = bool_decide (wt_partitions t ≠ [])).
Proof.
  intros Hr Hok. unfold NextPartitionInTopic. pose proof (at_state _ _ Hr) as Hs.
  apply at_least_ok; [by rewrite Hs |]. apply some_left_ok; [rewrite (at_left _ _ Hr); apply nonzero_cons |]. wstep.
  rewrite decide_True by done. by apply x_FirstPartition.
Qed.

Lemma x_rest_of_partitions ps ts r :
  in_topic ps ts r →
  wpx (at_least InPartitionList;; skip PartitionsLeftInTopic NextPartitionInTopic) r (λ _ r', in_topic [] ts r').
Proof.
  intros Hr. apply at_least_ok; [by rewrite (ap_state _ _ _ (proj1 Hr)) |].
  apply (skip_list _ _ _ _ (λ ps r', in_topic ps ts r') ps); [| | done].
  - intros l r' [Hr' _]. apply Hr'.
  - intros p l r' Hr'. eapply wp_mono; [by eapply x_NextPartition_in |]. by intros b r2 [H _].
Qed.

Lemma x_SkipPartitions t ts r :
  at_topics (t :: ts) r → Forall wire_topic_ok (t :: ts) → wpx SkipRemainingPartitions r (λ _ r', in_topic [] ts r').
Proof.
  intros Hr Hok. unfold SkipRemainingPartitions. pose proof (at_state _ _ Hr) as Hs.
  apply at_least_ok; [by rewrite Hs |]. apply some_left_ok; [rewrite (at_left _ _ Hr); apply nonzero_cons |]. wstep.
  rewrite decide_True by done. apply wp_bind. eapply wp_mono; [by apply x_FirstPartition |]. cbv beta. intros b r1 [Hr1 ->].
  destruct (wt_partitions t) as [| p ps]; [by eapply wp_Ret |]. rewrite bool_decide_true by done. by eapply x_rest_of_partitions.
Qed.

Lemma x_SkipPartitions_again ps ts r : in_topic ps ts r → wpx SkipRemainingPartitions r (λ _ r', in_topic [] ts r').
Proof.
  intros Hr. unfold SkipRemainingPartitions. pose proof (ap_state _ _ _ (proj1 Hr)) as Hs.
  apply at_least_ok; [by rewrite Hs |]. apply some_left_ok; [apply (proj1 Hr) |]. wstep.
  rewrite decide_False by (by rewrite Hs). wstep. by eapply x_rest_of_partitions.
Qed.

(** The next topic, when the partitions of the current one are read or not. *)
Lemma x_NextTopic_skipped ts r Q :
  Forall wire_topic_ok ts → rank InTopicList ≤ rank (State r) → TopicsLeft r ≠ 0 →
  wpx SkipRemainingPartitions r (λ _ r', in_topic [] ts r') →
  (∀ r', at_topics ts r' → Q (bool_decide (ts ≠ [])) r') → wpx NextTopic r Q.
Proof.
  intros Hok Hrank Hn Hskip HQ. unfold NextTopic. wstep. rewrite (proj2 (Z.leb_gt _ _)) by (cbn in *; lia).
  apply at_least_ok; [done |]. apply some_left_ok; [done |]. apply wp_bind. eapply wp_mono; [exact Hskip |]. cbv beta.
  intros _ r1 [[Hs Hb Hl Ht Hsh] Hleft]. apply none_left_ok; [done |]. wstep.
  eapply wp_mono; [apply (x_InitTopic ts); rfields; try done; lia |]. intros b r2 [Hr2 ->]. by apply HQ.
Qed.

Lemma x_NextTopic t ts r :
  at_topics (t :: ts) r → Forall wire_topic_ok (t :: ts) →
  wpx NextTopic r (λ b r', at_topics ts r' ∧ b = bool_decide (ts ≠ [])).
Proof.
  intros Hr Hok. apply (x_NextTopic_skipped ts); [by apply Forall_cons in Hok as [_ ?] | | | by eapply x_SkipPartitions | done].
  - by rewrite (at_state _ _ Hr).
  - rewrite (at_left _ _ Hr). apply nonzero_cons.
Qed.

Lemma x_NextTopic_after ps ts r :
  in_topic ps ts r → Forall wire_topic_ok ts → wpx NextTopic r (λ b r', at_topics ts r' ∧ b = bool_decide (ts ≠ [])).
Proof.
  intros Hr Hok. apply (x_NextTopic_skipped ts); [done | | apply (proj1 Hr) | by eapply x_SkipPartitions_again | done].
  by rewrite (ap_state _ _ _ (proj1 Hr)).
Qed.

Lemma x_topic_fields t ts r :
  at_topics (t :: ts) r → wire_topic_ok t →
  wpx GetCurrentTopicErrorCode r (λ v r', v = wt_error t ∧ r' = r) ∧
  wpx GetCurrentTopicName r (λ v r', v = wt_name t ∧ r' = r).
Proof.
  intros [Hs Hb Hl Hname Hsh] (He & [_ Hn] & _). pose proof (nonzero_cons t ts) as Hn0. rewrite <- Hl in Hn0.
  cbn [fmap list_fmap concat] in Hb. unfold enc_topic at 1, enc_topic_head, enc_str in Hb. rewrite <- !app_assoc in Hb.
  unfold GetCurrentTopicErrorCode, GetCurrentTopicName.
  split; (apply at_least_ok; [by rewrite Hs |]; apply some_left_ok; [done |]; wstep).
  - eapply x_read16; [by rewrite Z.add_0_r | done | done].
  - eapply x_string; [| exact Hname | by rewrite Hname | done].
    eapply (at_bytes_skip (WriteInt16ToHeader (wt_error t) ++ WriteInt16ToHeader (Z.of_nat (length (wt_name t))))); [done | by rewrite <- app_assoc | sizes; wire_lia].
Qed.

(** *** Brokers *)

Record at_brokers (bs : list wire_broker) post r : Prop := {
  ab_state : State r = InBrokerList;
  ab_bytes : at_bytes (Buf r) (CurrentBrokerOffset r) (concat (enc_broker <$> bs) ++ post);
  ab_left : BrokersLeft r = Z.of_nat (length bs);
  ab_host : match bs with [] => True | b :: _ => CurrentBrokerHostLength r = Z.of_nat (length (wb_host b)) end;
  ab_short : short r
}.

Lemma x_InitBroker bs post r :
  State r = InBrokerList → at_bytes (Buf r) (CurrentBrokerOffset r) (concat (enc_broker <$> bs) ++ post) →
  BrokersLeft r = Z.of_nat (length bs) → short r → Forall wire_broker_ok bs →
  wpx InitBroker r (λ b r', at_brokers bs post r' ∧ b = bool_decide (bs ≠ [])).
Proof.
  intros Hs Hb Hl Hsh Hok. unfold InitBroker. wstep. wstep. rfields. rewrite Hl. destruct bs as [| x bs].
  { eapply wp_Ret; [reflexivity |]. by split. }
  apply Forall_cons in Hok as [(He & [Hn0 Hn] & _) _]. rewrite (proj2 (Z.eqb_neq _ _) (nonzero_cons x bs)).
  cbn [fmap list_fmap concat] in Hb. unfold enc_broker at 1, enc_str in Hb. rewrite <- !app_assoc in Hb.
  assert (0 < length (wb_host x))%nat by (destruct (wb_host x); [done | cbn [length]; lia]).
  apply wp_bind. eapply x_space; [done | sizes; wire_lia |]. apply wp_bind.
  eapply x_read16; [eapply (at_bytes_skip (WriteInt32ToHeader (wb_id x))); [exact Hb | done | by rewrite length_WriteInt32] | width_lia |].
  wstep. rewrite uwrap_id by width_lia. case_test; [lia |]. apply wp_bind. unfold BrokerSize, RelBrokerPortOffset.
  rewrite (uadd_small REL_BROKER_HOST_OFFSET), uadd_small by (sizes; width_lia).
  eapply x_space; [exact Hb | sizes; wire_lia |]. eapply wp_Ret; [reflexivity |]. split; [| done].
  split; rfields; try done. cbn [fmap list_fmap concat]. unfold enc_broker at 1, enc_str. by rewrite <- !app_assoc.
Qed.

Lemma x_NextBroker b bs post r :
  at_brokers (b :: bs) post r → Forall wire_broker_ok (b :: bs) →
  wpx NextBroker r (λ more r', at_brokers bs post r' ∧ more = bool_decide (bs ≠ [])).
Proof.
  intros [Hs Hb Hl Hh Hsh] [(_ & [_ Hn] & _) Hok]%Forall_cons. pose proof (nonzero_cons b bs) as Hn0. rewrite <- Hl in Hn0.
  pose proof (at_bytes_end _ _ _ Hb) as [H0 He]. unfold short, BufSize in Hsh.
  assert (BrokerSize (CurrentBrokerHostLength r) = Z.of_nat (length (enc_broker b))) as Ez.
  { unfold BrokerSize, RelBrokerPortOffset. rewrite Hh, length_enc_broker, (uadd_small REL_BROKER_HOST_OFFSET), uadd_small; sizes; width_lia. }
  cbn [fmap list_fmap concat] in Hb, He. rewrite <- app_assoc in Hb, He. rewrite length_app in He.
  unfold NextBroker. wstep. rewrite decide_False by (by rewrite Hs). apply reader_in_state; [done |]. apply some_left_ok; [done |]. wstep.
  rewrite Ez, uadd_small by width_lia.
  eapply wp_mono; [apply (x_InitBroker bs post); rfields; try done; [by apply at_bytes_next | rewrite Hl; cbn [length]; lia] |]. done.
Qed.

Lemma x_broker_fields b bs post r :
  at_brokers (b :: bs) post r → wire_broker_ok b →
  wpx GetCurrentBrokerHost r (λ v r', v = wb_host b ∧ r' = r) ∧
  wpx GetCurrentBrokerNodeId r (λ v r', v = wb_id b ∧ r' = r) ∧
  wpx GetCurrentBrokerPort r (λ v r', v = wb_port b ∧ r' = r).
Proof.
  intros [Hs Hb Hl Hh Hsh] (Hi & [_ Hn] & Hp). pose proof (nonzero_cons b bs) as Hn0. rewrite <- Hl in Hn0.
  cbn [fmap list_fmap concat] in Hb. unfold enc_broker at 1, enc_str in Hb. rewrite <- !app_assoc in Hb.
  pose proof (at_bytes_end _ _ _ Hb) as [H0 He]. unfold short, BufSize in Hsh.
  unfold GetCurrentBrokerHost, GetCurrentBrokerNodeId, GetCurrentBrokerPort.
  split_and!; (apply reader_in_state; [done |]; apply some_left_ok; [done |]; wstep).
  - eapply x_string; [| exact Hh | by rewrite Hh | done].
    eapply (at_bytes_skip (WriteInt32ToHeader (wb_id b) ++ WriteInt16ToHeader (Z.of_nat (length (wb_host b))))); [done | by rewrite <- app_assoc | sizes; wire_lia].
  - eapply x_id; [rewrite Z.add_0_r; exact Hb | width_lia | lia | done].
  - apply wp_bind. eapply (x_read32 (wb_port b)); [| width_lia |].
    + unfold RelBrokerPortOffset. rewrite Hh, (uadd_small REL_BROKER_HOST_OFFSET), uadd_small by (sizes; wire_lia).
      eapply (at_bytes_skip (WriteInt32ToHeader (wb_id b) ++ WriteInt16ToHeader (Z.of_nat (length (wb_host b))) ++ wb_host b)); [done | by rewrite <- !app_assoc | sizes; wire_lia].
    + rewrite (proj2 (Z.ltb_ge (wb_port b) 0)), (proj2 (Z.ltb_ge 65535 _)) by lia. by eapply wp_Ret.
Qed.

(** *** The start of a response *)

Definition at_start (w : wire_response) r : Prop := State r = Initial ∧ Buf r = enc_response w.

(** What follows the brokers. *)
Definition after_brokers (w : wire_response) : list byte := enc_count (wr_topics w) ++ concat (enc_topic <$> wr_topics w).

Lemma enc_response_split w :
  enc_response w = (WriteInt32ToHeader (Z.of_nat (length (enc_body w))) ++ WriteInt32ToHeader (wr_corr_id w)) ++
    enc_count (wr_brokers w) ++ concat (enc_broker <$> wr_brokers w) ++ after_brokers w.
Proof. unfold enc_response, enc_body at 2, after_brokers. by rewrite <- !app_assoc. Qed.

Lemma x_FirstBroker w r :
  at_start w r → wire_ok w →
  wpx FirstBroker r (λ b r', at_brokers (wr_brokers w) (after_brokers w) r' ∧ b = bool_decide (wr_brokers w ≠ [])).
Proof.
  intros [Hs Hb] [Hok _ Hsz]. unfold FirstBroker, GetBrokerCount.
  pose proof (length_concat_ge enc_broker (wr_brokers w) ltac:(intros; wire_lia)) as Hcount.
  assert (length (enc_body w) = (12 + length (concat (enc_broker <$> wr_brokers w)) + length (concat (enc_topic <$> wr_topics w)))%nat) as El.
  { unfold enc_body. wire_lia. }
  assert (BufSize r = 4 + Z.of_nat (length (enc_body w))) as Ez.
  { unfold BufSize. rewrite Hb. unfold enc_response. rewrite length_app, length_WriteInt32. lia. }
  assert (at_bytes (Buf r) 8 (enc_count (wr_brokers w) ++ concat (enc_broker <$> wr_brokers w) ++ after_brokers w)) as Hb8.
  { eexists. split; [rewrite Hb; apply enc_response_split | by wire_lia]. }
  wstep. rewrite (proj2 (Z.ltb_ge (BufSize r) MinSize)) by (rewrite Ez; sizes; lia). wstep. apply wp_bind.
  eapply x_id; [exact Hb8 | width_lia | lia |]. wstep. apply (cleared _ _ InBrokerList); [done |].
  intros r' Hs' Hb' H1 _ _ _ _. destruct H1 as [H1 H2]; [done |]. rfields.
  eapply wp_mono; [apply (x_InitBroker (wr_brokers w) (after_brokers w)); try done |]; [| unfold short, BufSize in *; rewrite Hb'; width_lia | done].
  rewrite Hb', H2. apply at_bytes_next in Hb8. rewrite length_md_count in Hb8. exact Hb8.
Qed.

Lemma x_rest_of_brokers bs post r :
  at_brokers bs post r → Forall wire_broker_ok bs →
  wpx (in_state InBrokerList;; skip BrokersLeft NextBroker) r (λ _ r', at_brokers [] post r').
Proof.
  intros Hr Hok. apply reader_in_state; [apply Hr |].
  eapply wp_mono; [apply (skip_list _ _ _ _ (λ bs r', at_brokers bs post r' ∧ Forall wire_broker_ok bs) bs); [| | done] | by intros _ r' [? _]].
  - intros l r' [Hr' _]. apply Hr'.
  - intros b l r' [Hr' Hok']. eapply wp_mono; [by eapply x_NextBroker |]. intros _ r2 [H _]. split; [done |]. by apply Forall_cons in Hok' as [_ ?].
Qed.

Lemma x_SkipBrokers w r :
  at_start w r → wire_ok w → wpx SkipRemainingBrokers r (λ _ r', at_brokers [] (after_brokers w) r').
Proof.
  intros Hr Hok. unfold SkipRemainingBrokers. destruct Hr as [Hs Hb] eqn:E. clear E. wstep. rewrite Hs. apply wp_massert; [done |].
  rewrite decide_True by done. apply wp_bind. eapply wp_mono; [by eapply x_FirstBroker |]. cbv beta. intros b r1 [Hr1 ->].
  pose proof (wo_brokers _ Hok) as Hbs. destruct (wr_brokers w) as [| x l]; [by eapply wp_Ret |].
  rewrite bool_decide_true by done. by eapply x_rest_of_brokers.
Qed.

Lemma x_SkipBrokers_again bs post r :
  at_brokers bs post r → Forall wire_broker_ok bs → wpx SkipRemainingBrokers r (λ _ r', at_brokers [] post r').
Proof.
  intros Hr Hok. unfold SkipRemainingBrokers. pose proof (ab_state _ _ _ Hr) as Hs. wstep. rewrite Hs. apply wp_massert; [done |].
  rewrite decide_False by done. wstep. by eapply x_rest_of_brokers.
Qed.

(** The first topic, from the start or when the brokers have been read. *)
Lemma x_FirstTopic w r :
  wire_ok w → at_start w r ∨ at_brokers [] (after_brokers w) r →
  wpx NextTopic r (λ b r', at_topics (wr_topics w) r' ∧ b = bool_decide (wr_topics w ≠ [])).
Proof.
  intros Hok Hr. unfold NextTopic, FirstTopic. wstep.
  assert (rank (State r) <=? rank InBrokerList = true) as E.
  { destruct Hr as [[-> _] | Hr]; [done |]. by rewrite (ab_state _ _ _ Hr). }
  rewrite E. wstep. rewrite E. apply wp_bind. eapply wp_mono.
  { destruct Hr as [Hr | Hr]; [by apply x_SkipBrokers | by eapply x_SkipBrokers_again]. }
  cbv beta. intros _ r1 [Hs1 Hb1 Hl1 _ Hsh1]. cbn [fmap list_fmap concat app] in Hb1. unfold after_brokers in Hb1.
  pose proof (length_concat_ge enc_topic (wr_topics w) ltac:(intros; wire_lia)) as Hcount.
  pose proof (at_bytes_end _ _ _ Hb1) as [H0 He]. unfold short, BufSize in Hsh1.
  apply at_least_ok; [by rewrite Hs1 |]. apply none_left_ok; [done |]. apply wp_bind. unfold GetTopicCount.
  apply at_least_ok; [by rewrite Hs1 |]. apply none_left_ok; [done |]. wstep. apply wp_bind. eapply x_space; [done | sizes; wire_lia |].
  rewrite Z.add_0_r. eapply x_id; [exact Hb1 | wire_lia | lia |]. wstep. apply (cleared _ _ InTopicList); [done |].
  intros r' Hs' Hb' _ H2 _ _ _. destruct H2 as (H2 & H3 & _); [done |]. rfields.
  eapply wp_mono; [apply (x_InitTopic (wr_topics w)); try done; [| by unfold short, BufSize; rewrite Hb' | apply Hok] | done].
  rewrite Hb', H3. eapply (at_bytes_skip (enc_count (wr_topics w))); [done.. | by rewrite length_md_count].
Qed.

End exact.
