(* ===== verification/MetadataWriter.v ===== *)
(** * The writer of metadata responses makes the bytes of the format

    [write_response] makes the calls of [MdWriter] (metadata_response_writer.cc) in the
    order that the writer demands, for the contents of a response.  No assertion fails, no
    write is out of bounds, and the vector has the bytes of [enc_response], whatever it had
    before. *)
From S2P Require Import Prelude FieldAccess Wire MetadataResponse MetadataReader MetadataFormat.

Section calls.
Import MdWriter.

Definition write_each {A} (f : A → MW ()) : list A → MW () :=
  fix go l := match l with [] => mret () | x :: l => f x;; go l end.

Definition write_partition (p : wire_partition) : MW () :=
  OpenPartition (wp_error p) (wp_id p) (wp_leader p);;
  OpenReplicaList;;
  write_each AddReplica (wp_replicas p);;
  CloseReplicaList;;
  OpenCaughtUpReplicaList;;
  write_each AddCaughtUpReplica (wp_caught_up p);;
  CloseCaughtUpReplicaList;;
  ClosePartition.

Definition write_topic (t : wire_topic) : MW () :=
  OpenTopic (wt_error t) (wt_name t);;
  OpenPartitionList;;
  write_each write_partition (wt_partitions t);;
  ClosePartitionList;;
  CloseTopic.

Definition write_response (r : wire_response) : MW () :=
  OpenResponse (wr_corr_id r);;
  OpenBrokerList;;
  write_each (λ b, AddBroker (wb_id b) (wb_host b) (wb_port b)) (wr_brokers r);;
  CloseBrokerList;;
  OpenTopicList;;
  write_each write_topic (wr_topics r);;
  CloseTopicList;;
  CloseResponse.
End calls.

(** ** Steps *)

Ltac wfields :=
  cbn [set_field MdWriter.Out MdWriter.State MdWriter.Result MdWriter.BrokerCount MdWriter.BrokerOffset MdWriter.TopicCountOffset
    MdWriter.TopicCount MdWriter.TopicOffset MdWriter.PartitionCountOffset MdWriter.PartitionCount MdWriter.PartitionOffset
    MdWriter.ReplicaCountOffset MdWriter.ReplicaCount MdWriter.CaughtUpReplicaCountOffset MdWriter.CaughtUpReplicaCount] in *.

Section writer.
Import MdWriter.

#[local] Hint Rewrite @length_replicate : wire_len.

Notation wpw m w Q := (wp m w Q (λ _ _, False) (λ _, False)).

Implicit Types (w : TMetadataResponseWriter) (out : list byte).

Lemma w_in_state {B} s w (f : () → MW B) Q : State w = s → wpw (f ()) w Q → wpw (in_state s ≫= f) w Q.
Proof. intros Hs Hf. unfold in_state. apply wp_bind. wstep. eapply wp_Ret; [| exact Hf]. by rewrite Hs, bool_decide_true. Qed.

Lemma w_Size {B} w (f : Z → MW B) Q : Result w = true → wpw (f (Z.of_nat (length (Out w)))) w Q → wpw (Size ≫= f) w Q.
Proof. intros Hr Hf. unfold Size. apply wp_bind. wstep. apply wp_massert; [done |]. by eapply wp_Ret. Qed.

Lemma w_Grow {B} n k w (f : () → MW B) Q :
  Result w = true → n = Z.of_nat k → wpw (f ()) (w <| Out := Out w ++ replicate k x00 |>) Q → wpw (GrowResult n ≫= f) w Q.
Proof.
  intros Hr -> Hf. unfold GrowResult. apply wp_bind. apply w_Size; [done |]. unfold resize. wstep. apply wp_massert; [done |].
  eapply wp_Ret; [reflexivity |]. rewrite vec_resize_grow by lia. replace (Z.to_nat _ - _)%nat with k by lia. exact Hf.
Qed.

(** Over bytes that are there. *)
Lemma w_write {B} i bytes a b c w (f : () → MW B) Q :
  Result w = true → Out w = a ++ b ++ c → i = Z.of_nat (length a) → length b = length bytes →
  wpw (f ()) (w <| Out := a ++ bytes ++ c |>) Q → wpw (write i bytes ≫= f) w Q.
Proof.
  intros Hr Ho -> Hl Hf. unfold write. apply wp_bind. wstep. apply wp_massert; [done |]. rewrite (proj2 (Z.ltb_ge _ _)) by lia.
  rewrite Nat2Z.id, Ho, vec_write_at by done. wstep. eapply wp_Ret; [reflexivity | exact Hf].
Qed.

(** Over the first of the zeros at the end. *)
Lemma w_fill {B} i bytes a n w (f : () → MW B) Q :
  Result w = true → Out w = a ++ replicate n x00 → i = Z.of_nat (length a) → (length bytes ≤ n)%nat →
  wpw (f ()) (w <| Out := (a ++ bytes) ++ replicate (n - length bytes) x00 |>) Q → wpw (write i bytes ≫= f) w Q.
Proof.
  intros Hr Ho Hi Hl Hf. eapply (w_write _ _ a (replicate (length bytes) x00) (replicate (n - length bytes) x00)); [done | | done | |].
  - rewrite Ho. f_equal. rewrite <- replicate_add. f_equal. lia.
  - apply length_replicate.
  - rewrite app_assoc. exact Hf.
Qed.

Lemma w_count {B} n w (f : Z → MW B) Q : in_s 32 n → wpw (f n) w Q → wpw (int32_arith n ≫= f) w Q.
Proof. intros Hn Hf. eapply wp_bind_Ret; [| exact Hf]. unfold int32_arith. by rewrite decide_True. Qed.

Lemma wp_exact {A} (m : MW A) w a w' : wpw m w (λ a1 w1, a1 = a ∧ w1 = w') → m w = (Ret a, w').
Proof. unfold wp. by destruct (m w) as [[] ?]; intros [-> ->] || intros []. Qed.

(** The last call of a run. *)
Lemma w_last {A} (m : MW A) w Q : wpw (m ≫= mret) w Q → wpw m w Q.
Proof. unfold wp, mbind, M_bind. by destruct (m w) as [[] ?]. Qed.

Lemma w_assoc {A B C} (m : MW A) (f : A → MW B) (g : B → MW C) w Q :
  wpw ((m ≫= f) ≫= g) w Q → wpw (m ≫= λ a, f a ≫= g) w Q.
Proof. unfold wp, mbind, M_bind. by destruct (m w) as [[] ?]. Qed.

Lemma succ_count n k : n + 1 + Z.of_nat k = n + Z.of_nat (S k).
Proof. lia. Qed.

(** *** The lists of IDs of a partition *)

Lemma w_AddReplica v w :
  State w = InReplicaList → Result w = true → in_s 32 (ReplicaCount w + 1) →
  wpw (AddReplica v) w (λ _ w', w' = w <| Out := Out w ++ WriteInt32ToHeader v |> <| ReplicaCount := ReplicaCount w + 1 |>).
Proof.
  intros Hs Hr Hn. destruct w. wfields. subst. unfold AddReplica. apply w_in_state; [done |]. apply w_Size; [done |]. wfields.
  apply (w_Grow _ 4); [done.. |]. wfields. eapply w_fill; [done | reflexivity | done | solve_len |]. wfields. wstep. apply w_count; [done |].
  eapply wp_Ret; [reflexivity |]. wfields. rewrite length_WriteInt32. cbn [Nat.sub replicate]. by rewrite app_nil_r.
Qed.

Lemma w_AddReplicas l w :
  State w = InReplicaList → Result w = true → 0 ≤ ReplicaCount w → ReplicaCount w + Z.of_nat (length l) ≤ INT32_MAX →
  wpw (write_each AddReplica l) w
    (λ _ w', w' = w <| Out := Out w ++ enc_ids l |> <| ReplicaCount := ReplicaCount w + Z.of_nat (length l) |>).
Proof.
  revert w. induction l as [| v l IH]; intros w Hs Hr H0 Hn; cbn [write_each length] in *.
  - eapply wp_Ret; [reflexivity |]. destruct w. wfields. by rewrite app_nil_r, Z.add_0_r.
  - apply wp_bind. eapply wp_mono; [apply w_AddReplica; [done.. | width_lia] |]. cbv beta. intros _ w1 ->.
    eapply wp_mono; [apply IH; destruct w; wfields; subst; [done.. | lia | lia] |]. cbv beta. intros _ w2 ->. destruct w. wfields.
    unfold enc_ids. cbn [fmap list_fmap concat]. rewrite <- app_assoc. by rewrite succ_count.
Qed.

Lemma w_AddCaughtUpReplica v w :
  State w = InCaughtUpReplicaList → Result w = true → in_s 32 (CaughtUpReplicaCount w + 1) →
  wpw (AddCaughtUpReplica v) w
    (λ _ w', w' = w <| Out := Out w ++ WriteInt32ToHeader v |> <| CaughtUpReplicaCount := CaughtUpReplicaCount w + 1 |>).
Proof.
  intros Hs Hr Hn. destruct w. wfields. subst. unfold AddCaughtUpReplica. apply w_in_state; [done |]. apply w_Size; [done |]. wfields.
  apply (w_Grow _ 4); [done.. |]. wfields. eapply w_fill; [done | reflexivity | done | solve_len |]. wfields. wstep. apply w_count; [done |].
  eapply wp_Ret; [reflexivity |]. wfields. rewrite length_WriteInt32. cbn [Nat.sub replicate]. by rewrite app_nil_r.
Qed.

Lemma w_AddCaughtUpReplicas l w :
  State w = InCaughtUpReplicaList → Result w = true → 0 ≤ CaughtUpReplicaCount w →
  CaughtUpReplicaCount w + Z.of_nat (length l) ≤ INT32_MAX →
  wpw (write_each AddCaughtUpReplica l) w
    (λ _ w', w' = w <| Out := Out w ++ enc_ids l |> <| CaughtUpReplicaCount := CaughtUpReplicaCount w + Z.of_nat (length l) |>).
Proof.
  revert w. induction l as [| v l IH]; intros w Hs Hr H0 Hn; cbn [write_each length] in *.
  - eapply wp_Ret; [reflexivity |]. destruct w. wfields. by rewrite app_nil_r, Z.add_0_r.
  - apply wp_bind. eapply wp_mono; [apply w_AddCaughtUpReplica; [done.. | width_lia] |]. cbv beta. intros _ w1 ->.
    eapply wp_mono; [apply IH; destruct w; wfields; subst; [done.. | lia | lia] |]. cbv beta. intros _ w2 ->. destruct w. wfields.
    unfold enc_ids. cbn [fmap list_fmap concat]. rewrite <- app_assoc. by rewrite succ_count.
Qed.

(** *** Partitions *)

Definition fits (l : list byte) : Prop := Z.of_nat (length l) ≤ INT32_MAX.

Lemma swrap_len l z : fits l → z = Z.of_nat (length l) → swrap 32 z = Z.of_nat (length l).
Proof. intros H ->. unfold fits in H. apply swrap_small; width_lia. Qed.

(** In the list of the partitions of a topic, of which [n] have been written; [tco], [tc] and
    [pco] are the fields that the end of the topic needs. *)
Record in_partition_list (out : list byte) (n tco tc pco : Z) (w : TMetadataResponseWriter) : Prop := {
  ipl_state : State w = InPartitionList;
  ipl_result : Result w = true;
  ipl_out : Out w = out;
  ipl_offset : PartitionOffset w = Z.of_nat (length out);
  ipl_count : PartitionCount w = n;
  ipl_tco : TopicCountOffset w = tco;
  ipl_tc : TopicCount w = tc;
  ipl_pco : PartitionCountOffset w = pco
}.

(** In a partition whose bytes are [out] so far. *)
Record in_partition (out : list byte) (rco n tco tc pco : Z) (w : TMetadataResponseWriter) : Prop := {
  ip_state : State w = InPartition;
  ip_result : Result w = true;
  ip_out : Out w = out;
  ip_rco : ReplicaCountOffset w = rco;
  ip_count : PartitionCount w = n;
  ip_tco : TopicCountOffset w = tco;
  ip_tc : TopicCount w = tc;
  ip_pco : PartitionCountOffset w = pco
}.

(** A field that is written at its offset in an item. *)
Ltac fill := eapply w_fill; [done | reflexivity | sizes; wire_lia | wire_lia |]; wfields.

Lemma w_OpenPartition p out n tco tc pco w :
  in_partition_list out n tco tc pco w → fits (out ++ enc_partition_head p) →
  wpw (OpenPartition (wp_error p) (wp_id p) (wp_leader p)) w (λ _ w',
    in_partition ((out ++ enc_partition_head p) ++ replicate 4 x00) (Z.of_nat (length (out ++ enc_partition_head p))) n tco tc pco w').
Proof.
  intros [Hs Hr Ho Hoff Hn H1 H2 H3] Hf. destruct w. wfields. subst. unfold OpenPartition. apply w_in_state; [done |]. wstep. wstep. wfields.
  apply (w_Grow _ 14); [done.. |]. wfields. wstep. wfields. fill. fill. apply w_last. fill. eapply wp_Ret; [reflexivity |].
  split; wfields; try done.
  - unfold enc_partition_head. rewrite !app_assoc, !length_WriteInt16, !length_WriteInt32. done.
  - apply swrap_len; [done |]. sizes. wire_lia.
Qed.

(** The list of replicas: the count is the field after the head. *)
Lemma w_replicas l pre n tco tc pco w (k : MW ()) Q :
  in_partition (pre ++ replicate 4 x00) (Z.of_nat (length pre)) n tco tc pco w → fits (pre ++ enc_count l ++ enc_ids l) →
  (∀ w', let out := pre ++ enc_count l ++ enc_ids l in
    in_partition (out ++ replicate 4 x00) (Z.of_nat (length pre)) n tco tc pco w' → CaughtUpReplicaCountOffset w' = Z.of_nat (length out) →
    wpw k w' Q) →
  wpw (OpenReplicaList;; write_each AddReplica l;; CloseReplicaList;; k) w Q.
Proof.
  intros [Hs Hr Ho Hoff Hn H1 H2 H3] Hf HQ. destruct w. wfields. subst.
  apply wp_bind. unfold OpenReplicaList. apply w_in_state; [done |]. wstep. eapply wp_Ret; [reflexivity |]. wfields.
  apply wp_bind. eapply wp_mono; [apply w_AddReplicas; wfields; [done.. | unfold fits in Hf; wire_lia] |]. cbv beta. intros _ w1 ->. wfields.
  apply wp_bind. unfold CloseReplicaList. apply w_in_state; [done |]. wstep. wfields. apply w_Size; [done |]. wstep. wfields. wstep. wfields.
  eapply (w_write _ _ pre (replicate 4 x00) (enc_ids l)); [done | wfields; by rewrite <- app_assoc | done | solve_len |]. wfields.
  apply w_last. apply (w_Grow _ 4); [done.. |]. wfields. eapply wp_Ret; [reflexivity |].
  apply HQ; [split; wfields; try done; by rewrite <- !app_assoc |]. wfields. apply swrap_len; [done |]. wire_lia.
Qed.

(** The list of the replicas that are caught up, which ends the partition. *)
Lemma w_caught_up l pre rco n tco tc pco w :
  in_partition (pre ++ replicate 4 x00) rco n tco tc pco w → CaughtUpReplicaCountOffset w = Z.of_nat (length pre) →
  fits (pre ++ enc_count l ++ enc_ids l) → in_s 32 (n + 1) →
  wpw (OpenCaughtUpReplicaList;; write_each AddCaughtUpReplica l;; CloseCaughtUpReplicaList;; ClosePartition) w
    (λ _ w', in_partition_list (pre ++ enc_count l ++ enc_ids l) (n + 1) tco tc pco w').
Proof.
  intros [Hs Hr Ho Hoff Hn H1 H2 H3] Hc Hf Hn1. destruct w. wfields. subst.
  apply wp_bind. unfold OpenCaughtUpReplicaList. apply w_in_state; [done |]. wstep. eapply wp_Ret; [reflexivity |]. wfields.
  apply wp_bind. eapply wp_mono; [apply w_AddCaughtUpReplicas; wfields; [done.. | unfold fits in Hf; wire_lia] |]. cbv beta. intros _ w1 ->. wfields.
  apply wp_bind. unfold CloseCaughtUpReplicaList. apply w_in_state; [done |]. wstep. wstep. wfields.
  apply w_last. eapply (w_write _ _ pre (replicate 4 x00) (enc_ids l)); [done | wfields; by rewrite <- app_assoc | done | solve_len |]. wfields.
  eapply wp_Ret; [reflexivity |]. unfold ClosePartition. apply w_in_state; [done |]. wstep. wstep. wfields. apply w_count; [done |]. apply w_Size; [done |].
  eapply wp_Ret; [reflexivity |]. split; wfields; try done. by apply swrap_len.
Qed.

Lemma w_partition p out n tco tc pco w :
  in_partition_list out n tco tc pco w → fits (out ++ enc_partition p) → in_s 32 (n + 1) →
  wpw (write_partition p) w (λ _ w', in_partition_list (out ++ enc_partition p) (n + 1) tco tc pco w').
Proof.
  intros Hw Hf Hn. unfold write_partition. unfold fits in *. apply wp_bind.
  eapply wp_mono; [apply w_OpenPartition; [done | unfold fits; wire_lia] |]. cbv beta. intros _ w1 H1.
  eapply w_replicas; [done | unfold fits; wire_lia |]. intros w2 out2 H2 H3. subst out2.
  eapply wp_mono; [eapply (w_caught_up (wp_caught_up p)); [exact H2 | done | unfold fits; wire_lia | done] |]. cbv beta. intros _ w3 H4.
  unfold enc_partition. by rewrite <- !app_assoc in H4.
Qed.

Lemma w_partitions l out n tco tc pco w :
  in_partition_list out n tco tc pco w → fits (out ++ concat (enc_partition <$> l)) → 0 ≤ n → n + Z.of_nat (length l) ≤ INT32_MAX →
  wpw (write_each write_partition l) w
    (λ _ w', in_partition_list (out ++ concat (enc_partition <$> l)) (n + Z.of_nat (length l)) tco tc pco w').
Proof.
  revert out n w. induction l as [| p l IH]; intros out n w Hw Hf H0 Hn; cbn [write_each length fmap list_fmap concat] in *.
  - eapply wp_Ret; [reflexivity |]. by rewrite app_nil_r, Z.add_0_r.
  - rewrite app_assoc in *. apply wp_bind.
    eapply wp_mono; [apply w_partition; [done | unfold fits in *; wire_lia | width_lia] |]. cbv beta. intros _ w1 H1.
    eapply wp_mono; [apply IH; [done | done | lia | lia] |]. cbv beta. intros _ w2 H2. by rewrite <- succ_count.
Qed.

(** *** Topics *)

Record in_topic_list (out : list byte) (n tco : Z) (w : TMetadataResponseWriter) : Prop := {
  itl_state : State w = InTopicList;
  itl_result : Result w = true;
  itl_out : Out w = out;
  itl_offset : TopicOffset w = Z.of_nat (length out);
  itl_count : TopicCount w = n;
  itl_tco : TopicCountOffset w = tco
}.

Lemma w_SetStr {B} i s a n w (f : () → MW B) Q :
  name_ok s → Result w = true → Out w = a ++ replicate n x00 → i = Z.of_nat (length a) → (2 + length s ≤ n)%nat →
  wpw (f ()) (w <| Out := (a ++ enc_str s) ++ replicate (n - (2 + length s)) x00 |>) Q → wpw (SetStr i s ≫= f) w Q.
Proof.
  intros [Hne Hs] Hr Ho Hi Hl Hf. unfold SetStr. rewrite decide_False by done. apply wp_bind. apply wp_massert; [lia |].
  eapply w_fill; [done | done | done | wire_lia |]. apply w_last. eapply w_fill; [done | reflexivity | sizes; wire_lia | wire_lia |].
  eapply wp_Ret; [reflexivity |]. destruct w. wfields. unfold enc_str in Hf. rewrite app_assoc in Hf.
  rewrite length_WriteInt16. by replace (n - 2 - length s)%nat with (n - (2 + length s))%nat by lia.
Qed.

Lemma w_OpenTopic t out n tco w :
  in_topic_list out n tco w → name_ok (wt_name t) → fits (out ++ enc_topic_head t ++ replicate 4 x00) →
  wpw (OpenTopic (wt_error t) (wt_name t);; OpenPartitionList) w (λ _ w',
    in_partition_list ((out ++ enc_topic_head t) ++ replicate 4 x00) 0 tco n (Z.of_nat (length (out ++ enc_topic_head t))) w').
Proof.
  intros [Hs Hr Ho Hoff Hn H1] Hname Hf. destruct w. wfields. subst. apply wp_bind. unfold OpenTopic.
  apply w_in_state; [done |]. apply wp_massert; [by apply bool_decide_true, Hname |]. wstep. wstep. wfields.
  apply (w_Grow _ (8 + length (wt_name t))); [done | sizes; lia |]. wfields. fill.
  eapply w_SetStr; [done | done | reflexivity | sizes; wire_lia | wire_lia |]. wfields. wstep. wfields. apply w_Size; [done |]. wfields.
  rewrite (swrap_len (out ++ enc_topic_head t)) by (unfold fits in *; sizes; wire_lia).
  apply w_last. apply wp_massert.
  { unfold fits in Hf. rewrite uadd_small by (sizes; wire_lia). apply Z.eqb_eq. sizes. wire_lia. }
  eapply wp_Ret; [reflexivity |]. unfold OpenPartitionList. apply w_in_state; [done |]. wstep. apply w_Size; [done |]. wfields.
  assert (((out ++ WriteInt16ToHeader (wt_error t)) ++ enc_str (wt_name t)) ++
    replicate (8 + length (wt_name t) - length (WriteInt16ToHeader (wt_error t)) - (2 + length (wt_name t))) x00 =
    (out ++ enc_topic_head t) ++ replicate 4 x00) as ->.
  { unfold enc_topic_head. rewrite app_assoc, length_WriteInt16. do 2 f_equal. lia. }
  eapply wp_Ret; [reflexivity |]. split; wfields; try done. apply swrap_len; [| done]. by rewrite <- app_assoc.
Qed.

Lemma w_topic t out n tco w :
  in_topic_list out n tco w → name_ok (wt_name t) → fits (out ++ enc_topic t) → in_s 32 (n + 1) →
  wpw (write_topic t) w (λ _ w', in_topic_list (out ++ enc_topic t) (n + 1) tco w').
Proof.
  intros Hw Hname Hf Hn. unfold write_topic. set (ps := wt_partitions t). set (head := out ++ enc_topic_head t).
  pose proof (length_concat_ge enc_partition ps ltac:(intros; wire_lia)) as Hcount.
  assert (fits ((head ++ replicate 4 x00) ++ concat (enc_partition <$> ps))) as Hf1 by (subst head ps; unfold fits in *; wire_lia).
  apply w_assoc, wp_bind. eapply wp_mono; [apply w_OpenTopic; [done | done | unfold fits in *; wire_lia] |]. cbv beta. intros _ w1 H1.
  apply wp_bind. eapply wp_mono; [apply (w_partitions ps); [done | done | done | unfold fits in *; wire_lia] |]. cbv beta.
  intros _ [] [H2 H3 H4 H5 H6 H7 H8 H9]. wfields. subst. unfold ClosePartitionList. apply wp_bind. apply w_in_state; [done |]. wstep. wstep. wfields.
  apply w_last. eapply (w_write _ _ head (replicate 4 x00) (concat (enc_partition <$> ps))); [done | wfields; by rewrite <- app_assoc | done | solve_len |].
  wfields. eapply wp_Ret; [reflexivity |]. unfold CloseTopic. apply w_in_state; [done |]. wstep. wstep. wfields. apply w_count; [done |].
  apply w_Size; [done |]. wfields. eapply wp_Ret; [reflexivity |].
  assert (out ++ enc_topic t = head ++ enc_count ps ++ concat (enc_partition <$> ps)) as E by (subst head; unfold enc_topic; by rewrite <- !app_assoc).
  split; wfields; try done. rewrite E in *. by apply swrap_len.
Qed.

Lemma w_topics l out n tco w :
  in_topic_list out n tco w → Forall wire_topic_ok l → fits (out ++ concat (enc_topic <$> l)) → 0 ≤ n → n + Z.of_nat (length l) ≤ INT32_MAX →
  wpw (write_each write_topic l) w (λ _ w', in_topic_list (out ++ concat (enc_topic <$> l)) (n + Z.of_nat (length l)) tco w').
Proof.
  revert out n w. induction l as [| t l IH]; intros out n w Hw Hok Hf H0 Hn; cbn [write_each length fmap list_fmap concat] in *.
  - eapply wp_Ret; [reflexivity |]. by rewrite app_nil_r, Z.add_0_r.
  - rewrite app_assoc in *. apply Forall_cons in Hok as [(_ & Hname & _) Hok]. apply wp_bind.
    eapply wp_mono; [apply w_topic; [done | done | unfold fits in *; wire_lia | width_lia] |]. cbv beta. intros _ w1 H1.
    eapply wp_mono; [apply IH; [done | done | done | lia | lia] |]. cbv beta. intros _ w2 H2. by rewrite <- succ_count.
Qed.

(** *** Brokers *)

Record in_broker_list (out : list byte) (n : Z) (w : TMetadataResponseWriter) : Prop := {
  ibl_state : State w = InBrokerList;
  ibl_result : Result w = true;
  ibl_out : Out w = out;
  ibl_offset : BrokerOffset w = Z.of_nat (length out);
  ibl_count : BrokerCount w = n
}.

Lemma w_broker b out n w :
  in_broker_list out n w → name_ok (wb_host b) → fits (out ++ enc_broker b) → in_s 32 (n + 1) →
  wpw (AddBroker (wb_id b) (wb_host b) (wb_port b)) w (λ _ w', in_broker_list (out ++ enc_broker b) (n + 1) w').
Proof.
  intros [Hs Hr Ho Hoff Hn] Hname Hf H1. destruct w. wfields. subst. unfold AddBroker.
  apply wp_massert; [by apply bool_decide_true, Hname |]. apply w_in_state; [done |]. wstep. wfields.
  assert (BrokerListItemSize (Z.of_nat (length (wb_host b))) = Z.of_nat (10 + length (wb_host b))) as ->.
  { destruct Hname. unfold BrokerListItemSize. rewrite uadd_small by (sizes; width_lia). sizes. lia. }
  assert (RelBrokerPortOffset (Z.of_nat (length (wb_host b))) = Z.of_nat (6 + length (wb_host b))) as ->.
  { destruct Hname. unfold RelBrokerPortOffset. rewrite uadd_small by (sizes; width_lia). sizes. lia. }
  apply (w_Grow _ (10 + length (wb_host b))); [done.. |]. wfields. fill.
  eapply w_SetStr; [done | done | reflexivity | sizes; wire_lia | wire_lia |]. wfields. fill. apply w_count; [done |]. wstep. wfields.
  apply w_Size; [done |]. wstep. wfields.
  assert (∀ k, k = 0%nat → (((out ++ WriteInt32ToHeader (wb_id b)) ++ enc_str (wb_host b)) ++ WriteInt32ToHeader (wb_port b)) ++ replicate k x00 =
    out ++ enc_broker b) as E by (intros k ->; unfold enc_broker; by rewrite app_nil_r, !app_assoc).
  rewrite E by wire_lia. rewrite (swrap_len (out ++ enc_broker b)) by (done || wire_lia).
  apply w_last. apply wp_massert; [| by eapply wp_Ret].
  unfold fits in Hf. rewrite uwrap_id by width_lia. by apply Z.eqb_eq.
Qed.

Lemma w_brokers l out n w :
  in_broker_list out n w → Forall wire_broker_ok l → fits (out ++ concat (enc_broker <$> l)) → 0 ≤ n → n + Z.of_nat (length l) ≤ INT32_MAX →
  wpw (write_each (λ b, AddBroker (wb_id b) (wb_host b) (wb_port b)) l) w
    (λ _ w', in_broker_list (out ++ concat (enc_broker <$> l)) (n + Z.of_nat (length l)) w').
Proof.
  revert out n w. induction l as [| b l IH]; intros out n w Hw Hok Hf H0 Hn; cbn [write_each length fmap list_fmap concat] in *.
  - eapply wp_Ret; [reflexivity |]. by rewrite app_nil_r, Z.add_0_r.
  - rewrite app_assoc in *. apply Forall_cons in Hok as [(_ & Hname & _) Hok]. apply wp_bind.
    eapply wp_mono; [apply w_broker; [done | done | unfold fits in *; wire_lia | width_lia] |]. cbv beta. intros _ w1 H1.
    eapply wp_mono; [apply IH; [done | done | done | lia | lia] |]. cbv beta. intros _ w2 H2. by rewrite <- succ_count.
Qed.

(** ** The response *)

(** [size] and [count] are what the fields of the size and of the broker count have at first. *)
Lemma w_OpenResponse id out :
  wpw (OpenResponse id;; OpenBrokerList) (TMetadataResponseWriter_new out) (λ _ w',
    ∃ size count, length size = 4%nat ∧ length count = 4%nat ∧ in_broker_list (size ++ WriteInt32ToHeader id ++ count) 0 w').
Proof.
  apply wp_bind. unfold OpenResponse. apply w_in_state; [done |]. wstep. apply wp_massert; [done |]. wstep. wstep. wstep. wfields.
  wstep. wfields. set (v := vec_resize _ _). assert (length v = 12%nat) as Hv by apply vec_resize_length.
  set (size := take 4 v). set (count := drop 8 v).
  assert (length size = 4%nat ∧ length count = 4%nat) as [Hsize Hcount] by (subst size count; rewrite length_take, length_drop; lia).
  assert (v = size ++ take 4 (drop 4 v) ++ count) as E.
  { subst size count. rewrite <- (take_drop 4 v) at 1. f_equal. rewrite <- (take_drop 4 (drop 4 v)) at 1. by rewrite drop_drop. }
  apply w_last. eapply (w_write _ _ size (take 4 (drop 4 v)) count); [done | exact E | sizes; by rewrite Hsize | |].
  { rewrite length_take, length_drop. solve_len. }
  wfields. eapply wp_Ret; [reflexivity |]. unfold OpenBrokerList. apply w_in_state; [done |]. wstep. wstep. wfields. apply w_Size; [done |]. wstep. wfields.
  assert (length (size ++ WriteInt32ToHeader id ++ count) = 12%nat) as Hl by wire_lia.
  apply w_last. rewrite Hl. apply wp_massert; [done |]. eapply wp_Ret; [reflexivity |]. exists size, count. split_and!; try done.
  split; wfields; try done. by rewrite Hl.
Qed.

(** From the list of brokers to the list of topics: the count of brokers is written. *)
Lemma w_end_of_brokers pre count bs n w :
  length pre = 8%nat → length count = 4%nat → in_broker_list (pre ++ count ++ bs) n w → fits (pre ++ WriteInt32ToHeader n ++ bs ++ replicate 4 x00) →
  wpw (CloseBrokerList;; OpenTopicList) w (λ _ w', in_topic_list (pre ++ WriteInt32ToHeader n ++ bs ++ replicate 4 x00) 0
    (Z.of_nat (length (pre ++ WriteInt32ToHeader n ++ bs))) w').
Proof.
  intros Hp Hc [Hs Hr Ho Hoff Hn] Hf. destruct w. wfields. subst. apply wp_bind. unfold CloseBrokerList. apply w_in_state; [done |]. wstep. wstep. wfields.
  apply w_last. eapply (w_write _ _ pre count bs); [done | done | sizes; by rewrite Hp | by rewrite Hc, length_WriteInt32 |]. wfields.
  eapply wp_Ret; [reflexivity |]. unfold OpenTopicList. apply w_in_state; [done |]. wstep. apply (w_Grow _ 4); [done.. |]. wfields.
  apply w_Size; [done |]. wfields. wstep. wfields. wstep. wfields. rewrite <- !app_assoc.
  assert (Z.of_nat (length (pre ++ count ++ bs)) = Z.of_nat (length (pre ++ WriteInt32ToHeader n ++ bs))) as E by wire_lia. rewrite E.
  rewrite !(swrap_len (pre ++ WriteInt32ToHeader n ++ bs ++ replicate 4 x00)) by (done || sizes; wire_lia).
  apply w_last. apply wp_massert; [by apply Z.eqb_eq |]. by eapply wp_Ret.
Qed.

(** The end: the count of topics and the size are written. *)
Lemma w_end_of_response size mid ts n w :
  length size = 4%nat → fits (size ++ mid ++ replicate 4 x00 ++ ts) →
  in_topic_list (size ++ mid ++ replicate 4 x00 ++ ts) n (Z.of_nat (length (size ++ mid))) w →
  wpw (CloseTopicList;; CloseResponse) w (λ _ w', let body := mid ++ WriteInt32ToHeader n ++ ts in
    w' = TMetadataResponseWriter_new (WriteInt32ToHeader (Z.of_nat (length body)) ++ body)).
Proof.
  intros Hsz Hf [Hs Hr Ho Hoff Hn Ht]. destruct w. wfields. subst. apply wp_bind. unfold CloseTopicList. apply w_in_state; [done |]. wstep. wstep. wfields.
  apply w_last. eapply (w_write _ _ (size ++ mid) (replicate 4 x00) ts); [done | by rewrite <- app_assoc | done | solve_len |]. wfields.
  eapply wp_Ret; [reflexivity |]. unfold CloseResponse. apply w_in_state; [done |]. wstep. apply w_Size; [done |]. wfields. rewrite <- app_assoc.
  set (body := mid ++ WriteInt32ToHeader n ++ ts).
  assert (swrap 32 (Z.of_nat (length (size ++ body)) - REQUEST_OR_RESPONSE_SIZE_SIZE) = Z.of_nat (length body)) as ->.
  { unfold fits in Hf. apply swrap_len; [unfold fits; subst body; wire_lia |]. rewrite length_app. sizes. lia. }
  apply wp_massert; [apply Z.leb_le; rewrite length_app; sizes; lia |].
  eapply (w_write _ _ [] size body); [done | done | done | by rewrite Hsz, length_WriteInt32 |]. wstep. by eapply wp_Ret.
Qed.

(** The calls for the contents of a response make its bytes, and the writer is as new. *)
Lemma write_metadata_ok r out :
  wire_ok r → fits (enc_response r) →
  write_response r (TMetadataResponseWriter_new out) = (Ret (), TMetadataResponseWriter_new (enc_response r)).
Proof.
  intros Hok Hf. destruct (Hok) as [Hbs Hts Hsize]. set (bs := wr_brokers r) in *. set (ts := wr_topics r) in *.
  pose proof (length_concat_ge enc_broker bs ltac:(intros; wire_lia)) as Hcb.
  pose proof (length_concat_ge enc_topic ts ltac:(intros; wire_lia)) as Hct.
  assert (Z.of_nat (length (concat (enc_broker <$> bs))) + Z.of_nat (length (concat (enc_topic <$> ts))) + 16 ≤ INT32_MAX) as Hall.
  { unfold fits, enc_response, enc_body in Hf. fold bs ts in Hf. wire_lia. }
  apply wp_exact. unfold write_response. fold bs ts. apply w_assoc, wp_bind. eapply wp_mono; [apply w_OpenResponse |]. cbv beta.
  intros _ w1 (size & count & Hs4 & Hc4 & H1). apply wp_bind.
  eapply wp_mono; [apply (w_brokers bs); [exact H1 | done | unfold fits; wire_lia | done | wire_lia] |]. cbv beta. intros _ w2 H2.
  rewrite <- !app_assoc in H2. rewrite app_assoc in H2. apply w_assoc, wp_bind.
  eapply wp_mono; [eapply (w_end_of_brokers (size ++ WriteInt32ToHeader (wr_corr_id r)) count (concat (enc_broker <$> bs)));
    [wire_lia | done | exact H2 | unfold fits; wire_lia] |]. cbv beta. intros _ w3 H3. apply wp_bind.
  eapply wp_mono; [apply (w_topics ts); [exact H3 | done | unfold fits; wire_lia | done | wire_lia] |]. cbv beta. intros _ w4 H4.
  set (mid := WriteInt32ToHeader (wr_corr_id r) ++ enc_count bs ++ concat (enc_broker <$> bs)).
  eapply wp_mono; [apply (w_end_of_response size mid (concat (enc_topic <$> ts)) (0 + Z.of_nat (length ts))); [done | unfold fits; subst mid; wire_lia |] |].
  - rewrite !Z.add_0_l in *. subst mid. unfold enc_count. by rewrite <- !app_assoc in *.
  - cbv beta zeta. intros [] w5 ->. split; [done |]. subst mid. unfold enc_response, enc_body. fold bs ts. by rewrite <- !app_assoc.
Qed.

End writer.
