(* ===== verification/MetadataProto.v ===== *)
(** * The metadata protocol (dory/kafka_proto/metadata/v0)

    [MdRequest]: the writer and the reader of requests (metadata_request_writer.{h,cc},
    metadata_request_reader.{h,cc}); [TMetadataProto]: the requests that the daemon sends,
    the metadata that it builds from a response, and whether a response says that a topic
    was created (metadata_proto.cc).  The metadata built from the bytes of a response is
    what the response says, and no bytes make the code read outside of the buffer or fail
    an assertion. *)
From S2P Require Import Prelude FieldAccess Wire Msg Metadata MetadataResponse MetadataReader MetadataFormat MetadataWriter.

(** ** Requests *)

Module MdRequest.

Definition REQUEST_SIZE_SIZE : Z := 4.
Definition API_KEY_OFFSET : Z := 4.
Definition API_VERSION_OFFSET : Z := 6.
Definition CORRELATION_ID_OFFSET : Z := 8.
Definition CLIENT_ID_LENGTH_OFFSET : Z := 12.
Definition TOPIC_COUNT_OFFSET : Z := 14.
Definition TOPIC_NAME_LENGTH_OFFSET : Z := 18.
Definition TOPIC_NAME_LENGTH_SIZE : Z := 2.
Definition API_KEY : Z := 3.
Definition API_VERSION : Z := 0.
Definition EMPTY_STRING_LENGTH : Z := -1.
Definition NUM_SINGLE_TOPIC_HEADER_BYTES : Z := TOPIC_NAME_LENGTH_OFFSET + TOPIC_NAME_LENGTH_SIZE.
Definition NUM_ALL_TOPICS_HEADER_BYTES : Z := TOPIC_NAME_LENGTH_OFFSET.

(** The state is the vector [result]. *)
Definition QW := M Empty_set (list byte).

Definition write (off : Z) (bytes : list byte) : QW () :=
  v ← get; out ← need OutOfBounds (vec_write (Z.to_nat off) bytes v); modify (λ _, out).

Definition WriteHeader (topic_size correlation_id : Z) : QW () :=
  massert (topic_size <=? INT16_MAX);;
  let size_field :=
    if topic_size =? 0 then NUM_ALL_TOPICS_HEADER_BYTES - REQUEST_SIZE_SIZE
    else topic_size + NUM_SINGLE_TOPIC_HEADER_BYTES - REQUEST_SIZE_SIZE in
  write 0 (WriteInt32ToHeader size_field);;
  write API_KEY_OFFSET (WriteInt16ToHeader API_KEY);;
  write API_VERSION_OFFSET (WriteInt16ToHeader API_VERSION);;
  write CORRELATION_ID_OFFSET (WriteInt32ToHeader correlation_id);;
  write CLIENT_ID_LENGTH_OFFSET (WriteInt16ToHeader EMPTY_STRING_LENGTH);;
  (if topic_size =? 0 then mret () else write TOPIC_NAME_LENGTH_OFFSET (WriteInt16ToHeader topic_size));;
  write TOPIC_COUNT_OFFSET (WriteInt32ToHeader (if topic_size =? 0 then 0 else 1)).

Definition WriteSingleTopicRequest (topic : list byte) (correlation_id : Z) : QW () :=
  massert (bool_decide (topic ≠ []));;
  let topic_size := Z.of_nat (length topic) in
  modify (vec_resize (Z.to_nat (NUM_SINGLE_TOPIC_HEADER_BYTES + topic_size)));;
  WriteHeader topic_size correlation_id;;
  write NUM_SINGLE_TOPIC_HEADER_BYTES topic.

Definition WriteAllTopicsRequest (correlation_id : Z) : QW () :=
  modify (vec_resize (Z.to_nat NUM_ALL_TOPICS_HEADER_BYTES));;
  WriteHeader 0 correlation_id.

(** The variants for a caller who sends the header in a buffer of its own: the state is this
    buffer, the result is the number of bytes of it and what follows. *)
Definition WriteSingleTopicRequest_iov (topic : list byte) (correlation_id : Z) : QW (Z * list byte) :=
  massert (bool_decide (topic ≠ []));;
  WriteHeader (Z.of_nat (length topic)) correlation_id;;
  mret (NUM_SINGLE_TOPIC_HEADER_BYTES, topic).

Definition WriteAllTopicsRequest_iov (correlation_id : Z) : QW Z :=
  WriteHeader 0 correlation_id;;
  mret NUM_ALL_TOPICS_HEADER_BYTES.

Inductive exn := TBadRequestSize | TBadTopicCount | TWrongRequestType | TBadApiVersion | TBadClientIdLength | TBadTopicSize.

Record TMetadataRequestReader := mkRequestReader { Begin : list byte; AllTopics : bool }.

Definition MinSize : Z := TOPIC_NAME_LENGTH_OFFSET.
Definition SingleTopicHeaderSize : Z := TOPIC_NAME_LENGTH_OFFSET + TOPIC_NAME_LENGTH_SIZE.

Definition QR := M exn ().

Definition RequestSize (request : list byte) : QR Z :=
  size_field ← rd32 request 0;
  if size_field <? 0 then throw TBadRequestSize
  else (* the sum is a [size_t] *) mret (size_field + REQUEST_SIZE_SIZE).

(** The constructor; the request is the buffer. *)
Definition TMetadataRequestReader_new (request : list byte) : QR TMetadataRequestReader :=
  size ← RequestSize request;
  let request_size := Z.of_nat (length request) in
  massert (request_size =? size);;
  if request_size <? MinSize then throw TBadRequestSize else
  key ← rd16 request API_KEY_OFFSET;
  if negb (key =? API_KEY) then throw TWrongRequestType else
  version ← rd16 request API_VERSION_OFFSET;
  if negb (version =? API_VERSION) then throw TBadApiVersion else
  client_id_len ← rd16 request CLIENT_ID_LENGTH_OFFSET;
  if negb (client_id_len =? EMPTY_STRING_LENGTH) then throw TBadClientIdLength else
  topic_count ← rd32 request TOPIC_COUNT_OFFSET;
  if negb (topic_count =? 0) && negb (topic_count =? 1) then throw TBadTopicCount else
  if topic_count =? 0 then
    if negb (request_size =? MinSize) then throw TBadRequestSize else mret (mkRequestReader request true)
  else
    if request_size <? SingleTopicHeaderSize then throw TBadRequestSize else
    topic_size ← rd16 request TOPIC_NAME_LENGTH_OFFSET;
    if topic_size <? 1 then throw TBadTopicSize else
    if negb (topic_size + SingleTopicHeaderSize =? request_size) then throw TBadRequestSize
    else mret (mkRequestReader request false).

Definition GetCorrelationId (r : TMetadataRequestReader) : QR Z := rd32 (Begin r) CORRELATION_ID_OFFSET.

Definition IsAllTopics (r : TMetadataRequestReader) : bool := AllTopics r.

(** The bytes from [GetTopicBegin()] to [GetTopicEnd()], if these are not null. *)
Definition GetTopic (r : TMetadataRequestReader) : QR (option (list byte)) :=
  if AllTopics r then mret None
  else
    len ← rd16 (Begin r) TOPIC_NAME_LENGTH_OFFSET;
    topic ← rd_range (Begin r) SingleTopicHeaderSize (SingleTopicHeaderSize + len);
    mret (Some topic).

End MdRequest.

(** ** The protocol *)

(** The reader and the builder that [BuildMetadataFromResponse] uses. *)
Record parsing := mkParsing { PReader : MdReader.TMetadataResponseReader; PBuilder : TBuilder }.

Definition PM := M MdReader.exn parsing.

Definition on_reader {A} (m : MdReader.MR A) : PM A := zoom PReader (λ r p, mkParsing r (PBuilder p)) m.

Definition on_builder {A} (m : MB A) : PM A := zoom PBuilder (λ b p, mkParsing (PReader p) b) (no_throw m).

(** [while (next()) body;], where [left], after a call of [next] that returned true, is the
    number of the items from the current one on. *)
Fixpoint iter_next (n : nat) (next : PM bool) (body : PM ()) : PM () :=
  match n with
  | O => crash OutOfFuel
  | S n =>
      body;;
      more ← next;
      if more : bool then iter_next n next body else mret ()
  end.

Definition while_next (left : MdReader.TMetadataResponseReader → Z) (next : PM bool) (body : PM ()) : PM () :=
  more ← next;
  if more : bool then p ← get; iter_next (Z.to_nat (left (PReader p))) next body else mret ().

Definition WriteAllTopicsMetadataRequest (correlation_id : Z) : MdRequest.QW () :=
  MdRequest.WriteAllTopicsRequest correlation_id.

(** The bytes of the C string [s.c_str()]: those before the first null. *)
Fixpoint c_str (s : list byte) : list byte :=
  match s with
  | [] => []
  | b :: s => if decide (b = x00) then [] else b :: c_str s
  end.

(** [topic] is what the caller made the C string of. *)
Definition WriteSingleTopicMetadataRequest (topic : string) (correlation_id : Z) : MdRequest.QW () :=
  MdRequest.WriteSingleTopicRequest (c_str (String.list_byte_of_string topic)) correlation_id.

Section proto.
Context `{!StdSort} `{!Shuffle} `{!HashOrder}.

(** The order in which the two arguments that can throw are computed is not specified in
    C++; both exceptions are a [TBadMetadataResponse]. *)
Definition ReadBroker : PM () :=
  name ← on_reader MdReader.GetCurrentBrokerHost;
  id ← on_reader MdReader.GetCurrentBrokerNodeId;
  port ← on_reader MdReader.GetCurrentBrokerPort;
  on_builder (Metadata.AddBroker id (String.string_of_list_byte name) (uwrap 16 port)).

Definition ReadPartition : PM () :=
  error_code ← on_reader MdReader.GetCurrentPartitionErrorCode;
  id ← on_reader MdReader.GetCurrentPartitionId;
  leader ← on_reader MdReader.GetCurrentPartitionLeaderId;
  on_builder (AddPartitionToTopic id leader (CanSendToPartition error_code) error_code).

Definition ReadTopic : PM () :=
  error_code ← on_reader MdReader.GetCurrentTopicErrorCode;
  if negb (error_code =? 0) then mret ()
  else
    name ← on_reader MdReader.GetCurrentTopicName;
    opened ← on_builder (Metadata.OpenTopic (String.string_of_list_byte name));
    if opened : bool then
      while_next MdReader.PartitionsLeftInTopic (on_reader MdReader.NextPartitionInTopic) ReadPartition;;
      on_builder Metadata.CloseTopic
    else mret ().

Definition build_metadata : PM TMetadata :=
  on_builder Metadata.OpenBrokerList;;
  while_next MdReader.BrokersLeft (on_reader MdReader.NextBroker) ReadBroker;;
  on_builder Metadata.CloseBrokerList;;
  while_next MdReader.TopicsLeft (on_reader MdReader.NextTopic) ReadTopic;;
  on_builder Build.

Definition BuildMetadataFromResponse (response_buf : list byte) : outcome MdReader.exn TMetadata :=
  match MdReader.TMetadataResponseReader_new response_buf with
  | Ret reader => (build_metadata (mkParsing reader TBuilder_new)).1
  | Throw e => Throw e
  | Fault x => Fault x
  end.
End proto.

(** [topic] is what the caller made the C string of. *)
Definition was_successful (topic : string) : MdReader.MR bool :=
  more ← MdReader.NextTopic;
  if negb more then mret false
  else
    name ← MdReader.GetCurrentTopicName;
    if negb (bool_decide (name = c_str (String.list_byte_of_string topic))) then mret false
    else
      error_code ← MdReader.GetCurrentTopicErrorCode;
      mret ((error_code =? 0) || (error_code =? 5)).

Definition TopicAutocreateWasSuccessful (topic : string) (response_buf : list byte) : outcome MdReader.exn bool :=
  match MdReader.TMetadataResponseReader_new response_buf with
  | Ret reader => (was_successful topic reader).1
  | Throw e => Throw e
  | Fault x => Fault x
  end.

(** ** Steps of the parser *)

Section parser_steps.
Import MdReader.
Context (Te : exn → Prop) (F : fault → Prop).
Notation wpp m p Q := (wp m p Q (λ e _, Te e) F).

Lemma on_reader_ok {A B} (m : MR A) (f : A → PM B) r b R Q :
  wp m r R (λ e _, Te e) F → (∀ a r', R a r' → wpp (f a) (mkParsing r' b) Q) → wpp (on_reader m ≫= f) (mkParsing r b) Q.
Proof.
  intros Hm Hf. apply wp_bind. unfold wp, on_reader, zoom in *. cbn [PReader]. destruct (m r) as [[a | e | x] r']; cbn [PBuilder]; [by apply Hf | done..].
Qed.

Lemma on_reader_last {A} (m : MR A) r b (Q : A → parsing → Prop) :
  wp m r (λ a r', Q a (mkParsing r' b)) (λ e _, Te e) F → wpp (on_reader m) (mkParsing r b) Q.
Proof. unfold wp, on_reader, zoom. cbn [PReader]. by destruct (m r) as [[a | e | x] r']. Qed.

(** Calls of the builder that return. *)
Lemma on_builder_ok {A B} (m : MB A) (f : A → PM B) r b a b' Q :
  m b = (Ret a, b') → wpp (f a) (mkParsing r b') Q → wpp (on_builder m ≫= f) (mkParsing r b) Q.
Proof. intros Hm Hf. eapply wp_bind_Ret; [| exact Hf]. unfold on_builder, zoom, no_throw. cbn [PBuilder]. by rewrite Hm. Qed.

Lemma on_builder_last {A} (m : MB A) r b a b' (Q : A → parsing → Prop) :
  m b = (Ret a, b') → Q a (mkParsing r b') → wpp (on_builder m) (mkParsing r b) Q.
Proof. intros Hm HQ. eapply wp_Ret; [| exact HQ]. unfold on_builder, zoom, no_throw. cbn [PBuilder]. by rewrite Hm. Qed.

(** A loop: [J] at an item, [K] after its body, [E] at the end. *)
Lemma while_next_ok left next body (J K E : parsing → Prop) p :
  (∀ p, J p → 0 < left (PReader p)) →
  (∀ p, J p → wpp body p (λ _ p', K p' ∧ left (PReader p') = left (PReader p))) →
  (∀ p, K p → wpp next p (λ b p', if b : bool then J p' ∧ left (PReader p') = left (PReader p) - 1 else E p')) →
  wpp next p (λ b p', if b : bool then J p' else E p') → wpp (while_next left next body) p (λ _ p', E p').
Proof.
  intros Hpos Hbody Hnext Hfirst. unfold while_next. apply wp_bind. eapply wp_mono; [exact Hfirst |]. cbv beta.
  intros b p1 Hp1. destruct b; [| by eapply wp_Ret]. wstep.
  assert (∀ n p, J p → left (PReader p) ≤ Z.of_nat n → wpp (iter_next n next body) p (λ _ p', E p')) as Hiter.
  { clear p p1 Hp1 Hfirst. induction n as [| n IH]; intros p Hp Hn; [specialize (Hpos p Hp); lia |]. cbn [iter_next].
    apply wp_bind. eapply wp_mono; [by apply Hbody |]. cbv beta. intros _ p1 [HK Hl1].
    apply wp_bind. eapply wp_mono; [by apply Hnext |]. cbv beta. intros b p2 Hp2. destruct b; [| by eapply wp_Ret].
    destruct Hp2 as [HJ2 Hl2]. apply IH; [done | lia]. }
  apply Hiter; [done |]. specialize (Hpos _ Hp1). lia.
Qed.

(** A loop over the items of a list. *)
Lemma while_next_list {X} left next body (J K : list X → parsing → Prop) l p :
  (∀ l p, J l p → left (PReader p) = Z.of_nat (length l)) →
  (∀ x l p, J (x :: l) p → wpp body p (λ _ p', K (x :: l) p')) →
  (∀ x l p, K (x :: l) p → wpp next p (λ b p', J l p' ∧ b = bool_decide (l ≠ []))) →
  wpp next p (λ b p', J l p' ∧ b = bool_decide (l ≠ [])) → wpp (while_next left next body) p (λ _ p', J [] p').
Proof.
  intros Hl Hbody Hnext Hfirst. unfold while_next. apply wp_bind. eapply wp_mono; [exact Hfirst |]. cbv beta.
  intros b p1 [HJ ->]. destruct l as [| x l]; [by eapply wp_Ret |]. rewrite bool_decide_true by done. wstep.
  rewrite (Hl _ _ HJ), Nat2Z.id. clear Hfirst p. revert x p1 HJ. induction l as [| y l IH]; intros x p HJ; cbn [iter_next length];
    (apply wp_bind; eapply wp_mono; [by eapply Hbody |]; cbv beta; intros _ p1 HK;
     apply wp_bind; eapply wp_mono; [by eapply Hnext |]; cbv beta; intros b p2 [HJ2 ->]).
  - by eapply wp_Ret.
  - rewrite bool_decide_true by done. by eapply IH.
Qed.
End parser_steps.

(** ** No response makes the parser fail *)

Section parser_safe.
Import MdReader.
Context {srt : StdSort} {shf : Shuffle} {ord : HashOrder} (buf : list byte).
Context (Hsmall : Z.of_nat (length buf) < 2 ^ 63).

Notation wpp m p Q := (wp m p Q (λ _ _, True) (λ _, False)).

Definition safe_brokers (r : TMetadataResponseReader) (b : TBuilder) : Prop :=
  (State r = InBrokerList ∧ brokers_in buf r) ∧ ∃ v, adding_brokers v b.

Lemma ReadBroker_safe r b :
  safe_brokers r b → BrokersLeft r ≠ 0 → wpp ReadBroker (mkParsing r b) (λ _ p', PReader p' = r ∧ safe_brokers r (PBuilder p')).
Proof.
  intros [[Hs Hr] [v Hb]] Hn. unfold ReadBroker.
  destruct (broker_fields_ok buf Hsmall r Hs Hr Hn) as (H1 & H2 & H3).
  eapply on_reader_ok; [exact H1 |]. cbv beta. intros name r' ->. eapply on_reader_ok; [exact H2 |]. cbv beta. intros id r' ->.
  eapply on_reader_ok; [exact H3 |]. cbv beta. intros port r' ->.
  destruct (AddBroker_ok v b (mkMdBroker id (String.string_of_list_byte name) port) Hb) as (b' & E & Hb').
  eapply on_builder_last; [exact E |]. split; [done |]. split; [done | by eexists].
Qed.

Definition safe_topics (r : TMetadataResponseReader) (b : TBuilder) : Prop :=
  in_topics buf r ∧ ∃ vb vt, adding_topics vb vt b.

Lemma ReadPartition_safe r b vb vt name vp :
  State r = InPartitionList → partitions_in buf r → PartitionsLeftInTopic r ≠ 0 → adding_one vb vt name vp b →
  wpp ReadPartition (mkParsing r b) (λ _ p', PReader p' = r ∧ ∃ vp', adding_one vb vt name vp' (PBuilder p')).
Proof.
  intros Hs Hr Hn Hb. unfold ReadPartition. destruct (partition_fields_ok buf r Hs Hr Hn) as (H1 & H2 & H3).
  eapply on_reader_ok; [exact H1 |]. cbv beta. intros e r' ->. eapply on_reader_ok; [exact H2 |]. cbv beta. intros id r' ->.
  eapply on_reader_ok; [exact H3 |]. cbv beta. intros l r' ->.
  destruct (AddPartition_ok vb vt name vp b (mkMdPartition id l e) Hb) as (b' & E & Hb').
  eapply on_builder_last; [exact E |]. split; [done | by eexists].
Qed.

(** The partitions of a topic that the builder has opened. *)
Lemma ReadPartitions_safe r b vb vt name :
  State r = InTopicList → topics_in buf r → TopicsLeft r ≠ 0 → adding_one vb vt name ∅ b →
  wpp (while_next PartitionsLeftInTopic (on_reader NextPartitionInTopic) ReadPartition) (mkParsing r b)
    (λ _ p', (in_partitions buf (PReader p') ∧ TopicsLeft (PReader p') = TopicsLeft r) ∧ ∃ vp, adding_one vb vt name vp (PBuilder p')).
Proof.
  intros Hs Hr Hn Hb.
  set (I := λ p : parsing, (State (PReader p) = InPartitionList ∧ partitions_in buf (PReader p) ∧ TopicsLeft (PReader p) = TopicsLeft r) ∧
    ∃ vp, adding_one vb vt name vp (PBuilder p)).
  assert (∀ p, I p → in_partitions buf (PReader p) ∧ TopicsLeft (PReader p) = TopicsLeft r) as HI.
  { intros p [(H1 & H2 & H3) _]. split; [unfold in_partitions; by rewrite H1 | done]. }
  apply (while_next_ok _ _ _ _ _ (λ p, I p ∧ PartitionsLeftInTopic (PReader p) ≠ 0) (λ p, I p ∧ PartitionsLeftInTopic (PReader p) ≠ 0)).
  - intros p [[(_ & H & _) _] Hne]. pose proof (pi_left _ _ H). lia.
  - intros [r1 b1] [[(H1 & H2 & H3) [vp H4]] Hne]. cbn [PReader PBuilder] in *.
    eapply wp_mono; [by eapply ReadPartition_safe |]. cbv beta. intros _ [r2 b2] [E Hb2]. cbn [PReader PBuilder] in *. subst r2. done.
  - intros [r1 b1] [HI1 Hne]. destruct HI1 as [(H1 & H2 & H3) Hvp]. cbn [PReader PBuilder] in *. apply on_reader_last.
    eapply wp_mono; [apply (md_NextPartition_ok buf); [unfold in_partitions; by rewrite H1 | done] |]. cbv beta.
    intros m r2 ((E1 & E2 & E3) & E4 & ->). cbn [PReader PBuilder].
    assert (I (mkParsing r2 b1)) as HI2 by (split; [split_and!; cbn; [done | done | congruence] | done]).
    destruct (Z.eqb_spec (PartitionsLeftInTopic r2) 0); cbn; [split; [by apply (HI _ HI2) | done] | done].
  - apply on_reader_last. unfold NextPartitionInTopic. apply at_least_ok; [by rewrite Hs |]. apply some_left_ok; [done |]. wstep.
    rewrite decide_True by done. eapply wp_mono; [by apply (FirstPartition_ok buf Hsmall) |]. cbv beta. intros m r2 ((E1 & E2 & E3) & ->).
    assert (I (mkParsing r2 b)) as HI2 by (split; [done | by eexists]).
    destruct (Z.eqb_spec (PartitionsLeftInTopic r2) 0); cbn; [split; [by apply (HI _ HI2) | by eexists] | done].
Qed.

Lemma ReadTopic_safe r b :
  State r = InTopicList → topics_in buf r → TopicsLeft r ≠ 0 → (∃ vb vt, adding_topics vb vt b) →
  wpp ReadTopic (mkParsing r b) (λ _ p', safe_topics (PReader p') (PBuilder p') ∧ TopicsLeft (PReader p') = TopicsLeft r).
Proof.
  intros Hs Hr Hn (vb & vt & Hb). assert (safe_topics r b) as Hsafe by (split; [unfold in_topics; by rewrite Hs | by do 2 eexists]).
  unfold ReadTopic. eapply on_reader_ok; [by apply (GetCurrentTopicErrorCode_ok buf) |]. cbv beta. intros e r' ->.
  destruct (negb (e =? 0)); [by eapply wp_Ret |]. eapply on_reader_ok; [by apply (md_GetCurrentTopicName_ok buf) |]. cbv beta. intros name r' ->.
  destruct (OpenTopic_ok vb vt b (String.string_of_list_byte name) Hb) as (b1 & E1 & Hb1). eapply on_builder_ok; [exact E1 |].
  case_bool_decide as Hnew; [rewrite decide_True in Hb1 by done | rewrite decide_False in Hb1 by done; eapply wp_Ret; [reflexivity |]].
  - apply wp_bind. eapply wp_mono; [by eapply ReadPartitions_safe |]. cbv beta. intros _ [r2 b2] [[H1 H2] [vp H3]]. cbn [PReader PBuilder] in *.
    destruct (CloseTopic_ok vb vt _ vp b2 H3) as (b3 & E3 & Hb3). eapply on_builder_last; [exact E3 |]. cbn. split; [| done].
    split; [| by do 2 eexists]. unfold in_topics. unfold in_partitions in H1. by destruct (State r2) eqn:Es; unfold in_partitions; rewrite ?Es.
  - split; [| done]. split; [apply Hsafe | by do 2 eexists].
Qed.

Lemma build_metadata_safe r :
  State r = Initial → Buf r = buf → wpp build_metadata (mkParsing r TBuilder_new) (λ m _, metadata_ok m).
Proof.
  intros Hs Hb. unfold build_metadata.
  set (b0 := mkBuilder AddingBrokers ∅ "" 0 ∅ (mkMetadata [] 0 [] [] ∅) []).
  assert (adding_brokers ∅ b0) as Hb0 by (split_and!; try done; by constructor).
  eapply (on_builder_ok _ _ _ _ _ _ _ b0); [done |]. apply wp_bind.
  eapply wp_mono; [apply (while_next_ok _ _ _ _ _ (λ p, safe_brokers (PReader p) (PBuilder p) ∧ BrokersLeft (PReader p) ≠ 0)
    (λ p, safe_brokers (PReader p) (PBuilder p) ∧ BrokersLeft (PReader p) ≠ 0) (λ p, safe_brokers (PReader p) (PBuilder p))) |].
  - intros p [[[_ Hi] _] Hne]. pose proof (bi_left _ _ Hi). lia.
  - intros [r1 b1] [Hi Hne]. cbn [PReader PBuilder] in *. eapply wp_mono; [by apply ReadBroker_safe |]. cbv beta.
    intros _ [r2 b2] [E H]. cbn [PReader PBuilder] in *. by subst r2.
  - intros [r1 b1] [[[Hs1 Hr1] Hv1] Hne]. cbn [PReader PBuilder] in *. apply on_reader_last.
    eapply wp_mono; [by apply (NextBroker_ok buf Hsmall) |]. cbv beta. intros m r2 (H1 & H2 & ->).
    destruct (Z.eqb_spec (BrokersLeft r2) 0); cbn; by split_and?.
  - apply on_reader_last. unfold NextBroker. wstep. rewrite decide_True by done.
    eapply wp_mono; [by apply (FirstBroker_ok buf Hsmall) |]. cbv beta. intros m r2 (H1 & H2 & ->).
    assert (safe_brokers r2 b0) by (split; [done | by eexists]). by destruct (Z.eqb_spec (BrokersLeft r2) 0).
  - cbv beta. intros _ [r1 b1] [Hr1 [v Hb1]]. cbn [PReader PBuilder] in *.
    destruct (CloseBrokerList_ok v b1 Hb1) as (b2 & E2 & Hb2). eapply on_builder_ok; [exact E2 |]. apply wp_bind.
    eapply wp_mono; [apply (while_next_ok _ _ _ _ _ (λ p, (State (PReader p) = InTopicList ∧ topics_in buf (PReader p) ∧ ∃ vb vt, adding_topics vb vt (PBuilder p)) ∧ TopicsLeft (PReader p) ≠ 0)
      (λ p, safe_topics (PReader p) (PBuilder p) ∧ TopicsLeft (PReader p) ≠ 0) (λ p, ∃ vb vt, adding_topics vb vt (PBuilder p))) |].
    + intros p [(_ & Hi & _) Hne]. pose proof (ti_left _ _ Hi). lia.
    + intros [r3 b3] [(H1 & H2 & H3) Hne]. cbn [PReader PBuilder] in *. eapply wp_mono; [by apply ReadTopic_safe |]. cbv beta.
      intros _ p' [H4 H5]. split; [split; [done | congruence] | done].
    + intros [r3 b3] [[Hi Hvt] Hne]. cbn [PReader PBuilder] in *. apply on_reader_last.
      eapply wp_mono; [by apply (NextTopic_ok buf Hsmall) |]. cbv beta. intros m r4 (H1 & H2 & ->).
      destruct (Z.eqb_spec (TopicsLeft r4) 0); cbn; naive_solver.
    + apply on_reader_last. unfold NextTopic. wstep. rewrite (proj1 Hr1). cbn [rank].
      eapply wp_mono; [apply (FirstTopic_ok buf Hsmall); by right |]. cbv beta. intros m r4 (H1 & ->).
      destruct (Z.eqb_spec (TopicsLeft r4) 0); cbn; naive_solver.
    + cbv beta. intros _ [r3 b3] (vb & vt & Hb3). cbn [PBuilder] in Hb3. destruct (Build_ok vb vt b3 Hb3) as (m & b4 & E4 & Hm & _).
      by eapply on_builder_last.
Qed.

End parser_safe.

(** ** What a response says is what is built *)

Definition broker_md (b : wire_broker) : md_broker :=
  mkMdBroker (wb_id b) (String.string_of_list_byte (wb_host b)) (wb_port b).

Definition partition_md (p : wire_partition) : md_partition := mkMdPartition (wp_id p) (wp_leader p) (wp_error p).

Definition topic_md (t : wire_topic) : md_topic :=
  mkMdTopic (wt_error t) (String.string_of_list_byte (wt_name t)) (partition_md <$> wt_partitions t).

Definition response_md (w : wire_response) : md_response :=
  mkMdResponse (broker_md <$> wr_brokers w) (topic_md <$> wr_topics w).

Section parser_exact.
Import MdReader.
Context {srt : StdSort} {shf : Shuffle} {ord : HashOrder}.

Notation wpp m p Q := (wp m p Q (λ _ _, False) (λ _, False)).

(** *** Brokers *)

Definition view_broker (v : gmap Z (string * Z)) (b : md_broker) : gmap Z (string * Z) :=
  (map_emplace (mb_id b) (mb_host b, uwrap 16 (mb_port b)) v).1.

(** The builder has brokers which, with those of [l], give the view [v]. *)
Definition brokers_to_add (l : list wire_broker) (v : gmap Z (string * Z)) (b : TBuilder) : Prop :=
  ∃ v0, adding_brokers v0 b ∧ foldl view_broker v0 (broker_md <$> l) = v.

Lemma ReadBroker_exact x l post r b v :
  at_brokers (x :: l) post r → wire_broker_ok x → brokers_to_add (x :: l) v b →
  wpp ReadBroker (mkParsing r b) (λ _ p', PReader p' = r ∧ brokers_to_add l v (PBuilder p')).
Proof.
  intros Hr Hx (v0 & Hb & Hv). unfold ReadBroker. destruct (x_broker_fields x l post r Hr Hx) as (H1 & H2 & H3).
  eapply (on_reader_ok (λ _, False)); [exact H1 |]. cbv beta. intros host r' [-> ->].
  eapply (on_reader_ok (λ _, False)); [exact H2 |]. cbv beta. intros id r' [-> ->].
  eapply (on_reader_ok (λ _, False)); [exact H3 |]. cbv beta. intros port r' [-> ->].
  destruct (AddBroker_ok v0 b (broker_md x) Hb) as (b' & E & Hb').
  eapply (on_builder_last (λ _, False)); [exact E |]. split; [done |]. by eexists.
Qed.

Lemma ReadBrokers_exact w r b v :
  at_start w r → wire_ok w → brokers_to_add (wr_brokers w) v b →
  wpp (while_next BrokersLeft (on_reader NextBroker) ReadBroker) (mkParsing r b)
    (λ _ p', at_brokers [] (after_brokers w) (PReader p') ∧ adding_brokers v (PBuilder p')).
Proof.
  intros Hr Hw Hb. pose proof (wo_brokers _ Hw) as Hok.
  set (J := λ l p, at_brokers l (after_brokers w) (PReader p) ∧ Forall wire_broker_ok l ∧ brokers_to_add l v (PBuilder p)).
  eapply wp_mono; [apply (while_next_list _ _ _ _ _ J
    (λ l p, at_brokers l (after_brokers w) (PReader p) ∧ Forall wire_broker_ok l ∧ brokers_to_add (tail l) v (PBuilder p)) (wr_brokers w)) |].
  - intros l p [H _]. apply H.
  - intros x l [r1 b1] (H1 & H2 & H3). cbn [PReader PBuilder] in *. pose proof (Forall_inv H2).
    eapply wp_mono; [by eapply ReadBroker_exact |]. cbv beta. intros _ p' [-> H4]. done.
  - intros x l [r1 b1] (H1 & H2 & H3). cbn [PReader PBuilder tail] in *. apply (on_reader_last (λ _, False)).
    eapply wp_mono; [by eapply x_NextBroker |]. cbv beta. intros more r2 [H4 ->]. split; [| done]. by apply Forall_inv_tail in H2.
  - apply (on_reader_last (λ _, False)). unfold NextBroker. wstep. rewrite decide_True by apply Hr.
    eapply wp_mono; [by eapply x_FirstBroker |]. cbv beta. intros more r2 [H4 ->]. done.
  - cbv beta. intros _ p (H1 & _ & v0 & H2 & <-). done.
Qed.

(** *** Topics *)

Definition partitions_to_add (l : list wire_partition) vb vt name (vp : gmap Z (Z * Z)) (b : TBuilder) : Prop :=
  ∃ v0, adding_one vb vt name v0 b ∧ foldl (view_partition vb) v0 (partition_md <$> l) = vp.

Lemma ReadPartition_exact x l post r b vb vt name vp :
  at_partitions (x :: l) post r → wire_partition_ok x → partitions_to_add (x :: l) vb vt name vp b →
  wpp ReadPartition (mkParsing r b) (λ _ p', PReader p' = r ∧ partitions_to_add l vb vt name vp (PBuilder p')).
Proof.
  intros Hr Hx (v0 & Hb & Hv). unfold ReadPartition. destruct (x_partition_fields x l post r Hr Hx) as (H1 & H2 & H3).
  eapply (on_reader_ok (λ _, False)); [exact H1 |]. cbv beta. intros e r' [-> ->].
  eapply (on_reader_ok (λ _, False)); [exact H2 |]. cbv beta. intros id r' [-> ->].
  eapply (on_reader_ok (λ _, False)); [exact H3 |]. cbv beta. intros leader r' [-> ->].
  destruct (AddPartition_ok vb vt name v0 b (partition_md x) Hb) as (b' & E & Hb').
  eapply (on_builder_last (λ _, False)); [exact E |]. split; [done |]. by eexists.
Qed.

Lemma ReadPartitions_exact x l r b vb vt name vp :
  at_topics (x :: l) r → Forall wire_topic_ok (x :: l) → partitions_to_add (wt_partitions x) vb vt name vp b →
  wpp (while_next PartitionsLeftInTopic (on_reader NextPartitionInTopic) ReadPartition) (mkParsing r b)
    (λ _ p', in_topic [] l (PReader p') ∧ adding_one vb vt name vp (PBuilder p')).
Proof.
  intros Hr Hok Hb. destruct (Forall_inv Hok) as (_ & _ & Hps).
  set (J := λ ps p, in_topic ps l (PReader p) ∧ Forall wire_partition_ok ps ∧ partitions_to_add ps vb vt name vp (PBuilder p)).
  eapply wp_mono; [apply (while_next_list _ _ _ _ _ J
    (λ ps p, in_topic ps l (PReader p) ∧ Forall wire_partition_ok ps ∧ partitions_to_add (tail ps) vb vt name vp (PBuilder p)) (wt_partitions x)) |].
  - intros ps p [[H _] _]. apply H.
  - intros y ps [r1 b1] (H1 & H2 & H3). cbn [PReader PBuilder] in *. pose proof (Forall_inv H2).
    eapply wp_mono; [by eapply ReadPartition_exact; [apply H1 | |] |]. cbv beta. intros _ p' [-> H4]. done.
  - intros y ps [r1 b1] (H1 & H2 & H3). cbn [PReader PBuilder tail] in *. apply (on_reader_last (λ _, False)).
    eapply wp_mono; [by eapply x_NextPartition_in |]. cbv beta. intros more r2 [H4 ->]. split; [| done]. by apply Forall_inv_tail in H2.
  - apply (on_reader_last (λ _, False)). eapply wp_mono; [by eapply x_NextPartition_first |]. cbv beta. intros more r2 [H4 ->]. done.
  - cbv beta. intros _ p (H1 & _ & v0 & H2 & <-). done.
Qed.

Definition topics_to_add (l : list wire_topic) vb (vt : gmap string (gmap Z (Z * Z))) (b : TBuilder) : Prop :=
  ∃ v0, adding_topics vb v0 b ∧ foldl (view_topic vb) v0 (topic_md <$> l) = vt.

(** The reader is at the topic [x] or has read its partitions. *)
Definition around_topic (x : wire_topic) (l : list wire_topic) (r : TMetadataResponseReader) : Prop :=
  at_topics (x :: l) r ∨ in_topic [] l r.

Lemma ReadTopic_exact x l r b vb vt :
  at_topics (x :: l) r → Forall wire_topic_ok (x :: l) → topics_to_add (x :: l) vb vt b →
  wpp ReadTopic (mkParsing r b) (λ _ p', around_topic x l (PReader p') ∧ topics_to_add l vb vt (PBuilder p')).
Proof.
  intros Hr Hok (v0 & Hb & Hv). unfold ReadTopic. destruct (x_topic_fields x l r Hr (Forall_inv Hok)) as [H1 H2].
  change (foldl (view_topic vb) (view_topic vb v0 (topic_md x)) (topic_md <$> l) = vt) in Hv. unfold view_topic at 2 in Hv.
  eapply (on_reader_ok (λ _, False)); [exact H1 |]. cbv beta. intros e r' [-> ->]. cbn [mt_error topic_md] in Hv.
  destruct (negb (wt_error x =? 0)); [by eapply wp_Ret; [| split; [left | eexists]] |].
  eapply (on_reader_ok (λ _, False)); [exact H2 |]. cbv beta. intros name r' [-> ->]. set (name := String.string_of_list_byte (wt_name x)).
  destruct (OpenTopic_ok vb v0 b name Hb) as (b1 & E1 & Hb1). eapply (on_builder_ok (λ _, False)); [exact E1 |].
  unfold map_emplace in Hv. cbn [mt_name topic_md mt_partitions] in Hv. fold name in Hv.
  case_bool_decide as Hnew; [rewrite decide_True in Hb1 by done | rewrite decide_False in Hb1 by done].
  - rewrite Hnew in Hv. apply wp_bind. eapply wp_mono; [eapply ReadPartitions_exact; [done | done | by eexists] |]. cbv beta.
    intros _ [r2 b2] [H3 H4]. cbn [PReader PBuilder] in *. destruct (CloseTopic_ok _ _ _ _ b2 H4) as (b3 & E3 & Hb3).
    eapply (on_builder_last (λ _, False)); [exact E3 |]. split; [by right | by eexists].
  - eapply wp_Ret; [reflexivity |]. split; [by left |]. exists v0. split; [done |]. by destruct (v0 !! name).
Qed.

Lemma ReadTopics_exact w r b vb vt :
  at_brokers [] (after_brokers w) r → wire_ok w → topics_to_add (wr_topics w) vb vt b →
  wpp (while_next TopicsLeft (on_reader NextTopic) ReadTopic) (mkParsing r b) (λ _ p', adding_topics vb vt (PBuilder p')).
Proof.
  intros Hr Hw Hb. pose proof (wo_topics _ Hw) as Hok.
  set (J := λ l p, at_topics l (PReader p) ∧ Forall wire_topic_ok l ∧ topics_to_add l vb vt (PBuilder p)).
  eapply wp_mono; [apply (while_next_list _ _ _ _ _ J
    (λ l p, match l with [] => False | x :: l' => around_topic x l' (PReader p) end ∧ Forall wire_topic_ok l ∧
            topics_to_add (tail l) vb vt (PBuilder p)) (wr_topics w)) |].
  - intros l p [H _]. apply H.
  - intros x l [r1 b1] (H1 & H2 & H3). cbn [PReader PBuilder] in *.
    eapply wp_mono; [by eapply ReadTopic_exact |]. cbv beta. intros _ p' [H4 H5]. done.
  - intros x l [r1 b1] (H1 & H2 & H3). cbn [PReader PBuilder tail] in *. apply (on_reader_last (λ _, False)).
    apply wp_mono with (λ more r2, at_topics l r2 ∧ more = bool_decide (l ≠ [])).
    + pose proof (Forall_inv_tail H2). destruct H1 as [H1 | H1]; [by eapply x_NextTopic | by eapply x_NextTopic_after].
    + intros more r2 [H4 ->]. split; [| done]. by apply Forall_inv_tail in H2.
  - apply (on_reader_last (λ _, False)). eapply wp_mono; [eapply x_FirstTopic; [done | by right] |]. cbv beta. intros more r2 [H4 ->]. done.
  - cbv beta. intros _ p (_ & _ & v0 & H2 & <-). done.
Qed.

Lemma build_metadata_exact w r :
  at_start w r → wire_ok w →
  wpp build_metadata (mkParsing r TBuilder_new) (λ m _, metadata_ok m ∧ metadata_view m = response_view (response_md w)).
Proof.
  intros Hr Hw. unfold build_metadata.
  set (b0 := mkBuilder AddingBrokers ∅ "" 0 ∅ (mkMetadata [] 0 [] [] ∅) []).
  assert (adding_brokers ∅ b0) as Hb0 by (split_and!; try done; by constructor).
  eapply (on_builder_ok (λ _, False) _ _ _ _ _ _ b0); [done |]. apply wp_bind.
  eapply wp_mono; [eapply ReadBrokers_exact; [done | done | by exists ∅] |]. cbv beta. intros _ [r1 b1] [H1 H2]. cbn [PReader PBuilder] in *.
  destruct (CloseBrokerList_ok _ b1 H2) as (b2 & E2 & Hb2). eapply (on_builder_ok (λ _, False)); [exact E2 |]. apply wp_bind.
  eapply wp_mono; [eapply ReadTopics_exact; [done | done | by exists ∅] |]. cbv beta. intros _ [r3 b3] H3. cbn [PBuilder] in *.
  destruct (Build_ok _ _ b3 H3) as (m & b4 & E4 & Hm & Hv & _). by eapply (on_builder_last (λ _, False)).
Qed.
End parser_exact.

(** ** Requests that are written are read back *)

Section requests.
Import MdRequest.

(** The fields of a request: size, API key, API version, correlation ID, length of the client ID,
    count of topics and, of a request for one topic, the length of its name and the name. *)
Definition request_header (size correlation_id : Z) : list (list byte) :=
  [WriteInt32ToHeader size; WriteInt16ToHeader API_KEY; WriteInt16ToHeader API_VERSION; WriteInt32ToHeader correlation_id;
   WriteInt16ToHeader EMPTY_STRING_LENGTH].

Definition all_topics_fields (correlation_id : Z) : list (list byte) := request_header 14 correlation_id ++ [WriteInt32ToHeader 0].

Definition one_topic_fields (correlation_id : Z) (topic : list byte) : list (list byte) :=
  request_header (16 + Z.of_nat (length topic)) correlation_id ++
  [WriteInt32ToHeader 1; WriteInt16ToHeader (Z.of_nat (length topic)); topic].

(** Any bytes, as fields of the lengths [ns]. *)
Lemma split_fields ns (v : list byte) :
  length v = sum_list ns → ∃ fs, v = concat fs ∧ length <$> fs = ns.
Proof.
  revert v. induction ns as [| n ns IH]; intros v Hv; cbn in Hv; [exists []; by destruct v |].
  destruct (IH (drop n v)) as (fs & Hf & Hl); [rewrite length_drop; lia |].
  exists (take n v :: fs). cbn. rewrite <- Hf, take_drop, Hl, length_take. split; [done |]. f_equal. lia.
Qed.

Lemma concat_at {A} i (fs : list (list A)) x : fs !! i = Some x → concat fs = concat (take i fs) ++ x ++ concat (drop (S i) fs).
Proof. intros H. rewrite <- (take_drop_middle fs i x H) at 1. by rewrite concat_app. Qed.

Lemma write_field i fs off bytes b :
  fs !! i = Some b → length b = length bytes → off = Z.of_nat (length (concat (take i fs))) →
  write off bytes (concat fs) = (Ret (), concat (<[i := bytes]> fs)).
Proof.
  intros Hi Hl ->. rewrite (concat_at i fs b Hi). unfold write. erewrite bind_Ret by reflexivity. rewrite Nat2Z.id, vec_write_at by done.
  erewrite bind_Ret by reflexivity. rewrite (concat_at i (<[i := bytes]> fs) bytes) by (apply list_lookup_insert_eq; by eapply lookup_lt_Some).
  rewrite take_insert_ge, drop_insert_lt by lia. done.
Qed.

Lemma read_field32 i fs off v :
  fs !! i = Some (WriteInt32ToHeader v) → in_s 32 v → off = Z.of_nat (length (concat (take i fs))) →
  rd32 (E := exn) (concat fs) off () = (Ret v, ()).
Proof. intros Hi Hv ->. rewrite (concat_at i fs _ Hi). by apply rd32_app. Qed.

Lemma read_field16 i fs off v :
  fs !! i = Some (WriteInt16ToHeader v) → in_s 16 v → off = Z.of_nat (length (concat (take i fs))) →
  rd16 (E := exn) (concat fs) off () = (Ret v, ()).
Proof. intros Hi Hv ->. rewrite (concat_at i fs _ Hi). by apply rd16_app. Qed.

(** The offset of a field is the length of those before it. *)
Ltac offsets :=
  unfold NUM_SINGLE_TOPIC_HEADER_BYTES, SingleTopicHeaderSize, MinSize, API_KEY_OFFSET, API_VERSION_OFFSET, CORRELATION_ID_OFFSET,
    CLIENT_ID_LENGTH_OFFSET, TOPIC_COUNT_OFFSET, TOPIC_NAME_LENGTH_OFFSET, TOPIC_NAME_LENGTH_SIZE, REQUEST_SIZE_SIZE in *.
Ltac field_len := offsets; cbn [take concat length request_header one_topic_fields all_topics_fields app]; rewrite ?length_app, ?length_WriteInt16, ?length_WriteInt32; cbn [length]; lia.
Ltac put i := erewrite bind_Ret by (eapply (write_field i); [reflexivity | field_len | field_len]); cbn [insert list_insert].
Ltac known := cbn [negb andb Z.eqb API_KEY API_VERSION EMPTY_STRING_LENGTH Pos.eqb].
Ltac get32 i := erewrite bind_Ret by (eapply (read_field32 i); [reflexivity | width_lia | field_len]).
Ltac get16 i := erewrite bind_Ret by (eapply (read_field16 i); [reflexivity | unfold API_KEY, API_VERSION, EMPTY_STRING_LENGTH; width_lia | field_len]).

Lemma WriteHeader_one (topic : list byte) id (fs rest : list (list byte)) :
  topic ≠ [] → Z.of_nat (length topic) ≤ INT16_MAX → length <$> fs = [4; 2; 2; 4; 2; 4; 2]%nat →
  WriteHeader (Z.of_nat (length topic)) id (concat (fs ++ rest)) =
    (Ret (), concat (request_header (16 + Z.of_nat (length topic)) id ++
      [WriteInt32ToHeader 1; WriteInt16ToHeader (Z.of_nat (length topic))] ++ rest)).
Proof.
  intros Hne Hl Hfs. assert (length topic ≠ 0%nat) by by destruct topic.
  do 7 (destruct fs as [| ? fs]; [done |]). destruct fs; [| done]. injection Hfs as H1 H2 H3 H4 H5 H6 H7. cbn [app].
  unfold WriteHeader, QW. rewrite !(proj2 (Z.eqb_neq (Z.of_nat (length topic)) 0)) by lia.
  rewrite massert_bind by lia. put 0%nat. put 1%nat. put 2%nat. put 3%nat. put 4%nat. put 6%nat.
  erewrite (write_field 5); [| reflexivity | field_len | field_len]. cbn [insert list_insert request_header app].
  do 4 f_equal. offsets. lia.
Qed.

Lemma WriteSingleTopicRequest_ok topic id v :
  topic ≠ [] → Z.of_nat (length topic) ≤ INT16_MAX → WriteSingleTopicRequest topic id v = (Ret (), concat (one_topic_fields id topic)).
Proof.
  intros Hne Hl. unfold WriteSingleTopicRequest, QW. rewrite massert_bind by by apply bool_decide_true. erewrite bind_Ret by reflexivity.
  destruct (split_fields [4; 2; 2; 4; 2; 4; 2; length topic]%nat (vec_resize (Z.to_nat (NUM_SINGLE_TOPIC_HEADER_BYTES + Z.of_nat (length topic))) v))
    as (fs & -> & Hfs); [rewrite vec_resize_length; offsets; cbn; lia |].
  do 8 (destruct fs as [| ? fs]; [done |]). destruct fs; [| done]. injection Hfs as H1 H2 H3 H4 H5 H6 H7 H8.
  rewrite (bind_Ret _ _ _ _ _ (WriteHeader_one topic id [l; l0; l1; l2; l3; l4; l5] [l6] Hne Hl ltac:(cbn; congruence))). cbn [app].
  by erewrite (write_field 7); [| reflexivity | done | field_len].
Qed.

(** The header in a buffer of the caller, and the topic after it, are the same request. *)
Lemma WriteSingleTopicRequest_iov_ok topic id (buf : list byte) :
  topic ≠ [] → Z.of_nat (length topic) ≤ INT16_MAX → Z.of_nat (length buf) = NUM_SINGLE_TOPIC_HEADER_BYTES →
  ∃ header, WriteSingleTopicRequest_iov topic id buf = (Ret (NUM_SINGLE_TOPIC_HEADER_BYTES, topic), header) ∧
    Z.of_nat (length header) = NUM_SINGLE_TOPIC_HEADER_BYTES ∧ header ++ topic = concat (one_topic_fields id topic).
Proof.
  intros Hne Hl Hb. destruct (split_fields [4; 2; 2; 4; 2; 4; 2]%nat buf) as (fs & -> & Hfs); [offsets; cbn; lia |].
  pose proof (WriteHeader_one topic id fs [] Hne Hl Hfs) as HW. rewrite !app_nil_r in HW. eexists. split.
  - unfold WriteSingleTopicRequest_iov, QW. rewrite massert_bind by by apply bool_decide_true. by rewrite (bind_Ret _ _ _ _ _ HW).
  - split; [field_len |]. unfold one_topic_fields. rewrite !concat_app. cbn [concat]. by rewrite !app_nil_r, <- !app_assoc.
Qed.

Lemma WriteAllTopicsRequest_ok id v : WriteAllTopicsRequest id v = (Ret (), concat (all_topics_fields id)).
Proof.
  unfold WriteAllTopicsRequest, QW. erewrite bind_Ret by reflexivity.
  destruct (split_fields [4; 2; 2; 4; 2; 4]%nat (vec_resize (Z.to_nat NUM_ALL_TOPICS_HEADER_BYTES) v)) as (fs & -> & Hfs); [by rewrite vec_resize_length |].
  do 6 (destruct fs as [| ? fs]; [done |]). destruct fs; [| done]. injection Hfs as H1 H2 H3 H4 H5 H6.
  unfold WriteHeader, QW. rewrite massert_bind by done. put 0%nat. put 1%nat. put 2%nat. put 3%nat. put 4%nat. erewrite bind_Ret by reflexivity.
  by erewrite (write_field 5); [| reflexivity | field_len | field_len].
Qed.

Lemma read_one_topic topic id :
  topic ≠ [] → Z.of_nat (length topic) ≤ INT16_MAX → in_s 32 id → let request := concat (one_topic_fields id topic) in
  TMetadataRequestReader_new request () = (Ret (mkRequestReader request false), ()) ∧
  GetCorrelationId (mkRequestReader request false) () = (Ret id, ()) ∧
  GetTopic (mkRequestReader request false) () = (Ret (Some topic), ()).
Proof.
  intros Hne Hl Hid request. subst request. assert (length topic ≠ 0%nat) by by destruct topic.
  assert (Z.of_nat (length (concat (one_topic_fields id topic))) = 20 + Z.of_nat (length topic)) as HL by (unfold one_topic_fields; field_len).
  split_and!.
  - unfold TMetadataRequestReader_new, RequestSize, QR. erewrite bind_Ret.
    2: { get32 0%nat. rewrite (proj2 (Z.ltb_ge _ _)) by lia. reflexivity. }
    rewrite HL. rewrite massert_bind by (offsets; lia). case_test; [offsets; lia |].
    get16 1%nat. known. get16 2%nat. known. get16 4%nat. known. get32 5%nat. known.
    case_test; [offsets; lia |]. get16 6%nat.
    case_test; [lia |]. by rewrite (proj2 (Z.eqb_eq _ _)) by (offsets; lia).
  - unfold GetCorrelationId. eapply (read_field32 3); [reflexivity | done | field_len].
  - unfold GetTopic. cbn [AllTopics Begin]. unfold QR. get16 6%nat. erewrite bind_Ret; [done |].
    rewrite (concat_at 7 _ topic) by reflexivity. etransitivity; [| apply (rd_range_app (concat (take 7 (one_topic_fields id topic))) topic)].
    assert (Z.of_nat (length (concat (take 7 (one_topic_fields id topic)))) = SingleTopicHeaderSize) as -> by field_len. reflexivity.
Qed.

Lemma read_all_topics id :
  in_s 32 id → let request := concat (all_topics_fields id) in
  TMetadataRequestReader_new request () = (Ret (mkRequestReader request true), ()) ∧
  GetCorrelationId (mkRequestReader request true) () = (Ret id, ()) ∧
  GetTopic (mkRequestReader request true) () = (Ret None, ()).
Proof.
  intros Hid request. subst request.
  assert (Z.of_nat (length (concat (all_topics_fields id))) = 18) as HL by (unfold all_topics_fields; field_len). split_and!; [| | done].
  - unfold TMetadataRequestReader_new, RequestSize, QR. erewrite bind_Ret by (get32 0%nat; reflexivity).
    rewrite HL. rewrite massert_bind by done. cbn [Z.ltb Z.compare MinSize TOPIC_NAME_LENGTH_OFFSET Pos.compare Pos.compare_cont].
    get16 1%nat. known. get16 2%nat. known. get16 4%nat. known. get32 5%nat. known. done.
  - unfold GetCorrelationId. eapply (read_field32 3); [reflexivity | done | field_len].
Qed.

End requests.

(** A run that returns a value. *)
Lemma wp_value {S A} (m : M MdReader.exn S A) s a : wp m s (λ a' _, a' = a) (λ _ _, False) (λ _, False) → (m s).1 = Ret a.
Proof. unfold wp. by destruct (m s) as [[] ?]; intros []. Qed.

(** ** Theorems *)

Lemma BuildMetadataFromResponse_safe `{!StdSort} `{!Shuffle} `{!HashOrder} (buf : list byte) :
  buf ≠ [] → Z.of_nat (length buf) < 2 ^ 63 →
  match BuildMetadataFromResponse buf with Ret m => metadata_ok m | Throw _ => True | Fault _ => False end.
Proof.
  intros Hne Hl. unfold BuildMetadataFromResponse, MdReader.TMetadataResponseReader_new. rewrite decide_False by done.
  set (r := MdReader.mkMdReader _ _ _ _ _ _ _ _ _ _ _ _ _ _).
  pose proof (build_metadata_safe buf Hl r eq_refl eq_refl) as Hrun. unfold wp in Hrun. by destruct (build_metadata _) as [[] ?].
Qed.

Lemma BuildMetadataFromResponse_exact `{!StdSort} `{!Shuffle} `{!HashOrder} w :
  wire_ok w → ∃ m, BuildMetadataFromResponse (enc_response w) = Ret m ∧ metadata_ok m ∧ metadata_view m = response_view (response_md w).
Proof.
  intros Hw. unfold BuildMetadataFromResponse, MdReader.TMetadataResponseReader_new. rewrite decide_False by done.
  set (r := MdReader.mkMdReader _ _ _ _ _ _ _ _ _ _ _ _ _ _).
  pose proof (build_metadata_exact w r (conj eq_refl eq_refl) Hw) as Hrun. unfold wp in Hrun.
  destruct (build_metadata _) as [[m | |] ?]; [| done..]. by exists m.
Qed.

Lemma TopicAutocreateWasSuccessful_safe topic (buf : list byte) :
  buf ≠ [] → Z.of_nat (length buf) < 2 ^ 63 →
  match TopicAutocreateWasSuccessful topic buf with Fault _ => False | _ => True end.
Proof.
  intros Hne Hl. unfold TopicAutocreateWasSuccessful, MdReader.TMetadataResponseReader_new. rewrite decide_False by done.
  set (r := MdReader.mkMdReader _ _ _ _ _ _ _ _ _ _ _ _ _ _).
  assert (wp (was_successful topic) r (λ _ _, True) (λ _ _, True) (λ _, False)) as Hrun.
  { unfold was_successful. apply wp_bind. unfold MdReader.NextTopic. wstep.
    eapply wp_mono; [apply (FirstTopic_ok buf Hl); by left |]. cbv beta. intros more r1 ([Hs Hr1] & ->).
    destruct (Z.eqb_spec (MdReader.TopicsLeft r1) 0) as [| Hn]; [by eapply wp_Ret |]. cbn [negb].
    apply wp_bind. eapply wp_mono; [by apply (md_GetCurrentTopicName_ok buf) |]. cbv beta. intros name r2 ->.
    destruct (negb _); [by eapply wp_Ret |].
    apply wp_bind. eapply wp_mono; [by apply (GetCurrentTopicErrorCode_ok buf) |]. cbv beta. intros e r2 ->. by eapply wp_Ret. }
  unfold wp in Hrun. by destruct (was_successful topic r) as [[] ?].
Qed.

(** C19: Whatever bytes a broker sends as a metadata response, building metadata from them reads
    only inside of the buffer, fails no assertion of the reader or of the builder and ends: it
    returns metadata that satisfies the invariant of metadata, or throws. *)
Theorem metadata_response_safe `{!StdSort} `{!Shuffle} `{!HashOrder} (response_buf : list byte) :
  response_buf ≠ [] → Z.of_nat (length response_buf) < 2 ^ 63 →
  match BuildMetadataFromResponse response_buf with
  | Ret m => metadata_ok m
  | Throw _ => True
  | Fault _ => False
  end.
Proof. apply BuildMetadataFromResponse_safe. Qed.

Definition example_wire : wire_response :=
  mkWireResponse 7 [mkWireBroker 5 [x61] 9092; mkWireBroker 6 [x62; x63] 9093]
    [mkWireTopic 0 [x74] [mkWirePartition 0 1 5 [5; 6] [5]; mkWirePartition 9 0 6 [6] []];
     mkWireTopic 3 [x75] [mkWirePartition 0 0 5 [] []]].

Lemma metadata_response_safe_witness :
  let cut := take 40 (enc_response example_wire) in
  match @BuildMetadataFromResponse merge_order no_shuffle map_order cut with Ret m => metadata_ok m | Throw _ => True | Fault _ => False end.
Proof. apply (@metadata_response_safe merge_order no_shuffle map_order); [done | vm_compute; reflexivity]. Defined.

(** C18: A metadata response round trip.  The calls of the response writer for the contents of a
    response end without a failed assertion, whatever the vector had before, and the metadata
    built from the bytes written says what the response says: its brokers, its topics without
    an error, their partitions that have a leader among the brokers, leaders and error codes. *)
Theorem metadata_response_roundtrip `{!StdSort} `{!Shuffle} `{!HashOrder} (w : wire_response) (out : list byte) :
  wire_ok w → Z.of_nat (length (enc_response w)) ≤ INT32_MAX →
  ∃ written m, write_response w (MdWriter.TMetadataResponseWriter_new out) = (Ret (), MdWriter.TMetadataResponseWriter_new written) ∧
    BuildMetadataFromResponse written = Ret m ∧ metadata_ok m ∧ metadata_view m = response_view (response_md w).
Proof.
  intros Hw Hl. exists (enc_response w). destruct (BuildMetadataFromResponse_exact w Hw) as (m & Hrun & Hm).
  exists m. split; [by apply write_metadata_ok | done].
Qed.

Lemma example_wire_ok : wire_ok example_wire.
Proof. by split; repeat constructor. Qed.

Lemma metadata_response_roundtrip_witness :
  ∃ written m, write_response example_wire (MdWriter.TMetadataResponseWriter_new [x01]) =
      (Ret (), MdWriter.TMetadataResponseWriter_new written) ∧
    @BuildMetadataFromResponse merge_order no_shuffle map_order written = Ret m ∧ metadata_ok m ∧
    metadata_view m = response_view (response_md example_wire).
Proof. apply (@metadata_response_roundtrip merge_order no_shuffle map_order); [exact example_wire_ok | vm_compute; discriminate]. Defined.

(** Metadata requests are read back: the request for a topic gives the reader that topic and
    the correlation ID, the request for all topics gives no topic; the vector that is written
    to may have had any bytes. *)
Theorem metadata_request_roundtrip (topic : list byte) (correlation_id : Z) (before : list byte) :
  topic ≠ [] → Z.of_nat (length topic) ≤ INT16_MAX → in_s 32 correlation_id →
  ∃ one all, MdRequest.WriteSingleTopicRequest topic correlation_id before = (Ret (), one) ∧
    MdRequest.WriteAllTopicsRequest correlation_id before = (Ret (), all) ∧
    (∃ r, MdRequest.TMetadataRequestReader_new one () = (Ret r, ()) ∧ MdRequest.GetCorrelationId r () = (Ret correlation_id, ()) ∧
      MdRequest.IsAllTopics r = false ∧ MdRequest.GetTopic r () = (Ret (Some topic), ())) ∧
    (∃ r, MdRequest.TMetadataRequestReader_new all () = (Ret r, ()) ∧ MdRequest.GetCorrelationId r () = (Ret correlation_id, ()) ∧
      MdRequest.IsAllTopics r = true ∧ MdRequest.GetTopic r () = (Ret None, ())).
Proof.
  intros Hne Hl Hid. do 2 eexists. split; [by apply WriteSingleTopicRequest_ok |]. split; [by apply WriteAllTopicsRequest_ok |].
  destruct (read_one_topic topic correlation_id Hne Hl Hid) as (H1 & H2 & H3). destruct (read_all_topics correlation_id Hid) as (H4 & H5 & H6).
  split; by eexists.
Qed.

(** *** Responses that the parser does not expect *)

(** The length of a host's name is cast from [int16_t] to [size_t], where no negative length is
    less than one; with -10, the size of the broker wraps around to zero, and the parser makes
    a string from a range that ends before it begins. *)
Definition negative_host_response : list byte :=
  WriteInt32ToHeader 26 ++ WriteInt32ToHeader 0 ++ WriteInt32ToHeader 1 ++
  WriteInt32ToHeader 5 ++ WriteInt16ToHeader (-10) ++ replicate 12 x00.

(** The exception is not a [TBadMetadataResponse]. *)
Example negative_host_length_escapes :
  @BuildMetadataFromResponse merge_order no_shuffle map_order negative_host_response = Throw MdReader.length_error ∧
  MdReader.TBadMetadataResponse MdReader.length_error = false.
Proof. by vm_compute. Qed.

(** The name of a topic is passed as a C string: one that starts with a null byte is empty there,
    and the request writer's assertion fails. *)
Example nul_topic_fails :
  (WriteSingleTopicMetadataRequest (String.String (Ascii.ascii_of_nat 0) "t") 0 []).1 = Fault AssertFailed.
Proof. by vm_compute. Qed.

(** Whether a topic was created automatically is read from the first topic of the response,
    which must have the name asked for and the error code 0 or 5 (no leader yet). *)
Lemma TopicAutocreateWasSuccessful_exact (topic : string) (w : wire_response) :
  wire_ok w →
  TopicAutocreateWasSuccessful topic (enc_response w) =
    Ret (match wr_topics w with
         | [] => false
         | t :: _ => bool_decide (wt_name t = c_str (String.list_byte_of_string topic)) && ((wt_error t =? 0) || (wt_error t =? 5))
         end).
Proof.
  intros Hw. unfold TopicAutocreateWasSuccessful, MdReader.TMetadataResponseReader_new. rewrite decide_False by done.
  set (r := MdReader.mkMdReader _ _ _ _ _ _ _ _ _ _ _ _ _ _). apply wp_value. unfold was_successful. apply wp_bind.
  eapply wp_mono; [apply (x_FirstTopic w); [done | by left] |]. cbv beta. intros more r1 [H1 ->]. pose proof (wo_topics _ Hw) as Hok.
  destruct (wr_topics w) as [| t ts]; [by eapply wp_Ret |]. rewrite bool_decide_true by done. cbn [negb].
  destruct (x_topic_fields t ts r1 H1 (Forall_inv Hok)) as [H2 H3].
  apply wp_bind. eapply wp_mono; [exact H3 |]. cbv beta. intros name r2 [-> ->].
  case_bool_decide; cbn [negb andb]; [| by eapply wp_Ret].
  apply wp_bind. eapply wp_mono; [exact H2 |]. cbv beta. intros e r2 [-> ->]. by eapply wp_Ret.
Qed.
