(* ===== verification/IoUtil.v ===== *)
(** * Exact transfers with a deadline

    The fatal and nonfatal errors of system calls (base/wr/common.cc, base/wr/fd_util.cc,
    base/wr/net_util.cc), times (base/time.{h,cc}) and the transfers of base/io_util.cc that
    retry until all of a buffer has been read or written.  The system calls are a class of
    operations on a world; what is relied on is the class [SockLaws]. *)
From S2P Require Import Prelude StreamReader Backoff.

(** ** System calls *)

(** [errno] values. *)
Definition EIO : Z := 5.
Definition EBADF : Z := 9.
Definition ENOMEM : Z := 12.
Definition EFAULT : Z := 14.
Definition EINVAL : Z := 22.
Definition EPIPE : Z := 32.
Definition ENOTSOCK : Z := 88.
Definition EDESTADDRREQ : Z := 89.
Definition EOPNOTSUPP : Z := 95.
Definition ECONNRESET : Z := 104.
Definition EISCONN : Z := 106.
Definition ENOTCONN : Z := 107.
Definition ETIMEDOUT : Z := 110.
Definition ECONNREFUSED : Z := 111.
Definition EHOSTDOWN : Z := 112.
Definition EHOSTUNREACH : Z := 113.

(** The result of a call: a value, or -1 with [errno]. *)
Inductive sys_result := SysRet (n : Z) | SysErr (errno : Z).

(** The calls, on the file descriptor given first.  [sys_poll] waits for input or output;
    [sys_fstat] says whether the descriptor is a socket. *)
Class SockEnv (W : Type) := {
  sys_poll : Z → bool → Z → W → sys_result * W;
  sys_read : Z → Z → W → read_result * W;
  sys_send : Z → list byte → W → sys_result * W;
  sys_write : Z → list byte → W → sys_result * W;
  sys_fstat : Z → W → sys_result * bool * W;
  clock_raw : W → timespec * W
}.

(** What is relied on: a transfer takes at most the bytes asked for, in order, and an error
    transfers nothing.  [sent] and [received] are the bytes so far.  The errors of [poll] are
    those of its specification. *)
Class SockLaws (W : Type) `{!SockEnv W} := {
  sent : W → list byte;
  received : W → list byte;
  poll_law fd out t w r w' : sys_poll fd out t w = (r, w') →
    (sent w' = sent w ∧ received w' = received w) ∧
    match r with SysRet n => 0 ≤ n | SysErr e => e ∈ [EFAULT; EINTR; EINVAL; ENOMEM] end;
  read_law fd n w r w' : 0 ≤ n → sys_read fd n w = (r, w') → sent w' = sent w ∧
    match r with
    | ReadBytes b => Z.of_nat (length b) ≤ n ∧ received w' = received w ++ b
    | ReadError _ => received w' = received w
    end;
  send_law fd b w r w' : sys_send fd b w = (r, w') → received w' = received w ∧
    match r with
    | SysRet n => 0 ≤ n ≤ Z.of_nat (length b) ∧ sent w' = sent w ++ take (Z.to_nat n) b
    | SysErr _ => sent w' = sent w
    end;
  write_law fd b w r w' : sys_write fd b w = (r, w') → received w' = received w ∧
    match r with
    | SysRet n => 0 ≤ n ≤ Z.of_nat (length b) ∧ sent w' = sent w ++ take (Z.to_nat n) b
    | SysErr _ => sent w' = sent w
    end;
  fstat_law fd w r w' : sys_fstat fd w = (r, w') → sent w' = sent w ∧ received w' = received w;
  clock_law w t w' : clock_raw w = (t, w') → sent w' = sent w ∧ received w' = received w
}.

(** ** Fatal errors *)

Inductive TDisp := AddFatal | AddNonfatal | Fatal | Nonfatal.

Definition contains (err_list : list Z) (err : Z) : bool := existsb (Z.eqb err) err_list.

Definition IsFatal (err : Z) (disp : TDisp) (err_list : list Z) (list_fatal : bool) (default_err_list : list Z) : bool :=
  let default := Bool.eqb (contains default_err_list err) list_fatal in
  match disp with
  | AddFatal => if contains err_list err then true else default
  | AddNonfatal => if contains err_list err then false else default
  | Fatal => Bool.eqb (contains err_list err) true
  | Nonfatal => Bool.eqb (contains err_list err) false
  end.

(** The errors for which a wrapper of a system call ends the process unless it is told
    otherwise. *)
Definition fatal_poll : list Z := [EFAULT; EINVAL; ENOMEM].
Definition fatal_read : list Z := [EBADF; EFAULT; EINVAL].
Definition fatal_write : list Z := [EBADF; EDESTADDRREQ; EFAULT; EINVAL].
Definition fatal_fstat : list Z := [EBADF; EFAULT; ENOMEM].
Definition fatal_send : list Z := [EBADF; EDESTADDRREQ; EFAULT; EINVAL; EISCONN; ENOMEM; ENOTCONN; ENOTSOCK; EOPNOTSUPP].

(** ** Times *)

Definition TTime_lt (a b : timespec) : bool := (tv_sec a <? tv_sec b) || ((tv_sec a =? tv_sec b) && (tv_nsec a <? tv_nsec b)).
Definition TTime_eq (a b : timespec) : bool := (tv_sec a =? tv_sec b) && (tv_nsec a =? tv_nsec b).
Definition TTime_le (a b : timespec) : bool := TTime_lt a b || TTime_eq a b.

Definition TTime_add (a b : timespec) : timespec :=
  let sec := tv_sec a + tv_sec b in
  let nsec := tv_nsec a + tv_nsec b in
  if 1000000000 <=? nsec then mkTime (sec + 1) (nsec - 1000000000) else mkTime sec nsec.

Definition TTime_sub (a b : timespec) : timespec :=
  let sec := tv_sec a - tv_sec b in
  let nsec := tv_nsec a - tv_nsec b in
  if nsec <? 0 then mkTime (sec - 1) (nsec + 1000000000) else mkTime sec nsec.

Definition TTime_add_ms (a : timespec) (msec : Z) : timespec :=
  TTime_add a (mkTime (msec `div` 1000) (msec `mod` 1000 * 1000000)).

(** [Remaining], at the time [now]. *)
Definition Remaining (deadline now : timespec) : Z :=
  if TTime_le deadline now then 0
  else
    let diff := TTime_sub deadline now in
    uwrap 64 (tv_sec diff * 1000 + tv_nsec diff `quot` 1000000).

(** ** Transfers *)

(** [std::system_error] and [TUnexpectedEnd]. *)
Inductive io_exn := IoError (errno : Z) | TUnexpectedEnd.

Section transfers.
Context {W : Type} {env : SockEnv W}.

Definition IM := M io_exn W.

Definition call {A} (f : W → A * W) : IM A := λ w, let '(a, w') := f w in (Ret a, w').

(** The end of a wrapper of a system call. *)
Definition wr (disp : TDisp) (errors default_fatal : list Z) (r : sys_result) : IM sys_result :=
  match r with
  | SysErr e => if IsFatal e disp errors true default_fatal then crash Died else mret r
  | SysRet _ => mret r
  end.

Definition Wr_poll (disp : TDisp) (errors : list Z) (fd : Z) (out : bool) (timeout : Z) : IM sys_result :=
  r ← call (sys_poll fd out timeout); wr disp errors fatal_poll r.

Definition Wr_read (fd max_size : Z) : IM read_result :=
  r ← call (sys_read fd max_size);
  match r with
  | ReadError e => if IsFatal e AddFatal [] true fatal_read then crash Died else mret r
  | ReadBytes _ => mret r
  end.

Definition Wr_send (fd : Z) (buf : list byte) : IM sys_result :=
  r ← call (sys_send fd buf); wr AddFatal [] fatal_send r.

Definition Wr_write (fd : Z) (buf : list byte) : IM sys_result :=
  r ← call (sys_write fd buf); wr AddFatal [] fatal_write r.

Definition IfLt0 (r : sys_result) : IM Z := match r with SysRet n => mret n | SysErr e => throw (IoError e) end.

(** The bytes read. *)
Definition ReadAtMost (fd max_size : Z) : IM (list byte) :=
  r ← Wr_read fd max_size;
  match r with ReadBytes b => mret b | ReadError e => throw (IoError e) end.

Definition wait_ready (fd : Z) (out : bool) (timeout_ms : Z) : IM () :=
  if 0 <=? timeout_ms then
    r ← Wr_poll AddFatal [] fd out timeout_ms;
    ret ← IfLt0 r;
    if ret =? 0 then throw (IoError ETIMEDOUT) else mret ()
  else mret ().

Definition ReadAtMost_timeout (fd max_size timeout_ms : Z) : IM (list byte) :=
  wait_ready fd false timeout_ms;; ReadAtMost fd max_size.

Definition WriteAtMost (fd : Z) (buf : list byte) : IM Z :=
  stat ← call (sys_fstat fd);
  r ← wr AddFatal [] fatal_fstat stat.1;
  IfLt0 r;;
  r ← (if stat.2 : bool then Wr_send fd buf else Wr_write fd buf);
  IfLt0 r.

Definition WriteAtMost_timeout (fd : Z) (buf : list byte) (timeout_ms : Z) : IM Z :=
  wait_ready fd true timeout_ms;; WriteAtMost fd buf.

(** The loops.  [got] has been read or written so far; each turn of a loop transfers a byte
    at least, so that the number of bytes is enough fuel.  The result of the reads is the
    bytes of the buffer. *)
Fixpoint read_loop (fuel : nat) (fd size : Z) (got : list byte) : IM (option (list byte)) :=
  if size <=? Z.of_nat (length got) then mret (Some got)
  else
    match fuel with
    | O => crash OutOfFuel
    | S fuel =>
        actual ← ReadAtMost fd (size - Z.of_nat (length got));
        if bool_decide (actual = []) then
          if bool_decide (got = []) then mret None else throw TUnexpectedEnd
        else read_loop fuel fd size (got ++ actual)
    end.

Definition TryReadExactly (fd size : Z) : IM (option (list byte)) := read_loop (Z.to_nat size) fd size [].

Fixpoint timed_read_loop (fuel : nat) (fd size : Z) (deadline : timespec) (time_left : Z) (got : list byte) : IM (option (list byte)) :=
  match fuel with
  | O => crash OutOfFuel
  | S fuel =>
      actual ← ReadAtMost_timeout fd (size - Z.of_nat (length got)) time_left;
      if bool_decide (actual = []) then
        if bool_decide (got = []) then mret None else throw TUnexpectedEnd
      else
        let got := got ++ actual in
        if size <=? Z.of_nat (length got) then
          massert (Z.of_nat (length got) =? size);; mret (Some got)
        else
          now ← call clock_raw;
          timed_read_loop fuel fd size deadline (swrap 32 (Remaining deadline now)) got
  end.

Definition TryReadExactly_timeout (fd size timeout_ms : Z) : IM (option (list byte)) :=
  if timeout_ms <? 0 then TryReadExactly fd size
  else if size =? 0 then mret (Some [])
  else
    now ← call clock_raw;
    timed_read_loop (Z.to_nat size) fd size (TTime_add_ms now timeout_ms) timeout_ms [].

Fixpoint write_loop (fuel : nat) (fd : Z) (buf : list byte) (csr : Z) : IM bool :=
  if Z.of_nat (length buf) <=? csr then mret true
  else
    match fuel with
    | O => crash OutOfFuel
    | S fuel =>
        actual_size ← WriteAtMost fd (drop (Z.to_nat csr) buf);
        if actual_size =? 0 then
          if 0 <? csr then throw TUnexpectedEnd else mret false
        else write_loop fuel fd buf (csr + actual_size)
    end.

Definition TryWriteExactly (fd : Z) (buf : list byte) : IM bool := write_loop (length buf) fd buf 0.

Fixpoint timed_write_loop (fuel : nat) (fd : Z) (buf : list byte) (deadline : timespec) (time_left csr : Z) : IM bool :=
  match fuel with
  | O => crash OutOfFuel
  | S fuel =>
      actual_size ← WriteAtMost_timeout fd (drop (Z.to_nat csr) buf) time_left;
      if actual_size =? 0 then
        if 0 <? csr then throw TUnexpectedEnd else mret false
      else
        let csr := csr + actual_size in
        if Z.of_nat (length buf) <=? csr then
          massert (csr =? Z.of_nat (length buf));; mret true
        else
          now ← call clock_raw;
          timed_write_loop fuel fd buf deadline (swrap 32 (Remaining deadline now)) csr
  end.

Definition TryWriteExactly_timeout (fd : Z) (buf : list byte) (timeout_ms : Z) : IM bool :=
  if timeout_ms <? 0 then TryWriteExactly fd buf
  else if bool_decide (buf = []) then mret true
  else
    now ← call clock_raw;
    timed_write_loop (length buf) fd buf (TTime_add_ms now timeout_ms) timeout_ms 0.

End transfers.
Arguments IM : clear implicits.

(** ** Steps of the world *)

Section steps.
Context {W : Type} {env : SockEnv W}.

(** A call of the program. *)
Inductive sock_step (w w' : W) : Prop :=
| step_poll fd out t r : sys_poll fd out t w = (r, w') → sock_step w w'
| step_read fd n r : sys_read fd n w = (r, w') → sock_step w w'
| step_send fd b r : sys_send fd b w = (r, w') → sock_step w w'
| step_write fd b r : sys_write fd b w = (r, w') → sock_step w w'
| step_fstat fd r : sys_fstat fd w = (r, w') → sock_step w w'
| step_clock t : clock_raw w = (t, w') → sock_step w w'.

(** A call fails in a way that ends the process.  For [read] this is any error other than a
    lost connection: those that the wrapper does not end the process for, the caller does. *)
Inductive sock_fatal (w : W) : Prop :=
| poll_dies fd out t e w' :
    sys_poll fd out t w = (SysErr e, w') → IsFatal e AddFatal [EINTR] true fatal_poll = true → sock_fatal w
| read_dies fd n e w' : sys_read fd n w = (ReadError e, w') → LostTcpConnection e = false → sock_fatal w
| send_dies fd b e w' : sys_send fd b w = (SysErr e, w') → IsFatal e AddFatal [] true fatal_send = true → sock_fatal w
| write_dies fd b e w' : sys_write fd b w = (SysErr e, w') → IsFatal e AddFatal [] true fatal_write = true → sock_fatal w
| fstat_dies fd e sock w' :
    sys_fstat fd w = ((SysErr e, sock), w') → IsFatal e AddFatal [] true fatal_fstat = true → sock_fatal w.

(** [ok] are the states that a run may come to, and [ends] holds if one of them has a call that ends
    the process. *)
Class Watch (ok : W → Prop) (ends : Prop) : Prop := {
  watch_step w w' : ok w → sock_step w w' → ok w';
  watch_fatal w : ok w → sock_fatal w → ends
}.

End steps.

(** [wpo world m s Q T]: the run of [m] returns or throws, or ends the process if [ends]; the
    world stays within [ok]. *)
Section wpo.
Context {W : Type} {ok : W → Prop} {ends : Prop} {E S : Type} (world : S → W).

Definition wpo {A} (m : M E S A) (s : S) (Q : A → S → Prop) (T : E → S → Prop) : Prop :=
  ok (world s) → wp m s (λ a s', ok (world s') ∧ Q a s') (λ e s', ok (world s') ∧ T e s') (λ x, x = Died ∧ ends).

Lemma wpo_bind {A B} (m : M E S A) (k : A → M E S B) s Q T :
  wpo m s (λ a s', wpo (k a) s' Q T) T → wpo (m ≫= k) s Q T.
Proof. intros H Ho. apply wp_bind. eapply wp_mono; [exact (H Ho) |]. cbv beta. intros a s' [H1 H2]. exact (H2 H1). Qed.

Lemma wpo_weaken {A} (m : M E S A) s (Q Q' : A → S → Prop) (T T' : E → S → Prop) :
  wpo m s Q T → (∀ a s', Q a s' → Q' a s') → (∀ e s', T e s' → T' e s') → wpo m s Q' T'.
Proof. intros H HQ HT Ho. eapply wp_weaken; [exact (H Ho) | naive_solver..]. Qed.

Lemma wpo_mono {A} (m : M E S A) s (Q Q' : A → S → Prop) T : wpo m s Q T → (∀ a s', Q a s' → Q' a s') → wpo m s Q' T.
Proof. intros H HQ. by eapply wpo_weaken. Qed.

Lemma wpo_Ret {A} (m : M E S A) s a s' (Q : A → S → Prop) T :
  m s = (Ret a, s') → world s' = world s → Q a s' → wpo m s Q T.
Proof. intros Hm Hw HQ Ho. eapply wp_Ret; [exact Hm |]. by rewrite Hw. Qed.

Lemma wpo_Throw {A} (m : M E S A) s e s' (Q : A → S → Prop) (T : E → S → Prop) :
  m s = (Throw e, s') → world s' = world s → T e s' → wpo m s Q T.
Proof. intros Hm Hw HT Ho. eapply wp_Throw; [exact Hm |]. by rewrite Hw. Qed.

Lemma wpo_step {A B} (m : M E S A) (k : A → M E S B) s a s' Q T :
  m s = (Ret a, s') → world s' = world s → wpo (k a) s' Q T → wpo (m ≫= k) s Q T.
Proof. intros Hm Hw Hk. apply wpo_bind. by eapply wpo_Ret. Qed.

Lemma wpo_massert {A} (b : bool) (k : () → M E S A) s Q T : b = true → wpo (k ()) s Q T → wpo (massert b ≫= k) s Q T.
Proof. intros ->. by apply wpo_step. Qed.

Lemma wpo_dies {A} (m : M E S A) s s' (Q : A → S → Prop) T : m s = (Fault Died, s') → (ok (world s) → ends) → wpo m s Q T.
Proof. intros Hm He Ho. unfold wp. rewrite Hm. auto. Qed.

Lemma wpo_last {A} (m : M E S A) s Q T : wpo (m ≫= mret) s Q T → wpo m s Q T.
Proof. intros H Ho. specialize (H Ho). revert H. unfold wp, mbind, M_bind. by destruct (m s) as [[] ?]. Qed.

(** A handler that runs after an exception. *)
Lemma wpo_catch {A} (m : M E S A) (h : E → M E S A) s Q (T T' : E → S → Prop) :
  wpo m s Q T → (∀ e s', T e s' → wpo (h e) s' Q T') → wpo (try_catch m h) s Q T'.
Proof.
  intros Hm Hh Ho. specialize (Hm Ho). unfold wp, try_catch in *. destruct (m s) as [[a | e | x] s']; [done | | done].
  destruct Hm as [H1 H2]. exact (Hh e s' H2 H1).
Qed.
End wpo.

Ltac ostep := eapply wpo_step; [reflexivity | reflexivity | cbv beta].

(** ** What the transfers do *)

Section correct.
Context {W : Type} {env : SockEnv W} {laws : SockLaws W} {ok : W → Prop} {ends : Prop} {watch : Watch ok ends}.

Notation wpi m w Q T := (wpo (ok := ok) (ends := ends) (λ x : W, x) m w Q T).

Implicit Types (w : W).

Definition quiet w w' : Prop := sent w' = sent w ∧ received w' = received w.

Lemma call_ok {A B} (f : W → A * W) (k : A → IM W B) w Q T :
  (∀ a w', ok w → f w = (a, w') → sock_step w w' ∧ wpi (k a) w' Q T) → wpi (call f ≫= k) w Q T.
Proof.
  intros Hk Ho. apply wp_bind. unfold wp at 1, call. destruct (f w) as [a w'] eqn:E. destruct (Hk a w' Ho eq_refl) as [H1 H2].
  apply H2. by eapply watch_step.
Qed.

(** A wrapper keeps the result, if it returns. *)
Lemma wr_ok {B} disp errors fatal r (k : sys_result → IM W B) w Q T :
  (∀ e, r = SysErr e → IsFatal e disp errors true fatal = true → ends) → wpi (k r) w Q T → wpi (wr disp errors fatal r ≫= k) w Q T.
Proof.
  intros He Hk. apply wpo_bind. unfold wr. destruct r as [| e]; [by eapply wpo_Ret |].
  destruct (IsFatal _ _ _ _ _) eqn:E; [| by eapply wpo_Ret]. eapply wpo_dies; [reflexivity |]. intros _. by eapply He.
Qed.

Lemma IfLt0_ok {B} r (k : Z → IM W B) w Q T :
  match r with SysRet n => wpi (k n) w Q T | SysErr e => T (IoError e) w end → wpi (IfLt0 r ≫= k) w Q T.
Proof. intros Hr. apply wpo_bind. destruct r; [by eapply wpo_Ret | by eapply wpo_Throw]. Qed.

Lemma poll_more e : IsFatal e AddFatal [] true fatal_poll = true → IsFatal e AddFatal [EINTR] true fatal_poll = true.
Proof. unfold IsFatal at 2. by destruct (contains [EINTR] e). Qed.

Lemma read_not_lost e : IsFatal e AddFatal [] true fatal_read = true → LostTcpConnection e = false.
Proof.
  unfold IsFatal, fatal_read. cbn. intros H.
  assert (e = EBADF ∨ e = EFAULT ∨ e = EINVAL) as [-> | [-> | ->]] by (unfold EBADF, EFAULT, EINVAL in *; lia); done.
Qed.

Lemma wait_ready_ok fd out t w :
  wpi (wait_ready fd out t) w (λ _ w', quiet w w') (λ e w', quiet w w' ∧ e ≠ TUnexpectedEnd).
Proof.
  unfold wait_ready. destruct (0 <=? t); [| by eapply wpo_Ret]. apply wpo_bind. unfold Wr_poll. apply call_ok. intros r w' Ho E.
  split; [by eapply step_poll |].
  destruct (poll_law _ _ _ _ _ _ E) as [Hq _]. apply wpo_last, wr_ok.
  { intros e -> He. eapply watch_fatal; [exact Ho |]. eapply poll_dies; [exact E | by apply poll_more]. }
  eapply wpo_Ret; [reflexivity | reflexivity |].
  apply IfLt0_ok. destruct r as [n |]; [| done]. destruct (n =? 0); [by eapply wpo_Throw | by eapply wpo_Ret].
Qed.

(** *** Writing *)

Definition wrote w (b : list byte) (n : Z) w' : Prop :=
  0 ≤ n ≤ Z.of_nat (length b) ∧ sent w' = sent w ++ take (Z.to_nat n) b ∧ received w' = received w.

Lemma WriteAtMost_ok fd b w :
  wpi (WriteAtMost fd b) w (λ n w', wrote w b n w') (λ e w', quiet w w' ∧ e ≠ TUnexpectedEnd).
Proof.
  unfold WriteAtMost. apply call_ok. intros [r sock] w1 Ho E1. split; [by eapply step_fstat |].
  destruct (fstat_law _ _ _ _ E1) as [Hs1 Hr1]. cbn [fst snd].
  apply wr_ok; [intros e -> He; eapply watch_fatal; [exact Ho | by eapply fstat_dies] |]. apply IfLt0_ok. destruct r as [z | e]; [| done].
  assert (∀ r w', received w' = received w1 ∧ match r with
    | SysRet n => 0 ≤ n ≤ Z.of_nat (length b) ∧ sent w' = sent w1 ++ take (Z.to_nat n) b
    | SysErr _ => sent w' = sent w1 end → wpi (IfLt0 r) w' (λ n w', wrote w b n w') (λ e w', quiet w w' ∧ e ≠ TUnexpectedEnd)) as Hend.
  { intros r w' [H1 H2]. apply wpo_last, IfLt0_ok. unfold wrote, quiet. destruct r as [n | e]; [eapply wpo_Ret; [reflexivity | reflexivity |] |].
    - rewrite H1, <- Hs1, <- Hr1. naive_solver.
    - split; [split |]; congruence. }
  apply wpo_bind. destruct sock; unfold Wr_send, Wr_write; apply call_ok; intros r w2 Ho1 E2; (split; [by econstructor |]); apply wpo_last, wr_ok.
  - intros e -> He. eapply watch_fatal; [exact Ho1 | by eapply send_dies].
  - eapply wpo_Ret; [reflexivity | reflexivity |]. apply Hend. by eapply send_law.
  - intros e -> He. eapply watch_fatal; [exact Ho1 | by eapply write_dies].
  - eapply wpo_Ret; [reflexivity | reflexivity |]. apply Hend. by eapply write_law.
Qed.

Lemma WriteAtMost_timeout_ok fd b t w :
  wpi (WriteAtMost_timeout fd b t) w (λ n w', wrote w b n w') (λ e w', quiet w w' ∧ e ≠ TUnexpectedEnd).
Proof.
  unfold WriteAtMost_timeout. apply wpo_bind. eapply wpo_mono; [apply wait_ready_ok |]. cbv beta. intros _ w1 [H1 H2].
  eapply wpo_weaken; [apply WriteAtMost_ok | |]; unfold wrote, quiet; rewrite H1, H2; done.
Qed.

(** How a write of [buf] ends: with all of it sent, or none if the result is false; an
    exception is thrown with a part of it sent. *)
Definition write_result w buf (all : bool) w' : Prop :=
  received w' = received w ∧ sent w' = sent w ++ (if all then buf else []).

Definition write_failed w buf (e : io_exn) w' : Prop :=
  received w' = received w ∧
  ∃ n, (n < length buf)%nat ∧ sent w' = sent w ++ take n buf ∧ (e = TUnexpectedEnd → n ≠ 0%nat).

(** After [csr] bytes. *)
Definition write_at w0 (buf : list byte) (csr : Z) w : Prop := wrote w0 buf csr w ∧ csr < Z.of_nat (length buf).

Lemma wrote_more w0 buf csr w n w' :
  write_at w0 buf csr w → wrote w (drop (Z.to_nat csr) buf) n w' → wrote w0 buf (csr + n) w'.
Proof.
  intros [(Hc & Hs & Hr) Hlt] (Hn & Hs' & Hr'). rewrite length_drop in Hn. split; [lia |]. split; [| congruence].
  rewrite Hs', Hs, <- app_assoc. f_equal. rewrite Z2Nat.inj_add by lia. by rewrite <- take_take_drop.
Qed.

Lemma write_failed_at w0 buf csr w w' e :
  write_at w0 buf csr w → quiet w w' → (e = TUnexpectedEnd → 0 < csr) → write_failed w0 buf e w'.
Proof.
  intros [(Hc & Hs & Hr) Hlt] [Hs' Hr'] He. split; [congruence |]. exists (Z.to_nat csr).
  split; [lia |]. split; [congruence |]. intros E. specialize (He E). lia.
Qed.

(** What follows a transfer of [actual_size] bytes, in both loops. *)
Lemma write_step w0 buf csr w n w1 (rest : IM W bool) :
  write_at w0 buf csr w → wrote w (drop (Z.to_nat csr) buf) n w1 →
  (n ≠ 0 → wrote w0 buf (csr + n) w1 → wpi rest w1 (write_result w0 buf) (write_failed w0 buf)) →
  wpi (if n =? 0 then if 0 <? csr then throw TUnexpectedEnd else mret false else rest) w1 (write_result w0 buf) (write_failed w0 buf).
Proof.
  intros Hw Hn Hrest. pose proof (wrote_more _ _ _ _ _ _ Hw Hn) as Hn'. destruct (Z.eqb_spec n 0) as [-> | H0]; [| by apply Hrest].
  rewrite Z.add_0_r in Hn'. assert (quiet w w1) as Hq.
  { destruct Hn as (_ & H1 & H2). cbn in H1. by rewrite app_nil_r in H1. }
  destruct (Z.ltb_spec 0 csr); [eapply wpo_Throw; [reflexivity | reflexivity |]; by eapply write_failed_at |].
  eapply wpo_Ret; [reflexivity | reflexivity |]. destruct Hn' as (H1 & H2 & H3). assert (csr = 0) as -> by lia. split; [done |]. by rewrite H2.
Qed.

Lemma write_loop_ok fuel fd buf csr w0 w :
  wrote w0 buf csr w → Z.of_nat (length buf) - csr ≤ Z.of_nat fuel →
  wpi (write_loop fuel fd buf csr) w (write_result w0 buf) (write_failed w0 buf).
Proof.
  revert csr w. induction fuel as [| fuel IH]; intros csr w Hw Hf; cbn [write_loop];
    (destruct (Z.leb_spec (Z.of_nat (length buf)) csr) as [Hle | Hlt];
     [eapply wpo_Ret; [reflexivity | reflexivity |]; destruct Hw as (H1 & H2 & H3); split; [done |]; by rewrite H2, take_ge by lia |]); [lia |].
  apply wpo_bind. eapply wpo_weaken; [apply WriteAtMost_ok | |]; cbv beta.
  - intros n w1 Hn. eapply write_step; [by split | done |]. intros H0 Hn'. apply IH; [done |]. destruct Hn. lia.
  - intros e w1 [Hq He]. by eapply write_failed_at.
Qed.

Lemma timed_write_loop_ok fuel fd buf deadline t csr w0 w :
  write_at w0 buf csr w → Z.of_nat (length buf) - csr ≤ Z.of_nat fuel →
  wpi (timed_write_loop fuel fd buf deadline t csr) w (write_result w0 buf) (write_failed w0 buf).
Proof.
  revert t csr w. induction fuel as [| fuel IH]; intros t csr w Hw Hf; [destruct Hw; lia |]. cbn [timed_write_loop].
  apply wpo_bind. eapply wpo_weaken; [apply WriteAtMost_timeout_ok | |]; cbv beta.
  - intros n w1 Hn. eapply write_step; [done | done |]. intros H0 Hn'. destruct (Z.leb_spec (Z.of_nat (length buf)) (csr + n)) as [Hle | Hlt].
    + destruct Hn' as (H1 & H2 & H3). apply wpo_massert; [lia |]. eapply wpo_Ret; [reflexivity | reflexivity |]. split; [done |]. by rewrite H2, take_ge by lia.
    + apply call_ok. intros now w2 _ E. split; [by eapply step_clock |]. destruct (clock_law _ _ _ E) as [H1 H2]. destruct Hn as [Hn _]. apply IH; [| lia].
      split; [| done]. destruct Hn' as (H3 & H4 & H5). split; [done |]. split; congruence.
  - intros e w1 [Hq He]. by eapply write_failed_at.
Qed.

(** *** Reading *)

Definition read_more w (max : Z) (b : list byte) w' : Prop :=
  Z.of_nat (length b) ≤ max ∧ received w' = received w ++ b ∧ sent w' = sent w.

Lemma ReadAtMost_ok fd n w :
  0 ≤ n → wpi (ReadAtMost fd n) w (λ b w', read_more w n b w') (λ e w', quiet w w' ∧ e ≠ TUnexpectedEnd).
Proof.
  intros Hn. unfold ReadAtMost, Wr_read. apply wpo_bind. apply call_ok. intros r w1 Ho E.
  split; [by eapply step_read |]. destruct (read_law _ _ _ _ _ Hn E) as [H1 H2].
  destruct r as [b | e].
  - eapply wpo_Ret; [reflexivity | reflexivity |]. eapply wpo_Ret; [reflexivity | reflexivity |]. unfold read_more. naive_solver.
  - destruct (IsFatal _ _ _ _ _) eqn:Ef.
    + eapply wpo_dies; [reflexivity |]. intros _. eapply watch_fatal; [exact Ho |]. eapply read_dies; [exact E | by apply read_not_lost].
    + eapply wpo_Ret; [reflexivity | reflexivity |]. by eapply wpo_Throw.
Qed.

Lemma ReadAtMost_timeout_ok fd n t w :
  0 ≤ n → wpi (ReadAtMost_timeout fd n t) w (λ b w', read_more w n b w') (λ e w', quiet w w' ∧ e ≠ TUnexpectedEnd).
Proof.
  intros Hn. unfold ReadAtMost_timeout. apply wpo_bind. eapply wpo_mono; [apply wait_ready_ok |]. cbv beta. intros _ w1 [H1 H2].
  eapply wpo_weaken; [by apply ReadAtMost_ok | |]; unfold read_more, quiet; rewrite H1, H2; done.
Qed.

(** How a read of [size] bytes ends: with the next [size] bytes, or with none; an exception is
    thrown with fewer. *)
Definition read_outcome w (size : Z) (r : option (list byte)) w' : Prop :=
  sent w' = sent w ∧
  match r with
  | Some b => Z.of_nat (length b) = size ∧ received w' = received w ++ b
  | None => received w' = received w
  end.

Definition read_failed w (size : Z) (e : io_exn) w' : Prop :=
  sent w' = sent w ∧
  ∃ b, Z.of_nat (length b) < size ∧ received w' = received w ++ b ∧ (e = TUnexpectedEnd → b ≠ []).

(** After [got]. *)
Definition read_at w0 (got : list byte) w : Prop := sent w = sent w0 ∧ received w = received w0 ++ got.

Lemma read_at_more w0 got w n b w' : read_at w0 got w → read_more w n b w' → read_at w0 (got ++ b) w'.
Proof. intros [H1 H2] (H3 & H4 & H5). split; [congruence |]. by rewrite H4, H2, app_assoc. Qed.

Lemma read_failed_at w0 size got w w' e :
  read_at w0 got w → Z.of_nat (length got) < size → quiet w w' → (e = TUnexpectedEnd → got ≠ []) → read_failed w0 size e w'.
Proof. intros [H1 H2] Hl [H3 H4] He. split; [congruence |]. exists got. split_and!; [done | congruence | done]. Qed.

Lemma read_step w0 size got w b w1 (rest : IM W (option (list byte))) :
  read_at w0 got w → Z.of_nat (length got) < size → read_more w (size - Z.of_nat (length got)) b w1 →
  (b ≠ [] → read_at w0 (got ++ b) w1 → wpi rest w1 (read_outcome w0 size) (read_failed w0 size)) →
  wpi (if bool_decide (b = []) then if bool_decide (got = []) then mret None else throw TUnexpectedEnd else rest) w1
    (read_outcome w0 size) (read_failed w0 size).
Proof.
  intros Hw Hl Hb Hrest. pose proof (read_at_more _ _ _ _ _ _ Hw Hb) as Hb'. case_bool_decide as E; [| by apply Hrest]. subst b.
  assert (quiet w w1) as Hq by (destruct Hb as (_ & H1 & H2); by rewrite app_nil_r in H1).
  case_bool_decide as Eg; [| eapply wpo_Throw; [reflexivity | reflexivity |]; by apply (read_failed_at w0 size got w)].
  eapply wpo_Ret; [reflexivity | reflexivity |]. subst got. destruct Hb' as [H1 H2]. split; [done |]. by rewrite app_nil_r in H2.
Qed.

Lemma read_loop_ok fuel fd size got w0 w :
  read_at w0 got w → Z.of_nat (length got) ≤ size → size - Z.of_nat (length got) ≤ Z.of_nat fuel →
  wpi (read_loop fuel fd size got) w (read_outcome w0 size) (read_failed w0 size).
Proof.
  revert got w. induction fuel as [| fuel IH]; intros got w Hw Hl Hf; cbn [read_loop];
    (destruct (Z.leb_spec size (Z.of_nat (length got))) as [Hle | Hlt];
     [eapply wpo_Ret; [reflexivity | reflexivity |]; destruct Hw as [H1 H2]; split; [done |]; split; [lia | done] |]); [lia |].
  apply wpo_bind. eapply wpo_weaken; [apply ReadAtMost_ok; lia | |]; cbv beta.
  - intros b w1 Hb. eapply read_step; [done | done | done |]. intros Hne Hb'. destruct Hb as [Hb _].
    assert (length b ≠ 0%nat) by by destruct b. apply IH; rewrite ?length_app; [done | lia | lia].
  - intros e w1 [Hq He]. by eapply read_failed_at.
Qed.

Lemma timed_read_loop_ok fuel fd size deadline t got w0 w :
  read_at w0 got w → Z.of_nat (length got) < size → size - Z.of_nat (length got) ≤ Z.of_nat fuel →
  wpi (timed_read_loop fuel fd size deadline t got) w (read_outcome w0 size) (read_failed w0 size).
Proof.
  revert t got w. induction fuel as [| fuel IH]; intros t got w Hw Hl Hf; [lia |]. cbn [timed_read_loop].
  apply wpo_bind. eapply wpo_weaken; [apply ReadAtMost_timeout_ok; lia | |]; cbv beta.
  - intros b w1 Hb. eapply read_step; [done | done | done |]. intros Hne Hb'. destruct Hb as [Hb _].
    assert (length b ≠ 0%nat) by by destruct b. destruct (Z.leb_spec size (Z.of_nat (length (got ++ b)))) as [Hle | Hlt].
    + rewrite length_app in Hle. apply wpo_massert; [apply Z.eqb_eq; rewrite length_app; lia |]. eapply wpo_Ret; [reflexivity | reflexivity |].
      destruct Hb' as [H1 H2]. split; [done |]. split; [rewrite length_app; lia | done].
    + apply call_ok. intros now w2 _ E. split; [by eapply step_clock |]. destruct (clock_law _ _ _ E) as [H1 H2]. destruct Hb' as [H3 H4].
      apply IH; [split; congruence | done | rewrite length_app; lia].
  - intros e w1 [Hq He]. by eapply read_failed_at.
Qed.

(** ** The calls *)

Lemma TryWriteExactly_timeout_ok fd buf t w :
  wpi (TryWriteExactly_timeout fd buf t) w (write_result w buf) (write_failed w buf).
Proof.
  unfold TryWriteExactly_timeout, TryWriteExactly.
  assert (wrote w buf 0 w) as Hw by (split; [lia |]; cbn; by rewrite app_nil_r).
  destruct (t <? 0); [apply write_loop_ok; [done | lia] |].
  case_bool_decide as E; [eapply wpo_Ret; [reflexivity | reflexivity |]; subst; split; [done | by rewrite app_nil_r] |].
  apply call_ok. intros now w1 _ E1. split; [by eapply step_clock |]. destruct (clock_law _ _ _ E1) as [H1 H2].
  assert (length buf ≠ 0%nat) by by destruct buf. apply timed_write_loop_ok; [| lia].
  split; [| lia]. destruct Hw as (H3 & H4 & H5). split; [done |]. split; congruence.
Qed.

Lemma TryReadExactly_timeout_ok fd size t w :
  0 ≤ size → wpi (TryReadExactly_timeout fd size t) w (read_outcome w size) (read_failed w size).
Proof.
  intros Hsize. unfold TryReadExactly_timeout, TryReadExactly.
  assert (read_at w [] w) as Hw by (split; [done |]; by rewrite app_nil_r).
  destruct (t <? 0); [apply read_loop_ok; cbn; [done | lia | lia] |].
  destruct (Z.eqb_spec size 0) as [-> | H0]; [eapply wpo_Ret; [reflexivity | reflexivity |]; split; [done | split; [done | by rewrite app_nil_r]] |].
  apply call_ok. intros now w1 _ E1. split; [by eapply step_clock |]. destruct (clock_law _ _ _ E1) as [H1 H2]. destruct Hw as [H3 H4].
  apply timed_read_loop_ok; cbn; [split; congruence | lia | lia].
Qed.

End correct.

(** C36: Exact transfers.  Whatever the system calls do, within their specification, a write of a
    buffer with a timeout ends: it returns true with all bytes sent, false with none sent, or
    throws with fewer sent; a read of a number of bytes returns these next bytes, or none, or
    throws with fewer.  No assertion fails; an error that is fatal ends the process. *)
Theorem transfers_exact {W} {env : SockEnv W} {laws : SockLaws W} (fd timeout_ms size : Z) (buf : list byte) (w : W) :
  0 ≤ size →
  wp (TryWriteExactly_timeout fd buf timeout_ms) w (write_result w buf) (write_failed w buf) (λ x, x = Died) ∧
  wp (TryReadExactly_timeout fd size timeout_ms) w (read_outcome w size) (read_failed w size) (λ x, x = Died).
Proof.
  intros H. assert (Watch (W := W) (λ _, True) True) as Hwatch by done. split.
  - eapply wp_weaken; [by apply (TryWriteExactly_timeout_ok (ok := λ _, True) (ends := True)) | naive_solver..].
  - eapply wp_weaken; [by apply (TryReadExactly_timeout_ok (ok := λ _, True) (ends := True)) | naive_solver..].
Qed.

(** ** A scripted peer

    It offers the chunks [s_chunks] to read, one for each call, and takes of each write at most
    the number of bytes that [s_takes] says next (all, at its end).  Such a write takes a
    millisecond, and so does each byte that is read. *)
Record script := mkScript { s_chunks : list (list byte); s_takes : list nat; s_sent : list byte; s_received : list byte; s_time : Z }.

Definition script_now (s : script) : Z := s_time s + Z.of_nat (length (s_received s)).

Definition script_take (b : list byte) (s : script) : nat := length b `min` match s_takes s with [] => length b | k :: _ => k end.

Definition script_write (b : list byte) (s : script) : sys_result * script :=
  let k := script_take b s in
  (SysRet (Z.of_nat k), mkScript (s_chunks s) (tail (s_takes s)) (s_sent s ++ take k b) (s_received s)
     (s_time s + match s_takes s with [] => 0 | _ => 1 end)).

#[export] Instance script_env : SockEnv script := {|
  sys_poll _ out _ s := (SysRet (if out || bool_decide (s_chunks s ≠ []) then 1 else 0), s);
  sys_read _ n s :=
    match s_chunks s with
    | [] => (ReadBytes [], s)
    | c :: cs =>
        let now := take (Z.to_nat n) c in
        let later := drop (Z.to_nat n) c in
        (ReadBytes now, mkScript (if decide (later = []) then cs else later :: cs) (s_takes s) (s_sent s) (s_received s ++ now) (s_time s))
    end;
  sys_send _ b s := script_write b s;
  sys_write _ b s := script_write b s;
  sys_fstat _ s := ((SysRet 0, true), s);
  clock_raw s := (mkTime (script_now s `div` 1000) (script_now s `mod` 1000 * 1000000), s)
|}.

Lemma script_write_law b s r s' : script_write b s = (r, s') →
  s_received s' = s_received s ∧
  match r with
  | SysRet n => 0 ≤ n ≤ Z.of_nat (length b) ∧ s_sent s' = s_sent s ++ take (Z.to_nat n) b
  | SysErr _ => s_sent s' = s_sent s
  end.
Proof. unfold script_write, script_take. intros [= <- <-]. cbn. rewrite Nat2Z.id. split_and!; [done | lia | lia | done]. Qed.

#[export] Instance script_laws : SockLaws script.
Proof.
  refine {| sent := s_sent; received := s_received |}.
  - cbn. intros fd out t w r w' [= <- <-]. split; [done |]. by destruct (_ || _).
  - cbn. intros fd n w r w' Hn E. destruct (s_chunks w); injection E as <- <-; cbn; [rewrite app_nil_r; split; [done | split; [lia | done]] |].
    split; [done |]. split; [rewrite length_take; lia | done].
  - intros fd. apply script_write_law.
  - intros fd. apply script_write_law.
  - by cbn; intros fd w r w' [= <- <-].
  - by cbn; intros w t w' [= <- <-].
Defined.

(** A write that is taken in three parts, and a read of five bytes in two. *)
Definition ex_transfers : script := mkScript [[x01; x02]; [x03; x04; x05; x06]] [1; 2]%nat [] [] 0.

Lemma transfers_exact_witness :
  (wp (TryWriteExactly_timeout 5 [x61; x62; x63; x64] 100) ex_transfers (write_result ex_transfers [x61; x62; x63; x64])
     (write_failed ex_transfers [x61; x62; x63; x64]) (λ x, x = Died) ∧
   wp (TryReadExactly_timeout 5 5 100) ex_transfers (read_outcome ex_transfers 5) (read_failed ex_transfers 5) (λ x, x = Died)) ∧
  (TryWriteExactly_timeout 5 [x61; x62; x63; x64] 100 ex_transfers).1 = Ret true ∧
  (TryReadExactly_timeout 5 5 100 ex_transfers).1 = Ret (Some [x01; x02; x03; x04; x05]).
Proof. split; [apply (transfers_exact 5 100 5); discriminate | split; vm_compute; reflexivity]. Defined.

(** base/io_util.h says that a write throws with [ETIMEDOUT] if all of it is not done within
    the timeout.  The timeout limits each wait for the descriptor, and is zero after the
    deadline: a write goes on as long as the descriptor is ready.  Here the peer takes a byte
    at a time, and a write with a timeout of two milliseconds returns true after six. *)
Example write_past_deadline :
  let r := TryWriteExactly_timeout 5 [x61; x62; x63; x64; x65; x66] 2 (mkScript [] [1; 1; 1; 1; 1; 1]%nat [] [] 0) in
  r.1 = Ret true ∧ s_sent r.2 = [x61; x62; x63; x64; x65; x66] ∧ script_now r.2 = 6.
Proof. vm_compute. done. Qed.
