(* ===== verification/MetadataFetcher.v ===== *)
(** * The metadata fetcher (dory/metadata_fetcher.{h,cc})

    [TMetadataFetcher] connects to a broker (dory/util/connect_to_host.cc,
    socket/db/cursor.cc), sends a metadata request, reads the response from the stream and
    builds the metadata.  The state is the fetcher and a world with the system calls of
    [SockEnv] and [NetEnv].  The metadata that a call returns is what the bytes received
    say, and is fit for the router thread. *)
From S2P Require Import Prelude FieldAccess Wire Msg StreamReader Backoff Metadata MetadataResponse MetadataReader MetadataFormat MetadataWriter MetadataProto IoUtil.

(** ** Connecting *)

Definition EAI_SYSTEM : Z := -11.
Definition EAI_MEMORY : Z := -10.
Definition EAI_BADFLAGS : Z := -1.
Definition EAI_FAMILY : Z := -6.
Definition EAI_SOCKTYPE : Z := -7.
Definition EAI_SERVICE : Z := -8.
Definition ENFILE : Z := 23.
Definition EMFILE : Z := 24.
Definition ENOPROTOOPT : Z := 92.
Definition EPROTONOSUPPORT : Z := 93.
Definition ESOCKTNOSUPPORT : Z := 94.
Definition EPFNOSUPPORT : Z := 96.
Definition EAFNOSUPPORT : Z := 97.
Definition ENOBUFS : Z := 105.

(** The errors of [socket], and of [getaddrinfo] (from [errno] and of its own), that end the
    process, and those of [connect] that do not. *)
Definition fatal_socket : list Z := [EAFNOSUPPORT; EINVAL; EMFILE; ENFILE; ENOBUFS; ENOMEM; EPROTONOSUPPORT].
Definition fatal_gai_errno : list Z :=
  [EBADF; EFAULT; EINVAL; ENOMEM; EMFILE; ENFILE; ENOPROTOOPT; EPROTONOSUPPORT; ESOCKTNOSUPPORT; EOPNOTSUPP;
   EPFNOSUPPORT; EAFNOSUPPORT].
Definition fatal_gai : list Z := [EAI_BADFLAGS; EAI_FAMILY; EAI_SERVICE; EAI_SOCKTYPE].
Definition nonfatal_connect : list Z := [ECONNREFUSED; ETIMEDOUT; EHOSTUNREACH; EHOSTDOWN; EINTR].

(** The calls that find and connect to a host.  [sys_getaddrinfo] gives its result, [errno] and
    the addresses. *)
Class NetEnv (W : Type) := {
  address : Type;
  sys_getaddrinfo : list byte → W → (Z * Z * list address) * W;
  sys_socket : address → W → sys_result * W;
  sys_connect : Z → address → Z → W → sys_result * W;
  sys_close : Z → W → W
}.

(** The exceptions: of a transfer, of the parser of responses, of the host database. *)
Inductive fetch_exn := FIo (e : io_exn) | FMd (e : MdReader.exn) | FDb (error_code : Z).

Record TMetadataFetcher := mkFetcher {
  MetadataRequest : list byte;
  FSock : Z;
  FStreamReader : TStreamMsgReader TSizeReader
}.

#[export] Instance TMetadataFetcher_settable : Settable TMetadataFetcher := λ f,
  mkFetcher (MetadataRequest f) (FSock f) (FStreamReader f).

Definition set_stream (r : TStreamMsgReader TSizeReader) (f : TMetadataFetcher) : TMetadataFetcher := f <| FStreamReader := r |>.
Definition set_fd (fd : Z) (f : TMetadataFetcher) : TMetadataFetcher := f <| FSock := fd |>.

Record fetching (W : Type) := mkFetching { Fetcher : TMetadataFetcher; World : W }.
Arguments mkFetching {W}.
Arguments Fetcher {W}.
Arguments World {W}.

(** [CreateMetadataRequest]. *)
Definition CreateMetadataRequest : outcome Empty_set (list byte) :=
  match WriteAllTopicsMetadataRequest 0 [] with
  | (Ret _, result) => Ret result
  | (Throw e, _) => match e with end
  | (Fault x, _) => Fault x
  end.

Definition TMetadataFetcher_new : outcome Empty_set TMetadataFetcher :=
  match CreateMetadataRequest, TStreamMsgWithSizeReaderBase_new (-1) 4 true false true (4 * 1024 * 1024) (64 * 1024) with
  | Ret request, Ret reader => Ret (mkFetcher request (-1) reader)
  | Fault x, _ => Fault x
  | _, Fault x => Fault x
  | Throw e, _ => match e with end
  | _, Throw e => match e with end
  end.

Inductive TTopicAutocreateResult := Success | Fail | TryOtherBroker.

Section fetcher.
Context {W : Type} {env : SockEnv W} {net : NetEnv W}.

Definition FM := M fetch_exn (fetching W).

(** A computation on the world, whose exceptions are those of the fetcher. *)
Definition on_world {A} (m : IM W A) : FM A := λ s,
  let '(o, w) := m (World s) in
  (match o with Ret a => Ret a | Throw e => Throw (FIo e) | Fault x => Fault x end, mkFetching (Fetcher s) w).

Definition on_stream {A} (m : RM TSizeReader A) : FM A := λ s,
  let '(o, r) := m (FStreamReader (Fetcher s)) in
  (match o with Ret a => Ret a | Throw (SystemError e) => Throw (FIo (IoError e)) | Fault x => Fault x end,
   mkFetching (set_stream r (Fetcher s)) (World s)).

Definition set_sock (fd : Z) : FM () := modify (λ s, mkFetching (set_fd fd (Fetcher s)) (World s)).

(** [TFd::Reset] and the destructor of a [TFd]. *)
Definition close_fd (fd : Z) : FM () :=
  if 3 <=? fd then modify (λ s, mkFetching (Fetcher s) (sys_close fd (World s))) else mret ().

Definition Disconnect : FM () := s ← get; close_fd (FSock (Fetcher s));; set_sock (-1).

Definition getaddrinfo (node : list byte) : FM (list address) :=
  '(code, errno, addresses) ← on_world (call (sys_getaddrinfo node));
  if code =? 0 then mret addresses
  else
    (if code =? EAI_SYSTEM then
       if IsFatal errno AddFatal [] true fatal_gai_errno then crash Died else mret ()
     else if code =? EAI_MEMORY then crash Died
     else if IsFatal code AddFatal [] true fatal_gai then crash Died
     else mret ());;
    (* [Db::IfNe0], which for [EAI_SYSTEM] throws this code and not [errno] *)
    if code =? EAI_SYSTEM then throw (FIo (IoError code)) else throw (FDb code).

(** The loop over the addresses of the host: the socket that was connected, if any. *)
Fixpoint connect_first (addresses : list address) (port : Z) : FM () :=
  match addresses with
  | [] => mret ()
  | a :: addresses =>
      r ← on_world (call (sys_socket a));
      r ← on_world (wr AddFatal [] fatal_socket r);
      sock ← on_world (IfLt0 r);
      r ← on_world (call (sys_connect sock a port));
      r ← on_world (wr Nonfatal nonfatal_connect [] r);
      match r with
      | SysRet _ => set_sock sock
      | SysErr e => close_fd sock;; if e =? EINTR then throw (FIo (IoError e)) else connect_first addresses port
      end
  end.

Definition ConnectToHost (host_name : list byte) (port : Z) : FM () :=
  Disconnect;;
  addresses ← getaddrinfo host_name;
  connect_first addresses port.

(** [Connect]; the name is passed as a C string. *)
Definition Connect (host_name : string) (port : Z) : FM bool :=
  Disconnect;;
  ok ← try_catch (ConnectToHost (c_str (String.list_byte_of_string host_name)) port;; mret true)
    (λ e, match e with
          | FIo (IoError _) | FDb _ => s ← get; massert (FSock (Fetcher s) <? 0);; mret false
          | _ => throw e
          end);
  if negb ok then mret false
  else
    s ← get;
    if FSock (Fetcher s) <? 0 then mret false
    else on_stream (Reset (FSock (Fetcher s)));; mret true.

(** ** Requests and responses *)

Definition SendRequest (request : list byte) (timeout_ms : Z) : FM bool :=
  s ← get;
  try_catch
    (ok ← on_world (TryWriteExactly_timeout (FSock (Fetcher s)) request timeout_ms); mret ok)
    (λ e, match e with
          | FIo (IoError errno) => if LostTcpConnection errno then mret false else throw e
          | FIo TUnexpectedEnd => mret false
          | _ => throw e
          end).

Definition GetMonotonicRawMilliseconds : FM Z :=
  t ← on_world (call clock_raw); mret (uadd (uwrap 64 (tv_sec t * 1000)) (tv_nsec t `div` 1000000)).

(** [StreamReader.Read()]: the bytes come from the descriptor. *)
Definition stream_Read : FM StreamReader.TState :=
  s ← get;
  let r := FStreamReader (Fetcher s) in
  res ← on_world (Wr_read (Fd (Impl r)) (GetNextReadSize (Sub r)));
  on_stream (Read res).

(** The turns of the loop of [ReadResponse]; false ends the function. *)
Fixpoint read_response_loop (fuel : nat) (timeout_ms start_time elapsed : Z) : FM bool :=
  match fuel with
  | O => crash OutOfFuel
  | S fuel =>
      time_left ← (if timeout_ms <? 0 then mret (-1) else int32_arith (timeout_ms - swrap 32 elapsed));
      s ← get;
      r ← on_world (Wr_poll AddFatal [EINTR] (Fd (Impl (FStreamReader (Fetcher s)))) false time_left);
      match r with
      | SysErr _ => crash AssertFailed
      | SysRet ret =>
          massert (0 <=? ret);;
          if ret =? 0 then mret false
          else
            state ← try_catch (st ← stream_Read; mret (Some st))
              (λ e, match e with
                    | FIo (IoError errno) => if LostTcpConnection errno then mret None else crash Died
                    | _ => throw e
                    end);
            match state with
            | None => mret false
            | Some state =>
                if bool_decide (state = ReadNeeded) then
                  current_time ← GetMonotonicRawMilliseconds;
                  let elapsed := usub current_time start_time in
                  if (0 <=? timeout_ms) && (uwrap 64 timeout_ms <=? elapsed) then mret false
                  else read_response_loop fuel timeout_ms start_time elapsed
                else mret true
            end
      end
  end.

Definition ReadResponse (fuel : nat) (timeout_ms : Z) : FM bool :=
  start_time ← GetMonotonicRawMilliseconds;
  done_ ← read_response_loop fuel timeout_ms start_time 0;
  if negb done_ then mret false
  else
    s ← get;
    match State (Impl (FStreamReader (Fetcher s))) with
    | ReadNeeded => crash Died
    | MsgReady => mret true
    | DataInvalid => mret false
    | AtEnd => mret false
    end.

(** The response that is ready, which is consumed; [None] if it is empty. *)
Definition take_response : FM (option (list byte)) :=
  s ← get;
  massert (bool_decide (State (Impl (FStreamReader (Fetcher s))) = MsgReady));;
  response_size ← on_stream GetReadyMsgSize;
  if response_size =? 0 then mret None
  else
    response_begin ← on_stream GetReadyMsg;
    response ← need OutOfBounds (if (Z.to_nat response_size <=? length response_begin)%nat
                                 then Some (take (Z.to_nat response_size) response_begin) else None);
    on_stream ConsumeReadyMsg;;
    mret (Some response).

Definition on_parser {A} (o : outcome MdReader.exn A) : FM A :=
  match o with Ret a => mret a | Throw e => throw (FMd e) | Fault x => crash x end.

(** The handlers of [TBadMetadataResponse]. *)
Definition catch_bad {A} (m : FM A) (a : A) : FM A :=
  try_catch m (λ e, match e with FMd x => if MdReader.TBadMetadataResponse x then mret a else throw e | _ => throw e end).

Section fetch.
Context `{!StdSort} `{!Shuffle} `{!HashOrder}.

Definition Fetch (fuel : nat) (timeout_ms : Z) : FM (option TMetadata) :=
  s ← get;
  if FSock (Fetcher s) <? 0 then crash Died
  else
    sent_ok ← SendRequest (MetadataRequest (Fetcher s)) timeout_ms;
    if negb sent_ok then mret None
    else
      read_ok ← ReadResponse fuel timeout_ms;
      if negb read_ok then mret None
      else
        response ← take_response;
        match response with
        | None => mret None
        | Some response =>
            result ← catch_bad (m ← on_parser (BuildMetadataFromResponse response); mret (Some m)) None;
            match result with
            | None => mret None
            | Some m => mret (if bool_decide (Brokers m = []) then None else Some m)
            end
        end.
End fetch.

Definition TopicAutocreate (fuel : nat) (topic : string) (timeout_ms : Z) : FM TTopicAutocreateResult :=
  s ← get;
  if FSock (Fetcher s) <? 0 then crash Died
  else
    match WriteSingleTopicMetadataRequest topic 0 [] with
    | (Throw e, _) => match e with end
    | (Fault x, _) => crash x
    | (Ret _, request) =>
        sent_ok ← SendRequest request timeout_ms;
        if negb sent_ok then mret TryOtherBroker
        else
          read_ok ← ReadResponse fuel timeout_ms;
          if negb read_ok then mret TryOtherBroker
          else
            response ← take_response;
            match response with
            | None => mret Fail
            | Some response =>
                catch_bad (success ← on_parser (TopicAutocreateWasSuccessful topic response);
                           mret (if success : bool then Success else Fail)) TryOtherBroker
            end
    end.

End fetcher.

(** ** What the calls do *)

(** The configuration of the stream reader. *)
Definition fetch_cfg : TSizeReader := mkSizeReader 4 true false true (4 * 1024 * 1024) (64 * 1024) None None.

Lemma fetch_cfg_ok : cfg_ok fetch_cfg.
Proof. split; cbn; [auto | width_lia | lia]. Qed.

(** The most bytes of a response. *)
Definition response_limit : Z := 4 + 4 * 1024 * 1024.

(** The reader, whatever its state. *)
Definition stream_rep (r : TStreamMsgReader TSizeReader) : Prop :=
  ∃ data o reason, buf_rep (Buf (Impl r)) data ∧ Sub r = sized fetch_cfg o reason ∧
    Storage_size (Buf (Impl r)) ≤ storage_bound fetch_cfg.

Lemma settled_rep r data eof :
  settled fetch_cfg r data eof → Storage_size (Buf (Impl r)) ≤ storage_bound fetch_cfg → stream_rep r.
Proof.
  intros Hs Hb. pose proof (st_case _ _ _ _ Hs) as Hc. exists data. pose proof (st_buf _ _ _ _ Hs).
  destruct (next_frame fetch_cfg data); naive_solver.
Qed.

(** Connected: the reader has [data], which is not yet a response. *)
Record reading (data : list byte) (f : TMetadataFetcher) : Prop := {
  rg_sock : 0 ≤ FSock f;
  rg_stream : settled fetch_cfg (FStreamReader f) data false;
  rg_partial : next_frame fetch_cfg data = FramePartial;
  rg_bound : Storage_size (Buf (Impl (FStreamReader f))) ≤ storage_bound fetch_cfg
}.

(** A response has been read, or the connection is of no more use. *)
Definition stopped (data : list byte) (f : TMetadataFetcher) : Prop :=
  ∃ eof, settled fetch_cfg (FStreamReader f) data eof ∧ Storage_size (Buf (Impl (FStreamReader f))) ≤ storage_bound fetch_cfg.

Lemma partial_limit data : next_frame fetch_cfg data = FramePartial → Z.of_nat (length data) ≤ response_limit.
Proof. intros H. pose proof (partial_short fetch_cfg fetch_cfg_ok data H) as Hl. apply Z.lt_succ_r. exact Hl. Qed.

(** ** Steps of the world *)

Section steps.
Context {W : Type} {env : SockEnv W} {net : NetEnv W}.

(** A call of the program. *)
Inductive sys_step (w w' : W) : Prop :=
| sys_sock_step : sock_step w w' → sys_step w w'
| sys_gai_step node r : sys_getaddrinfo node w = (r, w') → sys_step w w'
| sys_socket_step a r : sys_socket a w = (r, w') → sys_step w w'
| sys_connect_step fd a port r : sys_connect fd a port w = (r, w') → sys_step w w'
| sys_close_step fd : sys_close fd w = w' → sys_step w w'.

(** A call fails in a way that ends the process. *)
Inductive sys_fatal (w : W) : Prop :=
| sock_dies : sock_fatal w → sys_fatal w
| gai_dies node code errno l w' :
    sys_getaddrinfo node w = ((code, errno, l), w') →
    (if code =? EAI_SYSTEM then IsFatal errno AddFatal [] true fatal_gai_errno
     else (code =? EAI_MEMORY) || IsFatal code AddFatal [] true fatal_gai) = true → sys_fatal w
| socket_dies a e w' : sys_socket a w = (SysErr e, w') → IsFatal e AddFatal [] true fatal_socket = true → sys_fatal w
| connect_dies fd a port e w' : sys_connect fd a port w = (SysErr e, w') → e ∉ nonfatal_connect → sys_fatal w.

(** The process can end: after some calls, one of them fails so. *)
Definition can_die (w : W) : Prop := ∃ w', rtc sys_step w w' ∧ sys_fatal w'.

(** What a run may come to, as with [Watch]. *)
Class SysWatch (ok : W → Prop) (ends : Prop) : Prop := {
  sys_watch_step w w' : ok w → sys_step w w' → ok w';
  sys_watch_fatal w : ok w → sys_fatal w → ends
}.

#[export] Instance sys_watch ok ends : SysWatch ok ends → Watch ok ends.
Proof.
  intros Hw. split.
  - intros w w' Ho Hs. by apply (sys_watch_step (SysWatch := Hw) w w'), sys_sock_step.
  - intros w Ho Hf. by apply (sys_watch_fatal (SysWatch := Hw) w), sock_dies.
Qed.

Lemma reach_watch w : SysWatch (rtc sys_step w) (can_die w).
Proof.
  split.
  - intros w1 w2 H1 H2. by eapply rtc_r.
  - intros w1 H1 H2. by exists w1.
Qed.

End steps.

Section calls.
Context {W : Type} {env : SockEnv W} {laws : SockLaws W} {net : NetEnv W}.
Context {ok : W → Prop} {ends : Prop} {watch : SysWatch ok ends}.

(** The exceptions that leave the fetcher. *)
Definition escapes (e : fetch_exn) : Prop :=
  e = FMd MdReader.length_error ∨ ∃ errno, e = FIo (IoError errno) ∧ LostTcpConnection errno = false.

Notation wpo m s Q T := (wpo (ok := ok) (ends := ends) World m s Q T).
Notation wpf m s Q := (wpo m s Q (λ e _, escapes e)).
Notation wpi m w Q T := (IoUtil.wpo (ok := ok) (ends := ends) (λ x : W, x) m w Q T).

Implicit Types (f : TMetadataFetcher) (w : W).

Lemma on_world_ok {A B} (m : IM W A) (k : A → FM B) f w Q R T :
  wpi m w R T → (∀ a w', R a w' → wpf (k a) (mkFetching f w') Q) → (∀ e w', T e w' → escapes (FIo e)) →
  wpf (on_world m ≫= k) (mkFetching f w) Q.
Proof.
  intros Hm Hk HT Ho. apply wp_bind. specialize (Hm Ho). unfold wp, on_world in *. cbn. destruct (m w) as [[a | e | x] w']; cbn; [| | done].
  - destruct Hm as [H1 H2]. exact (Hk a w' H2 H1).
  - destruct Hm as [H1 H2]. split; [done | by eapply HT].
Qed.

Lemma on_stream_ok {A B} (m : RM TSizeReader A) (k : A → FM B) f w a r Q T :
  m (FStreamReader f) = (Ret a, r) → wpo (k a) (mkFetching (set_stream r f) w) Q T → wpo (on_stream m ≫= k) (mkFetching f w) Q T.
Proof. intros Hm Hk. eapply wpo_step; [unfold on_stream; cbn; by rewrite Hm | done | exact Hk]. Qed.

Lemma SendRequest_ok request t f w :
  wpf (SendRequest request t) (mkFetching f w)
    (λ b s', Fetcher s' = f ∧ received (World s') = received w ∧ (b = true → sent (World s') = sent w ++ request)).
Proof.
  unfold SendRequest. ostep. intros Ho. pose proof (TryWriteExactly_timeout_ok (ends := ends) (FSock f) request t w Ho) as H. unfold wp in H.
  unfold wp, try_catch, on_world, mbind, M_bind. cbn [Fetcher World].
  destruct (TryWriteExactly_timeout _ _ _ w) as [[done_ | e | x] w'].
  - destruct H as [Ho' [H1 H2]]. cbn. split_and!; [done | done | done |]. by intros ->.
  - destruct H as [Ho' [H1 _]]. destruct e as [errno |]; [destruct (LostTcpConnection errno) eqn:E |]; cbn; [done | | done]. split; [done |]. right. by eexists.
  - by cbn.
Qed.

(** A socket that blocks: [read()] waits for bytes, and the thread masks signals. *)
Class Blocking : Prop := blocking fd n w e w' : sys_read fd n w = (ReadError e, w') → read_again e = false.
Context {blk : Blocking}.

(** The bytes of the peer that the reader has had since [w0]. *)
Definition has_read (data : list byte) (request : list byte) w0 f w : Prop :=
  received w = received w0 ++ data ∧ sent w = sent w0 ∧ MetadataRequest f = request.

(** After a read: the new data. *)
Definition read_left data request w0 (sock : Z) (st : StreamReader.TState) (s' : fetching W) : Prop :=
  ∃ bytes, has_read (data ++ bytes) request w0 (Fetcher s') (World s') ∧ FSock (Fetcher s') = sock ∧
    State (Impl (FStreamReader (Fetcher s'))) = st ∧
    settled fetch_cfg (FStreamReader (Fetcher s')) (data ++ bytes) (bool_decide (bytes = [])) ∧
    Storage_size (Buf (Impl (FStreamReader (Fetcher s')))) ≤ storage_bound fetch_cfg.

Lemma stream_Read_ok data request w0 f w :
  reading data f → has_read data request w0 f w →
  wpo stream_Read (mkFetching f w) (read_left data request w0 (FSock f))
    (λ e s', (∃ errno, e = FIo (IoError errno) ∧ (LostTcpConnection errno = false → ends)) ∧
      has_read data request w0 (Fetcher s') (World s') ∧ FSock (Fetcher s') = FSock f ∧ stopped data (Fetcher s')).
Proof.
  intros [Hsock Hs Hp Hb] (Hrec & Hsent & Hreq). unfold stream_Read. ostep. cbn [Fetcher].
  assert (GetNextReadSize (Sub (FStreamReader f)) = 64 * 1024) as ->.
  { pose proof (st_case _ _ _ _ Hs) as Hc. rewrite Hp in Hc. destruct Hc as (_ & _ & _ & o & -> & _). done. }
  set (fd := Fd _). unfold Wr_read. intros Ho. cbn [World] in Ho.
  unfold wp, on_world, mbind, M_bind, call. cbn [World]. destruct (sys_read fd (64 * 1024) w) as [res w1] eqn:E.
  assert (ok w1) as Ho1 by (eapply (watch_step (ends := ends)); [exact Ho | by eapply step_read]).
  destruct (read_law fd (64 * 1024) w _ _ ltac:(lia) E) as [H1 H2]. destruct res as [bytes | errno].
  - destruct H2 as [H2 H3]. destruct (Read_ok fetch_cfg fetch_cfg_ok _ data bytes Hs Hp) as (r' & Hr' & Hs' & Hb'); [cbn; lia | done |].
    cbn. unfold on_stream. cbn. rewrite Hr'. split; [done |]. exists bytes. unfold has_read. cbn [World]. split; [| done]. split; [by rewrite H3, Hrec, app_assoc |]. split; [congruence | done].
  - pose proof (blocking _ _ _ _ _ E) as Hag.
    assert (LostTcpConnection errno = false → ends) as Hdie by (intros Hlost; eapply watch_fatal; [exact Ho | by eapply read_dies]).
    destruct (IsFatal _ _ _ _ _) eqn:Ef; [split; [done |]; by apply Hdie, read_not_lost |].
    destruct (Read_error_ok fetch_cfg fetch_cfg_ok _ data errno Hs Hp Hb) as (r' & Hr' & Hs' & Hb'). rewrite Hag in Hr'.
    cbn. unfold on_stream. cbn. rewrite Hr'. unfold has_read. cbn [World]. split; [done |]. split; [by eexists |]. split; [split; [congruence | split; [congruence | done]] |].
    split; [done |]. by exists false.
Qed.

(** The errors of [poll] are fatal. *)
Lemma Wr_poll_ok fd t w :
  wpi (Wr_poll AddFatal [EINTR] fd false t) w (λ r w', quiet w w' ∧ ∃ n, r = SysRet n ∧ 0 ≤ n) (λ _ _, False).
Proof.
  unfold Wr_poll. apply call_ok. intros r w' Ho E. split; [by eapply step_poll |]. destruct (poll_law _ _ _ _ _ _ E) as [Hq Hr]. destruct r as [n | e].
  - eapply wpo_Ret; [reflexivity | reflexivity |]. split; [done |]. by exists n.
  - unfold wr. assert (IsFatal e AddFatal [EINTR] true fatal_poll = true) as Ef.
    { rewrite !elem_of_cons in Hr. destruct Hr as [-> | [-> | [-> | [-> | Hr]]]]; [done.. | by apply elem_of_nil in Hr]. }
    rewrite Ef. eapply wpo_dies; [reflexivity |]. intros _. eapply watch_fatal; [exact Ho | by eapply poll_dies].
Qed.

Lemma clock_ok {B} (k : Z → FM (W := W) B) f w Q :
  (∀ now w', quiet w w' → wpf (k now) (mkFetching f w') Q) → wpf (GetMonotonicRawMilliseconds ≫= k) (mkFetching f w) Q.
Proof.
  intros Hk. unfold GetMonotonicRawMilliseconds. apply wpo_bind. eapply (on_world_ok _ _ _ _ _ (λ _ w', quiet w w') (λ _ _, False)); [| | done].
  - apply wpo_last, call_ok. intros now w' _ E. split; [by eapply step_clock |]. eapply wpo_Ret; [reflexivity | reflexivity |]. by apply clock_law in E.
  - intros now w' Hq. eapply wpo_Ret; [reflexivity | reflexivity |]. by apply Hk.
Qed.

(** Where the loop leaves the fetcher. *)
Definition loop_left request w0 (sock : Z) (done_ : bool) (s' : fetching W) : Prop :=
  ∃ data, has_read data request w0 (Fetcher s') (World s') ∧ FSock (Fetcher s') = sock ∧ stopped data (Fetcher s') ∧
    (done_ = true → State (Impl (FStreamReader (Fetcher s'))) ≠ ReadNeeded).

Lemma has_read_quiet data request w0 f w w' : has_read data request w0 f w → quiet w w' → has_read data request w0 f w'.
Proof. intros (H1 & H2 & H3) [H4 H5]. split_and!; congruence. Qed.

Lemma loop_gives_up data request w0 f w :
  has_read data request w0 f w → reading data f → loop_left request w0 (FSock f) false (mkFetching f w).
Proof. intros Hh [H1 H2 H3 H4]. exists data. split_and!; [done | done | by exists false | done]. Qed.

(** A read in the loop, where a lost connection is the end. *)
Lemma guarded_Read_ok data request w0 f w :
  reading data f → has_read data request w0 f w →
  wpf (try_catch (st ← stream_Read; mret (Some st))
        (λ e, match e with
              | FIo (IoError errno) => if LostTcpConnection errno then mret None else crash Died
              | _ => throw e
              end)) (mkFetching f w)
    (λ o s', match o with Some st => read_left data request w0 (FSock f) st s' | None => loop_left request w0 (FSock f) false s' end).
Proof.
  intros Hr Hh. eapply wpo_catch.
  - apply wpo_bind. eapply wpo_mono; [by apply (stream_Read_ok data request w0) |]. cbv beta. intros st s' H. by eapply wpo_Ret.
  - cbv beta. intros e s' ((errno & -> & Hdie) & H1 & H2 & H3). destruct (LostTcpConnection errno); [| by eapply wpo_dies; [reflexivity | auto]]. eapply wpo_Ret; [reflexivity | reflexivity |].
    exists data. by split_and!.
Qed.

Lemma read_response_loop_ok fuel t start elapsed data request w0 f w :
  reading data f → has_read data request w0 f w → in_s 32 t → 0 ≤ elapsed → (0 ≤ t → elapsed < t ∨ elapsed = 0) →
  response_limit - Z.of_nat (length data) < Z.of_nat fuel →
  wpf (read_response_loop fuel t start elapsed) (mkFetching f w) (loop_left request w0 (FSock f)).
Proof.
  revert elapsed data f w. induction fuel as [| fuel IH]; intros elapsed data f w Hr Hh Ht H0 Hel Hf;
    [pose proof (partial_limit _ (rg_partial _ _ Hr)); lia |]. cbn [read_response_loop].
  apply wpo_bind. eapply (wpo_mono _ _ _ (λ _ s', s' = mkFetching f w)).
  { destruct (Z.ltb_spec t 0); [by eapply wpo_Ret |]. eapply wpo_Ret; [| reflexivity | reflexivity]. unfold int32_arith. rewrite swrap_small by width_lia.
    by rewrite decide_True by width_lia. }
  cbv beta. intros time_left s' ->. ostep. cbn [Fetcher]. eapply (on_world_ok _ _ _ _ _ _ (λ _ _, False)); [apply Wr_poll_ok | | done].
  cbv beta. intros r w1 (Hq & ret & -> & Hret). apply (has_read_quiet _ _ _ _ _ _ Hh) in Hq as Hh1. apply wpo_massert; [lia |].
  destruct (ret =? 0); [eapply wpo_Ret; [reflexivity | reflexivity |]; by apply (loop_gives_up data) |].
  apply wpo_bind. eapply wpo_mono; [by apply (guarded_Read_ok data request w0) |]. cbv beta. intros [st |] [f2 w2] H2; [| by eapply wpo_Ret].
  destruct H2 as (bytes & Hh2 & Hsock & Hst & Hs2 & Hb2). cbn [Fetcher World] in *. destruct (bool_decide_reflect (st = ReadNeeded)) as [-> | Eq].
  - pose proof (st_case _ _ _ _ Hs2) as Hc.
    destruct (next_frame fetch_cfg (data ++ bytes)) as [n | | reason] eqn:En; destruct Hc as [Hc _]; rewrite Hc in Hst; [done | | done].
    case_bool_decide as Eb; [done |].
    assert (reading (data ++ bytes) f2) as Hr2 by (split; [rewrite Hsock; apply Hr | done..]).
    apply clock_ok. intros now w3 Hq3. apply (has_read_quiet _ _ _ _ _ _ Hh2) in Hq3 as Hh3. rewrite <- Hsock.
    destruct ((0 <=? t) && _) eqn:Et; [eapply wpo_Ret; [reflexivity | reflexivity |]; by apply (loop_gives_up (data ++ bytes)) |].
    apply (IH _ (data ++ bytes)); [done | done | done | unfold usub; destruct (uwrap_range 64 (now - start)); lia | |].
    + intros Ht0. left. rewrite (proj2 (Z.leb_le 0 t) Ht0), uwrap_id in Et by width_lia. cbn in Et. lia.
    + assert (length bytes ≠ 0%nat) by by destruct bytes. rewrite length_app. lia.
  - eapply wpo_Ret; [reflexivity | reflexivity |]. exists (data ++ bytes). split_and!; [done | done | by eexists |]. intros _. cbn. by rewrite Hst.
Qed.

Lemma ReadResponse_ok fuel t request f w :
  reading [] f → MetadataRequest f = request → in_s 32 t → response_limit < Z.of_nat fuel →
  wpf (ReadResponse fuel t) (mkFetching f w) (λ b s', ∃ data,
    has_read data request w (Fetcher s') (World s') ∧ FSock (Fetcher s') = FSock f ∧ stopped data (Fetcher s') ∧
    (b = true → ∃ n, next_frame fetch_cfg data = FrameMsg n)).
Proof.
  intros Hr Hreq Ht Hf. unfold ReadResponse. apply clock_ok. intros start w1 Hq.
  assert (has_read [] request w f w1) as Hh by (apply (has_read_quiet _ _ _ _ w); [| done]; by split_and!; [rewrite app_nil_r | |]).
  apply wpo_bind. eapply wpo_mono; [apply (read_response_loop_ok fuel t start 0 [] request w); [done.. | by right | cbn; lia] |]. cbv beta.
  intros done_ [f2 w2] (data & Hh2 & Hsock & Hst & Hd). destruct done_; cbn [negb]; [| by eapply wpo_Ret; [| | exists data]].
  specialize (Hd eq_refl). cbn [Fetcher World] in *. ostep. cbn [Fetcher].
  destruct Hst as (eof & Hs & Hb). pose proof (st_case _ _ _ _ Hs) as Hc.
  destruct (next_frame fetch_cfg data) as [n | | reason] eqn:En; destruct Hc as [Hc _]; rewrite Hc in *.
  - eapply wpo_Ret; [reflexivity | reflexivity |]. exists data. split_and!; [done | done | by exists eof |]. intros _. by exists n.
  - destruct eof; [| done]. eapply wpo_Ret; [reflexivity | reflexivity |]. exists data. split_and!; [done | done | by exists true | done].
  - eapply wpo_Ret; [reflexivity | reflexivity |]. exists data. split_and!; [done | done | by exists eof | done].
Qed.

Lemma take_response_ok data n f w T :
  stopped data f → next_frame fetch_cfg data = FrameMsg n →
  wpo take_response (mkFetching f w) (λ o s', o = Some (take n data) ∧ World s' = w ∧ FSock (Fetcher s') = FSock f ∧
    MetadataRequest (Fetcher s') = MetadataRequest f ∧ stream_rep (FStreamReader (Fetcher s'))) T.
Proof.
  intros (eof & Hs & Hb) Hn. pose proof (st_case _ _ _ _ Hs) as Hc. rewrite Hn in Hc. destruct Hc as [Hc _].
  destruct (ready_msg_ok fetch_cfg fetch_cfg_ok _ data eof n Hs Hn) as (mem & Hg & Hgs & _ & Htake).
  destruct (Consume_ok fetch_cfg fetch_cfg_ok _ data eof n Hs Hn) as (r1 & Hr1 & Hs1 & Hst1).
  destruct (next_frame_msg fetch_cfg fetch_cfg_ok data n Hn) as (body & _ & _ & _ & Hlen).
  change (reported fetch_cfg (take n data)) with (take n data) in *. assert (length (take n data) = n) as Hl by (rewrite length_take; lia).
  rewrite Hl in *. unfold take_response. ostep. cbn [Fetcher]. apply wpo_massert; [by apply bool_decide_true |].
  eapply on_stream_ok; [exact Hgs |]. case_test; [lia |]. eapply on_stream_ok; [exact Hg |]. rewrite Nat2Z.id.
  assert ((n <=? length mem)%nat = true) as ->.
  { apply Nat.leb_le. rewrite <- Hl, <- Htake, length_take. lia. }
  ostep. eapply on_stream_ok; [exact Hr1 |]. eapply wpo_Ret; [reflexivity | reflexivity |]. cbn. rewrite Htake. split_and!; try done.
  eapply settled_rep; [done |]. lia.
Qed.

(** The bytes of a response that is ready. *)
Lemma response_bytes data n :
  next_frame fetch_cfg data = FrameMsg n → take n data ≠ [] ∧ Z.of_nat (length (take n data)) < 2 ^ 63.
Proof.
  intros Hn. destruct (next_frame_msg fetch_cfg fetch_cfg_ok data n Hn) as (body & _ & Hb & Hs & Hl).
  assert (length (take n data) = n) as E by (rewrite length_take; lia). split; [intros H; rewrite H in E; cbn in E; lia |].
  rewrite E, Hs. cbn [SizeFieldSize MaxMsgBodySize fetch_cfg] in *. lia.
Qed.

(** An exception of the parser is a bad response, or leaves the fetcher. *)
Lemma catch_bad_ok {A} (o : outcome MdReader.exn A) {B} (g : A → B) (b : B) (f : TMetadataFetcher) w (Q : B → fetching W → Prop) :
  match o with Ret a => Q (g a) (mkFetching f w) | Throw _ => Q b (mkFetching f w) | Fault _ => False end →
  wpf (catch_bad (a ← on_parser o; mret (g a)) b) (mkFetching f w) Q.
Proof.
  intros H. unfold catch_bad. destruct o as [a | e | x]; [by eapply wpo_Ret | | done]. intros Ho. unfold wp, try_catch, mbind, M_bind. cbn.
  destruct (MdReader.TBadMetadataResponse e) eqn:E; cbn; (split; [done |]); [done |]. left. by destruct e.
Qed.

(** What a call of the fetcher has done with the world: the request was sent, and [frame] is the
    first message received. *)
Definition exchanged request w0 (frame : list byte) w : Prop :=
  sent w = sent w0 ++ request ∧
  ∃ rest, received w = received w0 ++ frame ++ rest ∧ next_frame fetch_cfg (frame ++ rest) = FrameMsg (length frame).

(** The request is sent and a response is read: the response, or a failure. *)
Lemma exchange_ok {A} fuel t request f w (failed : A) (k : FM (W := W) A) (Q : A → fetching W → Prop) :
  reading [] f → in_s 32 t → response_limit < Z.of_nat fuel →
  (∀ s', FSock (Fetcher s') = FSock f → MetadataRequest (Fetcher s') = MetadataRequest f → stream_rep (FStreamReader (Fetcher s')) → Q failed s') →
  (∀ f' w' data n, FSock f' = FSock f → MetadataRequest f' = MetadataRequest f → stopped data f' → next_frame fetch_cfg data = FrameMsg n →
     exchanged request w (take n data) w' → wpf k (mkFetching f' w') Q) →
  wpf (sent_ok ← SendRequest request t; if negb sent_ok then mret failed else
       read_ok ← ReadResponse fuel t; if negb read_ok then mret failed else k) (mkFetching f w) Q.
Proof.
  intros Hr Ht Hf Hfail Hk. apply wpo_bind. eapply wpo_mono; [apply SendRequest_ok |]. cbv beta. intros b [f1 w1] (E & Hrec & Hsent).
  cbn [Fetcher World] in *. subst f1. destruct b; cbn [negb].
  2: { eapply wpo_Ret; [reflexivity | reflexivity |]. apply Hfail; [done | done |]. cbn. eapply settled_rep; apply Hr. }
  apply wpo_bind. eapply wpo_mono; [by apply (ReadResponse_ok fuel t (MetadataRequest f)) |]. cbv beta.
  intros b [f2 w2] (data & (H1 & H2 & H3) & Hsock & Hst & Hn). cbn [Fetcher World] in *. destruct b; cbn [negb].
  - destruct (Hn eq_refl) as [n En]. apply (Hk _ _ data n); [done.. |]. split; [by rewrite H2, Hsent |].
    destruct (next_frame_msg fetch_cfg fetch_cfg_ok data n En) as (_ & _ & _ & _ & Hlen).
    exists (drop n data). rewrite take_drop, H1, Hrec, En. split; [done |]. rewrite length_take. f_equal. lia.
  - eapply wpo_Ret; [reflexivity | reflexivity |]. apply Hfail; [done | done |]. destruct Hst as (eof & Hs & Hb). by eapply settled_rep.
Qed.

(** The fetcher after a call: it can connect again. *)
Definition usable f : Prop := stream_rep (FStreamReader f).

(** What [Fetch] promises: metadata that the bytes of the broker say, with a broker in it. *)
Definition fetched {srt : StdSort} {shf : Shuffle} {ord : HashOrder} f w (r : option TMetadata) (s' : fetching W) : Prop :=
  usable (Fetcher s') ∧ FSock (Fetcher s') = FSock f ∧ MetadataRequest (Fetcher s') = MetadataRequest f ∧
  ∀ m, r = Some m → metadata_ok m ∧ Brokers m ≠ [] ∧
    ∃ frame, exchanged (MetadataRequest f) w frame (World s') ∧ BuildMetadataFromResponse frame = Ret m.

Lemma Fetch_ok {srt : StdSort} {shf : Shuffle} {ord : HashOrder} fuel t f w :
  reading [] f → in_s 32 t → response_limit < Z.of_nat fuel → wpf (Fetch fuel t) (mkFetching f w) (fetched f w).
Proof.
  intros Hr Ht Hf. unfold Fetch. ostep. cbn [Fetcher]. rewrite (proj2 (Z.ltb_ge _ _)) by apply Hr.
  apply exchange_ok; [done.. | |]; clear fuel t Ht Hf.
  - intros s' H1 H2 H3. by split_and!.
  - intros f1 w1 data n H1 H2 Hst Hn Hx. apply wpo_bind. eapply wpo_mono; [by apply (take_response_ok data n) |]. cbv beta.
    intros o [f2 w2] (-> & E & H3 & H4 & H5). cbn [Fetcher World] in *. subst w2. destruct (response_bytes data n Hn) as [Hne Hl].
    apply wpo_bind. apply (catch_bad_ok _ Some). pose proof (BuildMetadataFromResponse_safe _ Hne Hl) as Hsafe.
    assert (∀ r, (∀ m, r = Some m → metadata_ok m ∧ Brokers m ≠ [] ∧ BuildMetadataFromResponse (take n data) = Ret m) →
      fetched f w r (mkFetching f2 w1)) as Hend.
    { intros r Hm. split_and!; [done | cbn; congruence | cbn; congruence |]. intros m Em. destruct (Hm m Em) as (H6 & H7 & H8).
      split_and!; [done | done |]. by exists (take n data). }
    destruct (BuildMetadataFromResponse (take n data)) as [m | e | x] eqn:Eb; [| eapply wpo_Ret; [reflexivity | reflexivity |]; by apply Hend | done].
    eapply wpo_Ret; [reflexivity | reflexivity |]. apply Hend. intros m' Em. case_bool_decide; [done |]. injection Em as <-. done.
Qed.

(** What [TopicAutocreate] promises. *)
Definition autocreated f w (topic : string) (r : TTopicAutocreateResult) (s' : fetching W) : Prop :=
  usable (Fetcher s') ∧ FSock (Fetcher s') = FSock f ∧ MetadataRequest (Fetcher s') = MetadataRequest f ∧
  (r ≠ TryOtherBroker → ∃ request frame, WriteSingleTopicMetadataRequest topic 0 [] = (Ret (), request) ∧
     exchanged request w frame (World s') ∧
     TopicAutocreateWasSuccessful topic frame = Ret (match r with Success => true | _ => false end)).

Lemma TopicAutocreate_ok fuel topic t f w :
  reading [] f → in_s 32 t → response_limit < Z.of_nat fuel →
  c_str (String.list_byte_of_string topic) ≠ [] → Z.of_nat (length (c_str (String.list_byte_of_string topic))) ≤ INT16_MAX →
  wpf (TopicAutocreate fuel topic t) (mkFetching f w) (autocreated f w topic).
Proof.
  intros Hr Ht Hf Hne Hlen. unfold TopicAutocreate. ostep. cbn [Fetcher]. rewrite (proj2 (Z.ltb_ge _ _)) by apply Hr.
  pose proof (WriteSingleTopicRequest_ok _ 0 [] Hne Hlen) as Hreq. fold (WriteSingleTopicMetadataRequest topic 0) in Hreq. rewrite Hreq.
  apply exchange_ok; [done.. | |]; clear fuel t Ht Hf.
  - intros s' H1 H2 H3. by split_and!.
  - intros f1 w1 data n H1 H2 Hst Hn Hx. apply wpo_bind. eapply wpo_mono; [by apply (take_response_ok data n) |]. cbv beta.
    intros o [f2 w2] (-> & E & H3 & H4 & H5). cbn [Fetcher World] in *. subst w2. destruct (response_bytes data n Hn) as [Hne1 Hl1].
    apply (catch_bad_ok _ (λ success : bool, if success then Success else Fail)).
    pose proof (TopicAutocreateWasSuccessful_safe topic _ Hne1 Hl1) as Hsafe.
    destruct (TopicAutocreateWasSuccessful topic (take n data)) as [success | e | x] eqn:Es; [| | done].
    + split_and!; [done | cbn; congruence | cbn; congruence |]. intros _. do 2 eexists. split; [done |]. split; [exact Hx |]. rewrite Es. by destruct success.
    + split_and!; [done | cbn; congruence | cbn; congruence | done].
Qed.

(** *** Connecting *)

(** The fetcher, but for its socket. *)
Definition same_fetcher f f' : Prop := MetadataRequest f' = MetadataRequest f ∧ FStreamReader f' = FStreamReader f.

(** The calls on the way to a connection leave the rest of the fetcher as it is; an exception
    is one that [Connect] catches, and leaves no socket. *)
Notation wpc m s Q := (wpo m s Q (λ e s', match e with FIo (IoError _) | FDb _ => True | _ => False end ∧
  FSock (Fetcher s') = -1 ∧ same_fetcher (Fetcher s) (Fetcher s'))).

Lemma close_fd_ok fd (s : fetching W) (Q : () → fetching W → Prop) T :
  (∀ w', Q () (mkFetching (Fetcher s) w')) → wpo (close_fd fd) s Q T.
Proof.
  intros HQ. destruct s as [f w]. unfold close_fd. destruct (3 <=? fd); [| eapply wpo_Ret; [reflexivity | reflexivity |]; apply HQ].
  intros Ho. unfold wp, modify. cbn in *. split; [| apply HQ]. eapply sys_watch_step; [exact Ho | by eapply sys_close_step].
Qed.

Lemma Disconnect_ok (s : fetching W) T :
  wpo Disconnect s (λ _ s', FSock (Fetcher s') = -1 ∧ same_fetcher (Fetcher s) (Fetcher s')) T.
Proof.
  unfold Disconnect. ostep. apply wpo_bind. apply close_fd_ok. intros w'. by eapply wpo_Ret.
Qed.

(** A computation on the world, with the fetcher as it was. *)
Lemma world_step {A B} (m : IM W A) (k : A → FM (W := W) B) f w Q T :
  wpi m w (λ a w', wpo (k a) (mkFetching f w') Q T) (λ e w', T (FIo e) (mkFetching f w')) →
  wpo (on_world m ≫= k) (mkFetching f w) Q T.
Proof.
  intros Hm Ho. apply wp_bind. specialize (Hm Ho). unfold wp, on_world in *. cbn. destruct (m w) as [[] ?]; [| done..].
  destruct Hm as [H1 H2]. exact (H2 H1).
Qed.

(** A call to find or connect to a host. *)
Lemma net_call {A B} (g : W → A * W) (k : A → FM (W := W) B) f w Q T :
  (∀ a w', ok w → g w = (a, w') → sys_step w w' ∧ wpo (k a) (mkFetching f w') Q T) → wpo (on_world (call g) ≫= k) (mkFetching f w) Q T.
Proof.
  intros Hk Ho. apply wp_bind. unfold wp at 1, on_world, call. cbn in *. destruct (g w) as [a w'] eqn:E. destruct (Hk a w' Ho eq_refl) as [H1 H2].
  apply H2. by eapply sys_watch_step.
Qed.

Lemma getaddrinfo_ok node f w :
  FSock f = -1 → wpc (getaddrinfo node) (mkFetching f w) (λ _ s', Fetcher s' = f).
Proof.
  intros Hf. unfold getaddrinfo. apply net_call. intros [[code errno] addresses] w' Ho E. split; [by eapply sys_gai_step |].
  pose proof (λ H, sys_watch_fatal w Ho (gai_dies w node code errno addresses w' E H)) as Hdie.
  cbv beta iota. destruct (code =? 0); [by eapply wpo_Ret |]. destruct (code =? EAI_SYSTEM).
  - destruct (IsFatal _ _ _ _ _); [by eapply wpo_dies; [reflexivity | auto] |]. ostep. by eapply wpo_Throw.
  - destruct (code =? EAI_MEMORY); [by eapply wpo_dies; [reflexivity | auto] |].
    destruct (IsFatal _ _ _ _ _); [by eapply wpo_dies; [reflexivity | auto] |]. ostep. by eapply wpo_Throw.
Qed.

Lemma connect_error e : IsFatal e Nonfatal nonfatal_connect true [] = true → e ∉ nonfatal_connect.
Proof.
  unfold IsFatal. destruct (contains nonfatal_connect e) eqn:E; [done |]. intros _ He.
  enough (contains nonfatal_connect e = true) by congruence. apply existsb_exists. exists e. split; [by apply list_elem_of_In | apply Z.eqb_refl].
Qed.

Lemma connect_first_ok addresses port f w :
  FSock f = -1 → wpc (connect_first addresses port) (mkFetching f w) (λ _ s', same_fetcher f (Fetcher s')).
Proof.
  intros Hf. revert w. induction addresses as [| a l IH]; intros w; cbn [connect_first]; [by eapply wpo_Ret |].
  apply net_call. intros r w1 Ho E. split; [by eapply sys_socket_step |]. apply world_step, wpo_last, wr_ok.
  { intros e -> He. eapply sys_watch_fatal; [exact Ho | by eapply socket_dies]. }
  eapply wpo_Ret; [reflexivity | reflexivity |]. apply world_step, wpo_last, IfLt0_ok. destruct r as [sock | e]; [| done].
  eapply wpo_Ret; [reflexivity | reflexivity |]. apply net_call. intros r w2 Ho1 E1. split; [by eapply sys_connect_step |]. apply world_step, wpo_last, wr_ok.
  { intros e -> He. eapply sys_watch_fatal; [exact Ho1 | eapply connect_dies; [exact E1 | by apply connect_error]]. }
  eapply wpo_Ret; [reflexivity | reflexivity |]. destruct r as [n | e]; [by eapply wpo_Ret |].
  apply wpo_bind, close_fd_ok. intros w'. cbn [Fetcher]. destruct (e =? EINTR); [by eapply wpo_Throw |]. apply IH.
Qed.

Lemma ConnectToHost_ok node port f w :
  wpc (ConnectToHost node port) (mkFetching f w) (λ _ s', same_fetcher f (Fetcher s')).
Proof.
  unfold ConnectToHost. apply wpo_bind. eapply wpo_mono; [apply Disconnect_ok |]. cbv beta. intros _ [f1 w1] [H1 [H2 H3]]. cbn [Fetcher] in *.
  assert (∀ f2, same_fetcher f1 f2 → same_fetcher f f2) as Hsame by (intros f2 [E1 E2]; split; congruence).
  apply wpo_bind. eapply wpo_weaken; [by apply getaddrinfo_ok | |]; cbv beta; cbn [Fetcher].
  - intros addresses [f2 w2] E. cbn [Fetcher] in E. subst f2.
    eapply wpo_weaken; [by apply connect_first_ok | |]; cbv beta; cbn [Fetcher]; [intros; by apply Hsame |].
    intros e s' (He & Hs & Hf). by auto.
  - intros e s' (He & Hs & Hf). by auto.
Qed.

(** A connection gives a reader that has read nothing. *)
Lemma Connect_ok host port f w :
  usable f → wpf (Connect host port) (mkFetching f w)
    (λ b s', MetadataRequest (Fetcher s') = MetadataRequest f ∧ if b : bool then reading [] (Fetcher s') else usable (Fetcher s')).
Proof.
  intros (data & o & reason & Hb & Hsub & Hst).
  assert (∀ f', same_fetcher f f' → usable f') as Hu by (intros f' [_ E]; unfold usable; rewrite E; by exists data, o, reason).
  unfold Connect. apply wpo_bind. eapply wpo_mono; [apply Disconnect_ok |]. cbv beta. intros _ [f1 w1] [_ [H1 H2]]. cbn [Fetcher] in *.
  assert (∀ f2, same_fetcher f1 f2 → same_fetcher f f2) as Hsame by (intros f2 [E1 E2]; split; congruence).
  apply wpo_bind. eapply (wpo_mono _ _ _ (λ _ s', same_fetcher f (Fetcher s'))).
  { eapply wpo_catch.
    - apply wpo_bind. eapply wpo_mono; [apply ConnectToHost_ok |]. cbv beta. intros _ s' Hs. eapply wpo_Ret; [reflexivity | reflexivity | by apply Hsame].
    - cbv beta. cbn [Fetcher]. intros e [f2 w2] (He & Hs & Hf). cbn [Fetcher] in *.
      assert (wpf (s ← get; massert (FSock (Fetcher s) <? 0);; mret false) (mkFetching f2 w2) (λ (b : bool) s', same_fetcher f (Fetcher s'))) as Hret.
      { ostep. cbn [Fetcher]. apply wpo_massert; [by rewrite Hs |]. eapply wpo_Ret; [reflexivity | reflexivity | by apply Hsame]. }
      destruct e as [[] | |]; done. }
  cbv beta. intros b [f2 w2] Hf2. cbn [Fetcher] in Hf2. destruct b; cbn [negb]; [| eapply wpo_Ret; [reflexivity | reflexivity |]; split; [apply Hf2 | by apply Hu]].
  ostep. cbn [Fetcher]. destruct (Z.ltb_spec (FSock f2) 0) as [| Hsock]; [eapply wpo_Ret; [reflexivity | reflexivity |]; split; [apply Hf2 | by apply Hu] |].
  destruct Hf2 as [Hreq Hr]. destruct (Reset_ok fetch_cfg fetch_cfg_ok (FSock f2) (FStreamReader f) data o reason Hsock Hb Hsub Hst) as (r' & Hr' & Hs' & Hst').
  eapply on_stream_ok; [by rewrite Hr |]. eapply wpo_Ret; [reflexivity | reflexivity |]. split; [done |]. by split.
Qed.

End calls.

(** ** A broker that answers *)

(** The reader stays with its descriptor. *)
Definition keeps_fd {A} (m : RM TSizeReader A) : Prop := ∀ r o r', m r = (o, r') → Fd (Impl r') = Fd (Impl r).

Lemma fd_bind {A B} (m : RM TSizeReader A) (k : A → RM TSizeReader B) : keeps_fd m → (∀ a, keeps_fd (k a)) → keeps_fd (m ≫= k).
Proof.
  intros Hm Hk r o r' E. unfold mbind, M_bind in E. destruct (m r) as [[a | e | x] r1] eqn:E1; [| by injection E as <- <-; eapply Hm..].
  rewrite (Hk a _ _ _ E). by eapply Hm.
Qed.

Lemma fd_on_buf {A} (m : BM A) : keeps_fd (on_buf m).
Proof. intros r o r' E. unfold on_buf in E. by destruct (m _) as [[a | [] |] b]; injection E as <- <-. Qed.

Lemma fd_on_sub {A} (m : M Empty_set TSizeReader A) : keeps_fd (on_sub m).
Proof. intros r o r' E. unfold on_sub in E. by destruct (m _) as [[a | [] |] b]; injection E as <- <-. Qed.

Lemma fd_set_impl g : (∀ i, Fd (g i) = Fd i) → keeps_fd (set_impl g).
Proof. intros Hg r o r' [= <- <-]. apply Hg. Qed.

Lemma fd_pure {A} (m : RM TSizeReader A) : (∀ r, (m r).2 = r) → keeps_fd m.
Proof. intros Hm r o r' E. specialize (Hm r). rewrite E in Hm. cbn in Hm. by subst. Qed.

Lemma fd_massert b : keeps_fd (massert b).
Proof. apply fd_pure. intros r. by destruct b. Qed.

Ltac keeps_fd :=
  repeat first [ apply fd_bind; [| intros ?] | apply fd_on_buf | apply fd_on_sub | apply fd_massert | apply fd_set_impl; by intros []
               | by apply fd_pure | case_match ].

Lemma Read_keeps_fd res : keeps_fd (Read res).
Proof. unfold Read, PrepareForRead, ProcessReadResult, TryAdvanceToNextMsg, GetDataSize, GetData. keeps_fd. Qed.

(** The frame of a response, as it arrives. *)
Lemma frame_prefix body data rest :
  Z.of_nat (length body) ≤ 4 * 1024 * 1024 → int32_frame false body = data ++ rest →
  next_frame fetch_cfg data = if decide (rest = []) then FrameMsg (length data) else FramePartial.
Proof.
  intros Hb E. pose proof (frame_body_written false true (4 * 1024 * 1024) (64 * 1024) body [] ltac:(width_lia)) as Hw.
  rewrite app_nil_r in Hw. pose proof (length_int32_frame false body) as Hl. rewrite E in Hw, Hl. fold fetch_cfg in Hw. rewrite length_app in Hl.
  unfold next_frame. case_decide as Er.
  - subst rest. rewrite app_nil_r in Hw. rewrite Hw. cbn [SizeFieldSize fetch_cfg length] in *. rewrite (proj2 (Z.ltb_ge _ _)) by lia. f_equal. lia.
  - assert (length rest ≠ 0%nat) by by destruct rest. destruct (frame_body fetch_cfg data) as [x |] eqn:Ex; [| done].
    apply (frame_body_app fetch_cfg fetch_cfg_ok data rest) in Ex. rewrite Hw in Ex. injection Ex as <-. cbn [SizeFieldSize fetch_cfg].
    by rewrite (proj2 (Z.ltb_lt _ _)) by lia.
Qed.

Lemma enc_response_frame r : int32_frame false (enc_body r) = enc_response r.
Proof. unfold int32_frame, enc_response. by rewrite Z.add_0_r. Qed.

(** What has arrived of a response and of what follows it. *)
Lemma response_prefix r extra data rest :
  Z.of_nat (length (enc_body r)) ≤ 4 * 1024 * 1024 → enc_response r ++ extra = data ++ rest →
  (next_frame fetch_cfg data = FrameMsg (length (enc_response r)) ∧ take (length (enc_response r)) data = enc_response r) ∨
  (next_frame fetch_cfg data = FramePartial ∧ (length data < length (enc_response r))%nat ∧ rest ≠ []).
Proof.
  intros Hb E. apply app_eq_inv in E as [(k & H1 & H2) | (k & H1 & H2)].
  - pose proof (frame_prefix (enc_body r) data k Hb) as Hn. rewrite enc_response_frame in Hn. specialize (Hn H1). case_decide as Ek.
    + left. subst k. rewrite app_nil_r in H1. rewrite H1. split; [done | by rewrite firstn_all].
    + right. split; [done |]. assert (length k ≠ 0%nat) by by destruct k. split; [rewrite H1, length_app; lia |]. subst rest. by destruct k.
  - left. pose proof (frame_prefix (enc_body r) (enc_response r) [] Hb) as Hn. rewrite enc_response_frame, app_nil_r in Hn. specialize (Hn eq_refl).
    rewrite decide_True in Hn by done. pose proof (next_frame_app fetch_cfg fetch_cfg_ok (enc_response r) k) as Ha. rewrite Hn, <- H1 in Ha.
    split; [done |]. by rewrite H1, take_app_length.
Qed.

(** The milliseconds of a clock. *)
Definition ms (t : timespec) : Z := tv_sec t * 1000 + tv_nsec t `div` 1000000.

(** A world with a peer that answers.  [p_host now w]: the host can be found and connected to at
    one of its addresses that is [p_live], and the clock was [now] at the last question.
    [p_up fd rest now w]: [fd] is connected, and the peer has [rest] still to send. *)
Record peer (W : Type) {net : NetEnv W} := mkPeer {
  p_host : Z → W → Prop;
  p_up : Z → list byte → Z → W → Prop;
  p_live : address → Prop
}.
Arguments mkPeer {W net}.
Arguments p_host {W net}.
Arguments p_up {W net}.
Arguments p_live {W net}.

(** The name of the host is resolved; an address may refuse the connection if it is not the
    one that is live.  What is written is taken, in parts of any size, and [response] can be read, in
    parts of any size.  The clock does not go back, and is before [deadline] all the time. *)
Record answers {W : Type} {env : SockEnv W} {laws : SockLaws W} {net : NetEnv W} (p : peer W) (response : list byte) (deadline : Z) : Prop := {
  an_close now fd w : p_host p now w → p_host p now (sys_close fd w) ∧ sent (sys_close fd w) = sent w;
  an_gai now node w : p_host p now w →
    ∃ errno l w', sys_getaddrinfo node w = ((0, errno, l), w') ∧ p_host p now w' ∧ sent w' = sent w ∧ Exists (p_live p) l;
  an_socket now a w : p_host p now w →
    ∃ fd w', sys_socket a w = (SysRet fd, w') ∧ 0 ≤ fd ∧ p_host p now w' ∧ sent w' = sent w;
  an_connect now fd a port w : p_host p now w → 0 ≤ fd →
    ∃ r w', sys_connect fd a port w = (r, w') ∧ sent w' = sent w ∧
      match r with
      | SysRet _ => p_up p fd response now w'
      | SysErr e => p_host p now w' ∧ ¬ p_live p a ∧ e ∈ [ECONNREFUSED; ETIMEDOUT; EHOSTUNREACH; EHOSTDOWN]
      end;
  an_poll fd out t rest now w : p_up p fd rest now w → out = true ∨ rest ≠ [] →
    ∃ n w', sys_poll fd out t w = (SysRet n, w') ∧ 0 < n ∧ p_up p fd rest now w';
  an_fstat fd rest now w : p_up p fd rest now w →
    ∃ n sock w', sys_fstat fd w = ((SysRet n, sock), w') ∧ p_up p fd rest now w';
  an_send fd b rest now w : p_up p fd rest now w → b ≠ [] →
    ∃ n w', sys_send fd b w = (SysRet n, w') ∧ 0 < n ∧ p_up p fd rest now w';
  an_write fd b rest now w : p_up p fd rest now w → b ≠ [] →
    ∃ n w', sys_write fd b w = (SysRet n, w') ∧ 0 < n ∧ p_up p fd rest now w';
  an_read fd n rest now w : p_up p fd rest now w → 0 < n → rest ≠ [] →
    ∃ b rest' w', sys_read fd n w = (ReadBytes b, w') ∧ b ≠ [] ∧ rest = b ++ rest' ∧ p_up p fd rest' now w';
  an_clock fd rest now w : p_up p fd rest now w →
    ∃ t w', clock_raw w = (t, w') ∧ 0 ≤ tv_sec t ∧ 0 ≤ tv_nsec t ∧ now ≤ ms t < deadline ∧ p_up p fd rest (ms t) w'
}.

Section answered.
Context {W : Type} {env : SockEnv W} {laws : SockLaws W} {net : NetEnv W} (p : peer W) (response : list byte) (deadline : Z).
Context (Hp : answers p response deadline).

Notation wpx m s Q := (wp m s Q (λ _ _, False) (λ _, False)).

Implicit Types (w : W) (f : TMetadataFetcher) (rest buf data : list byte).

(** *** Sending *)

Lemma up_wait fd out t rest now w :
  p_up p fd rest now w → out = true ∨ rest ≠ [] → ∃ w', wait_ready fd out t w = (Ret (), w') ∧ p_up p fd rest now w'.
Proof.
  intros Hu Hr. unfold wait_ready. destruct (0 <=? t); [| by exists w].
  destruct (an_poll _ _ _ Hp fd out t rest now w Hu Hr) as (n & w' & E & Hn & Hu'). exists w'. split; [| done].
  unfold Wr_poll, call. munfold. rewrite E. cbn. by rewrite (proj2 (Z.eqb_neq n 0)) by lia.
Qed.

Lemma up_write fd b rest now w :
  p_up p fd rest now w → b ≠ [] → ∃ n w', WriteAtMost fd b w = (Ret n, w') ∧ 0 < n ≤ Z.of_nat (length b) ∧ p_up p fd rest now w'.
Proof.
  intros Hu Hb. destruct (an_fstat _ _ _ Hp fd rest now w Hu) as (z & sock & w1 & E1 & Hu1). unfold WriteAtMost, call. munfold. rewrite E1. cbn.
  destruct sock.
  - destruct (an_send _ _ _ Hp fd b rest now w1 Hu1 Hb) as (n & w2 & E2 & Hn & Hu2). exists n, w2. unfold Wr_send, call. munfold. rewrite E2. cbn.
    apply send_law in E2 as (_ & ? & _). split_and!; [done | lia | lia | done].
  - destruct (an_write _ _ _ Hp fd b rest now w1 Hu1 Hb) as (n & w2 & E2 & Hn & Hu2). exists n, w2. unfold Wr_write, call. munfold. rewrite E2. cbn.
    apply write_law in E2 as (_ & ? & _). split_and!; [done | lia | lia | done].
Qed.

Lemma drop_left buf csr : 0 ≤ csr < Z.of_nat (length buf) → drop (Z.to_nat csr) buf ≠ [] ∧ Z.of_nat (length (drop (Z.to_nat csr) buf)) = Z.of_nat (length buf) - csr.
Proof.
  intros Hc. assert (length (drop (Z.to_nat csr) buf) = length buf - Z.to_nat csr)%nat as Hl by apply length_drop.
  split; [intros E; rewrite E in Hl; cbn in Hl; lia | lia].
Qed.

Lemma up_write_loop fuel fd buf csr rest now w :
  p_up p fd rest now w → 0 ≤ csr ≤ Z.of_nat (length buf) → Z.of_nat (length buf) - csr ≤ Z.of_nat fuel →
  wpx (write_loop fuel fd buf csr) w (λ b w', b = true ∧ p_up p fd rest now w').
Proof.
  revert csr w. induction fuel as [| fuel IH]; intros csr w Hu Hc Hf; cbn [write_loop];
    (destruct (Z.leb_spec (Z.of_nat (length buf)) csr) as [| Hlt]; [by eapply wp_Ret |]); [lia |].
  destruct (drop_left buf csr) as [Hne Hl]; [lia |]. destruct (up_write fd _ rest now w Hu Hne) as (n & w1 & E & Hn & Hu1).
  eapply wp_bind_Ret; [exact E |]. rewrite (proj2 (Z.eqb_neq n 0)) by lia. apply IH; [done | lia | lia].
Qed.

Lemma up_timed_write_loop fuel fd buf d t csr rest now w :
  p_up p fd rest now w → 0 ≤ csr < Z.of_nat (length buf) → Z.of_nat (length buf) - csr ≤ Z.of_nat fuel →
  wpx (timed_write_loop fuel fd buf d t csr) w (λ b w', b = true ∧ ∃ now', now ≤ now' ∧ p_up p fd rest now' w').
Proof.
  revert t csr now w. induction fuel as [| fuel IH]; intros t csr now w Hu Hc Hf; [lia |]. cbn [timed_write_loop].
  destruct (drop_left buf csr Hc) as [Hne Hl]. destruct (up_wait fd true t rest now w Hu) as (w1 & E1 & Hu1); [by left |].
  destruct (up_write fd _ rest now w1 Hu1 Hne) as (n & w2 & E2 & Hn & Hu2).
  eapply (wp_bind_Ret _ _ _ _ _ n w2); [unfold WriteAtMost_timeout, IM; by rewrite (bind_Ret _ _ _ _ _ E1) |].
  rewrite (proj2 (Z.eqb_neq n 0)) by lia. destruct (Z.leb_spec (Z.of_nat (length buf)) (csr + n)).
  - apply wp_massert; [lia |]. eapply wp_Ret; [reflexivity |]. split; [done |]. by exists now.
  - destruct (an_clock _ _ _ Hp fd rest now w2 Hu2) as (c & w3 & E3 & _ & _ & Hc3 & Hu3).
    eapply (wp_bind_Ret _ _ _ _ _ c w3); [unfold call; by rewrite E3 |].
    eapply wp_mono; [apply (IH _ _ (ms c)); [done | lia | lia] |]. cbv beta. intros b w' (-> & now' & Hle & Hu'). split; [done |]. exists now'. split; [lia | done].
Qed.

(** A request is sent. *)
Lemma up_SendRequest request t rest now f w :
  p_up p (FSock f) rest now w →
  ∃ w' now', SendRequest request t (mkFetching f w) = (Ret true, mkFetching f w') ∧ now ≤ now' ∧ p_up p (FSock f) rest now' w' ∧
    sent w' = sent w ++ request.
Proof.
  intros Hu. assert (wpx (TryWriteExactly_timeout (FSock f) request t) w (λ b w', b = true ∧ ∃ now', now ≤ now' ∧ p_up p (FSock f) rest now' w')) as Hw.
  { unfold TryWriteExactly_timeout, TryWriteExactly. destruct (t <? 0).
    - eapply wp_mono; [by apply up_write_loop; [| lia | lia] |]. cbv beta. intros b w' [-> Hu']. split; [done |]. by exists now.
    - case_bool_decide as E; [eapply wp_Ret; [reflexivity |]; split; [done |]; by exists now |]. assert (length request ≠ 0%nat) by by destruct request.
      destruct (an_clock _ _ _ Hp _ rest now w Hu) as (c & w1 & E1 & _ & _ & Hc1 & Hu1).
      eapply (wp_bind_Ret _ _ _ _ _ c w1); [unfold call; by rewrite E1 |].
      eapply wp_mono; [apply (up_timed_write_loop _ _ _ _ _ _ rest (ms c)); [done | lia | lia] |]. cbv beta.
      intros b w' (-> & now' & Hle & Hu'). split; [done |]. exists now'. split; [lia | done]. }
  assert (Watch (W := W) (λ _, True) True) as Hwatch by done.
  pose proof (TryWriteExactly_timeout_ok (ok := λ _, True) (ends := True) (FSock f) request t w I) as Hs.
  unfold wp in Hw, Hs. destruct (TryWriteExactly_timeout (FSock f) request t w) as [[b | |] w'] eqn:E; [| done..].
  destruct Hw as (-> & now' & Hle & Hu'). destruct Hs as (_ & _ & Hs). exists w', now'. split; [| done].
  unfold SendRequest, FM. erewrite bind_Ret by reflexivity. unfold try_catch, on_world, mbind, M_bind. cbn [World Fetcher]. by rewrite E.
Qed.

(** *** Receiving *)

Lemma up_clock fd rest now f w :
  p_up p fd rest now w → deadline ≤ 2 ^ 63 →
  ∃ now' w', GetMonotonicRawMilliseconds (mkFetching f w) = (Ret now', mkFetching f w') ∧ now ≤ now' < deadline ∧ p_up p fd rest now' w' ∧
    0 ≤ now' ∧ sent w' = sent w.
Proof.
  intros Hu Hd. destruct (an_clock _ _ _ Hp fd rest now w Hu) as (c & w1 & E & H1 & H2 & Hc & Hu1). exists (ms c), w1.
  assert (0 ≤ tv_nsec c `div` 1000000) by (apply Z.div_pos; lia). unfold ms in *. split_and!; [| lia | lia | done | lia | by apply clock_law in E as []].
  unfold GetMonotonicRawMilliseconds, FM. unfold on_world, call, mbind, M_bind. cbn. rewrite E. cbn. rewrite uwrap_id by width_lia. by rewrite uadd_small by width_lia.
Qed.

Lemma up_stream_Read data rest now f w :
  reading data f → p_up p (Fd (Impl (FStreamReader f))) rest now w → rest ≠ [] →
  ∃ b rest' r' w', stream_Read (mkFetching f w) = (Ret (State (Impl r')), mkFetching (set_stream r' f) w') ∧ b ≠ [] ∧ rest = b ++ rest' ∧
    p_up p (Fd (Impl r')) rest' now w' ∧ settled fetch_cfg r' (data ++ b) false ∧ Storage_size (Buf (Impl r')) ≤ storage_bound fetch_cfg ∧ sent w' = sent w.
Proof.
  intros [Hsock Hs Hn Hb] Hu Hne. destruct (an_read _ _ _ Hp _ (64 * 1024) rest now w Hu) as (b & rest' & w' & E & Hbne & Hsplit & Hu'); [lia | done |].
  destruct (read_law _ (64 * 1024) w _ _ ltac:(lia) E) as [Hsent [Hlen _]].
  destruct (Read_ok fetch_cfg fetch_cfg_ok _ data b Hs Hn) as (r' & Hr' & Hs' & Hb'); [cbn; lia | done |].
  rewrite bool_decide_false in Hs' by done. exists b, rest', r', w'.
  assert (GetNextReadSize (Sub (FStreamReader f)) = 64 * 1024) as Hsize.
  { pose proof (st_case _ _ _ _ Hs) as Hcase. rewrite Hn in Hcase. destruct Hcase as (_ & _ & _ & o & -> & _). done. }
  split_and!; [| done | done | by rewrite (Read_keeps_fd _ _ _ _ Hr') | done | done | done].
  unfold stream_Read, FM. erewrite bind_Ret by reflexivity. cbn [Fetcher]. rewrite Hsize.
  erewrite bind_Ret; [| unfold on_world, Wr_read, mbind, M_bind, call; cbn [World]; rewrite E; reflexivity].
  unfold on_stream. cbn [Fetcher]. by rewrite Hr'.
Qed.

(** The bytes of a response are read, some with each turn of the loop. *)
Lemma up_loop r extra fuel t start elapsed data rest now f w :
  reading data f → p_up p (Fd (Impl (FStreamReader f))) rest now w → Z.of_nat (length (enc_body r)) ≤ 4 * 1024 * 1024 →
  enc_response r ++ extra = data ++ rest → (length (enc_response r) - length data ≤ fuel)%nat → in_s 32 t → deadline ≤ 2 ^ 63 →
  0 ≤ start ≤ now → 0 ≤ elapsed → (0 ≤ t → (elapsed < t ∨ elapsed = 0) ∧ deadline ≤ start + t) →
  wpx (read_response_loop fuel t start elapsed) (mkFetching f w) (λ b s, b = true ∧ sent (World s) = sent w ∧ ∃ data', stopped data' (Fetcher s) ∧
    next_frame fetch_cfg data' = FrameMsg (length (enc_response r)) ∧ take (length (enc_response r)) data' = enc_response r).
Proof.
  revert elapsed data rest now f w. induction fuel as [| fuel IH]; intros elapsed data rest now f w Hr Hu Hbody Hcut Hf Ht Hd Hstart H0 Hel;
    (destruct (response_prefix r extra data rest Hbody Hcut) as [[Hn _] | (Hn & Hlen & Hrest)]; [by rewrite (rg_partial _ _ Hr) in Hn |]); [lia |].
  cbn [read_response_loop]. apply wp_bind. eapply (wp_mono _ _ _ _ (λ _ s, s = mkFetching f w)).
  { destruct (Z.ltb_spec t 0) as [| Ht0]; [by eapply wp_Ret |]. eapply wp_Ret; [| reflexivity]. unfold int32_arith.
    destruct (Hel Ht0) as [Hel' _]. rewrite swrap_small by width_lia. by rewrite decide_True by width_lia. }
  cbv beta. intros time_left s ->. wstep. cbn [Fetcher].
  destruct (an_poll _ _ _ Hp _ false time_left rest now w Hu (or_intror Hrest)) as (n & w1 & E1 & Hn1 & Hu1).
  destruct (poll_law _ _ _ _ _ _ E1) as [[Hs1 _] _].
  eapply (wp_bind_Ret _ _ _ _ _ (SysRet n) (mkFetching f w1)); [unfold on_world, Wr_poll, mbind, M_bind, call; cbn; by rewrite E1 |].
  apply wp_massert; [lia |]. rewrite (proj2 (Z.eqb_neq n 0)) by lia.
  destruct (up_stream_Read data rest now f w1 Hr Hu1 Hrest) as (b & rest' & r' & w2 & E2 & Hb & Hsplit & Hu2 & Hs2 & Hst2 & Hsent2).
  eapply (wp_bind_Ret _ _ _ _ _ (Some (State (Impl r')))); [unfold try_catch, FM; erewrite bind_Ret by exact E2; reflexivity |].
  subst rest. rewrite app_assoc in Hcut. pose proof (st_case _ _ _ _ Hs2) as Hcase.
  destruct (response_prefix r extra (data ++ b) rest' Hbody Hcut) as [[Hn2 Htake] | (Hn2 & Hlen2 & Hrest2)]; rewrite Hn2 in Hcase.
  - destruct Hcase as (-> & _). rewrite bool_decide_false by done. eapply wp_Ret; [reflexivity |]. split; [done |]. split; [cbn; congruence |].
    exists (data ++ b). split; [by exists false | done].
  - destruct Hcase as (-> & _). rewrite bool_decide_true by done.
    assert (reading (data ++ b) (set_stream r' f)) as Hr2 by (split; [apply Hr | done..]).
    destruct (up_clock _ rest' now (set_stream r' f) w2 Hu2 Hd) as (now' & w3 & E3 & Hnow & Hu3 & H0' & Hsent3).
    eapply wp_bind_Ret; [exact E3 |]. assert (usub now' start = now' - start) as -> by (apply usub_small; width_lia).
    assert ((0 <=? t) && (uwrap 64 t <=? now' - start) = false) as ->.
    { destruct (Z.leb_spec 0 t) as [Ht0 |]; [| done]. destruct (Hel Ht0) as [_ Hend]. rewrite uwrap_id by width_lia. cbn. lia. }
    assert (length b ≠ 0%nat) by by destruct b.
    eapply wp_mono; [apply (IH _ (data ++ b) rest' now'); [done | done | done | done | rewrite length_app; lia | done | done | lia | lia |] |].
    + intros Ht0. destruct (Hel Ht0). split; [left; lia | lia].
    + cbv beta. intros x s (-> & Hsent & Hx). split; [done |]. split; [congruence | done].
Qed.

Lemma up_ReadResponse r extra fuel t now f w :
  reading [] f → p_up p (Fd (Impl (FStreamReader f))) (enc_response r ++ extra) now w → Z.of_nat (length (enc_body r)) ≤ 4 * 1024 * 1024 →
  (length (enc_response r) ≤ fuel)%nat → in_s 32 t → 0 ≤ now → deadline ≤ 2 ^ 63 → (0 ≤ t → deadline ≤ now + t) →
  wpx (ReadResponse fuel t) (mkFetching f w) (λ b s, b = true ∧ sent (World s) = sent w ∧ ∃ data', stopped data' (Fetcher s) ∧
    next_frame fetch_cfg data' = FrameMsg (length (enc_response r)) ∧ take (length (enc_response r)) data' = enc_response r).
Proof.
  intros Hr Hu Hbody Hf Ht H0 Hd Hlim. unfold ReadResponse. destruct (up_clock _ _ now f w Hu Hd) as (start & w1 & E1 & Hstart & Hu1 & H0' & Hsent1).
  eapply wp_bind_Ret; [exact E1 |]. apply wp_bind.
  eapply wp_mono; [apply (up_loop r extra fuel t start 0 [] (enc_response r ++ extra) start); [done | done | done | done | cbn [length]; lia | done | done | lia | lia |] |].
  - intros Ht0. specialize (Hlim Ht0). split; [by right | lia].
  - cbv beta. intros b [f2 w2] (-> & Hsent & data & (eof & Hs & Hb) & Hn & Htake). cbn [negb]. wstep. cbn [Fetcher World] in *.
    pose proof (st_case _ _ _ _ Hs) as Hcase. rewrite Hn in Hcase. destruct Hcase as (-> & _). eapply wp_Ret; [reflexivity |].
    split; [done |]. split; [cbn; congruence |]. exists data. split; [by exists eof | done].
Qed.

(** *** Connecting *)

Lemma up_connect_first addresses port now f w :
  p_host p now w → Exists (p_live p) addresses →
  ∃ fd w', connect_first addresses port (mkFetching f w) = (Ret (), mkFetching (set_fd fd f) w') ∧ 0 ≤ fd ∧ p_up p fd response now w' ∧ sent w' = sent w.
Proof.
  revert w. induction addresses as [| a l IH]; intros w Hh Hl; [by inversion Hl |].
  destruct (an_socket _ _ _ Hp now a w Hh) as (fd & w1 & E1 & Hfd & Hh1 & Hs1).
  destruct (an_connect _ _ _ Hp now fd a port w1 Hh1 Hfd) as (r & w2 & E2 & Hs2 & Hr).
  assert (connect_first (a :: l) port (mkFetching f w) =
    match r with
    | SysRet _ => set_sock fd
    | SysErr e => close_fd fd;; if e =? EINTR then throw (FIo (IoError e)) else connect_first l port
    end (mkFetching f w2)) as ->.
  { cbn [connect_first]. unfold on_world, call, wr, IfLt0. munfold. cbn. rewrite E1. cbn. rewrite E2. cbn. destruct r as [n | e]; [done |].
    destruct Hr as (_ & _ & He). rewrite !elem_of_cons in He. destruct He as [-> | [-> | [-> | [-> | He]]]]; [done.. | by apply elem_of_nil in He]. }
  destruct r as [n | e]; [exists fd, w2; split_and!; [done.. | congruence] |]. destruct Hr as (Hh2 & Hnot & He).
  apply Exists_cons in Hl as [Hl | Hl]; [done |].
  assert (∃ w3, close_fd fd (mkFetching f w2) = (Ret (), mkFetching f w3) ∧ p_host p now w3 ∧ sent w3 = sent w2) as (w3 & E3 & Hh3 & Hs3).
  { unfold close_fd. destruct (3 <=? fd); [| by exists w2]. exists (sys_close fd w2). split; [done |]. by apply (an_close _ _ _ Hp). }
  destruct (IH w3 Hh3 Hl) as (fd' & w' & E' & H1 & H2 & H3). exists fd', w'. split_and!; [| done | done | congruence].
  unfold FM. rewrite (bind_Ret _ _ _ _ _ E3). rewrite (proj2 (Z.eqb_neq e EINTR)); [exact E' |].
  intros ->. rewrite !elem_of_cons in He. destruct He as [? | [? | [? | [? | He]]]]; [done.. | by apply elem_of_nil in He].
Qed.

Lemma up_Disconnect now f w :
  p_host p now w → ∃ w', Disconnect (mkFetching f w) = (Ret (), mkFetching (set_fd (-1) f) w') ∧ p_host p now w' ∧ sent w' = sent w.
Proof.
  intros Hh. unfold Disconnect, FM. erewrite bind_Ret by reflexivity. cbn [Fetcher]. unfold close_fd. destruct (3 <=? FSock f); [| by exists w].
  exists (sys_close (FSock f) w). split; [done |]. by apply (an_close _ _ _ Hp).
Qed.

Lemma up_Connect host_name port now f w :
  usable f → p_host p now w →
  ∃ f' w', Connect host_name port (mkFetching f w) = (Ret true, mkFetching f' w') ∧ reading [] f' ∧ MetadataRequest f' = MetadataRequest f ∧
    Fd (Impl (FStreamReader f')) = FSock f' ∧ p_up p (FSock f') response now w' ∧ sent w' = sent w.
Proof.
  intros (data & o & reason & Hb & Hsub & Hst) Hh. destruct f as [request sock r]. cbn in *.
  destruct (up_Disconnect now (mkFetcher request sock r) w Hh) as (w1 & E1 & Hh1 & Hs1).
  destruct (up_Disconnect now (mkFetcher request (-1) r) w1 Hh1) as (w2 & E2 & Hh2 & Hs2).
  destruct (an_gai _ _ _ Hp now (c_str (String.list_byte_of_string host_name)) w2 Hh2) as (errno & l & w3 & E3 & Hh3 & Hs3 & Hl).
  destruct (up_connect_first l port now (mkFetcher request (-1) r) w3 Hh3 Hl) as (fd & w4 & E4 & Hfd & Hu & Hs4).
  destruct (Reset_eq fetch_cfg fd r data o reason Hb Hsub) as (b & Hr' & Hb' & Hst').
  destruct (Reset_ok fetch_cfg fetch_cfg_ok fd r data o reason Hfd Hb Hsub Hst) as (r' & Hr'' & Hs' & Hst''). rewrite Hr' in Hr''. injection Hr'' as <-.
  eexists (mkFetcher request fd _), w4. split; [| split; [by split | split_and!; [done | cbn; by rewrite (proj2 (Z.ltb_ge fd 0)) by lia | done | congruence]]].
  assert (ConnectToHost (c_str (String.list_byte_of_string host_name)) port (mkFetching (mkFetcher request (-1) r) w1) =
    (Ret (), mkFetching (mkFetcher request fd r) w4)) as Ec.
  { unfold ConnectToHost, FM. rewrite (bind_Ret _ _ _ _ _ E2). rewrite (bind_Ret _ _ _ l (mkFetching (mkFetcher request (-1) r) w3)); [exact E4 |].
    unfold getaddrinfo, on_world, call, mbind, M_bind. cbn [World Fetcher]. change (World _) with w2. rewrite E3. done. }
  unfold Connect, FM. rewrite (bind_Ret _ _ _ _ _ E1). rewrite (bind_Ret _ _ _ true (mkFetching (mkFetcher request fd r) w4)).
  - cbn [negb]. erewrite bind_Ret by reflexivity. cbn [Fetcher FSock]. rewrite (proj2 (Z.ltb_ge fd 0)) by lia.
    rewrite (bind_Ret _ _ _ () (mkFetching (mkFetcher request fd (mkReader (TImpl_new fd b) (sized fetch_cfg None None))) w4)); [done |].
    unfold on_stream. cbn [Fetcher FStreamReader]. by rewrite Hr'.
  - unfold try_catch, mbind, M_bind. change (set_fd (-1) (mkFetcher request sock r)) with (mkFetcher request (-1) r). by rewrite Ec.
Qed.

End answered.

Lemma new_fetcher_usable f : TMetadataFetcher_new = Ret f → usable f ∧ FSock f = -1.
Proof.
  unfold TMetadataFetcher_new. set (r := TStreamMsgWithSizeReaderBase_new _ _ _ _ _ _ _).
  destruct CreateMetadataRequest as [request | [] |]; [| done]. vm_compute in r. subst r. intros [= <-]. split; [| done].
  exists [], None, None. split; [split; [exists [], []; done | done | done] | done].
Qed.

Lemma new_fetcher_request f : TMetadataFetcher_new = Ret f → MetadataRequest f = concat (all_topics_fields 0).
Proof.
  unfold TMetadataFetcher_new, CreateMetadataRequest, WriteAllTopicsMetadataRequest. rewrite WriteAllTopicsRequest_ok.
  set (r := TStreamMsgWithSizeReaderBase_new _ _ _ _ _ _ _). vm_compute in r. subst r. by intros [= <-].
Qed.

(** A response with a broker gives metadata with one. *)
Lemma view_has_brokers m b l : v_brokers (metadata_view m) = view_brokers (b :: l) → Brokers m ≠ [].
Proof.
  intros Hv Hm. unfold metadata_view in Hv. cbn [v_brokers] in Hv. rewrite Hm in Hv.
  assert (∀ l v, v ≠ (∅ : gmap Z (string * Z)) → foldl view_broker v l ≠ ∅) as Hfold.
  { clear. induction l as [| x l IH]; intros v Hv; [done |]. cbn [foldl]. apply IH. unfold view_broker, map_emplace.
    destruct (v !! mb_id x); [done |]. apply insert_non_empty. }
  apply (Hfold l (view_broker ∅ b)); [| symmetry; exact Hv]. unfold view_broker, map_emplace. rewrite lookup_empty. apply insert_non_empty.
Qed.

(** ** Theorems *)

(** What the router thread does with a broker. *)
Definition fetch_session {W} `{!SockEnv W} `{!NetEnv W} `{!StdSort} `{!Shuffle} `{!HashOrder} (fuel : nat) (host : string) (port t : Z) : FM (W := W) (option TMetadata) :=
  connected ← Connect host port;
  if connected : bool then Fetch fuel t else mret None.

(** C16: The contract of the metadata fetcher.  Whatever the network does, within the
    specification of the system calls (and with a socket that blocks, so that [read] does not
    ask to be tried again), a connection to a broker and a fetch end with metadata
    or without; metadata satisfies its invariant, has a broker, and is what the first message
    received after the request was sent says.  An exception is an error of a system call that
    is no lost connection, or the parser's [length_error]; no assertion fails.  The process
    ends only if a call that can be reached fails with an error that the code does not tolerate ([sys_fatal]: a
    system call fails with one of the errors in the list of its wrapper, [connect] with one
    other than the five of ConnectToHost, [read] with one that is no lost connection, [poll]
    with any).  If there is metadata or the call gives up, the fetcher can be used again. *)
Theorem metadata_fetch_correct {W} {env : SockEnv W} {laws : SockLaws W} {net : NetEnv W} {blk : Blocking}
    {srt : StdSort} {shf : Shuffle} {ord : HashOrder} fuel host port t f (w : W) :
  usable f → in_s 32 t → response_limit < Z.of_nat fuel →
  wp (fetch_session fuel host port t) (mkFetching f w)
    (λ r p, usable (Fetcher p) ∧ MetadataRequest (Fetcher p) = MetadataRequest f ∧
       ∀ m, r = Some m → metadata_ok m ∧ Brokers m ≠ [] ∧
         ∃ w1 frame, exchanged (MetadataRequest f) w1 frame (World p) ∧ BuildMetadataFromResponse frame = Ret m)
    (λ e _, escapes e) (λ x, x = Died ∧ ∃ w1, rtc sys_step w w1 ∧ sys_fatal w1).
Proof.
  intros Hf Ht Hfuel. pose proof (reach_watch w) as Hwatch.
  assert (IoUtil.wpo (ok := rtc sys_step w) (ends := can_die w) World (fetch_session fuel host port t) (mkFetching f w)
    (λ r p, usable (Fetcher p) ∧ MetadataRequest (Fetcher p) = MetadataRequest f ∧
       ∀ m, r = Some m → metadata_ok m ∧ Brokers m ≠ [] ∧
         ∃ w1 frame, exchanged (MetadataRequest f) w1 frame (World p) ∧ BuildMetadataFromResponse frame = Ret m) (λ e _, escapes e)) as H.
  { unfold fetch_session. apply wpo_bind. eapply wpo_mono; [by apply Connect_ok |]. cbv beta.
    intros b [f1 w1] [Hreq Hb]. cbn [Fetcher] in *. destruct b; [| by eapply wpo_Ret; [| | split_and!]].
    eapply wpo_mono; [by apply Fetch_ok |]. cbv beta. intros r p (H1 & H2 & H3 & H4). split_and!; [done | congruence |].
    intros m Hm. destruct (H4 m Hm) as (H5 & H6 & frame & H7 & H8). split_and!; [done | done |]. exists w1, frame. by rewrite <- Hreq. }
  eapply wp_weaken; [apply (H (rtc_refl _ _)) | by intros ? ? [] | by intros ? ? [] | done].
Qed.

(** C17: A broker that answers is heard.  In any world in which the name of the host is
    resolved, one of its addresses accepts the connection (the others may refuse it), the
    peer takes the request and sends a response with a broker (both in parts of any size, and anything
    after the response), and the clock does not reach the timeout before, the fetch returns metadata that
    says what the response says (as [response_view] has it), and what was sent is the request of
    the fetcher, which is for all topics if it is new. *)
Theorem metadata_fetch_delivers {W} {env : SockEnv W} {laws : SockLaws W} {net : NetEnv W}
    {srt : StdSort} {shf : Shuffle} {ord : HashOrder} (p : peer W) (r : wire_response) extra deadline now fuel host port t f (w : W) :
  answers p (enc_response r ++ extra) deadline → p_host p now w → usable f →
  wire_ok r → wr_brokers r ≠ [] → Z.of_nat (length (enc_body r)) ≤ 4 * 1024 * 1024 → (length (enc_response r) ≤ fuel)%nat →
  in_s 32 t → 0 ≤ now → deadline ≤ 2 ^ 63 → (0 ≤ t → deadline ≤ now + t) →
  ∃ m q, fetch_session fuel host port t (mkFetching f w) = (Ret (Some m), q) ∧
    metadata_view m = response_view (response_md r) ∧ sent (World q) = sent w ++ MetadataRequest f ∧
    (TMetadataFetcher_new = Ret f → MetadataRequest f = concat (all_topics_fields 0)).
Proof.
  intros Hp Hh Hf Hr Hbrokers Hsize Hfuel Ht H0 Hd Hlim.
  destruct (up_Connect p _ deadline Hp host port now f w Hf Hh) as (f1 & w1 & Hconn & Hr1 & Hreq & Hfd & Hu & Hs1).
  unfold fetch_session, FM. rewrite (bind_Ret _ _ _ _ _ Hconn). cbv beta iota.
  destruct (BuildMetadataFromResponse_exact r Hr) as (m & Hm & Hmok & Hview).
  assert (wp (Fetch fuel t) (mkFetching f1 w1) (λ o q, o = Some m ∧ sent (World q) = sent w ++ MetadataRequest f) (λ _ _, False) (λ _, False)) as Hrun.
  { unfold Fetch. wstep. cbn [Fetcher]. rewrite (proj2 (Z.ltb_ge _ _)) by apply Hr1.
    destruct (up_SendRequest p _ deadline Hp (MetadataRequest f1) t _ now f1 w1 Hu) as (w2 & now2 & Hsend & Hnow2 & Hu2 & Hs2).
    eapply wp_bind_Ret; [exact Hsend |]. cbn [negb]. apply wp_bind.
    eapply wp_mono; [apply (up_ReadResponse p _ deadline Hp r extra fuel t now2 f1 w2); try done; [by rewrite Hfd | lia | intros Ht0; specialize (Hlim Ht0); lia] |]. cbv beta.
    intros b [f3 w3] (-> & Hs3 & data & Hstop & Hn & Htake). cbn [negb Fetcher World] in *.
    apply wp_bind. eapply wp_weaken; [by apply (take_response_ok (ok := λ _ : W, True) (ends := False) data (length (enc_response r)) f3 w3 (λ _ _, False)) | | by intros ? ? [] | by intros ? []].
    cbv beta. intros o [f4 w4] (_ & -> & E4 & _). cbn [World] in E4. subst w4. rewrite Htake.
    eapply wp_bind_Ret; [unfold catch_bad, try_catch; rewrite Hm; reflexivity |]. cbv beta iota.
    destruct (wr_brokers r) as [| x xs] eqn:Eb; [done |].
    rewrite bool_decide_false by (apply (view_has_brokers m (broker_md x) (broker_md <$> xs)); rewrite Hview; unfold response_md; by rewrite Eb).
    eapply wp_Ret; [reflexivity |]. split; [done |]. cbn [World]. congruence. }
  unfold wp in Hrun. destruct (Fetch fuel t _) as [[o | |] q]; [| done..]. destruct Hrun as [-> Hsent]. exists m, q.
  split_and!; [done | done | done | apply new_fetcher_request].
Qed.

(** If what was received starts with a response, the first message is that response. *)
Lemma exchanged_response {W} {env : SockEnv W} {laws : SockLaws W} request (w0 w : W) frame response rest :
  exchanged request w0 frame w → received w = received w0 ++ enc_response response ++ rest →
  Z.of_nat (length (enc_body response)) ≤ 4 * 1024 * 1024 → frame = enc_response response.
Proof.
  intros (_ & rest' & Hr & Hn) Hr' Hsize. rewrite Hr in Hr'. apply app_inv_head in Hr'.
  pose proof (enc_response_frame response) as Hframe.
  pose proof (frame_prefix (enc_body response) (enc_response response) [] Hsize) as Hp. rewrite app_nil_r, decide_True in Hp by done. specialize (Hp Hframe).
  pose proof (next_frame_app fetch_cfg fetch_cfg_ok (enc_response response) rest) as Happ. rewrite Hp, <- Hr', Hn in Happ. injection Happ as Hlen.
  by apply app_inj_1 in Hr' as [-> _].
Qed.

(** Automatic creation of a topic.  If it is reported as done or as failed, the request for
    the topic was sent, and the first message received says so; if that message is a response
    of the format, success means that its first topic has the name asked for and the error
    code 0 or 5.  Otherwise another broker is to be tried. *)
Theorem topic_autocreate_correct {W} {env : SockEnv W} {laws : SockLaws W} {net : NetEnv W} {blk : Blocking} fuel topic t f (w : W) :
  reading [] f → in_s 32 t → response_limit < Z.of_nat fuel →
  c_str (String.list_byte_of_string topic) ≠ [] → Z.of_nat (length (c_str (String.list_byte_of_string topic))) ≤ INT16_MAX →
  wp (TopicAutocreate fuel topic t) (mkFetching f w)
    (λ r p, usable (Fetcher p) ∧ (r ≠ TryOtherBroker →
       (∃ request frame, WriteSingleTopicMetadataRequest topic 0 [] = (Ret (), request) ∧ exchanged request w frame (World p) ∧
          TopicAutocreateWasSuccessful topic frame = Ret (match r with Success => true | _ => false end)) ∧
       ∀ response rest, wire_ok response → Z.of_nat (length (enc_body response)) ≤ 4 * 1024 * 1024 →
         received (World p) = received w ++ enc_response response ++ rest →
         (r = Success ↔ ∃ x l, wr_topics response = x :: l ∧ wt_name x = c_str (String.list_byte_of_string topic) ∧ (wt_error x = 0 ∨ wt_error x = 5))))
    (λ e _, escapes e) (λ x, x = Died ∧ ∃ w1, rtc sys_step w w1 ∧ sys_fatal w1).
Proof.
  intros Hr Ht Hf Hne Hlen. pose proof (reach_watch w) as Hwatch.
  eapply wp_weaken; [by apply (TopicAutocreate_ok (ok := rtc sys_step w) (ends := can_die w)) | | by intros ? ? [] | done].
  cbv beta. intros r p (_ & H1 & _ & _ & H2). split; [done |]. intros Hnot.
  specialize (H2 Hnot). split; [done |]. destruct H2 as (request & frame & _ & Hx & Hs). intros response rest Hw Hsize Hrec.
  rewrite (exchanged_response _ _ _ _ _ _ Hx Hrec Hsize), (TopicAutocreateWasSuccessful_exact _ _ Hw) in Hs. injection Hs as Hs.
  destruct (wr_topics response) as [| x l]; [split; [by intros -> | by intros (? & ? & ? & _)] |]. split.
  - intros ->. apply andb_prop in Hs as [Hs1 Hs2]. apply bool_decide_eq_true in Hs1. exists x, l. split_and!; [done | done | lia].
  - intros (x' & l' & [= <- <-] & Hname & He). rewrite bool_decide_true in Hs by done. cbn [andb] in Hs.
    assert ((wt_error x =? 0) || (wt_error x =? 5) = true) as E by lia. rewrite E in Hs. by destruct r.
Qed.

(** ** Runs *)

#[export] Instance script_net : NetEnv script := {|
  address := ();
  sys_getaddrinfo _ s := ((0, 0, [()]), s);
  sys_socket _ s := (SysRet 5, s);
  sys_connect _ _ _ s := (SysRet 0, s);
  sys_close _ s := s
|}.

#[export] Instance script_blocking : Blocking (W := script).
Proof. intros fd n w e w'. cbn. by destruct (s_chunks w). Qed.

(** The scripted peer answers, if no part is empty and the time is enough. *)
Definition script_up (deadline : Z) (rest : list byte) (now : Z) (s : script) : Prop :=
  concat (s_chunks s) = rest ∧ Forall (λ c, c ≠ []) (s_chunks s) ∧ Forall (λ k, k ≠ 0%nat) (s_takes s) ∧
  0 ≤ s_time s ∧ now ≤ script_now s ∧ script_now s + Z.of_nat (length rest) + Z.of_nat (length (s_takes s)) < deadline.

Definition script_peer (response : list byte) (deadline : Z) : peer script :=
  mkPeer (script_up deadline response) (λ _, script_up deadline) (λ _, True).

Lemma script_write_up deadline b rest now s :
  script_up deadline rest now s → b ≠ [] → ∃ n s', script_write b s = (SysRet n, s') ∧ 0 < n ∧ script_up deadline rest now s'.
Proof.
  intros (H1 & H2 & H3 & H4 & H5 & H6) Hb. assert (length b ≠ 0%nat) by by destruct b. do 2 eexists. split; [reflexivity |].
  unfold script_take, script_up, script_now in *. cbn [s_chunks s_takes s_sent s_received s_time].
  destruct (s_takes s) as [| k ks]; [cbn [tail length] in *; split_and!; try done; lia |].
  apply Forall_cons in H3 as [Hk Hks]. cbn [tail length] in *. split_and!; try done; lia.
Qed.

Lemma script_read_up deadline n rest now s :
  script_up deadline rest now s → 0 < n → rest ≠ [] →
  ∃ b rest' s', @sys_read script script_env 5 n s = (ReadBytes b, s') ∧ b ≠ [] ∧ rest = b ++ rest' ∧ script_up deadline rest' now s'.
Proof.
  intros (H1 & H2 & H3 & H4 & H5 & H6) Hn Hne. destruct s as [chunks takes sent_ received_ time]. cbn in *. destruct chunks as [| c cs]; [by subst |].
  apply Forall_cons in H2 as [Hc Hcs]. cbn in H1. exists (take (Z.to_nat n) c), (drop (Z.to_nat n) c ++ concat cs). eexists. split; [reflexivity |].
  assert (length c ≠ 0%nat) by by destruct c. split; [| split; [by rewrite app_assoc, take_drop |]].
  { destruct (Z.to_nat n) as [| k] eqn:E; [lia | by destruct c]. }
  unfold script_up, script_now in *. cbn [s_chunks s_takes s_sent s_received s_time] in *.
  assert (length c = length (take (Z.to_nat n) c) + length (drop (Z.to_nat n) c))%nat as El by (rewrite <- length_app; by rewrite take_drop).
  subst rest. rewrite length_app in H6. split_and!; try done.
  - case_decide as Ed; [by rewrite Ed | done].
  - case_decide; [done | by constructor].
  - rewrite length_app. lia.
  - rewrite !length_app. lia.
Qed.

Lemma script_answers response deadline : answers (script_peer response deadline) response deadline.
Proof.
  split; cbn [p_host p_up p_live script_peer].
  - by intros now fd w Hw.
  - intros now node w Hw. exists 0, [()], w. split_and!; try done. by left.
  - intros now a w Hw. by exists 5, w.
  - intros now fd a port w Hw _. by exists (SysRet 0), w.
  - intros fd out t rest now w Hw Hr. do 2 eexists. split; [reflexivity |]. split; [| done].
    assert (out || bool_decide (s_chunks w ≠ []) = true) as ->; [| done]. destruct Hr as [-> | Hr]; [done |]. apply orb_true_iff. right.
    apply bool_decide_true. intros E. destruct Hw as [H1 _]. by rewrite E in H1.
  - intros fd rest now w Hw. by exists 0, true, w.
  - intros fd b rest now w. apply script_write_up.
  - intros fd b rest now w. apply script_write_up.
  - intros fd n rest now w. apply script_read_up.
  - intros fd rest now w Hw. do 2 eexists. split; [reflexivity |]. cbn [tv_sec tv_nsec].
    assert (0 ≤ script_now w) as H0 by (destruct Hw as (_ & _ & _ & ? & _); unfold script_now; lia).
    assert (ms (mkTime (script_now w `div` 1000) (script_now w `mod` 1000 * 1000000)) = script_now w) as ->.
    { unfold ms. cbn [tv_sec tv_nsec]. rewrite Z.div_mul by lia. rewrite (Z.mul_comm _ 1000). symmetry. by apply Z.div_mod. }
    pose proof (Z.mod_pos_bound (script_now w) 1000 ltac:(lia)). destruct Hw as (H1 & H2 & H3 & H4 & H5 & H6).
    split_and!; [by apply Z.div_pos | lia | done | lia |]. by split_and!.
Qed.

Definition ex_fetcher : TMetadataFetcher :=
  match TMetadataFetcher_new with Ret f => f | _ => mkFetcher [] (-1) (TStreamMsgReader_new (-1) fetch_cfg) end.

Lemma ex_fetcher_new : TMetadataFetcher_new = Ret ex_fetcher.
Proof. by vm_compute. Qed.

Definition ex_chunks2 : list (list byte) := [take 10 (enc_response example_wire); drop 10 (enc_response example_wire)].

Definition ex_peer : script := mkScript ex_chunks2 [] [] [] 5000.

Definition ex_fuel : nat := Z.to_nat (response_limit + 1).

Lemma ex_fuel_enough : response_limit < Z.of_nat ex_fuel.
Proof. unfold ex_fuel. rewrite Z2Nat.id; [apply Z.lt_add_pos_r; done | done]. Qed.

Lemma metadata_fetch_correct_witness :
  wp (@fetch_session script _ _ merge_order no_shuffle map_order ex_fuel "b" 9092 1000) (mkFetching ex_fetcher ex_peer)
    (λ r p, usable (Fetcher p) ∧ MetadataRequest (Fetcher p) = MetadataRequest ex_fetcher ∧
       ∀ m, r = Some m → metadata_ok m ∧ Brokers m ≠ [] ∧
         ∃ w1 frame, exchanged (MetadataRequest ex_fetcher) w1 frame (World p) ∧
           @BuildMetadataFromResponse merge_order no_shuffle map_order frame = Ret m)
    (λ e _, escapes e) (λ x, x = Died ∧ ∃ w1, rtc sys_step ex_peer w1 ∧ sys_fatal w1).
Proof.
  apply (@metadata_fetch_correct script _ _ _ _ merge_order no_shuffle map_order).
  - exact (proj1 (new_fetcher_usable _ ex_fetcher_new)).
  - split; vm_compute; congruence.
  - exact ex_fuel_enough.
Defined.

(** The response comes in two parts, with a byte after it, and the request is taken in three. *)
Definition ex_answering : script := mkScript [take 10 (enc_response example_wire); drop 10 (enc_response example_wire) ++ [x07]] [1; 2]%nat [] [] 5000.

Definition ex_session_fuel : nat := length (enc_response example_wire).

Lemma metadata_fetch_delivers_witness :
  ∃ m q, @fetch_session script _ _ merge_order no_shuffle map_order ex_session_fuel "b" 9092 1000 (mkFetching ex_fetcher ex_answering) =
      (Ret (Some m), q) ∧
    metadata_view m = response_view (response_md example_wire) ∧ sent (World q) = sent ex_answering ++ MetadataRequest ex_fetcher ∧
    (TMetadataFetcher_new = Ret ex_fetcher → MetadataRequest ex_fetcher = concat (all_topics_fields 0)).
Proof.
  apply (@metadata_fetch_delivers script _ _ _ merge_order no_shuffle map_order (script_peer (enc_response example_wire ++ [x07]) 6000)
    example_wire [x07] 6000 5000).
  - apply script_answers.
  - split_and!; [by vm_compute | repeat constructor; discriminate | repeat constructor; discriminate | vm_compute; congruence.. | by vm_compute].
  - exact (proj1 (new_fetcher_usable _ ex_fetcher_new)).
  - exact example_wire_ok.
  - discriminate.
  - vm_compute. congruence.
  - constructor.
  - split; vm_compute; congruence.
  - discriminate.
  - discriminate.
  - intros _. discriminate.
Defined.

(** A fetcher that is connected. *)
Definition ex_connected : TMetadataFetcher :=
  match Connect "b" 9092 (mkFetching ex_fetcher ex_peer) with (_, p) => Fetcher p end.

Lemma ex_connected_reading : reading [] ex_connected.
Proof.
  unfold ex_connected. destruct (up_Connect (script_peer (enc_response example_wire) 6000) _ 6000 (script_answers _ _) "b" 9092 5000 ex_fetcher ex_peer)
    as (f & w & E & Hr & _).
  - exact (proj1 (new_fetcher_usable _ ex_fetcher_new)).
  - split_and!; [by vm_compute | repeat constructor; discriminate | constructor | vm_compute; congruence.. | by vm_compute].
  - by rewrite E.
Qed.

Lemma topic_autocreate_correct_witness :
  wp (@TopicAutocreate script _ ex_fuel "t" 1000) (mkFetching ex_connected ex_peer)
    (λ r p, usable (Fetcher p) ∧ (r ≠ TryOtherBroker →
       (∃ request frame, WriteSingleTopicMetadataRequest "t" 0 [] = (Ret (), request) ∧ exchanged request ex_peer frame (World p) ∧
          TopicAutocreateWasSuccessful "t" frame = Ret (match r with Success => true | _ => false end)) ∧
       ∀ response rest, wire_ok response → Z.of_nat (length (enc_body response)) ≤ 4 * 1024 * 1024 →
         received (World p) = received ex_peer ++ enc_response response ++ rest →
         (r = Success ↔ ∃ x l, wr_topics response = x :: l ∧ wt_name x = c_str (String.list_byte_of_string "t") ∧ (wt_error x = 0 ∨ wt_error x = 5))))
    (λ e _, escapes e) (λ x, x = Died ∧ ∃ w1, rtc sys_step ex_peer w1 ∧ sys_fatal w1).
Proof.
  apply (@topic_autocreate_correct script _ _ _ _).
  - exact ex_connected_reading.
  - split; vm_compute; congruence.
  - exact ex_fuel_enough.
  - discriminate.
  - vm_compute. congruence.
Defined.

(** The run itself, with the peer of the example. *)
Example ex_autocreate : (@TopicAutocreate script _ 3 "t" 1000 (mkFetching ex_connected ex_peer)).1 = Ret Success.
Proof. by vm_compute. Qed.

(** dory/metadata_fetcher.h says that [Connect] returns false on failure.  The list of
    ConnectToHost of the errors of [connect] that do not end the process has
    [EHOSTUNREACH] and [EHOSTDOWN] but not [ENETUNREACH] (nor [ECONNRESET]): with a host that
    has an address of a network to which there is no route, the process ends. *)
Definition ENETUNREACH : Z := 101.

Definition no_route_net : NetEnv script := {|
  address := ();
  sys_getaddrinfo _ s := ((0, 0, [()]), s);
  sys_socket _ s := (SysRet 5, s);
  sys_connect _ _ _ s := (SysErr ENETUNREACH, s);
  sys_close _ s := s
|}.

Example connect_without_route_ends : (@Connect script no_route_net "b" 9092 (mkFetching ex_fetcher ex_peer)).1 = Fault Died.
Proof. by vm_compute. Qed.
