(* ===== verification/Threads.v ===== *)
(** * Event semaphores, gates and managed threads
      (base/event_semaphore.{h,cc}, thread/gate.h, thread/fd_managed_thread.{h,cc})

    A gate is the channel from the input threads to the router: a list under a mutex
    with a semaphore that is readable when there is something to get.  The critical
    sections of its methods and the operations on its semaphore are steps of their own,
    so that the methods of several threads interleave.  A managed thread is started,
    asked to shut down and joined by its owner, who can wait for its end with [poll()]. *)
From S2P Require Import Prelude StreamReader.

(** ** Event semaphores *)

Record TEventSemaphore := mkSem { Count : Z; Nonblocking : bool }.

Definition TEventSemaphore_new : TEventSemaphore := mkSem 0 false.

Definition IsReadable (s : TEventSemaphore) : bool := 0 <? Count s.

(** What a call on the event descriptor does: it returns, fails with an [errno], or waits. *)
Inductive sem_result := SemOk | SemErr (errno : Z) | SemWaits.

(** [read()] of an event descriptor with [EFD_SEMAPHORE]; [intr]: a signal interrupts it. *)
Definition eventfd_read {E} (intr : bool) : M E TEventSemaphore sem_result := λ s,
  if intr then (Ret (SemErr EINTR), s)
  else if 0 <? Count s then (Ret SemOk, mkSem (Count s - 1) (Nonblocking s))
  else if Nonblocking s then (Ret (SemErr EAGAIN), s)
  else (Ret SemWaits, s).

(** [None]: the call waits. *)
Definition Pop {E} (intr : bool) : M E TEventSemaphore (option bool) :=
  ret ← eventfd_read intr;
  match ret with
  | SemWaits => mret None
  | SemOk => mret (Some true)
  | SemErr errno =>
      if errno =? EAGAIN then mret (Some false) else
      massert (errno =? EINTR);;
      (* with all signals blocked *)
      ret ← eventfd_read false;
      match ret with
      | SemWaits => mret None
      | SemOk => mret (Some true)
      | SemErr errno => massert (errno =? EAGAIN);; mret (Some false)
      end
  end.

Definition PopIntr (intr : bool) : M system_error TEventSemaphore (option bool) :=
  ret ← eventfd_read intr;
  match ret with
  | SemWaits => mret None
  | SemOk => mret (Some true)
  | SemErr errno =>
      if errno =? EINTR then throw (SystemError errno) else
      massert (errno =? EAGAIN);; mret (Some false)
  end.

(** The counter's largest value is [2 ^ 64 - 2]; a write that would exceed it waits. *)
Definition Push {E} (count : Z) : M E TEventSemaphore (option ()) := λ s,
  let n := Count s + uwrap 64 count in
  if 2 ^ 64 - 2 <? n then (Ret None, s) else (Ret (Some ()), mkSem n (Nonblocking s)).

(** [Reset] keeps the flags of the descriptor. *)
Definition TEventSemaphore_Reset {E} (initial_count : Z) : M E TEventSemaphore () :=
  modify (λ s, mkSem initial_count (Nonblocking s)).

(** A pop takes one from the counter exactly if it returns true; it waits, or fails at once
    if it may not wait, exactly if there is nothing to take. *)
Lemma Pop_ok {E} intr s :
  0 ≤ Count s →
  Pop (E := E) intr s =
    if decide (Count s = 0) then (Ret (if Nonblocking s then Some false else None), s)
    else (Ret (Some true), mkSem (Count s - 1) (Nonblocking s)).
Proof.
  intros H. unfold Pop, eventfd_read. munfold.
  case_decide as E0; destruct intr; cbn; rewrite ?E0; cbn;
    [by destruct (Nonblocking s).. | |]; by rewrite (proj2 (Z.ltb_lt 0 (Count s))) by lia.
Qed.

(** ** Gates *)

Record TGate (A : Type) := mkGate { MsgList : list A; Sem : TEventSemaphore }.
Arguments mkGate {A} MsgList Sem.
Arguments MsgList {A} _.
Arguments Sem {A} _.

Definition TGate_new {A} : TGate A := mkGate [] TEventSemaphore_new.

Section gate.
Context {A : Type}.

Definition GM := M Empty_set (TGate A).

Definition on_sem {B} (m : M Empty_set TEventSemaphore B) : GM B := zoom Sem (λ s g, mkGate (MsgList g) s) m.

(** The critical section of [Put]: was the list empty? *)
Definition Put_locked (put_list : list A) : GM bool := λ g,
  (Ret (bool_decide (MsgList g = [])), mkGate (MsgList g ++ put_list) (Sem g)).

Definition Put_list (put_list : list A) : GM (option ()) :=
  if bool_decide (put_list = []) then mret (Some ()) else
  was_empty ← Put_locked put_list;
  if was_empty : bool then on_sem (Push 1) else mret (Some ()).

Definition Put (put_item : A) : GM (option ()) :=
  was_empty ← Put_locked [put_item];
  if was_empty : bool then on_sem (Push 1) else mret (Some ()).

Definition NonblockingGet : GM (list A) := λ g, (Ret (MsgList g), mkGate [] (Sem g)).

(** [None]: the call waits. *)
Definition Get (intr : bool) : GM (option (list A)) :=
  popped ← on_sem (Pop intr);
  match popped with
  | None => mret None
  | Some _ => l ← NonblockingGet; mret (Some l)
  end.

Definition TGate_Reset : GM () :=
  on_sem (TEventSemaphore_Reset 0);; modify (λ g, mkGate [] (Sem g)).

End gate.
Arguments GM : clear implicits.

(** *** The threads of a gate

    Where a thread is: in no method, in [Put] after its critical section, or in [Get] after
    its pop.  [gs_put] and [gs_got] are all the items put and got since the last [Reset].
    [gs_surplus] counts the calls of [NonblockingGet] that returned something, which leave
    the semaphore as it is, less the calls of [Get] that returned nothing. *)
Inductive gate_phase := Outside | InPut (was_empty : bool) | InGet.

Record gate_sys (A : Type) := mkGateSys {
  gs_gate : TGate A;
  gs_threads : list gate_phase;
  gs_put : list A;
  gs_got : list A;
  gs_surplus : Z
}.
Arguments mkGateSys {A} _ _ _ _ _.
Arguments gs_gate {A} _.
Arguments gs_threads {A} _.
Arguments gs_put {A} _.
Arguments gs_got {A} _.
Arguments gs_surplus {A} _.

Definition some {A} (l : list A) : Z := if decide (l = []) then 0 else 1.

(** A step of thread [i].  [Reset] takes no lock: no thread may be in a method. *)
Inductive gate_step {A} : gate_sys A → gate_sys A → Prop :=
| GatePut g ts put got x i l b g' :
    ts !! i = Some Outside → l ≠ [] → Put_locked l g = (Ret b, g') →
    gate_step (mkGateSys g ts put got x) (mkGateSys g' (<[i := InPut b]> ts) (put ++ l) got x)
| GatePush g ts put got x i g' :
    ts !! i = Some (InPut true) → on_sem (Push 1) g = (Ret (Some ()), g') →
    gate_step (mkGateSys g ts put got x) (mkGateSys g' (<[i := Outside]> ts) put got x)
| GatePutEnd g ts put got x i :
    ts !! i = Some (InPut false) →
    gate_step (mkGateSys g ts put got x) (mkGateSys g (<[i := Outside]> ts) put got x)
| GatePop g ts put got x i intr b g' :
    ts !! i = Some Outside → on_sem (Pop intr) g = (Ret (Some b), g') →
    gate_step (mkGateSys g ts put got x) (mkGateSys g' (<[i := InGet]> ts) put got x)
| GateTake g ts put got x i l g' :
    ts !! i = Some InGet → NonblockingGet g = (Ret l, g') →
    gate_step (mkGateSys g ts put got x) (mkGateSys g' (<[i := Outside]> ts) put (got ++ l) (x - (1 - some l)))
| GateNonblocking g ts put got x i l g' :
    ts !! i = Some Outside → NonblockingGet g = (Ret l, g') →
    gate_step (mkGateSys g ts put got x) (mkGateSys g' ts put (got ++ l) (x + some l))
| GateReset g ts put got x g' :
    Forall (λ p, p = Outside) ts → TGate_Reset g = (Ret (), g') →
    gate_step (mkGateSys g ts put got x) (mkGateSys g' ts [] [] 0).

(** *** No item and no wakeup is lost *)

(** The threads that hold the right to wake, or to be woken by, the semaphore. *)
Definition holds (p : gate_phase) : Z := match p with InPut true | InGet => 1 | _ => 0 end.

Record gate_inv {A} (s : gate_sys A) : Prop := {
  gi_items : gs_got s ++ MsgList (gs_gate s) = gs_put s;
  gi_blocking : Nonblocking (Sem (gs_gate s)) = false;
  gi_count : 0 ≤ Count (Sem (gs_gate s));
  gi_surplus : 0 ≤ gs_surplus s;
  gi_tokens : Count (Sem (gs_gate s)) + sumZ (holds <$> gs_threads s) = some (MsgList (gs_gate s)) + gs_surplus s
}.

Lemma some_nil A : some (@nil A) = 0.
Proof. done. Qed.

Lemma some_nonempty {A} (l : list A) : l ≠ [] → some l = 1.
Proof. intros H. unfold some. by rewrite decide_False. Qed.

Lemma some_bounds {A} (l : list A) : 0 ≤ some l ≤ 1.
Proof. unfold some. case_decide; lia. Qed.

Lemma holds_nonneg ts : 0 ≤ sumZ (holds <$> ts).
Proof. apply sumZ_nonneg, Forall_fmap, Forall_true. by intros [| [] |]. Qed.

Lemma holds_insert ts i p q :
  ts !! i = Some p → sumZ (holds <$> <[i := q]> ts) = sumZ (holds <$> ts) - holds p + holds q.
Proof.
  intros H. rewrite <- (take_drop_middle ts i p H) at 2. rewrite insert_take_drop by by eapply lookup_lt_Some.
  rewrite !fmap_app, !sumZ_app, !fmap_cons. cbn. lia.
Qed.

Lemma holds_one ts i p : ts !! i = Some p → holds p ≤ sumZ (holds <$> ts).
Proof.
  intros H. pose proof (holds_insert ts i p Outside H) as E. cbn in E. pose proof (holds_nonneg (<[i := Outside]> ts)). lia.
Qed.

Lemma holds_outside ts : Forall (λ p, p = Outside) ts → sumZ (holds <$> ts) = 0.
Proof. induction 1 as [| p ts -> _ IH]; [done |]. rewrite fmap_cons. exact IH. Qed.

Lemma gate_step_inv {A} (s s' : gate_sys A) : gate_inv s → gate_step s s' → gate_inv s'.
Proof.
  intros [Hi Hb Hc Hx Ht] Hs. destruct Hs as [g ts put got x i l b g' Hp Hl E | g ts put got x i g' Hp E | g ts put got x i Hp
    | g ts put got x i intr b g' Hp E | g ts put got x i l g' Hp E | g ts put got x i l g' Hp E | g ts put got x g' Hp E];
    cbn [gs_gate gs_threads gs_put gs_got gs_surplus] in *;
    try (pose proof (λ q, holds_insert _ _ _ q Hp) as Hh; pose proof (holds_one _ _ _ Hp) as H1).
  - injection E as <- <-. split; cbn [gs_gate gs_threads gs_put gs_got gs_surplus MsgList Sem]; [by rewrite app_assoc, Hi | done | done | done |].
    rewrite Hh, (some_nonempty (_ ++ l)) by (intros [_ ?]%app_eq_nil; done).
    destruct (MsgList g); [rewrite bool_decide_true by done | rewrite bool_decide_false by done];
      rewrite ?some_nil, ?some_nonempty in Ht by done; cbn [holds]; lia.
  - unfold on_sem, zoom, Push in E. change (uwrap 64 1) with 1 in E. destruct (_ <? _); [done |]. injection E as <-.
    split; cbn [gs_gate gs_threads gs_put gs_got gs_surplus MsgList Sem Nonblocking Count]; [done | done | lia | done |]. rewrite Hh. cbn [holds]. lia.
  - split; cbn [gs_gate gs_threads gs_put gs_got gs_surplus]; [done.. |]. rewrite Hh. cbn [holds]. lia.
  - unfold on_sem, zoom in E. rewrite Pop_ok, Hb in E by done. case_decide as H0; [done |]. injection E as _ <-.
    split; cbn [gs_gate gs_threads gs_put gs_got gs_surplus MsgList Sem Nonblocking Count]; [done | done | lia | done |]. rewrite Hh. cbn [holds]. lia.
  - injection E as <- <-. cbn [holds] in *. pose proof (holds_nonneg ts). pose proof (some_bounds (MsgList g)).
    split; cbn [gs_gate gs_threads gs_put gs_got gs_surplus MsgList Sem]; [by rewrite app_nil_r, Hi | done | done | lia |]. rewrite Hh, some_nil.
    cbn [holds]. lia.
  - injection E as <- <-. pose proof (some_bounds (MsgList g)).
    split; cbn [gs_gate gs_threads gs_put gs_got gs_surplus MsgList Sem]; [by rewrite app_nil_r, Hi | done | done | lia |]. rewrite some_nil. lia.
  - injection E as <-. split; cbn; [done | done | done | done |]. by rewrite holds_outside.
Qed.

(** The start: some threads, none of them in a method. *)
Definition gate_init {A} (n : nat) : gate_sys A := mkGateSys TGate_new (replicate n Outside) [] [] 0.

Lemma gate_reachable {A} n (s : gate_sys A) : rtc gate_step (gate_init n) s → gate_inv s.
Proof.
  intros H. refine (rtc_ind_r (λ s', gate_inv s') (gate_init n) _ _ s H).
  - split; [done.. |]. cbn [gate_init gs_threads gs_gate]. by rewrite holds_outside by by apply Forall_replicate.
  - intros x y _ Hstep Hx. by eapply gate_step_inv.
Qed.

Lemma holds_some ts : 0 < sumZ (holds <$> ts) → ∃ i p, ts !! i = Some p ∧ holds p = 1.
Proof.
  induction ts as [| p ts IH]; [done |]. rewrite fmap_cons. cbn. intros H. destruct (decide (holds p = 1)) as [E | E]; [by exists 0%nat, p |].
  destruct IH as (i & q & Hi & Hq); [destruct p as [| [] |]; cbn in *; done | by exists (S i), q].
Qed.

(** C14: Nothing that is put into a gate is lost, duplicated or reordered, and no wakeup is
    lost, however the methods of any number of threads interleave (the semaphore is pushed
    and popped outside the critical sections).  What has been got since the last [Reset],
    by [Get] or [NonblockingGet], followed by what is in the list, is what has been put, in
    the order of the critical sections.  While the list is not empty, the semaphore is
    readable, or a thread is about to push it, or one has popped it and is about to take
    the list.  When no thread is inside a method, [Get] never waits while there is an item,
    and then returns all of the list.  [NonblockingGet] leaves the semaphore as it is: each
    call that returns something makes one later [Get] return at once with an empty list,
    and the semaphore is readable exactly if the list is not empty or such a [Get] is
    still to come.  Without such calls the count of the semaphore is 0 or 1, so that no push waits,
    and a [Get] that has passed the semaphore finds a nonempty list. *)
Theorem gate_delivers {A} (n : nat) (s : gate_sys A) :
  rtc gate_step (gate_init n) s →
  gs_got s ++ MsgList (gs_gate s) = gs_put s ∧
  (MsgList (gs_gate s) ≠ [] → IsReadable (Sem (gs_gate s)) = true ∨
     ∃ i, gs_threads s !! i = Some (InPut true) ∨ gs_threads s !! i = Some InGet) ∧
  (Forall (λ p, p = Outside) (gs_threads s) →
   Count (Sem (gs_gate s)) = some (MsgList (gs_gate s)) + gs_surplus s ∧
   IsReadable (Sem (gs_gate s)) = bool_decide (MsgList (gs_gate s) ≠ [] ∨ gs_surplus s ≠ 0) ∧
   (∀ intr, (Get intr (gs_gate s)).1 =
      Ret (if decide (MsgList (gs_gate s) = [] ∧ gs_surplus s = 0) then None else Some (MsgList (gs_gate s))))) ∧
  (gs_surplus s = 0 →
   0 ≤ Count (Sem (gs_gate s)) ≤ 1 ∧ (∀ i, gs_threads s !! i = Some InGet → MsgList (gs_gate s) ≠ [])).
Proof.
  intros [Hi Hb Hc Hx Ht]%gate_reachable. pose proof (holds_nonneg (gs_threads s)) as H0. split_and!; [done | | |].
  - intros Hne. rewrite some_nonempty in Ht by done. unfold IsReadable. destruct (decide (0 < Count (Sem (gs_gate s)))); [left; lia | right].
    destruct (holds_some (gs_threads s)) as (i & p & Hp & Hh); [lia |]. exists i. destruct p as [| [] |]; [done | by left | done | by right].
  - intros Hout. pose proof (holds_outside _ Hout) as Hz. rewrite Hz, Z.add_0_r in Ht. pose proof (some_bounds (MsgList (gs_gate s))).
    assert (Count (Sem (gs_gate s)) = 0 ↔ MsgList (gs_gate s) = [] ∧ gs_surplus s = 0) as Hzero.
    { destruct (MsgList (gs_gate s)); rewrite ?some_nil, ?some_nonempty in Ht by done; (split; [intros ?; split; [done || lia | lia] | intros [? ?]; done || lia]). }
    split; [done |]. split.
    + unfold IsReadable. case_bool_decide as Hd; [destruct Hd | apply Z.ltb_ge]; [apply Z.ltb_lt | apply Z.ltb_lt |];
        destruct (decide (Count (Sem (gs_gate s)) = 0)) as [E | E]; try lia; [apply Hzero in E; naive_solver.. |].
      destruct Hd. destruct (MsgList (gs_gate s)); [| by left]. right. intros E'. apply E, Hzero. done.
    + intros intr. unfold Get, GM. unfold mbind, M_bind, on_sem, zoom. rewrite Pop_ok, Hb by done.
      destruct (decide (Count (Sem (gs_gate s)) = 0)) as [E | E]; [rewrite decide_True by tauto | rewrite decide_False by tauto]; done.
  - intros Hs0. rewrite Hs0 in Ht. pose proof (some_bounds (MsgList (gs_gate s))). split; [lia |].
    intros i H1%holds_one. cbn in H1. intros E. rewrite E, some_nil in Ht. lia.
Qed.

(** Two producers and the consumer: the second put comes before the first one's push.  Then
    the list is taken without the semaphore, which stays readable. *)
Lemma gate_delivers_witness :
  let s := mkGateSys (mkGate [] (mkSem 1 false)) [Outside; Outside; Outside] [7; 8] [7; 8] 1 in
  gs_got s ++ MsgList (gs_gate s) = gs_put s ∧ (Get false (gs_gate s)).1 = Ret (Some []).
Proof.
  intros s. assert (rtc gate_step (gate_init 3) s) as H.
  { eapply rtc_l; [eapply (GatePut _ _ _ _ _ 0 [7]); [reflexivity | discriminate | reflexivity] |]. cbn.
    eapply rtc_l; [eapply (GatePut _ _ _ _ _ 1 [8]); [reflexivity | discriminate | reflexivity] |]. cbn.
    eapply rtc_l; [eapply (GatePush _ _ _ _ _ 0); [reflexivity | vm_compute; reflexivity] |]. cbn.
    eapply rtc_l; [eapply (GatePutEnd _ _ _ _ _ 1); reflexivity |]. cbn.
    eapply rtc_l; [eapply (GateNonblocking _ _ _ _ _ 2); reflexivity |]. cbn. apply rtc_refl. }
  destruct (gate_delivers 3 s H) as (H1 & _ & H2 & _). split; [exact H1 |].
  destruct H2 as (_ & _ & H2); [repeat constructor |]. rewrite H2. reflexivity.
Defined.

(** ** Managed threads *)

(** The thread itself: what [Run] ended with once it has ended, an exception or none. *)
Inductive thread_phase (X : Type) := NoThread | ThreadRuns | ThreadEnded (thrown : option X).
Arguments NoThread {X}.
Arguments ThreadRuns {X}.
Arguments ThreadEnded {X} thrown.

Record TFdManagedThread (X : Type) := mkThread {
  Thread : thread_phase X;
  ShutdownRequestedSem : TEventSemaphore;
  ShutdownFinishedSem : TEventSemaphore;
  ThrownByThread : option X
}.
Arguments mkThread {X} _ _ _ _.
Arguments Thread {X} _.
Arguments ShutdownRequestedSem {X} _.
Arguments ShutdownFinishedSem {X} _.
Arguments ThrownByThread {X} _.

#[global] Instance TFdManagedThread_settable X : Settable (TFdManagedThread X) := λ t,
  mkThread (Thread t) (ShutdownRequestedSem t) (ShutdownFinishedSem t) (ThrownByThread t).

Definition TFdManagedThread_new {X} : TFdManagedThread X := mkThread NoThread TEventSemaphore_new TEventSemaphore_new None.

Inductive worker_error (X : Type) := TWorkerError (thrown : X).
Arguments TWorkerError {X} thrown.

Section managed.
Context {X : Type}.

Definition WM := M (worker_error X) (TFdManagedThread X).

Definition joinable (t : TFdManagedThread X) : bool := match Thread t with NoThread => false | _ => true end.

Definition IsStarted : WM bool := gets joinable.

Definition on_requested {A} (m : M (worker_error X) TEventSemaphore A) : WM A :=
  zoom ShutdownRequestedSem (λ s t, t <| ShutdownRequestedSem := s |>) m.

Definition on_finished {A} (m : M (worker_error X) TEventSemaphore A) : WM A :=
  zoom ShutdownFinishedSem (λ s t, t <| ShutdownFinishedSem := s |>) m.

Definition DoStart : WM () :=
  t ← get;
  if joinable t then crash Died else
  massert (negb (IsReadable (ShutdownRequestedSem t)));;
  massert (negb (IsReadable (ShutdownFinishedSem t)));;
  massert (match ThrownByThread t with None => true | Some _ => false end);;
  modify (λ t, t <| Thread := ThreadRuns |>).

Definition Start : WM () := DoStart.

(** A push waits only with a full counter: [None]. *)
Definition RequestShutdown : WM (option ()) :=
  t ← get;
  if negb (joinable t) then crash Died else on_requested (Push 1).

(** [None]: the thread has not ended, and the call waits. *)
Definition Join : WM (option ()) :=
  t ← get;
  match Thread t with
  | NoThread => crash Died
  | ThreadRuns => mret None
  | ThreadEnded _ =>
      modify (λ t, t <| Thread := NoThread |>);;
      on_finished (TEventSemaphore_Reset 0);;
      on_requested (TEventSemaphore_Reset 0);;
      t ← get;
      match ThrownByThread t with
      | Some x => modify (λ t, t <| ThrownByThread := None |>);; throw (TWorkerError x)
      | None => mret (Some ())
      end
  end.

(** The assertions at the end of [ShutdownOnDestroy]. *)
Definition check_destroyed : WM () :=
  t ← get;
  massert (negb (IsReadable (ShutdownFinishedSem t)));;
  massert (negb (joinable t)).

Definition ShutdownOnDestroy : WM (option ()) :=
  t ← get;
  joined ← (if joinable t then
      pushed ← on_requested (Push 1);
      match pushed with
      | None => mret None
      | Some _ => try_catch Join (λ _, mret (Some ()))
      end
    else mret (Some ()));
  match joined with
  | None => mret None
  | Some _ => check_destroyed;; mret (Some ())
  end.

(** What the thread does when [Run] ends, with the exception that it threw or without one. *)
Definition RunAndTerminate (thrown : option X) : WM (option ()) :=
  (match thrown with Some _ => modify (λ t, t <| ThrownByThread := thrown |>) | None => mret () end);;
  r ← on_finished (Push 1);
  modify (λ t, t <| Thread := ThreadEnded thrown |>);;
  mret r.

End managed.
Arguments WM : clear implicits.

(** *** The life of a managed thread

    The invariant of the phases: what the semaphores and the stored exception say. *)
Record thread_ok {X} (t : TFdManagedThread X) : Prop := {
  to_blocking : Nonblocking (ShutdownRequestedSem t) = false ∧ Nonblocking (ShutdownFinishedSem t) = false;
  to_requested : 0 ≤ Count (ShutdownRequestedSem t) ∧ (Thread t = NoThread → Count (ShutdownRequestedSem t) = 0);
  to_finished : Count (ShutdownFinishedSem t) = match Thread t with ThreadEnded _ => 1 | _ => 0 end;
  to_thrown : ThrownByThread t = match Thread t with ThreadEnded x => x | _ => None end
}.

(** The owner's calls and the end of the thread, in any order that the class allows (a thread
    is started when there is none, asked to stop or joined when there is one).  [Join] counts
    as a step when it returns or throws. *)
Inductive thread_step {X} : TFdManagedThread X → TFdManagedThread X → Prop :=
| ThStart t t' : joinable t = false → Start t = (Ret (), t') → thread_step t t'
| ThRequest t t' : joinable t = true → RequestShutdown t = (Ret (Some ()), t') → thread_step t t'
| ThEnds t t' thrown : Thread t = ThreadRuns → RunAndTerminate thrown t = (Ret (Some ()), t') → thread_step t t'
| ThJoin t t' : Join t = (Ret (Some ()), t') → thread_step t t'
| ThJoinThrows t t' x : Join t = (Throw (TWorkerError x), t') → thread_step t t'.

Section life.
Context {X : Type}.
Implicit Types (t : TFdManagedThread X).

Lemma Start_ok t : thread_ok t → Thread t = NoThread →
  ∃ t', Start t = (Ret (), t') ∧ thread_ok t' ∧ Thread t' = ThreadRuns.
Proof.
  intros [Hb [Hr1 Hr2] Hf Ht] Hp. exists (t <| Thread := ThreadRuns |>). unfold Start, DoStart, WM. rewrite (bind_Ret _ _ t t t) by done.
  unfold joinable, IsReadable. rewrite Hf, (Hr2 Hp), Ht, Hp. split; [done |]. split; [| done]. split; cbn; [done | | by rewrite Hf, Hp | by rewrite Ht, Hp].
  split; [done | discriminate].
Qed.

Lemma RequestShutdown_ok t : thread_ok t → Thread t ≠ NoThread → Count (ShutdownRequestedSem t) < 2 ^ 64 - 2 →
  ∃ t', RequestShutdown t = (Ret (Some ()), t') ∧ thread_ok t' ∧ Thread t' = Thread t ∧ IsReadable (ShutdownRequestedSem t') = true.
Proof.
  intros [Hb [Hr1 Hr2] Hf Ht] Hp Hc. eexists. unfold RequestShutdown, WM. rewrite (bind_Ret _ _ t t t) by done.
  assert (joinable t = true) as -> by (unfold joinable; by destruct (Thread t)). cbn [negb].
  unfold on_requested, zoom, Push. change (uwrap 64 1) with 1. rewrite (proj2 (Z.ltb_ge _ _)) by lia. split; [reflexivity |].
  split; [| split; [done | apply Z.ltb_lt; cbn; lia]]. split; cbn; [done | | done | done]. split; [lia | by intros].
Qed.

Lemma RunAndTerminate_ok t thrown : thread_ok t → Thread t = ThreadRuns →
  ∃ t', RunAndTerminate thrown t = (Ret (Some ()), t') ∧ thread_ok t' ∧ Thread t' = ThreadEnded thrown.
Proof.
  intros [Hb [Hr1 Hr2] Hf Ht] Hp. rewrite Hp in Hf, Ht. destruct t as [p rs [fc fb] x]. cbn in *. subst.
  exists (mkThread (ThreadEnded thrown) rs (mkSem 1 fb) thrown).
  split; [by destruct thrown | by split].
Qed.

Lemma Join_ok t : thread_ok t →
  match Thread t with
  | NoThread => Join t = (Fault Died, t)
  | ThreadRuns => Join t = (Ret None, t)
  | ThreadEnded x => Join t = (match x with Some e => Throw (TWorkerError e) | None => Ret (Some ()) end, TFdManagedThread_new)
  end.
Proof.
  intros [[Hb1 Hb2] _ _ Ht]. destruct t as [p [rc rb] [fc fb] x]. cbn in *. subst. by destruct p as [| | []].
Qed.

Lemma thread_step_ok t t' : thread_ok t → thread_step t t' → thread_ok t'.
Proof.
  intros Hok Hs. pose proof (Join_ok t Hok) as Hj. destruct Hs as [t t' Hp E | t t' Hp E | t t' thrown Hp E | t t' E | t t' x E].
  - destruct (Start_ok t Hok) as (t1 & E1 & Hok1 & _); [unfold joinable in Hp; by destruct (Thread t) | congruence].
  - destruct Hok as [Hb [Hr1 Hr2] Hf Ht]. unfold RequestShutdown, WM in E. rewrite (bind_Ret _ _ t t t) in E by done. rewrite Hp in E.
    unfold on_requested, zoom, Push in E. cbn in E. destruct (_ <? _); [done |]. injection E as <-. split; cbn; [done | | done | done].
    split; [change (uwrap 64 1) with 1; lia |]. intros H. unfold joinable in Hp. by rewrite H in Hp.
  - destruct (RunAndTerminate_ok t thrown Hok Hp) as (t1 & E1 & Hok1 & _). congruence.
  - destruct (Thread t) as [| | [] ]; [congruence.. |]. assert (t' = TFdManagedThread_new) as -> by congruence. by split.
  - destruct (Thread t) as [| | [] ]; [congruence | congruence | | congruence]. assert (t' = TFdManagedThread_new) as -> by congruence. by split.
Qed.

Lemma thread_reachable t : rtc thread_step TFdManagedThread_new t → thread_ok t.
Proof.
  intros H. refine (rtc_ind_r (λ s, thread_ok s) TFdManagedThread_new _ _ t H); [by split |].
  intros x y _ Hstep Hx. by eapply thread_step_ok.
Qed.
End life.

(** C31: The life of a managed thread, in every order of the owner's calls and the thread's
    end.  The descriptor to wait on is readable exactly from the end of the thread until it
    is joined.  A thread can be started exactly when there is none, and no assertion of the
    start fails.  [Join] waits while the thread runs; then it throws what the thread threw,
    if it did, and leaves the object as new: a later thread sees neither the request to shut
    down nor the exception of an earlier one.  The destructor, which also asks the thread to
    stop, leaves no thread and fails no assertion. *)
Theorem managed_thread_life {X} (t : TFdManagedThread X) :
  rtc thread_step TFdManagedThread_new t → Count (ShutdownRequestedSem t) < 2 ^ 64 - 2 →
  IsReadable (ShutdownFinishedSem t) = match Thread t with ThreadEnded _ => true | _ => false end ∧
  match Thread t with
  | NoThread => (∃ t', Start t = (Ret (), t') ∧ Thread t' = ThreadRuns) ∧ t = TFdManagedThread_new ∧ ShutdownOnDestroy t = (Ret (Some ()), t)
  | ThreadRuns => Start t = (Fault Died, t) ∧ Join t = (Ret None, t) ∧ (ShutdownOnDestroy t).1 = Ret None
  | ThreadEnded x =>
      Start t = (Fault Died, t) ∧
      Join t = (match x with Some e => Throw (TWorkerError e) | None => Ret (Some ()) end, TFdManagedThread_new) ∧
      ShutdownOnDestroy t = (Ret (Some ()), TFdManagedThread_new)
  end.
Proof.
  intros Hok%thread_reachable Hc. pose proof (Join_ok t Hok) as Hj. split; [unfold IsReadable; rewrite (to_finished _ Hok); by destruct (Thread t) |].
  assert (Thread t ≠ NoThread → Start t = (Fault Died, t)) as Hst.
  { intros Hp. unfold Start, DoStart, WM. rewrite (bind_Ret _ _ t t t) by done. unfold joinable. by destruct (Thread t). }
  assert (Thread t ≠ NoThread → ∃ t1, thread_ok t1 ∧ Thread t1 = Thread t ∧ ShutdownOnDestroy t =
    (joined ← try_catch Join (λ _, mret (Some ())); match joined with None => mret None | Some _ => check_destroyed;; mret (Some ()) end) t1) as Hsd.
  { intros Hp. destruct (RequestShutdown_ok t Hok Hp Hc) as (t1 & E & Hok1 & Hp1 & _). exists t1. split; [done |]. split; [done |].
    unfold RequestShutdown, WM in E. rewrite (bind_Ret _ _ t t t) in E by done. unfold ShutdownOnDestroy, WM. rewrite (bind_Ret _ _ t t t) by done.
    destruct (joinable t); [cbn [negb] in E | done]. unfold mbind, M_bind. unfold WM in E. by rewrite E. }
  destruct (Thread t) as [| | x] eqn:Hp.
  - destruct (Start_ok t Hok Hp) as (t' & E & _ & Hp'). split; [by exists t' |].
    assert (t = TFdManagedThread_new) as ->; [| done]. destruct Hok as [[H1 H2] [_ H3] H4 H5]. specialize (H3 Hp). rewrite Hp in H4, H5.
    destruct t as [p [c1 b1] [c2 b2] x]. cbn in *. by subst.
  - split; [by apply Hst |]. split; [done |]. destruct Hsd as (t1 & Hok1 & Hp1 & ->); [done |].
    pose proof (Join_ok t1 Hok1) as Hj1. rewrite Hp1 in Hj1. unfold try_catch, mbind, M_bind. unfold WM in Hj1. by rewrite Hj1.
  - split; [by apply Hst |]. split; [done |]. destruct Hsd as (t1 & Hok1 & Hp1 & ->); [done |].
    pose proof (Join_ok t1 Hok1) as Hj1. rewrite Hp1 in Hj1. unfold try_catch, mbind, M_bind. unfold WM in Hj1. rewrite Hj1. by destruct x.
Qed.

(** A thread that is asked to stop and ends with an exception. *)
Lemma managed_thread_life_witness :
  ∃ t : TFdManagedThread nat, rtc thread_step TFdManagedThread_new t ∧ Join t = (Throw (TWorkerError 3%nat), TFdManagedThread_new).
Proof.
  eexists (mkThread (ThreadEnded (Some 3%nat)) (mkSem 1 false) (mkSem 1 false) (Some 3%nat)).
  assert (rtc thread_step TFdManagedThread_new (mkThread (ThreadEnded (Some 3%nat)) (mkSem 1 false) (mkSem 1 false) (Some 3%nat))) as H.
  { eapply rtc_l; [eapply ThStart; reflexivity |]. eapply rtc_l; [eapply ThRequest; vm_compute; reflexivity |].
    eapply rtc_l; [eapply (ThEnds _ _ (Some 3%nat)); vm_compute; reflexivity |]. apply rtc_refl. }
  split; [exact H |]. apply (managed_thread_life _ H). reflexivity.
Defined.
