(* ===== verification/InputAgents.v ===== *)
(** * The input agents
      (dory/stream_client_work_fn.{h,cc}, dory/stream_client_handler.cc,
       dory/unix_dg_input_agent.{h,cc}, socket/named_unix_socket.cc)

    The threads that take messages from the clients: one for each stream client, which cuts
    the stream into datagrams, and one for the UNIX datagram socket.  They share the pool,
    the trackers and the gate to the router.  The main loop of a thread is a sequence of
    iterations; what the system calls and the clocks return is an argument.  Logging and the
    counters of the agents are left out. *)
From S2P Require Import Prelude FieldAccess Capped Msg AnomalyTracker InputDg Backoff StreamReader IoUtil Threads.

(** ** What the agents share *)

Record TInputShared := mkInputShared { ShInput : TInput; ShGate : TGate TMsg }.

(** [std::system_error], an exception of the datagram readers, or [TPathTooLong]. *)
Inductive agent_exn := ExnSystem (e : system_error) | ExnInput (e : exn) | TPathTooLong.

(** A computation on a part [T] of the state, whose exceptions are passed on. *)
Definition part {S T E A} (proj : S → T) (upd : T → S → S) (f : E → agent_exn) (m : M E T A) : M agent_exn S A := λ s,
  let '(o, t) := m (proj s) in
  (match o with Ret a => Ret a | Throw e => Throw (f e) | Fault x => Fault x end, upd t s).

Definition no_exn {E} (e : Empty_set) : E := match e with end.

(** What [poll()] returns for the descriptor of the input and that of shutdown requests:
    an error, or its result and whether they have events. *)
Inductive poll_result := PollErr (errno : Z) | PollRet (ret : Z) (input shutdown : bool).

(** The [poll()] of both main loops, with the assertion on its result: has the input, and
    has the shutdown request an event? *)
Definition wait_for_event {S} (res : poll_result) : M agent_exn S (bool * bool) :=
  match res with
  | PollErr errno =>
      if IsFatal errno AddFatal [EINTR] true [EFAULT; EINVAL; ENOMEM] then crash Died else crash AssertFailed
  | PollRet ret input shutdown => massert (0 <? ret);; mret (input, shutdown)
  end.

(** ** A stream client *)

(** [Attached]: the pointers that [SetState] sets are not null. *)
Record TStreamClientWorkFn := mkClientFn {
  Attached : bool;
  IsTcp : bool;
  ClientSocket : Z;
  FnReader : TStreamMsgReader TSizeReader
}.

#[global] Instance TStreamClientWorkFn_settable : Settable TStreamClientWorkFn := λ f,
  mkClientFn (Attached f) (IsTcp f) (ClientSocket f) (FnReader f).

Definition client_reader (max_msg_body_size : Z) : TSizeReader := mkSizeReader 4 true true true max_msg_body_size 65536 None None.

Definition TStreamClientWorkFn_new : TStreamClientWorkFn :=
  mkClientFn false false (-1) (TStreamMsgReader_new (-1) (client_reader 0)).

(** The work function and what it shares. *)
Record TClient := mkClient { Fn : TStreamClientWorkFn; Sh : TInputShared }.

#[global] Instance TClient_settable : Settable TClient := λ c, mkClient (Fn c) (Sh c).

Definition AM := M agent_exn TClient.

Definition on_stream {A} (m : RM TSizeReader A) : AM A :=
  part (λ c, FnReader (Fn c)) (λ r c, mkClient ((Fn c) <| FnReader := r |>) (Sh c)) ExnSystem m.

Definition on_input {A} (m : InputDg.IM A) : AM A :=
  part (λ c, ShInput (Sh c)) (λ w c, mkClient (Fn c) (mkInputShared w (ShGate (Sh c)))) ExnInput m.

(** A call that waits for ever does not return. *)
Definition on_gate {A} (m : GM TMsg (option A)) : AM A :=
  r ← part (λ c, ShGate (Sh c)) (λ g c, mkClient (Fn c) (mkInputShared (ShInput (Sh c)) g)) no_exn m;
  need OutOfFuel r.

(** [operator=(nullptr_t)]. *)
Definition Detach : AM () :=
  modify (λ c, mkClient (mkClientFn false false (-1) (FnReader (Fn c))) (Sh c));;
  on_stream (Reset (-1)).

Definition SetState (is_tcp : bool) (max_stream_msg_size client_socket : Z) : AM () :=
  modify (λ c, mkClient (mkClientFn true is_tcp client_socket (FnReader (Fn c))) (Sh c));;
  on_stream (Reset client_socket);;
  on_stream (modify (λ r, mkReader (Impl r) (SetMaxMsgBodySize max_stream_msg_size (Sub r)))).

(** [GetData] with [GetDataSize]. *)
Definition stream_data : AM (list byte) :=
  data_begin ← on_stream GetData; data_size ← on_stream GetDataSize; mret (take (Z.to_nat data_size) data_begin).

Definition HandleClientClosed (now : Z) : AM () :=
  size ← on_stream GetDataSize;
  if size =? 0 then mret () else
  data ← stream_data;
  is_tcp ← gets (λ c, IsTcp (Fn c));
  on_input (on_anomaly (TrackStreamClientUncleanDisconnect now is_tcp data)).

Definition HandleDataInvalid (now : Z) : AM () :=
  reason ← on_stream (gets (λ r, OptDataInvalidReason (Sub r)));
  massert (match reason with Some _ => true | None => false end);;
  data ← stream_data;
  on_input (on_anomaly (TrackMalformedMsgDiscard now data)).

(** [Read] with the call of [Wr::read], which dies of some errors. *)
Definition Wr_Read (res : read_result) : RM TSizeReader StreamReader.TState :=
  match res with
  | ReadError errno => if IsFatal errno AddFatal [] true [EBADF; EFAULT; EINVAL] then PrepareForRead;; crash Died else Read res
  | ReadBytes _ => Read res
  end.

(** What an iteration of the main loop meets: the results of [poll()] and [read()], the
    clocks (of the anomaly tracker and for the creation of messages) when the message number
    [k] of the data read is built, and the clock at the end of the stream. *)
Record client_event := mkClientEvent {
  ce_poll : poll_result;
  ce_read : read_result;
  ce_clocks : nat → Z * Z;
  ce_now : Z
}.

(** The loop of [HandleSockReadReady].  A message has four bytes at least, so that the number
    of bytes of the buffer is enough fuel. *)
Fixpoint handle_messages (fuel : nat) (e : client_event) (k : nat) (reader_state : StreamReader.TState) : AM bool :=
  match fuel with
  | O => crash OutOfFuel
  | S fuel =>
      match reader_state with
      | ReadNeeded => mret true
      | MsgReady =>
          mem ← on_stream GetReadyMsg;
          size ← on_stream GetReadyMsgSize;
          msg ← on_input (BuildMsgFromDg (ce_clocks e k).1 (ce_clocks e k).2 (take (Z.to_nat size) mem));
          (match msg with Some msg => on_gate (Put msg) | None => mret () end);;
          reader_state ← on_stream ConsumeReadyMsg;
          if bool_decide (reader_state = MsgReady) then handle_messages fuel e (S k) reader_state else mret true
      | DataInvalid => HandleDataInvalid (ce_now e);; mret false
      | AtEnd => HandleClientClosed (ce_now e);; mret false
      end
  end.

Definition HandleSockReadReady (e : client_event) : AM bool :=
  r ← try_catch (reader_state ← on_stream (Wr_Read (ce_read e)); mret (Some reader_state))
        (λ x, match x with
              | ExnSystem (SystemError errno) => if LostTcpConnection errno then mret None else crash Died
              | _ => throw x
              end);
  match r with
  | None => mret false
  | Some reader_state =>
      fuel ← gets (λ c, length (Storage (Buf (Impl (FnReader (Fn c))))));
      handle_messages (S fuel) e 0 reader_state
  end.

(** The assertions at the start of the work function. *)
Definition client_begin : AM () :=
  f ← gets Fn;
  massert (Attached f);;
  massert (0 <=? ClientSocket f);;
  massert (Fd (Impl (FnReader f)) =? ClientSocket f).

(** An iteration of its loop: does it go on? *)
Definition client_iteration (e : client_event) : AM bool :=
  '(sock, shutdown) ← wait_for_event (ce_poll e);
  massert (sock || shutdown);;
  if shutdown : bool then mret false else HandleSockReadReady e.

Fixpoint client_loop (events : list client_event) : AM bool :=
  match events with
  | [] => mret true
  | e :: events => go_on ← client_iteration e; if go_on : bool then client_loop events else mret false
  end.

(** [operator()], for the events of its iterations; [true] if they run out. *)
Definition client_run (events : list client_event) : AM bool := client_begin;; client_loop events.

(** [TStreamClientHandler::HandleConnection]: the state of a worker of the pool is set, and
    the worker launched. *)
Definition HandleConnection (is_tcp : bool) (max_stream_msg_size sock : Z) : AM () :=
  SetState is_tcp max_stream_msg_size sock;; client_begin.

(** ** The datagram agent *)

(** [TNamedUnixSocket]: is it open, and its path. *)
Record TNamedUnixSocket := mkUnixSocket { SockOpen : bool; SockPath : list byte }.

Record TUnixDgInputAgent := mkDgAgent {
  DgDestroying : bool;
  InputSocket : TNamedUnixSocket;
  InputBuf : list byte;
  SyncStartSuccess : bool;
  SyncStartNotify : option TEventSemaphore;
  DgThread : TFdManagedThread agent_exn
}.

#[global] Instance TUnixDgInputAgent_settable : Settable TUnixDgInputAgent := λ a,
  mkDgAgent (DgDestroying a) (InputSocket a) (InputBuf a) (SyncStartSuccess a) (SyncStartNotify a) (DgThread a).

Definition TUnixDgInputAgent_new (max_datagram_msg_size : Z) : TUnixDgInputAgent :=
  mkDgAgent false (mkUnixSocket true []) (replicate (Z.to_nat max_datagram_msg_size) x00) false None TFdManagedThread_new.

(** The configuration: [UnixDgPath] and whether there is a [UnixDgMode]. *)
Record dg_conf := mkDgConf { UnixDgPath : list byte; UnixDgMode : bool }.

(** The agent and what it shares. *)
Record TDg := mkDg { Agent : TUnixDgInputAgent; DgSh : TInputShared }.

#[global] Instance TDg_settable : Settable TDg := λ d, mkDg (Agent d) (DgSh d).

Definition DM := M agent_exn TDg.

Definition set_agent (f : TUnixDgInputAgent → TUnixDgInputAgent) : DM () := modify (λ d, mkDg (f (Agent d)) (DgSh d)).

Definition c_str (s : list byte) : list byte := match strlen s with Some n => take n s | None => s end.

Definition ENOENT : Z := 2.
Definition EADDRNOTAVAIL : Z := 99.

(** A wrapper of a call that fails with the [errno], if there is one. *)
Definition wr_call (fatal : list Z) (res : option Z) : DM (option Z) :=
  match res with Some e => if IsFatal e AddFatal [] true fatal then crash Died else mret res | None => mret res end.

Definition throw_if (res : option Z) : DM () :=
  match res with Some e => throw (ExnSystem (SystemError e)) | None => mret () end.

(** The results of [unlink()], [bind()] and [chmod()]: the [errno] of an error. *)
Record open_results := mkOpenResults { or_unlink : option Z; or_bind : option Z; or_chmod : option Z }.

Definition Bind (path : list byte) (res : open_results) : DM () :=
  ret ← wr_call [EFAULT; ENOMEM] (or_unlink res);
  (if bool_decide (ret = Some ENOENT) then mret () else throw_if ret);;
  ret ← wr_call [EBADF; EINVAL; ENOTSOCK; EADDRNOTAVAIL; EFAULT; ENOMEM] (or_bind res);
  throw_if ret;;
  set_agent (λ a, a <| InputSocket := mkUnixSocket (SockOpen (InputSocket a)) path |>).

(** [sun_path] has 108 bytes, the last of which is zero. *)
Definition OpenUnixSocket (conf : dg_conf) (res : open_results) : DM () :=
  let path := c_str (UnixDgPath conf) in
  (if 107 <? Z.of_nat (length path) then throw TPathTooLong else mret ());;
  let die x := match x with ExnSystem _ => crash Died | _ => throw x end in
  try_catch (Bind path res) die;;
  if UnixDgMode conf then
    try_catch (ret ← wr_call [EFAULT; ENOMEM] (or_chmod res); throw_if ret) die
  else mret ().

(** [SyncStartNotify->Push()]; a push waits only with a full counter. *)
Definition notify_started : DM () :=
  a ← gets Agent;
  match SyncStartNotify a with
  | None => mret ()
  | Some sem =>
      let '(o, sem) := Push (E := Empty_set) 1 sem in
      match o with
      | Ret (Some _) => set_agent (λ a, a <| SyncStartNotify := Some sem |>)
      | _ => crash OutOfFuel
      end
  end.

(** [Run] up to [ForwardMessages]. *)
Definition Run_open (conf : dg_conf) (res : open_results) : DM () :=
  try_catch (OpenUnixSocket conf res) (λ x, notify_started;; throw x);;
  a ← gets Agent;
  match SyncStartNotify a with
  | None => mret ()
  | Some _ => set_agent (λ a, a <| SyncStartSuccess := true |>);; notify_started
  end.

Definition dg_start : DM () := λ d,
  let '(o, t) := Start (DgThread (Agent d)) in
  (match o with Ret a => Ret a | Throw (TWorkerError e) => Throw e | Fault x => Fault x end, mkDg ((Agent d) <| DgThread := t |>) (DgSh d)).

(** The end of the thread, if [Run] throws: [RunAndTerminate]. *)
Definition dg_terminate (x : agent_exn) : DM () := λ d,
  let '(o, t) := RunAndTerminate (Some x) (DgThread (Agent d)) in
  (match o with Ret _ => Ret () | Throw (TWorkerError e) => Throw e | Fault x => Fault x end, mkDg ((Agent d) <| DgThread := t |>) (DgSh d)).

(** [SyncStart] with the part of the thread that it waits for. *)
Definition SyncStart (conf : dg_conf) (res : open_results) : DM bool :=
  started ← gets (λ d, joinable (DgThread (Agent d)));
  if started : bool then crash Died else
  set_agent (λ a, a <| SyncStartSuccess := false |> <| SyncStartNotify := Some TEventSemaphore_new |>);;
  dg_start;;
  try_catch (Run_open conf res) dg_terminate;;
  (* started.Pop() *)
  a ← gets Agent;
  sem ← need NullDeref (SyncStartNotify a);
  (match Pop (E := Empty_set) false sem with (Ret (Some _), _) => mret () | _ => crash OutOfFuel end);;
  set_agent (λ a, a <| SyncStartNotify := None |>);;
  gets (λ d, SyncStartSuccess (Agent d)).

(** [TNamedUnixSocket::Reset]. *)
Definition UnixSocket_Reset (s : TNamedUnixSocket) : TNamedUnixSocket := mkUnixSocket false [].

(** What an iteration meets: the results of [poll()] and [recv()] and the clocks. *)
Record dg_event := mkDgEvent { de_poll : poll_result; de_recv : read_result; de_clocks : Z * Z }.

Definition dg_input {A} (m : InputDg.IM A) : DM A :=
  part (λ d, ShInput (DgSh d)) (λ w d, mkDg (Agent d) (mkInputShared w (ShGate (DgSh d)))) ExnInput m.

Definition dg_gate {A} (m : GM TMsg (option A)) : DM A :=
  r ← part (λ d, ShGate (DgSh d)) (λ g d, mkDg (Agent d) (mkInputShared (ShInput (DgSh d)) g)) no_exn m;
  need OutOfFuel r.

(** [recv()] stores the datagram at the start of the buffer; every error is fatal. *)
Definition ReadOneMsg (e : dg_event) : DM (option TMsg) :=
  result ← match de_recv e with
    | ReadError errno => if IsFatal errno Nonfatal [] true [EBADF; EFAULT; EINVAL; ENOMEM; ENOTCONN; ENOTSOCK] then crash Died else crash AssertFailed
    | ReadBytes dg =>
        buf ← gets (λ d, InputBuf (Agent d));
        if (length buf <? length dg)%nat then crash OutOfBounds
        else set_agent (λ a, a <| InputBuf := dg ++ drop (length dg) buf |>);; mret (length dg)
    end;
  buf ← gets (λ d, InputBuf (Agent d));
  dg_input (BuildMsgFromDg (de_clocks e).1 (de_clocks e).2 (take result buf)).

(** An iteration of the loop of [ForwardMessages]: does it go on? *)
Definition dg_iteration (e : dg_event) : DM bool :=
  '(input, shutdown) ← wait_for_event (de_poll e);
  if shutdown : bool then
    a ← gets Agent;
    (if DgDestroying a then mret () else set_agent (λ a, a <| InputSocket := UnixSocket_Reset (InputSocket a) |>));;
    mret false
  else
    massert input;;
    msg ← ReadOneMsg e;
    (match msg with Some msg => dg_gate (Put msg) | None => mret () end);;
    mret true.

Fixpoint ForwardMessages (events : list dg_event) : DM bool :=
  match events with
  | [] => mret true
  | e :: events => go_on ← dg_iteration e; if go_on : bool then ForwardMessages events else mret false
  end.
