(* ===== verification/InputSystem.v ===== *)
(** * The input side as a whole

    A specification of the input agents of InputAgents and the proof that they keep it: a
    stream client acts as its bytes say ([client_effect]), the datagram agent as its
    datagrams say, and all of them together, in any interleaving of their iterations with
    the router's [Get], act like a sequence of datagrams that are processed one after the
    other ([process_all]). *)
From S2P Require Import Prelude FieldAccess Capped Msg AnomalyTracker InputDg Backoff StreamReader IoUtil Threads InputAgents.

(** ** What is processed *)

(** A datagram (or the frame of a stream), a stream with a bad size field, and a client that
    disconnects in the middle of a frame. *)
Inductive input_event :=
| EvDatagram (now mono : Z) (dg : list byte)
| EvInvalid (now : Z) (data : list byte)
| EvUnclean (now : Z) (is_tcp : bool) (data : list byte).

Definition process (e : input_event) : InputDg.IM (option TMsg) :=
  match e with
  | EvDatagram now mono dg => BuildMsgFromDg now mono dg
  | EvInvalid now data => on_anomaly (TrackMalformedMsgDiscard now data);; mret None
  | EvUnclean now is_tcp data => on_anomaly (TrackStreamClientUncleanDisconnect now is_tcp data);; mret None
  end.

(** The messages that result. *)
Fixpoint process_all (es : list input_event) : InputDg.IM (list TMsg) :=
  match es with
  | [] => mret []
  | e :: es => msg ← process e; msgs ← process_all es; mret (option_list msg ++ msgs)
  end.

Lemma process_all_cons e es w msg w1 msgs w2 :
  process e w = (Ret msg, w1) → process_all es w1 = (Ret msgs, w2) → process_all (e :: es) w = (Ret (option_list msg ++ msgs), w2).
Proof. intros H1 H2. cbn [process_all]. unfold InputDg.IM. rewrite (bind_Ret _ _ _ _ _ H1). unfold InputDg.IM in H2. by rewrite (bind_Ret _ _ _ _ _ H2). Qed.

Lemma process_all_app es es' w msgs w1 msgs' w2 :
  process_all es w = (Ret msgs, w1) → process_all es' w1 = (Ret msgs', w2) → process_all (es ++ es') w = (Ret (msgs ++ msgs'), w2).
Proof.
  revert w msgs. induction es as [| e es IH]; intros w msgs H1 H2; [by injection H1 as <- <- |].
  cbn [process_all] in H1. apply bind_inv_Ret in H1 as (m & wa & Ha & H1). apply bind_inv_Ret in H1 as (ms & wb & Hb & H1). injection H1 as <- <-.
  rewrite <- app_assoc. cbn [app]. eapply process_all_cons; [done |]. by apply IH.
Qed.

(** What is processed keeps the pool and the count of messages in order: each message that
    results is counted, and its body is in the pool. *)
Lemma process_ok e w free lv pop msg w' :
  input_ok w free lv pop → process e w = (Ret msg, w') →
  ∃ free' lv', input_ok w' free' (lv' ++ lv) (option_list msg ++ pop) ∧ KeyAndValue <$> option_list msg = l_blob <$> lv'.
Proof.
  intros Hw E. assert (∀ w2, in_creator w2 = in_creator w → input_ok w2 free lv pop) as Hsame by (destruct Hw; by intros w2 Hw2; split; rewrite Hw2).
  destruct e as [now mono dg | now data | now tcp data]; cbn [process] in E.
  - assert (∀ rt, classify dg ≠ EmptyVersionedPart rt) as Hne by (intros rt Hc; by rewrite BuildMsgFromDg_react, Hc in E).
    destruct (BuildMsgFromDg_ok now mono dg w free lv pop Hw Hne) as (r & w2 & E2 & Hb). rewrite E in E2. injection E2 as <- <-. unfold built in Hb.
    destruct (classify dg); try (destruct Hb as (-> & Hc & _); exists free, []; by split; [apply Hsame |]). case_decide.
    + destruct Hb as (blob & bs & -> & Hi & _). by eexists _, [_].
    + destruct Hb as (-> & (free' & _ & Hi) & _). by exists free', [].
  - injection E as <- <-. exists free, []. by split; [apply Hsame |].
  - injection E as <- <-. exists free, []. by split; [apply Hsame |].
Qed.

Lemma process_all_ok es w free lv pop msgs w' :
  input_ok w free lv pop → process_all es w = (Ret msgs, w') →
  ∃ free' lv', input_ok w' free' (lv' ++ lv) (reverse msgs ++ pop) ∧ KeyAndValue <$> reverse msgs = l_blob <$> lv'.
Proof.
  revert w free lv pop msgs. induction es as [| e es IH]; intros w free lv pop msgs Hw E; [injection E as <- <-; by exists free, [] |].
  cbn [process_all] in E. apply bind_inv_Ret in E as (m & wa & Ha & E). apply bind_inv_Ret in E as (ms & wb & Hb & E). injection E as <- <-.
  destruct (process_ok _ _ _ _ _ _ _ Hw Ha) as (f1 & l1 & H1 & E1). destruct (IH _ _ _ _ _ H1 Hb) as (f2 & l2 & H2 & E2).
  exists f2, (l2 ++ l1). rewrite reverse_app, <- !app_assoc. assert (reverse (option_list m) = option_list m) as -> by by destruct m.
  split; [done |]. by rewrite !fmap_app, E2, E1.
Qed.

(** ** The gate between iterations *)

Definition gate_ok {A} (g : TGate A) : Prop := Sem g = mkSem (if decide (MsgList g = []) then 0 else 1) false.

Lemma Put_ok {A} (a : A) g : gate_ok g → ∃ g', Put a g = (Ret (Some ()), g') ∧ gate_ok g' ∧ MsgList g' = MsgList g ++ [a].
Proof.
  intros Hg. exists (mkGate (MsgList g ++ [a]) (mkSem 1 false)). unfold Put, Put_locked, GM. munfold. unfold on_sem, zoom.
  destruct g as [[| b l] s]; unfold gate_ok in *; cbn in *; subst; done.
Qed.

Lemma gate_Get_ok {A} intr (g : TGate A) : gate_ok g → MsgList g ≠ [] → Get intr g = (Ret (Some (MsgList g)), TGate_new).
Proof.
  intros Hg Hne. unfold Get, GM. munfold. unfold on_sem, zoom. destruct g as [l s]. unfold gate_ok in Hg. cbn in *. subst.
  rewrite decide_False by done. rewrite Pop_ok by done. done.
Qed.

Lemma Get_inv {A} intr (g : TGate A) l g' : gate_ok g → Get intr g = (Ret (Some l), g') → l = MsgList g ∧ g' = TGate_new.
Proof.
  intros Hg E. destruct (decide (MsgList g = [])) as [H0 | Hne]; [| rewrite (gate_Get_ok intr g Hg Hne) in E; by injection E as <- <-].
  unfold gate_ok in Hg. rewrite decide_True in Hg by done. unfold Get, GM, mbind, M_bind, on_sem, zoom in E. by rewrite Hg, Pop_ok in E.
Qed.

(** ** Parts of the state *)

Section part.
Context {S T E A B : Type} {proj : S → T} {upd : T → S → S} {f : E → agent_exn}.
Implicit Types (m : M E T A) (k : A → M agent_exn S B).

Lemma part_Ret m s a t : m (proj s) = (Ret a, t) → part proj upd f m s = (Ret a, upd t s).
Proof. unfold part. by intros ->. Qed.

Lemma part_Throw m s e t : m (proj s) = (Throw e, t) → part proj upd f m s = (Throw (f e), upd t s).
Proof. unfold part. by intros ->. Qed.

Lemma part_Fault m s x t : m (proj s) = (Fault x, t) → part proj upd f m s = (Fault x, upd t s).
Proof. unfold part. by intros ->. Qed.
End part.

(** ** A stream client *)

(** The bytes after the complete frames. *)
Definition leftover (max : Z) (data : list byte) : list byte :=
  drop (length (concat (frames (client_reader max) data).1)) data.

(** The frames that an iteration processes, from number [k] on. *)
Fixpoint datagrams (e : client_event) (k : nat) (fs : list (list byte)) : list input_event :=
  match fs with
  | [] => []
  | f :: fs => EvDatagram (ce_clocks e k).1 (ce_clocks e k).2 f :: datagrams e (S k) fs
  end.

(** How a client goes on: with the bytes [data] of an incomplete frame (or a bad one), not
    at all, or with the death of the process. *)
Inductive client_next := Goes (data : list byte) | Ends | Dies.

Definition read_fatal (errno : Z) : bool := IsFatal errno AddFatal [] true [EBADF; EFAULT; EINVAL].

(** An iteration of a client that holds [data]: the events that it processes, and how it
    goes on. *)
Definition client_effect (max : Z) (is_tcp : bool) (e : client_event) (data : list byte) : list input_event * client_next :=
  match ce_poll e with
  | PollErr _ => ([], Dies)
  | PollRet _ _ true => ([], Ends)
  | PollRet _ _ false =>
      match next_frame (client_reader max) data with
      | FrameBad _ => ([], Dies)
      | _ =>
          match ce_read e with
          | ReadError errno =>
              ([], if read_fatal errno then Dies else if read_again errno then Goes data
                   else if LostTcpConnection errno then Ends else Dies)
          | ReadBytes [] => (if decide (data = []) then [] else [EvUnclean (ce_now e) is_tcp data], Ends)
          | ReadBytes bytes =>
              match frames (client_reader max) (data ++ bytes) with
              | ([], StreamBad _) => ([EvInvalid (ce_now e) (data ++ bytes)], Ends)
              | (fs, _) => (datagrams e 0 fs, Goes (leftover max (data ++ bytes)))
              end
          end
      end
  end.

(** The bytes that it takes from the stream. *)
Definition client_takes (e : client_event) : list byte :=
  match ce_poll e, ce_read e with PollRet _ _ false, ReadBytes b => b | _, _ => [] end.

(** The datagrams among the events. *)
Definition event_dg (e : input_event) : option (list byte) := match e with EvDatagram _ _ dg => Some dg | _ => None end.

(** What [poll()] and [read()] promise. *)
Definition client_event_ok (e : client_event) : Prop :=
  match ce_poll e with
  | PollErr errno => errno ∈ [EFAULT; EINTR; EINVAL; ENOMEM]
  | PollRet ret input shutdown => 0 < ret ∧ input || shutdown = true
  end ∧
  match ce_read e with ReadBytes b => Z.of_nat (length b) ≤ 65536 | ReadError _ => True end.

Lemma poll_fatal errno : errno ∈ [EFAULT; EINTR; EINVAL; ENOMEM] → IsFatal errno AddFatal [EINTR] true [EFAULT; EINVAL; ENOMEM] = true.
Proof. intros H. repeat (apply elem_of_cons in H as [-> | H]; [vm_compute; done |]). by apply elem_of_nil in H. Qed.

Section client.
Context (max : Z) (Hmax : 0 ≤ max ≤ INT32_MAX - 4).
Notation cfg := (client_reader max).

Lemma client_cfg : cfg_ok cfg.
Proof. split; cbn; [auto | done | lia]. Qed.

Lemma frames_msg data n : next_frame cfg data = FrameMsg n →
  frames cfg data = (take n data :: (frames cfg (drop n data)).1, (frames cfg (drop n data)).2).
Proof. intros Hn. rewrite (frames_eq cfg client_cfg data), Hn. by destruct (frames cfg (drop n data)). Qed.

Lemma frames_none data : (∀ n, next_frame cfg data ≠ FrameMsg n) → (frames cfg data).1 = [] ∧ leftover max data = data.
Proof.
  intros Hn. assert ((frames cfg data).1 = []) as H. { rewrite (frames_eq cfg client_cfg data). destruct (next_frame cfg data) as [n | |]; [by destruct (Hn n) | done..]. }
  unfold leftover. by rewrite H.
Qed.

Lemma leftover_msg data n : next_frame cfg data = FrameMsg n → leftover max data = leftover max (drop n data).
Proof.
  intros Hn. pose proof (next_frame_msg cfg client_cfg data n Hn) as (_ & _ & _ & _ & Hl). unfold leftover. rewrite (frames_msg data n Hn). cbn [fst concat].
  rewrite length_app, length_take, Nat.min_l by lia. by rewrite drop_drop.
Qed.

(** What is left at the end. *)
Lemma leftover_end data : match (frames cfg data).2 with
  | StreamPartial rest => leftover max data = rest ∧ next_frame cfg rest = FramePartial
  | StreamBad reason => next_frame cfg (leftover max data) = FrameBad reason
  end.
Proof.
  remember (length data) as k eqn:Hk. revert data Hk. induction (Nat.lt_wf_0 k) as [k _ IH]. intros data ->.
  destruct (next_frame cfg data) as [n | | reason] eqn:Hn.
  - rewrite (leftover_msg data n Hn), (frames_msg data n Hn). apply (IH (length (drop n data))); [| done].
    pose proof (next_frame_msg cfg client_cfg data n Hn) as (_ & _ & _ & _ & Hl). rewrite length_drop. lia.
  - destruct (frames_none data) as [_ ->]; [by rewrite Hn |]. by rewrite (frames_eq cfg client_cfg data), Hn.
  - destruct (frames_none data) as [_ ->]; [by rewrite Hn |]. by rewrite (frames_eq cfg client_cfg data), Hn.
Qed.

Lemma leftover_frame data n : next_frame cfg (leftover max data) ≠ FrameMsg n.
Proof. pose proof (leftover_end data) as H. destruct (frames cfg data).2; [destruct H as [-> ->]; done | by rewrite H]. Qed.

Definition same_stream (c : TClient) (r : TStreamMsgReader TSizeReader) (sh : TInputShared) : TClient := mkClient ((Fn c) <| FnReader := r |>) sh.

Lemma on_stream_Ret {A} (m : RM TSizeReader A) c a r : m (FnReader (Fn c)) = (Ret a, r) → on_stream m c = (Ret a, same_stream c r (Sh c)).
Proof. intros H. exact (part_Ret (proj := λ c, FnReader (Fn c)) m c a r H). Qed.

Lemma on_input_Ret {A} (m : InputDg.IM A) c a w : m (ShInput (Sh c)) = (Ret a, w) → on_input m c = (Ret a, mkClient (Fn c) (mkInputShared w (ShGate (Sh c)))).
Proof. intros H. exact (part_Ret (proj := λ c, ShInput (Sh c)) m c a w H). Qed.

Lemma on_gate_Ret {A} (m : GM TMsg (option A)) c a g :
  m (ShGate (Sh c)) = (Ret (Some a), g) → on_gate m c = (Ret a, mkClient (Fn c) (mkInputShared (ShInput (Sh c)) g)).
Proof.
  intros H. unfold on_gate, AM.
  by rewrite (bind_Ret _ _ _ _ _ (part_Ret (proj := λ c, ShGate (Sh c)) m c (Some a) g H)).
Qed.

Lemma same_stream_id c : same_stream c (FnReader (Fn c)) (Sh c) = c.
Proof. by destruct c as [[] ?]. Qed.

Lemma on_stream_same {A} (m : RM TSizeReader A) c a : m (FnReader (Fn c)) = (Ret a, FnReader (Fn c)) → on_stream m c = (Ret a, c).
Proof. intros H. by rewrite (on_stream_Ret _ _ _ _ H), same_stream_id. Qed.

(** The message built goes to the gate. *)
Lemma forward_ok (c : TClient) msg w :
  gate_ok (ShGate (Sh c)) → ShInput (Sh c) = w →
  ∃ g, (match msg with Some msg => on_gate (Put msg) | None => mret () end : AM ()) c = (Ret (), same_stream c (FnReader (Fn c)) (mkInputShared w g)) ∧
    gate_ok g ∧ MsgList g = MsgList (ShGate (Sh c)) ++ option_list msg.
Proof.
  intros Hg <-. destruct msg as [m |].
  - destruct (Put_ok m _ Hg) as (g & E & Hg' & Hl). exists g. split; [| done].
    rewrite (on_gate_Ret _ _ _ _ E). by destruct c as [[] []].
  - exists (ShGate (Sh c)). rewrite app_nil_r. split; [| done]. by destruct c as [[] []].
Qed.

Lemma handle_messages_ok fuel e k data n c msgs w' :
  settled cfg (FnReader (Fn c)) data false → next_frame cfg data = FrameMsg n → (length data < fuel)%nat → gate_ok (ShGate (Sh c)) →
  process_all (datagrams e k (frames cfg data).1) (ShInput (Sh c)) = (Ret msgs, w') →
  ∃ r g, handle_messages fuel e k MsgReady c = (Ret true, same_stream c r (mkInputShared w' g)) ∧ settled cfg r (leftover max data) false ∧
    Storage_size (Buf (Impl r)) = Storage_size (Buf (Impl (FnReader (Fn c)))) ∧ gate_ok g ∧ MsgList g = MsgList (ShGate (Sh c)) ++ msgs.
Proof.
  revert k data n c msgs w'. induction fuel as [| fuel IH]; intros k data n c msgs w' Hs Hn Hf Hg E; [lia |].
  destruct (ready_msg_ok cfg client_cfg _ data false n Hs Hn) as (mem & H1 & H2 & _ & H3).
  destruct (Consume_ok cfg client_cfg _ data false n Hs Hn) as (r1 & H4 & Hs1 & Hst1).
  rewrite (frames_msg data n Hn) in E. cbn [fst datagrams process_all] in E.
  apply bind_inv_Ret in E as (m & wa & Ha & E). apply bind_inv_Ret in E as (ms & wb & Hb & E). injection E as <- <-.
  cbn [handle_messages]. unfold AM. rewrite (bind_Ret _ _ _ _ _ (on_stream_same _ _ _ H1)), (bind_Ret _ _ _ _ _ (on_stream_same _ _ _ H2)).
  rewrite Nat2Z.id, H3. change (reported cfg (take n data)) with (take n data).
  set (c1 := mkClient (Fn c) (mkInputShared wa (ShGate (Sh c)))).
  rewrite (bind_Ret _ _ _ _ _ (on_input_Ret _ _ _ _ Ha)).
  destruct (forward_ok c1 m wa Hg eq_refl) as (g1 & H5 & Hg1 & Hl1). unfold AM in H5. rewrite (bind_Ret _ _ _ _ _ H5).
  set (c2 := same_stream c1 (FnReader (Fn c1)) (mkInputShared wa g1)). rewrite (leftover_msg data n Hn).
  rewrite (bind_Ret _ _ c2 (State (Impl r1)) (same_stream c2 r1 (Sh c2))) by (by apply on_stream_Ret).
  cbn [MsgList] in *. pose proof (st_case _ _ _ _ Hs1) as Hc. destruct (next_frame cfg (drop n data)) as [n2 | | reason] eqn:Hn2.
  - destruct Hc as [-> _]. rewrite bool_decide_true by done.
    destruct (IH (S k) (drop n data) n2 (same_stream c2 r1 (Sh c2)) ms wb) as (r2 & g2 & H6 & Hs2 & Hst2 & Hg2 & Hl2); [done | done | | done | done |].
    { pose proof (next_frame_msg cfg client_cfg data n Hn) as (_ & _ & _ & _ & Hl). rewrite length_drop. lia. }
    exists r2, g2. split; [rewrite H6; by destruct c as [[] []] |]. split; [done |]. split; [cbn in Hst2 |- *; congruence |]. split; [done |].
    rewrite Hl2. cbn [Sh c2 same_stream ShGate]. by rewrite Hl1, app_assoc.
  - destruct (frames_none (drop n data)) as [Hf0 Hl0]; [by rewrite Hn2 |]. rewrite Hf0 in Hb. injection Hb as <- <-. destruct Hc as [-> _].
    exists r1, g1. rewrite Hl0, app_nil_r. split; [by destruct c as [[] []] |]. split; [done |]. split; [congruence | done].
  - destruct (frames_none (drop n data)) as [Hf0 Hl0]; [by rewrite Hn2 |]. rewrite Hf0 in Hb. injection Hb as <- <-. destruct Hc as [-> _].
    exists r1, g1. rewrite Hl0, app_nil_r. split; [by destruct c as [[] []] |]. split; [done |]. split; [congruence | done].
Qed.

(** A client between iterations: the reader has [data], which has no complete frame. *)
Record client_holds (f : TStreamClientWorkFn) (data : list byte) : Prop := {
  ch_settled : settled cfg (FnReader f) data false;
  ch_frame : ∀ n, next_frame cfg data ≠ FrameMsg n;
  ch_bound : Storage_size (Buf (Impl (FnReader f))) ≤ storage_bound cfg
}.

(** A reader that can be reset. *)
Definition reusable (r : TStreamMsgReader TSizeReader) : Prop :=
  ∃ data m o reason, (m = 0 ∨ m = max) ∧ buf_rep (Buf (Impl r)) data ∧ Sub r = sized (client_reader m) o reason ∧
    Storage_size (Buf (Impl r)) ≤ storage_bound (client_reader m).

Lemma settled_reusable r data eof : settled cfg r data eof → Storage_size (Buf (Impl r)) ≤ storage_bound cfg → reusable r.
Proof.
  intros Hs Hb. exists data, max. pose proof (st_case _ _ _ _ Hs) as Hc. pose proof (st_buf _ _ _ _ Hs).
  destruct (next_frame cfg data) as [n | | reason]; [destruct Hc as (_ & _ & _ & o & Ho); exists o, None |
    destruct Hc as (_ & _ & _ & o & Ho & _); exists o, None | destruct Hc as (_ & o & Ho); exists o, (Some reason)]; auto.
Qed.

Lemma stream_data_ok c data eof : settled cfg (FnReader (Fn c)) data eof → stream_data c = (Ret data, c).
Proof.
  intros Hs. pose proof (st_buf _ _ _ _ Hs) as Hb. destruct (GetData_ok _ data Hb) as (post & E). unfold stream_data, AM.
  rewrite (bind_Ret _ _ _ _ _ (on_stream_same _ _ _ E)), (bind_Ret _ _ _ _ _ (on_stream_same _ _ _ (GetDataSize_ok _ data Hb))).
  rewrite Nat2Z.id. unfold memory. case_bool_decide as H; [by rewrite H |]. by rewrite take_app_length.
Qed.

Lemma HandleClientClosed_ok now c data eof msgs w' :
  settled cfg (FnReader (Fn c)) data eof →
  process_all (if decide (data = []) then [] else [EvUnclean now (IsTcp (Fn c)) data]) (ShInput (Sh c)) = (Ret msgs, w') →
  HandleClientClosed now c = (Ret (), mkClient (Fn c) (mkInputShared w' (ShGate (Sh c)))) ∧ msgs = [].
Proof.
  intros Hs E. pose proof (st_buf _ _ _ _ Hs) as Hb. unfold HandleClientClosed, AM.
  rewrite (bind_Ret _ _ _ _ _ (on_stream_same _ _ _ (GetDataSize_ok _ data Hb))). case_decide as H.
  - injection E as <- <-. subst. split; [by destruct c as [? []] | done].
  - injection E as <- <-. split; [| done]. rewrite (proj2 (Z.eqb_neq _ 0)) by (destruct data; [done | cbn; lia]).
    rewrite (bind_Ret _ _ _ _ _ (stream_data_ok c data eof Hs)). by erewrite bind_Ret by reflexivity.
Qed.

Lemma HandleDataInvalid_ok now c data reason msgs w' :
  settled cfg (FnReader (Fn c)) data false → next_frame cfg data = FrameBad reason →
  process_all [EvInvalid now data] (ShInput (Sh c)) = (Ret msgs, w') →
  HandleDataInvalid now c = (Ret (), mkClient (Fn c) (mkInputShared w' (ShGate (Sh c)))) ∧ msgs = [].
Proof.
  intros Hs Hn E. injection E as <- <-. split; [| done]. pose proof (st_case _ _ _ _ Hs) as Hc. rewrite Hn in Hc. destruct Hc as (_ & o & Ho).
  unfold HandleDataInvalid, AM. rewrite (bind_Ret _ _ c (Some reason) c) by (apply on_stream_same; unfold gets; by rewrite Ho).
  rewrite massert_bind by done. by rewrite (bind_Ret _ _ _ _ _ (stream_data_ok c data false Hs)).
Qed.

(** *** The read *)

Lemma sock_read_Ret e c st r : Wr_Read (ce_read e) (FnReader (Fn c)) = (Ret st, r) →
  HandleSockReadReady e c = handle_messages (S (length (Storage (Buf (Impl r))))) e 0 st (same_stream c r (Sh c)).
Proof.
  intros H. unfold HandleSockReadReady, AM. rewrite (bind_Ret _ _ c (Some st) (same_stream c r (Sh c))); [by erewrite bind_Ret by reflexivity |].
  unfold try_catch. by rewrite (bind_Ret _ _ _ _ _ (on_stream_Ret _ _ _ _ H)).
Qed.

Lemma sock_read_Throw e c errno r : Wr_Read (ce_read e) (FnReader (Fn c)) = (Throw (SystemError errno), r) →
  HandleSockReadReady e c = (if LostTcpConnection errno then Ret false else Fault Died, same_stream c r (Sh c)).
Proof.
  intros H. unfold HandleSockReadReady, AM. pose proof (part_Throw (proj := λ c, FnReader (Fn c)) (upd := λ r c, same_stream c r (Sh c)) (f := ExnSystem) _ c _ _ H) as H'.
  change (part _ _ _ _) with (on_stream (Wr_Read (ce_read e))) in H'. unfold mbind, M_bind, try_catch. unfold AM in H'. rewrite H'. by destruct (LostTcpConnection errno).
Qed.

Lemma sock_read_Fault e c x r : Wr_Read (ce_read e) (FnReader (Fn c)) = (Fault x, r) →
  HandleSockReadReady e c = (Fault x, same_stream c r (Sh c)).
Proof.
  intros H. unfold HandleSockReadReady, AM. pose proof (part_Fault (proj := λ c, FnReader (Fn c)) (upd := λ r c, same_stream c r (Sh c)) (f := ExnSystem) _ c _ _ H) as H'.
  change (part _ _ _ _) with (on_stream (Wr_Read (ce_read e))) in H'. unfold mbind, M_bind, try_catch. unfold AM in H'. by rewrite H'.
Qed.

(** What an iteration leads to, as [client_effect] says. *)
Definition client_result (c : TClient) (msgs : list TMsg) (w' : TInput) (next : client_next) (res : outcome agent_exn bool * TClient) : Prop :=
  ∃ o r g, res = (o, same_stream c r (mkInputShared w' g)) ∧ gate_ok g ∧ MsgList g = MsgList (ShGate (Sh c)) ++ msgs ∧
  match next with
  | Goes data' => o = Ret true ∧ client_holds ((Fn c) <| FnReader := r |>) data'
  | Ends => o = Ret false ∧ reusable r
  | Dies => o = Fault Died
  end.

Lemma settled_storage r data eof : settled cfg r data eof → (length data ≤ length (Storage (Buf (Impl r))))%nat.
Proof. intros Hs. pose proof (buf_bounds _ _ (st_buf _ _ _ _ Hs)) as (? & [Hx _] & _). unfold Storage_size in Hx. lia. Qed.

Lemma read_bytes_ok e c data b msgs w' :
  client_holds (Fn c) data → next_frame cfg data = FramePartial → gate_ok (ShGate (Sh c)) →
  ce_read e = ReadBytes b → b ≠ [] → Z.of_nat (length b) ≤ 65536 →
  let '(evs, next) := match frames cfg (data ++ b) with
    | ([], StreamBad _) => ([EvInvalid (ce_now e) (data ++ b)], Ends)
    | (fs, _) => (datagrams e 0 fs, Goes (leftover max (data ++ b)))
    end in
  process_all evs (ShInput (Sh c)) = (Ret msgs, w') → client_result c msgs w' next (HandleSockReadReady e c).
Proof.
  intros [Hs Hn Hb] Hp Hg Hr Hne Hl. destruct (Read_ok cfg client_cfg _ data b Hs Hp Hl Hb) as (r & E & Hs1 & Hb1).
  rewrite bool_decide_false in Hs1 by done. erewrite sock_read_Ret by (rewrite Hr; exact E). pose proof (settled_storage _ _ _ Hs1) as Hfuel.
  set (c1 := same_stream c r (Sh c)). pose proof (st_case _ _ _ _ Hs1) as Hc. rewrite (frames_eq cfg client_cfg (data ++ b)).
  destruct (next_frame cfg (data ++ b)) as [n | | reason] eqn:Hn1.
  - destruct (frames cfg (drop n (data ++ b))) as [fs e1] eqn:Hfs. intros Hpr. destruct Hc as [-> _].
    destruct (handle_messages_ok (S (length (Storage (Buf (Impl r))))) e 0 (data ++ b) n c1 msgs w') as (r2 & g & H1 & H2 & H3 & H4 & H5);
      [done | done | lia | done | rewrite (frames_msg _ _ Hn1), Hfs; exact Hpr |].
    exists (Ret true), r2, g. split; [rewrite H1; by destruct c as [[] []] |]. split; [done |]. split; [done |]. split; [done |]. split; [done | apply leftover_frame | cbn in H3 |- *; lia].
  - intros Hpr. injection Hpr as <- <-. destruct Hc as [-> _]. destruct (frames_none (data ++ b)) as [_ ->]; [by rewrite Hn1 |].
    exists (Ret true), r, (ShGate (Sh c)). rewrite app_nil_r. split; [by destruct c as [[] []] |]. do 3 (split; [done |]). split; [done | by rewrite Hn1 | done].
  - intros Hpr. destruct Hc as [-> _]. destruct (HandleDataInvalid_ok (ce_now e) c1 (data ++ b) reason msgs w' Hs1 Hn1 Hpr) as [H1 ->].
    exists (Ret false), r, (ShGate (Sh c)). rewrite app_nil_r. cbn [handle_messages]. unfold AM in *. rewrite (bind_Ret _ _ _ _ _ H1).
    split; [by destruct c as [[] []] |]. do 3 (split; [done |]). by eapply settled_reusable.
Qed.

Lemma read_end_ok e c data msgs w' :
  client_holds (Fn c) data → next_frame cfg data = FramePartial → gate_ok (ShGate (Sh c)) → ce_read e = ReadBytes [] →
  process_all (if decide (data = []) then [] else [EvUnclean (ce_now e) (IsTcp (Fn c)) data]) (ShInput (Sh c)) = (Ret msgs, w') →
  client_result c msgs w' Ends (HandleSockReadReady e c).
Proof.
  intros [Hs Hn Hb] Hp Hg Hr Hpr. destruct (Read_ok cfg client_cfg _ data [] Hs Hp) as (r & E & Hs1 & Hb1); [cbn; lia | done |].
  rewrite app_nil_r, bool_decide_true in Hs1 by done. erewrite sock_read_Ret by (rewrite Hr; exact E).
  pose proof (st_case _ _ _ _ Hs1) as Hc. rewrite Hp in Hc. destruct Hc as [-> _].
  destruct (HandleClientClosed_ok (ce_now e) (same_stream c r (Sh c)) data true msgs w' Hs1 Hpr) as [H1 ->].
  exists (Ret false), r, (ShGate (Sh c)). rewrite app_nil_r. cbn [handle_messages]. unfold AM in *. rewrite (bind_Ret _ _ _ _ _ H1).
  split; [by destruct c as [[] []] |]. do 3 (split; [done |]). by eapply settled_reusable.
Qed.

Lemma read_error_ok e c data errno :
  client_holds (Fn c) data → next_frame cfg data = FramePartial → gate_ok (ShGate (Sh c)) → ce_read e = ReadError errno →
  client_result c [] (ShInput (Sh c))
    (if read_fatal errno then Dies else if read_again errno then Goes data else if LostTcpConnection errno then Ends else Dies)
    (HandleSockReadReady e c).
Proof.
  intros [Hs Hn Hb] Hp Hg Hr. unfold client_result. destruct (read_fatal errno) eqn:Hf.
  { destruct (Prepare_ok cfg client_cfg _ data Hs Hp Hb) as (b & E & _). eexists _, _, (ShGate (Sh c)). rewrite app_nil_r.
    split; [| by split]. rewrite (sock_read_Fault e c Died (mkReader (with_buf b (Impl (FnReader (Fn c)))) (Sub (FnReader (Fn c))))); [by destruct c as [? []] |].
    rewrite Hr. unfold Wr_Read. fold (read_fatal errno). rewrite Hf. unfold RM. by rewrite (bind_Ret _ _ _ _ _ E). }
  destruct (Read_error_ok cfg client_cfg _ data errno Hs Hp Hb) as (r & E & Hs1 & Hb1).
  assert (Wr_Read (ce_read e) (FnReader (Fn c)) = (if read_again errno then Ret ReadNeeded else Throw (SystemError errno), r)) as E'
    by (rewrite Hr; unfold Wr_Read; fold (read_fatal errno); by rewrite Hf).
  destruct (read_again errno).
  - rewrite (sock_read_Ret _ _ _ _ E'). exists (Ret true), r, (ShGate (Sh c)). rewrite app_nil_r. split; [by destruct c as [? []] |]. by do 3 (split; [done |]).
  - rewrite (sock_read_Throw _ _ _ _ E'). eexists _, r, (ShGate (Sh c)). rewrite app_nil_r. split; [by destruct c as [? []] |]. do 2 (split; [done |]).
    destruct (LostTcpConnection errno); [| done]. split; [done | by eapply settled_reusable].
Qed.

(** A client whose reader has met a bad size field after the messages of the last read. *)
Lemma read_invalid_ok e c data reason :
  client_holds (Fn c) data → next_frame cfg data = FrameBad reason → gate_ok (ShGate (Sh c)) →
  client_result c [] (ShInput (Sh c)) Dies (HandleSockReadReady e c).
Proof.
  intros [Hs Hn Hb] Hp Hg. pose proof (st_case _ _ _ _ Hs) as Hc. rewrite Hp in Hc. destruct Hc as [Hst _].
  assert (PrepareForRead (FnReader (Fn c)) = (Fault Died, FnReader (Fn c))) as E.
  { unfold PrepareForRead, RM. rewrite (bind_Ret _ _ _ (Impl (FnReader (Fn c))) (FnReader (Fn c))) by done. cbv beta. by rewrite Hst. }
  eexists _, _, (ShGate (Sh c)). rewrite app_nil_r. split; [| by split]. rewrite (sock_read_Fault e c Died (FnReader (Fn c))); [by destruct c as [? []] |].
  assert (∀ res, Read res (FnReader (Fn c)) = (Fault Died, FnReader (Fn c))) as E2 by (intros res; unfold Read, RM; by rewrite (bind_Fault _ _ _ _ _ E)).
  unfold Wr_Read. destruct (ce_read e); [apply E2 |]. destruct (IsFatal _ _ _ _ _); [| apply E2]. unfold RM. by rewrite (bind_Fault _ _ _ _ _ E).
Qed.

(** An iteration does what [client_effect] says. *)
Lemma client_iteration_ok e c data evs next msgs w' :
  client_holds (Fn c) data → client_event_ok e → gate_ok (ShGate (Sh c)) →
  client_effect max (IsTcp (Fn c)) e data = (evs, next) → process_all evs (ShInput (Sh c)) = (Ret msgs, w') →
  client_result c msgs w' next (client_iteration e c).
Proof.
  intros Hc [Hpoll Hread] Hg Heff Hpr. unfold client_effect in Heff. unfold client_iteration, wait_for_event, AM.
  assert (∀ o, (o = Ret false ∧ next = Ends ∨ o = Fault Died ∧ next = Dies) → evs = [] → client_result c msgs w' next (o, c)) as Hstop.
  { intros o Ho ->. injection Hpr as <- <-. exists o, (FnReader (Fn c)), (ShGate (Sh c)). rewrite app_nil_r. split; [by destruct c as [[] []] |].
    do 2 (split; [done |]). destruct Ho as [[-> ->] | [-> ->]]; [| done]. split; [done |]. destruct Hc. by eapply settled_reusable. }
  destruct (ce_poll e) as [errno | ret input shutdown].
  { injection Heff as <- <-. assert (IsFatal errno AddFatal [EINTR] true [EFAULT; EINVAL; ENOMEM] = true) as ->; [| by apply Hstop; [right |]].
    by apply poll_fatal. }
  destruct Hpoll as [Hret Hor]. rewrite (bind_Ret _ _ c (input, shutdown) c) by (rewrite massert_bind; [done | by apply Z.ltb_lt]).
  cbv beta iota. rewrite massert_bind by done. destruct shutdown; [injection Heff as <- <-; by apply Hstop; [left |] |].
  destruct (next_frame cfg data) as [n | | reason] eqn:Hn; [by destruct (ch_frame _ _ Hc n) | |].
  - destruct (ce_read e) as [[| b bs] | errno] eqn:Hr.
    + injection Heff as <- <-. by eapply read_end_ok.
    + pose proof (read_bytes_ok e c data (b :: bs) msgs w' Hc Hn Hg Hr ltac:(done) Hread) as H. rewrite Heff in H. by apply H.
    + injection Heff as <- <-. injection Hpr as <- <-. by eapply read_error_ok.
  - injection Heff as <- <-. injection Hpr as <- <-. by eapply read_invalid_ok.
Qed.

(** *** The start and the end of a client *)

Lemma new_reusable : reusable (FnReader TStreamClientWorkFn_new).
Proof. exists [], 0, None, None. split; [by left |]. split; [split; [exists [], []; done | done | done] |]. split; [done | vm_compute; discriminate]. Qed.

Lemma HandleConnection_ok is_tcp sock c :
  reusable (FnReader (Fn c)) → 0 ≤ sock →
  ∃ r, HandleConnection is_tcp max sock c = (Ret (), mkClient (mkClientFn true is_tcp sock r) (Sh c)) ∧
    client_holds (mkClientFn true is_tcp sock r) [].
Proof.
  intros (data & m & o & reason & Hm & Hb & Hsub & Hbound) Hsock.
  assert (cfg_ok (client_reader m)) as Hcfg by (split; cbn; [auto | destruct Hm; subst; lia | lia]).
  destruct (Reset_eq (client_reader m) sock _ data o reason Hb Hsub) as (b & E & Hb' & Hst).
  exists (mkReader (TImpl_new sock b) (sized cfg None None)). split; [| split].
  - unfold HandleConnection, SetState, AM. set (c1 := mkClient (mkClientFn true is_tcp sock (FnReader (Fn c))) (Sh c)).
    rewrite (bind_Ret _ _ c () (mkClient (mkClientFn true is_tcp sock (mkReader (TImpl_new sock b) (sized cfg None None))) (Sh c))).
    + unfold client_begin, AM. erewrite bind_Ret by reflexivity. cbv beta. rewrite !massert_bind by (cbn; lia). unfold massert.
      cbn. unfold TImpl_new. rewrite (proj2 (Z.ltb_ge sock 0)) by lia. cbn. by rewrite Z.eqb_refl.
    + rewrite (bind_Ret _ _ c () c1) by done. by rewrite (bind_Ret _ _ _ _ _ (on_stream_Ret _ c1 _ _ E)).
  - by apply fresh_settled; [apply client_cfg | ..].
  - exact (leftover_frame []).
  - cbn. unfold TImpl_new. cbn. rewrite Hst. unfold storage_bound in *. cbn in *. destruct Hm; subst; lia.
Qed.

Lemma Detach_ok c : reusable (FnReader (Fn c)) →
  ∃ r, Detach c = (Ret (), mkClient (mkClientFn false false (-1) r) (Sh c)) ∧ reusable r.
Proof.
  intros (data & m & o & reason & Hm & Hb & Hsub & Hbound).
  destruct (Reset_eq (client_reader m) (-1) _ data o reason Hb Hsub) as (b & E & Hb' & Hst).
  exists (mkReader (TImpl_new (-1) b) (sized (client_reader m) None None)). split.
  - unfold Detach, AM. set (c1 := mkClient (mkClientFn false false (-1) (FnReader (Fn c))) (Sh c)).
    rewrite (bind_Ret _ _ c () c1) by done. by rewrite (on_stream_Ret _ c1 _ _ E).
  - exists [], m, None, None. split; [done |]. split; [done |]. split; [done |]. cbn. lia.
Qed.

(** *** An iteration that returns has processed its events *)

Lemma part_inv_Ret {S T E A} {proj : S → T} {upd : T → S → S} {f : E → agent_exn} (m : M E T A) s a s' :
  part proj upd f m s = (Ret a, s') → ∃ t, m (proj s) = (Ret a, t) ∧ s' = upd t s.
Proof. unfold part. destruct (m (proj s)) as [[] t]; [| done..]. intros [= <- <-]. by exists t. Qed.

Lemma handle_messages_processed fuel e k data n c b c' :
  settled cfg (FnReader (Fn c)) data false → next_frame cfg data = FrameMsg n → gate_ok (ShGate (Sh c)) →
  handle_messages fuel e k MsgReady c = (Ret b, c') →
  ∃ msgs w', process_all (datagrams e k (frames cfg data).1) (ShInput (Sh c)) = (Ret msgs, w').
Proof.
  revert k data n c. induction fuel as [| fuel IH]; intros k data n c Hs Hn Hg E; [done |].
  destruct (ready_msg_ok cfg client_cfg _ data false n Hs Hn) as (mem & H1 & H2 & _ & H3).
  destruct (Consume_ok cfg client_cfg _ data false n Hs Hn) as (r1 & H4 & Hs1 & Hst1).
  rewrite (frames_msg data n Hn). cbn [fst datagrams].
  cbn [handle_messages] in E. unfold AM in E. rewrite (bind_Ret _ _ _ _ _ (on_stream_same _ _ _ H1)), (bind_Ret _ _ _ _ _ (on_stream_same _ _ _ H2)) in E.
  rewrite Nat2Z.id, H3 in E. change (reported cfg (take n data)) with (take n data) in E.
  apply bind_inv_Ret in E as (m & c1 & (wa & Ha & ->)%part_inv_Ret & E). cbn [Fn Sh] in E.
  destruct (forward_ok (mkClient (Fn c) (mkInputShared wa (ShGate (Sh c)))) m wa Hg eq_refl) as (g1 & H5 & Hg1 & _).
  unfold AM in H5. rewrite (bind_Ret _ _ _ _ _ H5) in E. set (c2 := same_stream _ _ _) in E.
  rewrite (bind_Ret _ _ c2 (State (Impl r1)) (same_stream c2 r1 (Sh c2))) in E by (by apply on_stream_Ret).
  assert (∃ msgs w', process_all (datagrams e (S k) (frames cfg (drop n data)).1) wa = (Ret msgs, w')) as (msgs & w' & Hp).
  { destruct (next_frame cfg (drop n data)) as [n2 | | reason] eqn:Hn2; [| destruct (frames_none (drop n data)) as [-> _]; [by rewrite Hn2 | by do 2 eexists]..].
    pose proof (st_case _ _ _ _ Hs1) as Hc. rewrite Hn2 in Hc. destruct Hc as [Hst _]. rewrite Hst, bool_decide_true in E by done.
    exact (IH (S k) (drop n data) n2 (same_stream c2 r1 (Sh c2)) Hs1 Hn2 Hg1 E). }
  do 2 eexists. by eapply process_all_cons.
Qed.

Lemma client_iteration_processed e c data evs next b c' :
  client_holds (Fn c) data → client_event_ok e → gate_ok (ShGate (Sh c)) →
  client_effect max (IsTcp (Fn c)) e data = (evs, next) → client_iteration e c = (Ret b, c') →
  ∃ msgs w', process_all evs (ShInput (Sh c)) = (Ret msgs, w').
Proof.
  intros Hc [Hpoll Hread] Hg Heff E. unfold client_effect in Heff.
  destruct (ce_poll e) as [errno | ret input shutdown] eqn:Hpe; [injection Heff as <- <-; by do 2 eexists |].
  destruct shutdown; [injection Heff as <- <-; by do 2 eexists |].
  destruct (next_frame cfg data) as [n | | reason] eqn:Hn; [by destruct (ch_frame _ _ Hc n) | | injection Heff as <- <-; by do 2 eexists].
  destruct (ce_read e) as [[| x bs] | errno] eqn:Hr; [injection Heff as <- <-; case_decide; by do 2 eexists | | injection Heff as <- <-; by do 2 eexists].
  destruct Hc as [Hs _ Hb]. destruct (Read_ok cfg client_cfg _ data (x :: bs) Hs Hn Hread Hb) as (r & Er & Hs1 & Hb1).
  rewrite bool_decide_false in Hs1 by done. destruct (next_frame cfg (data ++ x :: bs)) as [n | | reason] eqn:Hn1.
  - assert (evs = datagrams e 0 (frames cfg (data ++ x :: bs)).1) as ->.
    { rewrite (frames_msg _ _ Hn1) in Heff |- *. cbn [fst]. by injection Heff as <- <-. }
    unfold client_iteration, wait_for_event, AM in E. rewrite Hpe in E. destruct Hpoll as [Hret Hor].
    rewrite (bind_Ret _ _ c (input, false) c) in E by (rewrite massert_bind; [done | by apply Z.ltb_lt]). cbv beta iota in E. rewrite massert_bind in E by done.
    erewrite sock_read_Ret in E by (rewrite Hr; exact Er). pose proof (st_case _ _ _ _ Hs1) as Hc1. rewrite Hn1 in Hc1. destruct Hc1 as [Hst _]. rewrite Hst in E.
    exact (handle_messages_processed _ e 0 _ n (same_stream c r (Sh c)) b c' Hs1 Hn1 Hg E).
  - rewrite (frames_eq cfg client_cfg), Hn1 in Heff. injection Heff as <- <-. by do 2 eexists.
  - rewrite (frames_eq cfg client_cfg), Hn1 in Heff. injection Heff as <- <-. by do 2 eexists.
Qed.

(** *** The frames of the whole stream *)

Lemma frames_concat data : concat (frames cfg data).1 ++ leftover max data = data.
Proof.
  remember (length data) as k eqn:Hk. revert data Hk. induction (Nat.lt_wf_0 k) as [k _ IH]. intros data ->.
  destruct (next_frame cfg data) as [n | | reason] eqn:Hn; [| destruct (frames_none data) as [-> ->]; [by rewrite Hn | done]..].
  rewrite (leftover_msg data n Hn), (frames_msg data n Hn). cbn [fst concat]. rewrite <- app_assoc, (IH (length (drop n data))); [apply take_drop | | done].
  pose proof (next_frame_msg cfg client_cfg data n Hn) as (_ & _ & _ & _ & Hl). rewrite length_drop. lia.
Qed.

Lemma datagrams_dg e k fs : omap event_dg (datagrams e k fs) = fs.
Proof. revert k. induction fs as [| f fs IH]; intros k; [done |]. cbn. by rewrite IH. Qed.

Lemma frames_more bs rest x : (frames cfg bs).2 = StreamPartial rest →
  frames cfg (bs ++ x) = ((frames cfg bs).1 ++ (frames cfg (rest ++ x)).1, (frames cfg (rest ++ x)).2) ∧ leftover max (bs ++ x) = leftover max (rest ++ x).
Proof.
  intros Hr. pose proof (leftover_end bs) as Hl. rewrite Hr in Hl. destruct Hl as [Hl _]. pose proof (frames_concat bs) as Hcat.
  assert (frames cfg (bs ++ x) = ((frames cfg bs).1 ++ (frames cfg (rest ++ x)).1, (frames cfg (rest ++ x)).2)) as E.
  { rewrite (frames_app cfg client_cfg). destruct (frames cfg bs) as [fs e]. cbn in Hr. rewrite Hr. by destruct (frames cfg (rest ++ x)). }
  split; [done |]. rewrite Hl in Hcat. unfold leftover. rewrite E. cbn [fst]. clear Hr Hl E. revert Hcat.
  generalize (frames cfg bs).1. intros fs <-. rewrite concat_app, length_app, <- app_assoc, <- drop_drop. by rewrite drop_app_length.
Qed.

Lemma effect_frames e is_tcp bs evs next :
  client_effect max is_tcp e (leftover max bs) = (evs, next) → next ≠ Dies →
  (frames cfg (bs ++ client_takes e)).1 = (frames cfg bs).1 ++ omap event_dg evs ∧
  ∀ data, next = Goes data → data = leftover max (bs ++ client_takes e).
Proof.
  intros Heff Hnd. unfold client_effect in Heff. unfold client_takes.
  destruct (ce_poll e) as [errno | ret input [] ]; [by injection Heff as <- <- | injection Heff as <- <-; by rewrite !app_nil_r |].
  pose proof (leftover_end bs) as Hl. destruct (frames cfg bs).2 as [rest | reason] eqn:Hr; [| rewrite Hl in Heff; by injection Heff as <- <-].
  destruct Hl as [Hl Hn]. rewrite Hl, Hn in Heff. destruct (ce_read e) as [[| b bytes] | errno].
  - injection Heff as <- <-. rewrite !app_nil_r. by case_decide; rewrite app_nil_r.
  - destruct (frames_more bs rest (b :: bytes) Hr) as [E1 E2]. rewrite E1, E2. cbn [fst].
    destruct (frames cfg (rest ++ b :: bytes)) as [[| f fs] [rest' | reason]]; injection Heff as <- <-; cbn [fst];
      (split; [f_equal; cbn; by rewrite ?datagrams_dg |]); congruence.
  - injection Heff as <- <-. rewrite !app_nil_r. split; [done |]. intros data Hd. destruct (read_fatal errno); [done |].
    destruct (read_again errno); [congruence | by destruct (LostTcpConnection errno)].
Qed.
End client.

(** ** The datagram agent *)

(** An iteration, as for the clients. *)
Definition dg_effect (e : dg_event) : list input_event * client_next :=
  match de_poll e, de_recv e with
  | PollErr _, _ => ([], Dies)
  | PollRet _ _ true, _ => ([], Ends)
  | _, ReadError _ => ([], Dies)
  | _, ReadBytes dg => ([EvDatagram (de_clocks e).1 (de_clocks e).2 dg], Goes [])
  end.

(** [recv()] stores at most the size of the buffer. *)
Definition dg_event_ok (size : nat) (e : dg_event) : Prop :=
  match de_poll e with
  | PollErr errno => errno ∈ [EFAULT; EINTR; EINVAL; ENOMEM]
  | PollRet ret input shutdown => 0 < ret ∧ input || shutdown = true
  end ∧
  match de_recv e with ReadBytes dg => (length dg ≤ size)%nat | ReadError _ => True end.

Lemma dg_input_Ret {A} (m : InputDg.IM A) d a w : m (ShInput (DgSh d)) = (Ret a, w) → dg_input m d = (Ret a, mkDg (Agent d) (mkInputShared w (ShGate (DgSh d)))).
Proof. intros H. exact (part_Ret (proj := λ d, ShInput (DgSh d)) m d a w H). Qed.

Lemma dg_gate_Ret {A} (m : GM TMsg (option A)) d a g :
  m (ShGate (DgSh d)) = (Ret (Some a), g) → dg_gate m d = (Ret a, mkDg (Agent d) (mkInputShared (ShInput (DgSh d)) g)).
Proof. intros H. unfold dg_gate, DM. by rewrite (bind_Ret _ _ _ _ _ (part_Ret (proj := λ d, ShGate (DgSh d)) m d (Some a) g H)). Qed.


Definition dg_result (d : TDg) (msgs : list TMsg) (w' : TInput) (next : client_next) (res : outcome agent_exn bool * TDg) : Prop :=
  ∃ o a g, res = (o, mkDg a (mkInputShared w' g)) ∧ gate_ok g ∧ MsgList g = MsgList (ShGate (DgSh d)) ++ msgs ∧
  length (InputBuf a) = length (InputBuf (Agent d)) ∧
  o = match next with Goes _ => Ret true | Ends => Ret false | Dies => Fault Died end.

Lemma dg_iteration_ok e d evs next msgs w' :
  dg_event_ok (length (InputBuf (Agent d))) e → gate_ok (ShGate (DgSh d)) → dg_effect e = (evs, next) →
  process_all evs (ShInput (DgSh d)) = (Ret msgs, w') → dg_result d msgs w' next (dg_iteration e d).
Proof.
  intros [Hpoll Hrecv] Hg Heff Hpr. unfold dg_effect in Heff. unfold dg_iteration, wait_for_event, DM.
  assert (∀ o a, length (InputBuf a) = length (InputBuf (Agent d)) → evs = [] →
    o = match next with Goes _ => Ret true | Ends => Ret false | Dies => Fault Died end → dg_result d msgs w' next (o, mkDg a (DgSh d))) as Hstop.
  { intros o a Ha -> Ho. injection Hpr as <- <-. exists o, a, (ShGate (DgSh d)). rewrite app_nil_r. split; [by destruct d as [? []] |]. by do 3 (split; [done |]). }
  destruct (de_poll e) as [errno | ret input shutdown].
  { injection Heff as <- <-. rewrite (poll_fatal errno Hpoll). destruct d as [a sh]. by apply (Hstop (Fault Died) a). }
  destruct Hpoll as [Hret Hor]. rewrite (bind_Ret _ _ d (input, shutdown) d) by (rewrite massert_bind; [done | by apply Z.ltb_lt]). cbv beta iota.
  destruct shutdown.
  { injection Heff as <- <-. destruct d as [a sh]. erewrite bind_Ret by reflexivity. cbv beta. cbn [Agent].
    destruct (DgDestroying a); (erewrite bind_Ret by reflexivity); by apply Hstop. }
  rewrite orb_false_r in Hor. rewrite massert_bind by done. unfold ReadOneMsg, DM. destruct (de_recv e) as [dg | errno].
  - injection Heff as <- <-. cbn [process_all] in Hpr. apply bind_inv_Ret in Hpr as (m & wa & Ha & Hpr). injection Hpr as <- <-. rewrite app_nil_r.
    set (d1 := mkDg ((Agent d) <| InputBuf := dg ++ drop (length dg) (InputBuf (Agent d)) |>) (DgSh d)).
    set (d2 := mkDg (Agent d1) (mkInputShared wa (ShGate (DgSh d)))).
    rewrite (bind_Ret _ _ d m d2).
    + assert (∃ g, (match m with Some msg => dg_gate (Put msg) | None => mret () end : DM ()) d2 = (Ret (), mkDg (Agent d1) (mkInputShared wa g)) ∧
        gate_ok g ∧ MsgList g = MsgList (ShGate (DgSh d)) ++ option_list m) as (g & E & Hg' & Hl).
      { destruct m as [m |]; [| exists (ShGate (DgSh d)); by rewrite app_nil_r]. destruct (Put_ok m _ Hg) as (g & E & Hg' & Hl). exists g. split; [| done].
        by rewrite (dg_gate_Ret (Put m) d2 () g E). }
      unfold DM in E. rewrite (bind_Ret _ _ _ _ _ E). exists (Ret true), (Agent d1), g. do 3 (split; [done |]). split; [| done].
      cbn. rewrite length_app, length_drop. lia.
    + rewrite (bind_Ret _ _ d (length dg) d1).
      * erewrite bind_Ret by reflexivity. cbv beta. cbn [Agent d1 InputBuf]. change (InputBuf _ <| InputBuf := ?x |>) with x. rewrite take_app_length.
        exact (dg_input_Ret _ d1 m wa Ha).
      * erewrite bind_Ret by reflexivity. cbv beta. by rewrite (proj2 (Nat.ltb_ge _ _)) by lia.
  - injection Heff as <- <-. destruct d as [a sh]. by apply (Hstop (Fault Died) a).
Qed.

Lemma dg_iteration_processed e d evs next b d' :
  dg_event_ok (length (InputBuf (Agent d))) e → dg_effect e = (evs, next) → dg_iteration e d = (Ret b, d') →
  ∃ msgs w', process_all evs (ShInput (DgSh d)) = (Ret msgs, w').
Proof.
  intros [Hpoll Hrecv] Heff E. unfold dg_effect in Heff. destruct (de_poll e) as [errno | ret input shutdown] eqn:Hpe; [injection Heff as <- <-; by do 2 eexists |].
  destruct shutdown; [injection Heff as <- <-; by do 2 eexists |]. destruct (de_recv e) as [dg | errno] eqn:Hr; [| injection Heff as <- <-; by do 2 eexists].
  injection Heff as <- <-. destruct Hpoll as [Hret Hor]. unfold dg_iteration, wait_for_event, DM in E. rewrite Hpe in E.
  rewrite (bind_Ret _ _ d (input, false) d) in E by (rewrite massert_bind; [done | by apply Z.ltb_lt]). cbv beta iota in E.
  rewrite orb_false_r in Hor. rewrite massert_bind in E by done. apply bind_inv_Ret in E as (m & d2 & E & _). unfold ReadOneMsg, DM in E. rewrite Hr in E.
  set (d1 := mkDg ((Agent d) <| InputBuf := dg ++ drop (length dg) (InputBuf (Agent d)) |>) (DgSh d)) in E.
  rewrite (bind_Ret _ _ d (length dg) d1) in E by (erewrite bind_Ret by reflexivity; cbv beta; by rewrite (proj2 (Nat.ltb_ge _ _)) by lia).
  erewrite bind_Ret in E by reflexivity. cbv beta in E. change (InputBuf (Agent d1)) with (dg ++ drop (length dg) (InputBuf (Agent d))) in E.
  rewrite take_app_length in E. apply part_inv_Ret in E as (wa & Ha & _). do 2 eexists. by eapply (process_all_cons (EvDatagram _ _ dg) []).
Qed.

(** ** All agents and the router

    [is_clients]: the clients that run, by number.  [is_idle]: the workers of the pool whose
    client has gone.  [is_agent]: the datagram agent, while it runs.  Ghosts: what the router
    has taken, the events processed with their source (a client, or the datagram agent) and
    the bytes received from each client. *)
Record input_sys := mkInputSys {
  is_clients : gmap nat TStreamClientWorkFn;
  is_idle : list TStreamClientWorkFn;
  is_agent : option TUnixDgInputAgent;
  is_shared : TInputShared;
  is_taken : list TMsg;
  is_trace : list (option nat * input_event);
  is_received : gmap nat (list byte)
}.

(** A step: a client connects and gets a new worker or an idle one; an iteration of a client,
    whose worker becomes idle at its end; an iteration of the datagram agent; a [Get] of the
    router.  An iteration is a step if it returns. *)
Inductive input_step (max : Z) : input_sys → input_sys → Prop :=
| SysConnect cs idle idle' ag sh tk tr rc i is_tcp sock fn fn' :
    rc !! i = None → 0 ≤ sock → (fn = TStreamClientWorkFn_new ∧ idle' = idle ∨ idle ≡ₚ fn :: idle') →
    HandleConnection is_tcp max sock (mkClient fn sh) = (Ret (), mkClient fn' sh) →
    input_step max (mkInputSys cs idle ag sh tk tr rc) (mkInputSys (<[i := fn']> cs) idle' ag sh tk tr (<[i := []]> rc))
| SysIterate cs idle ag sh tk tr rc i e fn bs evs next c' :
    cs !! i = Some fn → rc !! i = Some bs → client_event_ok e →
    client_effect max (IsTcp fn) e (leftover max bs) = (evs, next) → client_iteration e (mkClient fn sh) = (Ret true, c') →
    input_step max (mkInputSys cs idle ag sh tk tr rc)
      (mkInputSys (<[i := Fn c']> cs) idle ag (Sh c') tk (tr ++ ((Some i,.) <$> evs)) (<[i := bs ++ client_takes e]> rc))
| SysEnd cs idle ag sh tk tr rc i e fn bs evs next c' c'' :
    cs !! i = Some fn → rc !! i = Some bs → client_event_ok e →
    client_effect max (IsTcp fn) e (leftover max bs) = (evs, next) → client_iteration e (mkClient fn sh) = (Ret false, c') →
    Detach c' = (Ret (), c'') →
    input_step max (mkInputSys cs idle ag sh tk tr rc)
      (mkInputSys (delete i cs) (Fn c'' :: idle) ag (Sh c'') tk (tr ++ ((Some i,.) <$> evs)) (<[i := bs ++ client_takes e]> rc))
| SysDatagram cs idle a sh tk tr rc e evs next b d' :
    dg_event_ok (length (InputBuf a)) e → dg_effect e = (evs, next) → dg_iteration e (mkDg a sh) = (Ret b, d') →
    input_step max (mkInputSys cs idle (Some a) sh tk tr rc)
      (mkInputSys cs idle (if b then Some (Agent d') else None) (DgSh d') tk (tr ++ ((None,.) <$> evs)) rc)
| SysGet cs idle ag sh tk tr rc intr l g' :
    Get intr (ShGate sh) = (Ret (Some l), g') →
    input_step max (mkInputSys cs idle ag sh tk tr rc) (mkInputSys cs idle ag (mkInputShared (ShInput sh) g') (tk ++ l) tr rc).

(** The start: the datagram agent, if it is configured, and no clients. *)
Definition input_init (ag : option TUnixDgInputAgent) (w : TInput) : input_sys :=
  mkInputSys ∅ [] ag (mkInputShared w TGate_new) [] [] ∅.

(** The datagrams of a source in a trace. *)
Definition datagrams_of (src : option nat) (tr : list (option nat * input_event)) : list (list byte) :=
  omap (λ p, if decide (p.1 = src) then event_dg p.2 else None) tr.

Record input_inv (max : Z) (w0 : TInput) (s : input_sys) : Prop := {
  ii_process : process_all (is_trace s).*2 w0 = (Ret (is_taken s ++ MsgList (ShGate (is_shared s))), ShInput (is_shared s));
  ii_gate : gate_ok (ShGate (is_shared s));
  ii_clients i fn : is_clients s !! i = Some fn → ∃ bs, is_received s !! i = Some bs ∧ client_holds max fn (leftover max bs);
  ii_idle : Forall (λ fn, reusable max (FnReader fn)) (is_idle s);
  ii_received i : datagrams_of (Some i) (is_trace s) =
    match is_received s !! i with Some bs => (frames (client_reader max) bs).1 | None => [] end
}.

Lemma datagrams_of_app src tr tr' : datagrams_of src (tr ++ tr') = datagrams_of src tr ++ datagrams_of src tr'.
Proof. apply omap_app. Qed.

Lemma datagrams_of_source src src' evs :
  datagrams_of src ((src',.) <$> evs) = if decide (src' = src) then omap event_dg evs else [].
Proof.
  unfold datagrams_of. induction evs as [| e evs IH]; [by case_decide |]. rewrite fmap_cons. cbn. rewrite IH. by case_decide; destruct (event_dg e).
Qed.

(** The fields of a state that is written out. *)
Tactic Notation "sys_fields" := cbn [is_clients is_idle is_agent is_shared is_taken is_trace is_received Sh Fn DgSh ShGate ShInput same_stream input_init TGate_new MsgList].
Tactic Notation "sys_fields" "in" "*" := cbn [is_clients is_idle is_agent is_shared is_taken is_trace is_received Sh Fn DgSh ShGate ShInput same_stream input_init TGate_new MsgList] in *.

Section system.
Context (max : Z) (Hmax : 0 ≤ max ≤ INT32_MAX - 4) (w0 : TInput).

(** The part of the invariant about the events, after an iteration. *)
Lemma inv_process (tr : list (option nat * input_event)) src evs tk g w1 msgs w2 g2 :
  process_all tr.*2 w0 = (Ret (tk ++ MsgList g), w1) → process_all evs w1 = (Ret msgs, w2) → MsgList g2 = MsgList g ++ msgs →
  process_all (tr ++ ((src,.) <$> evs)).*2 w0 = (Ret (tk ++ MsgList g2), w2).
Proof.
  intros H1 H2 ->. rewrite fmap_app, app_assoc. eapply process_all_app; [done |]. by rewrite <- list_fmap_compose, list_fmap_id.
Qed.

(** The part about the bytes received. *)
Lemma inv_received tr (rc : gmap nat (list byte)) i bs e is_tcp evs next :
  (∀ j, datagrams_of (Some j) tr = match rc !! j with Some bs => (frames (client_reader max) bs).1 | None => [] end) →
  rc !! i = Some bs → client_effect max is_tcp e (leftover max bs) = (evs, next) → next ≠ Dies → ∀ j,
  datagrams_of (Some j) (tr ++ ((Some i,.) <$> evs)) =
    match <[i := bs ++ client_takes e]> rc !! j with Some bs => (frames (client_reader max) bs).1 | None => [] end.
Proof.
  intros Htr Hi Heff Hnd j. rewrite datagrams_of_app, datagrams_of_source, Htr. destruct (decide (i = j)) as [-> | Hne].
  - rewrite decide_True, lookup_insert_eq, Hi by done. symmetry. by eapply effect_frames.
  - by rewrite decide_False, app_nil_r, lookup_insert_ne by congruence.
Qed.

(** An iteration of a client that returns. *)
Lemma client_returned fn sh e bs evs next b c' :
  client_holds max fn (leftover max bs) → client_event_ok e → gate_ok (ShGate sh) →
  client_effect max (IsTcp fn) e (leftover max bs) = (evs, next) → client_iteration e (mkClient fn sh) = (Ret b, c') →
  ∃ msgs r w' g, process_all evs (ShInput sh) = (Ret msgs, w') ∧ c' = same_stream (mkClient fn sh) r (mkInputShared w' g) ∧ gate_ok g ∧
    MsgList g = MsgList (ShGate sh) ++ msgs ∧ next ≠ Dies ∧
    if b then client_holds max (Fn c') (leftover max (bs ++ client_takes e)) else reusable max r.
Proof.
  intros Hh He Hg Heff E. destruct (client_iteration_processed max Hmax e (mkClient fn sh) _ _ _ _ _ Hh He Hg Heff E) as (msgs & w' & Hpr).
  destruct (client_iteration_ok max Hmax e (mkClient fn sh) _ _ _ _ _ Hh He Hg Heff Hpr) as (o & r & g & E2 & Hg' & Hl & Hn).
  rewrite E in E2. injection E2 as <- ->. exists msgs, r, w', g. do 4 (split; [done |]).
  destruct next as [data | |]; [| by destruct Hn as [[= ->] ?] | done]. destruct Hn as [[= ->] Hh']. split; [done |].
  destruct (effect_frames max Hmax e (IsTcp fn) bs evs _ Heff) as [_ Hd]; [done |]. by rewrite <- (Hd data).
Qed.

Lemma input_step_inv s s' : input_inv max w0 s → input_step max s s' → input_inv max w0 s'.
Proof.
  intros [Hp Hg Hc Hi Hr] Hs. destruct Hs as [cs idle idle' ag sh tk tr rc i is_tcp sock fn fn' Hrc Hsock Hfn E
    | cs idle ag sh tk tr rc i e fn bs evs next c' Hcs Hrc He Heff E | cs idle ag sh tk tr rc i e fn bs evs next c' c'' Hcs Hrc He Heff E E'
    | cs idle a sh tk tr rc e evs next b d' He Heff E | cs idle ag sh tk tr rc intr l g' E]; sys_fields in *.
  - assert (reusable max (FnReader fn) ∧ Forall (λ fn, reusable max (FnReader fn)) idle') as [Hre Hi'].
    { destruct Hfn as [[-> ->] | Hperm]; [split; [apply new_reusable | done] |]. rewrite Hperm in Hi. by apply Forall_cons in Hi. }
    destruct (HandleConnection_ok max Hmax is_tcp sock (mkClient fn sh) Hre Hsock) as (r & E2 & Hh). rewrite E in E2. injection E2 as ->.
    split; sys_fields; [done | done | | done |].
    + intros j f. destruct (decide (i = j)) as [<- | Hne]; [| by rewrite !lookup_insert_ne by done; apply Hc]. rewrite !lookup_insert_eq. intros [= <-].
      by exists [].
    + intros j. rewrite Hr. destruct (decide (i = j)) as [<- | Hne]; [by rewrite Hrc, lookup_insert_eq | by rewrite lookup_insert_ne].
  - destruct (Hc i fn Hcs) as (bs' & Hbs & Hh). assert (bs' = bs) as -> by congruence.
    destruct (client_returned fn sh e bs evs next true c' Hh He Hg Heff E) as (msgs & r & w' & g & Hpr & -> & Hg' & Hl & Hnd & Hh').
    split; sys_fields; [by eapply inv_process | done | | done | by eapply inv_received].
    intros j f. destruct (decide (i = j)) as [<- | Hne]; [| by rewrite !lookup_insert_ne by done; apply Hc]. rewrite !lookup_insert_eq. intros [= <-].
    by eexists.
  - destruct (Hc i fn Hcs) as (bs' & Hbs & Hh). assert (bs' = bs) as -> by congruence.
    destruct (client_returned fn sh e bs evs next false c' Hh He Hg Heff E) as (msgs & r & w' & g & Hpr & -> & Hg' & Hl & Hnd & Hre).
    destruct (Detach_ok max (same_stream (mkClient fn sh) r (mkInputShared w' g)) Hre) as (r2 & E3 & Hre2). rewrite E' in E3. injection E3 as ->.
    split; sys_fields; [by eapply inv_process | done | | by apply Forall_cons | by eapply inv_received].
    intros j f [Hne Hj]%lookup_delete_Some. rewrite lookup_insert_ne by done. by apply Hc.
  - destruct (dg_iteration_processed e (mkDg a sh) evs next b d' He Heff E) as (msgs & w' & Hpr).
    destruct (dg_iteration_ok e (mkDg a sh) evs next msgs w' He Hg Heff Hpr) as (o & a' & g & E2 & Hg' & Hl & _). rewrite E in E2. injection E2 as _ ->.
    split; sys_fields; [by eapply inv_process | done | done | done |].
    intros j. by rewrite datagrams_of_app, datagrams_of_source, decide_False, app_nil_r by done.
  - destruct (Get_inv intr _ l g' Hg E) as (-> & ->). split; sys_fields; [by rewrite app_nil_r | done..].
Qed.

Lemma input_reachable ag s : rtc (input_step max) (input_init ag w0) s → input_inv max w0 s.
Proof.
  intros H. refine (rtc_ind_r (λ s', input_inv max w0 s') (input_init ag w0) _ _ s H).
  - split; sys_fields; done.
  - intros x y _ Hstep Hx. by eapply input_step_inv.
Qed.
End system.

(** A datagram that is not just a header with a known API key. *)
Definition has_body (dg : list byte) : Prop := ∀ rt, classify dg ≠ EmptyVersionedPart rt.

Lemma process_all_total evs w free lv pop :
  input_ok w free lv pop → Forall has_body (omap event_dg evs) → ∃ msgs w', process_all evs w = (Ret msgs, w').
Proof.
  revert w free lv pop. induction evs as [| e evs IH]; intros w free lv pop Hw Hb; [by do 2 eexists |].
  assert (∃ m w1, process e w = (Ret m, w1)) as (m & w1 & E).
  { destruct e as [now mono dg | |]; [| by do 2 eexists..]. apply Forall_cons in Hb as [Hb _].
    destruct (BuildMsgFromDg_ok now mono dg w free lv pop Hw Hb) as (m & w1 & E & _). by do 2 eexists. }
  destruct (process_ok _ _ _ _ _ _ _ Hw E) as (f1 & l1 & Hw1 & _).
  destruct (IH w1 _ _ _ Hw1) as (ms & w2 & E2); [destruct e; [by apply Forall_cons in Hb as [_ Hb] | done..] |]. do 2 eexists. by eapply process_all_cons.
Qed.

(** C12: The input side as a whole.  In every history of connecting clients, iterations of
    the clients' threads and of the datagram agent in any interleaving, and [Get]s of the
    router, the state is that of processing one datagram after the other: what the router
    has taken and what is in the gate are the messages that result, in this order.  The
    datagrams of a stream client in it are the frames of its bytes, however they arrived.
    The gate is readable exactly if it has a message.  Every message is counted, and its
    body is in the pool. *)
Theorem input_agents_refine (max : Z) ag w free lv pop s :
  0 ≤ max ≤ INT32_MAX - 4 → input_ok w free lv pop → rtc (input_step max) (input_init ag w) s →
  let gate := ShGate (is_shared s) in
  let msgs := is_taken s ++ MsgList gate in
  process_all (is_trace s).*2 w = (Ret msgs, ShInput (is_shared s)) ∧
  (∀ i bs, is_received s !! i = Some bs → datagrams_of (Some i) (is_trace s) = (frames (client_reader max) bs).1) ∧
  IsReadable (Sem gate) = bool_decide (MsgList gate ≠ []) ∧
  ∃ free' lv', input_ok (ShInput (is_shared s)) free' (lv' ++ lv) (reverse msgs ++ pop) ∧ KeyAndValue <$> reverse msgs = l_blob <$> lv'.
Proof.
  intros Hmax Hw [Hp Hg Hc Hi Hr]%input_reachable; [| done]. split; [done |]. split; [intros i bs Hb; by rewrite Hr, Hb |].
  split; [rewrite Hg; by destruct (MsgList _) | by eapply process_all_ok].
Qed.

(** C13: The input threads are safe.  In every such history, a client's iteration does what
    its bytes say ([client_effect]), and the datagram agent's what the datagram says: no
    assertion fails, whatever the clients send, unless a datagram is just a header with a
    known API key.  The process dies of a fatal error of a system call, or when a client goes
    on after a bad size field that followed a message in the same read. *)
Theorem input_agents_safe (max : Z) ag w free lv pop s :
  0 ≤ max ≤ INT32_MAX - 4 → input_ok w free lv pop → rtc (input_step max) (input_init ag w) s →
  (∀ i fn e evs next, is_clients s !! i = Some fn → client_event_ok e →
     client_effect max (IsTcp fn) e (leftover max (is_received s !!! i)) = (evs, next) → Forall has_body (omap event_dg evs) →
     (client_iteration e (mkClient fn (is_shared s))).1 = match next with Goes _ => Ret true | Ends => Ret false | Dies => Fault Died end) ∧
  (∀ a e evs next, is_agent s = Some a → dg_event_ok (length (InputBuf a)) e → dg_effect e = (evs, next) → Forall has_body (omap event_dg evs) →
     (dg_iteration e (mkDg a (is_shared s))).1 = match next with Goes _ => Ret true | Ends => Ret false | Dies => Fault Died end).
Proof.
  intros Hmax Hw Hs. destruct (input_reachable max Hmax w ag s Hs) as [Hp Hg Hc _ _].
  destruct (process_all_ok _ _ _ _ _ _ _ Hw Hp) as (f1 & l1 & Hw1 & _). split.
  - intros i fn e evs next Hi He Heff Hb. destruct (Hc i fn Hi) as (bs & Hbs & Hh). rewrite (lookup_total_correct _ _ _ Hbs) in Heff.
    destruct (process_all_total evs _ _ _ _ Hw1 Hb) as (ms & w2 & Hpr).
    destruct (client_iteration_ok max Hmax e (mkClient fn (is_shared s)) _ _ _ _ _ Hh He Hg Heff Hpr) as (o & r & g & -> & _ & _ & Hn).
    destruct next; [by destruct Hn | by destruct Hn | done].
  - intros a e evs next _ He Heff Hb. destruct (process_all_total evs _ _ _ _ Hw1 Hb) as (ms & w2 & Hpr).
    by destruct (dg_iteration_ok e (mkDg a (is_shared s)) evs next ms w2 He Hg Heff Hpr) as (o & a' & g & -> & _ & _ & _ & ->).
Qed.

(** ** Examples *)

(** A client sends a datagram in two parts, and the router takes the message. *)
Definition ex_shared : TInputShared := mkInputShared ex_input TGate_new.

Definition ex_read (bytes : list byte) : client_event := mkClientEvent (PollRet 1 true false) (ReadBytes bytes) (λ _, (1001, 7)) 1001.

Definition ex_connected : TClient := (HandleConnection false 1000 7 (mkClient TStreamClientWorkFn_new ex_shared)).2.
Definition ex_first : TClient := (client_iteration (ex_read (take 5 ex_dg)) (mkClient (Fn ex_connected) ex_shared)).2.
Definition ex_second : TClient := (client_iteration (ex_read (drop 5 ex_dg)) (mkClient (Fn ex_first) (Sh ex_first))).2.

Lemma run_pair {A B} (x : A * B) a : x.1 = a → x = (a, x.2).
Proof. by destruct x; cbn; intros ->. Qed.

Lemma ex_history_reached :
  ∃ s, rtc (input_step 1000) (input_init None ex_input) s ∧ is_clients s !! 0%nat = Some (Fn ex_second) ∧ is_received s !! 0%nat = Some ex_dg ∧
    is_taken s = MsgList (ShGate (Sh ex_second)).
Proof.
  eexists. split.
  { eapply rtc_l; [apply (SysConnect 1000 ∅ [] [] None ex_shared [] [] ∅ 0 false 7 TStreamClientWorkFn_new (Fn ex_connected));
      [reflexivity | discriminate | by left | vm_compute; reflexivity] |].
    eapply rtc_l; [refine (SysIterate 1000 _ [] None ex_shared [] [] _ 0 (ex_read (take 5 ex_dg)) (Fn ex_connected) [] [] (Goes (take 5 ex_dg)) ex_first _ _ _ _ _);
      [apply lookup_insert_eq | apply lookup_insert_eq | by split | vm_compute; reflexivity | unfold ex_first at 1; apply run_pair; vm_compute; reflexivity] |].
    eapply rtc_l; [refine (SysIterate 1000 _ [] None (Sh ex_first) [] _ _ 0 (ex_read (drop 5 ex_dg)) (Fn ex_first) (take 5 ex_dg) [EvDatagram 1001 7 ex_dg] (Goes []) ex_second _ _ _ _ _);
      [apply lookup_insert_eq | apply lookup_insert_eq | by split | vm_compute; reflexivity | unfold ex_second; apply run_pair; vm_compute; reflexivity] |].
    eapply rtc_l; [| apply rtc_refl].
    refine (SysGet 1000 _ [] None (Sh ex_second) [] _ _ false (MsgList (ShGate (Sh ex_second))) TGate_new _). vm_compute. reflexivity. }
  split; [apply lookup_insert_eq | split; [apply lookup_insert_eq | reflexivity]].
Qed.

Lemma input_agents_refine_witness :
  ∃ s, rtc (input_step 1000) (input_init None ex_input) s ∧ datagrams_of (Some 0%nat) (is_trace s) = [ex_dg] ∧ length (is_taken s) = 1%nat.
Proof.
  destruct ex_history_reached as (s & Hs & _ & Hr & Ht). exists s. split; [exact Hs |].
  destruct (input_agents_refine 1000 None ex_input [2%nat; 1%nat; 0%nat] [] [] s) as (_ & Hf & _); [split; discriminate | exact ex_input_ok | exact Hs |].
  split; [rewrite (Hf 0%nat ex_dg Hr); vm_compute; reflexivity | rewrite Ht; vm_compute; reflexivity].
Defined.

(** Then the client closes the connection. *)
Lemma input_agents_safe_witness :
  ∃ s, rtc (input_step 1000) (input_init None ex_input) s ∧ (client_iteration (ex_read []) (mkClient (Fn ex_second) (is_shared s))).1 = Ret false.
Proof.
  destruct ex_history_reached as (s & Hs & Hc & Hr & _). exists s. split; [exact Hs |].
  destruct (input_agents_safe 1000 None ex_input [2%nat; 1%nat; 0%nat] [] [] s) as [Hcl _]; [split; discriminate | exact ex_input_ok | exact Hs |].
  apply (Hcl 0%nat (Fn ex_second) (ex_read []) [] Ends Hc); [split; [split; reflexivity | discriminate] | | constructor].
  refine (eq_trans (f_equal (λ bs, client_effect 1000 (IsTcp (Fn ex_second)) (ex_read []) (leftover 1000 bs)) (lookup_total_correct _ _ _ Hr)) _).
  vm_compute. reflexivity.
Defined.

(** [HandleSockReadReady] handles a bad size field if it finds it at the start of the data.  Its
    loop ends when no message is ready, so that it returns true if the bad field comes after a
    message in the same read; the next call of [Read], in the state [DataInvalid], is then a
    call of [Die].  A client ends the daemon by sending a message (here one that is discarded)
    and a negative size at once and closing the connection; sent apart, they only end the
    client's thread. *)
Theorem bad_size_after_message_dies :
  let msg := [x00; x00; x00; x05; x01] in
  let bad := [xff; xff; xff; xff] in
  let run reads := (client_loop (ex_read <$> reads) (mkClient (Fn ex_connected) ex_shared)).1 in
  run [msg ++ bad; []] = Fault Died ∧ run [msg; bad; []] = Ret false.
Proof. split; vm_compute; reflexivity. Qed.

(** The start of the datagram agent: [SyncStart] returns false exactly if the path is too long
    for a socket address (the thread has then ended with that exception); it returns true with
    the socket bound to the path if all calls succeed (there may have been no file to remove);
    any other error ends the process. *)
Definition dg_opens (conf : dg_conf) (res : open_results) : option bool :=
  if 107 <? Z.of_nat (length (c_str (UnixDgPath conf))) then Some false
  else if bool_decide (or_unlink res = None ∨ or_unlink res = Some ENOENT) && bool_decide (or_bind res = None) &&
          (negb (UnixDgMode conf) || bool_decide (or_chmod res = None)) then Some true
  else None.

(** The handler of system errors. *)
Notation die_of_system_error := (λ x, match x with ExnSystem _ => crash Died | _ => throw x end).

Lemma Bind_ok path res d :
  if bool_decide (or_unlink res = None ∨ or_unlink res = Some ENOENT) && bool_decide (or_bind res = None)
  then Bind path res d = (Ret (), mkDg ((Agent d) <| InputSocket := mkUnixSocket (SockOpen (InputSocket (Agent d))) path |>) (DgSh d))
  else (try_catch (Bind path res) die_of_system_error d).1 = Fault Died.
Proof.
  destruct res as [ru rb rc]. unfold Bind, wr_call, throw_if. cbn [or_unlink or_bind].
  destruct ru as [e |]; [destruct (decide (e = ENOENT)) as [-> | He] |].
  - destruct rb as [e |]; [| done]. rewrite andb_false_r. by destruct (IsFatal e _ _ _ _).
  - rewrite (bool_decide_false (Some e = None ∨ _)) by (intros [? | [= ->]]; done). cbn [andb]. munfold. destruct (IsFatal e _ _ _ _); [done |].
    by rewrite bool_decide_false by congruence.
  - destruct rb as [e |]; [| done]. rewrite andb_false_r. by destruct (IsFatal e _ _ _ _).
Qed.

Lemma OpenUnixSocket_ok conf res d :
  match dg_opens conf res with
  | Some true => OpenUnixSocket conf res d = (Ret (), mkDg ((Agent d) <| InputSocket := mkUnixSocket (SockOpen (InputSocket (Agent d))) (c_str (UnixDgPath conf)) |>) (DgSh d))
  | Some false => OpenUnixSocket conf res d = (Throw TPathTooLong, d)
  | None => (OpenUnixSocket conf res d).1 = Fault Died
  end.
Proof.
  unfold dg_opens, OpenUnixSocket, DM. destruct (107 <? _); [done |]. rewrite (bind_Ret _ _ d () d) by done. cbv zeta.
  pose proof (Bind_ok (c_str (UnixDgPath conf)) res d) as Hb. destruct (bool_decide _ && bool_decide _); cbn [andb].
  - rewrite (bind_Ret _ _ d () (mkDg ((Agent d) <| InputSocket := mkUnixSocket (SockOpen (InputSocket (Agent d))) (c_str (UnixDgPath conf)) |>) (DgSh d)))
      by (unfold try_catch; by rewrite Hb).
    destruct (UnixDgMode conf); cbn [negb orb]; [| done]. unfold wr_call, throw_if. destruct (or_chmod res) as [e |]; [| done].
    rewrite bool_decide_false by done. munfold. by destruct (IsFatal e _ _ _ _).
  - revert Hb. destruct (try_catch (Bind _ res) _ d) as [o d2] eqn:E. cbn. intros ->. unfold DM in E. by rewrite (bind_Fault _ _ _ _ _ E).
Qed.

Theorem unix_dg_sync_start conf res d :
  DgThread (Agent d) = TFdManagedThread_new →
  (SyncStart conf res d).1 = match dg_opens conf res with Some b => Ret b | None => Fault Died end ∧
  (dg_opens conf res = Some true → SockPath (InputSocket (Agent (SyncStart conf res d).2)) = c_str (UnixDgPath conf)) ∧
  (dg_opens conf res = Some false → Thread (DgThread (Agent (SyncStart conf res d).2)) = ThreadEnded (Some TPathTooLong)).
Proof.
  intros Hth. destruct d as [[ds sock buf ok notify th] sh]. cbn in Hth. subst th.
  set (d1 := mkDg (mkDgAgent ds sock buf false (Some TEventSemaphore_new) (mkThread ThreadRuns TEventSemaphore_new TEventSemaphore_new None)) sh).
  pose proof (OpenUnixSocket_ok conf res d1) as Ho. unfold SyncStart, Run_open. munfold.
  cbn -[OpenUnixSocket c_str].
  change (dg_start _) with (@Ret agent_exn () (), d1). cbv beta iota.
  destruct (dg_opens conf res) as [[] |].
  - rewrite Ho. cbn. done.
  - rewrite Ho. cbn. done.
  - destruct (OpenUnixSocket conf res d1) as [o d2]. cbn in Ho. subst o. done.
Qed.
